(* ===== verification/_CoqProject ===== *)
-Q . S2P
Prelude.v
CryptoInternal.v
Bignum.v
ChaCha.v
Ctr.v
Cfb.v
Blake2.v
LibuvBase.v
Inet.v
ThreadPool.v
Avl.v
Crc32c.v
Base64.v
BitSet.v
Percent.v
GprTime.v
LruLinks.v
HandleTable.v
LruCache.v
LruOps.v
LruProps.v
SkipList.v
SkipProps.v
LogReader.v
LogProps.v
Cursor.v
Coding.v
DbFormat.v
DbIter.v
DbIterView.v
DbIterProps.v
VersionEdit.v
BlockIter.v
BlockProps.v
BlockSafe.v
DbBlock.v
Doubles.v
VersionFiles.v
VersionState.v
VersionGet.v
VersionGetProps.v
Compaction.v
CompactionProps.v
CompactionSafe.v
Builder.v
BuilderProps.v
BuilderApply.v
BuilderSave.v
VersionRefs.v
Manifest.v
ManifestProps.v
ManifestSafe.v
DbState.v
CompactionWork.v
CompactionKeep.v
CompactionTables.v
MemCompact.v
CompactionSpec.v
CompactionRace.v
DbBackground.v
DbFiles.v
DbWrite.v
DbWriteProps.v
DbWriteSafe.v
DbWriteLog.v
DbWriteRuns.v
TableBuilder.v
TableReader.v
TableProps.v
TableLookup.v
TableReference.v
TableSpec.v
DbRecover.v
DbRecoverProps.v
DbFolder.v
DbRecoverTotal.v
DbRecoverSpec.v
