(* ===== verification/Prelude.v ===== *)
(** * Verification of the native C and C++ code of notely

    notely is a Flutter notes application. The code in its repository that is
    written in C and C++ is the native runtime its iOS build links, vendored
    under [src/ios/Pods 2/]: the leveldb store of the Firestore cache, the gRPC
    core, libuv and BoringSSL. This library models the self-contained parts of it
    that have a contract of their own, file by file, and proves what makes them
    correct. Paths below are relative to [src/ios/Pods 2/].

    ** How the code is modelled

    A function of the source is a Coq function with the source's name, executable,
    and a loop is a [Fixpoint], on the data where the code's loop is structural and
    on fuel where it is not; what a component mutates is a record that its
    operations take and return. A [w]-bit integer is a [Z] in [[0, 2^w)] and
    unsigned arithmetic wraps with [wrap w] (this file); bytes are [Z] below 256
    and a buffer is the list of its bytes. Undefined behaviour, a failed assertion
    and exhausted fuel are [None] (or a constructor of their own where the code
    tells more outcomes apart), so a theorem that an operation returns also says
    that none of them happens. Code that is not in the repository, mostly headers
    the pods do not ship, is a class of operations with a class of laws that state
    its documented behaviour; every such class has an instance that satisfies the
    laws, used by the witnesses.

    ** The components

    leveldb ([leveldb-library/]):
    - [LruLinks.v], [HandleTable.v], [LruCache.v], [LruOps.v], [LruProps.v]:
      [util/cache.cc]. The intrusive lists over a heap of handles, the hash table
      with its chains, the cache of one shard with its reference counts. The
      properties quantify over all runs of a client that releases only what it
      holds: operations return, deleters run exactly once, insertion evicts oldest
      first, the cache is a map.
    - [SkipList.v], [SkipProps.v]: [db/skiplist.h]. The nodes and their links by
      level, insertion split into its atomic stores, iterators. A list is the
      sorted set of its keys, and a reader that runs between the stores of a writer
      never reads an unset link and misses no published entry.
    - [LogReader.v], [LogProps.v]: [db/log_reader.cc]. Blocks, physical records
      and their assembly: reading returns on any file, returns only checked
      records, and reads back a well-formed log.
    - [Crc32c.v]: [util/crc32c.cc]. The strided table-driven CRC is the bitwise one.
    - [Cursor.v]: the iterator interface, the contract between the components below.
    - [Coding.v], [DbFormat.v]: the integer codec (a parameter) and the internal
      keys of [db/dbformat.h].
    - [DbIter.v], [DbIterView.v], [DbIterProps.v]: [db/db_iter.cc]. The database
      iterator, a client of the interface that implements it again for the view of
      a snapshot, whatever the internal iterator.
    - [VersionEdit.v]: [db/version_edit.cc]. The records of the manifest: round trip,
      and the type of what any record decodes to.
    - [BlockIter.v], [BlockProps.v], [BlockSafe.v]: [table/block.cc]. The iterator
      over a block implements the interface for the entries that were encoded,
      whatever prefixes they share and wherever the restart points are; on any
      bytes it returns and stays inside the block, but for one overflow.
    - [DbBlock.v]: the database iterator over the iterator of a block.
    - [Doubles.v], [VersionFiles.v], [VersionState.v]: [db/version_set.cc], the files of
      a level with their searches, the state of the version set and the scores of the
      levels, for which [Doubles.v] has exact doubles.
    - [VersionGet.v], [VersionGetProps.v]: a lookup over the levels is the newest
      visible entry, and what it charges to the files it reads.
    - [Compaction.v], [CompactionProps.v], [CompactionSafe.v]: the choice of the inputs
      of a compaction. Collecting overlapping files ends with a closed set, nothing
      older than the inputs of a level is left at it, and the level for a new table is safe.
    - [Builder.v], [BuilderProps.v], [BuilderApply.v], [BuilderSave.v]: the builder of
      versions, with the reference counts of the file metadata on a heap. Edits with
      fresh numbers are applied exactly when the files they leave at every level are
      disjoint, and no metadata leaks.
    - [VersionRefs.v]: the live versions and their counts, over all runs.
    - [Manifest.v], [ManifestProps.v], [ManifestSafe.v]: installing an edit and recovering
      the manifest. Recovery replays the edits; an installation that returns OK is
      durable, and one that fails changes nothing that readers see.
    - [DbState.v]: [db/db_impl.cc] and [db_impl.h], the state under the mutex, obsolete files,
      and the compaction of a memtable. [unlocked] is what other threads do.
    - [CompactionWork.v], [CompactionKeep.v], [CompactionTables.v], [MemCompact.v],
      [CompactionSpec.v]: the work of a compaction. [CompactionKeep.v] is the specification,
      which entries no snapshot needs; [CompactionTables.v] the promises of the environment.
      [MemCompact.v] proves that [CompactMemTable] returns from any state with sorted and counted
      versions, disjoint levels and ordered numbers ([mem_ready]), and leaves such a state. The last
      file proves that the tables written hold what the specification keeps, with
      memtables compacted in between. It asks for the metadata of the table that is built from a
      memtable, and that other threads hand out at most [k] numbers and count their references.
    - [DbBackground.v], [DbFiles.v]: the background thread, manual compactions, and the
      files that are deleted. [CompactionRace.v]: runs that end in a failed assertion.
    - [DbWrite.v], [DbWriteProps.v], [DbWriteSafe.v], [DbWriteLog.v], [DbWriteRuns.v]:
      concurrent writers as a step relation: adding the record, the sync and every turn of
      the insertion into the memtable are steps, and so is the end of the background
      work, whose signal a writer that waits for room needs. Between these steps the other
      threads do what [others] says. The invariant is in [DbWriteSafe.v], the
      properties of all runs (grouping, the log, visibility, wakeups) in the last file.
    - [TableBuilder.v], [TableReader.v]: [table/table_builder.cc] and [table/table.cc], with
      filter, compression and block cache. [TableProps.v] has the laws of the parameters
      and the invariant of the builder, [TableLookup.v] the search, [TableReference.v] an
      environment that satisfies the laws, and [TableSpec.v] the round trip: what was
      added in order is found again.
    - [DbRecover.v]: [DBImpl::NewDB], [Recover], [RecoverLogFile] and [DB::Open]. No operation of a whole
      log is lost ([DbRecoverProps.v], [DbRecoverSpec.v]); recovery returns on any bytes
      ([DbRecoverTotal.v]); [DbFolder.v] is a small environment.

    The components call each other as the code does: [DbWrite.v] switches memtables and
    schedules [DbBackground.v], which runs [CompactMemTable] and [DoCompactionWork];
    both install edits through [LogAndApply] of [Manifest.v], which builds the new version
    with [Builder.v] and writes what [VersionEdit.v] encodes; recovery reads it
    and the logs back with [LogReader.v], and opening a database ends with the recovered edit
    installed and the first background work scheduled.

    gRPC ([gRPC-Core/src/core/lib/]):
    - [Avl.v]: [avl/avl.h], the persistent map, against sorted association lists.
    - [BitSet.v]: [gprpp/bitset.h] and [gpr/useful.h], against finite sets.
    - [Percent.v]: [slice/percent_encoding.cc], on [BitSet.v]; round trips.
    - [Base64.v]: [slice/b64.cc]; round trips and safety of the decoder.
    - [GprTime.v]: [gpr/time.cc]; saturating time arithmetic.

    libuv ([Libuv-gRPC/src/]):
    - [LibuvBase.v]: error codes, C strings and the string functions called.
    - [Inet.v]: [inet.c]; printing and parsing of addresses.
    - [ThreadPool.v]: [threadpool.c]. Every section under the mutex is one step, a
      schedule is a list of steps: each request is reported exactly once, slow work
      never takes more than half of the threads, and no wakeup is lost.

    BoringSSL ([BoringSSL-GRPC/src/crypto/]):
    - [CryptoInternal.v]: the helpers of [internal.h] (a parameter).
    - [Bignum.v]: [fipsmodule/bn/cmp.c] and [montgomery_inv.c].
    - [ChaCha.v], [Ctr.v], [Cfb.v]: [chacha/chacha.c], [fipsmodule/modes/ctr.c]
      and [cfb.c], over a parametric block cipher.
    - [Blake2.v]: [blake2/blake2.c]; streaming equals hashing at once.

    ** Fuel and bounds

    Fuel is computed from the data the loop consumes: the bytes left in a buffer,
    the handles of the heap, the nodes of a list, the entries of an iterator. The
    theorems that operations return show that it is never exhausted; the loops of
    the database iterator, of recovery and of a compaction take it as an argument, and
    the theorems ask for the number of entries or records. Collecting overlapping files
    restarts at most twice per file, which is its fuel. Size hypotheses are those of the code's own integers: lengths
    below the width of the counter that holds them.

    ** What is not modelled

    Memory is sequentially consistent: the memory orders of the atomic operations
    of the skip list are not modelled. Capacities of strings, allocation failure
    and logging have no counterpart. Of leveldb, [Get], snapshots and the properties
    of [db_impl.cc], repair, the C interface and the POSIX environment are not modelled: they compose
    memtables, write batches and files, whose code is not in the repository; nor are
    [TableBuilder::ChangeOptions] and [Table::NewIterator], which wraps the two-level iterator. The rest of the vendored code is left out:
    event loops, sockets, file systems and TLS (system calls), the gRPC filters,
    xDS and load balancing (callbacks over collaborators that are not in the
    repository), generated protocol code, abseil, the Objective-C pods; so are the
    Dart application and the platform runners, which are in other languages.

    ** Conventions

    Each file opens with what it holds. A theorem whose comment carries a claim
    number is a property of the program; its witness applies it to a concrete
    input. The other lemmas are the library that proves them. *)

From Stdlib Require Export ZArith Lia.
From stdpp Require Export base list numbers option decidable sets tactics.

#[global] Open Scope Z_scope.

(** A decidable predicate written as a C boolean expression is related to the
    proposition it tests through this lemma. *)
Lemma eq_bool_iff (a b : bool) : (a = true <-> b = true) -> a = b.
Proof. destruct a, b; intuition congruence. Qed.

(** ** Machine-width integers

    A [w]-bit unsigned integer is a [Z] in [0, 2^w); C's unsigned
    arithmetic is the mathematical operation followed by [wrap w]. *)

Definition wrap (w x : Z) : Z := x `mod` 2 ^ w.

Definition is_u (w x : Z) : Prop := 0 <= x < 2 ^ w.

#[export] Instance is_u_dec w x : Decision (is_u w x).
Proof. unfold is_u. apply _. Defined.

Abbreviation is_byte := (is_u 8).
Abbreviation bytes := (Forall (is_u 8)).

Declare Scope word_scope.
Delimit Scope word_scope with W.
Infix "^^" := Z.lxor (at level 50, left associativity) : word_scope.
Infix ">>>" := Z.shiftr (at level 40, left associativity) : word_scope.
Notation "x ⊞[ w ] y" := (wrap w (x + y))
  (at level 50, left associativity, format "x  ⊞[ w ]  y") : word_scope.
Notation "x ⊟[ w ] y" := (wrap w (x - y))
  (at level 50, left associativity, format "x  ⊟[ w ]  y") : word_scope.

(** Linear arithmetic on machine words with division by constants. *)
Ltac ulia := unfold is_u in *; Z.to_euclidean_division_equations; lia.

(** Hints that discharge width side conditions. *)
Create HintDb width.

Lemma wrap_range w x : 0 <= w -> is_u w (wrap w x).
Proof. intros. unfold is_u, wrap. apply Z.mod_pos_bound. lia. Qed.

Lemma wrap_small w x : is_u w x -> wrap w x = x.
Proof. intros. by apply Z.mod_small. Qed.

Lemma wrap_wrap w x : 0 <= w -> wrap w (wrap w x) = wrap w x.
Proof. intros. apply wrap_small, wrap_range; lia. Qed.

Lemma wrap_add_l w x y : wrap w (wrap w x + y) = wrap w (x + y).
Proof. apply Zplus_mod_idemp_l. Qed.

Lemma wrap_add_r w x y : wrap w (x + wrap w y) = wrap w (x + y).
Proof. apply Zplus_mod_idemp_r. Qed.

Lemma wrap_sub_l w x y : wrap w (wrap w x - y) = wrap w (x - y).
Proof. apply Zminus_mod_idemp_l. Qed.

Lemma wrap_sub_r w x y : wrap w (x - wrap w y) = wrap w (x - y).
Proof. apply Zminus_mod_idemp_r. Qed.

Lemma wrap_mul_l w x y : wrap w (wrap w x * y) = wrap w (x * y).
Proof. apply Zmult_mod_idemp_l. Qed.

Lemma wrap_testbit w x i : 0 <= w ->
  Z.testbit (wrap w x) i = (i <? w) && Z.testbit x i.
Proof.
  intros Hw. unfold wrap. destruct (Z.ltb_spec i w); simpl.
  - destruct (decide (0 <= i)).
    + by rewrite Z.mod_pow2_bits_low.
    + by rewrite !Z.testbit_neg_r by lia.
  - by rewrite Z.mod_pow2_bits_high by lia.
Qed.

Lemma is_u_high w x i : is_u w x -> w <= i -> Z.testbit x i = false.
Proof.
  intros Hx Hi. destruct (decide (0 <= w)).
  - rewrite <- (wrap_small w x Hx), wrap_testbit by lia.
    by destruct (Z.ltb_spec i w); [lia|].
  - unfold is_u in Hx. rewrite Z.pow_neg_r in Hx by lia. lia.
Qed.

(** A non-negative number all of whose bits from [w] up are clear fits
    in [w] bits: the way every bitwise operation is bounded. *)
Lemma is_u_bits w x : 0 <= w -> 0 <= x ->
  (forall i, w <= i -> Z.testbit x i = false) -> is_u w x.
Proof.
  intros Hw Hx Hb. replace x with (wrap w x); [by apply wrap_range|].
  apply Z.bits_inj'. intros i Hi. rewrite wrap_testbit by lia.
  destruct (Z.ltb_spec i w); simpl; [done|]. by rewrite Hb.
Qed.

Lemma is_u_lxor w x y : 0 <= w -> is_u w x -> is_u w y -> is_u w (Z.lxor x y).
Proof.
  intros Hw Hx Hy. apply is_u_bits; [done| |].
  - apply Z.lxor_nonneg. unfold is_u in *. lia.
  - intros i Hi. by rewrite Z.lxor_spec, (is_u_high w x), (is_u_high w y).
Qed.

Lemma is_u_lor w x y : 0 <= w -> is_u w x -> is_u w y -> is_u w (Z.lor x y).
Proof.
  intros Hw Hx Hy. apply is_u_bits; [done| |].
  - apply Z.lor_nonneg. unfold is_u in *. lia.
  - intros i Hi. by rewrite Z.lor_spec, (is_u_high w x), (is_u_high w y).
Qed.

Lemma is_u_land_l w x y : 0 <= w -> is_u w x -> is_u w (Z.land x y).
Proof.
  intros Hw Hx. apply is_u_bits; [done| |].
  - apply Z.land_nonneg. unfold is_u in *. lia.
  - intros i Hi. by rewrite Z.land_spec, (is_u_high w x).
Qed.

Lemma is_u_land_r w x y : 0 <= w -> is_u w y -> is_u w (Z.land x y).
Proof. rewrite Z.land_comm. apply is_u_land_l. Qed.

Lemma is_u_shiftr w x n : 0 <= w -> 0 <= n -> is_u w x -> is_u w (Z.shiftr x n).
Proof.
  intros Hw Hn Hx. apply is_u_bits; [done| |].
  - apply Z.shiftr_nonneg. unfold is_u in *. lia.
  - intros i Hi. rewrite Z.shiftr_spec by lia. apply (is_u_high w); [done|lia].
Qed.

Lemma is_u_weaken w w' x : w <= w' -> is_u w x -> is_u w' x.
Proof.
  unfold is_u. intros Hw Hx. split; [lia|].
  apply Z.lt_le_trans with (2 ^ w); [lia|]. apply Z.pow_le_mono_r; lia.
Qed.

Lemma lxor_cancel x y : Z.lxor (Z.lxor x y) y = x.
Proof. by rewrite Z.lxor_assoc, Z.lxor_nilpotent, Z.lxor_0_r. Qed.

#[export] Hint Resolve wrap_range is_u_lxor is_u_lor is_u_land_l is_u_land_r
  is_u_shiftr : width.
#[export] Hint Extern 2 (_ <= _) => lia : width.
#[export] Hint Extern 2 (_ < _ < _) => lia : width.

(** [bits] compares two words bit by bit; [solve_bits] finishes what
    boolean case analysis closes. *)
Ltac bits i Hi := apply Z.bits_inj'; intros i Hi.
Ltac rewrite_bits :=
  repeat first
    [ rewrite Z.lxor_spec | rewrite Z.lor_spec | rewrite Z.land_spec
    | rewrite wrap_testbit by lia | rewrite Z.shiftr_spec by lia
    | rewrite Z.shiftl_spec by lia | rewrite Z.bits_0 ].

(** ** Byte strings: little- and big-endian values *)

Fixpoint le_val (bs : list Z) : Z :=
  match bs with
  | [] => 0
  | b :: bs => b + 256 * le_val bs
  end.

Definition be_val (bs : list Z) : Z := le_val (reverse bs).

Fixpoint le_bytes (n : nat) (v : Z) : list Z :=
  match n with
  | O => []
  | S n => v `mod` 256 :: le_bytes n (v `div` 256)
  end.

Definition be_bytes (n : nat) (v : Z) : list Z := reverse (le_bytes n v).

Lemma length_le_bytes n v : length (le_bytes n v) = n.
Proof. revert v. induction n; intros; simpl; auto. Qed.

Lemma le_bytes_bytes n v : bytes (le_bytes n v).
Proof.
  revert v. induction n as [|n IH]; intros v; simpl; constructor; [|apply IH].
  apply Z.mod_pos_bound. lia.
Qed.

Lemma length_be_bytes n v : length (be_bytes n v) = n.
Proof. unfold be_bytes. by rewrite length_reverse, length_le_bytes. Qed.

Lemma be_bytes_bytes n v : bytes (be_bytes n v).
Proof. apply Forall_reverse, le_bytes_bytes. Qed.

#[export] Hint Resolve le_bytes_bytes be_bytes_bytes : width.
Create Rewrite HintDb len.
#[export] Hint Rewrite length_le_bytes length_be_bytes @length_reverse
  @length_app @length_take @length_drop @length_zip_with @length_fmap
  @length_replicate @length_insert @length_nil @length_cons : len.

(** Solve a goal about lengths. *)
Ltac len :=
  first [ solve [autorewrite with len; lia] | solve [autorewrite with len; simpl; lia]
        | solve [autorewrite with len in *; lia] | autorewrite with len in *; simpl in *; lia ].

Lemma le_val_range bs : bytes bs -> 0 <= le_val bs < 256 ^ Z.of_nat (length bs).
Proof.
  induction 1 as [|b bs Hb _ IH]; [simpl; lia|].
  cbn [le_val length]. rewrite Nat2Z.inj_succ, Z.pow_succ_r by lia.
  unfold is_u in Hb. change (2 ^ 8) with 256 in Hb. lia.
Qed.

Lemma le_val_app a b : le_val (a ++ b) = le_val a + 256 ^ Z.of_nat (length a) * le_val b.
Proof.
  induction a as [|x a IH]; [cbn [length app le_val]; lia|].
  cbn [length app le_val]. rewrite IH, Nat2Z.inj_succ, Z.pow_succ_r by lia. lia.
Qed.

Lemma le_val_bytes n v : le_val (le_bytes n v) = v `mod` 256 ^ Z.of_nat n.
Proof.
  revert v. induction n as [|n IH]; intros v; [by rewrite Z.mod_1_r|].
  cbn [le_bytes le_val]. rewrite IH, Nat2Z.inj_succ, Z.pow_succ_r by lia.
  rewrite Z.rem_mul_r by lia. lia.
Qed.

Lemma le_bytes_val bs : bytes bs -> le_bytes (length bs) (le_val bs) = bs.
Proof.
  induction 1 as [|b bs Hb _ IH]; [done|].
  unfold is_u in Hb. change (2 ^ 8) with 256 in Hb.
  cbn [length le_bytes le_val]. rewrite Z.mul_comm, Z.mod_add, Z.div_add by lia.
  by rewrite Z.mod_small, (Z.div_small b), Z.add_0_l, IH by lia.
Qed.

Lemma le_val_inj a b :
  bytes a -> bytes b -> length a = length b -> le_val a = le_val b -> a = b.
Proof.
  intros Ha Hb Hl Hv. by rewrite <- (le_bytes_val a), <- (le_bytes_val b), Hl, Hv.
Qed.

Lemma be_val_range bs : bytes bs -> 0 <= be_val bs < 256 ^ Z.of_nat (length bs).
Proof.
  intros Hb. unfold be_val. rewrite <- (length_reverse bs).
  by apply le_val_range, Forall_reverse.
Qed.

Lemma be_val_bytes n v : be_val (be_bytes n v) = v `mod` 256 ^ Z.of_nat n.
Proof. unfold be_val, be_bytes. by rewrite reverse_involutive, le_val_bytes. Qed.

Lemma be_bytes_val bs : bytes bs -> be_bytes (length bs) (be_val bs) = bs.
Proof.
  intros Hb. unfold be_bytes, be_val.
  by rewrite <- (length_reverse bs), le_bytes_val, reverse_involutive by (by apply Forall_reverse).
Qed.

Lemma le_bytes_mod n v : le_bytes n (v `mod` 256 ^ Z.of_nat n) = le_bytes n v.
Proof.
  apply le_val_inj; [apply le_bytes_bytes..|len|].
  by rewrite !le_val_bytes, Z.mod_mod by lia.
Qed.

Lemma be_bytes_mod_add n v c :
  be_bytes n (v `mod` 256 ^ Z.of_nat n + c) = be_bytes n (v + c).
Proof.
  unfold be_bytes. f_equal. rewrite <- (le_bytes_mod n (v + c)), <- (le_bytes_mod n (_ + c)).
  by rewrite Zplus_mod_idemp_l.
Qed.

Lemma le_bytes_app m n v :
  le_bytes (m + n) v = le_bytes m v ++ le_bytes n (v `div` 256 ^ Z.of_nat m).
Proof.
  revert v. induction m as [|m IH]; intros v.
  - cbn [Nat.add le_bytes app]. by rewrite Z.div_1_r.
  - cbn [Nat.add le_bytes app]. rewrite IH, Nat2Z.inj_succ, Z.pow_succ_r by lia.
    by rewrite <- Z.div_div by lia.
Qed.

Lemma be_bytes_app n m v :
  be_bytes (n + m) v = be_bytes n (v `div` 256 ^ Z.of_nat m) ++ be_bytes m v.
Proof. unfold be_bytes. by rewrite Nat.add_comm, le_bytes_app, reverse_app. Qed.

(** ** Byte-wise exclusive or *)

Definition xor_bytes (a b : list Z) : list Z := zip_with Z.lxor a b.

Lemma length_xor_bytes a b : length (xor_bytes a b) = (length a `min` length b)%nat.
Proof. apply length_zip_with. Qed.

Lemma xor_bytes_bytes a b : bytes a -> bytes b -> bytes (xor_bytes a b).
Proof.
  intros Ha. revert b. unfold xor_bytes.
  induction Ha; intros b Hb; destruct Hb; simpl; constructor; auto with width.
Qed.

Lemma xor_bytes_cancel a k :
  (length a <= length k)%nat -> xor_bytes (xor_bytes a k) k = a.
Proof.
  unfold xor_bytes. revert k.
  induction a as [|x a IH]; intros [|y k] Hl; simpl in *; try done; [lia|].
  rewrite lxor_cancel, IH by lia. done.
Qed.

Lemma xor_bytes_nil_l k : xor_bytes [] k = [].
Proof. done. Qed.

Lemma xor_bytes_app a b k l :
  length a = length k -> xor_bytes (a ++ b) (k ++ l) = xor_bytes a k ++ xor_bytes b l.
Proof. intros. by apply zip_with_app. Qed.

Lemma xor_bytes_app_r a k l :
  (length a <= length k)%nat -> xor_bytes a (k ++ l) = xor_bytes a k.
Proof.
  unfold xor_bytes. revert k.
  induction a as [|x a IH]; intros [|y k] Hl; simpl in *; try done; [lia|].
  rewrite IH by lia. done.
Qed.

#[export] Hint Rewrite length_xor_bytes : len.
#[export] Hint Resolve xor_bytes_bytes : width.

(** Decide a closed, decidable proposition by evaluation. *)
Ltac by_compute := apply (bool_decide_eq_true_1 _); vm_compute; reflexivity.

(** A property of all integers of an interval from its finite enumeration. *)
Lemma Forall_seqZ (P : Z -> Prop) m n x : Forall P (seqZ m n) -> m <= x < m + n -> P x.
Proof.
  intros Hall Hx. apply (Forall_lookup_1 P (seqZ m n) (Z.to_nat (x - m))); [done|].
  apply lookup_seqZ. lia.
Qed.

(** ** Counting loops

    [for_ lo hi body s] is [for (i = lo; i < hi; i++) s = body(i, s)]. *)

Definition for_ {S : Type} (lo hi : nat) (body : nat -> S -> S) (s : S) : S :=
  foldl (fun s i => body i s) s (seq lo (hi - lo)).

Section for_loops.
Context {S : Type} (body : nat -> S -> S).

Lemma for_empty lo hi s : (hi <= lo)%nat -> for_ lo hi body s = s.
Proof. intros. unfold for_. by replace (hi - lo)%nat with 0%nat by lia. Qed.

Lemma for_snoc lo hi s : (lo <= hi)%nat ->
  for_ lo (1 + hi) body s = body hi (for_ lo hi body s).
Proof.
  intros. unfold for_. replace (1 + hi - lo)%nat with ((hi - lo) + 1)%nat by lia.
  rewrite seq_app, foldl_app. simpl. by replace (lo + (hi - lo))%nat with hi by lia.
Qed.

Lemma for_step lo hi s : (lo < hi)%nat ->
  for_ lo hi body s = for_ (1 + lo) hi body (body lo s).
Proof.
  intros. unfold for_. replace (hi - lo)%nat with (1 + (hi - (1 + lo)))%nat by lia. done.
Qed.

Lemma for_ext (body' : nat -> S -> S) lo hi s :
  (forall i s, (lo <= i < hi)%nat -> body i s = body' i s) -> for_ lo hi body s = for_ lo hi body' s.
Proof.
  intros Hext. unfold for_. assert (forall i, i ∈ seq lo (hi - lo) -> (lo <= i < hi)%nat) as Hin
    by (intros i Hi%elem_of_seq; lia).
  revert s Hin. induction (seq lo (hi - lo)) as [|j l IH]; intros s Hin; [done|]. simpl.
  rewrite Hext by (apply Hin, list_elem_of_here). apply IH.
  intros i Hi. by apply Hin, list_elem_of_further.
Qed.

(** The invariant rule of a counting loop. *)
Lemma for_inv (P : nat -> S -> Prop) lo hi s :
  (lo <= hi)%nat -> P lo s ->
  (forall i s, (lo <= i < hi)%nat -> P i s -> P (1 + i)%nat (body i s)) ->
  P hi (for_ lo hi body s).
Proof.
  intros Hle H0 Hstep.
  assert (forall k, (lo + k <= hi)%nat -> P (lo + k)%nat (for_ lo (lo + k) body s)) as Hk.
  { induction k as [|k IH]; intros Hk.
    - rewrite Nat.add_0_r, for_empty by lia. done.
    - replace (lo + Datatypes.S k)%nat with (1 + (lo + k))%nat by lia.
      rewrite for_snoc by lia. apply Hstep; [lia|]. apply IH; lia. }
  replace hi with (lo + (hi - lo))%nat by lia. apply Hk; lia.
Qed.
End for_loops.

(** ** Byte-at-a-time machines

    [run step st l] feeds [l] to [step] one element at a time and collects the
    outputs: the reference semantics of the streaming primitives. *)
Section byte_machines.
Context {S : Type} (step : S -> Z -> Z * S).

Fixpoint run (st : S) (l : list Z) : list Z * S :=
  match l with
  | [] => ([], st)
  | x :: l => let '(y, st) := step st x in let '(ys, st) := run st l in (y :: ys, st)
  end.

Lemma run_app st l1 l2 :
  run st (l1 ++ l2) =
  (let '(o1, st1) := run st l1 in let '(o2, st2) := run st1 l2 in (o1 ++ o2, st2)).
Proof.
  revert st. induction l1 as [|x l1 IH]; intros st; simpl; [by destruct (run st l2)|].
  destruct (step st x) as [y st']. rewrite IH. destruct (run st' l1) as [o1 st1].
  by destruct (run st1 l2).
Qed.

Lemma length_run st l : length (run st l).1 = length l.
Proof.
  revert st. induction l as [|x l IH]; intros st; simpl; [done|].
  destruct (step st x) as [y st']. specialize (IH st'). destruct (run st' l). simpl in *. lia.
Qed.
End byte_machines.

(** Two machines, the second undoing the first one step at a time. *)
Lemma run_inverse {S : Type} (P : S -> Prop) (Q : Z -> Prop) (enc dec : S -> Z -> Z * S) st l :
  (forall st x, P st -> Q x ->
    P (enc st x).2 /\ dec st (enc st x).1 = (x, (enc st x).2)) ->
  P st -> Forall Q l -> run dec st (run enc st l).1 = (l, (run enc st l).2).
Proof.
  intros Hstep Hst Hl. revert st Hst. induction Hl as [|x l Hx _ IH]; intros st Hst; [done|].
  cbn [run]. destruct (Hstep st x Hst Hx) as [HP Hd].
  destruct (enc st x) as [y st'] eqn:E. simpl in *. specialize (IH st' HP).
  destruct (run enc st' l) as [ys st''] eqn:E'. simpl in *. by rewrite Hd, IH.
Qed.

(** Two machines that agree step by step, under an invariant. *)
Lemma run_related {S : Type} (R : S -> S -> Prop) (step : S -> Z -> Z * S) st1 st2 l :
  (forall s1 s2 x, R s1 s2 -> (step s1 x).1 = (step s2 x).1 /\ R (step s1 x).2 (step s2 x).2) ->
  R st1 st2 -> (run step st1 l).1 = (run step st2 l).1 /\ R (run step st1 l).2 (run step st2 l).2.
Proof.
  intros Hstep. revert st1 st2. induction l as [|x l IH]; intros st1 st2 HR; [done|].
  cbn [run]. destruct (Hstep st1 st2 x HR) as [Ho HR'].
  destruct (step st1 x) as [y1 s1], (step st2 x) as [y2 s2]. simpl in *. subst y2.
  destruct (IH s1 s2 HR') as [Ho' HR''].
  destruct (run step s1 l), (run step s2 l). simpl in *. by subst.
Qed.

(** ** Words built from bytes *)

Lemma byte_split x u y v : is_byte x -> is_byte y ->
  Z.lxor (x + 256 * u) (y + 256 * v) = Z.lxor x y + 256 * Z.lxor u v.
Proof.
  intros Hx Hy.
  assert (forall a b, is_byte a -> a + 256 * b = Z.lor a (Z.shiftl b 8)) as Hsplit.
  { intros a b Ha. rewrite Z.shiftl_mul_pow2 by lia. change (2 ^ 8) with 256.
    rewrite (Z.mul_comm 256 b), <- Z.add_lor_land.
    assert (Z.land a (b * 256) = 0) as ->; [|lia].
    change 256 with (2 ^ 8). rewrite <- Z.shiftl_mul_pow2 by lia.
    bits i Hi. rewrite_bits. destruct (Z.ltb_spec i 8).
    - rewrite (Z.testbit_neg_r b) by lia. apply andb_false_r.
    - by rewrite (is_u_high 8 a). }
  rewrite !Hsplit by auto with width. bits i Hi. rewrite_bits.
  destruct (Z.ltb_spec i 8).
  - rewrite !(Z.testbit_neg_r _ (i - 8)) by lia. by rewrite !orb_false_r.
  - by rewrite (is_u_high 8 x), (is_u_high 8 y) by (done || lia).
Qed.

Lemma le_val_xor a b : bytes a -> bytes b -> length a = length b ->
  Z.lxor (le_val a) (le_val b) = le_val (xor_bytes a b).
Proof.
  intros Ha. revert b. induction Ha as [|x a Hx _ IH]; intros [|y b] Hb Hl; try done.
  apply Forall_cons_iff in Hb as [Hy Hb]. cbn [le_val xor_bytes zip_with].
  rewrite byte_split by done. injection Hl as Hl. by rewrite IH.
Qed.

Lemma be_val_app a b : be_val (a ++ b) = be_val a * 256 ^ Z.of_nat (length b) + be_val b.
Proof. unfold be_val. rewrite reverse_app, le_val_app, length_reverse. lia. Qed.

Lemma be_bytes_snoc n v : be_bytes (S n) v = be_bytes n (v `div` 256) ++ [v `mod` 256].
Proof. unfold be_bytes. cbn [le_bytes]. by rewrite reverse_cons. Qed.

Lemma be_val_single x : be_val [x] = x.
Proof. unfold be_val. cbn. lia. Qed.

(** Putting [n] low bits beside the bits shifted up past them. *)
Lemma lor_shiftl_add x y n : 0 <= n -> is_u n y -> Z.lor (Z.shiftl x n) y = x * 2 ^ n + y.
Proof.
  intros Hn Hy. assert (Z.land (Z.shiftl x n) y = 0) as Hd.
  { bits i Hi. rewrite Z.land_spec, Z.shiftl_spec, Z.bits_0 by lia.
    destruct (Z.ltb_spec i n); [by rewrite (Z.testbit_neg_r x) by lia|].
    by rewrite (is_u_high n y), andb_false_r. }
  rewrite <- Z.lxor_lor, <- Z.add_nocarry_lxor by done. by rewrite Z.shiftl_mul_pow2.
Qed.

Lemma land_ones_mod x n : 0 <= n -> Z.land x (Z.ones n) = x `mod` 2 ^ n.
Proof. intros. by apply Z.land_ones. Qed.
