(* ===== verification/CryptoInternal.v ===== *)
(** * The helpers of BoringSSL's [crypto/internal.h]

    The C files of [BoringSSL-GRPC/src/crypto] call a handful of inline
    helpers (rotations, unaligned loads and stores of a given endianness,
    constant-time masks) whose header is not part of the repository.  The
    helpers are therefore parameters: [CryptoInternal] lists the ones the
    modelled files call and [CryptoInternalLaws] states their documented
    behaviour.  Every theorem about a BoringSSL component that needs a
    helper's meaning is proved against these laws; [reference_internal] is
    the instance that shows they can hold. *)

From S2P Require Import Prelude.

(** Words are 64 bits wide: [crypto_word_t], [BN_ULONG] and [size_t] of the
    64-bit targets this pod is built for. *)
Definition word_bits : Z := 64.
Definition word_bytes : nat := 8.

(** A mask of the constant-time helpers: all ones or zero. *)
Definition mask_of (b : bool) : Z := if b then 2 ^ 64 - 1 else 0.

Class CryptoInternal := {
  CRYPTO_rotl_u32 : Z -> Z -> Z;
  CRYPTO_rotr_u64 : Z -> Z -> Z;
  CRYPTO_load_u32_le : list Z -> Z;
  CRYPTO_store_u32_le : Z -> list Z;
  CRYPTO_load_u32_be : list Z -> Z;
  CRYPTO_store_u32_be : Z -> list Z;
  CRYPTO_load_word_le : list Z -> Z;
  CRYPTO_store_word_le : Z -> list Z;
  constant_time_eq_w : Z -> Z -> Z;
  constant_time_lt_w : Z -> Z -> Z;
  constant_time_is_zero_w : Z -> Z;
  constant_time_select_int : Z -> Z -> Z -> Z;
}.

Class CryptoInternalLaws `{CryptoInternal} : Prop := {
  rotl_u32_spec x n : is_u 32 x -> 0 < n < 32 ->
    CRYPTO_rotl_u32 x n = Z.lor (wrap 32 (Z.shiftl x n)) (Z.shiftr x (32 - n));
  rotr_u64_spec x n : is_u 64 x -> 0 < n < 64 ->
    CRYPTO_rotr_u64 x n = Z.lor (Z.shiftr x n) (wrap 64 (Z.shiftl x (64 - n)));
  load_u32_le_spec bs : length bs = 4%nat -> bytes bs -> CRYPTO_load_u32_le bs = le_val bs;
  store_u32_le_spec x : is_u 32 x -> CRYPTO_store_u32_le x = le_bytes 4 x;
  load_u32_be_spec bs : length bs = 4%nat -> bytes bs -> CRYPTO_load_u32_be bs = be_val bs;
  store_u32_be_spec x : is_u 32 x -> CRYPTO_store_u32_be x = be_bytes 4 x;
  load_word_le_spec bs : length bs = word_bytes -> bytes bs -> CRYPTO_load_word_le bs = le_val bs;
  store_word_le_spec x : is_u word_bits x -> CRYPTO_store_word_le x = le_bytes word_bytes x;
  ct_eq_w_spec a b : is_u 64 a -> is_u 64 b ->
    constant_time_eq_w a b = mask_of (bool_decide (a = b));
  ct_lt_w_spec a b : is_u 64 a -> is_u 64 b ->
    constant_time_lt_w a b = mask_of (bool_decide (a < b));
  ct_is_zero_w_spec a : is_u 64 a ->
    constant_time_is_zero_w a = mask_of (bool_decide (a = 0));
  ct_select_int_spec (c : bool) a b :
    constant_time_select_int (mask_of c) a b = if c then a else b;
}.

(** One implementation of the helpers, used to exhibit the laws. *)
#[export] Instance reference_internal : CryptoInternal := {
  CRYPTO_rotl_u32 x n := Z.lor (wrap 32 (Z.shiftl x n)) (Z.shiftr x (32 - n));
  CRYPTO_rotr_u64 x n := Z.lor (Z.shiftr x n) (wrap 64 (Z.shiftl x (64 - n)));
  CRYPTO_load_u32_le := le_val;
  CRYPTO_store_u32_le := le_bytes 4;
  CRYPTO_load_u32_be := be_val;
  CRYPTO_store_u32_be := be_bytes 4;
  CRYPTO_load_word_le := le_val;
  CRYPTO_store_word_le := le_bytes word_bytes;
  constant_time_eq_w a b := mask_of (bool_decide (a = b));
  constant_time_lt_w a b := mask_of (bool_decide (a < b));
  constant_time_is_zero_w a := mask_of (bool_decide (a = 0));
  constant_time_select_int m a b := if bool_decide (m = 0) then b else a;
}.

#[export] Instance reference_internal_laws : CryptoInternalLaws.
Proof. split; try done. by intros []. Qed.

(** Rotating left by [n] and then by [32 - n] is the identity, and a
    rotation is a 32-bit word. *)
Section rotations.
Context `{CryptoInternalLaws}.

Lemma rotl_u32_range x n : is_u 32 x -> 0 < n < 32 -> is_u 32 (CRYPTO_rotl_u32 x n).
Proof. intros. rewrite rotl_u32_spec by done. auto with width. Qed.

Lemma rotr_u64_range x n : is_u 64 x -> 0 < n < 64 -> is_u 64 (CRYPTO_rotr_u64 x n).
Proof. intros. rewrite rotr_u64_spec by done. auto with width. Qed.

Lemma rotl_u32_testbit x n i : is_u 32 x -> 0 < n < 32 -> 0 <= i ->
  Z.testbit (CRYPTO_rotl_u32 x n) i =
  (i <? 32) && (if i <? n then Z.testbit x (i - n + 32) else Z.testbit x (i - n)).
Proof.
  intros Hx Hn Hi. rewrite rotl_u32_spec by done. rewrite_bits.
  destruct (Z.ltb_spec i 32), (Z.ltb_spec i n); simpl.
  - rewrite (Z.testbit_neg_r _ (i - n)) by lia. simpl. f_equal. lia.
  - rewrite (is_u_high 32 x (i + (32 - n))) by (done || lia). apply orb_false_r.
  - lia.
  - apply (is_u_high 32); [done|lia].
Qed.

Lemma rotl_u32_inv x n m : is_u 32 x -> 0 < n < 32 -> n + m = 32 ->
  CRYPTO_rotl_u32 (CRYPTO_rotl_u32 x n) m = x.
Proof.
  intros Hx Hn Hm. bits i Hi.
  rewrite rotl_u32_testbit by (try apply rotl_u32_range; done || lia).
  destruct (Z.ltb_spec i 32); simpl; [|symmetry; apply (is_u_high 32); [done|lia]].
  destruct (Z.ltb_spec i m); rewrite rotl_u32_testbit by (done || lia).
  all: repeat match goal with |- context [?a <? ?b] => destruct (Z.ltb_spec a b) end;
    simpl; try lia; f_equal; lia.
Qed.
End rotations.
#[export] Hint Resolve rotl_u32_range rotr_u64_range : width.
