(* ===== verification/Bignum.v ===== *)
(** * BoringSSL bignums: comparison and the Montgomery constant

    [BoringSSL-GRPC/src/crypto/fipsmodule/bn/cmp.c] and [montgomery_inv.c].
    A bignum is a little-endian array of 64-bit words with a width and a sign.
    The theorems relate the constant-time word loops to the integer the words
    denote, and the shift-and-add inversion to the modular inverse. *)

From S2P Require Import Prelude CryptoInternal.

(** The fields of [BIGNUM] the two files touch.  [d] has [dmax] words of which
    the first [width] are significant. *)
Record BIGNUM := mkBN { d : list Z; width : nat; dmax : nat; neg : Z; flags : Z }.

(** [BN_init] zeroes the structure. *)
Definition BN_init : BIGNUM := mkBN [] 0 0 0 0.
Definition BN_FLG_STATIC_DATA : Z := 2.

(** The natural number denoted by a little-endian array of words. *)
Fixpoint words_val (ws : list Z) : Z :=
  match ws with
  | [] => 0
  | w :: ws => w + 2 ^ 64 * words_val ws
  end.

Abbreviation words := (Forall (is_u 64)).

Definition bn_words (a : BIGNUM) : list Z := take (width a) (d a).
Definition bn_abs (a : BIGNUM) : Z := words_val (bn_words a).
Definition bn_value (a : BIGNUM) : Z := if decide (neg a = 0) then bn_abs a else - bn_abs a.

(** A bignum the library hands out: words in range, [width] inside the array,
    a boolean sign, and no negative zero. *)
Record bn_wf (a : BIGNUM) : Prop := {
  bn_wf_words : words (d a);
  bn_wf_width : (width a <= length (d a))%nat;
  bn_wf_neg : neg a = 0 \/ neg a = 1;
  bn_wf_zero : bn_abs a = 0 -> neg a = 0;
}.

(** ** Lemmas on word arrays *)

Lemma words_val_range ws : words ws -> 0 <= words_val ws < (2 ^ 64) ^ Z.of_nat (length ws).
Proof.
  induction 1 as [|w ws Hw _ IH]; [simpl; lia|].
  cbn [words_val length]. rewrite Nat2Z.inj_succ, Z.pow_succ_r by lia.
  unfold is_u in Hw. lia.
Qed.

Lemma words_val_app a b :
  words_val (a ++ b) = words_val a + (2 ^ 64) ^ Z.of_nat (length a) * words_val b.
Proof.
  induction a as [|x a IH]; [cbn [length app words_val]; lia|].
  cbn [length app words_val]. rewrite IH, Nat2Z.inj_succ, Z.pow_succ_r by lia. lia.
Qed.

Lemma words_val_zero ws : words ws -> words_val ws = 0 <-> Forall (eq 0) ws.
Proof.
  induction 1 as [|w ws Hw Hws IH]; [split; [constructor|done]|].
  pose proof (words_val_range ws Hws). unfold is_u in Hw. cbn [words_val].
  rewrite Forall_cons_iff, <- IH. lia.
Qed.

Lemma take_S_lookup (ws : list Z) i : (i < length ws)%nat ->
  take (S i) ws = take i ws ++ [ws !!! i].
Proof.
  intros Hi. apply take_S_r. by apply list_lookup_lookup_total_lt.
Qed.

Lemma word_lookup ws i : words ws -> is_u 64 (ws !!! i).
Proof.
  intros Hws. destruct (decide (i < length ws)%nat) as [Hi|Hi].
  - eapply Forall_lookup_1; [exact Hws|]. by apply list_lookup_lookup_total_lt.
  - rewrite list_lookup_total_alt, lookup_ge_None_2 by lia. simpl. split; lia.
Qed.
#[export] Hint Resolve word_lookup : width.

Lemma words_val_take_S ws i : (i < length ws)%nat ->
  words_val (take (S i) ws) = words_val (take i ws) + (2 ^ 64) ^ Z.of_nat i * ws !!! i.
Proof.
  intros Hi. rewrite take_S_lookup, words_val_app by done. simpl (words_val [_]).
  rewrite length_take, Nat.min_l by lia. lia.
Qed.

Lemma words_val_split ws i : (i <= length ws)%nat ->
  words_val ws = words_val (take i ws) + (2 ^ 64) ^ Z.of_nat i * words_val (drop i ws).
Proof.
  intros Hi. rewrite <- (take_drop i ws) at 1. rewrite words_val_app.
  by rewrite length_take, Nat.min_l by lia.
Qed.

Lemma words_take_lt ws i : words ws -> (i <= length ws)%nat ->
  0 <= words_val (take i ws) < (2 ^ 64) ^ Z.of_nat i.
Proof.
  intros Hws Hi. pose proof (words_val_range (take i ws) (Forall_take _ i _ Hws)) as Hr.
  by rewrite length_take, Nat.min_l in Hr by lia.
Qed.

(** Accumulating words with [|=] yields zero exactly when all are zero. *)
Definition or_words (ws : list Z) (lo hi : nat) (mask : Z) : Z :=
  for_ lo hi (fun i mask => Z.lor mask (ws !!! i)) mask.

Lemma or_words_spec ws lo hi mask : words ws -> is_u 64 mask -> (lo <= hi)%nat ->
  is_u 64 (or_words ws lo hi mask) /\
  (or_words ws lo hi mask = 0 <-> mask = 0 /\ forall i, (lo <= i < hi)%nat -> ws !!! i = 0).
Proof.
  intros Hws Hm Hle. unfold or_words.
  apply (for_inv _ (fun k s => is_u 64 s /\ (s = 0 <-> mask = 0 /\ forall i, (lo <= i < k)%nat -> ws !!! i = 0)));
    [done| |].
  - split; [done|]. split; [intros ->; split; [done|lia]|by intros [-> _]].
  - intros k s Hk [Hs IH]. split; [auto with width|].
    rewrite Z.lor_eq_0_iff, IH. split.
    + intros [[-> Hlt] Hz]. split; [done|]. intros i Hi.
      destruct (decide (i = k)) as [->|]; [done|]. apply Hlt; lia.
    + intros [-> Hlt]. split; [split; [done|]|]; [intros i Hi|]; apply Hlt; lia.
Qed.

Lemma drop_zero_iff ws lo : words ws -> (lo <= length ws)%nat ->
  words_val (drop lo ws) = 0 <-> forall i, (lo <= i < length ws)%nat -> ws !!! i = 0.
Proof.
  intros Hws Hlo. rewrite words_val_zero by (by apply Forall_drop).
  rewrite Forall_lookup. split.
  - intros Hz i Hi. symmetry. apply (Hz (i - lo)%nat).
    rewrite lookup_drop. replace (lo + (i - lo))%nat with i by lia.
    apply list_lookup_lookup_total_lt. lia.
  - intros Hz i x Hx. rewrite lookup_drop in Hx.
    pose proof (lookup_lt_Some _ _ _ Hx).
    apply list_lookup_total_correct in Hx as <-. symmetry. apply Hz. lia.
Qed.

(** ** [cmp.c] *)
Module Cmp.
Section cmp.
Context `{CryptoInternal}.

(** Words above the minimal width are zero: [bn_minimal_width] and
    [bn_fits_in_words] live in [bn.c], which the repository does not hold. *)
Context (bn_minimal_width : BIGNUM -> nat).
Context (bn_fits_in_words : BIGNUM -> nat -> bool).

Definition bn_cmp_words_consttime (a : list Z) (a_len : nat) (b : list Z) (b_len : nat) : Z :=
  let ret := 0 in
  let min := if (a_len <? b_len)%nat then a_len else b_len in
  let ret := for_ 0 min (fun i ret =>
    let eq := constant_time_eq_w (a !!! i) (b !!! i) in
    let lt := constant_time_lt_w (a !!! i) (b !!! i) in
    constant_time_select_int eq ret (constant_time_select_int lt (-1) 1)) ret in
  if (a_len <? b_len)%nat then
    let mask := or_words b a_len b_len 0 in
    constant_time_select_int (constant_time_is_zero_w mask) ret (-1)
  else if (b_len <? a_len)%nat then
    let mask := or_words a b_len a_len 0 in
    constant_time_select_int (constant_time_is_zero_w mask) ret 1
  else ret.

Definition BN_ucmp (a b : BIGNUM) : Z :=
  bn_cmp_words_consttime (d a) (width a) (d b) (width b).

(** The pointers may be NULL, hence the options. *)
Definition BN_cmp (a b : option BIGNUM) : Z :=
  match a, b with
  | Some _, None => -1
  | None, Some _ => 1
  | None, None => 0
  | Some a, Some b =>
      if negb (neg a =? neg b) then
        if negb (neg a =? 0) then -1 else 1
      else
        let ret := BN_ucmp a b in
        if negb (neg a =? 0) then - ret else ret
  end.

Definition bn_less_than_words (a b : list Z) (len : nat) : bool :=
  bn_cmp_words_consttime a len b len <? 0.

Definition BN_abs_is_word (bn : BIGNUM) (w : Z) : bool :=
  if (width bn =? 0)%nat then w =? 0
  else
    let mask := Z.lxor (d bn !!! 0%nat) w in
    let mask := or_words (d bn) 1 (width bn) mask in
    mask =? 0.

Definition BN_cmp_word (a : BIGNUM) (b : Z) : Z :=
  let b_bn := BN_init in
  let b_bn := {| d := [b]; width := if 0 <? b then 1%nat else 0%nat;
                 dmax := 1; neg := neg b_bn; flags := BN_FLG_STATIC_DATA |} in
  BN_cmp (Some a) (Some b_bn).

Definition BN_is_zero (bn : BIGNUM) : bool := bn_fits_in_words bn 0.

Definition BN_is_one (bn : BIGNUM) : bool := (neg bn =? 0) && BN_abs_is_word bn 1.

Definition BN_is_word (bn : BIGNUM) (w : Z) : bool :=
  BN_abs_is_word bn w && ((w =? 0) || (neg bn =? 0)).

Definition BN_is_odd (bn : BIGNUM) : bool :=
  (0 <? width bn)%nat && (Z.land (d bn !!! 0%nat) 1 =? 1).

Definition BN_is_pow2 (bn : BIGNUM) : bool :=
  let width := bn_minimal_width bn in
  if (width =? 0)%nat || negb (neg bn =? 0) then false
  else if negb (forallb (fun i => d bn !!! i =? 0) (seq 0 (width - 1))) then false
  else 0 =? Z.land (d bn !!! (width - 1)%nat) (wrap 64 (d bn !!! (width - 1)%nat - 1)).

Definition BN_equal_consttime (a b : BIGNUM) : bool :=
  let mask := 0 in
  let mask := or_words (d b) (width a) (width b) mask in
  let mask := or_words (d a) (width b) (width a) mask in
  let min := if (width a <? width b)%nat then width a else width b in
  let mask := for_ 0 min (fun i mask => Z.lor mask (Z.lxor (d a !!! i) (d b !!! i))) mask in
  let mask := Z.lor mask (Z.lxor (neg a) (neg b)) in
  mask =? 0.
End cmp.

(** *** Correctness of the word comparison *)
Section words_compare.
Context `{CryptoInternalLaws}.

(** One more significant word decides the comparison unless it is equal. *)
Lemma sgn_step x y P a b : 0 <= x < P -> 0 <= y < P ->
  Z.sgn ((x + P * a) - (y + P * b)) =
  if decide (a = b) then Z.sgn (x - y) else if decide (a < b) then -1 else 1.
Proof.
  intros Hx Hy. repeat case_decide; subst.
  - f_equal. lia.
  - apply Z.sgn_neg. nia.
  - apply Z.sgn_pos. nia.
Qed.

Lemma select_step ret x y : is_u 64 x -> is_u 64 y ->
  constant_time_select_int (constant_time_eq_w x y) ret
    (constant_time_select_int (constant_time_lt_w x y) (-1) 1) =
  if decide (x = y) then ret else if decide (x < y) then -1 else 1.
Proof.
  intros Hx Hy. rewrite ct_eq_w_spec, ct_lt_w_spec, !ct_select_int_spec by done.
  repeat case_bool_decide; repeat case_decide; done.
Qed.

Lemma common_words_spec a b m : words a -> words b ->
  (m <= length a)%nat -> (m <= length b)%nat ->
  for_ 0 m (fun i ret =>
    constant_time_select_int (constant_time_eq_w (a !!! i) (b !!! i)) ret
      (constant_time_select_int (constant_time_lt_w (a !!! i) (b !!! i)) (-1) 1)) 0 =
  Z.sgn (words_val (take m a) - words_val (take m b)).
Proof.
  intros Ha Hb Hma Hmb.
  apply (for_inv _ (fun k ret => ret = Z.sgn (words_val (take k a) - words_val (take k b))));
    [lia|done|].
  intros i ret Hi ->. rewrite select_step by auto with width.
  rewrite !words_val_take_S by lia.
  by rewrite sgn_step by (apply words_take_lt; done || lia).
Qed.

(** A longer operand wins unless its extra words vanish. *)
Lemma longer_words ws k v : words ws -> (k <= length ws)%nat ->
  0 <= v < (2 ^ 64) ^ Z.of_nat k ->
  Z.sgn (v - words_val ws) =
  if decide (words_val (drop k ws) = 0) then Z.sgn (v - words_val (take k ws)) else -1.
Proof.
  intros Hws Hk Hv. rewrite (words_val_split ws k) by done.
  pose proof (words_take_lt ws k Hws Hk).
  pose proof (words_val_range (drop k ws) (Forall_drop _ k _ Hws)) as Hd.
  case_decide as Hz; [f_equal; lia|]. apply Z.sgn_neg. nia.
Qed.

Lemma mask_select ws lo hi r s : words ws -> (lo <= hi)%nat -> hi = length ws ->
  constant_time_select_int (constant_time_is_zero_w (or_words ws lo hi 0)) r s =
  if decide (words_val (drop lo ws) = 0) then r else s.
Proof.
  intros Hws Hle ->.
  destruct (or_words_spec ws lo (length ws) 0) as [Hu Hz]; [done|split; lia|done|].
  rewrite ct_is_zero_w_spec, ct_select_int_spec by done.
  pose proof (drop_zero_iff ws lo Hws Hle) as Hd.
  case_bool_decide; case_decide; try done; exfalso; tauto.
Qed.

Lemma or_words_take ws lo hi n m : (hi <= n)%nat ->
  or_words (take n ws) lo hi m = or_words ws lo hi m.
Proof.
  intros Hn. unfold or_words, for_. revert m.
  assert (forall l m, (forall i, i ∈ l -> (i < n)%nat) ->
    foldl (fun s i => Z.lor s (take n ws !!! i)) m l =
    foldl (fun s i => Z.lor s (ws !!! i)) m l) as Hl.
  { induction l as [|i l IH]; intros m Hi; simpl; [done|].
    rewrite lookup_total_take, decide_True by (apply Hi; set_solver). apply IH. set_solver. }
  intros m. apply Hl. intros i Hi. apply elem_of_seq in Hi. lia.
Qed.

Lemma bn_cmp_words_spec a a_len b b_len : words a -> words b ->
  (a_len <= length a)%nat -> (b_len <= length b)%nat ->
  bn_cmp_words_consttime a a_len b b_len =
  Z.sgn (words_val (take a_len a) - words_val (take b_len b)).
Proof.
  intros Ha Hb Hal Hbl. unfold bn_cmp_words_consttime.
  destruct (Nat.ltb_spec a_len b_len) as [Hlt|Hge].
  - rewrite common_words_spec by (done || lia).
    rewrite <- (or_words_take b _ _ b_len) by done.
    rewrite mask_select by (try apply Forall_take; done || len).
    rewrite (longer_words (take b_len b) a_len) by
      (try apply Forall_take; try apply words_take_lt; done || len).
    by rewrite take_take, Nat.min_l by lia.
  - rewrite common_words_spec by (done || lia).
    destruct (Nat.ltb_spec b_len a_len) as [Hlt|Hge']; [|by replace b_len with a_len by lia].
    rewrite <- (or_words_take a _ _ a_len) by done.
    rewrite mask_select by (try apply Forall_take; done || len).
    rewrite <- (Z.opp_involutive (Z.sgn (words_val (take a_len a) - _))), <- Z.sgn_opp.
    replace (- (words_val (take a_len a) - words_val (take b_len b)))
      with (words_val (take b_len b) - words_val (take a_len a)) by lia.
    rewrite (longer_words (take a_len a) b_len) by
      (try apply Forall_take; try apply words_take_lt; done || len).
    rewrite take_take, Nat.min_l by lia. case_decide; [|done].
    rewrite <- Z.sgn_opp. f_equal. lia.
Qed.
End words_compare.

(** *** Lemmas for the predicates *)
Section predicates.
Context `{CryptoInternalLaws}.
Implicit Types a b bn : BIGNUM.

Lemma bn_words_ok a : bn_wf a -> words (bn_words a) /\ length (bn_words a) = width a.
Proof.
  intros [Hw Hl _ _]. split; [by apply Forall_take|]. unfold bn_words. len.
Qed.

Lemma bn_abs_nonneg a : bn_wf a -> 0 <= bn_abs a.
Proof. intros Hwf. apply words_val_range, bn_words_ok, Hwf. Qed.

Lemma BN_ucmp_spec a b : bn_wf a -> bn_wf b -> BN_ucmp a b = Z.sgn (bn_abs a - bn_abs b).
Proof. intros [] []. by apply bn_cmp_words_spec. Qed.

Lemma BN_cmp_spec a b : bn_wf a -> bn_wf b ->
  BN_cmp (Some a) (Some b) = Z.sgn (bn_value a - bn_value b).
Proof.
  intros Ha Hb. pose proof (bn_abs_nonneg a Ha). pose proof (bn_abs_nonneg b Hb).
  destruct (bn_wf_neg a Ha) as [Na|Na], (bn_wf_neg b Hb) as [Nb|Nb];
    unfold BN_cmp, bn_value; rewrite Na, Nb; simpl; rewrite ?BN_ucmp_spec by done.
  - done.
  - symmetry. apply Z.sgn_pos.
    destruct (decide (bn_abs b = 0)) as [Hz|]; [apply bn_wf_zero in Hz; [lia|done]|lia].
  - symmetry. apply Z.sgn_neg.
    destruct (decide (bn_abs a = 0)) as [Hz|]; [apply bn_wf_zero in Hz; [lia|done]|lia].
  - rewrite <- Z.sgn_opp. f_equal. lia.
Qed.

Lemma bn_words_cons a : bn_wf a -> (0 < width a)%nat ->
  bn_words a = d a !!! 0%nat :: drop 1 (bn_words a).
Proof.
  intros Ha Hw. destruct (bn_words_ok a Ha) as [_ Hl]. unfold bn_words in *.
  destruct (d a) as [|x l]; [simpl in *; destruct (width a); simpl in *; lia|].
  destruct (width a); [lia|]. simpl. by rewrite drop_0.
Qed.

Lemma BN_abs_is_word_spec bn w : bn_wf bn -> is_u 64 w ->
  BN_abs_is_word bn w = bool_decide (bn_abs bn = w).
Proof.
  intros Hbn Hw. unfold BN_abs_is_word, bn_abs.
  destruct (bn_words_ok bn Hbn) as [Hws Hl].
  destruct (Nat.eqb_spec (width bn) 0) as [Hz|Hz].
  - rewrite (nil_length_inv _ (eq_trans Hl Hz)). simpl.
    apply eq_bool_iff. rewrite bool_decide_eq_true, Z.eqb_eq. lia.
  - rewrite <- (or_words_take _ _ _ (width bn)) by done. fold (bn_words bn).
    destruct (or_words_spec (bn_words bn) 1 (width bn) (Z.lxor (d bn !!! 0%nat) w)) as [_ Ho];
      [done|destruct Hbn; auto with width|lia|].
    pose proof (drop_zero_iff (bn_words bn) 1 Hws) as Hz'. rewrite Hl in Hz'.
    rewrite <- Hz' in Ho by lia.
    apply eq_bool_iff. rewrite bool_decide_eq_true, Z.eqb_eq, Ho, Z.lxor_eq_0_iff.
    rewrite (bn_words_cons bn) at 2 by (done || lia). cbn [words_val].
    pose proof (words_val_range _ (Forall_drop _ 1 _ Hws)).
    destruct Hbn as [Hd _ _ _]. pose proof (word_lookup (d bn) 0 Hd).
    unfold is_u in *. nia.
Qed.

Lemma BN_is_odd_spec bn : bn_wf bn -> BN_is_odd bn = Z.odd (bn_abs bn).
Proof.
  intros Hbn. unfold BN_is_odd, bn_abs.
  destruct (bn_words_ok bn Hbn) as [Hws Hl].
  destruct (Nat.ltb_spec 0 (width bn)) as [Hz|Hz]; simpl.
  - rewrite (bn_words_cons bn) by done. cbn [words_val].
    replace (2 ^ 64 * words_val (drop 1 (bn_words bn)))
      with (2 * (2 ^ 63 * words_val (drop 1 (bn_words bn)))) by lia.
    rewrite Z.odd_add_mul_2. change 1 with (Z.ones 1) at 1.
    rewrite Z.land_ones by lia. change (2 ^ 1) with 2.
    rewrite Zmod_odd. by destruct (Z.odd _).
  - by rewrite (nil_length_inv (bn_words bn)) by lia.
Qed.

Lemma xor_words_spec (x y : list Z) m mask :
  for_ 0 m (fun i mask => Z.lor mask (Z.lxor (x !!! i) (y !!! i))) mask = 0 <->
  mask = 0 /\ forall i, (i < m)%nat -> x !!! i = y !!! i.
Proof.
  apply (for_inv _ (fun k s => s = 0 <-> mask = 0 /\ forall i, (i < k)%nat -> x !!! i = y !!! i));
    [lia|split; [intros ->; split; [done|lia]|by intros [-> _]]|].
  intros k s Hk IH. rewrite Z.lor_eq_0_iff, Z.lxor_eq_0_iff, IH. split.
  - intros [[-> Hlt] Hz]. split; [done|]. intros i Hi.
    destruct (decide (i = k)) as [->|]; [done|]. apply Hlt; lia.
  - intros [-> Hlt]. split; [split; [done|]|]; [intros i Hi|]; apply Hlt; lia.
Qed.

Lemma words_val_inj x y : words x -> words y -> length x = length y ->
  words_val x = words_val y -> x = y.
Proof.
  intros Hx. revert y. induction Hx as [|w x Hw _ IH]; intros [|v y] Hy Hl Hv; try done.
  apply Forall_cons_iff in Hy as [Hv' Hy]. cbn [words_val] in Hv.
  unfold is_u in *. assert (w = v) as -> by lia. f_equal. apply IH; [done|by injection Hl|lia].
Qed.

Lemma take_lookup_eq (x y : list Z) m : (m <= length x)%nat -> (m <= length y)%nat ->
  (forall i, (i < m)%nat -> x !!! i = y !!! i) <-> take m x = take m y.
Proof.
  intros Hx Hy. split.
  - intros Heq. apply list_eq_same_length with m; [len|len|].
    intros i u v Hi Hu Hv. apply list_lookup_total_correct in Hu as <-, Hv as <-.
    rewrite !lookup_total_take, !decide_True by done. by apply Heq.
  - intros Heq i Hi. apply (f_equal (fun l => l !!! i)) in Heq.
    by rewrite !lookup_total_take, !decide_True in Heq by done.
Qed.

(** The tail scan of one operand: it is empty for the shorter one. *)
Lemma tail_scan bn k mask : bn_wf bn -> is_u 64 mask ->
  is_u 64 (or_words (d bn) k (width bn) mask) /\
  (or_words (d bn) k (width bn) mask = 0 <-> mask = 0 /\ words_val (drop k (bn_words bn)) = 0).
Proof.
  intros Hbn Hm. destruct (bn_words_ok bn Hbn) as [Hws Hl].
  destruct (decide (k <= width bn)%nat) as [Hk|Hk].
  - rewrite <- (or_words_take _ _ _ (width bn)) by done. fold (bn_words bn).
    rewrite <- Hl at 1 2. rewrite drop_zero_iff by (done || lia).
    apply or_words_spec; [done|done|lia].
  - unfold or_words. rewrite for_empty, drop_ge by lia. simpl. tauto.
Qed.

Lemma split_unique x y P u v : 0 <= x < P -> 0 <= y < P ->
  x + P * u = y + P * v <-> x = y /\ u = v.
Proof. intros. split; [|intros [-> ->]; done]. intros. assert (u = v) by nia. nia. Qed.

Lemma bn_value_eq a b : bn_wf a -> bn_wf b ->
  bn_value a = bn_value b <-> bn_abs a = bn_abs b /\ neg a = neg b.
Proof.
  intros Ha Hb. pose proof (bn_abs_nonneg a Ha). pose proof (bn_abs_nonneg b Hb).
  destruct Ha as [_ _ Na Za], Hb as [_ _ Nb Zb]. unfold bn_value. repeat case_decide; lia.
Qed.

Lemma BN_equal_consttime_spec a b : bn_wf a -> bn_wf b ->
  BN_equal_consttime a b = bool_decide (bn_value a = bn_value b).
Proof.
  intros Ha Hb. destruct (bn_words_ok a Ha) as [Wa La], (bn_words_ok b Hb) as [Wb Lb].
  unfold BN_equal_consttime. set (m := if (width a <? width b)%nat then width a else width b).
  assert (m <= width a /\ m <= width b /\ (m = width a \/ m = width b))%nat as Hm
    by (unfold m; destruct (Nat.ltb_spec (width a) (width b)); lia).
  destruct (tail_scan b (width a) 0) as [Hu1 Hz1]; [done|split; lia|].
  destruct (tail_scan a (width b) _ Ha Hu1) as [_ Hz2].
  apply eq_bool_iff. rewrite bool_decide_eq_true, Z.eqb_eq, Z.lor_eq_0_iff, Z.lxor_eq_0_iff.
  rewrite xor_words_spec, Hz2, Hz1. rewrite take_lookup_eq by (clear Hz1 Hz2; destruct Ha, Hb; lia).
  rewrite bn_value_eq by done. unfold bn_abs.
  rewrite (words_val_split (bn_words a) m), (words_val_split (bn_words b) m) by lia.
  rewrite split_unique by (apply words_take_lt; done || lia).
  assert (words_val (take m (bn_words a)) = words_val (take m (bn_words b)) <->
          take m (d a) = take m (d b)) as ->.
  { unfold bn_words. rewrite !take_take, !Nat.min_l by lia. split; [|by intros ->].
    clear Hz1 Hz2 Hu1. destruct Ha, Hb. apply words_val_inj; [by apply Forall_take..|len]. }
  assert (forall bn k, bn_wf bn -> (width bn <= k)%nat -> words_val (drop k (bn_words bn)) = 0) as Hnil.
  { intros bn k Hbn Hk. by rewrite drop_ge by (destruct (bn_words_ok bn Hbn); lia). }
  destruct Hm as (Hma & Hmb & [Hm|Hm]).
  - rewrite (Hnil a (width b)), (Hnil a m) by (done || lia). rewrite Hm.
    split; intros; destruct_and!; split_and!; congruence.
  - rewrite (Hnil b (width a)), (Hnil b m) by (done || lia). rewrite Hm.
    split; intros; destruct_and!; split_and!; congruence.
Qed.

Lemma land_pred_pow2 t : 0 < t -> Z.land t (t - 1) = 0 <-> exists k, 0 <= k /\ t = 2 ^ k.
Proof.
  intros Ht. split.
  - intros Hz. exists (Z.log2 t). split; [apply Z.log2_nonneg|].
    destruct (Z.log2_spec t Ht) as [Hlo Hhi].
    destruct (decide (t = 2 ^ Z.log2 t)) as [|Hne]; [done|exfalso].
    apply (f_equal (fun z => Z.testbit z (Z.log2 t))) in Hz.
    rewrite Z.land_spec, Z.bits_0, Z.bit_log2 in Hz by lia.
    replace (Z.log2 t) with (Z.log2 (t - 1)) in Hz at 1; [rewrite Z.bit_log2 in Hz; [done|]|].
    + pose proof (Z.pow_pos_nonneg 2 (Z.log2 t)). pose proof (Z.log2_nonneg t). lia.
    + apply Z.log2_unique; [apply Z.log2_nonneg|]. lia.
  - intros (k & Hk & ->). bits i Hi. rewrite Z.land_spec, Z.bits_0.
    rewrite Z.pow2_bits_eqb by lia. destruct (Z.eqb_spec k i) as [->|]; [|done].
    rewrite Z.sub_1_r, <- Z.ones_equiv, Z.ones_spec_high by lia. done.
Qed.

(** [bn_minimal_width] returns the number of words up to the top non-zero one. *)
Definition minimal_width_law (f : BIGNUM -> nat) : Prop :=
  forall bn, bn_wf bn -> (f bn <= width bn)%nat /\
    (forall i, (f bn <= i < width bn)%nat -> d bn !!! i = 0) /\
    (f bn = 0%nat \/ d bn !!! (f bn - 1)%nat <> 0).

Lemma minimal_abs bn m : bn_wf bn -> (m <= width bn)%nat ->
  (forall i, (m <= i < width bn)%nat -> d bn !!! i = 0) ->
  bn_abs bn = words_val (take m (d bn)).
Proof.
  intros Hbn Hm Hz. destruct (bn_words_ok bn Hbn) as [Hws Hl]. unfold bn_abs.
  rewrite (words_val_split _ m) by lia.
  assert (words_val (drop m (bn_words bn)) = 0) as ->.
  { apply drop_zero_iff; [done|lia|]. rewrite Hl. intros i Hi. unfold bn_words.
    rewrite lookup_total_take, decide_True by lia. by apply Hz. }
  unfold bn_words. rewrite take_take, Nat.min_l by lia. lia.
Qed.

Lemma forallb_zero (ws : list Z) n : words ws -> (n <= length ws)%nat ->
  forallb (fun i => ws !!! i =? 0) (seq 0 n) = bool_decide (words_val (take n ws) = 0).
Proof.
  intros Hws Hn. apply eq_bool_iff. rewrite bool_decide_eq_true, forallb_forall.
  pose proof (drop_zero_iff (take n ws) 0 (Forall_take _ _ _ Hws)) as Hz.
  rewrite drop_0 in Hz. rewrite Hz by lia. rewrite length_take, Nat.min_l by lia. split.
  - intros Ha i Hi. rewrite lookup_total_take, decide_True by lia.
    apply Z.eqb_eq, Ha, in_seq. lia.
  - intros Ha i Hi. apply in_seq in Hi. apply Z.eqb_eq.
    specialize (Ha i). rewrite lookup_total_take, decide_True in Ha by lia. apply Ha. lia.
Qed.

(** A number whose top word is [t] above [k] lower words is a power of two
    exactly when the lower words vanish and [t] is one. *)
Lemma pow2_split low k t : 0 <= low < (2 ^ 64) ^ Z.of_nat k -> 0 < t ->
  (exists e, 0 <= e /\ low + (2 ^ 64) ^ Z.of_nat k * t = 2 ^ e) <->
  low = 0 /\ exists e, 0 <= e /\ t = 2 ^ e.
Proof.
  intros Hlow Ht. rewrite <- Z.pow_mul_r in * by lia. set (p := 64 * Z.of_nat k) in *.
  split.
  - intros (e & He & Heq). assert (p <= e).
    { apply (Z.pow_le_mono_r_iff 2); [lia|lia|]. nia. }
    replace e with (p + (e - p)) in Heq by lia. rewrite Z.pow_add_r in Heq by lia.
    pose proof (Z.pow_pos_nonneg 2 (e - p)). pose proof (Z.pow_pos_nonneg 2 p).
    assert (low = 0) as ->.
    { assert (low = 2 ^ p * (2 ^ (e - p) - t)) as Hl by lia.
      destruct (decide (2 ^ (e - p) - t = 0)) as [E0|]; [rewrite E0 in Hl; lia|nia]. }
    split; [done|]. exists (e - p). split; [lia|]. nia.
  - intros (-> & e & He & ->). exists (p + e). rewrite Z.pow_add_r by lia. lia.
Qed.

Lemma BN_is_pow2_spec f bn : minimal_width_law f -> bn_wf bn ->
  BN_is_pow2 f bn = true <-> exists e, 0 <= e /\ bn_value bn = 2 ^ e.
Proof.
  intros Hlaw Hbn. destruct (Hlaw bn Hbn) as (Hm & Hz & Htop). unfold BN_is_pow2.
  pose proof (bn_abs_nonneg bn Hbn) as Hnn.
  pose proof (minimal_abs bn (f bn) Hbn Hm Hz) as Habs.
  assert (f bn = 0%nat \/ neg bn <> 0 -> ~ exists e, 0 <= e /\ bn_value bn = 2 ^ e) as Hno.
  { intros Hc (e & He & Hv). pose proof (Z.pow_pos_nonneg 2 e). unfold bn_value in Hv.
    case_decide; destruct Hc as [Hc|Hc]; rewrite ?Hc in *; simpl in *; lia. }
  destruct (Nat.eqb_spec (f bn) 0) as [Hf|Hf], (Z.eqb_spec (neg bn) 0) as [Hn|Hn];
    cbn [orb negb]; try (split; [done|intros Hex; exfalso; apply Hno; auto]).
  destruct Hbn as [Hd Hw _ _]. unfold bn_value. rewrite decide_True by done.
  rewrite forallb_zero by (done || lia). set (k := (f bn - 1)%nat) in *.
  rewrite Habs. replace (f bn) with (S k) by lia. rewrite words_val_take_S by lia.
  destruct Htop as [|Htop]; [done|]. pose proof (word_lookup (d bn) k Hd) as Hu.
  rewrite pow2_split by (try apply words_take_lt; done || unfold is_u in *; lia).
  rewrite wrap_small by (unfold is_u in *; lia).
  rewrite <- land_pred_pow2 by (unfold is_u in *; lia).
  case_bool_decide as Hl; cbn [negb]; [rewrite Z.eqb_eq|]; intuition (done || lia).
Qed.
End predicates.
End Cmp.

(** ** [montgomery_inv.c] *)
Module Montgomery.

(** One limb holds [r] on a 64-bit target ([BN_MONT_CTX_N0_LIMBS == 1]). *)
Definition BN_BITS2 : Z := 64.
Definition BN_MONT_CTX_N0_LIMBS : Z := 1.
Definition LG_LITTLE_R : Z := BN_MONT_CTX_N0_LIMBS * BN_BITS2.

Definition alpha : Z := wrap 64 (Z.shiftl 1 (LG_LITTLE_R - 1)).

(** One iteration of the loop on [(u, v)]. *)
Definition neg_inv_step (beta : Z) (uv : Z * Z) : Z * Z :=
  let '(u, v) := uv in
  let u_is_odd := wrap 64 (0 - Z.land u 1) in
  let beta_if_u_is_odd := Z.land beta u_is_odd in
  let u := wrap 64 (Z.shiftr (Z.lxor u beta_if_u_is_odd) 1 + Z.land u beta_if_u_is_odd) in
  let alpha_if_u_is_odd := Z.land alpha u_is_odd in
  let v := wrap 64 (Z.shiftr v 1 + alpha_if_u_is_odd) in
  (u, v).

Definition bn_neg_inv_mod_r_u64 (n : Z) : Z :=
  let beta := n in
  snd (for_ 0 (Z.to_nat LG_LITTLE_R) (fun _ uv => neg_inv_step beta uv) (1, 0)).

Definition bn_mont_n0 (n : BIGNUM) : Z :=
  let n_mod_r := d n !!! 0%nat in
  bn_neg_inv_mod_r_u64 n_mod_r.

(** Dietz's average: [(x ^ y) >> 1 + (x & y)] is [(x + y) / 2]. *)
Lemma dietz x y : Z.shiftr (Z.lxor x y) 1 + Z.land x y = (x + y) `div` 2.
Proof.
  rewrite Z.shiftr_div_pow2 by lia. change (2 ^ 1) with 2.
  assert (x + y = Z.lxor x y + Z.land x y * 2) as ->; [|by rewrite Z.div_add by lia].
  pose proof (Z.add_lxor_2land x y). lia.
Qed.

Lemma odd_mask u : wrap 64 (0 - Z.land u 1) = if Z.odd u then 2 ^ 64 - 1 else 0.
Proof.
  change 1 with (Z.ones 1). rewrite Z.land_ones by lia. change (2 ^ 1) with 2.
  rewrite Zmod_odd. by destruct (Z.odd u).
Qed.

Lemma land_mask x : is_u 64 x -> Z.land x (2 ^ 64 - 1) = x.
Proof. intros. change (2 ^ 64 - 1) with (Z.ones 64). rewrite Z.land_ones by lia. by apply wrap_small. Qed.

(** What one iteration computes, on words small enough not to overflow. *)
Lemma neg_inv_step_spec beta u v :
  is_u 64 beta -> 0 <= u <= beta -> is_u 64 v -> Z.odd beta = true ->
  neg_inv_step beta (u, v) =
  if Z.odd u then ((u + beta) `div` 2, v `div` 2 + 2 ^ 63) else (u `div` 2, v `div` 2).
Proof.
  intros Hb Hu Hv Ho. unfold neg_inv_step. rewrite odd_mask.
  change alpha with (2 ^ 63). rewrite (Z.shiftr_div_pow2 v) by lia. change (2 ^ 1) with 2.
  unfold is_u in *. destruct (Z.odd u).
  - rewrite !land_mask, dietz, !wrap_small by ulia. done.
  - rewrite !Z.land_0_r, Z.lxor_0_r, Z.shiftr_div_pow2 by lia. change (2 ^ 1) with 2.
    by rewrite !Z.add_0_r, !wrap_small by ulia.
Qed.

(** The invariant the comment in the loop states, with the bounds that make
    the unsigned additions exact. *)
Definition loop_inv (beta : Z) (i : nat) (uv : Z * Z) : Prop :=
  let '(u, v) := uv in
  0 <= u <= beta /\ is_u 64 v /\ 2 ^ (64 - Z.of_nat i) = u * 2 ^ 64 - v * beta.

Lemma loop_inv_step beta i uv : is_u 64 beta -> Z.odd beta = true -> (i < 64)%nat ->
  loop_inv beta i uv -> loop_inv beta (S i) (neg_inv_step beta uv).
Proof.
  destruct uv as [u v]. intros Hb Ho Hi (Hu & Hv & Heq). rewrite neg_inv_step_spec by done.
  apply Z.odd_spec in Ho as [m Hm].
  replace (64 - Z.of_nat i) with (1 + (64 - Z.of_nat (S i))) in Heq by lia.
  rewrite Z.pow_add_r in Heq by lia. change (2 ^ 1) with 2 in Heq.
  set (p := 2 ^ (64 - Z.of_nat (S i))) in *.
  assert (exists w, v = 2 * w) as [w ->].
  { destruct (Z.Even_or_Odd v) as [[w ->]|[w ->]]; [by exists w|exfalso].
    assert (2 * (u * 2 ^ 63 - p) = (2 * w + 1) * beta) by lia. nia. }
  rewrite (Z.mul_comm 2 w), Z.div_mul by lia. unfold is_u in *.
  destruct (Z.odd u) eqn:Hodd.
  - apply Z.odd_spec in Hodd as [k ->].
    replace (2 * k + 1 + beta) with ((k + m + 1) * 2) by lia. rewrite Z.div_mul by lia.
    unfold loop_inv. fold p. unfold is_u. split_and!; nia.
  - assert (exists k, u = 2 * k) as [k ->].
    { destruct (Z.Even_or_Odd u) as [[k ->]|Ho']; [by exists k|].
      apply Z.odd_spec in Ho'. congruence. }
    rewrite (Z.mul_comm 2 k), Z.div_mul by lia.
    unfold loop_inv. fold p. unfold is_u. split_and!; nia.
Qed.

Lemma neg_inv_spec n : is_u 64 n -> Z.odd n = true ->
  is_u 64 (bn_neg_inv_mod_r_u64 n) /\ exists u, u * 2 ^ 64 - bn_neg_inv_mod_r_u64 n * n = 1.
Proof.
  intros Hn Ho. unfold bn_neg_inv_mod_r_u64. change (Z.to_nat LG_LITTLE_R) with 64%nat.
  assert (loop_inv n 64 (for_ 0 64 (fun _ uv => neg_inv_step n uv) (1, 0))) as Hinv.
  { apply (for_inv _ (loop_inv n)); [lia| |].
    - apply Z.odd_spec in Ho as [m ->]. unfold loop_inv, is_u in *. simpl. lia.
    - intros i uv Hi. apply loop_inv_step; [done|done|lia]. }
  destruct (for_ _ _ _ _) as [u v]. destruct Hinv as (_ & Hv & Heq). split; [done|].
  exists u. simpl. simpl in Heq. lia.
Qed.

(** *** [bn_mod_exp_base_2_consttime]

    The bignum operations it calls are in files the repository does not hold;
    [BnOps] lists them with their documented results.  An operation that may
    fail to allocate returns an [option]. *)
Class BnOps := {
  BN_zero : BIGNUM -> BIGNUM;
  BN_num_bits : BIGNUM -> Z;
  BN_set_bit : BIGNUM -> Z -> option BIGNUM;
  bn_mod_lshift_consttime : BIGNUM -> Z -> BIGNUM -> option BIGNUM;
}.

Class BnOpsLaws `{BnOps} : Prop := {
  BN_zero_spec r : bn_value (BN_zero r) = 0;
  BN_num_bits_spec n : bn_wf n -> bn_value n > 0 -> BN_num_bits n = Z.log2 (bn_value n) + 1;
  BN_set_bit_spec r k r' : 0 <= k -> bn_value r = 0 ->
    BN_set_bit r k = Some r' -> bn_value r' = 2 ^ k;
  mod_lshift_spec r k n r' : 0 <= k -> 0 <= bn_value r < bn_value n ->
    bn_mod_lshift_consttime r k n = Some r' ->
    bn_value r' = (bn_value r * 2 ^ k) `mod` bn_value n;
}.

Definition bn_mod_exp_base_2_consttime `{BnOps} (r : BIGNUM) (p : Z) (n : BIGNUM) : option BIGNUM :=
  let r := BN_zero r in
  let n_bits := BN_num_bits n in
  if n_bits =? 1 then Some r
  else
    r ← BN_set_bit r (wrap 32 (n_bits - 1));
    bn_mod_lshift_consttime r (wrap 32 (p - wrap 32 (n_bits - 1))) n.

Lemma mod_exp_base_2_spec `{BnOpsLaws} r p n r' :
  bn_wf n -> Z.odd (bn_value n) = true -> bn_value n > 0 ->
  BN_num_bits n < p < 2 ^ 32 ->
  bn_mod_exp_base_2_consttime r p n = Some r' -> bn_value r' = 2 ^ p `mod` bn_value n.
Proof.
  intros Hn Ho Hpos Hp. unfold bn_mod_exp_base_2_consttime.
  pose proof (BN_num_bits_spec n Hn Hpos) as Hbits. rewrite Hbits in *.
  pose proof (Z.log2_nonneg (bn_value n)). pose proof (Z.log2_spec (bn_value n)) as Hlog.
  destruct (Z.eqb_spec (Z.log2 (bn_value n) + 1) 1) as [Hone|Hone].
  - intros [= <-]. rewrite BN_zero_spec. replace (bn_value n) with 1; [by rewrite Z.mod_1_r|].
    replace (Z.log2 (bn_value n)) with 0 in Hlog by lia. change (2 ^ Z.succ 0) with 2 in Hlog. lia.
  - rewrite !wrap_small by (unfold is_u; lia || rewrite ?wrap_small by (unfold is_u; lia); lia).
    destruct (BN_set_bit _ _) as [r1|] eqn:Hset; simpl; [|done]. intros Hsh.
    apply BN_set_bit_spec in Hset; [|lia|apply BN_zero_spec].
    apply mod_lshift_spec in Hsh; [|lia|].
    + rewrite Hsh, Hset, <- Z.pow_add_r by lia. f_equal. f_equal. lia.
    + rewrite Hset. replace (Z.log2 (bn_value n) + 1 - 1) with (Z.log2 (bn_value n)) by lia.
      split; [lia|]. destruct Hlog as [Hlo _]; [lia|].
      destruct (decide (bn_value n = 2 ^ Z.log2 (bn_value n))) as [He|]; [|lia].
      exfalso. replace (Z.log2 (bn_value n)) with (1 + (Z.log2 (bn_value n) - 1)) in He by lia.
      rewrite Z.pow_add_r in He by lia. rewrite He, Z.odd_mul in Ho. done.
Qed.

(** A concrete implementation of the operations: bignums just wide enough. *)
Fixpoint words_of (n : nat) (v : Z) : list Z :=
  match n with O => [] | S n => v `mod` 2 ^ 64 :: words_of n (v `div` 2 ^ 64) end.

Definition bn_of (v : Z) : BIGNUM :=
  let k := Z.to_nat (Z.log2 v / 64 + 1) in mkBN (words_of k v) k k 0 0.

Lemma words_val_of n v : words_val (words_of n v) = v `mod` (2 ^ 64) ^ Z.of_nat n.
Proof.
  revert v. induction n as [|n IH]; intros v; [by rewrite Z.mod_1_r|].
  cbn [words_of words_val]. rewrite IH, Nat2Z.inj_succ, Z.pow_succ_r by lia.
  rewrite Z.rem_mul_r by lia. lia.
Qed.

Lemma length_words_of n v : length (words_of n v) = n.
Proof. revert v. induction n; intros; simpl; auto. Qed.

Lemma bn_of_value v : 0 <= v -> bn_value (bn_of v) = v.
Proof.
  intros Hv. unfold bn_value, bn_abs, bn_words, bn_of. simpl.
  rewrite take_ge by (by rewrite length_words_of). rewrite words_val_of.
  apply Z.mod_small. split; [done|]. rewrite <- Z.pow_mul_r by lia.
  destruct (decide (v = 0)) as [->|]; [lia|].
  pose proof (Z.log2_spec v). pose proof (Z.log2_nonneg v).
  apply Z.lt_le_trans with (2 ^ Z.succ (Z.log2 v)); [lia|].
  apply Z.pow_le_mono_r; [lia|]. Z.to_euclidean_division_equations. lia.
Qed.

#[export] Instance reference_bn_ops : BnOps := {
  BN_zero _ := bn_of 0;
  BN_num_bits n := Z.log2 (bn_value n) + 1;
  BN_set_bit r k := Some (bn_of (2 ^ k));
  bn_mod_lshift_consttime r k n := Some (bn_of ((bn_value r * 2 ^ k) `mod` bn_value n));
}.

#[export] Instance reference_bn_ops_laws : BnOpsLaws.
Proof.
  split; simpl.
  - done.
  - done.
  - intros r k r' Hk _ [= <-]. apply bn_of_value. lia.
  - intros r k n r' Hk Hr [= <-]. apply bn_of_value.
    apply Z.mod_pos_bound. lia.
Qed.
End Montgomery.

(** ** Properties *)
Import Cmp Montgomery.

Definition bn7 : BIGNUM := mkBN [7; 0; 5] 2 3 0 0.
Definition bn_neg3 : BIGNUM := mkBN [3] 1 1 1 0.
Definition bn_big : BIGNUM := mkBN [0; 4; 0] 3 3 0 0.

Lemma bn_wf_check a :
  bool_decide (words (d a)) && (width a <=? length (d a))%nat &&
  ((neg a =? 0) || (neg a =? 1)) && (negb (bn_abs a =? 0) || (neg a =? 0)) = true -> bn_wf a.
Proof.
  rewrite !andb_true_iff, !orb_true_iff, bool_decide_eq_true, Nat.leb_le, negb_true_iff.
  rewrite !Z.eqb_eq, Z.eqb_neq. intros [[[] ?] ?]. split; auto. tauto.
Qed.

(** Comparing two bignums, of any widths, with the
    constant-time word loops yields the sign of the difference of the integers
    they denote; comparing with a word agrees. *)
Theorem BN_cmp_correct `{CryptoInternalLaws} (a b : BIGNUM) (w : Z)
  (Ha : bn_wf a) (Hb : bn_wf b) (Hw : is_u 64 w) :
  BN_cmp (Some a) (Some b) = Z.sgn (bn_value a - bn_value b) /\
  BN_cmp_word a w = Z.sgn (bn_value a - w).
Proof.
  split; [by apply BN_cmp_spec|]. unfold BN_cmp_word. rewrite BN_cmp_spec; [|done|].
  - f_equal. unfold bn_value, bn_abs, bn_words. simpl. unfold is_u in Hw.
    destruct (Z.ltb_spec 0 w); simpl; lia.
  - split; simpl; [by repeat constructor; destruct Hw|destruct (0 <? w); lia|auto|auto].
Qed.

Lemma BN_cmp_correct_witness :
  BN_cmp (Some bn7) (Some bn_neg3) = 1 /\ BN_cmp_word bn7 9 = -1.
Proof.
  assert (bn_wf bn7) by (apply bn_wf_check; vm_compute; reflexivity).
  assert (bn_wf bn_neg3) by (apply bn_wf_check; vm_compute; reflexivity).
  destruct (BN_cmp_correct bn7 bn_neg3 9) as [-> ->]; [done|done|split; lia|].
  split; reflexivity.
Defined.

(** The constant-time equality test, which scans the common
    words and the tail of the longer operand, holds exactly when the two
    bignums denote the same integer, whatever their widths. *)
Theorem BN_equal_consttime_correct (a b : BIGNUM) (Ha : bn_wf a) (Hb : bn_wf b) :
  BN_equal_consttime a b = bool_decide (bn_value a = bn_value b).
Proof. by apply BN_equal_consttime_spec. Qed.

Lemma BN_equal_consttime_correct_witness :
  BN_equal_consttime bn_big (mkBN [0; 4] 2 2 0 0) = true.
Proof.
  rewrite BN_equal_consttime_correct; [reflexivity|..]; apply bn_wf_check; vm_compute; reflexivity.
Defined.

(** The word predicates decide what their names say: equality
    with one, equality with a machine word (sign included), and oddness. *)
Theorem BN_word_predicates_correct (bn : BIGNUM) (w : Z) (Hbn : bn_wf bn) (Hw : is_u 64 w) :
  BN_is_one bn = bool_decide (bn_value bn = 1) /\
  BN_is_word bn w = bool_decide (bn_value bn = w) /\
  BN_is_odd bn = Z.odd (bn_value bn).
Proof.
  pose proof (bn_abs_nonneg bn Hbn). pose proof (bn_wf_zero bn Hbn).
  unfold BN_is_one, BN_is_word, bn_value.
  rewrite !BN_abs_is_word_spec, BN_is_odd_spec by (done || split; lia). unfold is_u in Hw.
  split_and!; [apply eq_bool_iff..|case_decide; rewrite ?Z.odd_opp; done];
    rewrite !andb_true_iff, ?orb_true_iff, !bool_decide_eq_true, ?Z.eqb_eq;
    case_decide; lia.
Qed.

Lemma BN_word_predicates_correct_witness :
  BN_is_one bn7 = false /\ BN_is_word bn_neg3 3 = false /\ BN_is_odd bn_neg3 = true.
Proof.
  assert (bn_wf bn7) by (apply bn_wf_check; vm_compute; reflexivity).
  assert (bn_wf bn_neg3) by (apply bn_wf_check; vm_compute; reflexivity).
  destruct (BN_word_predicates_correct bn7 3) as (-> & _ & _); [done|split; lia|].
  destruct (BN_word_predicates_correct bn_neg3 3) as (_ & -> & ->); [done|split; lia|].
  split_and!; reflexivity.
Defined.

(** The number of words up to the top non-zero one. *)
Fixpoint reference_minimal_width_loop (ws : list Z) (n : nat) : nat :=
  match n with
  | O => O
  | S m => if ws !!! m =? 0 then reference_minimal_width_loop ws m else n
  end.
Definition reference_minimal_width (bn : BIGNUM) : nat :=
  reference_minimal_width_loop (d bn) (width bn).

Lemma reference_minimal_width_law : minimal_width_law reference_minimal_width.
Proof.
  intros bn _. unfold reference_minimal_width. induction (width bn) as [|n IH]; simpl.
  - split_and!; [lia|lia|by left].
  - destruct (Z.eqb_spec (d bn !!! n) 0) as [Hz|Hz].
    + destruct IH as (? & Hi & ?). split_and!; [lia| |done].
      intros i Hi'. destruct (decide (i = n)) as [->|]; [done|]. apply Hi; lia.
    + split_and!; [lia|lia|]. right. by replace (S n - 1)%nat with n by lia.
Qed.

(** [BN_is_pow2] accepts exactly the positive powers of two,
    for every implementation of [bn_minimal_width] that finds the top word. *)
Theorem BN_is_pow2_correct (bn_minimal_width : BIGNUM -> nat) (bn : BIGNUM)
  (Hmin : minimal_width_law bn_minimal_width) (Hbn : bn_wf bn) :
  BN_is_pow2 bn_minimal_width bn = true <-> exists e, 0 <= e /\ bn_value bn = 2 ^ e.
Proof. by apply BN_is_pow2_spec. Qed.

Lemma BN_is_pow2_correct_witness :
  exists e, 0 <= e /\ bn_value bn_big = 2 ^ e.
Proof.
  apply (BN_is_pow2_correct reference_minimal_width).
  - exact reference_minimal_width_law.
  - apply bn_wf_check; vm_compute; reflexivity.
  - reflexivity.
Defined.

(** The shift-and-add loop of 64 iterations computes the
    Montgomery constant: for every odd modulus, of any width, [n0 * n] is
    congruent to [-1] modulo [2^64]; in particular no unsigned addition in the
    loop overflows. *)
Theorem bn_mont_n0_correct (n : BIGNUM) (Hn : bn_wf n) (Ho : BN_is_odd n = true) :
  is_u 64 (bn_mont_n0 n) /\ (bn_mont_n0 n * bn_abs n) `mod` 2 ^ 64 = 2 ^ 64 - 1.
Proof.
  unfold BN_is_odd in Ho. apply andb_true_iff in Ho as [Hw Hodd].
  apply Nat.ltb_lt in Hw. pose proof (bn_wf_words n Hn) as Hd.
  destruct (neg_inv_spec (d n !!! 0%nat)) as (Hu & u & Heq).
  - auto with width.
  - apply Z.eqb_eq in Hodd. change 1 with (Z.ones 1) in Hodd at 1.
    rewrite Z.land_ones in Hodd by lia. change (2 ^ 1) with 2 in Hodd.
    rewrite Zmod_odd in Hodd. by destruct (Z.odd _).
  - unfold bn_mont_n0. split; [done|]. set (v := bn_neg_inv_mod_r_u64 _) in *.
    unfold bn_abs. rewrite (bn_words_cons n) by done. cbn [words_val].
    set (hi := words_val _). set (lo := d n !!! 0%nat) in *.
    replace (v * (lo + 2 ^ 64 * hi)) with (-1 + (u + v * hi) * 2 ^ 64) by lia.
    rewrite Z.mod_add by lia. reflexivity.
Qed.

Lemma bn_mont_n0_correct_witness :
  (bn_mont_n0 bn7 * bn_abs bn7) `mod` 2 ^ 64 = 2 ^ 64 - 1.
Proof.
  apply (bn_mont_n0_correct bn7); [apply bn_wf_check; vm_compute|]; reflexivity.
Defined.

(** [bn_mod_exp_base_2_consttime] leaves [2^p mod n] in [r] for
    every odd positive modulus, and fails only when one of the two bignum
    operations it calls fails. *)
Theorem bn_mod_exp_base_2_correct `{BnOpsLaws} (r n : BIGNUM) (p : Z)
  (Hn : bn_wf n) (Ho : Z.odd (bn_value n) = true) (Hpos : bn_value n > 0)
  (Hp : BN_num_bits n < p < 2 ^ 32) :
  match bn_mod_exp_base_2_consttime r p n with
  | Some r' => bn_value r' = 2 ^ p `mod` bn_value n
  | None => exists r1 k, BN_set_bit r1 k = None \/ bn_mod_lshift_consttime r1 k n = None
  end.
Proof.
  destruct (bn_mod_exp_base_2_consttime r p n) as [r'|] eqn:E.
  - by apply (mod_exp_base_2_spec r p n r').
  - unfold bn_mod_exp_base_2_consttime in E.
    destruct (BN_num_bits n =? 1); [done|].
    destruct (BN_set_bit (BN_zero r) _) as [r1|] eqn:E1; simpl in E; eauto.
Qed.

Lemma bn_mod_exp_base_2_correct_witness :
  option_map bn_value (bn_mod_exp_base_2_consttime bn_big 100 (mkBN [7; 0] 2 2 0 0)) =
  Some (2 ^ 100 `mod` 7).
Proof.
  pose proof (bn_mod_exp_base_2_correct bn_big (mkBN [7; 0] 2 2 0 0) 100) as Hx.
  assert (bn_wf (mkBN [7; 0] 2 2 0 0)) as Hwf by (apply bn_wf_check; vm_compute; reflexivity).
  specialize (Hx Hwf eq_refl eq_refl (conj eq_refl eq_refl)).
  destruct (bn_mod_exp_base_2_consttime bn_big 100 _) as [r'|] eqn:E; [|discriminate E].
  simpl. rewrite Hx. reflexivity.
Defined.
