(* ===== verification/ChaCha.v ===== *)
(** * ChaCha20 ([BoringSSL-GRPC/src/crypto/chacha/chacha.c])

    The quarter round, the 20-round core, HChaCha20 and the stream cipher of
    the portable build ([CHACHA20_ASM] undefined).  The state is an array of
    sixteen 32-bit words; a buffer is a list of bytes. *)

From S2P Require Import Prelude CryptoInternal.

Section chacha.
Context `{CryptoInternal}.

(** "expand 32-byte k" *)
Definition sigma : list Z :=
  [101; 120; 112; 97; 110; 100; 32; 51; 50; 45; 98; 121; 116; 101; 32; 107].

(** [OPENSSL_memcpy] of bytes into an array of 32-bit words, on the
    little-endian targets of the pod. *)
Fixpoint words_of_bytes (n : nat) (bs : list Z) : list Z :=
  match n with
  | O => []
  | S n => le_val (take 4 bs) :: words_of_bytes n (drop 4 bs)
  end.

Definition bytes_of_words (ws : list Z) : list Z := ws ≫= le_bytes 4.

Definition QUARTERROUND (a b c d : nat) (x : list Z) : list Z :=
  let x := <[a := wrap 32 (x !!! a + x !!! b)]> x in
  let x := <[d := CRYPTO_rotl_u32 (Z.lxor (x !!! d) (x !!! a)) 16]> x in
  let x := <[c := wrap 32 (x !!! c + x !!! d)]> x in
  let x := <[b := CRYPTO_rotl_u32 (Z.lxor (x !!! b) (x !!! c)) 12]> x in
  let x := <[a := wrap 32 (x !!! a + x !!! b)]> x in
  let x := <[d := CRYPTO_rotl_u32 (Z.lxor (x !!! d) (x !!! a)) 8]> x in
  let x := <[c := wrap 32 (x !!! c + x !!! d)]> x in
  let x := <[b := CRYPTO_rotl_u32 (Z.lxor (x !!! b) (x !!! c)) 7]> x in
  x.

(** The body of the round loop, which both functions below spell out. *)
Definition double_round (x : list Z) : list Z :=
  let x := QUARTERROUND 0 4 8 12 x in
  let x := QUARTERROUND 1 5 9 13 x in
  let x := QUARTERROUND 2 6 10 14 x in
  let x := QUARTERROUND 3 7 11 15 x in
  let x := QUARTERROUND 0 5 10 15 x in
  let x := QUARTERROUND 1 6 11 12 x in
  let x := QUARTERROUND 2 7 8 13 x in
  QUARTERROUND 3 4 9 14 x.

Definition rounds (x : list Z) : list Z := for_ 0 10 (fun _ => double_round) x.

Definition CRYPTO_hchacha20 (key nonce : list Z) : list Z :=
  let x := words_of_bytes 4 sigma ++ words_of_bytes 8 key ++ words_of_bytes 4 nonce in
  let x := rounds x in
  bytes_of_words (take 4 x) ++ bytes_of_words (take 4 (drop 12 x)).

Definition chacha_core (input : list Z) : list Z :=
  let x := rounds input in
  let x := for_ 0 16 (fun i x => <[i := wrap 32 (x !!! i + input !!! i)]> x) x in
  x ≫= CRYPTO_store_u32_le.

Definition initial_state (key nonce : list Z) (counter : Z) : list Z :=
  let load (bs : list Z) (i : nat) := CRYPTO_load_u32_le (take 4 (drop i bs)) in
  [ load sigma 0; load sigma 4; load sigma 8; load sigma 12;
    load key 0; load key 4; load key 8; load key 12;
    load key 16; load key 20; load key 24; load key 28;
    counter; load nonce 0; load nonce 4; load nonce 8 ]%nat.

(** The [while (in_len > 0)] loop; a block at a time, so [length in] rounds of
    fuel suffice. *)
Fixpoint chacha_loop (fuel : nat) (inp : list Z) (input : list Z) : option (list Z) :=
  match inp with
  | [] => Some []
  | _ =>
      match fuel with
      | O => None
      | S fuel =>
          let todo := if (length inp <? 64)%nat then length inp else 64%nat in
          let buf := chacha_core input in
          let out := xor_bytes (take todo inp) (take todo buf) in
          rest ← chacha_loop fuel (drop todo inp) (<[12%nat := wrap 32 (input !!! 12%nat + 1)]> input);
          Some (out ++ rest)
      end
  end.

Definition CRYPTO_chacha_20 (inp key nonce : list Z) (counter : Z) : option (list Z) :=
  chacha_loop (length inp) inp (initial_state key nonce counter).

End chacha.

#[global] Arguments QUARTERROUND : simpl never.
#[global] Arguments rounds : simpl never.
#[global] Arguments chacha_core : simpl never.

(** ** The state and its word operations *)

(** A cipher state: sixteen 32-bit words. *)
Definition state_ok (x : list Z) : Prop := length x = 16%nat /\ Forall (is_u 32) x.

Section rounds_proofs.
Context `{CryptoInternalLaws}.

Lemma state_lookup x i : state_ok x -> is_u 32 (x !!! i).
Proof.
  intros [_ Hx]. destruct (decide (i < length x)%nat).
  - eapply Forall_lookup_1; [exact Hx|]. by apply list_lookup_lookup_total_lt.
  - rewrite list_lookup_total_alt, lookup_ge_None_2 by lia. simpl. split; lia.
Qed.

Lemma state_insert x i v : state_ok x -> is_u 32 v -> state_ok (<[i := v]> x).
Proof. intros [Hl Hx] Hv. split; [by rewrite length_insert|by apply Forall_insert]. Qed.

#[local] Hint Resolve state_lookup state_insert : width.

(** The two kinds of assignment a quarter round is made of. *)
Definition add_cell (a b : nat) (x : list Z) : list Z :=
  <[a := wrap 32 (x !!! a + x !!! b)]> x.
Definition xor_rot_cell (d a : nat) (n : Z) (x : list Z) : list Z :=
  <[d := CRYPTO_rotl_u32 (Z.lxor (x !!! d) (x !!! a)) n]> x.

(** and the assignments that undo them. *)
Definition sub_cell (a b : nat) (x : list Z) : list Z :=
  <[a := wrap 32 (x !!! a - x !!! b)]> x.
Definition rot_xor_cell (d a : nat) (n : Z) (x : list Z) : list Z :=
  <[d := Z.lxor (CRYPTO_rotl_u32 (x !!! d) (32 - n)) (x !!! a)]> x.

Lemma add_cell_ok a b x : state_ok x -> state_ok (add_cell a b x).
Proof. intros. unfold add_cell. auto with width. Qed.

Lemma xor_rot_cell_ok d a n x : 0 < n < 32 -> state_ok x -> state_ok (xor_rot_cell d a n x).
Proof. intros. unfold xor_rot_cell. auto 7 with width. Qed.

Lemma sub_add_cell a b x : a <> b -> (a < 16)%nat -> state_ok x ->
  sub_cell a b (add_cell a b x) = x.
Proof.
  intros Hab Ha Hx. pose proof (state_lookup x a Hx). destruct Hx as [Hl _].
  unfold sub_cell, add_cell.
  rewrite list_lookup_total_insert_eq, list_lookup_total_insert_ne, list_insert_insert_eq by (done || lia).
  rewrite wrap_sub_l. replace (x !!! a + x !!! b - x !!! b) with (x !!! a) by lia.
  rewrite wrap_small by done. apply list_insert_id, list_lookup_lookup_total_lt. lia.
Qed.

Lemma rot_xor_cell_inv d a n x : d <> a -> (d < 16)%nat -> 0 < n < 32 -> state_ok x ->
  rot_xor_cell d a n (xor_rot_cell d a n x) = x.
Proof.
  intros Hda Hd Hn Hx. pose proof (state_lookup x d Hx). pose proof (state_lookup x a Hx).
  destruct Hx as [Hl _]. unfold rot_xor_cell, xor_rot_cell.
  rewrite list_lookup_total_insert_eq, list_lookup_total_insert_ne, list_insert_insert_eq by (done || lia).
  rewrite rotl_u32_inv, lxor_cancel by (auto with width || lia).
  apply list_insert_id, list_lookup_lookup_total_lt. lia.
Qed.

Lemma QUARTERROUND_cells a b c d x :
  QUARTERROUND a b c d x =
  xor_rot_cell b c 7 (add_cell c d (xor_rot_cell d a 8 (add_cell a b
    (xor_rot_cell b c 12 (add_cell c d (xor_rot_cell d a 16 (add_cell a b x))))))).
Proof. done. Qed.

Definition QUARTERROUND_inv (a b c d : nat) (x : list Z) : list Z :=
  sub_cell a b (rot_xor_cell d a 16 (sub_cell c d (rot_xor_cell b c 12
    (sub_cell a b (rot_xor_cell d a 8 (sub_cell c d (rot_xor_cell b c 7 x))))))).

#[local] Hint Resolve add_cell_ok xor_rot_cell_ok : width.

Lemma QUARTERROUND_ok a b c d x : state_ok x -> state_ok (QUARTERROUND a b c d x).
Proof. intros. rewrite QUARTERROUND_cells. auto 20 with width. Qed.

(** The four indices of a quarter round are distinct and in range. *)
Definition quad_ok (a b c d : nat) : Prop :=
  a <> b /\ d <> a /\ c <> d /\ b <> c /\ (a < 16 /\ b < 16 /\ c < 16 /\ d < 16)%nat.
#[local] Instance quad_ok_dec a b c d : Decision (quad_ok a b c d).
Proof. unfold quad_ok. apply _. Defined.

Lemma QUARTERROUND_inverse a b c d x : quad_ok a b c d -> state_ok x ->
  QUARTERROUND_inv a b c d (QUARTERROUND a b c d x) = x.
Proof.
  intros Hq Hx. rewrite QUARTERROUND_cells. unfold QUARTERROUND_inv.
  destruct Hq; destruct_and!.
  repeat first
    [ rewrite rot_xor_cell_inv by (done || lia || auto 20 with width)
    | rewrite sub_add_cell by (done || lia || auto 20 with width) ].
  done.
Qed.

#[local] Opaque QUARTERROUND.

Lemma double_round_ok x : state_ok x -> state_ok (double_round x).
Proof. intros. unfold double_round. by do 8 apply QUARTERROUND_ok. Qed.

Lemma double_round_inj x y : state_ok x -> state_ok y ->
  double_round x = double_round y -> x = y.
Proof.
  assert (forall a b c d x y, quad_ok a b c d -> state_ok x -> state_ok y ->
    QUARTERROUND a b c d x = QUARTERROUND a b c d y -> x = y) as Hinj.
  { intros a b c d x0 y0 Hq Hx Hy Heq.
    rewrite <- (QUARTERROUND_inverse a b c d x0), <- (QUARTERROUND_inverse a b c d y0) by done.
    by rewrite Heq. }
  intros Hx Hy Heq. unfold double_round in Heq.
  do 8 (apply Hinj in Heq; [|by_compute|by repeat apply QUARTERROUND_ok|by repeat apply QUARTERROUND_ok]).
  done.
Qed.

Lemma rounds_ok x : state_ok x -> state_ok (rounds x).
Proof.
  intros Hx. apply (for_inv _ (fun _ => state_ok)); [lia|done|].
  intros. by apply double_round_ok.
Qed.

Lemma rounds_inj x y : state_ok x -> state_ok y -> rounds x = rounds y -> x = y.
Proof.
  unfold rounds. revert x y. generalize 10%nat as n.
  assert (forall n z, state_ok z -> state_ok (for_ 0 n (fun _ => double_round) z)) as Hok.
  { intros n z Hz. apply (for_inv _ (fun _ => state_ok)); [lia|done|].
    intros. by apply double_round_ok. }
  induction n as [|n IH]; intros x y Hx Hy; [done|].
  rewrite !for_snoc by lia. intros Heq. apply double_round_inj in Heq; auto.
Qed.
End rounds_proofs.

(** ** The key stream *)

Section stream_proofs.
Context `{CryptoInternalLaws}.

(** The state of the next block: [input[12]++]. *)
Definition next_block (st : list Z) : list Z :=
  <[12%nat := wrap 32 (st !!! 12%nat + 1)]> st.

(** The first [n] blocks of key stream from a state. *)
Fixpoint keystream (n : nat) (st : list Z) : list Z :=
  match n with
  | O => []
  | S n => chacha_core st ++ keystream n (next_block st)
  end.

Lemma next_block_ok st : state_ok st -> state_ok (next_block st).
Proof. intros [Hl Hst]. apply state_insert; [done|]. auto with width. Qed.

Lemma length_bind_store x : Forall (is_u 32) x ->
  length (x ≫= CRYPTO_store_u32_le) = (4 * length x)%nat.
Proof.
  induction 1 as [|w x Hw _ IH]; [done|].
  rewrite bind_cons, length_app, store_u32_le_spec, length_le_bytes, IH by done. simpl. lia.
Qed.

Lemma core_add_ok (st x : list Z) : state_ok x ->
  state_ok (for_ 0 16 (fun i x => <[i := wrap 32 (x !!! i + st !!! i)]> x) x).
Proof.
  intros Hx. apply (for_inv _ (fun _ => state_ok)); [lia|done|].
  intros. apply state_insert; [done|]. auto with width.
Qed.

Lemma length_core st : state_ok st -> length (chacha_core st) = 64%nat.
Proof.
  intros Hst. unfold chacha_core.
  destruct (core_add_ok st (rounds st) (rounds_ok _ Hst)) as [Hl Hx].
  rewrite length_bind_store, Hl by done. done.
Qed.

#[local] Opaque chacha_core.

Lemma length_keystream n st : state_ok st -> length (keystream n st) = (64 * n)%nat.
Proof.
  revert st. induction n as [|n IH]; intros st Hst; [done|]. cbn [keystream].
  rewrite length_app, length_core, IH by (done || by apply next_block_ok). lia.
Qed.

(** The loop exclusive-ors its input with the key stream, for any fuel that
    covers the input. *)
Lemma chacha_loop_spec fuel inp st n :
  state_ok st -> (length inp <= fuel)%nat -> (length inp <= 64 * n)%nat ->
  chacha_loop fuel inp st = Some (xor_bytes inp (keystream n st)).
Proof.
  revert inp st n. induction fuel as [|fuel IH]; intros inp st n Hst Hf Hn.
  - destruct inp; simpl in *; [done|lia].
  - destruct inp as [|x inp]; [done|]. destruct n as [|n]; [simpl in Hn; lia|].
    cbn [chacha_loop]. set (l := x :: inp) in *.
    set (todo := if (length l <? 64)%nat then length l else 64%nat).
    assert (todo = length l `min` 64)%nat as Ht
      by (unfold todo; destruct (Nat.ltb_spec (length l) 64); lia).
    assert (0 < length l)%nat by (simpl; lia).
    fold (next_block st). rewrite (IH _ _ n) by (try apply next_block_ok; done || len).
    cbn [mbind option_bind keystream]. f_equal.
    pose proof (length_core st Hst) as Hc.
    rewrite <- (take_drop todo l) at 3.
    destruct (decide (length l < 64)%nat).
    + rewrite (drop_ge l) by lia. rewrite xor_bytes_nil_l, !app_nil_r.
      rewrite (xor_bytes_app_r (take todo l)) by len.
      rewrite <- (take_drop todo (chacha_core st)) at 2.
      by rewrite xor_bytes_app_r by len.
    + rewrite (take_ge (chacha_core st)) by lia. by rewrite xor_bytes_app by len.
Qed.

Lemma keystream_app m n (st : list Z) : (12 < length st)%nat -> is_u 32 (st !!! 12%nat) ->
  keystream (m + n) st =
  keystream m st ++ keystream n (<[12%nat := wrap 32 (st !!! 12%nat + Z.of_nat m)]> st).
Proof.
  revert st. induction m as [|m IH]; intros st Hl Hu.
  - simpl. rewrite Z.add_0_r, wrap_small by done.
    by rewrite list_insert_id by (by apply list_lookup_lookup_total_lt).
  - cbn [Nat.add keystream]. unfold next_block.
    rewrite IH by (rewrite ?list_lookup_total_insert_eq by lia; auto with width; len).
    rewrite list_lookup_total_insert_eq, list_insert_insert_eq by lia.
    rewrite wrap_add_l, app_assoc. do 4 f_equal. lia.
Qed.

Lemma take4_load bs i : (i + 4 <= length bs)%nat -> bytes bs ->
  CRYPTO_load_u32_le (take 4 (drop i bs)) = le_val (take 4 (drop i bs)).
Proof.
  intros Hl Hb. apply load_u32_le_spec; [len|]. by apply Forall_take, Forall_drop.
Qed.

Lemma words_of_bytes_app4 n a b : length a = 4%nat ->
  words_of_bytes (S n) (a ++ b) = le_val a :: words_of_bytes n b.
Proof. intros Ha. cbn [words_of_bytes]. by rewrite take_app_length', drop_app_length' by done. Qed.

Lemma initial_state_words key nonce counter :
  length key = 32%nat -> length nonce = 12%nat -> bytes key -> bytes nonce -> is_u 32 counter ->
  initial_state key nonce counter =
  words_of_bytes 4 sigma ++ words_of_bytes 8 key ++ words_of_bytes 4 (le_bytes 4 counter ++ nonce).
Proof.
  intros Hk Hn Bk Bn Hc. unfold initial_state.
  assert (length sigma = 16%nat) as Hs by done. assert (bytes sigma) as Bs by by_compute.
  rewrite !take4_load by (done || lia).
  rewrite words_of_bytes_app4, le_val_bytes by apply length_le_bytes.
  rewrite Z.mod_small by done.
  cbn [words_of_bytes app]. rewrite !drop_drop, !drop_0. done.
Qed.

Lemma le4_range bs i : bytes bs -> is_u 32 (le_val (take 4 (drop i bs))).
Proof.
  intros Hb. pose proof (le_val_range (take 4 (drop i bs))) as Hr.
  assert (bytes (take 4 (drop i bs))) as Hb' by (by apply Forall_take, Forall_drop).
  specialize (Hr Hb'). rewrite length_take in Hr. unfold is_u. change (2 ^ 32) with (256 ^ 4).
  split; [lia|]. apply Z.lt_le_trans with (256 ^ Z.of_nat (4 `min` length (drop i bs))); [lia|].
  apply Z.pow_le_mono_r; lia.
Qed.

Lemma initial_state_ok key nonce counter :
  length key = 32%nat -> length nonce = 12%nat -> bytes key -> bytes nonce -> is_u 32 counter ->
  state_ok (initial_state key nonce counter).
Proof.
  intros Hk Hn Bk Bn Hc. split; [done|]. unfold initial_state.
  assert (length sigma = 16%nat) as Hs by done. assert (bytes sigma) as Bs by by_compute.
  rewrite !take4_load by (done || lia).
  repeat (apply Forall_cons; [first [done|by apply le4_range]|]). constructor.
Qed.

(** The feed-forward loop adds the input word by word. *)
Lemma feed_forward_lookup (st x : list Z) i : length x = 16%nat -> (i < 16)%nat ->
  for_ 0 16 (fun i x => <[i := wrap 32 (x !!! i + st !!! i)]> x) x !!! i =
  wrap 32 (x !!! i + st !!! i).
Proof.
  intros Hl Hi.
  enough (length (for_ 0 16 (fun i x => <[i := wrap 32 (x !!! i + st !!! i)]> x) x) = 16%nat /\
    forall j, (j < 16)%nat ->
      for_ 0 16 (fun i x => <[i := wrap 32 (x !!! i + st !!! i)]> x) x !!! j =
      if (j <? 16)%nat then wrap 32 (x !!! j + st !!! j) else x !!! j) as [_ Hlk].
  { rewrite Hlk by done. by rewrite (proj2 (Nat.ltb_lt i 16)). }
  apply (for_inv _ (fun k (s : list Z) => length s = 16%nat /\ forall j, (j < 16)%nat ->
    s !!! j = if (j <? k)%nat then wrap 32 (x !!! j + st !!! j) else x !!! j));
    [lia|by split|].
  intros k s Hk [Hs IH]. split; [by rewrite length_insert|]. intros j Hj.
  destruct (decide (j = k)) as [->|Hne].
  - rewrite list_lookup_total_insert_eq, IH by lia.
    by rewrite Nat.ltb_irrefl, (proj2 (Nat.ltb_lt k (1 + k))) by lia.
  - rewrite list_lookup_total_insert_ne, IH by done.
    destruct (Nat.ltb_spec j k), (Nat.ltb_spec j (1 + k)); (done || lia).
Qed.

Lemma store_words y : Forall (is_u 32) y -> y ≫= CRYPTO_store_u32_le = bytes_of_words y.
Proof.
  unfold bytes_of_words. induction 1 as [|w y Hw _ IH]; [done|].
  by rewrite !bind_cons, IH, store_u32_le_spec.
Qed.

Lemma words_bytes_roundtrip y : Forall (is_u 32) y ->
  words_of_bytes (length y) (bytes_of_words y) = y.
Proof.
  induction 1 as [|w y Hw _ IH]; [done|]. unfold bytes_of_words in *. rewrite bind_cons.
  cbn [length]. rewrite words_of_bytes_app4 by apply length_le_bytes.
  rewrite IH, le_val_bytes, Z.mod_small by done. done.
Qed.

#[local] Transparent chacha_core.
Lemma core_words st i : state_ok st -> (i < 16)%nat ->
  words_of_bytes 16 (chacha_core st) !!! i = wrap 32 (rounds st !!! i + st !!! i).
Proof.
  intros Hst Hi. pose proof (rounds_ok st Hst) as Hr. unfold chacha_core.
  destruct (core_add_ok st (rounds st) Hr) as [Hl Hw].
  rewrite store_words by done. rewrite <- Hl at 1. rewrite words_bytes_roundtrip by done.
  apply feed_forward_lookup; [apply Hr|done].
Qed.

Lemma eight_words (x : list Z) : length x = 16%nat ->
  take 4 x ++ take 4 (drop 12 x) = (fun i => x !!! i) <$> [0; 1; 2; 3; 12; 13; 14; 15]%nat.
Proof. intros Hl. do 17 (destruct x as [|? x]; try discriminate Hl). done. Qed.
End stream_proofs.

(** ** Properties *)

(** The twenty rounds, as the two loops spell
    them out, are injective on cipher states: no key, nonce and counter
    collide before the feed-forward. *)
Theorem rounds_injective `{CryptoInternalLaws} (x y : list Z)
  (Hx : state_ok x) (Hy : state_ok y) (Heq : rounds x = rounds y) : x = y.
Proof. by apply rounds_inj. Qed.

Lemma rounds_injective_witness : seqZ 0 16 = seqZ 0 16.
Proof. apply (rounds_injective (seqZ 0 16) (seqZ 0 16)); [by_compute..|done]. Defined.

(** Encrypting terminates for every message length, preserves
    the length, and encrypting the result again with the same key, nonce and
    counter returns the message. *)
Theorem CRYPTO_chacha_20_involutive `{CryptoInternalLaws} (msg key nonce : list Z) (counter : Z)
  (Hkey : length key = 32%nat) (Hnonce : length nonce = 12%nat)
  (Bkey : bytes key) (Bnonce : bytes nonce) (Hctr : is_u 32 counter) :
  exists ct, CRYPTO_chacha_20 msg key nonce counter = Some ct /\
    length ct = length msg /\ CRYPTO_chacha_20 ct key nonce counter = Some msg.
Proof.
  pose proof (initial_state_ok key nonce counter Hkey Hnonce Bkey Bnonce Hctr) as Hst.
  set (st := initial_state key nonce counter) in *.
  pose proof (length_keystream (length msg) st Hst) as Hks.
  exists (xor_bytes msg (keystream (length msg) st)). unfold CRYPTO_chacha_20. fold st.
  rewrite (chacha_loop_spec _ msg st (length msg)) by (done || lia).
  split_and!; [done|len|].
  rewrite (chacha_loop_spec _ _ st (length msg)) by (done || len).
  by rewrite xor_bytes_cancel by lia.
Qed.

Lemma CRYPTO_chacha_20_involutive_witness :
  exists ct, CRYPTO_chacha_20 [1; 2; 3] (replicate 32 7) (replicate 12 9) 5 = Some ct /\
    length ct = 3%nat /\ CRYPTO_chacha_20 ct (replicate 32 7) (replicate 12 9) 5 = Some [1; 2; 3].
Proof. apply CRYPTO_chacha_20_involutive; [done|done|by_compute..]. Defined.

(** Encrypting a message whose first part is a whole number
    of 64-byte blocks is encrypting the parts separately, the second with the
    32-bit block counter advanced, modulo [2^32], by the blocks of the first. *)
Theorem CRYPTO_chacha_20_split `{CryptoInternalLaws} (m1 m2 key nonce : list Z) (counter : Z) (n : nat)
  (Hkey : length key = 32%nat) (Hnonce : length nonce = 12%nat)
  (Bkey : bytes key) (Bnonce : bytes nonce) (Hctr : is_u 32 counter)
  (Hm1 : length m1 = (64 * n)%nat) :
  CRYPTO_chacha_20 (m1 ++ m2) key nonce counter =
  (c1 ← CRYPTO_chacha_20 m1 key nonce counter;
   c2 ← CRYPTO_chacha_20 m2 key nonce (wrap 32 (counter + Z.of_nat n));
   Some (c1 ++ c2)).
Proof.
  pose proof (initial_state_ok key nonce counter Hkey Hnonce Bkey Bnonce Hctr) as Hst.
  pose proof (initial_state_ok key nonce (wrap 32 (counter + Z.of_nat n))
    Hkey Hnonce Bkey Bnonce (wrap_range 32 _ ltac:(lia))) as Hst'.
  unfold CRYPTO_chacha_20.
  rewrite (chacha_loop_spec _ (m1 ++ m2) _ (n + length m2)) by (done || len).
  rewrite (chacha_loop_spec _ m1 _ n) by (done || lia).
  rewrite (chacha_loop_spec _ m2 _ (length m2)) by (done || lia).
  cbn [mbind option_bind]. f_equal. rewrite keystream_app by (simpl; done || lia).
  rewrite xor_bytes_app by (by rewrite length_keystream). done.
Qed.

Lemma CRYPTO_chacha_20_split_witness :
  CRYPTO_chacha_20 (replicate 64 1 ++ [5]) (replicate 32 7) (replicate 12 9) (2 ^ 32 - 1) =
  (c1 ← CRYPTO_chacha_20 (replicate 64 1) (replicate 32 7) (replicate 12 9) (2 ^ 32 - 1);
   c2 ← CRYPTO_chacha_20 [5] (replicate 32 7) (replicate 12 9) 0; Some (c1 ++ c2)).
Proof.
  apply (CRYPTO_chacha_20_split (replicate 64 1) [5] (replicate 32 7) (replicate 12 9) (2 ^ 32 - 1) 1);
    [done|done|by_compute..|done].
Defined.

(** HChaCha20 and the block function share their rounds: the
    HChaCha20 output is the eight outer words of the ChaCha20 block for the
    same key and 16-byte nonce with the feed-forward subtracted. *)
Theorem CRYPTO_hchacha20_core `{CryptoInternalLaws} (key nonce : list Z) (counter : Z)
  (Hkey : length key = 32%nat) (Hnonce : length nonce = 12%nat)
  (Bkey : bytes key) (Bnonce : bytes nonce) (Hctr : is_u 32 counter) :
  CRYPTO_hchacha20 key (le_bytes 4 counter ++ nonce) =
  let st := initial_state key nonce counter in
  let block := words_of_bytes 16 (chacha_core st) in
  bytes_of_words ((fun i => wrap 32 (block !!! i - st !!! i)) <$> [0; 1; 2; 3; 12; 13; 14; 15]%nat).
Proof.
  pose proof (initial_state_ok key nonce counter Hkey Hnonce Bkey Bnonce Hctr) as Hst.
  unfold CRYPTO_hchacha20. rewrite <- initial_state_words by done.
  set (st := initial_state key nonce counter) in *. cbv zeta.
  pose proof (rounds_ok st Hst) as Hr.
  unfold bytes_of_words. rewrite <- bind_app. f_equal.
  rewrite eight_words by apply Hr. apply list_fmap_ext. intros j i Hi.
  assert (i < 16)%nat.
  { apply (Forall_lookup_1 (fun i => (i < 16)%nat) [0; 1; 2; 3; 12; 13; 14; 15]%nat j);
      [by_compute|done]. }
  rewrite core_words, wrap_sub_l by done.
  replace (rounds st !!! i + st !!! i - st !!! i) with (rounds st !!! i) by lia.
  symmetry. apply wrap_small. by apply state_lookup.
Qed.

Lemma CRYPTO_hchacha20_core_witness :
  length (CRYPTO_hchacha20 (replicate 32 7) (le_bytes 4 5 ++ replicate 12 9)) = 32%nat.
Proof.
  rewrite (CRYPTO_hchacha20_core (replicate 32 7) (replicate 12 9) 5);
    [vm_compute; reflexivity|done|done|by_compute..].
Defined.

(** The block function on the test vector of RFC 8439, section 2.3.2. *)
Example rfc8439_block :
  chacha_core (initial_state (seqZ 0 32) [0; 0; 0; 9; 0; 0; 0; 74; 0; 0; 0; 0] 1) =
  [ 0x10; 0xf1; 0xe7; 0xe4; 0xd1; 0x3b; 0x59; 0x15; 0x50; 0x0f; 0xdd; 0x1f; 0xa3; 0x20; 0x71; 0xc4;
    0xc7; 0xd1; 0xf4; 0xc7; 0x33; 0xc0; 0x68; 0x03; 0x04; 0x22; 0xaa; 0x9a; 0xc3; 0xd4; 0x6c; 0x4e;
    0xd2; 0x82; 0x64; 0x46; 0x07; 0x9f; 0xaa; 0x09; 0x14; 0xc2; 0xd7; 0x05; 0xd9; 0x8b; 0x02; 0xa2;
    0xb5; 0x12; 0x9c; 0xd1; 0xde; 0x16; 0x4e; 0xb9; 0xcb; 0xd0; 0x83; 0xe8; 0xa2; 0x50; 0x3c; 0x4e ].
Proof. vm_compute. reflexivity. Qed.
