(* ===== verification/Ctr.v ===== *)
(** * Counter mode ([BoringSSL-GRPC/src/crypto/fipsmodule/modes/ctr.c])

    The block cipher is a parameter.  The three phases of each encryption
    function are written as in the source; the theorems show that they
    implement a byte-at-a-time machine, from which streaming, decryption and
    the equivalence of the 32-bit variant follow. *)

From S2P Require Import Prelude CryptoInternal.

(** What a call carries over to the next one: [ivec], [ecount_buf], [*num]. *)
Record ctr_state := mkCtr { ivec : list Z; ecount_buf : list Z; num : nat }.

(** The loop of [ctr128_inc] and [ctr96_inc]: add the carry [c] to the [n]
    leading bytes, last byte first. *)
Fixpoint inc_loop (n : nat) (counter : list Z) (c : Z) : list Z :=
  match n with
  | O => counter
  | S n =>
      let c := wrap 32 (c + counter !!! n) in
      let counter := <[n := wrap 8 c]> counter in
      inc_loop n counter (Z.shiftr c 8)
  end.

Definition ctr128_inc (counter : list Z) : list Z := inc_loop 16 counter 1.
Definition ctr96_inc (counter : list Z) : list Z := inc_loop 12 counter 1.

Section ctr.
Context `{CryptoInternal}.
Context {AES_KEY : Type}.
Variable block : list Z -> AES_KEY -> list Z.
Variable func : list Z -> Z -> AES_KEY -> list Z -> list Z.

(** [while (n && len)]: use up the key stream left over in [ecount_buf]. *)
Fixpoint use_up (ecount : list Z) (n : nat) (inp : list Z) : list Z * nat * list Z :=
  match inp with
  | [] => ([], n, [])
  | x :: rest =>
      if (n =? 0)%nat then ([], n, inp)
      else
        let '(out, n', rest') := use_up ecount ((n + 1) mod 16)%nat rest in
        (Z.lxor x (ecount !!! n) :: out, n', rest')
  end.

(** One 16-byte block combined a machine word at a time. *)
Definition word_xor (inp ecount : list Z) : list Z :=
  [0; 8]%nat ≫= (fun n =>
    CRYPTO_store_word_le (Z.lxor (CRYPTO_load_word_le (take word_bytes (drop n inp)))
                                 (CRYPTO_load_word_le (take word_bytes (drop n ecount))))).

(** [while (len >= 16)]: whole blocks.  Returns the output, the rest of the
    input and the state; [length inp] is enough fuel. *)
Fixpoint whole_blocks (fuel : nat) (key : AES_KEY) (st : ctr_state) (inp : list Z)
  : option (list Z * list Z * ctr_state) :=
  if (length inp <? 16)%nat then Some ([], inp, st)
  else
    match fuel with
    | O => None
    | S fuel =>
        let e := block (ivec st) key in
        let st := mkCtr (ctr128_inc (ivec st)) e 0 in
        let out := word_xor (take 16 inp) e in
        '(outs, rest, st) ← whole_blocks fuel key st (drop 16 inp);
        Some (out ++ outs, rest, st)
    end.

(** [while (len--) { out[n] = in[n] ^ ecount_buf[n]; ++n; }] *)
Fixpoint tail_bytes (ecount : list Z) (n : nat) (inp : list Z) : list Z * nat :=
  match inp with
  | [] => ([], n)
  | x :: rest =>
      let '(out, n') := tail_bytes ecount (n + 1) rest in
      (Z.lxor x (ecount !!! n) :: out, n')
  end.

Definition CRYPTO_ctr128_encrypt (inp : list Z) (key : AES_KEY) (st : ctr_state)
  : option (list Z * ctr_state) :=
  let '(out1, n, inp) := use_up (ecount_buf st) (num st) inp in
  let st := mkCtr (ivec st) (ecount_buf st) n in
  '(out2, inp, st) ← whole_blocks (length inp) key st inp;
  match inp with
  | [] => Some (out1 ++ out2, st)
  | _ =>
      let e := block (ivec st) key in
      let iv := ctr128_inc (ivec st) in
      let '(out3, n) := tail_bytes e (num st) inp in
      Some (out1 ++ out2 ++ out3, mkCtr iv e n)
  end.

(** Storing the 32-bit counter into [ivec + 12]. *)
Definition store_ctr32 (iv : list Z) (ctr32 : Z) : list Z :=
  take 12 iv ++ CRYPTO_store_u32_be ctr32.

(** The bulk loop of the 32-bit variant: as many blocks per call of [func] as
    fit before the counter wraps. *)
Fixpoint whole_blocks_ctr32 (fuel : nat) (key : AES_KEY) (iv : list Z) (ctr32 : Z) (inp : list Z)
  : option (list Z * list Z * list Z * Z) :=
  if (length inp <? 16)%nat then Some ([], inp, iv, ctr32)
  else
    match fuel with
    | O => None
    | S fuel =>
        let blocks := Z.of_nat (length inp) `div` 16 in
        let blocks := if 2 ^ 28 <? blocks then 2 ^ 28 else blocks in
        let ctr32 := wrap 32 (ctr32 + wrap 32 blocks) in
        let '(blocks, ctr32) := if ctr32 <? blocks then (blocks - ctr32, 0) else (blocks, ctr32) in
        let n := Z.to_nat (blocks * 16) in
        let out := func (take n inp) blocks key iv in
        let iv := store_ctr32 iv ctr32 in
        let iv := if ctr32 =? 0 then ctr96_inc iv else iv in
        '(outs, rest, iv, ctr32) ← whole_blocks_ctr32 fuel key iv ctr32 (drop n inp);
        Some (out ++ outs, rest, iv, ctr32)
    end.

Definition CRYPTO_ctr128_encrypt_ctr32 (inp : list Z) (key : AES_KEY) (st : ctr_state)
  : option (list Z * ctr_state) :=
  let '(out1, n, inp) := use_up (ecount_buf st) (num st) inp in
  let ctr32 := CRYPTO_load_u32_be (take 4 (drop 12 (ivec st))) in
  '(out2, inp, iv, ctr32) ← whole_blocks_ctr32 (length inp) key (ivec st) ctr32 inp;
  match inp with
  | [] => Some (out1 ++ out2, mkCtr iv (ecount_buf st) n)
  | _ =>
      let e := func (replicate 16 0) 1 key iv in
      let ctr32 := wrap 32 (ctr32 + 1) in
      let iv := store_ctr32 iv ctr32 in
      let iv := if ctr32 =? 0 then ctr96_inc iv else iv in
      let '(out3, n) := tail_bytes e n inp in
      Some (out1 ++ out2 ++ out3, mkCtr iv e n)
  end.
End ctr.

(** ** The byte-at-a-time machine *)

Section machine.
Context {AES_KEY : Type} (block : list Z -> AES_KEY -> list Z) (key : AES_KEY).

(** Refill the key-stream block when it is exhausted, then use one byte. *)
Definition refill (st : ctr_state) : ctr_state :=
  if (num st =? 0)%nat then mkCtr (ctr128_inc (ivec st)) (block (ivec st) key) 0 else st.

Definition ctr_byte (st : ctr_state) (x : Z) : Z * ctr_state :=
  let st := refill st in
  (Z.lxor x (ecount_buf st !!! num st), mkCtr (ivec st) (ecount_buf st) ((num st + 1) mod 16)%nat).
End machine.

(** A block cipher maps 16 bytes to 16 bytes. *)
Class BlockCipher {AES_KEY} (block : list Z -> AES_KEY -> list Z) : Prop := {
  block_length iv key : length (block iv key) = 16%nat;
  block_bytes iv key : bytes (block iv key);
}.

Record ctr_ok (st : ctr_state) : Prop := {
  ctr_ok_ivec : length (ivec st) = 16%nat /\ bytes (ivec st);
  ctr_ok_ecount : length (ecount_buf st) = 16%nat /\ bytes (ecount_buf st);
  ctr_ok_num : (num st < 16)%nat;
}.

(** ** Counter increment *)

Lemma lookup_total_byte l i : bytes l -> is_byte (l !!! i).
Proof.
  intros Hl. destruct (decide (i < length l)%nat).
  - eapply Forall_lookup_1; [exact Hl|]. by apply list_lookup_lookup_total_lt.
  - rewrite list_lookup_total_alt, lookup_ge_None_2 by lia. simpl. split; lia.
Qed.
#[export] Hint Resolve lookup_total_byte : width.

Lemma inc_loop_spec n counter c : bytes counter -> (n <= length counter)%nat -> 0 <= c <= 1 ->
  inc_loop n counter c = be_bytes n (be_val (take n counter) + c) ++ drop n counter.
Proof.
  revert counter c. induction n as [|n IH]; intros counter c Hb Hn Hc; [by simpl; rewrite drop_0|].
  cbn [inc_loop]. pose proof (lookup_total_byte counter n Hb) as Hx. unfold is_u in Hx.
  rewrite (wrap_small 32) by ulia.
  rewrite Z.shiftr_div_pow2 by lia. change (2 ^ 8) with 256 in *.
  rewrite IH; [|apply Forall_insert; auto with width|len|ulia].
  rewrite take_insert_ge, drop_insert_ge, Nat.sub_diag by lia.
  assert (take (S n) counter = take n counter ++ [counter !!! n]) as ->
    by (apply take_S_r, list_lookup_lookup_total_lt; lia).
  rewrite be_val_app, be_val_single. cbn [length]. change (256 ^ Z.of_nat 1) with 256.
  rewrite be_bytes_snoc, <- app_assoc.
  replace ((be_val (take n counter) * 256 + counter !!! n + c) `div` 256)
    with (be_val (take n counter) + (c + counter !!! n) `div` 256) by ulia.
  f_equal. rewrite (drop_S counter (counter !!! n) n) by (apply list_lookup_lookup_total_lt; lia).
  cbn [app insert list_insert]. f_equal. unfold wrap. change (2 ^ 8) with 256. ulia.
Qed.

Lemma ctr128_inc_val counter : bytes counter -> length counter = 16%nat ->
  ctr128_inc counter = be_bytes 16 (be_val counter + 1).
Proof.
  intros Hb Hl. unfold ctr128_inc. rewrite inc_loop_spec by (done || lia).
  by rewrite take_ge, drop_ge, app_nil_r by lia.
Qed.

(** ** The phases against the machine *)

Section phases.
Context `{CryptoInternalLaws}.
Context {AES_KEY : Type} (block : list Z -> AES_KEY -> list Z) (key : AES_KEY).
Context `{!BlockCipher block}.

Abbreviation machine := (run (ctr_byte block key)).

(** Continue after some output has been produced. *)
Definition after (o : list Z) (r : list Z * ctr_state) : list Z * ctr_state := (o ++ r.1, r.2).

Lemma machine_cons st x l :
  machine st (x :: l) =
  after [(ctr_byte block key st x).1] (machine (ctr_byte block key st x).2 l).
Proof. cbn [run]. destruct (ctr_byte block key st x). simpl. by destruct (machine _ l). Qed.

Lemma machine_app st l1 l2 :
  machine st (l1 ++ l2) = after (machine st l1).1 (machine (machine st l1).2 l2).
Proof. rewrite run_app. destruct (machine st l1). simpl. by destruct (machine _ l2). Qed.

Lemma machine_num l st : (num st < 16)%nat -> (num (machine st l).2 < 16)%nat.
Proof.
  revert st. induction l as [|x l IH]; intros s Hs; [done|]. rewrite machine_cons.
  unfold after. cbn [snd]. apply IH. unfold ctr_byte. cbn [snd num]. by apply Nat.mod_upper_bound.
Qed.

Lemma ctr_byte_mid st x : num st <> 0%nat ->
  ctr_byte block key st x =
  (Z.lxor x (ecount_buf st !!! num st), mkCtr (ivec st) (ecount_buf st) ((num st + 1) mod 16)%nat).
Proof. intros Hn. unfold ctr_byte, refill. by rewrite (proj2 (Nat.eqb_neq _ _) Hn). Qed.

Lemma use_up_spec st inp : (num st < 16)%nat ->
  let '(out, n, rest) := use_up (ecount_buf st) (num st) inp in
  machine st inp = after out (machine (mkCtr (ivec st) (ecount_buf st) n) rest) /\
  (n < 16)%nat /\ (n = 0%nat \/ rest = []) /\ (length out + length rest = length inp)%nat /\
  exists p, inp = p ++ rest.
Proof.
  revert st. induction inp as [|x inp IH]; intros st Hn; cbn [use_up].
  - destruct st. split_and!; auto. by exists [].
  - destruct (Nat.eqb_spec (num st) 0) as [Hz|Hz].
    + assert (mkCtr (ivec st) (ecount_buf st) (num st) = st) as -> by by destruct st.
      split_and!; auto; [|by exists []]. unfold after. by destruct (machine st (x :: inp)).
    + set (st' := mkCtr (ivec st) (ecount_buf st) ((num st + 1) mod 16)%nat).
      specialize (IH st' ltac:(apply Nat.mod_upper_bound; lia)). unfold st' in IH at 1 2. simpl in IH.
      destruct (use_up _ _ inp) as [[out n] rest]. destruct IH as (IH & ? & ? & ? & p & ->).
      split_and!; [|done|done|simpl; lia|by exists (x :: p)].
      rewrite machine_cons, ctr_byte_mid by done. cbn [fst snd]. fold st'. by rewrite IH.
Qed.

(** Within a block the machine reads consecutive bytes of [ecount_buf]. *)
Lemma machine_in_block iv e k l : (0 < k)%nat \/ l = [] -> (k + length l <= 16)%nat ->
  machine (mkCtr iv e k) l =
  ((fun '(i, x) => Z.lxor x (e !!! i)) <$> zip (seq k (length l)) l,
   mkCtr iv e (if decide (l = []) then k else ((k + length l) mod 16)%nat)).
Proof.
  revert k. induction l as [|x l IH]; intros k Hk Hl; [done|].
  destruct Hk as [Hk|]; [|done]. rewrite machine_cons. simpl in Hl.
  rewrite ctr_byte_mid by (simpl; lia). cbn [fst snd ivec ecount_buf num].
  destruct (decide (l = [])) as [->|Hne].
  - simpl. unfold after. simpl. do 2 f_equal.
  - assert (0 < length l)%nat by (destruct l; simpl; [done|lia]).
    rewrite (Nat.mod_small (k + 1)) by lia. rewrite IH by (lia || left; lia).
    repeat (case_decide; [done|]). unfold after. cbn [length seq zip zip_with fmap list_fmap fst snd app].
    replace (k + 1)%nat with (S k) by lia. do 3 f_equal. lia.
Qed.

Lemma zip_seq_xor (e l : list Z) k : (k + length l <= length e)%nat ->
  (fun '(i, x) => Z.lxor x (e !!! i)) <$> zip (seq k (length l)) l = xor_bytes l (drop k e).
Proof.
  revert k. induction l as [|x l IH]; intros k Hk; [done|]. simpl in Hk.
  rewrite (drop_S e (e !!! k) k) by (apply list_lookup_lookup_total_lt; lia).
  cbn [length seq zip zip_with xor_bytes fmap list_fmap]. f_equal. apply IH. lia.
Qed.

Lemma tail_bytes_spec e n l :
  tail_bytes e n l = ((fun '(i, x) => Z.lxor x (e !!! i)) <$> zip (seq n (length l)) l, (n + length l)%nat).
Proof.
  revert n. induction l as [|x l IH]; intros n; [simpl; by rewrite Nat.add_0_r|].
  cbn [tail_bytes]. rewrite IH. cbn [length seq zip zip_with fmap list_fmap].
  rewrite Nat.add_1_r. f_equal. lia.
Qed.

(** At most one block from an exhausted buffer. *)
Lemma machine_block iv e0 l : (0 < length l <= 16)%nat ->
  machine (mkCtr iv e0 0) l =
  (xor_bytes l (block iv key), mkCtr (ctr128_inc iv) (block iv key) (length l mod 16)%nat).
Proof.
  intros Hl. destruct l as [|x l]; [simpl in Hl; lia|]. rewrite machine_cons.
  unfold ctr_byte, refill. simpl (num _ =? _)%nat. cbn [fst snd ivec ecount_buf num].
  simpl in Hl. change ((0 + 1) mod 16)%nat with 1%nat.
  rewrite machine_in_block by (lia || left; lia).
  pose proof (block_length iv key) as Hb.
  unfold after. cbn [fst snd]. f_equal.
  - change (seq 1 (length l)) with (seq 1 (length l)).
    rewrite zip_seq_xor by lia. unfold xor_bytes.
    destruct (block iv key) as [|b bs]; [simpl in Hb; lia|]. simpl. by rewrite drop_0.
  - destruct (decide (l = [])) as [->|]; done.
Qed.

Lemma word_xor_spec a b : bytes a -> bytes b -> length a = 16%nat -> length b = 16%nat ->
  word_xor a b = xor_bytes a b.
Proof.
  intros Ha Hb La Lb. unfold word_xor. change word_bytes with 8%nat.
  rewrite bind_cons, bind_singleton, !drop_0.
  assert (forall u v, bytes u -> bytes v -> length u = 8%nat -> length v = 8%nat ->
    CRYPTO_store_word_le (Z.lxor (CRYPTO_load_word_le u) (CRYPTO_load_word_le v)) = xor_bytes u v) as Hw.
  { intros u v Hu Hv Lu Lv. rewrite !load_word_le_spec, le_val_xor by (done || lia).
    assert (length (xor_bytes u v) = 8%nat) as Lx by len.
    pose proof (xor_bytes_bytes u v Hu Hv) as Hx.
    pose proof (le_val_range _ Hx) as Hr. rewrite Lx in Hr.
    rewrite store_word_le_spec by done. change word_bytes with 8%nat. rewrite <- Lx.
    by apply le_bytes_val. }
  rewrite !Hw by (try apply Forall_take; try apply Forall_drop; done || len).
  rewrite (take_ge (drop 8 a)), (take_ge (drop 8 b)) by len.
  rewrite <- xor_bytes_app by len. by rewrite !take_drop.
Qed.

Lemma after_app o1 o2 r : after o1 (after o2 r) = after (o1 ++ o2) r.
Proof. unfold after. simpl. by rewrite app_assoc. Qed.

Lemma whole_blocks_spec fuel st inp :
  (length inp <= fuel)%nat -> bytes inp -> num st = 0%nat \/ inp = [] ->
  exists out rest st', whole_blocks block fuel key st inp = Some (out, rest, st') /\
    machine st inp = after out (machine st' rest) /\
    (length rest < 16)%nat /\ (num st' = 0%nat \/ rest = []).
Proof.
  revert st inp. induction fuel as [|fuel IH]; intros st inp Hf Hb Hn; cbn [whole_blocks].
  - destruct inp; [|simpl in Hf; lia]. exists [], [], st. split_and!; auto. simpl. lia.
  - destruct (Nat.ltb_spec (length inp) 16) as [Hlt|Hge].
    + exists [], inp, st. split_and!; auto. unfold after. by destruct (machine st inp).
    + destruct Hn as [Hn| ->]; [|simpl in Hge; lia].
      destruct (IH (mkCtr (ctr128_inc (ivec st)) (block (ivec st) key) 0) (drop 16 inp))
        as (out & rest & st' & Hw & Hm & Hl & Hn'); [len|by apply Forall_drop|by left|].
      rewrite Hw. cbn [mbind option_bind]. eexists _, rest, st'. split_and!; [done| |done|done].
      rewrite <- (take_drop 16 inp) at 1. rewrite machine_app. destruct st as [iv e n]. simpl in Hn.
      subst n. rewrite machine_block by len. cbn [fst snd]. rewrite length_take, Nat.min_l by lia.
      cbn [ivec] in *. change (16 mod 16)%nat with 0%nat. rewrite Hm, after_app.
      rewrite word_xor_spec; [done|by apply Forall_take|apply block_bytes|len|apply block_length].
Qed.

Lemma use_up_bytes e n inp : bytes inp ->
  bytes (use_up e n inp).2.
Proof.
  intros Hb. revert n. induction Hb as [|x inp Hx Hb IH]; intros n; cbn [use_up]; [done|].
  destruct (n =? 0)%nat; [by constructor|]. specialize (IH ((n + 1) mod 16)%nat).
  by destruct (use_up e _ inp) as [[out n'] rest].
Qed.

(** The generic function is the byte machine. *)
Lemma ctr128_encrypt_machine st inp : (num st < 16)%nat -> bytes inp ->
  CRYPTO_ctr128_encrypt block inp key st = Some (machine st inp).
Proof.
  intros Hn Hb. unfold CRYPTO_ctr128_encrypt. pose proof (use_up_spec st inp Hn) as Hu.
  pose proof (use_up_bytes (ecount_buf st) (num st) inp Hb) as Hb'.
  destruct (use_up _ _ inp) as [[out1 n] rest]. destruct Hu as (-> & Hn' & Hz & _).
  destruct (whole_blocks_spec (length rest) (mkCtr (ivec st) (ecount_buf st) n) rest)
    as (out2 & rest2 & st2 & -> & -> & Hl & Hz2); [done|done|done|].
  cbn [mbind option_bind]. rewrite after_app. destruct rest2 as [|x rest2].
  { unfold after. simpl. by rewrite app_nil_r. }
  destruct Hz2 as [Hz2|]; [|done]. destruct st2 as [iv e n2]. simpl in Hz2. subst n2.
  rewrite tail_bytes_spec, machine_block by (simpl; simpl in Hl; lia).
  cbn [num ivec]. pose proof (block_length iv key). rewrite zip_seq_xor by (simpl in *; lia).
  unfold after. cbn [fst snd]. rewrite drop_0, app_assoc.
  by rewrite (Nat.mod_small (length (x :: rest2))) by lia.
Qed.

(** ** Several blocks at once *)

(** The key stream of [k] blocks from counter value [V]. *)
Definition ctr_keystream (V : Z) (k : nat) : list Z :=
  seq 0 k ≫= (fun i => block (be_bytes 16 (V + Z.of_nat i)) key).

Lemma ctr128_inc_be V : ctr128_inc (be_bytes 16 V) = be_bytes 16 (V + 1).
Proof.
  rewrite ctr128_inc_val by (apply be_bytes_bytes || apply length_be_bytes).
  by rewrite be_val_bytes, be_bytes_mod_add.
Qed.

Lemma length_ctr_keystream V k : length (ctr_keystream V k) = (16 * k)%nat.
Proof.
  unfold ctr_keystream. rewrite <- (length_seq k 0) at 2.
  induction (seq 0 k) as [|i l IH]; [done|].
  rewrite bind_cons, length_app, block_length, IH. simpl. lia.
Qed.

Lemma ctr_keystream_S V k :
  ctr_keystream V (S k) = block (be_bytes 16 V) key ++ ctr_keystream (V + 1) k.
Proof.
  unfold ctr_keystream. cbn [seq]. rewrite bind_cons, Z.add_0_r. f_equal.
  rewrite <- fmap_S_seq. generalize (seq 0 k) as l. induction l as [|i l IH]; [done|].
  rewrite fmap_cons, !bind_cons, IH. do 3 f_equal. lia.
Qed.

Lemma machine_blocks k V e l : length l = (16 * k)%nat ->
  exists e', machine (mkCtr (be_bytes 16 V) e 0) l =
    (xor_bytes l (ctr_keystream V k), mkCtr (be_bytes 16 (V + Z.of_nat k)) e' 0).
Proof.
  revert V e l. induction k as [|k IH]; intros V e l Hl.
  - destruct l; [|simpl in Hl; lia]. exists e. simpl. by rewrite Z.add_0_r.
  - destruct (IH (V + 1) (block (be_bytes 16 V) key) (drop 16 l)) as [e' He]; [len|].
    exists e'. rewrite <- (take_drop 16 l) at 1. rewrite machine_app.
    rewrite machine_block by len. cbn [fst snd]. rewrite length_take, Nat.min_l by lia.
    change (16 mod 16)%nat with 0%nat. rewrite ctr128_inc_be, He. unfold after. cbn [fst snd].
    rewrite ctr_keystream_S. rewrite <- (take_drop 16 l) at 3.
    rewrite xor_bytes_app by (rewrite block_length; len). do 3 f_equal. lia.
Qed.
End phases.

(** ** The 32-bit variant

    The contract of [ctr128_f], as the comments of the bulk loop rely on it:
    [func] encrypts [blocks] blocks with successive counters, incrementing only
    the big-endian 32-bit counter at the end of [ivec], and leaves [ivec]. *)
Class Ctr32Cipher {AES_KEY} (block : list Z -> AES_KEY -> list Z)
  (func : list Z -> Z -> AES_KEY -> list Z -> list Z) : Prop := {
  func_spec inp blocks key iv :
    0 <= blocks -> Z.of_nat (length inp) = 16 * blocks -> length iv = 16%nat -> bytes iv ->
    func inp blocks key iv =
    xor_bytes inp (seq 0 (Z.to_nat blocks) ≫= (fun i =>
      block (take 12 iv ++ be_bytes 4 (be_val (drop 12 iv) + Z.of_nat i)) key));
}.

(** [ecount_buf] only matters when part of it is still unused. *)
Definition ctr_eq (s1 s2 : ctr_state) : Prop :=
  ivec s1 = ivec s2 /\ num s1 = num s2 /\ (num s1 <> 0%nat -> ecount_buf s1 = ecount_buf s2).

#[export] Instance ctr_eq_equivalence : Equivalence ctr_eq.
Proof.
  split.
  - by intros s.
  - intros s1 s2 (Hi & Hn & He). split_and!; [done|done|]. intros Hz. symmetry. apply He. congruence.
  - intros s1 s2 s3 (Hi & Hn & He) (Hi' & Hn' & He'). split_and!; [congruence|congruence|].
    intros Hz. rewrite He by done. apply He'. congruence.
Qed.

Lemma machine_ctr_eq {AES_KEY} (block : list Z -> AES_KEY -> list Z) key s1 s2 l :
  ctr_eq s1 s2 ->
  (run (ctr_byte block key) s1 l).1 = (run (ctr_byte block key) s2 l).1 /\
  ctr_eq (run (ctr_byte block key) s1 l).2 (run (ctr_byte block key) s2 l).2.
Proof.
  apply run_related. clear. intros s1 s2 x (Hi & Hn & He). unfold ctr_byte, refill.
  rewrite <- Hn, <- Hi. destruct (Nat.eqb_spec (num s1) 0) as [Hz|Hz]; [by split|].
  rewrite <- Hn, <- Hi, <- He by done. by split.
Qed.

Section ctr32.
Context `{CryptoInternalLaws}.
Context {AES_KEY : Type} (block : list Z -> AES_KEY -> list Z)
  (func : list Z -> Z -> AES_KEY -> list Z -> list Z) (key : AES_KEY).
Context `{!BlockCipher block} `{!Ctr32Cipher block func}.

Abbreviation machine := (run (ctr_byte block key)).

Lemma be16_split V : be_bytes 16 V = be_bytes 12 (V `div` 2 ^ 32) ++ be_bytes 4 V.
Proof. exact (be_bytes_app 12 4 V). Qed.

Lemma take12 V : take 12 (be_bytes 16 V) = be_bytes 12 (V `div` 2 ^ 32).
Proof. rewrite be16_split. apply take_app_length'. by rewrite length_be_bytes. Qed.

Lemma drop12 V : drop 12 (be_bytes 16 V) = be_bytes 4 V.
Proof. rewrite be16_split. apply drop_app_length'. by rewrite length_be_bytes. Qed.

Lemma be4_wrap V : be_bytes 4 (wrap 32 V) = be_bytes 4 V.
Proof. unfold be_bytes, wrap. f_equal. exact (le_bytes_mod 4 V). Qed.

(** Counters that do not wrap are successive 128-bit counters. *)
Lemma low_counter V i : 0 <= i -> V `mod` 2 ^ 32 + i < 2 ^ 32 ->
  take 12 (be_bytes 16 V) ++ be_bytes 4 (be_val (drop 12 (be_bytes 16 V)) + i) =
  be_bytes 16 (V + i).
Proof.
  intros Hi Hlt. rewrite take12, drop12, be_val_bytes. change (256 ^ Z.of_nat 4) with (2 ^ 32).
  rewrite be16_split. f_equal; [f_equal; ulia|].
  rewrite <- (be4_wrap (_ + i)), <- (be4_wrap (V + i)). f_equal. unfold wrap.
  by rewrite Zplus_mod_idemp_l.
Qed.

(** [func] on counters that do not wrap is the 128-bit key stream. *)
Lemma func_keystream inp V b : 0 <= b -> V `mod` 2 ^ 32 + b <= 2 ^ 32 ->
  Z.of_nat (length inp) = 16 * b ->
  func inp b key (be_bytes 16 V) = xor_bytes inp (ctr_keystream block key V (Z.to_nat b)).
Proof.
  intros Hb Hle Hl. rewrite func_spec by (auto with width; try len; apply be_bytes_bytes).
  f_equal. unfold ctr_keystream.
  assert (forall i, i ∈ seq 0 (Z.to_nat b) -> V `mod` 2 ^ 32 + Z.of_nat i < 2 ^ 32) as Hi
    by (intros i Hi; apply elem_of_seq in Hi; lia).
  induction (seq 0 (Z.to_nat b)) as [|i l IH]; [done|].
  rewrite !bind_cons, low_counter by (try apply Hi; set_solver || lia).
  rewrite IH; [done|]. set_solver.
Qed.

(** Updating [ivec] after [b] blocks, carry into the upper 96 bits included. *)
Definition advance (iv : list Z) (ctr32 : Z) : list Z :=
  let iv := store_ctr32 iv ctr32 in if ctr32 =? 0 then ctr96_inc iv else iv.

Lemma advance_spec V b : 0 < b -> V `mod` 2 ^ 32 + b <= 2 ^ 32 ->
  advance (be_bytes 16 V) (wrap 32 (V + b)) = be_bytes 16 (V + b).
Proof.
  intros Hb Hle. unfold advance, store_ctr32.
  rewrite store_u32_be_spec, take12, be4_wrap by auto with width.
  destruct (Z.eqb_spec (wrap 32 (V + b)) 0) as [Hz|Hz].
  - unfold ctr96_inc. rewrite inc_loop_spec;
      [|apply Forall_app; split; apply be_bytes_bytes|len|lia].
    rewrite take_app_length', drop_app_length' by (by rewrite length_be_bytes).
    rewrite be_val_bytes, be_bytes_mod_add, (be16_split (V + b)). f_equal. f_equal.
    unfold wrap in Hz. ulia.
  - rewrite (be16_split (V + b)). f_equal. f_equal. unfold wrap in Hz. ulia.
Qed.

(** The number of blocks a bulk iteration handles, and the counter after it. *)
Lemma bulk_blocks c n : is_u 32 c -> 1 <= n ->
  let blocks := if 2 ^ 28 <? n then 2 ^ 28 else n in
  let ctr := wrap 32 (c + wrap 32 blocks) in
  exists b, (if ctr <? blocks then (blocks - ctr, 0) else (blocks, ctr)) = (b, wrap 32 (c + b)) /\
    0 < b <= n /\ c + b <= 2 ^ 32.
Proof.
  intros Hc Hn. cbv zeta. set (blocks := if 2 ^ 28 <? n then 2 ^ 28 else n).
  assert (0 < blocks <= 2 ^ 28 /\ blocks <= n) as Hb
    by (unfold blocks; destruct (Z.ltb_spec (2 ^ 28) n); lia).
  rewrite (wrap_small 32 blocks) by ulia. unfold is_u in Hc.
  destruct (decide (c + blocks < 2 ^ 32)) as [Hlt|Hge].
  - rewrite (wrap_small 32 (c + blocks)) by ulia.
    destruct (Z.ltb_spec (c + blocks) blocks); [lia|].
    exists blocks. rewrite wrap_small by ulia. split; [done|lia].
  - assert (wrap 32 (c + blocks) = c + blocks - 2 ^ 32) as -> by (unfold wrap; ulia).
    destruct (Z.ltb_spec (c + blocks - 2 ^ 32) blocks); [|lia].
    exists (2 ^ 32 - c). split; [|lia]. f_equal; [lia|].
    by replace (c + (2 ^ 32 - c)) with (2 ^ 32) by lia.
Qed.

Lemma wrap_low V b : wrap 32 (V `mod` 2 ^ 32 + b) = wrap 32 (V + b).
Proof. apply (wrap_add_l 32 V b). Qed.

Lemma whole_blocks_ctr32_spec fuel V e inp : (length inp <= fuel)%nat ->
  exists out rest V' e', 
    whole_blocks_ctr32 func fuel key (be_bytes 16 V) (V `mod` 2 ^ 32) inp =
      Some (out, rest, be_bytes 16 V', V' `mod` 2 ^ 32) /\
    machine (mkCtr (be_bytes 16 V) e 0) inp =
      after out (machine (mkCtr (be_bytes 16 V') e' 0) rest) /\
    (length rest < 16)%nat /\ (length rest <= length inp)%nat.
Proof.
  revert V e inp. induction fuel as [|fuel IH]; intros V e inp Hf; cbn [whole_blocks_ctr32].
  - destruct inp; [|simpl in Hf; lia]. exists [], [], V, e. split_and!; auto. simpl. lia.
  - destruct (Nat.ltb_spec (length inp) 16) as [Hlt|Hge].
    { exists [], inp, V, e. split_and!; auto. unfold after. by destruct (machine _ inp). }
    destruct (bulk_blocks (V `mod` 2 ^ 32) (Z.of_nat (length inp) `div` 16)) as (b & Hbulk & Hb & Hle);
      [apply Z.mod_pos_bound; lia|ulia|]. cbv zeta in Hbulk. rewrite Hbulk, wrap_low.
    fold (advance (be_bytes 16 V) (wrap 32 (V + b))). rewrite advance_spec by lia.
    set (n := Z.to_nat (b * 16)).
    assert (n = 16 * Z.to_nat b)%nat as Hn by (unfold n; lia).
    assert (n <= length inp)%nat as Hni by (Z.to_euclidean_division_equations; lia).
    destruct (machine_blocks block key (Z.to_nat b) V e (take n inp)) as [e1 He1]; [len|].
    rewrite Z2Nat.id in He1 by lia.
    destruct (IH (V + b) e1 (drop n inp)) as (out & rest & V' & e' & Hw & Hm & Hl & Hl'); [len|].
    unfold wrap. rewrite Hw. cbn [mbind option_bind].
    eexists _, rest, V', e'. split_and!; [done| |done|len].
    rewrite <- (take_drop n inp) at 1. rewrite machine_app, He1. cbn [fst snd]. rewrite Hm, after_app.
    by rewrite func_keystream by len.
Qed.

(** The 32-bit variant is the byte machine too, up to an exhausted buffer. *)
Lemma ctr32_encrypt_machine st inp : ctr_ok st ->
  exists out st', CRYPTO_ctr128_encrypt_ctr32 func inp key st = Some (out, st') /\
    out = (machine st inp).1 /\ ctr_eq st' (machine st inp).2.
Proof.
  intros [[Hil Hib] [Hel _] Hn]. unfold CRYPTO_ctr128_encrypt_ctr32.
  pose proof (use_up_spec block key st inp Hn) as Hu.
  destruct (use_up _ _ inp) as [[out1 n] rest]. destruct Hu as (Hm & Hn' & Hz & _).
  rewrite load_u32_be_spec by (len || by apply Forall_take, Forall_drop).
  rewrite (take_ge (drop 12 _)) by len. set (V := be_val (ivec st)).
  assert (ivec st = be_bytes 16 V) as HV by (unfold V; rewrite <- Hil; by rewrite be_bytes_val).
  rewrite HV, drop12, be_val_bytes. change (256 ^ Z.of_nat 4) with (2 ^ 32).
  destruct Hz as [->| ->].
  2:{ cbn [length whole_blocks_ctr32]. change (0 <? 16)%nat with true. cbn [mbind option_bind].
      rewrite Hm, HV. eexists _, _. by split_and!. }
  destruct (whole_blocks_ctr32_spec (length rest) V (ecount_buf st) rest)
    as (out2 & rest2 & V' & e' & -> & Hm2 & Hl & _); [done|].
  cbn [mbind option_bind]. rewrite Hm, HV, Hm2, after_app.
  destruct rest2 as [|x rest2].
  - eexists _, _. split; [done|]. unfold after. simpl. rewrite app_nil_r. by split_and!.
  - rewrite wrap_low.
    fold (advance (be_bytes 16 V') (wrap 32 (V' + 1))). rewrite advance_spec by ulia.
    rewrite func_keystream by (done || ulia).
    assert (xor_bytes (replicate 16 0) (ctr_keystream block key V' (Z.to_nat 1)) =
            block (be_bytes 16 V') key) as ->.
    { change (Z.to_nat 1) with 1%nat. rewrite ctr_keystream_S. unfold ctr_keystream. simpl.
      rewrite app_nil_r. pose proof (block_length (be_bytes 16 V') key) as Hb.
      destruct (block (be_bytes 16 V') key) as [|b0 bs]; [simpl in Hb; lia|].
      do 15 (destruct bs as [|? bs]; [simpl in Hb; lia|]). destruct bs; [done|simpl in Hb; lia]. }
    pose proof (block_length (be_bytes 16 V') key).
    rewrite tail_bytes_spec, zip_seq_xor by (cbn [length] in *; lia). rewrite drop_0.
    rewrite (machine_block block key) by (cbn [length] in *; lia). unfold after. cbn [fst snd].
    eexists _, _. split; [done|]. split; [by rewrite app_assoc|].
    rewrite Nat.mod_small by (cbn [length] in *; lia). rewrite ctr128_inc_be. by split_and!.
Qed.
End ctr32.

(** ** Properties *)

(** A toy cipher, to evaluate the functions on. *)
Definition toy_block (iv : list Z) (key : Z) : list Z :=
  (fun x => wrap 8 (3 * x + key)) <$> be_bytes 16 (be_val iv).

#[export] Instance toy_block_cipher : BlockCipher toy_block.
Proof.
  split; intros iv key; unfold toy_block; [len|].
  apply Forall_fmap, Forall_true. intros x. simpl. auto with width.
Qed.

Definition toy_func (inp : list Z) (blocks : Z) (key : Z) (iv : list Z) : list Z :=
  xor_bytes inp (seq 0 (Z.to_nat blocks) ≫= (fun i =>
    toy_block (take 12 iv ++ be_bytes 4 (be_val (drop 12 iv) + Z.of_nat i)) key)).

#[export] Instance toy_func_cipher : Ctr32Cipher toy_block toy_func.
Proof. by split. Qed.

#[export] Instance ctr_ok_dec st : Decision (ctr_ok st).
Proof.
  refine (cast_if (decide ((length (ivec st) = 16%nat /\ bytes (ivec st)) /\
    (length (ecount_buf st) = 16%nat /\ bytes (ecount_buf st)) /\ (num st < 16)%nat)));
    abstract (by destruct_and? || (intros []; tauto) || (split; tauto)).
Defined.

(** Counter mode from a fresh state exclusive-ors the message
    with the encryptions of successive 128-bit big-endian counters, advances
    the counter by the number of blocks touched (modulo [2^128]) and records
    how much of the last block was used. *)
Theorem CRYPTO_ctr128_encrypt_spec `{CryptoInternalLaws} {AES_KEY}
  (block : list Z -> AES_KEY -> list Z) `{!BlockCipher block} (key : AES_KEY)
  (msg iv e : list Z) (Hmsg : bytes msg) (Hlen : length iv = 16%nat) (Hiv : bytes iv) :
  exists e', CRYPTO_ctr128_encrypt block msg key (mkCtr iv e 0) =
    Some (xor_bytes msg (ctr_keystream block key (be_val iv) (length msg / 16 + 1)),
          mkCtr (be_bytes 16 (be_val iv + Z.of_nat ((length msg + 15) / 16))) e' (length msg mod 16)%nat).
Proof.
  assert (iv = be_bytes 16 (be_val iv)) as HV by (rewrite <- Hlen; by rewrite be_bytes_val).
  rewrite ctr128_encrypt_machine by (simpl; done || lia).
  set (V := be_val iv) in *. replace (mkCtr iv e 0) with (mkCtr (be_bytes 16 V) e 0) by (by rewrite <- HV).
  set (q := (length msg / 16)%nat).
  set (r := (length msg mod 16)%nat).
  pose proof (Nat.div_mod_eq (length msg) 16) as Hdm. fold q r in Hdm.
  assert (r < 16)%nat as Hr by (apply Nat.mod_upper_bound; lia).
  set (a := take (16 * q) msg). set (b := drop (16 * q) msg).
  assert (a ++ b = msg) as Hab by apply take_drop.
  assert (length a = 16 * q /\ length b = r)%nat as [Ha Hd] by (unfold a, b; len).
  destruct (machine_blocks block key q V e a Ha) as [e1 He1].
  replace (run _ _ msg) with (run (ctr_byte block key) (mkCtr (be_bytes 16 V) e 0) (a ++ b))
    by (by rewrite Hab).
  rewrite machine_app, He1. cbn [fst snd].
  assert (ctr_keystream block key V (q + 1) =
    ctr_keystream block key V q ++ block (be_bytes 16 (V + Z.of_nat q)) key) as Hks.
  { unfold ctr_keystream. rewrite seq_app, bind_app. simpl. by rewrite app_nil_r. }
  replace (xor_bytes msg _) with (xor_bytes (a ++ b) (ctr_keystream block key V (q + 1)))
    by (by rewrite Hab).
  rewrite Hks, xor_bytes_app by (by rewrite length_ctr_keystream).
  destruct (decide (r = 0%nat)) as [Hr0|Hr0].
  - replace ((length msg + 15) / 16)%nat with q by (apply Nat.div_unique with 15%nat; lia).
    rewrite Hr0 in *. rewrite (nil_length_inv _ Hd). exists e1. unfold after. simpl.
    by rewrite app_nil_r.
  - replace ((length msg + 15) / 16)%nat with (q + 1)%nat
      by (apply Nat.div_unique with (r - 1)%nat; lia).
    exists (block (be_bytes 16 (V + Z.of_nat q)) key).
    rewrite (machine_block block key) by lia. rewrite Hd, ctr128_inc_be. unfold after. cbn [fst snd].
    rewrite Nat.mod_small by done. do 4 f_equal. lia.
Qed.

Lemma CRYPTO_ctr128_encrypt_spec_witness : exists e',
  CRYPTO_ctr128_encrypt toy_block (replicate 20 1) 5 (mkCtr (replicate 16 255) [] 0) =
  Some (xor_bytes (replicate 20 1) (ctr_keystream toy_block 5 (2 ^ 128 - 1) 2),
        mkCtr (replicate 15 0 ++ [1]) e' 4).
Proof. apply (CRYPTO_ctr128_encrypt_spec toy_block 5 (replicate 20 1) (replicate 16 255) []); by_compute. Defined.

(** Encrypting a message in two calls, at any split point and
    from any state, produces the same bytes and leaves the same state as one
    call: the left-over key stream in [ecount_buf] is used exactly once. *)
Theorem CRYPTO_ctr128_encrypt_stream `{CryptoInternalLaws} {AES_KEY}
  (block : list Z -> AES_KEY -> list Z) `{!BlockCipher block} (key : AES_KEY)
  (m1 m2 : list Z) (st : ctr_state) (Hst : ctr_ok st) (Hm1 : bytes m1) (Hm2 : bytes m2) :
  CRYPTO_ctr128_encrypt block (m1 ++ m2) key st =
  ('(c1, st1) ← CRYPTO_ctr128_encrypt block m1 key st;
   '(c2, st2) ← CRYPTO_ctr128_encrypt block m2 key st1;
   Some (c1 ++ c2, st2)).
Proof.
  pose proof (ctr_ok_num st Hst) as Hn.
  rewrite (ctr128_encrypt_machine block key st (m1 ++ m2)) by (done || by apply Forall_app).
  rewrite (ctr128_encrypt_machine block key st m1) by done. cbn [mbind option_bind].
  pose proof (machine_num block key m1 st Hn) as Hnum. rewrite run_app.
  destruct (run (ctr_byte block key) st m1) as [c1 st1].
  rewrite (ctr128_encrypt_machine block key st1 m2) by done. cbn [mbind option_bind].
  by destruct (run _ st1 m2).
Qed.

Lemma CRYPTO_ctr128_encrypt_stream_witness :
  CRYPTO_ctr128_encrypt toy_block ([1; 2; 3] ++ replicate 30 4) 5
    (mkCtr (replicate 16 255) (replicate 16 6) 14) =
  ('(c1, st1) ← CRYPTO_ctr128_encrypt toy_block [1; 2; 3] 5
     (mkCtr (replicate 16 255) (replicate 16 6) 14);
   '(c2, st2) ← CRYPTO_ctr128_encrypt toy_block (replicate 30 4) 5 st1;
   Some (c1 ++ c2, st2)).
Proof. apply (CRYPTO_ctr128_encrypt_stream toy_block 5); by_compute. Defined.

(** Running the function again from the same state on its own
    output returns the message and reaches the same final state. *)
Theorem CRYPTO_ctr128_encrypt_involutive `{CryptoInternalLaws} {AES_KEY}
  (block : list Z -> AES_KEY -> list Z) `{!BlockCipher block} (key : AES_KEY)
  (msg : list Z) (st : ctr_state) (Hst : ctr_ok st) (Hmsg : bytes msg) :
  exists ct st', CRYPTO_ctr128_encrypt block msg key st = Some (ct, st') /\
    length ct = length msg /\ CRYPTO_ctr128_encrypt block ct key st = Some (msg, st').
Proof.
  destruct Hst as [_ [_ He] Hn].
  assert (forall l s, bytes l -> bytes (ecount_buf s) -> bytes (run (ctr_byte block key) s l).1) as Hout.
  { clear -BlockCipher0. induction l as [|x l IH]; intros s Hl Hs; [constructor|].
    apply Forall_cons_iff in Hl as [Hx Hl]. rewrite machine_cons. unfold after. simpl.
    assert (bytes (ecount_buf (refill block key s))).
    { unfold refill. destruct (num s =? 0)%nat; [apply block_bytes|done]. }
    constructor; auto with width. }
  exists (run (ctr_byte block key) st msg).1, (run (ctr_byte block key) st msg).2.
  rewrite !ctr128_encrypt_machine by auto. split_and!; [by destruct (run _ st msg)|apply length_run|].
  f_equal. apply (run_inverse (fun _ => True) is_byte); [|done|done].
  intros s x _ Hx. split; [done|]. unfold ctr_byte. simpl. by rewrite lxor_cancel.
Qed.

Lemma CRYPTO_ctr128_encrypt_involutive_witness :
  exists ct st', CRYPTO_ctr128_encrypt toy_block [7; 8; 9] 5 (mkCtr (replicate 16 1) (replicate 16 6) 15) =
    Some (ct, st') /\ length ct = 3%nat /\
    CRYPTO_ctr128_encrypt toy_block ct 5 (mkCtr (replicate 16 1) (replicate 16 6) 15) = Some ([7; 8; 9], st').
Proof. apply (CRYPTO_ctr128_encrypt_involutive toy_block 5); by_compute. Defined.

(** C38 (refinement): with a bulk function that only counts in the low 32 bits,
    the 32-bit variant, which splits the input where that counter wraps and
    carries into the upper 96 bits itself, returns the bytes of the generic
    function and a state that no later call can tell apart. *)
Theorem CRYPTO_ctr128_encrypt_ctr32_refines `{CryptoInternalLaws} {AES_KEY}
  (block : list Z -> AES_KEY -> list Z) (func : list Z -> Z -> AES_KEY -> list Z -> list Z)
  `{!BlockCipher block} `{!Ctr32Cipher block func} (key : AES_KEY)
  (msg more : list Z) (st : ctr_state) (Hst : ctr_ok st) (Hmsg : bytes msg) (Hmore : bytes more) :
  exists ct st1 st2,
    CRYPTO_ctr128_encrypt block msg key st = Some (ct, st1) /\
    CRYPTO_ctr128_encrypt_ctr32 func msg key st = Some (ct, st2) /\ ctr_eq st2 st1 /\
    option_map fst (CRYPTO_ctr128_encrypt block more key st2) =
    option_map fst (CRYPTO_ctr128_encrypt block more key st1).
Proof.
  destruct (ctr32_encrypt_machine block func key st msg Hst) as (out & st2 & Hc & -> & Heq).
  exists (run (ctr_byte block key) st msg).1, (run (ctr_byte block key) st msg).2, st2.
  rewrite ctr128_encrypt_machine by (destruct Hst; done).
  split_and!; [by destruct (run _ st msg)|done|done|].
  pose proof (machine_num block key msg st (ctr_ok_num st Hst)) as Hnum.
  assert (num st2 < 16)%nat by (by destruct Heq as (_ & -> & _)).
  rewrite !(ctr128_encrypt_machine block key) by done. simpl. f_equal. by apply machine_ctr_eq.
Qed.

Lemma CRYPTO_ctr128_encrypt_ctr32_refines_witness : exists ct st1 st2,
  CRYPTO_ctr128_encrypt toy_block (replicate 70 1) 5 (mkCtr (replicate 16 255) (replicate 16 6) 14) =
    Some (ct, st1) /\
  CRYPTO_ctr128_encrypt_ctr32 toy_func (replicate 70 1) 5 (mkCtr (replicate 16 255) (replicate 16 6) 14) =
    Some (ct, st2) /\ ctr_eq st2 st1 /\
  option_map fst (CRYPTO_ctr128_encrypt toy_block [3] 5 st2) =
  option_map fst (CRYPTO_ctr128_encrypt toy_block [3] 5 st1).
Proof. apply (CRYPTO_ctr128_encrypt_ctr32_refines toy_block toy_func 5); by_compute. Defined.
