(* ===== verification/Cfb.v ===== *)
(** * Cipher feedback mode ([BoringSSL-GRPC/src/crypto/fipsmodule/modes/cfb.c])

    The 128-bit, 8-bit and 1-bit feedback variants over a parametric block
    cipher.  The two branches of [CRYPTO_cfb128_encrypt] have the same phases
    and differ in what they leave in [ivec]; the phases below take [enc] and
    [feedback] chooses. *)

From S2P Require Import Prelude CryptoInternal Ctr.

Record cfb_state := mkCfb { cfb_ivec : list Z; cfb_num : nat }.

(** The byte kept in the feedback register: the ciphertext byte, which is the
    output when encrypting and the input when decrypting. *)
Definition feedback (enc : bool) (out inp : Z) : Z := if enc then out else inp.

(** Overwrite part of a buffer. *)
Definition splice (l : list Z) (i : nat) (w : list Z) : list Z :=
  take i l ++ w ++ drop (i + length w) l.

Lemma splice_nil l i : splice l i [] = l.
Proof. unfold splice. cbn [length app]. by rewrite Nat.add_0_r, take_drop. Qed.

Section cfb.
Context `{CryptoInternal}.
Context {AES_KEY : Type} (block : list Z -> AES_KEY -> list Z).

(** [while (n && len)] *)
Fixpoint cfb_use_up (enc : bool) (st : cfb_state) (inp : list Z) : list Z * cfb_state * list Z :=
  match inp with
  | [] => ([], st, [])
  | x :: rest =>
      let n := cfb_num st in
      if (n =? 0)%nat then ([], st, inp)
      else
        let o := Z.lxor (cfb_ivec st !!! n) x in
        let st := mkCfb (<[n := feedback enc o x]> (cfb_ivec st)) ((n + 1) mod 16)%nat in
        let '(out, st, rest) := cfb_use_up enc st rest in
        (o :: out, st, rest)
  end.

(** [for (; n < 16; n += sizeof(crypto_word_t))] over one block, entered with
    [n == 0]: the preceding loop stops early only when the input is used up. *)
Definition cfb_words (enc : bool) (iv inp : list Z) : list Z * list Z :=
  foldl (fun '(out, iv) n =>
    let t := CRYPTO_load_word_le (take word_bytes (drop n inp)) in
    let tmp := Z.lxor (CRYPTO_load_word_le (take word_bytes (drop n iv))) t in
    (out ++ CRYPTO_store_word_le tmp, splice iv n (CRYPTO_store_word_le (feedback enc tmp t))))
    ([], iv) [0; 8]%nat.

(** [while (len >= 16)] *)
Fixpoint cfb_whole_blocks (fuel : nat) (enc : bool) (key : AES_KEY) (st : cfb_state) (inp : list Z)
  : option (list Z * list Z * cfb_state) :=
  if (length inp <? 16)%nat then Some ([], inp, st)
  else
    match fuel with
    | O => None
    | S fuel =>
        let iv := block (cfb_ivec st) key in
        let '(out, iv) := cfb_words enc iv (take 16 inp) in
        '(outs, rest, st) ← cfb_whole_blocks fuel enc key (mkCfb iv 0) (drop 16 inp);
        Some (out ++ outs, rest, st)
    end.

(** [while (len--) { ... ++n; }] *)
Fixpoint cfb_tail (enc : bool) (iv : list Z) (n : nat) (inp : list Z) : list Z * list Z * nat :=
  match inp with
  | [] => ([], iv, n)
  | x :: rest =>
      let o := Z.lxor (iv !!! n) x in
      let '(out, iv, n) := cfb_tail enc (<[n := feedback enc o x]> iv) (n + 1) rest in
      (o :: out, iv, n)
  end.

Definition CRYPTO_cfb128_encrypt (inp : list Z) (key : AES_KEY) (st : cfb_state) (enc : bool)
  : option (list Z * cfb_state) :=
  let '(out1, st, inp) := cfb_use_up enc st inp in
  '(out2, inp, st) ← cfb_whole_blocks (length inp) enc key st inp;
  match inp with
  | [] => Some (out1 ++ out2, st)
  | _ =>
      let iv := block (cfb_ivec st) key in
      let '(out3, iv, n) := cfb_tail enc iv (cfb_num st) inp in
      Some (out1 ++ out2 ++ out3, mkCfb iv n)
  end.

(** One feedback step of [nbits] bits: the output bytes and the new [ivec]. *)
Definition cfbr_encrypt_block (inp : list Z) (nbits : Z) (key : AES_KEY) (iv : list Z) (enc : bool)
  : list Z * list Z :=
  if (nbits <=? 0) || (128 <? nbits) then ([], iv)
  else
    let ovec := iv in
    let iv := block iv key in
    let num := Z.to_nat ((nbits + 7) `div` 8) in
    let out := (fun n => Z.lxor (inp !!! n) (iv !!! n)) <$> seq 0 num in
    let ovec := ovec ++ (if enc then out else take num inp) in
    let rem := nbits `mod` 8 in
    let num := Z.to_nat (nbits `div` 8) in
    let iv :=
      if rem =? 0 then take 16 (drop num ovec)
      else (fun n => wrap 8 (Z.lor (Z.shiftl (ovec !!! (n + num)%nat) rem)
                                   (Z.shiftr (ovec !!! (n + num + 1)%nat) (8 - rem)))) <$> seq 0 16 in
    (out, iv).

(** The buffer [out] keeps the bits that are not written. *)
Definition CRYPTO_cfb128_1_encrypt (inp out : list Z) (bits : nat) (key : AES_KEY) (iv : list Z)
  (enc : bool) : list Z * list Z :=
  for_ 0 bits (fun n '(out, iv) =>
    let c := if Z.land (inp !!! (n / 8)%nat) (Z.shiftl 1 (7 - Z.of_nat n `mod` 8)) =? 0 then 0 else 0x80 in
    let '(d, iv) := cfbr_encrypt_block [c] 1 key iv enc in
    let o := out !!! (n / 8)%nat in
    let o := wrap 8 (Z.lor (Z.land o (Z.lnot (Z.shiftl 1 (7 - Z.of_nat n `mod` 8))))
                           (Z.shiftr (Z.land (d !!! 0%nat) 0x80) (Z.of_nat n `mod` 8))) in
    (<[(n / 8)%nat := o]> out, iv)) (out, iv).

Definition CRYPTO_cfb128_8_encrypt (inp : list Z) (key : AES_KEY) (iv : list Z) (enc : bool)
  : list Z * list Z :=
  for_ 0 (length inp) (fun n '(out, iv) =>
    let '(d, iv) := cfbr_encrypt_block [inp !!! n] 8 key iv enc in (out ++ d, iv)) ([], iv).
End cfb.

(** ** The byte-at-a-time machine *)

Section machine.
Context {AES_KEY : Type} (block : list Z -> AES_KEY -> list Z) (key : AES_KEY).

Definition cfb_refill (st : cfb_state) : cfb_state :=
  if (cfb_num st =? 0)%nat then mkCfb (block (cfb_ivec st) key) 0 else st.

Definition cfb_byte (enc : bool) (st : cfb_state) (x : Z) : Z * cfb_state :=
  let st := cfb_refill st in
  let o := Z.lxor (cfb_ivec st !!! cfb_num st) x in
  (o, mkCfb (<[cfb_num st := feedback enc o x]> (cfb_ivec st)) ((cfb_num st + 1) mod 16)%nat).
End machine.

Record cfb_ok (st : cfb_state) : Prop := {
  cfb_ok_ivec : length (cfb_ivec st) = 16%nat /\ bytes (cfb_ivec st);
  cfb_ok_num : (cfb_num st < 16)%nat;
}.

#[export] Instance cfb_ok_dec st : Decision (cfb_ok st).
Proof.
  refine (cast_if (decide ((length (cfb_ivec st) = 16%nat /\ bytes (cfb_ivec st)) /\
    (cfb_num st < 16)%nat)));
    abstract (by destruct_and? || (intros []; tauto) || (split; tauto)).
Defined.

Section phases.
Context `{CryptoInternalLaws}.
Context {AES_KEY : Type} (block : list Z -> AES_KEY -> list Z) (key : AES_KEY).
Context `{!BlockCipher block}.
Variable enc : bool.

Abbreviation machine := (run (cfb_byte block key enc)).

Definition cfb_after (o : list Z) (r : list Z * cfb_state) : list Z * cfb_state := (o ++ r.1, r.2).

Lemma cfb_after_app o1 o2 r : cfb_after o1 (cfb_after o2 r) = cfb_after (o1 ++ o2) r.
Proof. unfold cfb_after. simpl. by rewrite app_assoc. Qed.

Lemma cfb_after_nil r : cfb_after [] r = r.
Proof. by destruct r. Qed.

Lemma cfb_machine_cons st x l :
  machine st (x :: l) =
  cfb_after [(cfb_byte block key enc st x).1] (machine (cfb_byte block key enc st x).2 l).
Proof. cbn [run]. destruct (cfb_byte block key enc st x). simpl. by destruct (machine _ l). Qed.

Lemma cfb_machine_app st l1 l2 :
  machine st (l1 ++ l2) = cfb_after (machine st l1).1 (machine (machine st l1).2 l2).
Proof. rewrite run_app. destruct (machine st l1). simpl. by destruct (machine _ l2). Qed.

Lemma feedback_byte o x : is_byte o -> is_byte x -> is_byte (feedback enc o x).
Proof. by destruct enc. Qed.

Lemma cfb_byte_ok st x : cfb_ok st -> is_byte x ->
  cfb_ok (cfb_byte block key enc st x).2 /\ is_byte (cfb_byte block key enc st x).1.
Proof.
  intros [[Hl Hb] Hn] Hx. unfold cfb_byte.
  assert (length (cfb_ivec (cfb_refill block key st)) = 16%nat /\
          bytes (cfb_ivec (cfb_refill block key st))) as [Hl' Hb'].
  { unfold cfb_refill. destruct (cfb_num st =? 0)%nat; [|done].
    split; [apply block_length|apply block_bytes]. }
  cbn [fst snd]. split; [|auto with width]. split; cbn [cfb_ivec cfb_num].
  - rewrite length_insert. split; [done|]. apply Forall_insert; [done|].
    apply feedback_byte; auto with width.
  - by apply Nat.mod_upper_bound.
Qed.

Lemma cfb_machine_ok st l : cfb_ok st -> bytes l ->
  cfb_ok (machine st l).2 /\ bytes (machine st l).1.
Proof.
  intros Hst Hl. revert st Hst. induction Hl as [|x l Hx _ IH]; intros st Hst; [done|].
  rewrite cfb_machine_cons. unfold cfb_after. destruct (cfb_byte_ok st x Hst Hx) as [Hst' Ho].
  destruct (IH _ Hst'). cbn [fst snd]. split; [done|]. by constructor.
Qed.

Lemma cfb_byte_mid iv k x : k <> 0%nat ->
  cfb_byte block key enc (mkCfb iv k) x =
  (Z.lxor (iv !!! k) x, mkCfb (<[k := feedback enc (Z.lxor (iv !!! k) x) x]> iv) ((k + 1) mod 16)%nat).
Proof. intros Hk. unfold cfb_byte, cfb_refill. cbn [cfb_num]. by rewrite (proj2 (Nat.eqb_neq _ _) Hk). Qed.

Lemma cfb_byte_start iv x :
  cfb_byte block key enc (mkCfb iv 0) x =
  (Z.lxor (block iv key !!! 0%nat) x,
   mkCfb (<[0%nat := feedback enc (Z.lxor (block iv key !!! 0%nat) x) x]> (block iv key)) 1).
Proof. done. Qed.

Lemma cfb_use_up_spec st inp : cfb_ok st -> bytes inp ->
  let '(out, st', rest) := cfb_use_up enc st inp in
  machine st inp = cfb_after out (machine st' rest) /\ cfb_ok st' /\ bytes rest /\
  (cfb_num st' = 0%nat \/ rest = []).
Proof.
  intros Hst Hl. revert st Hst. induction Hl as [|x inp Hx Hl IH]; intros st Hst; cbn [cfb_use_up].
  - split_and!; auto.
  - destruct (Nat.eqb_spec (cfb_num st) 0) as [Hz|Hz].
    + rewrite cfb_after_nil. split_and!; auto.
    + destruct (cfb_byte_ok st x Hst Hx) as [Hst' _].
      destruct st as [iv k]. cbn [cfb_num cfb_ivec] in *.
      rewrite cfb_machine_cons, cfb_byte_mid in * by done. cbn [fst snd] in *. specialize (IH _ Hst').
      destruct (cfb_use_up _ _ inp) as [[out st'] rest]. destruct IH as (-> & ? & ? & ?).
      by rewrite cfb_after_app.
Qed.

(** Within a block: [k] bytes of the register are still to be used. *)
Lemma cfb_machine_in_block iv k l : (0 < k)%nat -> (k + length l <= 16)%nat ->
  machine (mkCfb iv k) l =
  (let '(out, iv, n) := cfb_tail enc iv k l in (out, mkCfb iv (if decide (l = []) then k else n mod 16)%nat)) /\
  (cfb_tail enc iv k l).2 = (k + length l)%nat.
Proof.
  revert iv k. induction l as [|x l IH]; intros iv k Hk Hl; [simpl; split; [done|lia]|].
  simpl in Hl. rewrite cfb_machine_cons, cfb_byte_mid by lia. cbn [fst snd cfb_tail].
  set (iv' := <[k := _]> iv). destruct (decide (l = [])) as [->|Hne].
  - cbn. split; [done|lia].
  - assert (0 < length l)%nat by (destruct l; simpl; [done|lia]).
    rewrite (Nat.mod_small (k + 1)) by lia. destruct (IH iv' (k + 1)%nat) as [IHm IHn]; [lia|lia|].
    rewrite IHm. destruct (cfb_tail enc iv' (k + 1) l) as [[out iv''] n]. simpl in IHn. subst n.
    repeat (case_decide; [done|]). unfold cfb_after. cbn. split; [done|lia].
Qed.

(** At most one block from an exhausted register. *)
Lemma cfb_machine_block iv l : (0 < length l <= 16)%nat ->
  machine (mkCfb iv 0) l =
  (let '(out, iv, n) := cfb_tail enc (block iv key) 0 l in (out, mkCfb iv (length l mod 16)%nat)).
Proof.
  intros Hl. destruct l as [|x l]; [simpl in Hl; lia|]. simpl in Hl.
  rewrite cfb_machine_cons, cfb_byte_start. cbn [fst snd cfb_tail].
  set (iv' := <[0%nat := _]> (block iv key)).
  destruct (cfb_machine_in_block iv' 1 l) as [-> Hn]; [lia|lia|]. change (0 + 1)%nat with 1%nat.
  destruct (cfb_tail enc iv' 1 l) as [[out iv''] n]. cbn in Hn. subst n. unfold cfb_after. cbn [fst snd].
  case_decide as Hnil; [by rewrite Hnil|done].
Qed.

(** What a stretch of bytes leaves in the register. *)
Lemma cfb_tail_spec iv n l : (n + length l <= length iv)%nat ->
  cfb_tail enc iv n l =
  (xor_bytes (take (length l) (drop n iv)) l,
   splice iv n (if enc then xor_bytes (take (length l) (drop n iv)) l else l), (n + length l)%nat).
Proof.
  revert iv n. induction l as [|x l IH]; intros iv n Hl.
  - cbn [length cfb_tail]. rewrite take_0, xor_bytes_nil_l, Nat.add_0_r.
    by destruct enc; rewrite splice_nil.
  - simpl in Hl. cbn [cfb_tail]. rewrite IH by len.
    rewrite (drop_S iv (iv !!! n) n) by (apply list_lookup_lookup_total_lt; lia).
    rewrite drop_insert_lt by lia. cbn [length take xor_bytes zip_with].
    rewrite Nat.add_1_r. f_equal; [|lia]. f_equal. unfold splice.
    rewrite drop_insert_lt by lia.
    assert (take (S n) (<[n:=feedback enc (Z.lxor (iv !!! n) x) x]> iv) =
            take n iv ++ [feedback enc (Z.lxor (iv !!! n) x) x]) as ->.
    { erewrite take_S_r by (apply list_lookup_insert_eq; lia). by rewrite take_insert_ge. }
    unfold xor_bytes. destruct enc; cbn [feedback app length];
      rewrite <- app_assoc, Nat.add_succ_r; done.
Qed.

Lemma store_word_bytes v : length v = 8%nat -> bytes v -> CRYPTO_store_word_le (le_val v) = v.
Proof.
  intros Hl Hv. pose proof (le_val_range v Hv) as Hr. rewrite Hl in Hr.
  rewrite store_word_le_spec by done. change word_bytes with 8%nat. rewrite <- Hl.
  by apply le_bytes_val.
Qed.

Lemma length_splice l i w : (i + length w <= length l)%nat -> length (splice l i w) = length l.
Proof. intros. unfold splice. len. Qed.

(** The two word steps are sixteen byte steps. *)
Lemma cfb_words_spec iv inp : length iv = 16%nat -> length inp = 16%nat -> bytes iv -> bytes inp ->
  cfb_words enc iv inp = (xor_bytes iv inp, if enc then xor_bytes iv inp else inp).
Proof.
  intros Li Lx Bi Bx. unfold cfb_words. change word_bytes with 8%nat. cbn [foldl app].
  rewrite !drop_0.
  assert (forall a b, bytes a -> bytes b -> length a = 8%nat -> length b = 8%nat ->
    let t := CRYPTO_load_word_le b in
    let tmp := Z.lxor (CRYPTO_load_word_le a) t in
    CRYPTO_store_word_le tmp = xor_bytes a b /\
    CRYPTO_store_word_le (feedback enc tmp t) = if enc then xor_bytes a b else b) as Hw.
  { intros a b Ha Hb La Lb. cbv zeta. rewrite !load_word_le_spec, le_val_xor by (done || lia).
    assert (length (xor_bytes a b) = 8%nat) by len. pose proof (xor_bytes_bytes a b Ha Hb).
    rewrite store_word_bytes by done. split; [done|].
    destruct enc; cbn [feedback]; by rewrite store_word_bytes. }
  destruct (Hw (take 8 iv) (take 8 inp)) as [E1 E2]; [by apply Forall_take..|len|len|].
  rewrite E1, E2. set (w1 := if enc then _ else _).
  assert (length w1 = 8%nat) as Lw by (unfold w1; destruct enc; len).
  assert (splice iv 0 w1 = w1 ++ drop 8 iv) as -> by (unfold splice; by rewrite Lw).
  rewrite (drop_app_length' w1) by done. rewrite (take_ge (drop 8 iv)), (take_ge (drop 8 inp)) by len.
  destruct (Hw (drop 8 iv) (drop 8 inp)) as [E3 E4]; [by apply Forall_drop..|len|len|].
  rewrite E3, E4. rewrite <- xor_bytes_app, !take_drop by len. f_equal.
  unfold splice. rewrite take_app_length' by done.
  rewrite (drop_ge (w1 ++ _)) by (destruct enc; len). rewrite app_nil_r. unfold w1. destruct enc.
  - rewrite <- xor_bytes_app, !take_drop by len. done.
  - by rewrite take_drop.
Qed.

Lemma cfb_whole_blocks_spec fuel st inp :
  (length inp <= fuel)%nat -> bytes inp -> cfb_num st = 0%nat \/ inp = [] ->
  exists out rest st', cfb_whole_blocks block fuel enc key st inp = Some (out, rest, st') /\
    machine st inp = cfb_after out (machine st' rest) /\
    (length rest < 16)%nat /\ (cfb_num st' = 0%nat \/ rest = []).
Proof.
  revert st inp. induction fuel as [|fuel IH]; intros st inp Hf Hb Hn; cbn [cfb_whole_blocks].
  - destruct inp; [|simpl in Hf; lia]. exists [], [], st. split_and!; auto. simpl. lia.
  - destruct (Nat.ltb_spec (length inp) 16) as [Hlt|Hge].
    + exists [], inp, st. rewrite cfb_after_nil. split_and!; auto.
    + destruct Hn as [Hn| ->]; [|simpl in Hge; lia]. destruct st as [iv n]. cbn in Hn. subst n.
      cbn [cfb_ivec].
      pose proof (block_length iv key) as Lb. pose proof (block_bytes iv key) as Bb.
      rewrite cfb_words_spec by (done || len || by apply Forall_take).
      destruct (IH (mkCfb (if enc then xor_bytes (block iv key) (take 16 inp) else take 16 inp) 0) (drop 16 inp))
        as (out & rest & st' & -> & Hm & Hl & Hn'); [len|by apply Forall_drop|by left|].
      cbn [mbind option_bind]. eexists _, rest, st'. split_and!; [done| |done|done].
      rewrite <- (take_drop 16 inp) at 1. rewrite cfb_machine_app, cfb_machine_block by len.
      rewrite cfb_tail_spec by len. cbn [fst snd].
      rewrite length_take, Nat.min_l by lia. rewrite drop_0, (take_ge (block iv key)) by lia.
      change (16 mod 16)%nat with 0%nat.
      assert (forall w, length w = 16%nat -> splice (block iv key) 0 w = w) as Hsp.
      { intros w Hw. unfold splice. rewrite drop_ge by lia. by rewrite app_nil_r. }
      rewrite Hsp by (destruct enc; len). by rewrite Hm, cfb_after_app.
Qed.

Lemma cfb128_encrypt_machine st inp : cfb_ok st -> bytes inp ->
  CRYPTO_cfb128_encrypt block inp key st enc = Some (machine st inp).
Proof.
  intros Hst Hb. unfold CRYPTO_cfb128_encrypt. pose proof (cfb_use_up_spec st inp Hst Hb) as Hu.
  destruct (cfb_use_up _ _ inp) as [[out1 st1] rest]. destruct Hu as (-> & Hok & Hb' & Hz).
  destruct (cfb_whole_blocks_spec (length rest) st1 rest)
    as (out2 & rest2 & st2 & -> & -> & Hl & Hz2); [done|done|done|].
  cbn [mbind option_bind]. rewrite cfb_after_app. destruct rest2 as [|x rest2].
  { unfold cfb_after. simpl. by rewrite app_nil_r. }
  destruct Hz2 as [Hz2|]; [|done]. destruct st2 as [iv n2]. cbn in Hz2. subst n2.
  rewrite cfb_machine_block by (cbn [length] in *; lia).
  pose proof (block_length iv key). cbn [cfb_ivec cfb_num].
  rewrite cfb_tail_spec by (cbn [length] in *; lia).
  unfold cfb_after. cbn [fst snd]. rewrite app_assoc.
  by rewrite Nat.mod_small by lia.
Qed.
End phases.

(** ** One-byte feedback: a shift register of sixteen bytes *)

Section shift_registers.
Context {AES_KEY : Type} (block : list Z -> AES_KEY -> list Z) (key : AES_KEY).
Context `{!BlockCipher block}.

Definition reg_byte (enc : bool) (iv : list Z) (x : Z) : Z * list Z :=
  let o := Z.lxor x (block iv key !!! 0%nat) in (o, drop 1 iv ++ [feedback enc o x]).

Lemma cfbr_8 enc iv x : length iv = 16%nat ->
  cfbr_encrypt_block block [x] 8 key iv enc = ([(reg_byte enc iv x).1], (reg_byte enc iv x).2).
Proof.
  intros Hl. unfold cfbr_encrypt_block, reg_byte.
  change (Z.to_nat ((8 + 7) `div` 8)) with 1%nat. change (Z.to_nat (8 `div` 8)) with 1%nat.
  cbn -[drop take]. f_equal.
  rewrite drop_app_le by lia. rewrite take_ge by (destruct enc; len). by destruct enc.
Qed.

Lemma length_reg enc iv x : length iv = 16%nat -> length (reg_byte enc iv x).2 = 16%nat.
Proof. intros. unfold reg_byte. cbn [snd]. len. Qed.

Lemma cfb8_machine enc inp iv : length iv = 16%nat ->
  CRYPTO_cfb128_8_encrypt block inp key iv enc = run (reg_byte enc) iv inp.
Proof.
  intros Hl. unfold CRYPTO_cfb128_8_encrypt.
  match goal with |- for_ 0 _ ?f _ = _ => set (body := f) end.
  assert (for_ 0 (length inp) body ([], iv) = run (reg_byte enc) iv (take (length inp) inp) /\
    length (for_ 0 (length inp) body ([], iv)).2 = 16%nat) as [-> _]; [|by rewrite take_ge].
  apply (for_inv _ (fun n s => s = run (reg_byte enc) iv (take n inp) /\ length s.2 = 16%nat));
    [lia|done|].
  intros i s Hi [-> Hs]. unfold body at 1 2. cbn [Nat.add].
  erewrite (take_S_r inp i) by (apply list_lookup_lookup_total_lt; lia).
  rewrite run_app. destruct (run (reg_byte enc) iv (take i inp)) as [out iv']. simpl in Hs.
  rewrite cfbr_8 by done. cbn [run]. split; [by destruct (reg_byte enc iv' _)|]. cbn [snd].
  by apply length_reg.
Qed.

(** ** One-bit feedback *)

(** Bits of a buffer, most significant first. *)
Definition getbit (l : list Z) (n : nat) : bool :=
  Z.testbit (l !!! (n / 8)%nat) (7 - Z.of_nat n `mod` 8).

Definition bit_byte (b : bool) : Z := if b then 0x80 else 0.

(** Shift the register left by one bit, taking in the top bit of [w]. *)
Definition shift1 (iv : list Z) (w : Z) : list Z :=
  (fun n => wrap 8 (Z.lor (Z.shiftl ((iv ++ [w]) !!! n) 1) (Z.shiftr ((iv ++ [w]) !!! (n + 1)%nat) 7)))
    <$> seq 0 16.

Definition reg_bit (enc : bool) (iv : list Z) (c : Z) : Z * list Z :=
  let o := Z.lxor c (block iv key !!! 0%nat) in (Z.land o 0x80, shift1 iv (feedback enc o c)).

Lemma cfbr_1 enc iv c :
  exists o, cfbr_encrypt_block block [c] 1 key iv enc = ([o], (reg_bit enc iv c).2) /\
    Z.land o 0x80 = (reg_bit enc iv c).1.
Proof.
  exists (Z.lxor c (block iv key !!! 0%nat)). split; [|done].
  unfold cfbr_encrypt_block, reg_bit, shift1.
  change (Z.to_nat ((1 + 7) `div` 8)) with 1%nat. change (Z.to_nat (1 `div` 8)) with 0%nat.
  change (1 `mod` 8 =? 0) with false. change (1 `mod` 8) with 1.
  change ((1 <=? 0) || (128 <? 1)) with false. cbv iota.
  change ([c] !!! 0%nat) with c. cbn [seq fmap list_fmap fst snd Nat.add take].
  by destruct enc.
Qed.

Lemma bit_byte_testbit b i : 0 <= i -> Z.testbit (bit_byte b) i = b && (i =? 7).
Proof.
  intros Hi. destruct b; simpl; [|apply Z.bits_0]. change 128 with (2 ^ 7).
  rewrite Z.pow2_bits_eqb by lia. apply Z.eqb_sym.
Qed.

Lemma land80_bit o : Z.land o 0x80 = bit_byte (Z.testbit o 7).
Proof.
  bits i Hi. rewrite Z.land_spec, bit_byte_testbit by lia. change 0x80 with (2 ^ 7).
  rewrite Z.pow2_bits_eqb, (Z.eqb_sym 7) by lia.
  destruct (Z.eqb_spec i 7) as [->|]; [done|by rewrite !andb_false_r].
Qed.

(** Only the top bit of the new byte enters the register. *)
Lemma shift1_top iv w : length iv = 16%nat -> is_byte w -> shift1 iv w = shift1 iv (Z.land w 0x80).
Proof.
  intros Hl Hw. unfold shift1. apply list_fmap_ext. intros j n Hn.
  apply lookup_seq in Hn as [-> Hn]. simpl (0 + j)%nat.
  assert (forall x, (iv ++ [x]) !!! j = iv !!! j) as Hj by (intros; apply lookup_total_app_l; lia).
  rewrite !Hj. destruct (decide (j = 15%nat)) as [->|].
  2:{ assert (forall x, (iv ++ [x]) !!! (j + 1)%nat = iv !!! (j + 1)%nat) as Hj1
        by (intros; apply lookup_total_app_l; lia). by rewrite !Hj1. }
  assert (forall x, (iv ++ [x]) !!! (15 + 1)%nat = x) as Hx
    by (intros; apply list_lookup_total_middle; lia).
  rewrite !Hx. do 2 f_equal.
  bits i Hi. rewrite_bits. change 0x80 with (2 ^ 7). rewrite Z.pow2_bits_eqb by lia.
  destruct (Z.eqb_spec 7 (i + 7)); [by rewrite andb_true_r|].
  rewrite (is_u_high 8 w) by (done || lia). done.
Qed.

Lemma length_reg_bit enc iv c : length (reg_bit enc iv c).2 = 16%nat.
Proof. unfold reg_bit, shift1. cbn [snd]. by rewrite length_fmap, length_seq. Qed.

Lemma bit_byte_byte b : is_byte (bit_byte b).
Proof. destruct b; split; simpl; lia. Qed.

Lemma reg_bit_inverse iv b : length iv = 16%nat ->
  reg_bit false iv (reg_bit true iv (bit_byte b)).1 = (bit_byte b, (reg_bit true iv (bit_byte b)).2).
Proof.
  intros Hl. unfold reg_bit. cbn [fst snd feedback].
  set (e0 := block iv key !!! 0%nat).
  assert (is_byte e0) as He by (apply lookup_total_byte, block_bytes).
  pose proof (bit_byte_byte b) as Hb.
  rewrite <- shift1_top by auto with width. f_equal.
  rewrite !land80_bit. f_equal. rewrite Z.lxor_spec, !bit_byte_testbit, !Z.lxor_spec, bit_byte_testbit by lia.
  by destruct b, (Z.testbit e0 7).
Qed.

Lemma select_bit (inp : list Z) n :
  (if Z.land (inp !!! (n / 8)%nat) (Z.shiftl 1 (7 - Z.of_nat n `mod` 8)) =? 0 then 0 else 0x80) =
  bit_byte (getbit inp n).
Proof.
  unfold getbit. set (x := inp !!! (n / 8)%nat). set (k := 7 - Z.of_nat n `mod` 8).
  assert (0 <= k) by (unfold k; ulia). rewrite Z.shiftl_1_l.
  destruct (Z.testbit x k) eqn:E.
  - destruct (Z.eqb_spec (Z.land x (2 ^ k)) 0) as [Hz|]; [exfalso|done].
    apply (f_equal (fun z => Z.testbit z k)) in Hz.
    by rewrite Z.land_spec, Z.pow2_bits_true, E, Z.bits_0 in Hz.
  - assert (Z.land x (2 ^ k) = 0) as ->; [|done]. bits i Hi.
    rewrite Z.land_spec, Z.pow2_bits_eqb, Z.bits_0 by done.
    destruct (Z.eqb_spec k i) as [<-|]; [by rewrite E|apply andb_false_r].
Qed.

(** Storing bit [n] changes that bit and no other. *)
Lemma store_bit (out : list Z) n m o : (n / 8 < length out)%nat ->
  getbit (<[(n / 8)%nat :=
    wrap 8 (Z.lor (Z.land (out !!! (n / 8)%nat) (Z.lnot (Z.shiftl 1 (7 - Z.of_nat n `mod` 8))))
                  (Z.shiftr (Z.land o 0x80) (Z.of_nat n `mod` 8)))]> out) m =
  if decide (m = n) then Z.testbit o 7 else getbit out m.
Proof.
  intros Hn. unfold getbit. destruct (decide (m / 8 = n / 8)%nat) as [E|E].
  2:{ rewrite list_lookup_total_insert_ne by congruence. by destruct (decide (m = n)) as [->|]. }
  rewrite E, list_lookup_total_insert_eq by done. rewrite land80_bit.
  set (j := Z.of_nat n `mod` 8). set (j' := Z.of_nat m `mod` 8).
  assert (0 <= j < 8 /\ 0 <= j' < 8) as [Hj Hj'] by (unfold j, j'; split; apply Z.mod_pos_bound; lia).
  assert (m = n <-> j = j') as Hmn.
  { unfold j, j'. apply (f_equal Z.of_nat) in E. rewrite !Nat2Z.inj_div in E.
    change (Z.of_nat 8) with 8 in E. ulia. }
  rewrite_bits. rewrite Z.lnot_spec, Z.shiftl_1_l, Z.pow2_bits_eqb, bit_byte_testbit by lia.
  rewrite (proj2 (Z.ltb_lt _ 8)) by lia.
  destruct (decide (m = n)) as [Hd|Hd].
  - apply Hmn in Hd as <-. rewrite Z.eqb_refl. replace (7 - j + j) with 7 by lia.
    by rewrite andb_false_r, andb_true_r.
  - assert (j <> j') by tauto.
    destruct (Z.eqb_spec (7 - j) (7 - j')), (Z.eqb_spec (7 - j' + j) 7); try lia.
    by rewrite andb_false_r, andb_true_r, orb_false_r.
Qed.

(** The input bits as the bytes fed to [cfbr_encrypt_block]. *)
Definition bit_bytes (inp : list Z) (bits : nat) : list Z :=
  (fun n => bit_byte (getbit inp n)) <$> seq 0 bits.

Lemma bit_bytes_lookup inp bits n : (n < bits)%nat ->
  bit_bytes inp bits !! n = Some (bit_byte (getbit inp n)).
Proof. intros Hn. unfold bit_bytes. by rewrite list_lookup_fmap, lookup_seq_lt. Qed.

Lemma length_bit_bytes inp bits : length (bit_bytes inp bits) = bits.
Proof. unfold bit_bytes. by rewrite length_fmap, length_seq. Qed.

Lemma bit_bytes_S inp n : bit_bytes inp (S n) = bit_bytes inp n ++ [bit_byte (getbit inp n)].
Proof. unfold bit_bytes. by rewrite seq_S, fmap_app. Qed.

Lemma cfb1_machine enc inp out iv bits : length iv = 16%nat -> (bits <= 8 * length out)%nat ->
  let '(out', iv') := CRYPTO_cfb128_1_encrypt block inp out bits key iv enc in
  let '(cs, iv'') := run (reg_bit enc) iv (bit_bytes inp bits) in
  iv' = iv'' /\ length iv' = 16%nat /\ length out' = length out /\
  forall m, getbit out' m = if (m <? bits)%nat then Z.testbit (cs !!! m) 7 else getbit out m.
Proof.
  intros Hl Hbits. unfold CRYPTO_cfb128_1_encrypt.
  match goal with |- context [for_ 0 bits ?f _] => set (body := f) end.
  apply (for_inv body (fun n '(out', iv') =>
    let '(cs, iv'') := run (reg_bit enc) iv (bit_bytes inp n) in
    iv' = iv'' /\ length iv' = 16%nat /\ length out' = length out /\
    forall m, getbit out' m = if (m <? n)%nat then Z.testbit (cs !!! m) 7 else getbit out m));
    [lia|done|].
  intros n [out' iv'] Hn IH. cbn [Nat.add]. rewrite bit_bytes_S, run_app.
  pose proof (length_run (reg_bit enc) iv (bit_bytes inp n)) as Hlen.
  rewrite length_bit_bytes in Hlen.
  destruct (run (reg_bit enc) iv (bit_bytes inp n)) as [cs iv'']. destruct IH as (-> & Hl' & Ho & IH).
  cbn [fst] in Hlen. unfold body. rewrite select_bit.
  destruct (cfbr_1 enc iv'' (bit_byte (getbit inp n))) as (o & -> & Hd).
  cbn [run]. pose proof (length_reg_bit enc iv'' (bit_byte (getbit inp n))) as Hr.
  destruct (reg_bit enc iv'' _) as [d iv3]. cbn [fst snd] in *.
  split_and!; [done|done|by rewrite length_insert|]. intros m.
  assert (n / 8 < length out')%nat by (rewrite Ho; apply Nat.Div0.div_lt_upper_bound; lia).
  change ([o] !!! 0%nat) with o. rewrite store_bit, IH by done.
  destruct (decide (m = n)) as [->|].
  - rewrite (proj2 (Nat.ltb_lt n (S n))) by lia. rewrite list_lookup_total_middle by done.
    by rewrite <- Hd, land80_bit, bit_byte_testbit, andb_true_r.
  - destruct (Nat.ltb_spec m n), (Nat.ltb_spec m (S n)); try lia; [|done].
    by rewrite lookup_total_app_l by lia.
Qed.
End shift_registers.

(** ** Properties *)

(** Decrypting what was encrypted from the same register and
    offset returns the message, and both directions end in the same state. *)
Theorem CRYPTO_cfb128_roundtrip `{CryptoInternalLaws} {AES_KEY}
  (block : list Z -> AES_KEY -> list Z) `{!BlockCipher block} (key : AES_KEY)
  (msg : list Z) (st : cfb_state) (Hst : cfb_ok st) (Hmsg : bytes msg) :
  exists ct st', CRYPTO_cfb128_encrypt block msg key st true = Some (ct, st') /\
    length ct = length msg /\ CRYPTO_cfb128_encrypt block ct key st false = Some (msg, st').
Proof.
  exists (run (cfb_byte block key true) st msg).1, (run (cfb_byte block key true) st msg).2.
  destruct (cfb_machine_ok block key true st msg Hst Hmsg) as [_ Hct].
  rewrite !cfb128_encrypt_machine by done.
  split_and!; [by destruct (run _ st msg)|apply length_run|]. f_equal.
  apply (run_inverse (fun _ => True) is_byte); [|done|done].
  intros s x _ Hx. split; [done|]. unfold cfb_byte. cbn [fst snd feedback].
  by rewrite (Z.lxor_comm _ (Z.lxor _ x)), (Z.lxor_comm _ x), lxor_cancel.
Qed.

Lemma CRYPTO_cfb128_roundtrip_witness :
  exists ct st', CRYPTO_cfb128_encrypt toy_block (replicate 40 9) 3 (mkCfb (replicate 16 1) 13) true =
    Some (ct, st') /\ length ct = 40%nat /\
    CRYPTO_cfb128_encrypt toy_block ct 3 (mkCfb (replicate 16 1) 13) false = Some (replicate 40 9, st').
Proof. apply (CRYPTO_cfb128_roundtrip toy_block 3); by_compute. Defined.

(** In both directions, processing a message in two calls at
    any split point, not only at block boundaries, equals one call. *)
Theorem CRYPTO_cfb128_stream `{CryptoInternalLaws} {AES_KEY}
  (block : list Z -> AES_KEY -> list Z) `{!BlockCipher block} (key : AES_KEY) (enc : bool)
  (m1 m2 : list Z) (st : cfb_state) (Hst : cfb_ok st) (Hm1 : bytes m1) (Hm2 : bytes m2) :
  CRYPTO_cfb128_encrypt block (m1 ++ m2) key st enc =
  ('(c1, st1) ← CRYPTO_cfb128_encrypt block m1 key st enc;
   '(c2, st2) ← CRYPTO_cfb128_encrypt block m2 key st1 enc;
   Some (c1 ++ c2, st2)).
Proof.
  rewrite (cfb128_encrypt_machine block key enc st (m1 ++ m2)) by (done || by apply Forall_app).
  rewrite (cfb128_encrypt_machine block key enc st m1) by done. cbn [mbind option_bind].
  destruct (cfb_machine_ok block key enc st m1 Hst Hm1) as [Hst1 _]. rewrite run_app.
  destruct (run (cfb_byte block key enc) st m1) as [c1 st1].
  rewrite (cfb128_encrypt_machine block key enc st1 m2) by done. cbn [mbind option_bind].
  by destruct (run _ st1 m2).
Qed.

Lemma CRYPTO_cfb128_stream_witness :
  CRYPTO_cfb128_encrypt toy_block ([1; 2; 3] ++ replicate 30 4) 5 (mkCfb (replicate 16 1) 13) false =
  ('(c1, st1) ← CRYPTO_cfb128_encrypt toy_block [1; 2; 3] 5 (mkCfb (replicate 16 1) 13) false;
   '(c2, st2) ← CRYPTO_cfb128_encrypt toy_block (replicate 30 4) 5 st1 false;
   Some (c1 ++ c2, st2)).
Proof. apply (CRYPTO_cfb128_stream toy_block 5); by_compute. Defined.

(** Eight-bit feedback shifts whole ciphertext bytes through the
    register; decryption inverts encryption and ends with the same register. *)
Theorem CRYPTO_cfb128_8_roundtrip {AES_KEY} (block : list Z -> AES_KEY -> list Z)
  `{!BlockCipher block} (key : AES_KEY) (msg iv : list Z) (Hiv : length iv = 16%nat) :
  let '(ct, iv') := CRYPTO_cfb128_8_encrypt block msg key iv true in
  length ct = length msg /\ CRYPTO_cfb128_8_encrypt block ct key iv false = (msg, iv') /\
  ((16 <= length msg)%nat -> iv' = drop (length ct - 16) ct).
Proof.
  rewrite cfb8_machine by done.
  pose proof (length_run (reg_byte block key true) iv msg) as Hlen.
  pose proof (run_inverse (fun iv => length iv = 16%nat) (fun _ => True)
    (reg_byte block key true) (reg_byte block key false) iv msg) as Hinv.
  assert (forall l s, length s = 16%nat ->
    (run (reg_byte block key true) s l).2 =
    drop (length l) (s ++ (run (reg_byte block key true) s l).1)) as Hreg.
  { clear. induction l as [|x l IH]; intros s Hs; [cbn; by rewrite app_nil_r|].
    cbn [run]. unfold reg_byte at 1 3. cbn [feedback].
    set (o := Z.lxor x _). specialize (IH (drop 1 s ++ [o]) ltac:(len)).
    destruct (run (reg_byte block key true) (drop 1 s ++ [o]) l) as [ys st]. cbn [fst snd] in *.
    rewrite IH. destruct s as [|s0 s]; [simpl in Hs; lia|]. cbn [length drop app].
    by rewrite drop_0, <- app_assoc. }
  specialize (Hreg msg iv Hiv). destruct (run (reg_byte block key true) iv msg) as [ct iv'].
  cbn [fst snd] in *. split_and!; [done| |].
  - rewrite cfb8_machine by done. apply Hinv; [|done|by apply Forall_true].
    intros s x Hs _. split; [by apply length_reg|]. unfold reg_byte. cbn [fst snd feedback].
    by rewrite lxor_cancel.
  - intros Hm. rewrite Hreg, drop_app_ge by lia. f_equal. lia.
Qed.

Lemma CRYPTO_cfb128_8_roundtrip_witness :
  let '(ct, iv') := CRYPTO_cfb128_8_encrypt toy_block (replicate 20 9) 3 (replicate 16 1) true in
  length ct = 20%nat /\ CRYPTO_cfb128_8_encrypt toy_block ct 3 (replicate 16 1) false = (replicate 20 9, iv').
Proof.
  pose proof (CRYPTO_cfb128_8_roundtrip toy_block 3 (replicate 20 9) (replicate 16 1) eq_refl) as Hx.
  destruct (CRYPTO_cfb128_8_encrypt toy_block (replicate 20 9) 3 (replicate 16 1) true).
  destruct Hx as (? & ? & _). by split.
Defined.

(** One-bit feedback on packed bits: decrypting the ciphertext
    restores every message bit, the registers agree, and the bits of the output
    buffer past the last one are left alone. *)
Theorem CRYPTO_cfb128_1_roundtrip {AES_KEY} (block : list Z -> AES_KEY -> list Z)
  `{!BlockCipher block} (key : AES_KEY) (msg buf buf' iv : list Z) (bits : nat)
  (Hiv : length iv = 16%nat) (Hbuf : (bits <= 8 * length buf)%nat) (Hbuf' : (bits <= 8 * length buf')%nat) :
  let '(ct, iv1) := CRYPTO_cfb128_1_encrypt block msg buf bits key iv true in
  let '(pt, iv2) := CRYPTO_cfb128_1_encrypt block ct buf' bits key iv false in
  iv1 = iv2 /\ (forall n, (n < bits)%nat -> getbit pt n = getbit msg n) /\
  (forall n, (bits <= n)%nat -> getbit ct n = getbit buf n /\ getbit pt n = getbit buf' n).
Proof.
  pose proof (cfb1_machine block key true msg buf iv bits Hiv Hbuf) as Henc.
  destruct (CRYPTO_cfb128_1_encrypt block msg buf bits key iv true) as [ct iv1].
  pose proof (cfb1_machine block key false ct buf' iv bits Hiv Hbuf') as Hdec.
  destruct (CRYPTO_cfb128_1_encrypt block ct buf' bits key iv false) as [pt iv2].
  pose proof (length_run (reg_bit block key true) iv (bit_bytes msg bits)) as Hlen.
  pose proof (length_bit_bytes msg bits) as Hb.
  pose proof (run_inverse (fun iv => length iv = 16%nat) (fun c => exists b, c = bit_byte b)
    (reg_bit block key true) (reg_bit block key false) iv (bit_bytes msg bits)) as Hinv.
  assert (Forall (fun c => exists b, c = bit_byte b) (run (reg_bit block key true) iv (bit_bytes msg bits)).1) as Hcs.
  { clear. revert iv. induction (bit_bytes msg bits) as [|c l IH]; intros iv; [constructor|].
    cbn [run]. unfold reg_bit at 1. specialize (IH (shift1 iv (feedback true (Z.lxor c (block iv key !!! 0%nat)) c))).
    destruct (run _ _ l) as [ys st]. cbn [fst] in *. constructor; [|done].
    rewrite land80_bit. eauto. }
  destruct (run (reg_bit block key true) iv (bit_bytes msg bits)) as [cs iv''].
  destruct Henc as (-> & _ & _ & Hct). cbn [fst snd] in *.
  assert (bit_bytes ct bits = cs) as Hcs'.
  { apply list_eq_same_length with bits; [lia|apply length_bit_bytes|].
    intros i x y Hi Hx Hy. rewrite bit_bytes_lookup in Hx by done. injection Hx as <-. rewrite Hct, (proj2 (Nat.ltb_lt i bits)) by done.
    pose proof (Forall_lookup_1 _ _ _ _ Hcs Hy) as [b ->].
    apply list_lookup_total_correct in Hy as ->. by rewrite bit_byte_testbit, andb_true_r. }
  rewrite Hcs', Hinv in Hdec; cycle 1.
  - intros s c Hs [b ->]. split; [apply length_reg_bit|by apply reg_bit_inverse].
  - done.
  - unfold bit_bytes. apply Forall_fmap, Forall_true. intros n. simpl. eauto.
  - destruct Hdec as (-> & _ & _ & Hpt). split_and!; [done| |].
    + intros n Hn. rewrite Hpt, (proj2 (Nat.ltb_lt n bits)) by done.
      rewrite (list_lookup_total_correct _ _ _ (bit_bytes_lookup msg bits n Hn)).
      by rewrite bit_byte_testbit, andb_true_r.
    + intros n Hn. rewrite Hct, Hpt, (proj2 (Nat.ltb_ge n bits)) by done. done.
Qed.

Lemma CRYPTO_cfb128_1_roundtrip_witness :
  let '(ct, _) := CRYPTO_cfb128_1_encrypt toy_block [165; 3] [255; 255] 13 3 (replicate 16 1) true in
  let '(pt, _) := CRYPTO_cfb128_1_encrypt toy_block ct [0; 0] 13 3 (replicate 16 1) false in
  getbit pt 5 = true.
Proof.
  pose proof (CRYPTO_cfb128_1_roundtrip toy_block 3 [165; 3] [255; 255] [0; 0] (replicate 16 1) 13
    eq_refl ltac:(simpl; lia) ltac:(simpl; lia)) as Hx.
  destruct (CRYPTO_cfb128_1_encrypt toy_block [165; 3] [255; 255] 13 3 (replicate 16 1) true) as [ct ?].
  destruct (CRYPTO_cfb128_1_encrypt toy_block ct [0; 0] 13 3 (replicate 16 1) false) as [pt ?].
  destruct Hx as (_ & Hx & _). rewrite Hx by lia. reflexivity.
Defined.
