(* ===== verification/Blake2.v ===== *)
(** * BLAKE2b-256 ([BoringSSL-GRPC/src/crypto/blake2/blake2.c])

    The streaming hash: a context with eight state words, a 128-bit byte
    counter in two halves and a 128-byte block buffer.  The specification
    [blake2b256_spec] hashes a whole message; the refinement theorem states
    that initialising, updating with any sequence of pieces and finalising
    computes it. *)

From S2P Require Import Prelude CryptoInternal Cfb.

#[local] Open Scope word_scope.

(** The context; [block_used] bytes of [block] are pending. *)
Record BLAKE2B_CTX := mkB2b {
  h : list Z; t_low : Z; t_high : Z; b2b_block : list Z; block_used : nat }.

Definition BLAKE2B_CBLOCK : nat := 128.
Definition BLAKE2B256_DIGEST_LENGTH : Z := 32.

Definition kIV : list Z :=
  [ 0x6a09e667f3bcc908; 0xbb67ae8584caa73b; 0x3c6ef372fe94f82b; 0xa54ff53a5f1d36f1;
    0x510e527fade682d1; 0x9b05688c2b3e6c1f; 0x1f83d9abfb41bd6b; 0x5be0cd19137e2179 ].

Definition kSigma : list nat :=
  [ 0; 1; 2; 3; 4; 5; 6; 7; 8; 9; 10; 11; 12; 13; 14; 15;
    14; 10; 4; 8; 9; 15; 13; 6; 1; 12; 0; 2; 11; 7; 5; 3;
    11; 8; 12; 0; 5; 2; 15; 13; 10; 14; 3; 6; 7; 1; 9; 4;
    7; 9; 3; 1; 13; 12; 11; 14; 2; 6; 5; 10; 4; 0; 15; 8;
    9; 0; 5; 7; 2; 4; 10; 15; 14; 1; 11; 12; 6; 8; 3; 13;
    2; 12; 6; 10; 0; 11; 8; 3; 4; 13; 7; 5; 15; 14; 1; 9;
    12; 5; 1; 15; 14; 13; 4; 10; 0; 7; 6; 3; 9; 2; 8; 11;
    13; 11; 7; 14; 12; 1; 3; 9; 5; 0; 15; 4; 8; 6; 2; 10;
    6; 15; 14; 9; 11; 3; 0; 8; 12; 2; 13; 7; 1; 4; 10; 5;
    10; 2; 8; 4; 7; 6; 1; 5; 15; 11; 9; 14; 3; 12; 13; 0 ]%nat.

(** The [block.words] view of [block.bytes], on a little-endian target. *)
Definition block_words (bs : list Z) : list Z :=
  (fun i => le_val (take 8 (drop (8 * i) bs))) <$> seq 0 16.

Section blake2.
Context `{CryptoInternal}.

Definition blake2b_mix (v : list Z) (a b c d : nat) (x y : Z) : list Z :=
  let v := <[a := (v !!! a + v !!! b) ⊞[64] x]> v in
  let v := <[d := CRYPTO_rotr_u64 (v !!! d ^^ v !!! a) 32]> v in
  let v := <[c := v !!! c ⊞[64] v !!! d]> v in
  let v := <[b := CRYPTO_rotr_u64 (v !!! b ^^ v !!! c) 24]> v in
  let v := <[a := (v !!! a + v !!! b) ⊞[64] y]> v in
  let v := <[d := CRYPTO_rotr_u64 (v !!! d ^^ v !!! a) 16]> v in
  let v := <[c := v !!! c ⊞[64] v !!! d]> v in
  <[b := CRYPTO_rotr_u64 (v !!! b ^^ v !!! c) 63]> v.

Definition blake2b_round (w : list Z) (round : nat) (v : list Z) : list Z :=
  let s := drop (16 * (round mod 10)) kSigma in
  let m (i : nat) := w !!! (s !!! i) in
  let v := blake2b_mix v 0 4 8 12 (m 0%nat) (m 1%nat) in
  let v := blake2b_mix v 1 5 9 13 (m 2%nat) (m 3%nat) in
  let v := blake2b_mix v 2 6 10 14 (m 4%nat) (m 5%nat) in
  let v := blake2b_mix v 3 7 11 15 (m 6%nat) (m 7%nat) in
  let v := blake2b_mix v 0 5 10 15 (m 8%nat) (m 9%nat) in
  let v := blake2b_mix v 1 6 11 12 (m 10%nat) (m 11%nat) in
  let v := blake2b_mix v 2 7 8 13 (m 12%nat) (m 13%nat) in
  blake2b_mix v 3 4 9 14 (m 14%nat) (m 15%nat).

Definition blake2b_transform (b2b : BLAKE2B_CTX) (w : list Z) (num_bytes : Z) (is_final_block : bool)
  : BLAKE2B_CTX :=
  let v := h b2b ++ kIV in
  let tl := t_low b2b ⊞[64] num_bytes in
  let th := if tl <? num_bytes then t_high b2b ⊞[64] 1 else t_high b2b in
  let v := <[12%nat := v !!! 12%nat ^^ tl]> v in
  let v := <[13%nat := v !!! 13%nat ^^ th]> v in
  let v := if is_final_block then <[14%nat := v !!! 14%nat ^^ (2 ^ 64 - 1)%Z]> v else v in
  let v := for_ 0 12 (blake2b_round w) v in
  let h' := for_ 0 8 (fun i h' =>
    let h' := <[i := h' !!! i ^^ v !!! i]> h' in
    <[i := h' !!! i ^^ v !!! (i + 8)%nat]> h') (h b2b) in
  mkB2b h' tl th (b2b_block b2b) (block_used b2b).
#[local] Close Scope word_scope.

Definition BLAKE2B256_Init : BLAKE2B_CTX :=
  let b2b := mkB2b (replicate 8 0) 0 0 (replicate 128 0) 0 in
  let b2b := mkB2b kIV (t_low b2b) (t_high b2b) (b2b_block b2b) (block_used b2b) in
  mkB2b (<[0%nat := Z.lxor (h b2b !!! 0%nat) (Z.lor 0x01010000 BLAKE2B256_DIGEST_LENGTH)]> (h b2b))
    (t_low b2b) (t_high b2b) (b2b_block b2b) (block_used b2b).

(** [while (len > BLAKE2B_CBLOCK)]; returns the context and the data left. *)
Fixpoint update_loop (fuel : nat) (b2b : BLAKE2B_CTX) (data : list Z)
  : option (BLAKE2B_CTX * list Z) :=
  if (BLAKE2B_CBLOCK <? length data)%nat then
    match fuel with
    | O => None
    | S fuel =>
        let b2b := blake2b_transform b2b (block_words (take BLAKE2B_CBLOCK data))
                     (Z.of_nat BLAKE2B_CBLOCK) false in
        update_loop fuel b2b (drop BLAKE2B_CBLOCK data)
    end
  else Some (b2b, data).

Definition BLAKE2B256_Update (b2b : BLAKE2B_CTX) (data : list Z) : option BLAKE2B_CTX :=
  let todo := (length (b2b_block b2b) - block_used b2b)%nat in
  let todo := if (length data <? todo)%nat then length data else todo in
  let b2b := mkB2b (h b2b) (t_low b2b) (t_high b2b)
               (splice (b2b_block b2b) (block_used b2b) (take todo data)) (block_used b2b + todo) in
  let data := drop todo data in
  match data with
  | [] => Some b2b
  | _ =>
      let b2b := blake2b_transform b2b (block_words (b2b_block b2b)) (Z.of_nat BLAKE2B_CBLOCK) false in
      '(b2b, data) ← update_loop (length data) b2b data;
      Some (mkB2b (h b2b) (t_low b2b) (t_high b2b) (splice (b2b_block b2b) 0 data) (length data))
  end.

Definition BLAKE2B256_Final (b2b : BLAKE2B_CTX) : list Z :=
  let b2b := mkB2b (h b2b) (t_low b2b) (t_high b2b)
    (splice (b2b_block b2b) (block_used b2b)
       (replicate (length (b2b_block b2b) - block_used b2b) 0)) (block_used b2b) in
  let b2b := blake2b_transform b2b (block_words (b2b_block b2b)) (Z.of_nat (block_used b2b)) true in
  take (Z.to_nat BLAKE2B256_DIGEST_LENGTH) (h b2b ≫= le_bytes 8).

Definition BLAKE2B256 (data : list Z) : option (list Z) :=
  b2b ← BLAKE2B256_Update BLAKE2B256_Init data;
  Some (BLAKE2B256_Final b2b).
End blake2.

#[global] Arguments blake2b_round : simpl never.
#[global] Arguments blake2b_transform : simpl never.

(** ** Specification: hashing a whole message

    The compression function takes the byte counter as one 128-bit number; a
    message is cut into 128-byte blocks, the last of which (1 to 128 bytes, or
    empty for the empty message) is zero-padded and compressed with the final
    flag and the total length. *)
Section specification.
Context `{CryptoInternal}.

Definition compress (hs w : list Z) (t : Z) (final : bool) : list Z :=
  let v := hs ++ kIV in
  let v := <[12%nat := Z.lxor (v !!! 12%nat) (t `mod` 2 ^ 64)]> v in
  let v := <[13%nat := Z.lxor (v !!! 13%nat) ((t `div` 2 ^ 64) `mod` 2 ^ 64)]> v in
  let v := if final then <[14%nat := Z.lxor (v !!! 14%nat) (2 ^ 64 - 1)]> v else v in
  let v := for_ 0 12 (blake2b_round w) v in
  for_ 0 8 (fun i h' =>
    let h' := <[i := Z.lxor (h' !!! i) (v !!! i)]> h' in
    <[i := Z.lxor (h' !!! i) (v !!! (i + 8)%nat)]> h') hs.

(** Absorb [k] whole blocks, [t] bytes having been absorbed before. *)
Fixpoint absorb (k : nat) (msg : list Z) (hs : list Z) (t : Z) : list Z :=
  match k with
  | O => hs
  | S k => absorb k (drop 128 msg) (compress hs (block_words (take 128 msg)) (t + 128) false) (t + 128)
  end.

(** The blocks before the last one. *)
Definition full_blocks (len : nat) : nat := ((len - 1) / 128)%nat.

Definition blake2b256_spec (msg : list Z) : list Z :=
  let k := full_blocks (length msg) in
  let hs := absorb k msg (h BLAKE2B256_Init) 0 in
  let last := drop (128 * k) msg in
  let hs := compress hs (block_words (last ++ replicate (128 - length last) 0))
              (Z.of_nat (length msg)) true in
  take 32 (hs ≫= le_bytes 8).
End specification.

Section refinement.
Context `{CryptoInternal}.

(** The two halves of the counter hold [t] modulo [2^128]. *)
Definition counter_is (b2b : BLAKE2B_CTX) (t : Z) : Prop :=
  t_low b2b = t `mod` 2 ^ 64 /\ t_high b2b = (t `div` 2 ^ 64) `mod` 2 ^ 64.

(** Adding to the low half with carry adds to the 128-bit counter. *)
Lemma counter_carry t n : 0 <= n <= 128 ->
  let tl := wrap 64 (t `mod` 2 ^ 64 + n) in
  tl = (t + n) `mod` 2 ^ 64 /\
  (if tl <? n then wrap 64 ((t `div` 2 ^ 64) `mod` 2 ^ 64 + 1) else (t `div` 2 ^ 64) `mod` 2 ^ 64) =
  ((t + n) `div` 2 ^ 64) `mod` 2 ^ 64.
Proof.
  intros Hn. cbv zeta. unfold wrap. rewrite Zplus_mod_idemp_l, Zplus_mod_idemp_l.
  split; [done|]. pose proof (Z.mod_pos_bound t (2 ^ 64)). pose proof (Z.div_mod t (2 ^ 64)).
  destruct (decide (t `mod` 2 ^ 64 + n < 2 ^ 64)).
  - assert ((t + n) `div` 2 ^ 64 = t `div` 2 ^ 64 /\ (t + n) `mod` 2 ^ 64 = t `mod` 2 ^ 64 + n)
      as [-> ->] by ulia.
    by destruct (Z.ltb_spec (t `mod` 2 ^ 64 + n) n); [lia|].
  - assert ((t + n) `div` 2 ^ 64 = t `div` 2 ^ 64 + 1 /\
            (t + n) `mod` 2 ^ 64 = t `mod` 2 ^ 64 + n - 2 ^ 64) as [-> ->] by ulia.
    by destruct (Z.ltb_spec (t `mod` 2 ^ 64 + n - 2 ^ 64) n); [|lia].
Qed.

Lemma transform_spec b2b w n final t : 0 <= n <= 128 -> counter_is b2b t ->
  let b2b' := blake2b_transform b2b w n final in
  h b2b' = compress (h b2b) w (t + n) final /\ counter_is b2b' (t + n) /\
  b2b_block b2b' = b2b_block b2b /\ block_used b2b' = block_used b2b.
Proof.
  intros Hn [Hl Hh]. unfold blake2b_transform, compress, counter_is. cbv zeta. rewrite Hl, Hh.
  destruct (counter_carry t n Hn) as [-> ->]. done.
Qed.

#[local] Opaque compress blake2b_transform.

Lemma absorb_app a b msg hs t :
  absorb (a + b) msg hs t =
  absorb b (drop (128 * a) msg) (absorb a msg hs t) (t + 128 * Z.of_nat a).
Proof.
  revert msg hs t. induction a as [|a IH]; intros msg hs t.
  - cbn [absorb Nat.add]. rewrite Nat.mul_0_r, drop_0, Z.mul_0_r, Z.add_0_r. done.
  - cbn [absorb Nat.add]. rewrite IH, drop_drop.
    replace (128 + 128 * a)%nat with (128 * S a)%nat by lia.
    by replace (t + 128 + 128 * Z.of_nat a) with (t + 128 * Z.of_nat (S a)) by lia.
Qed.

Lemma absorb_prefix k msg more hs t : (128 * k <= length msg)%nat ->
  absorb k (msg ++ more) hs t = absorb k msg hs t.
Proof.
  revert msg hs t. induction k as [|k IH]; intros msg hs t Hk; [done|].
  cbn [absorb]. rewrite take_app_le, drop_app_le by lia. apply IH. len.
Qed.

(** The loop of [BLAKE2B256_Update] absorbs all blocks but the last. *)
Lemma update_loop_spec fuel b2b data t : (length data <= fuel)%nat -> counter_is b2b t ->
  exists b2b', update_loop fuel b2b data = Some (b2b', drop (128 * full_blocks (length data)) data) /\
    h b2b' = absorb (full_blocks (length data)) data (h b2b) t /\
    counter_is b2b' (t + 128 * Z.of_nat (full_blocks (length data))) /\
    b2b_block b2b' = b2b_block b2b.
Proof.
  revert b2b data t. induction fuel as [|fuel IH]; intros b2b data t Hf Ht.
  - destruct data; [|simpl in Hf; lia]. exists b2b. cbn. by rewrite Z.add_0_r.
  - cbn [update_loop]. unfold BLAKE2B_CBLOCK. destruct (Nat.ltb_spec 128 (length data)) as [Hlt|Hge].
    + destruct (transform_spec b2b (block_words (take 128 data)) (Z.of_nat 128) false t)
        as (Hh & Hc & Hb & _); [lia|done|].
      destruct (IH _ (drop 128 data) _ ltac:(len) Hc) as (b2b' & -> & Hh' & Hc' & Hb').
      assert (full_blocks (length data) = S (full_blocks (length (drop 128 data)))) as ->.
      { unfold full_blocks. rewrite length_drop.
        replace (length data - 1)%nat with ((length data - 128 - 1) + 1 * 128)%nat by lia.
        rewrite Nat.div_add by lia. lia. }
      exists b2b'. rewrite drop_drop. split_and!.
      * do 3 f_equal. lia.
      * rewrite Hh', Hh. cbn [absorb]. change (Z.of_nat 128) with 128. reflexivity.
      * replace (t + 128 * _) with (t + Z.of_nat 128 + 128 * Z.of_nat (full_blocks (length (drop 128 data)))) by lia.
        done.
      * by rewrite Hb', Hb.
    + assert (full_blocks (length data) = 0%nat) as -> by (apply Nat.div_small; lia).
      exists b2b. rewrite Nat.mul_0_r, drop_0, Z.mul_0_r, Z.add_0_r. done.
Qed.

(** The context holds the message [msg]: all blocks but the last are absorbed
    and the last is pending in the buffer, whose other bytes are arbitrary. *)
Record holds (b2b : BLAKE2B_CTX) (msg : list Z) : Prop := {
  holds_h : h b2b = absorb (full_blocks (length msg)) msg (h BLAKE2B256_Init) 0;
  holds_t : counter_is b2b (128 * Z.of_nat (full_blocks (length msg)));
  holds_len : length (b2b_block b2b) = 128%nat;
  holds_used : block_used b2b = (length msg - 128 * full_blocks (length msg))%nat;
  holds_block : take (block_used b2b) (b2b_block b2b) = drop (128 * full_blocks (length msg)) msg;
}.

Lemma holds_init : holds BLAKE2B256_Init [].
Proof. by split. Qed.

Lemma full_blocks_bounds n : (128 * full_blocks n <= n /\ n - 128 * full_blocks n <= 128)%nat.
Proof.
  unfold full_blocks. pose proof (Nat.div_mod_eq (n - 1) 128).
  pose proof (Nat.mod_upper_bound (n - 1) 128). lia.
Qed.

Lemma full_blocks_lt n : (0 < n)%nat -> (128 * full_blocks n < n)%nat.
Proof. unfold full_blocks. pose proof (Nat.div_mod_eq (n - 1) 128). lia. Qed.

Lemma full_blocks_unique n k : (128 * k < n)%nat -> (n <= 128 * k + 128)%nat -> full_blocks n = k.
Proof. intros. symmetry. apply Nat.div_unique with (n - 1 - 128 * k)%nat; lia. Qed.

Lemma take_splice l i w : (i + length w <= length l)%nat ->
  take (i + length w) (splice l i w) = take i l ++ w.
Proof. intros. unfold splice. rewrite app_assoc, take_app_length' by len. done. Qed.

(** Appending a piece that still fits in the buffer. *)
Lemma holds_small b2b msg data : holds b2b msg ->
  (block_used b2b + length data <= 128)%nat ->
  holds (mkB2b (h b2b) (t_low b2b) (t_high b2b)
           (splice (b2b_block b2b) (block_used b2b) data) (block_used b2b + length data)) (msg ++ data).
Proof.
  intros [Hh Ht Hl Hu Hb] Hd. pose proof (full_blocks_bounds (length msg)) as Hf.
  destruct data as [|x data].
  { rewrite splice_nil, app_nil_r. cbn [length]. rewrite Nat.add_0_r. by split. }
  set (d := x :: data) in *. assert (0 < length d)%nat by (simpl; lia).
  assert (full_blocks (length (msg ++ d)) = full_blocks (length msg)) as Hfb
    by (apply full_blocks_unique; len).
  split; cbn [h t_low t_high b2b_block block_used]; rewrite ?Hfb.
  - rewrite absorb_prefix by lia. done.
  - done.
  - rewrite length_splice by lia. done.
  - len.
  - rewrite take_splice, Hb, drop_app_le by lia. done.
Qed.

(** More input after the buffer has been filled: compress it, absorb whole
    blocks, keep the last one. *)
Lemma holds_more b1 m1 rest : holds b1 m1 -> block_used b1 = 128%nat -> (0 < length rest)%nat ->
  exists b3 left, update_loop (length rest)
      (blake2b_transform b1 (block_words (b2b_block b1)) (Z.of_nat BLAKE2B_CBLOCK) false) rest =
    Some (b3, left) /\
    holds (mkB2b (h b3) (t_low b3) (t_high b3) (splice (b2b_block b3) 0 left) (length left)) (m1 ++ rest).
Proof.
  intros [Hh1 Ht1 Hl1 Hu1 Hb1] Hfull Hr. set (k := full_blocks (length m1)) in *.
  assert (length m1 = 128 * k + 128)%nat as Hlm1 by (pose proof (full_blocks_bounds (length m1)); lia).
  destruct (transform_spec b1 (block_words (b2b_block b1)) (Z.of_nat BLAKE2B_CBLOCK) false
    (128 * Z.of_nat k)) as (Hh2 & Hc2 & Hb2 & _); [unfold BLAKE2B_CBLOCK; lia|done|].
  destruct (update_loop_spec (length rest) _ rest _ ltac:(done) Hc2) as (b3 & -> & Hh3 & Hc3 & Hb3).
  eexists b3, _. split; [done|].
  set (j := full_blocks (length rest)) in *. pose proof (full_blocks_bounds (length rest)) as Hj. fold j in Hj.
  pose proof (full_blocks_lt (length rest) Hr) as Hjl. fold j in Hjl.
  assert (full_blocks (length (m1 ++ rest)) = k + 1 + j)%nat as Hfb
    by (apply full_blocks_unique; rewrite length_app, Hlm1; lia).
  assert (drop (128 * (k + 1 + j)) (m1 ++ rest) = drop (128 * j) rest) as Hdr
    by (rewrite drop_app_ge by lia; f_equal; lia).
  assert (length (drop (128 * j) rest) <= 128)%nat as Hld by len.
  split; cbn [h t_low t_high b2b_block block_used]; rewrite ?Hfb, ?Hdr.
  - rewrite Hh3, Hh2, Hh1. rewrite absorb_app. replace (128 * (k + 1))%nat with (length m1) by lia.
    rewrite drop_app_length. rewrite absorb_app, absorb_prefix by lia. cbn [absorb].
    rewrite drop_app_le, take_app_le by len. rewrite (take_ge (drop _ m1)) by len.
    rewrite Hfull, (take_ge (b2b_block b1)) in Hb1 by lia. rewrite Hb1. unfold BLAKE2B_CBLOCK.
    replace (0 + 128 * Z.of_nat (k + 1)) with (128 * Z.of_nat k + Z.of_nat 128) by lia.
    by replace (0 + 128 * Z.of_nat k + 128) with (128 * Z.of_nat k + Z.of_nat 128) by lia.
  - unfold counter_is in *. cbn [t_low t_high]. unfold BLAKE2B_CBLOCK in Hc3.
    replace (128 * Z.of_nat (k + 1 + j)) with (128 * Z.of_nat k + Z.of_nat 128 + 128 * Z.of_nat j) by lia.
    done.
  - rewrite length_splice; [by rewrite Hb3, Hb2|]. rewrite Hb3, Hb2, Hl1. lia.
  - len.
  - change (length (drop (128 * j) rest)) with (0 + length (drop (128 * j) rest))%nat.
    rewrite take_splice; [done|]. rewrite Hb3, Hb2, Hl1. lia.
Qed.

Lemma holds_update b2b msg data : holds b2b msg ->
  exists b2b', BLAKE2B256_Update b2b data = Some b2b' /\ holds b2b' (msg ++ data).
Proof.
  intros Hm. pose proof (full_blocks_bounds (length msg)) as Hf.
  pose proof (holds_len b2b msg Hm) as Hl. pose proof (holds_used b2b msg Hm) as Hu.
  unfold BLAKE2B256_Update. rewrite Hl.
  set (todo := if (length data <? 128 - block_used b2b)%nat then length data else (128 - block_used b2b)%nat).
  assert (todo = (128 - block_used b2b) `min` length data)%nat as Htodo
    by (unfold todo; destruct (Nat.ltb_spec (length data) (128 - block_used b2b)); lia).
  assert (length (take todo data) = todo) as Htk by len.
  pose proof (holds_small b2b msg (take todo data) Hm ltac:(lia)) as Hsm. rewrite Htk in Hsm.
  pose proof (take_drop todo data) as Htd. pose proof (length_drop data todo) as Hld.
  destruct (drop todo data) as [|x rest].
  - rewrite app_nil_r in Htd. rewrite Htd in *. eauto.
  - destruct (holds_more _ _ (x :: rest) Hsm) as (b3 & left & -> & H3);
      [cbn [block_used length] in *; lia|simpl; lia|].
    rewrite <- app_assoc, Htd in H3. cbn [mbind option_bind]. eauto.
Qed.

Lemma holds_final b2b msg : holds b2b msg -> BLAKE2B256_Final b2b = blake2b256_spec msg.
Proof.
  intros [Hh Ht Hl Hu Hb]. pose proof (full_blocks_bounds (length msg)) as Hf.
  unfold BLAKE2B256_Final, blake2b256_spec. set (b1 := mkB2b _ _ _ _ _).
  destruct (transform_spec b1 (block_words (b2b_block b1)) (Z.of_nat (block_used b1)) true
    (128 * Z.of_nat (full_blocks (length msg)))) as (Hh1 & _); [simpl; lia|done|].
  rewrite Hh1. change (Z.to_nat BLAKE2B256_DIGEST_LENGTH) with 32%nat. do 2 f_equal.
  unfold b1. cbn [h b2b_block block_used]. rewrite Hh. f_equal; [|lia].
  f_equal. unfold splice. rewrite Hb, length_replicate, Hl.
  rewrite (drop_ge (b2b_block b2b)), app_nil_r by lia. do 2 f_equal. rewrite length_drop. lia.
Qed.
End refinement.

(** ** Properties *)

(** Feed the pieces of a message one after the other. *)
Fixpoint update_all `{CryptoInternal} (b2b : BLAKE2B_CTX) (pieces : list (list Z)) : option BLAKE2B_CTX :=
  match pieces with
  | [] => Some b2b
  | p :: pieces => b2b ← BLAKE2B256_Update b2b p; update_all b2b pieces
  end.

(** However a message is cut into pieces, empty ones included,
    initialising, updating with each piece and finalising returns the BLAKE2b
    hash of the whole message: every update terminates, the pending block is
    compressed exactly when more input follows, the 128-bit counter carries
    between its halves, and stale bytes of the buffer never matter. *)
Theorem BLAKE2B256_streaming `{CryptoInternal} (pieces : list (list Z)) :
  option_map BLAKE2B256_Final (update_all BLAKE2B256_Init pieces) =
  Some (blake2b256_spec (concat pieces)).
Proof.
  assert (forall b2b msg, holds b2b msg ->
    exists b2b', update_all b2b pieces = Some b2b' /\ holds b2b' (msg ++ concat pieces)) as Hall.
  { induction pieces as [|p ps IH]; intros b2b msg Hm.
    - exists b2b. simpl. by rewrite app_nil_r.
    - destruct (holds_update b2b msg p Hm) as (b1 & Hup & H1). cbn [update_all]. rewrite Hup.
      cbn [mbind option_bind]. destruct (IH b1 (msg ++ p) H1) as (b2 & -> & H2).
      exists b2. split; [done|]. simpl. by rewrite app_assoc. }
  destruct (Hall _ _ holds_init) as (b2b & -> & Hb). simpl. f_equal. by apply holds_final.
Qed.

(** The one-shot function computes the specification. *)
Theorem BLAKE2B256_correct `{CryptoInternal} (data : list Z) :
  BLAKE2B256 data = Some (blake2b256_spec data).
Proof.
  unfold BLAKE2B256. destruct (holds_update _ _ data holds_init) as (b2b & -> & Hb).
  cbn [mbind option_bind]. f_equal. by apply holds_final.
Qed.

(** The hash of the three bytes [abc]. *)
Example blake2b256_abc :
  option_map be_val (BLAKE2B256 [97; 98; 99]) =
  Some 0xbddd813c634239723171ef3fee98579b94964e3bb1cb3e427262c8c068d52319.
Proof. vm_compute. reflexivity. Qed.
