(* ===== verification/LibuvBase.v ===== *)
(** * Shared vocabulary of the libuv components

    Error codes, C strings and the two standard-library and libuv string
    primitives several files call.

    Error codes are the ones of [include/uv/errno.h] on Darwin, where
    [UV__ERR(x)] is [-x] of the system's [errno] value.  A C string is the
    list of its bytes before the terminating NUL; none of them is zero. *)

From S2P Require Export Prelude.

(** ** Error codes ([include/uv/errno.h]) *)

Definition UV_E2BIG : Z := -7.
Definition UV_EBADF : Z := -9.
Definition UV_EAGAIN : Z := -35.
Definition UV_EAFNOSUPPORT : Z := -47.
Definition UV_EBUSY : Z := -16.
Definition UV_ECANCELED : Z := -89.
Definition UV_EINVAL : Z := -22.
Definition UV_ENOBUFS : Z := -55.
Definition UV_ENOMEM : Z := -12.
Definition UV_ENOSPC : Z := -28.
Definition UV_ENOTCONN : Z := -57.
Definition UV_EPIPE : Z := -32.
Definition UV_EOF : Z := -4095.

(** A fallible call yields an error code or a value. *)
Definition result (A : Type) : Type := (Z + A)%type.
Definition Fail {A} (e : Z) : result A := inl e.
Definition Ok {A} (a : A) : result A := inr a.

(** ** C strings *)

Definition cstring (s : list Z) : Prop := Forall (fun c => 0 < c < 256) s.

#[export] Instance cstring_dec s : Decision (cstring s).
Proof. unfold cstring. apply _. Defined.

(** [strchr]: the offset of the first occurrence of a character; the
    terminating NUL counts as part of the string. *)
Fixpoint strchr_from (i : Z) (s : list Z) (c : Z) : option Z :=
  match s with
  | [] => if c =? 0 then Some i else None
  | x :: s => if x =? c then Some i else strchr_from (i + 1) s c
  end.

Definition strchr (s : list Z) (c : Z) : option Z := strchr_from 0 s c.

(** ** Printing of unsigned numbers

    [print_u base n] is what [printf] prints for an [unsigned int] with
    [%u] (base 10) and [%x] (base 16). The fuel bounds the digits: thirty-two
    suffice for every 32-bit number in any base. *)

Definition digit_char (d : Z) : Z := if d <? 10 then 48 + d else 87 + d.

Fixpoint print_fuel (fuel : nat) (base n : Z) : list Z :=
  match fuel with
  | O => []
  | S fuel =>
      if n <? base then [digit_char n]
      else print_fuel fuel base (n `div` base) ++ [digit_char (n `mod` base)]
  end.

Definition print_u (base n : Z) : list Z := print_fuel 32 base n.

(** [snprintf(buf, size, ...)]: the length of the whole text, and what fits. *)
Definition snprintf (size : Z) (text : list Z) : Z * list Z :=
  (Z.of_nat (length text), take (Z.to_nat (size - 1)) text).

Lemma print_fuel_S f base n :
  print_fuel (S f) base n =
  (if n <? base then [digit_char n]
   else print_fuel f base (n `div` base) ++ [digit_char (n `mod` base)]).
Proof. done. Qed.

#[global] Arguments print_fuel : simpl never.

(** More fuel does not change the digits. *)
Lemma print_fuel_enough f g base n : 1 < base -> 0 <= n < base ^ Z.of_nat f -> (0 < f <= g)%nat ->
  print_fuel f base n = print_fuel g base n.
Proof.
  intros Hb. revert g n. induction f as [|f IH]; intros [|g] n Hn Hf; [lia..|].
  rewrite ?print_fuel_S. case_match eqn:E; [done|]. apply Z.ltb_ge in E.
  rewrite Nat2Z.inj_succ, Z.pow_succ_r in Hn by lia.
  assert (0 < f)%nat by (destruct f; [simpl in Hn; lia|lia]).
  f_equal. apply IH; [|lia]. split; [apply Z.div_pos; lia|]. apply Z.div_lt_upper_bound; lia.
Qed.

Lemma print_u_small base n : n < base -> print_u base n = [digit_char n].
Proof. intros. unfold print_u. rewrite print_fuel_S. by destruct (Z.ltb_spec n base); [|lia]. Qed.

(** Appending a digit to a printed number. *)
Lemma print_u_step base n d : 1 < base -> 0 < n -> 0 <= d < base -> n * base + d < base ^ 31 ->
  print_u base (n * base + d) = print_u base n ++ [digit_char d].
Proof.
  intros Hb Hn Hd.
  assert ((n * base + d) `div` base = n) as Hq by (rewrite Z.div_add_l, Z.div_small; lia).
  assert ((n * base + d) `mod` base = d) as Hr
    by (rewrite Z.add_comm, Z.mod_add, Z.mod_small; lia).
  assert (base <= n * base + d) as Hge by nia. assert (n <= n * base + d) as Hle by nia.
  intros Hlt. unfold print_u at 1. rewrite print_fuel_S, Hq, Hr.
  destruct (Z.ltb_spec (n * base + d) base) as [Hc|_]; [by apply Z.lt_nge in Hc|].
  unfold print_u. rewrite (print_fuel_enough 31 32); [done|done| |split; [apply Nat.lt_0_succ|by repeat constructor]].
  split; [by apply Z.lt_le_incl|by apply Z.le_lt_trans with (n * base + d)].
Qed.

(** A number of at most [k] digits prints in at most [k] characters. *)
Lemma length_print_u base n k : 1 < base -> 0 <= n < base ^ Z.of_nat k -> (0 < k <= 32)%nat ->
  (1 <= length (print_u base n) <= k)%nat.
Proof.
  intros Hb Hn Hk. unfold print_u. rewrite <- (print_fuel_enough k) by done.
  revert n Hn Hk. induction k as [|k IH]; intros n Hn Hk; [lia|].
  rewrite ?print_fuel_S. case_match eqn:E; [simpl; lia|]. apply Z.ltb_ge in E.
  rewrite Nat2Z.inj_succ, Z.pow_succ_r in Hn by lia.
  assert (0 < k)%nat by (destruct k; [simpl in Hn; lia|lia]).
  assert (0 <= n `div` base < base ^ Z.of_nat k) as Hq
    by (split; [apply Z.div_pos; lia|apply Z.div_lt_upper_bound; lia]).
  specialize (IH _ Hq ltac:(lia)). len.
Qed.

(** Every printed character is a digit of the base. *)
Lemma print_u_chars base n : 1 < base -> 0 <= n ->
  Forall (fun c => exists d, 0 <= d < base /\ c = digit_char d) (print_u base n).
Proof.
  intros Hb. unfold print_u. generalize 32%nat as f.
  intros f. revert n. induction f as [|f IH]; intros n Hn; [done|]. rewrite print_fuel_S.
  case_match eqn:E.
  - apply Z.ltb_lt in E. repeat constructor. by exists n.
  - apply Forall_app. split; [apply IH, Z.div_pos; lia|].
    repeat constructor. exists (n `mod` base). split; [apply Z.mod_pos_bound; lia|done].
Qed.

(** ** [uv__strscpy]

    The bounded copy lives in a file that is not part of the repository; its
    header documents it as copying up to [n - 1] bytes, always terminating the
    result, and returning the number of bytes copied or [UV_E2BIG] when the
    destination is too small. [strscpy d s n] returns the code and the string
    that [d] holds afterwards. *)

Class Strscpy := strscpy : list Z -> list Z -> Z -> Z * list Z.

Class StrscpyLaws `{Strscpy} := {
  strscpy_fits d s n : Z.of_nat (length s) < n -> strscpy d s n = (Z.of_nat (length s), s);
  strscpy_truncates d s n : 0 < n <= Z.of_nat (length s) ->
    strscpy d s n = (UV_E2BIG, take (Z.to_nat (n - 1)) s)
}.

(** A reference copy that satisfies the documented behaviour. *)
Definition reference_strscpy : Strscpy := fun d s n =>
  if Z.of_nat (length s) <? n then (Z.of_nat (length s), s)
  else if n =? 0 then (0, d) else (UV_E2BIG, take (Z.to_nat (n - 1)) s).

Lemma reference_strscpy_laws : @StrscpyLaws reference_strscpy.
Proof.
  split; intros; unfold strscpy, reference_strscpy.
  - by destruct (Z.ltb_spec (Z.of_nat (length s)) n); [|lia].
  - destruct (Z.ltb_spec (Z.of_nat (length s)) n); [lia|].
    by destruct (Z.eqb_spec n 0); [lia|].
Qed.
