(* ===== verification/Inet.v ===== *)
(** * Textual IP addresses ([Libuv-gRPC/src/inet.c])

    [uv_inet_ntop] prints an IPv4 or IPv6 address and [uv_inet_pton] parses
    one.  Addresses are lists of bytes in network order; strings are C strings.
    The character buffers and the byte array the code fills through moving
    pointers are lists: the text written so far stands for [tmp] up to [tp].

    The theorems show that parsing inverts printing for both families, that the
    dotted parser accepts exactly the canonical texts, that the printed IPv6
    text always fits its 46-byte buffer and compresses the longest run of zero
    words, and that a parsed address always has the size of its family. *)

From S2P Require Export LibuvBase.

(** ** Constants *)

Definition AF_INET : Z := 2.
Definition AF_INET6 : Z := 30.
Definition UV__INET_ADDRSTRLEN : Z := 16.
Definition UV__INET6_ADDRSTRLEN : Z := 46.

Abbreviation colon := 58.
Abbreviation dot := 46.
Abbreviation percent := 37.

(** The literals ["0123456789"], ["0123456789abcdef"], ["0123456789ABCDEF"]. *)
Definition digits : list Z := [48; 49; 50; 51; 52; 53; 54; 55; 56; 57].
Definition xdigits_l : list Z := digits ++ [97; 98; 99; 100; 101; 102].
Definition xdigits_u : list Z := digits ++ [65; 66; 67; 68; 69; 70].

(** ** Printing *)

Section printing.
Context `{Strscpy}.

(** The text of [snprintf] with the format ["%u.%u.%u.%u"]. *)
Definition fmt4 (src : list Z) : list Z :=
  print_u 10 (src !!! 0%nat) ++ [dot] ++ print_u 10 (src !!! 1%nat) ++ [dot] ++
  print_u 10 (src !!! 2%nat) ++ [dot] ++ print_u 10 (src !!! 3%nat).

(** [dst] is the string the destination holds; the result is the return code
    and the string it holds afterwards. *)
Definition inet_ntop4 (src dst : list Z) (size : Z) : Z * list Z :=
  let '(l, tmp) := snprintf UV__INET_ADDRSTRLEN (fmt4 src) in
  if (l <=? 0) || (size <=? l) then (UV_ENOSPC, dst)
  else let '(_, dst) := strscpy dst tmp size in (0, dst).

(** [words[i / 2] |= src[i] << ((1 - (i % 2)) << 3)] *)
Definition ntop6_words (src : list Z) : list Z :=
  for_ 0 16 (fun i (words : list Z) =>
    <[(i `div` 2)%nat :=
        Z.lor (words !!! (i `div` 2)%nat)
          (Z.shiftl (src !!! i) (Z.shiftl (1 - Z.of_nat i `mod` 2) 3))]> words)
    (replicate 8 0).

(** [struct { int base, len; }] *)
Record run_t := mk_run { base : Z; len : Z }.

Definition no_run : run_t := mk_run (-1) 0.

(** [if (best.base == -1 || cur.len > best.len) best = cur;] *)
Definition longer_run (best cur : run_t) : run_t :=
  if (best.(base) =? -1) || (best.(len) <? cur.(len)) then cur else best.

(** One iteration of the scan for zero words, on [best] and [cur]. *)
Definition scan_word (i : nat) (word : Z) (bc : run_t * run_t) : run_t * run_t :=
  let '(best, cur) := bc in
  if word =? 0 then
    if cur.(base) =? -1 then (best, mk_run (Z.of_nat i) 1)
    else (best, mk_run cur.(base) (cur.(len) + 1))
  else
    if negb (cur.(base) =? -1) then (longer_run best cur, mk_run (-1) cur.(len))
    else (best, cur).

Definition best_run (words : list Z) : run_t :=
  let '(best, cur) :=
    for_ 0 8 (fun i bc => scan_word i (words !!! i) bc) (no_run, no_run) in
  let best := if negb (cur.(base) =? -1) then longer_run best cur else best in
  if negb (best.(base) =? -1) && (best.(len) <? 2) then mk_run (-1) best.(len) else best.

(** The test "Is this address an encapsulated IPv4?". *)
Definition encapsulated_v4 (i : Z) (best : run_t) (words : list Z) : bool :=
  (i =? 6) && (best.(base) =? 0) &&
  ((best.(len) =? 6) || ((best.(len) =? 7) && negb (words !!! 7%nat =? 1)) ||
   ((best.(len) =? 5) && (words !!! 5%nat =? 65535))).

(** The formatting loop from index [i] on; [n] is the number of iterations
    left and [out] the text between [tmp] and [tp]. *)
Fixpoint ntop6_format (n : nat) (i : Z) (src words : list Z) (best : run_t) (out : list Z)
  : result (list Z) :=
  match n with
  | O => Ok out
  | S n =>
      if negb (best.(base) =? -1) && (best.(base) <=? i) && (i <? best.(base) + best.(len)) then
        let out := if i =? best.(base) then out ++ [colon] else out in
        ntop6_format n (i + 1) src words best out
      else
        let out := if negb (i =? 0) then out ++ [colon] else out in
        if encapsulated_v4 i best words then
          let '(err, text) :=
            inet_ntop4 (drop 12 src) [] (UV__INET6_ADDRSTRLEN - Z.of_nat (length out)) in
          if negb (err =? 0) then Fail err else Ok (out ++ text)
        else
          ntop6_format n (i + 1) src words best
            (out ++ print_u 16 (words !!! Z.to_nat i))
  end.

(** The text in [tmp] when [uv__strscpy] is reached. *)
Definition ntop6_text (src : list Z) : result (list Z) :=
  let words := ntop6_words src in
  let best := best_run words in
  match ntop6_format 8 0 src words best [] with
  | inl err => Fail err
  | inr out =>
      Ok (if negb (best.(base) =? -1) && (best.(base) + best.(len) =? 8)
          then out ++ [colon] else out)
  end.

Definition inet_ntop6 (src dst : list Z) (size : Z) : Z * list Z :=
  match ntop6_text src with
  | inl err => (err, dst)
  | inr tmp =>
      let '(r, dst) := strscpy dst tmp size in
      if r =? UV_E2BIG then (UV_ENOSPC, dst) else (0, dst)
  end.

Definition uv_inet_ntop (af : Z) (src dst : list Z) (size : Z) : Z * list Z :=
  if af =? AF_INET then inet_ntop4 src dst size
  else if af =? AF_INET6 then inet_ntop6 src dst size
  else (UV_EAFNOSUPPORT, dst).
End printing.

(** ** Parsing *)

(** The locals of [inet_pton4]: [tmp[0..tp-1]], [*tp], [saw_digit], [octets]. *)
Record pton4_state := mk_pton4 {
  p4_done : list Z; p4_tp : Z; saw_digit : bool; octets : Z
}.

(** The body of the [while] loop for the character [ch]. *)
Definition pton4_char (st : pton4_state) (ch : Z) : result pton4_state :=
  match strchr digits ch with
  | Some d =>
      let nw := st.(p4_tp) * 10 + d in
      if st.(saw_digit) && (st.(p4_tp) =? 0) then Fail UV_EINVAL
      else if 255 <? nw then Fail UV_EINVAL
      else if negb st.(saw_digit) then
        if 4 <? st.(octets) + 1 then Fail UV_EINVAL
        else Ok (mk_pton4 st.(p4_done) nw true (st.(octets) + 1))
      else Ok (mk_pton4 st.(p4_done) nw true st.(octets))
  | None =>
      if (ch =? dot) && st.(saw_digit) then
        if st.(octets) =? 4 then Fail UV_EINVAL
        else Ok (mk_pton4 (st.(p4_done) ++ [st.(p4_tp)]) 0 false st.(octets))
      else Fail UV_EINVAL
  end.

Fixpoint pton4_loop (src : list Z) (st : pton4_state) : result pton4_state :=
  match src with
  | [] => Ok st
  | ch :: src =>
      match pton4_char st ch with
      | inl e => Fail e
      | inr st => pton4_loop src st
      end
  end.

Definition inet_pton4 (src : list Z) : result (list Z) :=
  match pton4_loop src (mk_pton4 [] 0 false 0) with
  | inl e => Fail e
  | inr st =>
      if st.(octets) <? 4 then Fail UV_EINVAL else Ok (st.(p4_done) ++ [st.(p4_tp)])
  end.

(** The locals of [inet_pton6]. [p6_out] is [tmp] up to [tp], the rest of [tmp]
    being zero; [colonp] is an offset into [tmp]; [curtok] is the rest of the
    source from the current token on. *)
Record pton6_state := mk_pton6 {
  p6_out : list Z; colonp : option nat; curtok : list Z; seen_xdigits : Z; val : Z
}.

(** The value of a hexadecimal digit of either case. *)
Definition xdigit (ch : Z) : option Z :=
  match strchr xdigits_l ch with
  | Some d => Some d
  | None => strchr xdigits_u ch
  end.

(** [*tp++ = (val >> 8) & 0xff; *tp++ = val & 0xff;] *)
Definition put_val (out : list Z) (val : Z) : list Z :=
  out ++ [Z.land (wrap 8 (Z.shiftr val 8)) 255; Z.land (wrap 8 val) 255].

(** The parsing loop; [src] is the string from the next character on. *)
Fixpoint pton6_loop (src : list Z) (st : pton6_state) : result pton6_state :=
  match src with
  | [] => Ok st
  | ch :: src =>
      match xdigit ch with
      | Some d =>
          let val := Z.lor (wrap 32 (Z.shiftl st.(val) 4)) d in
          if 4 <? st.(seen_xdigits) + 1 then Fail UV_EINVAL
          else pton6_loop src
                 (mk_pton6 st.(p6_out) st.(colonp) st.(curtok) (st.(seen_xdigits) + 1) val)
      | None =>
          if ch =? colon then
            if st.(seen_xdigits) =? 0 then
              match st.(colonp) with
              | Some _ => Fail UV_EINVAL
              | None => pton6_loop src
                  (mk_pton6 st.(p6_out) (Some (length st.(p6_out))) src st.(seen_xdigits) st.(val))
              end
            else if bool_decide (src = []) then Fail UV_EINVAL
            else if (16 <? length st.(p6_out) + 2)%nat then Fail UV_EINVAL
            else pton6_loop src (mk_pton6 (put_val st.(p6_out) st.(val)) st.(colonp) src 0 0)
          else if (ch =? dot) && (length st.(p6_out) + 4 <=? 16)%nat then
            match inet_pton4 st.(curtok) with
            | inr a => Ok (mk_pton6 (st.(p6_out) ++ a) st.(colonp) st.(curtok) 0 st.(val))
            | inl _ => Fail UV_EINVAL
            end
          else Fail UV_EINVAL
      end
  end.

(** The shift "by hand": [endp[-i] = colonp[n - i]; colonp[n - i] = 0;]. *)
Definition shift_tail (c n : nat) (tmp : list Z) : list Z :=
  for_ 1 (1 + n) (fun i (tmp : list Z) =>
    let tmp := <[(16 - i)%nat := tmp !!! (c + (n - i))%nat]> tmp in
    <[(c + (n - i))%nat := 0]> tmp) tmp.

Definition pton6_finish (st : pton6_state) : result (list Z) :=
  match
    if negb (st.(seen_xdigits) =? 0) then
      if (16 <? length st.(p6_out) + 2)%nat then Fail UV_EINVAL
      else Ok (put_val st.(p6_out) st.(val))
    else Ok st.(p6_out)
  with
  | inl e => Fail e
  | inr out =>
      let tmp := out ++ replicate (16 - length out) 0 in
      match st.(colonp) with
      | Some c =>
          if (length out =? 16)%nat then Fail UV_EINVAL
          else Ok (shift_tail c (length out - c) tmp)
      | None => if (length out =? 16)%nat then Ok tmp else Fail UV_EINVAL
      end
  end.

Definition inet_pton6 (src : list Z) : result (list Z) :=
  match
    match src with
    | ch :: src' =>
        if ch =? colon then
          match src' with
          | ch' :: _ => if ch' =? colon then Ok src' else Fail UV_EINVAL
          | [] => Fail UV_EINVAL
          end
        else Ok src
    | [] => Ok src
    end
  with
  | inl e => Fail e
  | inr src =>
      match pton6_loop src (mk_pton6 [] None src 0 0) with
      | inl e => Fail e
      | inr st => pton6_finish st
      end
  end.

(** [None] stands for a [NULL] source or destination. *)
Definition uv_inet_pton (af : Z) (src : option (list Z)) (dst_null : bool) : result (list Z) :=
  match src with
  | None => Fail UV_EINVAL
  | Some src =>
      if dst_null then Fail UV_EINVAL
      else if af =? AF_INET then inet_pton4 src
      else if af =? AF_INET6 then
        match strchr src percent with
        | Some len =>
            if UV__INET6_ADDRSTRLEN - 1 <? len then Fail UV_EINVAL
            else inet_pton6 (take (Z.to_nat len) src)
        | None => inet_pton6 src
        end
      else Fail UV_EAFNOSUPPORT
  end.

#[local] Arguments print_u : simpl never.

#[local] Arguments ntop6_format : simpl never.

(** ** Digits *)

(** A printed number of several digits ends with its last digit. *)
Lemma print_u_unfold b n : 1 < b -> b <= n < b ^ 31 ->
  print_u b n = print_u b (n `div` b) ++ [digit_char (n `mod` b)].
Proof.
  intros Hb Hn. rewrite <- print_u_step; try done.
  - f_equal. rewrite Z.mul_comm. apply Z.div_mod. lia.
  - apply Z.div_str_pos. lia.
  - apply Z.mod_pos_bound. lia.
  - rewrite (Z.mul_comm (n `div` b)), <- Z.div_mod by lia. lia.
Qed.

Lemma xdigit_char d : 0 <= d < 16 -> xdigit (digit_char d) = Some d.
Proof.
  apply (Forall_seqZ (fun d => xdigit (digit_char d) = Some d) 0 16). by_compute.
Qed.

Lemma strchr_digit d : 0 <= d < 10 -> strchr digits (digit_char d) = Some d.
Proof.
  apply (Forall_seqZ (fun d => strchr digits (digit_char d) = Some d) 0 10). by_compute.
Qed.

Lemma strchr_digits_Some ch d : ch <> 0 -> strchr digits ch = Some d ->
  0 <= d < 10 /\ ch = digit_char d.
Proof.
  intros Hch. unfold strchr, digits. cbn [strchr_from].
  repeat (case_match; [intros [= <-]; split; [lia|]; unfold digit_char; simpl; lia|]).
  done.
Qed.

(** ** The dotted form *)

(** The text of the completed octets, each followed by its dot. *)
Definition dotted (os : list Z) : list Z := os ≫= (fun o => print_u 10 o ++ [dot]).

Lemma dotted_snoc os o : dotted (os ++ [o]) = dotted os ++ print_u 10 o ++ [dot].
Proof. unfold dotted. rewrite bind_app. simpl. by rewrite app_nil_r. Qed.

Lemma fmt4_dotted a b c d : fmt4 [a; b; c; d] = dotted [a; b; c] ++ print_u 10 d.
Proof. unfold dotted, fmt4. simpl. by rewrite <- !app_assoc. Qed.

(** What the parser has read is the text of its state. *)
Record pton4_inv (pre : list Z) (st : pton4_state) : Prop := {
  p4_bytes : bytes st.(p4_done);
  p4_byte : is_byte st.(p4_tp);
  p4_fresh : st.(saw_digit) = false -> st.(p4_tp) = 0;
  p4_count : st.(octets) = Z.of_nat (length st.(p4_done)) + (if st.(saw_digit) then 1 else 0);
  p4_bound : st.(octets) <= 4 /\ (length st.(p4_done) <= 3)%nat;
  p4_read : pre = dotted st.(p4_done) ++ (if st.(saw_digit) then print_u 10 st.(p4_tp) else [])
}.

Lemma pton4_char_inv pre st ch st' : 0 < ch -> pton4_inv pre st ->
  pton4_char st ch = Ok st' -> pton4_inv (pre ++ [ch]) st'.
Proof.
  intros Hch [Hb Hby Hf Hc Hbd Hr]. destruct st as [dn tp saw oc]; simpl in *.
  unfold pton4_char; simpl. destruct (strchr digits ch) as [d|] eqn:E.
  - apply strchr_digits_Some in E as [Hd ->]; [|lia].
    destruct saw; simpl.
    + destruct (Z.eqb_spec tp 0); [done|]. destruct (Z.ltb_spec 255 (tp * 10 + d)); [done|].
      intros [= <-]. split; simpl; try done; [unfold is_u in *; lia|].
      rewrite print_u_step, Hr, <- !app_assoc; [done|lia|unfold is_u in *; lia|lia|lia].
    + rewrite Hf in * by done. simpl. rewrite Z.mul_0_l, Z.add_0_l.
      destruct (Z.ltb_spec 255 d); [done|].
      destruct (Z.ltb_spec 4 (oc + 1)); [done|]. intros [= <-].
      split; simpl; try done; [unfold is_u; lia|lia|lia|].
      rewrite Hr, app_nil_r, print_u_small by lia. done.
  - destruct (Z.eqb_spec ch dot) as [->|]; [|done]. destruct saw; [|done]. simpl.
    destruct (Z.eqb_spec oc 4); [done|]. intros [= <-].
    split; simpl; [by apply Forall_app; auto|done|done|len|len|].
    by rewrite dotted_snoc, Hr, app_nil_r, !app_assoc.
Qed.

Lemma pton4_loop_inv s pre st st' : cstring s -> pton4_inv pre st ->
  pton4_loop s st = Ok st' -> pton4_inv (pre ++ s) st'.
Proof.
  intros Hs. revert pre st. induction Hs as [|ch s Hch _ IH]; intros pre st HI; simpl.
  - intros [= <-]. by rewrite app_nil_r.
  - destruct (pton4_char st ch) as [|st1] eqn:E; [done|]. intros Hl.
    rewrite (assoc_L app pre [ch] s : pre ++ ch :: s = _). apply (IH _ st1); [|done].
    apply pton4_char_inv with st; [lia|done..].
Qed.

Lemma pton4_loop_octet o rest dn oc : is_byte o -> 0 <= oc < 4 ->
  pton4_loop (print_u 10 o ++ rest) (mk_pton4 dn 0 false oc)
  = pton4_loop rest (mk_pton4 dn o true (oc + 1)).
Proof.
  intros Ho Hoc. revert rest. unfold is_u in Ho. change (2 ^ 8) with 256 in Ho.
  induction o as [o IH] using (well_founded_induction (Z.lt_wf 0)). intros rest.
  destruct (decide (o < 10)).
  - rewrite print_u_small by lia. simpl. unfold pton4_char.
    rewrite strchr_digit by lia. simpl. rewrite Z.mul_0_l, Z.add_0_l.
    rewrite (proj2 (Z.ltb_ge 255 o)) by lia.
    by rewrite (proj2 (Z.ltb_ge 4 (oc + 1))) by lia.
  - rewrite print_u_unfold, <- app_assoc by lia.
    assert (0 < o `div` 10 < o) by (Z.to_euclidean_division_equations; lia).
    rewrite IH by lia. simpl. unfold pton4_char. rewrite strchr_digit by (apply Z.mod_pos_bound; lia).
    simpl. rewrite (proj2 (Z.eqb_neq (o `div` 10) 0)) by lia.
    replace (o `div` 10 * 10 + o `mod` 10) with o by (Z.to_euclidean_division_equations; lia).
    by rewrite (proj2 (Z.ltb_ge 255 o)) by lia.
Qed.

Lemma pton4_loop_dot rest dn tp oc : oc < 4 ->
  pton4_loop (dot :: rest) (mk_pton4 dn tp true oc)
  = pton4_loop rest (mk_pton4 (dn ++ [tp]) 0 false oc).
Proof. intros. simpl. unfold pton4_char. simpl. by destruct (Z.eqb_spec oc 4); [lia|]. Qed.

Lemma inet_pton4_fmt4 a : bytes a -> length a = 4%nat -> inet_pton4 (fmt4 a) = Ok a.
Proof.
  intros Ha Hl. destruct a as [|a [|b [|c [|d [|]]]]]; try done.
  rewrite !Forall_cons_iff in Ha. destruct Ha as (?&?&?&?&_).
  unfold inet_pton4, fmt4. simpl lookup_total.
  do 3 (rewrite pton4_loop_octet by (done || lia); simpl app; rewrite pton4_loop_dot by lia).
  rewrite <- (app_nil_r (print_u 10 d)), pton4_loop_octet by (done || lia). done.
Qed.

Lemma inet_pton4_sound s a : cstring s -> inet_pton4 s = Ok a ->
  bytes a /\ length a = 4%nat /\ s = fmt4 a.
Proof.
  intros Hs. unfold inet_pton4.
  destruct (pton4_loop s _) as [|st] eqn:E; [done|].
  apply (pton4_loop_inv s []) in E as [Hb Hby Hf Hc Hbd Hr]; 
    [|done|split; simpl; try done; unfold is_u; lia].
  destruct (Z.ltb_spec (octets st) 4); [done|]. intros [= <-].
  destruct st as [dn tp saw oc]; simpl in *. destruct saw; [|lia].
  split; [apply Forall_app; split; [done|by repeat constructor; apply Hby]|]. split; [len|].
  destruct dn as [|a [|b [|c [|]]]]; simpl length in *; try lia.
  by rewrite Hr, <- fmt4_dotted.
Qed.

(** ** The longest run of zero words *)

(** [k] zero words from index [i] on. *)
Definition zero_run (words : list Z) (i k : nat) : Prop :=
  (i + k <= length words)%nat /\ Forall (fun w => w = 0) (take k (drop i words)).

#[export] Instance zero_run_dec words i k : Decision (zero_run words i k).
Proof. unfold zero_run. apply _. Defined.

(** [best] is the leftmost longest run of at least two zero words, if any. *)
Definition longest_run (words : list Z) (best : run_t) : Prop :=
  let others P := Forall (fun i => Forall (fun k => zero_run words i k -> P i k) (seq 0 9)) (seq 0 9) in
  if decide (best.(base) = -1) then others (fun _ k => (k < 2)%nat)
  else zero_run words (Z.to_nat best.(base)) (Z.to_nat best.(len)) /\
       0 <= best.(base) < 8 /\ 2 <= best.(len) < 9 /\
       others (fun i k => Z.of_nat k < best.(len) \/
                          Z.of_nat k = best.(len) /\ best.(base) <= Z.of_nat i).

#[export] Instance longest_run_dec words best : Decision (longest_run words best).
Proof. unfold longest_run. case_decide; apply _. Defined.

(** The scan sees only which words are zero. *)
Definition zero_pattern (words : list Z) : list Z :=
  (fun w => if w =? 0 then 0 else 1) <$> words.

Lemma scan_word_pattern i w bc : scan_word i w bc = scan_word i (if w =? 0 then 0 else 1) bc.
Proof. unfold scan_word. destruct bc. by destruct (w =? 0). Qed.

Lemma best_run_pattern words : length words = 8%nat ->
  best_run words = best_run (zero_pattern words).
Proof.
  intros Hl. unfold best_run. rewrite (for_ext _ (fun i bc => scan_word i (zero_pattern words !!! i) bc));
    [done|]. intros i bc Hi. rewrite scan_word_pattern. f_equal.
  unfold zero_pattern. by rewrite (list_lookup_total_fmap (A := Z) _ words i) by lia.
Qed.

Lemma zero_run_pattern words i k : zero_run words i k <-> zero_run (zero_pattern words) i k.
Proof.
  unfold zero_run, zero_pattern. rewrite length_fmap, <- fmap_drop, <- fmap_take, Forall_fmap.
  apply and_iff_compat_l, Forall_iff. intros w. simpl. destruct (Z.eqb_spec w 0); lia.
Qed.

Fixpoint patterns (n : nat) : list (list Z) :=
  match n with
  | O => [[]]
  | S n => patterns n ≫= (fun p => [0 :: p; 1 :: p])
  end.

Lemma zero_pattern_elem words : zero_pattern words ∈ patterns (length words).
Proof.
  induction words as [|w words IH]; [by apply list_elem_of_here|].
  simpl. apply list_elem_of_bind. exists (zero_pattern words). split; [|done].
  destruct (w =? 0); set_solver.
Qed.

Lemma longest_run_patterns : Forall (fun p => longest_run p (best_run p)) (patterns 8).
Proof. by_compute. Qed.

Lemma best_run_sound words : length words = 8%nat -> longest_run words (best_run words).
Proof.
  intros Hl. rewrite best_run_pattern by done.
  pose proof (zero_pattern_elem words) as Hp. rewrite Hl in Hp.
  apply list_elem_of_lookup in Hp as [j Hj].
  pose proof (Forall_lookup_1 _ _ _ _ longest_run_patterns Hj) as HL. revert HL.
  unfold longest_run. generalize (best_run (zero_pattern words)) as r. intros r.
  case_decide; setoid_rewrite <- (zero_run_pattern words); done.
Qed.

(** ** The words of an address *)

Fixpoint words_of (src : list Z) : list Z :=
  match src with
  | a :: b :: src => a * 256 + b :: words_of src
  | _ => []
  end.

Definition bytes_of (words : list Z) : list Z := words ≫= (fun w => [w `div` 256; w `mod` 256]).

Lemma lor_byte a b : 0 <= a -> is_byte b -> Z.lor (Z.lor 0 (Z.shiftl a 8)) (Z.shiftl b 0) = a * 256 + b.
Proof.
  intros Ha Hb. rewrite Z.lor_0_l, Z.shiftl_0_r.
  assert (Z.land (Z.shiftl a 8) b = 0) as Hz.
  { bits i Hi. rewrite Z.land_spec, Z.shiftl_spec, Z.bits_0 by lia.
    destruct (decide (i < 8)); [by rewrite Z.testbit_neg_r by lia|].
    by rewrite (is_u_high 8 b), andb_false_r by (done || lia). }
  pose proof (Z.add_lor_land (Z.shiftl a 8) b) as Hs. rewrite Hz in Hs.
  rewrite (Z.shiftl_mul_pow2 a 8) in * by lia. lia.
Qed.

(** A list of [n] known elements. *)
Ltac split_list l Hl := repeat (destruct l as [|? l]; simpl in Hl; try (exfalso; lia)); clear Hl.

Lemma ntop6_words_eq src : bytes src -> length src = 16%nat -> ntop6_words src = words_of src.
Proof.
  intros Hb Hl. split_list src Hl. rewrite !Forall_cons_iff in Hb.
  destruct_and! Hb. unfold ntop6_words, for_.
  cbv -[Z.lor Z.shiftl Z.mul Z.add is_u]. unfold is_u in *.
  change (Z.shiftl 1 3) with 8. change (Z.shiftl 0 3) with 0.
  by repeat (rewrite lor_byte; [|lia|done]; f_equal).
Qed.

Lemma words_of_u16 src : bytes src -> Forall (is_u 16) (words_of src).
Proof.
  revert src. fix IH 1. intros [|a [|b src]]; try done. simpl. rewrite !Forall_cons_iff.
  intros (Ha & Hb & Hs). split; [unfold is_u in *; lia|by apply IH].
Qed.

Lemma length_address_words src : length src = 16%nat -> length (words_of src) = 8%nat.
Proof. intros Hl. by split_list src Hl. Qed.

Lemma word_hi a b : is_byte b -> (a * 256 + b) `div` 256 = a.
Proof. unfold is_u. intros. Z.to_euclidean_division_equations; lia. Qed.

Lemma word_lo a b : is_byte b -> (a * 256 + b) `mod` 256 = b.
Proof. unfold is_u. intros. Z.to_euclidean_division_equations; lia. Qed.

Lemma bytes_of_words_of src : bytes src -> length src = 16%nat -> bytes_of (words_of src) = src.
Proof.
  intros Hb Hl. split_list src Hl. rewrite !Forall_cons_iff in Hb. destruct_and! Hb.
  unfold bytes_of. cbn [words_of mbind list_bind app]. by rewrite !word_hi, !word_lo by done.
Qed.

Lemma bytes_of_app a b : bytes_of (a ++ b) = bytes_of a ++ bytes_of b.
Proof. apply bind_app. Qed.

Lemma length_bytes_of ws : length (bytes_of ws) = (2 * length ws)%nat.
Proof. induction ws as [|w ws IH]; [done|]. simpl. unfold bytes_of in *. lia. Qed.

Lemma bytes_of_zeros k : bytes_of (replicate k 0) = replicate (2 * k) 0.
Proof.
  induction k as [|k IH]; [done|]. rewrite Nat.mul_succ_r, Nat.add_comm. simpl in *.
  unfold bytes_of in *. by rewrite IH.
Qed.

Lemma zero_run_replicate words i k : zero_run words i k ->
  words = take i words ++ replicate k 0 ++ drop (i + k) words.
Proof.
  intros [Hl Hz]. rewrite <- (take_drop i words) at 1. f_equal.
  rewrite <- (take_drop k (drop i words)) at 1. rewrite drop_drop. f_equal.
  symmetry. apply replicate_as_Forall_2; [len|].
  eapply Forall_impl; [|apply Hz]. by intros ? ->.
Qed.

(** ** The shape of the printed text *)

Definition colonize (ws : list Z) : list Z := ws ≫= (fun w => print_u 16 w ++ [colon]).

Fixpoint joined (ws : list Z) : list Z :=
  match ws with
  | [] => []
  | [w] => print_u 16 w
  | w :: ws => print_u 16 w ++ [colon] ++ joined ws
  end.

(** The words with the run of [l] words at [b] replaced by [::]. *)
Definition compressed (b l : nat) (ws : list Z) : list Z :=
  (if (b =? 0)%nat then [colon] else []) ++ colonize (take b ws) ++ [colon] ++
  joined (drop (b + l) ws).

Inductive text6 (src : list Z) : list Z -> Prop :=
| text6_plain : text6 src (joined (words_of src))
| text6_compressed b l : zero_run (words_of src) b l -> (2 <= l)%nat ->
    text6 src (compressed b l (words_of src))
| text6_compat : zero_run (words_of src) 0 6 -> text6 src ([colon; colon] ++ fmt4 (drop 12 src))
| text6_mapped : zero_run (words_of src) 0 5 -> words_of src !!! 5%nat = 65535 ->
    text6 src ([colon; colon] ++ print_u 16 65535 ++ [colon] ++ fmt4 (drop 12 src)).

Section printed.
Context `{StrscpyLaws}.

Lemma length_octet o : is_byte o -> (1 <= length (print_u 10 o) <= 3)%nat.
Proof. intros Ho. apply length_print_u; [lia|unfold is_u in Ho; simpl; lia|lia]. Qed.

Lemma length_hex w : is_u 16 w -> (1 <= length (print_u 16 w) <= 4)%nat.
Proof. intros Hw. apply length_print_u; [lia|unfold is_u in Hw; simpl; lia|lia]. Qed.

Lemma length_fmt4 a : bytes a -> length a = 4%nat -> (7 <= length (fmt4 a) <= 15)%nat.
Proof.
  intros Ha Hl. split_list a Hl. rewrite !Forall_cons_iff in Ha. destruct_and! Ha.
  unfold fmt4. simpl lookup_total. repeat rewrite length_app. simpl.
  repeat match goal with Ho : is_u 8 ?o |- _ => apply length_octet in Ho end. lia.
Qed.

Lemma inet_ntop4_ok a d size : bytes a -> length a = 4%nat -> Z.of_nat (length (fmt4 a)) < size ->
  inet_ntop4 a d size = (0, fmt4 a).
Proof.
  intros Ha Hl Hs. pose proof (length_fmt4 a Ha Hl). unfold inet_ntop4, snprintf, UV__INET_ADDRSTRLEN.
  rewrite take_ge by (simpl; lia). simpl negb.
  destruct (Z.leb_spec (Z.of_nat (length (fmt4 a))) 0); [lia|].
  destruct (Z.leb_spec size (Z.of_nat (length (fmt4 a)))); [lia|]. simpl.
  by rewrite strscpy_fits.
Qed.

Lemma encapsulated_run i best words : i <> 6 \/ best.(base) <> 0 -> encapsulated_v4 i best words = false.
Proof. unfold encapsulated_v4. intros [Hi|Hb]; [by rewrite (proj2 (Z.eqb_neq i 6))|].
  rewrite (proj2 (Z.eqb_neq _ 0)) by done. by rewrite andb_false_r. Qed.

(** Evaluate the formatting loop on a known run. *)
Ltac eval_format :=
  cbv -[inet_ntop4 fmt4 print_u drop app encapsulated_v4 length Z.of_nat Z.sub].

(** The two places where an IPv4 tail is printed. *)
Lemma format_compat src words : bytes src -> length src = 16%nat -> length words = 8%nat ->
  ntop6_format 8 0 src words (mk_run 0 6) [] = Ok ([colon; colon] ++ fmt4 (drop 12 src)).
Proof.
  intros Hb Hl Hw. split_list words Hw. eval_format. change (encapsulated_v4 6 _ _) with true.
  cbn iota.
  assert (bytes (drop 12 src)) as Ht by by apply Forall_drop.
  assert (length (drop 12 src) = 4%nat) as Htl by len.
  pose proof (length_fmt4 _ Ht Htl). rewrite inet_ntop4_ok; [done|done..|]. len.
Qed.

Lemma format_mapped src words : bytes src -> length src = 16%nat -> length words = 8%nat ->
  words !!! 5%nat = 65535 ->
  ntop6_format 8 0 src words (mk_run 0 5) []
  = Ok ([colon; colon] ++ print_u 16 65535 ++ [colon] ++ fmt4 (drop 12 src)).
Proof.
  intros Hb Hl Hw H5. split_list words Hw. simpl in H5. subst.
  eval_format. rewrite (encapsulated_run 5) by (simpl; lia).
  change (encapsulated_v4 6 _ _) with true. cbn iota.
  assert (bytes (drop 12 src)) as Ht by by apply Forall_drop.
  assert (length (drop 12 src) = 4%nat) as Htl by len.
  pose proof (length_fmt4 _ Ht Htl). rewrite inet_ntop4_ok; [|done..|].
  - by rewrite <- !app_assoc.
  - change (print_u 16 65535) with [102; 102; 102; 102]. len.
Qed.

Lemma ntop6_text_plain src : bytes src -> length src = 16%nat ->
  (best_run (words_of src)).(base) = -1 -> ntop6_text src = Ok (joined (words_of src)).
Proof.
  intros Hb Hl Hbest. unfold ntop6_text. rewrite ntop6_words_eq by done.
  pose proof (length_address_words src Hl) as Hw. destruct (best_run (words_of src)) as [b l].
  simpl in Hbest. subst b. revert Hw. generalize (words_of src) as ws. intros ws Hw.
  split_list ws Hw. eval_format. rewrite !encapsulated_run by (simpl; lia). by rewrite <- !app_assoc.
Qed.

(** The runs the scan can select. *)
Definition runs : list (nat * nat) :=
  [(0,2);(0,3);(0,4);(0,5);(0,6);(0,7);(0,8);(1,2);(1,3);(1,4);(1,5);(1,6);(1,7);
   (2,2);(2,3);(2,4);(2,5);(2,6);(3,2);(3,3);(3,4);(3,5);(4,2);(4,3);(4,4);(5,2);(5,3);(6,2)]%nat.

Lemma elem_of_runs b l : (2 <= l)%nat -> (b + l <= 8)%nat -> (b, l) ∈ runs.
Proof.
  intros Hl Hbl. assert (Forall (fun b => Forall (fun l => (2 <= l)%nat -> (b + l <= 8)%nat ->
    (b, l) ∈ runs) (seq 0 9)) (seq 0 9)) as Hall by by_compute.
  pose proof (proj1 (Forall_seq _ _ _) Hall b ltac:(lia)) as Hb.
  by apply (proj1 (Forall_seq _ _ _) Hb l ltac:(lia)).
Qed.

(** The formatting loop and the trailing colon on a compressed run. *)
Lemma format_compressed src ws b l : length ws = 8%nat -> (2 <= l)%nat -> (b + l <= 8)%nat ->
  let best := mk_run (Z.of_nat b) (Z.of_nat l) in
  ((b + l <= 6)%nat -> encapsulated_v4 6 best ws = false) ->
  exists out, ntop6_format 8 0 src ws best [] = Ok out /\
    (if Z.of_nat b + Z.of_nat l =? 8 then out ++ [colon] else out) = compressed b l ws.
Proof.
  intros Hw Hl2 Hbl best. subst best. split_list ws Hw.
  pose proof (elem_of_runs b l Hl2 Hbl) as Hin. clear Hl2 Hbl.
  remember (Z.of_nat b) as zb eqn:Hb. remember (Z.of_nat l) as zl eqn:Hl.
  unfold runs in Hin. rewrite !elem_of_cons, elem_of_nil in Hin.
  intros Henc. destruct_or! Hin; try done; injection Hin as -> ->; vm_compute in Hb, Hl; subst zb zl;
    try specialize (Henc ltac:(lia)); (eexists; split; [eval_format; rewrite ?Henc, ?encapsulated_run by (simpl; lia); reflexivity|]).
  all: cbv -[print_u app]; by rewrite ?app_nil_r, <- ?app_assoc.
Qed.

(** Every address prints, in one of four shapes. *)
Lemma ntop6_text_shape src : bytes src -> length src = 16%nat ->
  exists text, ntop6_text src = Ok text /\ text6 src text.
Proof.
  intros Hb Hl. pose proof (length_address_words src Hl) as Hw.
  pose proof (best_run_sound _ Hw) as HL. unfold longest_run in HL.
  destruct (decide ((best_run (words_of src)).(base) = -1)) as [Hn|Hn].
  { exists (joined (words_of src)). split; [by apply ntop6_text_plain|constructor]. }
  destruct HL as (Hz & Hb8 & Hl8 & _). unfold ntop6_text. rewrite ntop6_words_eq by done.
  destruct (best_run (words_of src)) as [b l]. simpl in *.
  rewrite (proj2 (Z.eqb_neq b (-1))) by done. simpl.
  pose proof Hz as [Hbl _]. rewrite Hw in Hbl.
  destruct (encapsulated_v4 6 (mk_run b l) (words_of src)) eqn:Henc.
  - unfold encapsulated_v4 in Henc. simpl in Henc. destruct (Z.eqb_spec b 0) as [->|]; [|done].
    destruct (Z.eqb_spec l 6) as [->|].
    { rewrite format_compat by done. eexists. split; [done|]. by apply text6_compat. }
    destruct (Z.eqb_spec l 7) as [->|].
    { destruct (format_compressed src (words_of src) 0 7) as (out & Hf & Ho); [done|lia..|].
      change (Z.of_nat 0) with 0 in *. change (Z.of_nat 7) with 7 in *. rewrite Hf. eexists.
      split; [done|]. rewrite Ho. apply text6_compressed; [done|lia]. }
    destruct (Z.eqb_spec l 5) as [->|]; [|done].
    destruct (Z.eqb_spec (words_of src !!! 5%nat) 65535); [|done].
    rewrite format_mapped by done. eexists. split; [done|]. by apply text6_mapped.
  - destruct (format_compressed src (words_of src) (Z.to_nat b) (Z.to_nat l)) as (out & Hf & Ho);
      rewrite ?Z2Nat.id in * by lia; [done|lia|lia|done|].
    rewrite Hf. eexists. split; [done|]. rewrite Ho. apply text6_compressed; [done|lia].
Qed.
End printed.

(** ** The IPv6 parser on printed texts *)

(** The value accumulated over a run of hexadecimal digits. *)
Definition hex_value (v : Z) (s : list Z) : Z :=
  foldl (fun v c => Z.lor (wrap 32 (Z.shiftl v 4)) (default 0 (xdigit c))) v s.

Lemma pton6_loop_hex s rest out cp ct seen v :
  Forall (fun c => is_Some (xdigit c)) s -> seen + Z.of_nat (length s) <= 4 ->
  pton6_loop (s ++ rest) (mk_pton6 out cp ct seen v)
  = pton6_loop rest (mk_pton6 out cp ct (seen + Z.of_nat (length s)) (hex_value v s)).
Proof.
  intros Hs. revert seen v. induction Hs as [|c s [d Hd] _ IH]; intros seen v Hl.
  - simpl. by rewrite Z.add_0_r.
  - cbn [app pton6_loop length]. rewrite Hd. cbn [val p6_out colonp curtok seen_xdigits].
    cbn [length] in Hl. rewrite (proj2 (Z.ltb_ge 4 _)) by lia. rewrite IH by lia.
    cbn [hex_value foldl]. rewrite Hd. by replace (seen + 1 + Z.of_nat (length s)) with
      (seen + Z.of_nat (S (length s))) by lia.
Qed.

Lemma hex_value_app v s t : hex_value v (s ++ t) = hex_value (hex_value v s) t.
Proof. apply foldl_app. Qed.

Lemma hex_shift v d : 0 <= v < 2 ^ 28 -> 0 <= d < 16 -> Z.lor (wrap 32 (Z.shiftl v 4)) d = v * 16 + d.
Proof.
  intros Hv Hd. rewrite wrap_small by (unfold is_u; rewrite Z.shiftl_mul_pow2 by lia; lia).
  assert (Z.land (Z.shiftl v 4) d = 0) as Hz.
  { bits i Hi. rewrite Z.land_spec, Z.shiftl_spec, Z.bits_0 by lia.
    destruct (decide (i < 4)); [by rewrite Z.testbit_neg_r by lia|].
    by rewrite (is_u_high 4 d), andb_false_r by (done || lia). }
  pose proof (Z.add_lor_land (Z.shiftl v 4) d) as Hs. rewrite Hz in Hs.
  rewrite (Z.shiftl_mul_pow2 v 4) in * by lia. lia.
Qed.

Lemma hex_value_print w : is_u 16 w -> hex_value 0 (print_u 16 w) = w.
Proof.
  unfold is_u. induction w as [w IH] using (well_founded_induction (Z.lt_wf 0)). intros Hw.
  destruct (decide (w < 16)).
  - rewrite print_u_small by lia. cbn [hex_value foldl]. rewrite xdigit_char by lia.
    by apply Z.lor_0_l.
  - rewrite print_u_unfold, hex_value_app by lia.
    assert (0 <= w `div` 16 < w) by (Z.to_euclidean_division_equations; lia).
    rewrite IH by lia. cbn [hex_value foldl].
    rewrite xdigit_char by (apply Z.mod_pos_bound; lia). simpl default.
    rewrite hex_shift by (Z.to_euclidean_division_equations; lia).
    Z.to_euclidean_division_equations; lia.
Qed.

Lemma print_u_xdigits b w : 1 < b <= 16 -> 0 <= w ->
  Forall (fun c => is_Some (xdigit c)) (print_u b w).
Proof.
  intros Hb Hw. eapply Forall_impl; [|apply print_u_chars; lia].
  intros c (d & Hd & ->). exists d. apply xdigit_char. lia.
Qed.

Lemma put_val_eq out w : is_u 16 w -> put_val out w = out ++ [w `div` 256; w `mod` 256].
Proof.
  unfold is_u. intros Hw. unfold put_val, wrap. do 3 f_equal; [|f_equal].
  - change 255 with (Z.ones 8). rewrite Z.land_ones, Z.shiftr_div_pow2 by lia.
    Z.to_euclidean_division_equations; lia.
  - change 255 with (Z.ones 8). rewrite Z.land_ones by lia.
    Z.to_euclidean_division_equations; lia.
Qed.

(** At the start of a token the parser is in this state. *)
Abbreviation token out cp src := (mk_pton6 out cp src 0 0).

Lemma pton6_loop_word w rest out cp : is_u 16 w -> rest <> [] -> (length out + 2 <= 16)%nat ->
  pton6_loop (print_u 16 w ++ [colon] ++ rest) (token out cp (print_u 16 w ++ [colon] ++ rest))
  = pton6_loop rest (token (out ++ bytes_of [w]) cp rest).
Proof.
  intros Hw Hr Ho. pose proof (length_hex w Hw).
  rewrite pton6_loop_hex, hex_value_print by (done || lia || (apply print_u_xdigits; unfold is_u in *; lia)).
  cbn -[Z.of_nat print_u put_val Nat.ltb]. rewrite (proj2 (Z.eqb_neq _ 0)) by lia.
  rewrite (bool_decide_eq_false_2 (rest = [])) by done.
  rewrite (proj2 (Nat.ltb_ge 16 _)) by lia. by rewrite put_val_eq.
Qed.

Lemma pton6_loop_words ws rest out cp : Forall (is_u 16) ws -> rest <> [] ->
  (length out + 2 * length ws <= 16)%nat ->
  pton6_loop (colonize ws ++ rest) (token out cp (colonize ws ++ rest))
  = pton6_loop rest (token (out ++ bytes_of ws) cp rest).
Proof.
  intros Hws Hr. revert out. induction Hws as [|w ws Hw _ IH]; intros out Ho.
  - cbn [colonize bytes_of mbind list_bind app]. by rewrite app_nil_r.
  - change (colonize (w :: ws)) with ((print_u 16 w ++ [colon]) ++ colonize ws).
    rewrite <- !app_assoc. simpl in Ho. rewrite pton6_loop_word; [|done| |lia].
    + rewrite IH by len. change (w :: ws) with ([w] ++ ws). by rewrite bytes_of_app, app_assoc.
    + intros [_ ?]%app_nil. done.
Qed.

(** What [pton6_finish] sees after the last token: the bytes and no pending digits. *)
Definition pton6_done (st : pton6_state) (out : list Z) (cp : option nat) : Prop :=
  pton6_finish st = pton6_finish (mk_pton6 out cp [] 0 0).

Lemma pton6_loop_last w out cp : is_u 16 w -> (length out + 2 <= 16)%nat ->
  exists st, pton6_loop (print_u 16 w) (token out cp (print_u 16 w)) = Ok st /\
    pton6_done st (out ++ bytes_of [w]) cp.
Proof.
  intros Hw Ho. pose proof (length_hex w Hw).
  pose proof (pton6_loop_hex (print_u 16 w) [] out cp (print_u 16 w) 0 0) as E.
  rewrite app_nil_r, hex_value_print in E by done.
  eexists. split; [apply E; [apply print_u_xdigits; unfold is_u in *; lia|lia]|]. unfold pton6_done, pton6_finish.
  cbn -[Z.of_nat print_u put_val Nat.ltb bytes_of]. rewrite (proj2 (Z.eqb_neq _ 0)) by lia.
  rewrite (proj2 (Nat.ltb_ge 16 _)) by lia. by rewrite put_val_eq.
Qed.

Lemma joined_nonempty w ws : is_u 16 w -> joined (w :: ws) <> [].
Proof.
  intros Hw He. pose proof (length_hex w Hw). apply (f_equal length) in He.
  destruct ws; simpl in He; rewrite ?length_app in He; lia.
Qed.

Lemma pton6_loop_joined ws out cp : Forall (is_u 16) ws -> (length out + 2 * length ws <= 16)%nat ->
  exists st, pton6_loop (joined ws) (token out cp (joined ws)) = Ok st /\
    pton6_done st (out ++ bytes_of ws) cp.
Proof.
  intros Hws. revert out. induction Hws as [|w ws Hw Hws IH]; intros out Ho.
  - eexists. split; [done|]. by rewrite app_nil_r.
  - destruct ws as [|w' ws]; [by apply pton6_loop_last; simpl in Ho; [|lia]|].
    change (joined (w :: w' :: ws)) with (print_u 16 w ++ [colon] ++ joined (w' :: ws)).
    cbn [length] in *. apply Forall_cons_iff in Hws as Hws'. rewrite pton6_loop_word;
      [|done|apply joined_nonempty, Hws'|lia].
    destruct (IH (out ++ bytes_of [w])) as (st & E & Hd); [len|]. exists st. split; [done|].
    change (w :: w' :: ws) with ([w] ++ w' :: ws). by rewrite bytes_of_app, app_assoc.
Qed.

Lemma pton6_loop_fmt4 a out cp : bytes a -> length a = 4%nat -> (length out + 4 <= 16)%nat ->
  exists st, pton6_loop (fmt4 a) (token out cp (fmt4 a)) = Ok st /\ pton6_done st (out ++ a) cp.
Proof.
  intros Ha Hl Ho. pose proof (inet_pton4_fmt4 a Ha Hl) as E4. revert E4. unfold fmt4 at 2.
  generalize (fmt4 a) as ct. intros ct E4. destruct a as [|o a]; [done|].
  apply Forall_cons_iff in Ha as [Hoct _]. pose proof (length_octet o Hoct) as Hlo.
  simpl lookup_total. rewrite pton6_loop_hex; [|apply print_u_xdigits; unfold is_u in *; lia|lia].
  cbn -[Z.of_nat print_u Nat.leb hex_value]. rewrite (proj2 (Nat.leb_le _ 16)) by done.
  simpl. rewrite E4. eexists. split; [done|]. done.
Qed.

Lemma pton6_loop_colon rest out src :
  pton6_loop (colon :: rest) (token out None src)
  = pton6_loop rest (token out (Some (length out)) rest).
Proof. done. Qed.

Lemma insert_middle (l1 l2 : list Z) i x y : i = length l1 ->
  <[i := y]> (l1 ++ x :: l2) = l1 ++ y :: l2.
Proof. intros ->. rewrite insert_app_r_alt, Nat.sub_diag by done. done. Qed.

(** The manual shift moves the tail to the end of the array. *)
Lemma shift_tail_eq A B z : (0 < z)%nat -> (length A + length B + z)%nat = 16%nat ->
  shift_tail (length A) (length B) (A ++ B ++ replicate z 0) = A ++ replicate z 0 ++ B.
Proof.
  intros Hz Hl.
  set (P := fun (i : nat) (tmp : list Z) => tmp =
    A ++ take (length B - (i - 1)) B ++ replicate z 0 ++ drop (length B - (i - 1)) B).
  cut (P (1 + length B)%nat (shift_tail (length A) (length B) (A ++ B ++ replicate z 0))).
  { unfold P. intros ->. replace (length B - (1 + length B - 1))%nat with 0%nat by lia. done. }
  unfold shift_tail. apply for_inv; [lia| |].
  - unfold P. rewrite Nat.sub_0_r, firstn_all, drop_all, app_nil_r. done.
  - intros i tmp Hi ->. unfold P. set (k := (length B - i)%nat).
    replace (length B - (i - 1))%nat with (S k) by lia.
    replace (length B - (1 + i - 1))%nat with k by lia.
    destruct (lookup_lt_is_Some_2 B k ltac:(lia)) as [x Hx].
    rewrite (take_S_r B k x), (drop_S B x k) by done.
    destruct z as [|z]; [lia|].
    assert (length (take k B) = k) as Hk by len.
    assert (A ++ (take k B ++ [x]) ++ replicate (S z) 0 ++ drop (S k) B
      = (A ++ take k B ++ x :: replicate z 0) ++ 0 :: drop (S k) B) as ->
      by (by rewrite replicate_S_end, <- !app_assoc).
    assert (((A ++ take k B ++ x :: replicate z 0) ++ 0 :: drop (S k) B) !!! (length A + k)%nat = x) as ->
      by (rewrite <- !app_assoc; simpl; rewrite app_assoc; apply list_lookup_total_middle; len).
    rewrite insert_middle by len.
    rewrite <- !app_assoc. simpl app. rewrite !(app_assoc A), insert_middle by len.
    by rewrite <- !app_assoc.
Qed.

Lemma finish_plain out : length out = 16%nat -> pton6_finish (mk_pton6 out None [] 0 0) = Ok out.
Proof.
  intros Hl. unfold pton6_finish. simpl. rewrite Hl, Nat.sub_diag. simpl. by rewrite app_nil_r.
Qed.

Lemma finish_compressed A B : (length A + length B < 16)%nat ->
  pton6_finish (mk_pton6 (A ++ B) (Some (length A)) [] 0 0)
  = Ok (A ++ replicate (16 - (length A + length B)) 0 ++ B).
Proof.
  intros Hl. unfold pton6_finish. simpl. rewrite length_app.
  rewrite (proj2 (Nat.eqb_neq _ 16)) by lia. rewrite <- app_assoc.
  replace (length A + length B - length A)%nat with (length B) by lia. by rewrite shift_tail_eq by lia.
Qed.

Lemma inet_pton6_start s : head s <> Some colon ->
  inet_pton6 s = match pton6_loop s (token [] None s) with inl e => Fail e | inr st => pton6_finish st end.
Proof.
  intros Hs. unfold inet_pton6. destruct s as [|c s]; [done|]. simpl in Hs.
  by rewrite (proj2 (Z.eqb_neq c colon)) by congruence.
Qed.

Lemma head_hex w s : is_u 16 w -> head (print_u 16 w ++ s) <> Some colon.
Proof.
  intros Hw. pose proof (length_hex w Hw) as Hl.
  pose proof (print_u_xdigits 16 w ltac:(lia) ltac:(unfold is_u in *; lia)) as Hx.
  destruct (print_u 16 w) as [|c l]; [simpl in Hl; lia|]. apply Forall_cons_iff in Hx as [[d Hd] _].
  simpl. intros [= ->]. done.
Qed.

Lemma inet_pton6_joined ws : Forall (is_u 16) ws -> length ws = 8%nat ->
  inet_pton6 (joined ws) = Ok (bytes_of ws).
Proof.
  intros Hw Hl. rewrite inet_pton6_start.
  - destruct (pton6_loop_joined ws [] None) as (st & -> & Hd); [done|simpl; lia|].
    rewrite Hd. apply finish_plain. by rewrite length_bytes_of, Hl.
  - destruct ws as [|w [|w' ws]]; [done..|]. apply Forall_cons_iff in Hw as [Hw _].
    by apply head_hex.
Qed.

(** A text with [::] after the words [W]. *)
Lemma inet_pton6_colons W rest A st : Forall (is_u 16) W -> (length W <= 7)%nat ->
  pton6_loop rest (token (bytes_of W) (Some (2 * length W)%nat) rest) = Ok st ->
  pton6_done st (bytes_of W ++ A) (Some (2 * length W)%nat) -> (2 * length W + length A < 16)%nat ->
  inet_pton6 ((if (length W =? 0)%nat then [colon] else []) ++ colonize W ++ [colon] ++ rest)
  = Ok (bytes_of W ++ replicate (16 - (2 * length W + length A)) 0 ++ A).
Proof.
  intros HW Hl Hloop Hd HA.
  assert (pton6_loop (colonize W ++ [colon] ++ rest) (token [] None (colonize W ++ [colon] ++ rest))
    = Ok st) as E.
  { rewrite pton6_loop_words; [|done|done|simpl; lia]. cbn [app].
    by rewrite pton6_loop_colon, length_bytes_of. }
  assert (pton6_finish st = Ok (bytes_of W ++ replicate (16 - (2 * length W + length A)) 0 ++ A)) as F.
  { rewrite Hd, <- length_bytes_of, finish_compressed; [done|]. rewrite length_bytes_of. lia. }
  destruct W as [|w W].
  - unfold inet_pton6. cbn [length Nat.eqb app colonize mbind list_bind] in *. rewrite Z.eqb_refl.
    unfold Ok at 1. by rewrite E.
  - cbn [length Nat.eqb]. rewrite app_nil_l, inet_pton6_start, E; [done|].
    apply Forall_cons_iff in HW as [Hw _].
    change (colonize (w :: W)) with ((print_u 16 w ++ [colon]) ++ colonize W).
    rewrite <- !app_assoc. by apply head_hex.
Qed.

Lemma inet_pton6_compressed ws b l : Forall (is_u 16) ws -> length ws = 8%nat ->
  zero_run ws b l -> (2 <= l)%nat -> inet_pton6 (compressed b l ws) = Ok (bytes_of ws).
Proof.
  intros Hw Hl Hz Hl2. pose proof Hz as [Hbl _]. rewrite Hl in Hbl.
  assert (length (take b ws) = b) as Hb by len.
  destruct (pton6_loop_joined (drop (b + l) ws) (bytes_of (take b ws)) (Some (2 * length (take b ws))%nat))
    as (st & E & Hd); [by apply Forall_drop|rewrite length_bytes_of; len|].
  pose proof (inet_pton6_colons (take b ws) _ _ _ ltac:(by apply Forall_take) ltac:(len) E Hd) as Hp.
  rewrite length_bytes_of, length_drop, Hb in Hp. unfold compressed. rewrite Hp by lia. f_equal.
  trans (bytes_of (take b ws ++ replicate l 0 ++ drop (b + l) ws));
    [|by rewrite <- zero_run_replicate]. rewrite !bytes_of_app, bytes_of_zeros.
  by replace (16 - (2 * b + 2 * (length ws - (b + l))))%nat with (2 * l)%nat by lia.
Qed.

Lemma zero_prefix src k : bytes src -> length src = 16%nat -> zero_run (words_of src) 0 k ->
  src = replicate (2 * k) 0 ++ drop (2 * k) src.
Proof.
  intros Hb Hl Hz. pose proof (zero_run_replicate _ _ _ Hz) as Hw. simpl in Hw.
  apply (f_equal bytes_of) in Hw. rewrite bytes_of_app, bytes_of_words_of, bytes_of_zeros in Hw by done.
  rewrite Hw at 2. rewrite drop_app_length' by len. done.
Qed.

Lemma mapped_prefix src : bytes src -> length src = 16%nat -> zero_run (words_of src) 0 5 ->
  words_of src !!! 5%nat = 65535 -> src = replicate 10 0 ++ [255; 255] ++ drop 12 src.
Proof.
  intros Hb Hl Hz H5. rewrite (zero_prefix src 5) at 1 by done. f_equal.
  split_list src Hl. rewrite !Forall_cons_iff in Hb. destruct_and! Hb. simpl in *. unfold is_u in *.
  match goal with Hw : ?a * 256 + ?b = 65535 |- _ =>
    assert (a = 255) as -> by lia; assert (b = 255) as -> by lia end. done.
Qed.

(** Parsing a printed IPv6 text yields the address it was printed from. *)
Lemma inet_pton6_text src text : bytes src -> length src = 16%nat -> text6 src text ->
  inet_pton6 text = Ok src.
Proof.
  intros Hb Hl Ht. pose proof (words_of_u16 src Hb) as Hu. pose proof (length_address_words src Hl) as Hw.
  pose proof (bytes_of_words_of src Hb Hl) as Hbw.
  assert (bytes (drop 12 src)) as Hdb by by apply Forall_drop.
  assert (length (drop 12 src) = 4%nat) as Hdl by len.
  destruct Ht as [|b l Hz Hl2|Hz|Hz H5].
  - rewrite inet_pton6_joined by done. by rewrite Hbw.
  - rewrite inet_pton6_compressed by done. by rewrite Hbw.
  - destruct (pton6_loop_fmt4 (drop 12 src) [] (Some 0%nat)) as (st & E & Hd); [done|done|simpl; lia|].
    refine (eq_trans (inet_pton6_colons [] _ _ _ ltac:(done) ltac:(simpl; lia) E Hd _) _);
      [simpl length in *; lia|].
    cbn [bytes_of mbind list_bind app length]. rewrite Hdl. f_equal.
    symmetry. by apply (zero_prefix src 6).
  - set (rest := print_u 16 65535 ++ [colon] ++ fmt4 (drop 12 src)).
    destruct (pton6_loop_fmt4 (drop 12 src) (bytes_of [65535]) (Some 0%nat)) as (st & E & Hd);
      [done|done|simpl; lia|].
    assert (pton6_loop rest (token [] (Some 0%nat) rest) = Ok st) as E'.
    { unfold rest. rewrite pton6_loop_word; [done|done| |simpl; lia].
      pose proof (length_fmt4 _ Hdb Hdl). intros Hn. rewrite Hn in *. simpl in *. lia. }
    refine (eq_trans (inet_pton6_colons [] rest (bytes_of [65535] ++ drop 12 src) st
      ltac:(done) ltac:(simpl; lia) E' Hd _) _); [rewrite length_app; simpl length in *; lia|].
    cbn [bytes_of mbind list_bind app length]. rewrite Hdl. f_equal.
    symmetry. by apply mapped_prefix.
Qed.

(** ** Characters and lengths of printed texts *)

Definition addr_char (c : Z) : Prop := is_Some (xdigit c) /\ c <> percent /\ 0 < c < 256 \/ c = colon \/ c = dot.

Lemma print_u_addr b w : 1 < b <= 16 -> 0 <= w -> Forall addr_char (print_u b w).
Proof.
  intros Hb Hw. eapply Forall_impl; [|apply print_u_chars; lia].
  intros c (d & Hd & ->). left. rewrite xdigit_char by lia. split; [done|].
  unfold digit_char. case_match; lia.
Qed.

Lemma fmt4_addr a : bytes a -> length a = 4%nat -> Forall addr_char (fmt4 a).
Proof.
  intros Ha Hl. split_list a Hl. rewrite !Forall_cons_iff in Ha. destruct_and! Ha. unfold is_u in *.
  unfold fmt4. simpl lookup_total. rewrite !Forall_app, !Forall_singleton.
  repeat split; try (by right; right); apply print_u_addr; lia.
Qed.

Lemma joined_addr ws : Forall (is_u 16) ws -> Forall addr_char (joined ws) /\ (length (joined ws) <= 5 * length ws - 1)%nat.
Proof.
  induction 1 as [|w ws Hw Hws [IH IHl]]; [done|]. pose proof (length_hex w Hw).
  assert (Forall addr_char (print_u 16 w)) by (apply print_u_addr; unfold is_u in *; lia).
  destruct ws as [|w' ws]; [simpl; split; [done|lia]|].
  change (joined (w :: w' :: ws)) with (print_u 16 w ++ [colon] ++ joined (w' :: ws)).
  rewrite !Forall_app, !length_app, Forall_singleton. cbn [length] in *.
  split; [split; [done|]; split; [right; by left|done]|lia].
Qed.

Lemma colonize_addr ws : Forall (is_u 16) ws ->
  Forall addr_char (colonize ws) /\ (length (colonize ws) <= 5 * length ws)%nat.
Proof.
  induction 1 as [|w ws Hw Hws [IH IHl]]; [done|]. pose proof (length_hex w Hw).
  change (colonize (w :: ws)) with ((print_u 16 w ++ [colon]) ++ colonize ws).
  rewrite !Forall_app, !length_app, Forall_singleton. cbn [length] in *.
  split; [|lia]. split; [split; [apply print_u_addr; unfold is_u in *; lia|right; by left]|done].
Qed.

Lemma text6_addr src text : bytes src -> length src = 16%nat -> text6 src text ->
  Forall addr_char text /\ (length text <= 45)%nat.
Proof.
  intros Hb Hl Ht. pose proof (words_of_u16 src Hb) as Hu. pose proof (length_address_words src Hl) as Hw.
  assert (addr_char colon) by (right; by left).
  assert (bytes (drop 12 src)) as Hdb by by apply Forall_drop.
  assert (length (drop 12 src) = 4%nat) as Hdl by len.
  pose proof (length_fmt4 _ Hdb Hdl). pose proof (fmt4_addr _ Hdb Hdl).
  destruct Ht as [|b l Hz Hl2|Hz|Hz H5].
  - pose proof (joined_addr _ Hu) as [? ?]. split; [done|lia].
  - pose proof (colonize_addr (take b (words_of src)) ltac:(by apply Forall_take)) as [? Hc].
    pose proof (joined_addr (drop (b + l) (words_of src)) ltac:(by apply Forall_drop)) as [? Hj].
    destruct Hz as [Hz _]. unfold compressed. rewrite !Forall_app, !length_app, Forall_singleton.
    rewrite length_take in Hc. rewrite length_drop in Hj.
    split; [by destruct (b =? 0)%nat; auto|]. destruct (b =? 0)%nat; simpl length; lia.
  - split; [by repeat apply Forall_cons|]. simpl. lia.
  - change (print_u 16 65535) with [102; 102; 102; 102] in *. split; [|simpl; lia].
    rewrite !Forall_app. split; [by repeat constructor|]. split; [|by repeat constructor].
    apply (print_u_addr 16 65535); lia.
Qed.

(** ** The IPv6 parser stays inside its array *)

Record pton6_inv (st : pton6_state) : Prop := {
  p6_bytes : bytes st.(p6_out);
  p6_length : (length st.(p6_out) <= 16)%nat;
  p6_colon : forall c, st.(colonp) = Some c -> (c <= length st.(p6_out))%nat;
  p6_curtok : cstring st.(curtok)
}.

Lemma length_put_val out v : length (put_val out v) = (length out + 2)%nat.
Proof. unfold put_val. len. Qed.

#[local] Hint Rewrite length_put_val : len.

Lemma put_val_bytes out v : bytes out -> bytes (put_val out v).
Proof.
  intros Ho. unfold put_val. apply Forall_app. split; [done|].
  rewrite !Forall_cons_iff. split_and!; [apply is_u_land_l; auto with width..|done].
Qed.

Lemma pton6_loop_inv s st st' : cstring s -> pton6_inv st -> pton6_loop s st = Ok st' -> pton6_inv st'.
Proof.
  intros Hs. revert st. induction Hs as [|ch s Hch Hs IH]; intros st HI; cbn [pton6_loop].
  { by intros [= <-]. }
  destruct HI as [Hb Hl Hc Ht]. destruct (xdigit ch) as [d|].
  { case_match; [done|]. intros Hr. apply IH in Hr; [done|]. by split. }
  destruct (Z.eqb_spec ch colon).
  - case_match.
    + destruct (colonp st) as [c|]; [done|]. intros Hr. apply IH in Hr; [done|].
      split; simpl; try done. intros c [= <-]. lia.
    + case_match; [done|]. destruct (Nat.ltb_spec 16 (length (p6_out st) + 2)); [done|].
      intros Hr. apply IH in Hr; [done|]. split; simpl; [by apply put_val_bytes|len| |done].
      intros c Hcp. apply Hc in Hcp. len.
  - case_match eqn:Hd; [|done]. apply andb_true_iff in Hd as [_ Hd%Nat.leb_le].
    destruct (inet_pton4 (curtok st)) as [|a] eqn:E; [done|].
    apply inet_pton4_sound in E as (Ha & Hal & _); [|done]. intros [= <-].
    split; simpl; [by apply Forall_app|len| |done]. intros c Hcp. apply Hc in Hcp. len.
Qed.

Lemma pton6_finish_size st a : pton6_inv st -> pton6_finish st = Ok a -> bytes a /\ length a = 16%nat.
Proof.
  intros [Hb Hl Hc _]. unfold pton6_finish.
  assert (forall out, bytes out -> (length out <= 16)%nat ->
    (forall c, colonp st = Some c -> (c <= length out)%nat) ->
    match colonp st with
    | Some c => if (length out =? 16)%nat then Fail UV_EINVAL
                else Ok (shift_tail c (length out - c) (out ++ replicate (16 - length out) 0))
    | None => if (length out =? 16)%nat then Ok (out ++ replicate (16 - length out) 0)
              else Fail UV_EINVAL
    end = Ok a -> bytes a /\ length a = 16%nat) as Hfin.
  { intros out Ho Hol Hoc. destruct (colonp st) as [c|].
    - specialize (Hoc c eq_refl). destruct (Nat.eqb_spec (length out) 16); [done|]. intros [= <-].
      pose proof (shift_tail_eq (take c out) (drop c out) (16 - length out) ltac:(lia) ltac:(len)) as Hsh.
      rewrite length_take, length_drop, Nat.min_l, (app_assoc (take c out) (drop c out)), take_drop
        in Hsh by done.
      rewrite Hsh. split; [|len]. rewrite !Forall_app.
      split; [by apply Forall_take|]. split; [apply Forall_replicate; unfold is_u; lia|by apply Forall_drop].
    - destruct (Nat.eqb_spec (length out) 16) as [E|]; [|done]. intros [= <-].
      rewrite E, Nat.sub_diag. simpl. rewrite app_nil_r. done. }
  destruct (negb _).
  - destruct (Nat.ltb_spec 16 (length (p6_out st) + 2)); [done|]. apply Hfin; [by apply put_val_bytes|len|].
    intros c Hcp. apply Hc in Hcp. len.
  - by apply Hfin.
Qed.

Lemma inet_pton6_size s a : cstring s -> inet_pton6 s = Ok a -> bytes a /\ length a = 16%nat.
Proof.
  intros Hs. unfold inet_pton6.
  assert (forall t, cstring t ->
    match pton6_loop t (token [] None t) with inl e => Fail e | inr st => pton6_finish st end = Ok a ->
    bytes a /\ length a = 16%nat) as Hmain.
  { intros t Ht. destruct (pton6_loop t _) as [|st] eqn:E; [done|]. apply pton6_finish_size.
    eapply pton6_loop_inv; [..|done]; [done|]. split; simpl; [done|lia|done|done]. }
  unfold Ok at 1 2 3. destruct s as [|c s]; [by apply (Hmain [])|].
  destruct (c =? colon); [|by apply (Hmain (c :: s))].
  apply Forall_cons_iff in Hs as [_ Hs]. destruct s as [|c' s]; [done|].
  destruct (c' =? colon); [by apply (Hmain (c' :: s))|done].
Qed.

(** ** The zone suffix *)

Lemma strchr_from_None i s c : c <> 0 -> Forall (fun x => x <> c) s -> strchr_from i s c = None.
Proof.
  intros Hc Hs. revert i. induction Hs as [|x s Hx _ IH]; intros i; simpl.
  - by rewrite (proj2 (Z.eqb_neq c 0)).
  - by rewrite (proj2 (Z.eqb_neq x c)).
Qed.

Lemma strchr_from_app i s t c : Forall (fun x => x <> c) s ->
  strchr_from i (s ++ c :: t) c = Some (i + Z.of_nat (length s)).
Proof.
  intros Hs. revert i. induction Hs as [|x s Hx _ IH]; intros i; simpl.
  - by rewrite Z.eqb_refl, Z.add_0_r.
  - rewrite (proj2 (Z.eqb_neq x c)), IH by done. f_equal. lia.
Qed.

Lemma addr_char_percent s : Forall addr_char s -> Forall (fun x => x <> percent) s.
Proof. apply Forall_impl. intros c [(? & ? & ?)|[->| ->]]; done. Qed.

(** Without a zone the text is parsed as it is; a zone of any content is
    dropped when the address before it fits the 46-byte buffer. *)
Lemma uv_inet_pton_zone s zone : Forall addr_char s -> (length s <= 45)%nat ->
  uv_inet_pton AF_INET6 (Some s) false = inet_pton6 s /\
  uv_inet_pton AF_INET6 (Some (s ++ percent :: zone)) false = inet_pton6 s.
Proof.
  intros Hs Hl. apply addr_char_percent in Hs. unfold uv_inet_pton, strchr. simpl Z.eqb. cbn match.
  rewrite strchr_from_None, strchr_from_app by done. split; [done|].
  rewrite (proj2 (Z.ltb_ge _ _)) by (unfold UV__INET6_ADDRSTRLEN; lia).
  by rewrite Z.add_0_l, Nat2Z.id, take_app_length.
Qed.

(** ** Theorems *)

Section theorems.
Context `{StrscpyLaws}.

(** C39 (roundtrip): every IPv6 address prints successfully into a buffer of 46
    bytes or more, the text has at most 45 characters, and [uv_inet_pton] reads
    the address back from it, with or without a zone suffix. *)
Theorem uv_inet_v6_roundtrip (a dst zone : list Z) (size : Z) :
  bytes a -> length a = 16%nat -> 46 <= size ->
  exists s, uv_inet_ntop AF_INET6 a dst size = (0, s) /\ (length s <= 45)%nat /\
    uv_inet_pton AF_INET6 (Some s) false = Ok a /\
    uv_inet_pton AF_INET6 (Some (s ++ percent :: zone)) false = Ok a.
Proof.
  intros Ha Hl Hs. destruct (ntop6_text_shape a Ha Hl) as (text & E & Ht).
  destruct (text6_addr a text Ha Hl Ht) as [Hc Hlen]. exists text.
  destruct (uv_inet_pton_zone text zone Hc Hlen) as [-> ->].
  rewrite (inet_pton6_text a text) by done. split_and!; try done.
  unfold uv_inet_ntop, inet_ntop6. rewrite E. simpl. rewrite strscpy_fits by lia.
  by rewrite (proj2 (Z.eqb_neq _ UV_E2BIG)) by (unfold UV_E2BIG; lia).
Qed.
End theorems.

Lemma uv_inet_v6_roundtrip_witness :
  let a := [32; 1; 13; 184; 0; 0; 0; 0; 0; 0; 0; 0; 0; 0; 0; 1] in
  exists s, @uv_inet_ntop reference_strscpy AF_INET6 a [] 46 = (0, s) /\ (length s <= 45)%nat /\
    uv_inet_pton AF_INET6 (Some s) false = Ok a /\
    uv_inet_pton AF_INET6 (Some (s ++ percent :: [101; 110; 48])) false = Ok a.
Proof.
  apply (@uv_inet_v6_roundtrip reference_strscpy reference_strscpy_laws); [by_compute|done|lia].
Defined.

(** The dotted-quad parser accepts exactly the canonical texts
    of four octets, the ones the printer emits: no leading zeros, no missing or
    extra octets, nothing above 255. *)
Theorem uv_inet_pton_v4_exact (s a : list Z) : cstring s ->
  uv_inet_pton AF_INET (Some s) false = Ok a <-> bytes a /\ length a = 4%nat /\ s = fmt4 a.
Proof.
  intros Hs. change (uv_inet_pton AF_INET (Some s) false) with (inet_pton4 s). split.
  - by apply inet_pton4_sound.
  - intros (Ha & Hl & ->). by apply inet_pton4_fmt4.
Qed.

Lemma uv_inet_pton_v4_exact_witness :
  uv_inet_pton AF_INET (Some (fmt4 [127; 0; 0; 1])) false = Ok [127; 0; 0; 1] <->
  bytes [127; 0; 0; 1] /\ length [127; 0; 0; 1] = 4%nat /\ fmt4 [127; 0; 0; 1] = fmt4 [127; 0; 0; 1].
Proof. apply uv_inet_pton_v4_exact. by_compute. Defined.

Section sizes.
Context `{StrscpyLaws}.

(** For either family the printer succeeds exactly when the text
    and its terminator fit the caller's buffer, and otherwise reports
    [UV_ENOSPC]; it never fails for another reason, and any other family is
    [UV_EAFNOSUPPORT]. *)
Theorem uv_inet_ntop_size (af : Z) (a dst : list Z) (size : Z) :
  bytes a -> 0 < size ->
  (af = AF_INET /\ length a = 4%nat \/ af = AF_INET6 /\ length a = 16%nat ->
    exists text, Forall addr_char text /\ (length text <= 45)%nat /\
      (Z.of_nat (length text) < size -> uv_inet_ntop af a dst size = (0, text)) /\
      (size <= Z.of_nat (length text) -> (uv_inet_ntop af a dst size).1 = UV_ENOSPC)) /\
  (af <> AF_INET -> af <> AF_INET6 -> uv_inet_ntop af a dst size = (UV_EAFNOSUPPORT, dst)).
Proof.
  intros Ha Hsz. split.
  - intros [[-> Hl]|[-> Hl]].
    + exists (fmt4 a). pose proof (length_fmt4 a Ha Hl). split_and!; [by apply fmt4_addr|lia| |].
      * intros Hfit. by apply inet_ntop4_ok.
      * intros Hbig. unfold uv_inet_ntop, inet_ntop4, snprintf. simpl Z.eqb. cbn match.
        rewrite (proj2 (Z.leb_le size _)) by done. by rewrite orb_true_r.
    + destruct (ntop6_text_shape a Ha Hl) as (text & E & Ht).
      destruct (text6_addr a text Ha Hl Ht) as [Hc Hlen]. exists text.
      unfold uv_inet_ntop, inet_ntop6. rewrite E. simpl. split_and!; try done; intros Hs.
      * rewrite strscpy_fits by done.
        by rewrite (proj2 (Z.eqb_neq _ UV_E2BIG)) by (unfold UV_E2BIG; lia).
      * by rewrite strscpy_truncates by done.
  - intros H4 H6. unfold uv_inet_ntop. by rewrite (proj2 (Z.eqb_neq _ _) H4), (proj2 (Z.eqb_neq _ _) H6).
Qed.
End sizes.

Lemma uv_inet_ntop_size_witness :
  exists text, Forall addr_char text /\ (length text <= 45)%nat /\
    (Z.of_nat (length text) < 9 ->
     @uv_inet_ntop reference_strscpy AF_INET [127; 0; 0; 1] [] 9 = (0, text)) /\
    (9 <= Z.of_nat (length text) ->
     (@uv_inet_ntop reference_strscpy AF_INET [127; 0; 0; 1] [] 9).1 = UV_ENOSPC).
Proof.
  apply (@uv_inet_ntop_size reference_strscpy reference_strscpy_laws AF_INET [127; 0; 0; 1] [] 9);
    [by_compute|lia|by left].
Defined.

(** Whatever text it is given, the parser writes an address of its
    family's size or fails; it never runs past the sixteen bytes of its array. *)
Theorem uv_inet_pton_size (af : Z) (s a : list Z) : cstring s ->
  uv_inet_pton af (Some s) false = Ok a ->
  bytes a /\ (af = AF_INET /\ length a = 4%nat \/ af = AF_INET6 /\ length a = 16%nat).
Proof.
  intros Hs. unfold uv_inet_pton. destruct (Z.eqb_spec af AF_INET).
  { intros E. apply inet_pton4_sound in E as (? & ? & _); [|done]. by split; [|left]. }
  destruct (Z.eqb_spec af AF_INET6); [|done].
  assert (forall t, cstring t -> inet_pton6 t = Ok a ->
    bytes a /\ (af = AF_INET /\ length a = 4%nat \/ af = AF_INET6 /\ length a = 16%nat)) as Hmain.
  { intros t Ht E. apply inet_pton6_size in E as [? ?]; [|done]. by split; [|right]. }
  destruct (strchr s percent) as [l|]; [|by apply Hmain]. destruct (_ <? l); [done|].
  apply Hmain. by apply Forall_take.
Qed.

Lemma uv_inet_pton_size_witness :
  bytes (replicate 15 0 ++ [1]) /\
  (AF_INET6 = AF_INET /\ length (replicate 15 0 ++ [1]) = 4%nat \/
   AF_INET6 = AF_INET6 /\ length (replicate 15 0 ++ [1]) = 16%nat).
Proof. apply (uv_inet_pton_size AF_INET6 [58; 58; 49]); [by_compute|reflexivity]. Defined.

(** The run the printer compresses is the leftmost among the
    longest runs of at least two zero words, and none is compressed only when
    there is no such run. *)
Theorem best_run_longest (words : list Z) : length words = 8%nat ->
  match best_run words with
  | mk_run b l =>
      (b = -1 /\ forall i k, zero_run words i k -> (k < 2)%nat) \/
      (exists b' l' : nat, b = Z.of_nat b' /\ l = Z.of_nat l' /\ (2 <= l')%nat /\ zero_run words b' l' /\
        forall i k, zero_run words i k -> (k < l')%nat \/ k = l' /\ (b' <= i)%nat)
  end.
Proof.
  intros Hl. pose proof (best_run_sound words Hl) as HL. unfold longest_run in HL.
  destruct (best_run words) as [b l]. simpl in HL.
  assert (forall P i k, Forall (fun i => Forall (fun k => zero_run words i k -> P i k) (seq 0 9)) (seq 0 9) ->
    zero_run words i k -> P i k) as Hall.
  { intros P i k HF Hz. pose proof Hz as [Hik _]. rewrite Hl in Hik.
    pose proof (proj1 (Forall_seq _ _ _) HF i ltac:(lia)) as Hi.
    by apply (proj1 (Forall_seq _ _ _) Hi k ltac:(lia)). }
  case_decide as Hb.
  - left. split; [done|]. intros i k. apply (Hall (fun _ k => (k < 2)%nat)). done.
  - right. destruct HL as (Hz & Hb8 & Hl8 & HF). exists (Z.to_nat b), (Z.to_nat l).
    split_and!; [lia|lia|lia|done|]. intros i k Hik. apply (Hall _ _ _ HF) in Hik. lia.
Qed.

Lemma best_run_longest_witness :
  match best_run [8193; 0; 0; 1; 0; 0; 0; 1] with
  | mk_run b l =>
      (b = -1 /\ forall i k, zero_run [8193; 0; 0; 1; 0; 0; 0; 1] i k -> (k < 2)%nat) \/
      (exists b' l' : nat, b = Z.of_nat b' /\ l = Z.of_nat l' /\ (2 <= l')%nat /\
        zero_run [8193; 0; 0; 1; 0; 0; 0; 1] b' l' /\
        forall i k, zero_run [8193; 0; 0; 1; 0; 0; 0; 1] i k -> (k < l')%nat \/ k = l' /\ (b' <= i)%nat)
  end.
Proof. apply best_run_longest. reflexivity. Defined.

(** The clause of the encapsulation test for runs of seven words never applies:
    with such a run index 6 lies inside it, and [::2] is printed in hexadecimal. *)
Example seven_word_run_not_v4 :
  @ntop6_text reference_strscpy (replicate 15 0 ++ [2]) = Ok [colon; colon; 50].
Proof. reflexivity. Qed.
