(* ===== verification/ThreadPool.v ===== *)
(** * The worker thread pool ([Libuv-gRPC/src/threadpool.c])

    A fixed set of worker threads serves one global queue [wq]; slow I/O
    requests wait in a queue of their own, represented in [wq] by a single
    message, so that at most half of the workers run slow requests.  Finished
    and cancelled requests go to the completion queue of their event loop,
    which [uv__work_done] drains on the loop's thread.

    Every section of code that runs under a mutex is one atomic step; a
    thread's position between two sections is a [thread] value and an
    [event] names the thread that moves next.  [exec] is the partial function
    that performs an event, so a list of events is a schedule and every
    interleaving of the sections is one of them.  [uv_cond_wait] may wake
    spuriously and [uv_cond_signal] wakes at least one waiter, of the
    scheduler's choice.

    A node of the intrusive queues is in at most one queue: removing it takes
    it out of whichever queue holds it.  [QUEUE_EMPTY(&w->wq)] on a request
    tells whether its links were last set by [QUEUE_INIT]; it is kept as the
    field [w_empty].  A request is identified by a fresh number at each
    submission. *)

From stdpp Require Import gmap.
From S2P Require Export LibuvBase.

(** ** Data *)

(** Elements of [wq]: the two static messages and the requests. *)
Inductive node := exit_message | run_slow_work_message | Work (w : nat).

#[export] Instance node_eq_dec : EqDecision node.
Proof. solve_decision. Defined.

(** [enum uv__work_kind] ([uv-common.h]). *)
Inductive work_kind := UV__WORK_CPU | UV__WORK_FAST_IO | UV__WORK_SLOW_IO.

(** The values of [w->work]: the submitted function, [NULL], [uv__cancelled]. *)
Inductive work_fn := Submitted | Null | uv__cancelled.

#[export] Instance work_fn_eq_dec : EqDecision work_fn.
Proof. solve_decision. Defined.

(** [struct uv__work]. [w_queue_done] says that [done] is [uv__queue_done]
    (the request is a [uv_work_t]), [w_after] that it has an [after_work_cb]. *)
Record uv__work := mk_work {
  w_work : work_fn; w_loop : nat; w_empty : bool; w_queue_done : bool; w_after : bool
}.

(** Where a worker thread stands: at the top of its loop, about to take the
    mutex; blocked in [uv_cond_wait]; signalled, about to retake the mutex;
    executing a request; about to retake the mutex after it; gone. *)
Inductive thread :=
| Top | Waiting | Woken | Run (w : nat) (is_slow : bool) | Relock (is_slow : bool) | Exited.

#[export] Instance thread_eq_dec : EqDecision thread.
Proof. solve_decision. Defined.

(** The part of [uv_loop_t] the pool uses, with the locals of the loop thread:
    the queue [wq] of [uv__work_done] and the request inside [uv__work_cancel]. *)
Record loop_t := mk_loop {
  lp_wq : list nat; lp_local : list nat; lp_cancelling : option nat; lp_active_reqs : Z
}.

(** The static variables of the file, the threads, the loops, the requests, and
    two histories: the calls [w->work(w)] with the function called, and the
    [done] calls with their status. *)
Record pool := mk_pool {
  wq : list node;
  slow_io_pending_wq : list nat;
  slow_io_work_running : Z;
  idle_threads : Z;
  nthreads : Z;
  threads : list thread;
  loops : list loop_t;
  works : gmap nat uv__work;
  executed : list (nat * work_fn);
  done_calls : list (nat * Z)
}.

(** Field updates. *)
Definition set_wq q s := mk_pool q s.(slow_io_pending_wq) s.(slow_io_work_running)
  s.(idle_threads) s.(nthreads) s.(threads) s.(loops) s.(works) s.(executed) s.(done_calls).
Definition set_pending q s := mk_pool s.(wq) q s.(slow_io_work_running)
  s.(idle_threads) s.(nthreads) s.(threads) s.(loops) s.(works) s.(executed) s.(done_calls).
Definition set_running n s := mk_pool s.(wq) s.(slow_io_pending_wq) n
  s.(idle_threads) s.(nthreads) s.(threads) s.(loops) s.(works) s.(executed) s.(done_calls).
Definition set_idle n s := mk_pool s.(wq) s.(slow_io_pending_wq) s.(slow_io_work_running)
  n s.(nthreads) s.(threads) s.(loops) s.(works) s.(executed) s.(done_calls).
Definition set_threads ts s := mk_pool s.(wq) s.(slow_io_pending_wq) s.(slow_io_work_running)
  s.(idle_threads) s.(nthreads) ts s.(loops) s.(works) s.(executed) s.(done_calls).
Definition set_loops ls s := mk_pool s.(wq) s.(slow_io_pending_wq) s.(slow_io_work_running)
  s.(idle_threads) s.(nthreads) s.(threads) ls s.(works) s.(executed) s.(done_calls).
Definition set_works ws s := mk_pool s.(wq) s.(slow_io_pending_wq) s.(slow_io_work_running)
  s.(idle_threads) s.(nthreads) s.(threads) s.(loops) ws s.(executed) s.(done_calls).
Definition set_executed l s := mk_pool s.(wq) s.(slow_io_pending_wq) s.(slow_io_work_running)
  s.(idle_threads) s.(nthreads) s.(threads) s.(loops) s.(works) l s.(done_calls).
Definition set_done l s := mk_pool s.(wq) s.(slow_io_pending_wq) s.(slow_io_work_running)
  s.(idle_threads) s.(nthreads) s.(threads) s.(loops) s.(works) s.(executed) l.

Definition set_thread (t : nat) (th : thread) (s : pool) : pool :=
  set_threads (<[t := th]> s.(threads)) s.
Definition upd_work (w : nat) (f : uv__work -> uv__work) (s : pool) : pool :=
  set_works (alter f w s.(works)) s.
Definition upd_loop (l : nat) (f : loop_t -> loop_t) (s : pool) : pool :=
  set_loops (alter f l s.(loops)) s.

(** Writes to a request and to a loop. *)
Definition with_empty (b : bool) (w : uv__work) : uv__work :=
  mk_work w.(w_work) w.(w_loop) b w.(w_queue_done) w.(w_after).
Definition with_fn (f : work_fn) (w : uv__work) : uv__work :=
  mk_work f w.(w_loop) w.(w_empty) w.(w_queue_done) w.(w_after).
Definition with_lp_wq (q : list nat) (l : loop_t) : loop_t :=
  mk_loop q l.(lp_local) l.(lp_cancelling) l.(lp_active_reqs).
Definition with_lp_local (q : list nat) (l : loop_t) : loop_t :=
  mk_loop l.(lp_wq) q l.(lp_cancelling) l.(lp_active_reqs).
Definition with_lp_cancelling (q : option nat) (l : loop_t) : loop_t :=
  mk_loop l.(lp_wq) l.(lp_local) q l.(lp_active_reqs).
Definition with_lp_reqs (n : Z) (l : loop_t) : loop_t :=
  mk_loop l.(lp_wq) l.(lp_local) l.(lp_cancelling) n.

(** ** Operations *)

Definition MAX_THREADPOOL_SIZE : Z := 1024.
Definition default_threads : Z := 4.

Definition slow_work_thread_threshold (s : pool) : Z := (s.(nthreads) + 1) `div` 2.

(** The condition of the inner [while] loop of [worker]. *)
Definition must_wait (s : pool) : bool :=
  bool_decide (s.(wq) = []) ||
  (bool_decide (s.(wq) = [run_slow_work_message]) &&
   (slow_work_thread_threshold s <=? s.(slow_io_work_running))).

(** [uv_cond_signal]: one of the waiting threads is woken, [pick] if it waits. *)
Definition first_waiting (ts : list thread) : option nat :=
  fst <$> list_find (fun th => th = Waiting) ts.

Definition uv_cond_signal (pick : nat) (s : pool) : pool :=
  if bool_decide (s.(threads) !! pick = Some Waiting) then set_thread pick Woken s
  else match first_waiting s.(threads) with
       | Some t => set_thread t Woken s
       | None => s
       end.

(** [if (idle_threads > 0) uv_cond_signal(&cond);] *)
Definition signal_if_idle (pick : nat) (s : pool) : pool :=
  if 0 <? s.(idle_threads) then uv_cond_signal pick s else s.

(** The body of [worker] from the top of the [for] loop, with the mutex held,
    to the point that releases it: blocking, leaving, or starting a request.
    Each [continue] uses one unit of fuel. *)
Fixpoint worker_section (fuel : nat) (pick t : nat) (s : pool) : option pool :=
  match fuel with
  | O => None
  | S fuel =>
      if must_wait s then Some (set_idle (s.(idle_threads) + 1) (set_thread t Waiting s))
      else match s.(wq) with
      | [] => None
      | exit_message :: _ => Some (uv_cond_signal pick (set_thread t Exited s))
      | run_slow_work_message :: q =>
          let s := set_wq q s in
          if slow_work_thread_threshold s <=? s.(slow_io_work_running) then
            worker_section fuel pick t (set_wq (q ++ [run_slow_work_message]) s)
          else match s.(slow_io_pending_wq) with
          | [] => worker_section fuel pick t s
          | w :: pending =>
              let s := set_running (s.(slow_io_work_running) + 1) s in
              let s := upd_work w (with_empty true) (set_pending pending s) in
              let s := if bool_decide (pending = []) then s
                       else signal_if_idle pick (set_wq (s.(wq) ++ [run_slow_work_message]) s) in
              Some (set_thread t (Run w true) s)
          end
      | Work w :: q =>
          Some (set_thread t (Run w false) (upd_work w (with_empty true) (set_wq q s)))
      end
  end.

(** [w->work(w)] and the section under the loop's mutex that follows it. *)
Definition worker_finish (t w : nat) (is_slow : bool) (s : pool) : option pool :=
  match s.(works) !! w with
  | None => None
  | Some r =>
      let s := set_executed (s.(executed) ++ [(w, r.(w_work))]) s in
      let s := upd_work w (fun r => with_empty false (with_fn Null r)) s in
      let s := upd_loop r.(w_loop) (fun l => with_lp_wq (l.(lp_wq) ++ [w]) l) s in
      Some (set_thread t (Relock is_slow) s)
  end.

(** Retaking the mutex after a request. *)
Definition worker_relock (t : nat) (is_slow : bool) (s : pool) : pool :=
  let s := if is_slow then set_running (s.(slow_io_work_running) - 1) s else s in
  set_thread t Top s.

(** [post]: [q] is a request or the exit message. *)
Definition post (pick : nat) (q : node) (kind : work_kind) (s : pool) : pool :=
  match kind, q with
  | UV__WORK_SLOW_IO, Work w =>
      let s := set_pending (s.(slow_io_pending_wq) ++ [w]) s in
      if bool_decide (run_slow_work_message ∈ s.(wq)) then s
      else signal_if_idle pick (set_wq (s.(wq) ++ [run_slow_work_message]) s)
  | _, q => signal_if_idle pick (set_wq (s.(wq) ++ [q]) s)
  end.

Definition uv__work_submit (pick l w : nat) (kind : work_kind) (queue_done after : bool) (s : pool)
  : pool :=
  let s := set_works (<[w := mk_work Submitted l false queue_done after]> s.(works)) s in
  post pick (Work w) kind s.

Definition uv_queue_work (pick l w : nat) (work_cb_null after : bool) (s : pool) : Z * pool :=
  if work_cb_null then (UV_EINVAL, s)
  else
    let s := upd_loop l (fun lp => with_lp_reqs (lp.(lp_active_reqs) + 1) lp) s in
    (0, uv__work_submit pick l w UV__WORK_CPU true after s).

(** [QUEUE_REMOVE(&w->wq)]: out of whichever queue holds the node. *)
Definition queue_remove (w : nat) (s : pool) : pool :=
  let s := set_wq (filter (fun n => n <> Work w) s.(wq)) s in
  let s := set_pending (filter (fun x => x <> w) s.(slow_io_pending_wq)) s in
  set_loops ((fun lp => with_lp_local (filter (fun x => x <> w) lp.(lp_local))
    (with_lp_wq (filter (fun x => x <> w) lp.(lp_wq)) lp)) <$> s.(loops)) s.

(** The two sections of [uv__work_cancel]. *)
Definition cancel_try (l w : nat) (s : pool) : bool * pool :=
  match s.(works) !! w with
  | None => (false, s)
  | Some r =>
      if negb r.(w_empty) && bool_decide (r.(w_work) <> Null)
      then (true, upd_loop l (with_lp_cancelling (Some w)) (queue_remove w s))
      else (false, s)
  end.

Definition cancel_finish (l w : nat) (s : pool) : pool :=
  let s := upd_work w (with_fn uv__cancelled) s in
  upd_loop l (fun lp => with_lp_wq (lp.(lp_wq) ++ [w]) (with_lp_cancelling None lp)) s.

Definition uv__work_cancel (l w : nat) (s : pool) : Z * pool :=
  let '(cancelled, s) := cancel_try l w s in
  if cancelled then (0, cancel_finish l w s) else (UV_EBUSY, s).

(** [uv_cancel]: [loop] and [wreq] come from the request's own structure. *)
Inductive req_type := UV_FS | UV_GETADDRINFO | UV_GETNAMEINFO | UV_RANDOM | UV_WORK | UV_OTHER_REQ.

Definition uv_cancel (ty : req_type) (l w : nat) (s : pool) : Z * pool :=
  match ty with
  | UV_FS | UV_GETADDRINFO | UV_GETNAMEINFO | UV_RANDOM | UV_WORK => uv__work_cancel l w s
  | UV_OTHER_REQ => (UV_EINVAL, s)
  end.

(** [uv__work_done]: the queue is moved to a local one, then drained. *)
Definition work_done_begin (l : nat) (s : pool) : pool :=
  upd_loop l (fun lp => with_lp_local lp.(lp_wq) (with_lp_wq [] lp)) s.

(** [uv__queue_done] for a [uv_work_t]: the request is unregistered, which
    asserts that the loop has one, and [after_work_cb] is called if there is
    one; the [done] of the other request types belongs to their own files. *)
Definition uv__queue_done (l : nat) (s : pool) : option pool :=
  match s.(loops) !! l with
  | Some lp => if 0 <? lp.(lp_active_reqs)
               then Some (upd_loop l (with_lp_reqs (lp.(lp_active_reqs) - 1)) s) else None
  | None => None
  end.

(** One iteration of the draining loop, on the head [w] of the local queue. *)
Definition work_done_next (l w : nat) (s : pool) : option pool :=
  match s.(works) !! w with
  | None => None
  | Some r =>
      let s := upd_loop l (fun lp => with_lp_local (tail lp.(lp_local)) lp) s in
      let err := if bool_decide (r.(w_work) = uv__cancelled) then UV_ECANCELED else 0 in
      let s := set_done (s.(done_calls) ++ [(w, err)]) s in
      if r.(w_queue_done) then uv__queue_done l s else Some s
  end.

(** The number of threads [init_threads] starts: [val] is [atoi] of the
    environment variable, stored in an [unsigned int]; without memory for the
    thread handles the static array of four is used. *)
Definition init_nthreads (val : option Z) (malloc_ok : bool) : Z :=
  let nthreads := match val with Some v => wrap 32 v | None => default_threads end in
  let nthreads := if nthreads =? 0 then 1 else nthreads in
  let nthreads := if MAX_THREADPOOL_SIZE <? nthreads then MAX_THREADPOOL_SIZE else nthreads in
  if (default_threads <? nthreads) && negb malloc_ok then default_threads else nthreads.

(** The state after [init_once], with [nloops] event loops. *)
Definition init_threads (val : option Z) (malloc_ok : bool) (nloops : nat) : pool :=
  let n := init_nthreads val malloc_ok in
  mk_pool [] [] 0 0 n (replicate (Z.to_nat n) Top) (replicate nloops (mk_loop [] [] None 0)) ∅ [] [].

(** ** Schedules *)

Inductive event :=
| EvSubmit (pick l w : nat) (kind : work_kind)
| EvQueueWork (pick l w : nat) (after : bool)
| EvWorker (pick t : nat)
| EvWorkDone (t : nat)
| EvRelock (t : nat)
| EvSpurious (t : nat)
| EvCancelTry (l w : nat)
| EvCancelFinish (l : nat)
| EvDoneBegin (l : nat)
| EvDoneNext (l : nat)
| EvCleanup (pick : nat).

(** The thread of loop [l] is not inside [uv__work_cancel]. *)
Definition loop_free (l : nat) (s : pool) : Prop :=
  exists lp, s.(loops) !! l = Some lp /\ lp.(lp_cancelling) = None.

#[export] Instance loop_free_dec l s : Decision (loop_free l s).
Proof.
  unfold loop_free. destruct (s.(loops) !! l) as [lp|]; [|by right; intros (? & ? & ?)].
  destruct (decide (lp.(lp_cancelling) = None)); [left; eauto|right; intros (? & [= <-] & ?); done].
Defined.

(** The request was submitted by loop [l] and its callback has not been called:
    what the documentation asks of a request that is cancelled. *)
Definition active_on (l w : nat) (s : pool) : Prop :=
  w_loop <$> s.(works) !! w = Some l /\ w ∉ s.(done_calls).*1.

#[export] Instance active_on_dec l w s : Decision (active_on l w s).
Proof. unfold active_on. apply _. Defined.

Definition guard_ {A} (P : Prop) `{Decision P} (x : option A) : option A :=
  if decide P then x else None.

(** An event that is not possible in the state is [None]. *)
Definition exec (e : event) (s : pool) : option pool :=
  match e with
  | EvSubmit pick l w kind =>
      guard_ (loop_free l s /\ s.(works) !! w = None)
        (Some (uv__work_submit pick l w kind false false s))
  | EvQueueWork pick l w after =>
      guard_ (loop_free l s /\ s.(works) !! w = None)
        (Some (uv_queue_work pick l w false after s).2)
  | EvWorker pick t =>
      match s.(threads) !! t with
      | Some Top => worker_section 3 pick t s
      | Some Woken =>
          worker_section 3 pick t (set_idle (s.(idle_threads) - 1) (set_thread t Top s))
      | _ => None
      end
  | EvWorkDone t =>
      match s.(threads) !! t with Some (Run w b) => worker_finish t w b s | _ => None end
  | EvRelock t =>
      match s.(threads) !! t with Some (Relock b) => Some (worker_relock t b s) | _ => None end
  | EvSpurious t =>
      match s.(threads) !! t with Some Waiting => Some (set_thread t Woken s) | _ => None end
  | EvCancelTry l w =>
      guard_ (loop_free l s /\ active_on l w s) (Some (cancel_try l w s).2)
  | EvCancelFinish l =>
      match s.(loops) !! l with
      | Some lp => match lp.(lp_cancelling) with Some w => Some (cancel_finish l w s) | None => None end
      | None => None
      end
  | EvDoneBegin l =>
      guard_ (loop_free l s /\ (lp_local <$> s.(loops) !! l) = Some []) (Some (work_done_begin l s))
  | EvDoneNext l =>
      guard_ (loop_free l s)
        (match lp_local <$> s.(loops) !! l with
         | Some (w :: _) => work_done_next l w s
         | _ => None
         end)
  | EvCleanup pick =>
      guard_ (exit_message ∉ s.(wq)) (Some (post pick exit_message UV__WORK_CPU s))
  end.

Fixpoint run_events (es : list event) (s : pool) : option pool :=
  match es with
  | [] => Some s
  | e :: es => match exec e s with Some s' => run_events es s' | None => None end
  end.

(** States some schedule leads to from initialisation. *)
Inductive reachable : pool -> Prop :=
| reachable_init val malloc_ok nloops : reachable (init_threads val malloc_ok nloops)
| reachable_step s e s' : reachable s -> exec e s = Some s' -> reachable s'.

#[local] Arguments post : simpl never.

(** ** Counting and splitting lists *)

Definition countf {A} (f : A -> bool) (l : list A) : nat := length (filter (fun x => f x = true) l).

Section counting.
Context {A : Type} (f : A -> bool).

Lemma countf_nil : countf f [] = 0%nat.
Proof. done. Qed.

Lemma countf_cons x l : countf f (x :: l) = (Nat.b2n (f x) + countf f l)%nat.
Proof. unfold countf. rewrite filter_cons. by destruct (f x). Qed.

Lemma countf_app l k : countf f (l ++ k) = (countf f l + countf f k)%nat.
Proof. unfold countf. by rewrite list.filter_app, length_app. Qed.

Lemma countf_insert l i x y : l !! i = Some x ->
  (countf f (<[i := y]> l) + Nat.b2n (f x) = countf f l + Nat.b2n (f y))%nat.
Proof.
  revert i. induction l as [|z l IH]; intros [|i] Hi; try done; simpl in *.
  - simplify_eq. rewrite !countf_cons. lia.
  - rewrite !countf_cons. specialize (IH i Hi). lia.
Qed.

Lemma countf_pos l x : x ∈ l -> f x = true -> (0 < countf f l)%nat.
Proof.
  induction 1 as [x l|x y l _ IH]; intros Hx; rewrite countf_cons.
  - rewrite Hx. simpl. lia.
  - specialize (IH Hx). lia.
Qed.
End counting.

(** A flat-mapped list around one of its elements. *)
Lemma bind_split {A B} (f : A -> list B) (l : list A) i x : l !! i = Some x ->
  exists rest, (l ≫= f) ≡ₚ f x ++ rest /\ forall y, (<[i := y]> l ≫= f) ≡ₚ f y ++ rest.
Proof.
  intros Hi. exists ((take i l ≫= f) ++ (drop (S i) l ≫= f)).
  assert (forall z, (take i l ++ z :: drop (S i) l) ≫= f
    ≡ₚ f z ++ (take i l ≫= f) ++ (drop (S i) l ≫= f)) as Hp.
  { intros z. rewrite bind_app, bind_cons, !(assoc_L app).
    by rewrite (Permutation_app_comm (_ ≫= f) (f z)). }
  split.
  - rewrite <- (take_drop_middle l i x Hi) at 1. apply Hp.
  - intros y. rewrite insert_take_drop by (by eapply lookup_lt_Some). apply Hp.
Qed.

(** ** What a worker's section can do

    Skipping the message leaves the queue without it, or moves it to the end;
    then the section ends in one of four ways. *)

Inductive skipped (s : pool) : list node -> Prop :=
| skipped_none : skipped s s.(wq)
| skipped_drop q : s.(wq) = run_slow_work_message :: q -> s.(slow_io_pending_wq) = [] ->
    s.(slow_io_work_running) < slow_work_thread_threshold s -> skipped s q
| skipped_move q : s.(wq) = run_slow_work_message :: q -> must_wait s = false ->
    slow_work_thread_threshold s <= s.(slow_io_work_running) ->
    skipped s (q ++ [run_slow_work_message]).

Inductive section_end (pick t : nat) (s : pool) : pool -> Prop :=
| end_wait : must_wait s = true ->
    section_end pick t s (set_idle (s.(idle_threads) + 1) (set_thread t Waiting s))
| end_exit q : must_wait s = false -> s.(wq) = exit_message :: q ->
    section_end pick t s (uv_cond_signal pick (set_thread t Exited s))
| end_slow q w pending : s.(wq) = run_slow_work_message :: q ->
    s.(slow_io_pending_wq) = w :: pending ->
    s.(slow_io_work_running) < slow_work_thread_threshold s ->
    section_end pick t s
      (let s := set_running (s.(slow_io_work_running) + 1) (set_wq q s) in
       let s := upd_work w (with_empty true) (set_pending pending s) in
       let s := if bool_decide (pending = []) then s
                else signal_if_idle pick (set_wq (s.(wq) ++ [run_slow_work_message]) s) in
       set_thread t (Run w true) s)
| end_work q w : s.(wq) = Work w :: q ->
    section_end pick t s (set_thread t (Run w false) (upd_work w (with_empty true) (set_wq q s))).

Definition is_msg (n : node) : bool := bool_decide (n = run_slow_work_message).

(** The message is queued at most once, and then the section always ends:
    three units of fuel are enough. *)
Definition one_message (s : pool) : Prop := (countf is_msg s.(wq) <= 1)%nat.

Lemma must_wait_nil s : s.(wq) = [] -> must_wait s = true.
Proof. intros E. unfold must_wait. by rewrite E. Qed.

Lemma worker_section_end fuel pick t s q : s.(wq) = q -> countf is_msg q = 0%nat ->
  exists s', worker_section (S fuel) pick t s = Some s' /\ section_end pick t s s'.
Proof.
  intros Hq Hc. cbn [worker_section]. destruct (must_wait s) eqn:Hw; [eexists; split; [done|by constructor]|].
  destruct (wq s) as [|[| |w] q'] eqn:E.
  - by rewrite must_wait_nil in Hw.
  - eexists. split; [done|]. by eapply end_exit.
  - subst q. rewrite countf_cons in Hc. done.
  - eexists. split; [done|]. by eapply end_work.
Qed.

Lemma worker_section_cases pick t s : one_message s ->
  exists q s', worker_section 3 pick t s = Some s' /\ skipped s q /\ section_end pick t (set_wq q s) s'.
Proof.
  unfold one_message. intros Hm. assert (set_wq (wq s) s = s) as Hid by by destruct s.
  cbn [worker_section]. destruct (must_wait s) eqn:Hw.
  { exists (wq s). eexists. split_and!; [done|constructor|]. rewrite Hid. by constructor. }
  destruct (wq s) as [|[| |w] q] eqn:E.
  - by rewrite must_wait_nil in Hw.
  - exists (wq s). rewrite E, Hid. eexists. split_and!; [done|rewrite <- E; constructor|]. by eapply end_exit.
  - rewrite countf_cons in Hm. simpl in Hm.
    change (slow_work_thread_threshold (set_wq q s)) with (slow_work_thread_threshold s).
    change (slow_io_work_running (set_wq q s)) with (slow_io_work_running s).
    change (slow_io_pending_wq (set_wq q s)) with (slow_io_pending_wq s).
    destruct (Z.leb_spec (slow_work_thread_threshold s) (slow_io_work_running s)) as [Hth|Hth].
    + change (set_wq (q ++ [run_slow_work_message]) (set_wq q s))
        with (set_wq (q ++ [run_slow_work_message]) s).
      assert (q <> []) as Hne.
      { intros ->. unfold must_wait in Hw. rewrite E in Hw. rewrite (bool_decide_eq_true_2
          ([run_slow_work_message] = [run_slow_work_message])) in Hw by done.
        rewrite (proj2 (Z.leb_le _ _)) in Hw by done. by rewrite orb_true_r in Hw. }
      exists (q ++ [run_slow_work_message]). destruct q as [|n q]; [done|]. clear Hne.
      set (s1 := set_wq ((n :: q) ++ [run_slow_work_message]) s).
      assert (must_wait s1 = false) as Hw1.
      { unfold must_wait, s1. simpl.
        rewrite bool_decide_eq_false_2; [done|]. intros [= -> Hn]. by apply app_nil in Hn as [_ ?]. }
      rewrite Hw1. unfold s1. simpl. destruct n as [| |w].
      * eexists. split_and!; [done|by apply (skipped_move s (exit_message :: q))|]. by eapply end_exit.
      * rewrite countf_cons in Hm. simpl in Hm. lia.
      * eexists. split_and!; [done|by apply (skipped_move s (Work w :: q))|]. by eapply end_work.
    + destruct (slow_io_pending_wq s) as [|w pending] eqn:Ep.
      * destruct (worker_section_end 1 pick t (set_wq q s) q) as (s' & E' & He); [done|lia|].
        exists q, s'. split_and!; [exact E'|by apply skipped_drop|done].
      * exists (wq s). eexists. rewrite E, Hid.
        split_and!; [done|rewrite <- E; constructor|]. by apply end_slow.
  - exists (wq s). rewrite E, Hid. eexists.
    split_and!; [done|rewrite <- E; constructor|]. by apply end_work.
Qed.

#[local] Arguments worker_section : simpl never.

(** ** The workers' invariant *)

Definition is_slow_thread (th : thread) : bool :=
  match th with Run _ b | Relock b => b | _ => false end.
Definition is_idle_thread (th : thread) : bool :=
  match th with Waiting | Woken => true | _ => false end.
Definition is_awake (th : thread) : bool :=
  match th with Waiting | Exited => false | _ => true end.

(** Some thread will look at the queue again. *)
Definition someone_awake (s : pool) : Prop := exists th, th ∈ s.(threads) /\ is_awake th = true.

Record workers_inv (s : pool) : Prop := {
  wi_nthreads : s.(nthreads) = Z.of_nat (length s.(threads));
  wi_slow : s.(slow_io_work_running) = Z.of_nat (countf is_slow_thread s.(threads));
  wi_idle : s.(idle_threads) = Z.of_nat (countf is_idle_thread s.(threads));
  wi_threshold : s.(slow_io_work_running) <= slow_work_thread_threshold s;
  wi_message : one_message s;
  wi_pending : s.(slow_io_pending_wq) <> [] -> run_slow_work_message ∈ s.(wq);
  wi_wake : must_wait s = false -> Waiting ∈ s.(threads) -> someone_awake s
}.

Lemma someone_awake_set t th s : (t < length s.(threads))%nat -> is_awake th = true ->
  someone_awake (set_thread t th s).
Proof. intros Ht Ha. exists th. split; [|done]. simpl. by apply list_elem_of_insert. Qed.

(** The effect of a signal: nothing, or one waiter woken; and with a waiter it
    is never nothing. *)
Lemma uv_cond_signal_cases pick s :
  ((Waiting ∉ s.(threads)) /\ uv_cond_signal pick s = s) \/
  exists t, s.(threads) !! t = Some Waiting /\ uv_cond_signal pick s = set_thread t Woken s.
Proof.
  unfold uv_cond_signal. case_bool_decide as Hp; [right; eauto|].
  unfold first_waiting. destruct (list_find _ (threads s)) as [[t th]|] eqn:E; simpl.
  - apply list_find_Some in E as (Ht & -> & _). right. eauto.
  - apply list_find_None in E. left. split; [|done]. intros Hin.
    by apply (proj1 (list.Forall_forall _ _) E) in Hin.
Qed.

(** Replacing one thread updates the counters by the difference. *)
Lemma workers_inv_thread s t x y r i : workers_inv s -> s.(threads) !! t = Some x ->
  r + Z.b2z (is_slow_thread x) = s.(slow_io_work_running) + Z.b2z (is_slow_thread y) ->
  i + Z.b2z (is_idle_thread x) = s.(idle_threads) + Z.b2z (is_idle_thread y) ->
  r <= slow_work_thread_threshold s ->
  (is_awake y = true \/ must_wait (set_running r s) = true \/
   someone_awake (set_thread t y s)) ->
  workers_inv (set_running r (set_idle i (set_thread t y s))).
Proof.
  intros [Hn Hs Hi Hth Hm Hp Hw] Ht Hr Hi' Hb Ha.
  pose proof (countf_insert is_slow_thread _ _ _ y Ht).
  pose proof (countf_insert is_idle_thread _ _ _ y Ht).
  assert (forall b, Z.b2z b = Z.of_nat (Nat.b2n b)) as Hb2 by by intros [].
  rewrite !Hb2 in *.
  split; simpl; [by rewrite length_insert|lia|lia|done|done|done|]. intros Hmw _.
  destruct Ha as [Ha|[Ha|Ha]].
  - by apply (someone_awake_set t y s); [eapply lookup_lt_Some|].
  - change (must_wait (set_running r s) = false) in Hmw. congruence.
  - done.
Qed.

(** Woken threads are still counted as idle, so a signal changes no counter. *)
Lemma workers_inv_signal pick s : workers_inv s -> workers_inv (uv_cond_signal pick s).
Proof.
  intros HI. destruct (uv_cond_signal_cases pick s) as [[_ ->]|(t & Ht & ->)]; [done|].
  pose proof (workers_inv_thread s t Waiting Woken (slow_io_work_running s) (idle_threads s) HI Ht
    ltac:(done) ltac:(done) ltac:(apply wi_threshold, HI) ltac:(by left)) as HR.
  by destruct s.
Qed.

(** Adding to [wq] followed by the conditional signal. *)
Lemma workers_inv_signalled pick s q : workers_inv s -> (countf is_msg q <= 1)%nat ->
  (s.(slow_io_pending_wq) <> [] -> run_slow_work_message ∈ q) ->
  workers_inv (signal_if_idle pick (set_wq q s)).
Proof.
  intros [Hn Hs Hi Hth Hm Hp Hw] Hq Hpq. unfold signal_if_idle. simpl idle_threads.
  destruct (Z.ltb_spec 0 (idle_threads s)) as [Hpos|Hzero].
  - destruct (uv_cond_signal_cases pick (set_wq q s)) as [[Hno ->]|(t & Ht & ->)].
    + by split.
    + pose proof (countf_insert is_slow_thread _ _ _ Woken Ht) as Hcs.
      pose proof (countf_insert is_idle_thread _ _ _ Woken Ht) as Hci. simpl in *.
      split; simpl; [by rewrite length_insert|lia|lia|done|done|done|]. intros _ _.
      by apply (someone_awake_set t Woken (set_wq q s)); [eapply lookup_lt_Some|].
  - split; simpl; try done. intros _ Hwt.
    pose proof (countf_pos is_idle_thread _ _ Hwt eq_refl). lia.
Qed.

Lemma workers_inv_set_wq s q : workers_inv s -> (countf is_msg q <= 1)%nat ->
  (s.(slow_io_pending_wq) <> [] -> run_slow_work_message ∈ q) ->
  (must_wait (set_wq q s) = false -> someone_awake s \/ must_wait s = false) ->
  workers_inv (set_wq q s).
Proof.
  intros [Hn Hs Hi Hth Hm Hp Hw] Hq Hpq Hmw. split; simpl; try done.
  intros Hm' Hwt. destruct (Hmw Hm') as [?|?]; [done|]. by apply Hw.
Qed.

(** What a signal may do to the threads. *)
Inductive woken (ts : list thread) : list thread -> Prop :=
| woken_none : woken ts ts
| woken_one t : ts !! t = Some Waiting -> woken ts (<[t := Woken]> ts).

Lemma woken_counts ts ts' : woken ts ts' -> length ts' = length ts /\
  countf is_slow_thread ts' = countf is_slow_thread ts /\
  countf is_idle_thread ts' = countf is_idle_thread ts /\
  forall t x, ts !! t = Some x -> x <> Waiting -> ts' !! t = Some x.
Proof.
  intros [|t Ht]; [done|].
  pose proof (countf_insert is_slow_thread _ _ _ Woken Ht).
  pose proof (countf_insert is_idle_thread _ _ _ Woken Ht). simpl in *.
  split_and!; [by rewrite length_insert|lia|lia|]. intros t' x Ht' Hx.
  rewrite list_lookup_insert_ne; [done|]. intros ->. congruence.
Qed.

Lemma signal_if_idle_woken pick s : exists ts,
  woken s.(threads) ts /\ signal_if_idle pick s = set_threads ts s.
Proof.
  assert (set_threads (threads s) s = s) as Hid by by destruct s.
  unfold signal_if_idle. destruct (0 <? idle_threads s).
  - destruct (uv_cond_signal_cases pick s) as [[_ ->]|(t & Ht & ->)].
    + exists (threads s). by split; [constructor|].
    + eexists. by split; [apply woken_one|].
  - exists (threads s). by split; [constructor|].
Qed.

(** A worker at the top takes a request. *)
Lemma workers_inv_start s s' t w b ts : workers_inv s -> s.(threads) !! t = Some Top ->
  woken s.(threads) ts -> s'.(threads) = <[t := Run w b]> ts ->
  s'.(nthreads) = s.(nthreads) -> s'.(idle_threads) = s.(idle_threads) ->
  s'.(slow_io_work_running) = s.(slow_io_work_running) + Z.b2z b ->
  s'.(slow_io_work_running) <= slow_work_thread_threshold s -> one_message s' ->
  (s'.(slow_io_pending_wq) <> [] -> run_slow_work_message ∈ s'.(wq)) -> workers_inv s'.
Proof.
  intros [Hn Hs Hi Hth Hm Hp Hw] Ht Hts Ets En Ei Er Hb Hm' Hp'.
  apply woken_counts in Hts as (Hl & Hcs & Hci & Hkeep).
  pose proof (Hkeep t Top Ht ltac:(done)) as Ht'.
  pose proof (countf_insert is_slow_thread _ _ _ (Run w b) Ht').
  pose proof (countf_insert is_idle_thread _ _ _ (Run w b) Ht'). simpl in *.
  assert (Z.b2z b = Z.of_nat (Nat.b2n b)) by by destruct b.
  unfold slow_work_thread_threshold in *.
  split; rewrite ?Ets, ?length_insert; [lia|lia|lia|unfold slow_work_thread_threshold; by rewrite En|done|done|].
  intros _ _. exists (Run w b). rewrite Ets. split; [|done].
  apply list_elem_of_insert. by eapply lookup_lt_Some.
Qed.

Lemma workers_inv_exit pick t s : workers_inv s -> s.(threads) !! t = Some Top ->
  workers_inv (uv_cond_signal pick (set_thread t Exited s)).
Proof.
  intros [Hn Hs Hi Hth Hm Hp Hw] Ht.
  pose proof (countf_insert is_slow_thread _ _ _ Exited Ht).
  pose proof (countf_insert is_idle_thread _ _ _ Exited Ht). simpl in *.
  destruct (uv_cond_signal_cases pick (set_thread t Exited s)) as [[Hno ->]|(t' & Ht' & ->)].
  - split; simpl; [by rewrite length_insert|lia|lia|done|done|done|done].
  - pose proof (countf_insert is_slow_thread _ _ _ Woken Ht').
    pose proof (countf_insert is_idle_thread _ _ _ Woken Ht'). simpl in *.
    split; simpl; [by rewrite !length_insert|lia|lia|done|done|done|]. intros _ _.
    apply (someone_awake_set t' Woken (set_thread t Exited s)); [by eapply lookup_lt_Some|done].
Qed.

Lemma one_message_rest s q : one_message s -> s.(wq) = run_slow_work_message :: q -> countf is_msg q = 0%nat.
Proof. unfold one_message. intros Hm E. rewrite E, countf_cons in Hm. simpl in Hm. lia. Qed.

Lemma workers_inv_section_end pick t s s' : workers_inv s -> s.(threads) !! t = Some Top ->
  section_end pick t s s' -> workers_inv s'.
Proof.
  intros HI Ht [Hw|q Hw E|q w pending E Ep Hlt|q w E].
  - pose proof (workers_inv_thread s t Top Waiting (slow_io_work_running s) (idle_threads s + 1) HI Ht
      ltac:(simpl; lia) ltac:(simpl; lia) (wi_threshold _ HI)) as HR. destruct s. apply HR. right. by left.
  - by apply workers_inv_exit.
  - pose proof (one_message_rest s q (wi_message _ HI) E) as Hq.
    assert (slow_io_work_running s + 1 <= slow_work_thread_threshold s) by lia.
    cbv zeta. case_bool_decide as Hpend.
    + apply (workers_inv_start s _ t w true (threads s)); simpl; try done; [apply woken_none|].
      unfold one_message. simpl. lia.
    + match goal with |- context [signal_if_idle pick ?s1] =>
        destruct (signal_if_idle_woken pick s1) as (ts & Hts & ->) end.
      apply (workers_inv_start s _ t w true ts); simpl; try done.
      * unfold one_message. simpl. rewrite countf_app, Hq, countf_cons, countf_nil. done.
      * intros _. set_solver.
  - pose proof (wi_message _ HI) as Hm. unfold one_message in Hm. rewrite E, countf_cons in Hm.
    apply (workers_inv_start s _ t w false (threads s)); simpl; try done; [apply woken_none|lia|apply HI|].
    intros Hne. pose proof (wi_pending _ HI Hne) as Hin. rewrite E in Hin.
    by apply elem_of_cons in Hin as [?|?].
Qed.

Lemma workers_inv_skipped s q t : workers_inv s -> s.(threads) !! t = Some Top -> skipped s q ->
  workers_inv (set_wq q s).
Proof.
  intros HI Ht Hq. apply workers_inv_set_wq; [done|..].
  - pose proof (wi_message _ HI) as Hm. destruct Hq as [|q E|q E]; [done|..];
      unfold one_message in Hm; rewrite E, countf_cons in Hm; rewrite ?countf_app, ?countf_cons, ?countf_nil; simpl in *; lia.
  - intros Hp. pose proof (wi_pending _ HI Hp). destruct Hq as [|q E|q E]; [done|by rewrite E in *|set_solver].
  - intros _. left. exists Top. split; [by eapply list_elem_of_lookup_2|done].
Qed.

(** Requests, loops and histories do not matter to the workers' invariant. *)
Lemma workers_inv_same s s' : workers_inv s ->
  s'.(wq) = s.(wq) -> s'.(slow_io_pending_wq) = s.(slow_io_pending_wq) ->
  s'.(slow_io_work_running) = s.(slow_io_work_running) -> s'.(idle_threads) = s.(idle_threads) ->
  s'.(nthreads) = s.(nthreads) -> s'.(threads) = s.(threads) -> workers_inv s'.
Proof.
  destruct s, s'. simpl. intros HI -> -> -> -> -> ->. by destruct HI; split.
Qed.

Lemma countf_filter {A} (f : A -> bool) (P : A -> Prop) `{!forall x, Decision (P x)} l :
  (countf f (filter P l) <= countf f l)%nat.
Proof.
  induction l as [|x l IH]; [done|]. rewrite filter_cons, countf_cons.
  case_decide; rewrite ?countf_cons; lia.
Qed.

Lemma is_msg_absent q : run_slow_work_message ∉ q -> countf is_msg q = 0%nat.
Proof.
  induction q as [|n q IH]; [done|]. intros [Hn Hq]%not_elem_of_cons. rewrite countf_cons, IH by done.
  unfold is_msg. by rewrite bool_decide_eq_false_2.
Qed.

Lemma workers_inv_post pick q kind s : q <> run_slow_work_message -> workers_inv s ->
  workers_inv (post pick q kind s).
Proof.
  intros Hq HI. assert (workers_inv (signal_if_idle pick (set_wq (wq s ++ [q]) s))) as Hother.
  { apply workers_inv_signalled; [done|..].
    - rewrite countf_app, countf_cons, countf_nil. unfold is_msg at 2. rewrite bool_decide_eq_false_2 by done.
      pose proof (wi_message _ HI) as Hm. unfold one_message in Hm. simpl. lia.
    - intros Hp. apply elem_of_app. left. by apply (wi_pending _ HI). }
  destruct kind; [done..|]. destruct q as [| |w]; [done..|]. unfold post.
  case_bool_decide as Hm; simpl in Hm.
  - destruct HI as [Hn Hs Hi Hth Hone Hp Hw]. by split.
  - pose proof (workers_inv_signalled pick s (wq s ++ [run_slow_work_message]) HI) as HR.
    assert (workers_inv (set_pending (slow_io_pending_wq s ++ [w])
      (signal_if_idle pick (set_wq (wq s ++ [run_slow_work_message]) s)))) as HR'.
    { assert (run_slow_work_message ∈ wq s ++ [run_slow_work_message]) by set_solver.
      destruct HR as [Hn Hs Hi Hth Hone Hp Hw]; [|done|].
      - by rewrite countf_app, is_msg_absent.
      - destruct (signal_if_idle_woken pick (set_wq (wq s ++ [run_slow_work_message]) s)) as (ts & _ & E).
        rewrite E in *. by split. }
    unfold signal_if_idle, uv_cond_signal in *. simpl in *.
    destruct (0 <? idle_threads s); [|done]. case_bool_decide; [done|].
    by destruct (first_waiting (threads s)).
Qed.

Lemma must_wait_true s : must_wait s = true <->
  s.(wq) = [] \/ s.(wq) = [run_slow_work_message] /\ slow_work_thread_threshold s <= s.(slow_io_work_running).
Proof.
  unfold must_wait. by rewrite orb_true_iff, andb_true_iff, !bool_decide_eq_true, Z.leb_le.
Qed.

Lemma must_wait_filter P `{!forall n, Decision (P n)} s :
  must_wait (set_wq (filter P s.(wq)) s) = false -> must_wait s = false.
Proof.
  intros Hw. destruct (must_wait s) eqn:E; [|done]. rewrite <- Hw. symmetry.
  apply must_wait_true in E as [E|[E Hth]]; apply must_wait_true; simpl; rewrite E; [by left|].
  rewrite filter_cons. case_decide; [by right|by left].
Qed.

Lemma workers_inv_queue_remove w s : workers_inv s -> workers_inv (queue_remove w s).
Proof.
  intros HI. assert (workers_inv (set_wq (filter (fun n => n <> Work w) s.(wq)) s)) as [Hn Hs Hi Hth Hm Hp Hw].
  { apply workers_inv_set_wq; [done|..].
    - etrans; [apply countf_filter|apply HI].
    - intros Hne. apply list_elem_of_filter. split; [done|]. by apply (wi_pending _ HI).
    - intros Hmw. right. by eapply must_wait_filter. }
  split; try done. simpl. intros Hne. apply Hp. intros E. simpl in E. by rewrite E in Hne.
Qed.

(** Every event preserves the workers' invariant. *)
Lemma workers_inv_exec e s s' : workers_inv s -> exec e s = Some s' -> workers_inv s'.
Proof.
  intros HI. destruct e as [pick l w kind|pick l w after|pick t|t|t|t|l w|l|l|l|pick]; simpl; unfold guard_.
  - case_decide; [|done]. intros [= <-]. apply workers_inv_post; [done|]. by eapply workers_inv_same.
  - case_decide; [|done]. intros [= <-]. apply workers_inv_post; [done|]. by eapply workers_inv_same.
  - assert (forall s0, workers_inv s0 -> threads s0 !! t = Some Top -> worker_section 3 pick t s0 = Some s' ->
      workers_inv s') as Hsec.
    { intros s0 HI0 Ht E. destruct (worker_section_cases pick t s0) as (q & s1 & E1 & Hq & He); [apply HI0|].
      rewrite E1 in E. injection E as <-. apply (workers_inv_section_end pick t (set_wq q s0)); [|exact Ht|exact He].
      by eapply workers_inv_skipped. }
    destruct (threads s !! t) as [[]|] eqn:Ht; try done.
    + by apply Hsec.
    + apply Hsec; [|by apply list_lookup_insert_eq; eapply lookup_lt_Some].
      pose proof (workers_inv_thread s t Woken Top (slow_io_work_running s) (idle_threads s - 1) HI Ht
        ltac:(done) ltac:(simpl; lia) (wi_threshold _ HI) ltac:(by left)) as HR. by destruct s.
  - destruct (threads s !! t) as [[| | |w b| |]|] eqn:Ht; try done. unfold worker_finish.
    destruct (works s !! w) as [r|]; [|done]. intros [= <-].
    pose proof (workers_inv_thread s t _ (Relock b) (slow_io_work_running s) (idle_threads s) HI Ht
        ltac:(done) ltac:(done) (wi_threshold _ HI) ltac:(by left)) as HR. by eapply workers_inv_same.
  - destruct (threads s !! t) as [[| | | |b|]|] eqn:Ht; try done. intros [= <-]. unfold worker_relock.
    pose proof (workers_inv_thread s t _ Top (slow_io_work_running s - Z.b2z b) (idle_threads s) HI Ht
        ltac:(simpl; lia) ltac:(done) ltac:(pose proof (wi_threshold _ HI); destruct b; simpl; lia) ltac:(by left)) as HR.
    eapply workers_inv_same; [exact HR|..]; destruct b; simpl; try done; lia.
  - destruct (threads s !! t) as [[]|] eqn:Ht; try done. intros [= <-].
    pose proof (workers_inv_thread s t _ Woken (slow_io_work_running s) (idle_threads s) HI Ht
        ltac:(done) ltac:(done) (wi_threshold _ HI) ltac:(by left)) as HR. by eapply workers_inv_same.
  - case_decide; [|done]. intros [= <-]. unfold cancel_try. destruct (works s !! w); [|done].
    case_match; [|done]. eapply workers_inv_same; [by apply (workers_inv_queue_remove w)|done..].
  - destruct (loops s !! l) as [lp|]; [|done]. destruct (lp_cancelling lp) as [w|]; [|done].
    intros [= <-]. by eapply workers_inv_same.
  - case_decide; [|done]. intros [= <-]. by eapply workers_inv_same.
  - case_decide; [|done]. destruct (lp_local <$> loops s !! l) as [[|w q]|]; try done.
    unfold work_done_next, uv__queue_done. destruct (works s !! w) as [r|]; [|done].
    destruct (w_queue_done r); [|intros [= <-]; by eapply workers_inv_same]. simpl.
    case_match; [|done]. case_match; [|done]. intros [= <-]. by eapply workers_inv_same.
  - case_decide; [|done]. intros [= <-]. by apply workers_inv_post.
Qed.

(** ** Where the requests are

    Every request is in exactly one place, and its fields agree with the
    place: [Queued] in [wq] or the pending queue, [Running] on a thread,
    [Completed] in a loop's queue, [Cancelling] between the two sections of
    [uv__work_cancel], [Reported] once [done] was called with a status. *)

Inductive place := Queued | Running | Completed (l : nat) | Cancelling (l : nat) | Reported (err : Z).

#[export] Instance place_eq_dec : EqDecision place.
Proof. solve_decision. Defined.

Definition tag (p : place) (ws : list nat) : list (nat * place) := (fun w => (w, p)) <$> ws.

Definition node_work (n : node) : list nat := match n with Work w => [w] | _ => [] end.
Definition thread_work (th : thread) : list nat := match th with Run w _ => [w] | _ => [] end.

Definition loop_places (l : nat) (lp : loop_t) : list (nat * place) :=
  tag (Completed l) (lp.(lp_wq) ++ lp.(lp_local)) ++ tag (Cancelling l) (option_list lp.(lp_cancelling)).

Definition reports (calls : list (nat * Z)) : list (nat * place) :=
  (fun c => (c.1, Reported c.2)) <$> calls.

Definition placed (s : pool) : list (nat * place) :=
  tag Queued (s.(wq) ≫= node_work) ++ tag Queued s.(slow_io_pending_wq) ++
  tag Running (s.(threads) ≫= thread_work) ++ mjoin (imap loop_places s.(loops)) ++
  reports s.(done_calls).

Lemma tag_app p a b : tag p (a ++ b) = tag p a ++ tag p b.
Proof. apply fmap_app. Qed.

Lemma alter_as_insert {A} (f : A -> A) i (l : list A) x : l !! i = Some x -> alter f i l = <[i := f x]> l.
Proof.
  revert i. induction l as [|y l IH]; intros [|i] Hi; try done; simpl in *; [by simplify_eq|].
  f_equal. by apply IH.
Qed.

Lemma mjoin_cons {A} (x : list A) ls : mjoin (x :: ls) = x ++ mjoin ls.
Proof. done. Qed.

(** The places of the loops around one of them. *)
Lemma loops_split ls l lp : ls !! l = Some lp ->
  exists rest, mjoin (imap loop_places ls) ≡ₚ loop_places l lp ++ rest /\
    forall f, mjoin (imap loop_places (alter f l ls)) ≡ₚ loop_places l (f lp) ++ rest.
Proof.
  intros Hl. pose proof (lookup_lt_Some _ _ _ Hl) as Hlt.
  exists (mjoin (imap loop_places (take l ls)) ++
    mjoin (imap (fun n => loop_places (S l + n)) (drop (S l) ls))).
  assert (forall x, mjoin (imap loop_places (take l ls ++ x :: drop (S l) ls)) ≡ₚ
    loop_places l x ++ mjoin (imap loop_places (take l ls)) ++
    mjoin (imap (fun n => loop_places (S l + n)) (drop (S l) ls))) as Hp.
  { intros x. rewrite imap_app, join_app, imap_cons, mjoin_cons.
    assert (length (take l ls) = l) as Hn by len. rewrite Hn, Nat.add_0_r.
    rewrite (imap_ext ((fun n => loop_places (l + n)) ∘ S) (fun n => loop_places (S l + n)));
      [solve_Permutation|]. intros i y _. unfold compose. f_equal. lia. }
  split.
  - rewrite <- (take_drop_middle ls l lp Hl) at 1. apply Hp.
  - intros f. rewrite (alter_as_insert f l ls lp), insert_take_drop by done. apply Hp.
Qed.

(** The fields of a request agree with its place. *)
Definition ok_place (r : uv__work) (p : place) : Prop :=
  match p with
  | Queued => r.(w_work) = Submitted /\ r.(w_empty) = false
  | Running => r.(w_work) = Submitted /\ r.(w_empty) = true
  | Completed l => r.(w_work) <> Submitted /\ r.(w_empty) = false /\ r.(w_loop) = l
  | Cancelling l => r.(w_work) <> Null /\ r.(w_empty) = false /\ r.(w_loop) = l
  | Reported e => r.(w_work) <> Submitted /\
      e = (if bool_decide (r.(w_work) = uv__cancelled) then UV_ECANCELED else 0)
  end.

Definition is_reported (p : place) : bool := match p with Reported _ => true | _ => false end.

(** The [uv_work_t]s of loop [l] that were not reported. *)
Definition live_on (ws : gmap nat uv__work) (l : nat) (x : nat * place) : bool :=
  negb (is_reported x.2) &&
  match ws !! x.1 with Some r => r.(w_queue_done) && (r.(w_loop) =? l)%nat | None => false end.

Definition reqs (s : pool) (l : nat) : option Z := lp_active_reqs <$> s.(loops) !! l.

Record requests_inv (s : pool) : Prop := {
  ri_nodup : NoDup (placed s).*1;
  ri_dom : forall w, w ∈ (placed s).*1 <-> is_Some (s.(works) !! w);
  ri_ok : forall w p, (w, p) ∈ placed s -> exists r, s.(works) !! w = Some r /\ ok_place r p;
  ri_range : forall w r, s.(works) !! w = Some r -> (r.(w_loop) < length s.(loops))%nat;
  ri_once : NoDup s.(executed).*1;
  ri_exec : forall w f, (w, f) ∈ s.(executed) <->
    f = Submitted /\ w_work <$> s.(works) !! w = Some Null;
  ri_reqs : forall l n, reqs s l = Some n -> n = Z.of_nat (countf (live_on s.(works) l) (placed s))
}.

(** What an event does to the requests: nothing, a new one, or one moved. *)
Inductive effect (s s' : pool) : Prop :=
| eff_same : placed s' ≡ₚ placed s -> s'.(works) = s.(works) -> s'.(executed) = s.(executed) ->
    length s'.(loops) = length s.(loops) -> (forall l, reqs s' l = reqs s l) -> effect s s'
| eff_add w r : placed s' ≡ₚ (w, Queued) :: placed s -> s'.(works) = <[w := r]> s.(works) ->
    s.(works) !! w = None -> ok_place r Queued -> (r.(w_loop) < length s.(loops))%nat ->
    s'.(executed) = s.(executed) -> length s'.(loops) = length s.(loops) ->
    (forall l, reqs s' l = (fun n => n + Z.b2z (r.(w_queue_done) && (r.(w_loop) =? l)%nat)) <$> reqs s l) ->
    effect s s'
| eff_move w r f p p' rest : s.(works) !! w = Some r ->
    placed s ≡ₚ (w, p) :: rest -> placed s' ≡ₚ (w, p') :: rest ->
    s'.(works) = alter f w s.(works) ->
    (ok_place r p -> ok_place (f r) p') -> is_reported p = false ->
    (f r).(w_loop) = r.(w_loop) -> (f r).(w_queue_done) = r.(w_queue_done) ->
    (s'.(executed) = s.(executed) /\ ((f r).(w_work) = Null <-> r.(w_work) = Null) \/
     s'.(executed) = s.(executed) ++ [(w, r.(w_work))] /\ p = Running /\ (f r).(w_work) = Null) ->
    length s'.(loops) = length s.(loops) ->
    (forall l, reqs s' l = (fun n => n - Z.b2z (is_reported p' && (r.(w_queue_done) && (r.(w_loop) =? l)%nat)))
       <$> reqs s l) ->
    effect s s'.

Lemma countf_perm {A} (f : A -> bool) l k : l ≡ₚ k -> countf f l = countf f k.
Proof. intros Hp. unfold countf. by rewrite Hp. Qed.

Lemma countf_ext {A} (f g : A -> bool) l : (forall x, x ∈ l -> f x = g x) -> countf f l = countf g l.
Proof.
  induction l as [|x l IH]; intros Hfg; [done|]. rewrite !countf_cons, (Hfg x), IH; [done| |].
  - intros y Hy. apply Hfg. by apply list_elem_of_further.
  - apply list_elem_of_here.
Qed.

Lemma requests_inv_add s s' w r : requests_inv s -> placed s' ≡ₚ (w, Queued) :: placed s ->
  s'.(works) = <[w := r]> s.(works) -> s.(works) !! w = None -> ok_place r Queued ->
  (r.(w_loop) < length s.(loops))%nat -> s'.(executed) = s.(executed) ->
  length s'.(loops) = length s.(loops) ->
  (forall l, reqs s' l = (fun n => n + Z.b2z (r.(w_queue_done) && (r.(w_loop) =? l)%nat)) <$> reqs s l) ->
  requests_inv s'.
Proof.
  intros [Hnd Hdom Hok Hrg Ho He Hr] HP HW Hw Hq Hl HE HL HR.
  assert (w ∉ (placed s).*1) as Hfresh by (rewrite Hdom, Hw; by intros [? ?]).
  split.
  - rewrite HP. simpl. by apply list.NoDup_cons.
  - intros w'. rewrite HP, HW. simpl. rewrite elem_of_cons, Hdom, lookup_insert_is_Some.
    split; [intros [->|?]; [by left|destruct (decide (w = w')); auto]|intros [->|[_ ?]]; auto].
  - intros w' p' Hin. rewrite HP, elem_of_cons in Hin. rewrite HW. destruct Hin as [[= -> ->]|Hin].
    + exists r. by rewrite lookup_insert_eq.
    + rewrite lookup_insert_ne; [by apply Hok|]. intros <-. apply Hfresh.
      apply list_elem_of_fmap. by exists (w, p').
  - intros w' r'. rewrite HW, HL. intros [[<- <-]|[_ ?]]%lookup_insert_Some; [done|by eapply Hrg].
  - by rewrite HE.
  - intros w' f. rewrite HE, He, HW. apply and_iff_compat_l.
    destruct (decide (w = w')) as [<-|]; [|by rewrite lookup_insert_ne].
    rewrite Hw, lookup_insert_eq. destruct Hq as [Hq _]. simpl. rewrite Hq. done.
  - intros l n. rewrite HR. destruct (reqs s l) as [m|] eqn:Em; [|done]. intros [= <-].
    rewrite (countf_perm _ _ _ HP), countf_cons, (Hr _ _ Em), HW.
    unfold live_on at 2. simpl. rewrite lookup_insert_eq.
    rewrite (countf_ext (live_on (<[w:=r]> (works s)) l) (live_on (works s) l)).
    + destruct (_ && _); simpl; lia.
    + intros [w' p'] Hin. unfold live_on. simpl. rewrite lookup_insert_ne; [done|].
      intros <-. apply Hfresh, list_elem_of_fmap. by exists (w, p').
Qed.

Lemma requests_inv_move s s' w r f p p' rest : requests_inv s -> s.(works) !! w = Some r ->
  placed s ≡ₚ (w, p) :: rest -> placed s' ≡ₚ (w, p') :: rest ->
  s'.(works) = alter f w s.(works) -> (ok_place r p -> ok_place (f r) p') -> is_reported p = false ->
  (f r).(w_loop) = r.(w_loop) -> (f r).(w_queue_done) = r.(w_queue_done) ->
  (s'.(executed) = s.(executed) /\ ((f r).(w_work) = Null <-> r.(w_work) = Null) \/
   s'.(executed) = s.(executed) ++ [(w, r.(w_work))] /\ p = Running /\ (f r).(w_work) = Null) ->
  length s'.(loops) = length s.(loops) ->
  (forall l, reqs s' l = (fun n => n - Z.b2z (is_reported p' && (r.(w_queue_done) && (r.(w_loop) =? l)%nat)))
     <$> reqs s l) ->
  requests_inv s'.
Proof.
  intros [Hnd Hdom Hok Hrg Ho He Hr] Hw HP HP' HW Hf Hp Hfl Hfq HE HL HR.
  assert (ok_place r p) as Hokp.
  { destruct (Hok w p) as (r0 & Hr0 & ?); [rewrite HP; set_solver|]. congruence. }
  rewrite HP in Hnd. simpl in Hnd. apply list.NoDup_cons in Hnd as [Hnw Hnd].
  assert (forall w' q, (w', q) ∈ rest -> w <> w') as Hne.
  { intros w' q Hin <-. apply Hnw, list_elem_of_fmap. by exists (w, q). }
  split.
  - rewrite HP'. simpl. by apply list.NoDup_cons.
  - intros w'. rewrite HP', HW, lookup_alter_is_Some, <- Hdom, HP. done.
  - intros w' q Hin. rewrite HP', elem_of_cons in Hin. rewrite HW. destruct Hin as [[= -> ->]|Hin].
    + exists (f r). rewrite lookup_alter_eq, Hw. auto.
    + rewrite lookup_alter_ne by (by eapply Hne). apply Hok. rewrite HP. set_solver.
  - intros w' r'. rewrite HW, HL. intros [(<- & r0 & Hr0 & ->)|[_ ?]]%lookup_alter_Some; [|by eapply Hrg].
    simplify_eq. rewrite Hfl. by eapply Hrg.
  - destruct HE as [[-> _]|(-> & -> & Hn)]; [done|]. rewrite fmap_app. simpl. apply list.NoDup_app.
    split_and!; [done| |apply list.NoDup_singleton]. intros w' Hin ->%list_elem_of_singleton.
    apply list_elem_of_fmap in Hin as ((w' & g) & ? & Hin). simpl in *. subst w'.
    apply He in Hin as [_ Hin]. rewrite Hw in Hin. simpl in Hin. destruct Hokp. congruence.
  - intros w' g. rewrite HW. assert (w_work <$> alter f w (works s) !! w' = Some Null <->
      (w' = w /\ (f r).(w_work) = Null) \/ (w' <> w /\ w_work <$> works s !! w' = Some Null)) as ->.
    { destruct (decide (w' = w)) as [->|Hn]; [rewrite lookup_alter_eq, Hw; simpl; rewrite (inj_iff Some); tauto|].
      rewrite lookup_alter_ne by done. tauto. }
    clear - HE He Hw Hokp. destruct HE as [[-> Hiff]|(-> & -> & Hn)].
    + rewrite He. destruct (decide (w' = w)) as [->|Hne].
      * rewrite Hw. simpl. rewrite (inj_iff Some). tauto.
      * tauto.
    + rewrite elem_of_app, list_elem_of_singleton, He. destruct Hokp as [Hs _]. rewrite Hs.
      destruct (decide (w' = w)) as [->|Hne].
      * rewrite Hw. simpl. rewrite Hs. split.
        -- intros [[_ ?]|[= ->]]; [done|]. split; [done|]. by left.
        -- intros [-> _]. by right.
      * split; [intros [?|[= ? _]]; [tauto|done]|tauto].
  - intros l n. rewrite HR. destruct (reqs s l) as [m|] eqn:Em; [|done]. intros [= <-].
    rewrite (countf_perm _ _ _ HP'), countf_cons, (Hr _ _ Em), (countf_perm _ _ _ HP), countf_cons, HW.
    rewrite (countf_ext (live_on (alter f w (works s)) l) (live_on (works s) l) rest).
    + unfold live_on at 1 3. simpl. rewrite lookup_alter_eq, Hw, Hp. simpl. rewrite Hfl, Hfq.
      destruct (is_reported p'); simpl; destruct (_ && _); simpl; lia.
    + intros [w' q] Hin. unfold live_on. simpl. by rewrite lookup_alter_ne by (by eapply Hne).
Qed.

Lemma requests_inv_effect s s' : requests_inv s -> effect s s' -> requests_inv s'.
Proof.
  intros HI [HP HW HE HL HR|w r|w r f p p' rest].
  - destruct HI as [Hnd Hdom Hok Hrg Ho He Hr]. split.
    + by rewrite HP.
    + intros w. by rewrite HP, HW.
    + intros w p. rewrite HP, HW. apply Hok.
    + rewrite HW, HL. apply Hrg.
    + by rewrite HE.
    + by rewrite HE, HW.
    + intros l n. rewrite HR, HW, (countf_perm _ _ _ HP). apply Hr.
  - by eapply requests_inv_add.
  - by eapply requests_inv_move.
Qed.

(** ** The effect of each event *)

Lemma threads_set ts t x y : ts !! t = Some x ->
  exists rest, (ts ≫= thread_work) ≡ₚ thread_work x ++ rest /\
    (<[t := y]> ts ≫= thread_work) ≡ₚ thread_work y ++ rest.
Proof. intros Ht. destruct (bind_split thread_work ts t x Ht) as (rest & H1 & H2). eauto. Qed.

Lemma woken_works ts ts' : woken ts ts' -> (ts' ≫= thread_work) ≡ₚ (ts ≫= thread_work).
Proof.
  intros [|t Ht]; [done|]. destruct (threads_set ts t Waiting Woken Ht) as (rest & -> & ->). done.
Qed.

#[export] Instance tag_proper p : Proper ((≡ₚ) ==> (≡ₚ)) (tag p).
Proof. intros a b Hab. unfold tag. by rewrite Hab. Qed.

Lemma reqs_id (b : bool) (x : option Z) : x = (fun n => n - Z.b2z (false && b)) <$> x.
Proof. destruct x as [n|]; simpl; [f_equal; lia|done]. Qed.

Lemma reqs_upd_loop l f s k : (forall lp, (f lp).(lp_active_reqs) = lp.(lp_active_reqs)) ->
  reqs (upd_loop l f s) k = reqs s k.
Proof.
  intros Hf. unfold reqs. simpl. destruct (decide (l = k)) as [<-|].
  - rewrite list_lookup_alter_eq. destruct (loops s !! l); simpl; [by rewrite Hf|done].
  - by rewrite list_lookup_alter_ne.
Qed.

(** A state with the same requests in the same places can stand for another. *)
Lemma effect_from s0 s s' : placed s0 ≡ₚ placed s -> s0.(works) = s.(works) ->
  s0.(executed) = s.(executed) -> s0.(loops) = s.(loops) -> effect s0 s' -> effect s s'.
Proof.
  intros HP HW HE HL. assert (forall l, reqs s0 l = reqs s l) as HR by (intros l; unfold reqs; by rewrite HL).
  intros [HP'|w r HP'|w r f p p' rest Hw HP'].
  - apply eff_same; try congruence. by rewrite <- HP.
  - apply (eff_add s s' w r); try congruence; [by rewrite <- HP|]. intros l. by rewrite <- HR.
  - apply (eff_move s s' w r f p p' rest); rewrite <- ?HP, <- ?HW, <- ?HL, <- ?HE; try done.
    intros l. by rewrite <- HR.
Qed.

Lemma effect_post_work pick w kind s : forall s', s' = post pick (Work w) kind s ->
  placed s' ≡ₚ (w, Queued) :: placed s /\ s'.(works) = s.(works) /\
  s'.(executed) = s.(executed) /\ s'.(loops) = s.(loops).
Proof.
  intros s' ->. assert (forall q pend,
    tag Queued (q ≫= node_work) ++ tag Queued pend ≡ₚ
      (w, Queued) :: tag Queued (s.(wq) ≫= node_work) ++ tag Queued s.(slow_io_pending_wq) ->
    forall s1, s1 = signal_if_idle pick (set_wq q (set_pending pend s)) ->
    placed s1 ≡ₚ (w, Queued) :: placed s /\ s1.(works) = s.(works) /\
    s1.(executed) = s.(executed) /\ s1.(loops) = s.(loops)) as Hsig.
  { intros q pend Hq s1 ->.
    destruct (signal_if_idle_woken pick (set_wq q (set_pending pend s))) as (ts & Hts & ->).
    split_and!; try done. unfold placed. simpl. apply woken_works in Hts. simpl in Hts. rewrite Hts.
    rewrite !(assoc_L (++)), Hq. solve_Permutation. }
  assert (forall q, tag Queued ((q ++ [Work w]) ≫= node_work) ≡ₚ (w, Queued) :: tag Queued (q ≫= node_work)) as Hw.
  { intros q. rewrite bind_app, tag_app. simpl. solve_Permutation. }
  assert (set_pending (slow_io_pending_wq s) s = s) as Hid by by destruct s.
  assert (placed (signal_if_idle pick (set_wq (wq s ++ [Work w]) s)) ≡ₚ (w, Queued) :: placed s /\
    (signal_if_idle pick (set_wq (wq s ++ [Work w]) s)).(works) = s.(works) /\
    (signal_if_idle pick (set_wq (wq s ++ [Work w]) s)).(executed) = s.(executed) /\
    (signal_if_idle pick (set_wq (wq s ++ [Work w]) s)).(loops) = s.(loops)) as Hfast.
  { apply (Hsig (wq s ++ [Work w]) (slow_io_pending_wq s)); [by rewrite Hw|by rewrite Hid]. }
  destruct kind; [done..|]. unfold post.
  assert (forall q, tag Queued (q ≫= node_work) ++ tag Queued (slow_io_pending_wq s ++ [w]) ≡ₚ
    (w, Queued) :: tag Queued (q ≫= node_work) ++ tag Queued (slow_io_pending_wq s)) as Hslow.
  { intros q. rewrite tag_app. simpl. solve_Permutation. }
  case_bool_decide.
  - split_and!; try done. unfold placed. simpl. rewrite !(assoc_L (++)), Hslow. solve_Permutation.
  - apply (Hsig (wq s ++ [run_slow_work_message]) (slow_io_pending_wq s ++ [w])); [|done].
    rewrite bind_app. simpl. rewrite app_nil_r. apply Hslow.
Qed.

Lemma effect_submit pick l w kind qd after s s0 : requests_inv s -> s.(works) !! w = None ->
  (l < length s.(loops))%nat -> placed s0 ≡ₚ placed s -> s0.(works) = s.(works) ->
  s0.(executed) = s.(executed) -> length s0.(loops) = length s.(loops) ->
  (forall k, reqs s0 k = (fun n => n + Z.b2z (qd && (l =? k)%nat)) <$> reqs s k) ->
  effect s (uv__work_submit pick l w kind qd after s0).
Proof.
  intros HI Hw Hl HP HW HE HL HR. unfold uv__work_submit.
  set (r := mk_work Submitted l false qd after).
  destruct (effect_post_work pick w kind (set_works (<[w := r]> (works s0)) s0) _ eq_refl)
    as (HP' & HW' & HE' & HL').
  apply (eff_add s _ w r); try done.
  - rewrite HP'. by rewrite <- HP.
  - rewrite HW'. simpl. by rewrite HW.
  - by rewrite HE'.
  - by rewrite HL'.
  - intros k. unfold reqs. rewrite HL'. apply HR.
Qed.

Lemma skipped_works s q : skipped s q -> (q ≫= node_work) = (s.(wq) ≫= node_work).
Proof.
  intros [|q' E|q' E]; [done|by rewrite E|]. rewrite E, bind_app. simpl. by rewrite app_nil_r.
Qed.

(** Changing a thread that runs nothing to one that runs nothing. *)
Lemma effect_thread s t x y : s.(threads) !! t = Some x -> thread_work x = [] -> thread_work y = [] ->
  placed (set_thread t y s) ≡ₚ placed s.
Proof.
  intros Ht Hx Hy. unfold placed. simpl. destruct (threads_set _ t x y Ht) as (rest & -> & ->).
  by rewrite Hx, Hy.
Qed.

Lemma effect_signal pick s : placed (uv_cond_signal pick s) ≡ₚ placed s /\
  (uv_cond_signal pick s).(works) = s.(works) /\ (uv_cond_signal pick s).(executed) = s.(executed) /\
  (uv_cond_signal pick s).(loops) = s.(loops).
Proof.
  destruct (uv_cond_signal_cases pick s) as [[_ ->]|(t & Ht & ->)]; [done|].
  split_and!; try done. by apply effect_thread with Waiting.
Qed.

Lemma effect_start s s' t w b x rest : s.(threads) !! t = Some Top -> requests_inv s ->
  s'.(works) = alter (with_empty true) w s.(works) -> s'.(executed) = s.(executed) ->
  s'.(loops) = s.(loops) -> s'.(done_calls) = s.(done_calls) -> woken s.(threads) x ->
  s'.(threads) = <[t := Run w b]> x ->
  tag Queued (s.(wq) ≫= node_work) ++ tag Queued s.(slow_io_pending_wq) ≡ₚ (w, Queued) :: rest ->
  tag Queued (s'.(wq) ≫= node_work) ++ tag Queued s'.(slow_io_pending_wq) ≡ₚ rest ->
  effect s s'.
Proof.
  intros Ht HI HW HE HL HD Hx HT Hq Hq'.
  apply woken_counts in Hx as Hc. destruct Hc as (_ & _ & _ & Hkeep).
  pose proof (Hkeep t Top Ht ltac:(done)) as Ht'. apply woken_works in Hx.
  destruct (threads_set x t Top (Run w b) Ht') as (tws & H1 & H2). simpl in H1. rewrite H1 in Hx.
  set (others := tag Running tws ++ mjoin (imap loop_places s.(loops)) ++ reports s.(done_calls)).
  assert (placed s ≡ₚ (w, Queued) :: rest ++ others) as HP.
  { unfold placed. rewrite <- Hx, !(assoc_L (++)), Hq. unfold others. by rewrite !(assoc_L (++)). }
  destruct (ri_ok s HI w Queued) as (r & Hw & Hok); [rewrite HP; set_solver|].
  apply (eff_move s s' w r (with_empty true) Queued Running (rest ++ others)); try done.
  - unfold placed. rewrite HT, HL, HD, H2, tag_app, !(assoc_L (++)), Hq'. unfold others.
    simpl. solve_Permutation.
  - by intros [? _].
  - left. by split.
  - by rewrite HL.
  - intros l. unfold reqs. rewrite HL. apply reqs_id.
Qed.

Lemma effect_section_end pick t s s' : requests_inv s -> s.(threads) !! t = Some Top ->
  section_end pick t s s' -> effect s s'.
Proof.
  intros HI Ht [Hw|q Hw E|q w pending E Ep Hlt|q w E].
  - apply eff_same; try done. by apply (effect_thread s t Top).
  - destruct (effect_signal pick (set_thread t Exited s)) as (HP & HW & HE & HL).
    apply eff_same; try (rewrite ?HW, ?HE, ?HL; done).
    + rewrite HP. by apply effect_thread with Top.
    + intros l. unfold reqs. by rewrite HL.
  - cbv zeta. case_bool_decide as Hpend.
    + apply (effect_start s _ t w true (threads s) (tag Queued (q ≫= node_work))); try done;
        [apply woken_none|..]; simpl; rewrite ?E, ?Ep, ?Hpend; simpl; rewrite ?app_nil_r; try done.
      solve_Permutation.
    + match goal with |- context [signal_if_idle pick ?s1] =>
        destruct (signal_if_idle_woken pick s1) as (ts & Hts & ->) end.
      apply (effect_start s _ t w true ts (tag Queued (q ≫= node_work) ++ tag Queued pending)); try done;
        simpl; rewrite ?E, ?Ep; simpl.
      * solve_Permutation.
      * rewrite bind_app. simpl. by rewrite app_nil_r.
  - apply (effect_start s _ t w false (threads s)
      (tag Queued (q ≫= node_work) ++ tag Queued (slow_io_pending_wq s))); try done; [apply woken_none|..].
    by rewrite E.
Qed.

Lemma effect_section pick t s s0 s' : requests_inv s0 -> one_message s0 -> s0.(threads) !! t = Some Top ->
  placed s0 ≡ₚ placed s -> s0.(works) = s.(works) -> s0.(executed) = s.(executed) ->
  s0.(loops) = s.(loops) -> worker_section 3 pick t s0 = Some s' -> effect s s'.
Proof.
  intros HI Hm Ht HP HW HE HL E.
  destruct (worker_section_cases pick t s0 Hm) as (q & s1 & E1 & Hq & He).
  rewrite E1 in E. injection E as <-.
  assert (placed (set_wq q s0) = placed s0) as HPq.
  { unfold placed. simpl. by rewrite (skipped_works s0 q). }
  apply (effect_from (set_wq q s0)); [by rewrite HPq|done..|].
  eapply effect_section_end; [|exact Ht|exact He].
  apply (requests_inv_effect s0); [done|]. by apply eff_same; try done; rewrite HPq.
Qed.

Lemma effect_finish t w b s s' : requests_inv s -> s.(threads) !! t = Some (Run w b) ->
  worker_finish t w b s = Some s' -> effect s s'.
Proof.
  intros HI Ht. unfold worker_finish. destruct (works s !! w) as [r|] eqn:Hw; [|done]. intros [= <-].
  destruct (threads_set _ t _ (Relock b) Ht) as (tws & H1 & H2).
  destruct (lookup_lt_is_Some_2 (loops s) (w_loop r)) as [lp Hlp]; [by eapply ri_range|].
  destruct (loops_split _ _ _ Hlp) as (lws & H3 & H4).
  set (rest := tag Queued (s.(wq) ≫= node_work) ++ tag Queued s.(slow_io_pending_wq) ++
    tag Running tws ++ loop_places (w_loop r) lp ++ lws ++ reports s.(done_calls)).
  apply (eff_move s _ w r (fun r => with_empty false (with_fn Null r)) Running (Completed (w_loop r)) rest);
    try done.
  - unfold placed. rewrite H1, H3, tag_app. simpl. unfold rest. solve_Permutation.
  - unfold placed. simpl. rewrite H2, H4. unfold rest, loop_places. simpl. rewrite !tag_app. simpl.
    solve_Permutation.
  - right. by split.
  - simpl. by rewrite length_alter.
  - intros l. etrans; [|apply reqs_id]. exact (reqs_upd_loop (w_loop r) (fun lp => with_lp_wq (lp_wq lp ++ [w]) lp) s l (fun _ => eq_refl)).
Qed.

Definition in_queue (p : place) : bool := match p with Queued | Completed _ => true | _ => false end.

(** [QUEUE_REMOVE] takes the request out of the queues and nothing else. *)
Definition kept (w : nat) (x : nat * place) : Prop := ~ (x.1 = w /\ in_queue x.2 = true).

#[export] Instance kept_dec w x : Decision (kept w x).
Proof. unfold kept. apply _. Defined.

Lemma filter_tag w p ws : filter (kept w) (tag p ws) =
  tag p (if in_queue p then filter (fun x => x <> w) ws else ws).
Proof.
  unfold tag. induction ws as [|x ws IH]; [by destruct (in_queue p)|].
  rewrite fmap_cons, filter_cons, IH.
  destruct (decide (kept w (x, p))) as [Hk|Hk]; unfold kept in Hk; simpl in Hk;
    destruct (in_queue p); simpl; try done.
  - rewrite filter_cons_True by tauto. done.
  - rewrite filter_cons_False by tauto. done.
  - exfalso. apply Hk. by intros [_ ?].
Qed.

Lemma filter_nodes w q : (filter (fun n => n <> Work w) q) ≫= node_work
  = filter (fun x => x <> w) (q ≫= node_work).
Proof.
  induction q as [|n q IH]; [done|]. rewrite bind_cons, list.filter_app, <- IH.
  destruct n as [| |x]; [by rewrite filter_cons_True by done..|].
  cbn [node_work]. destruct (decide (x = w)) as [->|].
  - rewrite filter_cons_False by (intros Hn; by apply Hn).
    by rewrite filter_cons_False by (intros Hn; by apply Hn).
  - rewrite filter_cons_True by congruence. by rewrite (filter_cons_True (fun y => y <> w)) by done.
Qed.

Lemma filter_loops w ls :
  mjoin (imap loop_places ((fun lp => with_lp_local (filter (fun x => x <> w) lp.(lp_local))
    (with_lp_wq (filter (fun x => x <> w) lp.(lp_wq)) lp)) <$> ls))
  = filter (kept w) (mjoin (imap loop_places ls)).
Proof.
  assert (forall k, mjoin (imap (fun n => loop_places (k + n))
      ((fun lp => with_lp_local (filter (fun x => x <> w) lp.(lp_local))
        (with_lp_wq (filter (fun x => x <> w) lp.(lp_wq)) lp)) <$> ls))
    = filter (kept w) (mjoin (imap (fun n => loop_places (k + n)) ls))) as Hk; [|apply (Hk 0%nat)].
  induction ls as [|lp ls IH]; intros k; [done|].
  rewrite fmap_cons, !imap_cons, !mjoin_cons, list.filter_app. f_equal.
  - unfold loop_places. simpl. by rewrite list.filter_app, !filter_tag, list.filter_app.
  - specialize (IH (S k)). etrans; [etrans; [|apply IH]|].
    + f_equal. apply imap_ext. intros i x _. unfold compose. f_equal. lia.
    + f_equal. f_equal. apply imap_ext. intros i x _. unfold compose. f_equal. lia.
Qed.

Lemma filter_reports w calls : filter (kept w) (reports calls) = reports calls.
Proof.
  unfold reports. induction calls as [|c calls IH]; [done|].
  rewrite fmap_cons, filter_cons, IH, decide_True; [done|]. by intros [_ ?].
Qed.

Lemma placed_queue_remove w s : placed (queue_remove w s) = filter (kept w) (placed s).
Proof.
  unfold placed. rewrite !list.filter_app, !filter_tag, <- filter_loops, filter_reports.
  simpl. by rewrite filter_nodes.
Qed.

Lemma placed_removed w p s rest : requests_inv s -> in_queue p = true -> placed s ≡ₚ (w, p) :: rest ->
  placed (queue_remove w s) ≡ₚ rest.
Proof.
  intros HI Hp HP. rewrite placed_queue_remove, HP, filter_cons, decide_False by (intros Hk; by apply Hk).
  pose proof (ri_nodup s HI) as Hnd. rewrite HP in Hnd. simpl in Hnd.
  apply list.NoDup_cons in Hnd as [Hnw _].
  assert (Forall (fun x => x.1 <> w) rest) as Hall.
  { apply list.Forall_forall. intros x Hx <-. by apply Hnw, list_elem_of_fmap_2. }
  clear - Hall. induction Hall as [|x l Hx _ IH]; [done|].
  rewrite filter_cons, decide_True by (by intros [? _]). by rewrite IH.
Qed.

(** Reading a place back from the list. *)
Lemma placed_cancelling w l s : (w, Cancelling l) ∈ placed s ->
  exists lp, s.(loops) !! l = Some lp /\ lp.(lp_cancelling) = Some w.
Proof.
  unfold placed, tag, reports. rewrite !elem_of_app, !list_elem_of_fmap, list_elem_of_join.
  intros [(? & ? & _)|[(? & ? & _)|[(? & ? & _)|[(ps & Hin & Hps)|(? & ? & _)]]]]; try done.
  apply list_elem_of_lookup in Hps as [k Hk]. rewrite list_lookup_imap in Hk.
  destruct (loops s !! k) as [lp|] eqn:Hlp; [|done]. injection Hk as <-.
  unfold loop_places, tag in Hin. rewrite elem_of_app, !list_elem_of_fmap in Hin.
  destruct Hin as [(? & ? & _)|(w' & [= <- ->] & Hc)]; [done|].
  exists lp. split; [done|]. destruct (lp_cancelling lp); [|by apply not_elem_of_nil in Hc].
  apply list_elem_of_singleton in Hc. by subst.
Qed.

Lemma placed_reported w e s : (w, Reported e) ∈ placed s <-> (w, e) ∈ s.(done_calls).
Proof.
  unfold placed, tag, reports. rewrite !elem_of_app, !list_elem_of_fmap, list_elem_of_join. split.
  - intros [(? & ? & _)|[(? & ? & _)|[(? & ? & _)|[(ps & Hin & Hps)|([w' e'] & [= -> ->] & ?)]]]]; try done.
    apply list_elem_of_lookup in Hps as [k Hk]. rewrite list_lookup_imap in Hk.
    destruct (loops s !! k) as [lp|] eqn:Hlp; [|done]. injection Hk as <-.
    unfold loop_places, tag in Hin. rewrite elem_of_app, !list_elem_of_fmap in Hin.
    by destruct Hin as [(? & ? & _)|(? & ? & _)].
  - intros Hin. do 4 right. by exists (w, e).
Qed.

Lemma placed_perm s w p : (w, p) ∈ placed s -> exists rest, placed s ≡ₚ (w, p) :: rest.
Proof. apply elem_of_Permutation. Qed.

(** [uv_cancel] succeeds on a request that is queued, or was cancelled before;
    it is then in a queue. *)
Lemma cancel_location l w s r : requests_inv s -> loop_free l s -> active_on l w s ->
  s.(works) !! w = Some r -> r.(w_empty) = false -> r.(w_work) <> Null ->
  exists p rest, placed s ≡ₚ (w, p) :: rest /\ in_queue p = true /\ r.(w_loop) = l.
Proof.
  intros HI (lp & Hlp & Hc) [Hl Hnd] Hw He Hn. rewrite Hw in Hl. injection Hl as Hl.
  assert (w ∈ (placed s).*1) as Hin by (rewrite (ri_dom s HI), Hw; by eexists).
  apply list_elem_of_fmap in Hin as ([w' p] & Hw' & Hin). simpl in Hw'. subst w'.
  destruct (ri_ok s HI w p Hin) as (r' & Hr' & Hok). simplify_eq.
  destruct (placed_perm _ _ _ Hin) as [rest HP]. exists p, rest. split_and!; try done.
  destruct p as [| |l'|l'|e]; simpl in *; try done; [destruct Hok; congruence|..]; exfalso.
  - destruct Hok as (_ & _ & <-). apply placed_cancelling in Hin as (lp' & Hlp' & Hc'). simplify_eq.
  - apply placed_reported in Hin. apply Hnd, list_elem_of_fmap. by exists (w, e).
Qed.

Lemma length_queue_remove w s : length (queue_remove w s).(loops) = length s.(loops).
Proof. simpl. by rewrite length_fmap. Qed.

Lemma effect_cancel_try l w s : requests_inv s -> loop_free l s -> active_on l w s ->
  effect s (cancel_try l w s).2.
Proof.
  intros HI Hfree Hact. unfold cancel_try. destruct (works s !! w) as [r|] eqn:Hw; [|by apply eff_same].
  destruct (negb (w_empty r) && _) eqn:E; [|by apply eff_same].
  apply andb_true_iff in E as [He%negb_true_iff Hn%bool_decide_eq_true].
  destruct (cancel_location l w s r) as (p & rest & HP & Hq & Hl); try done.
  destruct Hfree as (lp & Hlp & Hc).
  assert ((queue_remove w s).(loops) !! l = Some (with_lp_local (filter (fun x => x <> w) lp.(lp_local))
    (with_lp_wq (filter (fun x => x <> w) lp.(lp_wq)) lp))) as Hlp' by (simpl; by rewrite list_lookup_fmap, Hlp).
  destruct (loops_split _ _ _ Hlp') as (lws & H1 & H2).
  pose proof (placed_removed w p s rest HI Hq HP) as HR.
  apply (eff_move s _ w r (fun r => r) p (Cancelling l) rest); try done.
  - unfold placed. cbn [snd loops upd_loop set_loops]. rewrite H2. rewrite <- HR. unfold placed.
    rewrite H1. unfold loop_places. simpl. rewrite Hc. simpl. solve_Permutation.
  - simpl. symmetry. by apply alter_id.
  - by destruct p.
  - left. by split.
  - cbn [snd loops upd_loop set_loops]. by rewrite length_alter, length_queue_remove.
  - intros k. etrans; [|apply reqs_id]. cbn [snd]. rewrite reqs_upd_loop by done.
    unfold reqs. simpl. rewrite list_lookup_fmap. by destruct (loops s !! k).
Qed.

Lemma effect_cancel_finish l w lp s : requests_inv s -> s.(loops) !! l = Some lp ->
  lp.(lp_cancelling) = Some w -> effect s (cancel_finish l w s).
Proof.
  intros HI Hlp Hc. destruct (loops_split _ _ _ Hlp) as (lws & H1 & H2).
  set (others := tag Queued (s.(wq) ≫= node_work) ++ tag Queued s.(slow_io_pending_wq) ++
    tag Running (s.(threads) ≫= thread_work) ++ lws ++ reports s.(done_calls)).
  set (rest := tag (Completed l) (lp_wq lp ++ lp_local lp) ++ others).
  assert (placed s ≡ₚ (w, Cancelling l) :: rest) as HP.
  { unfold placed. rewrite H1. unfold loop_places, rest, others. rewrite Hc. simpl. solve_Permutation. }
  destruct (ri_ok s HI w (Cancelling l)) as (r & Hw & Hok); [rewrite HP; set_solver|].
  apply (eff_move s _ w r (with_fn uv__cancelled) (Cancelling l) (Completed l) rest); try done.
  - unfold placed. simpl. rewrite H2. unfold loop_places, rest, others. simpl. rewrite !tag_app. simpl.
    solve_Permutation.
  - by intros (? & ? & ?).
  - left. split; [done|]. simpl. destruct Hok as (? & _). split; [done|]. intros ?. congruence.
  - simpl. by rewrite length_alter.
  - intros k. etrans; [|apply reqs_id].
    exact (reqs_upd_loop l (fun lp => with_lp_wq (lp_wq lp ++ [w]) (with_lp_cancelling None lp)) s k (fun _ => eq_refl)).
Qed.

Lemma effect_done_begin l s : (lp_local <$> s.(loops) !! l) = Some [] -> effect s (work_done_begin l s).
Proof.
  destruct (loops s !! l) as [lp|] eqn:Hlp; [|done]. intros [= Hloc].
  destruct (loops_split _ _ _ Hlp) as (lws & H1 & H2). apply eff_same; try done.
  - unfold placed. simpl. rewrite H2, H1. unfold loop_places. simpl. rewrite Hloc.
    rewrite app_nil_r. done.
  - simpl. by rewrite length_alter.
  - intros k. by apply reqs_upd_loop.
Qed.

Lemma reports_app a b : reports (a ++ b) = reports a ++ reports b.
Proof. apply fmap_app. Qed.

Lemma effect_done_next l w q lp s s' : requests_inv s -> s.(loops) !! l = Some lp ->
  lp.(lp_local) = w :: q -> work_done_next l w s = Some s' -> effect s s'.
Proof.
  intros HI Hlp Hloc. destruct (loops_split _ _ _ Hlp) as (lws & H1 & H2).
  set (others := tag Queued (s.(wq) ≫= node_work) ++ tag Queued s.(slow_io_pending_wq) ++
    tag Running (s.(threads) ≫= thread_work) ++ lws ++ reports s.(done_calls)).
  set (rest := tag (Completed l) (lp_wq lp ++ q) ++ tag (Cancelling l) (option_list (lp_cancelling lp)) ++ others).
  assert (placed s ≡ₚ (w, Completed l) :: rest) as HP.
  { unfold placed. rewrite H1. unfold loop_places, rest, others. rewrite Hloc, !tag_app. simpl.
    solve_Permutation. }
  destruct (ri_ok s HI w (Completed l)) as (r & Hw & Hok); [rewrite HP; set_solver|].
  unfold work_done_next. rewrite Hw.
  set (err := if bool_decide (w_work r = uv__cancelled) then UV_ECANCELED else 0).
  assert (forall s1 g, s1 = upd_loop l g (set_done (done_calls s ++ [(w, err)]) s) ->
    (g lp).(lp_wq) = lp.(lp_wq) -> (g lp).(lp_local) = q -> (g lp).(lp_cancelling) = lp.(lp_cancelling) ->
    (g lp).(lp_active_reqs) = lp.(lp_active_reqs) - Z.b2z (w_queue_done r) -> effect s s1) as Hmain.
  { intros s1 g -> Eq El Ec Er.
    apply (eff_move s _ w r (fun r => r) (Completed l) (Reported err) rest); try done.
    - unfold placed. simpl. rewrite H2, reports_app. unfold loop_places, rest, others.
      rewrite Eq, El, Ec. simpl. solve_Permutation.
    - simpl. symmetry. by apply alter_id.
    - by intros (? & _ & _).
    - left. by split.
    - simpl. by rewrite length_alter.
    - intros k. unfold reqs. simpl. destruct Hok as (_ & _ & ->).
      destruct (Nat.eqb_spec l k) as [<-|Hk].
      + rewrite list_lookup_alter_eq, Hlp. simpl. by rewrite Er, andb_true_r.
      + rewrite list_lookup_alter_ne by done. rewrite andb_false_r. destruct (loops s !! k); simpl; [|done].
        f_equal. lia. }
  destruct (w_queue_done r) eqn:Hqd.
  - unfold uv__queue_done. cbn [loops set_done upd_loop set_loops]. rewrite list_lookup_alter_eq, Hlp.
    cbn [fmap option_fmap option_map]. case_match; [|done]. intros [= <-].
    apply (Hmain _ (with_lp_reqs (lp_active_reqs lp - 1) ∘ fun lp => with_lp_local (tail lp.(lp_local)) lp));
      try done; [|simpl; by rewrite Hloc].
    unfold upd_loop, set_done, set_loops. simpl. by rewrite list_alter_alter_eq.
  - intros [= <-]. apply (Hmain _ (fun lp => with_lp_local (tail lp.(lp_local)) lp)); try done; simpl.
    + by rewrite Hloc.
    + lia.
Qed.

Lemma effect_cleanup pick s : effect s (post pick exit_message UV__WORK_CPU s).
Proof.
  unfold post. destruct (signal_if_idle_woken pick (set_wq (wq s ++ [exit_message]) s)) as (ts & Hts & ->).
  apply eff_same; try done. unfold placed. simpl. apply woken_works in Hts. simpl in Hts.
  rewrite Hts, bind_app. simpl. by rewrite app_nil_r.
Qed.

Lemma exec_effect e s s' : requests_inv s -> one_message s -> exec e s = Some s' -> effect s s'.
Proof.
  intros HI Hm. destruct e as [pick l w kind|pick l w after|pick t|t|t|t|l w|l|l|l|pick]; simpl; unfold guard_.
  - case_decide as Hg; [|done]. destruct Hg as [(lp & Hlp & _) Hw]. intros [= <-].
    apply effect_submit; try done; [by eapply lookup_lt_Some|].
    intros k. destruct (reqs s k); simpl; [f_equal; lia|done].
  - case_decide as Hg; [|done]. destruct Hg as [(lp & Hlp & _) Hw]. intros [= <-].
    destruct (loops_split _ _ _ Hlp) as (lws & H1 & H2).
    apply effect_submit; try done; [by eapply lookup_lt_Some| | |].
    + unfold placed. simpl. rewrite H2, H1. done.
    + simpl. by rewrite length_alter.
    + intros k. unfold reqs. simpl. destruct (Nat.eqb_spec l k) as [<-|Hk].
      * rewrite list_lookup_alter_eq, Hlp. done.
      * rewrite list_lookup_alter_ne by done. destruct (loops s !! k); simpl; [|done]. f_equal. lia.
  - destruct (threads s !! t) as [[]|] eqn:Ht; try done.
    + by apply effect_section.
    + intros E.
      assert (placed (set_idle (idle_threads s - 1) (set_thread t Top s)) ≡ₚ placed s) as HP
        by by apply (effect_thread s t Woken).
      apply (effect_section pick t s (set_idle (idle_threads s - 1) (set_thread t Top s))); try done.
      * apply (requests_inv_effect s); [done|]. by apply eff_same.
      * simpl. apply list_lookup_insert_eq. by eapply lookup_lt_Some.
  - destruct (threads s !! t) as [[| | |w b| |]|] eqn:Ht; try done. by apply effect_finish.
  - destruct (threads s !! t) as [[| | | |b|]|] eqn:Ht; try done. intros [= <-].
    pose proof (effect_thread s t (Relock b) Top Ht eq_refl eq_refl). by destruct b; apply eff_same.
  - destruct (threads s !! t) as [[]|] eqn:Ht; try done. intros [= <-].
    pose proof (effect_thread s t Waiting Woken Ht eq_refl eq_refl). by apply eff_same.
  - case_decide as Hg; [|done]. destruct Hg. intros [= <-]. by apply effect_cancel_try.
  - destruct (loops s !! l) as [lp|] eqn:Hlp; [|done]. destruct (lp_cancelling lp) as [w|] eqn:Hc; [|done].
    intros [= <-]. by eapply effect_cancel_finish.
  - case_decide as Hg; [|done]. destruct Hg. intros [= <-]. by apply effect_done_begin.
  - case_decide as Hg; [|done]. destruct (loops s !! l) as [lp|] eqn:Hlp; [|done]. simpl.
    destruct (lp_local lp) as [|w q] eqn:Hl; [done|]. by eapply effect_done_next.
  - case_decide; [|done]. intros [= <-]. apply effect_cleanup.
Qed.

(** ** Reachable states *)

Lemma init_nthreads_range val malloc_ok : 1 <= init_nthreads val malloc_ok <= MAX_THREADPOOL_SIZE.
Proof.
  unfold init_nthreads, MAX_THREADPOOL_SIZE, default_threads.
  set (n := match val with Some v => wrap 32 v | None => 4 end).
  assert (0 <= n) by (unfold n; destruct val as [v|]; [apply (wrap_range 32 v); lia|lia]).
  destruct (Z.eqb_spec n 0); destruct malloc_ok; simpl;
    repeat (case_match; simpl); rewrite ?andb_true_iff, ?Z.ltb_lt, ?Z.ltb_ge in *; lia.
Qed.

Lemma workers_inv_init val malloc_ok nloops : workers_inv (init_threads val malloc_ok nloops).
Proof.
  pose proof (init_nthreads_range val malloc_ok) as Hn. unfold init_threads.
  assert (forall f k, f Top = false -> countf f (replicate k Top) = 0%nat) as Hc.
  { intros f k Hf. induction k as [|k IH]; [done|]. simpl. by rewrite countf_cons, Hf, IH. }
  split; simpl; rewrite ?length_replicate, ?Hc by done; try done; try lia.
  - unfold slow_work_thread_threshold. simpl. apply Z.div_pos; lia.
  - unfold one_message. simpl. rewrite countf_nil. lia.
Qed.

Lemma requests_inv_init val malloc_ok nloops : requests_inv (init_threads val malloc_ok nloops).
Proof.
  assert (placed (init_threads val malloc_ok nloops) = []) as HP.
  { unfold placed, init_threads. simpl.
    assert (forall k, replicate k Top ≫= thread_work = []) as ->
      by (intros k; induction k as [|k IH]; [done|by simpl]).
    assert (forall n k, mjoin (imap (fun i => loop_places (n + i)) (replicate k (mk_loop [] [] None 0))) = []) as Hl.
    { intros n k. revert n. induction k as [|k IH]; intros n; [done|]. simpl. rewrite <- (IH (S n)).
      f_equal. apply imap_ext. intros i x _. unfold compose. f_equal. lia. }
    by rewrite (Hl 0%nat nloops : mjoin (imap loop_places _) = []). }
  split; rewrite ?HP; simpl.
  - apply base.NoDup_nil_2.
  - intros w. rewrite lookup_empty. split; [by intros ?%not_elem_of_nil|by intros [? ?]].
  - by intros w p ?%not_elem_of_nil.
  - intros w r. by rewrite lookup_empty.
  - apply base.NoDup_nil_2.
  - intros w f. rewrite lookup_empty. split; [by intros ?%not_elem_of_nil|by intros [_ ?]].
  - intros l n. unfold reqs. simpl. destruct (replicate nloops _ !! l) eqn:E; [|done].
    apply lookup_replicate in E as [-> _]. by intros [= <-].
Qed.

Lemma reachable_inv s : reachable s -> workers_inv s /\ requests_inv s.
Proof.
  induction 1 as [val m k|s e s' _ [IHw IHr] E]; [split; [apply workers_inv_init|apply requests_inv_init]|].
  split; [by eapply workers_inv_exec|]. eapply requests_inv_effect; [done|].
  by eapply exec_effect; [|apply IHw|].
Qed.

Lemma reachable_run es s s' : reachable s -> run_events es s = Some s' -> reachable s'.
Proof.
  revert s. induction es as [|e es IH]; intros s Hs; simpl; [by intros [= <-]|].
  destruct (exec e s) as [s1|] eqn:E; [|done]. apply IH. by eapply reachable_step.
Qed.

Lemma done_once s w e1 e2 : requests_inv s -> (w, e1) ∈ s.(done_calls) -> (w, e2) ∈ s.(done_calls) -> e1 = e2.
Proof.
  intros HI H1%placed_reported H2%placed_reported.
  destruct (ri_ok s HI _ _ H1) as (r & Hr & _ & ->). destruct (ri_ok s HI _ _ H2) as (r' & Hr' & _ & ->).
  by simplify_eq.
Qed.

Lemma NoDup_done s : requests_inv s -> NoDup s.(done_calls).*1.
Proof.
  intros HI. pose proof (ri_nodup s HI) as Hnd. unfold placed in Hnd. rewrite !fmap_app in Hnd.
  do 4 (apply list.NoDup_app in Hnd as (_ & _ & Hnd)). unfold reports in Hnd.
  by rewrite <- list_fmap_compose in Hnd.
Qed.

(** ** Theorems *)

(** C1 (safety): in every reachable state each submitted request is in exactly
    one place, and its [done] callback was called at most once: with status 0
    after its work function ran exactly once, or with [UV_ECANCELED] when it
    never ran and never will. The function a worker calls is always the
    submitted one, so [uv__cancelled], which aborts, is never called. *)
Theorem threadpool_exactly_once (s : pool) : reachable s ->
  NoDup (placed s).*1 /\ (forall w, w ∈ (placed s).*1 <-> is_Some (s.(works) !! w)) /\
  NoDup s.(done_calls).*1 /\ NoDup s.(executed).*1 /\
  (forall w f, (w, f) ∈ s.(executed) -> f = Submitted) /\
  (forall w err, (w, err) ∈ s.(done_calls) ->
    err = 0 /\ w ∈ s.(executed).*1 \/ err = UV_ECANCELED /\ (w ∉ s.(executed).*1)).
Proof.
  intros [_ HI]%reachable_inv.
  assert (forall w, w ∈ s.(executed).*1 <-> w_work <$> s.(works) !! w = Some Null) as Hex.
  { intros w. rewrite list_elem_of_fmap. split.
    - intros ([w' f] & -> & Hin). by apply (ri_exec s HI) in Hin as [_ ?].
    - intros Hn. exists (w, Submitted). split; [done|]. by apply (ri_exec s HI). }
  split_and!; [apply HI|apply HI|by apply NoDup_done|apply HI| |].
  - by intros w f [? _]%(ri_exec s HI).
  - intros w err Hin%placed_reported. destruct (ri_ok s HI _ _ Hin) as (r & Hr & Hs & ->).
    rewrite Hex, Hr. simpl. destruct (w_work r); [done|by left|right; split; [done|by intros [=]]].
Qed.

(** A short run with two worker threads: three requests, the last cancelled
    while queued, then both reports. *)
Definition demo_events : list event :=
  [EvQueueWork 0 0 10 true; EvSubmit 0 0 11 UV__WORK_SLOW_IO; EvQueueWork 0 0 12 false;
   EvWorker 0 0; EvWorker 0 1; EvCancelTry 0 12; EvCancelFinish 0; EvWorkDone 0; EvRelock 0;
   EvDoneBegin 0; EvDoneNext 0; EvDoneNext 0; EvWorker 0 0].

Definition demo_pool : pool :=
  default (init_threads (Some 2) true 1) (run_events demo_events (init_threads (Some 2) true 1)).

Lemma demo_reachable : reachable demo_pool.
Proof. apply (reachable_run demo_events (init_threads (Some 2) true 1)); [constructor|vm_compute; reflexivity]. Qed.

Example demo_done : demo_pool.(done_calls) = [(12%nat, UV_ECANCELED); (10%nat, 0)].
Proof. vm_compute. reflexivity. Qed.

Lemma threadpool_exactly_once_witness :
  NoDup demo_pool.(done_calls).*1 /\
  (forall w err, (w, err) ∈ demo_pool.(done_calls) ->
    err = 0 /\ w ∈ demo_pool.(executed).*1 \/ err = UV_ECANCELED /\ (w ∉ demo_pool.(executed).*1)).
Proof.
  destruct (threadpool_exactly_once demo_pool demo_reachable) as (_ & _ & Hd & _ & _ & Hr). by split.
Defined.

(** The pool starts between 1 and 1024 threads, and in every
    reachable state [slow_io_work_running] counts the threads that run slow
    requests and never exceeds half of the threads, rounded up; waiting slow
    requests are always announced by the message in [wq], which is there at
    most once; [idle_threads] counts the threads in [uv_cond_wait]. *)
Theorem threadpool_slow_io_bound (s : pool) : reachable s ->
  (forall val malloc_ok, 1 <= init_nthreads val malloc_ok <= MAX_THREADPOOL_SIZE) /\
  s.(nthreads) = Z.of_nat (length s.(threads)) /\
  s.(slow_io_work_running) = Z.of_nat (countf is_slow_thread s.(threads)) /\
  s.(slow_io_work_running) <= (s.(nthreads) + 1) `div` 2 /\
  s.(idle_threads) = Z.of_nat (countf is_idle_thread s.(threads)) /\
  (countf is_msg s.(wq) <= 1)%nat /\
  (s.(slow_io_pending_wq) <> [] -> run_slow_work_message ∈ s.(wq)).
Proof. intros [HI _]%reachable_inv. split; [apply init_nthreads_range|]. by destruct HI. Qed.

Lemma threadpool_slow_io_bound_witness :
  demo_pool.(slow_io_work_running) = Z.of_nat (countf is_slow_thread demo_pool.(threads)) /\
  demo_pool.(slow_io_work_running) <= (demo_pool.(nthreads) + 1) `div` 2.
Proof. destruct (threadpool_slow_io_bound demo_pool demo_reachable) as (_ & _ & ? & ? & _). by split. Defined.

(** C7 (liveness): no thread is ever stuck at a section of the code (the
    worker's loop ends, no lookup fails, the assertion of
    [uv__req_unregister] holds), and no wakeup is lost: when there is work that
    may start and a thread waits, some thread is awake to look at the queue. *)
Theorem threadpool_progress (s : pool) : reachable s ->
  (forall pick t, s.(threads) !! t = Some Top \/ s.(threads) !! t = Some Woken ->
    is_Some (exec (EvWorker pick t) s)) /\
  (forall t w b, s.(threads) !! t = Some (Run w b) -> is_Some (exec (EvWorkDone t) s)) /\
  (forall l w q lp, s.(loops) !! l = Some lp -> lp.(lp_cancelling) = None -> lp.(lp_local) = w :: q ->
    is_Some (exec (EvDoneNext l) s)) /\
  (must_wait s = false -> Waiting ∈ s.(threads) -> someone_awake s).
Proof.
  intros [HW HI]%reachable_inv. split_and!; [| | |apply HW].
  - intros pick t Ht. cbn [exec]. destruct Ht as [Ht|Ht]; rewrite Ht.
    + destruct (worker_section_cases pick t s) as (q & s' & -> & _); [apply HW|done].
    + set (s0 := set_idle _ _). destruct (worker_section_cases pick t s0) as (q & s' & -> & _); [apply HW|done].
  - intros t w b Ht. cbn [exec]. rewrite Ht. unfold worker_finish.
    destruct (threads_set _ t _ Top Ht) as (tws & H1 & _).
    destruct (ri_ok s HI w Running) as (r & -> & _); [|done].
    unfold placed. rewrite H1, tag_app. simpl. set_solver.
  - intros l w q lp Hlp Hc Hq. cbn [exec]. unfold guard_.
    rewrite decide_True by (by exists lp). rewrite Hlp. simpl. rewrite Hq.
    destruct (loops_split _ _ _ Hlp) as (lws & H1 & _).
    assert ((w, Completed l) ∈ placed s) as Hin.
    { unfold placed. rewrite H1. unfold loop_places. rewrite Hq, tag_app. simpl. set_solver. }
    destruct (ri_ok s HI _ _ Hin) as (r & Hr & _ & _ & Hl). unfold work_done_next. rewrite Hr.
    destruct (w_queue_done r) eqn:Hqd; [|done]. unfold uv__queue_done. simpl.
    rewrite list_lookup_alter_eq, Hlp. simpl.
    assert (0 < lp_active_reqs lp) as Hpos; [|by rewrite (proj2 (Z.ltb_lt _ _) Hpos)].
    rewrite (ri_reqs s HI l (lp_active_reqs lp)) by (unfold reqs; by rewrite Hlp).
    assert (0 < countf (live_on (works s) l) (placed s))%nat; [|lia].
    apply (countf_pos _ _ (w, Completed l)); [done|]. unfold live_on. simpl. rewrite Hr, Hqd, Hl.
    by rewrite Nat.eqb_refl.
Qed.

Lemma threadpool_progress_witness : is_Some (exec (EvDoneNext 0) (default demo_pool
  (run_events (take 10 demo_events) (init_threads (Some 2) true 1)))).
Proof.
  apply (threadpool_progress (default demo_pool
    (run_events (take 10 demo_events) (init_threads (Some 2) true 1)))) with 12%nat [10%nat]
    (mk_loop [] [12%nat; 10%nat] None 2).
  all: try (vm_compute; reflexivity).
  apply (reachable_run (take 10 demo_events) (init_threads (Some 2) true 1)); [constructor|vm_compute; reflexivity].
Defined.

Lemma placed_running w s : (w, Running) ∈ placed s <-> exists t b, s.(threads) !! t = Some (Run w b).
Proof.
  split.
  - unfold placed, tag, reports. rewrite !elem_of_app, !list_elem_of_fmap, list_elem_of_join.
    intros [(? & ? & _)|[(? & ? & _)|[(w' & [= <-] & Hin)|[(ps & Hin & Hps)|(? & ? & _)]]]]; try done.
    + apply list_elem_of_bind in Hin as (th & Hw & Hth). apply list_elem_of_lookup in Hth as [t Ht].
      destruct th as [| | |w' b| |]; try by apply not_elem_of_nil in Hw.
      apply list_elem_of_singleton in Hw as <-. by exists t, b.
    + apply list_elem_of_lookup in Hps as [k Hk]. rewrite list_lookup_imap in Hk.
      destruct (loops s !! k) as [lp|] eqn:Hlp; [|done]. injection Hk as <-.
      unfold loop_places, tag in Hin. rewrite elem_of_app, !list_elem_of_fmap in Hin.
      by destruct Hin as [(? & ? & _)|(? & ? & _)].
  - intros (t & b & Ht). destruct (threads_set _ t _ Top Ht) as (tws & H1 & _).
    unfold placed. rewrite H1, tag_app. simpl. set_solver.
Qed.

(** The request is being executed, or was. *)
Definition started (w : nat) (s : pool) : Prop :=
  (exists t b, s.(threads) !! t = Some (Run w b)) \/ w ∈ s.(executed).*1.

(** Cancelling a request whose callback is still to come
    fails with [UV_EBUSY] and no effect exactly when a worker has started it;
    otherwise it succeeds, and afterwards the request is in no work queue and
    last in the completion queue of its loop, marked as cancelled, without
    having run. *)
Theorem uv_cancel_outcome (s : pool) (ty : req_type) (l w : nat) :
  reachable s -> loop_free l s -> active_on l w s -> ty <> UV_OTHER_REQ ->
  (started w s -> uv_cancel ty l w s = (UV_EBUSY, s)) /\
  (~ started w s -> exists s', uv_cancel ty l w s = (0, s') /\
    (Work w ∉ s'.(wq)) /\ (w ∉ s'.(slow_io_pending_wq)) /\ s'.(executed) = s.(executed) /\
    w_work <$> s'.(works) !! w = Some uv__cancelled /\
    exists lp q, s'.(loops) !! l = Some lp /\ lp.(lp_wq) = q ++ [w] /\ lp.(lp_cancelling) = None).
Proof.
  intros [_ HI]%reachable_inv Hfree Hact Hty.
  assert (uv_cancel ty l w s = uv__work_cancel l w s) as -> by by destruct ty.
  pose proof Hact as [Hl _]. destruct (works s !! w) as [r|] eqn:Hw; [|done]. injection Hl as Hl.
  unfold uv__work_cancel, cancel_try. rewrite Hw. split.
  - intros Hst. assert (negb (w_empty r) && bool_decide (w_work r <> Null) = false) as ->; [|done].
    destruct Hst as [Hrun|Hex].
    + apply placed_running in Hrun. destruct (ri_ok s HI _ _ Hrun) as (r' & Hr' & _ & He). simplify_eq.
      by rewrite He.
    + apply list_elem_of_fmap in Hex as ([w' f] & -> & Hin). apply (ri_exec s HI) in Hin as [_ Hn].
      simpl in Hw. rewrite Hw in Hn. injection Hn as Hn. rewrite bool_decide_eq_false_2 by (intros Hc; by apply Hc).
      apply andb_false_r.
  - intros Hns.
    assert (w_work r <> Null) as Hn.
    { intros Hn. apply Hns. right. apply list_elem_of_fmap. exists (w, Submitted). split; [done|].
      apply (ri_exec s HI). split; [done|]. by rewrite Hw, <- Hn. }
    assert (w_empty r = false) as He.
    { assert (w ∈ (placed s).*1) as Hin by (rewrite (ri_dom s HI), Hw; by eexists).
      apply list_elem_of_fmap in Hin as ([w' p] & Hw' & Hin). simpl in Hw'. subst w'.
      destruct (ri_ok s HI w p Hin) as (r' & Hr' & Hok). simplify_eq.
      destruct p; simpl in Hok; try tauto.
      - exfalso. apply Hns. left. by apply placed_running.
      - exfalso. destruct Hact as [_ Hnd]. apply Hnd, list_elem_of_fmap. exists (w, err).
        split; [done|]. by apply placed_reported. }
    rewrite He, bool_decide_eq_true_2 by done. simpl. eexists. split; [done|].
    destruct Hfree as (lp & Hlp & _). simpl. split_and!.
    + rewrite list_elem_of_filter. by intros [? _].
    + rewrite list_elem_of_filter. by intros [? _].
    + done.
    + by rewrite lookup_alter_eq, Hw.
    + rewrite list_alter_alter_eq, list_lookup_alter_eq, list_lookup_fmap, Hlp. simpl.
      eexists _, _. split; [done|]. simpl. split; [done|done].
Qed.

Lemma uv_cancel_outcome_witness :
  exists s', uv_cancel UV_WORK 0 12 (default demo_pool
      (run_events (take 5 demo_events) (init_threads (Some 2) true 1))) = (0, s') /\
    (Work 12 ∉ s'.(wq)).
Proof.
  edestruct (uv_cancel_outcome (default demo_pool
    (run_events (take 5 demo_events) (init_threads (Some 2) true 1))) UV_WORK 0 12)
    as [_ (s' & Hc & Hq & _)].
  - apply (reachable_run (take 5 demo_events) (init_threads (Some 2) true 1)); [constructor|vm_compute; reflexivity].
  - eexists. split; vm_compute; reflexivity.
  - split; [vm_compute; reflexivity|]. apply (bool_decide_eq_true_1 _). vm_compute. reflexivity.
  - done.
  - assert ((default demo_pool (run_events (take 5 demo_events) (init_threads (Some 2) true 1))).(threads)
      = [Run 10 false; Run 11 true]) as Ht by (vm_compute; reflexivity).
    intros [(t & b & Hrun)|Hex].
    + rewrite Ht in Hrun. destruct t as [|[|t]]; discriminate Hrun.
    + revert Hex. apply (bool_decide_eq_true_1 _). vm_compute. reflexivity.
  - by exists s'.
Defined.
