(* ===== verification/Avl.v ===== *)
(** * The persistent AVL map ([gRPC-Core/src/core/lib/avl/avl.h])

    [AVL<K, V>] is an immutable balanced search tree: every operation builds a
    new path and shares the rest. Nodes are values here, so sharing is
    invisible, as it is to the program, which never mutates a node.

    A node keeps its height; the operations read it and never recompute it.
    Following a null pointer is [None]: [Rebalance] dereferences a child
    without a test, and the theorems show that this is safe on balanced trees.
    The key type is ordered by a class, from which [>] is the converse of [<]. *)

From S2P Require Export Prelude.

(** ** The order on keys *)

Class KeyOrder (K : Type) := klt : K -> K -> bool.

Class KeyOrderLaws (K : Type) `{KeyOrder K} := {
  klt_irrefl a : klt a a = false;
  klt_trans a b c : klt a b = true -> klt b c = true -> klt a c = true;
  klt_total a b : klt a b = false -> klt b a = false -> a = b
}.

(** ** Data and operations *)

Section tree.
Context {K V : Type} `{KeyOrder K}.

Inductive tree :=
| Null
| Node (kv : K * V) (l r : tree) (height : Z).

Definition Height (n : tree) : Z := match n with Null => 0 | Node _ _ _ h => h end.

Definition MakeNode (key : K) (value : V) (l r : tree) : tree :=
  Node (key, value) l r (1 + Z.max (Height l) (Height r)).

Fixpoint Get (node : tree) (key : K) : tree :=
  match node with
  | Null => Null
  | Node kv l r _ =>
      if klt key kv.1 then Get l key
      else if klt kv.1 key then Get r key
      else node
  end.

Fixpoint GetBelow (node : tree) (key : K) : tree :=
  match node with
  | Null => Null
  | Node kv l r _ =>
      if klt key kv.1 then GetBelow l key
      else if klt kv.1 key then
        match GetBelow r key with Null => node | n => n end
      else node
  end.

Definition Lookup (root : tree) (key : K) : option V :=
  match Get root key with Null => None | Node kv _ _ _ => Some kv.2 end.

(** It passes [*key]: [deref] is the unary operator [*] of the key type, which the code requires of it. *)
Definition LookupBelow (deref : K -> K) (root : tree) (key : K) : option (K * V) :=
  match GetBelow root (deref key) with Null => None | Node kv _ _ _ => Some kv end.

Definition Empty (root : tree) : bool := match root with Null => true | Node _ _ _ _ => false end.

(** The pairs [ForEach] passes to its callback, in order. *)
Fixpoint ForEachImpl (n : tree) : list (K * V) :=
  match n with
  | Null => []
  | Node kv l r _ => ForEachImpl l ++ [kv] ++ ForEachImpl r
  end.

Definition RotateLeft (key : K) (value : V) (l r : tree) : option tree :=
  match r with
  | Node rkv rl rr _ => Some (MakeNode rkv.1 rkv.2 (MakeNode key value l rl) rr)
  | Null => None
  end.

Definition RotateRight (key : K) (value : V) (l r : tree) : option tree :=
  match l with
  | Node lkv ll lr _ => Some (MakeNode lkv.1 lkv.2 ll (MakeNode key value lr r))
  | Null => None
  end.

Definition RotateLeftRight (key : K) (value : V) (l r : tree) : option tree :=
  match l with
  | Node lkv ll (Node mkv ml mr _) _ =>
      Some (MakeNode mkv.1 mkv.2 (MakeNode lkv.1 lkv.2 ll ml) (MakeNode key value mr r))
  | _ => None
  end.

Definition RotateRightLeft (key : K) (value : V) (l r : tree) : option tree :=
  match r with
  | Node rkv (Node mkv ml mr _) rr _ =>
      Some (MakeNode mkv.1 mkv.2 (MakeNode key value l ml) (MakeNode rkv.1 rkv.2 mr rr))
  | _ => None
  end.

Definition Rebalance (key : K) (value : V) (l r : tree) : option tree :=
  let d := Height l - Height r in
  if d =? 2 then
    match l with
    | Node _ ll lr _ =>
        if Height ll - Height lr =? -1 then RotateLeftRight key value l r
        else RotateRight key value l r
    | Null => None
    end
  else if d =? -2 then
    match r with
    | Node _ rl rr _ =>
        if Height rl - Height rr =? 1 then RotateRightLeft key value l r
        else RotateLeft key value l r
    | Null => None
    end
  else Some (MakeNode key value l r).

Fixpoint AddKey (node : tree) (key : K) (value : V) : option tree :=
  match node with
  | Null => Some (MakeNode key value Null Null)
  | Node kv l r _ =>
      if klt kv.1 key then
        r ← AddKey r key value; Rebalance kv.1 kv.2 l r
      else if klt key kv.1 then
        l ← AddKey l key value; Rebalance kv.1 kv.2 l r
      else Some (MakeNode key value l r)
  end.

(** [InOrderHead] and [InOrderTail]: the loops run down one spine. *)
Fixpoint InOrderHead (node : tree) : option (K * V) :=
  match node with
  | Null => None
  | Node kv Null _ _ => Some kv
  | Node _ l _ _ => InOrderHead l
  end.

Fixpoint InOrderTail (node : tree) : option (K * V) :=
  match node with
  | Null => None
  | Node kv _ Null _ => Some kv
  | Node _ _ r _ => InOrderTail r
  end.

Fixpoint RemoveKey (node : tree) (key : K) : option tree :=
  match node with
  | Null => Some Null
  | Node kv l r _ =>
      if klt key kv.1 then
        l ← RemoveKey l key; Rebalance kv.1 kv.2 l r
      else if klt kv.1 key then
        r ← RemoveKey r key; Rebalance kv.1 kv.2 l r
      else match l, r with
      | Null, _ => Some r
      | _, Null => Some l
      | Node _ _ _ lh, Node _ _ _ rh =>
          if lh <? rh then
            h ← InOrderHead r; r ← RemoveKey r h.1; Rebalance h.1 h.2 l r
          else
            h ← InOrderTail l; l ← RemoveKey l h.1; Rebalance h.1 h.2 l r
      end
  end.
End tree.

Arguments tree : clear implicits.

(** ** The key-only specialisation [AVL<K, void>]

    The header repeats the implementation for sets; the names carry a prefix. *)

Section key_tree.
Context {K : Type} `{KeyOrder K}.

Inductive key_tree :=
| KNull
| KNode (key : K) (l r : key_tree) (height : Z).

Definition set_Height (n : key_tree) : Z := match n with KNull => 0 | KNode _ _ _ h => h end.

Definition set_MakeNode (key : K) (l r : key_tree) : key_tree :=
  KNode key l r (1 + Z.max (set_Height l) (set_Height r)).

Fixpoint set_Get (node : key_tree) (key : K) : key_tree :=
  match node with
  | KNull => KNull
  | KNode nkey l r _ =>
      if klt key nkey then set_Get l key
      else if klt nkey key then set_Get r key
      else node
  end.

Definition set_Lookup (root : key_tree) (key : K) : bool :=
  match set_Get root key with KNull => false | KNode _ _ _ _ => true end.

Fixpoint set_ForEachImpl (n : key_tree) : list K :=
  match n with
  | KNull => []
  | KNode key l r _ => set_ForEachImpl l ++ [key] ++ set_ForEachImpl r
  end.

Definition set_RotateLeft (key : K) (l r : key_tree) : option key_tree :=
  match r with
  | KNode rkey rl rr _ => Some (set_MakeNode rkey (set_MakeNode key l rl) rr)
  | KNull => None
  end.

Definition set_RotateRight (key : K) (l r : key_tree) : option key_tree :=
  match l with
  | KNode lkey ll lr _ => Some (set_MakeNode lkey ll (set_MakeNode key lr r))
  | KNull => None
  end.

Definition set_RotateLeftRight (key : K) (l r : key_tree) : option key_tree :=
  match l with
  | KNode lkey ll (KNode mkey ml mr _) _ =>
      Some (set_MakeNode mkey (set_MakeNode lkey ll ml) (set_MakeNode key mr r))
  | _ => None
  end.

Definition set_RotateRightLeft (key : K) (l r : key_tree) : option key_tree :=
  match r with
  | KNode rkey (KNode mkey ml mr _) rr _ =>
      Some (set_MakeNode mkey (set_MakeNode key l ml) (set_MakeNode rkey mr rr))
  | _ => None
  end.

Definition set_Rebalance (key : K) (l r : key_tree) : option key_tree :=
  let d := set_Height l - set_Height r in
  if d =? 2 then
    match l with
    | KNode _ ll lr _ =>
        if set_Height ll - set_Height lr =? -1 then set_RotateLeftRight key l r
        else set_RotateRight key l r
    | KNull => None
    end
  else if d =? -2 then
    match r with
    | KNode _ rl rr _ =>
        if set_Height rl - set_Height rr =? 1 then set_RotateRightLeft key l r
        else set_RotateLeft key l r
    | KNull => None
    end
  else Some (set_MakeNode key l r).

Fixpoint set_AddKey (node : key_tree) (key : K) : option key_tree :=
  match node with
  | KNull => Some (set_MakeNode key KNull KNull)
  | KNode nkey l r _ =>
      if klt nkey key then r ← set_AddKey r key; set_Rebalance nkey l r
      else if klt key nkey then l ← set_AddKey l key; set_Rebalance nkey l r
      else Some (set_MakeNode key l r)
  end.

Fixpoint set_InOrderHead (node : key_tree) : option K :=
  match node with
  | KNull => None
  | KNode key KNull _ _ => Some key
  | KNode _ l _ _ => set_InOrderHead l
  end.

Fixpoint set_InOrderTail (node : key_tree) : option K :=
  match node with
  | KNull => None
  | KNode key _ KNull _ => Some key
  | KNode _ _ r _ => set_InOrderTail r
  end.

Fixpoint set_RemoveKey (node : key_tree) (key : K) : option key_tree :=
  match node with
  | KNull => Some KNull
  | KNode nkey l r _ =>
      if klt key nkey then l ← set_RemoveKey l key; set_Rebalance nkey l r
      else if klt nkey key then r ← set_RemoveKey r key; set_Rebalance nkey l r
      else match l, r with
      | KNull, _ => Some r
      | _, KNull => Some l
      | KNode _ _ _ lh, KNode _ _ _ rh =>
          if lh <? rh then
            h ← set_InOrderHead r; r ← set_RemoveKey r h; set_Rebalance h l r
          else
            h ← set_InOrderTail l; l ← set_RemoveKey l h; set_Rebalance h l r
      end
  end.
End key_tree.

Arguments key_tree : clear implicits.

(** ** The reference: association lists sorted by key *)

Section reference.
Context {K V : Type} `{KeyOrder K}.

(** Every key of [a] is below every key of [b]. *)
Definition below (a b : list (K * V)) : Prop :=
  forall x y, x ∈ a -> y ∈ b -> klt x.1 y.1 = true.

Fixpoint sorted (l : list (K * V)) : Prop :=
  match l with
  | [] => True
  | x :: l => below [x] l /\ sorted l
  end.

Fixpoint put (key : K) (value : V) (l : list (K * V)) : list (K * V) :=
  match l with
  | [] => [(key, value)]
  | x :: l =>
      if klt x.1 key then x :: put key value l
      else if klt key x.1 then (key, value) :: x :: l
      else (key, value) :: l
  end.

Fixpoint del (key : K) (l : list (K * V)) : list (K * V) :=
  match l with
  | [] => []
  | x :: l =>
      if klt x.1 key then x :: del key l
      else if klt key x.1 then x :: l
      else l
  end.

Fixpoint get (key : K) (l : list (K * V)) : option V :=
  match l with
  | [] => None
  | x :: l => if klt x.1 key then get key l else if klt key x.1 then None else Some x.2
  end.

(** The last entry whose key is not above [key]. *)
Fixpoint get_below (key : K) (l : list (K * V)) : option (K * V) :=
  match l with
  | [] => None
  | x :: l => if klt key x.1 then None
              else match get_below key l with Some y => Some y | None => Some x end
  end.
End reference.

Section reference_laws.
Context {K V : Type} `{KeyOrderLaws K}.
Implicit Types (l a b : list (K * V)) (k : K) (x y z : K * V).

Lemma klt_asym (a b : K) : klt a b = true -> klt b a = false.
Proof.
  intros Hab. destruct (klt b a) eqn:Hba; [|done].
  pose proof (klt_trans a b a Hab Hba) as Haa. by rewrite klt_irrefl in Haa.
Qed.

Lemma below_nil_l l : below [] l.
Proof. by intros x y ?%not_elem_of_nil. Qed.

Lemma below_nil_r l : below l [].
Proof. by intros x y _ ?%not_elem_of_nil. Qed.

Lemma below_app_l a b l : below (a ++ b) l <-> below a l /\ below b l.
Proof. unfold below. setoid_rewrite elem_of_app. naive_solver. Qed.

Lemma below_app_r l a b : below l (a ++ b) <-> below l a /\ below l b.
Proof. unfold below. setoid_rewrite elem_of_app. naive_solver. Qed.

Lemma below_cons_l x a l : below (x :: a) l <-> below [x] l /\ below a l.
Proof. apply (below_app_l [x]). Qed.

Lemma below_cons_r l x a : below l (x :: a) <-> below l [x] /\ below l a.
Proof. apply (below_app_r l [x]). Qed.

Lemma below_single x y : below [x] [y] <-> klt x.1 y.1 = true.
Proof.
  unfold below. setoid_rewrite list_elem_of_singleton. naive_solver.
Qed.

Lemma below_trans a x b : below a [x] -> below [x] b -> below a b.
Proof.
  intros Ha Hb y z Hy Hz. apply klt_trans with x.1; [apply Ha|apply Hb]; set_solver.
Qed.

Lemma sorted_app a b : sorted (a ++ b) <-> sorted a /\ sorted b /\ below a b.
Proof.
  induction a as [|x a IH]; simpl; [pose proof (below_nil_l b); naive_solver|].
  rewrite IH, below_app_r, (below_cons_l x a). naive_solver.
Qed.

Lemma sorted_middle a x b : sorted (a ++ x :: b) <->
  sorted a /\ sorted b /\ below a [x] /\ below [x] b.
Proof.
  rewrite sorted_app, (below_cons_r a). simpl. split; [naive_solver|].
  intros (? & ? & ? & ?). pose proof (below_trans a x b). naive_solver.
Qed.

(** Each operation around a middle element. *)
Lemma below_key a x k : below a [x] -> klt x.1 k = true -> forall y, y ∈ a -> klt y.1 k = true.
Proof. intros Ha Hk y Hy. apply klt_trans with x.1; [|done]. apply Ha; set_solver. Qed.

Lemma put_app a b k v : (forall y, y ∈ a -> klt y.1 k = true) -> put k v (a ++ b) = a ++ put k v b.
Proof.
  induction a as [|y a IH]; intros Ha; [done|]. simpl.
  rewrite (Ha y), IH; [done|set_solver|set_solver].
Qed.

Lemma del_app a b k : (forall y, y ∈ a -> klt y.1 k = true) -> del k (a ++ b) = a ++ del k b.
Proof.
  induction a as [|y a IH]; intros Ha; [done|]. simpl.
  rewrite (Ha y), IH; [done|set_solver|set_solver].
Qed.

Lemma get_app a b k : (forall y, y ∈ a -> klt y.1 k = true) -> get k (a ++ b) = get k b.
Proof.
  induction a as [|y a IH]; intros Ha; [done|]. simpl.
  rewrite (Ha y), IH; [done|set_solver|set_solver].
Qed.

Lemma put_before a x b k v : klt k x.1 = true -> put k v (a ++ x :: b) = put k v a ++ x :: b.
Proof.
  intros Hk. induction a as [|y a IH]; simpl.
  - by rewrite Hk, (klt_asym k x.1).
  - rewrite IH. by destruct (klt y.1 k), (klt k y.1).
Qed.

Lemma del_before a x b k : klt k x.1 = true -> del k (a ++ x :: b) = del k a ++ x :: b.
Proof.
  intros Hk. induction a as [|y a IH]; simpl.
  - by rewrite Hk, (klt_asym k x.1).
  - rewrite IH. by destruct (klt y.1 k), (klt k y.1).
Qed.

Lemma get_before a x b k : klt k x.1 = true -> get k (a ++ x :: b) = get k a.
Proof.
  intros Hk. induction a as [|y a IH]; simpl.
  - by rewrite Hk, (klt_asym k x.1).
  - by rewrite IH.
Qed.

Lemma get_below_before a x b k : klt k x.1 = true -> get_below k (a ++ x :: b) = get_below k a.
Proof.
  intros Hk. induction a as [|y a IH]; simpl; [by rewrite Hk|]. by rewrite IH.
Qed.

Lemma get_below_app a b k : (forall y, y ∈ a -> klt y.1 k = true) ->
  get_below k (a ++ b) = match get_below k b with Some y => Some y | None => get_below k a end.
Proof.
  induction a as [|y a IH]; intros Ha; simpl; [by destruct (get_below k b)|].
  rewrite (klt_asym y.1 k), IH by set_solver. by destruct (get_below k b).
Qed.

(** The reference operations satisfy the laws of a finite map. *)
Lemma sorted_put k v l : sorted l ->
  sorted (put k v l) /\ forall x, below [x] l -> klt x.1 k = true -> below [x] (put k v l).
Proof.
  induction l as [|y l IH]; intros Hs; simpl.
  - split; [split; [apply below_nil_r|done]|]. intros x _ Hk. by apply below_single.
  - destruct Hs as [Hy Hs]. destruct (IH Hs) as [IHs IHb].
    destruct (klt y.1 k) eqn:E1; [|destruct (klt k y.1) eqn:E2]; simpl.
    + split; [by split; [apply IHb|]|]. intros x [Hxy Hxl]%below_cons_r Hk.
      apply below_cons_r. split; [done|by apply IHb].
    + split; [split; [|by split]|].
      * apply below_cons_r. split; [by apply below_single|].
        apply (below_trans [(k, v)] y l); [by apply below_single|done].
      * intros x Hx Hk. apply below_cons_r. split; [by apply below_single|done].
    + pose proof (klt_total _ _ E1 E2). subst. split.
      * split; [|done]. intros z w ->%list_elem_of_singleton Hw. by apply (Hy y w); [set_solver|].
      * intros x [Hxy Hxl]%below_cons_r Hk. apply below_cons_r. split; [by apply below_single|done].
Qed.

Lemma sorted_del k l : sorted l ->
  sorted (del k l) /\ forall x, below [x] l -> below [x] (del k l).
Proof.
  induction l as [|y l IH]; intros Hs; simpl; [done|]. destruct Hs as [Hy Hs]. destruct (IH Hs) as [IHs IHb].
  destruct (klt y.1 k); [|destruct (klt k y.1)]; simpl.
  - split; [by split; [apply IHb|]|]. intros x [Hxy Hxl]%below_cons_r. apply below_cons_r. auto.
  - done.
  - split; [done|]. by intros x [Hxy Hxl]%below_cons_r.
Qed.

Lemma get_below_all k l : (forall x, x ∈ l -> klt k x.1 = true) -> get k l = None.
Proof.
  intros Hl. destruct l as [|x l]; [done|]. simpl. assert (klt k x.1 = true) as E by (apply Hl; set_solver).
  by rewrite E, (klt_asym _ _ E).
Qed.

Lemma get_put k v l k' : sorted l ->
  get k' (put k v l) = if negb (klt k k') && negb (klt k' k) then Some v else get k' l.
Proof.
  induction l as [|y l IH]; intros Hs; simpl.
  - destruct (klt k k'), (klt k' k); done.
  - destruct Hs as [Hy Hs]. specialize (IH Hs).
    destruct (klt y.1 k) eqn:E1; [|destruct (klt k y.1) eqn:E2]; simpl.
    + rewrite IH. destruct (klt y.1 k') eqn:E3; [done|]. destruct (klt k' y.1) eqn:E4.
      * rewrite (klt_trans k' y.1 k) by done. by rewrite andb_false_r.
      * pose proof (klt_total _ _ E3 E4). subst. by rewrite E1, andb_false_r.
    + destruct (klt k k') eqn:E3, (klt k' k) eqn:E4; simpl; try done.
      * by rewrite (klt_trans k' k y.1), (klt_asym k' y.1) by (done || by apply (klt_trans k' k y.1)).
    + pose proof (klt_total _ _ E1 E2). subst.
      destruct (klt y.1 k') eqn:E3, (klt k' y.1) eqn:E4; done.
Qed.

Lemma get_del k l k' : sorted l ->
  get k' (del k l) = if negb (klt k k') && negb (klt k' k) then None else get k' l.
Proof.
  induction l as [|y l IH]; intros Hs; simpl; [by destruct (negb _ && _)|].
  destruct Hs as [Hy Hs]. specialize (IH Hs).
  destruct (klt y.1 k) eqn:E1; [|destruct (klt k y.1) eqn:E2]; simpl.
  - rewrite IH. destruct (klt y.1 k') eqn:E3; [done|]. destruct (klt k' y.1) eqn:E4.
    + by destruct (negb _ && _).
    + pose proof (klt_total _ _ E3 E4). subst. by rewrite E1, andb_false_r.
  - destruct (klt k k') eqn:E3, (klt k' k) eqn:E4; simpl; try done.
    pose proof (klt_total _ _ E3 E4). subst. by rewrite E2, (klt_asym _ _ E2).
  - pose proof (klt_total _ _ E1 E2). subst.
    destruct (klt y.1 k') eqn:E3, (klt k' y.1) eqn:E4; simpl; try done.
    + apply get_below_all. intros x Hx. apply (klt_trans _ y.1); [done|]. by apply Hy; [set_solver|].
    + apply get_below_all. intros x Hx. pose proof (klt_total _ _ E3 E4). subst. by apply Hy; [set_solver|].
Qed.
End reference_laws.

(** ** Order: the operations are the reference ones on the in-order list *)

Section order.
Context {K V : Type} `{KeyOrderLaws K}.
Implicit Types (t l r : tree K V) (k : K) (v : V).

Lemma Rebalance_elements k v l r t : Rebalance k v l r = Some t ->
  ForEachImpl t = ForEachImpl l ++ [(k, v)] ++ ForEachImpl r.
Proof.
  unfold Rebalance, RotateLeftRight, RotateRight, RotateRightLeft, RotateLeft, MakeNode.
  intros Hr. repeat (case_match; try done); simplify_eq; simpl;
    rewrite <- ?surjective_pairing; by repeat (rewrite <- app_assoc; simpl).
Qed.

Lemma Lookup_elements t k : sorted (ForEachImpl t) -> Lookup t k = get k (ForEachImpl t).
Proof.
  unfold Lookup. induction t as [|x l IHl r IHr h]; [done|]. simpl.
  rewrite sorted_middle. intros (Hl & Hr & Hlx & Hxr).
  destruct (klt k x.1) eqn:E1; [|destruct (klt x.1 k) eqn:E2].
  - rewrite get_before by done. auto.
  - rewrite (get_app (ForEachImpl l)) by (by eapply below_key). simpl. rewrite E2. auto.
  - pose proof (klt_total _ _ E2 E1). subst. rewrite get_app by (intros y Hy; apply Hlx; set_solver).
    simpl. by rewrite klt_irrefl.
Qed.

Lemma GetBelow_elements t k : sorted (ForEachImpl t) ->
  match GetBelow t k with Null => None | Node kv _ _ _ => Some kv end = get_below k (ForEachImpl t).
Proof.
  induction t as [|x l IHl r IHr h]; [done|]. simpl.
  rewrite sorted_middle. intros (Hl & Hr & Hlx & Hxr).
  destruct (klt k x.1) eqn:E1; [|destruct (klt x.1 k) eqn:E2].
  - rewrite get_below_before by done. auto.
  - rewrite (get_below_app (ForEachImpl l)) by (by eapply below_key). simpl. rewrite E1, <- IHr by done.
    by destruct (GetBelow r k).
  - pose proof (klt_total _ _ E2 E1). subst. rewrite get_below_app by (intros y Hy; apply Hlx; set_solver).
    simpl. rewrite E1. assert (get_below x.1 (ForEachImpl r) = None) as ->; [|done].
    destruct (ForEachImpl r) as [|y b]; [done|]. simpl.
    by rewrite (Hxr x y) by set_solver.
Qed.

Lemma AddKey_elements t k v t' : sorted (ForEachImpl t) -> AddKey t k v = Some t' ->
  ForEachImpl t' = put k v (ForEachImpl t).
Proof.
  revert t'. induction t as [|x l IHl r IHr h]; intros t'; simpl; [by intros _ [= <-]|].
  rewrite sorted_middle. intros (Hl & Hr & Hlx & Hxr).
  destruct (klt x.1 k) eqn:E1; [|destruct (klt k x.1) eqn:E2].
  - intros (r' & Hr' & Hb)%bind_Some. rewrite (Rebalance_elements _ _ _ _ _ Hb), (IHr r') by done.
    rewrite (put_app (ForEachImpl l)) by (by eapply below_key). simpl. rewrite E1. by destruct x.
  - intros (l' & Hl' & Hb)%bind_Some. rewrite (Rebalance_elements _ _ _ _ _ Hb), (IHl l') by done.
    rewrite put_before by done. by destruct x.
  - intros [= <-]. pose proof (klt_total _ _ E1 E2). subst.
    rewrite put_app by (intros y Hy; apply Hlx; set_solver). simpl. by rewrite klt_irrefl.
Qed.

Lemma InOrderHead_elements t x : InOrderHead t = Some x -> exists b, ForEachImpl t = x :: b.
Proof.
  induction t as [|y l IHl r IHr h]; [done|]. destruct l as [|z ll lr lh].
  - intros [= <-]. by exists (ForEachImpl r).
  - intros [b Hb]%IHl. exists (b ++ [y] ++ ForEachImpl r). change (ForEachImpl (Node y (Node z ll lr lh) r h))
      with (ForEachImpl (Node z ll lr lh) ++ [y] ++ ForEachImpl r). by rewrite Hb.
Qed.

Lemma InOrderTail_elements t x : InOrderTail t = Some x -> exists a, ForEachImpl t = a ++ [x].
Proof.
  induction t as [|y l IHl r IHr h]; [done|]. destruct r as [|z rl rr rh].
  - intros [= <-]. by exists (ForEachImpl l).
  - intros [a Ha]%IHr. exists (ForEachImpl l ++ [y] ++ a). change (ForEachImpl (Node y l (Node z rl rr rh) h))
      with (ForEachImpl l ++ [y] ++ ForEachImpl (Node z rl rr rh)). by rewrite Ha, <- !app_assoc.
Qed.

Lemma RemoveKey_elements t k t' : sorted (ForEachImpl t) -> RemoveKey t k = Some t' ->
  ForEachImpl t' = del k (ForEachImpl t).
Proof.
  revert k t'. induction t as [|x l IHl r IHr h]; intros k t'; [by intros _ [= <-]|].
  cbn [RemoveKey]. cbn [ForEachImpl app]. rewrite sorted_middle. intros (Hl & Hr & Hlx & Hxr).
  destruct (klt k x.1) eqn:E1; [|destruct (klt x.1 k) eqn:E2].
  - intros (l' & Hl' & Hb)%bind_Some. rewrite (Rebalance_elements _ _ _ _ _ Hb), (IHl k l') by done.
    rewrite del_before by done. by destruct x.
  - intros (r' & Hr' & Hb)%bind_Some. rewrite (Rebalance_elements _ _ _ _ _ Hb), (IHr k r') by done.
    rewrite (del_app (ForEachImpl l)) by (by eapply below_key). simpl. rewrite E2. by destruct x.
  - pose proof (klt_total _ _ E2 E1). subst. rewrite del_app by (intros y Hy; apply Hlx; set_solver).
    simpl. rewrite klt_irrefl.
    destruct l as [|y ll lr lh]; [by intros [= <-]|]. destruct r as [|z rl rr rh].
    { intros [= <-]. by rewrite app_nil_r. }
    generalize dependent (Node y ll lr lh). generalize dependent (Node z rl rr rh).
    intros r IHr Hr Hxr l IHl Hl Hlx. destruct (lh <? rh).
    + intros (w & Hw & (r' & Hr' & Hb)%bind_Some)%bind_Some.
      rewrite (Rebalance_elements _ _ _ _ _ Hb), (IHr w.1 r') by done.
      apply InOrderHead_elements in Hw as [b Hb']. rewrite Hb'. simpl. rewrite klt_irrefl. by destruct w.
    + intros (w & Hw & (l' & Hl' & Hb)%bind_Some)%bind_Some.
      rewrite (Rebalance_elements _ _ _ _ _ Hb), (IHl w.1 l') by done.
      apply InOrderTail_elements in Hw as [a Ha]. rewrite Ha in *. apply sorted_app in Hl as (_ & _ & Ha').
      rewrite del_app by (intros q Hq; apply Ha'; set_solver). simpl. rewrite klt_irrefl, app_nil_r.
      by destruct w; rewrite <- app_assoc.
Qed.
End order.

(** ** Balance *)

Section balance.
Context {K V : Type} `{KeyOrder K}.
Implicit Types (t l r : tree K V) (k : K) (v : V).

(** Stored heights are right and siblings differ by at most one. *)
Fixpoint balanced t : Prop :=
  match t with
  | Null => True
  | Node _ l r h => h = 1 + Z.max (Height l) (Height r) /\ -1 <= Height l - Height r <= 1 /\
                    balanced l /\ balanced r
  end.

Lemma Height_nonneg t : balanced t -> 0 <= Height t /\ (Height t = 0 -> t = Null).
Proof.
  induction t as [|kv l IHl r IHr h]; simpl; [done|]. intros (-> & _ & [? _]%IHl & [? _]%IHr).
  split; [lia|]. intros. lia.
Qed.

Ltac heights := repeat match goal with
  | Hb : balanced ?t |- _ =>
      lazymatch goal with
      | _ : 0 <= Height t |- _ => fail
      | _ => pose proof (proj1 (Height_nonneg t Hb))
      end
  end.

(** Rebalancing two balanced trees whose heights differ by at most two never
    follows a null pointer and restores balance. *)
Lemma Rebalance_balanced k v l r : balanced l -> balanced r -> -2 <= Height l - Height r <= 2 ->
  exists t, Rebalance k v l r = Some t /\ balanced t /\
    Z.max (Height l) (Height r) <= Height t <= 1 + Z.max (Height l) (Height r) /\
    (-1 <= Height l - Height r <= 1 -> Height t = 1 + Z.max (Height l) (Height r)).
Proof.
  intros Hl Hr Hd. unfold Rebalance. destruct (Z.eqb_spec (Height l - Height r) 2) as [E2|E2].
  - destruct l as [|lkv ll lr lh]; [heights; simpl in *; lia|].
    simpl in Hl. destruct Hl as (-> & Hld & Hll & Hlr). cbn [Height] in *.
    destruct (Z.eqb_spec (Height ll - Height lr) (-1)).
    + destruct lr as [|mkv ml mr mh]; [heights; simpl in *; lia|].
      simpl in Hlr. destruct Hlr as (-> & Hmd & Hml & Hmr). heights. cbn [Height] in *.
      eexists. split; [done|]. simpl. repeat split; try done; lia.
    + heights. eexists. split; [done|]. simpl. repeat split; try done; lia.
  - destruct (Z.eqb_spec (Height l - Height r) (-2)) as [E3|E3].
    + destruct r as [|rkv rl rr rh]; [heights; simpl in *; lia|].
      simpl in Hr. destruct Hr as (-> & Hrd & Hrl & Hrr). cbn [Height] in *.
      destruct (Z.eqb_spec (Height rl - Height rr) 1).
      * destruct rl as [|mkv ml mr mh]; [heights; simpl in *; lia|].
        simpl in Hrl. destruct Hrl as (-> & Hmd & Hml & Hmr). heights. cbn [Height] in *.
        eexists. split; [done|]. simpl. repeat split; try done; lia.
      * heights. eexists. split; [done|]. simpl. repeat split; try done; lia.
    + eexists. split; [done|]. simpl. repeat split; try done; lia.
Qed.

Lemma AddKey_balanced t k v : balanced t ->
  exists t', AddKey t k v = Some t' /\ balanced t' /\ Height t <= Height t' <= Height t + 1.
Proof.
  induction t as [|x l IHl r IHr h]; simpl.
  - intros _. eexists. split; [done|]. simpl. lia.
  - intros (-> & Hd & Hl & Hr). destruct (klt x.1 k); [|destruct (klt k x.1)].
    + destruct (IHr Hr) as (r' & -> & Hr' & Hh). simpl.
      destruct (Rebalance_balanced x.1 x.2 l r') as (t' & -> & Ht' & Hh' & He); [done|done|lia|].
      exists t'. split_and!; try done; lia.
    + destruct (IHl Hl) as (l' & -> & Hl' & Hh). simpl.
      destruct (Rebalance_balanced x.1 x.2 l' r) as (t' & -> & Ht' & Hh' & He); [done|done|lia|].
      exists t'. split_and!; try done; lia.
    + eexists. split; [done|]. simpl. split_and!; try done; lia.
Qed.

Lemma InOrderHead_Some t : t <> Null -> is_Some (InOrderHead t).
Proof.
  induction t as [|x l IHl r IHr h]; [done|]. intros _. destruct l; [by eexists|]. by apply IHl.
Qed.

Lemma InOrderTail_Some t : t <> Null -> is_Some (InOrderTail t).
Proof.
  induction t as [|x l IHl r IHr h]; [done|]. intros _. destruct r; [by eexists|]. by apply IHr.
Qed.

Lemma RemoveKey_balanced t k : balanced t ->
  exists t', RemoveKey t k = Some t' /\ balanced t' /\ Height t - 1 <= Height t' <= Height t.
Proof.
  revert k. induction t as [|x l IHl r IHr h]; intros k; [intros _; eexists; split; [done|simpl; lia]|].
  cbn [RemoveKey balanced Height]. intros (-> & Hd & Hl & Hr).
  destruct (klt k x.1); [|destruct (klt x.1 k)].
  - destruct (IHl k Hl) as (l' & -> & Hl' & Hh). simpl.
    destruct (Rebalance_balanced x.1 x.2 l' r) as (t' & -> & Ht' & Hh' & He); [done|done|lia|].
    exists t'. split_and!; try done; lia.
  - destruct (IHr k Hr) as (r' & -> & Hr' & Hh). simpl.
    destruct (Rebalance_balanced x.1 x.2 l r') as (t' & -> & Ht' & Hh' & He); [done|done|lia|].
    exists t'. split_and!; try done; lia.
  - destruct l as [|y ll lr lh]; [heights; eexists; split_and!; [done|done|simpl in *; lia..]|].
    destruct r as [|z rl rr rh]; [heights; eexists; split_and!; [done|done|simpl in *; lia..]|].
    assert (Height (Node y ll lr lh) = lh) as Elh by done. assert (Height (Node z rl rr rh) = rh) as Erh by done.
    assert (Node y ll lr lh <> Null) as Hnl by done. assert (Node z rl rr rh <> Null) as Hnr by done.
    generalize dependent (Node y ll lr lh). generalize dependent (Node z rl rr rh).
    intros r IHr Hr Er Hnr l IHl Hd Hl El Hnl. destruct (Z.ltb_spec lh rh).
    + destruct (InOrderHead_Some r Hnr) as [w ->]. simpl. destruct (IHr w.1 Hr) as (r' & -> & Hr' & Hh). simpl.
      destruct (Rebalance_balanced w.1 w.2 l r') as (t' & -> & Ht' & Hh' & He); [done|done|lia|].
      exists t'. split_and!; try done; lia.
    + destruct (InOrderTail_Some l Hnl) as [w ->]. simpl. destruct (IHl w.1 Hl) as (l' & -> & Hl' & Hh). simpl.
      destruct (Rebalance_balanced w.1 w.2 l' r) as (t' & -> & Ht' & Hh' & He); [done|done|lia|].
      exists t'. split_and!; try done; lia.
Qed.

Lemma balanced_size t : balanced t ->
  2 ^ Height t <= (Z.of_nat (length (ForEachImpl t)) + 1) * (Z.of_nat (length (ForEachImpl t)) + 1).
Proof.
  induction t as [|x l IHl r IHr h]; [done|]. cbn [balanced Height ForEachImpl].
  intros (-> & Hd & Hl & Hr). specialize (IHl Hl). specialize (IHr Hr). heights.
  rewrite length_app. cbn [app length].
  set (a := Z.of_nat (length (ForEachImpl l)) + 1) in *. set (b := Z.of_nat (length (ForEachImpl r)) + 1) in *.
  replace (Z.of_nat (length (ForEachImpl l) + S (length (ForEachImpl r))) + 1) with (a + b) by lia.
  assert (1 <= a) by lia. assert (1 <= b) by lia.
  assert (forall i j, 0 <= i <= j -> 2 ^ i <= 2 ^ j) as Hmono by (intros; apply Z.pow_le_mono_r; lia).
  assert (forall i, 0 <= i -> 2 ^ (1 + i) = 2 * 2 ^ i) as Hs by (intros; rewrite Z.pow_add_r; lia).
  assert (Hcase : 0 < Height l \/ 0 < Height r \/ Height l = 0 /\ Height r = 0) by lia.
  destruct (Z.max_spec (Height l) (Height r)) as [[? ->]|[? ->]].
  - replace (Height r) with (1 + Height l) in * by lia. rewrite !Hs in * by lia.
    assert (2 ^ Height l <= a * b) by nia. nia.
  - destruct (decide (Height l = Height r)) as [E|].
    + rewrite E in *. rewrite !Hs in * by lia. nia.
    + replace (Height l) with (1 + Height r) in * by lia. rewrite !Hs in * by lia.
      assert (2 ^ Height r <= a * b) by nia. nia.
Qed.
End balance.

(** ** The set is the map with unit values *)

Section set_as_map.
Context {K : Type} `{KeyOrder K}.

Fixpoint as_map (t : key_tree K) : tree K unit :=
  match t with
  | KNull => Null
  | KNode key l r h => Node (key, tt) (as_map l) (as_map r) h
  end.

Lemma as_map_Height t : Height (as_map t) = set_Height t.
Proof. by destruct t. Qed.

Ltac solve_make := simpl; unfold MakeNode; simpl; by rewrite ?as_map_Height.

Lemma as_map_Rebalance k l r :
  as_map <$> set_Rebalance k l r = Rebalance k tt (as_map l) (as_map r).
Proof.
  unfold set_Rebalance, Rebalance. rewrite !as_map_Height.
  destruct (_ =? 2); [|destruct (_ =? -2); [|solve_make]].
  - destruct l as [|lk ll lr lh]; [done|]. cbn [as_map]. rewrite !as_map_Height.
    destruct (_ =? -1); [|solve_make]. destruct lr; [done|solve_make].
  - destruct r as [|rk rl rr rh]; [done|]. cbn [as_map]. rewrite !as_map_Height.
    destruct (_ =? 1); [|solve_make]. destruct rl; [done|solve_make].
Qed.

Lemma bind_as_map {A} (m : option A) (f : A -> option (key_tree K)) g :
  (forall x, as_map <$> f x = g x) -> as_map <$> (m ≫= f) = m ≫= g.
Proof. destruct m; simpl; auto. Qed.

Lemma as_map_bind (m : option (key_tree K)) m' f g :
  as_map <$> m = m' -> (forall x, as_map <$> f x = g (as_map x)) -> as_map <$> (m ≫= f) = m' ≫= g.
Proof. intros <-. destruct m; simpl; auto. Qed.

Lemma as_map_AddKey t k : as_map <$> set_AddKey t k = AddKey (as_map t) k tt.
Proof.
  induction t as [|x l IHl r IHr h]; simpl; [done|].
  destruct (klt x k); [|destruct (klt k x)].
  - apply as_map_bind; [done|]. intros r'. apply as_map_Rebalance.
  - apply as_map_bind; [done|]. intros l'. apply as_map_Rebalance.
  - solve_make.
Qed.

Lemma as_map_InOrderHead t : InOrderHead (as_map t) = (fun k => (k, tt)) <$> set_InOrderHead t.
Proof. induction t as [|x l IHl r IHr h]; [done|]. by destruct l. Qed.

Lemma as_map_InOrderTail t : InOrderTail (as_map t) = (fun k => (k, tt)) <$> set_InOrderTail t.
Proof. induction t as [|x l IHl r IHr h]; [done|]. by destruct r. Qed.

Lemma as_map_RemoveKey t k : as_map <$> set_RemoveKey t k = RemoveKey (as_map t) k.
Proof.
  revert k. induction t as [|x l IHl r IHr h]; intros k; [done|].
  cbn [set_RemoveKey RemoveKey as_map fst snd].
  destruct (klt k x); [|destruct (klt x k)].
  - apply as_map_bind; [done|]. intros l'. apply as_map_Rebalance.
  - apply as_map_bind; [done|]. intros r'. apply as_map_Rebalance.
  - destruct l as [|y ll lr lh]; [done|]. destruct r as [|z rl rr rh]; [done|].
    cbn [as_map Height set_Height]. destruct (lh <? rh).
    + change (Node (z, tt) (as_map rl) (as_map rr) rh) with (as_map (KNode z rl rr rh)).
      change (Node (y, tt) (as_map ll) (as_map lr) lh) with (as_map (KNode y ll lr lh)).
      rewrite as_map_InOrderHead, option_fmap_bind. apply bind_as_map. intros w. simpl.
      apply as_map_bind; [apply IHr|]. intros r'. apply as_map_Rebalance.
    + change (Node (z, tt) (as_map rl) (as_map rr) rh) with (as_map (KNode z rl rr rh)).
      change (Node (y, tt) (as_map ll) (as_map lr) lh) with (as_map (KNode y ll lr lh)).
      rewrite as_map_InOrderTail, option_fmap_bind. apply bind_as_map. intros w. simpl.
      apply as_map_bind; [apply IHl|]. intros l'. apply as_map_Rebalance.
Qed.

Lemma as_map_Lookup t k : set_Lookup t k = bool_decide (Lookup (as_map t) k = Some tt).
Proof.
  unfold set_Lookup, Lookup. induction t as [|x l IHl r IHr h]; simpl; [done|].
  by destruct (klt k x); [|destruct (klt x k)].
Qed.

Lemma as_map_ForEachImpl t : set_ForEachImpl t = (ForEachImpl (as_map t)).*1.
Proof.
  induction t as [|x l IHl r IHr h]; simpl; [done|]. rewrite fmap_app, IHl, IHr. done.
Qed.
End set_as_map.

(** ** Theorems *)

Section theorems.
Context {K V : Type} `{KeyOrderLaws K}.

(** Search trees: sorted and balanced. *)
Definition avl_ok (t : tree K V) : Prop := sorted (ForEachImpl t) /\ balanced t.

(** C8 (refinement): on balanced search trees [Add] and [Remove] always
    succeed, that is, terminate without following a null pointer, keep the tree
    a balanced search tree, and act on the list [ForEach] visits as insertion
    into and deletion from a sorted association list; [Lookup] and [GetBelow] are
    the searches of that list; [LookupBelow] is the latter for the key that [*] of the
    key type gives. *)
Theorem avl_refines_map (t : tree K V) (k : K) (v : V) : avl_ok t ->
  (exists t', AddKey t k v = Some t' /\ avl_ok t' /\ ForEachImpl t' = put k v (ForEachImpl t) /\
    forall k', Lookup t' k' = if negb (klt k k') && negb (klt k' k) then Some v else Lookup t k') /\
  (exists t', RemoveKey t k = Some t' /\ avl_ok t' /\ ForEachImpl t' = del k (ForEachImpl t) /\
    forall k', Lookup t' k' = if negb (klt k k') && negb (klt k' k) then None else Lookup t k') /\
  Lookup t k = get k (ForEachImpl t) /\
  (match GetBelow t k with Null => None | Node kv _ _ _ => Some kv end) = get_below k (ForEachImpl t) /\
  forall deref, LookupBelow deref t k = get_below (deref k) (ForEachImpl t).
Proof.
  intros [Hs Hb]. split_and!.
  - destruct (AddKey_balanced t k v Hb) as (t' & E & Hb' & _). pose proof (AddKey_elements _ _ _ _ Hs E) as He.
    pose proof (proj1 (sorted_put k v _ Hs)) as Hs'. rewrite <- He in Hs'.
    exists t'. split_and!; try done. intros k'.
    by rewrite !Lookup_elements, He, get_put by done.
  - destruct (RemoveKey_balanced t k Hb) as (t' & E & Hb' & _). pose proof (RemoveKey_elements _ _ _ Hs E) as He.
    pose proof (proj1 (sorted_del k _ Hs)) as Hs'. rewrite <- He in Hs'.
    exists t'. split_and!; try done. intros k'.
    by rewrite !Lookup_elements, He, get_del by done.
  - by apply Lookup_elements.
  - by apply GetBelow_elements.
  - intros deref. by apply GetBelow_elements.
Qed.

(** The height of a balanced tree is at most twice the binary
    logarithm of its size plus one, and the stored height is that height, so
    the [long] it is kept in cannot overflow. *)
Theorem avl_height_bound (t : tree K V) : avl_ok t ->
  2 ^ Height t <= (Z.of_nat (length (ForEachImpl t)) + 1) * (Z.of_nat (length (ForEachImpl t)) + 1).
Proof. intros [_ Hb]. by apply balanced_size. Qed.
End theorems.

#[export] Instance Z_key_order : KeyOrder Z := Z.ltb.

#[export] Instance Z_key_order_laws : KeyOrderLaws Z.
Proof. split; unfold klt, Z_key_order; intros *; rewrite ?Z.ltb_lt, ?Z.ltb_ge; lia. Qed.

(** Eight keys in increasing order, which rotates at every other step. *)
Definition demo_tree : tree Z Z :=
  default Null (foldl (fun t k => t ≫= fun t => AddKey t k (10 * k)) (Some Null) [1; 2; 3; 4; 5; 6; 7; 8]).

Lemma demo_tree_ok : avl_ok demo_tree.
Proof.
  split; vm_compute; [|repeat split; intros [=]].
  repeat split; intros x y ->%list_elem_of_singleton Hy;
    (repeat (apply elem_of_cons in Hy as [->|Hy]; [done|])); by apply not_elem_of_nil in Hy.
Qed.

Lemma avl_refines_map_witness :
  Lookup demo_tree 5 = get 5 (ForEachImpl demo_tree) /\
  LookupBelow Z.pred demo_tree 5 = Some (4, 40).
Proof. destruct (avl_refines_map demo_tree 5 0 demo_tree_ok) as (_ & _ & ? & _ & Hb). split; [done|exact (Hb Z.pred)]. Defined.

Lemma avl_height_bound_witness : 2 ^ Height demo_tree <= 9 * 9.
Proof. apply (avl_height_bound demo_tree), demo_tree_ok. Defined.

(** The separately written set [AVL<K, void>] behaves as the
    map with unit values, operation by operation. *)
Theorem avl_set_is_unit_map {K : Type} `{KeyOrder K} (t : key_tree K) (k : K) :
  as_map <$> set_AddKey t k = AddKey (as_map t) k tt /\
  as_map <$> set_RemoveKey t k = RemoveKey (as_map t) k /\
  set_Lookup t k = bool_decide (Lookup (as_map t) k = Some tt) /\
  set_ForEachImpl t = (ForEachImpl (as_map t)).*1.
Proof.
  split_and!; [apply as_map_AddKey|apply as_map_RemoveKey|apply as_map_Lookup|apply as_map_ForEachImpl].
Qed.
