(* ===== verification/Crc32c.v ===== *)
(** * CRC-32C ([leveldb-library/util/crc32c.cc])

    The five extension tables of the file, the byte step [STEP1], the strided
    word steps [STEP4], [STEP16] and [STEP4W] and [Extend], which chooses
    between them by the alignment and the length of its input.  The reference
    is the bit-at-a-time CRC of the reflected Castagnoli polynomial.

    [DecodeFixed32] ([util/coding.h]) and [port::AcceleratedCRC32C]
    ([port/port.h]) are not in the repository: they are parameters.  The
    pointers [p], [x] and [e] are the address of [data] and the list of bytes
    from [p] to [e]; reading past [e] or outside a table is [None]. *)

From S2P Require Import Prelude.

(** ** Tables *)

Definition kByteExtensionTable : list Z := [
  0x00000000; 0xf26b8303; 0xe13b70f7; 0x1350f3f4; 0xc79a971f; 0x35f1141c;
  0x26a1e7e8; 0xd4ca64eb; 0x8ad958cf; 0x78b2dbcc; 0x6be22838; 0x9989ab3b;
  0x4d43cfd0; 0xbf284cd3; 0xac78bf27; 0x5e133c24; 0x105ec76f; 0xe235446c;
  0xf165b798; 0x030e349b; 0xd7c45070; 0x25afd373; 0x36ff2087; 0xc494a384;
  0x9a879fa0; 0x68ec1ca3; 0x7bbcef57; 0x89d76c54; 0x5d1d08bf; 0xaf768bbc;
  0xbc267848; 0x4e4dfb4b; 0x20bd8ede; 0xd2d60ddd; 0xc186fe29; 0x33ed7d2a;
  0xe72719c1; 0x154c9ac2; 0x061c6936; 0xf477ea35; 0xaa64d611; 0x580f5512;
  0x4b5fa6e6; 0xb93425e5; 0x6dfe410e; 0x9f95c20d; 0x8cc531f9; 0x7eaeb2fa;
  0x30e349b1; 0xc288cab2; 0xd1d83946; 0x23b3ba45; 0xf779deae; 0x05125dad;
  0x1642ae59; 0xe4292d5a; 0xba3a117e; 0x4851927d; 0x5b016189; 0xa96ae28a;
  0x7da08661; 0x8fcb0562; 0x9c9bf696; 0x6ef07595; 0x417b1dbc; 0xb3109ebf;
  0xa0406d4b; 0x522bee48; 0x86e18aa3; 0x748a09a0; 0x67dafa54; 0x95b17957;
  0xcba24573; 0x39c9c670; 0x2a993584; 0xd8f2b687; 0x0c38d26c; 0xfe53516f;
  0xed03a29b; 0x1f682198; 0x5125dad3; 0xa34e59d0; 0xb01eaa24; 0x42752927;
  0x96bf4dcc; 0x64d4cecf; 0x77843d3b; 0x85efbe38; 0xdbfc821c; 0x2997011f;
  0x3ac7f2eb; 0xc8ac71e8; 0x1c661503; 0xee0d9600; 0xfd5d65f4; 0x0f36e6f7;
  0x61c69362; 0x93ad1061; 0x80fde395; 0x72966096; 0xa65c047d; 0x5437877e;
  0x4767748a; 0xb50cf789; 0xeb1fcbad; 0x197448ae; 0x0a24bb5a; 0xf84f3859;
  0x2c855cb2; 0xdeeedfb1; 0xcdbe2c45; 0x3fd5af46; 0x7198540d; 0x83f3d70e;
  0x90a324fa; 0x62c8a7f9; 0xb602c312; 0x44694011; 0x5739b3e5; 0xa55230e6;
  0xfb410cc2; 0x092a8fc1; 0x1a7a7c35; 0xe811ff36; 0x3cdb9bdd; 0xceb018de;
  0xdde0eb2a; 0x2f8b6829; 0x82f63b78; 0x709db87b; 0x63cd4b8f; 0x91a6c88c;
  0x456cac67; 0xb7072f64; 0xa457dc90; 0x563c5f93; 0x082f63b7; 0xfa44e0b4;
  0xe9141340; 0x1b7f9043; 0xcfb5f4a8; 0x3dde77ab; 0x2e8e845f; 0xdce5075c;
  0x92a8fc17; 0x60c37f14; 0x73938ce0; 0x81f80fe3; 0x55326b08; 0xa759e80b;
  0xb4091bff; 0x466298fc; 0x1871a4d8; 0xea1a27db; 0xf94ad42f; 0x0b21572c;
  0xdfeb33c7; 0x2d80b0c4; 0x3ed04330; 0xccbbc033; 0xa24bb5a6; 0x502036a5;
  0x4370c551; 0xb11b4652; 0x65d122b9; 0x97baa1ba; 0x84ea524e; 0x7681d14d;
  0x2892ed69; 0xdaf96e6a; 0xc9a99d9e; 0x3bc21e9d; 0xef087a76; 0x1d63f975;
  0x0e330a81; 0xfc588982; 0xb21572c9; 0x407ef1ca; 0x532e023e; 0xa145813d;
  0x758fe5d6; 0x87e466d5; 0x94b49521; 0x66df1622; 0x38cc2a06; 0xcaa7a905;
  0xd9f75af1; 0x2b9cd9f2; 0xff56bd19; 0x0d3d3e1a; 0x1e6dcdee; 0xec064eed;
  0xc38d26c4; 0x31e6a5c7; 0x22b65633; 0xd0ddd530; 0x0417b1db; 0xf67c32d8;
  0xe52cc12c; 0x1747422f; 0x49547e0b; 0xbb3ffd08; 0xa86f0efc; 0x5a048dff;
  0x8ecee914; 0x7ca56a17; 0x6ff599e3; 0x9d9e1ae0; 0xd3d3e1ab; 0x21b862a8;
  0x32e8915c; 0xc083125f; 0x144976b4; 0xe622f5b7; 0xf5720643; 0x07198540;
  0x590ab964; 0xab613a67; 0xb831c993; 0x4a5a4a90; 0x9e902e7b; 0x6cfbad78;
  0x7fab5e8c; 0x8dc0dd8f; 0xe330a81a; 0x115b2b19; 0x020bd8ed; 0xf0605bee;
  0x24aa3f05; 0xd6c1bc06; 0xc5914ff2; 0x37faccf1; 0x69e9f0d5; 0x9b8273d6;
  0x88d28022; 0x7ab90321; 0xae7367ca; 0x5c18e4c9; 0x4f48173d; 0xbd23943e;
  0xf36e6f75; 0x0105ec76; 0x12551f82; 0xe03e9c81; 0x34f4f86a; 0xc69f7b69;
  0xd5cf889d; 0x27a40b9e; 0x79b737ba; 0x8bdcb4b9; 0x988c474d; 0x6ae7c44e;
  0xbe2da0a5; 0x4c4623a6; 0x5f16d052; 0xad7d5351].

Definition kStrideExtensionTable0 : list Z := [
  0x00000000; 0x30d23865; 0x61a470ca; 0x517648af; 0xc348e194; 0xf39ad9f1;
  0xa2ec915e; 0x923ea93b; 0x837db5d9; 0xb3af8dbc; 0xe2d9c513; 0xd20bfd76;
  0x4035544d; 0x70e76c28; 0x21912487; 0x11431ce2; 0x03171d43; 0x33c52526;
  0x62b36d89; 0x526155ec; 0xc05ffcd7; 0xf08dc4b2; 0xa1fb8c1d; 0x9129b478;
  0x806aa89a; 0xb0b890ff; 0xe1ced850; 0xd11ce035; 0x4322490e; 0x73f0716b;
  0x228639c4; 0x125401a1; 0x062e3a86; 0x36fc02e3; 0x678a4a4c; 0x57587229;
  0xc566db12; 0xf5b4e377; 0xa4c2abd8; 0x941093bd; 0x85538f5f; 0xb581b73a;
  0xe4f7ff95; 0xd425c7f0; 0x461b6ecb; 0x76c956ae; 0x27bf1e01; 0x176d2664;
  0x053927c5; 0x35eb1fa0; 0x649d570f; 0x544f6f6a; 0xc671c651; 0xf6a3fe34;
  0xa7d5b69b; 0x97078efe; 0x8644921c; 0xb696aa79; 0xe7e0e2d6; 0xd732dab3;
  0x450c7388; 0x75de4bed; 0x24a80342; 0x147a3b27; 0x0c5c750c; 0x3c8e4d69;
  0x6df805c6; 0x5d2a3da3; 0xcf149498; 0xffc6acfd; 0xaeb0e452; 0x9e62dc37;
  0x8f21c0d5; 0xbff3f8b0; 0xee85b01f; 0xde57887a; 0x4c692141; 0x7cbb1924;
  0x2dcd518b; 0x1d1f69ee; 0x0f4b684f; 0x3f99502a; 0x6eef1885; 0x5e3d20e0;
  0xcc0389db; 0xfcd1b1be; 0xada7f911; 0x9d75c174; 0x8c36dd96; 0xbce4e5f3;
  0xed92ad5c; 0xdd409539; 0x4f7e3c02; 0x7fac0467; 0x2eda4cc8; 0x1e0874ad;
  0x0a724f8a; 0x3aa077ef; 0x6bd63f40; 0x5b040725; 0xc93aae1e; 0xf9e8967b;
  0xa89eded4; 0x984ce6b1; 0x890ffa53; 0xb9ddc236; 0xe8ab8a99; 0xd879b2fc;
  0x4a471bc7; 0x7a9523a2; 0x2be36b0d; 0x1b315368; 0x096552c9; 0x39b76aac;
  0x68c12203; 0x58131a66; 0xca2db35d; 0xfaff8b38; 0xab89c397; 0x9b5bfbf2;
  0x8a18e710; 0xbacadf75; 0xebbc97da; 0xdb6eafbf; 0x49500684; 0x79823ee1;
  0x28f4764e; 0x18264e2b; 0x18b8ea18; 0x286ad27d; 0x791c9ad2; 0x49cea2b7;
  0xdbf00b8c; 0xeb2233e9; 0xba547b46; 0x8a864323; 0x9bc55fc1; 0xab1767a4;
  0xfa612f0b; 0xcab3176e; 0x588dbe55; 0x685f8630; 0x3929ce9f; 0x09fbf6fa;
  0x1baff75b; 0x2b7dcf3e; 0x7a0b8791; 0x4ad9bff4; 0xd8e716cf; 0xe8352eaa;
  0xb9436605; 0x89915e60; 0x98d24282; 0xa8007ae7; 0xf9763248; 0xc9a40a2d;
  0x5b9aa316; 0x6b489b73; 0x3a3ed3dc; 0x0aecebb9; 0x1e96d09e; 0x2e44e8fb;
  0x7f32a054; 0x4fe09831; 0xddde310a; 0xed0c096f; 0xbc7a41c0; 0x8ca879a5;
  0x9deb6547; 0xad395d22; 0xfc4f158d; 0xcc9d2de8; 0x5ea384d3; 0x6e71bcb6;
  0x3f07f419; 0x0fd5cc7c; 0x1d81cddd; 0x2d53f5b8; 0x7c25bd17; 0x4cf78572;
  0xdec92c49; 0xee1b142c; 0xbf6d5c83; 0x8fbf64e6; 0x9efc7804; 0xae2e4061;
  0xff5808ce; 0xcf8a30ab; 0x5db49990; 0x6d66a1f5; 0x3c10e95a; 0x0cc2d13f;
  0x14e49f14; 0x2436a771; 0x7540efde; 0x4592d7bb; 0xd7ac7e80; 0xe77e46e5;
  0xb6080e4a; 0x86da362f; 0x97992acd; 0xa74b12a8; 0xf63d5a07; 0xc6ef6262;
  0x54d1cb59; 0x6403f33c; 0x3575bb93; 0x05a783f6; 0x17f38257; 0x2721ba32;
  0x7657f29d; 0x4685caf8; 0xd4bb63c3; 0xe4695ba6; 0xb51f1309; 0x85cd2b6c;
  0x948e378e; 0xa45c0feb; 0xf52a4744; 0xc5f87f21; 0x57c6d61a; 0x6714ee7f;
  0x3662a6d0; 0x06b09eb5; 0x12caa592; 0x22189df7; 0x736ed558; 0x43bced3d;
  0xd1824406; 0xe1507c63; 0xb02634cc; 0x80f40ca9; 0x91b7104b; 0xa165282e;
  0xf0136081; 0xc0c158e4; 0x52fff1df; 0x622dc9ba; 0x335b8115; 0x0389b970;
  0x11ddb8d1; 0x210f80b4; 0x7079c81b; 0x40abf07e; 0xd2955945; 0xe2476120;
  0xb331298f; 0x83e311ea; 0x92a00d08; 0xa272356d; 0xf3047dc2; 0xc3d645a7;
  0x51e8ec9c; 0x613ad4f9; 0x304c9c56; 0x009ea433].

Definition kStrideExtensionTable1 : list Z := [
  0x00000000; 0x54075546; 0xa80eaa8c; 0xfc09ffca; 0x55f123e9; 0x01f676af;
  0xfdff8965; 0xa9f8dc23; 0xabe247d2; 0xffe51294; 0x03eced5e; 0x57ebb818;
  0xfe13643b; 0xaa14317d; 0x561dceb7; 0x021a9bf1; 0x5228f955; 0x062fac13;
  0xfa2653d9; 0xae21069f; 0x07d9dabc; 0x53de8ffa; 0xafd77030; 0xfbd02576;
  0xf9cabe87; 0xadcdebc1; 0x51c4140b; 0x05c3414d; 0xac3b9d6e; 0xf83cc828;
  0x043537e2; 0x503262a4; 0xa451f2aa; 0xf056a7ec; 0x0c5f5826; 0x58580d60;
  0xf1a0d143; 0xa5a78405; 0x59ae7bcf; 0x0da92e89; 0x0fb3b578; 0x5bb4e03e;
  0xa7bd1ff4; 0xf3ba4ab2; 0x5a429691; 0x0e45c3d7; 0xf24c3c1d; 0xa64b695b;
  0xf6790bff; 0xa27e5eb9; 0x5e77a173; 0x0a70f435; 0xa3882816; 0xf78f7d50;
  0x0b86829a; 0x5f81d7dc; 0x5d9b4c2d; 0x099c196b; 0xf595e6a1; 0xa192b3e7;
  0x086a6fc4; 0x5c6d3a82; 0xa064c548; 0xf463900e; 0x4d4f93a5; 0x1948c6e3;
  0xe5413929; 0xb1466c6f; 0x18beb04c; 0x4cb9e50a; 0xb0b01ac0; 0xe4b74f86;
  0xe6add477; 0xb2aa8131; 0x4ea37efb; 0x1aa42bbd; 0xb35cf79e; 0xe75ba2d8;
  0x1b525d12; 0x4f550854; 0x1f676af0; 0x4b603fb6; 0xb769c07c; 0xe36e953a;
  0x4a964919; 0x1e911c5f; 0xe298e395; 0xb69fb6d3; 0xb4852d22; 0xe0827864;
  0x1c8b87ae; 0x488cd2e8; 0xe1740ecb; 0xb5735b8d; 0x497aa447; 0x1d7df101;
  0xe91e610f; 0xbd193449; 0x4110cb83; 0x15179ec5; 0xbcef42e6; 0xe8e817a0;
  0x14e1e86a; 0x40e6bd2c; 0x42fc26dd; 0x16fb739b; 0xeaf28c51; 0xbef5d917;
  0x170d0534; 0x430a5072; 0xbf03afb8; 0xeb04fafe; 0xbb36985a; 0xef31cd1c;
  0x133832d6; 0x473f6790; 0xeec7bbb3; 0xbac0eef5; 0x46c9113f; 0x12ce4479;
  0x10d4df88; 0x44d38ace; 0xb8da7504; 0xecdd2042; 0x4525fc61; 0x1122a927;
  0xed2b56ed; 0xb92c03ab; 0x9a9f274a; 0xce98720c; 0x32918dc6; 0x6696d880;
  0xcf6e04a3; 0x9b6951e5; 0x6760ae2f; 0x3367fb69; 0x317d6098; 0x657a35de;
  0x9973ca14; 0xcd749f52; 0x648c4371; 0x308b1637; 0xcc82e9fd; 0x9885bcbb;
  0xc8b7de1f; 0x9cb08b59; 0x60b97493; 0x34be21d5; 0x9d46fdf6; 0xc941a8b0;
  0x3548577a; 0x614f023c; 0x635599cd; 0x3752cc8b; 0xcb5b3341; 0x9f5c6607;
  0x36a4ba24; 0x62a3ef62; 0x9eaa10a8; 0xcaad45ee; 0x3eced5e0; 0x6ac980a6;
  0x96c07f6c; 0xc2c72a2a; 0x6b3ff609; 0x3f38a34f; 0xc3315c85; 0x973609c3;
  0x952c9232; 0xc12bc774; 0x3d2238be; 0x69256df8; 0xc0ddb1db; 0x94dae49d;
  0x68d31b57; 0x3cd44e11; 0x6ce62cb5; 0x38e179f3; 0xc4e88639; 0x90efd37f;
  0x39170f5c; 0x6d105a1a; 0x9119a5d0; 0xc51ef096; 0xc7046b67; 0x93033e21;
  0x6f0ac1eb; 0x3b0d94ad; 0x92f5488e; 0xc6f21dc8; 0x3afbe202; 0x6efcb744;
  0xd7d0b4ef; 0x83d7e1a9; 0x7fde1e63; 0x2bd94b25; 0x82219706; 0xd626c240;
  0x2a2f3d8a; 0x7e2868cc; 0x7c32f33d; 0x2835a67b; 0xd43c59b1; 0x803b0cf7;
  0x29c3d0d4; 0x7dc48592; 0x81cd7a58; 0xd5ca2f1e; 0x85f84dba; 0xd1ff18fc;
  0x2df6e736; 0x79f1b270; 0xd0096e53; 0x840e3b15; 0x7807c4df; 0x2c009199;
  0x2e1a0a68; 0x7a1d5f2e; 0x8614a0e4; 0xd213f5a2; 0x7beb2981; 0x2fec7cc7;
  0xd3e5830d; 0x87e2d64b; 0x73814645; 0x27861303; 0xdb8fecc9; 0x8f88b98f;
  0x267065ac; 0x727730ea; 0x8e7ecf20; 0xda799a66; 0xd8630197; 0x8c6454d1;
  0x706dab1b; 0x246afe5d; 0x8d92227e; 0xd9957738; 0x259c88f2; 0x719bddb4;
  0x21a9bf10; 0x75aeea56; 0x89a7159c; 0xdda040da; 0x74589cf9; 0x205fc9bf;
  0xdc563675; 0x88516333; 0x8a4bf8c2; 0xde4cad84; 0x2245524e; 0x76420708;
  0xdfbadb2b; 0x8bbd8e6d; 0x77b471a7; 0x23b324e1].

Definition kStrideExtensionTable2 : list Z := [
  0x00000000; 0x678efd01; 0xcf1dfa02; 0xa8930703; 0x9bd782f5; 0xfc597ff4;
  0x54ca78f7; 0x334485f6; 0x3243731b; 0x55cd8e1a; 0xfd5e8919; 0x9ad07418;
  0xa994f1ee; 0xce1a0cef; 0x66890bec; 0x0107f6ed; 0x6486e636; 0x03081b37;
  0xab9b1c34; 0xcc15e135; 0xff5164c3; 0x98df99c2; 0x304c9ec1; 0x57c263c0;
  0x56c5952d; 0x314b682c; 0x99d86f2f; 0xfe56922e; 0xcd1217d8; 0xaa9cead9;
  0x020fedda; 0x658110db; 0xc90dcc6c; 0xae83316d; 0x0610366e; 0x619ecb6f;
  0x52da4e99; 0x3554b398; 0x9dc7b49b; 0xfa49499a; 0xfb4ebf77; 0x9cc04276;
  0x34534575; 0x53ddb874; 0x60993d82; 0x0717c083; 0xaf84c780; 0xc80a3a81;
  0xad8b2a5a; 0xca05d75b; 0x6296d058; 0x05182d59; 0x365ca8af; 0x51d255ae;
  0xf94152ad; 0x9ecfafac; 0x9fc85941; 0xf846a440; 0x50d5a343; 0x375b5e42;
  0x041fdbb4; 0x639126b5; 0xcb0221b6; 0xac8cdcb7; 0x97f7ee29; 0xf0791328;
  0x58ea142b; 0x3f64e92a; 0x0c206cdc; 0x6bae91dd; 0xc33d96de; 0xa4b36bdf;
  0xa5b49d32; 0xc23a6033; 0x6aa96730; 0x0d279a31; 0x3e631fc7; 0x59ede2c6;
  0xf17ee5c5; 0x96f018c4; 0xf371081f; 0x94fff51e; 0x3c6cf21d; 0x5be20f1c;
  0x68a68aea; 0x0f2877eb; 0xa7bb70e8; 0xc0358de9; 0xc1327b04; 0xa6bc8605;
  0x0e2f8106; 0x69a17c07; 0x5ae5f9f1; 0x3d6b04f0; 0x95f803f3; 0xf276fef2;
  0x5efa2245; 0x3974df44; 0x91e7d847; 0xf6692546; 0xc52da0b0; 0xa2a35db1;
  0x0a305ab2; 0x6dbea7b3; 0x6cb9515e; 0x0b37ac5f; 0xa3a4ab5c; 0xc42a565d;
  0xf76ed3ab; 0x90e02eaa; 0x387329a9; 0x5ffdd4a8; 0x3a7cc473; 0x5df23972;
  0xf5613e71; 0x92efc370; 0xa1ab4686; 0xc625bb87; 0x6eb6bc84; 0x09384185;
  0x083fb768; 0x6fb14a69; 0xc7224d6a; 0xa0acb06b; 0x93e8359d; 0xf466c89c;
  0x5cf5cf9f; 0x3b7b329e; 0x2a03aaa3; 0x4d8d57a2; 0xe51e50a1; 0x8290ada0;
  0xb1d42856; 0xd65ad557; 0x7ec9d254; 0x19472f55; 0x1840d9b8; 0x7fce24b9;
  0xd75d23ba; 0xb0d3debb; 0x83975b4d; 0xe419a64c; 0x4c8aa14f; 0x2b045c4e;
  0x4e854c95; 0x290bb194; 0x8198b697; 0xe6164b96; 0xd552ce60; 0xb2dc3361;
  0x1a4f3462; 0x7dc1c963; 0x7cc63f8e; 0x1b48c28f; 0xb3dbc58c; 0xd455388d;
  0xe711bd7b; 0x809f407a; 0x280c4779; 0x4f82ba78; 0xe30e66cf; 0x84809bce;
  0x2c139ccd; 0x4b9d61cc; 0x78d9e43a; 0x1f57193b; 0xb7c41e38; 0xd04ae339;
  0xd14d15d4; 0xb6c3e8d5; 0x1e50efd6; 0x79de12d7; 0x4a9a9721; 0x2d146a20;
  0x85876d23; 0xe2099022; 0x878880f9; 0xe0067df8; 0x48957afb; 0x2f1b87fa;
  0x1c5f020c; 0x7bd1ff0d; 0xd342f80e; 0xb4cc050f; 0xb5cbf3e2; 0xd2450ee3;
  0x7ad609e0; 0x1d58f4e1; 0x2e1c7117; 0x49928c16; 0xe1018b15; 0x868f7614;
  0xbdf4448a; 0xda7ab98b; 0x72e9be88; 0x15674389; 0x2623c67f; 0x41ad3b7e;
  0xe93e3c7d; 0x8eb0c17c; 0x8fb73791; 0xe839ca90; 0x40aacd93; 0x27243092;
  0x1460b564; 0x73ee4865; 0xdb7d4f66; 0xbcf3b267; 0xd972a2bc; 0xbefc5fbd;
  0x166f58be; 0x71e1a5bf; 0x42a52049; 0x252bdd48; 0x8db8da4b; 0xea36274a;
  0xeb31d1a7; 0x8cbf2ca6; 0x242c2ba5; 0x43a2d6a4; 0x70e65352; 0x1768ae53;
  0xbffba950; 0xd8755451; 0x74f988e6; 0x137775e7; 0xbbe472e4; 0xdc6a8fe5;
  0xef2e0a13; 0x88a0f712; 0x2033f011; 0x47bd0d10; 0x46bafbfd; 0x213406fc;
  0x89a701ff; 0xee29fcfe; 0xdd6d7908; 0xbae38409; 0x1270830a; 0x75fe7e0b;
  0x107f6ed0; 0x77f193d1; 0xdf6294d2; 0xb8ec69d3; 0x8ba8ec25; 0xec261124;
  0x44b51627; 0x233beb26; 0x223c1dcb; 0x45b2e0ca; 0xed21e7c9; 0x8aaf1ac8;
  0xb9eb9f3e; 0xde65623f; 0x76f6653c; 0x1178983d].

Definition kStrideExtensionTable3 : list Z := [
  0x00000000; 0xf20c0dfe; 0xe1f46d0d; 0x13f860f3; 0xc604aceb; 0x3408a115;
  0x27f0c1e6; 0xd5fccc18; 0x89e52f27; 0x7be922d9; 0x6811422a; 0x9a1d4fd4;
  0x4fe183cc; 0xbded8e32; 0xae15eec1; 0x5c19e33f; 0x162628bf; 0xe42a2541;
  0xf7d245b2; 0x05de484c; 0xd0228454; 0x222e89aa; 0x31d6e959; 0xc3dae4a7;
  0x9fc30798; 0x6dcf0a66; 0x7e376a95; 0x8c3b676b; 0x59c7ab73; 0xabcba68d;
  0xb833c67e; 0x4a3fcb80; 0x2c4c517e; 0xde405c80; 0xcdb83c73; 0x3fb4318d;
  0xea48fd95; 0x1844f06b; 0x0bbc9098; 0xf9b09d66; 0xa5a97e59; 0x57a573a7;
  0x445d1354; 0xb6511eaa; 0x63add2b2; 0x91a1df4c; 0x8259bfbf; 0x7055b241;
  0x3a6a79c1; 0xc866743f; 0xdb9e14cc; 0x29921932; 0xfc6ed52a; 0x0e62d8d4;
  0x1d9ab827; 0xef96b5d9; 0xb38f56e6; 0x41835b18; 0x527b3beb; 0xa0773615;
  0x758bfa0d; 0x8787f7f3; 0x947f9700; 0x66739afe; 0x5898a2fc; 0xaa94af02;
  0xb96ccff1; 0x4b60c20f; 0x9e9c0e17; 0x6c9003e9; 0x7f68631a; 0x8d646ee4;
  0xd17d8ddb; 0x23718025; 0x3089e0d6; 0xc285ed28; 0x17792130; 0xe5752cce;
  0xf68d4c3d; 0x048141c3; 0x4ebe8a43; 0xbcb287bd; 0xaf4ae74e; 0x5d46eab0;
  0x88ba26a8; 0x7ab62b56; 0x694e4ba5; 0x9b42465b; 0xc75ba564; 0x3557a89a;
  0x26afc869; 0xd4a3c597; 0x015f098f; 0xf3530471; 0xe0ab6482; 0x12a7697c;
  0x74d4f382; 0x86d8fe7c; 0x95209e8f; 0x672c9371; 0xb2d05f69; 0x40dc5297;
  0x53243264; 0xa1283f9a; 0xfd31dca5; 0x0f3dd15b; 0x1cc5b1a8; 0xeec9bc56;
  0x3b35704e; 0xc9397db0; 0xdac11d43; 0x28cd10bd; 0x62f2db3d; 0x90fed6c3;
  0x8306b630; 0x710abbce; 0xa4f677d6; 0x56fa7a28; 0x45021adb; 0xb70e1725;
  0xeb17f41a; 0x191bf9e4; 0x0ae39917; 0xf8ef94e9; 0x2d1358f1; 0xdf1f550f;
  0xcce735fc; 0x3eeb3802; 0xb13145f8; 0x433d4806; 0x50c528f5; 0xa2c9250b;
  0x7735e913; 0x8539e4ed; 0x96c1841e; 0x64cd89e0; 0x38d46adf; 0xcad86721;
  0xd92007d2; 0x2b2c0a2c; 0xfed0c634; 0x0cdccbca; 0x1f24ab39; 0xed28a6c7;
  0xa7176d47; 0x551b60b9; 0x46e3004a; 0xb4ef0db4; 0x6113c1ac; 0x931fcc52;
  0x80e7aca1; 0x72eba15f; 0x2ef24260; 0xdcfe4f9e; 0xcf062f6d; 0x3d0a2293;
  0xe8f6ee8b; 0x1afae375; 0x09028386; 0xfb0e8e78; 0x9d7d1486; 0x6f711978;
  0x7c89798b; 0x8e857475; 0x5b79b86d; 0xa975b593; 0xba8dd560; 0x4881d89e;
  0x14983ba1; 0xe694365f; 0xf56c56ac; 0x07605b52; 0xd29c974a; 0x20909ab4;
  0x3368fa47; 0xc164f7b9; 0x8b5b3c39; 0x795731c7; 0x6aaf5134; 0x98a35cca;
  0x4d5f90d2; 0xbf539d2c; 0xacabfddf; 0x5ea7f021; 0x02be131e; 0xf0b21ee0;
  0xe34a7e13; 0x114673ed; 0xc4babff5; 0x36b6b20b; 0x254ed2f8; 0xd742df06;
  0xe9a9e704; 0x1ba5eafa; 0x085d8a09; 0xfa5187f7; 0x2fad4bef; 0xdda14611;
  0xce5926e2; 0x3c552b1c; 0x604cc823; 0x9240c5dd; 0x81b8a52e; 0x73b4a8d0;
  0xa64864c8; 0x54446936; 0x47bc09c5; 0xb5b0043b; 0xff8fcfbb; 0x0d83c245;
  0x1e7ba2b6; 0xec77af48; 0x398b6350; 0xcb876eae; 0xd87f0e5d; 0x2a7303a3;
  0x766ae09c; 0x8466ed62; 0x979e8d91; 0x6592806f; 0xb06e4c77; 0x42624189;
  0x519a217a; 0xa3962c84; 0xc5e5b67a; 0x37e9bb84; 0x2411db77; 0xd61dd689;
  0x03e11a91; 0xf1ed176f; 0xe215779c; 0x10197a62; 0x4c00995d; 0xbe0c94a3;
  0xadf4f450; 0x5ff8f9ae; 0x8a0435b6; 0x78083848; 0x6bf058bb; 0x99fc5545;
  0xd3c39ec5; 0x21cf933b; 0x3237f3c8; 0xc03bfe36; 0x15c7322e; 0xe7cb3fd0;
  0xf4335f23; 0x063f52dd; 0x5a26b1e2; 0xa82abc1c; 0xbbd2dcef; 0x49ded111;
  0x9c221d09; 0x6e2e10f7; 0x7dd67004; 0x8fda7dfa].

(** ** The code *)

Class LevelDbCoding := { DecodeFixed32 : list Z -> Z }.

Class LevelDbCodingLaws `{LevelDbCoding} : Prop :=
  DecodeFixed32_spec bs : length bs = 4%nat -> bytes bs -> DecodeFixed32 bs = le_val bs.

#[export] Instance reference_coding : LevelDbCoding := { DecodeFixed32 := le_val }.

#[export] Instance reference_coding_laws : LevelDbCodingLaws.
Proof. done. Qed.

Definition kCRC32Xor : Z := 0xffffffff.

(** [RoundUp<N>] on 64-bit addresses. *)
Definition RoundUp (N pointer : Z) : Z := Z.land (wrap 64 (pointer + (N - 1))) (wrap 64 (Z.lnot (N - 1))).

Section crc32c.
Context `{LevelDbCoding} (AcceleratedCRC32C : Z -> list Z -> Z).

(** [ReadUint32LE(p + off)]. *)
Definition ReadUint32LE (p : list Z) (off : nat) : option Z :=
  if decide (off + 4 <= length p)%nat then Some (DecodeFixed32 (take 4 (drop off p))) else None.

Definition STEP1 (l : Z) (p : list Z) : option (Z * list Z) :=
  match p with
  | [] => None
  | b :: p =>
      let c := Z.lxor (Z.land l 0xff) b in
      t ← kByteExtensionTable !! Z.to_nat c; Some (Z.lxor t (Z.shiftr l 8), p)
  end.

(** The value [STEP4(s)] gives [crc##s]. *)
Definition STEP4 (s : nat) (crc : Z) (p : list Z) : option Z :=
  w ← ReadUint32LE p (s * 4);
  t3 ← kStrideExtensionTable3 !! Z.to_nat (Z.land crc 0xff);
  t2 ← kStrideExtensionTable2 !! Z.to_nat (Z.land (Z.shiftr crc 8) 0xff);
  t1 ← kStrideExtensionTable1 !! Z.to_nat (Z.land (Z.shiftr crc 16) 0xff);
  t0 ← kStrideExtensionTable0 !! Z.to_nat (Z.shiftr crc 24);
  Some (Z.lxor (Z.lxor (Z.lxor (Z.lxor w t3) t2) t1) t0).

(** The four stride partial results. *)
Record strides := Strides { crc0 : Z; crc1 : Z; crc2 : Z; crc3 : Z }.

Definition STEP16 (c : strides) (p : list Z) : option (strides * list Z) :=
  c0 ← STEP4 0 (crc0 c) p; c1 ← STEP4 1 (crc1 c) p; c2 ← STEP4 2 (crc2 c) p; c3 ← STEP4 3 (crc3 c) p;
  Some (Strides c0 c1 c2 c3, drop 16 p).

Fixpoint STEP4W_loop (i : nat) (w : Z) : option Z :=
  match i with
  | O => Some w
  | S i => t ← kByteExtensionTable !! Z.to_nat (Z.land w 0xff); STEP4W_loop i (Z.lxor (Z.shiftr w 8) t)
  end.

Definition STEP4W (w l : Z) : option Z := STEP4W_loop 4 (Z.lxor w l).

(** [while (p != x) STEP1], [n] bytes before [x]. *)
Fixpoint align_loop (n : nat) (l : Z) (p : list Z) : option (Z * list Z) :=
  match n with
  | O => Some (l, p)
  | S n => '(l, p) ← STEP1 l p; align_loop n l p
  end.

(** [while ((e - p) >= 16) STEP16]; the length of [p] is enough fuel. *)
Fixpoint swath_loop (fuel : nat) (c : strides) (p : list Z) : option (strides * list Z) :=
  match fuel with
  | O => None
  | S fuel =>
      if decide (16 <= length p)%nat then '(c, p) ← STEP16 c p; swath_loop fuel c p else Some (c, p)
  end.

Fixpoint word_loop (fuel : nat) (c : strides) (p : list Z) : option (strides * list Z) :=
  match fuel with
  | O => None
  | S fuel =>
      if decide (4 <= length p)%nat then
        c0 ← STEP4 0 (crc0 c) p; word_loop fuel (Strides (crc1 c) (crc2 c) (crc3 c) c0) (drop 4 p)
      else Some (c, p)
  end.

Definition load_strides (l : Z) (p : list Z) : option (strides * list Z) :=
  w0 ← ReadUint32LE p 0; w1 ← ReadUint32LE p 4; w2 ← ReadUint32LE p 8; w3 ← ReadUint32LE p 12;
  Some (Strides (Z.lxor w0 l) w1 w2 w3, drop 16 p).

Definition combine_strides (c : strides) : option Z :=
  l ← STEP4W (crc0 c) 0; l ← STEP4W (crc1 c) l; l ← STEP4W (crc2 c) l; STEP4W (crc3 c) l.

Definition strided (l : Z) (p : list Z) : option (Z * list Z) :=
  if decide (16 <= length p)%nat then
    '(c, p) ← load_strides l p;
    '(c, p) ← swath_loop (S (length p)) c p;
    '(c, p) ← word_loop (S (length p)) c p;
    l ← combine_strides c; Some (l, p)
  else Some (l, p).

(** The tail loop [while (p != e) STEP1]. *)
Definition tail_loop (l : Z) (p : list Z) : option (Z * list Z) := align_loop (length p) l p.

Definition kTestCRCBuffer : list Z := [84; 101; 115; 116; 67; 82; 67; 66; 117; 102; 102; 101; 114].
Definition kTestCRCValue : Z := 0xdcbc59fa.

Definition CanAccelerateCRC32C : bool := AcceleratedCRC32C 0 kTestCRCBuffer =? kTestCRCValue.

(** [Extend(crc, data, n)] on the bytes [data] stored at address [addr]. *)
Definition Extend (addr crc : Z) (data : list Z) : option Z :=
  if CanAccelerateCRC32C then Some (AcceleratedCRC32C crc data) else
  let l := Z.lxor crc kCRC32Xor in
  let x := RoundUp 4 addr in
  '(l, p) ← (if x <=? addr + Z.of_nat (length data) then align_loop (Z.to_nat (wrap 64 (x - addr))) l data
             else Some (l, data));
  '(l, p) ← strided l p;
  '(l, p) ← tail_loop l p;
  Some (Z.lxor l kCRC32Xor).
End crc32c.

(** ** The reference: bit at a time *)

(** One step of the reflected shift register. *)
Definition shift1 (l : Z) : Z := Z.lxor (Z.shiftr l 1) (if Z.testbit l 0 then 0x82f63b78 else 0).

Definition shift (n : nat) (l : Z) : Z := Nat.iter n shift1 l.

Definition feed (l b : Z) : Z := shift 8 (Z.lxor l b).

Definition crc32c (crc : Z) (data : list Z) : Z :=
  Z.lxor (foldl feed (Z.lxor crc kCRC32Xor) data) kCRC32Xor.

Example crc32c_check : crc32c 0 [49; 50; 51; 52; 53; 54; 55; 56; 57] = 0xe3069283.
Proof. vm_compute. reflexivity. Qed.

Example crc32c_test_buffer : crc32c 0 kTestCRCBuffer = kTestCRCValue.
Proof. vm_compute. reflexivity. Qed.

(** ** Linearity of the shift register *)

Lemma shift1_lxor x y : shift1 (Z.lxor x y) = Z.lxor (shift1 x) (shift1 y).
Proof.
  unfold shift1. rewrite Z.shiftr_lxor, Z.lxor_spec.
  destruct (Z.testbit x 0), (Z.testbit y 0); cbn [xorb]; rewrite ?Z.lxor_0_r; bits i Hi; rewrite_bits;
    repeat match goal with |- context [Z.testbit ?a ?n] => destruct (Z.testbit a n) end; done.
Qed.

Lemma shift_lxor n x y : shift n (Z.lxor x y) = Z.lxor (shift n x) (shift n y).
Proof.
  induction n as [|n IH]; [done|]. change (shift1 (shift n (Z.lxor x y)) = Z.lxor (shift1 (shift n x)) (shift1 (shift n y))).
  by rewrite IH, shift1_lxor.
Qed.

Lemma shift_add m n x : shift (m + n) x = shift m (shift n x).
Proof. apply Nat.iter_add. Qed.

Lemma shift_0 n : shift n 0 = 0.
Proof. induction n as [|n IH]; [done|]. change (shift1 (shift n 0) = 0). by rewrite IH. Qed.

(** Zero bits are shifted out without feedback. *)
Lemma shift1_double x : shift1 (2 * x) = x.
Proof.
  unfold shift1. rewrite Z.testbit_even_0, Z.lxor_0_r, Z.shiftr_div_pow2 by lia.
  change (2 ^ 1) with 2. rewrite Z.mul_comm. by apply Z.div_mul.
Qed.

Lemma shift_pow2 n x : shift n (2 ^ Z.of_nat n * x) = x.
Proof.
  revert x. induction n as [|n IH]; intros x; [unfold shift; simpl; lia|].
  replace (S n) with (n + 1)%nat by lia. rewrite shift_add.
  replace (2 ^ Z.of_nat (n + 1) * x) with (2 * (2 ^ Z.of_nat n * x))
    by (replace (Z.of_nat (n + 1)) with (Z.succ (Z.of_nat n)) by lia; rewrite Z.pow_succ_r by lia; lia).
  change (shift 1 (2 * (2 ^ Z.of_nat n * x))) with (shift1 (2 * (2 ^ Z.of_nat n * x))).
  by rewrite shift1_double.
Qed.

Lemma shift_shiftl n m x : (m <= n)%nat -> shift n (Z.shiftl x (Z.of_nat m)) = shift (n - m) x.
Proof.
  intros Hm. rewrite Z.shiftl_mul_pow2, Z.mul_comm by lia.
  replace n with ((n - m) + m)%nat at 1 by lia. by rewrite shift_add, shift_pow2.
Qed.

Lemma shift1_range x : is_u 32 x -> is_u 32 (shift1 x).
Proof. intros Hx. unfold shift1. apply is_u_lxor; [done|auto with width|]. by destruct (Z.testbit x 0). Qed.

Lemma shift_range n x : is_u 32 x -> is_u 32 (shift n x).
Proof. intros Hx. induction n as [|n IH]; [done|]. by apply shift1_range. Qed.

(** The top bit of the polynomial is set, so the bit shifted out can be
    recovered: the register never loses information. *)
Lemma crc_shift1_top x : is_u 32 x -> Z.testbit (shift1 x) 31 = Z.testbit x 0.
Proof.
  intros Hx. unfold shift1. rewrite Z.lxor_spec, Z.shiftr_spec by lia.
  rewrite (is_u_high 32 x) by (done || lia). by destruct (Z.testbit x 0).
Qed.

Lemma shift1_inj x : is_u 32 x -> shift1 x = 0 -> x = 0.
Proof.
  intros Hx H0. pose proof (crc_shift1_top x Hx) as Ht. rewrite H0, Z.bits_0 in Ht.
  revert H0. unfold shift1. rewrite <- Ht, Z.lxor_0_r. intros H0. bits i Hi. rewrite Z.bits_0.
  destruct (decide (i = 0)) as [->|Hi0]; [done|].
  replace i with ((i - 1) + 1) by lia. rewrite <- Z.shiftr_spec by lia. by rewrite H0, Z.bits_0.
Qed.

Lemma shift_inj n x y : is_u 32 x -> is_u 32 y -> shift n x = shift n y -> x = y.
Proof.
  intros Hx Hy E. apply Z.lxor_eq. assert (is_u 32 (Z.lxor x y)) as Hu by auto with width.
  assert (shift n (Z.lxor x y) = 0) as H0 by (by rewrite shift_lxor, E, Z.lxor_nilpotent).
  clear E. induction n as [|n IH]; [done|]. apply IH, shift1_inj; [by apply shift_range|done].
Qed.

#[export] Hint Resolve shift_range : width.

(** ** Tables *)

Lemma length_tables :
  length kByteExtensionTable = 256%nat /\ length kStrideExtensionTable0 = 256%nat /\
  length kStrideExtensionTable1 = 256%nat /\ length kStrideExtensionTable2 = 256%nat /\
  length kStrideExtensionTable3 = 256%nat.
Proof. done. Qed.

(** Entry [i] of a table is the register [i * 2^k] after [n] steps. *)
Definition extension_table (n : nat) (k : Z) (t : list Z) : Prop :=
  forall i, is_byte i -> t !! Z.to_nat i = Some (shift n (Z.shiftl i k)).

Lemma extension_table_check n k t :
  t = (fun i => shift n (Z.shiftl i k)) <$> seqZ 0 256 -> extension_table n k t.
Proof.
  intros -> i Hi. rewrite list_lookup_fmap. unfold is_u in Hi. change (2 ^ 8) with 256 in Hi.
  replace (seqZ 0 256 !! Z.to_nat i) with (Some i); [done|]. symmetry. apply lookup_seqZ. lia.
Qed.

Lemma kByteExtensionTable_spec : extension_table 8 0 kByteExtensionTable.
Proof. apply extension_table_check. vm_compute. reflexivity. Qed.

Lemma kStrideExtensionTable0_spec : extension_table 128 24 kStrideExtensionTable0.
Proof. apply extension_table_check. vm_compute. reflexivity. Qed.

Lemma kStrideExtensionTable1_spec : extension_table 128 16 kStrideExtensionTable1.
Proof. apply extension_table_check. vm_compute. reflexivity. Qed.

Lemma kStrideExtensionTable2_spec : extension_table 128 8 kStrideExtensionTable2.
Proof. apply extension_table_check. vm_compute. reflexivity. Qed.

Lemma kStrideExtensionTable3_spec : extension_table 128 0 kStrideExtensionTable3.
Proof. apply extension_table_check. vm_compute. reflexivity. Qed.

(** ** Steps *)

Lemma land_ff_byte x : is_byte (Z.land x 0xff).
Proof. apply is_u_land_r; [lia|]. unfold is_u. lia. Qed.

Lemma land_ff_testbit x i : 0 <= i -> Z.testbit (Z.land x 0xff) i = (i <? 8) && Z.testbit x i.
Proof.
  intros Hi. change 0xff with (Z.ones 8). rewrite Z.land_spec, Z.testbit_ones_nonneg by lia.
  apply andb_comm.
Qed.

(** A table lookup on the low byte is eight steps of the register. *)
Lemma byte_extension l : 0 <= l ->
  Z.lxor (shift 8 (Z.land l 0xff)) (Z.shiftr l 8) = shift 8 l.
Proof.
  intros Hl. rewrite <- (shift_pow2 8 (Z.shiftr l 8)) at 1. rewrite <- shift_lxor. f_equal.
  rewrite Z.mul_comm. change (Z.of_nat 8) with 8. rewrite <- Z.shiftl_mul_pow2 by lia.
  bits i Hi. rewrite Z.lxor_spec, land_ff_testbit, Z.shiftl_spec by lia.
  destruct (Z.ltb_spec i 8); cbn [andb].
  - by rewrite (Z.testbit_neg_r _ (i - 8)), xorb_false_r by lia.
  - rewrite Z.shiftr_spec, xorb_false_l by lia. f_equal. lia.
Qed.

Lemma kByteExtensionTable_lookup i : is_byte i -> kByteExtensionTable !! Z.to_nat i = Some (shift 8 i).
Proof. intros Hi. by rewrite kByteExtensionTable_spec, Z.shiftl_0_r by done. Qed.

Lemma STEP1_spec l b p : is_u 32 l -> is_byte b -> STEP1 l (b :: p) = Some (feed l b, p).
Proof.
  intros Hl Hb. unfold STEP1, feed. pose proof (land_ff_byte l).
  rewrite kByteExtensionTable_lookup by auto with width. cbn [mbind option_bind].
  rewrite !shift_lxor, Z.lxor_assoc, (Z.lxor_comm (shift 8 b)), <- Z.lxor_assoc, byte_extension by (unfold is_u in Hl; lia).
  done.
Qed.

Lemma STEP4W_loop_spec n x : is_u 32 x -> STEP4W_loop n x = Some (shift (n * 8) x).
Proof.
  revert x. induction n as [|n IH]; intros x Hx; [done|].
  cbn [STEP4W_loop]. rewrite kByteExtensionTable_lookup by apply land_ff_byte. cbn [mbind option_bind].
  rewrite Z.lxor_comm, byte_extension by (unfold is_u in Hx; lia).
  rewrite IH by auto with width. rewrite <- shift_add. do 2 f_equal. lia.
Qed.

Lemma STEP4W_spec w l : is_u 32 w -> is_u 32 l -> STEP4W w l = Some (shift 32 (Z.lxor w l)).
Proof. intros Hw Hl. apply (STEP4W_loop_spec 4). auto with width. Qed.

Lemma split_word x : is_u 32 x ->
  x = Z.lxor (Z.lxor (Z.lxor (Z.land x 0xff) (Z.shiftl (Z.land (Z.shiftr x 8) 0xff) 8))
        (Z.shiftl (Z.land (Z.shiftr x 16) 0xff) 16)) (Z.shiftl (Z.shiftr x 24) 24).
Proof.
  intros Hx. bits i Hi. rewrite !Z.lxor_spec, !Z.shiftl_spec, land_ff_testbit by lia.
  destruct (decide (8 <= i)) as [H8|]; [|rewrite !(Z.testbit_neg_r _ (_ - _)) by lia].
  2:{ destruct (Z.ltb_spec i 8); [|lia]. by rewrite !xorb_false_r. }
  rewrite land_ff_testbit, Z.shiftr_spec by lia. replace (i - 8 + 8) with i by lia.
  destruct (decide (16 <= i)) as [H16|]; [|rewrite !(Z.testbit_neg_r _ (_ - 16)), !(Z.testbit_neg_r _ (_ - 24)) by lia].
  2:{ destruct (Z.ltb_spec i 8), (Z.ltb_spec (i - 8) 8); try lia. by rewrite !xorb_false_r. }
  rewrite land_ff_testbit, Z.shiftr_spec by lia. replace (i - 16 + 16) with i by lia.
  destruct (decide (24 <= i)) as [H24|]; [|rewrite !(Z.testbit_neg_r _ (_ - 24)) by lia].
  2:{ destruct (Z.ltb_spec i 8), (Z.ltb_spec (i - 8) 8), (Z.ltb_spec (i - 16) 8); try lia. by rewrite !xorb_false_r. }
  rewrite Z.shiftr_spec by lia. replace (i - 24 + 24) with i by lia.
  by destruct (Z.ltb_spec i 8), (Z.ltb_spec (i - 8) 8), (Z.ltb_spec (i - 16) 8); try lia.
Qed.

Section correctness.
Context `{LevelDbCodingLaws}.

(** [STEP4] moves a partial result past sixteen bytes. *)
Lemma STEP4_spec s crc p w : is_u 32 crc -> ReadUint32LE p (s * 4) = Some w ->
  STEP4 s crc p = Some (Z.lxor w (shift 128 crc)).
Proof.
  intros Hc Hw. unfold STEP4. rewrite Hw. cbn [mbind option_bind].
  rewrite kStrideExtensionTable3_spec, kStrideExtensionTable2_spec, kStrideExtensionTable1_spec
    by apply land_ff_byte. cbn [mbind option_bind].
  rewrite kStrideExtensionTable0_spec. 2:{ unfold is_u in *. rewrite Z.shiftr_div_pow2 by lia. split.
    - apply Z.div_pos; lia. - apply Z.div_lt_upper_bound; lia. }
  cbn [mbind option_bind]. rewrite Z.shiftl_0_r, !Z.lxor_assoc, <- !shift_lxor. do 3 f_equal.
  rewrite <- !Z.lxor_assoc. symmetry. by apply split_word.
Qed.

Lemma ReadUint32LE_spec p off : bytes p -> (off + 4 <= length p)%nat ->
  ReadUint32LE p off = Some (le_val (take 4 (drop off p))).
Proof.
  intros Hp Hl. unfold ReadUint32LE. rewrite decide_True by done. f_equal.
  apply DecodeFixed32_spec; [len|]. by apply Forall_take, Forall_drop.
Qed.

Lemma le_val_word p off : bytes p -> is_u 32 (le_val (take 4 (drop off p))).
Proof.
  intros Hp. pose proof (le_val_range (take 4 (drop off p))) as Hr.
  specialize (Hr ltac:(by apply Forall_take, Forall_drop)). unfold is_u.
  assert (256 ^ Z.of_nat (length (take 4 (drop off p))) <= 256 ^ 4)
    by (apply Z.pow_le_mono_r; [lia|]; len).
  lia.
Qed.

(** Feeding bytes is absorbing their little-endian value. *)
Lemma foldl_feed l bs : bytes bs -> foldl feed l bs = shift (length bs * 8) (Z.lxor l (le_val bs)).
Proof.
  intros Hb. revert l. induction Hb as [|b bs Hb Hbs IH]; intros l.
  - cbn. by rewrite Z.lxor_0_r.
  - cbn [foldl length le_val]. rewrite IH. unfold feed.
    replace (S (length bs) * 8)%nat with (length bs * 8 + 8)%nat by lia. rewrite shift_add. f_equal.
    rewrite <- (shift_pow2 8 (le_val bs)) at 1. rewrite <- shift_lxor. f_equal.
    rewrite Z.lxor_assoc. f_equal. change (2 ^ Z.of_nat 8) with 256.
    pose proof (byte_split b 0 0 (le_val bs) Hb ltac:(unfold is_u; lia)) as E.
    rewrite Z.lxor_0_r, Z.lxor_0_l, Z.mul_0_r, Z.add_0_r, Z.add_0_l in E. exact E.
Qed.

(** The register the four partial results stand for. *)
Definition combined (c : strides) : Z :=
  Z.lxor (shift 32 (crc3 c)) (Z.lxor (shift 64 (crc2 c)) (Z.lxor (shift 96 (crc1 c)) (shift 128 (crc0 c)))).

Definition strides_ok (c : strides) : Prop :=
  is_u 32 (crc0 c) /\ is_u 32 (crc1 c) /\ is_u 32 (crc2 c) /\ is_u 32 (crc3 c).

Lemma combine_strides_spec c : strides_ok c -> combine_strides c = Some (combined c).
Proof.
  intros (Hc0 & Hc1 & Hc2 & Hc3). unfold combine_strides, combined.
  rewrite STEP4W_spec, Z.lxor_0_r by (done || (unfold is_u; lia)). cbn [mbind option_bind].
  rewrite STEP4W_spec by auto 12 with width. cbn [mbind option_bind].
  rewrite STEP4W_spec by auto 12 with width. cbn [mbind option_bind].
  rewrite STEP4W_spec by auto 12 with width. cbn [mbind option_bind].
  by rewrite !shift_lxor, <- !shift_add.
Qed.

Lemma combined_ok c : strides_ok c -> is_u 32 (combined c).
Proof. intros (Hc0 & Hc1 & Hc2 & Hc3). unfold combined. auto 12 with width. Qed.

Lemma take_word (p : list Z) off k : (off + 4 <= k)%nat -> (k <= length p)%nat ->
  drop off (take k p) = take 4 (drop off p) ++ drop (off + 4) (take k p).
Proof.
  intros Hk Hl. rewrite <- (take_drop 4 (drop off (take k p))) at 1.
  rewrite drop_drop. f_equal. rewrite !take_drop_commute, take_take. do 2 f_equal. lia.
Qed.

Abbreviation word p off := (le_val (take 4 (drop off p))).

Lemma feed_word l p off : bytes p -> (off + 4 <= length p)%nat ->
  foldl feed l (take 4 (drop off p)) = shift 32 (Z.lxor l (word p off)).
Proof.
  intros Hp Hl. rewrite foldl_feed by (by apply Forall_take, Forall_drop). do 2 f_equal. len.
Qed.

Lemma feed_swath l p : bytes p -> (16 <= length p)%nat ->
  foldl feed l (take 16 p) = Z.lxor (combined (Strides (word p 0) (word p 4) (word p 8) (word p 12))) (shift 128 l).
Proof.
  intros Hp Hl. rewrite <- (drop_0 (take 16 p)). do 4 rewrite take_word by lia. rewrite (drop_ge (take 16 p)) by len.
  rewrite app_nil_r, !foldl_app, !feed_word by (done || lia). cbn [Nat.add].
  unfold combined. cbn [crc0 crc1 crc2 crc3]. rewrite !shift_lxor, <- !shift_add. cbn [Nat.add].
  set (a := shift 32 _). set (b := shift 64 _). set (c := shift 96 _). set (d := shift 128 (word p 0)).
  set (e := shift 128 l). clearbody a b c d e. bits i Hi. rewrite_bits.
  destruct (Z.testbit a i), (Z.testbit b i), (Z.testbit c i), (Z.testbit d i), (Z.testbit e i); done.
Qed.

Lemma load_strides_spec l p : is_u 32 l -> bytes p -> (16 <= length p)%nat ->
  exists c, load_strides l p = Some (c, drop 16 p) /\ strides_ok c /\ combined c = foldl feed l (take 16 p).
Proof.
  intros Hl Hp Hn. unfold load_strides. rewrite !ReadUint32LE_spec by (done || lia). cbn [mbind option_bind].
  eexists. split; [done|]. split.
  - unfold strides_ok. cbn [crc0 crc1 crc2 crc3]. split_and!; try by apply le_val_word.
    apply is_u_lxor; [lia|by apply le_val_word|done].
  - rewrite feed_swath by done. unfold combined. cbn [crc0 crc1 crc2 crc3].
    by rewrite shift_lxor, !Z.lxor_assoc.
Qed.

Lemma STEP16_spec c p : strides_ok c -> bytes p -> (16 <= length p)%nat ->
  exists c', STEP16 c p = Some (c', drop 16 p) /\ strides_ok c' /\
    combined c' = foldl feed (combined c) (take 16 p).
Proof.
  intros (Hc0 & Hc1 & Hc2 & Hc3) Hp Hn. unfold STEP16.
  rewrite (STEP4_spec 0 _ p (word p 0)), (STEP4_spec 1 _ p (word p 4)), (STEP4_spec 2 _ p (word p 8)),
    (STEP4_spec 3 _ p (word p 12)) by (done || by apply ReadUint32LE_spec; [|simpl; lia]).
  cbn [mbind option_bind]. eexists. split; [done|]. split.
  - unfold strides_ok. cbn [crc0 crc1 crc2 crc3].
    split_and!; (apply is_u_lxor; [lia|by apply le_val_word|auto with width]).
  - rewrite feed_swath by done. unfold combined. cbn [crc0 crc1 crc2 crc3].
    rewrite !shift_lxor, <- !shift_add. cbn [Nat.add].
    generalize (shift 32 (word p 12)) (shift 64 (word p 8)) (shift 96 (word p 4)) (shift 128 (word p 0))
      (shift 160 (crc3 c)) (shift 192 (crc2 c)) (shift 224 (crc1 c)) (shift 256 (crc0 c)).
    intros. bits i Hi. rewrite_bits.
    repeat match goal with |- context [Z.testbit ?x i] => destruct (Z.testbit x i) end; done.
Qed.

Lemma word_step_spec c p : strides_ok c -> bytes p -> (4 <= length p)%nat ->
  exists c0, STEP4 0 (crc0 c) p = Some c0 /\ strides_ok (Strides (crc1 c) (crc2 c) (crc3 c) c0) /\
    combined (Strides (crc1 c) (crc2 c) (crc3 c) c0) = foldl feed (combined c) (take 4 p).
Proof.
  intros (Hc0 & Hc1 & Hc2 & Hc3) Hp Hn.
  rewrite (STEP4_spec 0 _ p (word p 0)) by (done || by apply ReadUint32LE_spec; [|simpl; lia]).
  eexists. split; [done|]. split.
  - unfold strides_ok. cbn [crc0 crc1 crc2 crc3]. split_and!; try done.
    apply is_u_lxor; [lia|by apply le_val_word|auto with width].
  - rewrite <- (drop_0 p) at 2. rewrite feed_word by (done || lia). unfold combined. cbn [crc0 crc1 crc2 crc3].
    rewrite !shift_lxor, <- !shift_add. cbn [Nat.add].
    generalize (shift 32 (word p 0)) (shift 64 (crc3 c)) (shift 96 (crc2 c)) (shift 128 (crc1 c))
      (shift 160 (crc0 c)).
    intros. bits i Hi. rewrite_bits.
    repeat match goal with |- context [Z.testbit ?x i] => destruct (Z.testbit x i) end; done.
Qed.

(** ** Loops *)

Lemma feed_byte_range l b : is_u 32 l -> is_byte b -> is_u 32 (feed l b).
Proof.
  intros Hl Hb. unfold feed. apply shift_range, is_u_lxor; [lia|done|]. by apply (is_u_weaken 8); [lia|].
Qed.

Lemma feed_range l bs : is_u 32 l -> bytes bs -> is_u 32 (foldl feed l bs).
Proof.
  intros Hl Hb. revert l Hl. induction Hb as [|b bs Hb _ IH]; intros l Hl; [done|].
  cbn [foldl]. by apply IH, feed_byte_range.
Qed.

Lemma align_loop_spec n l p : (n <= length p)%nat -> is_u 32 l -> bytes p ->
  align_loop n l p = Some (foldl feed l (take n p), drop n p).
Proof.
  revert l p. induction n as [|n IH]; intros l p Hn Hl Hp; [done|].
  destruct p as [|b p]; [simpl in Hn; lia|]. apply Forall_cons_iff in Hp as [Hb Hp]. cbn [align_loop].
  rewrite STEP1_spec by done. cbn [mbind option_bind]. rewrite IH; [done|simpl in Hn; lia|by apply feed_byte_range|done].
Qed.

(** A loop that consumes [k] bytes per turn and keeps [combined] right ends
    with the same register and fewer than [k] bytes. *)
Definition consumes (c : strides) (p : list Z) (k : nat) (r : option (strides * list Z)) : Prop :=
  exists c' n, r = Some (c', drop n p) /\ strides_ok c' /\ combined c' = foldl feed (combined c) (take n p) /\
    (n <= length p)%nat /\ (length (drop n p) < k)%nat.

Lemma consumes_now c p k : strides_ok c -> (length p < k)%nat -> consumes c p k (Some (c, p)).
Proof. intros Hc Hl. exists c, 0%nat. rewrite drop_0, take_0.
  split; [done|]. split; [exact Hc|]. split; [cbn [foldl]; reflexivity|]. split; lia.
Qed.

Lemma consumes_more c p k c' m r : (m <= length p)%nat ->
  combined c' = foldl feed (combined c) (take m p) -> consumes c' (drop m p) k r -> consumes c p k r.
Proof.
  intros Hm Hc (c'' & n & -> & Hok & Hc' & Hn & Hk). exists c'', (m + n)%nat. rewrite drop_drop in *.
  split; [done|]. split; [exact Hok|]. split; [|split; [len|done]].
  rewrite Hc', Hc, <- foldl_app. f_equal. by rewrite take_take_drop.
Qed.

Lemma swath_loop_spec fuel c p : strides_ok c -> bytes p -> (length p < fuel)%nat ->
  consumes c p 16 (swath_loop fuel c p).
Proof.
  revert c p. induction fuel as [|fuel IH]; intros c p Hc Hp Hf; [lia|]. cbn [swath_loop].
  destruct (decide _) as [Hn|Hn]; [|apply consumes_now; [done|lia]].
  destruct (STEP16_spec c p Hc Hp Hn) as (c' & -> & Hc' & E). cbn [mbind option_bind].
  apply (consumes_more _ _ _ c' 16); [done..|]. apply IH; [done|by apply Forall_drop|len].
Qed.

Lemma word_loop_spec fuel c p : strides_ok c -> bytes p -> (length p < fuel)%nat ->
  consumes c p 4 (word_loop fuel c p).
Proof.
  revert c p. induction fuel as [|fuel IH]; intros c p Hc Hp Hf; [lia|]. cbn [word_loop].
  destruct (decide _) as [Hn|Hn]; [|apply consumes_now; [done|lia]].
  destruct (word_step_spec c p Hc Hp Hn) as (c0 & -> & Hc' & E). cbn [mbind option_bind].
  eapply (consumes_more _ _ _ _ 4); [done..|]. apply IH; [done|by apply Forall_drop|len].
Qed.

Lemma strided_spec l p : is_u 32 l -> bytes p ->
  exists n, (n <= length p)%nat /\ strided l p = Some (foldl feed l (take n p), drop n p).
Proof.
  intros Hl Hp. unfold strided. destruct (decide _) as [Hn|]; [|by exists 0%nat; split; [lia|]].
  destruct (load_strides_spec l p Hl Hp Hn) as (c & -> & Hc & Ec). cbn [mbind option_bind].
  destruct (swath_loop_spec (S (length (drop 16 p))) c (drop 16 p) Hc) as (c1 & n1 & -> & Hc1 & E1 & Hn1 & _);
    [by apply Forall_drop|lia|]. cbn [mbind option_bind].
  destruct (word_loop_spec (S (length (drop n1 (drop 16 p)))) c1 (drop n1 (drop 16 p)) Hc1)
    as (c2 & n2 & -> & Hc2 & E2 & Hn2 & _); [by do 2 apply Forall_drop|lia|]. cbn [mbind option_bind].
  rewrite combine_strides_spec by done. cbn [mbind option_bind].
  exists (16 + (n1 + n2))%nat. split; [len|]. rewrite !drop_drop in *. do 2 f_equal.
  rewrite E2, E1, Ec, <- !foldl_app. f_equal. rewrite <- (take_take_drop p 16), <- (take_take_drop (drop 16 p) n1).
  by rewrite drop_drop.
Qed.

Lemma tail_loop_spec l p : is_u 32 l -> bytes p -> tail_loop l p = Some (foldl feed l p, []).
Proof. intros Hl Hp. unfold tail_loop. rewrite align_loop_spec, firstn_all, drop_all by done. done. Qed.

Lemma RoundUp_4 addr : 0 <= addr -> addr + 4 <= 2 ^ 64 -> addr <= RoundUp 4 addr <= addr + 3.
Proof.
  intros Ha Hb. unfold RoundUp. rewrite (wrap_small 64 (addr + _)) by (unfold is_u; lia).
  replace (Z.land (addr + (4 - 1)) _) with (4 * ((addr + 3) `div` 4)); [ulia|].
  rewrite Z.mul_comm. change 4 with (2 ^ 2) at 1 2. rewrite <- Z.shiftr_div_pow2, <- Z.shiftl_mul_pow2 by lia.
  bits i Hi. rewrite Z.shiftl_spec, Z.land_spec, wrap_testbit, Z.lnot_spec by lia.
  change (4 - 1) with (Z.ones 2). rewrite Z.testbit_ones_nonneg by lia. change (Z.ones 2) with 3.
  destruct (Z.ltb_spec i 2); cbn [negb].
  - by rewrite (Z.testbit_neg_r _ (i - 2)), !andb_false_r by lia.
  - rewrite Z.shiftr_spec by lia. replace (i - 2 + 2) with i by lia.
    destruct (Z.ltb_spec i 64); cbn [andb]; rewrite ?andb_true_r; [done|].
    rewrite andb_false_r. apply (is_u_high 64); [unfold is_u; lia|done].
Qed.

(** A buffer of the 64-bit address space that does not touch its last word. *)
Definition buffer_at (addr : Z) (data : list Z) : Prop :=
  0 <= addr /\ addr + Z.of_nat (length data) + 4 <= 2 ^ 64 /\ bytes data.

Lemma Extend_portable A addr crc data : A 0 kTestCRCBuffer = 0 -> is_u 32 crc -> buffer_at addr data ->
  Extend A addr crc data = Some (crc32c crc data).
Proof.
  intros HA Hc (Ha & Hlen & Hd). unfold Extend, CanAccelerateCRC32C. rewrite HA.
  change (0 =? kTestCRCValue) with false. cbv iota.
  assert (is_u 32 (Z.lxor crc kCRC32Xor)) as Hl by (apply is_u_lxor; [lia|done|by compute]).
  pose proof (RoundUp_4 addr Ha ltac:(lia)) as Hx.
  assert (exists n, (n <= length data)%nat /\
    (if RoundUp 4 addr <=? addr + Z.of_nat (length data)
     then align_loop (Z.to_nat (wrap 64 (RoundUp 4 addr - addr))) (Z.lxor crc kCRC32Xor) data
     else Some (Z.lxor crc kCRC32Xor, data)) =
    Some (foldl feed (Z.lxor crc kCRC32Xor) (take n data), drop n data)) as (n & Hn & ->).
  { destruct (Z.leb_spec (RoundUp 4 addr) (addr + Z.of_nat (length data))).
    - rewrite wrap_small by (unfold is_u; lia). eexists. split; [|apply align_loop_spec; [|done..]]; lia.
    - exists 0%nat. split; [lia|done]. }
  cbn [mbind option_bind].
  destruct (strided_spec (foldl feed (Z.lxor crc kCRC32Xor) (take n data)) (drop n data)) as (m & Hm & ->);
    [by apply feed_range; [|apply Forall_take]|by apply Forall_drop|]. cbn [mbind option_bind].
  rewrite <- foldl_app, take_take_drop, drop_drop.
  rewrite tail_loop_spec by (try apply feed_range; try apply Forall_take; try apply Forall_drop; done).
  cbn [mbind option_bind]. by rewrite <- foldl_app, take_drop.
Qed.

End correctness.

(** ** Theorems *)

Lemma crc32c_app crc a b : crc32c crc (a ++ b) = crc32c (crc32c crc a) b.
Proof. unfold crc32c. by rewrite lxor_cancel, foldl_app. Qed.

Lemma crc32c_range crc data : is_u 32 crc -> bytes data -> is_u 32 (crc32c crc data).
Proof.
  intros Hc Hd. assert (is_u 32 kCRC32Xor) by by compute.
  unfold crc32c. apply is_u_lxor; [lia| |done]. apply feed_range; auto with width.
Qed.

(** The CRC is injective in its starting value and in any window of at most
    four bytes. *)
Lemma crc32c_start_inj x y data : is_u 32 x -> is_u 32 y -> bytes data ->
  crc32c x data = crc32c y data -> x = y.
Proof.
  intros Hx Hy Hd E. assert (is_u 32 kCRC32Xor) by by compute. unfold crc32c in E.
  rewrite !foldl_feed in E by done. apply (f_equal (fun v => Z.lxor v kCRC32Xor)) in E.
  rewrite !lxor_cancel in E. assert (is_u 32 (Z.lxor x y)) by auto with width.
  apply Z.lxor_eq. apply (shift_inj (length data * 8)); [done|done|].
  rewrite shift_0, !shift_lxor in *. apply Z.lxor_eq_0_iff.
  apply (f_equal (fun v => Z.lxor v (shift (length data * 8) (le_val data)))) in E.
  rewrite !lxor_cancel in E. apply (f_equal (fun v => Z.lxor v (shift (length data * 8) kCRC32Xor))) in E.
  by rewrite !lxor_cancel in E.
Qed.

Lemma crc32c_window_inj crc u v : is_u 32 crc -> bytes u -> bytes v -> length u = length v ->
  (length u <= 4)%nat -> crc32c crc u = crc32c crc v -> u = v.
Proof.
  intros Hc Hu Hv Hl H4 E. assert (is_u 32 kCRC32Xor) by by compute. unfold crc32c in E.
  rewrite !foldl_feed in E by done. apply (f_equal (fun v => Z.lxor v kCRC32Xor)) in E.
  rewrite !lxor_cancel, Hl in E.
  assert (forall w, bytes w -> (length w <= 4)%nat -> is_u 32 (le_val w)) as Hw.
  { intros w Hw Hlw. pose proof (le_val_range w Hw). unfold is_u. change (2 ^ 32) with (256 ^ 4).
    assert (256 ^ Z.of_nat (length w) <= 256 ^ 4) by (apply Z.pow_le_mono_r; lia). lia. }
  apply shift_inj in E; [|apply is_u_lxor; [lia|auto with width|apply Hw; [done|lia]]..].
  apply le_val_inj; [done..|]. rewrite (Z.lxor_comm _ (le_val u)), (Z.lxor_comm _ (le_val v)) in E.
  apply (f_equal (fun x => Z.lxor x (Z.lxor crc kCRC32Xor))) in E. by rewrite !lxor_cancel in E.
Qed.

Section theorems.
Context `{LevelDbCodingLaws} (A : Z -> list Z -> Z).
(** The documented answer of [port::AcceleratedCRC32C] on a machine that
    cannot accelerate. *)
Hypothesis no_acceleration : forall crc data, A crc data = 0.

(** C37 (equivalence): at every alignment and length the table-driven, strided
    [Extend] terminates inside its buffer and its tables, and computes the
    bit-at-a-time CRC-32C. *)
Theorem Extend_correct (addr crc : Z) (data : list Z) : is_u 32 crc -> buffer_at addr data ->
  Extend A addr crc data = Some (crc32c crc data).
Proof. intros. by apply Extend_portable. Qed.

(** Extending by one buffer and then by another, stored
    anywhere, is extending by their concatenation. *)
Theorem Extend_append (addr1 addr2 addr crc : Z) (a b : list Z) : is_u 32 crc ->
  buffer_at addr1 a -> buffer_at addr2 b -> buffer_at addr (a ++ b) ->
  (c ← Extend A addr1 crc a; Extend A addr2 c b) = Extend A addr crc (a ++ b).
Proof.
  intros Hc H1 H2 H12. rewrite !Extend_portable by done. cbn [mbind option_bind].
  rewrite Extend_portable, crc32c_app; [done|done| |done]. apply crc32c_range; [done|apply H1].
Qed.

(** Any change confined to four consecutive bytes changes the
    CRC, whatever surrounds them. *)
Theorem Extend_detects_burst (addr crc : Z) (pre u v post : list Z) : is_u 32 crc ->
  buffer_at addr (pre ++ u ++ post) -> buffer_at addr (pre ++ v ++ post) ->
  length u = length v -> (length u <= 4)%nat -> u <> v ->
  Extend A addr crc (pre ++ u ++ post) <> Extend A addr crc (pre ++ v ++ post).
Proof.
  intros Hc Hu Hv Hl H4 Hne E. rewrite !Extend_portable in E by done. injection E as E.
  destruct Hu as (_ & _ & Hu), Hv as (_ & _ & Hv).
  apply Forall_app in Hu as [Hpre [Hu Hpost]%Forall_app], Hv as [_ [Hv _]%Forall_app].
  rewrite !crc32c_app in E. apply crc32c_start_inj in E; auto using crc32c_range.
  apply crc32c_window_inj in E; auto using crc32c_range.
Qed.
End theorems.

Lemma Extend_correct_witness :
  Extend (fun _ _ => 0) 1 0 (seqZ 0 100) = Some (crc32c 0 (seqZ 0 100)).
Proof. apply (Extend_correct (fun _ _ => 0)); [done|by compute|]. split; [done|]. split; [by compute|]. by_compute. Defined.

Lemma Extend_append_witness :
  (c ← Extend (fun _ _ => 0) 3 0 (seqZ 0 40); Extend (fun _ _ => 0) 8 c (seqZ 40 50)) =
  Extend (fun _ _ => 0) 2 0 (seqZ 0 40 ++ seqZ 40 50).
Proof.
  apply (Extend_append (fun _ _ => 0)); [done|by compute|..]; (split; [done|split; [by compute|by_compute]]).
Defined.

Lemma Extend_detects_burst_witness :
  Extend (fun _ _ => 0) 5 0 (seqZ 0 30 ++ [1; 2; 3; 4] ++ seqZ 0 9) <>
  Extend (fun _ _ => 0) 5 0 (seqZ 0 30 ++ [1; 2; 7; 4] ++ seqZ 0 9).
Proof.
  apply (Extend_detects_burst (fun _ _ => 0));
    [done|by compute| | |done|simpl; lia|done]; (split; [done|split; [by compute|by_compute]]).
Defined.
