(* ===== verification/Base64.v ===== *)
(** * Base64 ([gRPC-Core/src/core/lib/slice/b64.cc])

    [encode_block], [encode_tail] and [grpc_base64_encode_core] are the encoder
    (either alphabet, with or without line breaks); [decode_group] and
    [decode_loop] the decoder.  Characters and bytes are numbers.  The
    encoder's result is the text it writes before the terminating NUL, [None]
    when one of the size assertions aborts.  The decoder distinguishes an
    aborting assertion ([Abort]), invalid input ([Invalid]) and the decoded
    bytes ([Decoded]); its caller receives an empty slice for invalid input. *)

From stdpp Require Import strings.
From S2P Require Import Prelude.

Definition chars (s : string) : list Z := (fun a => Z.of_N (Ascii.N_of_ascii a)) <$> String.list_ascii_of_string s.

(** ** Constants *)

Definition base64_bytes : list Z := [
  -1;   -1;   -1;   -1;   -1;   -1;   -1;   -1;   -1;   -1;   -1;   -1;
  -1;   -1;   -1;   -1;   -1;   -1;   -1;   -1;   -1;   -1;   -1;   -1;
  -1;   -1;   -1;   -1;   -1;   -1;   -1;   -1;   -1;   -1;   -1;   -1;
  -1;   -1;   -1;   -1;   -1;   -1;   -1;   0x3E; -1;   -1;   -1;   0x3F;
  0x34; 0x35; 0x36; 0x37; 0x38; 0x39; 0x3A; 0x3B; 0x3C; 0x3D; -1;   -1;
  -1;   0x7F; -1;   -1;   -1;   0x00; 0x01; 0x02; 0x03; 0x04; 0x05; 0x06;
  0x07; 0x08; 0x09; 0x0A; 0x0B; 0x0C; 0x0D; 0x0E; 0x0F; 0x10; 0x11; 0x12;
  0x13; 0x14; 0x15; 0x16; 0x17; 0x18; 0x19; -1;   -1;   -1;   -1;   -1;
  -1;   0x1A; 0x1B; 0x1C; 0x1D; 0x1E; 0x1F; 0x20; 0x21; 0x22; 0x23; 0x24;
  0x25; 0x26; 0x27; 0x28; 0x29; 0x2A; 0x2B; 0x2C; 0x2D; 0x2E; 0x2F; 0x30;
  0x31; 0x32; 0x33; -1;   -1;   -1;   -1;   -1].

Definition base64_url_unsafe_chars : list Z :=
  chars "ABCDEFGHIJKLMNOPQRSTUVWXYZabcdefghijklmnopqrstuvwxyz0123456789+/".
Definition base64_url_safe_chars : list Z :=
  chars "ABCDEFGHIJKLMNOPQRSTUVWXYZabcdefghijklmnopqrstuvwxyz0123456789-_".

Definition GRPC_BASE64_PAD_CHAR : Z := 61.
Definition GRPC_BASE64_PAD_BYTE : Z := 0x7F.
Definition GRPC_BASE64_MULTILINE_LINE_LEN : Z := 76.
Definition GRPC_BASE64_MULTILINE_NUM_BLOCKS : Z := GRPC_BASE64_MULTILINE_LINE_LEN / 4.

(** ** Encoder *)

(** [size_t] arithmetic. *)
Definition grpc_base64_estimate_encoded_size (data_size : Z) (multiline : bool) : Z :=
  wrap 64 (4 * (wrap 64 (data_size + 3) / 3) +
    2 * (if multiline then data_size / (3 * GRPC_BASE64_MULTILINE_NUM_BLOCKS) else 0) + 1).

Definition encode_block (base64_chars : list Z) (d0 d1 d2 : Z) : list Z :=
  [base64_chars !!! Z.to_nat (Z.land (Z.shiftr d0 2) 0x3F);
   base64_chars !!! Z.to_nat (Z.lor (Z.shiftl (Z.land d0 0x03) 4) (Z.land (Z.shiftr d1 4) 0x0F));
   base64_chars !!! Z.to_nat (Z.lor (Z.shiftl (Z.land d1 0x0F) 2) (Z.land (Z.shiftr d2 6) 0x03));
   base64_chars !!! Z.to_nat (Z.land d2 0x3F)].

Definition encode_tail (base64_chars : list Z) (data : list Z) : list Z :=
  match data with
  | [d0; d1] =>
      [base64_chars !!! Z.to_nat (Z.land (Z.shiftr d0 2) 0x3F);
       base64_chars !!! Z.to_nat (Z.lor (Z.shiftl (Z.land d0 0x03) 4) (Z.land (Z.shiftr d1 4) 0x0F));
       base64_chars !!! Z.to_nat (Z.shiftl (Z.land d1 0x0F) 2);
       GRPC_BASE64_PAD_CHAR]
  | [d0] =>
      [base64_chars !!! Z.to_nat (Z.land (Z.shiftr d0 2) 0x3F);
       base64_chars !!! Z.to_nat (Z.shiftl (Z.land d0 0x03) 4);
       GRPC_BASE64_PAD_CHAR; GRPC_BASE64_PAD_CHAR]
  | _ => []
  end.

(** The loop over whole blocks followed by the tail. *)
Fixpoint encode_blocks (base64_chars : list Z) (multiline : bool) (num_blocks : Z) (data : list Z) : list Z :=
  match data with
  | d0 :: d1 :: d2 :: data =>
      encode_block base64_chars d0 d1 d2 ++
      (let num_blocks := if multiline then num_blocks + 1 else num_blocks in
       if multiline && (num_blocks =? GRPC_BASE64_MULTILINE_NUM_BLOCKS)
       then 13 :: 10 :: encode_blocks base64_chars multiline 0 data
       else encode_blocks base64_chars multiline num_blocks data)
  | _ => encode_tail base64_chars data
  end.

Definition grpc_base64_encode_core (data : list Z) (url_safe multiline : bool) : option (list Z) :=
  let base64_chars := if url_safe then base64_url_safe_chars else base64_url_unsafe_chars in
  let result_projected_size := grpc_base64_estimate_encoded_size (Z.of_nat (length data)) multiline in
  let text := encode_blocks base64_chars multiline 0 data in
  if Z.of_nat (length text) <? result_projected_size then Some text else None.

Definition grpc_base64_encode (data : list Z) (url_safe multiline : bool) : option (list Z) :=
  grpc_base64_encode_core data url_safe multiline.

(** ** Decoder *)

Inductive decoded := Abort | Invalid | Decoded (bs : list Z).

(** [decode_one_char]: the bytes appended; [uint32_t] intermediate values. *)
Definition decode_one_char (codes : list Z) : list Z :=
  let packed := Z.lor (wrap 32 (Z.shiftl (codes !!! 0%nat) 2)) (Z.shiftr (codes !!! 1%nat) 4) in
  [wrap 8 packed].

Definition decode_two_chars (codes : list Z) : list Z :=
  let packed := Z.lor (Z.lor (wrap 32 (Z.shiftl (codes !!! 0%nat) 10))
                             (wrap 32 (Z.shiftl (codes !!! 1%nat) 4))) (Z.shiftr (codes !!! 2%nat) 2) in
  [wrap 8 (Z.shiftr packed 8); wrap 8 packed].

(** The bytes a group of four codes without padding yields. *)
Definition decode_four (codes : list Z) : list Z :=
  let packed := Z.lor (Z.lor (Z.lor (wrap 32 (Z.shiftl (codes !!! 0%nat) 18))
      (wrap 32 (Z.shiftl (codes !!! 1%nat) 12))) (wrap 32 (Z.shiftl (codes !!! 2%nat) 6))) (codes !!! 3%nat) in
  [wrap 8 (Z.shiftr packed 16); wrap 8 (Z.shiftr packed 8); wrap 8 packed].

Definition decode_group (codes : list Z) : decoded :=
  let num_codes := Z.of_nat (length codes) in
  if negb (num_codes <=? 4) then Abort
  else if num_codes =? 1 then Invalid
  else if num_codes =? 2 then Decoded (decode_one_char codes)
  else if num_codes =? 3 then Decoded (decode_two_chars codes)
  else if negb (num_codes =? 4) then Abort
  else if (codes !!! 0%nat =? GRPC_BASE64_PAD_BYTE) || (codes !!! 1%nat =? GRPC_BASE64_PAD_BYTE) then Invalid
  else if codes !!! 2%nat =? GRPC_BASE64_PAD_BYTE then
    if codes !!! 3%nat =? GRPC_BASE64_PAD_BYTE then Decoded (decode_one_char codes) else Invalid
  else if codes !!! 3%nat =? GRPC_BASE64_PAD_BYTE then Decoded (decode_two_chars codes)
  else Decoded (decode_four codes).

(** What the loop does with one character. *)
Inductive char_action := Skip | Reject | Code (code : Z).

#[export] Instance char_action_eq_dec : EqDecision char_action.
Proof. solve_decision. Defined.

Definition classify (url_safe : bool) (c : Z) : char_action :=
  if Z.of_nat (length base64_bytes) <=? c then Skip
  else if url_safe && ((c =? 43) || (c =? 47)) then Reject
  else
    let c := if url_safe then if c =? 45 then 43 else if c =? 95 then 47 else c else c in
    let code := base64_bytes !!! Z.to_nat c in
    if code =? -1 then if negb (c =? 13) && negb (c =? 10) then Reject else Skip
    else Code (wrap 8 code).

(** The loop over the text, [codes] being the open group and [out] the bytes
    written, and the group left at the end. *)
Fixpoint decode_loop (url_safe : bool) (codes out b64 : list Z) : decoded :=
  match b64 with
  | [] =>
      if (length codes =? 0)%nat then Decoded out
      else match decode_group codes with
           | Decoded bs => Decoded (out ++ bs) | r => r end
  | c :: b64 =>
      match classify url_safe c with
      | Skip => decode_loop url_safe codes out b64
      | Reject => Invalid
      | Code code =>
          let codes := codes ++ [code] in
          if (length codes =? 4)%nat then
            match decode_group codes with
            | Decoded bs => decode_loop url_safe [] (out ++ bs) b64 | r => r end
          else decode_loop url_safe codes out b64
      end
  end.

(** [grpc_base64_decode_with_len]: the slice returned, [None] on abort. *)
Definition grpc_base64_decode_with_len (b64 : list Z) (url_safe : bool) : option (list Z) :=
  match decode_loop url_safe [] [] b64 with
  | Decoded bs => Some bs
  | Invalid => Some []
  | Abort => None
  end.

(** [grpc_base64_decode]: [strlen] measures a C string, which is given by its
    bytes before the NUL. *)
Definition grpc_base64_decode (b64 : list Z) (url_safe : bool) : option (list Z) :=
  grpc_base64_decode_with_len b64 url_safe.

Example encode_hello : grpc_base64_encode (chars "hello") true false = Some (chars "aGVsbG8=").
Proof. vm_compute. reflexivity. Qed.

Example decode_hello : grpc_base64_decode_with_len (chars "aGVsbG8") true = Some (chars "hello").
Proof. vm_compute. reflexivity. Qed.

(** A group cut short inside its padding is decoded with the padding's code
    as data: where ["QQ=="] and ["QQ"] are one byte, ["QQ="] is two. *)
Example decode_truncated_padding :
  grpc_base64_decode_with_len (chars "QQ==") false = Some [65] /\
  grpc_base64_decode_with_len (chars "QQ") false = Some [65] /\
  grpc_base64_decode_with_len (chars "QQ=") false = Some [65; 31].
Proof. vm_compute. auto. Qed.

(** ** Arithmetic of the groups *)

Definition is_code (c : Z) : Prop := 0 <= c < 64.

Lemma shiftl_wrap x n : 0 <= n -> 0 <= x -> x * 2 ^ n < 2 ^ 32 -> wrap 32 (Z.shiftl x n) = Z.shiftl x n.
Proof. intros Hn Hx Hb. apply wrap_small. rewrite Z.shiftl_mul_pow2 by done. split; [nia|done]. Qed.

(** A concrete list of codes. *)
Ltac all_codes := repeat first [apply List.Forall_nil | apply List.Forall_cons; [assumption|]].

(** The four codes of three bytes. *)
Definition code0 (d0 : Z) : Z := d0 / 4.
Definition code1 (d0 d1 : Z) : Z := d0 mod 4 * 16 + d1 / 16.
Definition code2 (d1 d2 : Z) : Z := d1 mod 16 * 4 + d2 / 64.
Definition code3 (d2 : Z) : Z := d2 mod 64.

Ltac codes := unfold is_code, code0, code1, code2, code3, is_u in *; Z.to_euclidean_division_equations; lia.

Lemma code_exprs d0 d1 d2 : is_byte d0 -> is_byte d1 -> is_byte d2 ->
  Z.land (Z.shiftr d0 2) 0x3F = code0 d0 /\
  Z.lor (Z.shiftl (Z.land d0 0x03) 4) (Z.land (Z.shiftr d1 4) 0x0F) = code1 d0 d1 /\
  Z.lor (Z.shiftl (Z.land d1 0x0F) 2) (Z.land (Z.shiftr d2 6) 0x03) = code2 d1 d2 /\
  Z.land d2 0x3F = code3 d2 /\
  Z.shiftl (Z.land d0 0x03) 4 = code1 d0 0 /\ Z.shiftl (Z.land d1 0x0F) 2 = code2 d1 0.
Proof.
  intros H0 H1 H2. change 0x3F with (Z.ones 6). change 0x0F with (Z.ones 4). change 0x03 with (Z.ones 2).
  rewrite !land_ones_mod, !Z.shiftr_div_pow2 by lia.
  rewrite !lor_shiftl_add by (lia || (unfold is_u; apply Z.mod_pos_bound; lia)).
  rewrite !Z.shiftl_mul_pow2 by lia. unfold code0, code1, code2, code3.
  change (2 ^ 6) with 64. change (2 ^ 4) with 16. change (2 ^ 2) with 4. split_and!; codes.
Qed.

Lemma codes_ok d0 d1 d2 : is_byte d0 -> is_byte d1 -> is_byte d2 ->
  is_code (code0 d0) /\ is_code (code1 d0 d1) /\ is_code (code2 d1 d2) /\ is_code (code3 d2) /\
  is_code (code1 d0 0) /\ is_code (code2 d1 0).
Proof. intros. split_and!; codes. Qed.

Lemma decode_four_codes d0 d1 d2 : is_byte d0 -> is_byte d1 -> is_byte d2 ->
  decode_four [code0 d0; code1 d0 d1; code2 d1 d2; code3 d2] = [d0; d1; d2].
Proof.
  intros H0 H1 H2. unfold decode_four. cbn [lookup_total list_lookup_total].
  destruct (codes_ok d0 d1 d2) as (C0 & C1 & C2 & C3 & _ & _); [done..|]. unfold is_code in *.
  rewrite !shiftl_wrap by lia. rewrite <- !Z.lor_assoc.
  rewrite (lor_shiftl_add (code2 d1 d2)) by (unfold is_u; lia).
  rewrite (lor_shiftl_add (code1 d0 d1)) by (unfold is_u; lia).
  rewrite (lor_shiftl_add (code0 d0)) by (unfold is_u; lia).
  rewrite !Z.shiftr_div_pow2 by lia. unfold wrap.
  change (2 ^ 18) with 262144. change (2 ^ 12) with 4096. change (2 ^ 6) with 64.
  change (2 ^ 16) with 65536. change (2 ^ 8) with 256.
  clear C0 C1 C2 C3. repeat f_equal; codes.
Qed.

Lemma decode_two_codes d0 d1 rest : is_byte d0 -> is_byte d1 ->
  decode_two_chars (code0 d0 :: code1 d0 d1 :: code2 d1 0 :: rest) = [d0; d1].
Proof.
  intros H0 H1. unfold decode_two_chars. cbn [lookup_total list_lookup_total].
  destruct (codes_ok d0 d1 0) as (C0 & C1 & C2 & _); [done..|]. unfold is_code in *.
  rewrite !shiftl_wrap by lia. rewrite <- !Z.lor_assoc, (Z.shiftr_div_pow2 (code2 d1 0)) by lia.
  change (2 ^ 2) with 4.
  rewrite (lor_shiftl_add (code1 d0 d1)) by (unfold is_u; Z.to_euclidean_division_equations; lia).
  rewrite (lor_shiftl_add (code0 d0)) by (unfold is_u; Z.to_euclidean_division_equations; lia).
  rewrite Z.shiftr_div_pow2 by lia. unfold wrap.
  change (2 ^ 10) with 1024. change (2 ^ 4) with 16. change (2 ^ 8) with 256.
  clear C0 C1 C2. repeat f_equal; codes.
Qed.

Lemma decode_one_code d0 rest : is_byte d0 -> decode_one_char (code0 d0 :: code1 d0 0 :: rest) = [d0].
Proof.
  intros H0. unfold decode_one_char. cbn [lookup_total list_lookup_total].
  destruct (codes_ok d0 0 0) as (C0 & C1 & _); [done..|]. unfold is_code in *.
  rewrite !shiftl_wrap by lia. rewrite Z.shiftr_div_pow2 by lia. change (2 ^ 4) with 16.
  rewrite lor_shiftl_add by (unfold is_u; Z.to_euclidean_division_equations; lia).
  unfold wrap. change (2 ^ 2) with 4. change (2 ^ 8) with 256. clear C0 C1. repeat f_equal; codes.
Qed.

(** ** Characters *)

Definition alphabet (url_safe : bool) : list Z :=
  if url_safe then base64_url_safe_chars else base64_url_unsafe_chars.

Lemma classify_alphabet url_safe c : is_code c -> classify url_safe (alphabet url_safe !!! Z.to_nat c) = Code c.
Proof.
  intros Hc. cut (Forall (fun c => classify url_safe (alphabet url_safe !!! Z.to_nat c) = Code c) (seqZ 0 64)).
  { intros Hall. apply (Forall_seqZ _ _ _ c Hall). unfold is_code in Hc. lia. }
  destruct url_safe; by_compute.
Qed.

Lemma classify_pad url_safe : classify url_safe GRPC_BASE64_PAD_CHAR = Code GRPC_BASE64_PAD_BYTE.
Proof. by destruct url_safe. Qed.

Lemma classify_newline url_safe : classify url_safe 13 = Skip /\ classify url_safe 10 = Skip.
Proof. by destruct url_safe. Qed.

Lemma alphabet_not_pad url_safe c : is_code c -> alphabet url_safe !!! Z.to_nat c <> GRPC_BASE64_PAD_CHAR.
Proof.
  intros Hc E. pose proof (classify_alphabet url_safe c Hc) as Hcl. rewrite E, classify_pad in Hcl.
  injection Hcl as Hcl. unfold is_code, GRPC_BASE64_PAD_BYTE in *. lia.
Qed.

(** ** Round trip *)

(** The bytes of a group are appended to the output. *)
Lemma decode_loop_out url_safe codes out b64 :
  decode_loop url_safe codes out b64 =
  match decode_loop url_safe codes [] b64 with Decoded bs => Decoded (out ++ bs) | r => r end.
Proof.
  revert codes out. induction b64 as [|c b64 IH]; intros codes out; cbn [decode_loop].
  - destruct (length codes =? 0)%nat; [by rewrite app_nil_r|]. by destruct (decode_group codes).
  - destruct (classify url_safe c) as [| |code]; [apply IH|done|].
    destruct (length (codes ++ [code]) =? 4)%nat; [|apply IH].
    destruct (decode_group _) as [| |bs]; [done..|]. rewrite IH, (IH [] ([] ++ bs)).
    destruct (decode_loop url_safe [] [] b64); [done..|]. by rewrite app_assoc.
Qed.

(** Text that stands for a list of codes. *)
Definition spells (url_safe : bool) (text codes : list Z) : Prop :=
  Forall2 (fun c code => classify url_safe c = Code code) text codes.

Lemma decode_loop_group url_safe text g rest : spells url_safe text g -> length g = 4%nat ->
  decode_loop url_safe [] [] (text ++ rest) =
  match decode_group g with Decoded bs =>
    match decode_loop url_safe [] [] rest with Decoded bs' => Decoded (bs ++ bs') | r => r end
  | r => r end.
Proof.
  intros Hs Hg. destruct g as [|g0 [|g1 [|g2 [|g3 [|]]]]]; try discriminate Hg.
  repeat apply Forall2_cons_inv_r in Hs as (? & ? & ? & Hs & ->).
  apply Forall2_nil_inv_r in Hs as ->. cbn [decode_loop app].
  do 4 (match goal with H : classify _ _ = _ |- _ => rewrite H; clear H end; cbn [length app Nat.eqb]).
  destruct (decode_group _); [done..|]. apply decode_loop_out.
Qed.

Lemma decode_loop_last url_safe text g : spells url_safe text g -> (0 < length g < 4)%nat ->
  decode_loop url_safe [] [] text = decode_group g.
Proof.
  intros Hs Hg. destruct g as [|g0 [|g1 [|g2 [|]]]]; simpl in Hg; try lia.
  all: repeat apply Forall2_cons_inv_r in Hs as (? & ? & ? & Hs & ->);
    apply Forall2_nil_inv_r in Hs as ->; cbn [decode_loop app];
    repeat (match goal with H : classify _ _ = _ |- _ => rewrite H; clear H end; cbn [length app Nat.eqb]);
    by destruct (decode_group _).
Qed.

Lemma encode_block_eq url_safe d0 d1 d2 : is_byte d0 -> is_byte d1 -> is_byte d2 ->
  encode_block (alphabet url_safe) d0 d1 d2 =
  (fun c => alphabet url_safe !!! Z.to_nat c) <$> [code0 d0; code1 d0 d1; code2 d1 d2; code3 d2].
Proof.
  intros H0 H1 H2. destruct (code_exprs d0 d1 d2) as (E0 & E1 & E2 & E3 & _); [done..|].
  unfold encode_block. by rewrite E0, E1, E2, E3.
Qed.

Lemma encode_tail_eq url_safe data : bytes data ->
  encode_tail (alphabet url_safe) data =
  match data with
  | [d0; d1] => ((fun c => alphabet url_safe !!! Z.to_nat c) <$> [code0 d0; code1 d0 d1; code2 d1 0]) ++ [GRPC_BASE64_PAD_CHAR]
  | [d0] => ((fun c => alphabet url_safe !!! Z.to_nat c) <$> [code0 d0; code1 d0 0]) ++ [GRPC_BASE64_PAD_CHAR; GRPC_BASE64_PAD_CHAR]
  | _ => []
  end.
Proof.
  intros Hd. destruct data as [|d0 [|d1 [|]]]; [done| | |done];
    repeat match goal with H : bytes (_ :: _) |- _ => apply Forall_cons_iff in H as [? H] end; cbn [encode_tail].
  - destruct (code_exprs d0 0 0) as (E0 & _ & _ & _ & E1 & _); [done..|]. by rewrite E0, E1.
  - destruct (code_exprs d0 d1 0) as (E0 & E1 & _ & _ & _ & E2); [done..|]. by rewrite E0, E1, E2.
Qed.

Lemma spells_codes url_safe codes : Forall is_code codes ->
  spells url_safe ((fun c => alphabet url_safe !!! Z.to_nat c) <$> codes) codes.
Proof. induction 1 as [|c codes Hc _ IH]; constructor; [by apply classify_alphabet|done]. Qed.

Lemma decode_group_four c0 c1 c2 c3 : is_code c0 -> is_code c1 -> is_code c2 -> is_code c3 ->
  decode_group [c0; c1; c2; c3] = Decoded (decode_four [c0; c1; c2; c3]).
Proof.
  intros H0 H1 H2 H3. unfold decode_group. cbn [length lookup_total list_lookup_total].
  unfold is_code, GRPC_BASE64_PAD_BYTE in *. 
  rewrite !(proj2 (Z.eqb_neq _ 0x7F)) by lia. done.
Qed.

(** Text without its padding. *)
Definition unpadded (text : list Z) : list Z := filter (fun c => c <> GRPC_BASE64_PAD_CHAR) text.

Lemma unpadded_alphabet url_safe codes rest : Forall is_code codes ->
  unpadded (((fun c => alphabet url_safe !!! Z.to_nat c) <$> codes) ++ rest) =
  ((fun c => alphabet url_safe !!! Z.to_nat c) <$> codes) ++ unpadded rest.
Proof.
  induction 1 as [|c codes Hc _ IH]; [done|]. cbn [fmap list_fmap app]. unfold unpadded in *.
  rewrite filter_cons_True by (by apply alphabet_not_pad). by rewrite IH.
Qed.

Lemma decode_loop_newline url_safe rest :
  decode_loop url_safe [] [] (13 :: 10 :: rest) = decode_loop url_safe [] [] rest.
Proof. destruct (classify_newline url_safe) as [H1 H2]. cbn [decode_loop]. by rewrite H1, H2. Qed.

Lemma decode_tail url_safe data : bytes data -> (length data < 3)%nat ->
  decode_loop url_safe [] [] (encode_tail (alphabet url_safe) data) = Decoded data /\
  decode_loop url_safe [] [] (unpadded (encode_tail (alphabet url_safe) data)) = Decoded data.
Proof.
  intros Hd Hl. rewrite encode_tail_eq by done.
  assert (forall g, Forall is_code g -> (0 < length g < 4)%nat -> decode_loop url_safe [] []
    (unpadded (((fun c => alphabet url_safe !!! Z.to_nat c) <$> g) ++ replicate (4 - length g) GRPC_BASE64_PAD_CHAR)) =
    decode_group g) as Hun.
  { intros g Hg Hn. rewrite unpadded_alphabet by done.
    replace (unpadded (replicate _ _)) with (@nil Z) by (by induction (4 - length g)%nat).
    rewrite app_nil_r. by apply decode_loop_last; [apply spells_codes|]. }
  assert (forall g, Forall is_code g -> (0 < length g < 4)%nat -> decode_loop url_safe [] []
    (((fun c => alphabet url_safe !!! Z.to_nat c) <$> g) ++ replicate (4 - length g) GRPC_BASE64_PAD_CHAR) =
    match decode_group (g ++ replicate (4 - length g) GRPC_BASE64_PAD_BYTE) with
      Decoded bs => Decoded (bs ++ []) | r => r end) as Hpad.
  { intros g Hg Hn. rewrite <- (app_nil_r (_ ++ replicate _ GRPC_BASE64_PAD_CHAR)).
    rewrite (decode_loop_group _ _ (g ++ replicate (4 - length g) GRPC_BASE64_PAD_BYTE)); [done| |len].
    apply Forall2_app; [by apply spells_codes|]. induction (4 - length g)%nat; constructor; [apply classify_pad|done]. }
  destruct data as [|d0 [|d1 [|]]]; [done| | |simpl in Hl; lia];
    repeat match goal with H : bytes (_ :: _) |- _ => apply Forall_cons_iff in H as [? H] end.
  - destruct (codes_ok d0 0 0) as (C0 & _ & _ & _ & C1 & _); [done..|].
    assert (Forall is_code [code0 d0; code1 d0 0]) as Hg by all_codes.
    split; [etransitivity; [exact (Hpad _ Hg ltac:(simpl; lia))|]|etransitivity; [exact (Hun _ Hg ltac:(simpl; lia))|]].
    + unfold decode_group. cbn -[decode_one_char Z.eqb code0 code1]. unfold is_code, GRPC_BASE64_PAD_BYTE in *.
      rewrite !(proj2 (Z.eqb_neq _ 0x7F)) by lia. cbn [orb]. rewrite Z.eqb_refl. by rewrite decode_one_code.
    + unfold decode_group. cbn -[decode_one_char code0 code1]. by rewrite decode_one_code.
  - destruct (codes_ok d0 d1 0) as (C0 & C1 & _ & _ & _ & C2); [done..|].
    assert (Forall is_code [code0 d0; code1 d0 d1; code2 d1 0]) as Hg by all_codes.
    split; [etransitivity; [exact (Hpad _ Hg ltac:(simpl; lia))|]|etransitivity; [exact (Hun _ Hg ltac:(simpl; lia))|]].
    + unfold decode_group. cbn -[decode_two_chars Z.eqb code0 code1 code2]. unfold is_code, GRPC_BASE64_PAD_BYTE in *.
      rewrite !(proj2 (Z.eqb_neq _ 0x7F)) by lia. cbn [orb]. rewrite Z.eqb_refl. by rewrite decode_two_codes.
    + unfold decode_group. cbn -[decode_two_chars code0 code1 code2]. by rewrite decode_two_codes.
Qed.

(** Lists taken three elements at a time, as the encoder does. *)
Lemma three_ind (P : list Z -> Prop) :
  (forall data, (length data < 3)%nat -> P data) ->
  (forall d0 d1 d2 data, P data -> P (d0 :: d1 :: d2 :: data)) -> forall data, P data.
Proof.
  intros Hbase Hstep data. cut (P data /\ (forall d, P (d :: data)) /\ (forall d d', P (d :: d' :: data))); [tauto|].
  induction data as [|x data (IH0 & IH1 & IH2)]; [split_and!; intros; apply Hbase; simpl; lia|].
  split; [apply IH1|split; [intros d; apply IH2|]]. intros d d'. by apply Hstep.
Qed.

Lemma encode_blocks_short al multiline nb data : (length data < 3)%nat ->
  encode_blocks al multiline nb data = encode_tail al data.
Proof. by destruct data as [|? [|? [|]]]; simpl; try lia. Qed.

Lemma decode_blocks url_safe multiline nb data : bytes data ->
  decode_loop url_safe [] [] (encode_blocks (alphabet url_safe) multiline nb data) = Decoded data /\
  decode_loop url_safe [] [] (unpadded (encode_blocks (alphabet url_safe) multiline nb data)) = Decoded data.
Proof.
  revert nb. induction data as [data Hl|d0 d1 d2 data IH] using three_ind; intros nb Hd.
  { rewrite encode_blocks_short by done. by apply decode_tail. }
  apply Forall_cons_iff in Hd as [H0 Hd]. apply Forall_cons_iff in Hd as [H1 Hd]. apply Forall_cons_iff in Hd as [H2 Hd].
  destruct (codes_ok d0 d1 d2) as (C0 & C1 & C2 & C3 & _); [done..|].
  assert (Forall is_code [code0 d0; code1 d0 d1; code2 d1 d2; code3 d2]) as Hc by all_codes.
  cbn [encode_blocks]. rewrite encode_block_eq, unpadded_alphabet by done.
  rewrite !(decode_loop_group _ _ _ _ (spells_codes url_safe _ Hc) eq_refl), decode_group_four, decode_four_codes by done.
  destruct (_ && _).
  - unfold unpadded. rewrite !filter_cons_True by done. rewrite !decode_loop_newline.
    destruct (IH 0 Hd) as [-> E]. unfold unpadded in E. by rewrite E.
  - by destruct (IH (if multiline then nb + 1 else nb) Hd) as [-> ->].
Qed.

(** ** Size *)

Lemma encode_tail_length al data : (length data < 3)%nat ->
  Z.of_nat (length (encode_tail al data)) = 4 * ((Z.of_nat (length data) + 2) / 3).
Proof. by destruct data as [|? [|? [|]]]; simpl; try lia. Qed.

(** The exact length of the text; a line break follows every nineteenth
    block. *)
Lemma encode_blocks_length al (multiline : bool) nb data : 0 <= nb < GRPC_BASE64_MULTILINE_NUM_BLOCKS ->
  let n := Z.of_nat (length data) in
  Z.of_nat (length (encode_blocks al multiline nb data)) =
  4 * ((n + 2) / 3) + (if multiline then 2 * ((n / 3 + nb) / GRPC_BASE64_MULTILINE_NUM_BLOCKS) else 0).
Proof.
  change GRPC_BASE64_MULTILINE_NUM_BLOCKS with 19. revert nb.
  induction data as [data Hl|d0 d1 d2 data IH] using three_ind; intros nb Hnb n.
  { rewrite encode_blocks_short, encode_tail_length by done. subst n. destruct multiline; ulia. }
  cbn [encode_blocks]. change GRPC_BASE64_MULTILINE_NUM_BLOCKS with 19. subst n. cbn [encode_block length app].
  destruct multiline; cbn [andb].
  - destruct (Z.eqb_spec (nb + 1) 19) as [Hnb'|Hnb']; cbn [length]; rewrite !Nat2Z.inj_succ, IH by lia; ulia.
  - rewrite !Nat2Z.inj_succ, IH by lia; ulia.
Qed.

Lemma encode_core_some data url_safe multiline : Z.of_nat (length data) < 2 ^ 62 ->
  grpc_base64_encode_core data url_safe multiline =
    Some (encode_blocks (alphabet url_safe) multiline 0 data) /\
  Z.of_nat (length (encode_blocks (alphabet url_safe) multiline 0 data)) <
    grpc_base64_estimate_encoded_size (Z.of_nat (length data)) multiline.
Proof.
  intros Hl. assert (Z.of_nat (length (encode_blocks (alphabet url_safe) multiline 0 data)) <
    grpc_base64_estimate_encoded_size (Z.of_nat (length data)) multiline) as Hlt.
  { rewrite encode_blocks_length by by compute. unfold grpc_base64_estimate_encoded_size.
    change GRPC_BASE64_MULTILINE_NUM_BLOCKS with 19. rewrite (wrap_small 64 (_ + 3)) by (unfold is_u; lia).
    rewrite wrap_small by (unfold is_u; destruct multiline; ulia). destruct multiline; ulia. }
  split; [|done]. unfold grpc_base64_encode_core. fold (alphabet url_safe).
  apply Z.ltb_lt in Hlt. by rewrite Hlt.
Qed.

(** ** The decoder on arbitrary input *)

Definition open_group (codes : list Z) : Prop := (length codes < 4)%nat.

Lemma decode_group_bound codes : (0 < length codes <= 4)%nat ->
  match decode_group codes with
  | Abort => False | Invalid => True
  | Decoded bs => bytes bs /\ (length bs < length codes)%nat /\ (4 * length bs <= 3 * length codes)%nat
  end.
Proof.
  intros Hl. assert (forall x, is_byte (wrap 8 x)) as Hw by (intros; apply wrap_range; lia).
  unfold decode_group, decode_one_char, decode_two_chars, decode_four.
  destruct codes as [|c0 [|c1 [|c2 [|c3 [|]]]]]; simpl in Hl; try lia; cbn -[Z.eqb wrap].
  - done.
  - split; [|simpl; lia]. by repeat constructor; apply Hw.
  - split; [|simpl; lia]. by repeat constructor; apply Hw.
  - repeat case_match; simplify_eq; try done; (split; [by repeat constructor; apply Hw|simpl; lia]).
Qed.

Lemma decode_loop_bound url_safe codes out b64 : open_group codes -> bytes out ->
  match decode_loop url_safe codes out b64 with
  | Abort => False | Invalid => True
  | Decoded bs => bytes bs /\ (4 * length bs <= 4 * length out + 3 * (length codes + length b64))%nat
  end.
Proof.
  revert codes out. unfold open_group.
  induction b64 as [|c b64 IH]; intros codes out Hc Ho; cbn [decode_loop].
  - destruct (Nat.eqb_spec (length codes) 0) as [|Hn]; [by split; [|lia]|].
    pose proof (decode_group_bound codes ltac:(lia)) as Hg.
    destruct (decode_group codes) as [| |bs]; [done..|]. destruct Hg as (Hb & Hl & Hl4).
    split; [by apply Forall_app|]. len.
  - destruct (classify url_safe c) as [| |code]; [|done|].
    + specialize (IH codes out Hc Ho). destruct (decode_loop _ _ _ _); [done..|].
      destruct IH as [? ?]. split; [done|]. cbn [length]. lia.
    + destruct (Nat.eqb_spec (length (codes ++ [code])) 4) as [H4|H4].
      * pose proof (decode_group_bound (codes ++ [code]) ltac:(lia)) as Hg.
        destruct (decode_group _) as [| |bs]; [done..|]. destruct Hg as (Hb & Hl & Hl4).
        specialize (IH [] (out ++ bs) ltac:(simpl; lia) ltac:(by apply Forall_app)).
        destruct (decode_loop _ _ _ _); [done..|]. destruct IH as [? IH]. split; [done|].
        rewrite length_app in *. cbn [length] in *. lia.
      * specialize (IH (codes ++ [code]) out ltac:(len) Ho). destruct (decode_loop _ _ _ _); [done..|].
        destruct IH as [? IH]. split; [done|]. rewrite length_app in IH. cbn [length] in *. lia.
Qed.

(** ** Theorems *)

(** With either alphabet and with or without line breaks,
    encoding any byte string succeeds and decoding the text, or the text
    stripped of its padding, gives the bytes back. *)
Theorem base64_roundtrip (data : list Z) (url_safe multiline : bool) :
  bytes data -> Z.of_nat (length data) < 2 ^ 62 ->
  exists text, grpc_base64_encode data url_safe multiline = Some text /\
    grpc_base64_decode text url_safe = Some data /\ grpc_base64_decode (unpadded text) url_safe = Some data.
Proof.
  intros Hd Hl. destruct (encode_core_some data url_safe multiline Hl) as [E _].
  exists (encode_blocks (alphabet url_safe) multiline 0 data). split; [done|].
  unfold grpc_base64_decode, grpc_base64_decode_with_len.
  by destruct (decode_blocks url_safe multiline 0 data Hd) as [-> ->].
Qed.

Lemma base64_roundtrip_witness :
  exists text, grpc_base64_encode (seqZ 0 100) false true = Some text /\
    grpc_base64_decode text false = Some (seqZ 0 100) /\ grpc_base64_decode (unpadded text) false = Some (seqZ 0 100).
Proof. apply base64_roundtrip; [by_compute|by compute]. Defined.

(** The text and its NUL fit the estimated size, so the encoder
    neither overruns its buffer nor aborts, and the text has four characters
    for every three bytes begun plus two for every full line of 57. *)
Theorem base64_encode_size (data : list Z) (url_safe multiline : bool) : Z.of_nat (length data) < 2 ^ 62 ->
  let n := Z.of_nat (length data) in
  exists text, grpc_base64_encode_core data url_safe multiline = Some text /\
    Z.of_nat (length text) + 1 <= grpc_base64_estimate_encoded_size n multiline /\
    Z.of_nat (length text) = 4 * ((n + 2) / 3) + (if multiline then 2 * (n / 57) else 0).
Proof.
  intros Hl n. destruct (encode_core_some data url_safe multiline Hl) as [E Hlt].
  eexists. split; [exact E|]. split; [subst n; lia|]. rewrite encode_blocks_length by by compute.
  change GRPC_BASE64_MULTILINE_NUM_BLOCKS with 19. fold n. destruct multiline; ulia.
Qed.

Lemma base64_encode_size_witness :
  exists text, grpc_base64_encode_core (seqZ 0 100) true true = Some text /\
    Z.of_nat (length text) + 1 <= grpc_base64_estimate_encoded_size 100 true /\
    Z.of_nat (length text) = 4 * ((100 + 2) / 3) + 2 * (100 / 57).
Proof. apply (base64_encode_size (seqZ 0 100) true true). by compute. Defined.

(** On arbitrary text the decoder terminates without aborting
    and returns bytes that fit the slice it allocated: at most three for every
    four characters. *)
Theorem base64_decode_safe (b64 : list Z) (url_safe : bool) :
  exists bs, grpc_base64_decode_with_len b64 url_safe = Some bs /\ bytes bs /\
    (4 * length bs <= 3 * length b64)%nat.
Proof.
  unfold grpc_base64_decode_with_len.
  pose proof (decode_loop_bound url_safe [] [] b64 ltac:(unfold open_group; simpl; lia) ltac:(done)) as Hb.
  destruct (decode_loop url_safe [] [] b64) as [| |bs]; [done| |].
  - exists []. split; [done|]. split; [done|]. simpl. lia.
  - destruct Hb as [? Hb]. exists bs. simpl in Hb. split; [done|]. split; [done|]. lia.
Qed.
