(* ===== verification/BitSet.v ===== *)
(** * Bit sets ([gRPC-Core/src/core/lib/gprpp/bitset.h]) and the bit counting of
    [gRPC-Core/src/core/lib/gpr/useful.h]

    A [BitSet<kTotalBits, kUnitBits>] is the list of its units, unsigned
    integers of [kUnitBits] bits. A bit index outside the set is undefined
    behaviour in C++; the definitions then leave the array alone or read an
    arbitrary value, and every theorem assumes the index in range. *)

From stdpp Require Import gmap.
From S2P Require Import Prelude.

(** ** [useful.h] *)

Definition SetBit (w i n : Z) : Z := Z.lor i (wrap w (Z.shiftl 1 n)).
Definition ClearBit (w i n : Z) : Z := Z.land i (wrap w (Z.lnot (wrap w (Z.shiftl 1 n)))).
Definition GetBit (w i n : Z) : bool := negb (Z.land i (wrap w (Z.shiftl 1 n)) =? 0).

Definition HexdigitBitcount (x : Z) : Z :=
  wrap 32 (wrap 32 (wrap 32 (x - Z.land (Z.shiftr x 1) 0x77777777) - Z.land (Z.shiftr x 2) 0x33333333)
           - Z.land (Z.shiftr x 3) 0x11111111).

Definition BitCount32 (i : Z) : Z :=
  (Z.land (wrap 32 (HexdigitBitcount i + Z.shiftr (HexdigitBitcount i) 4)) 0x0f0f0f0f) mod 255.

Definition BitCount64 (i : Z) : Z := wrap 32 (BitCount32 (wrap 32 i) + BitCount32 (wrap 32 (Z.shiftr i 32))).

(** Overload resolution on a unit of [w] bits. *)
Definition BitCount (w i : Z) : Z := if w <=? 32 then BitCount32 i else BitCount64 i.

(** ** [bitset.h] *)

Definition ChooseUnitBitsForBitSet (total_bits : Z) : Z :=
  if total_bits <=? 8 then 8
  else if total_bits <=? 16 then 16
  else if total_bits <=? 24 then 8
  else if total_bits <=? 32 then 32
  else if total_bits <=? 48 then 16
  else if total_bits <=? 64 then 64
  else if total_bits <=? 96 then 32
  else 64.

Section bitset.
Context (kTotalBits kUnitBits : Z).

Definition kUnits : Z := (kTotalBits + kUnitBits - 1) / kUnitBits.

Definition unit_for (bit : Z) : Z := bit / kUnitBits.
Definition mask_for (bit : Z) : Z := wrap kUnitBits (Z.shiftl 1 (bit mod kUnitBits)).
Definition all_ones : Z := wrap kUnitBits (Z.lnot 0).
Definition n_ones (n : Z) : Z :=
  if n =? kUnitBits then all_ones else wrap kUnitBits (Z.shiftl 1 n) - 1.

Definition empty_bitset : list Z := replicate (Z.to_nat kUnits) 0.

Definition set (units_ : list Z) (i : Z) : list Z :=
  alter (fun u => Z.lor u (mask_for i)) (Z.to_nat (unit_for i)) units_.

Definition clear (units_ : list Z) (i : Z) : list Z :=
  alter (fun u => Z.land u (wrap kUnitBits (Z.lnot (mask_for i)))) (Z.to_nat (unit_for i)) units_.

Definition set_to (units_ : list Z) (i : Z) (is_set : bool) : list Z :=
  if is_set then set units_ i else clear units_ i.

Definition is_set (units_ : list Z) (i : Z) : bool :=
  negb (Z.land (units_ !!! Z.to_nat (unit_for i)) (mask_for i) =? 0).

(** The loops over the units return from inside. *)
Fixpoint units_all (p : Z -> bool) (n : nat) (units_ : list Z) : bool :=
  match n, units_ with
  | S n, u :: units_ => if p u then units_all p n units_ else false
  | _, _ => true
  end.

Definition all (units_ : list Z) : bool :=
  if kTotalBits mod kUnitBits =? 0 then units_all (Z.eqb all_ones) (Z.to_nat kUnits) units_
  else if units_all (Z.eqb all_ones) (Z.to_nat (kUnits - 1)) units_
  then units_ !!! Z.to_nat (kUnits - 1) =? n_ones (kTotalBits mod kUnitBits)
  else false.

Definition none (units_ : list Z) : bool := units_all (Z.eqb 0) (Z.to_nat kUnits) units_.

Definition count (units_ : list Z) : Z :=
  for_ 0 (Z.to_nat kUnits) (fun i count => wrap 32 (count + BitCount kUnitBits (units_ !!! i))) 0.

Fixpoint units_eq (n : nat) (units_ other : list Z) : bool :=
  match n, units_, other with
  | S n, u :: units_, v :: other => if u =? v then units_eq n units_ other else false
  | _, _, _ => true
  end.

Definition bitset_eq (units_ other : list Z) : bool := units_eq (Z.to_nat kUnits) units_ other.
End bitset.

(** ** Bit counting *)

Lemma filter_ext_in {A} (P Q : A -> Prop) `{!forall x, Decision (P x), !forall x, Decision (Q x)} (l : list A) :
  (forall x, x ∈ l -> P x <-> Q x) -> filter P l = filter Q l.
Proof.
  induction l as [|x l IH]; intros Hl; [done|]. rewrite !filter_cons.
  rewrite IH by (intros; apply Hl; by apply list_elem_of_further).
  apply decide_ext, Hl, list_elem_of_here.
Qed.

Lemma filter_none {A} (P : A -> Prop) `{!forall x, Decision (P x)} (l : list A) :
  (forall x, x ∈ l -> ~ P x) -> filter P l = [].
Proof.
  induction l as [|x l IH]; intros Hl; [done|]. rewrite filter_cons_False by (apply Hl, list_elem_of_here).
  apply IH. intros y Hy. by apply Hl, list_elem_of_further.
Qed.

(** The number of one bits among the lowest [n]. *)
Definition popcount (n x : Z) : Z := Z.of_nat (length (filter (fun i => Z.testbit x i) (seqZ 0 n))).

Lemma nibble_testbit d y i : is_u 4 d -> 0 <= i ->
  Z.testbit (d + 16 * y) i = if i <? 4 then Z.testbit d i else Z.testbit y (i - 4).
Proof.
  intros Hd Hi. replace (d + 16 * y) with (Z.lor (Z.shiftl y 4) d) by (rewrite lor_shiftl_add by (done || lia); lia).
  rewrite Z.lor_spec, Z.shiftl_spec by lia. destruct (Z.ltb_spec i 4).
  - by rewrite (Z.testbit_neg_r y) by lia.
  - by rewrite (is_u_high 4 d), orb_false_r by done.
Qed.

Lemma nibble_land d y m M : is_u 4 d -> is_u 4 m ->
  Z.land (d + 16 * y) (m + 16 * M) = Z.land d m + 16 * Z.land y M.
Proof.
  intros Hd Hm. bits i Hi. rewrite nibble_testbit by auto with width.
  rewrite !Z.land_spec, !nibble_testbit by done. by destruct (i <? 4).
Qed.

Lemma nibble_shiftr d y k : is_u 4 d -> 0 <= k <= 4 ->
  Z.shiftr (d + 16 * y) k = d / 2 ^ k + 2 ^ (4 - k) * y.
Proof.
  intros Hd Hk.
  assert (16 = 2 ^ (4 - k) * 2 ^ k) as -> by (rewrite <- Z.pow_add_r by lia; by replace (4 - k + k) with 4 by lia).
  rewrite Z.shiftr_div_pow2 by lia.
  replace (2 ^ (4 - k) * 2 ^ k * y) with (2 ^ (4 - k) * y * 2 ^ k) by lia.
  rewrite Z.div_add by (apply Z.pow_nonzero; lia). done.
Qed.

(** Shifting a nibble right inside its own digit. *)
Lemma nibble_shiftr_land d y k M : is_u 4 d -> 0 < k < 4 ->
  Z.land (Z.shiftr (d + 16 * y) k) (Z.ones (4 - k) + 16 * M) = d / 2 ^ k + 16 * Z.land (Z.shiftr y k) M.
Proof.
  intros Hd Hk.
  assert (is_u 4 (Z.ones (4 - k))) as Ho by (assert (k = 1 \/ k = 2 \/ k = 3) as [-> | [-> | ->]] by lia; by compute).
  assert (is_u 4 (d / 2 ^ k)) as Hdk.
  { rewrite <- Z.shiftr_div_pow2 by lia. apply is_u_shiftr; done || lia. }
  bits i Hi. rewrite Z.land_spec, Z.shiftr_spec, !nibble_testbit, Z.land_spec, <- Z.shiftr_div_pow2 by (done || lia).
  rewrite !Z.shiftr_spec, Z.testbit_ones_nonneg by lia.
  destruct (Z.ltb_spec i 4) as [H4|H4]; destruct (Z.ltb_spec (i + k) 4); try lia.
  - rewrite (proj2 (Z.ltb_lt i (4 - k))) by lia. apply andb_true_r.
  - rewrite (proj2 (Z.ltb_ge i (4 - k))), andb_false_r by lia. symmetry. apply (is_u_high 4); done.
  - rewrite Z.shiftr_spec by lia. do 2 f_equal. lia.
Qed.

(** The number of one bits of a nibble. *)
Definition nibble_count (d : Z) : Z := d - d / 2 - d / 4 - d / 8.

Lemma nibble_count_range d : is_u 4 d -> 0 <= nibble_count d <= 4.
Proof.
  intros Hd. apply (Forall_seqZ (fun d => 0 <= nibble_count d <= 4) 0 16); [by_compute|].
  unfold is_u in Hd. lia.
Qed.

Lemma popcount_split m n x : 0 <= m -> 0 <= n -> popcount (m + n) x = popcount m x + popcount n (Z.shiftr x m).
Proof.
  intros Hm Hn. unfold popcount. rewrite seqZ_app, list.filter_app, length_app by lia.
  rewrite Nat2Z.inj_add. do 2 f_equal.
  replace (seqZ (0 + m) n) with (Z.add m <$> seqZ 0 n) by (rewrite fmap_add_seqZ; f_equal; lia).
  assert (forall i, i ∈ seqZ 0 n -> 0 <= i) as Hpos by (intros i Hi%elem_of_seqZ; lia).
  induction (seqZ 0 n) as [|i l IH]; [done|]. cbn [fmap list_fmap].
  rewrite !filter_cons, Z.shiftr_spec, (Z.add_comm m i) by apply Hpos, list_elem_of_here.
  specialize (IH ltac:(intros; by apply Hpos, list_elem_of_further)).
  destruct (decide _); cbn [length]; by rewrite IH.
Qed.

Lemma popcount_nibble n d y : is_u 4 d -> 0 <= n -> popcount (4 + n) (d + 16 * y) = nibble_count d + popcount n y.
Proof.
  intros Hd Hn. rewrite popcount_split, nibble_shiftr by (done || lia). f_equal.
  - assert (popcount 4 (d + 16 * y) = popcount 4 d) as ->.
    { unfold popcount. do 2 f_equal. apply filter_ext_in. intros i Hi%elem_of_seqZ.
      rewrite nibble_testbit by (done || lia). by rewrite (proj2 (Z.ltb_lt i 4)) by lia. }
    apply (Forall_seqZ (fun d => popcount 4 d = nibble_count d) 0 16); [by_compute|]. unfold is_u in Hd. lia.
  - f_equal. unfold is_u in Hd. rewrite Z.div_small by lia. lia.
Qed.

(** Eight nibbles. *)
Fixpoint hex_value (ds : list Z) : Z := match ds with [] => 0 | d :: ds => d + 16 * hex_value ds end.

Lemma hex_split (n : nat) x : is_u (4 * Z.of_nat n) x ->
  exists ds, length ds = n /\ Forall (is_u 4) ds /\ x = hex_value ds.
Proof.
  revert x. induction n as [|n IH]; intros x Hx.
  - exists []. split; [done|]. split; [done|]. unfold is_u in Hx. simpl in *. lia.
  - destruct (IH (x / 16)) as (ds & Hl & Hds & E).
    { unfold is_u in *. replace (4 * Z.of_nat (S n)) with (4 * Z.of_nat n + 4) in Hx by lia.
      rewrite Z.pow_add_r in Hx by lia. change (2 ^ 4) with 16 in Hx.
      split; [apply Z.div_pos; lia|apply Z.div_lt_upper_bound; lia]. }
    exists (x mod 16 :: ds). split; [by rewrite <- Hl|]. split.
    + apply List.Forall_cons; [apply Z.mod_pos_bound; lia|done].
    + cbn [hex_value]. rewrite <- E. pose proof (Z.div_mod x 16). lia.
Qed.

Lemma popcount_hex ds : Forall (is_u 4) ds ->
  popcount (4 * Z.of_nat (length ds)) (hex_value ds) = foldr (fun d n => nibble_count d + n) 0 ds.
Proof.
  induction 1 as [|d ds Hd _ IH]; [done|]. cbn [length hex_value foldr].
  replace (4 * Z.of_nat (S (length ds))) with (4 + 4 * Z.of_nat (length ds)) by lia.
  by rewrite popcount_nibble, IH by (done || lia).
Qed.

(** The masks of the code, nibble by nibble. *)
Lemma hex_shiftr_land ds k : Forall (is_u 4) ds -> 0 < k < 4 ->
  Z.land (Z.shiftr (hex_value ds) k) (hex_value (replicate (length ds) (Z.ones (4 - k)))) = hex_value ((fun d => d / 2 ^ k) <$> ds).
Proof.
  intros Hds Hk. induction Hds as [|d ds Hd _ IH]; [apply Z.land_0_r|].
  cbn [length replicate hex_value fmap list_fmap]. by rewrite nibble_shiftr_land, IH.
Qed.

Lemma hex_nibble_count ds :
  hex_value ds - hex_value ((fun d => d / 2 ^ 1) <$> ds) - hex_value ((fun d => d / 2 ^ 2) <$> ds) - hex_value ((fun d => d / 2 ^ 3) <$> ds) =
  hex_value (nibble_count <$> ds).
Proof.
  induction ds as [|d ds IH]; [done|]. cbn [hex_value fmap list_fmap]. unfold nibble_count in *.
  change (2 ^ 1) with 2 in *. change (2 ^ 2) with 4 in *. change (2 ^ 3) with 8 in *. lia.
Qed.

Lemma hex_range ds m : Forall (fun d => 0 <= d <= m) ds -> m < 16 -> 0 <= m ->
  0 <= hex_value ds < 16 ^ Z.of_nat (length ds).
Proof.
  intros Hds Hm Hm0. induction Hds as [|d ds Hd _ IH]; [simpl; lia|].
  cbn [hex_value length]. rewrite Nat2Z.inj_succ, Z.pow_succ_r by lia. lia.
Qed.

Lemma HexdigitBitcount_spec ds : Forall (is_u 4) ds -> length ds = 8%nat ->
  HexdigitBitcount (hex_value ds) = hex_value (nibble_count <$> ds).
Proof.
  intros Hds Hl. unfold HexdigitBitcount. rewrite (wrap_sub_l _ (hex_value ds - _)), wrap_sub_l.
  pose proof (hex_shiftr_land ds 1 Hds ltac:(lia)) as E1. pose proof (hex_shiftr_land ds 2 Hds ltac:(lia)) as E2.
  pose proof (hex_shiftr_land ds 3 Hds ltac:(lia)) as E3. rewrite Hl in E1, E2, E3.
  change (hex_value (replicate 8 (Z.ones (4 - 1)))) with 0x77777777 in E1.
  change (hex_value (replicate 8 (Z.ones (4 - 2)))) with 0x33333333 in E2.
  change (hex_value (replicate 8 (Z.ones (4 - 3)))) with 0x11111111 in E3.
  rewrite E1, E2, E3, hex_nibble_count. apply wrap_small.
  pose proof (hex_range (nibble_count <$> ds) 4) as Hr. rewrite length_fmap, Hl in Hr. apply Hr; [|lia..].
  apply Forall_fmap. eapply list.Forall_impl; [exact Hds|]. apply nibble_count_range.
Qed.

Lemma BitCount32_correct x : is_u 32 x -> BitCount32 x = popcount 32 x.
Proof.
  intros Hx. destruct (hex_split 8 x Hx) as (ds & Hl & Hds & ->). unfold BitCount32.
  rewrite HexdigitBitcount_spec by done.
  transitivity (popcount (4 * Z.of_nat (length ds)) (hex_value ds)); [|by rewrite Hl]. rewrite popcount_hex by done.
  assert (Forall (fun d => 0 <= d <= 4) (nibble_count <$> ds)) as Hc.
  { apply Forall_fmap. eapply list.Forall_impl; [exact Hds|]. apply nibble_count_range. }
  replace (foldr _ 0 ds) with (foldr Z.add 0 (nibble_count <$> ds)) by (clear; induction ds as [|d ds IH]; cbn [fmap list_fmap foldr]; [done|by rewrite IH]).
  rewrite <- (length_fmap nibble_count) in Hl. revert Hl Hc. generalize (nibble_count <$> ds). clear.
  intros ps Hl Hc. do 8 (destruct ps as [|? ps]; [discriminate Hl|]). destruct ps; [|discriminate Hl].
  repeat match goal with H : Forall _ (_ :: _) |- _ => apply Forall_cons_iff in H as [? H] end. clear Hl Hc.
  cbn [hex_value foldr]. rewrite nibble_shiftr by (unfold is_u; lia). change (2 ^ 4) with 16. rewrite (Z.div_small z) by lia.
  change (2 ^ (4 - 4)) with 1. rewrite wrap_small by (unfold is_u; lia).
  match goal with |- Z.land ?e _ mod _ = _ =>
    replace e with ((z + z0) + 16 * ((z0 + z1) + 16 * ((z1 + z2) + 16 * ((z2 + z3) + 16 * ((z3 + z4) + 16 * ((z4 + z5)
      + 16 * ((z5 + z6) + 16 * (z6 + 0 + 16 * 0)))))))) by lia end.
  change 0x0f0f0f0f with (Z.ones 4 + 16 * (0 + 16 * (Z.ones 4 + 16 * (0 + 16 * (Z.ones 4 + 16 * (0 + 16 * (Z.ones 4 + 16 * (0 + 16 * 0)))))))).
  rewrite !nibble_land by first [solve [unfold is_u; lia] | by compute].
  rewrite !Z.land_0_r, !Z.land_ones by lia. change (2 ^ 4) with 16.
  rewrite !(Z.mod_small _ 16) by lia. ulia.
Qed.

Lemma BitCount_correct w x : is_u w x -> 0 <= w <= 64 -> BitCount w x = popcount w x.
Proof.
  intros Hx Hw.
  assert (forall v n y, is_u n y -> 0 <= n <= v -> popcount v y = popcount n y) as Hwiden.
  { intros v n y Hy Hn. replace v with (n + (v - n)) by lia. rewrite popcount_split by lia.
    replace (popcount (v - n) _) with 0; [lia|]. unfold popcount. rewrite filter_none; [done|].
    intros i Hi%elem_of_seqZ. rewrite Z.shiftr_spec by lia. rewrite (is_u_high n y); [by intros []|done|lia]. }
  unfold BitCount. destruct (Z.leb_spec w 32).
  - rewrite BitCount32_correct by (apply (is_u_weaken w); done || lia). apply Hwiden; [done|lia].
  - unfold BitCount64. rewrite !BitCount32_correct by (apply wrap_range; lia).
    assert (forall y, popcount 32 (wrap 32 y) = popcount 32 y) as Hwrap.
    { intros y. unfold popcount. do 2 f_equal. apply filter_ext_in. intros i Hi%elem_of_seqZ.
      rewrite wrap_testbit by lia. by rewrite (proj2 (Z.ltb_lt i 32)) by lia. }
    rewrite !Hwrap, <- popcount_split by lia. change (32 + 32) with 64. rewrite (Hwiden 64 w) by (done || lia).
    apply wrap_small. unfold is_u, popcount. split; [lia|].
    pose proof (length_filter (fun i => Z.testbit x i) (seqZ 0 w)) as Hf. rewrite length_seqZ in Hf. lia.
Qed.

(** ** Well-formed bit sets *)

Section theory.
Context (kTotalBits kUnitBits : Z).
Hypothesis (total_pos : 0 < kTotalBits < 2 ^ 31) (unit_range : 0 < kUnitBits <= 64).

Abbreviation units := (kUnits kTotalBits kUnitBits).
Abbreviation get s i := (Z.testbit (s !!! Z.to_nat (i / kUnitBits)) (i mod kUnitBits)).

(** Every unit has its width and no bit past the total is set. *)
Record bitset_ok (s : list Z) : Prop := {
  ok_length : length s = Z.to_nat units;
  ok_width : Forall (is_u kUnitBits) s;
  ok_tail : forall i, kTotalBits <= i < units * kUnitBits -> get s i = false;
}.

(** The set of integers a bit set stands for. *)
Definition members (s : list Z) : gset Z :=
  list_to_set (filter (fun i => is_set kUnitBits s i) (seqZ 0 kTotalBits)).

Lemma units_bounds : kTotalBits <= units * kUnitBits < kTotalBits + kUnitBits /\ 0 < units.
Proof. unfold kUnits. split; Z.to_euclidean_division_equations; nia. Qed.

Lemma units_lt a b : a * kUnitBits < b * kUnitBits -> a < b.
Proof. intros Hab. apply (Z.mul_lt_mono_pos_r kUnitBits); [lia|done]. Qed.

Lemma index_bounds i : 0 <= i < units * kUnitBits -> 0 <= i / kUnitBits < units /\ 0 <= i mod kUnitBits < kUnitBits.
Proof. intros Hi. split; [|apply Z.mod_pos_bound; lia]. Z.to_euclidean_division_equations; nia. Qed.

Lemma mask_for_pow i : mask_for kUnitBits i = 2 ^ (i mod kUnitBits).
Proof.
  pose proof (Z.mod_pos_bound i kUnitBits). unfold mask_for. rewrite Z.shiftl_1_l. apply wrap_small.
  split; [lia|]. apply Z.pow_lt_mono_r; lia.
Qed.

Lemma mask_for_testbit i j : 0 <= j -> Z.testbit (mask_for kUnitBits i) j = (j =? i mod kUnitBits).
Proof.
  intros Hj. rewrite mask_for_pow. pose proof (Z.mod_pos_bound i kUnitBits).
  rewrite Z.pow2_bits_eqb by lia. apply Z.eqb_sym.
Qed.

Lemma is_set_testbit s i : is_set kUnitBits s i = get s i.
Proof.
  unfold is_set, unit_for. pose proof (Z.mod_pos_bound i kUnitBits).
  set (u := s !!! _). clearbody u. destruct (Z.eqb_spec (Z.land u (mask_for kUnitBits i)) 0) as [E|E]; cbn [negb].
  - apply (f_equal (fun v => Z.testbit v (i mod kUnitBits))) in E.
    rewrite Z.land_spec, mask_for_testbit, Z.eqb_refl, andb_true_r, Z.bits_0 in E by lia. done.
  - destruct (Z.testbit u (i mod kUnitBits)) eqn:Eb; [done|]. exfalso. apply E. bits j Hj.
    rewrite Z.land_spec, mask_for_testbit, Z.bits_0 by lia.
    destruct (Z.eqb_spec j (i mod kUnitBits)) as [->|]; [by rewrite Eb|apply andb_false_r].
Qed.

Lemma elem_of_members s i : i ∈ members s <-> 0 <= i < kTotalBits /\ is_set kUnitBits s i = true.
Proof.
  unfold members. rewrite elem_of_list_to_set, list_elem_of_filter, elem_of_seqZ.
  rewrite Is_true_true. intuition lia.
Qed.

(** One unit replaced, and with it one bit. *)
Lemma get_alter s f i j (b : bool) : length s = Z.to_nat units -> 0 <= i < kTotalBits ->
  0 <= j < units * kUnitBits ->
  (forall u k, 0 <= k < kUnitBits ->
     Z.testbit (f u) k = if k =? i mod kUnitBits then b else Z.testbit u k) ->
  get (alter f (Z.to_nat (i / kUnitBits)) s) j = if j =? i then b else get s j.
Proof.
  intros Hl Hi Hj Hf. destruct units_bounds as [Hu _].
  destruct (index_bounds i ltac:(lia)) as [Hiq Hir]. destruct (index_bounds j Hj) as [Hjq Hjr].
  destruct (decide (j / kUnitBits = i / kUnitBits)) as [E|E].
  - rewrite E. rewrite (list_lookup_total_correct _ _ (f (s !!! Z.to_nat (i / kUnitBits)))).
    2:{ rewrite list_lookup_alter_eq. rewrite (list_lookup_lookup_total_lt s) by lia. done. }
    rewrite Hf by done. rewrite <- E.
    destruct (Z.eqb_spec j i) as [->|Hne]; [by rewrite Z.eqb_refl|].
    destruct (Z.eqb_spec (j mod kUnitBits) (i mod kUnitBits)); [|done]. exfalso.
    apply Hne. rewrite (Z.div_mod j kUnitBits), (Z.div_mod i kUnitBits) by lia. congruence.
  - destruct (Z.eqb_spec j i) as [->|_]; [done|]. f_equal. rewrite !list_lookup_total_alt.
    by rewrite list_lookup_alter_ne by (intros ?; apply E; lia).
Qed.

Lemma set_ok s i : bitset_ok s -> 0 <= i < kTotalBits ->
  bitset_ok (set kUnitBits s i) /\ members (set kUnitBits s i) = {[i]} ∪ members s.
Proof.
  intros [Hl Hw Ht] Hi. destruct units_bounds as [Hu _].
  assert (forall j, 0 <= j < units * kUnitBits -> get (set kUnitBits s i) j = if j =? i then true else get s j) as Hget.
  { intros j Hj. apply get_alter; [done..|]. intros u k Hk. rewrite Z.lor_spec, mask_for_testbit by lia.
    destruct (k =? i mod kUnitBits); [apply orb_true_r|apply orb_false_r]. }
  split; [split|].
  - unfold set. by rewrite length_alter.
  - unfold set. apply Forall_alter; [done|]. intros u _ Hui. apply is_u_lor; [lia|done|].
    unfold mask_for. apply wrap_range. lia.
  - intros j Hj. rewrite Hget by lia. destruct (Z.eqb_spec j i); [lia|]. by apply Ht.
  - apply set_eq. intros j. rewrite elem_of_union, elem_of_singleton, !elem_of_members, !is_set_testbit.
    destruct (decide (0 <= j < kTotalBits)); [|intuition lia]. rewrite Hget by lia.
    destruct (Z.eqb_spec j i); intuition lia.
Qed.

Lemma clear_ok s i : bitset_ok s -> 0 <= i < kTotalBits ->
  bitset_ok (clear kUnitBits s i) /\ members (clear kUnitBits s i) = members s ∖ {[i]}.
Proof.
  intros [Hl Hw Ht] Hi. destruct units_bounds as [Hu _].
  assert (forall j, 0 <= j < units * kUnitBits -> get (clear kUnitBits s i) j = if j =? i then false else get s j) as Hget.
  { intros j Hj. apply get_alter; [done..|]. intros u k Hk.
    rewrite Z.land_spec, wrap_testbit, Z.lnot_spec, mask_for_testbit by lia.
    rewrite (proj2 (Z.ltb_lt k kUnitBits)) by lia. destruct (k =? i mod kUnitBits); [apply andb_false_r|apply andb_true_r]. }
  split; [split|].
  - unfold clear. by rewrite length_alter.
  - unfold clear. apply Forall_alter; [done|]. intros u _ Hui. by apply is_u_land_l; [lia|].
  - intros j Hj. rewrite Hget by lia. destruct (Z.eqb_spec j i); [done|]. by apply Ht.
  - apply set_eq. intros j. rewrite elem_of_difference, elem_of_singleton, !elem_of_members, !is_set_testbit.
    destruct (decide (0 <= j < kTotalBits)); [|intuition lia]. rewrite Hget by lia.
    destruct (Z.eqb_spec j i); intuition (congruence || lia).
Qed.

Lemma empty_ok : bitset_ok (empty_bitset kTotalBits kUnitBits) /\ members (empty_bitset kTotalBits kUnitBits) = ∅.
Proof.
  destruct units_bounds as [Hu _].
  assert (forall j, 0 <= j < units * kUnitBits -> get (empty_bitset kTotalBits kUnitBits) j = false) as Hget.
  { intros j Hj. destruct (index_bounds j Hj) as [Hjq _]. unfold empty_bitset.
    rewrite (list_lookup_total_correct _ _ 0); [apply Z.bits_0|]. apply lookup_replicate. split; [done|lia]. }
  split; [split|].
  - apply length_replicate.
  - apply Forall_replicate. split; [lia|]. apply Z.pow_pos_nonneg; lia.
  - intros j Hj. apply Hget. lia.
  - apply set_eq. intros j. rewrite elem_of_members, is_set_testbit. split; [|set_solver].
    intros [Hj E]. rewrite Hget in E by lia. done.
Qed.

(** ** Queries *)

Lemma units_all_spec p n l : (n <= length l)%nat ->
  units_all p n l = true <-> (forall k, (k < n)%nat -> p (l !!! k) = true).
Proof.
  revert l. induction n as [|n IH]; intros l Hn; [split; [lia|done]|].
  destruct l as [|u l]; [simpl in Hn; lia|]. cbn [units_all]. destruct (p u) eqn:E.
  - rewrite IH by (simpl in Hn; lia). split.
    + intros Hall [|k] Hk; [done|]. apply Hall. lia.
    + intros Hall k Hk. apply (Hall (S k)). lia.
  - split; [done|]. intros Hall. specialize (Hall 0%nat ltac:(lia)). cbn in Hall. congruence.
Qed.

Lemma units_eq_spec a b : length a = length b -> units_eq (length a) a b = true <-> a = b.
Proof.
  revert b. induction a as [|u a IH]; intros [|v b] Hl; try done. cbn [length units_eq].
  destruct (Z.eqb_spec u v) as [->|Hne].
  - rewrite IH by (simpl in Hl; lia). split; [by intros ->|congruence].
  - split; [done|congruence].
Qed.

Lemma width_lookup s k : bitset_ok s -> (k < Z.to_nat units)%nat -> is_u kUnitBits (s !!! k).
Proof. intros [Hl Hw _] Hk. apply Forall_lookup_total_1; [done|lia]. Qed.

(** Bit [k] of unit [q] is member [q * kUnitBits + k]. *)
Lemma get_unit (s : list Z) q k : 0 <= k < kUnitBits -> get s (q * kUnitBits + k) = Z.testbit (s !!! Z.to_nat q) k.
Proof.
  intros Hk. rewrite Z.add_comm, Z.div_add, Z.mod_add, Z.div_small, Z.mod_small by lia. done.
Qed.

(** A unit is given by its bits. *)
Lemma unit_eq u v : is_u kUnitBits u -> is_u kUnitBits v ->
  (forall k, 0 <= k < kUnitBits -> Z.testbit u k = Z.testbit v k) -> u = v.
Proof.
  intros Hu Hv Hall. bits k Hk. destruct (decide (k < kUnitBits)); [by apply Hall|].
  by rewrite (is_u_high kUnitBits u), (is_u_high kUnitBits v) by (done || lia).
Qed.

Lemma all_ones_testbit k : 0 <= k -> Z.testbit (all_ones kUnitBits) k = (k <? kUnitBits).
Proof. intros Hk. unfold all_ones. rewrite wrap_testbit, Z.lnot_spec, Z.bits_0 by lia. apply andb_true_r. Qed.

Lemma n_ones_testbit n k : 0 <= n <= kUnitBits -> 0 <= k -> Z.testbit (n_ones kUnitBits n) k = (k <? n).
Proof.
  intros Hn Hk. unfold n_ones. destruct (Z.eqb_spec n kUnitBits) as [->|]; [by apply all_ones_testbit|].
  rewrite wrap_small by (rewrite Z.shiftl_1_l; split; [lia|apply Z.pow_lt_mono_r; lia]).
  change (Z.testbit (Z.ones n) k = (k <? n)). apply Z.testbit_ones_nonneg; lia.
Qed.

Lemma bitset_eq_spec a b : bitset_ok a -> bitset_ok b ->
  bitset_eq kTotalBits kUnitBits a b = true <-> members a = members b.
Proof.
  intros Ha Hb. destruct units_bounds as [Hu _]. unfold bitset_eq. rewrite <- (ok_length a Ha).
  rewrite units_eq_spec by (by rewrite (ok_length a Ha), (ok_length b Hb)).
  split; [by intros ->|]. intros Hm. apply (list_eq_same_length _ _ (length a)); [by rewrite (ok_length a Ha), (ok_length b Hb)|done|].
  intros q x y Hq Hx Hy. rewrite (ok_length a Ha) in Hq.
  apply list_lookup_total_correct in Hx as <-, Hy as <-.
  apply unit_eq; [by apply width_lookup..|]. intros k Hk.
  pose proof (get_unit a (Z.of_nat q) k Hk) as Ea. pose proof (get_unit b (Z.of_nat q) k Hk) as Eb.
  rewrite Nat2Z.id in Ea, Eb. rewrite <- Ea, <- Eb. clear Ea Eb.
  set (j := Z.of_nat q * kUnitBits + k). assert (0 <= j < units * kUnitBits) as Hj by (subst j; nia).
  destruct (decide (j < kTotalBits)).
  - pose proof (elem_of_members a j) as Hma. pose proof (elem_of_members b j) as Hmb.
    rewrite Hm, Hmb, !is_set_testbit in Hma. apply eq_bool_iff. intuition lia.
  - by rewrite (ok_tail a Ha), (ok_tail b Hb) by lia.
Qed.

Lemma none_spec s : bitset_ok s -> none kTotalBits kUnitBits s = true <-> members s = ∅.
Proof.
  intros Hs. destruct units_bounds as [Hu _]. destruct empty_ok as [He <-].
  rewrite <- bitset_eq_spec by done. unfold none, bitset_eq.
  rewrite <- (ok_length s Hs), units_eq_spec by (rewrite (ok_length s Hs); symmetry; apply length_replicate).
  rewrite units_all_spec by done. unfold empty_bitset. split.
  - intros Hall. apply (list_eq_same_length _ _ (length s)); [by rewrite (ok_length s Hs), length_replicate|done|].
    intros k x y Hk Hx Hy. apply lookup_replicate in Hy as [-> _]. apply list_lookup_total_correct in Hx as <-.
    specialize (Hall k Hk). apply Z.eqb_eq in Hall. done.
  - intros -> k Hk. apply Z.eqb_eq. symmetry. apply list_lookup_total_correct, lookup_replicate.
    split; [done|]. by rewrite length_replicate in Hk.
Qed.

(** Unit [q] holds [n] low ones and nothing else exactly when the [n] indices
    from its start on are members. *)
Lemma unit_full s q n m : bitset_ok s -> 0 <= q < units -> 0 <= n <= kUnitBits ->
  is_u kUnitBits m -> (forall k, 0 <= k -> Z.testbit m k = (k <? n)) ->
  (forall k, n <= k < kUnitBits -> get s (q * kUnitBits + k) = false) ->
  s !!! Z.to_nat q = m <-> forall k, 0 <= k < n -> get s (q * kUnitBits + k) = true.
Proof.
  intros Hs Hq Hn Hm Hmk Hz. split.
  - intros E k Hk. rewrite get_unit, E, Hmk by lia. apply Z.ltb_lt. lia.
  - intros Hall. apply unit_eq; [apply width_lookup; [done|lia]|done|]. intros k Hk.
    rewrite <- get_unit, Hmk by lia. destruct (Z.ltb_spec k n); [apply Hall|apply Hz]; lia.
Qed.

Lemma all_ones_range : is_u kUnitBits (all_ones kUnitBits).
Proof. apply wrap_range. lia. Qed.

Lemma n_ones_range n : 0 <= n <= kUnitBits -> is_u kUnitBits (n_ones kUnitBits n).
Proof.
  intros Hn. unfold n_ones. destruct (n =? kUnitBits) eqn:E; [apply all_ones_range|]. apply Z.eqb_neq in E.
  rewrite Z.shiftl_1_l, wrap_small; unfold is_u;
    pose proof (Z.pow_lt_mono_r 2 n kUnitBits); pose proof (Z.pow_pos_nonneg 2 n); lia.
Qed.

(** All units up to [n] are full exactly when all their indices are members. *)
Lemma units_full s n : bitset_ok s -> 0 <= n -> n * kUnitBits <= kTotalBits ->
  units_all (Z.eqb (all_ones kUnitBits)) (Z.to_nat n) s = true <->
  forall i, 0 <= i < n * kUnitBits -> get s i = true.
Proof.
  intros Hs Hn Hle. destruct units_bounds as [Hu _]. assert (n <= units) by nia.
  rewrite units_all_spec by (rewrite (ok_length s Hs); lia).
  assert (forall q, 0 <= q < n -> s !!! Z.to_nat q = all_ones kUnitBits <->
    forall k, 0 <= k < kUnitBits -> get s (q * kUnitBits + k) = true) as Hfull.
  { intros q Hq. apply unit_full; [done|lia|lia|apply all_ones_range|apply all_ones_testbit|lia]. }
  split.
  - intros Hall i Hi. destruct (index_bounds i ltac:(nia)) as [Hq Hr].
    assert (i / kUnitBits < n) by (apply Z.div_lt_upper_bound; lia).
    specialize (Hall (Z.to_nat (i / kUnitBits)) ltac:(lia)). apply Z.eqb_eq in Hall. symmetry in Hall.
    rewrite Hfull in Hall by lia. specialize (Hall (i mod kUnitBits) Hr).
    rewrite Z.mul_comm, <- Z.div_mod in Hall by lia. done.
  - intros Hall k Hk. apply Z.eqb_eq. symmetry. replace k with (Z.to_nat (Z.of_nat k)) by lia.
    apply Hfull; [lia|]. intros r Hr. apply Hall. nia.
Qed.

Lemma members_full s : members s = list_to_set (seqZ 0 kTotalBits) <->
  forall i, 0 <= i < kTotalBits -> get s i = true.
Proof.
  rewrite set_eq. setoid_rewrite elem_of_members. setoid_rewrite elem_of_list_to_set.
  setoid_rewrite elem_of_seqZ. setoid_rewrite is_set_testbit. split.
  - intros Hall i Hi. apply Hall. lia.
  - intros Hall i. split; [intuition lia|]. intros Hi. split; [lia|]. apply Hall. lia.
Qed.

Lemma all_spec s : bitset_ok s ->
  all kTotalBits kUnitBits s = true <-> members s = list_to_set (seqZ 0 kTotalBits).
Proof.
  intros Hs. destruct units_bounds as [Hu Hup]. rewrite members_full. unfold all.
  destruct (Z.eqb_spec (kTotalBits mod kUnitBits) 0) as [E|E].
  - assert (units * kUnitBits = kTotalBits) as Et .
    { assert (kTotalBits = kUnitBits * (kTotalBits / kUnitBits)) as Eq by (apply Z.div_exact; lia).
      assert (units < kTotalBits / kUnitBits + 1) by (apply units_lt; lia).
      assert (kTotalBits / kUnitBits < units + 1) by (apply units_lt; lia).
      replace units with (kTotalBits / kUnitBits) by lia. lia. }
    rewrite units_full by (done || lia). by rewrite Et.
  - pose proof (Z.mod_pos_bound kTotalBits kUnitBits ltac:(lia)) as Hr.
    set (r := kTotalBits mod kUnitBits) in *.
    assert (kTotalBits = (units - 1) * kUnitBits + r) as Et.
    { pose proof (Z.div_mod kTotalBits kUnitBits ltac:(lia)) as Hd. fold r in Hd.
      assert (units < kTotalBits / kUnitBits + 2) by (apply units_lt; lia).
      assert (kTotalBits / kUnitBits < units) by (apply units_lt; lia).
      replace (units - 1) with (kTotalBits / kUnitBits) by lia. lia. }
    assert (s !!! Z.to_nat (units - 1) = n_ones kUnitBits r <->
      forall k, 0 <= k < r -> get s ((units - 1) * kUnitBits + k) = true) as Hlast.
    { apply unit_full; [done|lia|lia|apply n_ones_range; lia|intros; apply n_ones_testbit; lia|].
      intros k Hk. apply (ok_tail s Hs). nia. }
    transitivity (units_all (Z.eqb (all_ones kUnitBits)) (Z.to_nat (units - 1)) s = true /\
      s !!! Z.to_nat (units - 1) = n_ones kUnitBits r).
    { destruct (units_all _ _ _); rewrite ?Z.eqb_eq; intuition congruence. }
    rewrite units_full, Hlast by (done || lia). split.
    + intros [Hlo Hhi] i Hi. destruct (decide (i < (units - 1) * kUnitBits)); [apply Hlo; lia|].
      replace i with ((units - 1) * kUnitBits + (i - (units - 1) * kUnitBits)) by lia. apply Hhi. lia.
    + assert (0 <= (units - 1) * kUnitBits) by (apply Z.mul_nonneg_nonneg; lia).
      intros Hall. split; intros; apply Hall; lia.
Qed.

(** Counting unit by unit counts the indices. *)
Lemma popcount_units (s : list Z) n : 0 <= n ->
  Z.of_nat (length (filter (fun i => get s i) (seqZ 0 (n * kUnitBits)))) =
  foldl (fun c i => c + popcount kUnitBits (s !!! i)) 0 (seq 0 (Z.to_nat n)).
Proof.
  intros Hn. pattern n. apply natlike_ind; [done| |done]. clear n Hn. intros n Hn IH.
  replace (Z.succ n * kUnitBits) with (n * kUnitBits + kUnitBits) by lia.
  rewrite seqZ_app, list.filter_app, length_app, Nat2Z.inj_add, IH by lia.
  rewrite Z2Nat.inj_succ, seq_S, foldl_app by lia. cbn [foldl Nat.add]. f_equal. unfold popcount. f_equal.
  replace (seqZ (0 + n * kUnitBits) kUnitBits) with (Z.add (n * kUnitBits) <$> seqZ 0 kUnitBits)
    by (rewrite fmap_add_seqZ; f_equal; lia).
  assert (forall k, k ∈ seqZ 0 kUnitBits -> 0 <= k < kUnitBits) as Hk by (intros k Hk%elem_of_seqZ; lia).
  induction (seqZ 0 kUnitBits) as [|k l IHl]; [done|]. cbn [fmap list_fmap].
  rewrite !filter_cons, get_unit by apply Hk, list_elem_of_here.
  specialize (IHl ltac:(intros; by apply Hk, list_elem_of_further)).
  destruct (decide _); cbn [length]; by rewrite IHl.
Qed.

Lemma popcount_range n x : 0 <= n -> 0 <= popcount n x <= n.
Proof.
  intros Hn. unfold popcount. pose proof (length_filter (fun i => Z.testbit x i) (seqZ 0 n)) as Hf.
  rewrite length_seqZ in Hf. lia.
Qed.

Lemma count_spec s : bitset_ok s -> count kTotalBits kUnitBits s = Z.of_nat (size (members s)).
Proof.
  intros Hs. destruct units_bounds as [Hu Hup]. unfold members.
  rewrite size_list_to_set by (apply list.NoDup_filter, NoDup_seqZ).
  assert (length (filter (fun i => is_set kUnitBits s i) (seqZ 0 kTotalBits)) =
    length (filter (fun i => get s i) (seqZ 0 (units * kUnitBits)))) as ->.
  { replace (units * kUnitBits) with (kTotalBits + (units * kUnitBits - kTotalBits)) by lia.
    rewrite seqZ_app, list.filter_app, length_app by lia.
    rewrite (filter_none _ (seqZ (0 + kTotalBits) _)).
    2:{ intros i Hi%elem_of_seqZ. rewrite (ok_tail s Hs) by lia. by intros []. }
    rewrite Nat.add_0_r. f_equal. apply filter_ext_in. intros i _. by rewrite is_set_testbit. }
  rewrite popcount_units by lia. unfold count, for_. rewrite Nat.sub_0_r.
  assert (forall n, (n <= Z.to_nat units)%nat ->
    foldl (fun c i => wrap 32 (c + BitCount kUnitBits (s !!! i))) 0 (seq 0 n) =
      foldl (fun c i => c + popcount kUnitBits (s !!! i)) 0 (seq 0 n) /\
    0 <= foldl (fun c i => c + popcount kUnitBits (s !!! i)) 0 (seq 0 n) <= Z.of_nat n * kUnitBits) as Hall.
  { induction n as [|n IH]; intros Hn; [done|]. destruct (IH ltac:(lia)) as [E Hb].
    rewrite seq_S, !foldl_app. cbn [foldl Nat.add]. rewrite E, BitCount_correct by (try apply width_lookup; done || lia).
    pose proof (popcount_range kUnitBits (s !!! n) ltac:(lia)). split; [|nia].
    apply wrap_small. unfold is_u. nia. }
  by apply Hall.
Qed.
End theory.

(** ** Theorems *)

(** A bit set of any size and unit width is a finite set of
    the integers below its size: starting empty, [set] and [clear] insert and
    remove, [is_set], [all], [none], [count] and [==] answer membership, fullness,
    emptiness, cardinality and equality, and the bits past the size, which
    [all], [count] and [==] would otherwise see, always stay clear. *)
Theorem bitset_refines_gset (kTotalBits kUnitBits : Z) (s other : list Z) (i : Z) :
  0 < kTotalBits < 2 ^ 31 -> 0 < kUnitBits <= 64 ->
  bitset_ok kTotalBits kUnitBits s -> bitset_ok kTotalBits kUnitBits other -> 0 <= i < kTotalBits ->
  let view := members kTotalBits kUnitBits in
  (bitset_ok kTotalBits kUnitBits (empty_bitset kTotalBits kUnitBits) /\
    view (empty_bitset kTotalBits kUnitBits) = ∅) /\
  (bitset_ok kTotalBits kUnitBits (set kUnitBits s i) /\ view (set kUnitBits s i) = {[i]} ∪ view s) /\
  (bitset_ok kTotalBits kUnitBits (clear kUnitBits s i) /\ view (clear kUnitBits s i) = view s ∖ {[i]}) /\
  is_set kUnitBits s i = bool_decide (i ∈ view s) /\
  all kTotalBits kUnitBits s = bool_decide (view s = list_to_set (seqZ 0 kTotalBits)) /\
  none kTotalBits kUnitBits s = bool_decide (view s = ∅) /\
  count kTotalBits kUnitBits s = Z.of_nat (size (view s)) /\
  bitset_eq kTotalBits kUnitBits s other = bool_decide (view s = view other).
Proof.
  intros Ht Hu Hs Ho Hi view. split_and!.
  1,2: by apply empty_ok.
  1,2: by apply set_ok.
  1,2: by apply clear_ok.
  all: try (apply eq_bool_iff; rewrite bool_decide_eq_true).
  - subst view. rewrite elem_of_members by done. tauto.
  - by apply all_spec.
  - by apply none_spec.
  - by apply count_spec.
  - by apply bitset_eq_spec.
Qed.

Lemma bitset_refines_gset_witness :
  members 100 32 (set 32 (empty_bitset 100 32) 99) = {[99]} ∪ members 100 32 (empty_bitset 100 32).
Proof.
  destruct (empty_ok 100 32) as [He _]; [lia|lia|].
  apply (bitset_refines_gset 100 32 (empty_bitset 100 32) (empty_bitset 100 32) 99); done || lia.
Defined.

(** The arithmetic bit count of [useful.h], on units of any
    width up to 64, is the number of one bits. *)
Theorem BitCount_counts (w x : Z) : 0 <= w <= 64 -> is_u w x -> BitCount w x = popcount w x.
Proof. intros. by apply BitCount_correct. Qed.

Lemma BitCount_counts_witness : BitCount 64 0xF0F0123456789ABC = popcount 64 0xF0F0123456789ABC.
Proof. apply BitCount_counts; [lia|by compute]. Defined.
