(* ===== verification/Percent.v ===== *)
(** * Percent encoding ([gRPC-Core/src/core/lib/slice/percent_encoding.cc])

    The two tables of unreserved bytes, built on [BitSet.v]; the two-pass
    encoder, [None] when its final assertion fails; and the permissive decoder,
    which works in place on the slice's own buffer: [decode_in_place] keeps the
    buffer and the read and write positions [p] and [q]. *)

From stdpp Require Import gmap.
From S2P Require Import Prelude.
From S2P Require Import BitSet.

(** ** Tables *)

(** [for (int i = lo; i <= hi; i++) set(i)] on a [BitSet<256>]. *)
Definition unit_bits : Z := ChooseUnitBitsForBitSet 256.

Definition set_range (lo hi : Z) (t : list Z) : list Z :=
  foldl (set unit_bits) t (seqZ lo (hi + 1 - lo)).

Definition UrlTable : list Z :=
  let t := set_range 97 122 (empty_bitset 256 unit_bits) in
  let t := set_range 65 90 t in
  let t := set_range 48 57 t in
  let t := set unit_bits t 45 in
  let t := set unit_bits t 95 in
  let t := set unit_bits t 46 in
  set unit_bits t 126.

Definition CompatibleTable : list Z :=
  foldl (fun t i => if i =? 37 then t else set unit_bits t i) (empty_bitset 256 unit_bits) (seqZ 32 95).

Inductive PercentEncodingType := URL | Compatible.

Definition LookupTableForPercentEncodingType (type : PercentEncodingType) : list Z :=
  match type with URL => UrlTable | Compatible => CompatibleTable end.

(** ** Encoder *)

Definition hex : list Z := [48; 49; 50; 51; 52; 53; 54; 55; 56; 57; 65; 66; 67; 68; 69; 70].

(** The first pass: the output length and whether any byte is reserved. *)
Definition count_output (lut slice : list Z) : Z * bool :=
  foldl (fun '(output_length, any_reserved_bytes) c =>
    let unres := is_set unit_bits lut c in
    (wrap 64 (output_length + if unres then 1 else 3), any_reserved_bytes || negb unres)) (0, false) slice.

(** The second pass. *)
Definition encode_byte (lut : list Z) (c : Z) : list Z :=
  if is_set unit_bits lut c then [c]
  else [37; hex !!! Z.to_nat (Z.shiftr c 4); hex !!! Z.to_nat (Z.land c 15)].

Definition PercentEncodeSlice (slice : list Z) (type : PercentEncodingType) : option (list Z) :=
  let lut := LookupTableForPercentEncodingType type in
  let '(output_length, any_reserved_bytes) := count_output lut slice in
  if negb any_reserved_bytes then Some slice
  else
    let out := slice ≫= encode_byte lut in
    if Z.of_nat (length out) =? output_length then Some out else None.

(** ** Decoder *)

Definition hex_digit (c : Z) : bool :=
  ((48 <=? c) && (c <=? 57)) || ((97 <=? c) && (c <=? 102)) || ((65 <=? c) && (c <=? 70)).

(** [ValidHex(p, end)]. *)
Definition ValidHex (buf : list Z) (p : nat) : bool :=
  match buf !! p with None => false | Some c => hex_digit c end.

Definition DeHex (c : Z) : Z :=
  if (48 <=? c) && (c <=? 57) then c - 48
  else if (65 <=? c) && (c <=? 70) then c - 65 + 10
  else if (97 <=? c) && (c <=? 102) then c - 97 + 10
  else 255.

(** The loop over the buffer; its length is enough fuel. The buffer's contents
    and the write position at the end, [None] without enough fuel. *)
Fixpoint decode_in_place (fuel : nat) (buf : list Z) (p q : nat) : option (list Z * nat) :=
  match buf !! p with
  | None => Some (buf, q)
  | Some c =>
      match fuel with
      | O => None
      | S fuel =>
          if c =? 37 then
            if negb (ValidHex buf (p + 1)) || negb (ValidHex buf (p + 2))
            then decode_in_place fuel (<[q := c]> buf) (p + 1) (q + 1)
            else
              let v := Z.lor (wrap 8 (Z.shiftl (DeHex (buf !!! (p + 1)%nat)) 4)) (DeHex (buf !!! (p + 2)%nat)) in
              decode_in_place fuel (<[q := v]> buf) (p + 3) (q + 1)
          else decode_in_place fuel (<[q := c]> buf) (p + 1) (q + 1)
      end
  end.

Definition PermissivePercentDecodeSlice (slice_in : list Z) : option (list Z) :=
  let any_percent_encoded_stuff := existsb (Z.eqb 37) slice_in in
  if negb any_percent_encoded_stuff then Some slice_in
  else '(out, q) ← decode_in_place (length slice_in) slice_in 0 0; Some (take q out).

Example encode_url : PercentEncodeSlice [97; 32; 37; 255] URL = Some [97; 37; 50; 48; 37; 50; 53; 37; 70; 70].
Proof. vm_compute. reflexivity. Qed.

Example decode_partial : PermissivePercentDecodeSlice [37; 37; 52; 49; 37; 52] = Some [37; 65; 37; 52].
Proof. vm_compute. reflexivity. Qed.

(** ** The reference decoder *)

Fixpoint percent_decode (l : list Z) : list Z :=
  match l with
  | [] => []
  | c :: l' =>
      match l' with
      | a :: b :: rest =>
          if (c =? 37) && hex_digit a && hex_digit b then DeHex a * 16 + DeHex b :: percent_decode rest
          else c :: percent_decode l'
      | _ => c :: percent_decode l'
      end
  end.

(** ** The tables *)

(** Letters, digits and [-_.~]. *)
Definition url_unreserved (c : Z) : bool :=
  ((97 <=? c) && (c <=? 122)) || ((65 <=? c) && (c <=? 90)) || ((48 <=? c) && (c <=? 57)) ||
  (c =? 45) || (c =? 95) || (c =? 46) || (c =? 126).

(** Printable ASCII except the percent sign. *)
Definition compatible_unreserved (c : Z) : bool := (32 <=? c) && (c <=? 126) && negb (c =? 37).

Definition unreserved (type : PercentEncodingType) (c : Z) : bool :=
  match type with URL => url_unreserved c | Compatible => compatible_unreserved c end.

Lemma lut_spec type c : is_byte c ->
  is_set unit_bits (LookupTableForPercentEncodingType type) c = unreserved type c.
Proof.
  intros Hc. apply (Forall_seqZ (fun c => is_set unit_bits (LookupTableForPercentEncodingType type) c = unreserved type c) 0 256).
  - destruct type; by_compute.
  - unfold is_u in Hc. lia.
Qed.

Lemma unreserved_not_percent type : unreserved type 37 = false.
Proof. by destruct type. Qed.

(** ** The encoder *)

(** What is written for one byte. *)
Definition escape (c : Z) : list Z := [37; hex !!! Z.to_nat (c / 16); hex !!! Z.to_nat (c mod 16)].

Lemma encode_byte_spec type c : is_byte c ->
  encode_byte (LookupTableForPercentEncodingType type) c = if unreserved type c then [c] else escape c.
Proof.
  intros Hc. unfold encode_byte, escape. rewrite lut_spec by done.
  by rewrite Z.shiftr_div_pow2, (land_ones_mod c 4 ltac:(lia) : Z.land c 15 = _) by lia.
Qed.

Lemma hex_spec d : 0 <= d < 16 -> hex_digit (hex !!! Z.to_nat d) = true /\ DeHex (hex !!! Z.to_nat d) = d /\
  is_byte (hex !!! Z.to_nat d).
Proof.
  intros Hd. apply (Forall_seqZ (fun d => hex_digit (hex !!! Z.to_nat d) = true /\ DeHex (hex !!! Z.to_nat d) = d /\
    is_byte (hex !!! Z.to_nat d)) 0 16); [by_compute|lia].
Qed.

(** The text encoding produces, in the reference view. *)
Definition percent_encode (type : PercentEncodingType) (slice : list Z) : list Z :=
  slice ≫= (fun c => if unreserved type c then [c] else escape c).

Lemma percent_encode_cons type c slice :
  percent_encode type (c :: slice) = (if unreserved type c then [c] else escape c) ++ percent_encode type slice.
Proof. done. Qed.

Lemma percent_encode_bind type slice : bytes slice ->
  slice ≫= encode_byte (LookupTableForPercentEncodingType type) = percent_encode type slice.
Proof.
  induction 1 as [|c slice Hc _ IH]; [done|]. rewrite percent_encode_cons, <- IH.
  cbn [mbind list_bind]. by rewrite encode_byte_spec.
Qed.

Lemma percent_encode_length type slice : (length (percent_encode type slice) <= 3 * length slice)%nat.
Proof.
  induction slice as [|c slice IH]; [done|]. rewrite percent_encode_cons, length_app.
  destruct (unreserved type c); simpl in *; lia.
Qed.

Lemma count_output_spec type slice n b : bytes slice -> 0 <= n ->
  n + Z.of_nat (length (percent_encode type slice)) < 2 ^ 64 ->
  foldl (fun '(output_length, any_reserved_bytes) c =>
    let unres := is_set unit_bits (LookupTableForPercentEncodingType type) c in
    (wrap 64 (output_length + if unres then 1 else 3), any_reserved_bytes || negb unres)) (n, b) slice =
  (n + Z.of_nat (length (percent_encode type slice)), b || existsb (fun c => negb (unreserved type c)) slice).
Proof.
  intros Hs. revert n b. induction Hs as [|c slice Hc _ IH]; intros n b Hn Hlt.
  - cbn. by rewrite Z.add_0_r, orb_false_r.
  - rewrite percent_encode_cons, length_app in *. cbn [foldl existsb]. rewrite lut_spec by done.
    rewrite orb_assoc. destruct (unreserved type c); cbn [length escape negb] in *;
      rewrite wrap_small by (unfold is_u; lia); rewrite IH by lia; f_equal; lia.
Qed.

Lemma no_reserved type slice : existsb (fun c => negb (unreserved type c)) slice = false ->
  percent_encode type slice = slice.
Proof.
  induction slice as [|c slice IH]; [done|]. cbn [existsb]. rewrite orb_false_iff. intros [Hc Hs].
  rewrite percent_encode_cons, IH by done. by destruct (unreserved type c).
Qed.

Lemma PercentEncodeSlice_spec type slice : bytes slice -> Z.of_nat (length slice) < 2 ^ 62 ->
  PercentEncodeSlice slice type = Some (percent_encode type slice).
Proof.
  intros Hs Hl. unfold PercentEncodeSlice, count_output. pose proof (percent_encode_length type slice).
  rewrite count_output_spec by (done || lia). cbn [orb].
  destruct (existsb _ slice) eqn:E; cbn [negb]; [|by rewrite no_reserved].
  rewrite percent_encode_bind, Z.add_0_l, Z.eqb_refl by done. done.
Qed.

(** ** The decoder *)

Lemma percent_decode_cons c l : (c =? 37) = false -> percent_decode (c :: l) = c :: percent_decode l.
Proof. intros Hc. cbn [percent_decode]. destruct l as [|a [|b rest]]; [done..|]. by rewrite Hc. Qed.

Lemma percent_decode_escape a b rest : hex_digit a = true -> hex_digit b = true ->
  percent_decode (37 :: a :: b :: rest) = DeHex a * 16 + DeHex b :: percent_decode rest.
Proof. intros Ha Hb. cbn [percent_decode]. by rewrite Ha, Hb. Qed.

Lemma DeHex_range c : hex_digit c = true -> 0 <= DeHex c < 16.
Proof.
  unfold hex_digit, DeHex.
  repeat match goal with |- context [?a <=? ?b] => destruct (Z.leb_spec a b) end; simpl; intros; try done; lia.
Qed.

Lemma DeHex_pair a b : hex_digit a = true -> hex_digit b = true ->
  Z.lor (wrap 8 (Z.shiftl (DeHex a) 4)) (DeHex b) = DeHex a * 16 + DeHex b.
Proof.
  intros Ha%DeHex_range Hb%DeHex_range.
  rewrite wrap_small by (rewrite Z.shiftl_mul_pow2 by lia; unfold is_u; lia).
  rewrite lor_shiftl_add by (unfold is_u; lia). lia.
Qed.

(** Undoing an escape gives the byte back, and nothing else is touched. *)
Lemma percent_decode_encode type slice : bytes slice -> percent_decode (percent_encode type slice) = slice.
Proof.
  induction 1 as [|c slice Hc _ IH]; [done|]. rewrite percent_encode_cons.
  destruct (unreserved type c) eqn:E; cbn [app escape].
  - rewrite percent_decode_cons, IH; [done|]. destruct (Z.eqb_spec c 37) as [->|]; [|done].
    by rewrite unreserved_not_percent in E.
  - unfold is_u in Hc. destruct (hex_spec (c / 16)) as (H1 & E1 & _); [Z.to_euclidean_division_equations; lia|].
    destruct (hex_spec (c mod 16)) as (H2 & E2 & _); [Z.to_euclidean_division_equations; lia|].
    rewrite percent_decode_escape, IH, E1, E2 by done. f_equal. pose proof (Z.div_mod c 16). lia.
Qed.

(** Reading the buffer at and after position [p]. *)
Lemma lookup_drop_0 (buf : list Z) p : drop p buf !! 0%nat = buf !! p.
Proof. by rewrite lookup_drop, Nat.add_0_r. Qed.

Lemma drop_head (buf : list Z) p c rest : drop p buf = c :: rest ->
  buf !! p = Some c /\ drop (p + 1) buf = rest /\ (p < length buf)%nat.
Proof.
  intros E. split; [by rewrite <- lookup_drop_0, E|]. split; [by rewrite <- drop_drop, E|].
  destruct (decide (p < length buf)%nat); [done|]. rewrite drop_ge in E by lia. done.
Qed.

(** Writing behind the read position leaves the unread part alone and extends
    the written part. *)
Lemma write_behind (buf : list Z) p q v : (q < p)%nat -> (p <= length buf)%nat ->
  drop p (<[q := v]> buf) = drop p buf /\ take (q + 1) (<[q := v]> buf) = take q buf ++ [v].
Proof.
  intros Hq Hp. split; [by apply drop_insert_lt; lia|].
  replace (q + 1)%nat with (S q) by lia.
  rewrite (take_S_r _ _ v) by (apply list_lookup_insert_eq; lia). by rewrite take_insert_ge by lia.
Qed.

(** The loop appends to what was written the decoding of what is unread. *)
Lemma decode_in_place_spec fuel buf p q : (q <= p)%nat -> (length buf <= p + fuel)%nat ->
  exists buf' q', decode_in_place fuel buf p q = Some (buf', q') /\ length buf' = length buf /\
    take q' buf' = take q buf ++ percent_decode (drop p buf).
Proof.
  revert buf p q. induction fuel as [|fuel IH]; intros buf p q Hq Hf.
  { cbn [decode_in_place]. rewrite lookup_ge_None_2 by lia. exists buf, q. rewrite drop_ge by lia.
    by rewrite app_nil_r. }
  cbn [decode_in_place]. destruct (drop p buf) as [|c rest] eqn:Ed.
  { assert (length buf <= p)%nat by (apply (f_equal length) in Ed; rewrite length_drop in Ed; simpl in Ed; lia).
    rewrite lookup_ge_None_2 by lia. exists buf, q. by rewrite app_nil_r. }
  apply drop_head in Ed as (Hc & Hrest & Hp). rewrite Hc.
  assert (forall v k, (0 < k)%nat -> (p + k <= length buf)%nat ->
    exists buf' q', decode_in_place fuel (<[q := v]> buf) (p + k) (q + 1) = Some (buf', q') /\
      length buf' = length buf /\ take q' buf' = take q buf ++ v :: percent_decode (drop (p + k) buf)) as Hstep.
  { intros v k Hk Hpk. destruct (write_behind buf (p + k) q v) as [Hd Ht]; [lia|done|].
    destruct (IH (<[q := v]> buf) (p + k)%nat (q + 1)%nat) as (buf' & q' & E & Hl & Ht'); [lia|rewrite length_insert; lia|].
    exists buf', q'. rewrite length_insert in Hl. split; [done|]. split; [done|].
    by rewrite Ht', Hd, Ht, <- app_assoc. }
  unfold ValidHex. rewrite <- (lookup_drop_0 buf (p + 1)), Hrest.
  destruct (c =? 37) eqn:E37; cbv iota.
  2:{ rewrite percent_decode_cons, <- Hrest by done. apply Hstep; lia. }
  apply Z.eqb_eq in E37 as ->. destruct rest as [|a rest].
  { cbn [lookup list_lookup negb orb]. change (percent_decode [37]) with [37].
    destruct (Hstep 37 1%nat) as (buf' & q' & E); [lia..|]. rewrite Hrest in E. by exists buf', q'. }
  pose proof (drop_head _ _ _ _ Hrest) as (Ha & Hrest2 & Hp1).
  replace (p + 1 + 1)%nat with (p + 2)%nat in Hrest2 by lia.
  cbn [lookup list_lookup]. rewrite <- (lookup_drop_0 buf (p + 2)), Hrest2.
  destruct rest as [|b rest].
  { cbn [lookup list_lookup negb]. rewrite orb_true_r.
    destruct (Hstep 37 1%nat) as (buf' & q' & E); [lia..|]. rewrite Hrest in E. by exists buf', q'. }
  pose proof (drop_head _ _ _ _ Hrest2) as (Hb & Hrest3 & Hp2).
  replace (p + 2 + 1)%nat with (p + 3)%nat in Hrest3 by lia.
  cbn [lookup list_lookup]. rewrite (list_lookup_total_correct _ _ _ Ha), (list_lookup_total_correct _ _ _ Hb).
  destruct (hex_digit a) eqn:Eha, (hex_digit b) eqn:Ehb; cbn [negb orb].
  - rewrite percent_decode_escape, DeHex_pair, <- Hrest3 by done. apply Hstep; lia.
  - replace (percent_decode (37 :: a :: b :: rest)) with (37 :: percent_decode (a :: b :: rest))
      by (cbn [percent_decode]; by rewrite Eha, Ehb). rewrite <- Hrest. apply Hstep; lia.
  - replace (percent_decode (37 :: a :: b :: rest)) with (37 :: percent_decode (a :: b :: rest))
      by (cbn [percent_decode]; by rewrite Eha). rewrite <- Hrest. apply Hstep; lia.
  - replace (percent_decode (37 :: a :: b :: rest)) with (37 :: percent_decode (a :: b :: rest))
      by (cbn [percent_decode]; by rewrite Eha). rewrite <- Hrest. apply Hstep; lia.
Qed.

Lemma no_percent l : existsb (Z.eqb 37) l = false -> percent_decode l = l.
Proof.
  induction l as [|c l IH]; [done|]. cbn [existsb]. rewrite orb_false_iff. intros [Hc Hl].
  rewrite percent_decode_cons, IH; [done..|]. by rewrite Z.eqb_sym.
Qed.

Lemma PermissivePercentDecodeSlice_spec l : PermissivePercentDecodeSlice l = Some (percent_decode l).
Proof.
  unfold PermissivePercentDecodeSlice. destruct (existsb (Z.eqb 37) l) eqn:E; cbn [negb]; [|by rewrite no_percent].
  destruct (decode_in_place_spec (length l) l 0 0) as (buf' & q' & -> & _ & Ht); [lia..|].
  cbn [mbind option_bind]. by rewrite Ht, drop_0, take_0.
Qed.

(** ** Theorems *)

(** Encoding a byte string with either table succeeds and
    permissive decoding gives it back. *)
Theorem percent_roundtrip (slice : list Z) (type : PercentEncodingType) : bytes slice ->
  Z.of_nat (length slice) < 2 ^ 62 ->
  (out ← PercentEncodeSlice slice type; PermissivePercentDecodeSlice out) = Some slice.
Proof.
  intros Hs Hl. rewrite PercentEncodeSlice_spec by done. cbn [mbind option_bind].
  by rewrite PermissivePercentDecodeSlice_spec, percent_decode_encode.
Qed.

Lemma percent_roundtrip_witness :
  (out ← PercentEncodeSlice (seqZ 0 256) URL; PermissivePercentDecodeSlice out) = Some (seqZ 0 256).
Proof. apply percent_roundtrip; [by_compute|by compute]. Defined.

(** The encoded text consists of percent signs and the type's
    unreserved bytes only, all of them printable ASCII, and the encoder's length
    assertion holds. *)
Theorem percent_encode_legal (slice : list Z) (type : PercentEncodingType) : bytes slice ->
  Z.of_nat (length slice) < 2 ^ 62 ->
  exists out, PercentEncodeSlice slice type = Some out /\
    Forall (fun c => (c = 37 \/ unreserved type c = true) /\ 32 <= c <= 126) out /\
    (length slice <= length out <= 3 * length slice)%nat.
Proof.
  intros Hs Hl. rewrite PercentEncodeSlice_spec by done. eexists. split; [done|].
  assert (forall c, is_byte c -> unreserved type c = true -> 32 <= c <= 126) as Hp.
  { intros c Hc. apply (Forall_seqZ (fun c => unreserved type c = true -> 32 <= c <= 126) 0 256).
    - destruct type; by_compute.
    - unfold is_u in Hc. lia. }
  assert (forall d, 0 <= d < 16 -> unreserved type (hex !!! Z.to_nat d) = true) as Hh.
  { intros d Hd. apply (Forall_seqZ (fun d => unreserved type (hex !!! Z.to_nat d) = true) 0 16); [|lia].
    destruct type; by_compute. }
  split; [|split; [|apply percent_encode_length]].
  - induction Hs as [|c slice Hc _ IH]; [constructor|]. rewrite percent_encode_cons. apply Forall_app.
    split; [|apply IH; simpl in Hl; lia]. destruct (unreserved type c) eqn:E; unfold escape.
    + apply Forall_singleton. auto.
    + assert (0 <= c / 16 < 16) by (unfold is_u in Hc; Z.to_euclidean_division_equations; lia).
      assert (0 <= c mod 16 < 16) by (apply Z.mod_pos_bound; lia).
      apply List.Forall_cons; [lia|].
      apply List.Forall_cons; [|apply Forall_singleton]; (split; [auto|]); (apply Hp; [by apply hex_spec|auto]).
  - clear. induction slice as [|c slice IH]; [simpl; lia|]. rewrite percent_encode_cons, length_app.
    destruct (unreserved type c); simpl in *; lia.
Qed.

Lemma percent_encode_legal_witness :
  exists out, PercentEncodeSlice (seqZ 0 256) Compatible = Some out /\
    Forall (fun c => (c = 37 \/ unreserved Compatible c = true) /\ 32 <= c <= 126) out /\
    (length (seqZ 0 256) <= length out <= 3 * length (seqZ 0 256))%nat.
Proof. apply percent_encode_legal; [by_compute|by compute]. Defined.

(** Decoding in place, over the bytes still to be read,
    terminates and computes the reference decoder, which passes through
    every percent sign not followed by two hexadecimal digits. *)
Theorem percent_decode_in_place (slice : list Z) :
  PermissivePercentDecodeSlice slice = Some (percent_decode slice).
Proof. apply PermissivePercentDecodeSlice_spec. Qed.
