(* ===== verification/GprTime.v ===== *)
(** * gRPC time values ([gRPC-Core/src/core/lib/gpr/time.cc])

    [gpr_timespec] arithmetic with its saturation at the two infinities.  A
    call aborts when an assertion fails ([Assertion]); a signed 64- or 32-bit
    operation that overflows is undefined ([Overflow]); otherwise it returns
    ([Done]).  The header that declares the type and the unit constants
    ([grpc/support/time.h]) is not in the repository: the record, the clock
    types and the constants are read off their uses and names.  [gpr_now] is a
    parameter; the floating-point conversion to microseconds is not modelled. *)

From S2P Require Import Prelude.

(** ** Outcomes *)

Inductive outcome (A : Type) := Done (a : A) | Assertion | Overflow.
Arguments Done {A} a.
Arguments Assertion {A}.
Arguments Overflow {A}.

#[export] Instance outcome_ret : MRet outcome := @Done.

#[export] Instance outcome_bind : MBind outcome := fun A B f m =>
  match m with Done a => f a | Assertion => Assertion | Overflow => Overflow end.

Definition assert_ (b : bool) : outcome unit := if b then Done tt else Assertion.

(** Signed arithmetic of [w] bits. *)
Definition is_s (w x : Z) : Prop := - 2 ^ (w - 1) <= x < 2 ^ (w - 1).

#[export] Instance is_s_dec w x : Decision (is_s w x).
Proof. unfold is_s. apply _. Defined.

Definition signed (w x : Z) : outcome Z := if decide (is_s w x) then Done x else Overflow.

(** ** Types and constants *)

Inductive gpr_clock_type := GPR_CLOCK_MONOTONIC | GPR_CLOCK_REALTIME | GPR_CLOCK_PRECISE | GPR_TIMESPAN.

#[export] Instance gpr_clock_type_eq_dec : EqDecision gpr_clock_type.
Proof. solve_decision. Defined.

Record gpr_timespec := Timespec { tv_sec : Z; tv_nsec : Z; clock_type : gpr_clock_type }.

Definition INT64_MAX : Z := 2 ^ 63 - 1.
Definition INT64_MIN : Z := - 2 ^ 63.
Definition GPR_NS_PER_SEC : Z := 1000000000.
Definition GPR_US_PER_SEC : Z := 1000000.
Definition GPR_MS_PER_SEC : Z := 1000.
Definition GPR_NS_PER_MS : Z := 1000000.

(** ** Comparison *)

(** [(x > y) - (x < y)]. *)
Definition sign_cmp (x y : Z) : Z := Z.b2z (y <? x) - Z.b2z (x <? y).

Definition gpr_time_cmp (a b : gpr_timespec) : outcome Z :=
  let cmp := sign_cmp (tv_sec a) (tv_sec b) in
  _ ← assert_ (bool_decide (clock_type a = clock_type b));
  if (cmp =? 0) && negb (tv_sec a =? INT64_MAX) && negb (tv_sec a =? INT64_MIN)
  then Done (sign_cmp (tv_nsec a) (tv_nsec b)) else Done cmp.

Definition gpr_time_min (a b : gpr_timespec) : outcome gpr_timespec :=
  c ← gpr_time_cmp a b; Done (if c <? 0 then a else b).

Definition gpr_time_max (a b : gpr_timespec) : outcome gpr_timespec :=
  c ← gpr_time_cmp a b; Done (if 0 <? c then a else b).

(** ** Constants of the type *)

Definition gpr_time_0 (type : gpr_clock_type) : gpr_timespec := Timespec 0 0 type.
Definition gpr_inf_future (type : gpr_clock_type) : gpr_timespec := Timespec INT64_MAX 0 type.
Definition gpr_inf_past (type : gpr_clock_type) : gpr_timespec := Timespec INT64_MIN 0 type.

(** ** Conversions from counts of units; C's division truncates. *)

Definition to_seconds_from_sub_second_time (time_in_units units_per_sec : Z) (type : gpr_clock_type) :
    outcome gpr_timespec :=
  if time_in_units =? INT64_MAX then Done (gpr_inf_future type)
  else if time_in_units =? INT64_MIN then Done (gpr_inf_past type)
  else
    sec ← (if 0 <=? time_in_units then Done (time_in_units ÷ units_per_sec)
           else
             t ← signed 64 (time_in_units + units_per_sec);
             t ← signed 64 ((units_per_sec - 1) - t);
             t ← signed 64 (- t);
             signed 64 ((t ÷ units_per_sec) - 1));
    t ← signed 64 (sec * units_per_sec);
    t ← signed 64 (time_in_units - t);
    t ← signed 64 (t * GPR_NS_PER_SEC);
    Done (Timespec sec (wrap 32 (t ÷ units_per_sec + 2 ^ 31) - 2 ^ 31) type).

Definition to_seconds_from_above_second_time (time_in_units secs_per_unit : Z) (type : gpr_clock_type) :
    outcome gpr_timespec :=
  if INT64_MAX ÷ secs_per_unit <=? time_in_units then Done (gpr_inf_future type)
  else if time_in_units <=? INT64_MIN ÷ secs_per_unit then Done (gpr_inf_past type)
  else sec ← signed 64 (time_in_units * secs_per_unit); Done (Timespec sec 0 type).

Definition gpr_time_from_nanos (ns : Z) := to_seconds_from_sub_second_time ns GPR_NS_PER_SEC.
Definition gpr_time_from_micros (us : Z) := to_seconds_from_sub_second_time us GPR_US_PER_SEC.
Definition gpr_time_from_millis (ms : Z) := to_seconds_from_sub_second_time ms GPR_MS_PER_SEC.
Definition gpr_time_from_seconds (s : Z) := to_seconds_from_sub_second_time s 1.
Definition gpr_time_from_minutes (m : Z) := to_seconds_from_above_second_time m 60.
Definition gpr_time_from_hours (h : Z) := to_seconds_from_above_second_time h 3600.

(** ** Addition and subtraction *)

Definition gpr_time_add (a b : gpr_timespec) : outcome gpr_timespec :=
  _ ← assert_ (bool_decide (clock_type b = GPR_TIMESPAN));
  _ ← assert_ (0 <=? tv_nsec b);
  let type := clock_type a in
  nsec ← signed 32 (tv_nsec a + tv_nsec b);
  let '(nsec, inc) := if GPR_NS_PER_SEC <=? nsec then (nsec - GPR_NS_PER_SEC, 1) else (nsec, 0) in
  if (tv_sec a =? INT64_MAX) || (tv_sec a =? INT64_MIN) then Done a
  else if (tv_sec b =? INT64_MAX) || ((0 <=? tv_sec b) && (INT64_MAX - tv_sec b <=? tv_sec a))
  then Done (gpr_inf_future type)
  else if (tv_sec b =? INT64_MIN) || ((tv_sec b <=? 0) && (tv_sec a <=? INT64_MIN - tv_sec b))
  then Done (gpr_inf_past type)
  else
    sec ← signed 64 (tv_sec a + tv_sec b);
    if negb (inc =? 0) && (sec =? INT64_MAX - 1) then Done (gpr_inf_future type)
    else sec ← signed 64 (sec + inc); Done (Timespec sec nsec type).

Definition gpr_time_sub (a b : gpr_timespec) : outcome gpr_timespec :=
  type ← (if bool_decide (clock_type b = GPR_TIMESPAN)
          then _ ← assert_ (0 <=? tv_nsec b); Done (clock_type a)
          else _ ← assert_ (bool_decide (clock_type a = clock_type b)); Done GPR_TIMESPAN);
  nsec ← signed 32 (tv_nsec a - tv_nsec b);
  '(nsec, dec) ← (if nsec <? 0 then nsec ← signed 32 (nsec + GPR_NS_PER_SEC); Done (nsec, 1) else Done (nsec, 0));
  if (tv_sec a =? INT64_MAX) || (tv_sec a =? INT64_MIN) then Done a
  else if (tv_sec b =? INT64_MIN) || ((tv_sec b <=? 0) && (INT64_MAX + tv_sec b <=? tv_sec a))
  then Done (gpr_inf_future GPR_CLOCK_REALTIME)
  else if (tv_sec b =? INT64_MAX) || ((0 <=? tv_sec b) && (tv_sec a <=? INT64_MIN + tv_sec b))
  then Done (gpr_inf_past GPR_CLOCK_REALTIME)
  else
    sec ← signed 64 (tv_sec a - tv_sec b);
    if negb (dec =? 0) && (sec =? INT64_MIN + 1) then Done (gpr_inf_past GPR_CLOCK_REALTIME)
    else sec ← signed 64 (sec - dec); Done (Timespec sec nsec type).

Definition gpr_time_similar (a b threshold : gpr_timespec) : outcome bool :=
  _ ← assert_ (bool_decide (clock_type a = clock_type b));
  _ ← assert_ (bool_decide (clock_type threshold = GPR_TIMESPAN));
  cmp_ab ← gpr_time_cmp a b;
  if cmp_ab =? 0 then Done true
  else
    diff ← (if cmp_ab <? 0 then gpr_time_sub b a else gpr_time_sub a b);
    c ← gpr_time_cmp diff threshold; Done (c <=? 0).

(** ** Conversions *)

Definition gpr_time_to_millis (t : gpr_timespec) : Z :=
  if 2147483 <=? tv_sec t then
    if (tv_sec t =? 2147483) && (tv_nsec t <? 648 * GPR_NS_PER_MS)
    then 2147483 * GPR_MS_PER_SEC + tv_nsec t ÷ GPR_NS_PER_MS
    else 2147483647
  else if tv_sec t <=? -2147483 then -2147483647
  else wrap 32 (tv_sec t * GPR_MS_PER_SEC + tv_nsec t ÷ GPR_NS_PER_MS + 2 ^ 31) - 2 ^ 31.

Definition gpr_convert_clock_type (gpr_now : gpr_clock_type -> gpr_timespec) (t : gpr_timespec)
    (clock : gpr_clock_type) : outcome gpr_timespec :=
  if bool_decide (clock_type t = clock) then Done t
  else if (tv_sec t =? INT64_MAX) || (tv_sec t =? INT64_MIN) then Done (Timespec (tv_sec t) (tv_nsec t) clock)
  else if bool_decide (clock = GPR_TIMESPAN) then gpr_time_sub t (gpr_now (clock_type t))
  else if bool_decide (clock_type t = GPR_TIMESPAN) then gpr_time_add (gpr_now clock) t
  else d ← gpr_time_sub t (gpr_now (clock_type t)); gpr_time_add (gpr_now clock) d.

(** A saturated difference does not carry the clock of a time span, so
    comparing a finite instant with an infinite one aborts. *)
Example similar_infinite_aborts :
  gpr_time_similar (Timespec 5 0 GPR_CLOCK_MONOTONIC) (gpr_inf_future GPR_CLOCK_MONOTONIC) (Timespec 1 0 GPR_TIMESPAN)
  = Assertion.
Proof. vm_compute. reflexivity. Qed.

(** Counts just above [INT64_MIN] overflow. *)
Example from_nanos_overflows : gpr_time_from_nanos (INT64_MIN + 1) GPR_TIMESPAN = Overflow.
Proof. vm_compute. reflexivity. Qed.

Example from_millis_negative : gpr_time_from_millis (-2500) GPR_TIMESPAN = Done (Timespec (-3) 500000000 GPR_TIMESPAN).
Proof. vm_compute. reflexivity. Qed.

(** ** Instants as integers *)

Lemma signed_in w x : is_s w x -> signed w x = Done x.
Proof. intros. unfold signed. by rewrite decide_True. Qed.

(** A well-formed value: 64-bit seconds and a fraction of a second. *)
Definition valid (t : gpr_timespec) : Prop := is_s 64 (tv_sec t) /\ 0 <= tv_nsec t < GPR_NS_PER_SEC.

#[export] Instance valid_dec t : Decision (valid t).
Proof. unfold valid. apply _. Defined.

Definition finite (t : gpr_timespec) : Prop := INT64_MIN < tv_sec t < INT64_MAX.

#[export] Instance finite_dec t : Decision (finite t).
Proof. unfold finite. apply _. Defined.

(** The nanoseconds a finite value stands for. *)
Definition nanos (t : gpr_timespec) : Z := tv_sec t * GPR_NS_PER_SEC + tv_nsec t.

(** The fraction of an infinite value is meaningless. *)
Definition instant (t : gpr_timespec) : Z :=
  if (tv_sec t =? INT64_MAX) || (tv_sec t =? INT64_MIN) then tv_sec t * GPR_NS_PER_SEC else nanos t.

Create HintDb time.

(** Arithmetic on time values, all constants and definitions in view. *)
Ltac tlia :=
  unfold instant, nanos, valid, finite, is_s, INT64_MAX, INT64_MIN, GPR_NS_PER_SEC in *;
  change (2 ^ (64 - 1)) with 9223372036854775808 in *; change (2 ^ 63) with 9223372036854775808 in *;
  change (2 ^ (32 - 1)) with 2147483648 in *; cbn [tv_sec tv_nsec clock_type] in *; lia.
Ltac tcases :=
  repeat match goal with
  | |- context [?a =? ?b] => destruct (Z.eqb_spec a b)
  | |- context [?a <=? ?b] => destruct (Z.leb_spec a b)
  | |- context [?a <? ?b] => destruct (Z.ltb_spec a b)
  end.
Ltac tsigned := repeat rewrite signed_in by tlia; cbn [mbind outcome_bind].

Lemma timespec_eq a b : valid a -> valid b -> clock_type a = clock_type b -> nanos a = nanos b -> a = b.
Proof.
  destruct a as [s n c], b as [s' n' c']. unfold valid, nanos. cbn [tv_sec tv_nsec clock_type].
  intros [_ Hn] [_ Hn'] -> E. assert (s = s') as -> by tlia. assert (n = n') as -> by tlia. done.
Qed.

Lemma sign_cmp_spec x y : sign_cmp x y = if x <? y then -1 else if y <? x then 1 else 0.
Proof. unfold sign_cmp. tcases; simpl; lia. Qed.

Lemma instant_eq t : valid t ->
  instant t = tv_sec t * GPR_NS_PER_SEC +
    (if negb (tv_sec t =? INT64_MAX) && negb (tv_sec t =? INT64_MIN) then tv_nsec t else 0).
Proof. intros Ht. unfold instant, nanos. destruct (tv_sec t =? INT64_MAX), (tv_sec t =? INT64_MIN); simpl; lia. Qed.

Lemma finite_instant t : finite t -> instant t = nanos t.
Proof. intros Hf. unfold instant. rewrite !(proj2 (Z.eqb_neq _ _)) by tlia. done. Qed.

Lemma gpr_time_cmp_spec a b : valid a -> valid b -> clock_type a = clock_type b ->
  gpr_time_cmp a b = Done (sign_cmp (instant a) (instant b)).
Proof.
  intros Ha Hb Hc. unfold gpr_time_cmp. rewrite bool_decide_true by done. cbn [assert_ mbind outcome_bind].
  rewrite !instant_eq, !sign_cmp_spec by done. destruct Ha as [Ha Hna], Hb as [Hb Hnb].
  destruct (Z.ltb_spec (tv_sec a) (tv_sec b)); cbn [Z.eqb andb].
  { rewrite (proj2 (Z.ltb_lt _ _)); [done|]. destruct (_ && _), (_ && _); tlia. }
  destruct (Z.ltb_spec (tv_sec b) (tv_sec a)); cbn [Z.eqb andb].
  { rewrite (proj2 (Z.ltb_ge _ _)), (proj2 (Z.ltb_lt _ _)); [done|..]; destruct (_ && _), (_ && _); tlia. }
  replace (tv_sec b) with (tv_sec a) by lia. destruct (_ && _); rewrite ?sign_cmp_spec; tcases; try done; exfalso; tlia.
Qed.

(** ** Sums and differences *)

(** What addition computes on finite values: the exact sum, infinite when
    its seconds reach either end of the range. *)
Definition sum_spec (a b r : gpr_timespec) : Prop :=
  if INT64_MAX * GPR_NS_PER_SEC <=? nanos a + nanos b then r = gpr_inf_future (clock_type a)
  else if tv_sec a + tv_sec b <=? INT64_MIN then r = gpr_inf_past (clock_type a)
  else valid r /\ finite r /\ clock_type r = clock_type a /\ nanos r = nanos a + nanos b.

Lemma gpr_time_add_finite a b : valid a -> valid b -> finite a -> finite b -> clock_type b = GPR_TIMESPAN ->
  exists r, gpr_time_add a b = Done r /\ sum_spec a b r.
Proof.
  intros Ha Hb Hfa Hfb Hc. unfold gpr_time_add. rewrite bool_decide_true by done. cbn [assert_ mbind outcome_bind].
  rewrite (proj2 (Z.leb_le 0 (tv_nsec b))) by tlia. cbn [assert_ mbind outcome_bind].
  rewrite (signed_in 32) by tlia. cbn [mbind outcome_bind].
  destruct a as [sa na ca], b as [sb nb cb]. cbn [tv_sec tv_nsec clock_type] in *.
  rewrite (proj2 (Z.eqb_neq sa INT64_MAX)), (proj2 (Z.eqb_neq sa INT64_MIN)), (proj2 (Z.eqb_neq sb INT64_MAX)),
    (proj2 (Z.eqb_neq sb INT64_MIN)) by tlia. cbn [orb].
  unfold sum_spec. cbn [tv_sec tv_nsec clock_type].
  set (carry := GPR_NS_PER_SEC <=? na + nb).
  replace (if carry then (na + nb - GPR_NS_PER_SEC, 1) else (na + nb, 0)) with
    (if carry then na + nb - GPR_NS_PER_SEC else na + nb, Z.b2z carry) by (by destruct carry). cbv iota beta.
  destruct ((0 <=? sb) && _) eqn:E1.
  { eexists. split; [done|]. rewrite (proj2 (Z.leb_le _ _)) by tlia. done. }
  destruct ((sb <=? 0) && _) eqn:E2.
  { eexists. split; [done|]. rewrite (proj2 (Z.leb_gt _ _)), (proj2 (Z.leb_le _ _)) by tlia. done. }
  rewrite (signed_in 64 (sa + sb)) by tlia. cbn [mbind outcome_bind].
  replace (negb (Z.b2z carry =? 0)) with carry by (by destruct carry). destruct (carry && _) eqn:E3; subst carry.
  { eexists. split; [done|]. rewrite (proj2 (Z.leb_le _ _)) by tlia. done. }
  destruct (Z.leb_spec GPR_NS_PER_SEC (na + nb)); cbn [Z.b2z]; rewrite signed_in by tlia; cbn [mbind outcome_bind];
    eexists; (split; [done|]); rewrite (proj2 (Z.leb_gt _ _)), (proj2 (Z.leb_gt _ _)) by tlia.
  all: split_and!; try done; tlia.
Qed.

(** What subtraction computes on finite values.  The clock of the exact
    result is the minuend's for a time span and [GPR_TIMESPAN] otherwise; that
    of a saturated one is always [GPR_CLOCK_REALTIME]. *)
Definition diff_clock (a b : gpr_timespec) : gpr_clock_type :=
  if bool_decide (clock_type b = GPR_TIMESPAN) then clock_type a else GPR_TIMESPAN.

Definition diff_spec (a b r : gpr_timespec) : Prop :=
  if INT64_MAX <=? tv_sec a - tv_sec b then r = gpr_inf_future GPR_CLOCK_REALTIME
  else if nanos a - nanos b <? (INT64_MIN + 1) * GPR_NS_PER_SEC then r = gpr_inf_past GPR_CLOCK_REALTIME
  else valid r /\ finite r /\ clock_type r = diff_clock a b /\ nanos r = nanos a - nanos b.

Lemma gpr_time_sub_finite a b : valid a -> valid b -> finite a -> finite b ->
  clock_type b = GPR_TIMESPAN \/ clock_type a = clock_type b ->
  exists r, gpr_time_sub a b = Done r /\ diff_spec a b r.
Proof.
  intros Ha Hb Hfa Hfb Hc. unfold gpr_time_sub.
  match goal with |- context [mbind _ ?m] => replace m with (Done (diff_clock a b)) end.
  2:{ unfold diff_clock. case_bool_decide as Eb.
    - by rewrite (proj2 (Z.leb_le 0 (tv_nsec b))) by tlia.
    - destruct Hc as [|Hc]; [done|]. by rewrite bool_decide_true. }
  cbn [mbind outcome_bind]. rewrite (signed_in 32 (_ - _)) by tlia. cbn [mbind outcome_bind].
  unfold diff_spec. set (type := diff_clock a b). clearbody type.
  destruct a as [sa na ca], b as [sb nb cb]. cbn [tv_sec tv_nsec clock_type] in *.
  set (borrow := na - nb <? 0).
  replace (if borrow then _ else _) with
    (Done (if borrow then na - nb + GPR_NS_PER_SEC else na - nb, Z.b2z borrow)).
  2:{ subst borrow. destruct (Z.ltb_spec (na - nb) 0); [|done]. by rewrite signed_in by tlia. }
  cbn [mbind outcome_bind].
  rewrite (proj2 (Z.eqb_neq sa INT64_MAX)), (proj2 (Z.eqb_neq sa INT64_MIN)), (proj2 (Z.eqb_neq sb INT64_MAX)),
    (proj2 (Z.eqb_neq sb INT64_MIN)) by tlia. cbn [orb].
  destruct ((sb <=? 0) && _) eqn:E1.
  { eexists. split; [done|]. rewrite (proj2 (Z.leb_le _ _)) by tlia. done. }
  destruct ((0 <=? sb) && _) eqn:E2.
  { eexists. split; [done|]. rewrite (proj2 (Z.leb_gt _ _)), (proj2 (Z.ltb_lt _ _)) by tlia. done. }
  rewrite (signed_in 64 (sa - sb)) by tlia. cbn [mbind outcome_bind].
  replace (negb (Z.b2z borrow =? 0)) with borrow by (by destruct borrow). destruct (borrow && _) eqn:E3; subst borrow.
  { eexists. split; [done|]. rewrite (proj2 (Z.leb_gt _ _)), (proj2 (Z.ltb_lt _ _)) by tlia. done. }
  destruct (Z.ltb_spec (na - nb) 0); cbn [Z.b2z]; rewrite signed_in by tlia; cbn [mbind outcome_bind];
    eexists; (split; [done|]); rewrite (proj2 (Z.leb_gt _ _)), (proj2 (Z.ltb_ge _ _)) by tlia.
  all: split_and!; try done; tlia.
Qed.

(** ** Conversions *)

(** C's truncating expression for negative counts is the floor. *)
Lemma quot_floor t u : t < 0 -> 0 < u -> - ((u - 1) - (t + u)) ÷ u - 1 = t / u.
Proof.
  intros Ht Hu. replace (- ((u - 1) - (t + u))) with (- (- (t + 1))) by lia.
  rewrite Z.quot_opp_l, Z.quot_div_nonneg by lia.
  pose proof (Z.div_mod (- (t + 1)) u ltac:(lia)). pose proof (Z.mod_pos_bound (- (t + 1)) u Hu).
  apply (Z.div_unique_pos t u _ (u - 1 - (- (t + 1)) mod u)); lia.
Qed.

(** Units of which [k] nanoseconds make one. *)
Lemma to_seconds_spec t u k type : is_s 64 t -> GPR_NS_PER_SEC = u * k -> 0 < u ->
  finite (Timespec t 0 type) -> INT64_MIN <= t / u * u ->
  exists r, to_seconds_from_sub_second_time t u type = Done r /\ valid r /\ clock_type r = type /\
    tv_sec r = t / u /\ nanos r = t * k.
Proof.
  intros Ht Hk Hu Hf Hmin.
  assert (0 < k) as Hk0 by (unfold GPR_NS_PER_SEC in Hk; nia).
  assert (u <= GPR_NS_PER_SEC) as Hub by nia.
  pose proof (Z.div_mod t u ltac:(lia)) as Hdm. pose proof (Z.mod_pos_bound t u Hu) as Hmb.
  assert (0 <= t mod u * k < GPR_NS_PER_SEC) as Hn by nia.
  assert (is_s 64 (t / u)) as Hs.
  { assert (t / u <= t \/ t < 0 /\ t <= t / u) as Hd by (destruct (decide (0 <= t)); [left|right]; nia).
    destruct (decide (0 <= t)); [assert (0 <= t / u) by (apply Z.div_pos; lia)|
      assert (t / u < 0) by (apply Z.div_lt_upper_bound; lia)]; tlia. }
  unfold to_seconds_from_sub_second_time.
  rewrite (proj2 (Z.eqb_neq t INT64_MAX)), (proj2 (Z.eqb_neq t INT64_MIN)) by tlia.
  match goal with |- context [mbind _ ?m] => replace m with (Done (t / u)) end.
  2:{ destruct (Z.leb_spec 0 t); [by rewrite Z.quot_div_nonneg by lia|].
    rewrite (signed_in 64 (t + u)) by tlia. cbn [mbind outcome_bind].
    rewrite (signed_in 64 (u - 1 - (t + u))) by tlia. cbn [mbind outcome_bind].
    rewrite (signed_in 64 (- _)) by tlia. cbn [mbind outcome_bind].
    rewrite quot_floor by lia. by rewrite signed_in. }
  cbn [mbind outcome_bind]. rewrite (signed_in 64 (t / u * u)) by tlia. cbn [mbind outcome_bind].
  replace (t - t / u * u) with (t mod u) by lia.
  rewrite (signed_in 64 (t mod u)) by tlia. cbn [mbind outcome_bind].
  assert (t mod u * GPR_NS_PER_SEC = t mod u * k * u) as E by (rewrite Hk; lia).
  rewrite (signed_in 64 (t mod u * _)) by (unfold GPR_NS_PER_SEC in *; tlia). cbn [mbind outcome_bind].
  rewrite E, Z.quot_mul by lia.
  assert (wrap 32 (t mod u * k + 2 ^ 31) - 2 ^ 31 = t mod u * k) as ->
    by (rewrite wrap_small; [lia|unfold is_u, GPR_NS_PER_SEC in *; lia]).
  eexists. split; [done|]. unfold valid, nanos. cbn [tv_sec tv_nsec clock_type].
  split_and!; try done; try lia; try apply Hs.
Qed.

(** The product of the seconds and the units overflows below. *)
Lemma to_seconds_overflow t u k type : is_s 64 t -> GPR_NS_PER_SEC = u * k -> 0 < u ->
  finite (Timespec t 0 type) -> t / u * u < INT64_MIN -> to_seconds_from_sub_second_time t u type = Overflow.
Proof.
  intros Ht Hk Hu Hf Hmin. assert (0 < k) as Hk0 by (unfold GPR_NS_PER_SEC in Hk; nia). assert (u <= GPR_NS_PER_SEC) as Hub by nia.
  pose proof (Z.div_mod t u ltac:(lia)) as Hdm. pose proof (Z.mod_pos_bound t u Hu) as Hmb.
  rewrite (Z.mul_comm (t / u)) in Hmin. assert (t < 0) as Hneg by tlia. assert (t <= t / u < 0) as Hd by nia. unfold to_seconds_from_sub_second_time.
  rewrite (proj2 (Z.eqb_neq t INT64_MAX)), (proj2 (Z.eqb_neq t INT64_MIN)), (proj2 (Z.leb_gt 0 t)) by tlia.
  rewrite (signed_in 64 (t + u)) by tlia. cbn [mbind outcome_bind].
  rewrite (signed_in 64 (u - 1 - (t + u))) by tlia. cbn [mbind outcome_bind].
  rewrite (signed_in 64 (- _)) by tlia. cbn [mbind outcome_bind].
  rewrite quot_floor, (signed_in 64 (t / u)) by tlia. cbn [mbind outcome_bind].
  assert (signed 64 (t / u * u) = Overflow) as ->; [|done]. unfold signed. rewrite decide_False; [done|]. rewrite (Z.mul_comm (t / u)). tlia.
Qed.

Lemma above_second_spec t u type : is_s 64 t -> 1 < u -> u < 2 ^ 31 ->
  exists r, to_seconds_from_above_second_time t u type = Done r /\ valid r /\ clock_type r = type /\
    tv_nsec r = 0 /\
    tv_sec r = if INT64_MAX / u <=? t then INT64_MAX else if t <=? - (- INT64_MIN / u) then INT64_MIN else t * u.
Proof.
  intros Ht Hu Hub. unfold to_seconds_from_above_second_time.
  rewrite (Z.quot_div_nonneg INT64_MAX) by tlia.
  replace (INT64_MIN ÷ u) with (- (- INT64_MIN / u)).
  2:{ rewrite <- Z.quot_div_nonneg by tlia. rewrite Z.quot_opp_l by lia. lia. }
  pose proof (Z.div_mod INT64_MAX u ltac:(lia)). pose proof (Z.mod_pos_bound INT64_MAX u ltac:(lia)).
  pose proof (Z.div_mod (- INT64_MIN) u ltac:(lia)). pose proof (Z.mod_pos_bound (- INT64_MIN) u ltac:(lia)).
  destruct (Z.leb_spec (INT64_MAX / u) t); [by eexists|].
  destruct (Z.leb_spec t (- (- INT64_MIN / u))); [by eexists|].
  assert (INT64_MIN < t * u < INT64_MAX) as Hr by nia.
  rewrite signed_in by tlia. cbn [mbind outcome_bind]. eexists. split; [done|].
  split_and!; cbn [tv_sec tv_nsec clock_type]; try done; tlia.
Qed.

(** ** Theorems *)

(** Adding a time span saturates at the infinities and is
    otherwise exact: infinite operands win, the minuend first; finite ones give
    their exact sum in normal form, or the infinity whose end their seconds
    reach. *)
Theorem gpr_time_add_correct (a b : gpr_timespec) : valid a -> valid b -> clock_type b = GPR_TIMESPAN ->
  exists r, gpr_time_add a b = Done r /\ clock_type r = clock_type a /\ valid r /\
    (~ finite a -> r = a) /\
    (finite a -> tv_sec b = INT64_MAX -> r = gpr_inf_future (clock_type a)) /\
    (finite a -> tv_sec b = INT64_MIN -> r = gpr_inf_past (clock_type a)) /\
    (finite a -> finite b -> sum_spec a b r).
Proof.
  intros Ha Hb Hc. destruct (decide (INT64_MIN < tv_sec a < INT64_MAX)) as [Hfa|Hfa];
    [destruct (decide (INT64_MIN < tv_sec b < INT64_MAX)) as [Hfb|Hfb]|].
  - destruct (gpr_time_add_finite a b) as (r & -> & Hr); [done..|]. exists r. split; [done|].
    pose proof Hr as Hr'. unfold sum_spec in Hr'.
    assert (clock_type r = clock_type a /\ valid r) as [? ?].
    { destruct (_ <=? _); [by subst r; split; [|split; [|]]|].
      destruct (_ <=? _); [by subst r; split; [|split; [|]]|]. tauto. }
    split_and!; try done; intros; exfalso; tlia.
  - unfold gpr_time_add. rewrite bool_decide_true by done. cbn [assert_ mbind outcome_bind].
    rewrite (proj2 (Z.leb_le 0 (tv_nsec b))) by tlia. cbn [assert_ mbind outcome_bind].
    rewrite (signed_in 32) by tlia. cbn [mbind outcome_bind]. destruct (if _ <=? _ then _ else _) as [nsec inc].
    rewrite (proj2 (Z.eqb_neq (tv_sec a) INT64_MAX)), (proj2 (Z.eqb_neq (tv_sec a) INT64_MIN)) by tlia.
    cbn [orb]. assert (tv_sec b = INT64_MAX \/ tv_sec b = INT64_MIN) as [E|E] by tlia; rewrite E; cbn -[INT64_MAX INT64_MIN].
    + eexists. split; [done|]. split_and!; try done; intros; exfalso; tlia.
    + eexists. split; [done|]. split_and!; try done; intros; exfalso; tlia.
  - unfold gpr_time_add. rewrite bool_decide_true by done. cbn [assert_ mbind outcome_bind].
    rewrite (proj2 (Z.leb_le 0 (tv_nsec b))) by tlia. cbn [assert_ mbind outcome_bind].
    rewrite (signed_in 32) by tlia. cbn [mbind outcome_bind]. destruct (if _ <=? _ then _ else _) as [nsec inc].
    assert ((tv_sec a =? INT64_MAX) || (tv_sec a =? INT64_MIN) = true) as -> by tlia.
    eexists. split; [done|]. split_and!; try done; intros; exfalso; tlia.
Qed.

Lemma gpr_time_add_correct_witness :
  exists r, gpr_time_add (Timespec 3 700000000 GPR_CLOCK_REALTIME) (Timespec (-2) 500000000 GPR_TIMESPAN) = Done r /\
    sum_spec (Timespec 3 700000000 GPR_CLOCK_REALTIME) (Timespec (-2) 500000000 GPR_TIMESPAN) r.
Proof.
  destruct (gpr_time_add_correct (Timespec 3 700000000 GPR_CLOCK_REALTIME) (Timespec (-2) 500000000 GPR_TIMESPAN))
    as (r & E & _ & _ & _ & _ & _ & H); [by_compute|by_compute|done|].
  exists r. split; [done|]. apply H; by_compute.
Defined.

(** Subtracting the span that was added gives the instant
    back, clock included, as long as the sum stayed in range. *)
Theorem gpr_time_add_sub (a b : gpr_timespec) : valid a -> valid b -> finite a -> finite b ->
  clock_type b = GPR_TIMESPAN -> tv_sec a < INT64_MAX - 1 ->
  INT64_MIN < tv_sec a + tv_sec b < INT64_MAX - 1 ->
  (s ← gpr_time_add a b; gpr_time_sub s b) = Done a.
Proof.
  intros Ha Hb Hfa Hfb Hc Hmax Hrange. destruct (gpr_time_add_finite a b) as (r & -> & Hr); [done..|].
  cbn [mbind outcome_bind]. unfold sum_spec in Hr.
  rewrite (proj2 (Z.leb_gt _ _)), (proj2 (Z.leb_gt _ _)) in Hr by tlia. destruct Hr as (Hvr & Hfr & Hcr & Hnr).
  destruct (gpr_time_sub_finite r b) as (d & -> & Hd); [done..|by left|]. f_equal. unfold diff_spec in Hd.
  rewrite (proj2 (Z.leb_gt _ _)), (proj2 (Z.ltb_ge _ _)) in Hd by tlia. destruct Hd as (Hvd & _ & Hcd & Hnd).
  apply timespec_eq; [done..| |lia]. unfold diff_clock in Hcd. rewrite bool_decide_true in Hcd by done. congruence.
Qed.

Lemma gpr_time_add_sub_witness :
  (s ← gpr_time_add (Timespec 3 700000000 GPR_CLOCK_MONOTONIC) (Timespec (-5) 600000000 GPR_TIMESPAN);
   gpr_time_sub s (Timespec (-5) 600000000 GPR_TIMESPAN)) = Done (Timespec 3 700000000 GPR_CLOCK_MONOTONIC).
Proof. apply gpr_time_add_sub; by_compute || done. Defined.

(** On finite instants of one clock less than the range
    apart, [gpr_time_similar] decides whether they differ by at most the
    threshold, and [gpr_time_cmp] orders them. *)
Theorem gpr_time_similar_correct (a b threshold : gpr_timespec) : valid a -> valid b -> valid threshold ->
  finite a -> finite b -> clock_type a = clock_type b -> clock_type threshold = GPR_TIMESPAN ->
  Z.abs (tv_sec a - tv_sec b) < INT64_MAX ->
  gpr_time_cmp a b = Done (Z.sgn (nanos a - nanos b)) /\
  (0 <= instant threshold ->
   gpr_time_similar a b threshold = Done (bool_decide (Z.abs (nanos a - nanos b) <= instant threshold))).
Proof.
  intros Ha Hb Ht Hfa Hfb Hc Hct Hdist.
  assert (gpr_time_cmp a b = Done (Z.sgn (nanos a - nanos b))) as Ecmp.
  { rewrite gpr_time_cmp_spec, !finite_instant, sign_cmp_spec by done. f_equal. tcases; lia. }
  split; [done|]. intros Hth. unfold gpr_time_similar. rewrite !bool_decide_true by done.
  cbn [assert_ mbind outcome_bind]. rewrite Ecmp. cbn [mbind outcome_bind].
  assert (forall x y, valid x -> valid y -> finite x -> finite y -> clock_type x = clock_type y ->
    nanos y < nanos x -> tv_sec x - tv_sec y < INT64_MAX ->
    (d ← gpr_time_sub x y; c ← gpr_time_cmp d threshold; Done (c <=? 0)) =
      Done (bool_decide (nanos x - nanos y <= instant threshold))) as Hdiff.
  { intros x y Hx Hy Hfx Hfy Hxy Hlt Hd. destruct (gpr_time_sub_finite x y) as (d & -> & Hs); [done..|by right|].
    cbn [mbind outcome_bind]. unfold diff_spec in Hs.
    rewrite (proj2 (Z.leb_gt _ _)), (proj2 (Z.ltb_ge _ _)) in Hs by tlia. destruct Hs as (Hvd & Hfd & Hcd & Hnd).
    assert (clock_type d = clock_type threshold).
    { rewrite Hcd, Hct. unfold diff_clock. case_bool_decide; congruence. }
    rewrite gpr_time_cmp_spec by done. cbn [mbind outcome_bind]. f_equal.
    rewrite finite_instant, Hnd, sign_cmp_spec by done.
    destruct (Z.ltb_spec (nanos x - nanos y) (instant threshold)); [by rewrite bool_decide_true by lia|].
    destruct (Z.ltb_spec (instant threshold) (nanos x - nanos y));
      [by rewrite bool_decide_false by lia|by rewrite bool_decide_true by lia]. }
  destruct (Z.eqb_spec (Z.sgn (nanos a - nanos b)) 0) as [E|E].
  - rewrite bool_decide_true by lia. done.
  - destruct (Z.ltb_spec (Z.sgn (nanos a - nanos b)) 0); rewrite Hdiff by (done || lia || tlia);
      do 2 f_equal; apply bool_decide_ext; lia.
Qed.

Lemma gpr_time_similar_correct_witness :
  gpr_time_similar (Timespec 3 700000000 GPR_CLOCK_MONOTONIC) (Timespec 4 200000000 GPR_CLOCK_MONOTONIC)
    (Timespec 0 500000000 GPR_TIMESPAN) = Done true.
Proof.
  destruct (gpr_time_similar_correct (Timespec 3 700000000 GPR_CLOCK_MONOTONIC)
    (Timespec 4 200000000 GPR_CLOCK_MONOTONIC) (Timespec 0 500000000 GPR_TIMESPAN)) as [_ H];
    [by_compute|by_compute|by_compute|by_compute|by_compute|done|done|by_compute|].
  apply H. by_compute.
Defined.

(** Milliseconds converted to a time and back are unchanged,
    from the most negative second handled up to [INT32_MAX], past which the
    conversion back saturates. *)
Theorem gpr_time_millis_roundtrip (ms : Z) (type : gpr_clock_type) :
  -2147482000 <= ms -> is_s 64 ms -> ms < INT64_MAX ->
  exists t, gpr_time_from_millis ms type = Done t /\ nanos t = ms * 1000000 /\
    gpr_time_to_millis t = Z.min ms 2147483647.
Proof.
  intros Hlo Hs Hmax.
  destruct (to_seconds_spec ms GPR_MS_PER_SEC 1000000 type) as (r & E & Hv & _ & Hsec & Hn);
    [done|done|done|tlia|unfold GPR_MS_PER_SEC; Z.to_euclidean_division_equations; tlia|].
  exists r. split; [done|]. split; [done|]. unfold GPR_MS_PER_SEC in Hsec.
  assert (tv_nsec r = ms mod 1000 * 1000000) as Hns.
  { unfold nanos in Hn. rewrite Hsec in Hn. pose proof (Z.div_mod ms 1000). unfold GPR_NS_PER_SEC in Hn. lia. }
  unfold gpr_time_to_millis. rewrite Hns, Hsec. unfold GPR_NS_PER_MS, GPR_MS_PER_SEC.
  rewrite Z.quot_mul by lia. clear - Hlo Hs.
  destruct (Z.leb_spec 2147483 (ms / 1000)).
  - destruct (Z.eqb_spec (ms / 1000) 2147483); cbn [andb]; [tcases|]; Z.to_euclidean_division_equations; lia.
  - rewrite (proj2 (Z.leb_gt _ _)) by (Z.to_euclidean_division_equations; lia).
    rewrite wrap_small by (unfold is_u; Z.to_euclidean_division_equations; lia).
    Z.to_euclidean_division_equations; lia.
Qed.

Lemma gpr_time_millis_roundtrip_witness :
  exists t, gpr_time_from_millis (-1234567) GPR_TIMESPAN = Done t /\ nanos t = -1234567 * 1000000 /\
    gpr_time_to_millis t = -1234567.
Proof. apply (gpr_time_millis_roundtrip (-1234567)); by_compute. Defined.

(** C40 (bounds): what the conversions from counts of units do with every 64-bit count. From
    nanoseconds, microseconds, milliseconds and seconds the ends of the range are the infinities and every count between them whose floor
    to whole seconds is in range gives the exact duration in normal form; the counts
    below, less than a second above [INT64_MIN], overflow, of which there are none for
    seconds. From minutes and hours, the conversion saturates at the infinity on the side of a count too large for the seconds. *)
Theorem gpr_time_from_units (t : Z) (type : gpr_clock_type) : is_s 64 t ->
  let exact r k := exists s, r = Done s /\ valid s /\ clock_type s = type /\ nanos s = t * k in
  let sub_second r u k :=
    if t =? INT64_MAX then r = Done (gpr_inf_future type) else if t =? INT64_MIN then r = Done (gpr_inf_past type)
    else if t / u * u <? INT64_MIN then r = Overflow else exact r k in
  let saturating r u := exists s, r = Done s /\ valid s /\ clock_type s = type /\ tv_nsec s = 0 /\
    tv_sec s = (if INT64_MAX / u <=? t then INT64_MAX else if t <=? - (- INT64_MIN / u) then INT64_MIN else t * u) in
  sub_second (gpr_time_from_nanos t type) GPR_NS_PER_SEC 1 /\
  sub_second (gpr_time_from_micros t type) GPR_US_PER_SEC 1000 /\
  sub_second (gpr_time_from_millis t type) GPR_MS_PER_SEC 1000000 /\
  sub_second (gpr_time_from_seconds t type) 1 GPR_NS_PER_SEC /\
  (INT64_MIN < t < INT64_MAX -> exact (gpr_time_from_seconds t type) GPR_NS_PER_SEC) /\
  saturating (gpr_time_from_minutes t type) 60 /\ saturating (gpr_time_from_hours t type) 3600.
Proof.
  intros Hs exact sub_second saturating.
  assert (forall u k, GPR_NS_PER_SEC = u * k -> 0 < u -> sub_second (to_seconds_from_sub_second_time t u type) u k) as Hsub.
  { intros u k Hk Hu. unfold sub_second. destruct (Z.eqb_spec t INT64_MAX) as [->|Hmax]; [done|].
    destruct (Z.eqb_spec t INT64_MIN) as [->|Hmin]; [done|]. assert (finite (Timespec t 0 type)) as Hf by tlia.
    destruct (Z.ltb_spec (t / u * u) INT64_MIN) as [Hlt|Hge]; [by eapply to_seconds_overflow|].
    destruct (to_seconds_spec t u k type Hs Hk Hu Hf Hge) as (r & E & Hv & Hc & _ & Hn). by exists r. }
  split_and!; try (by apply Hsub); try (by apply above_second_spec).
  intros Hf. pose proof (Hsub 1 GPR_NS_PER_SEC eq_refl eq_refl) as H1. unfold sub_second in H1.
  rewrite (proj2 (Z.eqb_neq _ _)), (proj2 (Z.eqb_neq _ _)), (proj2 (Z.ltb_ge _ _)) in H1; [exact H1|rewrite Z.div_1_r; lia|lia..].
Qed.

Lemma gpr_time_from_units_witness :
  (exists s, gpr_time_from_nanos (-1) GPR_TIMESPAN = Done s /\ valid s /\ clock_type s = GPR_TIMESPAN /\ nanos s = -1 * 1) /\
  gpr_time_from_nanos (INT64_MIN + 1) GPR_TIMESPAN = Overflow.
Proof.
  split.
  - destruct (gpr_time_from_units (-1) GPR_TIMESPAN) as [H _]; [by_compute|]. exact H.
  - destruct (gpr_time_from_units (INT64_MIN + 1) GPR_TIMESPAN) as [H _]; [by_compute|]. exact H.
Defined.
