(* ===== verification/LruLinks.v ===== *)
(** * The intrusive lists of the leveldb cache
    ([leveldb-library/util/cache.cc], [LRU_Remove] and [LRU_Append])

    The [next] and [prev] fields of every allocated [LRUHandle], the two dummy
    heads included, are a partial map from addresses to pointers: an address
    without an entry is not allocated, and [Some None] is a null or
    uninitialised field.  Reading a field of an unallocated handle, following
    a null pointer or writing to unallocated memory is [None]. *)

From stdpp Require Import gmap.
From S2P Require Import Prelude.

Abbreviation ptr := positive.
Abbreviation fields := (gmap ptr (option ptr)).

Record links := Links { next : fields; prev : fields }.

(** Field accesses. *)
Definition read (f : fields) (e : ptr) : option ptr := mjoin (f !! e).

Definition write (f : fields) (e v : ptr) : option fields :=
  if decide (is_Some (f !! e)) then Some (<[e := Some v]> f) else None.

(** [e->next->prev = e->prev; e->prev->next = e->next]. *)
Definition LRU_Remove (e : ptr) (l : links) : option links :=
  n ← read (next l) e; p ← read (prev l) e; pv ← write (prev l) n p;
  p ← read pv e; n ← read (next l) e; nx ← write (next l) p n;
  Some (Links nx pv).

(** Make [e] the newest entry by inserting it just before the head. *)
Definition LRU_Append (head e : ptr) (l : links) : option links :=
  nx ← write (next l) e head;
  p ← read (prev l) head; pv ← write (prev l) e p;
  p ← read pv e; nx ← write nx p e;
  n ← read nx e; pv ← write pv n e;
  Some (Links nx pv).

(** ** Rings *)

(** The field [f] of every element of [xs] points to the element of [ys]
    opposite it. *)
Definition points (f : fields) (xs ys : list ptr) : Prop :=
  Forall2 (fun x y => f !! x = Some (Some y)) xs ys.

(** The circular list of [l] through the dummy head [h], oldest first. *)
Record ring (k : links) (h : ptr) (l : list ptr) : Prop := {
  ring_next : points (next k) (h :: l) (l ++ [h]);
  ring_prev : points (prev k) (l ++ [h]) (h :: l);
  ring_nodup : NoDup (h :: l);
}.

Lemma points_insert f xs ys e v : points f xs ys -> e ∉ xs -> points (<[e := v]> f) xs ys.
Proof.
  induction 1 as [|x y xs ys Hxy _ IH]; intros He; [constructor|].
  apply not_elem_of_cons in He as [Hne He]. constructor; [by rewrite lookup_insert_ne|]. by apply IH.
Qed.

Lemma points_app f xs1 ys1 xs2 ys2 : length xs1 = length ys1 ->
  points f (xs1 ++ xs2) (ys1 ++ ys2) <-> points f xs1 ys1 /\ points f xs2 ys2.
Proof.
  intros Hl. split.
  - intros H. by apply Forall2_app_inv in H.
  - intros [H1 H2]. by apply Forall2_app.
Qed.

Lemma points_cons f x y xs ys :
  points f (x :: xs) (y :: ys) <-> f !! x = Some (Some y) /\ points f xs ys.
Proof. split; [intros H; by inversion H|intros []; by constructor]. Qed.

Lemma points_frame f g xs ys : points f xs ys -> (forall x, x ∈ xs -> g !! x = f !! x) -> points g xs ys.
Proof.
  induction 1 as [|x y xs ys Hxy _ IH]; intros Hg; [constructor|].
  constructor; [by rewrite Hg by left|]. apply IH. intros z Hz. apply Hg. by right.
Qed.

(** Cutting the spine of a ring before and after its head. *)
Lemma snoc_view (h : ptr) l : exists A a, h :: l = A ++ [a] /\ length A = length l.
Proof.
  revert h. induction l as [|x l IH]; intros h; [by exists [], h|].
  destruct (IH x) as (A & a & E & Hl). exists (h :: A), a. split; [by rewrite E|simpl; lia].
Qed.

Lemma cons_view (h : ptr) l : exists b B, l ++ [h] = b :: B /\ length B = length l.
Proof. destruct l as [|x l]; [by exists h, []|]. exists x, (l ++ [h]). split; [done|]. len. Qed.

Lemma NoDup_rotate (h : ptr) l : NoDup (h :: l) <-> NoDup (l ++ [h]).
Proof. by rewrite (Permutation_app_comm l [h]). Qed.

Lemma ring_frame k k' h l : ring k h l ->
  (forall x, x ∈ h :: l -> next k' !! x = next k !! x /\ prev k' !! x = prev k !! x) -> ring k' h l.
Proof.
  intros [Hn Hp Hd] Hext. split; [| |done].
  - apply (points_frame (next k)); [done|]. intros x Hx. by apply Hext.
  - apply (points_frame (prev k)); [done|]. intros x Hx. apply Hext.
    rewrite elem_of_app, list_elem_of_singleton in Hx. rewrite elem_of_cons. tauto.
Qed.

Lemma read_some (f : fields) e v : f !! e = Some (Some v) -> read f e = Some v.
Proof. intros E. unfold read. by rewrite E. Qed.

Lemma write_some (f : fields) e v u : f !! e = Some u -> write f e v = Some (<[e := Some v]> f).
Proof. intros E. unfold write. rewrite decide_True; [done|]. by eexists. Qed.

(** What an operation leaves alone outside the ring it works on. *)
Record same_outside (k k' : links) (l : list ptr) : Prop := {
  so_fields x : x ∉ l -> next k' !! x = next k !! x /\ prev k' !! x = prev k !! x;
  so_next x : is_Some (next k' !! x) <-> is_Some (next k !! x);
  so_prev x : is_Some (prev k' !! x) <-> is_Some (prev k !! x);
}.

Lemma is_Some_insert (f : fields) a v u x : f !! a = Some u -> is_Some (<[a := v]> f !! x) <-> is_Some (f !! x).
Proof.
  intros Ha. destruct (decide (a = x)) as [->|]; [|by rewrite lookup_insert_ne].
  rewrite lookup_insert_eq, Ha. by split; eexists.
Qed.

(** Unlinking an element; its own fields keep their stale values. *)
Lemma LRU_Remove_ring k h l1 e l2 : ring k h (l1 ++ e :: l2) ->
  exists k', LRU_Remove e k = Some k' /\ ring k' h (l1 ++ l2) /\ same_outside k k' (h :: l1 ++ e :: l2) /\
    next k' !! e = next k !! e.
Proof.
  intros [Hn Hp Hd]. pose proof Hd as Hd0.
  destruct (snoc_view h l1) as (A & a & EA & HA). destruct (cons_view h l2) as (b & B & EB & HB).
  pose proof Hd as Hd'. rewrite NoDup_rotate, <- app_assoc in Hd'. cbn [app] in Hd'. rewrite EB in Hd'.
  rewrite app_comm_cons, EA, <- app_assoc in Hd. cbn [app] in Hd.
  rewrite <- app_assoc, app_comm_cons, EA, <- app_assoc in Hn, Hp. cbn [app] in Hn, Hp. rewrite EB in Hn, Hp.
  apply points_app in Hn as [HnA Hn]; [|done]. apply points_cons in Hn as [Hae Hn]. apply points_cons in Hn as [Heb HnB].
  apply points_app in Hp as [HpA Hp]; [|done]. apply points_cons in Hp as [Hea Hp]. apply points_cons in Hp as [Hbe HpB].
  apply list.NoDup_app in Hd as (_ & HdA & Hd). apply list.NoDup_cons in Hd as [Ha Hd].
  apply list.NoDup_app in Hd' as (_ & Hdl1 & Hd'). apply list.NoDup_cons in Hd' as [He Hd'].
  apply list.NoDup_cons in Hd' as [Hb Hd'].
  assert (a ∉ A /\ a <> e /\ a ∉ l2) as (Ha1 & Ha2 & Ha3).
  { rewrite not_elem_of_cons in Ha. split; [|tauto]. intros Hin. apply (HdA a Hin). left. }
  assert (b ∉ l1 /\ b <> e /\ b ∉ B) as (Hb1 & Hb2 & Hb3).
  { rewrite not_elem_of_cons in He. split; [|split; [|done]].
    - intros Hin. apply (Hdl1 b Hin). right. left. - intros ->. tauto. }
  eexists. split.
  { unfold LRU_Remove. rewrite (read_some _ _ _ Heb), (read_some _ _ _ Hea). cbn [mbind option_bind].
    rewrite (write_some _ _ _ _ Hbe). cbn [mbind option_bind].
    rewrite (read_some (<[b := _]> _) e a) by (by rewrite lookup_insert_ne). cbn [mbind option_bind].
    rewrite (write_some _ _ _ _ Hae). reflexivity. }
  split; [|split; [split|]]; cbn [next prev].
  - split; cbn [next prev].
    + rewrite <- app_assoc, app_comm_cons, EA, <- app_assoc, EB. cbn [app].
      apply points_app; [done|]. split; [by apply points_insert|].
      apply points_cons. split; [by rewrite lookup_insert_eq|by apply points_insert].
    + rewrite <- app_assoc, app_comm_cons, EA, <- app_assoc, EB. cbn [app].
      apply points_app; [done|]. split; [by apply points_insert|].
      apply points_cons. split; [by rewrite lookup_insert_eq|by apply points_insert].
    + rewrite <- Permutation_middle in Hd0. rewrite !list.NoDup_cons, not_elem_of_cons in Hd0. rewrite list.NoDup_cons. tauto.
  - assert (a ∈ h :: l1) as Hain by (rewrite EA; apply elem_of_app; right; left).
    assert (b ∈ l2 ++ [h]) as Hbin by (rewrite EB; left).
    rewrite elem_of_cons in Hain. rewrite elem_of_app, list_elem_of_singleton in Hbin.
    intros x Hx. rewrite elem_of_cons, elem_of_app, elem_of_cons in Hx.
    rewrite !lookup_insert_ne by (intros ->; tauto). done.
  - intros x. by apply (is_Some_insert _ _ _ _ _ Hae).
  - intros x. by apply (is_Some_insert _ _ _ _ _ Hbe).
  - by rewrite lookup_insert_ne.
Qed.

(** Linking a fresh element before the head. *)
Lemma LRU_Append_ring k h l e : ring k h l -> e ∉ h :: l ->
  is_Some (next k !! e) -> is_Some (prev k !! e) ->
  exists k', LRU_Append h e k = Some k' /\ ring k' h (l ++ [e]) /\ same_outside k k' (e :: h :: l).
Proof.
  intros [Hn Hp Hd] He [un Hun] [up Hup]. destruct (snoc_view h l) as (A & a & EA & HA).
  pose proof Hd as Hd0. rewrite EA in Hn, Hp, Hd, He.
  apply points_app in Hn as [HnA Hn]; [|done]. apply points_cons in Hn as [Hah _].
  apply points_app in Hp as [HpA Hp]; [|done]. apply points_cons in Hp as [Hha _].
  apply list.NoDup_app in Hd as (_ & HdA & _).
  rewrite not_elem_of_app, list_elem_of_singleton in He. destruct He as [HeA Hea].
  assert (a ∉ A) as HaA by (intros Hin; apply (HdA a Hin); left).
  assert (h ∈ h :: l) as Hh by left. rewrite EA, elem_of_app, list_elem_of_singleton in Hh.
  assert (e <> h) as Heh by (intros ->; tauto).
  assert (h ∉ l) as Hhl by (by apply list.NoDup_cons in Hd0 as [? _]).
  assert (e ∉ l) as Hel.
  { intros Hin. assert (e ∈ h :: l) as Hin' by by right. rewrite EA, elem_of_app, list_elem_of_singleton in Hin'. tauto. }
  eexists. split.
  { unfold LRU_Append. rewrite (write_some _ _ _ _ Hun). cbn [mbind option_bind].
    rewrite (read_some _ _ _ Hha). cbn [mbind option_bind]. rewrite (write_some _ _ _ _ Hup). cbn [mbind option_bind].
    rewrite (read_some _ e a) by (by rewrite lookup_insert_eq). cbn [mbind option_bind].
    rewrite (write_some _ a e (Some h)) by (by rewrite lookup_insert_ne by congruence). cbn [mbind option_bind].
    rewrite (read_some _ e h) by (by rewrite lookup_insert_ne, lookup_insert_eq by congruence). cbn [mbind option_bind].
    rewrite (write_some _ h e (Some a)) by (by rewrite lookup_insert_ne by congruence). reflexivity. }
  split.
  - split; cbn [next prev].
    + rewrite app_comm_cons, EA, <- !app_assoc. cbn [app]. apply points_app; [done|].
      split; [apply points_insert; [by apply points_insert|done]|]. apply points_cons. split; [by rewrite lookup_insert_eq|].
      apply points_cons. split; [by rewrite lookup_insert_ne, lookup_insert_eq by congruence|constructor].
    + rewrite app_comm_cons, EA, <- !app_assoc. cbn [app]. apply points_app; [done|].
      split; [apply points_insert; [by apply points_insert|done]|]. apply points_cons.
      split; [by rewrite lookup_insert_ne, lookup_insert_eq by congruence|].
      apply points_cons. split; [by rewrite lookup_insert_eq|constructor].
    + rewrite app_comm_cons, (Permutation_app_comm (h :: l) [e]). cbn [app]. apply list.NoDup_cons.
      split; [|done]. rewrite not_elem_of_cons. done.
  - split; cbn [next prev].
    + intros x Hx. rewrite EA, elem_of_cons, elem_of_app, list_elem_of_singleton in Hx.
      rewrite !lookup_insert_ne by (intros ->; tauto). done.
    + intros x. rewrite (is_Some_insert _ a (Some e) (Some h)) by (by rewrite lookup_insert_ne by congruence).
      by apply (is_Some_insert _ _ _ _ _ Hun).
    + intros x. rewrite (is_Some_insert _ h (Some e) (Some a)) by (by rewrite lookup_insert_ne by congruence).
      by apply (is_Some_insert _ _ _ _ _ Hup).
Qed.

(** No element of a ring points to itself. *)
Lemma ring_no_self k h l e : ring k h l -> e ∈ l -> next k !! e <> Some (Some e).
Proof.
  intros [Hn _ Hd] He E. apply list_elem_of_split in He as (l1 & l2 & ->).
  destruct (cons_view h l2) as (b & B & EB & _). rewrite NoDup_rotate in Hd.
  destruct (snoc_view h l1) as (A & a & EA & HA).
  rewrite <- app_assoc in Hd, Hn. cbn [app] in Hd. rewrite app_comm_cons, EA, <- app_assoc in Hn. cbn [app] in Hn.
  rewrite EB in Hd, Hn. apply points_app in Hn as [_ Hn]; [|done]. apply points_cons in Hn as [_ Hn].
  apply points_cons in Hn as [Heb _]. rewrite E in Heb. injection Heb as <-.
  apply list.NoDup_app in Hd as (_ & _ & Hd). apply list.NoDup_cons in Hd as [Hd _]. apply Hd. left.
Qed.

(** What a head's [next] field reads: the oldest element, or the head. *)
Lemma ring_first k h l : ring k h l -> read (next k) h = Some (default h (list.head l)).
Proof. intros [Hn _ _]. apply read_some. destruct l; apply points_cons in Hn as [Hn _]; done. Qed.

Lemma points_alloc f xs ys x : points f xs ys -> x ∈ xs -> is_Some (f !! x).
Proof.
  induction 1 as [|y z xs ys Hyz _ IH]; intros Hx; [by apply elem_of_nil in Hx|].
  apply elem_of_cons in Hx as [->|Hx]; [by eexists|by apply IH].
Qed.

(** Handles on a ring are allocated. *)
Lemma ring_alloc k h l e : ring k h l -> e ∈ l -> is_Some (next k !! e) /\ is_Some (prev k !! e).
Proof.
  intros [Hn Hp _] He. split.
  - eapply points_alloc; [exact Hn|]. by right.
  - eapply points_alloc; [exact Hp|]. apply elem_of_app. by left.
Qed.
