(* ===== verification/HandleTable.v ===== *)
(** * The hash table of the leveldb cache
    ([leveldb-library/util/cache.cc], class [HandleTable])

    The table is its array of buckets, each the chain of the handles linked
    through [next_hash]; the field belongs to the table alone, so a chain is
    represented by the list of its handles.  What the table reads of a handle,
    its hash and its key, are parameters ([None] for memory that is not
    allocated, or when the assertion of [key()] fails); [LruCache.v] instantiates
    them with the heap of the cache.  A [LRUHandle**] is a bucket and a position
    in its chain, the position after the last being the trailing null slot. *)

From stdpp Require Import gmap.
From S2P Require Import Prelude.
From S2P Require Import LruLinks.

Record table := Table { length_ : Z; elems_ : Z; list_ : list (list ptr) }.

Section table.
Context (hash_of : ptr -> option Z) (key_of : ptr -> option (list Z)).

(** [hash & (length - 1)], on [uint32_t]. *)
Definition bucket (length hash : Z) : nat := Z.to_nat (Z.land hash (wrap 32 (length - 1))).

(** The loop of [FindPointer]: the position of the slot in the chain. *)
Fixpoint chain_find (key : list Z) (hash : Z) (chain : list ptr) : option nat :=
  match chain with
  | [] => Some 0%nat
  | e :: chain =>
      h ← hash_of e;
      if negb (h =? hash) then S <$> chain_find key hash chain
      else k ← key_of e; if decide (key = k) then Some 0%nat else S <$> chain_find key hash chain
  end.

Definition FindPointer (t : table) (key : list Z) (hash : Z) : option (nat * nat) :=
  let b := bucket (length_ t) hash in
  chain ← list_ t !! b; pos ← chain_find key hash chain; Some (b, pos).

(** [*ptr]. *)
Definition slot (t : table) (p : nat * nat) : option ptr := mjoin ((fun chain => chain !! p.2) <$> list_ t !! p.1).

Definition table_Lookup (t : table) (key : list Z) (hash : Z) : option (option ptr) :=
  p ← FindPointer t key hash; Some (slot t p).

(** [while (new_length < elems_) new_length *= 2]; thirty-two doublings reach
    every length below 2^31, past which the product wraps to zero. *)
Fixpoint grow (fuel : nat) (new_length elems : Z) : option Z :=
  if new_length <? elems then
    match fuel with O => None | S fuel => grow fuel (wrap 32 (new_length * 2)) elems end
  else Some new_length.

(** The inner loop of [Resize]: a chain is moved head first, each handle to the
    front of its new bucket. *)
Fixpoint rehash_chain (new_length : Z) (chain : list ptr) (new_list : list (list ptr)) (count : Z) :
    option (list (list ptr) * Z) :=
  match chain with
  | [] => Some (new_list, count)
  | h :: chain =>
      hash ← hash_of h;
      let b := bucket new_length hash in
      old ← new_list !! b;
      rehash_chain new_length chain (<[b := h :: old]> new_list) (wrap 32 (count + 1))
  end.

(** The outer loop over the old buckets. *)
Fixpoint rehash (new_length : Z) (list_ : list (list ptr)) (new_list : list (list ptr)) (count : Z) :
    option (list (list ptr) * Z) :=
  match list_ with
  | [] => Some (new_list, count)
  | chain :: list_ =>
      '(new_list, count) ← rehash_chain new_length chain new_list count; rehash new_length list_ new_list count
  end.

Definition Resize (t : table) : option table :=
  new_length ← grow 32 4 (elems_ t);
  '(new_list, count) ← rehash new_length (list_ t) (replicate (Z.to_nat new_length) []) 0;
  if elems_ t =? count then Some (Table new_length (elems_ t) new_list) else None.

(** The constructor. *)
Definition HandleTable : option table := Resize (Table 0 0 []).

Definition table_Insert (t : table) (h : ptr) : option (option ptr * table) :=
  key ← key_of h; hash ← hash_of h;
  p ← FindPointer t key hash; chain ← list_ t !! p.1;
  match slot t p with
  | Some old => Some (Some old, Table (length_ t) (elems_ t) (<[p.1 := <[p.2 := h]> chain]> (list_ t)))
  | None =>
      let t := Table (length_ t) (wrap 32 (elems_ t + 1)) (<[p.1 := chain ++ [h]]> (list_ t)) in
      if length_ t <? elems_ t then t ← Resize t; Some (None, t) else Some (None, t)
  end.

Definition table_Remove (t : table) (key : list Z) (hash : Z) : option (option ptr * table) :=
  p ← FindPointer t key hash; chain ← list_ t !! p.1;
  match slot t p with
  | Some result => Some (Some result, Table (length_ t) (wrap 32 (elems_ t - 1))
                           (<[p.1 := take p.2 chain ++ drop (S p.2) chain]> (list_ t)))
  | None => Some (None, t)
  end.

(** ** Well-formed tables *)

(** A handle carries this hash and key. *)
Definition matches (e : ptr) (key : list Z) (hash : Z) : Prop := hash_of e = Some hash /\ key_of e = Some key.

(** [T] lists the handles of the table in some order. *)
Record table_ok (t : table) (T : list ptr) : Prop := {
  tk_length : exists k, 2 <= k <= 31 /\ length_ t = 2 ^ k;
  tk_list : length (list_ t) = Z.to_nat (length_ t);
  tk_elems : elems_ t = Z.of_nat (length T);
  tk_perm : mjoin (list_ t) ≡ₚ T;
  tk_place b chain e : list_ t !! b = Some chain -> e ∈ chain ->
    exists h, hash_of e = Some h /\ b = bucket (length_ t) h;
  tk_key e : e ∈ T -> exists key hash, matches e key hash;
  tk_unique e e' key hash : e ∈ T -> e' ∈ T -> matches e key hash -> matches e' key hash -> e = e';
  tk_nodup : NoDup T;
}.

Lemma table_ok_perm t T T' : T ≡ₚ T' -> table_ok t T -> table_ok t T'.
Proof.
  intros HT [Hl Hli He Hp Hpl Hk Hu Hn]. split; try done.
  - by rewrite <- HT.
  - by rewrite <- HT.
  - intros e Hin. apply Hk. by rewrite HT.
  - intros e e' key hash H1 H2. apply Hu; by rewrite HT.
  - by rewrite <- HT.
Qed.

Lemma bucket_lt k hash : 2 <= k <= 31 -> (bucket (2 ^ k) hash < Z.to_nat (2 ^ k))%nat.
Proof.
  intros Hk. unfold bucket. assert (0 < 2 ^ k) by (apply Z.pow_pos_nonneg; lia).
  assert (2 ^ k <= 2 ^ 31) by (apply Z.pow_le_mono_r; lia).
  rewrite wrap_small by (unfold is_u; lia). replace (2 ^ k - 1) with (Z.ones k) by (rewrite Z.ones_equiv; lia).
  rewrite Z.land_ones by lia. pose proof (Z.mod_pos_bound hash (2 ^ k)). lia.
Qed.

Lemma table_bucket t T hash : table_ok t T -> exists chain, list_ t !! bucket (length_ t) hash = Some chain.
Proof.
  intros Ht. destruct (tk_length _ _ Ht) as (k & Hk & E). apply lookup_lt_is_Some.
  rewrite (tk_list _ _ Ht), E. by apply bucket_lt.
Qed.

(** A bucket taken out of the array and put back. *)
Lemma mjoin_bucket (l : list (list ptr)) b chain : l !! b = Some chain ->
  mjoin l ≡ₚ chain ++ mjoin (take b l ++ drop (S b) l).
Proof.
  intros Hb. rewrite <- (take_drop_middle l b chain Hb) at 1.
  rewrite !join_app. cbn [mjoin list_join].
  rewrite Permutation_app_swap_app. done.
Qed.

Lemma mjoin_update (l : list (list ptr)) b chain chain' : l !! b = Some chain ->
  mjoin (<[b := chain']> l) ≡ₚ chain' ++ mjoin (take b l ++ drop (S b) l).
Proof.
  intros Hb. rewrite (insert_take_drop l b chain') by (by eapply lookup_lt_Some).
  rewrite !join_app. cbn [mjoin list_join]. rewrite Permutation_app_swap_app. done.
Qed.

Lemma elem_of_bucket (l : list (list ptr)) b chain e : l !! b = Some chain -> e ∈ chain -> e ∈ mjoin l.
Proof. intros Hb He. rewrite (mjoin_bucket _ _ _ Hb). apply elem_of_app. by left. Qed.

(** [FindPointer] stops at the only handle that can match. *)
Lemma chain_find_spec key hash chain : (forall e, e ∈ chain -> exists k h, matches e k h) ->
  exists pos, chain_find key hash chain = Some pos /\
    match chain !! pos with
    | Some e => matches e key hash
    | None => pos = length chain /\ forall e, e ∈ chain -> ~ matches e key hash
    end.
Proof.
  induction chain as [|e chain IH]; intros Hall; [exists 0%nat; split; [done|]; by split; [|intros e ?%not_elem_of_nil]|].
  destruct (Hall e) as (k & h & Hh & Hk); [left|].
  destruct IH as (pos & Hf & Hpos); [intros x Hx; apply Hall; by right|].
  cbn [chain_find]. rewrite Hh. cbn [mbind option_bind].
  assert (~ matches e key hash -> exists pos', S <$> chain_find key hash chain = Some pos' /\
    match (e :: chain) !! pos' with
    | Some e => matches e key hash
    | None => pos' = length (e :: chain) /\ forall e', e' ∈ e :: chain -> ~ matches e' key hash
    end) as Hnext.
  { intros Hne. exists (S pos). rewrite Hf. split; [done|]. cbn [lookup list_lookup length].
    destruct (chain !! pos); [done|]. destruct Hpos as [-> Hno]. split; [done|].
    intros x [->|Hx]%elem_of_cons; [done|by apply Hno]. }
  destruct (Z.eqb_spec h hash) as [->|Hne]; cbn [negb].
  2:{ apply Hnext. intros [Hh' _]. congruence. }
  rewrite Hk. cbn [mbind option_bind]. destruct (decide (key = k)) as [->|Hne].
  - exists 0%nat. by split; [|split].
  - apply Hnext. intros [_ Hk']. congruence.
Qed.

(** What a search finds among [T]. *)
Definition found (T : list ptr) (key : list Z) (hash : Z) (r : option ptr) : Prop :=
  match r with
  | Some e => e ∈ T /\ matches e key hash
  | None => forall e, e ∈ T -> ~ matches e key hash
  end.

Lemma FindPointer_spec t T key hash : table_ok t T ->
  exists chain pos, let b := bucket (length_ t) hash in
    FindPointer t key hash = Some (b, pos) /\ list_ t !! b = Some chain /\ (pos <= length chain)%nat /\
    slot t (b, pos) = chain !! pos /\ found T key hash (chain !! pos).
Proof.
  intros Ht. destruct (table_bucket t T hash Ht) as [chain Hc].
  assert (forall e, e ∈ chain -> e ∈ T) as Hsub.
  { intros e He. rewrite <- (tk_perm _ _ Ht). by eapply elem_of_bucket. }
  destruct (chain_find_spec key hash chain) as (pos & Hf & Hpos).
  { intros e He. eapply tk_key; [done|auto]. }
  exists chain, pos. unfold FindPointer, slot. cbn zeta. cbn [fst snd]. rewrite Hc. cbn [mbind option_bind]. rewrite Hf.
  cbn [mbind option_bind fmap option_fmap option_map fst snd mjoin option_join].
  split; [done|]. split; [done|]. destruct (chain !! pos) as [e|] eqn:E; cbn [found].
  - split; [apply lookup_lt_Some in E; lia|]. split; [done|]. split; [|done].
    apply Hsub. by apply list_elem_of_lookup_2 in E.
  - destruct Hpos as [-> Hno]. split; [done|]. split; [done|]. intros e He Hm.
    rewrite <- (tk_perm _ _ Ht) in He. apply list_elem_of_join in He as (chain' & He & [b Hb]%list_elem_of_lookup).
    destruct (tk_place _ _ Ht b chain' e Hb He) as (h & Hh & ->).
    destruct Hm as [Hm1 Hm2]. rewrite Hm1 in Hh. injection Hh as <-. rewrite Hc in Hb. injection Hb as <-.
    by apply (Hno e).
Qed.

Lemma table_Lookup_ok t T key hash : table_ok t T ->
  exists r, table_Lookup t key hash = Some r /\ found T key hash r.
Proof.
  intros Ht. destruct (FindPointer_spec t T key hash Ht) as (chain & pos & Hf & _ & _ & Hs & Hr).
  exists (chain !! pos). unfold table_Lookup. rewrite Hf. cbn [mbind option_bind]. by rewrite Hs.
Qed.

(** Replacing one chain keeps every other handle in its bucket. *)
Lemma place_update t T b chain chain' : table_ok t T -> list_ t !! b = Some chain ->
  (forall e, e ∈ chain' -> exists h, hash_of e = Some h /\ b = bucket (length_ t) h) ->
  forall b' c e, <[b := chain']> (list_ t) !! b' = Some c -> e ∈ c ->
    exists h, hash_of e = Some h /\ b' = bucket (length_ t) h.
Proof.
  intros Ht Hb Hnew b' c e Hc He. apply list_lookup_insert_Some in Hc as [(<- & <- & _)|[_ Hc]]; [by apply Hnew|].
  by apply (tk_place _ _ Ht b' c).
Qed.

Lemma cut_lookup {A} (l : list A) pos x : l !! pos = Some x ->
  l ≡ₚ x :: take pos l ++ drop (S pos) l /\ forall y, <[pos := y]> l ≡ₚ y :: take pos l ++ drop (S pos) l.
Proof.
  intros Hx. split.
  - rewrite <- (take_drop_middle l pos x Hx) at 1. by rewrite Permutation_middle.
  - intros y. rewrite insert_take_drop by (by eapply lookup_lt_Some). by rewrite Permutation_middle.
Qed.

Lemma table_Remove_ok t T key hash : table_ok t T -> Z.of_nat (length T) < 2 ^ 32 ->
  exists r t', table_Remove t key hash = Some (r, t') /\ found T key hash r /\
    match r with
    | Some e => exists T', T ≡ₚ e :: T' /\ table_ok t' T'
    | None => t' = t
    end.
Proof.
  intros Ht Hlen. destruct (FindPointer_spec t T key hash Ht) as (chain & pos & Hf & Hc & _ & Hs & Hr).
  unfold table_Remove. rewrite Hf. cbn [mbind option_bind fst snd]. rewrite Hc. cbn [mbind option_bind]. rewrite Hs.
  destruct (chain !! pos) as [e|] eqn:E; [|by eexists _, _].
  destruct (cut_lookup chain pos e E) as [Hcut _]. set (chain' := take pos chain ++ drop (S pos) chain) in *.
  eexists _, _. split; [done|]. split; [done|].
  exists (chain' ++ mjoin (take (bucket (length_ t) hash) (list_ t) ++ drop (S (bucket (length_ t) hash)) (list_ t))).
  assert (T ≡ₚ e :: chain' ++ mjoin (take (bucket (length_ t) hash) (list_ t) ++ drop (S (bucket (length_ t) hash)) (list_ t))) as HT.
  { rewrite <- (tk_perm _ _ Ht), (mjoin_bucket _ _ _ Hc), Hcut at 1. done. }
  split; [done|]. set (T' := chain' ++ _) in *.
  assert (forall x, x ∈ T' -> x ∈ T) as Hsub by (intros x Hx; rewrite HT; by right).
  destruct Ht as [Hl Hli He Hp Hpl Hk Hu Hn]. split; cbn [length_ elems_ list_]; try done.
  - by rewrite length_insert.
  - rewrite He, HT. cbn [length]. rewrite HT in Hlen. cbn [length] in Hlen.
    rewrite wrap_small by (unfold is_u; lia). lia.
  - by apply mjoin_update with chain.
  - eapply (place_update t T _ chain); [by split|done|]. intros x Hx. apply (Hpl _ chain); [done|]. rewrite Hcut. by right.
  - intros x Hx. apply Hk. by apply Hsub.
  - intros x y k h Hx Hy. apply Hu; by apply Hsub.
  - rewrite HT in Hn. by apply list.NoDup_cons in Hn as [_ Hn].
Qed.

(** ** Resizing *)

Lemma grow_spec elems : 0 <= elems < 2 ^ 31 -> exists k, 2 <= k <= 31 /\ grow 32 4 elems = Some (2 ^ k).
Proof.
  intros He. cut (forall fuel j, 2 <= j <= 31 -> (31 - Z.to_nat j < fuel)%nat ->
    exists k, 2 <= k <= 31 /\ grow fuel (2 ^ j) elems = Some (2 ^ k)).
  { intros Hall. apply (Hall 32%nat 2); lia. }
  induction fuel as [|fuel IH]; intros j Hj Hf; [lia|]. cbn [grow].
  destruct (Z.ltb_spec (2 ^ j) elems) as [Hlt|]; [|by exists j].
  assert (j < 31) as Hj31.
  { destruct (decide (j < 31)); [done|]. replace j with 31 in Hlt by lia. lia. }
  assert (2 ^ (j + 1) <= 2 ^ 31) by (apply Z.pow_le_mono_r; lia).
  assert (0 < 2 ^ (j + 1)) by (apply Z.pow_pos_nonneg; lia).
  assert (wrap 32 (2 ^ j * 2) = 2 ^ (j + 1)) as ->.
  { rewrite Z.pow_add_r by lia. rewrite Z.pow_add_r in * by lia. apply wrap_small. unfold is_u. lia. }
  apply IH; lia.
Qed.

(** The handles moved so far are in their new buckets. *)
Definition placed (new_length : Z) (new_list : list (list ptr)) (T : list ptr) : Prop :=
  length new_list = Z.to_nat new_length /\ mjoin new_list ≡ₚ T /\
  forall b chain e, new_list !! b = Some chain -> e ∈ chain ->
    exists h, hash_of e = Some h /\ b = bucket new_length h.

Lemma rehash_chain_spec k chain new_list T : 2 <= k <= 31 ->
  placed (2 ^ k) new_list T -> (forall e, e ∈ chain -> is_Some (hash_of e)) ->
  exists new_list', rehash_chain (2 ^ k) chain new_list (wrap 32 (Z.of_nat (length T))) =
      Some (new_list', wrap 32 (Z.of_nat (length (chain ++ T)))) /\ placed (2 ^ k) new_list' (chain ++ T).
Proof.
  intros Hk. revert new_list T. induction chain as [|e chain IH]; intros new_list T HT Hh; [by exists new_list|].
  destruct (Hh e) as [h Hhe]; [left|]. cbn [rehash_chain]. rewrite Hhe. cbn [mbind option_bind].
  destruct HT as (Hl & Hp & Hpl).
  assert (exists old, new_list !! bucket (2 ^ k) h = Some old) as [old Hold].
  { apply lookup_lt_is_Some. rewrite Hl. by apply bucket_lt. }
  rewrite Hold. cbn [mbind option_bind]. rewrite wrap_add_l.
  replace (Z.of_nat (length T) + 1) with (Z.of_nat (length (e :: T))) by (cbn [length]; lia).
  destruct (IH (<[bucket (2 ^ k) h := e :: old]> new_list) (e :: T)) as (new_list' & Hr & HT').
  - split; [by rewrite length_insert|]. split.
    + rewrite (mjoin_update _ _ _ _ Hold). cbn [app]. by rewrite <- (mjoin_bucket _ _ _ Hold), Hp.
    + intros b c x Hc Hx. apply list_lookup_insert_Some in Hc as [(<- & <- & _)|[_ Hc]]; [|by apply (Hpl b c)].
      apply elem_of_cons in Hx as [->|Hx]; [by exists h|by apply (Hpl _ old)].
  - intros x Hx. apply Hh. by right.
  - exists new_list'. rewrite Hr. destruct HT' as (Hl' & Hp' & Hpl'). split; [|split; [done|split; [|done]]].
    + do 3 f_equal. rewrite !length_app. cbn [length]. lia.
    + rewrite Hp'. symmetry. apply Permutation_middle.
Qed.

Lemma rehash_spec k l new_list T : 2 <= k <= 31 ->
  placed (2 ^ k) new_list T -> (forall e, e ∈ mjoin l -> is_Some (hash_of e)) ->
  exists new_list', rehash (2 ^ k) l new_list (wrap 32 (Z.of_nat (length T))) =
      Some (new_list', wrap 32 (Z.of_nat (length (mjoin l ++ T)))) /\ placed (2 ^ k) new_list' (mjoin l ++ T).
Proof.
  intros Hk. revert new_list T. induction l as [|chain l IH]; intros new_list T HT Hh; [by exists new_list|].
  cbn [rehash]. destruct (rehash_chain_spec k chain new_list T Hk HT) as (nl & -> & HT1).
  { intros e He. apply Hh. change (mjoin (chain :: l)) with (chain ++ mjoin l). apply elem_of_app. by left. }
  cbn [mbind option_bind]. destruct (IH nl (chain ++ T) HT1) as (nl' & Hr & Hl' & Hp' & Hpl').
  { intros e He. apply Hh. change (mjoin (chain :: l)) with (chain ++ mjoin l). apply elem_of_app. by right. }
  exists nl'. rewrite Hr. change (mjoin (chain :: l)) with (chain ++ mjoin l). split; [|split; [done|split; [|done]]].
  - do 3 f_equal. rewrite !length_app. lia.
  - rewrite Hp', app_assoc, (Permutation_app_comm (mjoin l) chain). by rewrite <- app_assoc.
Qed.

(** [Resize] needs only the contents of the old buckets. *)
Lemma Resize_ok t T : Z.of_nat (length T) < 2 ^ 31 -> elems_ t = Z.of_nat (length T) -> mjoin (list_ t) ≡ₚ T ->
  (forall e, e ∈ T -> exists key hash, matches e key hash) ->
  (forall e e' key hash, e ∈ T -> e' ∈ T -> matches e key hash -> matches e' key hash -> e = e') ->
  NoDup T -> exists t', Resize t = Some t' /\ table_ok t' T.
Proof.
  intros Hlt He Hp Hk Hu Hn. unfold Resize. destruct (grow_spec (elems_ t) ltac:(lia)) as (k & Hk31 & ->).
  cbn [mbind option_bind].
  assert (placed (2 ^ k) (replicate (Z.to_nat (2 ^ k)) []) []) as H0.
  { split; [apply length_replicate|]. split.
    - rewrite join_nil_2; [done|]. by apply Forall_replicate.
    - intros b chain e [-> _]%lookup_replicate He'. by apply elem_of_nil in He'. }
  destruct (rehash_spec k (list_ t) _ [] Hk31 H0) as (nl & Hr & Hl & Hp' & Hpl).
  { intros e Hin. rewrite Hp in Hin. destruct (Hk e Hin) as (key & hash & Hh & _). by eexists. }
  change (wrap 32 (Z.of_nat (length []))) with 0 in Hr. rewrite Hr. cbn [mbind option_bind].
  rewrite app_nil_r in *.
  assert (length (mjoin (list_ t)) = length T) as -> by (by rewrite Hp).
  rewrite He, wrap_small, Z.eqb_refl by (unfold is_u; lia).
  eexists. split; [done|]. split; cbn [length_ elems_ list_]; try done.
  - by exists k.
  - by rewrite Hp'.
Qed.

Lemma HandleTable_ok : exists t, HandleTable = Some t /\ table_ok t [].
Proof.
  apply Resize_ok; cbn; try done; try lia.
  - by intros e He%elem_of_nil.
  - by intros e e' key hash He%elem_of_nil.
  - constructor.
Qed.

Lemma table_Insert_ok t T h key hash : table_ok t T -> h ∉ T -> matches h key hash ->
  Z.of_nat (length T) + 1 < 2 ^ 31 ->
  exists r t', table_Insert t h = Some (r, t') /\ found T key hash r /\
    match r with
    | Some e => exists T', T ≡ₚ e :: T' /\ table_ok t' (h :: T')
    | None => table_ok t' (h :: T)
    end.
Proof.
  intros Ht Hfresh [Hhash Hkey] Hlt. destruct (FindPointer_spec t T key hash Ht) as (chain & pos & Hf & Hc & _ & Hs & Hr).
  unfold table_Insert. rewrite Hkey, Hhash. cbn [mbind option_bind]. rewrite Hf. cbn [mbind option_bind fst snd].
  rewrite Hc. cbn [mbind option_bind]. rewrite Hs. set (b := bucket (length_ t) hash) in *.
  set (rest := mjoin (take b (list_ t) ++ drop (S b) (list_ t))).
  destruct (chain !! pos) as [e|] eqn:E.
  - destruct (cut_lookup chain pos e E) as [Hcut Hnew]. set (chain' := take pos chain ++ drop (S pos) chain) in *.
    assert (T ≡ₚ e :: chain' ++ rest) as HT.
    { rewrite <- (tk_perm _ _ Ht), (mjoin_bucket _ _ _ Hc), Hcut at 1. done. }
    eexists _, _. split; [done|]. split; [done|]. exists (chain' ++ rest). split; [done|]. set (T' := chain' ++ rest) in *.
    assert (forall x, x ∈ T' -> x ∈ T /\ x <> e) as Hsub.
    { intros x Hx. split; [rewrite HT; by right|]. intros ->. pose proof (tk_nodup _ _ Ht) as Hn. rewrite HT in Hn.
      by apply list.NoDup_cons in Hn as [Hn _]. }
    destruct Hr as [HeT He]. pose proof Ht as Ht0. destruct Ht as [Hl Hli Hel Hp Hpl Hk Hu Hn].
    split; cbn [length_ elems_ list_]; try done.
    + by rewrite length_insert.
    + rewrite Hel, HT. done.
    + rewrite (mjoin_update _ _ _ _ Hc), Hnew. done.
    + eapply (place_update t T b chain); [done|done|]. intros x Hx. rewrite Hnew in Hx.
      apply elem_of_cons in Hx as [->|Hx]; [by exists hash|]. apply (Hpl _ chain); [done|]. rewrite Hcut. by right.
    + intros x [->|Hx]%elem_of_cons; [by exists key, hash|]. by apply Hk, Hsub.
    + intros x y k' h' Hx Hy Hmx Hmy. rewrite elem_of_cons in Hx, Hy.
      assert (forall z, z ∈ T' -> matches z key hash -> False) as Hno.
      { intros z Hz Hmz. apply Hsub in Hz as [Hz Hze]. apply Hze. by apply (Hu z e key hash). }
      destruct Hx as [->|Hx], Hy as [->|Hy]; [done| | |by apply (Hu x y k' h'); [apply Hsub..| |]].
      * exfalso. apply (Hno y Hy). destruct Hmx as [M1 M2]. rewrite Hhash in M1. rewrite Hkey in M2. by simplify_eq.
      * exfalso. apply (Hno x Hx). destruct Hmy as [M1 M2]. rewrite Hhash in M1. rewrite Hkey in M2. by simplify_eq.
    + rewrite HT in Hn. apply list.NoDup_cons in Hn as [_ Hn]. apply list.NoDup_cons. split; [|done].
      intros Hin. apply Hfresh. by apply Hsub.
  - assert (forall x y k' h', x ∈ h :: T -> y ∈ h :: T -> matches x k' h' -> matches y k' h' -> x = y) as Huniq.
    { intros x y k' h' Hx Hy Hmx Hmy. rewrite elem_of_cons in Hx, Hy.
      destruct Hx as [->|Hx], Hy as [->|Hy]; [done| | |by apply (tk_unique _ _ Ht x y k' h')].
      - exfalso. apply (Hr y Hy). destruct Hmx as [M1 M2]. rewrite Hhash in M1. rewrite Hkey in M2. by simplify_eq.
      - exfalso. apply (Hr x Hx). destruct Hmy as [M1 M2]. rewrite Hhash in M1. rewrite Hkey in M2. by simplify_eq. }
    assert (forall x, x ∈ h :: T -> exists key hash, matches x key hash) as Hks.
    { intros x [->|Hx]%elem_of_cons; [by exists key, hash|]. by apply (tk_key _ _ Ht). }
    assert (NoDup (h :: T)) as Hnd by (apply list.NoDup_cons; split; [done|apply Ht]).
    assert (mjoin (<[b := chain ++ [h]]> (list_ t)) ≡ₚ h :: T) as Hperm.
    { rewrite (mjoin_update _ _ _ _ Hc), (Permutation_app_comm chain [h]). cbn [app].
      by rewrite <- (mjoin_bucket _ _ _ Hc), (tk_perm _ _ Ht). }
    assert (wrap 32 (elems_ t + 1) = Z.of_nat (length (h :: T))) as Hel.
    { rewrite (tk_elems _ _ Ht). cbn [length]. rewrite wrap_small by (unfold is_u; lia). lia. }
    cbn [length_ elems_]. destruct (length_ t <? wrap 32 (elems_ t + 1)).
    + destruct (Resize_ok (Table (length_ t) (wrap 32 (elems_ t + 1)) (<[b := chain ++ [h]]> (list_ t))) (h :: T))
        as (t' & -> & Ht'); cbn [length_ elems_ list_]; try done; [cbn [length]; lia|].
      cbn [mbind option_bind]. by eexists _, _.
    + eexists _, _. split; [done|]. split; [done|]. split; cbn [length_ elems_ list_]; try done.
      * apply Ht.
      * rewrite length_insert. apply Ht.
      * eapply (place_update t T b chain); [done|done|]. intros x Hx.
        rewrite elem_of_app, list_elem_of_singleton in Hx. destruct Hx as [Hx|Hx]; [by apply (tk_place _ _ Ht b chain)|].
        subst. by exists hash.
Qed.
End table.

(** The table only reads the handles it holds. *)
Lemma table_ok_ext hash_of key_of hash_of' key_of' t T :
  (forall e, e ∈ T -> hash_of' e = hash_of e /\ key_of' e = key_of e) ->
  table_ok hash_of key_of t T -> table_ok hash_of' key_of' t T.
Proof.
  intros Hext [Hl Hli He Hp Hpl Hk Hu Hn]. split; try done.
  - intros b chain e Hb Hin. assert (e ∈ T) as HeT by (rewrite <- Hp; by eapply elem_of_bucket).
    destruct (Hext e HeT) as [-> _]. by apply (Hpl b chain).
  - intros e HeT. destruct (Hk e HeT) as (key & hash & Hm). exists key, hash. unfold matches in *.
    by destruct (Hext e HeT) as [-> ->].
  - intros e e' key hash H1 H2. unfold matches. destruct (Hext e H1) as [-> ->], (Hext e' H2) as [-> ->].
    by apply Hu.
Qed.
