(* ===== verification/LruCache.v ===== *)
(** * The LRU cache of leveldb ([leveldb-library/util/cache.cc], classes
    [LRUCache] and [ShardedLRUCache])

    A cache is its capacity and usage, the heap of its [LRUHandle]s, the link
    fields of the heap and of the two dummy heads ([LruLinks.v]), its hash table
    ([HandleTable.v]) and the history of the calls of the entries' deleters.
    Every operation runs under the mutex and is one step.  [None] is a failed
    assertion or an access to memory that is not allocated. *)

From stdpp Require Import gmap.
From S2P Require Import Prelude.
From S2P Require Import LruLinks.
From S2P Require Import HandleTable.

(** ** State *)

(** The fields of a handle that are not links; the key is [key_data] up to
    [key_length]. *)
Record lru_handle := LRUHandle {
  value : Z; deleter : Z; charge : Z; in_cache : bool; refs : Z; hash : Z; key_data : list Z
}.

Record cache := Cache {
  capacity_ : Z;
  usage_ : Z;
  heap : gmap ptr lru_handle;
  lists : links;
  table_ : table;
  deleted : list (Z * list Z * Z)
}.

(** The dummy heads. *)
Definition lru_ : ptr := 1%positive.
Definition in_use_ : ptr := 2%positive.

Definition with_usage u s := Cache (capacity_ s) u (heap s) (lists s) (table_ s) (deleted s).
Definition with_heap h s := Cache (capacity_ s) (usage_ s) h (lists s) (table_ s) (deleted s).
Definition with_lists l s := Cache (capacity_ s) (usage_ s) (heap s) l (table_ s) (deleted s).
Definition with_table t s := Cache (capacity_ s) (usage_ s) (heap s) (lists s) t (deleted s).
Definition with_deleted d s := Cache (capacity_ s) (usage_ s) (heap s) (lists s) (table_ s) d.

Definition with_refs n h := LRUHandle (value h) (deleter h) (charge h) (in_cache h) n (hash h) (key_data h).
Definition with_in_cache b h := LRUHandle (value h) (deleter h) (charge h) b (refs h) (hash h) (key_data h).

Definition set_handle (e : ptr) (h : lru_handle) (s : cache) : cache := with_heap (<[e := h]> (heap s)) s.

Definition assert_ (b : bool) : option unit := if b then Some tt else None.

(** ** Handles *)

(** [LRUHandle::key], with its assertion [next != this]. *)
Definition key (s : cache) (e : ptr) : option (list Z) :=
  h ← heap s !! e; if decide (next (lists s) !! e = Some (Some e)) then None else Some (key_data h).

Definition hash_of (s : cache) (e : ptr) : option Z := hash <$> heap s !! e.

Definition unlink (e : ptr) (s : cache) : option cache := l ← LRU_Remove e (lists s); Some (with_lists l s).
Definition append (head e : ptr) (s : cache) : option cache := l ← LRU_Append head e (lists s); Some (with_lists l s).

Definition Ref (e : ptr) (s : cache) : option cache :=
  h ← heap s !! e;
  s ← (if (refs h =? 1) && in_cache h then s ← unlink e s; append in_use_ e s else Some s);
  Some (set_handle e (with_refs (wrap 32 (refs h + 1)) h) s).

(** [free(e)]. *)
Definition free (e : ptr) (s : cache) : cache :=
  with_heap (delete e (heap s)) (with_lists (Links (delete e (next (lists s))) (delete e (prev (lists s)))) s).

Definition Unref (e : ptr) (s : cache) : option cache :=
  h ← heap s !! e;
  _ ← assert_ (0 <? refs h);
  let h := with_refs (wrap 32 (refs h - 1)) h in
  let s := set_handle e h s in
  if refs h =? 0 then
    _ ← assert_ (negb (in_cache h));
    k ← key s e; Some (free e (with_deleted (deleted s ++ [(deleter h, k, value h)]) s))
  else if in_cache h && (refs h =? 1) then s ← unlink e s; append lru_ e s
  else Some s.

Definition FinishErase (e : option ptr) (s : cache) : option (bool * cache) :=
  match e with
  | None => Some (false, s)
  | Some e =>
      h ← heap s !! e;
      _ ← assert_ (in_cache h);
      s ← unlink e s;
      let s := set_handle e (with_in_cache false h) s in
      let s := with_usage (wrap 64 (usage_ s - charge h)) s in
      s ← Unref e s; Some (true, s)
  end.

(** ** Operations *)

Definition LRUCache_new : option cache :=
  t ← HandleTable (fun _ => None);
  let heads : fields := <[lru_ := Some lru_]> (<[in_use_ := Some in_use_]> ∅) in
  Some (Cache 0 0 ∅ (Links heads heads) t []).

Definition SetCapacity (capacity : Z) (s : cache) : cache :=
  Cache capacity (usage_ s) (heap s) (lists s) (table_ s) (deleted s).

Definition LRUCache_Lookup (k : list Z) (hash : Z) (s : cache) : option (option ptr * cache) :=
  e ← table_Lookup (hash_of s) (key s) (table_ s) k hash;
  match e with
  | None => Some (None, s)
  | Some e => s ← Ref e s; Some (Some e, s)
  end.

Definition LRUCache_Release (handle : ptr) (s : cache) : option cache := Unref handle s.

(** [FinishErase(table_.Remove(key, hash))]. *)
Definition remove_and_finish (k : list Z) (hash : Z) (s : cache) : option (bool * cache) :=
  '(e, t) ← table_Remove (hash_of s) (key s) (table_ s) k hash; FinishErase e (with_table t s).

(** One iteration of the loops over [lru_]: the oldest entry is erased. *)
Definition evict_oldest (s : cache) : option cache :=
  old ← read (next (lists s)) lru_;
  h ← heap s !! old;
  _ ← assert_ (refs h =? 1);
  k ← key s old;
  '(erased, s) ← remove_and_finish k (hash h) s;
  _ ← assert_ erased; Some s.

(** [while (usage_ > capacity_ && lru_.next != &lru_)]; every turn frees a
    handle of the heap, whose size is enough fuel. *)
Fixpoint evict_loop (fuel : nat) (s : cache) : option cache :=
  n ← read (next (lists s)) lru_;
  if (capacity_ s <? usage_ s) && bool_decide (n <> lru_) then
    match fuel with O => None | S fuel => s ← evict_oldest s; evict_loop fuel s end
  else Some s.

(** [e] is the address [malloc] returns. *)
Definition LRUCache_Insert (k : list Z) (hash value charge deleter : Z) (e : ptr) (s : cache) : option (ptr * cache) :=
  let h := LRUHandle value deleter charge false 1 hash k in
  let s := with_lists (Links (<[e := None]> (next (lists s))) (<[e := None]> (prev (lists s)))) s in
  s ← (if 0 <? capacity_ s then
         let s := set_handle e (with_in_cache true (with_refs (wrap 32 (refs h + 1)) h)) s in
         s ← append in_use_ e s;
         let s := with_usage (wrap 64 (usage_ s + charge)) s in
         '(old, t) ← table_Insert (hash_of s) (key s) (table_ s) e;
         '(_, s) ← FinishErase old (with_table t s); Some s
       else Some (set_handle e h s));
  s ← evict_loop (size (heap s)) s;
  Some (e, s).

Definition LRUCache_Erase (k : list Z) (hash : Z) (s : cache) : option cache :=
  '(_, s) ← remove_and_finish k hash s; Some s.

Fixpoint prune_loop (fuel : nat) (s : cache) : option cache :=
  n ← read (next (lists s)) lru_;
  if bool_decide (n <> lru_) then
    match fuel with O => None | S fuel => s ← evict_oldest s; prune_loop fuel s end
  else Some s.

Definition LRUCache_Prune (s : cache) : option cache := prune_loop (size (heap s)) s.

Definition LRUCache_TotalCharge (s : cache) : Z := usage_ s.

(** The destructor. *)
Fixpoint destroy_loop (fuel : nat) (e : ptr) (s : cache) : option cache :=
  if decide (e = lru_) then Some s else
  match fuel with
  | O => None
  | S fuel =>
      n ← read (next (lists s)) e;
      h ← heap s !! e;
      _ ← assert_ (in_cache h);
      let s := set_handle e (with_in_cache false h) s in
      _ ← assert_ (refs h =? 1);
      s ← Unref e s; destroy_loop fuel n s
  end.

Definition LRUCache_destroy (s : cache) : option cache :=
  u ← read (next (lists s)) in_use_;
  _ ← assert_ (bool_decide (u = in_use_));
  n ← read (next (lists s)) lru_; destroy_loop (size (heap s)) n s.

(** Three entries of charge one in a cache of two: the oldest released one is
    evicted and deleted, the pinned one stays. *)
Example evicts_oldest :
  (s ← LRUCache_new; let s := SetCapacity 2 s in
   '(a, s) ← LRUCache_Insert [1] 11 100 1 0 3 s;
   '(b, s) ← LRUCache_Insert [2] 22 200 1 0 4 s;
   s ← LRUCache_Release b s;
   '(c, s) ← LRUCache_Insert [3] 33 300 1 0 5 s;
   '(r, s) ← LRUCache_Lookup [1] 11 s;
   Some (deleted s, r, usage_ s)) = Some ([(0, [2], 200)], Some 3%positive, 2).
Proof. vm_compute. reflexivity. Qed.

(** ** Invariant

    [lru] and [inuse] are the contents of the two lists, oldest first, and [T]
    the handles of the hash table: between operations [T] is both lists
    together; in [FinishErase] the table has already lost one. *)

Definition charge_of (s : cache) (e : ptr) : Z := default 0 (charge <$> heap s !! e).
Definition total (s : cache) (l : list ptr) : Z := foldr (fun e n => charge_of s e + n) 0 l.

Record lists_ok (s : cache) (lru inuse : list ptr) : Prop := {
  lo_lru : ring (lists s) lru_ lru;
  lo_inuse : ring (lists s) in_use_ inuse;
  lo_nodup : NoDup (lru_ :: in_use_ :: lru ++ inuse);
  lo_lru_handle e : e ∈ lru -> exists h, heap s !! e = Some h /\ in_cache h = true /\ refs h = 1;
  lo_inuse_handle e : e ∈ inuse -> exists h, heap s !! e = Some h /\ in_cache h = true /\ 2 <= refs h < 2 ^ 32;
  lo_other e h : heap s !! e = Some h -> e ∉ lru ++ inuse ->
    in_cache h = false /\ 1 <= refs h < 2 ^ 32 /\ next (lists s) !! e <> Some (Some e);
  lo_heads : heap s !! lru_ = None /\ heap s !! in_use_ = None;
  lo_usage : usage_ s = wrap 64 (total s (lru ++ inuse));
}.

Record cache_ok (s : cache) (lru inuse : list ptr) : Prop := {
  co_lists : lists_ok s lru inuse;
  co_table : table_ok (hash_of s) (key s) (table_ s) (lru ++ inuse);
  co_size : Z.of_nat (length (lru ++ inuse)) < 2 ^ 31;
}.

(** A list without one element. *)
Definition without (e : ptr) (l : list ptr) : list ptr := filter (fun x => x <> e) l.

Lemma without_id e l : e ∉ l -> without e l = l.
Proof.
  unfold without. induction l as [|x l IH]; intros He; [done|]. apply not_elem_of_cons in He as [Hne He].
  rewrite filter_cons_True by congruence. by rewrite IH.
Qed.

Lemma without_app e l l' : without e (l ++ l') = without e l ++ without e l'.
Proof. apply list.filter_app. Qed.

Lemma without_cons e l : without e (e :: l) = without e l.
Proof. unfold without. rewrite filter_cons_False; [done|]. intros H. by apply H. Qed.

Lemma elem_of_without e x l : x ∈ without e l <-> x ∈ l /\ x <> e.
Proof. unfold without. rewrite list_elem_of_filter. tauto. Qed.

(** An element of a duplicate-free list, split off. *)
Lemma without_split e l : NoDup l -> e ∈ l ->
  exists l1 l2, l = l1 ++ e :: l2 /\ without e l = l1 ++ l2 /\ l ≡ₚ e :: without e l.
Proof.
  intros Hn He. apply list_elem_of_split in He as (l1 & l2 & ->). exists l1, l2. split; [done|].
  apply list.NoDup_app in Hn as (_ & H1 & Hn). apply list.NoDup_cons in Hn as [H2 _].
  rewrite without_app, without_cons, !without_id by (try done; intros Hin; apply (H1 e Hin); left).
  split; [done|]. symmetry. apply Permutation_middle.
Qed.

Lemma without_nodup e l : NoDup l -> NoDup (without e l).
Proof. apply list.NoDup_filter. Qed.

(** ** Sums of charges *)

Lemma total_perm s l l' : l ≡ₚ l' -> total s l = total s l'.
Proof. induction 1; simpl; lia. Qed.

Lemma total_app s l l' : total s (l ++ l') = total s l + total s l'.
Proof. induction l as [|e l IH]; simpl; lia. Qed.

Lemma total_ext s s' l : (forall e, e ∈ l -> charge_of s' e = charge_of s e) -> total s' l = total s l.
Proof.
  induction l as [|e l IH]; intros He; [done|]. cbn [total foldr]. fold (total s' l) (total s l).
  rewrite IH by (intros x Hx; apply He; by right). by rewrite He by left.
Qed.

(** ** Consequences of the invariant *)

Section facts.
Context (s : cache) (lru inuse : list ptr) (Hok : lists_ok s lru inuse).

Lemma lo_split : NoDup lru /\ NoDup inuse /\ lru_ ∉ inuse /\ in_use_ ∉ lru /\ lru_ ∉ lru /\ in_use_ ∉ inuse /\
  (forall e, e ∈ lru -> e ∉ inuse) /\ lru_ <> in_use_.
Proof using Hok.
  pose proof (lo_nodup _ _ _ Hok) as Hn. rewrite !list.NoDup_cons, list.NoDup_app, not_elem_of_cons, !not_elem_of_app in Hn.
  tauto.
Qed.

Lemma lo_handle e : e ∈ lru ++ inuse ->
  exists h, heap s !! e = Some h /\ in_cache h = true /\ 1 <= refs h < 2 ^ 32 /\ e <> lru_ /\ e <> in_use_.
Proof using Hok.
  intros He. destruct lo_split as (_ & _ & H1 & H2 & H3 & H4 & _).
  apply elem_of_app in He as [He|He].
  - destruct (lo_lru_handle _ _ _ Hok e He) as (h & -> & Hc & Hr). exists h.
    split_and!; try done; try lia; by intros ->.
  - destruct (lo_inuse_handle _ _ _ Hok e He) as (h & -> & Hc & Hr). exists h.
    split_and!; try done; try lia; by intros ->.
Qed.

Lemma lo_no_self e h : heap s !! e = Some h -> next (lists s) !! e <> Some (Some e).
Proof using Hok.
  intros He. destruct (decide (e ∈ lru ++ inuse)) as [Hin|Hin].
  - apply elem_of_app in Hin as [Hin|Hin];
      [by apply (ring_no_self _ _ _ _ (lo_lru _ _ _ Hok))|by apply (ring_no_self _ _ _ _ (lo_inuse _ _ _ Hok))].
  - by apply (lo_other _ _ _ Hok e h).
Qed.

Lemma key_lookup e h : heap s !! e = Some h -> key s e = Some (key_data h).
Proof using Hok.
  intros He. unfold key. rewrite He. cbn [mbind option_bind]. rewrite decide_False; [done|]. by eapply lo_no_self.
Qed.
End facts.

(** Two states whose handles have the same hash and key, and whose handles all
    pass the assertion of [key()], read the same. *)
Lemma reads_ext s s' t T lru inuse lru' inuse' : lists_ok s lru inuse -> lists_ok s' lru' inuse' ->
  (forall e, e ∈ T -> exists h h', heap s !! e = Some h /\ heap s' !! e = Some h' /\
     hash h' = hash h /\ key_data h' = key_data h) ->
  table_ok (hash_of s) (key s) t T -> table_ok (hash_of s') (key s') t T.
Proof.
  intros Hs Hs' Hext. apply table_ok_ext. intros e He. destruct (Hext e He) as (h & h' & E & E' & Eh & Ek).
  unfold hash_of. rewrite E, E', (key_lookup s lru inuse Hs e h E), (key_lookup s' lru' inuse' Hs' e h' E').
  cbn [fmap option_fmap option_map]. by rewrite Eh, Ek.
Qed.

(** ** Moving a handle between the lists *)

(** Unlinking from either list. *)
Lemma unlink_lru s lru inuse e : lists_ok s lru inuse -> e ∈ lru ->
  exists l, LRU_Remove e (lists s) = Some l /\ ring l lru_ (without e lru) /\ ring l in_use_ inuse /\
    same_outside (lists s) l (lru_ :: lru) /\ next l !! e = next (lists s) !! e.
Proof.
  intros Hok He. destruct (lo_split _ _ _ Hok) as (Hn & _ & H1 & H2 & H3 & H4 & Hdisj & Hheads).
  destruct (without_split e lru Hn He) as (l1 & l2 & E & Ew & _). pose proof (lo_lru _ _ _ Hok) as Hr. rewrite E in Hr.
  destruct (LRU_Remove_ring _ _ _ _ _ Hr) as (l & -> & Hr' & Hsame & Hself). exists l. rewrite Ew, E.
  split; [done|]. split; [done|]. split; [|done]. apply (ring_frame (lists s)); [apply Hok|].
  intros x Hx. apply (so_fields _ _ _ Hsame). rewrite <- E. rewrite elem_of_cons in Hx.
  rewrite not_elem_of_cons. destruct Hx as [->|Hx]; [done|]. split; [by intros ->|]. intros Hx'. by apply (Hdisj x).
Qed.

Lemma unlink_inuse s lru inuse e : lists_ok s lru inuse -> e ∈ inuse ->
  exists l, LRU_Remove e (lists s) = Some l /\ ring l lru_ lru /\ ring l in_use_ (without e inuse) /\
    same_outside (lists s) l (in_use_ :: inuse) /\ next l !! e = next (lists s) !! e.
Proof.
  intros Hok He. destruct (lo_split _ _ _ Hok) as (_ & Hn & H1 & H2 & H3 & H4 & Hdisj & Hheads).
  destruct (without_split e inuse Hn He) as (l1 & l2 & E & Ew & _). pose proof (lo_inuse _ _ _ Hok) as Hr. rewrite E in Hr.
  destruct (LRU_Remove_ring _ _ _ _ _ Hr) as (l & -> & Hr' & Hsame & Hself). exists l. rewrite Ew, E.
  split; [done|]. split; [|done]. apply (ring_frame (lists s)); [apply Hok|].
  intros x Hx. apply (so_fields _ _ _ Hsame). rewrite <- E. rewrite elem_of_cons in Hx.
  rewrite not_elem_of_cons. destruct Hx as [->|Hx]; [done|]. split; [by intros ->|]. by apply Hdisj.
Qed.

(** Membership facts about the lists with one handle moved. *)
Ltac members := repeat first [ rewrite elem_of_app in *
  | rewrite list_elem_of_singleton in * | rewrite elem_of_cons in * | rewrite elem_of_without in * ].

(** Moving a handle to the new end of the other list. *)
Lemma move_to_inuse s lru inuse e : lists_ok s lru inuse -> e ∈ lru ->
  exists l1 l, LRU_Remove e (lists s) = Some l1 /\ LRU_Append in_use_ e l1 = Some l /\
    ring l lru_ (without e lru) /\ ring l in_use_ (inuse ++ [e]) /\
    (forall x, x ∉ lru_ :: in_use_ :: lru ++ inuse -> next l !! x = next (lists s) !! x).
Proof.
  intros Hok He. destruct (lo_split _ _ _ Hok) as (_ & _ & H1 & H2 & H3 & H4 & Hdisj & Hheads).
  destruct (unlink_lru s lru inuse e Hok He) as (l1 & E1 & Hr1 & Hr2 & Hs1 & _).
  destruct (ring_alloc _ _ _ e (lo_lru _ _ _ Hok) He) as [Ha1 Ha2].
  destruct (LRU_Append_ring l1 in_use_ inuse e Hr2) as (l & E2 & Hr & Hs2).
  { rewrite not_elem_of_cons. split; [by intros ->|by apply Hdisj]. }
  { by apply (so_next _ _ _ Hs1). }
  { by apply (so_prev _ _ _ Hs1). }
  exists l1, l. split; [done|]. split; [done|]. split; [|split; [done|]].
  - apply (ring_frame l1); [done|]. intros x Hx. apply (so_fields _ _ _ Hs2). members.
    intros [-> | [-> | Hx']]; destruct Hx as [Hx|[Hx ?]]; subst; try done. by apply (Hdisj x).
  - intros x Hx. members. rewrite (proj1 (so_fields _ _ _ Hs2 x ltac:(members; intuition congruence))).
    apply (so_fields _ _ _ Hs1 x). members. tauto.
Qed.

Lemma move_to_lru s lru inuse e : lists_ok s lru inuse -> e ∈ inuse ->
  exists l1 l, LRU_Remove e (lists s) = Some l1 /\ LRU_Append lru_ e l1 = Some l /\
    ring l lru_ (lru ++ [e]) /\ ring l in_use_ (without e inuse) /\
    (forall x, x ∉ lru_ :: in_use_ :: lru ++ inuse -> next l !! x = next (lists s) !! x).
Proof.
  intros Hok He. destruct (lo_split _ _ _ Hok) as (_ & _ & H1 & H2 & H3 & H4 & Hdisj & Hheads).
  destruct (unlink_inuse s lru inuse e Hok He) as (l1 & E1 & Hr1 & Hr2 & Hs1 & _).
  destruct (ring_alloc _ _ _ e (lo_inuse _ _ _ Hok) He) as [Ha1 Ha2].
  destruct (LRU_Append_ring l1 lru_ lru e Hr1) as (l & E2 & Hr & Hs2).
  { rewrite not_elem_of_cons. split; [by intros ->|]. intros Hin. by apply (Hdisj e). }
  { by apply (so_next _ _ _ Hs1). }
  { by apply (so_prev _ _ _ Hs1). }
  exists l1, l. split; [done|]. split; [done|]. split; [done|]. split.
  - apply (ring_frame l1); [done|]. intros x Hx. apply (so_fields _ _ _ Hs2). members.
    intros [-> | [-> | Hx']]; destruct Hx as [Hx|[Hx ?]]; subst; try done. by apply (Hdisj x).
  - intros x Hx. members. rewrite (proj1 (so_fields _ _ _ Hs2 x ltac:(members; intuition congruence))).
    apply (so_fields _ _ _ Hs1 x). members. tauto.
Qed.

(** What an entry of a list, or a handle off both lists, looks like. *)
Definition class (lru inuse : list ptr) (e : ptr) (h : lru_handle) : Prop :=
  (e ∈ lru -> in_cache h = true /\ refs h = 1) /\
  (e ∈ inuse -> in_cache h = true /\ 2 <= refs h < 2 ^ 32) /\
  (e ∉ lru ++ inuse -> in_cache h = false /\ 1 <= refs h < 2 ^ 32).

Lemma lo_class s lru inuse e h : lists_ok s lru inuse -> heap s !! e = Some h -> class lru inuse e h.
Proof.
  intros Hok He. split; [|split].
  - intros Hin. destruct (lo_lru_handle _ _ _ Hok e Hin) as (h' & E & ?). by simplify_eq.
  - intros Hin. destruct (lo_inuse_handle _ _ _ Hok e Hin) as (h' & E & ?). by simplify_eq.
  - intros Hin. destruct (lo_other _ _ _ Hok e h He Hin) as (? & ? & _). done.
Qed.

(** The invariant after one handle [e] was rewritten and the links changed
    around it, the other handles keeping their lists. *)
Lemma lists_ok_rebuild s s' lru inuse lru' inuse' e h h' : lists_ok s lru inuse ->
  heap s !! e = Some h -> charge h' = charge h -> heap s' = <[e := h']> (heap s) -> usage_ s' = usage_ s ->
  ring (lists s') lru_ lru' -> ring (lists s') in_use_ inuse' ->
  (forall x, x ∉ lru_ :: in_use_ :: lru ++ inuse -> next (lists s') !! x = next (lists s) !! x) ->
  lru' ++ inuse' ≡ₚ lru ++ inuse ->
  (forall x, x <> e -> (x ∈ lru' <-> x ∈ lru) /\ (x ∈ inuse' <-> x ∈ inuse)) ->
  class lru' inuse' e h' -> lists_ok s' lru' inuse'.
Proof.
  intros Hok He Hch Hheap Hus Hr1 Hr2 Hnext Hperm Hmem (Hc1 & Hc2 & Hc3).
  assert (forall x, x <> e -> heap s' !! x = heap s !! x) as Hne by (intros x Hx; by rewrite Hheap, lookup_insert_ne).
  assert (heap s' !! e = Some h') as Heq by (by rewrite Hheap, lookup_insert_eq).
  destruct (lo_heads _ _ _ Hok) as [Hh1 Hh2].
  assert (e <> lru_ /\ e <> in_use_) as [He1 He2] by (split; intros ->; congruence).
  split; [done|done| | | | | |].
  - assert (lru_ :: in_use_ :: lru' ++ inuse' ≡ₚ lru_ :: in_use_ :: lru ++ inuse) as -> by (by rewrite Hperm).
    apply Hok.
  - intros x Hx. destruct (decide (x = e)) as [->|Hxe].
    + exists h'. split; [done|]. by apply Hc1.
    + rewrite (Hne x Hxe). apply (lo_lru_handle _ _ _ Hok). by apply (Hmem x Hxe).
  - intros x Hx. destruct (decide (x = e)) as [->|Hxe].
    + exists h'. split; [done|]. by apply Hc2.
    + rewrite (Hne x Hxe). apply (lo_inuse_handle _ _ _ Hok). by apply (Hmem x Hxe).
  - intros x hx Hx Hout. assert (x ∉ lru ++ inuse) as Hout' by (by rewrite <- Hperm).
    assert (x <> lru_ /\ x <> in_use_) as [Hx1 Hx2].
    { rewrite Hheap in Hx. split; intros ->; rewrite lookup_insert_ne in Hx by done; congruence. }
    rewrite Hnext by (members; tauto). destruct (decide (x = e)) as [->|Hxe].
    + assert (hx = h') as -> by congruence. destruct (Hc3 Hout) as [? ?]. split; [done|]. split; [done|].
      by eapply lo_no_self.
    + rewrite (Hne x Hxe) in Hx. by apply (lo_other _ _ _ Hok).
  - rewrite !Hne by congruence. done.
  - rewrite Hus, (lo_usage _ _ _ Hok). f_equal. rewrite <- (total_perm s _ _ Hperm). symmetry. apply total_ext.
    intros x Hx. unfold charge_of. destruct (decide (x = e)) as [->|Hxe]; [|by rewrite Hne].
    rewrite Heq, He. cbn. done.
Qed.

(** Rewriting a handle in place. *)
Lemma lists_ok_set s lru inuse e h h' : lists_ok s lru inuse -> heap s !! e = Some h -> charge h' = charge h ->
  class lru inuse e h' -> lists_ok (set_handle e h' s) lru inuse.
Proof. intros Hok He Hc Hcl. eapply (lists_ok_rebuild s); try done; by destruct Hok. Qed.

(** ** [Ref] and [Unref] *)

Lemma Ref_ok s lru inuse e h : lists_ok s lru inuse -> e ∈ lru ++ inuse -> heap s !! e = Some h ->
  refs h + 1 < 2 ^ 32 ->
  exists s' lru' inuse', Ref e s = Some s' /\ lists_ok s' lru' inuse' /\ lru' ++ inuse' ≡ₚ lru ++ inuse /\
    heap s' = <[e := with_refs (refs h + 1) h]> (heap s) /\ table_ s' = table_ s /\ deleted s' = deleted s /\
    capacity_ s' = capacity_ s /\ usage_ s' = usage_ s /\ lru' = without e lru /\ e ∈ inuse'.
Proof.
  intros Hok Hin He Hlt. pose proof (lo_class _ _ _ _ _ Hok He) as (Hc1 & Hc2 & Hc3).
  destruct (lo_split _ _ _ Hok) as (Hnl & Hni & H1 & H2 & H3 & H4 & Hdisj & Hheads).
  unfold Ref. rewrite He. cbn [mbind option_bind].
  destruct (decide (e ∈ lru)) as [Hl|Hl].
  - destruct (Hc1 Hl) as [Hcache Hrefs]. rewrite Hcache, Hrefs. cbn [Z.eqb andb].
    destruct (move_to_inuse s lru inuse e Hok Hl) as (l1 & l & E1 & E2 & Hr1 & Hr2 & Hnext).
    unfold unlink, append. rewrite E1. cbn [mbind option_bind lists with_lists]. rewrite E2. cbn [mbind option_bind].
    destruct (without_split e lru Hnl Hl) as (_ & _ & _ & _ & Hperm).
    assert (without e lru ++ inuse ++ [e] ≡ₚ lru ++ inuse) as Hp.
    { rewrite Hperm at 2. rewrite app_assoc, (Permutation_app_comm _ [e]). done. }
    eexists _, (without e lru), (inuse ++ [e]). split; [done|]. split; [|split_and!; try done; members; tauto].
    rewrite wrap_small by (unfold is_u; lia).
    eapply (lists_ok_rebuild s _ lru inuse _ _ e h (with_refs 2 h)); try done.
    + intros x Hx. clear - Hx. members. tauto.
    + split; [|split]; members; [tauto| |tauto]. intros _. cbn. split; [done|lia].
  - assert (e ∈ inuse) as Hi by (apply elem_of_app in Hin as [|]; done).
    destruct (Hc2 Hi) as [Hcache Hrefs]. rewrite (proj2 (Z.eqb_neq _ _)) by lia. cbn [andb mbind option_bind].
    rewrite without_id by done. rewrite wrap_small by (unfold is_u; lia).
    eexists _, lru, inuse. split; [done|]. split; [|split_and!; done].
    eapply lists_ok_set; [done|done|done|]. split; [|split]; members; [tauto| |tauto]. intros _. cbn. split; [done|lia].
Qed.

(** The payload of a handle: its deleter and what the deleter is called with. *)
Definition payload (h : lru_handle) : Z * list Z * Z := (deleter h, key_data h, value h).
Definition contents (s : cache) : list (Z * list Z * Z) := payload <$> (map_to_list (heap s)).*2.

Lemma contents_set (s s' : cache) e h h' : heap s !! e = Some h -> heap s' = <[e := h']> (heap s) ->
  payload h' = payload h -> contents s' ≡ₚ contents s.
Proof.
  intros He E Hp. unfold contents. rewrite E, <- insert_delete_eq.
  rewrite map_to_list_insert by apply lookup_delete_eq. rewrite <- (map_to_list_delete (heap s) e h He). cbn.
  by rewrite Hp.
Qed.

Lemma contents_delete (s s' : cache) e h : heap s !! e = Some h -> heap s' = delete e (heap s) ->
  contents s ≡ₚ payload h :: contents s'.
Proof. intros He E. unfold contents. rewrite E, <- (map_to_list_delete (heap s) e h He). done. Qed.

Lemma contents_insert (s s' : cache) e h : heap s !! e = None -> heap s' = <[e := h]> (heap s) ->
  contents s' ≡ₚ payload h :: contents s.
Proof. intros He E. unfold contents. rewrite E, map_to_list_insert by done. done. Qed.

(** Freeing a handle off both lists. *)
Lemma lists_ok_free s lru inuse e d : lists_ok s lru inuse -> e ∉ lru ++ inuse -> e <> lru_ -> e <> in_use_ ->
  lists_ok (free e (with_deleted d s)) lru inuse.
Proof.
  intros Hok He H1 H2. assert (e ∉ lru /\ e ∉ inuse) as [Hl Hi] by (members; tauto).
  assert (forall x, x <> e -> heap (free e (with_deleted d s)) !! x = heap s !! x) as Hne.
  { intros x Hx. cbn. by rewrite lookup_delete_ne. }
  assert (forall h l, h <> e -> e ∉ l -> ring (lists s) h l -> ring (lists (free e (with_deleted d s))) h l) as Hring.
  { intros h l Hh Hin Hr. apply (ring_frame (lists s)); [done|]. intros x Hx. cbn.
    rewrite !lookup_delete_ne; [done| |]; intros <-; apply elem_of_cons in Hx as [|]; by subst. }
  split.
  - apply Hring; [done..|]. apply Hok.
  - apply Hring; [done..|]. apply Hok.
  - apply Hok.
  - intros x Hx. rewrite Hne by (intros ->; done). by apply Hok.
  - intros x Hx. rewrite Hne by (intros ->; done). by apply Hok.
  - intros x h Hx Hout. cbn in Hx. apply lookup_delete_Some in Hx as [Hxe Hx]. cbn. rewrite lookup_delete_ne by done.
    by apply (lo_other _ _ _ Hok).
  - rewrite !Hne by done. apply Hok.
  - cbn. rewrite (lo_usage _ _ _ Hok). f_equal. symmetry. apply total_ext. intros x Hx. unfold charge_of.
    rewrite Hne by (intros ->; done). done.
Qed.

(** The handle after one reference was given back. *)
Definition released (h : lru_handle) : option lru_handle :=
  if negb (in_cache h) && (refs h =? 1) then None else Some (with_refs (refs h - 1) h).

(** [s'] is [s] but for the lists, the usage and the handle [e], which was [h]
    and is now [r], its deleter called when it was freed. *)
Record effect (s s' : cache) (e : ptr) (h : lru_handle) (r : option lru_handle) : Prop := {
  ef_table : table_ s' = table_ s;
  ef_capacity : capacity_ s' = capacity_ s;
  ef_heap : heap s' = match r with Some h' => <[e := h']> (heap s) | None => delete e (heap s) end;
  ef_deleted : deleted s' = deleted s ++ match r with Some _ => [] | None => [payload h] end;
}.

Lemma ef_other s s' e h r x : effect s s' e h r -> x <> e -> heap s' !! x = heap s !! x.
Proof.
  intros Hef Hx. rewrite (ef_heap _ _ _ _ _ Hef).
  destruct r; [by rewrite lookup_insert_ne by congruence|by rewrite lookup_delete_ne by congruence].
Qed.

Lemma ef_self s s' e h r : effect s s' e h r -> heap s' !! e = r.
Proof. intros Hef. rewrite (ef_heap _ _ _ _ _ Hef). destruct r; [apply lookup_insert_eq|apply lookup_delete_eq]. Qed.

Lemma refs_range s lru inuse e h : lists_ok s lru inuse -> heap s !! e = Some h -> 1 <= refs h < 2 ^ 32.
Proof.
  intros Hok He. destruct (lo_class _ _ _ _ _ Hok He) as (Hc1 & Hc2 & Hc3).
  destruct (decide (e ∈ lru)) as [Hl|Hl]; [by destruct (Hc1 Hl); lia|].
  destruct (decide (e ∈ inuse)) as [Hi|Hi]; [by destruct (Hc2 Hi); lia|]. apply Hc3. members. tauto.
Qed.

(** A handle the cache holds goes back to [lru_] with its last client. *)
Lemma Unref_cached s lru inuse e h : lists_ok s lru inuse -> heap s !! e = Some h -> in_cache h = true -> 1 < refs h ->
  exists s' lru' inuse', Unref e s = Some s' /\ lists_ok s' lru' inuse' /\ lru' ++ inuse' ≡ₚ lru ++ inuse /\
    effect s s' e h (released h) /\ lru' = if refs h =? 2 then lru ++ [e] else lru.
Proof.
  intros Hok He Hcache Href. pose proof (lo_class _ _ _ _ _ Hok He) as (Hc1 & Hc2 & Hc3).
  destruct (lo_split _ _ _ Hok) as (Hnl & Hni & _ & _ & _ & _ & Hdisj & _).
  pose proof (refs_range _ _ _ _ _ Hok He) as Hrange.
  assert (e ∈ inuse) as Hi.
  { destruct (decide (e ∈ lru)) as [Hl|Hl]; [destruct (Hc1 Hl); lia|].
    destruct (decide (e ∈ inuse)) as [Hi|Hi]; [done|]. destruct Hc3; [members; tauto|congruence]. }
  unfold Unref, released. rewrite He, Hcache. cbn [mbind option_bind negb andb].
  rewrite (proj2 (Z.ltb_lt 0 (refs h))) by lia.
  cbn [assert_ mbind option_bind refs with_refs in_cache]. rewrite wrap_small by (unfold is_u; lia).
  rewrite Hcache, (proj2 (Z.eqb_neq (refs h - 1) 0)) by lia. cbn [andb].
  assert (class lru inuse e (with_refs (refs h - 1) h) \/ refs h = 2) as Hclass.
  { destruct (Z.eq_dec (refs h) 2); [by right|left]. split; [|split]; cbn; [intros Hl; by destruct (Hdisj e Hl)| |members; tauto].
    intros _. split; [done|lia]. }
  destruct (Z.eqb_spec (refs h - 1) 1) as [E|E].
  - destruct (move_to_lru s lru inuse e Hok Hi) as (l1 & l & E1 & E2 & Hr1 & Hr2 & Hnext).
    unfold unlink, append. cbn [lists with_lists set_handle with_heap]. rewrite E1. cbn [mbind option_bind lists with_lists].
    rewrite E2. cbn [mbind option_bind]. rewrite (proj2 (Z.eqb_eq (refs h) 2)) by lia.
    destruct (without_split e inuse Hni Hi) as (_ & _ & _ & _ & Hperm).
    assert ((lru ++ [e]) ++ without e inuse ≡ₚ lru ++ inuse) as Hp
      by (rewrite <- app_assoc; by apply Permutation_app_head).
    eexists _, (lru ++ [e]), (without e inuse). split; [done|]. split; [|split; [done|split; [|done]]].
    + eapply (lists_ok_rebuild s _ lru inuse _ _ e h (with_refs (refs h - 1) h)); try done.
      * intros x Hx. clear - Hx. members. tauto.
      * split; [|split]; members; [|tauto|tauto]. intros _. cbn. split; [done|lia].
    + split; cbn; by rewrite ?app_nil_r.
  - rewrite (proj2 (Z.eqb_neq (refs h) 2)) by lia.
    eexists _, lru, inuse. split; [done|]. split; [|split; [done|split; [split; cbn; by rewrite ?app_nil_r|done]]].
    eapply lists_ok_set; [done..|]. destruct Hclass; [done|lia].
Qed.

(** A handle the cache gave up is freed with its last reference. *)
Lemma Unref_uncached s lru inuse e h : lists_ok s lru inuse -> heap s !! e = Some h -> in_cache h = false ->
  exists s', Unref e s = Some s' /\ lists_ok s' lru inuse /\ effect s s' e h (released h).
Proof.
  intros Hok He Hcache. pose proof (lo_class _ _ _ _ _ Hok He) as (Hc1 & Hc2 & Hc3).
  destruct (lo_heads _ _ _ Hok) as [Hh1 Hh2].
  assert (e <> lru_ /\ e <> in_use_) as [He1 He2] by (split; intros ->; congruence).
  pose proof (refs_range _ _ _ _ _ Hok He) as Hrange.
  assert (e ∉ lru ++ inuse) as Hout.
  { members. intros [Hl|Hi]; [destruct (Hc1 Hl)|destruct (Hc2 Hi)]; congruence. }
  unfold Unref, released. rewrite He, Hcache. cbn [mbind option_bind negb andb].
  rewrite (proj2 (Z.ltb_lt 0 (refs h))) by lia.
  cbn [assert_ mbind option_bind refs with_refs in_cache]. rewrite wrap_small by (unfold is_u; lia).
  destruct (Z.eqb_spec (refs h) 1) as [E|E].
  - rewrite (proj2 (Z.eqb_eq (refs h - 1) 0)) by lia. rewrite Hcache. cbn [negb assert_ mbind option_bind].
    set (s1 := set_handle e (with_refs (refs h - 1) h) s).
    assert (key s1 e = Some (key_data h)) as ->.
    { unfold key. cbn. rewrite lookup_insert_eq. cbn. rewrite decide_False; [done|]. by eapply lo_no_self. }
    cbn [mbind option_bind]. eexists. split; [done|].
    assert (free e (with_deleted (deleted s1 ++ [(deleter (with_refs (refs h - 1) h), key_data h, value (with_refs (refs h - 1) h))]) s1) =
      free e (with_deleted (deleted s ++ [payload h]) s)) as ->.
    { unfold free, s1. cbn. by rewrite delete_insert_eq. }
    split; [by apply lists_ok_free|]. by split.
  - rewrite (proj2 (Z.eqb_neq (refs h - 1) 0)) by lia. rewrite Hcache. cbn [andb].
    eexists. split; [done|]. split; [|split; cbn; by rewrite ?app_nil_r].
    eapply lists_ok_set; [done..|]. split; [|split]; cbn; [members; tauto|members; tauto|].
    intros _. split; [done|]. lia.
Qed.

Lemma Unref_ok s lru inuse e h : lists_ok s lru inuse -> heap s !! e = Some h -> Z.b2z (in_cache h) < refs h ->
  exists s' lru' inuse', Unref e s = Some s' /\ lists_ok s' lru' inuse' /\ lru' ++ inuse' ≡ₚ lru ++ inuse /\
    effect s s' e h (released h) /\ lru' = if in_cache h && (refs h =? 2) then lru ++ [e] else lru.
Proof.
  intros Hok He Href. destruct (in_cache h) eqn:Hcache.
  - by apply Unref_cached.
  - destruct (Unref_uncached _ _ _ _ _ Hok He Hcache) as (s' & ? & ? & ?). by exists s', lru, inuse.
Qed.

(** ** [FinishErase] *)

Lemma finished s s1 lru inuse e h lru1 inuse1 l : lists_ok s lru inuse -> heap s !! e = Some h -> in_cache h = true ->
  ring l lru_ lru1 -> ring l in_use_ inuse1 -> lru ++ inuse ≡ₚ e :: lru1 ++ inuse1 ->
  (forall x, x ∈ lru1 -> x ∈ lru) -> (forall x, x ∈ inuse1 -> x ∈ inuse) ->
  (forall x, x ∉ lru_ :: in_use_ :: lru ++ inuse -> next l !! x = next (lists s) !! x) ->
  next l !! e <> Some (Some e) ->
  s1 = with_usage (wrap 64 (usage_ s - charge h)) (set_handle e (with_in_cache false h) (with_lists l s)) ->
  lists_ok s1 lru1 inuse1.
Proof.
  intros Hok He Hcache Hr1 Hr2 Hperm Hsub1 Hsub2 Hnext Hself ->.
  pose proof (refs_range _ _ _ _ _ Hok He) as Hrange. destruct (lo_heads _ _ _ Hok) as [Hh1 Hh2].
  assert (NoDup (e :: lru1 ++ inuse1)) as Hnd.
  { rewrite <- Hperm. pose proof (lo_nodup _ _ _ Hok) as Hn. rewrite !list.NoDup_cons in Hn. tauto. }
  apply list.NoDup_cons in Hnd as [Hout Hnd]. assert (e ∉ lru1 /\ e ∉ inuse1) as [Ho1 Ho2] by (members; tauto).
  assert (e <> lru_ /\ e <> in_use_) as [He1 He2] by (split; intros ->; congruence).
  assert (forall x, x <> e -> <[e := with_in_cache false h]> (heap s) !! x = heap s !! x) as Hne
    by (intros x Hx; by rewrite lookup_insert_ne).
  split; cbn.
  - done.
  - done.
  - destruct (lo_split _ _ _ Hok) as (_ & _ & H1 & H2 & H3 & H4 & _ & Hd). rewrite !list.NoDup_cons. members.
    split_and!; [|intros [H|H]|done]; [intros [|[H|H]]| |]; naive_solver.
  - intros x Hx. rewrite Hne by (by intros ->). by apply Hok, Hsub1.
  - intros x Hx. rewrite Hne by (by intros ->). by apply Hok, Hsub2.
  - intros x hx Hx Hxo. destruct (decide (x = e)) as [->|Hxe].
    + rewrite lookup_insert_eq in Hx. injection Hx as <-. done.
    + rewrite Hne in Hx by done. assert (x ∉ lru ++ inuse) as Hxo' by (rewrite Hperm; members; tauto).
      assert (x <> lru_ /\ x <> in_use_) as [Hx1 Hx2] by (split; intros ->; congruence).
      rewrite Hnext by (members; tauto). by apply (lo_other _ _ _ Hok).
  - by rewrite !Hne by congruence.
  - assert (total s (e :: lru1 ++ inuse1) = charge h + total s (lru1 ++ inuse1)) as Hsum
      by (cbn; unfold charge_of; by rewrite He).
    rewrite (lo_usage _ _ _ Hok), (total_perm s _ _ Hperm), Hsum. unfold wrap. rewrite Zminus_mod_idemp_l. f_equal.
    transitivity (total s (lru1 ++ inuse1)); [lia|]. symmetry. apply total_ext. intros x Hx.
    unfold charge_of. cbn. rewrite Hne; [done|]. by intros ->.
Qed.

Lemma FinishErase_ok s lru inuse e h : lists_ok s lru inuse -> e ∈ lru ++ inuse -> heap s !! e = Some h ->
  exists s', FinishErase (Some e) s = Some (true, s') /\ lists_ok s' (without e lru) (without e inuse) /\
    effect s s' e h (released (with_in_cache false h)).
Proof.
  intros Hok Hin He. assert (in_cache h = true) as Hcache.
  { destruct (lo_handle _ _ _ Hok e Hin) as (h' & ? & ? & _). by simplify_eq. }
  destruct (lo_split _ _ _ Hok) as (Hnl & Hni & _ & _ & _ & _ & Hdisj & _).
  assert (exists l, LRU_Remove e (lists s) = Some l /\ ring l lru_ (without e lru) /\ ring l in_use_ (without e inuse) /\
    (forall x, x ∉ lru_ :: in_use_ :: lru ++ inuse -> next l !! x = next (lists s) !! x) /\
    next l !! e = next (lists s) !! e /\ lru ++ inuse ≡ₚ e :: without e lru ++ without e inuse)
    as (l & Hl & Hr1 & Hr2 & Hnext & Hself & Hperm).
  { apply elem_of_app in Hin as [Hin|Hin].
    - destruct (unlink_lru s lru inuse e Hok Hin) as (l & ? & ? & ? & Hs & ?). exists l.
      rewrite (without_id e inuse) by (by apply Hdisj). destruct (without_split e lru Hnl Hin) as (_ & _ & _ & _ & Hp).
      split_and!; try done; [|by rewrite Hp at 1]. intros x Hx. apply (so_fields _ _ _ Hs). members. tauto.
    - destruct (unlink_inuse s lru inuse e Hok Hin) as (l & ? & ? & ? & Hs & ?). exists l.
      rewrite (without_id e lru) by (intros Hx; by apply (Hdisj e)).
      destruct (without_split e inuse Hni Hin) as (_ & _ & _ & _ & Hp).
      split_and!; try done; [|rewrite Hp at 1; by rewrite Permutation_middle].
      intros x Hx. apply (so_fields _ _ _ Hs). members. tauto. }
  unfold FinishErase, unlink. rewrite He. cbn [mbind option_bind]. rewrite Hcache. cbn [assert_ mbind option_bind].
  rewrite Hl. cbn [mbind option_bind].
  set (s1 := with_usage (wrap 64 (usage_ s - charge h)) (set_handle e (with_in_cache false h) (with_lists l s))).
  assert (lists_ok s1 (without e lru) (without e inuse)) as Hok1.
  { eapply (finished s s1 lru inuse e h); try done; [by intros x [? _]%elem_of_without..|].
    rewrite Hself. by eapply lo_no_self. }
  destruct (Unref_uncached s1 _ _ e (with_in_cache false h) Hok1) as (s' & Hs' & Hok' & Hef);
    [apply lookup_insert_eq|done|].
  exists s'. change (with_usage _ _) with s1. rewrite Hs'. split; [done|]. split; [done|].
  destruct Hef as [E1 E2 E3 E4]. split; [done|done| |done]. rewrite E3. unfold s1. cbn.
  destruct (released _); [by rewrite insert_insert_eq|by rewrite delete_insert_eq].
Qed.
