(* ===== verification/LruOps.v ===== *)
(** * Correctness of the LRU cache ([leveldb-library/util/cache.cc])

    Every operation of [LruCache.v] from a state that satisfies its invariant,
    then a client that holds references, and the properties of its runs. *)

From stdpp Require Import gmap gmultiset.
From S2P Require Import Prelude.
From S2P Require Import LruLinks.
From S2P Require Import HandleTable.
From S2P Require Import LruCache.

(** ** Removing an entry *)

Lemma table_matches s lru inuse e k hs : lists_ok s lru inuse -> matches (hash_of s) (key s) e k hs ->
  exists h, heap s !! e = Some h /\ hash h = hs /\ key_data h = k.
Proof.
  intros Hok [Hh Hk]. unfold hash_of in Hh. destruct (heap s !! e) as [h|] eqn:E; [|done]. exists h.
  rewrite (key_lookup _ _ _ Hok e h E) in Hk. cbn in Hh. by simplify_eq.
Qed.

Lemma matches_handle s lru inuse e h : lists_ok s lru inuse -> heap s !! e = Some h ->
  matches (hash_of s) (key s) e (key_data h) (hash h).
Proof. intros Hok He. split; [unfold hash_of; by rewrite He|by eapply key_lookup]. Qed.

Lemma same_reads_off s s' e h r (T : list ptr) : effect s s' e h r -> e ∉ T ->
  (forall x, x ∈ T -> is_Some (heap s !! x)) ->
  forall x, x ∈ T -> exists h h', heap s !! x = Some h /\ heap s' !! x = Some h' /\
    hash h' = hash h /\ key_data h' = key_data h.
Proof.
  intros Hef He HT x Hx. destruct (HT x Hx) as [hx E]. exists hx, hx.
  rewrite (ef_other _ _ _ _ _ x Hef) by (by intros ->). done.
Qed.

Lemma listed s lru inuse x : lists_ok s lru inuse -> x ∈ lru ++ inuse -> is_Some (heap s !! x).
Proof. intros Hok Hx. destruct (lo_handle _ _ _ Hok x Hx) as (h & -> & _). by exists h. Qed.

Lemma with_table_ok t s lru inuse : lists_ok s lru inuse -> lists_ok (with_table t s) lru inuse.
Proof. intros []. by split. Qed.

(** The invariant once an entry [o] taken out of the table is finished. *)
Lemma cache_ok_finish s1 s' lru inuse o ho r T' : lists_ok s1 lru inuse -> o ∈ lru ++ inuse ->
  effect s1 s' o ho r -> lists_ok s' (without o lru) (without o inuse) ->
  lru ++ inuse ≡ₚ o :: T' -> table_ok (hash_of s1) (key s1) (table_ s1) T' -> Z.of_nat (length T') < 2 ^ 31 ->
  cache_ok s' (without o lru) (without o inuse).
Proof.
  intros Hok Hin Hef Hok' Hperm Ht Hsize. pose proof (lo_nodup _ _ _ Hok) as Hnd. rewrite !list.NoDup_cons in Hnd.
  destruct Hnd as (_ & _ & Hnd). assert (T' ≡ₚ without o lru ++ without o inuse) as HT'.
  { rewrite <- without_app. destruct (without_split o _ Hnd Hin) as (_ & _ & _ & _ & Hp).
    rewrite Hp in Hperm. symmetry. by apply (inj (cons o)). }
  assert (o ∉ T') as HoT by (rewrite HT', <- without_app, elem_of_without; tauto).
  split; [done| |by rewrite <- HT']. rewrite (ef_table _ _ _ _ _ Hef). eapply table_ok_perm; [exact HT'|].
  eapply (reads_ext s1 s'); [done|done| |done]. eapply same_reads_off; [done|done|].
  intros x Hx. eapply listed; [exact Hok|]. rewrite Hperm. by right.
Qed.

(** [e] is the entry of [T] with the key, or there is none. *)
Lemma remove_and_finish_ok s lru inuse k hs : cache_ok s lru inuse ->
  exists r s', remove_and_finish k hs s = Some (bool_decide (is_Some r), s') /\
    found (hash_of s) (key s) (lru ++ inuse) k hs r /\
    match r with
    | None => s' = s
    | Some e => exists h, heap s !! e = Some h /\ cache_ok s' (without e lru) (without e inuse) /\
        exists t, effect (with_table t s) s' e h (released (with_in_cache false h))
    end.
Proof.
  intros [Hok Ht Hsize]. unfold remove_and_finish.
  destruct (table_Remove_ok _ _ _ _ k hs Ht ltac:(lia)) as (r & t' & -> & Hf & Hr). cbn [mbind option_bind].
  destruct r as [e|].
  - destruct Hf as [Hin Hm]. destruct (table_matches _ _ _ _ _ _ Hok Hm) as (h & He & Hhash & Hk).
    destruct Hr as (T' & Hperm & Ht'). apply (with_table_ok t') in Hok as Hok1.
    destruct (FinishErase_ok _ _ _ e h Hok1 Hin He) as (s' & -> & Hok' & Hef).
    exists (Some e), s'. split; [by rewrite bool_decide_true by by exists e|]. split; [done|]. exists h. split; [done|].
    split; [|by exists t']. eapply (cache_ok_finish (with_table t' s)); [done..|].
    rewrite Hperm in Hsize. simpl in Hsize. lia.
  - exists None, s. subst t'. replace (with_table (table_ s) s) with s by (by destruct s). done.
Qed.

(** ** A client and the references it holds *)

Record client := Client { shard : cache; held : gmultiset ptr }.

Inductive client_op :=
  | OInsert (k : list Z) (hs value charge deleter : Z) (e : ptr)
  | OLookup (k : list Z) (hs : Z)
  | ORelease (e : ptr)
  | OErase (k : list Z) (hs : Z)
  | OPrune.

Definition exec (op : client_op) (c : client) : option client :=
  let s := shard c in
  match op with
  | OInsert k hs v ch d e => '(e, s) ← LRUCache_Insert k hs v ch d e s; Some (Client s ({[+ e +]} ⊎ held c))
  | OLookup k hs =>
      '(r, s) ← LRUCache_Lookup k hs s;
      Some (Client s (match r with Some e => {[+ e +]} ⊎ held c | None => held c end))
  | ORelease e => s ← LRUCache_Release e s; Some (Client s (held c ∖ {[+ e +]}))
  | OErase k hs => s ← LRUCache_Erase k hs s; Some (Client s (held c))
  | OPrune => s ← LRUCache_Prune s; Some (Client s (held c))
  end.

(** What the environment guarantees: [malloc] returns fresh memory, no more
    than 2^31 entries fit in memory, a client releases only what it holds, and
    it holds fewer than 2^32 references. *)
Definition allowed (op : client_op) (c : client) : Prop :=
  match op with
  | OInsert _ _ _ _ _ e => heap (shard c) !! e = None /\ e <> lru_ /\ e <> in_use_ /\ elems_ (table_ (shard c)) + 1 < 2 ^ 31
  | OLookup _ _ => Z.of_nat (size (held c)) + 2 < 2 ^ 32
  | ORelease e => e ∈ held c
  | OErase _ _ | OPrune => True
  end.

(** A reference count is the cache's own reference and those of the client. *)
Definition accounted (s : cache) (hd : gmultiset ptr) : Prop :=
  forall e, match heap s !! e with
            | Some h => refs h = Z.b2z (in_cache h) + Z.of_nat (multiplicity e hd)
            | None => multiplicity e hd = 0%nat
            end.

Record client_ok (c : client) (lru inuse : list ptr) : Prop := {
  cl_cache : cache_ok (shard c) lru inuse;
  cl_held : accounted (shard c) (held c);
}.

Lemma accounted_effect s s' e h r hd hd' : accounted s hd -> effect s s' e h r ->
  (forall x, x <> e -> multiplicity x hd' = multiplicity x hd) ->
  match r with
  | Some h' => refs h' = Z.b2z (in_cache h') + Z.of_nat (multiplicity e hd')
  | None => multiplicity e hd' = 0%nat
  end -> accounted s' hd'.
Proof.
  intros Hacc Hef Hx Hr x. destruct (decide (x = e)) as [->|Hne].
  - by rewrite (ef_self _ _ _ _ _ Hef).
  - rewrite (ef_other _ _ _ _ _ x Hef), Hx by done. apply Hacc.
Qed.

Lemma accounted_at s hd e h : accounted s hd -> heap s !! e = Some h ->
  refs h = Z.b2z (in_cache h) + Z.of_nat (multiplicity e hd).
Proof. intros Hacc He. specialize (Hacc e). by rewrite He in Hacc. Qed.

Lemma held_live s hd e : accounted s hd -> e ∈ hd -> is_Some (heap s !! e).
Proof.
  intros Hacc He. specialize (Hacc e). destruct (heap s !! e); [by eexists|].
  rewrite elem_of_multiplicity in He. lia.
Qed.

(** Finishing the erasure of an entry. *)
Lemma accounted_finish s s' e h hd : accounted s hd -> heap s !! e = Some h -> in_cache h = true ->
  effect s s' e h (released (with_in_cache false h)) -> accounted s' hd.
Proof.
  intros Hacc He Hc Hef. pose proof (accounted_at _ _ _ _ Hacc He) as Hr. rewrite Hc in Hr. cbn [Z.b2z] in Hr.
  eapply accounted_effect; [done|done|done|]. unfold released. cbn.
  destruct (Z.eqb_spec (refs h) 1); cbn; [lia|]. lia.
Qed.

Lemma accounted_unref s s' e h hd : accounted s hd -> heap s !! e = Some h -> e ∈ hd ->
  effect s s' e h (released h) -> accounted s' (hd ∖ {[+ e +]}).
Proof.
  intros Hacc He Hin Hef. pose proof (accounted_at _ _ _ _ Hacc He) as Hr.
  rewrite elem_of_multiplicity in Hin. eapply accounted_effect; [done|done| |].
  - intros x Hx. rewrite multiplicity_difference, multiplicity_singleton_ne by done. lia.
  - rewrite multiplicity_difference, multiplicity_singleton_eq. unfold released.
    destruct (in_cache h) eqn:E; rewrite ?E in Hr; cbn [negb andb Z.b2z] in *; [cbn; rewrite E; cbn; lia|].
    destruct (Z.eqb_spec (refs h) 1); cbn; [lia|]. rewrite E. cbn. lia.
Qed.

Lemma multiplicity_size (e : ptr) (hd : gmultiset ptr) : (multiplicity e hd <= size hd)%nat.
Proof.
  destruct (decide (multiplicity e hd = 0%nat)) as [E|E]; [lia|].
  assert (multiplicity e hd *: {[+ e +]} ⊆ hd) as Hsub.
  { intros x. rewrite multiplicity_scalar_mul. destruct (decide (x = e)) as [->|Hx];
      [rewrite multiplicity_singleton_eq|rewrite multiplicity_singleton_ne by done]; lia. }
  apply gmultiset_subseteq_size in Hsub. rewrite gmultiset_size_scalar_mul, gmultiset_size_singleton in Hsub. lia.
Qed.

(** ** Operations that keep the table *)

Lemma cache_ok_effect s s' lru inuse lru' inuse' e h r : cache_ok s lru inuse -> lists_ok s' lru' inuse' ->
  lru' ++ inuse' ≡ₚ lru ++ inuse -> heap s !! e = Some h -> effect s s' e h r ->
  match r with Some h' => hash h' = hash h /\ key_data h' = key_data h | None => e ∉ lru ++ inuse end ->
  cache_ok s' lru' inuse'.
Proof.
  intros [Hok Ht Hsize] Hok' Hperm He Hef Hr. split; [done| |by rewrite Hperm].
  rewrite (ef_table _ _ _ _ _ Hef). eapply table_ok_perm; [symmetry; exact Hperm|].
  eapply (reads_ext s s'); [done|done| |done]. intros x Hx. destruct (listed s lru inuse x Hok Hx) as [hx E].
  destruct (decide (x = e)) as [->|Hne].
  - rewrite (ef_self _ _ _ _ _ Hef). destruct r as [h'|]; [|done]. exists h, h'. tauto.
  - exists hx, hx. by rewrite (ef_other _ _ _ _ _ x Hef).
Qed.

Lemma Lookup_ok s hd lru inuse k hs : client_ok (Client s hd) lru inuse -> Z.of_nat (size hd) + 2 < 2 ^ 32 ->
  exists r s' lru' inuse', LRUCache_Lookup k hs s = Some (r, s') /\
    found (hash_of s) (key s) (lru ++ inuse) k hs r /\ lru' ++ inuse' ≡ₚ lru ++ inuse /\
    match r with
    | None => s' = s /\ lru' = lru
    | Some e => lru' = without e lru /\ exists h, heap s !! e = Some h /\ effect s s' e h (Some (with_refs (refs h + 1) h))
    end /\
    client_ok (Client s' (match r with Some e => {[+ e +]} ⊎ hd | None => hd end)) lru' inuse'.
Proof.
  intros [Hc Hacc] Hsize. pose proof (co_lists _ _ _ Hc) as Hok. cbn in Hc, Hacc, Hok. unfold LRUCache_Lookup.
  destruct (table_Lookup_ok _ _ _ _ k hs (co_table _ _ _ Hc)) as (r & -> & Hf). cbn [mbind option_bind].
  destruct r as [e|]; [|by exists None, s, lru, inuse]. pose proof Hf as [Hin Hm].
  destruct (table_matches _ _ _ _ _ _ Hok Hm) as (h & He & _).
  pose proof (accounted_at _ _ _ _ Hacc He) as Hr. pose proof (multiplicity_size e hd) as Hms.
  destruct (Ref_ok s lru inuse e h Hok Hin He) as (s' & lru' & inuse' & -> & Hok' & Hperm & Hheap & Ht & Hd & Hcap & Hus & -> & _).
  { destruct (in_cache h); cbn [Z.b2z] in Hr; lia. }
  assert (effect s s' e h (Some (with_refs (refs h + 1) h))) as Hef by (split; [done..|by rewrite app_nil_r]).
  exists (Some e), s', (without e lru), inuse'. split; [done|]. split; [done|]. split; [done|].
  split; [split; [done|by exists h]|]. split; cbn [shard held]; [by eapply cache_ok_effect|].
  eapply accounted_effect; [done|done| |].
  - intros x Hx. rewrite multiplicity_disj_union, multiplicity_singleton_ne by done. lia.
  - rewrite multiplicity_disj_union, multiplicity_singleton_eq. cbn. lia.
Qed.

Lemma Release_ok s hd lru inuse e : client_ok (Client s hd) lru inuse -> e ∈ hd ->
  exists h s' lru' inuse', heap s !! e = Some h /\ LRUCache_Release e s = Some s' /\
    effect s s' e h (released h) /\ lru' ++ inuse' ≡ₚ lru ++ inuse /\
    lru' = (if in_cache h && (refs h =? 2) then lru ++ [e] else lru) /\
    client_ok (Client s' (hd ∖ {[+ e +]})) lru' inuse'.
Proof.
  intros [Hc Hacc] Hin. pose proof (co_lists _ _ _ Hc) as Hok. cbn in Hc, Hacc, Hok.
  destruct (held_live _ _ _ Hacc Hin) as [h He]. pose proof (accounted_at _ _ _ _ Hacc He) as Hr.
  pose proof Hin as Hm. rewrite elem_of_multiplicity in Hm.
  destruct (Unref_ok s lru inuse e h Hok He ltac:(lia)) as (s' & lru' & inuse' & E & Hok' & Hperm & Hef & Hlru).
  assert (released h = None -> e ∉ lru ++ inuse) as Hfree.
  { unfold released. intros Hn Hl. destruct (lo_handle _ _ _ Hok e Hl) as (? & ? & Hcache & _). simplify_eq.
    by rewrite Hcache in Hn. }
  exists h, s', lru', inuse'. split; [done|]. split; [done|]. split; [done|]. split; [done|].
  split; [done|]. split; cbn [shard held]; [|by eapply accounted_unref].
  eapply cache_ok_effect; [done..|]. destruct (released h) eqn:Hrel; [|by apply Hfree].
  unfold released in Hrel. destruct (negb _ && _); by simplify_eq.
Qed.

(** ** Eviction *)

Lemma read_oldest s lru inuse : lists_ok s lru inuse ->
  read (next (lists s)) lru_ = Some (match lru with [] => lru_ | o :: _ => o end).
Proof.
  intros Hok. rewrite (ring_first _ _ _ (lo_lru _ _ _ Hok)). by destruct lru.
Qed.

Lemma evict_oldest_ok s hd o lru inuse : client_ok (Client s hd) (o :: lru) inuse ->
  exists h s', evict_oldest s = Some s' /\ heap s !! o = Some h /\ client_ok (Client s' hd) lru inuse /\
    capacity_ s' = capacity_ s /\ heap s' = delete o (heap s) /\ deleted s' = deleted s ++ [payload h].
Proof.
  intros [Hc Hacc]. cbn in Hc, Hacc. pose proof (co_lists _ _ _ Hc) as Hok.
  destruct (lo_lru_handle _ _ _ Hok o ltac:(left)) as (h & Ho & Hcache & Hrefs).
  unfold evict_oldest. rewrite (read_oldest _ _ _ Hok). cbn [mbind option_bind]. rewrite Ho. cbn [mbind option_bind].
  rewrite Hrefs, (key_lookup _ _ _ Hok o h Ho). cbn [Z.eqb assert_ mbind option_bind].
  destruct (remove_and_finish_ok s _ _ (key_data h) (hash h) Hc) as (r & s' & -> & Hf & Hr).
  pose proof (matches_handle _ _ _ _ _ Hok Ho) as Hm.
  assert (r = Some o) as ->.
  { destruct r as [e|]; cbn in Hf.
    - destruct Hf as [Hin He]. f_equal. by eapply (tk_unique _ _ _ _ (co_table _ _ _ Hc)); [done|left|..].
    - destruct (Hf o ltac:(left) Hm). }
  rewrite bool_decide_true by by eexists. cbn [mbind option_bind assert_].
  destruct Hr as (h' & Ho' & Hc' & t & Hef). simplify_eq.
  destruct (lo_split _ _ _ Hok) as (Hnl & _ & _ & _ & _ & _ & Hdisj & _). apply list.NoDup_cons in Hnl as [Hno _].
  rewrite without_cons, !without_id in Hc' by (done || (apply Hdisj; left)).
  exists h, s'. split; [done|]. split; [done|]. split.
  { split; cbn; [done|]. by eapply (accounted_finish (with_table t s)). }
  destruct Hef as [_ E1 E2 E3]. unfold released in E2, E3. cbn in E2, E3. rewrite Hrefs in E2, E3. done.
Qed.

Definition payloads (s : cache) (l : list ptr) : list (Z * list Z * Z) := omap (fun e => payload <$> heap s !! e) l.

(** [l] was evicted, oldest first: the handles are freed and their deleters
    called in this order. *)
Record evicted (s s' : cache) (l : list ptr) : Prop := {
  ev_capacity : capacity_ s' = capacity_ s;
  ev_heap : heap s' = foldr delete (heap s) l;
  ev_deleted : deleted s' = deleted s ++ payloads s l;
}.

Lemma evicted_nil s : evicted s s [].
Proof. split; [done..|by rewrite app_nil_r]. Qed.

Lemma foldr_delete_comm (m : gmap ptr lru_handle) o l : foldr delete (delete o m) l = delete o (foldr delete m l).
Proof. induction l as [|x l IH]; [done|]. cbn. by rewrite IH, delete_delete. Qed.

Lemma payloads_ext s s' l : (forall x, x ∈ l -> heap s' !! x = heap s !! x) -> payloads s' l = payloads s l.
Proof.
  induction l as [|x l IH]; intros Hl; [done|]. cbn. rewrite Hl by left.
  fold (payloads s' l) (payloads s l). rewrite IH; [done|]. intros y Hy. apply Hl. by right.
Qed.

Lemma evicted_cons s s1 s' o h l : heap s !! o = Some h -> o ∉ l -> capacity_ s1 = capacity_ s ->
  heap s1 = delete o (heap s) -> deleted s1 = deleted s ++ [payload h] -> evicted s1 s' l -> evicted s s' (o :: l).
Proof.
  intros Ho Hl Hc Hh Hd [E1 E2 E3]. split; [by rewrite E1|by rewrite E2, Hh, foldr_delete_comm|].
  rewrite E3, Hd, <- app_assoc. f_equal. cbn. rewrite Ho. cbn. f_equal.
  apply payloads_ext. intros x Hx. rewrite Hh, lookup_delete_ne; [done|]. by intros ->.
Qed.

(** What the cache still charges after a prefix of [lru] is gone. *)
Definition usage_without (s : cache) (l : list ptr) : Z := wrap 64 (usage_ s - total s l).

Lemma usage_without_cons s s1 o lru inuse l : lists_ok s (o :: lru) inuse -> lists_ok s1 lru inuse ->
  heap s1 = delete o (heap s) -> (forall x, x ∈ l -> x ∈ lru) -> usage_without s (o :: l) = usage_without s1 l.
Proof.
  intros Hok Hok1 Hheap Hl. unfold usage_without. rewrite (lo_usage _ _ _ Hok), (lo_usage _ _ _ Hok1).
  destruct (lo_split _ _ _ Hok) as (Hnl & _ & _ & _ & _ & _ & Hdisj & _). apply list.NoDup_cons in Hnl as [Hno _].
  assert (forall l', o ∉ l' -> total s1 l' = total s l') as Htot.
  { intros l' Hl'. apply total_ext. intros x Hx. unfold charge_of. rewrite Hheap, lookup_delete_ne; [done|]. by intros ->. }
  rewrite !Htot; [|by intros H%Hl|rewrite not_elem_of_app; split; [done|apply Hdisj; left]].
  unfold wrap. rewrite !Zminus_mod_idemp_l. f_equal. cbn [app total foldr].
  fold (total s (lru ++ inuse)) (total s l). lia.
Qed.

Lemma evict_loop_ok fuel s hd lru inuse : client_ok (Client s hd) lru inuse -> (length lru <= fuel)%nat ->
  exists l l' s', lru = l ++ l' /\ evict_loop fuel s = Some s' /\ client_ok (Client s' hd) l' inuse /\ evicted s s' l /\
    (usage_ s' <= capacity_ s \/ l' = []) /\
    (forall l1 l2, l = l1 ++ l2 -> l2 <> [] -> capacity_ s < usage_without s l1).
Proof.
  revert s lru. induction fuel as [|fuel IH]; intros s lru Hcl Hf; pose proof (co_lists _ _ _ (cl_cache _ _ _ Hcl)) as Hok;
    cbn in Hok; cbn [evict_loop]; rewrite (read_oldest _ _ _ Hok); cbn [mbind option_bind]; destruct lru as [|o lru].
  1, 3: rewrite bool_decide_false, andb_false_r by (intros H; by apply H); exists [], [], s;
    split_and!; try done; [apply evicted_nil|by right|]; intros l1 l2 Hl Hl2; symmetry in Hl; apply app_eq_nil in Hl; tauto.
  { simpl in Hf. lia. }
  rewrite bool_decide_true, andb_true_r by (intros ->; destruct (lo_split _ _ _ Hok) as (_ & _ & _ & _ & H & _); apply H; left).
  destruct (Z.ltb_spec (capacity_ s) (usage_ s)) as [Hgt|Hle].
  - destruct (evict_oldest_ok s hd o lru inuse Hcl) as (h & s1 & -> & Ho & Hcl1 & Hcap & Hheap & Hdel). cbn [mbind option_bind].
    destruct (IH s1 lru Hcl1 ltac:(simpl in Hf; lia)) as (l & l' & s' & -> & E & Hcl' & Hev & Hend & Hmin).
    rewrite E. exists (o :: l), l', s'. rewrite Hcap in *.
    destruct (lo_split _ _ _ Hok) as (Hnl & _ & _ & _ & _ & _ & Hdisj & _). apply list.NoDup_cons in Hnl as [Hno _].
    split_and!; try done.
    + eapply evicted_cons; [done| |done..]. intros H. apply Hno, elem_of_app. by left.
    + intros l1 l2 Hl Hl2. destruct l1 as [|o' l1]; [|cbn in Hl; injection Hl as <- ->].
      * unfold usage_without. cbn. by rewrite Z.sub_0_r, (lo_usage _ _ _ Hok), wrap_wrap, <- (lo_usage _ _ _ Hok).
      * rewrite (usage_without_cons s s1 o ((l1 ++ l2) ++ l') inuse l1); [by eapply Hmin|done|apply (cl_cache _ _ _ Hcl1)|done|].
        intros x Hx. members. tauto.
  - exists [], (o :: lru), s. split_and!; try done; [apply evicted_nil|by left|].
    intros l1 l2 Hl Hl2; symmetry in Hl; apply app_eq_nil in Hl; tauto.
Qed.

Lemma prune_loop_ok fuel s hd lru inuse : client_ok (Client s hd) lru inuse -> (length lru <= fuel)%nat ->
  exists s', prune_loop fuel s = Some s' /\ client_ok (Client s' hd) [] inuse /\ evicted s s' lru.
Proof.
  revert s lru. induction fuel as [|fuel IH]; intros s lru Hcl Hf; pose proof (co_lists _ _ _ (cl_cache _ _ _ Hcl)) as Hok;
    cbn in Hok; cbn [prune_loop]; rewrite (read_oldest _ _ _ Hok); cbn [mbind option_bind]; destruct lru as [|o lru].
  1, 3: rewrite bool_decide_false by (intros H; by apply H); exists s; split_and!; try done; apply evicted_nil.
  { simpl in Hf. lia. }
  rewrite bool_decide_true by (intros ->; destruct (lo_split _ _ _ Hok) as (_ & _ & _ & _ & H & _); apply H; left).
  destruct (evict_oldest_ok s hd o lru inuse Hcl) as (h & s1 & -> & Ho & Hcl1 & Hcap & Hheap & Hdel). cbn [mbind option_bind].
  destruct (IH s1 lru Hcl1 ltac:(simpl in Hf; lia)) as (s' & -> & Hcl' & Hev). exists s'. split; [done|]. split; [done|].
  destruct (lo_split _ _ _ Hok) as (Hnl & _). apply list.NoDup_cons in Hnl as [Hno _]. by eapply evicted_cons.
Qed.

Lemma lru_size s lru inuse : lists_ok s lru inuse -> (length (lru ++ inuse) <= size (heap s))%nat.
Proof.
  intros Hok. pose proof (lo_nodup _ _ _ Hok) as Hn. rewrite !list.NoDup_cons in Hn. destruct Hn as (_ & _ & Hn).
  rewrite <- size_dom, <- (size_list_to_set (C := gset ptr)) by done. apply subseteq_size. intros x Hx.
  rewrite elem_of_list_to_set in Hx. apply elem_of_dom. by eapply listed.
Qed.

(** ** The destructor *)

Lemma destroy_loop_ok l fuel s : points (next (lists s)) l (tail (l ++ [lru_])) -> NoDup (lru_ :: l) ->
  (forall e, e ∈ l -> exists h, heap s !! e = Some h /\ in_cache h = true /\ refs h = 1) -> (length l <= fuel)%nat ->
  exists s', destroy_loop fuel (default lru_ (head l)) s = Some s' /\
    heap s' = foldr delete (heap s) l /\ deleted s' = deleted s ++ payloads s l.
Proof.
  revert fuel s. induction l as [|e l IH]; intros fuel s Hp Hn Hl Hf.
  - exists s. destruct fuel; cbn; by rewrite decide_True, app_nil_r.
  - change (default lru_ (list.head (e :: l))) with e. destruct fuel as [|fuel]; [simpl in Hf; lia|]. cbn [destroy_loop].
    rewrite !list.NoDup_cons, not_elem_of_cons in Hn. destruct Hn as ((Hne & Hnl) & Hel & Hn).
    rewrite (decide_False (P := e = lru_)) by congruence. destruct (Hl e) as (h & He & Hc & Hr); [left|].
    assert (next (lists s) !! e = Some (Some (default lru_ (head l))) /\ points (next (lists s)) l (tail (l ++ [lru_]))) as [Hnx Hp'].
    { cbn [app list.tail] in Hp. destruct l as [|e' l]; cbn [app] in Hp; apply points_cons in Hp as [? ?]; by split. }
    unfold read. rewrite Hnx. cbn [mjoin option_join mbind option_bind]. rewrite He. cbn [mbind option_bind].
    rewrite Hc, Hr. cbn [assert_ mbind option_bind Z.eqb Pos.eqb].
    unfold Unref. cbn [heap set_handle with_heap]. rewrite lookup_insert_eq. cbn [mbind option_bind refs with_in_cache].
    rewrite Hr. cbn [Z.ltb Z.compare assert_ mbind option_bind]. change (wrap 32 (1 - 1)) with 0.
    cbn [refs with_refs Z.eqb in_cache with_in_cache negb assert_ mbind option_bind].
    unfold key. cbn [heap set_handle with_heap]. rewrite lookup_insert_eq. cbn [mbind option_bind lists].
    rewrite decide_False by (cbn; rewrite Hnx; intros [= H]; destruct l; cbn in H; [congruence|subst; apply Hel; left]).
    cbn [mbind option_bind].
    match goal with |- context [destroy_loop fuel _ ?s1] => set (s2 := s1) end.
    assert (heap s2 = delete e (heap s)) as Hh2 by (cbn; by rewrite !delete_insert_eq).
    assert (forall x, x ∈ l -> heap s2 !! x = heap s !! x) as Hsame.
    { intros x Hx. rewrite Hh2, lookup_delete_ne; [done|]. by intros ->. }
    destruct (IH fuel s2) as (s' & -> & E1 & E2).
    + apply (points_frame (next (lists s))); [done|]. intros x Hx. cbn. rewrite lookup_delete_ne; [done|]. by intros ->.
    + by apply list.NoDup_cons.
    + intros x Hx. rewrite Hsame by done. apply Hl. by right.
    + simpl in Hf. lia.
    + exists s'. split; [done|]. split; [by rewrite E1, Hh2, foldr_delete_comm|].
      rewrite E2, (payloads_ext s s2 l Hsame). cbn. rewrite He, <- app_assoc. done.
Qed.

(** ** Insertion *)

(** The links of a fresh handle. *)
Definition malloc (e : ptr) (s : cache) : cache :=
  with_lists (Links (<[e := None]> (next (lists s))) (<[e := None]> (prev (lists s)))) s.

Lemma fresh_ring s e hp l : e <> hp -> e ∉ l -> ring (lists s) hp l -> ring (lists (malloc e s)) hp l.
Proof.
  intros Hne Hl Hr. apply (ring_frame (lists s)); [done|]. intros x Hx. cbn.
  rewrite !lookup_insert_ne; [done|..]; intros <-; apply elem_of_cons in Hx as [|]; by subst.
Qed.

Lemma fresh_charges_from s e h' l n : (forall x, x ∈ l -> x <> e) ->
  foldr (fun x n => default 0 (charge <$> <[e := h']> (heap s) !! x) + n) n l = total s l + n.
Proof.
  induction l as [|x l IH]; intros Hl; [done|]. cbn [foldr total]. fold (total s l).
  rewrite IH by (intros y Hy; apply Hl; by right). rewrite lookup_insert_ne; [unfold charge_of; lia|].
  intros <-. by apply (Hl e); [left|].
Qed.

Section insert.
Context (s : cache) (hd : gmultiset ptr) (lru inuse : list ptr) (e : ptr) (h : lru_handle).
Hypothesis Hcl : client_ok (Client s hd) lru inuse.
Hypothesis Hfresh : heap s !! e = None.
Hypothesis He1 : e <> lru_.
Hypothesis He2 : e <> in_use_.

Let Hok : lists_ok s lru inuse := co_lists _ _ _ (cl_cache _ _ _ Hcl).

Lemma fresh_out : e ∉ lru ++ inuse.
Proof using Hcl Hfresh. intros Hin. destruct (lo_handle _ _ _ Hok e Hin) as (hx & E & _). by rewrite E in Hfresh. Qed.

Lemma fresh_not_held : multiplicity e hd = 0%nat.
Proof using Hcl Hfresh. pose proof (cl_held _ _ _ Hcl e) as H. cbn in H. by rewrite Hfresh in H. Qed.

Lemma accounted_insert s1 : heap s1 = <[e := h]> (heap s) -> refs h = Z.b2z (in_cache h) + 1 ->
  accounted s1 ({[+ e +]} ⊎ hd).
Proof using Hcl Hfresh.
  clear He1 He2. intros Hheap Hr x. rewrite Hheap, multiplicity_disj_union. destruct (decide (x = e)) as [->|Hxe].
  - rewrite lookup_insert_eq, multiplicity_singleton_eq, fresh_not_held. lia.
  - rewrite lookup_insert_ne, multiplicity_singleton_ne by congruence. apply (cl_held _ _ _ Hcl).
Qed.

(** An entry that is not cached: the client holds the only reference. *)
Lemma insert_uncached : in_cache h = false -> refs h = 1 ->
  client_ok (Client (set_handle e h (malloc e s)) ({[+ e +]} ⊎ hd)) lru inuse.
Proof using Hcl Hfresh He1 He2.
  intros Hc Hr. pose proof fresh_out as Hout. assert (e ∉ lru /\ e ∉ inuse) as [Hl Hi] by (members; tauto).
  assert (forall x, x <> e -> <[e := h]> (heap s) !! x = heap s !! x) as Hne by (intros x Hx; by rewrite lookup_insert_ne).
  assert (lists_ok (set_handle e h (malloc e s)) lru inuse) as Hok'.
  { split; cbn -[malloc].
    - apply fresh_ring; [done..|apply Hok].
    - apply fresh_ring; [done..|apply Hok].
    - apply Hok.
    - intros x Hx. rewrite Hne by (by intros ->). by apply Hok.
    - intros x Hx. rewrite Hne by (by intros ->). by apply Hok.
    - intros x hx Hx Hxo. destruct (decide (x = e)) as [->|Hxe].
      + rewrite lookup_insert_eq in Hx. injection Hx as <-. split_and!; [done|lia|lia|]. cbn. by rewrite lookup_insert_eq.
      + rewrite Hne in Hx by done. cbn. rewrite lookup_insert_ne by done. by apply (lo_other _ _ _ Hok).
    - rewrite !Hne by congruence. apply Hok.
    - cbn. rewrite (lo_usage _ _ _ Hok). f_equal. unfold total at 2, charge_of. cbn. rewrite fresh_charges_from; [lia|].
      by intros x Hx ->. }
  split.
  - split; [done| |apply (co_size _ _ _ (cl_cache _ _ _ Hcl))]. cbn [shard table_].
    eapply (reads_ext s); [exact Hok|exact Hok'| |apply (co_table _ _ _ (cl_cache _ _ _ Hcl))].
    intros x Hx. destruct (listed s lru inuse x Hok Hx) as [hx E]. exists hx, hx. cbn. rewrite Hne by (by intros ->). done.
  - apply accounted_insert; [done|]. by rewrite Hr, Hc.
Qed.

(** An entry linked into [in_use_], not yet in the table. *)
Lemma link_entry : in_cache h = true -> refs h = 2 ->
  exists s1, append in_use_ e (set_handle e h (malloc e s)) = Some s1 /\
    (forall u, u = wrap 64 (usage_ s + charge h) -> lists_ok (with_usage u s1) lru (inuse ++ [e])) /\
    heap s1 = <[e := h]> (heap s) /\ table_ s1 = table_ s /\ deleted s1 = deleted s /\
    capacity_ s1 = capacity_ s /\ usage_ s1 = usage_ s.
Proof using Hcl Hfresh He1 He2.
  intros Hc Hr. pose proof fresh_out as Hout. assert (e ∉ lru /\ e ∉ inuse) as [Hl Hi] by (members; tauto).
  assert (forall x, x <> e -> <[e := h]> (heap s) !! x = heap s !! x) as Hne by (intros x Hx; by rewrite lookup_insert_ne).
  destruct (lo_split _ _ _ Hok) as (Hnl & Hni & H1 & H2 & H3 & H4 & Hdisj & Hheads).
  destruct (LRU_Append_ring (lists (malloc e s)) in_use_ inuse e) as (l & E & Hring & Hsame).
  { apply fresh_ring; [done..|apply Hok]. }
  { members. tauto. }
  { cbn. rewrite lookup_insert_eq. by eexists. }
  { cbn. rewrite lookup_insert_eq. by eexists. }
  exists (with_lists l (set_handle e h (malloc e s))). split.
  { unfold append. change (lists (set_handle e h (malloc e s))) with (lists (malloc e s)). by rewrite E. }
  split; [|by split_and!]. intros u ->. split; cbn.
  - apply (ring_frame (lists (malloc e s))); [apply fresh_ring; [done..|apply Hok]|].
    intros x Hx. apply (so_fields _ _ _ Hsame). members. intros [->|[->|Hx']]; destruct Hx as [Hx|Hx]; try congruence.
    by apply (Hdisj x).
  - done.
  - rewrite app_assoc, <- Permutation_cons_append.
    change (lru_ :: in_use_ :: e :: lru ++ inuse) with ([lru_; in_use_] ++ e :: lru ++ inuse).
    rewrite <- Permutation_middle. apply list.NoDup_cons. split; [members; tauto|]. apply Hok.
  - intros x Hx. rewrite Hne by (by intros ->). by apply Hok.
  - intros x Hx. destruct (decide (x = e)) as [->|Hxe].
    + exists h. rewrite lookup_insert_eq, Hr. split_and!; [done|done|lia|lia].
    + rewrite Hne by done. apply Hok. members. tauto.
  - intros x hx Hx Hxo. assert (x <> e) as Hxe by (intros ->; apply Hxo; members; tauto).
    rewrite Hne in Hx by done. assert (x <> lru_ /\ x <> in_use_) as [Hx1 Hx2].
    { destruct (lo_heads _ _ _ Hok). split; intros ->; congruence. }
    rewrite (proj1 (so_fields _ _ _ Hsame x ltac:(members; tauto))). cbn. rewrite lookup_insert_ne by done.
    apply (lo_other _ _ _ Hok); [done|]. members. tauto.
  - rewrite !Hne by congruence. apply Hok.
  - rewrite (lo_usage _ _ _ Hok), wrap_add_l. f_equal. unfold total at 2, charge_of. cbn.
    rewrite app_assoc, foldr_app. cbn. rewrite lookup_insert_eq. cbn.
    rewrite (fresh_charges_from s e h (lru ++ inuse)); [lia|]. by intros x Hx ->.
Qed.

(** The insertion before the eviction loop. *)
Lemma insert_cached s2 : in_cache h = true -> lists_ok s2 lru (inuse ++ [e]) -> refs h = 2 ->
  heap s2 = <[e := h]> (heap s) -> table_ s2 = table_ s -> elems_ (table_ s) + 1 < 2 ^ 31 ->
  exists old t b s', table_Insert (hash_of s2) (key s2) (table_ s2) e = Some (old, t) /\
    FinishErase old (with_table t s2) = Some (b, s') /\
    found (hash_of s) (key s) (lru ++ inuse) (key_data h) (hash h) old /\
    client_ok (Client s' ({[+ e +]} ⊎ hd)) (match old with Some o => without o lru | None => lru end)
      (match old with Some o => without o (inuse ++ [e]) | None => inuse ++ [e] end) /\
    capacity_ s' = capacity_ s2 /\
    match old with
    | Some o => exists ho, heap s !! o = Some ho /\ effect (with_table t s2) s' o ho (released (with_in_cache false ho))
    | None => s' = with_table t s2
    end.
Proof using Hcl Hfresh.
  clear He1 He2. intros Hc Hok2 Hr Hheap Htab Hlt. pose proof fresh_out as Hout. pose proof (cl_cache _ _ _ Hcl) as [_ Ht Hsize].
  cbn [shard] in Ht, Hsize. rewrite (tk_elems _ _ _ _ Ht) in Hlt.
  assert (forall x, x ∈ lru ++ inuse -> heap s2 !! x = heap s !! x) as Hsame.
  { intros x Hx. rewrite Hheap, lookup_insert_ne; [done|]. by intros <-. }
  assert (table_ok (hash_of s2) (key s2) (table_ s) (lru ++ inuse)) as Ht2.
  { eapply (reads_ext s); [done|done| |done]. intros x Hx. destruct (listed s lru inuse x Hok Hx) as [hx E].
    exists hx, hx. by rewrite (Hsame x Hx). }
  assert (matches (hash_of s2) (key s2) e (key_data h) (hash h)) as Hm
    by (eapply matches_handle; [done|rewrite Hheap; apply lookup_insert_eq]).
  rewrite Htab. destruct (table_Insert_ok _ _ _ _ e _ _ Ht2 Hout Hm Hlt) as (old & t & -> & Hf & Hold).
  assert (found (hash_of s) (key s) (lru ++ inuse) (key_data h) (hash h) old) as Hf'.
  { destruct old as [o|]; cbn in *.
    - destruct Hf as [Hin Ho]. split; [done|]. destruct (table_matches _ _ _ _ _ _ Hok2 Ho) as (ho & E & <- & <-).
      eapply matches_handle; [done|]. by rewrite <- Hsame.
    - intros x Hx Hxm. apply (Hf x Hx). destruct (table_matches _ _ _ _ _ _ Hok Hxm) as (hx & E & <- & <-).
      eapply matches_handle; [done|]. by rewrite Hsame. }
  pose proof (accounted_insert s2 Hheap ltac:(rewrite Hr, Hc; done)) as Hacc.
  apply (with_table_ok t) in Hok2 as Hok3. destruct old as [o|].
  - destruct Hf as [Hin _]. destruct (listed s lru inuse o Hok Hin) as [ho Ho].
    destruct Hold as (T' & Hperm & Ht'). assert (heap (with_table t s2) !! o = Some ho) as Ho2 by (cbn; by rewrite Hsame).
    destruct (lo_handle _ _ _ Hok o Hin) as (ho' & Ho' & Hoc & _). simplify_eq.
    destruct (FinishErase_ok _ lru (inuse ++ [e]) o ho Hok3 ltac:(members; tauto) Ho2) as (s' & E & Hok' & Hef).
    exists (Some o), t, true, s'. split; [done|]. split; [done|]. split; [done|].
    split; [|split; [by rewrite (ef_capacity _ _ _ _ _ Hef)|by exists ho]].
    split; cbn; [|by eapply (accounted_finish (with_table t s2))].
    eapply (cache_ok_finish (with_table t s2)); [done|members; tauto|done|done| |exact Ht'|].
    + rewrite app_assoc, <- Permutation_cons_append, Hperm. apply Permutation_swap.
    + rewrite Hperm in Hlt. simpl in *. lia.
  - exists None, t, false, (with_table t s2). split; [done|]. split; [done|]. split; [done|]. split; [|done].
    split; [|done]. split; [done| |]; cbn.
    + rewrite app_assoc. eapply table_ok_perm; [apply Permutation_cons_append|]. done.
    + rewrite app_assoc, length_app. cbn. lia.
Qed.
End insert.

(** ** What an operation keeps *)

Definition same_entry (h h' : lru_handle) : Prop := payload h' = payload h /\ hash h' = hash h /\ charge h' = charge h.

(** [s'] comes after [s] and [new] was inserted meanwhile: the handles still
    allocated kept their entry, and every payload is either still in the heap or
    was given to its deleter, once. *)
Record progress (s s' : cache) (new : list (Z * list Z * Z)) : Prop := {
  pg_keep x h h' : heap s !! x = Some h -> heap s' !! x = Some h' -> same_entry h h';
  pg_contents : deleted s' ++ contents s' ≡ₚ new ++ deleted s ++ contents s;
}.

Lemma progress_refl s : progress s s [].
Proof. split; [|done]. intros x h h' E E'. by simplify_eq. Qed.

Lemma effect_progress s s' e h r : effect s s' e h r -> heap s !! e = Some h ->
  (forall h', r = Some h' -> same_entry h h') -> progress s s' [].
Proof.
  intros Hef He Hr. split.
  - intros x hx hx' E E'. destruct (decide (x = e)) as [->|Hne].
    + rewrite (ef_self _ _ _ _ _ Hef) in E'. simplify_eq. by apply Hr.
    + rewrite (ef_other _ _ _ _ _ x Hef) in E' by done. by simplify_eq.
  - cbn [app]. rewrite (ef_deleted _ _ _ _ _ Hef), <- app_assoc. f_equiv. pose proof (ef_heap _ _ _ _ _ Hef) as Hh.
    destruct r as [h'|]; cbn [app].
    + eapply contents_set; [done..|]. by apply Hr.
    + symmetry. by apply (contents_delete s s' e h).
Qed.

Lemma released_same h h' b : released (with_in_cache b h) = Some h' -> same_entry h h'.
Proof. unfold released. destruct (negb _ && _); [done|]. by intros [= <-]. Qed.

Lemma released_same' h h' : released h = Some h' -> same_entry h h'.
Proof. unfold released. destruct (negb _ && _); [done|]. by intros [= <-]. Qed.

Lemma foldr_delete_notin (m : gmap ptr lru_handle) l x : x ∉ l -> foldr delete m l !! x = m !! x.
Proof.
  induction l as [|y l IH]; intros Hx; [done|]. apply not_elem_of_cons in Hx as [Hne Hx]. cbn.
  by rewrite lookup_delete_ne, IH.
Qed.

Lemma foldr_delete_in (m : gmap ptr lru_handle) l x : x ∈ l -> foldr delete m l !! x = None.
Proof.
  induction l as [|y l IH]; [by intros ?%elem_of_nil|]. intros Hx. cbn. destruct (decide (x = y)) as [->|Hne].
  - apply lookup_delete_eq.
  - rewrite lookup_delete_ne by done. apply IH. by apply elem_of_cons in Hx as [|].
Qed.

Lemma payloads_contents l s s' : NoDup l -> (forall x, x ∈ l -> is_Some (heap s !! x)) ->
  heap s' = foldr delete (heap s) l -> contents s ≡ₚ payloads s l ++ contents s'.
Proof.
  revert s. induction l as [|x l IH]; intros s Hn Hl Hh; [unfold contents; by rewrite Hh|].
  apply list.NoDup_cons in Hn as [Hx Hn]. destruct (Hl x) as [h E]; [left|].
  set (s1 := with_heap (delete x (heap s)) s).
  assert (forall y, y ∈ l -> heap s1 !! y = heap s !! y) as Hsame
    by (intros y Hy; cbn; rewrite lookup_delete_ne; [done|by intros ->]).
  rewrite (contents_delete s s1 x h E) by done.
  rewrite (IH s1); [|done|intros y Hy; rewrite Hsame by done; apply Hl; by right|by rewrite Hh; cbn; rewrite foldr_delete_comm].
  cbn. rewrite E. cbn. f_equiv. fold (payloads s l). by rewrite (payloads_ext s s1 l Hsame).
Qed.

Lemma evicted_progress s s' l : evicted s s' l -> NoDup l -> (forall x, x ∈ l -> is_Some (heap s !! x)) ->
  progress s s' [].
Proof.
  intros [_ Hh Hd] Hn Hl. split.
  - intros x h h' E E'. rewrite Hh in E'. destruct (decide (x ∈ l)); [by rewrite foldr_delete_in in E'|].
    rewrite foldr_delete_notin in E' by done. by simplify_eq.
  - cbn [app]. rewrite Hd, (payloads_contents l s s' Hn Hl Hh), app_assoc. done.
Qed.

Lemma progress_trans s s1 s' new : progress s s1 new -> progress s1 s' [] ->
  (forall x h', heap s' !! x = Some h' -> is_Some (heap s1 !! x)) -> progress s s' new.
Proof.
  intros [K1 P1] [K2 P2] Hsub. split; [|by rewrite P2].
  intros x h h' E E'. destruct (Hsub x h' E') as [h1 E1]. destruct (K1 x h h1 E E1) as (? & ? & ?).
  destruct (K2 x h1 h' E1 E') as (? & ? & ?). split_and!; congruence.
Qed.

(** The entry [LRUCache_Insert] builds. *)
Definition new_entry (s : cache) (k : list Z) (hs value charge deleter : Z) : lru_handle :=
  LRUHandle value deleter charge (0 <? capacity_ s) (if 0 <? capacity_ s then 2 else 1) hs k.

(** The state [s1] between the two halves of an insertion: the entry is in, the
    entry it replaces is out, nothing is evicted yet. *)
Record inserted (s s1 : cache) (lru lru1 : list ptr) (e : ptr) (h : lru_handle) (old : option ptr) : Prop := {
  in_old : if 0 <? capacity_ s then lru1 = match old with Some o => without o lru | None => lru end
           else old = None /\ lru1 = lru;
  in_capacity : capacity_ s1 = capacity_ s;
  in_entry : heap s1 !! e = Some h;
  in_other x : x <> e -> old <> Some x -> heap s1 !! x = heap s !! x;
  in_progress : progress s s1 [payload h];
  in_deleted : deleted s1 = deleted s ++
    match old with
    | Some o => match heap s1 !! o with None => payloads s [o] | Some _ => [] end
    | None => []
    end;
}.

(** The insertion up to the eviction loop. *)
Definition insert_front (k : list Z) (hs value charge deleter : Z) (e : ptr) (s : cache) : option cache :=
  if 0 <? capacity_ s then
    s1 ← append in_use_ e (set_handle e (LRUHandle value deleter charge true 2 hs k) (malloc e s));
    let s2 := with_usage (wrap 64 (usage_ s1 + charge)) s1 in
    '(old, t) ← table_Insert (hash_of s2) (key s2) (table_ s2) e;
    '(_, s) ← FinishErase old (with_table t s2); Some s
  else Some (set_handle e (LRUHandle value deleter charge false 1 hs k) (malloc e s)).

Lemma Insert_front k hs v ch d e s : LRUCache_Insert k hs v ch d e s =
  s ← insert_front k hs v ch d e s; s ← evict_loop (size (heap s)) s; Some (e, s).
Proof. reflexivity. Qed.

(** What the front of an insertion leaves in the lists. *)
Definition front_lists (s s1 : cache) (lru inuse lru1 inuse1 : list ptr) (k : list Z) (hs : Z) (e : ptr) (old : option ptr) : Prop :=
  (0 < capacity_ s -> found (hash_of s) (key s) (lru ++ inuse) k hs old /\
     forall x, x ∈ lru1 ++ inuse1 <-> x = e \/ x ∈ lru ++ inuse /\ old <> Some x) /\
  (capacity_ s <= 0 -> inuse1 = inuse).

Lemma fresh_progress s s1 e h : heap s !! e = None -> heap s1 = <[e := h]> (heap s) -> deleted s1 = deleted s ->
  progress s s1 [payload h].
Proof.
  intros He Hh Hd. split.
  - intros x hx hx' E E'. rewrite Hh in E'. destruct (decide (x = e)) as [->|Hne]; [congruence|].
    rewrite lookup_insert_ne in E' by congruence. by simplify_eq.
  - rewrite Hd, (contents_insert s s1 e h He Hh). cbn [app]. symmetry. apply Permutation_middle.
Qed.

Lemma insert_front_uncached s hd lru inuse k hs v ch d e : client_ok (Client s hd) lru inuse -> heap s !! e = None ->
  e <> lru_ -> e <> in_use_ -> capacity_ s <= 0 ->
  exists s1, insert_front k hs v ch d e s = Some s1 /\
    inserted s s1 lru lru e (new_entry s k hs v ch d) None /\ front_lists s s1 lru inuse lru inuse k hs e None /\
    client_ok (Client s1 ({[+ e +]} ⊎ hd)) lru inuse.
Proof.
  intros Hcl Hfresh He1 He2 Hcap. unfold insert_front, new_entry. rewrite (proj2 (Z.ltb_ge 0 _)) by done.
  eexists. split; [done|]. split; [|split; [split; [lia|done]|by apply insert_uncached]].
  split; [by rewrite (proj2 (Z.ltb_ge 0 _))|done|apply lookup_insert_eq| | |by rewrite app_nil_r].
  - intros x Hx _. cbn. by rewrite lookup_insert_ne by congruence.
  - by eapply fresh_progress.
Qed.

Lemma insert_front_cached s hd lru inuse k hs v ch d e : client_ok (Client s hd) lru inuse -> heap s !! e = None ->
  e <> lru_ -> e <> in_use_ -> elems_ (table_ s) + 1 < 2 ^ 31 -> 0 < capacity_ s ->
  exists old s1 lru1 inuse1, insert_front k hs v ch d e s = Some s1 /\
    inserted s s1 lru lru1 e (new_entry s k hs v ch d) old /\ front_lists s s1 lru inuse lru1 inuse1 k hs e old /\
    client_ok (Client s1 ({[+ e +]} ⊎ hd)) lru1 inuse1.
Proof.
  intros Hcl Hfresh He1 He2 Hlt Hcap. unfold insert_front, new_entry.
  assert ((0 <? capacity_ s) = true) as -> by (by apply Z.ltb_lt).
  set (h := LRUHandle v d ch true 2 hs k). pose proof (co_lists _ _ _ (cl_cache _ _ _ Hcl)) as Hok. cbn [shard] in Hok.
  destruct (link_entry s hd lru inuse e h Hcl Hfresh He1 He2 eq_refl eq_refl) as (s1 & -> & Hok2 & Hh & Ht & Hd & Hc & Hu).
  cbn [mbind option_bind]. rewrite Hu. specialize (Hok2 _ eq_refl). set (s2 := with_usage _ s1) in *.
  destruct (insert_cached s hd lru inuse e h Hcl Hfresh s2 eq_refl Hok2 eq_refl Hh Ht Hlt)
    as (old & t & b & s' & -> & E & Hf & Hcl' & Hc' & Hold). cbn [mbind option_bind]. rewrite E. cbn [mbind option_bind].
  assert (e ∉ lru ++ inuse) as Hout by (by eapply fresh_out).
  assert (forall o, old = Some o -> o ∈ lru ++ inuse) as Hino by (intros o ->; apply Hf).
  exists old, s'. eexists _, _. split; [done|]. split; [|split; [|exact Hcl']].
  - split; [by rewrite (proj2 (Z.ltb_lt _ _))|by rewrite Hc'| | | |]; destruct old as [o|]; try (subst s'; cbn -[s2]).
    + destruct Hold as (ho & Ho & Hef). rewrite (ef_other _ _ _ _ _ e Hef) by (intros ->; by apply Hout, Hino).
      cbn. by rewrite Hh, lookup_insert_eq.
    + change (heap s2) with (heap s1). by rewrite Hh, lookup_insert_eq.
    + intros x Hx Hxo. destruct Hold as (ho & Ho & Hef). rewrite (ef_other _ _ _ _ _ x Hef) by congruence.
      cbn. by rewrite Hh, lookup_insert_ne by congruence.
    + intros x Hx _. change (heap s2) with (heap s1). by rewrite Hh, lookup_insert_ne by congruence.
    + destruct Hold as (ho & Ho & Hef). assert (heap s2 !! o = Some ho) as Ho2.
      { change (heap s2) with (heap s1). rewrite Hh, lookup_insert_ne; [done|]. intros <-. by apply Hout, Hino. }
      eapply (progress_trans s (with_table t s2)); [by apply (fresh_progress _ _ e h)| |].
      * eapply effect_progress; [done|done|]. intros h'. apply released_same.
      * intros x h' Hx. destruct (decide (x = o)) as [->|Hne]; [by eexists|].
        rewrite (ef_other _ _ _ _ _ x Hef) in Hx by done. by eexists.
    + by apply (fresh_progress _ _ e h).
    + destruct Hold as (ho & Ho & Hef). rewrite (ef_deleted _ _ _ _ _ Hef), (ef_self _ _ _ _ _ Hef). change (deleted (with_table t s2)) with (deleted s1).
      rewrite Hd. f_equal. destruct (released _); [done|]. cbn. by rewrite Ho.
    + change (deleted s2) with (deleted s1). by rewrite app_nil_r.
  - split; [|lia]. intros _. split; [done|]. intros x. destruct old as [o|].
    + specialize (Hino o eq_refl). members.
      destruct (decide (x = e)) as [->|]; intuition congruence.
    + members. intuition congruence.
Qed.

Lemma Insert_ok s hd lru inuse k hs v ch d e : client_ok (Client s hd) lru inuse -> heap s !! e = None ->
  e <> lru_ -> e <> in_use_ -> elems_ (table_ s) + 1 < 2 ^ 31 ->
  exists old s1 lru1 inuse1 l lru' s', LRUCache_Insert k hs v ch d e s = Some (e, s') /\
    lru1 = l ++ lru' /\ inserted s s1 lru lru1 e (new_entry s k hs v ch d) old /\
    front_lists s s1 lru inuse lru1 inuse1 k hs e old /\
    client_ok (Client s1 ({[+ e +]} ⊎ hd)) lru1 inuse1 /\ client_ok (Client s' ({[+ e +]} ⊎ hd)) lru' inuse1 /\
    evicted s1 s' l /\ (usage_ s' <= capacity_ s \/ lru' = []) /\
    (forall l1 l2, l = l1 ++ l2 -> l2 <> [] -> capacity_ s < usage_without s1 l1).
Proof.
  intros Hcl Hfresh He1 He2 Hlt.
  assert (exists old s1 lru1 inuse1, insert_front k hs v ch d e s = Some s1 /\
    inserted s s1 lru lru1 e (new_entry s k hs v ch d) old /\ front_lists s s1 lru inuse lru1 inuse1 k hs e old /\
    client_ok (Client s1 ({[+ e +]} ⊎ hd)) lru1 inuse1) as (old & s1 & lru1 & inuse1 & E & Hin & Hfl & Hcl1).
  { destruct (Z_lt_le_dec 0 (capacity_ s)); [by apply insert_front_cached|].
    destruct (insert_front_uncached s hd lru inuse k hs v ch d e) as (s1 & ? & ? & ? & ?); [done..|].
    by exists None, s1, lru, inuse. }
  assert (length lru1 <= size (heap s1))%nat as Hfuel.
  { pose proof (lru_size _ _ _ (co_lists _ _ _ (cl_cache _ _ _ Hcl1))) as H. cbn in H. rewrite length_app in H. lia. }
  destruct (evict_loop_ok _ _ _ _ _ Hcl1 Hfuel) as (l & lru' & s' & -> & El & Hcl' & Hev & Hend & Hmin).
  exists old, s1, (l ++ lru'), inuse1, l, lru', s'. rewrite Insert_front, E. cbn [mbind option_bind]. rewrite El.
  rewrite (in_capacity _ _ _ _ _ _ _ Hin) in *. done.
Qed.
