(* ===== verification/LruProps.v ===== *)
(** * What the LRU cache promises its clients ([leveldb-library/util/cache.cc])

    The runs of a client that releases only the references it holds, from the
    construction of a cache on: every operation returns, deleters run once,
    eviction is oldest first, and the table is a map from keys to entries. *)

From Stdlib Require Import Sorting.Sorted.
From stdpp Require Import gmap gmultiset sorting.
From S2P Require Import Prelude.
From S2P Require Import LruLinks.
From S2P Require Import HandleTable.
From S2P Require Import LruCache.
From S2P Require Import LruOps.

(** ** One operation *)

(** The payload an operation inserts. *)
Definition insertion (op : client_op) : list (Z * list Z * Z) :=
  match op with OInsert k _ v _ d _ => [(d, k, v)] | _ => [] end.

Lemma progress_table t s s' new : progress (with_table t s) s' new -> progress s s' new.
Proof. intros []. by split. Qed.

Lemma erase_ok s hd lru inuse k hs : client_ok (Client s hd) lru inuse ->
  exists r s' lru' inuse', remove_and_finish k hs s = Some (bool_decide (is_Some r), s') /\
    found (hash_of s) (key s) (lru ++ inuse) k hs r /\ client_ok (Client s' hd) lru' inuse' /\ progress s s' [] /\
    (lru' `sublist_of` lru) /\ forall x, x ∈ lru' ++ inuse' <-> x ∈ lru ++ inuse /\ r <> Some x.
Proof.
  intros [Hc Hacc]. cbn in Hc, Hacc. destruct (remove_and_finish_ok s lru inuse k hs Hc) as (r & s' & E & Hf & Hr).
  destruct r as [e|].
  - destruct Hr as (h & He & Hc' & t & Hef). exists (Some e), s', (without e lru), (without e inuse).
    split; [done|]. split; [done|]. destruct Hf as [Hin _].
    destruct (lo_handle _ _ _ (co_lists _ _ _ Hc) e Hin) as (h' & He' & Hcache & _). simplify_eq.
    split; [split; cbn; [done|by eapply (accounted_finish (with_table t s))]|]. split.
    + apply (progress_table t), (effect_progress (with_table t s) s' e h _ Hef He). intros h'. apply released_same.
    + split; [apply sublist_filter|]. intros x. members. intuition congruence.
  - subst s'. exists None, s, lru, inuse. split; [done|]. split; [done|]. split; [done|].
    split; [apply progress_refl|]. split; [done|]. intros x. intuition congruence.
Qed.

Lemma Prune_ok s hd lru inuse : client_ok (Client s hd) lru inuse ->
  exists s', LRUCache_Prune s = Some s' /\ client_ok (Client s' hd) [] inuse /\ evicted s s' lru /\ progress s s' [].
Proof.
  intros Hcl. pose proof (co_lists _ _ _ (cl_cache _ _ _ Hcl)) as Hok. cbn in Hok.
  assert (length lru <= size (heap s))%nat as Hfuel.
  { pose proof (lru_size _ _ _ Hok) as H. rewrite length_app in H. lia. }
  destruct (prune_loop_ok _ s hd lru inuse Hcl Hfuel) as (s' & E & Hcl' & Hev). exists s'. split; [done|].
  split; [done|]. split; [done|]. eapply evicted_progress; [done|by destruct (lo_split _ _ _ Hok)|].
  intros x Hx. eapply listed; [done|]. members. tauto.
Qed.

Lemma Insert_progress s s1 s' hd lru lru1 inuse1 e h old l lru' : inserted s s1 lru lru1 e h old ->
  client_ok (Client s1 hd) lru1 inuse1 -> lru1 = l ++ lru' -> evicted s1 s' l -> progress s s' [payload h].
Proof.
  intros Hin Hcl -> Hev. pose proof (co_lists _ _ _ (cl_cache _ _ _ Hcl)) as Hok. cbn in Hok.
  eapply progress_trans; [by apply Hin| |].
  - eapply evicted_progress; [done| |].
    + destruct (lo_split _ _ _ Hok) as (Hn & _). by apply list.NoDup_app in Hn as [? _].
    + intros x Hx. eapply listed; [done|]. members. tauto.
  - intros x h' Hx. rewrite (ev_heap _ _ _ Hev) in Hx. destruct (decide (x ∈ l)); [by rewrite foldr_delete_in in Hx|].
    rewrite foldr_delete_notin in Hx by done. by eexists.
Qed.

(** What an operation may do to the entries on [lru_]: only a release adds one, at
    the end. *)
Definition lru_after (op : client_op) (lru lru' : list ptr) : Prop :=
  lru' `sublist_of` lru \/ exists e, op = ORelease e /\ lru' = lru ++ [e].

(** Every allowed operation returns, with the invariant. *)
Lemma exec_ok c lru inuse op : client_ok c lru inuse -> allowed op c ->
  exists c' lru' inuse', exec op c = Some c' /\ client_ok c' lru' inuse' /\
    progress (shard c) (shard c') (insertion op) /\ lru_after op lru lru'.
Proof.
  destruct c as [s hd]. intros Hcl Hal. destruct op as [k hs v ch d e|k hs|e|k hs|]; cbn in Hal; cbn [exec shard].
  - destruct Hal as (H1 & H2 & H3 & H4).
    destruct (Insert_ok s hd lru inuse k hs v ch d e Hcl H1 H2 H3 H4)
      as (old & s1 & lru1 & inuse1 & l & lru' & s' & -> & El & Hin & _ & Hcl1 & Hcl' & Hev & _). cbn [mbind option_bind].
    eexists _, lru', inuse1. split; [done|]. split; [done|]. 
    split; [change (insertion _) with [payload (new_entry s k hs v ch d)]; by eapply Insert_progress|]. left.
    transitivity lru1; [rewrite El; by apply sublist_inserts_l|]. pose proof (in_old _ _ _ _ _ _ _ Hin) as Ho.
    destruct (0 <? capacity_ s); [|by destruct Ho as [_ ->]]. rewrite Ho. destruct old; [apply sublist_filter|done].
  - destruct (Lookup_ok s hd lru inuse k hs Hcl Hal) as (r & s' & lru' & inuse' & -> & _ & _ & Hr & Hcl').
    eexists _, lru', inuse'. split; [done|]. split; [done|]. cbn. destruct r as [e|].
    + destruct Hr as (-> & h & He & Hef). split; [|left; apply sublist_filter].
      eapply effect_progress; [done|done|]. by intros h' [= <-].
    + destruct Hr as [-> ->]. split; [apply progress_refl|by left].
  - destruct (Release_ok s hd lru inuse e Hcl Hal) as (h & s' & lru' & inuse' & He & -> & Hef & _ & Hlru & Hcl').
    eexists _, lru', inuse'. split; [done|]. split; [done|].
    split; [eapply effect_progress; [done|done|]; apply released_same'|]. rewrite Hlru.
    destruct (in_cache h && (refs h =? 2)); [right; by exists e|by left].
  - destruct (erase_ok s hd lru inuse k hs Hcl) as (r & s' & lru' & inuse' & E & _ & Hcl' & Hp & Hsub & _).
    unfold LRUCache_Erase. rewrite E. cbn [mbind option_bind]. eexists _, lru', inuse'. do 3 (split; [done|]). by left.
  - destruct (Prune_ok s hd lru inuse Hcl) as (s' & -> & Hcl' & _ & Hp). eexists _, [], inuse.
    do 3 (split; [done|]). left. apply sublist_nil_l.
Qed.

(** ** Runs *)

(** The states a client reaches from a new cache, with the payloads it has
    inserted. *)
Inductive reachable : list (Z * list Z * Z) -> client -> Prop :=
  | reach_new capacity s : 0 <= capacity < 2 ^ 64 -> LRUCache_new = Some s ->
      reachable [] (Client (SetCapacity capacity s) ∅)
  | reach_step ins c op c' : reachable ins c -> allowed op c -> exec op c = Some c' ->
      reachable (insertion op ++ ins) c'.

Lemma new_ok : exists s, LRUCache_new = Some s /\
  forall capacity, client_ok (Client (SetCapacity capacity s) ∅) [] [] /\ deleted s = [] /\ heap s = ∅.
Proof.
  unfold LRUCache_new. destruct (HandleTable_ok (fun _ => None) (fun _ => None)) as (t & -> & Ht).
  cbn [mbind option_bind]. eexists. split; [done|]. intros capacity. split; [|done]. split; cbn.
  - split; [|by eapply table_ok_ext; [|exact Ht]; intros e He%elem_of_nil|done].
    split; cbn; try done.
    + split; [by constructor; [|constructor]|by constructor; [|constructor]|].
      apply list.NoDup_cons. split; [apply not_elem_of_nil|constructor].
    + split; [by constructor; [|constructor]|by constructor; [|constructor]|].
      apply list.NoDup_cons. split; [apply not_elem_of_nil|constructor].
    + rewrite !list.NoDup_cons, list_elem_of_singleton. split; [done|]. split; [apply not_elem_of_nil|constructor].
    + by intros e He%elem_of_nil.
    + by intros e He%elem_of_nil.
  - intros e. change (multiplicity e (∅ : gmultiset ptr) = 0%nat). apply multiplicity_empty.
Qed.

Lemma client_reachable_inv ins c : reachable ins c -> exists lru inuse, client_ok c lru inuse /\
  deleted (shard c) ++ contents (shard c) ≡ₚ ins.
Proof.
  induction 1 as [capacity s Hcap Hs|ins c op c' Hr (lru & inuse & Hcl & Hp) Hal Hex].
  - destruct new_ok as (s0 & Hs0 & Hok). simplify_eq. destruct (Hok capacity) as (Hcl & Hd & Hh).
    exists [], []. split; [done|]. cbn. unfold contents. cbn. by rewrite Hd, Hh, map_to_list_empty.
  - destruct (exec_ok c lru inuse op Hcl Hal) as (c2 & lru' & inuse' & Hex' & Hcl' & Hpr & _). simplify_eq.
    exists lru', inuse'. split; [done|]. by rewrite (pg_contents _ _ _ Hpr), Hp.
Qed.

(** ** Every operation returns *)

(** C9 (termination): from a new cache on, whatever a client that releases only
    what it holds has done, the next operation it is allowed returns: the loops
    that follow chains, rehash the table and evict end, no assertion fails, and
    no freed or uninitialised memory is read or written. *)
Theorem lru_operations_return ins c op : reachable ins c -> allowed op c ->
  exists c', exec op c = Some c' /\ reachable (insertion op ++ ins) c'.
Proof.
  intros Hr Hal. destruct (client_reachable_inv _ _ Hr) as (lru & inuse & Hcl & _).
  destruct (exec_ok c lru inuse op Hcl Hal) as (c' & _ & _ & Hex & _). exists c'. split; [done|].
  by eapply reach_step.
Qed.

(** A cache of capacity two, filled with three entries, the second of which was
    released. *)
Definition demo_ops : list client_op :=
  [OInsert [1] 11 100 1 7 3; OInsert [2] 22 200 1 7 4; ORelease 4; OInsert [3] 33 300 1 7 5].

Fixpoint run (ops : list client_op) (c : client) : option client :=
  match ops with [] => Some c | op :: ops => c ← exec op c; run ops c end.

Definition demo_start : client :=
  Client (SetCapacity 2 (default (Cache 0 0 ∅ (Links ∅ ∅) (Table 0 0 []) []) LRUCache_new)) ∅.

Definition demo (n : nat) : client := default demo_start (run (take n demo_ops) demo_start).

Lemma demo_step n op ins : reachable ins (demo n) -> demo_ops !! n = Some op -> allowed op (demo n) ->
  exec op (demo n) = Some (demo (S n)) -> reachable (insertion op ++ ins) (demo (S n)).
Proof. intros. by eapply reach_step. Qed.

Lemma demo_reachable3 : reachable [(7, [2], 200); (7, [1], 100)] (demo 3).
Proof.
  apply (demo_step 2 (ORelease 4)); [|done|vm_compute; reflexivity|vm_compute; reflexivity].
  apply (demo_step 1 (OInsert [2] 22 200 1 7 4)); [|done|by vm_compute|vm_compute; reflexivity].
  apply (demo_step 0 (OInsert [1] 11 100 1 7 3)); [|done|by vm_compute|vm_compute; reflexivity].
  apply reach_new; [lia|vm_compute; reflexivity].
Defined.

Lemma lru_operations_return_witness :
  exists c', exec (OInsert [3] 33 300 1 7 5) (demo 3) = Some c' /\
    reachable [(7, [3], 300); (7, [2], 200); (7, [1], 100)] c'.
Proof. apply (lru_operations_return _ _ (OInsert [3] 33 300 1 7 5) demo_reachable3). by vm_compute. Defined.

(** ** Accounting *)

(** The charge of the entries the cache holds. *)
Definition cached_charge (s : cache) : Z :=
  foldr (fun eh n => (if in_cache eh.2 then charge eh.2 else 0) + n) 0 (map_to_list (heap s)).

Lemma listed_iff s lru inuse e h : lists_ok s lru inuse -> heap s !! e = Some h ->
  e ∈ lru ++ inuse <-> in_cache h = true.
Proof.
  intros Hok He. split.
  - intros Hin. destruct (lo_handle _ _ _ Hok e Hin) as (h' & ? & ? & _). by simplify_eq.
  - intros Hc. destruct (decide (e ∈ lru ++ inuse)) as [|Hout]; [done|].
    destruct (lo_other _ _ _ Hok e h He Hout) as [? _]. congruence.
Qed.

Lemma total_cached s lru inuse : lists_ok s lru inuse -> total s (lru ++ inuse) = cached_charge s.
Proof.
  intros Hok. set (L := map_to_list (heap s)).
  assert (lru ++ inuse ≡ₚ (filter (fun eh => in_cache eh.2 = true) L).*1) as Hperm.
  { apply NoDup_Permutation.
    - pose proof (lo_nodup _ _ _ Hok) as Hn. rewrite !list.NoDup_cons in Hn. tauto.
    - eapply sublist_NoDup; [apply (NoDup_fst_map_to_list (heap s))|]. apply fmap_sublist, sublist_filter.
    - intros e. rewrite list_elem_of_fmap. split.
      + intros Hin. destruct (lo_handle _ _ _ Hok e Hin) as (h & He & Hc & _). exists (e, h). split; [done|].
        apply list_elem_of_filter. split; [done|]. by apply elem_of_map_to_list.
      + intros ([e' h] & -> & Hin). apply list_elem_of_filter in Hin as [Hc Hin]. apply elem_of_map_to_list in Hin.
        by apply (listed_iff s lru inuse e' h). }
  rewrite (total_perm s _ _ Hperm). unfold cached_charge. fold L.
  assert (forall eh, eh ∈ L -> heap s !! eh.1 = Some eh.2) as HL
    by (intros [e h] Hin; by apply elem_of_map_to_list).
  clearbody L. clear Hperm. induction L as [|[e h] L IH]; [done|].
  rewrite filter_cons. cbn [foldr snd]. rewrite <- IH by (intros eh Hin; apply HL; by right).
  pose proof (HL (e, h) ltac:(left)) as He. cbn in He. destruct (decide (in_cache (e, h).2 = true)) as [Hc|Hc]; cbn in Hc.
  - rewrite Hc. assert (charge h = charge_of s e) as -> by (unfold charge_of; by rewrite He). done.
  - destruct (in_cache h); [done|]. by rewrite Z.add_0_l.
Qed.

(** In every reachable state the total charge is the sum, modulo
    2^64, of the charges of the entries in the cache; the reference count of a
    handle is one for the cache, when it is in it, plus one for each reference
    the client holds, and is at least one; and every handle the client holds is
    still allocated. *)
Theorem lru_accounting ins c : reachable ins c ->
  LRUCache_TotalCharge (shard c) = wrap 64 (cached_charge (shard c)) /\
  (forall e h, heap (shard c) !! e = Some h ->
     refs h = Z.b2z (in_cache h) + Z.of_nat (multiplicity e (held c)) /\ 1 <= refs h) /\
  (forall e, e ∈ held c -> is_Some (heap (shard c) !! e)).
Proof.
  intros Hr. destruct (client_reachable_inv _ _ Hr) as (lru & inuse & [Hc Hacc] & _).
  pose proof (co_lists _ _ _ Hc) as Hok. split; [|split].
  - unfold LRUCache_TotalCharge. by rewrite (lo_usage _ _ _ Hok), (total_cached _ _ _ Hok).
  - intros e h He. split; [by apply (accounted_at (shard c))|]. pose proof (refs_range _ _ _ _ _ Hok He). lia.
  - intros e. by apply (held_live _ (held c)).
Qed.

Lemma lru_accounting_witness : LRUCache_TotalCharge (shard (demo 3)) = 2.
Proof.
  assert (wrap 64 (cached_charge (shard (demo 3))) = 2) as <- by (vm_compute; reflexivity).
  exact (proj1 (lru_accounting _ _ demo_reachable3)).
Defined.

(** ** Deleters *)

Lemma destroy_ok s lru : client_ok (Client s ∅) lru [] ->
  exists s', LRUCache_destroy s = Some s' /\ heap s' = foldr delete (heap s) lru /\ deleted s' = deleted s ++ payloads s lru.
Proof.
  intros [Hc Hacc]. cbn in Hc, Hacc. pose proof (co_lists _ _ _ Hc) as Hok.
  unfold LRUCache_destroy. rewrite (ring_first _ _ _ (lo_inuse _ _ _ Hok)). cbn [list.head default mbind option_bind].
  rewrite bool_decide_true by done. cbn [assert_ mbind option_bind].
  rewrite (ring_first _ _ _ (lo_lru _ _ _ Hok)). cbn [mbind option_bind].
  apply destroy_loop_ok.
  - pose proof (ring_next _ _ _ (lo_lru _ _ _ Hok)) as Hn. destruct lru; [constructor|].
    by apply points_cons in Hn as [_ Hn].
  - apply (ring_nodup _ _ _ (lo_lru _ _ _ Hok)).
  - apply (lo_lru_handle _ _ _ Hok).
  - pose proof (lru_size _ _ _ Hok) as H. rewrite length_app in H. lia.
Qed.

(** C4 (safety): the deleter of an inserted value runs at most once, and not
    while the value can still be reached: the deleter calls so far and the
    entries of the heap are together exactly what was inserted.  Once the client
    has released everything, the destructor succeeds, every inserted value's
    deleter has run exactly once with its key and value, and nothing leaks. *)
Theorem lru_deletes_once ins c : reachable ins c ->
  deleted (shard c) ++ contents (shard c) ≡ₚ ins /\
  (held c = ∅ -> exists s', LRUCache_destroy (shard c) = Some s' /\ deleted s' ≡ₚ ins /\ heap s' = ∅).
Proof.
  intros Hr. destruct (client_reachable_inv _ _ Hr) as (lru & inuse & Hcl & Hp). split; [done|].
  destruct c as [s hd]. cbn in *. intros ->. destruct Hcl as [Hc Hacc]. cbn in Hc, Hacc.
  pose proof (co_lists _ _ _ Hc) as Hok.
  assert (forall e, e ∈ inuse -> False) as Hno.
  { intros e He. destruct (lo_inuse_handle _ _ _ Hok e He) as (h & Hh & Hin & Hrefs).
    pose proof (accounted_at _ _ _ _ Hacc Hh) as E. rewrite Hin, multiplicity_empty in E. cbn in E. lia. }
  assert (inuse = []) as -> by (destruct inuse as [|e ?]; [done|destruct (Hno e); left]).
  destruct (destroy_ok s lru) as (s' & -> & Hh & Hd); [done|]. exists s'. split; [done|].
  assert (heap s' = ∅) as He.
  { rewrite Hh. apply map_eq. intros x. rewrite lookup_empty. destruct (decide (x ∈ lru)) as [Hx|Hx].
    - by apply foldr_delete_in.
    - rewrite foldr_delete_notin by done. destruct (heap s !! x) as [h|] eqn:E; [|done].
      destruct (lo_other _ _ _ Hok x h E) as (Hin & Hrefs & _); [by rewrite app_nil_r|].
      pose proof (accounted_at _ _ _ _ Hacc E) as Ea. rewrite Hin, multiplicity_empty in Ea. cbn in Ea. lia. }
  split; [|done]. rewrite Hd, <- Hp, (payloads_contents lru s s').
  - unfold contents. by rewrite He, map_to_list_empty, app_nil_r.
  - by destruct (lo_split _ _ _ Hok).
  - intros x Hx. eapply listed; [done|]. by rewrite app_nil_r.
  - done.
Qed.

Lemma demo_reachable4 : reachable [(7, [3], 300); (7, [2], 200); (7, [1], 100)] (demo 4).
Proof.
  apply (demo_step 3 (OInsert [3] 33 300 1 7 5)); [exact demo_reachable3|done|by vm_compute|vm_compute; reflexivity].
Defined.

Lemma lru_deletes_once_witness :
  deleted (shard (demo 4)) ++ contents (shard (demo 4)) ≡ₚ [(7, [3], 300); (7, [2], 200); (7, [1], 100)].
Proof. exact (proj1 (lru_deletes_once _ _ demo_reachable4)). Defined.

(** ** Eviction *)

Lemma found_unique hash_of key_of t T k hs r r' : table_ok hash_of key_of t T ->
  found hash_of key_of T k hs r -> found hash_of key_of T k hs r' -> r = r'.
Proof.
  intros Ht Hr Hr'. destruct r as [x|], r' as [y|]; cbn in Hr, Hr'; try done.
  - destruct Hr, Hr'. f_equal. by eapply (tk_unique _ _ _ _ Ht).
  - destruct Hr as [? ?]. by destruct (Hr' x).
  - destruct Hr' as [? ?]. by destruct (Hr y).
Qed.

Lemma insert_finds s s1 hd lru inuse lru1 inuse1 k hs e old h : client_ok (Client s hd) lru inuse ->
  inserted s s1 lru lru1 e h old -> front_lists s s1 lru inuse lru1 inuse1 k hs e old ->
  if 0 <? capacity_ s then table_Lookup (hash_of s) (key s) (table_ s) k hs = Some old else old = None.
Proof.
  intros Hcl Hin [Hfl _]. destruct (Z.ltb_spec 0 (capacity_ s)) as [Hcap|Hcap].
  - pose proof (co_table _ _ _ (cl_cache _ _ _ Hcl)) as Ht. cbn [shard] in Ht.
    destruct (table_Lookup_ok _ _ _ _ k hs Ht) as (r & -> & Hr). f_equal. eapply found_unique; [done|done|].
    by apply Hfl.
  - pose proof (in_old _ _ _ _ _ _ _ Hin) as Ho. rewrite (proj2 (Z.ltb_ge _ _)) in Ho by done. tauto.
Qed.

(** A handle the client holds is not on [lru_]. *)
Lemma held_not_lru c lru inuse e : client_ok c lru inuse -> e ∈ held c -> e ∉ lru.
Proof.
  intros [Hc Hacc] He Hin. destruct (lo_lru_handle _ _ _ (co_lists _ _ _ Hc) e Hin) as (h & Hh & Hcache & Hr).
  pose proof (accounted_at _ _ _ _ Hacc Hh) as E. rewrite Hcache, Hr in E. rewrite elem_of_multiplicity in He.
  cbn in E. lia.
Qed.

Lemma insert_not_evicted s1 hd e lru1 inuse1 l lru' : client_ok (Client s1 ({[+ e +]} ⊎ hd)) lru1 inuse1 ->
  lru1 = l ++ lru' -> e ∉ l.
Proof.
  intros Hcl -> Hl. apply (held_not_lru _ _ _ e Hcl); [|members; tauto]. cbn [held]. multiset_solver.
Qed.

Lemma insert_old_deleted s s1 hd lru inuse lru1 inuse1 k hs e h old : client_ok (Client s hd) lru inuse ->
  heap s !! e = None -> inserted s s1 lru lru1 e h old -> front_lists s s1 lru inuse lru1 inuse1 k hs e old ->
  client_ok (Client s1 ({[+ e +]} ⊎ hd)) lru1 inuse1 ->
  match old with Some o => match heap s1 !! o with None => payloads s [o] | Some _ => [] end | None => [] end =
  match old with Some o => if bool_decide (o ∈ hd) then [] else payloads s [o] | None => [] end.
Proof.
  intros Hcl Hfresh Hin [Hfl _] Hcl1. destruct old as [o|]; [|done].
  destruct (Z.ltb_spec 0 (capacity_ s)) as [Hcap|Hcap]; [|
    pose proof (in_old _ _ _ _ _ _ _ Hin) as Ho; rewrite (proj2 (Z.ltb_ge _ _)) in Ho by done; destruct Ho; discriminate].
  destruct (Hfl Hcap) as [[Hino _] Hmem]. pose proof (cl_held _ _ _ Hcl1 o) as Ho. cbn [shard held] in Ho.
  assert (o <> e) as Hoe.
  { intros ->. by destruct (listed _ _ _ _ (co_lists _ _ _ (cl_cache _ _ _ Hcl)) Hino) as [? ?%eq_sym]; cbn in *; congruence. }
  rewrite multiplicity_disj_union, multiplicity_singleton_ne in Ho by done. cbn [Nat.add] in Ho.
  destruct (heap s1 !! o) as [ho|] eqn:E.
  - rewrite bool_decide_true; [done|]. rewrite elem_of_multiplicity.
    destruct (lo_other _ _ _ (co_lists _ _ _ (cl_cache _ _ _ Hcl1)) o ho E) as (Hc & Hr & _).
    { rewrite (Hmem o). intros [?|[_ ?]]; done. }
    rewrite Hc in Ho. cbn in Ho. lia.
  - rewrite bool_decide_false; [done|]. rewrite elem_of_multiplicity. lia.
Qed.

Lemma usage_evicted s1 s' l1 l2 lru' inuse1 : lists_ok s1 ((l1 ++ l2) ++ lru') inuse1 -> lists_ok s' lru' inuse1 ->
  evicted s1 s' (l1 ++ l2) -> usage_without s1 l1 = wrap 64 (usage_ s' + total s1 l2).
Proof.
  intros Hok1 Hok' Hev. destruct (lo_split _ _ _ Hok1) as (Hn & _ & _ & _ & _ & _ & Hdisj & _).
  apply list.NoDup_app in Hn as (_ & Hn & _).
  assert (total s' (lru' ++ inuse1) = total s1 (lru' ++ inuse1)) as E.
  { apply total_ext. intros x Hx. unfold charge_of. rewrite (ev_heap _ _ _ Hev), foldr_delete_notin; [done|].
    intros Hl. apply elem_of_app in Hx as [Hx|Hx]; [by apply (Hn x)|]. apply (Hdisj x); [|done]. members. tauto. }
  unfold usage_without. rewrite (lo_usage _ _ _ Hok1), (lo_usage _ _ _ Hok'), E, wrap_sub_l, wrap_add_l.
  f_equal. rewrite !total_app. lia.
Qed.

(** ** The order of the entries *)

(** How many of the operations, the newest first, came after the last release of a
    handle. *)
Fixpoint age (e : ptr) (ops : list client_op) : nat :=
  match ops with
  | [] => 0
  | op :: ops => match op with ORelease x => if decide (x = e) then 0 else S (age e ops) | _ => S (age e ops) end
  end.

(** The first handle was released for the last time before the second was. *)
Definition released_before (ops : list client_op) (x y : ptr) : Prop := (age y ops < age x ops)%nat.

(** The operations, the newest first, that lead from a new cache to a state. *)
Inductive history : list client_op -> client -> Prop :=
  | history_new capacity s : 0 <= capacity < 2 ^ 64 -> LRUCache_new = Some s ->
      history [] (Client (SetCapacity capacity s) ∅)
  | history_step ops c op c' : history ops c -> allowed op c -> exec op c = Some c' -> history (op :: ops) c'.

Lemma history_reachable ops c : history ops c -> reachable (ops ≫= insertion) c.
Proof. induction 1; [by apply reach_new|]. rewrite bind_cons. by eapply reach_step. Qed.

Lemma released_before_step ops op x y : (forall e, op = ORelease e -> e <> x /\ e <> y) ->
  released_before ops x y -> released_before (op :: ops) x y.
Proof.
  unfold released_before. intros Hop Hxy. destruct op; cbn; try lia. destruct (Hop e eq_refl). rewrite !decide_False by done. lia.
Qed.

Lemma StronglySorted_sublist {A} (R : A -> A -> Prop) (k l : list A) : k `sublist_of` l -> StronglySorted R l -> StronglySorted R k.
Proof.
  induction 1 as [|x k l Hs IH|x k l Hs IH]; [done| |]; intros [Hl Hx]%StronglySorted_inv; [|by apply IH].
  constructor; [by apply IH|]. rewrite list.Forall_forall in Hx |- *. intros y Hy. apply Hx. by eapply elem_of_sublist.
Qed.

(** [lru_] is in the order of the last releases. *)
Lemma history_inv ops c : history ops c -> exists lru inuse, client_ok c lru inuse /\ StronglySorted (released_before ops) lru.
Proof.
  induction 1 as [capacity s Hcap Hs|ops c op c' Hr (lru & inuse & Hcl & Hord) Hal Hex].
  - destruct new_ok as (s0 & Hs0 & Hok). simplify_eq. destruct (Hok capacity) as (Hcl & _). exists [], []. split; [done|constructor].
  - destruct (exec_ok c lru inuse op Hcl Hal) as (c2 & lru' & inuse' & Hex' & Hcl' & _ & Hafter). simplify_eq.
    exists lru', inuse'. split; [done|].
    assert (forall e, op = ORelease e -> e ∉ lru) as Hout.
    { intros e ->. cbn in Hal. by eapply held_not_lru. }
    assert (StronglySorted (released_before (op :: ops)) lru) as Hord'.
    { clear Hafter Hcl. revert Hout. induction Hord as [|x l Hs IH Hx]; intros Hout; constructor.
      - apply IH. intros e He Hl. apply (Hout e He). by right.
      - rewrite list.Forall_forall in Hx |- *. intros y Hy. apply released_before_step; [|by apply Hx].
        intros e He. specialize (Hout e He). split; intros ->; apply Hout; [left|by right]. }
    destruct Hafter as [Hsub|(e & -> & ->)]; [by eapply StronglySorted_sublist|].
    apply StronglySorted_app_2; [|done|repeat constructor]. intros x y Hx ->%list_elem_of_singleton.
    unfold released_before. cbn. rewrite decide_True by done. destruct (decide (e = x)) as [->|]; [|lia]. by destruct (Hout x eq_refl).
Qed.

(** The entries on [lru_] are those of the cache that the client does not hold. *)
Lemma unreferenced c lru inuse : client_ok c lru inuse ->
  forall x, x ∈ lru <-> x ∉ held c /\ exists h, heap (shard c) !! x = Some h /\ in_cache h = true.
Proof.
  intros Hcl x. pose proof (co_lists _ _ _ (cl_cache _ _ _ Hcl)) as Hok. split.
  - intros Hx. split; [intros Hh; by eapply held_not_lru|]. destruct (lo_lru_handle _ _ _ Hok x Hx) as (h & ? & ? & _). by exists h.
  - intros (Hh & h & Hx & Hc). apply (listed_iff _ _ _ _ _ Hok Hx) in Hc. apply elem_of_app in Hc as [|Hc]; [done|]. destruct Hh.
    destruct (lo_inuse_handle _ _ _ Hok x Hc) as (h' & Hx' & Hc' & Hr). simplify_eq.
    pose proof (accounted_at _ _ _ _ (cl_held _ _ _ Hcl) Hx) as E. rewrite Hc' in E. cbn in E. rewrite elem_of_multiplicity. lia.
Qed.

(** C6 (functional): at the end of any history of operations the entries that are
    in the cache and that the client does not hold are on [lru_] in the order of
    their last releases, the one released first in front.  An insertion puts the
    new entry in the heap with the given fields, referenced by the cache too unless
    the capacity is zero; takes out of the cache the entry [old] that had the same
    key; and then evicts those that were released first: a prefix [l] of that list,
    in its order, calling their deleters in that order (after [old]'s, if nobody
    holds it).  It stops as soon as the usage is within the capacity, or when no
    unreferenced entry is left, and not earlier: before each eviction the usage was
    over. *)
Theorem lru_insert_evicts ops c k hs v ch d e : history ops c -> allowed (OInsert k hs v ch d e) c ->
  exists c' lru lru' old l, exec (OInsert k hs v ch d e) c = Some c' /\
    ring (lists (shard c)) lru_ lru /\ ring (lists (shard c')) lru_ lru' /\
    StronglySorted (released_before ops) lru /\
    (forall x, x ∈ lru <-> x ∉ held c /\ exists h, heap (shard c) !! x = Some h /\ in_cache h = true) /\
    (if 0 <? capacity_ (shard c)
     then table_Lookup (hash_of (shard c)) (key (shard c)) (table_ (shard c)) k hs = Some old else old = None) /\
    (match old with Some o => without o lru | None => lru end) = l ++ lru' /\
    heap (shard c') !! e = Some (new_entry (shard c) k hs v ch d) /\
    (forall x, x ∈ l -> heap (shard c') !! x = None) /\
    deleted (shard c') = deleted (shard c) ++
      match old with Some o => if bool_decide (o ∈ held c) then [] else payloads (shard c) [o] | None => [] end ++
      payloads (shard c) l /\
    (usage_ (shard c') <= capacity_ (shard c) \/ lru' = []) /\
    (forall l1 l2, l = l1 ++ l2 -> l2 <> [] ->
       capacity_ (shard c) < wrap 64 (usage_ (shard c') + total (shard c) l2)).
Proof.
  intros Hr Hal. destruct (history_inv _ _ Hr) as (lru & inuse & Hcl & Hord). pose proof (unreferenced _ _ _ Hcl) as Hun. destruct c as [s hd].
  destruct Hal as (H1 & H2 & H3 & H4). cbn [shard held exec] in *.
  destruct (Insert_ok s hd lru inuse k hs v ch d e Hcl H1 H2 H3 H4)
    as (old & s1 & lru1 & inuse1 & l & lru' & s' & -> & El & Hin & Hfl & Hcl1 & Hcl' & Hev & Hend & Hmin).
  cbn [mbind option_bind]. eexists _, lru, lru', old, l. split; [done|]. cbn [shard held].
  pose proof (co_lists _ _ _ (cl_cache _ _ _ Hcl)) as Hok. pose proof (co_lists _ _ _ (cl_cache _ _ _ Hcl1)) as Hok1.
  pose proof (co_lists _ _ _ (cl_cache _ _ _ Hcl')) as Hok'. cbn [shard] in Hok, Hok1, Hok'.
  split; [apply Hok|]. split; [apply Hok'|]. split; [exact Hord|]. split; [exact Hun|]. split; [by eapply insert_finds|].
  assert (lru1 = match old with Some o => without o lru | None => lru end) as El1.
  { pose proof (in_old _ _ _ _ _ _ _ Hin) as Ho. destruct (0 <? capacity_ s); [done|]. by destruct Ho as [-> ->]. }
  split; [by rewrite <- El1|].
  pose proof (insert_not_evicted _ _ _ _ _ _ _ Hcl1 El) as Hel.
  assert (forall x, x ∈ l -> heap s1 !! x = heap s !! x) as Hsame.
  { intros x Hx. apply (in_other _ _ _ _ _ _ _ Hin); [by intros ->|]. intros ->.
    assert (x ∈ lru1) as Hx1 by (rewrite El; members; tauto). rewrite El1 in Hx1. members. tauto. }
  split; [rewrite (ev_heap _ _ _ Hev), foldr_delete_notin by done; apply (in_entry _ _ _ _ _ _ _ Hin)|].
  split; [intros x Hx; rewrite (ev_heap _ _ _ Hev); by apply foldr_delete_in|]. split; [|split; [done|]].
  - rewrite (ev_deleted _ _ _ Hev), (in_deleted _ _ _ _ _ _ _ Hin), <- app_assoc, (payloads_ext s s1 l Hsame).
    f_equal. f_equal. by eapply insert_old_deleted.
  - intros l1 l2 -> Hl2. specialize (Hmin l1 l2 eq_refl Hl2).
    rewrite <- (total_ext s s1 l2) by (intros x Hx; unfold charge_of; rewrite Hsame; [done|members; tauto]).
    subst lru1. by rewrite <- (usage_evicted s1 s' l1 l2 lru' inuse1).
Qed.

(** Two entries, of which the second is released first. *)
Definition order_ops : list client_op :=
  [ORelease 3; ORelease 4; OInsert [2] 22 200 1 7 4; OInsert [1] 11 100 1 7 3].

Definition order_demo (n : nat) : client := default demo_start (run (take n (rev order_ops)) demo_start).

Lemma order_history : history order_ops (order_demo 4).
Proof.
  apply (history_step _ (order_demo 3)); [|by vm_compute|vm_compute; reflexivity].
  apply (history_step _ (order_demo 2)); [|by vm_compute|vm_compute; reflexivity].
  apply (history_step _ (order_demo 1)); [|by vm_compute|vm_compute; reflexivity].
  apply (history_step _ (order_demo 0)); [|by vm_compute|vm_compute; reflexivity].
  apply history_new; [lia|vm_compute; reflexivity].
Defined.

(** A third entry evicts the one that was released first. *)
Lemma lru_insert_evicts_witness : exists c', exec (OInsert [3] 33 300 1 7 5) (order_demo 4) = Some c' /\
  heap (shard c') !! 5%positive = Some (LRUHandle 300 7 1 true 2 33 [3]) /\ deleted (shard c') = [(7, [2], 200)].
Proof.
  destruct (lru_insert_evicts _ _ [3] 33 300 1 7 5 order_history) as (c' & lru & lru' & old & l & E & _ & _ & _ & _ & _ & _ & He & _);
    [by vm_compute|].
  exists c'. split; [exact E|]. split; [rewrite He; vm_compute; reflexivity|].
  assert ((fun c => deleted (shard c)) <$> exec (OInsert [3] 33 300 1 7 5) (order_demo 4) = Some [(7, [2], 200)]) as Ed
    by (vm_compute; reflexivity).
  rewrite E in Ed. injection Ed as Ed. exact Ed.
Defined.

(** ** The cache as a map *)

(** What a lookup finds under every key and hash. *)
Definition represents (s : cache) (m : gmap (list Z * Z) ptr) : Prop :=
  forall k hs, table_Lookup (hash_of s) (key s) (table_ s) k hs = Some (m !! (k, hs)).

(** The same by the entries of the lists. *)
Definition indexes (s : cache) (T : list ptr) (m : gmap (list Z * Z) ptr) : Prop :=
  forall k hs e, m !! (k, hs) = Some e <-> e ∈ T /\ exists h, heap s !! e = Some h /\ key_data h = k /\ hash h = hs.

Lemma indexes_represents s lru inuse m : cache_ok s lru inuse -> indexes s (lru ++ inuse) m <-> represents s m.
Proof.
  intros Hc. pose proof (co_lists _ _ _ Hc) as Hok. pose proof (co_table _ _ _ Hc) as Ht.
  assert (forall k hs e, matches (hash_of s) (key s) e k hs <-> exists h, heap s !! e = Some h /\ key_data h = k /\ hash h = hs) as Hm.
  { intros k hs e. split.
    - intros H. destruct (table_matches _ _ _ _ _ _ Hok H) as (h & ? & ? & ?). by exists h.
    - intros (h & He & <- & <-). by eapply matches_handle. }
  split.
  - intros Hi k hs. destruct (table_Lookup_ok _ _ _ _ k hs Ht) as (r & -> & Hr). f_equal.
    eapply found_unique; [exact Ht|exact Hr|]. destruct (m !! (k, hs)) as [e|] eqn:E; cbn.
    + destruct (proj1 (Hi k hs e) E) as [He Hh]. split; [done|]. by apply Hm.
    + intros e He Hme. apply Hm in Hme. assert (m !! (k, hs) = Some e) by (by apply Hi). congruence.
  - intros Hrep k hs e. cut (m !! (k, hs) = Some e <-> e ∈ lru ++ inuse /\ matches (hash_of s) (key s) e k hs);
      [intros ->; by rewrite Hm|]. destruct (table_Lookup_ok _ _ _ _ k hs Ht) as (r & E & Hr).
    rewrite Hrep in E. injection E as ->. split; [by intros ->|]. intros He.
    eapply (found_unique _ _ _ _ _ _ _ (Some e)); [exact Ht|exact Hr|exact He].
Qed.

(** Every cache represents a map. *)
Lemma represents_some s lru inuse : cache_ok s lru inuse -> exists m, represents s m.
Proof.
  intros Hc. set (kv := fun e => match heap s !! e with Some h => Some ((key_data h, hash h), e) | None => None end).
  exists (list_to_map (omap kv (lru ++ inuse))). rewrite <- indexes_represents by done. intros k hs e.
  pose proof (co_lists _ _ _ Hc) as Hok. pose proof (co_table _ _ _ Hc) as Ht.
  assert (forall kh e, (kh, e) ∈ omap kv (lru ++ inuse) <->
    e ∈ lru ++ inuse /\ exists h, heap s !! e = Some h /\ key_data h = kh.1 /\ hash h = kh.2) as Hin.
  { intros [k' hs'] e'. rewrite list_elem_of_omap. unfold kv. split.
    - intros (x & Hx & E). destruct (heap s !! x) as [h|] eqn:Eh; [|done]. simplify_eq. split; [done|]. by exists h.
    - intros (Hx & h & E & E1 & E2). cbn in E1, E2. subst. exists e'. by rewrite E. }
  rewrite <- elem_of_list_to_map'; [apply (Hin (k, hs))|].
  intros x' (Hx & h & E & E1 & E2)%Hin (Hx' & h' & E' & E1' & E2')%Hin. cbn in *. subst k hs.
  eapply (tk_unique _ _ _ _ Ht); [done|done|by eapply matches_handle|]. rewrite <- E1', <- E2'. by eapply matches_handle.
Qed.

Lemma indexes_sub s s' T T' m : indexes s T m -> progress s s' [] -> (forall x, x ∈ T -> is_Some (heap s !! x)) ->
  (forall x, x ∈ T' -> x ∈ T /\ is_Some (heap s' !! x)) -> indexes s' T' (filter (fun kv => kv.2 ∈ T') m).
Proof.
  intros Hi Hp HT HT' k hs e. rewrite map_lookup_filter_Some, (Hi k hs e). cbn [snd]. split.
  - intros [(Hin & h & He & <- & <-) Hin']. split; [done|]. destruct (HT' e Hin') as [_ [h' He']].
    destruct (pg_keep _ _ _ Hp _ _ _ He He') as (Hpl & Hh & _). exists h'. injection Hpl as _ Hk _. by rewrite Hk, Hh.
  - intros (Hin' & h' & He' & <- & <-). destruct (HT' e Hin') as [Hin _]. split; [|done]. split; [done|].
    destruct (HT e Hin) as [h He]. destruct (pg_keep _ _ _ Hp _ _ _ He He') as (Hpl & Hh & _). exists h.
    injection Hpl as _ Hk _. by rewrite Hk, Hh.
Qed.

(** What an operation does to the map. *)
Definition spec_step (op : client_op) (c c' : client) (m m' : gmap (list Z * Z) ptr) : Prop :=
  match op with
  | OInsert k hs _ _ _ e =>
      m' = filter (fun kv => is_Some (heap (shard c') !! kv.2)) (if 0 <? capacity_ (shard c) then <[(k, hs) := e]> m else m)
  | OLookup k hs => m' = m /\ held c' = match m !! (k, hs) with Some e => {[+ e +]} ⊎ held c | None => held c end
  | ORelease _ => m' = m
  | OErase k hs => m' = delete (k, hs) m
  | OPrune => m' = filter (fun kv => kv.2 ∈ held c) m
  end.

(** Operations that keep the entries of the table. *)
Lemma represents_same s s' lru inuse lru' inuse' m : cache_ok s lru inuse -> cache_ok s' lru' inuse' ->
  progress s s' [] -> (forall x, x ∈ lru' ++ inuse' <-> x ∈ lru ++ inuse) -> represents s m -> represents s' m.
Proof.
  intros Hc Hc' Hp Hmem Hrep. rewrite <- (indexes_represents s lru inuse m Hc) in Hrep.
  rewrite <- (indexes_represents s' lru' inuse' m Hc').
  rewrite <- (map_filter_id (fun kv => kv.2 ∈ lru' ++ inuse') m).
  - eapply indexes_sub; [done|done|intros x; apply (listed _ _ _ _ (co_lists _ _ _ Hc))|]. intros x Hx.
    split; [by apply Hmem|]. by apply (listed _ _ _ _ (co_lists _ _ _ Hc')).
  - intros [k hs] e He. cbn. apply Hmem. by apply (Hrep k hs e).
Qed.

Lemma represents_erase s s' lru inuse lru' inuse' k hs r m : cache_ok s lru inuse -> cache_ok s' lru' inuse' ->
  progress s s' [] -> found (hash_of s) (key s) (lru ++ inuse) k hs r ->
  (forall x, x ∈ lru' ++ inuse' <-> x ∈ lru ++ inuse /\ r <> Some x) ->
  represents s m -> represents s' (delete (k, hs) m).
Proof.
  intros Hc Hc' Hp Hf Hmem Hrep. assert (m !! (k, hs) = r) as Hr.
  { destruct (table_Lookup_ok _ _ _ _ k hs (co_table _ _ _ Hc)) as (r' & E & Hr'). rewrite Hrep in E. injection E as ->.
    by eapply found_unique; [apply (co_table _ _ _ Hc)|..]. }
  rewrite <- (indexes_represents s lru inuse m Hc) in Hrep. rewrite <- (indexes_represents s' lru' inuse' _ Hc').
  assert (delete (k, hs) m = filter (fun kv => kv.2 ∈ lru' ++ inuse') m) as ->.
  { apply map_eq. intros [k' hs']. apply option_eq. intros e. rewrite map_lookup_filter_Some, lookup_delete_Some. cbn [snd].
    rewrite Hmem, <- Hr. split.
    - intros [Hne He]. destruct (proj1 (Hrep k' hs' e) He) as (Hin & h & Hh & <- & <-). split; [done|]. split; [done|].
      intros E. apply (Hrep k hs e) in E as (_ & h' & Hh' & <- & <-). by simplify_eq.
    - intros [He [_ Hne]]. split; [|done]. intros [= <- <-]. done. }
  eapply indexes_sub; [done|done|intros x; apply (listed _ _ _ _ (co_lists _ _ _ Hc))|]. intros x Hx.
  split; [by apply Hmem|]. by apply (listed _ _ _ _ (co_lists _ _ _ Hc')).
Qed.

Lemma represents_prune s s' hd lru inuse m : client_ok (Client s hd) lru inuse -> client_ok (Client s' hd) [] inuse ->
  progress s s' [] -> represents s m -> represents s' (filter (fun kv => kv.2 ∈ hd) m).
Proof.
  intros Hcl Hcl' Hp Hrep. pose proof (cl_cache _ _ _ Hcl) as Hc. pose proof (cl_cache _ _ _ Hcl') as Hc'. cbn in Hc, Hc'.
  rewrite <- (indexes_represents s lru inuse m Hc) in Hrep. rewrite <- (indexes_represents s' [] inuse _ Hc').
  assert (filter (fun kv => kv.2 ∈ hd) m = filter (fun kv => kv.2 ∈ [] ++ inuse) m) as ->.
  { apply map_filter_ext. intros [k hs] e He. cbn. destruct (proj1 (Hrep k hs e) He) as (Hin & h & Hh & _). split.
    - intros Hhd. apply elem_of_app in Hin as [Hin|]; [|done]. by destruct (held_not_lru _ _ _ e Hcl Hhd).
    - intros Hin'. destruct (lo_inuse_handle _ _ _ (co_lists _ _ _ Hc) e Hin') as (h' & Hh' & Hcache & Hr). simplify_eq.
      pose proof (accounted_at _ _ _ _ (cl_held _ _ _ Hcl) Hh) as E. rewrite Hcache in E. cbn in E.
      rewrite elem_of_multiplicity. lia. }
  eapply indexes_sub; [done|done|intros x; apply (listed _ _ _ _ (co_lists _ _ _ Hc))|]. intros x Hx.
  split; [cbn in Hx; members; tauto|]. by apply (listed _ _ _ _ (co_lists _ _ _ Hc')).
Qed.

Lemma indexes_front s s1 hd lru inuse lru1 inuse1 k hs v ch d e old m :
  client_ok (Client s hd) lru inuse -> heap s !! e = None ->
  inserted s s1 lru lru1 e (new_entry s k hs v ch d) old -> front_lists s s1 lru inuse lru1 inuse1 k hs e old ->
  client_ok (Client s1 ({[+ e +]} ⊎ hd)) lru1 inuse1 ->
  (if 0 <? capacity_ s then table_Lookup (hash_of s) (key s) (table_ s) k hs = Some old else old = None) ->
  indexes s (lru ++ inuse) m -> indexes s1 (lru1 ++ inuse1) (if 0 <? capacity_ s then <[(k, hs) := e]> m else m).
Proof.
  intros Hcl Hfresh Hin [Hfl1 Hfl2] Hcl1 Hold Hi. pose proof (cl_cache _ _ _ Hcl) as Hc. cbn [shard] in Hc.
  pose proof (in_old _ _ _ _ _ _ _ Hin) as Hl1. pose proof (fresh_out s hd lru inuse e Hcl Hfresh) as Hout.
  destruct (Z.ltb_spec 0 (capacity_ s)) as [Hcap|Hcap].
  - destruct (Hfl1 Hcap) as [_ Hmem]. assert (m !! (k, hs) = old) as Hmo.
    { apply (indexes_represents s lru inuse m Hc) in Hi. rewrite Hi in Hold. by injection Hold. }
    intros k' hs' x. rewrite Hmem. destruct (decide (x = e)) as [->|Hxe].
    + rewrite (in_entry _ _ _ _ _ _ _ Hin). rewrite lookup_insert_Some. split.
      * intros [[[= <- <-] _]|[_ Hx]]; [|by apply Hi in Hx as [? _]]. split; [by left|]. by eexists.
      * intros [_ (h & [= <-] & <- & <-)]. by left.
    + rewrite lookup_insert_Some, (Hi k' hs' x). destruct (decide (old = Some x)) as [->|Hox].
      * apply (Hi k hs x) in Hmo as Hx. destruct Hx as (Hx & h & Hh & Ek & Eh). split.
        -- intros [[_ ?]|[Hne (_ & h' & Hh' & <- & <-)]]; [congruence|]. simplify_eq.
        -- intros [[?|[_ ?]] _]; congruence.
      * rewrite (in_other _ _ _ _ _ _ _ Hin x Hxe Hox). split.
        -- intros [[_ ?]|[Hne [Hx Hh]]]; [congruence|]. split; [by right|done].
        -- intros [[?|[Hx _]] Hh]; [congruence|]. right. split; [|done]. intros [= <- <-].
           apply Hox. rewrite <- Hmo. by apply Hi.
  - destruct Hl1 as [-> ->]. rewrite (Hfl2 Hcap). intros k' hs' x. rewrite (Hi k' hs' x).
    destruct (decide (x = e)) as [->|Hxe]; [split; intros [? _]; done|].
    by rewrite (in_other _ _ _ _ _ _ _ Hin x Hxe).
Qed.

Lemma represents_insert s s1 s' hd lru inuse lru1 inuse1 l lru' k hs v ch d e old m :
  client_ok (Client s hd) lru inuse -> heap s !! e = None ->
  inserted s s1 lru lru1 e (new_entry s k hs v ch d) old -> front_lists s s1 lru inuse lru1 inuse1 k hs e old ->
  client_ok (Client s1 ({[+ e +]} ⊎ hd)) lru1 inuse1 -> client_ok (Client s' ({[+ e +]} ⊎ hd)) lru' inuse1 ->
  lru1 = l ++ lru' -> evicted s1 s' l -> represents s m ->
  represents s' (filter (fun kv => is_Some (heap s' !! kv.2)) (if 0 <? capacity_ s then <[(k, hs) := e]> m else m)).
Proof.
  intros Hcl Hfresh Hin Hfl Hcl1 Hcl' El Hev Hrep.
  pose proof (cl_cache _ _ _ Hcl) as Hc. pose proof (cl_cache _ _ _ Hcl') as Hc'. cbn [shard] in Hc, Hc'.
  pose proof (cl_cache _ _ _ Hcl1) as Hc1. cbn [shard] in Hc1.
  pose proof (insert_finds _ _ _ _ _ _ _ _ _ _ _ _ Hcl Hin Hfl) as Hold.
  rewrite <- (indexes_represents s lru inuse m Hc) in Hrep. rewrite <- (indexes_represents s' lru' inuse1 _ Hc').
  enough (indexes s1 (lru1 ++ inuse1) (if 0 <? capacity_ s then <[(k, hs) := e]> m else m)) as Hi1.
  { eassert (filter _ _ = filter (fun kv => kv.2 ∈ lru' ++ inuse1) _) as ->; [|eapply indexes_sub; [exact Hi1| | |]].
    - apply map_filter_ext. intros [k' hs'] x Hx. cbn. apply Hi1 in Hx as [Hx _]. rewrite (ev_heap _ _ _ Hev). split.
      + intros Hs. destruct (decide (x ∈ l)) as [Hl|Hl]; [rewrite foldr_delete_in in Hs by done; by destruct Hs|].
        subst lru1. members. tauto.
      + intros Hx'. rewrite <- (ev_heap _ _ _ Hev). by apply (listed _ _ _ _ (co_lists _ _ _ Hc')).
    - eapply evicted_progress; [done| |].
      + destruct (lo_split _ _ _ (co_lists _ _ _ Hc1)) as (Hn & _). subst lru1. by apply list.NoDup_app in Hn as [? _].
      + intros x Hx. apply (listed _ _ _ _ (co_lists _ _ _ Hc1)). subst lru1. members. tauto.
    - intros x. apply (listed _ _ _ _ (co_lists _ _ _ Hc1)).
    - intros x Hx. split; [subst lru1; members; tauto|]. by apply (listed _ _ _ _ (co_lists _ _ _ Hc')). }
  eapply indexes_front; [exact Hcl|exact Hfresh|exact Hin|exact Hfl|exact Hcl1|exact Hold|exact Hrep].
Qed.

(** C5 (refinement): the cache is a map from keys, with their hashes, to
    entries.  An insertion maps its key to the new entry, unless the capacity is
    zero, and otherwise only takes out the entries it evicts, which are freed; a
    lookup returns the entry of its key, or none, and gives the client a
    reference to it; a release changes nothing; an erasure deletes the key; and
    pruning keeps exactly the entries the client holds. *)
Theorem lru_refines_map ins c op : reachable ins c -> allowed op c ->
  exists c' m m', exec op c = Some c' /\ represents (shard c) m /\ represents (shard c') m' /\ spec_step op c c' m m'.
Proof.
  intros Hr Hal. destruct (client_reachable_inv _ _ Hr) as (lru & inuse & Hcl & _).
  destruct (represents_some _ _ _ (cl_cache _ _ _ Hcl)) as [m Hm]. destruct c as [s hd].
  pose proof (cl_cache _ _ _ Hcl) as Hc. cbn [shard held] in *.
  destruct op as [k hs v ch d e|k hs|e|k hs|]; cbn [allowed exec shard held spec_step] in *.
  - destruct Hal as (H1 & H2 & H3 & H4).
    destruct (Insert_ok s hd lru inuse k hs v ch d e Hcl H1 H2 H3 H4)
      as (old & s1 & lru1 & inuse1 & l & lru' & s' & -> & El & Hin & Hfl & Hcl1 & Hcl' & Hev & _). cbn [mbind option_bind].
    eexists _, m, _. split; [done|]. split; [done|]. split; [|done].
    eapply represents_insert; [exact Hcl|exact H1|exact Hin|exact Hfl|exact Hcl1|exact Hcl'|exact El|exact Hev|exact Hm].
  - destruct (Lookup_ok s hd lru inuse k hs Hcl Hal) as (r & s' & lru' & inuse' & E & Hf & Hperm & Hrr & Hcl').
    rewrite E. cbn [mbind option_bind]. eexists _, m, m. split; [done|]. split; [done|]. split.
    + eapply represents_same; [exact Hc|apply (cl_cache _ _ _ Hcl')| |intros x; by rewrite Hperm|done].
      destruct r as [e|]; [|destruct Hrr as [-> _]; apply progress_refl].
      destruct Hrr as (_ & h & He & Hef). eapply effect_progress; [done|done|]. by intros h' [= <-].
    + split; [done|]. cbn. destruct (table_Lookup_ok _ _ _ _ k hs (co_table _ _ _ Hc)) as (r' & E' & Hr').
      rewrite (Hm k hs) in E'. injection E' as ->. by rewrite (found_unique _ _ _ _ _ _ _ _ (co_table _ _ _ Hc) Hf Hr').
  - destruct (Release_ok s hd lru inuse e Hcl Hal) as (h & s' & lru' & inuse' & He & E & Hef & Hperm & _ & Hcl').
    rewrite E. cbn [mbind option_bind]. eexists _, m, m. split; [done|]. split; [done|]. split; [|done].
    eapply represents_same; [exact Hc|apply (cl_cache _ _ _ Hcl')| |intros x; by rewrite Hperm|done].
    eapply effect_progress; [done|done|]. apply released_same'.
  - destruct (erase_ok s hd lru inuse k hs Hcl) as (r & s' & lru' & inuse' & E & Hf & Hcl' & Hp & _ & Hmem).
    unfold LRUCache_Erase. rewrite E. cbn [mbind option_bind]. eexists _, m, _. split; [done|]. split; [done|].
    split; [|done]. by eapply represents_erase; [exact Hc|apply (cl_cache _ _ _ Hcl')|..].
  - destruct (Prune_ok s hd lru inuse Hcl) as (s' & -> & Hcl' & _ & Hp). cbn [mbind option_bind].
    eexists _, m, _. split; [done|]. split; [done|]. split; [|done].
    by eapply (represents_prune s s').
Qed.

Lemma lru_refines_map_witness : exists c' m m', exec (OErase [1] 11) (demo 4) = Some c' /\
  represents (shard (demo 4)) m /\ represents (shard c') m' /\ m' = delete ([1], 11) m.
Proof. apply (lru_refines_map _ _ (OErase [1] 11) demo_reachable4). exact I. Defined.
