(* ===== verification/SkipList.v ===== *)
(** * The skip list of leveldb ([leveldb-library/db/skiplist.h])

    Nodes are an arena of records, never freed; the links of a node are an array
    of as many pointers as the node is high, [None] for a link not stored yet and
    [Some None] for a null pointer.  [None] as a result is a failed assertion, a
    load of an indeterminate pointer, an access past an array, or fuel that ran
    out.  The comparator, the key the head is built with and the generator of
    random numbers ([util/random.h], not part of the repository) are
    parameters. *)

From Stdlib Require Import Sorted.
From stdpp Require Import gmap sorting.
From S2P Require Import Prelude.

Abbreviation nptr := positive.

Section skiplist.
Context {Key R : Type} (compare_ : Key -> Key -> Z) (rnd_Next : R -> Z * R).

(** ** State *)

Record node := Node { nkey : Key; next_ : list (option (option nptr)) }.

Record skiplist := SkipList { nodes : gmap nptr node; head_ : nptr; max_height_ : nat; rnd_ : R }.

Definition kMaxHeight : nat := 12.

Definition with_nodes (n : gmap nptr node) (s : skiplist) : skiplist := SkipList n (head_ s) (max_height_ s) (rnd_ s).

(** [x->Next(n)], [x->SetNext(n, v)] and their variants without a barrier. *)
Definition Next (s : skiplist) (x : nptr) (n : nat) : option (option nptr) :=
  nd ← nodes s !! x; mjoin (next_ nd !! n).

Definition SetNext (x : nptr) (n : nat) (v : option nptr) (s : skiplist) : option skiplist :=
  nd ← nodes s !! x;
  if decide (n < length (next_ nd))%nat
  then Some (with_nodes (<[x := Node (nkey nd) (<[n := Some v]> (next_ nd))]> (nodes s)) s) else None.

(** [NewNode]; [x] is the address the arena returns. *)
Definition NewNode (x : nptr) (key : Key) (height : nat) (s : skiplist) : skiplist :=
  with_nodes (<[x := Node key (replicate height None)]> (nodes s)) s.

Definition key_of (s : skiplist) (x : nptr) : option Key := nkey <$> nodes s !! x.

(** The constructor. *)
Definition clear_head (s : skiplist) : option skiplist :=
  foldl (fun s i => s ← s; SetNext (head_ s) i None s) (Some s) (seq 0 kMaxHeight).

Definition SkipList_new (head : nptr) (key0 : Key) (rnd : R) : option skiplist :=
  clear_head (NewNode head key0 kMaxHeight (SkipList ∅ head 1 rnd)).

(** [while (height < kMaxHeight && ((rnd_.Next() % kBranching) == 0))] *)
Fixpoint random_height (fuel height : nat) (rnd : R) : nat * R :=
  match fuel with
  | O => (height, rnd)
  | S fuel =>
      let '(v, rnd) := rnd_Next rnd in
      if v mod 4 =? 0 then random_height fuel (S height) rnd else (height, rnd)
  end.

Definition RandomHeight (rnd : R) : nat * R := random_height (kMaxHeight - 1) 1 rnd.

(** ** Searching *)

Definition KeyIsAfterNode (s : skiplist) (key : Key) (n : option nptr) : option bool :=
  match n with
  | None => Some false
  | Some n => k ← key_of s n; Some (compare_ k key <? 0)
  end.

Definition Equal (a b : Key) : bool := compare_ a b =? 0.

(** The array [prev] of an insertion, or a null pointer. *)
Definition store_prev (prev : option (list (option nptr))) (level : nat) (x : nptr) :
    option (option (list (option nptr))) :=
  match prev with
  | None => Some None
  | Some prev => if decide (level < length prev)%nat then Some (Some (<[level := Some x]> prev)) else None
  end.

(** One turn of the loop of [FindGreaterOrEqual]: it goes on at a node and a
    level, or returns. *)
Definition find_ge_step (s : skiplist) (key : Key) (x : nptr) (level : nat) (prev : option (list (option nptr))) :
    option ((nptr * nat * option (list (option nptr))) + (option nptr * option (list (option nptr)))) :=
  next ← Next s x level;
  after ← KeyIsAfterNode s key next;
  match next, after with
  | Some n, true => Some (inl (n, level, prev))
  | _, _ =>
      prev ← store_prev prev level x;
      match level with O => Some (inr (next, prev)) | S level => Some (inl (x, level, prev)) end
  end.

Fixpoint find_ge (fuel : nat) (s : skiplist) (key : Key) (x : nptr) (level : nat) (prev : option (list (option nptr))) :
    option (option nptr * option (list (option nptr))) :=
  match fuel with
  | O => None
  | S fuel =>
      r ← find_ge_step s key x level prev;
      match r with
      | inr r => Some r
      | inl (x, level, prev) => find_ge fuel s key x level prev
      end
  end.

(** Every turn moves on to a node further on or one level down. *)
Definition search_fuel (s : skiplist) : nat := S (size (nodes s) + max_height_ s).

Definition FindGreaterOrEqual (s : skiplist) (key : Key) (prev : option (list (option nptr))) :
    option (option nptr * option (list (option nptr))) :=
  find_ge (search_fuel s) s key (head_ s) (max_height_ s - 1) prev.

Fixpoint find_lt (fuel : nat) (s : skiplist) (key : Key) (x : nptr) (level : nat) : option nptr :=
  match fuel with
  | O => None
  | S fuel =>
      kx ← key_of s x;
      if negb (bool_decide (x = head_ s) || (compare_ kx key <? 0)) then None else
      next ← Next s x level;
      after ← KeyIsAfterNode s key next;
      match next, after with
      | Some n, true => find_lt fuel s key n level
      | _, _ => match level with O => Some x | S level => find_lt fuel s key x level end
      end
  end.

Definition FindLessThan (s : skiplist) (key : Key) : option nptr :=
  find_lt (search_fuel s) s key (head_ s) (max_height_ s - 1).

Fixpoint find_last (fuel : nat) (s : skiplist) (x : nptr) (level : nat) : option nptr :=
  match fuel with
  | O => None
  | S fuel =>
      next ← Next s x level;
      match next with
      | Some n => find_last fuel s n level
      | None => match level with O => Some x | S level => find_last fuel s x level end
      end
  end.

Definition FindLast (s : skiplist) : option nptr := find_last (search_fuel s) s (head_ s) (max_height_ s - 1).

Definition Contains (s : skiplist) (key : Key) : option bool :=
  '(x, _) ← FindGreaterOrEqual s key None;
  match x with
  | None => Some false
  | Some x => k ← key_of s x; Some (Equal key k)
  end.

(** ** Insertion *)

(** [for (int i = GetMaxHeight(); i < height; i++) prev[i] = head_;] *)
Definition raise_prev (s : skiplist) (height : nat) (prev : list (option nptr)) : option (list (option nptr)) :=
  foldl (fun prev i => prev ← prev; if decide (i < length prev)%nat then Some (<[i := Some (head_ s)]> prev) else None)
    (Some prev) (seq (max_height_ s) (height - max_height_ s)).

(** An insertion whose node [px] of height [pheight] is being linked. *)
Record pending := Pending { px : nptr; pheight : nat; pprev : list (option nptr) }.

(** Up to and including [NewNode]. *)
Definition insert_begin (key : Key) (x : nptr) (s : skiplist) : option (skiplist * pending) :=
  '(y, prev) ← FindGreaterOrEqual s key (Some (replicate kMaxHeight None));
  prev ← prev;
  eq ← match y with None => Some false | Some y => k ← key_of s y; Some (Equal key k) end;
  if eq : bool then None else
  let '(height, rnd) := RandomHeight (rnd_ s) in
  let s := SkipList (nodes s) (head_ s) (max_height_ s) rnd in
  '(s, prev) ← (if decide (max_height_ s < height)%nat then
                  prev ← raise_prev s height prev; Some (SkipList (nodes s) (head_ s) height rnd, prev)
                else Some (s, prev));
  Some (NewNode x key height s, Pending x height prev).

(** The two stores of one turn of the loop. *)
Definition link_own (w : pending) (i : nat) (s : skiplist) : option skiplist :=
  p ← mjoin (pprev w !! i); n ← Next s p i; SetNext (px w) i n s.
Definition link_publish (w : pending) (i : nat) (s : skiplist) : option skiplist :=
  p ← mjoin (pprev w !! i); SetNext p i (Some (px w)) s.

Fixpoint link_loop (n i : nat) (w : pending) (s : skiplist) : option skiplist :=
  match n with
  | O => Some s
  | S n => s ← link_own w i s; s ← link_publish w i s; link_loop n (S i) w s
  end.

Definition Insert (key : Key) (x : nptr) (s : skiplist) : option skiplist :=
  '(s, w) ← insert_begin key x s; link_loop (pheight w) 0 w s.

(** ** Iterators: the node, null when not valid *)

Definition Iterator : option nptr := None.
Definition Valid (it : option nptr) : bool := bool_decide (is_Some it).
Definition Iterator_key (s : skiplist) (it : option nptr) : option Key := x ← it; key_of s x.
Definition Iterator_Next (s : skiplist) (it : option nptr) : option (option nptr) := x ← it; Next s x 0.
Definition Iterator_Prev (s : skiplist) (it : option nptr) : option (option nptr) :=
  x ← it; k ← key_of s x; y ← FindLessThan s k;
  Some (if bool_decide (y = head_ s) then None else Some y).
Definition Seek (s : skiplist) (target : Key) : option (option nptr) := fst <$> FindGreaterOrEqual s target None.
Definition SeekToFirst (s : skiplist) : option (option nptr) := Next s (head_ s) 0.
Definition SeekToLast (s : skiplist) : option (option nptr) :=
  y ← FindLast s; Some (if bool_decide (y = head_ s) then None else Some y).

(** ** Ordered entries *)

(** The comparator is a total preorder given by the sign of its result. *)
Record comparator : Prop := {
  cmp_flip a b : Z.sgn (compare_ b a) = - Z.sgn (compare_ a b);
  cmp_trans a b c : compare_ a b <= 0 -> compare_ b c <= 0 -> compare_ a c <= 0;
}.

(** A node of a level with its key. *)
Abbreviation entry := (nptr * Key)%type.

Definition below (k : Key) (l : list entry) : list entry := filter (fun e => compare_ e.2 k < 0) l.
Definition above (k : Key) (l : list entry) : list entry := filter (fun e => ~ compare_ e.2 k < 0) l.
Definition sorted (l : list entry) : Prop := StronglySorted (fun a b => compare_ a.2 b.2 < 0) l.

(** The first node of a list, null when it is empty, and the last one, [p] then. *)
Definition first_of (l : list entry) : option nptr := fst <$> head l.
Fixpoint last_or (p : nptr) (l : list entry) : nptr :=
  match l with [] => p | e :: l => last_or e.1 l end.

Section order.
Hypothesis Hcmp : comparator.

Lemma cmp_ge a b : ~ compare_ a b < 0 <-> compare_ b a <= 0.
Proof using Hcmp. pose proof (cmp_flip Hcmp a b). lia. Qed.

Lemma cmp_lt_le_trans a b c : compare_ a b < 0 -> compare_ b c <= 0 -> compare_ a c < 0.
Proof using Hcmp.
  intros H1 H2. destruct (Z.lt_ge_cases (compare_ a c) 0) as [|H]; [done|].
  assert (compare_ b a <= 0) by (eapply (cmp_trans Hcmp); [done|]; apply cmp_ge; lia).
  pose proof (cmp_flip Hcmp a b). lia.
Qed.

Lemma cmp_le_lt_trans a b c : compare_ a b <= 0 -> compare_ b c < 0 -> compare_ a c < 0.
Proof using Hcmp.
  intros H1 H2. destruct (Z.lt_ge_cases (compare_ a c) 0) as [|H]; [done|].
  assert (compare_ c b <= 0) by (eapply (cmp_trans Hcmp); [|exact H1]; apply cmp_ge; lia).
  pose proof (cmp_flip Hcmp b c). lia.
Qed.

Lemma sorted_split k l : sorted l -> l = below k l ++ above k l.
Proof using Hcmp.
  induction 1 as [|e l Hl IH He]; [done|]. unfold below, above. rewrite !filter_cons.
  destruct (decide (compare_ e.2 k < 0)) as [Hk|Hk].
  - rewrite decide_False by tauto. cbn. f_equal. exact IH.
  - rewrite decide_True by done. fold (below k l) (above k l).
    assert (below k l = []) as E; [|rewrite E in *; cbn; by f_equal].
    unfold below. destruct (filter _ l) as [|y l'] eqn:Ef; [done|]. exfalso.
    assert (y ∈ filter (fun e => compare_ e.2 k < 0) l) as Hy by (rewrite Ef; left).
    apply list_elem_of_filter in Hy as [Hyk Hy]. rewrite List.Forall_forall in He.
    apply list_elem_of_In, He in Hy. apply Hk. eapply cmp_lt_le_trans; [exact Hy|lia].
Qed.
End order.

Lemma elem_of_below k l e : e ∈ below k l <-> compare_ e.2 k < 0 /\ e ∈ l.
Proof. unfold below, above. by rewrite list_elem_of_filter. Qed.
Lemma elem_of_above k l e : e ∈ above k l <-> ~ compare_ e.2 k < 0 /\ e ∈ l.
Proof. unfold below, above. by rewrite list_elem_of_filter. Qed.

Lemma sorted_sublist l l' : l `sublist_of` l' -> sorted l' -> sorted l.
Proof.
  induction 1 as [|e l l' Hs IH|e l l' Hs IH]; intros Hl; [constructor| |]; inversion_clear Hl as [|? ? Hl' He].
  - constructor; [by apply IH|]. rewrite List.Forall_forall in He |- *. intros x Hx. apply He.
    apply list_elem_of_In. eapply elem_of_sublist; [|done]. by apply list_elem_of_In.
  - by apply IH.
Qed.

Lemma last_or_app p l l' : last_or p (l ++ l') = last_or (last_or p l) l'.
Proof. revert p. induction l as [|e l IH]; intros p; [done|]. apply IH. Qed.

Lemma last_or_elem p l : last_or p l = p \/ last_or p l ∈ l.*1.
Proof.
  revert p. induction l as [|e l IH]; intros p; [by left|]. right. cbn. destruct (IH e.1) as [->|H]; [left|by right].
Qed.

(** ** Levels *)

(** In level [i] of [s] the links lead from [p] through the entries [l] to [q]. *)
Fixpoint path (s : skiplist) (i : nat) (p : nptr) (l : list entry) (q : option nptr) : Prop :=
  match l with
  | [] => Next s p i = Some q
  | e :: l => Next s p i = Some (Some e.1) /\ key_of s e.1 = Some e.2 /\ path s i e.1 l q
  end.

Lemma path_app s i p l l' q :
  path s i p (l ++ l') q <-> path s i p l (from_option (fun e => Some e.1) q (head l')) /\ path s i (last_or p l) l' q.
Proof.
  revert p. induction l as [|e l IH]; intros p; cbn.
  - destruct l' as [|e l']; cbn; tauto.
  - rewrite IH. tauto.
Qed.

Lemma path_first s i p l q : path s i p l q -> Next s p i = Some (from_option (fun e => Some e.1) q (head l)).
Proof. destruct l as [|e l]; [done|]. by intros [? _]. Qed.

Lemma path_key s i p l q e : path s i p l q -> e ∈ l -> key_of s e.1 = Some e.2.
Proof.
  revert p. induction l as [|y l IH]; intros p Hp He; [by apply elem_of_nil in He|]. destruct Hp as (_ & Hk & Hp).
  apply elem_of_cons in He as [->|He]; [done|]. by eapply IH.
Qed.

(** A change that keeps the keys, and the links of level [i] but at nodes off the path. *)
Lemma path_frame s s' i p l q : path s i p l q ->
  (forall x, x ∈ p :: l.*1 -> Next s' x i = Next s x i /\ (x ∈ l.*1 -> key_of s' x = key_of s x)) -> path s' i p l q.
Proof.
  revert p. induction l as [|e l IH]; intros p; cbn.
  - intros Hp Hs. by rewrite (proj1 (Hs p ltac:(left))).
  - intros (Hn & Hk & Hp) Hs. split; [by rewrite (proj1 (Hs p ltac:(left)))|]. split.
    + rewrite (proj2 (Hs e.1 ltac:(right; left)) ltac:(left)). done.
    + apply IH; [done|]. intros x Hx. destruct (Hs x) as [H1 H2]; [by right|]. split; [done|].
      intros Hx'. apply H2. by right.
Qed.

Definition height_of (s : skiplist) (x : nptr) : option nat := (fun nd => length (next_ nd)) <$> nodes s !! x.

(** The entries of every level; the bottom one has them all. *)
Record levels_ok (s : skiplist) (L : nat -> list entry) : Prop := {
  lk_head : height_of s (head_ s) = Some kMaxHeight;
  lk_path i : (i < kMaxHeight)%nat -> path s i (head_ s) (L i) None;
  lk_sorted : sorted (L 0%nat);
  lk_nodup : NoDup (head_ s :: (L 0%nat).*1);
  lk_sub i : L (S i) `sublist_of` L i;
  lk_empty i : (max_height_ s <= i)%nat -> L i = [];
  lk_height : (1 <= max_height_ s <= kMaxHeight)%nat;
}.

Section levels.
Context (s : skiplist) (L : nat -> list entry) (Hok : levels_ok s L).

Lemma lk_bottom i : L i `sublist_of` L 0%nat.
Proof using Hok. induction i as [|i IH]; [done|]. transitivity (L i); [by apply lk_sub with s|done]. Qed.

Lemma lk_sorted_at i : sorted (L i).
Proof using Hok. eapply sorted_sublist; [apply lk_bottom|apply Hok]. Qed.

Lemma lk_key i e : e ∈ L i -> key_of s e.1 = Some e.2.
Proof using Hok.
  intros He. apply (path_key s 0 (head_ s) (L 0%nat) None); [apply Hok; unfold kMaxHeight; lia|].
  eapply elem_of_sublist; [exact He|apply lk_bottom].
Qed.

Lemma lk_nodup_at i : NoDup (head_ s :: (L i).*1).
Proof using Hok.
  eapply sublist_NoDup; [exact (lk_nodup _ _ Hok)|]. apply sublist_skip, fmap_sublist, lk_bottom.
Qed.

Lemma lk_size : (length (L 0%nat) <= size (nodes s))%nat.
Proof using Hok.
  pose proof (lk_nodup _ _ Hok) as Hn. apply list.NoDup_cons in Hn as [_ Hn].
  rewrite <- (length_fmap fst), <- size_dom, <- (size_list_to_set (C := gset nptr)) by done.
  apply subseteq_size. intros x Hx. rewrite elem_of_list_to_set in Hx. apply list_elem_of_fmap in Hx as (e & -> & He).
  apply elem_of_dom. pose proof (lk_key 0 e He) as Hk. unfold key_of in Hk. destruct (nodes s !! e.1); [by eexists|done].
Qed.
End levels.

(** ** Searches *)

(** A search for [k] is at node [x], the head or an entry of the level before [k];
    [okx] is the key of an entry. *)
Definition located (s : skiplist) (L : nat -> list entry) (k : Key) (x : nptr) (okx : option Key) (level : nat) : Prop :=
  (level < kMaxHeight)%nat /\
  match okx with None => x = head_ s | Some kx => (x, kx) ∈ L level /\ compare_ kx k < 0 end.

(** Where a search stops in a level, and what comes next. *)
Definition pred_of (s : skiplist) (k : Key) (l : list entry) : nptr := last_or (head_ s) (below k l).
Definition succ_of (k : Key) (l : list entry) : option nptr := first_of (above k l).

Lemma length_filter_lt {A} (P Q : A -> Prop) `{!forall x, Decision (P x)} `{!forall x, Decision (Q x)} (l : list A) x :
  (forall y, y ∈ l -> P y -> Q y) -> x ∈ l -> Q x -> ~ P x -> (length (filter P l) < length (filter Q l))%nat.
Proof.
  assert (forall l, (forall y, y ∈ l -> P y -> Q y) -> (length (filter P l) <= length (filter Q l))%nat) as Hle.
  { clear l. induction l as [|y l IH]; intros Hi; [done|]. rewrite !filter_cons.
    specialize (IH ltac:(intros z Hz; apply Hi; by right)). pose proof (Hi y ltac:(left)).
    destruct (decide (P y)), (decide (Q y)); cbn; try tauto; lia. }
  induction l as [|y l IH]; intros Hi Hx HQ HP; [by apply elem_of_nil in Hx|]. rewrite !filter_cons.
  assert (forall z, z ∈ l -> P z -> Q z) as Hi' by (intros z Hz; apply Hi; by right).
  apply elem_of_cons in Hx as [->|Hx].
  - rewrite decide_False, decide_True by done. cbn. pose proof (Hle l Hi'). lia.
  - specialize (IH Hi' Hx HQ HP). pose proof (Hi y ltac:(left)). destruct (decide (P y)), (decide (Q y)); cbn; try tauto; lia.
Qed.

Lemma sorted_after A e B x : sorted (A ++ e :: B) -> x ∈ B -> compare_ e.2 x.2 < 0.
Proof.
  intros Hs Hx. assert (sorted (e :: B)) as Hs' by (eapply sorted_sublist; [|exact Hs]; by apply sublist_inserts_l).
  inversion_clear Hs' as [|? ? _ He]. rewrite List.Forall_forall in He. by apply He, list_elem_of_In.
Qed.

Section search.
Context (Hcmp : comparator) (s : skiplist) (L : nat -> list entry) (Hok : levels_ok s L).

(** One load of a search: an entry further on that still is before the key, or
    the end of this level. *)
Lemma search_load k x okx level : located s L k x okx level ->
  exists next, Next s x level = Some next /\
    ((exists n kn, next = Some n /\ located s L k n (Some kn) level /\ KeyIsAfterNode s k next = Some true /\
        match okx with Some kx => compare_ kx kn < 0 | None => True end) \/
     (x = pred_of s k (L level) /\ next = succ_of k (L level) /\ KeyIsAfterNode s k next = Some false)).
Proof using Hcmp Hok.
  intros [Hl Hx]. pose proof (lk_sorted_at s L Hok level) as Hs.
  assert (forall n kn, (n, kn) ∈ L level -> compare_ kn k < 0 -> KeyIsAfterNode s k (Some n) = Some true) as Htrue.
  { intros n kn Hn Hlt. pose proof (lk_key s L Hok level (n, kn) Hn) as Ek. cbn [fst snd] in Ek.
    unfold KeyIsAfterNode. rewrite Ek. cbn. by rewrite (proj2 (Z.ltb_lt _ _) Hlt). }
  assert (KeyIsAfterNode s k (succ_of k (L level)) = Some false) as Hfalse.
  { unfold succ_of, first_of. destruct (above k (L level)) as [|e l] eqn:E; [done|]. cbn.
    assert (e ∈ above k (L level)) as He by (rewrite E; left). apply elem_of_above in He as [Hge He].
    rewrite (lk_key s L Hok level e He). cbn. f_equal. apply Z.ltb_ge. lia. }
  assert (exists A B, below k (L level) = A ++ B /\ x = last_or (head_ s) A /\
    match okx with Some kx => forall e, e ∈ B -> compare_ kx e.2 < 0 | None => True end) as (A & B & E & -> & HB).
  { destruct okx as [kx|]; [|by exists [], (below k (L level))].
    destruct Hx as [Hin Hlt]. assert ((x, kx) ∈ below k (L level)) as Hb by (by apply elem_of_below).
    apply list_elem_of_split in Hb as (A & B & E). exists (A ++ [(x, kx)]), B.
    rewrite E, <- app_assoc, last_or_app. split; [done|]. split; [done|]. intros e He.
    apply (sorted_after A (x, kx) B); [|done]. rewrite <- E. eapply sorted_sublist; [apply sublist_filter|done]. }
  pose proof (lk_path _ _ Hok level Hl) as Hp. rewrite (sorted_split Hcmp k (L level) Hs), E, <- app_assoc in Hp.
  apply path_app in Hp as [_ Hp]. apply path_first in Hp. exists (first_of (B ++ above k (L level))).
  split; [rewrite Hp; by destruct (B ++ _)|]. destruct B as [|[n kn] B].
  - right. rewrite app_nil_r in E. unfold pred_of. by rewrite E.
  - left. exists n, kn. assert ((n, kn) ∈ below k (L level)) as Hn by (rewrite E; apply elem_of_app; right; left).
    apply elem_of_below in Hn as [Hlt Hn]. split; [done|]. split; [done|]. split; [by apply (Htrue n kn)|].
    destruct okx; [|done]. apply (HB (n, kn)). left.
Qed.

(** The entries a search can still pass. *)
Definition ahead (okx : option Key) (e : entry) : Prop :=
  match okx with None => True | Some kx => compare_ kx e.2 < 0 end.
Instance ahead_dec okx e : Decision (ahead okx e).
Proof. unfold ahead. destruct okx; apply _. Defined.
Definition distance (okx : option Key) : nat := length (filter (ahead okx) (L 0%nat)).

Lemma distance_step okx n kn : (n, kn) ∈ L 0%nat -> ahead okx (n, kn) -> (distance (Some kn) < distance okx)%nat.
Proof using Hcmp.
  intros Hin Hah. unfold distance. apply (length_filter_lt _ _ _ (n, kn)); [|done|done|].
  - intros e _ He. cbn in He. destruct okx as [kx|]; [|done]. eapply (cmp_lt_le_trans Hcmp); [exact Hah|]. cbn. lia.
  - cbn. pose proof (cmp_flip Hcmp kn kn). lia.
Qed.

Lemma distance_size okx : (distance okx <= size (nodes s))%nat.
Proof using Hok. etransitivity; [apply length_filter|]. by apply lk_size. Qed.

Lemma located_down k x okx level : located s L k x okx (S level) -> located s L k x okx level.
Proof using Hok.
  intros [Hl Hx]. split; [lia|]. destruct okx as [kx|]; [|done]. split; [|by apply Hx].
  eapply elem_of_sublist; [apply Hx|]. apply (lk_sub _ _ Hok).
Qed.

(** What a search from [level] down stores in [prev]. *)
Definition prevs (k : Key) (level : nat) (prev prev' : option (list (option nptr))) : Prop :=
  match prev, prev' with
  | None, None => True
  | Some pv, Some pv' => length pv' = length pv /\
      forall j, pv' !! j = if decide (j <= level)%nat then Some (Some (pred_of s k (L j))) else pv !! j
  | _, _ => False
  end.

Lemma store_prev_ok k level prev : match prev with Some pv => (level < length pv)%nat | None => True end ->
  exists prev', store_prev prev level (pred_of s k (L level)) = Some prev' /\
    match prev, prev' with
    | None, None => True
    | Some pv, Some pv' => length pv' = length pv /\
        forall j, pv' !! j = if decide (j = level) then Some (Some (pred_of s k (L j))) else pv !! j
    | _, _ => False
    end.
Proof using.
  intros Hl. destruct prev as [pv|]; cbn; [|by exists None]. rewrite decide_True by done.
  eexists. split; [done|]. cbn. rewrite length_insert. split; [done|]. intros j.
  destruct (decide (j = level)) as [->|Hj]; [by rewrite list_lookup_insert_eq|by rewrite list_lookup_insert_ne].
Qed.

(** One turn of [FindGreaterOrEqual]. *)
Lemma find_ge_step_ok k x okx level prev : located s L k x okx level ->
  match prev with Some pv => (level < length pv)%nat | None => True end ->
  exists r, find_ge_step s k x level prev = Some r /\
    ((exists n kn, r = inl (n, level, prev) /\ located s L k n (Some kn) level /\ ahead okx (n, kn)) \/
     (x = pred_of s k (L level) /\ exists prev', store_prev prev level x = Some prev' /\
        r = match level with O => inr (succ_of k (L 0%nat), prev') | S level => inl (x, level, prev') end)).
Proof using Hcmp Hok.
  intros Hx Hp. unfold find_ge_step.
  destruct (search_load k x okx level Hx) as (next & -> & [(n & kn & -> & Hn & Hk & Hlt)|(-> & -> & Hk)]);
    cbn [mbind option_bind]; rewrite Hk; cbn [mbind option_bind].
  - eexists. split; [done|]. left. exists n, kn. split; [done|]. split; [done|]. by destruct okx.
  - destruct (store_prev_ok k level prev Hp) as (prev' & E & _).
    exists (match level with O => inr (succ_of k (L 0%nat), prev') | S level' => inl (pred_of s k (L level), level', prev') end).
    split; [|right; split; [done|]; exists prev'; by destruct level].
    destruct level as [|l]; [destruct (succ_of k (L 0%nat))|destruct (succ_of k (L (S l)))]; by rewrite E.
Qed.

Lemma find_ge_ok fuel k x okx level prev : located s L k x okx level -> (distance okx + level < fuel)%nat ->
  match prev with Some pv => (level < length pv)%nat | None => True end ->
  exists prev', find_ge fuel s k x level prev = Some (succ_of k (L 0%nat), prev') /\ prevs k level prev prev'.
Proof using Hcmp Hok.
  revert x okx level prev. induction fuel as [|fuel IH]; intros x okx level prev Hx Hf Hp; [lia|]. cbn [find_ge].
  destruct (find_ge_step_ok k x okx level prev Hx Hp) as (r & -> & [(n & kn & -> & Hn & Hah)|(Ex & prev' & E & ->)]);
    cbn [mbind option_bind].
  - apply (IH n (Some kn)); [done| |done].
    assert ((n, kn) ∈ L 0%nat) as Hin by (eapply elem_of_sublist; [apply Hn|]; by apply (lk_bottom s)).
    pose proof (distance_step okx n kn Hin Hah). lia.
  - destruct (store_prev_ok k level prev Hp) as (prev2 & E2 & Hst). rewrite <- Ex, E in E2. injection E2 as <-.
    destruct level as [|level].
    + exists prev'. split; [done|]. destruct prev as [pv|], prev' as [pv'|]; try done. destruct Hst as [Hlen Hst].
      split; [done|]. intros j. rewrite (Hst j). destruct (decide (j = 0)%nat) as [->|]; [done|].
      by rewrite decide_False by lia.
    + apply located_down in Hx. destruct (IH x okx level prev' Hx ltac:(lia)) as (prev3 & -> & Hpr).
      { destruct prev as [pv|], prev' as [pv'|]; try done. destruct Hst as [-> _]. lia. }
      exists prev3. split; [done|]. destruct prev as [pv|], prev' as [pv'|], prev3 as [pv3|]; try done.
      destruct Hst as [Hl1 Hst], Hpr as [Hl2 Hpr]. split; [by rewrite Hl2|]. intros j. rewrite (Hpr j), (Hst j).
      destruct (decide (j <= level)%nat), (decide (j <= S level)%nat), (decide (j = S level)%nat); try done; lia.
Qed.

Lemma located_start k : located s L k (head_ s) None (max_height_ s - 1).
Proof using Hok. split; [|done]. pose proof (lk_height _ _ Hok). lia. Qed.

Lemma search_fuel_enough okx : (distance okx + (max_height_ s - 1) < search_fuel s)%nat.
Proof using Hok. unfold search_fuel. pose proof (distance_size okx). lia. Qed.

Lemma FindGreaterOrEqual_ok k prev : match prev with Some pv => length pv = kMaxHeight | None => True end ->
  exists prev', FindGreaterOrEqual s k prev = Some (succ_of k (L 0%nat), prev') /\ prevs k (max_height_ s - 1) prev prev'.
Proof using Hcmp Hok.
  intros Hp. apply (find_ge_ok _ k (head_ s) None); [apply located_start|apply search_fuel_enough|].
  pose proof (lk_height _ _ Hok). destruct prev; [lia|done].
Qed.

Lemma find_lt_ok fuel k x okx level : located s L k x okx level -> (distance okx + level < fuel)%nat ->
  find_lt fuel s k x level = Some (pred_of s k (L 0%nat)).
Proof using Hcmp Hok.
  revert x okx level. induction fuel as [|fuel IH]; intros x okx level Hx Hf; [lia|]. cbn [find_lt].
  assert (exists kx, key_of s x = Some kx /\ (x = head_ s \/ compare_ kx k < 0)) as (kx & -> & Hass).
  { destruct Hx as [_ Hx]. destruct okx as [kx|].
    - exists kx. split; [exact (lk_key s L Hok level (x, kx) (proj1 Hx))|right; apply Hx].
    - subst x. pose proof (lk_head _ _ Hok) as Hh. unfold height_of, key_of in *.
      destruct (nodes s !! head_ s) as [nd|]; [|done]. exists (nkey nd). by split; [|left]. }
  cbn [mbind option_bind]. assert (bool_decide (x = head_ s) || (compare_ kx k <? 0) = true) as ->.
  { destruct Hass as [Hh|Hlt]; [by rewrite bool_decide_true|]. rewrite (proj2 (Z.ltb_lt _ _) Hlt). apply orb_true_r. }
  cbn [negb]. destruct (search_load k x okx level Hx) as (next & -> & [(n & kn & -> & Hn & Hk & Hlt)|(Ex & -> & Hk)]);
    cbn [mbind option_bind]; rewrite Hk; cbn [mbind option_bind].
  - apply (IH n (Some kn)); [done|].
    assert ((n, kn) ∈ L 0%nat) as Hin by (eapply elem_of_sublist; [apply Hn|]; by apply (lk_bottom s)).
    pose proof (distance_step okx n kn Hin ltac:(by destruct okx)). lia.
  - destruct level as [|level]; [destruct (succ_of _ _); by rewrite Ex|].
    apply located_down in Hx. destruct (succ_of _ _); apply (IH x okx level Hx); lia.
Qed.

Lemma FindLessThan_ok k : FindLessThan s k = Some (pred_of s k (L 0%nat)).
Proof using Hcmp Hok. apply (find_lt_ok _ k (head_ s) None); [apply located_start|apply search_fuel_enough]. Qed.

(** A load at a node of a level, with the entries after the node. *)
Lemma entry_load x okx level : (level < kMaxHeight)%nat ->
  match okx with None => x = head_ s | Some kx => (x, kx) ∈ L level end ->
  exists A B, L level = A ++ B /\ x = last_or (head_ s) A /\ Next s x level = Some (first_of B) /\
    forall e, e ∈ B -> ahead okx e.
Proof using Hok.
  intros Hl Hx. pose proof (lk_path _ _ Hok level Hl) as Hp.
  assert (exists A B, L level = A ++ B /\ x = last_or (head_ s) A /\ forall e, e ∈ B -> ahead okx e) as (A & B & E & -> & HB).
  { destruct okx as [kx|]; [|by exists [], (L level)].
    apply list_elem_of_split in Hx as (A & B & E). exists (A ++ [(x, kx)]), B.
    rewrite E, <- app_assoc, last_or_app. split; [done|]. split; [done|]. intros e He.
    apply (sorted_after A (x, kx) B); [|done]. rewrite <- E. by apply (lk_sorted_at s). }
  exists A, B. split; [done|]. split; [done|]. split; [|done]. rewrite E in Hp. apply path_app in Hp as [_ Hp].
  apply path_first in Hp. rewrite Hp. by destruct B.
Qed.

Lemma find_last_ok fuel x okx level : (level < kMaxHeight)%nat ->
  match okx with None => x = head_ s | Some kx => (x, kx) ∈ L level end -> (distance okx + level < fuel)%nat ->
  find_last fuel s x level = Some (last_or (head_ s) (L 0%nat)).
Proof using Hcmp Hok.
  revert x okx level. induction fuel as [|fuel IH]; intros x okx level Hl Hx Hf; [lia|]. cbn [find_last].
  destruct (entry_load x okx level Hl Hx) as (A & B & E & Ex & -> & HB). cbn [mbind option_bind].
  destruct B as [|[n kn] B]; cbn.
  - rewrite app_nil_r in E. destruct level as [|level]; [by rewrite Ex, E|]. apply (IH x okx); [lia| |lia].
    destruct okx; [|done]. eapply elem_of_sublist; [exact Hx|]. apply (lk_sub _ _ Hok).
  - assert ((n, kn) ∈ L level) as Hn by (rewrite E; apply elem_of_app; right; left).
    apply (IH n (Some kn)); [done|done|].
    assert ((n, kn) ∈ L 0%nat) as Hin by (eapply elem_of_sublist; [exact Hn|]; by apply (lk_bottom s)).
    pose proof (distance_step okx n kn Hin (HB _ ltac:(left))). lia.
Qed.

Lemma FindLast_ok : FindLast s = Some (last_or (head_ s) (L 0%nat)).
Proof using Hcmp Hok.
  apply (find_last_ok _ (head_ s) None); [|done|apply search_fuel_enough]. pose proof (lk_height _ _ Hok). lia.
Qed.
End search.

(** ** Stores *)

(** [s'] is [s] with the link [n] of [y] set to [v]. *)
Record set_effect (s s' : skiplist) (y : nptr) (n : nat) (v : option nptr) : Prop := {
  se_next z m : Next s' z m = if decide (z = y /\ m = n) then Some v else Next s z m;
  se_key z : key_of s' z = key_of s z;
  se_height z : height_of s' z = height_of s z;
  se_head : head_ s' = head_ s;
  se_max : max_height_ s' = max_height_ s;
  se_fresh z : nodes s !! z = None -> nodes s' !! z = None;
}.

Lemma SetNext_ok s y n v h : height_of s y = Some h -> (n < h)%nat ->
  exists s', SetNext y n v s = Some s' /\ set_effect s s' y n v.
Proof.
  unfold height_of, SetNext. destruct (nodes s !! y) as [nd|] eqn:E; [|done]. intros [= <-] Hn. cbn.
  rewrite decide_True by done. eexists. split; [done|]. split; unfold Next, key_of, height_of; cbn.
  - intros z m. destruct (decide (z = y)) as [->|Hz].
    + rewrite lookup_insert_eq, E. cbn. destruct (decide (m = n)) as [->|Hm].
      * rewrite decide_True by done. by rewrite list_lookup_insert_eq.
      * rewrite decide_False by tauto. by rewrite list_lookup_insert_ne.
    + rewrite lookup_insert_ne by congruence. by rewrite decide_False by tauto.
  - intros z. destruct (decide (z = y)) as [->|Hz]; [by rewrite lookup_insert_eq, E|by rewrite lookup_insert_ne by congruence].
  - intros z. destruct (decide (z = y)) as [->|Hz]; [|by rewrite lookup_insert_ne by congruence].
    rewrite lookup_insert_eq, E. cbn. by rewrite length_insert.
  - done.
  - done.
  - intros z Hz. rewrite lookup_insert_ne; [done|]. intros ->. congruence.
Qed.

Lemma SetNext_fresh y n v s s' z : SetNext y n v s = Some s' -> nodes s !! z = None -> nodes s' !! z = None.
Proof.
  unfold SetNext. destruct (nodes s !! y) as [nd|] eqn:E; [|done]. cbn. destruct (decide _); [|done].
  intros [= <-] Hz. cbn. rewrite lookup_insert_ne; [done|]. intros ->. congruence.
Qed.

Lemma Next_height s x n v : Next s x n = Some v -> exists h, height_of s x = Some h /\ (n < h)%nat.
Proof.
  unfold Next, height_of. destruct (nodes s !! x) as [nd|]; [|done]. cbn. intros H. exists (length (next_ nd)).
  split; [done|]. destruct (next_ nd !! n) eqn:E; [|done]. by apply lookup_lt_Some in E.
Qed.

Lemma levels_ok_ext s L L' : (forall i, L' i = L i) -> levels_ok s L -> levels_ok s L'.
Proof.
  intros He [H1 H2 H3 H4 H5 H6 H7]. split; rewrite ?He; try done.
  - intros i Hi. rewrite He. by apply H2.
  - intros i. rewrite !He. apply H5.
  - intros i Hi. rewrite He. by apply H6.
Qed.

Lemma levels_ok_frame s s' L : levels_ok s L ->
  (forall i z, z ∈ head_ s :: (L i).*1 -> Next s' z i = Next s z i) -> (forall z, z ∈ (L 0%nat).*1 -> key_of s' z = key_of s z) ->
  head_ s' = head_ s -> height_of s' (head_ s) = height_of s (head_ s) ->
  (max_height_ s <= max_height_ s' <= kMaxHeight)%nat -> levels_ok s' L.
Proof.
  intros Hok Hn Hk Hh Hhd Hm. pose proof (lk_height _ _ Hok) as Hmax. split; rewrite ?Hh; try apply Hok.
  - rewrite Hhd. apply Hok.
  - intros i Hi. eapply path_frame; [by apply (lk_path _ _ Hok)|]. intros x Hx. split; [by apply Hn|].
    intros Hx'. apply Hk. apply list_elem_of_fmap in Hx' as (e & -> & He). apply list_elem_of_fmap. exists e.
    split; [done|]. eapply elem_of_sublist; [exact He|by apply (lk_bottom s)].
  - intros i Hi. apply (lk_empty _ _ Hok). lia.
  - lia.
Qed.

Lemma path_set s s' i p l q v : path s i p l q -> NoDup (p :: l.*1) -> set_effect s s' (last_or p l) i v -> path s' i p l v.
Proof.
  revert p. induction l as [|e l IH]; intros p Hp Hn Hef; cbn in *.
  - rewrite (se_next _ _ _ _ _ Hef). by rewrite decide_True.
  - apply list.NoDup_cons in Hn as [Hpl Hn]. destruct Hp as (Hnx & Hk & Hp). split; [|split; [by rewrite (se_key _ _ _ _ _ Hef)|by apply IH]].
    rewrite (se_next _ _ _ _ _ Hef), decide_False; [done|]. intros [Ep _]. apply Hpl. rewrite Ep.
    destruct (last_or_elem e.1 l) as [->|H]; [left|by right].
Qed.

(** ** Linking a node *)

Section link.
Context (Hcmp : comparator) (L : nat -> list entry) (k : Key) (w : pending).

Definition ins (l : list entry) : list entry := below k l ++ (px w, k) :: above k l.

(** The levels once the node is linked in the first [i] of them. *)
Definition linked (i j : nat) : list entry := if decide (j < i)%nat then ins (L j) else L j.

(** The insertion is about to link level [i]; [own] tells whether the node's own
    link of that level is already stored. *)
Record linking (s : skiplist) (i : nat) (own : bool) : Prop := {
  ln_ok : levels_ok s (linked i);
  ln_order : sorted (L 0%nat) /\ forall j, L (S j) `sublist_of` L j;
  ln_key : key_of s (px w) = Some k;
  ln_node : height_of s (px w) = Some (pheight w);
  ln_height : (1 <= pheight w <= max_height_ s)%nat;
  ln_prev j : (j < pheight w)%nat -> pprev w !! j = Some (Some (pred_of s k (L j)));
  ln_out : px w ∉ head_ s :: (L 0%nat).*1;
  ln_new e : e ∈ L 0%nat -> compare_ e.2 k <> 0;
  ln_own : own = true -> Next s (px w) i = Some (succ_of k (L i));
}.

Lemma linked_here i : linked i i = L i.
Proof using. unfold linked. by rewrite decide_False by lia. Qed.

Lemma order_bottom i : (forall j, L (S j) `sublist_of` L j) -> L i `sublist_of` L 0%nat.
Proof using. intros Hs. induction i as [|i IH]; [done|]. by transitivity (L i). Qed.

Lemma filter_sublist (P : entry -> Prop) `{!forall x, Decision (P x)} l l' :
  l `sublist_of` l' -> filter P l `sublist_of` filter P l'.
Proof using.
  induction 1 as [|x l l' _ IH|x l l' _ IH]; [done| |]; rewrite !filter_cons; destruct (decide (P x)); try done.
  - by apply sublist_skip.
  - by apply sublist_cons.
Qed.

Lemma ins_sublist l l' : l `sublist_of` l' -> ins l `sublist_of` ins l'.
Proof using. intros Hs. unfold ins. apply sublist_app; [|apply sublist_skip]; by apply filter_sublist. Qed.

Lemma sublist_ins l : sorted l -> l `sublist_of` ins l.
Proof using Hcmp.
  intros Hs. unfold ins. rewrite (sorted_split Hcmp k l Hs) at 1. apply sublist_app; [done|by apply sublist_cons].
Qed.

Lemma ins_perm l : sorted l -> ins l ≡ₚ (px w, k) :: l.
Proof using Hcmp. intros Hs. unfold ins. rewrite <- Permutation_middle. by rewrite <- (sorted_split Hcmp k l Hs). Qed.

Lemma ins_sorted l : sorted l -> (forall e, e ∈ l -> compare_ e.2 k <> 0) -> sorted (ins l).
Proof using Hcmp.
  intros Hs Hne. assert (sorted (below k l) /\ sorted (above k l)) as [H1 H2]
    by (split; (eapply sorted_sublist; [apply sublist_filter|exact Hs])).
  assert (forall e, e ∈ above k l -> compare_ k e.2 < 0) as Hab.
  { intros e He. apply elem_of_above in He as [Hge He]. specialize (Hne e He). pose proof (cmp_flip Hcmp e.2 k). lia. }
  unfold ins. assert (forall e, e ∈ below k l -> compare_ e.2 k < 0) as Hbe by (intros e He; by apply elem_of_below in He as [? _]).
  apply StronglySorted_app_2; [|done|constructor; [done|]].
  - intros x y Hx [->|Hy]%elem_of_cons; cbn; [by apply Hbe|]. eapply (cmp_lt_le_trans Hcmp); [by apply Hbe|].
    pose proof (Hab y Hy). lia.
  - apply List.Forall_forall. intros e He. by apply Hab, list_elem_of_In.
Qed.

Lemma linked_sub i : sorted (L 0%nat) -> (forall j, L (S j) `sublist_of` L j) -> forall j, linked i (S j) `sublist_of` linked i j.
Proof using Hcmp.
  intros Hs Hsub j. unfold linked. destruct (decide (S j < i)%nat), (decide (j < i)%nat); try lia.
  - by apply ins_sublist.
  - transitivity (L j); [done|]. apply sublist_ins. eapply sorted_sublist; [by apply order_bottom|done].
  - done.
Qed.

(** The own link is invisible to the searches. *)
Lemma link_own_ok s i : linking s i false -> (i < pheight w)%nat ->
  exists s', link_own w i s = Some s' /\ linking s' i true /\ max_height_ s' = max_height_ s /\ head_ s' = head_ s.
Proof using Hcmp.
  intros Hl Hi. pose proof (ln_ok _ _ _ Hl) as Hok. pose proof (ln_height _ _ _ Hl) as Hh.
  pose proof (lk_height _ _ Hok) as Hmax. unfold link_own. rewrite (ln_prev _ _ _ Hl i Hi). cbn [mjoin option_join mbind option_bind].
  assert (Next s (pred_of s k (L i)) i = Some (succ_of k (L i))) as Hn.
  { pose proof (lk_path _ _ Hok i ltac:(lia)) as Hp. rewrite linked_here in Hp.
    rewrite (sorted_split Hcmp k (L i)) in Hp
      by (eapply sorted_sublist; [apply order_bottom|]; apply (ln_order _ _ _ Hl)).
    apply path_app in Hp as [_ Hp]. apply path_first in Hp. unfold pred_of, succ_of. rewrite Hp. by destruct (above k (L i)). }
  rewrite Hn. cbn [mbind option_bind].
  destruct (SetNext_ok s (px w) i (succ_of k (L i)) (pheight w)) as (s' & E & Hef); [apply Hl|done|].
  exists s'. split; [done|]. split; [|split; apply Hef].
  assert (forall j z, z ∈ head_ s :: (linked i j).*1 -> ~ (z = px w /\ j = i)) as Hoff.
  { intros j z Hz [-> ->]. rewrite linked_here in Hz. apply (ln_out _ _ _ Hl). apply elem_of_cons in Hz as [->|Hz]; [left|right].
    apply list_elem_of_fmap in Hz as (e & -> & He). apply list_elem_of_fmap. exists e. split; [done|].
    eapply elem_of_sublist; [exact He|]. apply order_bottom, (ln_order _ _ _ Hl). }
  split; try apply Hl.
  - eapply levels_ok_frame; [exact Hok| | |apply Hef|apply Hef|].
    + intros j z Hz. rewrite (se_next _ _ _ _ _ Hef). rewrite decide_False; [done|]. by apply Hoff.
    + intros z _. apply Hef.
    + rewrite (se_max _ _ _ _ _ Hef). lia.
  - rewrite (se_key _ _ _ _ _ Hef). apply Hl.
  - rewrite (se_height _ _ _ _ _ Hef). apply Hl.
  - rewrite (se_max _ _ _ _ _ Hef). apply Hl.
  - intros j Hj. unfold pred_of. rewrite (se_head _ _ _ _ _ Hef). by apply (ln_prev _ _ _ Hl).
  - rewrite (se_head _ _ _ _ _ Hef). apply Hl.
  - intros _. rewrite (se_next _ _ _ _ _ Hef). by rewrite decide_True.
Qed.

Lemma linked_other i j : j <> i -> linked (S i) j = linked i j.
Proof using. intros Hj. unfold linked. destruct (decide (j < S i)%nat), (decide (j < i)%nat); done || lia. Qed.

Lemma linked_new i : linked (S i) i = ins (L i).
Proof using. unfold linked. by rewrite decide_True by lia. Qed.

Lemma publish_path s s' i : path s i (head_ s) (L i) None -> sorted (L i) -> NoDup (head_ s :: (L i).*1) ->
  px w ∉ head_ s :: (L i).*1 -> Next s (px w) i = Some (succ_of k (L i)) -> key_of s (px w) = Some k ->
  set_effect s s' (pred_of s k (L i)) i (Some (px w)) -> path s' i (head_ s) (ins (L i)) None.
Proof using Hcmp.
  intros Hp Hs Hn Hx Hown Hk Hef. rewrite (sorted_split Hcmp k (L i) Hs) in Hp, Hn, Hx.
  apply path_app in Hp as [Hp1 Hp2]. unfold ins. rewrite fmap_app in Hn, Hx.
  assert (forall z, z ∈ (above k (L i)).*1 -> z <> pred_of s k (L i)) as Hpred.
  { intros z Hz ->. change (head_ s :: ?A ++ ?B) with ((head_ s :: A) ++ B) in Hn.
    apply list.NoDup_app in Hn as (_ & Hd & _). apply (Hd (pred_of s k (L i))); [|exact Hz].
    unfold pred_of. destruct (last_or_elem (head_ s) (below k (L i))) as [->|H]; [left|by right]. }
  apply path_app. split.
  - eapply path_set; [exact Hp1| |exact Hef]. change (head_ s :: ?A ++ ?B) with ((head_ s :: A) ++ B) in Hn.
    by apply list.NoDup_app in Hn as [? _].
  - fold (pred_of s k (L i)). cbn [path fst snd]. split; [rewrite (se_next _ _ _ _ _ Hef); by rewrite decide_True|].
    split; [by rewrite (se_key _ _ _ _ _ Hef)|].
    assert (px w <> pred_of s k (L i)) as Hxp.
    { intros E. apply Hx. rewrite E. unfold pred_of.
      destruct (last_or_elem (head_ s) (below k (L i))) as [->|H]; [left|right; apply elem_of_app; by left]. }
    assert (path s i (px w) (above k (L i)) None) as Hp3.
    { unfold succ_of, first_of in Hown. destruct (above k (L i)) as [|e l]; cbn in *; [done|]. by split; [|apply Hp2]. }
    eapply path_frame; [exact Hp3|]. intros z Hz. split; [|intros _; apply Hef].
    rewrite (se_next _ _ _ _ _ Hef), decide_False; [done|]. intros [-> _].
    apply elem_of_cons in Hz as [Hz|Hz]; [by apply Hxp|by apply (Hpred (pred_of s k (L i)))].
Qed.

Lemma linking_out s i own j : linking s i own -> px w ∉ head_ s :: (L j).*1 /\ NoDup (head_ s :: (L j).*1).
Proof using Hcmp.
  intros Hl. assert ((L j).*1 `sublist_of` (L 0%nat).*1) as Hsub by (apply fmap_sublist, order_bottom, (ln_order _ _ _ Hl)).
  pose proof (ln_out _ _ _ Hl) as Hx. split.
  - intros Hin. apply Hx. apply elem_of_cons in Hin as [->|Hin]; [left|right]. by eapply elem_of_sublist.
  - eapply sublist_NoDup; [|by apply sublist_skip]. pose proof (lk_nodup _ _ (ln_ok _ _ _ Hl)) as Hn.
    unfold linked in Hn. destruct (decide (0 < i)%nat); [|done].
    rewrite (ins_perm _ (proj1 (ln_order _ _ _ Hl))) in Hn. cbn in Hn.
    rewrite !list.NoDup_cons, not_elem_of_cons in Hn. apply list.NoDup_cons. tauto.
Qed.

(** Publishing the node in level [i]. *)
Lemma link_publish_ok s i : linking s i true -> (i < pheight w)%nat ->
  exists s', link_publish w i s = Some s' /\ linking s' (S i) false /\ max_height_ s' = max_height_ s /\ head_ s' = head_ s.
Proof using Hcmp.
  intros Hl Hi. pose proof (ln_ok _ _ _ Hl) as Hok. pose proof (ln_height _ _ _ Hl) as Hh.
  pose proof (lk_height _ _ Hok) as Hmax. pose proof (ln_order _ _ _ Hl) as [Hs Hsub].
  destruct (linking_out s i true i Hl) as [Hx Hn]. assert (sorted (L i)) as Hsi by (eapply sorted_sublist; [by apply order_bottom|done]).
  unfold link_publish. rewrite (ln_prev _ _ _ Hl i Hi). cbn [mjoin option_join mbind option_bind].
  pose proof (lk_path _ _ Hok i ltac:(lia)) as Hp. rewrite linked_here in Hp.
  assert (exists v, Next s (pred_of s k (L i)) i = Some v) as [v Hv].
  { rewrite (sorted_split Hcmp k (L i) Hsi) in Hp. apply path_app in Hp as [_ Hp]. apply path_first in Hp. by eexists. }
  destruct (Next_height _ _ _ _ Hv) as (h & Hht & Hlt).
  destruct (SetNext_ok s (pred_of s k (L i)) i (Some (px w)) h Hht Hlt) as (s' & E & Hef).
  exists s'. split; [done|]. split; [|split; apply Hef]. split; try apply Hl; rewrite ?(se_head _ _ _ _ _ Hef), ?(se_max _ _ _ _ _ Hef); try apply Hl.
  - split; rewrite ?(se_head _ _ _ _ _ Hef), ?(se_max _ _ _ _ _ Hef).
    + rewrite (se_height _ _ _ _ _ Hef). apply Hok.
    + intros j Hj. destruct (decide (j = i)) as [->|Hji].
      * rewrite linked_new. eapply publish_path; [exact Hp|done..| |apply Hl|exact Hef]. by apply (ln_own _ _ _ Hl).
      * rewrite linked_other by done. eapply path_frame; [by apply (lk_path _ _ Hok)|]. intros z _.
        split; [|intros _; apply Hef]. rewrite (se_next _ _ _ _ _ Hef), decide_False; [done|]. tauto.
    + unfold linked. rewrite decide_True by lia. by apply ins_sorted, (ln_new _ _ _ Hl).
    + unfold linked. rewrite decide_True by lia. rewrite (ins_perm _ Hs). cbn.
      destruct (linking_out s i true 0%nat Hl) as [H1 H2]. apply list.NoDup_cons in H2 as [H2 H3].
      apply not_elem_of_cons in H1 as [H1 H4].
      apply list.NoDup_cons. split; [apply not_elem_of_cons; split; congruence|]. by apply list.NoDup_cons.
    + by apply linked_sub.
    + intros j Hj. rewrite linked_other by lia. by apply (lk_empty _ _ Hok).
    + done.
  - rewrite (se_key _ _ _ _ _ Hef). apply Hl.
  - rewrite (se_height _ _ _ _ _ Hef). apply Hl.
  - intros j Hj. unfold pred_of. rewrite (se_head _ _ _ _ _ Hef). by apply (ln_prev _ _ _ Hl).
  - done.
Qed.

Lemma link_loop_ok n i s : linking s i false -> (n + i = pheight w)%nat ->
  exists s', link_loop n i w s = Some s' /\ levels_ok s' (linked (pheight w)) /\ head_ s' = head_ s.
Proof using Hcmp.
  revert i s. induction n as [|n IH]; intros i s Hl Hi; cbn [link_loop].
  - exists s. assert (i = pheight w) as <- by lia. split; [done|]. split; [apply Hl|done].
  - destruct (link_own_ok s i Hl ltac:(lia)) as (s1 & -> & Hl1 & _ & Hh1). cbn [mbind option_bind].
    destruct (link_publish_ok s1 i Hl1 ltac:(lia)) as (s2 & -> & Hl2 & _ & Hh2). cbn [mbind option_bind].
    destruct (IH (S i) s2 Hl2 ltac:(lia)) as (s' & ? & ? & ?). exists s'. split; [done|]. split; [done|]. congruence.
Qed.
End link.

(** ** Insertion *)

Lemma random_height_range fuel height rnd : (height <= (random_height fuel height rnd).1 <= height + fuel)%nat.
Proof.
  revert height rnd. induction fuel as [|fuel IH]; intros height rnd; cbn; [lia|].
  destruct (rnd_Next rnd) as [v rnd']. destruct (v mod 4 =? 0); cbn; [|lia]. specialize (IH (S height) rnd'). lia.
Qed.

Lemma RandomHeight_range rnd : (1 <= (RandomHeight rnd).1 <= kMaxHeight)%nat.
Proof. apply (random_height_range (kMaxHeight - 1) 1 rnd). Qed.

Lemma raise_prev_ok s height pv : (height <= length pv)%nat ->
  exists pv', raise_prev s height pv = Some pv' /\ length pv' = length pv /\
    forall j, pv' !! j = if decide (max_height_ s <= j < height)%nat then Some (Some (head_ s)) else pv !! j.
Proof.
  intros Hh. unfold raise_prev. set (a := max_height_ s).
  assert (forall n pv, (a + n <= length pv)%nat -> exists pv', foldl (fun prev i => prev ← prev;
      if decide (i < length prev)%nat then Some (<[i := Some (head_ s)]> prev) else None) (Some pv) (seq a n) = Some pv' /\
    length pv' = length pv /\ forall j, pv' !! j = if decide (a <= j < a + n)%nat then Some (Some (head_ s)) else pv !! j) as Hall.
  { clearbody a. clear. intros n. induction n as [|n IH]; intros pv Hl.
    - exists pv. split; [done|]. split; [done|]. intros j. by rewrite decide_False by lia.
    - destruct (IH pv ltac:(lia)) as (pv1 & E & Hlen & Hj). rewrite seq_S, foldl_app, E. cbn.
      rewrite decide_True by lia. eexists. split; [done|]. rewrite length_insert. split; [done|]. intros j.
      destruct (decide (j = a + n)%nat) as [->|Hne].
      + rewrite list_lookup_insert_eq by lia. by rewrite decide_True by lia.
      + rewrite list_lookup_insert_ne by done. rewrite Hj.
        destruct (decide (a <= j < a + n)%nat), (decide (a <= j < a + S n)%nat); done || lia. }
  destruct (decide (a <= height)%nat) as [Ha|Ha].
  - destruct (Hall (height - a)%nat pv ltac:(lia)) as (pv' & E & Hl & Hj). exists pv'. split; [done|]. split; [done|].
    intros j. rewrite Hj. by replace (a + (height - a))%nat with height by lia.
  - replace (height - a)%nat with 0%nat by lia. exists pv. split; [done|]. split; [done|].
    intros j. by rewrite decide_False by lia.
Qed.

(** Up to [NewNode] only the height of the list and the fresh node change. *)
Lemma NewNode_ok s L x key height h rnd : levels_ok s L -> nodes s !! x = None -> x <> head_ s ->
  (max_height_ s <= h <= kMaxHeight)%nat ->
  levels_ok (NewNode x key height (SkipList (nodes s) (head_ s) h rnd)) L.
Proof.
  intros Hok Hx Hh Hm. eapply levels_ok_frame; [exact Hok| | |done| |done]; unfold Next, key_of, height_of; cbn.
  - intros i z Hz. rewrite lookup_insert_ne; [done|]. intros <-. apply elem_of_cons in Hz as [|Hz]; [done|].
    apply list_elem_of_fmap in Hz as (e & -> & He). pose proof (lk_key s L Hok i e He) as Hk.
    unfold key_of in Hk. by rewrite Hx in Hk.
  - intros z Hz. rewrite lookup_insert_ne; [done|]. intros <-.
    apply list_elem_of_fmap in Hz as (e & -> & He). pose proof (lk_key s L Hok 0 e He) as Hk.
    unfold key_of in Hk. by rewrite Hx in Hk.
  - by rewrite lookup_insert_ne by congruence.
Qed.

Lemma insert_begin_ok (Hcmp : comparator) s L k x : levels_ok s L -> nodes s !! x = None ->
  (forall e, e ∈ L 0%nat -> compare_ e.2 k <> 0) ->
  exists s' w, insert_begin k x s = Some (s', w) /\ px w = x /\ linking L k w s' 0 false /\ head_ s' = head_ s /\
    (max_height_ s <= max_height_ s')%nat.
Proof.
  intros Hok Hx Hnew. pose proof (lk_height _ _ Hok) as Hmax.
  assert (x <> head_ s) as Hxh. { intros ->. pose proof (lk_head _ _ Hok) as H. unfold height_of in H. by rewrite Hx in H. }
  assert (x ∉ head_ s :: (L 0%nat).*1) as Hout.
  { rewrite elem_of_cons. intros [|Hin]; [done|]. apply list_elem_of_fmap in Hin as (e & -> & He).
    pose proof (lk_key s L Hok 0 e He) as Hk. unfold key_of in Hk. by rewrite Hx in Hk. }
  unfold insert_begin.
  destruct (FindGreaterOrEqual_ok Hcmp s L Hok k (Some (replicate kMaxHeight None)) (length_replicate _ _))
    as (prev' & -> & Hprev). cbn [mbind option_bind]. destruct prev' as [pv|]; [|done]. destruct Hprev as [Hlen Hpv].
  rewrite length_replicate in Hlen. cbn [mbind option_bind].
  assert (match succ_of k (L 0%nat) with None => Some false | Some y => k' ← key_of s y; Some (Equal k k') end = Some false) as ->.
  { unfold succ_of, first_of. destruct (above k (L 0%nat)) as [|e l] eqn:E; [done|]. cbn.
    assert (e ∈ above k (L 0%nat)) as He by (rewrite E; left). apply elem_of_above in He as [_ He].
    rewrite (lk_key s L Hok 0 e He). cbn. unfold Equal. f_equal. apply Z.eqb_neq. specialize (Hnew e He).
    pose proof (cmp_flip Hcmp k e.2). lia. }
  cbn [mbind option_bind]. destruct (RandomHeight (rnd_ s)) as [height rnd] eqn:Er.
  pose proof (RandomHeight_range (rnd_ s)) as Hrange. rewrite Er in Hrange. cbn [fst] in Hrange.
  cbn [nodes head_ max_height_].
  assert (exists h pv', (if decide (max_height_ s < height)%nat
      then prev ← raise_prev (SkipList (nodes s) (head_ s) (max_height_ s) rnd) height pv;
           Some (SkipList (nodes s) (head_ s) height rnd, prev)
      else Some (SkipList (nodes s) (head_ s) (max_height_ s) rnd, pv)) = Some (SkipList (nodes s) (head_ s) h rnd, pv') /\
    (max_height_ s <= h <= kMaxHeight)%nat /\ (height <= h)%nat /\
    forall j, (j < height)%nat -> pv' !! j = Some (Some (pred_of s k (L j)))) as (h & pv' & -> & Hh & Hhh & Hpv').
  { destruct (decide (max_height_ s < height)%nat) as [Hgt|Hle].
    - destruct (raise_prev_ok (SkipList (nodes s) (head_ s) (max_height_ s) rnd) height pv) as (pv' & -> & _ & Hj); [lia|].
      cbn [mbind option_bind]. exists height, pv'. split; [done|]. split; [lia|]. split; [lia|]. intros j Hjh. rewrite Hj. cbn.
      destruct (decide (max_height_ s <= j < height)%nat).
      + unfold pred_of. by rewrite (lk_empty _ _ Hok j) by lia.
      + rewrite Hpv. by rewrite decide_True by lia.
    - exists (max_height_ s), pv. split; [done|]. split; [lia|]. split; [lia|]. intros j Hjh. rewrite Hpv.
      by rewrite decide_True by lia. }
  cbn [mbind option_bind]. eexists _, _. split; [done|]. split; [done|]. split; [|split; [done|cbn; lia]].
  split; cbn [px pheight pprev]; try done.
  - eapply levels_ok_ext; [|by apply NewNode_ok]. intros j. unfold linked. by rewrite decide_False by lia.
  - split; apply Hok.
  - unfold key_of. cbn. by rewrite lookup_insert_eq.
  - unfold height_of. cbn. rewrite lookup_insert_eq. cbn. by rewrite length_replicate.
  - cbn. lia.
Qed.

(** ** What a list holds *)

(** Between operations the list holds the entries [l]. *)
Definition holds (s : skiplist) (l : list entry) : Prop := exists L, levels_ok s L /\ L 0%nat = l.

Lemma clear_head_ok s : height_of s (head_ s) = Some kMaxHeight ->
  exists s', clear_head s = Some s' /\ head_ s' = head_ s /\ max_height_ s' = max_height_ s /\
    height_of s' (head_ s) = Some kMaxHeight /\ forall i, (i < kMaxHeight)%nat -> Next s' (head_ s) i = Some None.
Proof.
  intros Hh. unfold clear_head. assert (forall n, (n <= kMaxHeight)%nat -> exists s',
      foldl (fun s i => s ← s; SetNext (head_ s) i None s) (Some s) (seq 0 n) = Some s' /\
      head_ s' = head_ s /\ max_height_ s' = max_height_ s /\ height_of s' (head_ s) = Some kMaxHeight /\
      forall i, (i < n)%nat -> Next s' (head_ s) i = Some None) as Hall; [|by apply Hall].
  induction n as [|n IH]; intros Hn; [exists s; split_and!; try done; lia|].
  destruct IH as (s1 & E & Hhd & Hm & Hht & Hnx); [lia|]. rewrite seq_S, foldl_app, E. cbn. rewrite Hhd.
  destruct (SetNext_ok s1 (head_ s) n None kMaxHeight Hht ltac:(lia)) as (s' & -> & Hef). exists s'. split; [done|].
  rewrite (se_head _ _ _ _ _ Hef), (se_max _ _ _ _ _ Hef), (se_height _ _ _ _ _ Hef). split_and!; try done.
  intros i Hi. rewrite (se_next _ _ _ _ _ Hef). destruct (decide (i = n)) as [->|Hne]; [by rewrite decide_True|].
  rewrite decide_False by tauto. apply Hnx. lia.
Qed.

Lemma SkipList_new_ok head key0 rnd : exists s, SkipList_new head key0 rnd = Some s /\ holds s [].
Proof.
  unfold SkipList_new. set (s0 := NewNode _ _ _ _).
  destruct (clear_head_ok s0) as (s & -> & Hh & Hm & Hht & Hn).
  { unfold s0, height_of. cbn. rewrite lookup_insert_eq. reflexivity. }
  exists s. split; [done|]. exists (fun _ => []). split; [|done]. split; rewrite ?Hh, ?Hm; try done.
  - constructor.
  - apply list.NoDup_cons. split; [apply not_elem_of_nil|constructor].
  - cbn. unfold kMaxHeight. lia.
Qed.

Lemma SkipList_new_fresh head key0 rnd s z : SkipList_new head key0 rnd = Some s -> z <> head -> nodes s !! z = None.
Proof.
  unfold SkipList_new, clear_head. intros E Hz.
  assert (forall l o, foldl (fun s i => s ← s; SetNext (head_ s) i None s) o l = Some s ->
    exists s0, o = Some s0 /\ (nodes s0 !! z = None -> nodes s !! z = None)) as Hall.
  { induction l as [|i l IH]; intros o; cbn [foldl]; [intros ->; by exists s|].
    intros El. apply IH in El as (s1 & E1 & H1). destruct o as [s0|]; [|done]. exists s0. split; [done|]. intros H0.
    apply H1. by eapply SetNext_fresh. }
  apply Hall in E as (s0 & [= <-] & H). apply H. cbn. rewrite lookup_insert_ne by congruence. apply lookup_empty.
Qed.

Lemma Insert_holds (Hcmp : comparator) s l k x : holds s l -> nodes s !! x = None -> (forall e, e ∈ l -> compare_ e.2 k <> 0) ->
  exists s', Insert k x s = Some s' /\ holds s' (below k l ++ (x, k) :: above k l).
Proof.
  intros (L & Hok & <-) Hx Hnew. destruct (insert_begin_ok Hcmp s L k x Hok Hx Hnew) as (s1 & w & E & <- & Hl & _).
  destruct (link_loop_ok Hcmp L k w (pheight w) 0 s1 Hl) as (s' & E' & Hok' & _); [lia|].
  unfold Insert. rewrite E. cbn [mbind option_bind]. exists s'. split; [done|]. exists (linked L k w (pheight w)).
  split; [done|]. unfold linked. rewrite decide_True; [done|]. pose proof (ln_height _ _ _ _ _ _ Hl). lia.
Qed.

(** ** Readers beside a writer

    Insertions are serialised by their caller, and a search may run beside them.
    Each turn of the search makes one load, and each insertion stores its links
    one by one; these are the steps that interleave. *)

Inductive reader := Reading (x : nptr) (level : nat) | Returned (next : option nptr).

Record system := System { slist : skiplist; writer : option (pending * nat * bool); searching : reader }.

(** The entries published so far, and the steps of the writer and of a reader
    that looks for [target]. *)
Inductive sys_step (target : Key) : list entry * system -> list entry * system -> Prop :=
  | step_begin pub s rd k x s' w : nodes s !! x = None -> (forall e, e ∈ pub -> compare_ e.2 k <> 0) ->
      insert_begin k x s = Some (s', w) ->
      sys_step target (pub, System s None rd) (pub, System s' (Some (w, 0%nat, false)) rd)
  | step_own pub s rd w i s' : (i < pheight w)%nat -> link_own w i s = Some s' ->
      sys_step target (pub, System s (Some (w, i, false)) rd) (pub, System s' (Some (w, i, true)) rd)
  | step_publish pub pub' s rd w i s' : link_publish w i s = Some s' ->
      match i with
      | O => exists k, key_of s (px w) = Some k /\ pub' = (px w, k) :: pub
      | S _ => pub' = pub
      end ->
      sys_step target (pub, System s (Some (w, i, true)) rd) (pub', System s' (Some (w, S i, false)) rd)
  | step_end pub s rd w : sys_step target (pub, System s (Some (w, pheight w, false)) rd) (pub, System s None rd)
  | step_start pub s wr rd :
      sys_step target (pub, System s wr rd) (pub, System s wr (Reading (head_ s) (max_height_ s - 1)))
  | step_read pub s wr x level r : find_ge_step s target x level None = Some r ->
      sys_step target (pub, System s wr (Reading x level))
        (pub, System s wr (match r with inl (x, level, _) => Reading x level | inr (next, _) => Returned next end)).

Definition sys_start (head : nptr) (key0 : Key) (rnd : R) : option (list entry * system) :=
  s ← SkipList_new head key0 rnd; Some ([], System s None (Returned None)).

(** The invariant: [L] are the levels as a reader sees them. *)
Definition writer_ok (pub : list entry) (s : skiplist) (wr : option (pending * nat * bool)) (L : nat -> list entry) : Prop :=
  levels_ok s L /\ L 0%nat ≡ₚ pub /\
  match wr with
  | None => True
  | Some (w, i, own) => (own = true -> i < pheight w)%nat /\ (i <= pheight w)%nat /\
      exists L0 k, linking L0 k w s i own /\ forall j, L j = linked L0 k w i j
  end.

Definition reader_ok (target : Key) (s : skiplist) (L : nat -> list entry) (rd : reader) : Prop :=
  match rd with Reading x level => exists okx, located s L target x okx level | Returned _ => True end.

Definition sys_ok (target : Key) (c : list entry * system) : Prop :=
  exists L, writer_ok c.1 (slist c.2) (writer c.2) L /\ reader_ok target (slist c.2) L (searching c.2).

Lemma reader_ok_mono target s s' L L' rd : head_ s' = head_ s -> (forall i e, e ∈ L i -> e ∈ L' i) ->
  reader_ok target s L rd -> reader_ok target s' L' rd.
Proof.
  intros Hh Hsub. destruct rd as [x level|]; [|done]. intros (okx & Hl & Hx). exists okx. split; [done|].
  destruct okx as [kx|]; [|by rewrite Hh]. destruct Hx. split; [by apply Hsub|done].
Qed.

Lemma linked_mono (Hcmp : comparator) L0 k w s i own : linking L0 k w s i own -> forall j e, e ∈ linked L0 k w i j -> e ∈ linked L0 k w (S i) j.
Proof.
  intros Hl j e. destruct (decide (j = i)) as [->|Hne]; [|by rewrite linked_other].
  rewrite linked_here, linked_new. intros He. eapply elem_of_sublist; [exact He|]. apply (sublist_ins Hcmp).
  eapply sorted_sublist; [apply order_bottom|]; apply (ln_order _ _ _ _ _ _ Hl).
Qed.

Lemma sys_step_ok (Hcmp : comparator) target c c' : sys_ok target c -> sys_step target c c' -> sys_ok target c'.
Proof.
  intros (L & (Hok & Hpub & Hw) & Hr) Hst.
  destruct Hst as [pub s rd k x s' w Hx Hnew E|pub s rd w i s' Hi E|pub pub' s rd w i s' E Hp|pub s rd w|pub s wr rd|pub s wr x level r E];
    cbn [fst snd slist writer searching] in *.
  - destruct (insert_begin_ok Hcmp s L k x Hok Hx) as (s2 & w2 & E2 & Ex & Hl & Hh & _).
    { intros e. rewrite Hpub. apply Hnew. }
    rewrite E in E2. injection E2 as <- <-. exists (linked L k w 0). assert (forall j, linked L k w 0 j = L j) as He.
    { intros j. unfold linked. by rewrite decide_False by lia. }
    split; [|eapply (reader_ok_mono _ _ _ L); [exact Hh| |exact Hr]; intros j e; by rewrite (He j)].
    split; [apply Hl|]. split; [by rewrite He|]. split; [done|]. split; [lia|]. by exists L, k.
  - destruct Hw as (_ & Hle & L0 & k & Hl & HL). destruct (link_own_ok Hcmp L0 k w s i Hl Hi) as (s2 & E2 & Hl2 & _ & Hh).
    rewrite E in E2. injection E2 as <-. exists (linked L0 k w i). split; [|eapply (reader_ok_mono _ _ _ L); [exact Hh| |exact Hr]; intros j e; by rewrite (HL j)].
    split; [apply Hl2|]. split; [by rewrite <- HL|]. split; [done|]. split; [lia|]. by exists L0, k.
  - destruct Hw as (Hlt & _ & L0 & k & Hl & HL). specialize (Hlt eq_refl).
    destruct (link_publish_ok Hcmp L0 k w s i Hl Hlt) as (s2 & E2 & Hl2 & _ & Hh).
    rewrite E in E2. injection E2 as <-. exists (linked L0 k w (S i)). split.
    + split; [apply Hl2|]. split; [|split; [done|split; [lia|by exists L0, k]]]. rewrite (HL 0%nat) in Hpub.
      destruct i as [|i].
      * destruct Hp as (k' & Hk & ->). rewrite (ln_key _ _ _ _ _ _ Hl) in Hk. injection Hk as <-.
        rewrite linked_here in Hpub. rewrite linked_new, <- Hpub. apply (ins_perm Hcmp). apply (ln_order _ _ _ _ _ _ Hl).
      * subst pub'. by rewrite linked_other.
    + eapply (reader_ok_mono _ _ _ L); [exact Hh| |exact Hr]. intros j e. rewrite (HL j). by eapply linked_mono.
  - exists L. by split.
  - exists L. split; [done|]. exists None. by apply located_start.
  - exists L. split; [done|]. destruct Hr as [okx Hx].
    destruct (find_ge_step_ok Hcmp s L Hok target x okx level None Hx I) as (r2 & E2 & Hr2).
    rewrite E in E2. injection E2 as <-.
    destruct Hr2 as [(n & kn & -> & Hn & _)|(_ & prev' & _ & ->)]; [by exists (Some kn)|].
    destruct level as [|level]; [done|]. exists okx. by apply (located_down s L Hok).
Qed.

(** The last node of a list, null when it is empty. *)
Definition last_of (l : list entry) : option nptr := match l with [] => None | e :: l => Some (last_or e.1 l) end.

Lemma last_or_node s l : head_ s ∉ l.*1 ->
  (if bool_decide (last_or (head_ s) l = head_ s) then None else Some (last_or (head_ s) l)) = last_of l.
Proof.
  intros Hh. destruct l as [|e l]; cbn; [by rewrite bool_decide_true|]. rewrite bool_decide_false; [done|].
  intros E. apply Hh. rewrite <- E. destruct (last_or_elem e.1 l) as [->|H]; [left|by right].
Qed.

Lemma prev_sublist (l l' : list entry) (z : nptr) : l `sublist_of` l' -> z ∉ l'.*1 -> z ∉ l.*1.
Proof. intros Hs Hz Hin. apply Hz. eapply elem_of_sublist; [exact Hin|]. by apply fmap_sublist. Qed.

Lemma Contains_holds (Hcmp : comparator) s l k : holds s l -> Contains s k = Some (bool_decide (Exists (fun e => compare_ k e.2 = 0) l)).
Proof.
  intros (L & Hok & <-). unfold Contains.
  destruct (FindGreaterOrEqual_ok Hcmp s L Hok k None I) as (pv & -> & _). cbn [mbind option_bind].
  pose proof (sorted_split Hcmp k _ (lk_sorted _ _ Hok)) as Hsp. unfold succ_of, first_of.
  destruct (above k (L 0%nat)) as [|e hi] eqn:E; cbn [head fmap option_fmap option_map list.head].
  - f_equal. symmetry. apply bool_decide_false. rewrite list.Exists_exists. intros (y & Hy & Hz).
    rewrite Hsp, app_nil_r in Hy. apply elem_of_below in Hy as [Hlt _]. pose proof (cmp_flip Hcmp k y.2). lia.
  - assert (e ∈ above k (L 0%nat)) as He by (rewrite E; left). apply elem_of_above in He as [Hge He].
    rewrite (lk_key s L Hok 0 e He). cbn. f_equal. unfold Equal. apply eq_bool_iff. rewrite bool_decide_eq_true, list.Exists_exists, Z.eqb_eq.
    split; [by intros Hz; exists e|]. intros (y & Hy & Hz). rewrite Hsp in Hy. apply elem_of_app in Hy as [Hy|Hy].
    + apply elem_of_below in Hy as [Hlt _]. pose proof (cmp_flip Hcmp k y.2). lia.
    + apply elem_of_cons in Hy as [->|Hy]; [done|]. pose proof (lk_sorted _ _ Hok) as Hs. rewrite Hsp in Hs.
      pose proof (sorted_after _ _ _ _ Hs Hy) as Hlt. exfalso. apply Hge. eapply (cmp_lt_le_trans Hcmp); [exact Hlt|].
      pose proof (cmp_flip Hcmp k y.2). lia.
Qed.

Lemma Iterator_Next_holds s A x kx B : holds s (A ++ (x, kx) :: B) -> Iterator_Next s (Some x) = Some (first_of B).
Proof.
  intros (L & Hok & E). pose proof (lk_path _ _ Hok 0%nat ltac:(unfold kMaxHeight; lia)) as Hp. rewrite E in Hp.
  apply path_app in Hp as [_ (_ & _ & Hp)]. apply path_first in Hp. cbn in Hp |- *. rewrite Hp. by destruct B.
Qed.

Lemma below_at (Hcmp : comparator) A x kx B : sorted (A ++ (x, kx) :: B) -> below kx (A ++ (x, kx) :: B) = A.
Proof.
  intros Hs. unfold below. rewrite list.filter_app.
  assert (filter (fun e => compare_ e.2 kx < 0) ((x, kx) :: B) = []) as ->.
  { destruct (filter _ ((x, kx) :: B)) as [|e l] eqn:E; [done|]. exfalso.
    assert (e ∈ filter (fun e => compare_ e.2 kx < 0) ((x, kx) :: B)) as He by (rewrite E; left).
    apply list_elem_of_filter in He as [Hlt He]. apply elem_of_cons in He as [->|He].
    - cbn in Hlt. pose proof (cmp_flip Hcmp kx kx). lia.
    - pose proof (sorted_after _ _ _ _ Hs He) as Hgt. cbn in Hgt. pose proof (cmp_flip Hcmp kx e.2). lia. }
  rewrite app_nil_r. assert (forall e, e ∈ A -> compare_ e.2 kx < 0) as HA.
  { intros e He. apply list_elem_of_split in He as (A1 & A2 & ->). rewrite <- app_assoc in Hs.
    apply (sorted_after A1 e (A2 ++ (x, kx) :: B) (x, kx)); [exact Hs|]. apply elem_of_app. right. left. }
  clear Hs. induction A as [|e A IH]; [done|]. rewrite filter_cons_True by (apply HA; left). f_equal. apply IH.
  intros y Hy. apply HA. by right.
Qed.

Lemma Iterator_Prev_holds (Hcmp : comparator) s A x kx B : holds s (A ++ (x, kx) :: B) -> Iterator_Prev s (Some x) = Some (last_of A).
Proof.
  intros (L & Hok & E). unfold Iterator_Prev. cbn [mbind option_bind].
  pose proof (lk_key s L Hok 0 (x, kx) ltac:(rewrite E; apply elem_of_app; right; left)) as Hk. cbn [fst snd] in Hk. rewrite Hk.
  cbn [mbind option_bind]. rewrite (FindLessThan_ok Hcmp s L Hok kx). cbn [mbind option_bind]. f_equal.
  pose proof (lk_sorted _ _ Hok) as Hs. unfold pred_of. rewrite E in *. rewrite (below_at Hcmp) by done. apply last_or_node.
  pose proof (lk_nodup _ _ Hok) as Hn. apply list.NoDup_cons in Hn as [Hn _]. rewrite E in Hn.
  eapply prev_sublist; [|exact Hn]. by apply sublist_inserts_r.
Qed.

(** ** Insertion allocates only its node *)

Lemma link_loop_fresh n i w s s' z : link_loop n i w s = Some s' -> nodes s !! z = None -> nodes s' !! z = None.
Proof.
  revert i s. induction n as [|n IH]; intros i s; cbn [link_loop]; [by intros [= ->]|].
  unfold link_own, link_publish. destruct (mjoin (pprev w !! i)) as [p|]; [|done]. cbn [mbind option_bind].
  destruct (Next s p i) as [v|]; [|done]. cbn [mbind option_bind].
  destruct (SetNext (px w) i v s) as [s1|] eqn:E1; [|done]. cbn [mbind option_bind].
  destruct (SetNext p i (Some (px w)) s1) as [s2|] eqn:E2; [|done]. cbn [mbind option_bind].
  intros E Hz. eapply IH; [exact E|]. eapply SetNext_fresh; [exact E2|]. by eapply SetNext_fresh.
Qed.

Lemma Insert_fresh k x s s' z : Insert k x s = Some s' -> z <> x -> nodes s !! z = None -> nodes s' !! z = None.
Proof.
  unfold Insert, insert_begin. destruct (FindGreaterOrEqual s k _) as [[y pv]|]; [|done]. cbn [mbind option_bind].
  destruct pv as [pv|]; [|done]. cbn [mbind option_bind].
  destruct (match y with None => Some false | Some y => k' ← key_of s y; Some (Equal k k') end) as [[|]|]; [done| |done].
  cbn [mbind option_bind]. destruct (RandomHeight (rnd_ s)) as [h rnd]. cbn [nodes head_ max_height_].
  destruct (if decide (max_height_ s < h)%nat then _ else _) as [[s1 pv1]|] eqn:E1; [|done]. cbn [mbind option_bind pheight].
  intros E Hzx Hz. eapply link_loop_fresh; [exact E|]. cbn. rewrite lookup_insert_ne by congruence.
  assert (nodes s1 = nodes s) as ->; [|done]. destruct (decide (max_height_ s < h)%nat); [|by simplify_eq].
  destruct (raise_prev _ h pv); [|done]. cbn in E1. by simplify_eq.
Qed.

End skiplist.
