(* ===== verification/SkipProps.v ===== *)
(** * What the skip list promises ([leveldb-library/db/skiplist.h])

    A list built by insertions holds exactly the inserted keys, in order; its
    iterators walk them; and a search beside an insertion answers for the
    entries published at its last load. *)

From Stdlib Require Import Sorted.
From stdpp Require Import gmap sorting relations.
From S2P Require Import Prelude.
From S2P Require Import SkipList.

Section props.
Context {Key R : Type} (compare_ : Key -> Key -> Z) (rnd_Next : R -> Z * R).

(** Insertions one after the other, with the addresses the arena returns. *)
Fixpoint insert_all (kxs : list (nptr * Key)) (s : @skiplist Key R) : option (@skiplist Key R) :=
  match kxs with
  | [] => Some s
  | (x, k) :: kxs => s ← Insert compare_ rnd_Next k x s; insert_all kxs s
  end.

Lemma insert_all_holds (Hcmp : comparator compare_) kxs s l : holds compare_ s l ->
  NoDup kxs.*1 -> (forall x, x ∈ kxs.*1 -> nodes s !! x = None) ->
  StronglySorted (fun a b => compare_ a.2 b.2 <> 0) kxs -> (forall e y, e ∈ l -> y ∈ kxs -> compare_ e.2 y.2 <> 0) ->
  exists s' l', insert_all kxs s = Some s' /\ holds compare_ s' l' /\ l' ≡ₚ kxs ++ l.
Proof.
  revert s l. induction kxs as [|[x k] kxs IH]; intros s l Hs Hn Hf Hd Hl; cbn [insert_all].
  - by exists s, l.
  - cbn in Hn. apply list.NoDup_cons in Hn as [Hx Hn]. inversion_clear Hd as [|? ? Hd' Hdx].
    rewrite List.Forall_forall in Hdx.
    destruct (Insert_holds compare_ rnd_Next Hcmp s l k x Hs) as (s1 & E & Hs1).
    { apply Hf. left. }
    { intros e He. apply (Hl e (x, k)); [done|left]. }
    rewrite E. cbn [mbind option_bind].
    assert (below compare_ k l ++ (x, k) :: above compare_ k l ≡ₚ (x, k) :: l) as Hp.
    { destruct Hs as (L & Hok & <-). rewrite <- Permutation_middle.
      by rewrite <- (sorted_split compare_ Hcmp k _ (lk_sorted _ _ _ Hok)). }
    destruct (IH s1 _ Hs1 Hn) as (s' & l' & E' & Hs' & Hp').
    + intros z Hz. eapply Insert_fresh; [exact E|by intros ->|]. apply Hf. by right.
    + done.
    + intros e y He Hy. rewrite Hp in He. apply elem_of_cons in He as [->|He].
      * apply Hdx. by apply list_elem_of_In.
      * apply Hl; [done|by right].
    + exists s', l'. split; [done|]. split; [done|]. rewrite Hp', Hp. cbn. by rewrite Permutation_middle.
Qed.

(** C11 (refinement): a skip list built by inserting keys that all compare
    different is the sorted list of these keys, whatever heights the generator
    gives the nodes: every insertion succeeds, its assertion included, the bottom
    level is a strictly sorted arrangement of the entries and every other level a
    part of it, and [Contains] answers whether some inserted key compares equal. *)
Theorem skiplist_is_sorted_set (Hcmp : comparator compare_) head key0 rnd kxs :
  NoDup (head :: kxs.*1) -> StronglySorted (fun a b => compare_ a.2 b.2 <> 0) kxs ->
  exists s l, (s ← SkipList_new head key0 rnd; insert_all kxs s) = Some s /\
    l ≡ₚ kxs /\ StronglySorted (fun a b => compare_ a.2 b.2 < 0) l /\ holds compare_ s l /\
    forall k, Contains compare_ s k = Some (bool_decide (Exists (fun e => compare_ k e.2 = 0) kxs)).
Proof.
  intros Hn Hd. apply list.NoDup_cons in Hn as [Hh Hn].
  destruct (SkipList_new_ok compare_ head key0 rnd) as (s0 & E0 & H0).
  rewrite E0. cbn [mbind option_bind].
  destruct (insert_all_holds Hcmp kxs s0 [] H0 Hn) as (s & l & -> & Hs & Hp).
  - intros x Hx. eapply SkipList_new_fresh; [exact E0|]. by intros ->.
  - done.
  - by intros e y He%elem_of_nil.
  - exists s, l. rewrite app_nil_r in Hp. split; [done|]. split; [done|]. split; [|split; [done|]].
    + destruct Hs as (L & Hok & <-). apply (lk_sorted _ _ _ Hok).
    + intros k. rewrite (Contains_holds compare_ Hcmp s l k Hs). f_equal. apply bool_decide_ext. by rewrite Hp.
Qed.

(** On a list that holds [l] the iterators walk [l]: they find
    its first and its last entry and the first entry not below a target, and
    from an entry [Next] and [Prev] go to its neighbours, each a null pointer
    where there is none; the searches end within their fuel. *)
Theorem skiplist_iterators (Hcmp : comparator compare_) (s : @skiplist Key R) l : holds compare_ s l ->
  SeekToFirst s = Some (first_of l) /\ SeekToLast s = Some (last_of l) /\
  (forall k, Seek compare_ s k = Some (first_of (above compare_ k l))) /\
  forall A x kx B, l = A ++ (x, kx) :: B ->
    Iterator_key s (Some x) = Some kx /\ Iterator_Next s (Some x) = Some (first_of B) /\
    Iterator_Prev compare_ s (Some x) = Some (last_of A).
Proof.
  intros Hs. pose proof Hs as (L & Hok & El). split; [|split; [|split]].
  - pose proof (lk_path _ _ _ Hok 0%nat ltac:(unfold kMaxHeight; lia)) as Hp. apply path_first in Hp.
    unfold SeekToFirst. rewrite Hp, El. by destruct l.
  - unfold SeekToLast. rewrite (FindLast_ok compare_ Hcmp s L Hok). cbn [mbind option_bind]. f_equal. rewrite El.
    apply last_or_node. pose proof (lk_nodup _ _ _ Hok) as Hn. rewrite El in Hn. by apply list.NoDup_cons in Hn as [? _].
  - intros k. unfold Seek. destruct (FindGreaterOrEqual_ok compare_ Hcmp s L Hok k None I) as (pv & -> & _).
    by rewrite El.
  - intros A x kx B ->. split; [|split].
    + apply (lk_key compare_ s L Hok 0 (x, kx)). rewrite El. apply elem_of_app. right. left.
    + by eapply Iterator_Next_holds.
    + by eapply Iterator_Prev_holds.
Qed.

(** The steps of a writer and a reader from a new list on. *)
Definition sys_reachable (target : Key) (c : list (nptr * Key) * system) : Prop :=
  exists head key0 rnd c0, sys_start head key0 rnd = Some c0 /\ rtc (sys_step compare_ rnd_Next target) c0 c.

Lemma sys_reachable_ok (Hcmp : comparator compare_) target c : sys_reachable target c -> sys_ok compare_ target c.
Proof.
  intros (head & key0 & rnd & c0 & E & Hst). unfold sys_start in E.
  destruct (SkipList_new_ok compare_ head key0 rnd) as (s & Es & L & Hok & EL). rewrite Es in E. cbn in E.
  injection E as <-. assert (sys_ok compare_ target ([], System s None (Returned None))) as H0.
  { exists L. split; [|done]. split; [done|]. split; [cbn; by rewrite EL|done]. }
  clear - Hcmp H0 Hst. induction Hst as [|c1 c2 c3 Hst _ IH]; [done|]. apply IH. by eapply sys_step_ok.
Qed.

(** C10 (safety): whatever the interleaving of the loads of a search with the
    stores of insertions, the search reads no link that is not stored yet and
    follows no null pointer, and when it returns, its answer is the first of the
    entries published so far that is not below the target.  An entry counts as
    published from the store into the bottom level on, and every store of the
    insertion succeeds. *)
Theorem skiplist_readers (Hcmp : comparator compare_) target pub s wr rd :
  sys_reachable target (pub, System s wr rd) ->
  (forall x level, rd = Reading x level -> exists r, find_ge_step compare_ s target x level None = Some r /\
     forall next pv, r = inr (next, pv) -> exists l, l ≡ₚ pub /\
       StronglySorted (fun a b => compare_ a.2 b.2 < 0) l /\ next = first_of (above compare_ target l)) /\
  (forall w i own, wr = Some (w, i, own) -> (i < pheight w)%nat ->
     exists s', (if own then link_publish w i s else link_own w i s) = Some s').
Proof.
  intros (L & (Hok & Hpub & Hw) & Hr)%(sys_reachable_ok Hcmp). cbn [fst snd slist writer searching] in *. split.
  - intros x level ->. destruct Hr as [okx Hx].
    destruct (find_ge_step_ok compare_ Hcmp s L Hok target x okx level None Hx I) as (r & E & Hcase).
    exists r. split; [done|]. intros next pv ->. exists (L 0%nat). split; [done|]. split; [apply (lk_sorted _ _ _ Hok)|].
    destruct Hcase as [(n & kn & ? & _)|(_ & pv' & _ & E')]; [done|]. destruct level; [|done]. by injection E' as -> _.
  - intros w i own -> Hi. destruct Hw as (_ & _ & L0 & k & Hl & _). destruct own.
    + destruct (link_publish_ok compare_ Hcmp L0 k w s i Hl Hi) as (s' & ? & _). by exists s'.
    + destruct (link_own_ok compare_ Hcmp L0 k w s i Hl Hi) as (s' & ? & _). by exists s'.
Qed.
End props.

(** ** Integers as keys, and a counter for random numbers *)

Lemma Z_sub_comparator : comparator Z.sub.
Proof.
  split.
  - intros a b. replace (b - a) with (- (a - b)) by lia. apply Z.sgn_opp.
  - intros a b c. lia.
Defined.

Definition count_Next (n : nat) : Z * nat := (Z.of_nat n * 2, S n).

Definition demo_entries : list (positive * Z) := [(2%positive, 5); (3%positive, 1); (4%positive, 9)].

Lemma demo_entries_ok : NoDup (1%positive :: demo_entries.*1) /\ StronglySorted (fun a b => a.2 - b.2 <> 0) demo_entries.
Proof. split; [apply (bool_decide_unpack _); vm_compute; exact I|repeat constructor; cbn; lia]. Defined.

Lemma skiplist_is_sorted_set_witness :
  exists s l, (s ← SkipList_new 1 0 0%nat; insert_all Z.sub count_Next demo_entries s) = Some s /\
    l ≡ₚ demo_entries /\ StronglySorted (fun a b => a.2 - b.2 < 0) l /\ holds Z.sub s l /\
    forall k, Contains Z.sub s k = Some (bool_decide (Exists (fun e => k - e.2 = 0) demo_entries)).
Proof.
  apply (skiplist_is_sorted_set Z.sub count_Next Z_sub_comparator 1 0 0%nat demo_entries); apply demo_entries_ok.
Defined.

(** The list of the demo, built step by step. *)
Example demo_order : (s ← SkipList_new 1 0 0%nat; s ← insert_all Z.sub count_Next demo_entries s;
  a ← SeekToFirst s; b ← Iterator_Next s a; c ← Iterator_Prev Z.sub s b; Some (a, b, c, max_height_ s)) =
  Some (Some 3%positive, Some 2%positive, Some 3%positive, 2%nat).
Proof. vm_compute. reflexivity. Qed.

Lemma skiplist_iterators_witness : exists s l, l ≡ₚ demo_entries /\ SeekToFirst (Key := Z) (R := nat) s = Some (first_of l).
Proof.
  destruct (SkipList_new_ok (R := nat) Z.sub 1 0 0%nat) as (s0 & E0 & H0).
  destruct (insert_all_holds Z.sub count_Next Z_sub_comparator demo_entries s0 [] H0) as (s & l & _ & Hs & Hp).
  - apply (bool_decide_unpack _). vm_compute. exact I.
  - intros x Hx. eapply SkipList_new_fresh; [exact E0|]. intros ->. destruct demo_entries_ok as [Hn _].
    apply list.NoDup_cons in Hn as [Hn _]. by apply Hn.
  - apply demo_entries_ok.
  - intros e y He. destruct (not_elem_of_nil e He).
  - exists s, l. split; [by rewrite app_nil_r in Hp|]. exact (proj1 (skiplist_iterators Z.sub Z_sub_comparator s l Hs)).
Defined.

(** A search for 7 begins while 5 is being linked. *)
Definition demo_new : @skiplist Z nat := default (SkipList ∅ 1 1 0%nat) (SkipList_new 1 0 0%nat).
Definition demo_begun := default (demo_new, Pending 1 0 []) (insert_begin Z.sub count_Next 5 2 demo_new).
Definition demo_own := default demo_new (link_own demo_begun.2 0 demo_begun.1).

Lemma demo_sys_reachable : sys_reachable Z.sub count_Next 7
  ([], System demo_own (Some (demo_begun.2, 0%nat, true)) (Reading 1 (max_height_ demo_own - 1))).
Proof.
  exists 1%positive, 0, 0%nat, ([], System demo_new None (Returned None)). split; [vm_compute; reflexivity|].
  eapply rtc_l; [apply (step_begin Z.sub count_Next 7 [] demo_new _ 5 2 demo_begun.1 demo_begun.2)|].
  - vm_compute. reflexivity.
  - by intros e He%elem_of_nil.
  - vm_compute. reflexivity.
  - eapply rtc_l; [apply (step_own Z.sub count_Next 7 [] demo_begun.1 _ demo_begun.2 0 demo_own)|].
    + vm_compute. lia.
    + vm_compute. reflexivity.
    + apply rtc_once, (step_start Z.sub count_Next 7 [] demo_own).
Defined.

Lemma skiplist_readers_witness : exists s', link_publish demo_begun.2 0 demo_own = Some s'.
Proof.
  apply (proj2 (skiplist_readers Z.sub count_Next Z_sub_comparator 7 _ _ _ _ demo_sys_reachable) _ 0%nat true eq_refl).
  vm_compute. lia.
Defined.
