(* ===== verification/LogReader.v ===== *)
(** * The log reader of leveldb ([leveldb-library/db/log_reader.cc])

    A reader turns the blocks of a log file into physical records, checks them,
    and joins their fragments into logical records.  The constants of the format
    ([db/log_format.h]), the masked checksums and the decoding of integers
    ([util/crc32c.h], [util/coding.h]) are not part of the repository and are
    parameters, and so is the file, by its interface in [leveldb/env.h].  The
    reports of dropped bytes are kept in order in the state.  [None] is an access
    past the buffer, or fuel that ran out. *)

From Stdlib Require Import String.
From stdpp Require Import base list.
From S2P Require Import Prelude.

Inductive status := OK | IOError (code : Z).
(** Why bytes were dropped: a message, the formatted message about an unknown type
    of record, or the status of a file operation. *)
Inductive reason := Corruption (msg : string) | UnknownType (record_type : Z) | Failed (st : status).

(** ** The interfaces *)

(** [SequentialFile]: what is read next, and how many bytes are left at most. *)
Class SequentialFile (F : Type) := {
  file_Read : Z -> F -> status * list Z * F;
  file_Skip : Z -> F -> status * F;
  remaining : F -> nat;
}.

(** At most the requested number of bytes is delivered, and no byte twice. *)
Class SequentialFileLaws (F : Type) `{SequentialFile F} := {
  Read_bytes n f : Forall (is_u 8) (file_Read n f).1.2;
  Read_length n f : 0 <= n -> Z.of_nat (length (file_Read n f).1.2) <= n;
  Read_remaining n f : (remaining (file_Read n f).2 + length (file_Read n f).1.2 <= remaining f)%nat;
  Skip_remaining n f : (remaining (file_Skip n f).2 <= remaining f)%nat;
}.

Class LogFormat := {
  kBlockSize : Z; kHeaderSize : Z;
  kZeroType : Z; kFullType : Z; kFirstType : Z; kMiddleType : Z; kLastType : Z;
  kEof : Z; kBadRecord : Z;
  crc_Value : list Z -> Z; Unmask : Z -> Z; DecodeFixed32 : list Z -> Z;
}.

(** The header is a checksum, a length and a type in its first seven bytes. *)
Class LogFormatLaws `{LogFormat} := {
  header_size : kHeaderSize = 7;
  block_size : kHeaderSize <= kBlockSize < 2 ^ 31;
  types_distinct : NoDup [kZeroType; kFullType; kFirstType; kMiddleType; kLastType; kEof; kBadRecord];
  types_small t : t ∈ [kZeroType; kFullType; kFirstType; kMiddleType; kLastType] -> 0 <= t < 128;
}.

Section reader.
Context `{LogFormat} {F : Type} `{SequentialFile F}.

Record reader := Reader {
  file_ : F; reporter_ : bool; drops : list (Z * reason); checksum_ : bool;
  buffer_ : list Z; eof_ : bool; last_record_offset_ : Z; end_of_buffer_offset_ : Z;
  initial_offset_ : Z; resyncing_ : bool
}.

Definition Reader_new (file : F) (reporter checksum : bool) (initial_offset : Z) : reader :=
  Reader file reporter [] checksum [] false 0 0 initial_offset (0 <? initial_offset).

Definition size (l : list Z) : Z := Z.of_nat (length l).

Definition with_file f s := Reader f (reporter_ s) (drops s) (checksum_ s) (buffer_ s) (eof_ s) (last_record_offset_ s) (end_of_buffer_offset_ s) (initial_offset_ s) (resyncing_ s).
Definition with_drops d s := Reader (file_ s) (reporter_ s) d (checksum_ s) (buffer_ s) (eof_ s) (last_record_offset_ s) (end_of_buffer_offset_ s) (initial_offset_ s) (resyncing_ s).
Definition with_buffer b s := Reader (file_ s) (reporter_ s) (drops s) (checksum_ s) b (eof_ s) (last_record_offset_ s) (end_of_buffer_offset_ s) (initial_offset_ s) (resyncing_ s).
Definition with_eof e s := Reader (file_ s) (reporter_ s) (drops s) (checksum_ s) (buffer_ s) e (last_record_offset_ s) (end_of_buffer_offset_ s) (initial_offset_ s) (resyncing_ s).
Definition with_last o s := Reader (file_ s) (reporter_ s) (drops s) (checksum_ s) (buffer_ s) (eof_ s) o (end_of_buffer_offset_ s) (initial_offset_ s) (resyncing_ s).
Definition with_end o s := Reader (file_ s) (reporter_ s) (drops s) (checksum_ s) (buffer_ s) (eof_ s) (last_record_offset_ s) o (initial_offset_ s) (resyncing_ s).
Definition with_resyncing b s := Reader (file_ s) (reporter_ s) (drops s) (checksum_ s) (buffer_ s) (eof_ s) (last_record_offset_ s) (end_of_buffer_offset_ s) (initial_offset_ s) b.

Definition ReportDrop (bytes : Z) (why : reason) (s : reader) : reader :=
  if reporter_ s && (initial_offset_ s <=? wrap 64 (end_of_buffer_offset_ s - size (buffer_ s) - bytes))
  then with_drops (drops s ++ [(bytes, why)]) s else s.

Definition ReportCorruption (bytes : Z) (msg : string) (s : reader) : reader := ReportDrop bytes (Corruption msg) s.

Definition SkipToInitialBlock (s : reader) : bool * reader :=
  let offset_in_block := initial_offset_ s mod kBlockSize in
  let block_start_location := wrap 64 (initial_offset_ s - offset_in_block) in
  let block_start_location :=
    if kBlockSize - 6 <? offset_in_block then wrap 64 (block_start_location + kBlockSize) else block_start_location in
  let s := with_end block_start_location s in
  if 0 <? block_start_location then
    let '(st, f) := file_Skip block_start_location (file_ s) in
    let s := with_file f s in
    match st with OK => (true, s) | st => (false, ReportDrop block_start_location (Failed st) s) end
  else (true, s).

(** [n] bytes from [off] on, inside the buffer. *)
Definition slice (b : list Z) (off n : Z) : option (list Z) :=
  if decide (0 <= off /\ 0 <= n /\ off + n <= size b) then Some (take (Z.to_nat n) (drop (Z.to_nat off) b)) else None.

(** A byte as a [char], converted to [unsigned int]. *)
Definition char_unsigned (b : Z) : Z := if b <? 128 then b else wrap 32 (b - 256).

(** Refilling the buffer; [None] is the return of [kEof]. *)
Definition refill (s : reader) : reader * bool :=
  let s := with_buffer [] s in
  let '(st, data, f) := file_Read kBlockSize (file_ s) in
  let s := with_buffer data (with_file f s) in
  let s := with_end (wrap 64 (end_of_buffer_offset_ s + size (buffer_ s))) s in
  match st with
  | OK => (if size (buffer_ s) <? kBlockSize then with_eof true s else s, false)
  | st => (with_eof true (ReportDrop kBlockSize (Failed st) (with_buffer [] s)), true)
  end.

(** The part of [ReadPhysicalRecord] after the buffer holds a header. *)
Definition parse_record (result : list Z) (s : reader) : option (Z * list Z * reader) :=
  let header := buffer_ s in
  a ← header !! 4%nat; b ← header !! 5%nat; t ← header !! 6%nat;
  let type := char_unsigned t in
  let length := Z.lor a (Z.shiftl b 8) in
  if size header <? kHeaderSize + length then
    let drop_size := size header in
    let s := with_buffer [] s in
    Some (if negb (eof_ s) then (kBadRecord, result, ReportCorruption drop_size "bad record length" s) else (kEof, result, s))
  else if (type =? kZeroType) && (length =? 0) then Some (kBadRecord, result, with_buffer [] s)
  else
    tag ← slice header 0 4; body ← slice header 6 (1 + length);
    if checksum_ s && negb (crc_Value body =? Unmask (DecodeFixed32 tag)) then
      let drop_size := size header in
      Some (kBadRecord, result, ReportCorruption drop_size "checksum mismatch" (with_buffer [] s))
    else
      payload ← slice header kHeaderSize length;
      let s := with_buffer (drop (Z.to_nat (kHeaderSize + length)) header) s in
      if wrap 64 (end_of_buffer_offset_ s - size (buffer_ s) - kHeaderSize - length) <? initial_offset_ s
      then Some (kBadRecord, [], s)
      else Some (type, payload, s).

(** [result] is the fragment the caller passes, left alone on some returns; a
    refill is followed by a return or by a record, so three turns are enough. *)
Fixpoint physical_loop (fuel : nat) (result : list Z) (s : reader) : option (Z * list Z * reader) :=
  match fuel with
  | O => None
  | S fuel =>
      if size (buffer_ s) <? kHeaderSize then
        if negb (eof_ s) then
          let '(s, failed) := refill s in
          if failed : bool then Some (kEof, result, s) else physical_loop fuel result s
        else Some (kEof, result, with_buffer [] s)
      else parse_record result s
  end.

Definition ReadPhysicalRecord (result : list Z) (s : reader) : option (Z * list Z * reader) := physical_loop 3 result s.

(** The state of the loop of [ReadRecord]. *)
Record assembly := Assembly { fragment : list Z; scratch : list Z; in_fragmented_record : bool; prospective_record_offset : Z }.

(** What a turn of the loop ends with: another turn, a record, or none. *)
Inductive turn := Continue (a : assembly) (s : reader) | Found (record : list Z) (s : reader) | Stop (s : reader).

(** The switch on the type of a physical record. *)
Definition handle_record (record_type physical_record_offset : Z) (a : assembly) (s : reader) : turn :=
  let partial msg s :=
    if in_fragmented_record a && negb (size (scratch a) =? 0) then ReportCorruption (size (scratch a)) msg s else s in
  if record_type =? kFullType then
    Found (fragment a) (with_last physical_record_offset (partial "partial record without end(1)"%string s))
  else if record_type =? kFirstType then
    Continue (Assembly (fragment a) (fragment a) true physical_record_offset) (partial "partial record without end(2)"%string s)
  else if record_type =? kMiddleType then
    if negb (in_fragmented_record a)
    then Continue a (ReportCorruption (size (fragment a)) "missing start of fragmented record(1)" s)
    else Continue (Assembly (fragment a) (scratch a ++ fragment a) true (prospective_record_offset a)) s
  else if record_type =? kLastType then
    if negb (in_fragmented_record a)
    then Continue a (ReportCorruption (size (fragment a)) "missing start of fragmented record(2)" s)
    else Found (scratch a ++ fragment a) (with_last (prospective_record_offset a) s)
  else if record_type =? kEof then Stop s
  else if record_type =? kBadRecord then
    if in_fragmented_record a
    then Continue (Assembly (fragment a) [] false (prospective_record_offset a))
           (ReportCorruption (size (scratch a)) "error in middle of record" s)
    else Continue a s
  else
    Continue (Assembly (fragment a) [] false (prospective_record_offset a))
      (ReportDrop (size (fragment a) + (if in_fragmented_record a then size (scratch a) else 0)) (UnknownType record_type) s).

(** A turn of the loop. *)
Definition read_turn (a : assembly) (s : reader) : option turn :=
  '(record_type, frag, s) ← ReadPhysicalRecord (fragment a) s;
  let a := Assembly frag (scratch a) (in_fragmented_record a) (prospective_record_offset a) in
  let physical_record_offset := wrap 64 (end_of_buffer_offset_ s - size (buffer_ s) - kHeaderSize - size frag) in
  if resyncing_ s && (record_type =? kMiddleType) then Some (Continue a s)
  else if resyncing_ s && (record_type =? kLastType) then Some (Continue a (with_resyncing false s))
  else Some (handle_record record_type physical_record_offset a (with_resyncing false s)).

Fixpoint read_loop (fuel : nat) (a : assembly) (s : reader) : option (option (list Z) * reader) :=
  match fuel with
  | O => None
  | S fuel =>
      r ← read_turn a s;
      match r with
      | Continue a s => read_loop fuel a s
      | Found record s => Some (Some record, s)
      | Stop s => Some (None, s)
      end
  end.

(** The bytes not looked at yet; every turn but the last consumes one. *)
Definition unread (s : reader) : nat := length (buffer_ s) + remaining (file_ s).

(** [Some record] is the return of true. *)
Definition ReadRecord (s : reader) : option (option (list Z) * reader) :=
  let start := if last_record_offset_ s <? initial_offset_ s then SkipToInitialBlock s else (true, s) in
  if start.1 then read_loop (S (unread start.2)) (Assembly [] [] false 0) start.2 else Some (None, start.2).

Definition LastRecordOffset (s : reader) : Z := last_record_offset_ s.

(** ** Every call returns *)

Context {Hfmt : LogFormatLaws} {Hfile : SequentialFileLaws F}.

Definition bytes_ok (s : reader) : Prop := Forall (is_u 8) (buffer_ s).

Lemma slice_in b off n : 0 <= off -> 0 <= n -> off + n <= size b ->
  slice b off n = Some (take (Z.to_nat n) (drop (Z.to_nat off) b)).
Proof. intros. unfold slice. by rewrite decide_True. Qed.

Lemma byte_length a b : is_u 8 a -> is_u 8 b -> Z.lor a (Z.shiftl b 8) = a + 256 * b.
Proof. intros Ha Hb. rewrite Z.lor_comm, lor_shiftl_add; [lia|lia|]. exact Ha. Qed.

Lemma ReportDrop_same n why s :
  buffer_ (ReportDrop n why s) = buffer_ s /\ file_ (ReportDrop n why s) = file_ s /\ eof_ (ReportDrop n why s) = eof_ s /\
  resyncing_ (ReportDrop n why s) = resyncing_ s /\ checksum_ (ReportDrop n why s) = checksum_ s.
Proof. unfold ReportDrop. by destruct (_ && _). Qed.

(** A buffer with a header, taken apart. *)
Lemma header_split (b : list Z) : kHeaderSize <= size b ->
  exists tag lo hi t rest, b = tag ++ lo :: hi :: t :: rest /\ length tag = 4%nat.
Proof.
  rewrite header_size. unfold size. intros Hs.
  destruct b as [|b0 [|b1 [|b2 [|b3 [|lo [|hi [|t rest]]]]]]]; cbn in Hs; try lia.
  by exists [b0; b1; b2; b3], lo, hi, t, rest.
Qed.

(** What a record of type [ty] with the payload [frag] looks like in the buffer. *)
Definition well_read (checked : bool) (tag : list Z) (lo hi t : Z) (ty : Z) (frag : list Z) : Prop :=
  ty = char_unsigned t /\ lo + 256 * hi = size frag /\ length tag = 4%nat /\
  (checked = true -> crc_Value (t :: frag) = Unmask (DecodeFixed32 tag)).

(** The ways a turn over the buffer ends: the rest of the buffer is given up, or a
    record is taken off its front. *)
Definition parsed (s : reader) (ty : Z) (frag : list Z) (s' : reader) : Prop :=
  file_ s' = file_ s /\ checksum_ s' = checksum_ s /\
  exists used, buffer_ s = used ++ buffer_ s' /\ used <> [] /\
    (ty = kBadRecord \/ ty = kEof \/
     exists tag lo hi t, used = tag ++ lo :: hi :: t :: frag /\ well_read (checksum_ s) tag lo hi t ty frag).

Lemma parsed_drop s ty frag n msg : buffer_ s <> [] -> ty = kBadRecord \/ ty = kEof ->
  parsed s ty frag (with_buffer [] s) /\ parsed s ty frag (ReportCorruption n msg (with_buffer [] s)).
Proof.
  intros Hne Hty. unfold parsed, ReportCorruption.
  destruct (ReportDrop_same n (Corruption msg) (with_buffer [] s)) as (-> & -> & _ & _ & ->). cbn.
  assert (ty = kBadRecord \/ ty = kEof \/ exists tag lo hi t, buffer_ s = tag ++ lo :: hi :: t :: frag /\
    well_read (checksum_ s) tag lo hi t ty frag) by tauto.
  split; (split; [done|]; split; [done|]; exists (buffer_ s); by rewrite app_nil_r).
Qed.

Lemma parse_record_ok result s : bytes_ok s -> kHeaderSize <= size (buffer_ s) ->
  exists ty frag s', parse_record result s = Some (ty, frag, s') /\ parsed s ty frag s'.
Proof.
  intros Hb Hs. destruct (header_split _ Hs) as (tag & lo & hi & t & rest & E & Htag).
  unfold bytes_ok in Hb. rewrite E in Hb. apply Forall_app in Hb as [_ Hb]. rewrite !List.Forall_cons_iff in Hb.
  destruct Hb as (Hlo & Hhi & _). assert (buffer_ s <> []) as Hne by (rewrite E; by destruct tag).
  assert (forall k, buffer_ s !! (4 + k)%nat = (lo :: hi :: t :: rest) !! k) as Hlk.
  { intros k. rewrite E, lookup_app_r by lia. f_equal. lia. }
  unfold parse_record. rewrite (Hlk 0%nat : buffer_ s !! 4%nat = _), (Hlk 1%nat : buffer_ s !! 5%nat = _), (Hlk 2%nat : buffer_ s !! 6%nat = _).
  cbn [lookup list_lookup mbind option_bind]. rewrite (byte_length lo hi Hlo Hhi).
  unfold is_u in Hlo, Hhi. rewrite header_size in *.
  destruct (Z.ltb_spec (size (buffer_ s)) (7 + (lo + 256 * hi))) as [Hlong|Hfit].
  { cbn [eof_ with_buffer]. destruct (eof_ s); cbn [negb]; eexists _, _, _; (split; [reflexivity|]); apply (parsed_drop s); try exact ""%string; try exact 0; tauto. }
  destruct ((char_unsigned t =? kZeroType) && (lo + 256 * hi =? 0)).
  { eexists _, _, _. split; [reflexivity|]. apply (parsed_drop s _ _ 0 ""); tauto. }
  assert (size (buffer_ s) = 7 + size rest) as Hsz by (rewrite E; unfold size; rewrite length_app, Htag; cbn; lia).
  rewrite !slice_in by lia.
  assert (take (Z.to_nat 4) (drop (Z.to_nat 0) (buffer_ s)) = tag) as -> by (rewrite E; by apply take_app_length').
  assert (take (Z.to_nat (1 + (lo + 256 * hi))) (drop (Z.to_nat 6) (buffer_ s)) = t :: take (Z.to_nat (lo + 256 * hi)) rest) as ->.
  { rewrite E. change (tag ++ lo :: hi :: t :: rest) with (tag ++ [lo; hi] ++ t :: rest). rewrite app_assoc.
    rewrite drop_app_length' by (rewrite length_app, Htag; done). replace (Z.to_nat (1 + (lo + 256 * hi))) with (S (Z.to_nat (lo + 256 * hi))) by lia. done. }
  cbn [mbind option_bind].
  destruct (checksum_ s && negb (crc_Value (t :: take (Z.to_nat (lo + 256 * hi)) rest) =? Unmask (DecodeFixed32 tag))) eqn:Hcrc.
  { eexists _, _, _. split; [reflexivity|]. apply (parsed_drop s); tauto. }
  set (frag := take (Z.to_nat (lo + 256 * hi)) rest) in *.
  assert (drop (Z.to_nat 7) (buffer_ s) = rest) as Hd.
  { rewrite E. change (tag ++ lo :: hi :: t :: rest) with (tag ++ [lo; hi; t] ++ rest). rewrite app_assoc.
    by rewrite drop_app_length' by (rewrite length_app, Htag; done). }
  rewrite Hd. cbn [mbind option_bind]. fold frag.
  set (s1 := with_buffer _ s). assert (buffer_ s1 = drop (Z.to_nat (lo + 256 * hi)) rest) as Hb1.
  { cbn. rewrite <- Hd, drop_drop. f_equal. lia. }
  assert (parsed s (char_unsigned t) frag s1 /\ parsed s kBadRecord [] s1) as [Hp1 Hp2].
  { assert (buffer_ s = (tag ++ lo :: hi :: t :: frag) ++ buffer_ s1) as Eb.
    { rewrite Hb1, E, <- app_assoc. cbn. do 4 f_equal. unfold frag. by rewrite take_drop. }
    split; (split; [done|]; split; [done|]; exists (tag ++ lo :: hi :: t :: frag); split; [done|]; split; [by destruct tag|]).
    - right; right. exists tag, lo, hi, t. split; [done|]. split; [done|]. split; [|split; [done|]].
      + unfold frag, size. rewrite length_take. unfold size in Hsz, Hfit. lia.
      + intros Hc. rewrite Hc in Hcrc. cbn [andb] in Hcrc. by apply negb_false_iff, Z.eqb_eq in Hcrc.
    - by left. }
  destruct (_ <? _); eexists _, _, _; (split; [reflexivity|done]).
Qed.

(** A refill delivers the next block, or reports why not. *)
Lemma refill_ok s : let '(s', failed) := refill s in
  bytes_ok s' /\ checksum_ s' = checksum_ s /\ file_ s' = (file_Read kBlockSize (file_ s)).2 /\
  (unread s' <= remaining (file_ s))%nat /\
  if failed : bool then buffer_ s' = []
  else buffer_ s' = (file_Read kBlockSize (file_ s)).1.2 /\ eof_ s' = (size (buffer_ s') <? kBlockSize) || eof_ s.
Proof.
  unfold refill, bytes_ok, unread. cbn [file_ with_buffer].
  pose proof (Read_bytes kBlockSize (file_ s)) as Hb. pose proof (Read_remaining kBlockSize (file_ s)) as Hr.
  destruct (file_Read kBlockSize (file_ s)) as [[st data] f]. cbn [fst snd] in *. destruct st as [|code].
  - cbn [buffer_ with_buffer with_file with_end]. destruct (size data <? kBlockSize) eqn:E; cbn;
      (split; [done|]; split; [done|]; split; [done|]; split; [lia|]; by rewrite E).
  - set (s1 := with_buffer [] _). cbn.
    destruct (ReportDrop_same kBlockSize (Failed (IOError code)) s1) as (-> & -> & _ & _ & ->). cbn.
    split; [constructor|]. split; [done|]. split; [done|]. split; [lia|done].
Qed.

(** What [ReadPhysicalRecord] does to the reader: it reads on to the block [s1] when its
    buffer is used up, and takes a record off it or stops at the end of the file. *)
Definition advanced (s s1 : reader) : Prop :=
  bytes_ok s1 /\ checksum_ s1 = checksum_ s /\
  (buffer_ s1 = buffer_ s /\ file_ s1 = file_ s \/
   buffer_ s1 = (file_Read kBlockSize (file_ s)).1.2 /\ file_ s1 = (file_Read kBlockSize (file_ s)).2 \/
   buffer_ s1 = [] /\ file_ s1 = (file_Read kBlockSize (file_ s)).2).

Lemma physical_ok result s : bytes_ok s ->
  exists ty frag s' s1, ReadPhysicalRecord result s = Some (ty, frag, s') /\ advanced s s1 /\
    (parsed s1 ty frag s' \/ ty = kEof /\ file_ s' = file_ s1 /\ checksum_ s' = checksum_ s /\ buffer_ s' = []).
Proof.
  intros Hb. unfold ReadPhysicalRecord. cbn [physical_loop].
  assert (advanced s s) as Hrefl by (split; [done|]; split; [done|]; by left).
  pose proof block_size as Hbs. pose proof header_size as Hhs.
  destruct (Z.ltb_spec (size (buffer_ s)) kHeaderSize) as [Hshort|Hlong].
  - destruct (eof_ s) eqn:Heof; cbn [negb].
    + exists kEof, result, (with_buffer [] s), s. split; [done|]. split; [done|]. by right.
    + pose proof (refill_ok s) as Hr. destruct (refill s) as [s1 failed]. destruct Hr as (Hb1 & Hc1 & Hf1 & Hu1 & Hcase).
      destruct failed.
      { exists kEof, result, s1, s1. split; [done|]. split; [|by right]. split; [done|]. split; [done|]. by right; right. }
      destruct Hcase as [Hd He]. assert (advanced s s1) as Hadv by (split; [done|]; split; [done|]; by right; left).
      destruct (Z.ltb_spec (size (buffer_ s1)) kHeaderSize) as [Hshort1|Hlong1].
      * rewrite He, (proj2 (Z.ltb_lt (size (buffer_ s1)) kBlockSize)) by lia. cbn [orb negb].
        exists kEof, result, (with_buffer [] s1), s1. split; [done|]. split; [done|]. by right.
      * destruct (parse_record_ok result s1 Hb1 Hlong1) as (ty & frag & s' & E & Hp). exists ty, frag, s', s1. by split; [|split; [|left]].
  - destruct (parse_record_ok result s Hb Hlong) as (ty & frag & s' & E & Hp). exists ty, frag, s', s. by split; [|split; [|left]].
Qed.

Lemma advanced_unread s s1 : advanced s s1 -> (unread s1 <= unread s)%nat.
Proof.
  unfold unread. pose proof (Read_remaining kBlockSize (file_ s)).
  intros (_ & _ & [[-> ->]|[[-> ->]|[-> ->]]]); cbn; lia.
Qed.

Lemma parsed_unread s ty frag s' : bytes_ok s -> parsed s ty frag s' -> bytes_ok s' /\ (unread s' < unread s)%nat.
Proof.
  unfold bytes_ok, unread. intros Hb (-> & _ & used & E & Hne & _). rewrite E in *. apply Forall_app in Hb as [_ Hb].
  split; [done|]. rewrite length_app. destruct used; [done|cbn; lia].
Qed.

(** What the switch leaves alone. *)
Definition kept (s s' : reader) : Prop := buffer_ s' = buffer_ s /\ file_ s' = file_ s /\ checksum_ s' = checksum_ s.

Lemma kept_drop s s' n why : kept s s' -> kept s (ReportDrop n why s').
Proof. intros (? & ? & ?). destruct (ReportDrop_same n why s') as (E1 & E2 & _ & _ & E3). unfold kept. by rewrite E1, E2, E3. Qed.

Lemma type_facts : kFirstType <> kEof /\ kMiddleType <> kEof /\ kLastType <> kEof /\ kBadRecord <> kEof /\
  kFullType <> kFirstType /\ kFullType <> kMiddleType /\ kFullType <> kLastType /\ kFirstType <> kMiddleType /\
  kFirstType <> kLastType /\ kMiddleType <> kLastType /\ kFullType <> kBadRecord /\ kFullType <> kEof /\
  kFirstType <> kBadRecord /\ kMiddleType <> kBadRecord /\ kLastType <> kBadRecord /\ kZeroType <> kFullType /\
  kZeroType <> kFirstType /\ kZeroType <> kMiddleType /\ kZeroType <> kLastType.
Proof.
  pose proof types_distinct as Hd. repeat rewrite list.NoDup_cons in Hd. repeat rewrite not_elem_of_cons in Hd.
  intuition congruence.
Qed.

Lemma handle_record_kept ty off a s : match handle_record ty off a s with
  | Continue _ s' | Found _ s' => kept s s' /\ ty <> kEof
  | Stop s' => kept s s'
  end.
Proof.
  destruct type_facts as (H1 & H2 & H3 & H4 & _ & _ & _ & _ & _ & _ & _ & H5 & _). assert (kept s s) as Hk by done. unfold handle_record, ReportCorruption.
  destruct (Z.eqb_spec ty kFullType); [split; [by destruct (in_fragmented_record a && _); [apply (kept_drop s s)|]|congruence]|].
  destruct (Z.eqb_spec ty kFirstType); [split; [|congruence]; destruct (in_fragmented_record a && _); [by apply kept_drop|done]|].
  destruct (Z.eqb_spec ty kMiddleType); [destruct (in_fragmented_record a); cbn [negb]; (split; [|congruence]); [done|by apply kept_drop]|].
  destruct (Z.eqb_spec ty kLastType).
  { destruct (in_fragmented_record a); cbn [negb]; (split; [|congruence]); [done|by apply kept_drop]. }
  destruct (Z.eqb_spec ty kEof); [done|].
  destruct (Z.eqb_spec ty kBadRecord); [destruct (in_fragmented_record a); (split; [|congruence]); [by apply kept_drop|done]|].
  split; [by apply kept_drop|done].
Qed.

(** A turn keeps the bytes, and goes on only after it consumed some. *)
Lemma read_turn_ok a s : bytes_ok s -> exists r, read_turn a s = Some r /\
  match r with
  | Continue _ s' | Found _ s' => bytes_ok s' /\ (unread s' < unread s)%nat
  | Stop s' => bytes_ok s' /\ (unread s' <= unread s)%nat
  end.
Proof.
  intros Hb. unfold read_turn. destruct (physical_ok (fragment a) s Hb) as (ty & frag & s' & s1 & -> & Hadv & Hcase).
  cbn [mbind option_bind]. pose proof (advanced_unread _ _ Hadv) as Hu.
  assert (bytes_ok s' /\ (unread s' <= unread s)%nat /\ (ty = kEof \/ (unread s' < unread s)%nat)) as (Hb' & Hle & Hlt).
  { destruct Hcase as [Hp|(-> & Hf & _ & Hbuf)].
    - destruct (parsed_unread _ _ _ _ (proj1 Hadv) Hp) as [? ?]. split; [done|]. split; [lia|]. right. lia.
    - split; [unfold bytes_ok; rewrite Hbuf; constructor|]. split; [|by left]. unfold unread in *. rewrite Hbuf, Hf. cbn. lia. }
  destruct type_facts as (_ & H2 & H3 & _).
  destruct (resyncing_ s' && (ty =? kMiddleType)) eqn:Hm.
  { apply andb_true_iff in Hm as [_ Hm%Z.eqb_eq]. eexists. split; [done|]. split; [done|]. destruct Hlt; [congruence|lia]. }
  destruct (resyncing_ s' && (ty =? kLastType)) eqn:Hl.
  { apply andb_true_iff in Hl as [_ Hl%Z.eqb_eq]. eexists. split; [done|]. split; [done|].
    unfold unread in *. cbn. destruct Hlt; [congruence|lia]. }
  eexists. split; [done|]. match goal with |- context [handle_record ?ty ?off ?a ?s] => pose proof (handle_record_kept ty off a s) as Hk end.
  unfold bytes_ok, unread in *. destruct (handle_record _ _ _ _) as [a' s2|rec s2|s2]; [destruct Hk as [Hk Hne]..|];
    destruct Hk as (-> & -> & _); cbn; (split; [done|]); [destruct Hlt; [done|lia]..|lia].
Qed.

Lemma read_loop_ok fuel a s : bytes_ok s -> (unread s < fuel)%nat ->
  exists r s', read_loop fuel a s = Some (r, s') /\ bytes_ok s' /\ (unread s' <= unread s)%nat /\
    (r <> None -> (unread s' < unread s)%nat).
Proof.
  revert a s. induction fuel as [|fuel IH]; intros a s Hb Hf; [lia|]. cbn [read_loop].
  destruct (read_turn_ok a s Hb) as (r & -> & Hr). cbn [mbind option_bind]. destruct r as [a' s'|rec s'|s'], Hr as [Hb' Hu].
  - destruct (IH a' s' Hb') as (r & s2 & E & ? & ? & _); [lia|]. exists r, s2. split; [done|]. split; [done|]. split; lia.
  - exists (Some rec), s'. split; [done|]. split; [done|]. split; lia.
  - by exists None, s'.
Qed.

Lemma SkipToInitialBlock_ok s : bytes_ok s -> let '(_, s') := SkipToInitialBlock s in bytes_ok s' /\ (unread s' <= unread s)%nat.
Proof.
  intros Hb. unfold SkipToInitialBlock.
  set (start := if kBlockSize - 6 <? initial_offset_ s mod kBlockSize then _ else _). cbv zeta.
  destruct (0 <? start); [|done]. change (file_ (with_end start s)) with (file_ s).
  pose proof (Skip_remaining start (file_ s)) as Hsk. destruct (file_Skip start (file_ s)) as [st f]. cbn [snd] in Hsk.
  unfold bytes_ok, unread in *. destruct st as [|code]; [cbn; split; [done|lia]|].
  destruct (ReportDrop_same start (Failed (IOError code)) (with_file f (with_end start s))) as (-> & -> & _). cbn. split; [done|lia].
Qed.

(** A call returns, and a record it returns was not in what is left to read. *)
Lemma ReadRecord_ok s : bytes_ok s -> exists r s', ReadRecord s = Some (r, s') /\ bytes_ok s' /\ (unread s' <= unread s)%nat /\
  (r <> None -> (unread s' < unread s)%nat).
Proof.
  intros Hb. unfold ReadRecord. destruct (last_record_offset_ s <? initial_offset_ s).
  - pose proof (SkipToInitialBlock_ok s Hb) as Hsk. destruct (SkipToInitialBlock s) as [ok s0]. destruct Hsk as [Hb0 Hu0].
    cbn [fst snd]. destruct ok; [|by exists None, s0].
    destruct (read_loop_ok (S (unread s0)) (Assembly [] [] false 0) s0 Hb0) as (r & s1 & ? & ? & ? & Hlt); [lia|].
    exists r, s1. split; [done|]. split; [done|]. split; [lia|]. intros Hr%Hlt. lia.
  - apply read_loop_ok; [done|]. cbn [snd]. lia.
Qed.
End reader.
