(* ===== verification/LogProps.v ===== *)
(** * What the log reader promises ([leveldb-library/db/log_reader.cc])

    Calls return on any file; on a file of bytes, what a reader that checks
    checksums returns is made of checked records of the file; and a log in the
    format is read back, record by record, with nothing reported. *)

From Stdlib Require Import String Strings.Byte.
From stdpp Require Import base list.
From S2P Require Import Prelude.
From S2P Require Import LogReader.

(** ** Files of bytes *)

Definition byte_val (b : byte) : Z := Z.of_N (Byte.to_N b).
Definition content (f : list byte) : list Z := byte_val <$> f.

Lemma content_bytes f : Forall (is_u 8) (content f).
Proof.
  apply List.Forall_forall. intros x Hx. apply list_elem_of_In, list_elem_of_fmap in Hx as (b & -> & _).
  unfold is_u, byte_val. pose proof (Byte.to_N_bounded b). lia.
Qed.

#[export] Instance bytes_file : SequentialFile (list byte) := {
  file_Read n f := (OK, content (take (Z.to_nat n) f), drop (Z.to_nat n) f);
  file_Skip n f := (OK, drop (Z.to_nat n) f);
  remaining := length;
}.

#[export] Instance bytes_file_laws : SequentialFileLaws (list byte).
Proof.
  split; cbn.
  - intros n f. apply content_bytes.
  - intros n f Hn. unfold content. rewrite length_fmap, length_take. lia.
  - intros n f. unfold content. rewrite length_fmap, length_take, length_drop. lia.
  - intros n f. rewrite length_drop. lia.
Qed.

Section props.
Context `{LogFormat} {Hfmt : LogFormatLaws}.

(** A number of calls of [ReadRecord] in turn. *)
Fixpoint read_calls `{SequentialFile F} (n : nat) (s : @reader F) : option (list (option (list Z)) * reader) :=
  match n with
  | O => Some ([], s)
  | S n => '(r, s) ← ReadRecord s; '(rs, s) ← read_calls n s; Some (r :: rs, s)
  end.

(** Whatever the file delivers, corrupt data and errors
    included, a reader answers every call: no access leaves its buffer, and the
    loops end because every turn but the last uses up bytes of the file. *)
Theorem log_reader_returns `{SequentialFileLaws F} (file : F) (reporter checksum : bool) (initial_offset : Z) n :
  exists rs s, read_calls n (Reader_new file reporter checksum initial_offset) = Some (rs, s) /\
    length rs = n /\ (unread s <= remaining file)%nat.
Proof.
  assert (forall s, bytes_ok s -> exists rs s', read_calls n s = Some (rs, s') /\ length rs = n /\ (unread s' <= unread s)%nat) as Hall.
  { induction n as [|n IH]; intros s Hb; [by exists [], s|]. cbn [read_calls].
    destruct (ReadRecord_ok s Hb) as (r & s1 & -> & Hb1 & Hu1 & _).
    cbn [mbind option_bind]. destruct (IH s1 Hb1) as (rs & s2 & -> & Hl & Hu2). cbn [mbind option_bind].
    exists (r :: rs), s2. split; [done|]. cbn. split; [lia|lia]. }
  apply (Hall (Reader_new file reporter checksum initial_offset)). constructor.
Qed.

(** ** Returned records are in the file *)

(** The file has a physical record of type [ty] and payload [p], with a checksum
    that matches when it is [checked]. *)
Definition genuine (data : list Z) (checked : bool) (ty : Z) (p : list Z) : Prop :=
  exists before tag lo hi t after, data = before ++ tag ++ lo :: hi :: t :: p ++ after /\
    well_read checked tag lo hi t ty p.

(** A logical record: a full one, or a first fragment, middle ones and a last one. *)
Definition logical (data : list Z) (checked : bool) (r : list Z) : Prop :=
  genuine data checked kFullType r \/
  exists f ms l, r = f ++ concat ms ++ l /\ genuine data checked kFirstType f /\
    Forall (genuine data checked kMiddleType) ms /\ genuine data checked kLastType l.

(** The reader is somewhere in the file. *)
Definition inside (data : list Z) (checked : bool) (s : @reader (list byte)) : Prop :=
  (exists before after, data = before ++ buffer_ s ++ after) /\ (exists before, data = before ++ content (file_ s)) /\
  checksum_ s = checked /\ bytes_ok s.

Definition assembly_ok (data : list Z) (checked : bool) (a : assembly) : Prop :=
  in_fragmented_record a = true -> exists f ms, scratch a = f ++ concat ms /\ genuine data checked kFirstType f /\
    Forall (genuine data checked kMiddleType) ms.

Lemma inside_kept data checked s s' : inside data checked s -> kept s s' -> inside data checked s'.
Proof. intros (Hd & Hf & Hc & Hb) (E1 & E2 & E3). unfold inside, bytes_ok. by rewrite E1, E2, E3. Qed.

Lemma content_split n f : content f = content (take n f) ++ content (drop n f).
Proof. unfold content. by rewrite <- fmap_app, take_drop. Qed.

Lemma inside_advanced data checked s s1 : inside data checked s -> advanced s s1 -> inside data checked s1.
Proof.
  intros (Hd & (before & E) & Hc & _) (Hb & Hc1 & Hcase). rewrite (content_split (Z.to_nat kBlockSize)) in E.
  assert (exists before, data = before ++ content (drop (Z.to_nat kBlockSize) (file_ s))) as Hd'
    by (eexists; rewrite E, app_assoc; reflexivity).
  destruct Hcase as [[Eb Ef]|[[Eb Ef]|[Eb Ef]]]; unfold inside; rewrite Eb, Ef; cbn [file_Read bytes_file fst snd].
  - split_and!; try done; [|congruence]. rewrite <- content_split in E. by exists before.
  - split_and!; try done; [|congruence]. by exists before, (content (drop (Z.to_nat kBlockSize) (file_ s))).
  - split_and!; try done; [|congruence]. exists data, []. by rewrite app_nil_r.
Qed.

Lemma inside_physical data checked result s ty frag s' : inside data checked s ->
  ReadPhysicalRecord result s = Some (ty, frag, s') -> inside data checked s' /\
  (ty = kBadRecord \/ ty = kEof \/ genuine data checked ty frag).
Proof.
  intros Hin E. destruct (physical_ok result s (proj2 (proj2 (proj2 Hin)))) as (ty' & frag' & s2 & s1 & E' & Hadv & Hcase). simplify_eq.
  pose proof (inside_advanced _ _ _ _ Hin Hadv) as ((before & after & Ed) & Hfile & Hc1 & Hb1).
  destruct Hcase as [Hp|(-> & Hf & Hc & Hbuf)].
  - pose proof (proj1 (parsed_unread _ _ _ _ Hb1 Hp)) as Hb'. destruct Hp as (Hf & Hc & used & Eb & _ & Hty). split.
    + split; [|split; [by rewrite Hf|split; [congruence|done]]]. exists (before ++ used), after. rewrite Ed, Eb. by rewrite <- !app_assoc.
    + destruct Hty as [?|[?|(tag & lo & hi & t & -> & Hw)]]; [by left|by right; left|right; right].
      exists before, tag, lo, hi, t, (buffer_ s' ++ after). rewrite Hc1 in Hw. split; [|done].
      rewrite Ed, Eb. by rewrite <- !app_assoc.
  - split; [|by right; left]. split; [|split; [by rewrite Hf|split; [destruct Hin as (_ & _ & ? & _); congruence|]]].
    + exists data, []. by rewrite Hbuf, app_nil_r.
    + unfold bytes_ok. rewrite Hbuf. constructor.
Qed.

(** The switch keeps the pieces genuine. *)
Lemma handle_record_sound data checked ty off a (s : @reader (list byte)) : assembly_ok data checked a ->
  (ty = kBadRecord \/ ty = kEof \/ genuine data checked ty (fragment a)) ->
  match handle_record ty off a s with
  | Continue a' _ => assembly_ok data checked a'
  | Found r _ => logical data checked r
  | Stop _ => True
  end.
Proof.
  intros Ha Hty. destruct type_facts as (T1 & T2 & T3 & T4 & _ & _ & _ & _ & _ & _ & T5 & T6 & T7 & T8 & T9 & _).
  assert (ty <> kBadRecord -> ty <> kEof -> genuine data checked ty (fragment a)) as Hg by tauto.
  unfold handle_record. destruct (Z.eqb_spec ty kFullType) as [->|_]; [left; by apply Hg|].
  destruct (Z.eqb_spec ty kFirstType) as [->|_].
  { intros _. exists (fragment a), []. cbn. rewrite app_nil_r. split; [done|]. split; [by apply Hg|constructor]. }
  destruct (Z.eqb_spec ty kMiddleType) as [->|_].
  { destruct (in_fragmented_record a) eqn:E; cbn [negb]; [|done]. intros _. destruct (Ha E) as (f & ms & Es & Hf & Hms).
    exists f, (ms ++ [fragment a]). cbn. rewrite Es, concat_app, app_assoc. cbn. rewrite app_nil_r. split; [done|]. split; [done|].
    apply Forall_app. split; [done|]. constructor; [by apply Hg|constructor]. }
  destruct (Z.eqb_spec ty kLastType) as [->|_].
  { destruct (in_fragmented_record a) eqn:E; cbn [negb]; [|done]. destruct (Ha E) as (f & ms & Es & Hf & Hms).
    right. exists f, ms, (fragment a). rewrite Es, <- app_assoc. split; [done|]. split; [done|]. split; [done|by apply Hg]. }
  destruct (Z.eqb_spec ty kEof); [done|].
  destruct (Z.eqb_spec ty kBadRecord); [destruct (in_fragmented_record a) eqn:E; [done|by intros E'; rewrite E in E']|done].
Qed.

Lemma read_turn_sound data checked a s r : inside data checked s -> assembly_ok data checked a -> read_turn a s = Some r ->
  match r with
  | Continue a' s' => inside data checked s' /\ assembly_ok data checked a'
  | Found rec s' => inside data checked s' /\ logical data checked rec
  | Stop s' => inside data checked s'
  end.
Proof.
  intros Hin Ha. unfold read_turn. destruct (ReadPhysicalRecord (fragment a) s) as [[[ty frag] s']|] eqn:E; [|done].
  cbn [mbind option_bind]. destruct (inside_physical _ _ _ _ _ _ _ Hin E) as [Hin' Hty].
  set (a1 := Assembly frag (scratch a) (in_fragmented_record a) (prospective_record_offset a)).
  assert (assembly_ok data checked a1) as Ha1 by done.
  assert (inside data checked (with_resyncing false s')) as Hin2 by done.
  destruct (resyncing_ s' && (ty =? kMiddleType)); [by intros [= <-]|].
  destruct (resyncing_ s' && (ty =? kLastType)); [by intros [= <-]|]. intros [= <-].
  match goal with |- context [handle_record ty ?o a1 ?s2] =>
    pose proof (handle_record_sound data checked ty o a1 s2 Ha1 Hty) as Hs; pose proof (handle_record_kept ty o a1 s2) as Hk;
    destruct (handle_record ty o a1 s2) as [a' s3|rec s3|s3] end.
  - destruct Hk as [Hk _]. split; [by eapply inside_kept|done].
  - destruct Hk as [Hk _]. split; [by eapply inside_kept|done].
  - by eapply inside_kept.
Qed.

Lemma read_loop_sound data checked fuel a s r s' : inside data checked s -> assembly_ok data checked a ->
  read_loop fuel a s = Some (r, s') -> inside data checked s' /\ forall rec, r = Some rec -> logical data checked rec.
Proof.
  revert a s. induction fuel as [|fuel IH]; intros a s Hin Ha; [done|]. cbn [read_loop].
  destruct (read_turn a s) as [t|] eqn:E; [|done]. cbn [mbind option_bind].
  pose proof (read_turn_sound _ _ _ _ _ Hin Ha E) as Ht. destruct t as [a' s1|rec s1|s1].
  - apply IH; apply Ht.
  - intros [= <- <-]. split; [apply Ht|]. intros rec' [= <-]. apply Ht.
  - intros [= <- <-]. by split.
Qed.

Lemma SkipToInitialBlock_inside data checked s : inside data checked s -> inside data checked (SkipToInitialBlock s).2.
Proof.
  intros (Hd & (before & E) & Hc & Hb). unfold SkipToInitialBlock.
  set (start := if kBlockSize - 6 <? initial_offset_ s mod kBlockSize then _ else _). cbv zeta.
  destruct (0 <? start); cbn; (split; [done|]; split; [|done]); cbn; [|by exists before].
  rewrite (content_split (Z.to_nat start)), app_assoc in E. by eexists.
Qed.

Lemma ReadRecord_sound data checked s r s' : inside data checked s -> ReadRecord s = Some (r, s') ->
  inside data checked s' /\ forall rec, r = Some rec -> logical data checked rec.
Proof.
  intros Hin. unfold ReadRecord. assert (assembly_ok data checked (Assembly [] [] false 0)) as Ha by done.
  destruct (last_record_offset_ s <? initial_offset_ s); [|by apply read_loop_sound].
  pose proof (SkipToInitialBlock_inside _ _ _ Hin) as Hin'. destruct (SkipToInitialBlock s) as [[|] s0]; cbn [fst snd] in *.
  - by apply read_loop_sound.
  - intros [= <- <-]. by split.
Qed.

(** C34 (safety): every record a reader returns, from any file and at any
    initial offset, is made of physical records of that file, one full or a first,
    middle ones and a last, whose lengths are right, and whose checksums match
    when the reader checks them: corrupt data is never returned. *)
Theorem log_reader_sound (file : list byte) reporter checksum initial_offset n rs s rec :
  read_calls n (Reader_new file reporter checksum initial_offset) = Some (rs, s) -> Some rec ∈ rs ->
  logical (content file) checksum rec.
Proof.
  assert (forall s0, inside (content file) checksum s0 -> read_calls n s0 = Some (rs, s) -> Some rec ∈ rs ->
    logical (content file) checksum rec) as Hall.
  { revert rs s. induction n as [|n IH]; intros rs s s0 Hin; cbn [read_calls]; [intros [= <- <-] []%elem_of_nil|].
    destruct (ReadRecord s0) as [[r s1]|] eqn:E; [|done]. cbn [mbind option_bind].
    destruct (ReadRecord_sound _ _ _ _ _ Hin E) as [Hin1 Hr].
    destruct (read_calls n s1) as [[rs1 s2]|] eqn:E1; [|done]. cbn [mbind option_bind]. intros [= <- <-] Hel.
    apply elem_of_cons in Hel as [<-|Hel]; [by apply Hr|by eapply IH]. }
  apply Hall. split; [by exists [], (content file)|]. split; [by exists []|]. split; [done|constructor].
Qed.

(** ** Logs in the format *)

Context (tag_of : list Z -> list Z).

(** A physical record: its type and payload. *)
Abbreviation phys := (Z * list Z)%type.

Definition phys_bytes (q : phys) : list Z :=
  tag_of (q.1 :: q.2) ++ size q.2 mod 256 :: size q.2 / 256 :: q.1 :: q.2.

(** A block is physical records and a trailer too short for a header. *)
Definition block_bytes (b : list phys * list Z) : list Z := concat (phys_bytes <$> b.1) ++ b.2.

Definition phys_ok (q : phys) : Prop := q.1 ∈ [kFullType; kFirstType; kMiddleType; kLastType] /\ size q.2 < 2 ^ 16.
Definition block_ok (b : list phys * list Z) : Prop := Forall phys_ok b.1 /\ size b.2 < kHeaderSize.

(** Full blocks, and a last one that is shorter. *)
Definition log_bytes (blocks : list (list phys * list Z)) (last : list phys * list Z) : list Z :=
  concat (block_bytes <$> blocks) ++ block_bytes last.
Definition log_ok (blocks : list (list phys * list Z)) (last : list phys * list Z) : Prop :=
  Forall (fun b => block_ok b /\ size (block_bytes b) = kBlockSize) blocks /\ block_ok last /\ size (block_bytes last) < kBlockSize.
Definition physicals (blocks : list (list phys * list Z)) (last : list phys * list Z) : list phys :=
  concat (fst <$> blocks) ++ last.1.

(** The physical records of a logical one, and of a sequence of them. *)
Inductive fragments : list Z -> list phys -> Prop :=
  | frag_full p : fragments p [(kFullType, p)]
  | frag_many f ms l : fragments (f ++ concat ms ++ l) ((kFirstType, f) :: ((fun m => (kMiddleType, m)) <$> ms) ++ [(kLastType, l)]).

Inductive log_records : list (list Z) -> list phys -> Prop :=
  | log_nil : log_records [] []
  | log_cons r rs qs ps : fragments r qs -> log_records rs ps -> log_records (r :: rs) (qs ++ ps).

(** The checksums a log is written with are those the reader expects. *)
Definition tag_ok : Prop := forall b, length (tag_of b) = 4%nat /\ Unmask (DecodeFixed32 (tag_of b)) = crc_Value b.

(** What the turns of a faultless run leave alone. *)
Definition quiet (s s' : @reader (list byte)) : Prop :=
  resyncing_ s' = resyncing_ s /\ initial_offset_ s' = initial_offset_ s /\ last_record_offset_ s' = last_record_offset_ s /\
  drops s' = drops s.

Lemma content_take n f : content (take n f) = take n (content f).
Proof. apply fmap_take. Qed.
Lemma content_drop n f : content (drop n f) = drop n (content f).
Proof. apply fmap_drop. Qed.

Lemma refill_bytes (s : @reader (list byte)) : exists s', refill s = (s', false) /\ quiet s s' /\
  buffer_ s' = take (Z.to_nat kBlockSize) (content (file_ s)) /\ content (file_ s') = drop (Z.to_nat kBlockSize) (content (file_ s)) /\
  eof_ s' = (size (take (Z.to_nat kBlockSize) (content (file_ s))) <? kBlockSize) || eof_ s.
Proof.
  unfold refill. cbn [file_Read bytes_file file_ with_buffer]. cbn [buffer_ with_buffer with_end with_file].
  eexists. split; [reflexivity|]. rewrite content_take. destruct (size (take _ (content (file_ s))) <? kBlockSize);
    cbn; rewrite ?content_take, ?content_drop; done.
Qed.

Section roundtrip.
Hypothesis Htag : tag_ok.

Lemma phys_bytes_size q : size (phys_bytes q) = 7 + size q.2.
Proof using Htag. unfold phys_bytes, size. rewrite length_app, (proj1 (Htag _)). cbn. lia. Qed.

(** A record at the front of the buffer is returned as it is. *)
Lemma parse_front result (s : @reader (list byte)) q b : bytes_ok s -> buffer_ s = phys_bytes q ++ b -> phys_ok q -> initial_offset_ s = 0 ->
  parse_record result s = Some (q.1, q.2, with_buffer b s).
Proof using Hfmt Htag.
  intros Hb E [Hty Hlen] Hoff. set (L := size q.2) in *. assert (0 <= L) by (unfold L, size; lia).
  destruct (Htag (q.1 :: q.2)) as [Htl Hcrc]. set (tag := tag_of (q.1 :: q.2)) in *.
  assert (buffer_ s = tag ++ L mod 256 :: L / 256 :: q.1 :: q.2 ++ b) as Eb by (rewrite E; unfold phys_bytes; by rewrite <- app_assoc).
  assert (forall k, buffer_ s !! (4 + k)%nat = (L mod 256 :: L / 256 :: q.1 :: q.2 ++ b) !! k) as Hlk.
  { intros k. rewrite Eb, lookup_app_r by lia. f_equal. lia. }
  assert (size (buffer_ s) = 7 + L + size b) as Hsz by (rewrite E; unfold size in *; rewrite length_app; pose proof (phys_bytes_size q) as Hp; unfold size in Hp; lia).
  pose proof (types_small q.1 ltac:(by right)) as Hsmall.
  unfold parse_record. rewrite (Hlk 0%nat : buffer_ s !! 4%nat = _), (Hlk 1%nat : buffer_ s !! 5%nat = _), (Hlk 2%nat : buffer_ s !! 6%nat = _).
  cbn [lookup list_lookup mbind option_bind].
  pose proof (Z.mod_pos_bound L 256 ltac:(lia)). pose proof (Z.div_lt_upper_bound L 256 256 ltac:(lia) ltac:(lia)).
  pose proof (Z.div_pos L 256 ltac:(lia) ltac:(lia)). rewrite byte_length by (unfold is_u; lia).
  replace (L mod 256 + 256 * (L / 256)) with L by (pose proof (Z.div_mod L 256); lia).
  rewrite header_size. rewrite (proj2 (Z.ltb_ge (size (buffer_ s)) (7 + L))) by (unfold size in *; lia).
  assert (char_unsigned q.1 = q.1) as -> by (unfold char_unsigned; by rewrite (proj2 (Z.ltb_lt q.1 128)) by lia).
  assert ((q.1 =? kZeroType) = false) as ->.
  { apply Z.eqb_neq. destruct type_facts as (_ & _ & _ & _ & _ & _ & _ & _ & _ & _ & _ & _ & _ & _ & _ & Z1 & Z2 & Z3 & Z4).
    intros Ez. rewrite Ez in Hty. repeat (apply elem_of_cons in Hty as [Hty|Hty]; [congruence|]). by apply elem_of_nil in Hty. }
  cbn [andb]. rewrite !slice_in by (unfold size in *; lia). cbn [mbind option_bind].
  assert (take (Z.to_nat 4) (drop (Z.to_nat 0) (buffer_ s)) = tag) as -> by (rewrite Eb; by apply take_app_length').
  assert (take (Z.to_nat (1 + L)) (drop (Z.to_nat 6) (buffer_ s)) = q.1 :: q.2) as ->.
  { rewrite Eb. change (tag ++ L mod 256 :: L / 256 :: q.1 :: q.2 ++ b) with (tag ++ [L mod 256; L / 256] ++ (q.1 :: q.2) ++ b).
    rewrite app_assoc, drop_app_length' by (rewrite length_app, Htl; done). apply take_app_length'. unfold L, size. cbn. lia. }
  rewrite Hcrc, Z.eqb_refl, andb_false_r.
  assert (drop (Z.to_nat 7) (buffer_ s) = q.2 ++ b) as Hd.
  { rewrite Eb. change (tag ++ L mod 256 :: L / 256 :: q.1 :: q.2 ++ b) with (tag ++ [L mod 256; L / 256; q.1] ++ q.2 ++ b).
    by rewrite app_assoc, drop_app_length' by (rewrite length_app, Htl; done). }
  assert (drop (Z.to_nat (7 + L)) (buffer_ s) = b) as ->.
  { rewrite Z2Nat.inj_add, <- drop_drop, Hd by lia. apply drop_app_length'. unfold L, size. lia. }
  rewrite Hd, take_app_length' by (unfold L, size; lia). cbn [initial_offset_ with_buffer]. rewrite Hoff.
  rewrite (proj2 (Z.ltb_ge _ 0)); [done|]. apply wrap_range. lia.
Qed.

(** The reader is about to deliver [ps]: [cur] is in its buffer, and the others in
    the blocks to come, unless the file is at its end. *)
Definition more (s : @reader (list byte)) (cur ps : list phys) : Prop :=
  if eof_ s then ps = cur
  else exists blocks last, log_ok blocks last /\ content (file_ s) = log_bytes blocks last /\ ps = cur ++ physicals blocks last.
Definition buffered (s : @reader (list byte)) (cur : list phys) : Prop :=
  bytes_ok s /\ Forall phys_ok cur /\ exists tr, buffer_ s = concat (phys_bytes <$> cur) ++ tr /\ size tr < kHeaderSize.
Definition delivers (s : @reader (list byte)) (ps : list phys) : Prop := exists cur, buffered s cur /\ more s cur ps.

Lemma delivers_kept s s' ps : delivers s ps -> kept s s' -> eof_ s' = eof_ s -> delivers s' ps.
Proof. intros Hd (E1 & E2 & _) E3. unfold delivers, buffered, more, bytes_ok. by rewrite E1, E2, E3. Qed.

(** Taking the record at the front of the buffer. *)
Lemma take_front result s q cur : buffered s (q :: cur) -> initial_offset_ s = 0 ->
  kHeaderSize <= size (buffer_ s) /\ exists s', parse_record result s = Some (q.1, q.2, s') /\ quiet s s' /\
    buffered s' cur /\ file_ s' = file_ s /\ eof_ s' = eof_ s.
Proof using Hfmt Htag.
  intros (Hb & Hok & tr & E & Htr) Hoff. apply List.Forall_cons_iff in Hok as [Hq Hok].
  cbn in E. rewrite <- app_assoc in E. split.
  - rewrite E. pose proof (phys_bytes_size q). unfold size in *. rewrite length_app, header_size. lia.
  - eexists. split; [by apply parse_front|]. split; [done|]. split; [|done]. unfold buffered, bytes_ok in *.
    rewrite E in Hb. cbn. apply Forall_app in Hb as [_ Hb]. split; [done|]. split; [done|]. by exists tr.
Qed.

(** The next block, once the buffer is used up. *)
Lemma next_block s ps : buffered s [] -> more s [] ps -> eof_ s = false ->
  exists s' cur, refill s = (s', false) /\ quiet s s' /\ buffered s' cur /\ more s' cur ps /\ (cur = [] -> eof_ s' = true).
Proof using Hfmt Htag.
  intros _ Hmore Heof. unfold more in Hmore. rewrite Heof in Hmore.
  destruct Hmore as (blocks & last & (Hbl & [Hl1 Hl2] & Hls) & Ec & ->).
  destruct (refill_bytes s) as (s' & Er & Hq & Eb' & Ef' & Ee'). rewrite Heof, orb_false_r in Ee'.
  pose proof (refill_ok s) as Hr. rewrite Er in Hr. destruct Hr as (Hb' & _).
  pose proof block_size as Hbs. pose proof header_size as Hhs. rewrite Ec in *.
  destruct blocks as [|[qs tr'] blocks].
  - unfold log_bytes in *. cbn [fmap list_fmap concat app] in *.
    assert (take (Z.to_nat kBlockSize) (block_bytes last) = block_bytes last) as Et by (apply take_ge; unfold size in Hls; lia).
    rewrite Et in *. exists s', last.1. rewrite (proj2 (Z.ltb_lt _ _) Hls) in Ee'.
    split; [done|]. split; [done|]. split; [split; [done|]; split; [done|]; by exists last.2|].
    split; [|done]. unfold more. by rewrite Ee'.
  - apply List.Forall_cons_iff in Hbl as [[[Hq1 Hq2] Hqs] Hbl]. cbn [fst snd] in Hq1, Hq2.
    assert (take (Z.to_nat kBlockSize) (log_bytes ((qs, tr') :: blocks) last) = block_bytes (qs, tr')) as Et.
    { unfold log_bytes. cbn [fmap list_fmap concat]. rewrite <- app_assoc. apply take_app_length'. unfold size in Hqs. lia. }
    assert (drop (Z.to_nat kBlockSize) (log_bytes ((qs, tr') :: blocks) last) = log_bytes blocks last) as Ed.
    { unfold log_bytes. cbn [fmap list_fmap concat]. rewrite <- app_assoc. apply drop_app_length'. unfold size in Hqs. lia. }
    rewrite Et, Ed in *. rewrite Hqs, Z.ltb_irrefl in Ee'. exists s', qs.
    split; [done|]. split; [done|]. split; [split; [done|]; split; [done|]; by exists tr'|]. split.
    + unfold more. rewrite Ee'. exists blocks, last. split; [done|]. split; [done|]. unfold physicals. cbn. by rewrite <- app_assoc.
    + intros ->. exfalso. unfold block_bytes in Hqs. cbn in Hqs. lia.
Qed.

Lemma buffered_nil s : buffered s [] -> size (buffer_ s) < kHeaderSize.
Proof using. by intros (_ & _ & tr & -> & Htr). Qed.

Lemma more_front s q cur ps : more s (q :: cur) ps -> exists ps', ps = q :: ps' /\
  forall s', file_ s' = file_ s -> eof_ s' = eof_ s -> more s' cur ps'.
Proof using.
  unfold more. destruct (eof_ s) eqn:E.
  - intros ->. exists cur. split; [done|]. intros s' _ ->. done.
  - intros (blocks & last & H1 & H2 & ->). exists (cur ++ physicals blocks last). split; [done|].
    intros s' -> ->. by exists blocks, last.
Qed.

Lemma physical_front result s q ps : delivers s (q :: ps) -> initial_offset_ s = 0 ->
  exists s', ReadPhysicalRecord result s = Some (q.1, q.2, s') /\ quiet s s' /\ delivers s' ps.
Proof using Hfmt Htag.
  assert (forall s1 cur, buffered s1 cur -> more s1 cur (q :: ps) -> initial_offset_ s1 = 0 -> cur <> [] ->
    kHeaderSize <= size (buffer_ s1) /\ exists s', parse_record result s1 = Some (q.1, q.2, s') /\ quiet s1 s' /\ delivers s' ps) as Hparse.
  { intros s1 [|q' cur] Hbuf Hmore Hoff Hne; [done|]. apply more_front in Hmore as (ps' & [= <- <-] & Hmore).
    destruct (take_front result s1 q cur Hbuf Hoff) as (Hlen & s' & E & Hq & Hbuf' & Ef & Ee).
    split; [done|]. exists s'. split; [done|]. split; [done|]. exists cur. split; [done|by apply Hmore]. }
  intros (cur & Hbuf & Hmore) Hoff. unfold ReadPhysicalRecord. cbn [physical_loop]. destruct cur as [|q' cur].
  - rewrite (proj2 (Z.ltb_lt _ _) (buffered_nil _ Hbuf)). destruct (eof_ s) eqn:Heof; [unfold more in Hmore; by rewrite Heof in Hmore|].
    destruct (next_block s (q :: ps) Hbuf Hmore Heof) as (s1 & cur & -> & Hq & Hbuf1 & Hmore1 & Hne). cbn [negb].
    assert (cur <> []) as Hne1 by (intros ->; unfold more in Hmore1; rewrite (Hne eq_refl) in Hmore1; done).
    destruct (Hparse s1 cur Hbuf1 Hmore1) as (Hlen & s' & E & Hq' & Hd); [by destruct Hq as (_ & -> & _)|done|].
    rewrite (proj2 (Z.ltb_ge _ _)) by lia. exists s'. split; [done|]. split; [unfold quiet in *; intuition congruence|done].
  - destruct (Hparse s (q' :: cur) Hbuf Hmore Hoff) as (Hlen & s' & E & Hq' & Hd); [done|].
    rewrite (proj2 (Z.ltb_ge _ _)) by lia. by exists s'.
Qed.

Lemma physical_end result s : delivers s [] -> exists s', ReadPhysicalRecord result s = Some (kEof, result, s') /\ quiet s s' /\ delivers s' [].
Proof using Hfmt Htag.
  assert (forall s1, eof_ s1 = true -> delivers (with_buffer [] s1) []) as Hend.
  { intros s1 He. exists []. split; [|unfold more; cbn; by rewrite He]. split; [constructor|]. split; [constructor|].
    exists []. split; [done|]. rewrite header_size. done. }
  intros (cur & Hbuf & Hmore). assert (cur = []) as ->.
  { unfold more in Hmore. destruct (eof_ s); [done|]. destruct Hmore as (? & ? & _ & _ & E). symmetry in E. by apply app_eq_nil in E as [? _]. }
  unfold ReadPhysicalRecord. cbn [physical_loop]. rewrite (proj2 (Z.ltb_lt _ _) (buffered_nil _ Hbuf)).
  destruct (eof_ s) eqn:Heof; cbn [negb]; [exists (with_buffer [] s); split; [done|]; split; [done|by apply Hend]|].
  destruct (next_block s [] Hbuf Hmore Heof) as (s1 & cur & -> & Hq & Hbuf1 & Hmore1 & Hne). assert (cur = []) as ->.
  { unfold more in Hmore1. destruct (eof_ s1); [done|]. destruct Hmore1 as (? & ? & _ & _ & E). symmetry in E. by apply app_eq_nil in E as [? _]. }
  rewrite (proj2 (Z.ltb_lt _ _) (buffered_nil _ Hbuf1)), (Hne eq_refl). cbn [negb].
  exists (with_buffer [] s1). split; [done|]. split; [done|]. by apply Hend, Hne.
Qed.

(** A run in which nothing was reported. *)
Definition clean (s : @reader (list byte)) : Prop :=
  initial_offset_ s = 0 /\ resyncing_ s = false /\ 0 <= last_record_offset_ s /\ drops s = [].

Lemma clean_quiet s s' : clean s -> quiet s s' -> clean s'.
Proof using. intros (H1 & H2 & H3 & H4) (E1 & E2 & E3 & E4). unfold clean. by rewrite E1, E2, E3, E4. Qed.

Lemma clean_noop s : clean s -> with_resyncing false s = s.
Proof using. intros (_ & E & _). destruct s. cbn in *. by subst. Qed.

Lemma turn_front a s q ps : delivers s (q :: ps) -> clean s -> exists s' off, 0 <= off /\
  read_turn a s = Some (handle_record q.1 off (Assembly q.2 (scratch a) (in_fragmented_record a) (prospective_record_offset a)) s') /\
  delivers s' ps /\ clean s'.
Proof using Hfmt Htag.
  intros Hd Hc. destruct (physical_front (fragment a) s q ps Hd (proj1 Hc)) as (s' & E & Hq & Hd').
  pose proof (clean_quiet _ _ Hc Hq) as Hc'. unfold read_turn. rewrite E. cbn [mbind option_bind].
  pose proof (proj1 (proj2 Hc')) as Hrs. rewrite Hrs. cbn [andb]. rewrite (clean_noop s' Hc').
  eexists s', _. split; [|split; [reflexivity|done]]. apply wrap_range. lia.
Qed.

Lemma handle_types a (s : @reader (list byte)) off : in_fragmented_record a = true ->
  handle_record kMiddleType off a s = Continue (Assembly (fragment a) (scratch a ++ fragment a) true (prospective_record_offset a)) s /\
  handle_record kLastType off a s = Found (scratch a ++ fragment a) (with_last (prospective_record_offset a) s).
Proof using Hfmt.
  intros E. destruct type_facts as (_ & _ & _ & _ & T1 & T2 & T3 & T4 & T5 & T6 & _). unfold handle_record. rewrite E. cbn [negb].
  rewrite (proj2 (Z.eqb_neq kMiddleType kFullType)), (proj2 (Z.eqb_neq kMiddleType kFirstType)), Z.eqb_refl by congruence.
  rewrite (proj2 (Z.eqb_neq kLastType kFullType)), (proj2 (Z.eqb_neq kLastType kFirstType)),
    (proj2 (Z.eqb_neq kLastType kMiddleType)), Z.eqb_refl by congruence. done.
Qed.

Lemma delivers_bytes s ps : delivers s ps -> bytes_ok s.
Proof using. by intros (cur & (Hb & _) & _). Qed.

Lemma delivers_last s ps off : delivers s ps -> clean s -> 0 <= off -> delivers (with_last off s) ps /\ clean (with_last off s).
Proof using. intros Hd (H1 & H2 & H3 & H4) Ho. split; [exact Hd|by split_and!]. Qed.

Lemma read_rest ms l ps fuel fr scr off s :
  delivers s (((fun m => (kMiddleType, m)) <$> ms) ++ (kLastType, l) :: ps) -> clean s -> (unread s < fuel)%nat -> 0 <= off ->
  exists s', read_loop fuel (Assembly fr scr true off) s = Some (Some (scr ++ concat ms ++ l), s') /\ delivers s' ps /\ clean s'.
Proof using Hfmt Htag.
  revert fuel fr scr s. induction ms as [|m ms IH]; intros fuel fr scr s Hd Hc Hf Ho; (destruct fuel as [|fuel]; [lia|]); cbn [read_loop].
  - cbn in Hd. destruct (turn_front (Assembly fr scr true off) s _ _ Hd Hc) as (s' & o & _ & -> & Hd' & Hc').
    cbn [mbind option_bind fst snd scratch in_fragmented_record prospective_record_offset].
    rewrite (proj2 (handle_types (Assembly l scr true off) s' o eq_refl)). cbn. exists (with_last off s'). split; [done|].
    by apply delivers_last.
  - cbn in Hd. destruct (turn_front (Assembly fr scr true off) s _ _ Hd Hc) as (s' & o & _ & E & Hd' & Hc').
    cbn [fst snd scratch in_fragmented_record prospective_record_offset] in E.
    rewrite (proj1 (handle_types (Assembly m scr true off) s' o eq_refl)) in E. cbn [fragment scratch prospective_record_offset] in E.
    destruct (read_turn_ok (Assembly fr scr true off) s (delivers_bytes _ _ Hd)) as (r & E2 & Hr). rewrite E in E2. injection E2 as <-.
    rewrite E. cbn [mbind option_bind]. destruct (IH fuel m (scr ++ m) s' Hd' Hc') as (s2 & -> & ? & ?); [lia|done|].
    exists s2. split; [|done]. cbn. by rewrite <- !app_assoc.
Qed.

(** A call reads the next logical record. *)
Lemma ReadRecord_next s r qs ps : delivers s (qs ++ ps) -> clean s -> fragments r qs ->
  exists s', ReadRecord s = Some (Some r, s') /\ delivers s' ps /\ clean s'.
Proof using Hfmt Htag.
  intros Hd Hc Hfr. unfold ReadRecord. destruct Hc as (H1 & H2 & H3 & H4). rewrite H1, (proj2 (Z.ltb_ge _ 0)) by done.
  assert (clean s) as Hc by done. cbn [fst snd]. destruct type_facts as (_ & _ & _ & _ & T1 & _). destruct Hfr as [p|f ms l].
  - cbn [read_loop]. cbn in Hd. destruct (turn_front (Assembly [] [] false 0) s _ _ Hd Hc) as (s' & o & Ho & -> & Hd' & Hc').
    cbn [mbind option_bind fst snd]. unfold handle_record. rewrite Z.eqb_refl. cbn [in_fragmented_record andb fragment].
    exists (with_last o s'). split; [done|]. by apply delivers_last.
  - cbn [app] in Hd. rewrite <- app_assoc in Hd. cbn [app] in Hd. cbn [read_loop].
    destruct (turn_front (Assembly [] [] false 0) s _ _ Hd Hc) as (s' & o & Ho & E & Hd' & Hc').
    cbn [fst snd] in E. unfold handle_record in E. rewrite (proj2 (Z.eqb_neq kFirstType kFullType)), Z.eqb_refl in E by congruence.
    cbn [in_fragmented_record andb fragment scratch] in E.
    destruct (read_turn_ok (Assembly [] [] false 0) s (delivers_bytes _ _ Hd)) as (r & E2 & Hr). rewrite E in E2. injection E2 as <-.
    rewrite E. cbn [mbind option_bind]. apply (read_rest ms l ps); [done|done|lia|done].
Qed.

Lemma ReadRecord_end s : delivers s [] -> clean s -> exists s', ReadRecord s = Some (None, s') /\ delivers s' [] /\ clean s'.
Proof using Hfmt Htag.
  intros Hd Hc. unfold ReadRecord. pose proof Hc as (H1 & H2 & H3 & H4). rewrite H1, (proj2 (Z.ltb_ge _ 0)) by done.
  cbn [fst snd read_loop]. destruct (physical_end [] s Hd) as (s' & E & Hq & Hd'). pose proof (clean_quiet _ _ Hc Hq) as Hc'.
  unfold read_turn. cbn [fragment]. rewrite E. cbn [mbind option_bind]. pose proof (proj1 (proj2 Hc')) as Hrs. rewrite Hrs. cbn [andb].
  rewrite (clean_noop s' Hc'). unfold handle_record.
  destruct type_facts as (T1 & T2 & T3 & T4 & _ & _ & _ & _ & _ & _ & _ & T5 & _).
  rewrite (proj2 (Z.eqb_neq kEof kFullType)), (proj2 (Z.eqb_neq kEof kFirstType)), (proj2 (Z.eqb_neq kEof kMiddleType)),
    (proj2 (Z.eqb_neq kEof kLastType)), Z.eqb_refl by congruence. cbn. by exists s'.
Qed.

(** A reader at the start of a log. *)
Lemma new_delivers file blocks last reporter checksum : content file = log_bytes blocks last -> log_ok blocks last ->
  delivers (Reader_new file reporter checksum 0) (physicals blocks last) /\ clean (Reader_new file reporter checksum 0).
Proof using Hfmt.
  intros Hc Hok. split; [|by split_and!]. exists []. split; [|by exists blocks, last].
  split; [constructor|]. split; [constructor|]. exists []. split; [done|]. by rewrite header_size.
Qed.
End roundtrip.

(** C33 (roundtrip): a log in the format, full blocks and a shorter last one, in
    which each logical record is one full physical record or a first, middle ones
    and a last, is read back: the calls return the logical records in order and
    then none, with the checksums checked or not, and nothing is reported. *)
Theorem log_reader_roundtrip (file : list byte) blocks last rs reporter checksum : tag_ok ->
  content file = log_bytes blocks last -> log_ok blocks last -> log_records rs (physicals blocks last) ->
  exists s, read_calls (S (length rs)) (Reader_new file reporter checksum 0) = Some ((Some <$> rs) ++ [None], s) /\ drops s = [].
Proof using Hfmt.
  intros Htag Hc Hok Hrs.
  assert (forall s ps, delivers s ps -> clean s -> log_records rs ps ->
    exists s', read_calls (S (length rs)) s = Some ((Some <$> rs) ++ [None], s') /\ drops s' = []) as Hall.
  { clear - Hfmt Htag. intros s ps Hd Hcl Hl. revert s Hd Hcl. induction Hl as [|r rs qs ps Hfr _ IH]; intros s Hd Hcl.
    - cbn [read_calls length]. destruct (ReadRecord_end Htag s Hd Hcl) as (s' & -> & _ & Hc'). cbn. exists s'. split; [done|]. apply Hc'.
    - cbn [length]. destruct (ReadRecord_next Htag s r qs ps Hd Hcl Hfr) as (s1 & E & Hd1 & Hc1).
      destruct (IH s1 Hd1 Hc1) as (s' & E' & Hdr). exists s'. split; [|done].
      change (read_calls (S (S (length rs))) s) with ('(r, s) ← ReadRecord s; '(rs0, s) ← read_calls (S (length rs)) s; Some (r :: rs0, s)).
      rewrite E. cbn [mbind option_bind]. by rewrite E'. }
  destruct (new_delivers file blocks last reporter checksum Hc Hok). by apply (Hall _ (physicals blocks last)).
Qed.
End props.

(** ** A format with small blocks *)

Definition demo_crc (b : list Z) : Z := foldr (fun x c => wrap 32 (c * 31 + x + 1)) 7 b.

#[local] Instance demo_format : LogFormat := {
  kBlockSize := 32; kHeaderSize := 7;
  kZeroType := 0; kFullType := 1; kFirstType := 2; kMiddleType := 3; kLastType := 4; kEof := 5; kBadRecord := 6;
  crc_Value := demo_crc; Unmask x := wrap 32 (x - 0xa282ead8); DecodeFixed32 := le_val;
}.

#[local] Instance demo_laws : LogFormatLaws.
Proof.
  split.
  - reflexivity.
  - cbn. lia.
  - apply (bool_decide_unpack _). vm_compute. exact I.
  - intros t Ht. cbn in Ht. repeat (apply elem_of_cons in Ht as [->|Ht]; [lia|]). by apply elem_of_nil in Ht.
Defined.

Definition demo_tag (b : list Z) : list Z := le_bytes 4 (wrap 32 (demo_crc b + 0xa282ead8)).

Lemma demo_crc_range b : is_u 32 (demo_crc b).
Proof. destruct b; [unfold is_u; cbn; lia|apply wrap_range; lia]. Qed.

Lemma demo_tag_ok : tag_ok demo_tag.
Proof.
  intros b. unfold demo_tag. rewrite length_le_bytes. split; [done|]. cbn [Unmask DecodeFixed32 crc_Value demo_format].
  rewrite le_val_bytes, (Z.mod_small (wrap 32 _)), wrap_sub_l by (apply wrap_range; lia).
  replace (demo_crc b + 0xa282ead8 - 0xa282ead8) with (demo_crc b) by lia.
  apply wrap_small, demo_crc_range.
Qed.

(** Two records, the second of which fills the first block and goes on in the last. *)
Definition demo_blocks : list (list (Z * list Z) * list Z) := [([(1, [10; 20]); (2, replicate 16 5)], [])].
Definition demo_last : list (Z * list Z) * list Z := ([(4, [6; 6; 6; 6])], [0; 0]).
Definition demo_records : list (list Z) := [[10; 20]; replicate 16 5 ++ [6; 6; 6; 6]].
Definition demo_file : list byte :=
  (fun z => default x00 (Byte.of_N (Z.to_N z))) <$> log_bytes demo_tag demo_blocks demo_last.

Lemma demo_log_ok : log_ok demo_tag demo_blocks demo_last.
Proof.
  split; [|split].
  - constructor; [|constructor]. split; [|vm_compute; reflexivity]. split; [|vm_compute; reflexivity].
    repeat constructor; vm_compute; try reflexivity; apply (bool_decide_unpack _); vm_compute; exact I.
  - split; [|vm_compute; reflexivity].
    repeat constructor; vm_compute; try reflexivity; apply (bool_decide_unpack _); vm_compute; exact I.
  - vm_compute. reflexivity.
Qed.

Lemma log_reader_returns_witness : exists rs s, read_calls 5 (Reader_new demo_file true true 3) = Some (rs, s) /\
  length rs = 5%nat /\ (unread s <= remaining demo_file)%nat.
Proof. exact (log_reader_returns demo_file true true 3 5). Defined.

Lemma demo_fragments : log_records demo_records (physicals demo_blocks demo_last).
Proof.
  apply (log_cons [10; 20] _ [(1, [10; 20])] [(2, replicate 16 5); (4, [6; 6; 6; 6])]); [exact (frag_full [10; 20])|].
  apply (log_cons _ [] [(2, replicate 16 5); (4, [6; 6; 6; 6])] []); [|apply log_nil].
  exact (frag_many (replicate 16 5) [] [6; 6; 6; 6]).
Qed.

Lemma log_reader_roundtrip_witness : exists s,
  read_calls 3 (Reader_new demo_file true true 0) = Some ([Some [10; 20]; Some (replicate 16 5 ++ [6; 6; 6; 6]); None], s) /\
  drops s = [].
Proof.
  apply (log_reader_roundtrip demo_tag demo_file demo_blocks demo_last demo_records true true demo_tag_ok).
  - vm_compute. reflexivity.
  - exact demo_log_ok.
  - exact demo_fragments.
Defined.

Lemma log_reader_sound_witness : logical (content demo_file) true [10; 20].
Proof.
  assert (exists s, read_calls 1 (Reader_new demo_file true true 0) = Some ([Some [10; 20]], s)) as [s E]
    by (eexists; vm_compute; reflexivity).
  apply (log_reader_sound demo_file true true 0 1 _ s [10; 20] E). left.
Defined.

(** A corrupted byte drops the rest of its block, with a report. *)
Example corrupted_block_dropped :
  (fun r => (r.1, drops r.2)) <$> read_calls 2 (Reader_new (<[8%nat := x00]> demo_file) true true 0) =
  Some ([None; None], [(32, Corruption "checksum mismatch"); (4, Corruption "missing start of fragmented record(2)")]).
Proof. vm_compute. reflexivity. Qed.
