(* ===== verification/Cursor.v ===== *)
(** * The iterator interface of leveldb ([leveldb/iterator.h], [leveldb/comparator.h])

    Blocks, tables and databases are read through one interface: an [Iterator]
    is positioned at an entry or is not valid.  The two headers are not part of
    the repository, so their documented contract is a class and a record of
    laws: an iterator implements a list of entries when every operation moves a
    position in that list.  [BlockIter.v] and [DbIter.v] define two iterators;
    the second is a client of the interface and implements it again.

    An operation is [None] where a caller breaks its contract (an assertion)
    or where the iterator itself goes wrong. *)

From Stdlib Require Import String Sorting.Sorted.
From stdpp Require Import base list sorting strings.
From S2P Require Import Prelude.

(** [leveldb::Status], as far as the modelled code builds one; of a message made of
    two parts, the first. *)
Inductive Status := Ok | NotFound | Corruption (msg : string) | InvalidArgument (msg : string) | IOError (code : Z).

#[export] Instance Status_eq_dec : EqDecision Status.
Proof. solve_decision. Defined.

(** A failed assertion. *)
Definition assert_ (b : bool) : option unit := if b then Some () else None.

(** ** Comparators *)

Class Comparator := Compare : list Z -> list Z -> Z.

Definition lt_key `{Comparator} (a b : list Z) : Prop := Compare a b < 0.

#[export] Instance lt_key_dec `{Comparator} a b : Decision (lt_key a b).
Proof. unfold lt_key. apply _. Defined.

(** What sorting needs of a comparator. *)
Class KeyOrder `{Comparator} := {
  lt_key_irrefl a : ~ lt_key a a;
  lt_key_trans a b c : lt_key a b -> lt_key b c -> lt_key a c }.

(** "A Comparator object provides a total order across slices." *)
Class ComparatorLaws `{Comparator} := {
  Compare_eq a b : Compare a b = 0 <-> a = b;
  Compare_anti a b : Compare a b < 0 <-> 0 < Compare b a;
  Compare_trans a b c : lt_key a b -> lt_key b c -> lt_key a c }.

#[export] Instance ComparatorLaws_order `{ComparatorLaws} : KeyOrder.
Proof.
  split; [|apply Compare_trans]. intros a. unfold lt_key. rewrite (proj2 (Compare_eq a a)) by done. lia.
Qed.

Lemma lt_key_asym `{KeyOrder} a b : lt_key a b -> ~ lt_key b a.
Proof. intros Hab Hba. exact (lt_key_irrefl a (lt_key_trans _ _ _ Hab Hba)). Qed.

Lemma Compare_ge `{Comparator} a b : 0 <= Compare a b <-> ~ lt_key a b.
Proof. unfold lt_key. lia. Qed.

Section order.
Context `{ComparatorLaws}.

Lemma lt_key_total a b : lt_key a b \/ a = b \/ lt_key b a.
Proof.
  unfold lt_key. pose proof (Compare_eq a b). pose proof (Compare_anti b a).
  destruct (Z.lt_trichotomy (Compare a b) 0) as [?|[?|?]]; intuition.
Qed.

Lemma Compare_gt a b : 0 < Compare a b <-> lt_key b a.
Proof. unfold lt_key. symmetry. apply Compare_anti. Qed.

Lemma Compare_le a b : Compare a b <= 0 <-> ~ lt_key b a.
Proof. rewrite <- Compare_gt. lia. Qed.

Lemma lt_le_key_trans a b c : lt_key a b -> ~ lt_key c b -> lt_key a c.
Proof. intros Hab Hcb. destruct (lt_key_total b c) as [|[->|]]; [by eapply lt_key_trans|done|done]. Qed.

Lemma le_key_trans a b c : ~ lt_key b a -> ~ lt_key c b -> ~ lt_key c a.
Proof. intros Hab Hbc Hca. destruct (lt_key_total b c) as [Hl|[->|Hl]]; [|done|done]. apply Hab. by eapply lt_key_trans. Qed.

Lemma le_lt_key_trans a b c : ~ lt_key b a -> lt_key b c -> lt_key a c.
Proof. intros Hba Hbc. destruct (lt_key_total a b) as [|[->|]]; [by eapply lt_key_trans|done|done]. Qed.
End order.

(** ** Iterators *)

Class Iterator (I : Type) := {
  it_Valid : I -> bool;
  it_key : I -> option (list Z);
  it_value : I -> option (list Z);
  it_status : I -> Status;
  it_Next : I -> option I;
  it_Prev : I -> option I;
  it_Seek : list Z -> I -> option I;
  it_SeekToFirst : I -> option I;
  it_SeekToLast : I -> option I }.

Abbreviation entry := (list Z * list Z)%type.

Section laws.
Context {I} `{Iterator I} (before : list Z -> list Z -> bool) (contents : list entry)
  (at_ : I -> option nat -> Prop).

(** The position at index [i], past the last entry when there is none. *)
Definition position (i : nat) : option nat := if decide (i < length contents)%nat then Some i else None.

(** The entries before [target] are a prefix of sorted contents. *)
Definition seek_index (target : list Z) : nat := length (filter (fun e => before e.1 target) contents).

(** [at_ it p] says that [it] is positioned at the entry of index [p], or not
    valid. *)
Record IteratorLaws : Prop := {
  at_Valid it p : at_ it p -> it_Valid it = bool_decide (is_Some p);
  at_range it i : at_ it (Some i) -> (i < length contents)%nat;
  at_entry it i k v : at_ it (Some i) -> contents !! i = Some (k, v) -> it_key it = Some k /\ it_value it = Some v;
  at_Next it i : at_ it (Some i) -> exists it', it_Next it = Some it' /\ at_ it' (position (S i));
  at_Prev it i : at_ it (Some i) -> exists it', it_Prev it = Some it' /\
    at_ it' (match i with O => None | S j => Some j end);
  at_Seek it p target : at_ it p -> exists it', it_Seek target it = Some it' /\ at_ it' (position (seek_index target));
  at_SeekToFirst it p : at_ it p -> exists it', it_SeekToFirst it = Some it' /\ at_ it' (position 0);
  at_SeekToLast it p : at_ it p -> exists it', it_SeekToLast it = Some it' /\ at_ it' (position (pred (length contents))) }.
End laws.

Lemma position_cases (l : list entry) i :
  position l i = Some i /\ (i < length l)%nat \/ position l i = None /\ (length l <= i)%nat.
Proof. unfold position. case_decide; [left|right]; split; try done. lia. Qed.

(** ** Strictly sorted lists of entries *)

Lemma StronglySorted_impl {A} (R R' : relation A) (l : list A) :
  (forall a b, R a b -> R' a b) -> StronglySorted R l -> StronglySorted R' l.
Proof. intros HR. induction 1 as [|a l _ IH Ha]; constructor; [done|]. eapply List.Forall_impl; [|exact Ha]. auto. Qed.

Lemma StronglySorted_lookup {A} (R : relation A) (l : list A) i j a b :
  StronglySorted R l -> l !! i = Some a -> l !! j = Some b -> (i < j)%nat -> R a b.
Proof.
  intros Hs Ha Hb Hij. rewrite <- (take_drop (S i) l) in Hs. eapply StronglySorted_app_1_elem_of; [exact Hs|..].
  - apply list_elem_of_lookup. exists i. rewrite lookup_take_lt by lia. done.
  - apply list_elem_of_lookup. exists (j - S i)%nat. rewrite lookup_drop. by replace (S i + (j - S i))%nat with j by lia.
Qed.

Lemma StronglySorted_filter {A} (R : relation A) (P : A -> Prop) `{!forall x, Decision (P x)} (l : list A) :
  StronglySorted R l -> StronglySorted R (filter P l).
Proof.
  induction 1 as [|x l _ IH Hx]; [constructor|]. rewrite filter_cons. case_decide; [|done]. constructor; [done|].
  rewrite list.Forall_forall in Hx |- *. intros y [_ Hy]%list_elem_of_filter. by apply Hx.
Qed.

Section sorted.
Context `{KeyOrder}.
Implicit Types vs : list entry.

(** The order of user keys as an iterator seeks by it. *)
Definition user_before (a b : list Z) : bool := bool_decide (lt_key a b).

Definition sorted_keys vs : Prop := StronglySorted lt_key vs.*1.

Lemma sorted_keys_cons k v vs : sorted_keys ((k, v) :: vs) <->
  (forall e, e ∈ vs -> lt_key k e.1) /\ sorted_keys vs.
Proof.
  unfold sorted_keys. rewrite fmap_cons. cbn [fst]. split.
  - intros [Hs Hf]%StronglySorted_inv. split; [|done]. intros e He.
    rewrite List.Forall_forall in Hf. apply Hf, list_elem_of_In, list_elem_of_fmap. eauto.
  - intros [Hf Hs]. constructor; [done|]. apply List.Forall_forall.
    intros k' (e & -> & He)%list_elem_of_In%list_elem_of_fmap. by apply Hf.
Qed.

Lemma filter_keeps_all {A} (P : A -> Prop) `{!forall x, Decision (P x)} (l : list A) :
  (forall x, x ∈ l -> P x) -> filter P l = l.
Proof.
  induction l as [|x l IH]; intros Hl; [done|]. rewrite filter_cons, decide_True by (apply Hl; left).
  f_equal. apply IH. intros y Hy. apply Hl. by right.
Qed.

Lemma filter_drops_all {A} (P : A -> Prop) `{!forall x, Decision (P x)} (l : list A) :
  (forall x, x ∈ l -> ~ P x) -> filter P l = [].
Proof.
  induction l as [|x l IH]; intros Hl; [done|]. rewrite filter_cons, decide_False by (apply Hl; left).
  apply IH. intros y Hy. apply Hl. by right.
Qed.

Lemma filter_ext {A} (P Q : A -> Prop) `{!forall x, Decision (P x)} `{!forall x, Decision (Q x)} (l : list A) :
  (forall x, x ∈ l -> P x <-> Q x) -> filter P l = filter Q l.
Proof.
  induction l as [|x l IH]; intros Hl; [done|]. rewrite !filter_cons.
  assert (P x <-> Q x) as HPQ by (apply Hl; left).
  rewrite IH by (intros y Hy; apply Hl; by right). repeat case_decide; naive_solver.
Qed.

(** A predicate that only holds of a prefix splits the list. *)
Lemma filter_split {A} (P : A -> Prop) `{!forall x, Decision (P x)} (l : list A) :
  StronglySorted (fun a b => P b -> P a) l -> l = filter P l ++ filter (fun x => ~ P x) l.
Proof.
  induction 1 as [|x l Hs IH Hl]; [done|]. rewrite !filter_cons. rewrite List.Forall_forall in Hl.
  destruct (decide (P x)) as [Hx|Hx].
  - rewrite decide_False by tauto. cbn [app]. by rewrite <- IH.
  - rewrite decide_True, (filter_drops_all P), filter_keeps_all; try done; intros y Hy Hp; apply Hx, (Hl y); try done;
      by apply list_elem_of_In.
Qed.

Lemma sorted_filter_gt vs i k v : sorted_keys vs -> vs !! i = Some (k, v) ->
  filter (fun e : entry => lt_key k e.1) vs = drop (S i) vs.
Proof.
  revert i. induction vs as [|[k' v'] vs IH]; intros [|i] Hs Hi; try done; apply sorted_keys_cons in Hs as [Hf Hs];
    simpl in Hi; rewrite filter_cons; cbn [fst].
  - injection Hi as -> ->. rewrite decide_False by apply lt_key_irrefl. simpl. rewrite drop_0. by apply filter_keeps_all.
  - rewrite decide_False; [by apply (IH i)|]. apply lt_key_asym. apply (Hf (k, v)). by eapply list_elem_of_lookup_2.
Qed.

Lemma sorted_filter_lt vs i k v : sorted_keys vs -> vs !! i = Some (k, v) ->
  filter (fun e : entry => lt_key e.1 k) vs = take i vs.
Proof.
  revert i. induction vs as [|[k' v'] vs IH]; intros [|i] Hs Hi; try done; apply sorted_keys_cons in Hs as [Hf Hs];
    simpl in Hi; rewrite filter_cons; cbn [fst].
  - injection Hi as -> ->. rewrite decide_False by apply lt_key_irrefl.
    apply filter_drops_all. intros e He. by apply lt_key_asym, Hf.
  - rewrite decide_True; [simpl; f_equal; by apply IH|]. apply (Hf (k, v)). by eapply list_elem_of_lookup_2.
Qed.

(** The entries at or past a target are what is left after those before it. *)
Lemma sorted_filter_ge vs t : sorted_keys vs ->
  filter (fun e : entry => ~ lt_key e.1 t) vs = drop (length (filter (fun e : entry => lt_key e.1 t) vs)) vs.
Proof.
  induction vs as [|[k v] vs IH]; intros Hs; [done|]. apply sorted_keys_cons in Hs as [Hf Hs].
  rewrite !filter_cons. cbn [fst]. destruct (decide (lt_key k t)) as [Hk|Hk].
  - rewrite decide_False by tauto. by apply IH.
  - assert (forall e, e ∈ vs -> ~ lt_key e.1 t) as Hge.
    { intros e He Ht. apply Hk. eapply lt_key_trans; [by apply Hf|done]. }
    rewrite decide_True by done. by rewrite (filter_drops_all (fun e : entry => lt_key e.1 t)), filter_keeps_all by done.
Qed.
(** The index a search stops at: everything before it is before the target. *)
Lemma seek_index_eq vs t i : sorted_keys vs -> (i <= length vs)%nat ->
  (forall e, e ∈ take i vs -> lt_key e.1 t) -> (forall e, vs !! i = Some e -> ~ lt_key e.1 t) ->
  seek_index user_before vs t = i.
Proof.
  intros Hs Hi Hbefore Hat. unfold seek_index. rewrite <- (take_drop i vs), list.filter_app.
  rewrite filter_keeps_all, filter_drops_all, app_nil_r, length_take_le; [done|done|..].
  - intros e He. unfold user_before. rewrite bool_decide_spec.
    apply list_elem_of_lookup in He as [j Hj]. rewrite lookup_drop in Hj. destruct j as [|j].
    { rewrite Nat.add_0_r in Hj. by apply Hat. }
    destruct (vs !! i) as [[k v]|] eqn:Ei; [|apply lookup_ge_None in Ei; apply lookup_lt_Some in Hj; lia].
    specialize (Hat _ eq_refl). intros Hlt. apply Hat. eapply lt_key_trans; [|exact Hlt].
    assert (e ∈ drop (S i) vs) as He.
    { apply list_elem_of_lookup. exists j. rewrite lookup_drop. by rewrite <- Nat.add_succ_comm in Hj. }
    rewrite <- (sorted_filter_gt vs i k v Hs Ei) in He. by apply list_elem_of_filter in He as [? _].
  - intros e He. unfold user_before. rewrite bool_decide_spec. by apply Hbefore.
Qed.
End sorted.

(** An iterator only depends on the values of the order it seeks by. *)
Lemma seek_index_ext (before before' : list Z -> list Z -> bool) (l : list entry) t :
  (forall a b, before a b = before' a b) -> seek_index before l t = seek_index before' l t.
Proof. intros Hb. unfold seek_index. f_equal. apply filter_ext. intros e _. by rewrite Hb. Qed.

Lemma IteratorLaws_ext {I} `{!Iterator I} (before before' : list Z -> list Z -> bool) contents at_ :
  (forall a b, before a b = before' a b) -> IteratorLaws before contents at_ -> IteratorLaws before' contents at_.
Proof.
  intros Hb [Hv Hr He Hn Hp Hs Hf Hl]. split; try done. intros it p t Hat.
  rewrite <- (seek_index_ext before before') by done. by apply Hs with p.
Qed.

(** ** An iterator over a list, the reference implementation

    Its position is an index, past the end when it is not valid. *)

Definition by_bytes : Comparator := fix cmp a b :=
  match a, b with
  | [], [] => 0 | [], _ => -1 | _, [] => 1
  | x :: a, y :: b => if x =? y then cmp a b else x - y
  end.

Lemma by_bytes_laws : @ComparatorLaws by_bytes.
Proof.
  split; unfold lt_key, Compare, by_bytes.
  - induction a as [|x a IH]; intros [|y b]; try done. simpl. destruct (x =? y) eqn:E.
    + apply Z.eqb_eq in E as ->. rewrite IH. split; [by intros ->|by intros [= ->]].
    + apply Z.eqb_neq in E. split; [lia|]. intros [= -> _]. lia.
  - induction a as [|x a IH]; intros [|y b]; try (simpl; lia). simpl. rewrite (Z.eqb_sym y x).
    destruct (x =? y); [apply IH|lia].
  - induction a as [|x a IH]; intros [|y b] [|z c]; try (simpl; lia). simpl.
    destruct (x =? y) eqn:E1, (y =? z) eqn:E2.
    + apply Z.eqb_eq in E1 as ->. rewrite E2. apply IH.
    + apply Z.eqb_eq in E1 as ->. rewrite E2. lia.
    + apply Z.eqb_eq in E2 as ->. rewrite E1. lia.
    + intros H1 H2. rewrite (proj2 (Z.eqb_neq x z)) by lia. lia.
Qed.

Record list_iter := ListIter { li_entries : list entry; li_pos : option nat }.

Section list_iter.
Context (before : list Z -> list Z -> bool).

Definition li_move (p : option nat) (it : list_iter) : option list_iter := Some (ListIter (li_entries it) p).

#[export] Instance list_Iterator : Iterator list_iter := {|
  it_Valid it := bool_decide (is_Some (li_pos it));
  it_key it := i ← li_pos it; e ← li_entries it !! i; Some e.1;
  it_value it := i ← li_pos it; e ← li_entries it !! i; Some e.2;
  it_status _ := Ok;
  it_Next it := i ← li_pos it; li_move (position (li_entries it) (S i)) it;
  it_Prev it := i ← li_pos it; li_move (match i with O => None | S j => Some j end) it;
  it_Seek t it := li_move (position (li_entries it) (seek_index before (li_entries it) t)) it;
  it_SeekToFirst it := li_move (position (li_entries it) 0) it;
  it_SeekToLast it := li_move (position (li_entries it) (pred (length (li_entries it)))) it |}.

Definition li_at (contents : list entry) (it : list_iter) (p : option nat) : Prop :=
  it = ListIter contents p /\ forall i, p = Some i -> (i < length contents)%nat.

Lemma li_at_position contents i : li_at contents (ListIter contents (position contents i)) (position contents i).
Proof. split; [done|]. unfold position. intros j. case_decide; naive_solver. Qed.

Lemma list_iter_laws contents : IteratorLaws before contents (li_at contents).
Proof.
  split; cbn [it_Valid it_key it_value it_Next it_Prev it_Seek it_SeekToFirst it_SeekToLast list_Iterator].
  - by intros it p [-> _].
  - intros it i [_ Hi]. by apply Hi.
  - intros it i k v [-> _] E. simpl. by rewrite E.
  - intros it i [-> _]. eexists. split; [done|apply li_at_position].
  - intros it i [-> Hi]. eexists. split; [done|]. split; [done|]. destruct i; [done|].
    intros j [= <-]. specialize (Hi _ eq_refl). lia.
  - intros it p t [-> _]. eexists. split; [done|apply li_at_position].
  - intros it p [-> _]. eexists. split; [done|apply li_at_position].
  - intros it p [-> _]. eexists. split; [done|apply li_at_position].
Qed.
End list_iter.
