(* ===== verification/Coding.v ===== *)
(** * The integer codec of leveldb ([util/coding.h])

    The header and its implementation are not part of the repository. The
    functions its clients call are parameters; the laws are the documented
    format: fixed-width numbers are little-endian, variable-length numbers
    come in groups of seven bits, every byte but the last with its top bit
    set. A pair [p], [limit] of pointers, and a [Slice] that a function
    advances, is the list of the bytes between them. *)

From stdpp Require Import base list.
From S2P Require Import Prelude.

Class Coding := {
  DecodeFixed32 : list Z -> Z;
  DecodeFixed64 : list Z -> Z;
  EncodeFixed64 : Z -> list Z;
  GetVarint32Ptr : list Z -> option (Z * list Z);
  GetVarint32 : list Z -> option (Z * list Z);
  GetVarint64 : list Z -> option (Z * list Z);
  GetLengthPrefixedSlice : list Z -> option (list Z * list Z);
  PutVarint32 : list Z -> Z -> list Z;
  PutVarint64 : list Z -> Z -> list Z;
  PutLengthPrefixedSlice : list Z -> list Z -> list Z;
}.

(** A reader consumes at least one byte of what it is given. *)
Definition consumes {A} (get : list Z -> option (A * list Z)) : Prop :=
  forall s a rest, get s = Some (a, rest) -> exists used, s = used ++ rest /\ used <> [].

(** A writer appends, and the reader takes back what it appended. *)
Definition appends {A} (put : list Z -> A -> list Z) : Prop := forall dst a, put dst a = dst ++ put [] a.
Definition reads_back {A} (P : A -> Prop) (put : list Z -> A -> list Z) (get : list Z -> option (A * list Z)) : Prop :=
  forall a rest, P a -> get (put [] a ++ rest) = Some (a, rest).

Class CodingLaws `{Coding} := {
  DecodeFixed32_le bs rest : length bs = 4%nat -> DecodeFixed32 (bs ++ rest) = le_val bs;
  DecodeFixed64_le bs rest : length bs = 8%nat -> DecodeFixed64 (bs ++ rest) = le_val bs;
  EncodeFixed64_le v : EncodeFixed64 v = le_bytes 8 v;
  GetVarint32Ptr_eq s : GetVarint32Ptr s = GetVarint32 s;
  GetVarint32_consumes : consumes GetVarint32;
  GetVarint32_range s v rest : GetVarint32 s = Some (v, rest) -> is_u 32 v;
  GetVarint64_consumes : consumes GetVarint64;
  GetVarint64_range s v rest : GetVarint64 s = Some (v, rest) -> is_u 64 v;
  GetLengthPrefixedSlice_consumes : consumes GetLengthPrefixedSlice;
  PutVarint32_appends : appends PutVarint32;
  PutVarint64_appends : appends PutVarint64;
  PutLengthPrefixedSlice_appends : appends PutLengthPrefixedSlice;
  PutVarint32_reads_back : reads_back (is_u 32) PutVarint32 GetVarint32;
  PutVarint64_reads_back : reads_back (is_u 64) PutVarint64 GetVarint64;
  PutLengthPrefixedSlice_reads_back :
    reads_back (fun s => is_u 32 (Z.of_nat (length s))) PutLengthPrefixedSlice GetLengthPrefixedSlice;
  PutVarint32_bytes v : is_u 32 v -> bytes (PutVarint32 [] v);
  PutVarint32_short v : 0 <= v < 128 -> PutVarint32 [] v = [v];
  PutVarint32_long v : 128 <= v < 2 ^ 32 -> exists b bs, PutVarint32 [] v = b :: bs /\ 128 <= b < 256;
}.

Section consumes.
Context {A} (get : list Z -> option (A * list Z)) (Hget : consumes get).

Lemma consumes_length s a rest : get s = Some (a, rest) -> (length rest < length s)%nat.
Proof using Hget.
  intros (used & -> & Hu)%Hget. destruct used; [done|]. rewrite length_app. simpl. lia.
Qed.

Lemma consumes_nil a rest : get [] <> Some (a, rest).
Proof using Hget. intros (used & E & Hu)%Hget. symmetry in E. by apply app_nil in E as [-> _]. Qed.
End consumes.

(** ** An implementation that satisfies the laws *)

Fixpoint varint (fuel : nat) (v : Z) : list Z :=
  match fuel with
  | O => []
  | S fuel => if v <? 128 then [v] else (128 + v `mod` 128) :: varint fuel (v `div` 128)
  end.

Fixpoint get_varint (fuel : nat) (s : list Z) : option (Z * list Z) :=
  match fuel, s with
  | S fuel, b :: s =>
      if b <? 128 then Some (b, s)
      else '(v, rest) ← get_varint fuel s; Some (b - 128 + 128 * v, rest)
  | _, _ => None
  end.

Definition checked (w : Z) (r : option (Z * list Z)) : option (Z * list Z) :=
  '(v, rest) ← r; if decide (is_u w v) then Some (v, rest) else None.

#[local] Definition reference_get_slice (s : list Z) : option (list Z * list Z) :=
  '(n, rest) ← checked 32 (get_varint 5 s);
  if decide (Z.to_nat n <= length rest)%nat then Some (take (Z.to_nat n) rest, drop (Z.to_nat n) rest) else None.

Definition reference_coding : Coding := {|
  DecodeFixed32 bs := le_val (take 4 bs);
  DecodeFixed64 bs := le_val (take 8 bs);
  EncodeFixed64 := le_bytes 8;
  GetVarint32Ptr s := checked 32 (get_varint 5 s);
  GetVarint32 s := checked 32 (get_varint 5 s);
  GetVarint64 s := checked 64 (get_varint 10 s);
  GetLengthPrefixedSlice := reference_get_slice;
  PutVarint32 dst v := dst ++ varint 5 v;
  PutVarint64 dst v := dst ++ varint 10 v;
  PutLengthPrefixedSlice dst s := dst ++ varint 5 (Z.of_nat (length s)) ++ s |}.

Lemma get_varint_consumes fuel : consumes (get_varint fuel).
Proof.
  induction fuel as [|fuel IH]; intros [|b s] v rest; try done. simpl. destruct (b <? 128).
  - intros [= <- <-]. by exists [b].
  - destruct (get_varint fuel s) as [[v' rest']|] eqn:E; [|done]. intros [= _ <-].
    destruct (IH _ _ _ E) as (used & -> & _). by exists (b :: used).
Qed.

Lemma checked_consumes w get : consumes get -> consumes (fun s => checked w (get s)).
Proof.
  intros Hget s v rest. unfold checked. destruct (get s) as [[v' rest']|] eqn:E; [|done]. simpl.
  case_decide; [|done]. intros [= <- <-]. by eapply Hget.
Qed.

Lemma get_varint_varint fuel v rest : (0 < fuel)%nat -> 0 <= v < 128 ^ Z.of_nat fuel ->
  get_varint fuel (varint fuel v ++ rest) = Some (v, rest).
Proof.
  intros Hf. revert v. induction Hf as [|fuel Hf IH]; intros v Hv.
  { assert ((v <? 128) = true) as E by (apply Z.ltb_lt; lia).
    cbn [varint app get_varint]. rewrite E. cbn [app get_varint]. by rewrite E. }
  cbn [varint]. destruct (v <? 128) eqn:E; cbn [app get_varint]; [by rewrite E|].
  rewrite Nat2Z.inj_succ, Z.pow_succ_r in Hv by lia.
  apply Z.ltb_ge in E. pose proof (Z.mod_pos_bound v 128).
  rewrite (proj2 (Z.ltb_ge _ _)) by lia. rewrite IH.
  - simpl. do 2 f_equal. pose proof (Z.div_mod v 128). lia.
  - split; [apply Z.div_pos; lia|]. apply Z.div_lt_upper_bound; lia.
Qed.

Lemma varint_bytes fuel v : 0 <= v -> bytes (varint fuel v).
Proof.
  revert v. induction fuel as [|fuel IH]; intros v Hv; [constructor|]. cbn [varint].
  pose proof (Z.mod_pos_bound v 128). destruct (Z.ltb_spec v 128); repeat constructor; unfold is_u; try lia.
  apply IH, Z.div_pos; lia.
Qed.

Lemma checked_varint w fuel v rest : (0 < fuel)%nat -> is_u w v -> 2 ^ w <= 128 ^ Z.of_nat fuel ->
  checked w (get_varint fuel (varint fuel v ++ rest)) = Some (v, rest).
Proof.
  intros Hp Hv Hf. rewrite get_varint_varint by (done || unfold is_u in Hv; lia). simpl. by rewrite decide_True.
Qed.

Lemma reference_coding_laws : @CodingLaws reference_coding.
Proof.
  split; cbn [DecodeFixed32 DecodeFixed64 EncodeFixed64 GetVarint32Ptr GetVarint32 GetVarint64 GetLengthPrefixedSlice
    PutVarint32 PutVarint64 PutLengthPrefixedSlice reference_coding].
  - intros bs rest E. by rewrite take_app_length'.
  - intros bs rest E. by rewrite take_app_length'.
  - done.
  - done.
  - apply checked_consumes, get_varint_consumes.
  - intros s v rest. unfold checked. destruct (get_varint 5 s) as [[]|]; [|done]. simpl. case_decide; naive_solver.
  - apply checked_consumes, get_varint_consumes.
  - intros s v rest. unfold checked. destruct (get_varint 10 s) as [[]|]; [|done]. simpl. case_decide; naive_solver.
  - intros s a rest. unfold reference_get_slice.
    destruct (checked 32 (get_varint 5 s)) as [[n r]|] eqn:E; [|done]. simpl. case_decide; [|done].
    intros [= <- <-]. destruct (checked_consumes 32 _ (get_varint_consumes 5) _ _ _ E) as (used & -> & Hu).
    exists (used ++ take (Z.to_nat n) r). rewrite <- app_assoc, take_drop. split; [done|].
    by intros [-> _]%app_nil.
  - intros dst a. by rewrite app_nil_l.
  - intros dst a. by rewrite app_nil_l.
  - intros dst a. by rewrite app_nil_l.
  - intros v rest Hv. rewrite app_nil_l. apply checked_varint; [lia|done|done].
  - intros v rest Hv. rewrite app_nil_l. apply checked_varint; [lia|done|done].
  - intros s rest Hs. unfold reference_get_slice. rewrite app_nil_l, <- app_assoc, checked_varint by (done || lia). simpl.
    rewrite Nat2Z.id, decide_True by (rewrite length_app; lia). by rewrite take_app_length, drop_app_length.
  - intros v Hv. rewrite app_nil_l. apply varint_bytes. apply Hv.
  - intros v Hv. rewrite app_nil_l. simpl. by rewrite (proj2 (Z.ltb_lt v 128)) by lia.
  - intros v Hv. rewrite app_nil_l. simpl. rewrite (proj2 (Z.ltb_ge v 128)) by lia. eexists _, _. split; [done|].
    pose proof (Z.mod_pos_bound v 128). lia.
Qed.
