(* ===== verification/DbFormat.v ===== *)
(** * Internal keys of leveldb ([leveldb-library/db/dbformat.h])

    An entry of a database is stored under an internal key: the user's key, a
    sequence number and whether the entry is a value or a deletion. The
    serialisation of internal keys and their order are implemented in
    [db/dbformat.cc], which is not part of the repository: the first is a
    parameter, the second is the documented order, [internal_lt]. *)

From stdpp Require Import base list.
From S2P Require Import Prelude Cursor Coding.

Definition kNumLevels : Z := 7.
Definition kReadBytesPeriod : Z := 1048576.

Inductive ValueType := kTypeDeletion | kTypeValue.
Definition kValueTypeForSeek : ValueType := kTypeValue.

#[export] Instance ValueType_eq_dec : EqDecision ValueType.
Proof. solve_decision. Defined.

(** The numbers of the two types on disk. *)
Definition value_type_code (t : ValueType) : Z := match t with kTypeDeletion => 0 | kTypeValue => 1 end.

Definition kMaxSequenceNumber : Z := 2 ^ 56 - 1.

Record ParsedInternalKey := ParsedKey { user_key : list Z; sequence : Z; type : ValueType }.

Definition InternalKeyEncodingLength (k : ParsedInternalKey) : Z := wrap 64 (Z.of_nat (length (user_key k)) + 8).

Definition ExtractUserKey (internal_key : list Z) : option (list Z) :=
  _ ← assert_ (8 <=? length internal_key)%nat; Some (take (length internal_key - 8) internal_key).

(** The class [InternalKey] is its representation [rep_]. *)
Definition InternalKey_Encode (rep_ : list Z) : option (list Z) := _ ← assert_ (bool_decide (rep_ <> [])); Some rep_.
Definition InternalKey_DecodeFrom (s : list Z) : list Z := s.

Section dbformat.
Context `{Coding}.

(** [None] when the function returns false: the result is then undefined. *)
Definition ParseInternalKey (internal_key : list Z) : option ParsedInternalKey :=
  let n := length internal_key in
  if (n <? 8)%nat then None else
  let num := DecodeFixed64 (drop (n - 8) internal_key) in
  let c := Z.land num 0xff in
  let sequence := Z.shiftr num 8 in
  let user_key := take (n - 8) internal_key in
  if c =? value_type_code kTypeDeletion then Some (ParsedKey user_key sequence kTypeDeletion)
  else if c =? value_type_code kTypeValue then Some (ParsedKey user_key sequence kTypeValue)
  else None.

(** The user key and the tag of a serialised internal key. *)
Definition ukey (internal_key : list Z) : list Z := take (length internal_key - 8) internal_key.
Definition tag (internal_key : list Z) : Z := DecodeFixed64 (drop (length internal_key - 8) internal_key).

(** [InternalKeyComparator]: by user key, ties by decreasing sequence number;
    the sequence number and the type are packed in the tag. *)
Definition internal_lt `{Comparator} (a b : list Z) : Prop :=
  lt_key (ukey a) (ukey b) \/ ukey a = ukey b /\ tag b < tag a.

#[export] Instance internal_lt_dec `{Comparator} a b : Decision (internal_lt a b).
Proof. unfold internal_lt. apply _. Defined.

(** The order as an iterator seeks by it. *)
Definition internal_before `{Comparator} (a b : list Z) : bool := bool_decide (internal_lt a b).

Lemma ExtractUserKey_ok k : (8 <= length k)%nat -> ExtractUserKey k = Some (ukey k).
Proof. intros Hk. unfold ExtractUserKey. by rewrite (proj2 (Nat.leb_le _ _) Hk). Qed.

Lemma ParseInternalKey_Some k p : ParseInternalKey k = Some p ->
  (8 <= length k)%nat /\ user_key p = ukey k /\ tag k = sequence p * 256 + value_type_code (type p).
Proof.
  unfold ParseInternalKey. destruct (Nat.ltb_spec (length k) 8) as [|Hk]; [done|]. fold (tag k).
  assert (tag k = Z.shiftr (tag k) 8 * 256 + Z.land (tag k) 0xff) as E.
  { change 0xff with (Z.ones 8). rewrite Z.land_ones, Z.shiftr_div_pow2 by lia.
    pose proof (Z.div_mod (tag k) (2 ^ 8)). change (2 ^ 8) with 256 in *. lia. }
  repeat case_match; intros [= <-]; simpl; split_and!; try done; rewrite E at 1; f_equal; by apply Z.eqb_eq.
Qed.
End dbformat.

(** [AppendInternalKey] of [db/dbformat.cc]. *)
Class InternalKeyFormat := AppendInternalKey : list Z -> ParsedInternalKey -> list Z.

Class InternalKeyFormatLaws `{Coding} `{InternalKeyFormat} := {
  AppendInternalKey_appends dst k : AppendInternalKey dst k = dst ++ AppendInternalKey [] k;
  AppendInternalKey_parses k : 0 <= sequence k <= kMaxSequenceNumber ->
    ParseInternalKey (AppendInternalKey [] k) = Some k }.

Definition reference_format : InternalKeyFormat := fun dst k =>
  dst ++ user_key k ++ le_bytes 8 (sequence k * 256 + value_type_code (type k)).

Lemma reference_format_laws : @InternalKeyFormatLaws reference_coding reference_format.
Proof.
  split; unfold AppendInternalKey, reference_format; [done|]. intros [u s t] Hs. cbn [user_key sequence type app] in *.
  unfold ParseInternalKey. rewrite length_app, length_le_bytes.
  replace (length u + 8 - 8)%nat with (length u) by lia.
  destruct (Nat.ltb_spec (length u + 8) 8); [lia|]. rewrite take_app_length, drop_app_length.
  change DecodeFixed64 with (fun bs => le_val (take 8 bs)). cbn beta.
  rewrite take_ge by (by rewrite length_le_bytes). rewrite le_val_bytes.
  assert (0 <= value_type_code t < 2) by (by destruct t). unfold kMaxSequenceNumber in Hs.
  rewrite Z.mod_small by (change (256 ^ Z.of_nat 8) with (2 ^ 64); lia).
  change 0xff with (Z.ones 8). rewrite Z.land_ones, Z.shiftr_div_pow2 by lia. change (2 ^ 8) with 256.
  rewrite Z.div_add_l, (Z.div_small (value_type_code t)), Z.add_0_r by lia.
  rewrite (Z.add_comm (s * 256)), Z.mod_add, Z.mod_small by lia. by destruct t.
Qed.

(** ** The internal key comparator

    [InternalKeyComparator::Compare] of [db/dbformat.cc]. *)

Class InternalComparator := ICompare : list Z -> list Z -> Z.

Class InternalComparatorLaws `{Comparator} `{Coding} `{InternalComparator} := {
  ICompare_lt a b : ICompare a b < 0 <-> internal_lt a b;
  ICompare_gt a b : 0 < ICompare a b <-> internal_lt b a }.

(** The comparison of two [InternalKey]s. *)
Definition ICompare_keys `{InternalComparator} (a b : list Z) : option Z :=
  a ← InternalKey_Encode a; b ← InternalKey_Encode b; Some (ICompare a b).

Definition reference_icmp `{Comparator} `{Coding} : InternalComparator := fun a b =>
  if decide (internal_lt a b) then -1 else if decide (internal_lt b a) then 1 else 0.

Section internal_order.
Context `{ComparatorLaws} `{Coding}.

Lemma internal_lt_irrefl a : ~ internal_lt a a.
Proof. intros [Ha|[_ Ha]]; [by apply lt_key_irrefl in Ha|lia]. Qed.

Lemma internal_lt_ukey a b : internal_lt a b -> ~ lt_key (ukey b) (ukey a).
Proof. intros [Hl|[-> _]]; [by apply lt_key_asym|apply lt_key_irrefl]. Qed.

Lemma internal_lt_trans a b c : internal_lt a b -> internal_lt b c -> internal_lt a c.
Proof.
  intros [Hab|[Hab Hab']] [Hbc|[Hbc Hbc']]; unfold internal_lt.
  - left. by eapply lt_key_trans.
  - left. by rewrite <- Hbc.
  - left. by rewrite Hab.
  - right. split; [congruence|lia].
Qed.

Lemma internal_lt_asym a b : internal_lt a b -> ~ internal_lt b a.
Proof. intros Hab Hba. exact (internal_lt_irrefl a (internal_lt_trans _ _ _ Hab Hba)). Qed.

Lemma internal_lt_total a b : internal_lt a b \/ internal_lt b a \/ (ukey a = ukey b /\ tag a = tag b).
Proof.
  unfold internal_lt. destruct (lt_key_total (ukey a) (ukey b)) as [?|[E|?]]; [by left; left| |by right; left; left].
  destruct (Z.lt_trichotomy (tag a) (tag b)) as [?|[?|?]]; [right; left; right|right; right|left; right]; by split.
Qed.

Lemma internal_lt_le_trans a b c : internal_lt a b -> ~ internal_lt c b -> internal_lt a c.
Proof.
  intros Hab Hcb. destruct (internal_lt_total b c) as [|[|[Hu Ht]]]; [by eapply internal_lt_trans|done|].
  unfold internal_lt in *. by rewrite <- Hu, <- Ht.
Qed.

Lemma internal_le_lt_trans a b c : ~ internal_lt b a -> internal_lt b c -> internal_lt a c.
Proof.
  intros Hba Hbc. destruct (internal_lt_total a b) as [|[|[Hu Ht]]]; [by eapply internal_lt_trans|done|].
  unfold internal_lt in *. by rewrite Hu, Ht.
Qed.

Lemma reference_icmp_laws : @InternalComparatorLaws _ _ reference_icmp.
Proof.
  split; intros a b; unfold ICompare, reference_icmp.
  - destruct (decide (internal_lt a b)); [split; done || lia|]. destruct (decide (internal_lt b a)); split; done || lia.
  - destruct (decide (internal_lt a b)) as [Hab|].
    + split; [lia|]. intros Hba. by apply internal_lt_asym in Hab.
    + destruct (decide (internal_lt b a)); split; done || lia.
Qed.

Context `{!InternalComparator, !InternalComparatorLaws}.

Lemma internal_before_eq a b : @user_before ICompare a b = internal_before a b.
Proof. unfold user_before, internal_before. apply bool_decide_ext, ICompare_lt. Qed.

Lemma ICompare_keys_ok a b : a <> [] -> b <> [] -> ICompare_keys a b = Some (ICompare a b).
Proof. intros Ha Hb. unfold ICompare_keys, InternalKey_Encode. by rewrite !bool_decide_true. Qed.

(** The internal comparator orders entries. *)
Lemma internal_order : @KeyOrder ICompare.
Proof.
  split.
  - by intros a Ha%ICompare_lt%internal_lt_irrefl.
  - intros a b c Hab%ICompare_lt Hbc%ICompare_lt. apply ICompare_lt. by eapply internal_lt_trans.
Qed.
End internal_order.
