(* ===== verification/DbIter.v ===== *)
(** * The database iterator of leveldb ([leveldb-library/db/db_iter.cc])

    A [DBIter] reads the internal entries of a database through an internal
    iterator, an implementation of the interface of [Cursor.v], and shows one
    entry per user key: the newest one its snapshot can see, unless that is a
    deletion. The internal iterator, the comparator and the random generator of
    the read sampling are parameters; the calls of [RecordReadSample], the only
    use of the database, are kept in order in the state.

    The argument [skip] of [FindNextUserEntry] is always the address of
    [saved_key_] and is that field here. The capacity of [saved_value_], which
    decides how it is cleared, is not modelled. The loops over the internal
    entries run on [fuel]; more fuel than entries is enough. *)

From Stdlib Require Import String.
From stdpp Require Import base list.
From S2P Require Import Prelude Cursor Coding DbFormat.

(** [util/random.h]: a generator of numbers below a bound. [gap] bounds how many
    zeros it draws in a row. *)
Class Random (R : Type) := {
  Random_seed : Z -> R;
  Uniform : R -> Z -> Z * R;
  gap : R -> nat;
  max_gap : nat }.

Class RandomLaws (R : Type) `{Random R} := {
  Uniform_range r n : 0 < n -> 0 <= (Uniform r n).1 < n;
  gap_max r : (gap r <= max_gap)%nat;
  Uniform_gap r n : 1 < n -> 0 < (Uniform r n).1 \/ (gap (Uniform r n).2 < gap r)%nat }.

Inductive Direction := kForward | kReverse.

#[export] Instance Direction_eq_dec : EqDecision Direction.
Proof. solve_decision. Defined.

Section dbiter.
Context `{Comparator} `{Coding} `{InternalKeyFormat} {I} `{Iterator I} {R} `{Random R} (fuel : nat).

Record DBIter := mkDBIter {
  iter_ : I; sequence_ : Z; status_ : Status; saved_key_ : list Z; saved_value_ : list Z;
  direction_ : Direction; valid_ : bool; rnd_ : R; bytes_until_read_sampling_ : Z;
  samples : list (list Z) }.

Definition with_iter it st := mkDBIter it (sequence_ st) (status_ st) (saved_key_ st) (saved_value_ st)
  (direction_ st) (valid_ st) (rnd_ st) (bytes_until_read_sampling_ st) (samples st).
Definition with_status s st := mkDBIter (iter_ st) (sequence_ st) s (saved_key_ st) (saved_value_ st)
  (direction_ st) (valid_ st) (rnd_ st) (bytes_until_read_sampling_ st) (samples st).
Definition SaveKey k st := mkDBIter (iter_ st) (sequence_ st) (status_ st) k (saved_value_ st)
  (direction_ st) (valid_ st) (rnd_ st) (bytes_until_read_sampling_ st) (samples st).
Definition with_saved_value v st := mkDBIter (iter_ st) (sequence_ st) (status_ st) (saved_key_ st) v
  (direction_ st) (valid_ st) (rnd_ st) (bytes_until_read_sampling_ st) (samples st).
Definition with_direction d st := mkDBIter (iter_ st) (sequence_ st) (status_ st) (saved_key_ st) (saved_value_ st)
  d (valid_ st) (rnd_ st) (bytes_until_read_sampling_ st) (samples st).
Definition with_valid b st := mkDBIter (iter_ st) (sequence_ st) (status_ st) (saved_key_ st) (saved_value_ st)
  (direction_ st) b (rnd_ st) (bytes_until_read_sampling_ st) (samples st).
Definition with_sampling r n ss st := mkDBIter (iter_ st) (sequence_ st) (status_ st) (saved_key_ st) (saved_value_ st)
  (direction_ st) (valid_ st) r n ss.

Definition ClearSavedValue (st : DBIter) : DBIter := with_saved_value [] st.

Definition RandomCompactionPeriod (r : R) : Z * R := Uniform r (2 * kReadBytesPeriod).

Definition DBIter_new (it : I) (sequence seed : Z) : DBIter :=
  let '(n, r) := RandomCompactionPeriod (Random_seed seed) in
  mkDBIter it sequence Ok [] [] kForward false r n [].

Definition DBIter_Valid (st : DBIter) : bool := valid_ st.

Definition DBIter_key (st : DBIter) : option (list Z) :=
  _ ← assert_ (valid_ st);
  match direction_ st with kForward => k ← it_key (iter_ st); ExtractUserKey k | kReverse => Some (saved_key_ st) end.

Definition DBIter_value (st : DBIter) : option (list Z) :=
  _ ← assert_ (valid_ st);
  match direction_ st with kForward => it_value (iter_ st) | kReverse => Some (saved_value_ st) end.

Definition DBIter_status (st : DBIter) : Status :=
  if bool_decide (status_ st = Ok) then it_status (iter_ st) else status_ st.

(** ** Reading an internal entry *)

Fixpoint sample_loop (n : nat) (k : list Z) (bytes_read : Z) (st : DBIter) : option DBIter :=
  if bytes_until_read_sampling_ st <? bytes_read then
    match n with
    | O => None
    | S n =>
        let '(period, r) := RandomCompactionPeriod (rnd_ st) in
        sample_loop n k bytes_read
          (with_sampling r (wrap 64 (bytes_until_read_sampling_ st + period)) (samples st ++ [k]) st)
    end
  else Some st.

Definition ParseKey (st : DBIter) : option (option ParsedInternalKey * DBIter) :=
  k ← it_key (iter_ st); v ← it_value (iter_ st);
  let bytes_read := wrap 64 (Z.of_nat (length k) + Z.of_nat (length v)) in
  st ← sample_loop (S (Z.to_nat bytes_read) * S max_gap) k bytes_read st;
  _ ← assert_ (bytes_read <=? bytes_until_read_sampling_ st);
  let st := with_sampling (rnd_ st) (wrap 64 (bytes_until_read_sampling_ st - bytes_read)) (samples st) st in
  match ParseInternalKey k with
  | None => Some (None, with_status (Corruption "corrupted internal key in DBIter") st)
  | ikey => Some (ikey, st)
  end.

(** The test of both loops: [ParseKey(&ikey) && ikey.sequence <= sequence_]. *)
Definition parse_visible (st : DBIter) : option (option ParsedInternalKey * DBIter) :=
  '(ikey, st) ← ParseKey st;
  Some (k ← ikey; if sequence k <=? sequence_ st then Some k else None, st).

(** ** Moving forward *)

(** The body of the loop up to [iter_->Next()]: go on with [skipping], or return. *)
Definition find_next_turn (skipping : bool) (st : DBIter) : option ((bool * DBIter) + DBIter) :=
  '(ikey, st) ← parse_visible st;
  Some match ikey with
  | None => inl (skipping, st)
  | Some ikey =>
      match type ikey with
      | kTypeDeletion => inl (true, SaveKey (user_key ikey) st)
      | kTypeValue =>
          if skipping && (Compare (user_key ikey) (saved_key_ st) <=? 0) then inl (skipping, st)
          else inr (SaveKey [] (with_valid true st))
      end
  end.

Fixpoint find_next_loop (n : nat) (skipping : bool) (st : DBIter) : option DBIter :=
  match n with
  | O => None
  | S n =>
      turn ← find_next_turn skipping st;
      match turn with
      | inr st => Some st
      | inl (skipping, st) =>
          it ← it_Next (iter_ st);
          let st := with_iter it st in
          if it_Valid it then find_next_loop n skipping st
          else Some (with_valid false (SaveKey [] st))
      end
  end.

Definition FindNextUserEntry (skipping : bool) (st : DBIter) : option DBIter :=
  _ ← assert_ (it_Valid (iter_ st)); _ ← assert_ (bool_decide (direction_ st = kForward));
  find_next_loop fuel skipping st.

Definition DBIter_Next (st : DBIter) : option DBIter :=
  _ ← assert_ (valid_ st);
  match direction_ st with
  | kReverse =>
      let st := with_direction kForward st in
      it ← (if negb (it_Valid (iter_ st)) then it_SeekToFirst (iter_ st) else it_Next (iter_ st));
      let st := with_iter it st in
      if negb (it_Valid it) then Some (SaveKey [] (with_valid false st)) else FindNextUserEntry true st
  | kForward =>
      k ← it_key (iter_ st); u ← ExtractUserKey k;
      FindNextUserEntry true (SaveKey u st)
  end.

(** ** Moving backward *)

(** One entry of the loop: the new type and state, or [None] for its [break]. *)
Definition find_prev_turn (value_type : ValueType) (st : DBIter) : option (option ValueType * DBIter) :=
  '(ikey, st) ← parse_visible st;
  match ikey with
  | None => Some (Some value_type, st)
  | Some ikey =>
      if bool_decide (value_type <> kTypeDeletion) && (Compare (user_key ikey) (saved_key_ st) <? 0)
      then Some (None, st)
      else match type ikey with
      | kTypeDeletion => Some (Some kTypeDeletion, ClearSavedValue (SaveKey [] st))
      | kTypeValue =>
          raw_value ← it_value (iter_ st);
          k ← it_key (iter_ st); u ← ExtractUserKey k;
          Some (Some kTypeValue, with_saved_value raw_value (SaveKey u st))
      end
  end.

Fixpoint find_prev_loop (n : nat) (value_type : ValueType) (st : DBIter) : option (ValueType * DBIter) :=
  match n with
  | O => None
  | S n =>
      '(turn, st) ← find_prev_turn value_type st;
      match turn with
      | None => Some (value_type, st)
      | Some value_type =>
          it ← it_Prev (iter_ st);
          let st := with_iter it st in
          if it_Valid it then find_prev_loop n value_type st else Some (value_type, st)
      end
  end.

Definition FindPrevUserEntry (st : DBIter) : option DBIter :=
  _ ← assert_ (bool_decide (direction_ st = kReverse));
  '(value_type, st) ←
    (if it_Valid (iter_ st) then find_prev_loop fuel kTypeDeletion st else Some (kTypeDeletion, st));
  Some match value_type with
  | kTypeDeletion => with_direction kForward (ClearSavedValue (SaveKey [] (with_valid false st)))
  | kTypeValue => with_valid true st
  end.

(** The scan of [Prev] to an entry of a smaller key; [None] inside when there is
    none and the function has returned. *)
Fixpoint prev_scan (n : nat) (st : DBIter) : option (bool * DBIter) :=
  match n with
  | O => None
  | S n =>
      it ← it_Prev (iter_ st);
      let st := with_iter it st in
      if negb (it_Valid it) then Some (false, ClearSavedValue (SaveKey [] (with_valid false st)))
      else
        k ← it_key it; u ← ExtractUserKey k;
        if Compare u (saved_key_ st) <? 0 then Some (true, st) else prev_scan n st
  end.

Definition DBIter_Prev (st : DBIter) : option DBIter :=
  _ ← assert_ (valid_ st);
  match direction_ st with
  | kForward =>
      _ ← assert_ (it_Valid (iter_ st));
      k ← it_key (iter_ st); u ← ExtractUserKey k;
      '(found, st) ← prev_scan fuel (SaveKey u st);
      if found : bool then FindPrevUserEntry (with_direction kReverse st) else Some st
  | kReverse => FindPrevUserEntry st
  end.

(** ** Seeking *)

Definition DBIter_Seek (target : list Z) (st : DBIter) : option DBIter :=
  let st := ClearSavedValue (with_direction kForward st) in
  let st := SaveKey (AppendInternalKey [] (ParsedKey target (sequence_ st) kValueTypeForSeek)) st in
  it ← it_Seek (saved_key_ st) (iter_ st);
  let st := with_iter it st in
  if it_Valid it then FindNextUserEntry false st else Some (with_valid false st).

Definition DBIter_SeekToFirst (st : DBIter) : option DBIter :=
  let st := ClearSavedValue (with_direction kForward st) in
  it ← it_SeekToFirst (iter_ st);
  let st := with_iter it st in
  if it_Valid it then FindNextUserEntry false st else Some (with_valid false st).

Definition DBIter_SeekToLast (st : DBIter) : option DBIter :=
  let st := ClearSavedValue (with_direction kReverse st) in
  it ← it_SeekToLast (iter_ st);
  FindPrevUserEntry (with_iter it st).

#[export] Instance DBIter_Iterator : Iterator DBIter := {|
  it_Valid := DBIter_Valid; it_key := DBIter_key; it_value := DBIter_value; it_status := DBIter_status;
  it_Next := DBIter_Next; it_Prev := DBIter_Prev; it_Seek := DBIter_Seek;
  it_SeekToFirst := DBIter_SeekToFirst; it_SeekToLast := DBIter_SeekToLast |}.
End dbiter.
