(* ===== verification/DbIterView.v ===== *)
(** * What a snapshot of a leveldb database shows ([leveldb-library/db/db_iter.cc])

    [view seq es] is the specification of the database iterator: the entries of
    [es], sorted by internal key, as a snapshot with sequence number [seq] sees
    them. A user key is shown with the value of its first visible entry, which is
    its newest one, unless that entry is a deletion. *)

From Stdlib Require Import Sorting.Sorted.
From stdpp Require Import base list sorting.
From S2P Require Import Prelude Cursor Coding DbFormat.

(** ** The view of a snapshot *)

Section view.
Context `{ComparatorLaws} `{Coding} (seq : Z).
Implicit Types es l : list entry.

(** An entry is visible when its key parses and is not newer than the snapshot. *)
Definition visible (e : entry) : option ParsedInternalKey :=
  k ← ParseInternalKey e.1; if sequence k <=? seq then Some k else None.

(** The view of the keys that are not in [seen]. *)
Fixpoint view_from (seen : list (list Z)) es : list entry :=
  match es with
  | [] => []
  | e :: es =>
      match visible e with
      | None => view_from seen es
      | Some k =>
          if decide (user_key k ∈ seen) then view_from seen es
          else (if decide (type k = kTypeValue) then [(user_key k, e.2)] else []) ++ view_from (user_key k :: seen) es
      end
  end.

Definition view es : list entry := view_from [] es.

(** The user keys with a visible entry. *)
Definition visible_keys es : list (list Z) := omap (fun e => user_key <$> visible e) es.

Lemma visible_ukey e k : visible e = Some k -> user_key k = ukey e.1.
Proof.
  unfold visible. destruct (ParseInternalKey e.1) as [k'|] eqn:E; [|done]. simpl. case_match; [|done].
  intros [= <-]. by eapply ParseInternalKey_Some.
Qed.

Lemma elem_of_visible_keys u l : u ∈ visible_keys l <-> exists e k, e ∈ l /\ visible e = Some k /\ u = user_key k.
Proof.
  unfold visible_keys. rewrite list_elem_of_omap. split.
  - intros (e & He & E). destruct (visible e) as [k|] eqn:Ek; [|done]. injection E as <-. eauto.
  - intros (e & k & He & E & ->). exists e. by rewrite E.
Qed.

Lemma view_from_ext l S S' : (forall u, u ∈ S <-> u ∈ S') -> view_from S l = view_from S' l.
Proof.
  revert S S'. induction l as [|e l IH]; intros S S' HS; [done|]. simpl. destruct (visible e) as [k|]; [|by apply IH].
  destruct (decide (user_key k ∈ S)) as [Hk|Hk].
  - rewrite (decide_True (P := user_key k ∈ S')) by by apply HS. by apply IH.
  - rewrite (decide_False (P := user_key k ∈ S')) by (intros ?%HS; done). f_equal. apply IH. intros u. by rewrite !elem_of_cons, HS.
Qed.

Lemma view_from_app S l1 l2 : view_from S (l1 ++ l2) = view_from S l1 ++ view_from (visible_keys l1 ++ S) l2.
Proof.
  revert S. induction l1 as [|e l1 IH]; intros S; [done|]. simpl. unfold visible_keys. cbn [omap list_omap].
  fold (visible_keys l1). destruct (visible e) as [k|]; [|apply IH]. simpl. case_decide.
  - rewrite IH. f_equal. apply view_from_ext. intros u. rewrite elem_of_cons, !elem_of_app.
    split; [tauto|]. intros [->|?]; [|tauto]. by right.
  - rewrite IH, <- app_assoc. do 2 f_equal. apply view_from_ext. intros u.
    rewrite elem_of_app, !elem_of_cons, elem_of_app. tauto.
Qed.

Lemma view_from_filter T S l : view_from (T ++ S) l = filter (fun e : entry => e.1 ∉ T) (view_from S l).
Proof.
  revert S. induction l as [|e l IH]; intros S; [done|]. simpl. destruct (visible e) as [k|]; [|apply IH].
  destruct (decide (user_key k ∈ S)) as [HS|HS].
  { rewrite (decide_True (P := user_key k ∈ T ++ S)) by (apply elem_of_app; by right). apply IH. }
  rewrite list.filter_app, <- IH. destruct (decide (user_key k ∈ T)) as [HT|HT].
  - rewrite (decide_True (P := user_key k ∈ T ++ S)) by (apply elem_of_app; by left).
    match goal with |- context [filter ?P (if ?c then ?a else ?b)] => rewrite (filter_drops_all P (if c then a else b)) end.
    + simpl. apply view_from_ext. intros u. rewrite !elem_of_app, elem_of_cons.
      split; [tauto|]. intros [?|[->|?]]; tauto.
    + intros e'. case_decide; [intros ->%list_elem_of_singleton Hn; by apply Hn|by intros ?%elem_of_nil].
  - rewrite (decide_False (P := user_key k ∈ T ++ S)) by (rewrite elem_of_app; tauto). f_equal.
    + case_decide; [|done]. by rewrite filter_cons, decide_True by done.
    + apply view_from_ext. intros u. rewrite elem_of_cons, !elem_of_app, elem_of_cons. tauto.
Qed.

Lemma view_from_view S l : view_from S l = filter (fun e : entry => e.1 ∉ S) (view l).
Proof. unfold view. by rewrite <- view_from_filter, app_nil_r. Qed.

Lemma elem_of_view_from e S l : e ∈ view_from S l -> e.1 ∈ visible_keys l /\ e.1 ∉ S.
Proof.
  revert S. induction l as [|e' l IH]; intros S; [by intros ?%elem_of_nil|]. simpl.
  unfold visible_keys. cbn [omap list_omap]. fold (visible_keys l).
  destruct (visible e') as [k|]; [|apply IH]. simpl. rewrite elem_of_cons.
  case_decide as Hk; [intros ?%IH; tauto|].
  intros [He|[? Hn]%IH]%elem_of_app; [|apply not_elem_of_cons in Hn; tauto].
  case_decide; [|by apply elem_of_nil in He]. apply list_elem_of_singleton in He as ->. simpl. tauto.
Qed.

(** Entries of other keys do not change what is shown of the keys in [P]. *)
Lemma view_app_filter (P : list Z -> Prop) `{!forall u, Decision (P u)} l1 l2 :
  (forall u, u ∈ visible_keys l1 -> ~ P u) ->
  filter (fun e : entry => P e.1) (view (l1 ++ l2)) = filter (fun e : entry => P e.1) (view l2).
Proof.
  intros HP. unfold view. rewrite view_from_app, app_nil_r, list.filter_app.
  rewrite (filter_drops_all _ (view_from [] l1)) by (intros e [? _]%elem_of_view_from; by apply HP).
  rewrite view_from_view, list_filter_filter. apply filter_ext. intros e _. split; [tauto|].
  intros He. split; [done|]. intros Hin. by eapply HP.
Qed.

Lemma view_app_filter_l (P : list Z -> Prop) `{!forall u, Decision (P u)} l1 l2 :
  (forall u, u ∈ visible_keys l2 -> ~ P u) ->
  filter (fun e : entry => P e.1) (view (l1 ++ l2)) = filter (fun e : entry => P e.1) (view l1).
Proof.
  intros HP. unfold view. rewrite view_from_app, app_nil_r, list.filter_app.
  rewrite (filter_drops_all _ (view_from (visible_keys l1) l2)) by (intros e [? _]%elem_of_view_from; by apply HP).
  by rewrite app_nil_r.
Qed.

(** ** Sorted entries *)

Definition sorted_entries es : Prop := StronglySorted internal_lt es.*1.

(** The entries before a target are a prefix. *)
Lemma sorted_entries_before t es : sorted_entries es ->
  StronglySorted (fun a b : entry => internal_lt b.1 t -> internal_lt a.1 t) es.
Proof.
  induction es as [|e es IH]; [constructor|]. unfold sorted_entries. rewrite fmap_cons.
  intros [Hs Hf]%StronglySorted_inv. constructor; [by apply IH|]. rewrite List.Forall_forall in Hf |- *.
  intros b Hb. apply internal_lt_trans, Hf, List.in_map, Hb.
Qed.

Lemma sorted_entries_app l1 l2 a b : sorted_entries (l1 ++ l2) -> a ∈ l1 -> b ∈ l2 -> internal_lt a.1 b.1.
Proof.
  unfold sorted_entries. rewrite fmap_app. intros Hs Ha Hb.
  eapply (StronglySorted_app_1_elem_of internal_lt); [exact Hs|..]; apply list_elem_of_fmap; eauto.
Qed.

Lemma sorted_entries_suffix l1 l2 : sorted_entries (l1 ++ l2) -> sorted_entries l2.
Proof. unfold sorted_entries. rewrite fmap_app. apply StronglySorted_app_1_r. Qed.

Lemma sorted_entries_prefix l1 l2 : sorted_entries (l1 ++ l2) -> sorted_entries l1.
Proof. unfold sorted_entries. rewrite fmap_app. apply StronglySorted_app_1_l. Qed.

Lemma visible_keys_sorted l1 l2 a b : sorted_entries (l1 ++ l2) -> a ∈ visible_keys l1 -> b ∈ visible_keys l2 ->
  ~ lt_key b a.
Proof.
  intros Hs (e1 & k1 & He1 & E1 & ->)%elem_of_visible_keys (e2 & k2 & He2 & E2 & ->)%elem_of_visible_keys.
  rewrite (visible_ukey _ _ E1), (visible_ukey _ _ E2). by eapply internal_lt_ukey, sorted_entries_app.
Qed.

Lemma visible_key e k l : e ∈ l -> visible e = Some k -> user_key k ∈ visible_keys l.
Proof. intros He E. apply elem_of_visible_keys. eauto. Qed.

Lemma view_from_sorted S l : sorted_entries l -> sorted_keys (view_from S l).
Proof.
  revert S. induction l as [|e l IH]; intros S Hs; [constructor|]. simpl.
  assert (sorted_entries l) as Hs' by apply (sorted_entries_suffix [e] l Hs).
  destruct (visible e) as [k|] eqn:E; [|by apply IH]. case_decide; [by apply IH|].
  case_decide; [|by apply IH]. cbn [app]. apply sorted_keys_cons. split; [|by apply IH].
  intros e' [Hk Hn]%elem_of_view_from.
  assert (~ lt_key e'.1 (user_key k)) as Hlt.
  { apply (visible_keys_sorted [e] l); [done| |done]. eapply visible_key; [by apply list_elem_of_singleton|done]. }
  destruct (lt_key_total (user_key k) e'.1) as [|[Heq|]]; [done| |done]. destruct Hn. rewrite Heq. by left.
Qed.

Lemma length_view_from S l : (length (view_from S l) <= length l)%nat.
Proof.
  revert S. induction l as [|e l IH]; intros S; [done|]. simpl. destruct (visible e) as [k|].
  - destruct (decide (user_key k ∈ S)); [specialize (IH S); lia|]. specialize (IH (user_key k :: S)).
    rewrite length_app. destruct (decide (type k = kTypeValue)); cbn [length]; lia.
  - specialize (IH S). lia.
Qed.

Lemma view_sorted l : sorted_entries l -> sorted_keys (view l).
Proof. apply view_from_sorted. Qed.

(** ** The newest visible entry of a key *)

Definition newest (u : list Z) es : option (ValueType * list Z) :=
  head (omap (fun e => k ← visible e; if decide (user_key k = u) then Some (type k, e.2) else None) es).

Lemma newest_cons u e l : newest u (e :: l) =
  match visible e with
  | Some k => if decide (user_key k = u) then Some (type k, e.2) else newest u l
  | None => newest u l
  end.
Proof. unfold newest. cbn [omap list_omap]. destruct (visible e) as [k|]; [|done]. simpl. by case_decide. Qed.

Lemma newest_app u l1 l2 : newest u (l1 ++ l2) = match newest u l1 with Some r => Some r | None => newest u l2 end.
Proof. unfold newest. rewrite omap_app. by destruct (omap _ l1). Qed.

Lemma view_from_newest S u v l : (u, v) ∈ view_from S l <-> u ∉ S /\ newest u l = Some (kTypeValue, v).
Proof.
  revert S. induction l as [|e l IH]; intros S; unfold newest; cbn [view_from omap list_omap].
  { split; [by intros ?%elem_of_nil|by intros [_ ?]]. }
  destruct (visible e) as [k|]; [|apply IH]. simpl. fold (newest u l).
  destruct (decide (user_key k = u)) as [<-|Hu]; simpl.
  - case_decide as HS; [rewrite IH; naive_solver|]. rewrite elem_of_app, IH, not_elem_of_cons.
    case_decide as Ht; rewrite ?elem_of_nil, ?list_elem_of_singleton.
    + rewrite Ht. split; [intros [[= ->]|[[]?]]; done|]. intros [_ [= ->]]. by left.
    + split; [intros [[]|[[]?]]; done|]. intros [_ [= ? _]]. done.
  - fold (newest u l). case_decide as HS; [apply IH|]. rewrite elem_of_app, IH, not_elem_of_cons.
    case_decide as Ht; rewrite ?elem_of_nil, ?list_elem_of_singleton; [|naive_solver].
    split; [intros [[= E _]|?]; [by destruct Hu|tauto]|]. intros [? ?]. right. naive_solver.
Qed.
End view.
