(* ===== verification/DbIterProps.v ===== *)
(** * The database iterator implements its view ([leveldb-library/db/db_iter.cc])

    The iterator of [DbIter.v] is an implementation of the iterator interface for
    the entries of [view], whatever the internal iterator that implements the
    interface for the internal entries; and a forward scan reads the view and
    reports corrupted keys. *)

From Stdlib Require Import String Sorting.Sorted.
From stdpp Require Import base list sorting.
From S2P Require Import Prelude Cursor Coding DbFormat DbIter DbIterView.

Section refinement.
Context `{ComparatorLaws} `{Coding} `{!InternalKeyFormat, !InternalKeyFormatLaws}.
Context {I} `{!Iterator I} {R} `{!Random R, !RandomLaws R}.
Context (seq : Z) (es : list entry) (at_ : I -> option nat -> Prop).

(** The internal entries: sorted, with room for a tag and of a reasonable size. *)
Definition entry_ok (e : entry) : Prop :=
  (8 <= length e.1)%nat /\ Z.of_nat (length e.1) + Z.of_nat (length e.2) < 2 ^ 62.

Context (Hsorted : sorted_entries es) (Hentries : Forall entry_ok es)
  (Hlaws : IteratorLaws internal_before es at_).

Abbreviation visible := (visible seq).
Abbreviation view := (view seq).
Abbreviation iter := (@DBIter I R).
Implicit Types st : iter.

(** What every operation keeps. *)
Definition good st : Prop := sequence_ st = seq /\ 0 <= bytes_until_read_sampling_ st < 2 ^ 63.

(** ** Reading an entry *)

Lemma sample_loop_ok n k bytes_read st : good st -> bytes_read < 2 ^ 62 ->
  (Z.to_nat (bytes_read - bytes_until_read_sampling_ st) * S (max_gap (R := R)) + gap (rnd_ st) < n)%nat ->
  exists r m ss, sample_loop n k bytes_read st = Some (with_sampling r m ss st) /\ bytes_read <= m < 2 ^ 63.
Proof using RandomLaws0.
  intros [Hs Hg]. revert st Hs Hg. induction n as [|n IH]; intros st Hs Hg Hb Hn; [lia|]. cbn [sample_loop].
  destruct (Z.ltb_spec (bytes_until_read_sampling_ st) bytes_read) as [Hlt|Hge].
  2: { exists (rnd_ st), (bytes_until_read_sampling_ st), (samples st). split; [by destruct st|lia]. }
  unfold RandomCompactionPeriod, kReadBytesPeriod.
  pose proof (Uniform_range (rnd_ st) (2 * 1048576) ltac:(lia)) as Hr.
  pose proof (Uniform_gap (rnd_ st) (2 * 1048576) ltac:(lia)) as Hgap.
  destruct (Uniform (rnd_ st) (2 * 1048576)) as [period r]. cbn [fst snd] in *.
  rewrite wrap_small by (unfold is_u; lia).
  pose proof (gap_max r) as Hmax.
  destruct (IH (with_sampling r (bytes_until_read_sampling_ st + period) (samples st ++ [k]) st))
    as (r' & m & ss & E & Hm); cbn [sequence_ bytes_until_read_sampling_ rnd_ with_sampling]; [done|lia|done| |].
  - destruct Hgap as [Hp|Hgap].
    + assert (Z.to_nat (bytes_read - (bytes_until_read_sampling_ st + period)) <
        Z.to_nat (bytes_read - bytes_until_read_sampling_ st))%nat by lia. nia.
    + assert (Z.to_nat (bytes_read - (bytes_until_read_sampling_ st + period)) <=
        Z.to_nat (bytes_read - bytes_until_read_sampling_ st))%nat by lia. nia.
  - exists r', m, ss. rewrite E. by destruct st.
Qed.

Definition parses (e : entry) : Prop := is_Some (ParseInternalKey e.1).

Lemma parse_visible_ok st p e : good st -> at_ (iter_ st) (Some p) -> es !! p = Some e ->
  exists r m ss s, parse_visible st = Some (visible e, with_sampling r m ss (with_status s st)) /\
    0 <= m < 2 ^ 63 /\ (s = Ok <-> status_ st = Ok /\ parses e).
Proof using Hentries Hlaws RandomLaws0.
  intros Hg Hat He. destruct e as [k v]. destruct (at_entry _ _ _ Hlaws _ _ _ _ Hat He) as [Ek Ev].
  assert (entry_ok (k, v)) as [Hk Hkv] by (eapply Forall_lookup_1; eauto). cbn [fst snd] in Hk, Hkv.
  unfold parse_visible, ParseKey. rewrite Ek, Ev. cbn [mbind option_bind].
  rewrite (wrap_small 64) by (unfold is_u; lia).
  edestruct (sample_loop_ok (S (Z.to_nat (Z.of_nat (length k) + Z.of_nat (length v))) * S (max_gap (R := R))) k
    (Z.of_nat (length k) + Z.of_nat (length v)) st) as (r & m & ss & E & Hm); [done|lia| |].
  { pose proof (gap_max (rnd_ st)). destruct Hg as [_ Hg].
    assert (Z.to_nat (Z.of_nat (length k) + Z.of_nat (length v) - bytes_until_read_sampling_ st) <=
      Z.to_nat (Z.of_nat (length k) + Z.of_nat (length v)))%nat by lia. nia. }
  rewrite E. cbn [mbind option_bind bytes_until_read_sampling_ with_sampling assert_].
  rewrite (proj2 (Z.leb_le _ _) (proj1 Hm)). cbn [mbind option_bind assert_].
  rewrite wrap_small by (unfold is_u; lia).
  unfold parses, DbIterView.visible. cbn [fst].
  destruct (ParseInternalKey k) as [ik|]; simpl.
  - destruct Hg as [<- _]. eexists _, _, _, (status_ st). split; [by destruct st|]. split; [lia|]. naive_solver.
  - exists r, (m - (Z.of_nat (length k) + Z.of_nat (length v))), ss,
      (Corruption "corrupted internal key in DBIter").
    split; [by destruct st|]. split; [lia|]. split; [done|]. intros [_ [? ?]]. done.
Qed.
(** ** Moving forward *)

(** What is left to show of the entries when the keys up to [skip] are skipped. *)
Definition past (skipping : bool) (skip : list Z) (e : entry) : Prop := skipping = true -> lt_key skip e.1.

#[local] Instance past_dec skipping skip e : Decision (past skipping skip e).
Proof using. unfold past. apply _. Defined.

Definition all_parse (a b : nat) : Prop := forall j e, (a <= j < b)%nat -> es !! j = Some e -> parses e.

(** The internal entry [p] yields the pair [kv]. *)
Definition shows (p : nat) (kv : entry) : Prop := exists e ik,
  es !! p = Some e /\ visible e = Some ik /\ type ik = kTypeValue /\ kv = (user_key ik, e.2).

(** [st'] is where a scan from entry [p] ends that finds [r]. *)
Definition found st (p : nat) st' (r : option entry) : Prop :=
  good st' /\ direction_ st' = kForward /\ valid_ st' = bool_decide (is_Some r) /\
  exists q, at_ (iter_ st') q /\
    (status_ st' = Ok <-> status_ st = Ok /\ all_parse p (from_option S (length es) q)) /\
    match q, r with Some q, Some kv => (p <= q)%nat /\ shows q kv | None, None => True | _, _ => False end.

Lemma view_head_deletion e ik l skipping skip :
  sorted_entries (e :: l) -> visible e = Some ik -> type ik = kTypeDeletion ->
  (skipping = true -> ~ lt_key (user_key ik) skip) ->
  filter (past skipping skip) (view (e :: l)) = filter (past true (user_key ik)) (view l).
Proof using H0.
  intros Hs E Ht Hskip. unfold DbIterView.view at 1. cbn [view_from]. rewrite E, Ht.
  rewrite decide_False by apply not_elem_of_nil. cbn [app decide]. rewrite decide_False by done.
  rewrite app_nil_l, view_from_view, list_filter_filter. apply filter_ext. intros e' He'.
  apply elem_of_view_from in He' as [Hk _]. unfold past.
  assert (~ lt_key e'.1 (user_key ik)) as Hle.
  { eapply (visible_keys_sorted seq [e] l); [done| |done]. eapply visible_key; [by apply list_elem_of_singleton|done]. }
  rewrite list_elem_of_singleton. split.
  - intros [_ Hne] _. destruct (lt_key_total (user_key ik) e'.1) as [|[?|]]; [done|congruence|done].
  - intros Hlt. specialize (Hlt eq_refl). split; [|intros Heq; rewrite Heq in Hlt; by apply lt_key_irrefl in Hlt].
    intros Hsk. eapply le_lt_key_trans; [by apply Hskip|done].
Qed.

Lemma view_head_hidden e ik l skip : visible e = Some ik -> type ik = kTypeValue -> user_key ik = skip ->
  filter (past true skip) (view (e :: l)) = filter (past true skip) (view l).
Proof using H0.
  intros E Ht Hu. unfold DbIterView.view at 1. cbn [view_from]. rewrite E, Ht, Hu.
  rewrite decide_False by apply not_elem_of_nil. rewrite decide_True by done. cbn [app].
  rewrite filter_cons, decide_False by (intros Hp; by apply (lt_key_irrefl skip), Hp).
  rewrite view_from_view, list_filter_filter. apply filter_ext. intros e' He'. unfold past.
  rewrite list_elem_of_singleton. split; [tauto|]. intros Hp. split; [done|]. intros Heq.
  specialize (Hp eq_refl). rewrite Heq in Hp. by apply lt_key_irrefl in Hp.
Qed.

Lemma view_head_shown e ik l skipping skip : visible e = Some ik -> type ik = kTypeValue ->
  past skipping skip (user_key ik, e.2) ->
  head (filter (past skipping skip) (view (e :: l))) = Some (user_key ik, e.2).
Proof using.
  intros E Ht Hp. unfold DbIterView.view. cbn [view_from]. rewrite E, Ht.
  rewrite decide_False by apply not_elem_of_nil. rewrite decide_True by done. cbn [app].
  by rewrite filter_cons, decide_True.
Qed.

Lemma view_head_invisible e l : visible e = None -> view (e :: l) = view l.
Proof using. intros E. unfold DbIterView.view. cbn [view_from]. by rewrite E. Qed.
Lemma all_parse_cons a b e : es !! a = Some e -> (a < b)%nat -> all_parse a b <-> parses e /\ all_parse (S a) b.
Proof using.
  intros He Hab. split.
  - intros Hp. split; [apply (Hp a); [lia|done]|]. intros j e' Hj. apply Hp. lia.
  - intros [Hp Hps] j e' Hj Hj'. destruct (decide (j = a)) as [->|]; [congruence|]. apply (Hps j); [lia|done].
Qed.

(** One step of the loop past an entry that is not shown. *)
Lemma find_next_go n skipping st st2 p e r :
  (forall st3, good st3 -> direction_ st3 = kForward -> at_ (iter_ st3) (Some (S p)) ->
    saved_key_ st3 = saved_key_ st2 ->
    exists st', find_next_loop n skipping st3 = Some st' /\
      found st3 (S p) st' (head (filter (past skipping (saved_key_ st2)) (view (drop (S p) es))))) ->
  good st2 -> direction_ st2 = kForward -> at_ (iter_ st2) (Some p) -> es !! p = Some e ->
  (status_ st2 = Ok <-> status_ st = Ok /\ parses e) ->
  head (filter (past skipping (saved_key_ st2)) (view (drop (S p) es))) = r ->
  exists st', (it ← it_Next (iter_ st2); let st3 := with_iter it st2 in
    if it_Valid it then find_next_loop n skipping st3 else Some (with_valid false (SaveKey [] st3))) = Some st' /\
    found st p st' r.
Proof using Hlaws.
  intros IH Hg Hd Hat He Hst <-. destruct (at_Next _ _ _ Hlaws _ _ Hat) as (it & -> & Hit).
  cbn [mbind option_bind]. rewrite (at_Valid _ _ _ Hlaws _ _ Hit). unfold position in *. case_decide as Hp.
  - rewrite bool_decide_true by done.
    destruct (IH (with_iter it st2)) as (st' & E & Hg' & Hd' & Hv & q & Hq & Hs & Hr); [done..|].
    exists st'. split; [done|]. do 3 (split; [done|]). exists q. split; [done|]. split.
    + rewrite Hs. cbn [status_ with_iter]. rewrite Hst, (all_parse_cons p _ e He); [tauto|].
      apply lookup_lt_Some in He. destruct q as [q|]; simpl; [|lia].
      case_match; [|done]. lia.
    + case_match; [|done]. case_match; [|done]. destruct Hr. split; [lia|done].
  - rewrite bool_decide_false by by intros []. eexists. split; [done|]. rewrite drop_ge by lia.
    do 3 (split; [done|]). exists None. split; [done|]. split; [|done]. cbn [status_ with_valid SaveKey with_iter].
    rewrite Hst, (all_parse_cons p _ e He) by (apply lookup_lt_Some in He; simpl; lia). simpl.
    split; [|tauto]. intros [? ?]. split_and!; try done. intros j e' Hj Hj'. apply lookup_lt_Some in Hj'. lia.
Qed.

Lemma find_next_ok n skipping st p : good st -> direction_ st = kForward -> at_ (iter_ st) (Some p) ->
  (length es - p < n)%nat ->
  (skipping = true -> forall u, u ∈ visible_keys seq (drop p es) -> ~ lt_key u (saved_key_ st)) ->
  exists st', find_next_loop n skipping st = Some st' /\
    found st p st' (head (filter (past skipping (saved_key_ st)) (view (drop p es)))).
Proof using H0 Hentries Hlaws Hsorted RandomLaws0.
  revert skipping st p. induction n as [|n IH]; intros skipping st p Hg Hd Hat Hn Hskip; [lia|].
  assert (exists e, es !! p = Some e) as [e He] by (apply lookup_lt_is_Some, (at_range _ _ _ Hlaws _ _ Hat)).
  assert (p < length es)%nat as Hp by by apply lookup_lt_Some in He.
  assert (sorted_entries (e :: drop (S p) es)) as Hs.
  { rewrite <- (drop_S _ _ _ He). apply (sorted_entries_suffix (take p es)). by rewrite take_drop. }
  rewrite (drop_S _ _ _ He) in *.
  destruct (parse_visible_ok _ _ _ Hg Hat He) as (r & m & ss & s & E & Hm & Hst).
  assert (forall u, u ∈ visible_keys seq (drop (S p) es) -> u ∈ visible_keys seq (e :: drop (S p) es)) as Hsub.
  { intros u. unfold visible_keys. cbn [omap list_omap]. destruct (_ <$> _); [by right|done]. }
  assert (forall k, visible e = Some k -> user_key k ∈ visible_keys seq (e :: drop (S p) es)) as Hhd.
  { intros k Hk. eapply visible_key; [by left|done]. }
  assert (good (with_sampling r m ss (with_status s st))) as Hg1 by (destruct Hg; split; [done|apply Hm]).
  cbn [find_next_loop]. unfold find_next_turn. rewrite E. cbn [mbind option_bind].
  destruct (visible e) as [ik|] eqn:Ev; [destruct (type ik) eqn:Et|].
  - apply (find_next_go _ _ _ _ _ e); try done; [|cbn [saved_key_ SaveKey]; by rewrite <- (view_head_deletion e ik _ skipping (saved_key_ st)) by auto].
    intros st3 Hg3 Hd3 Hat3 Hk3. rewrite <- Hk3. apply IH; try done; [lia|].
    intros _ u Hu. rewrite Hk3. cbn [saved_key_ SaveKey].
    apply (visible_keys_sorted seq [e] (drop (S p) es)); [done| |done]. eapply visible_key; [by apply list_elem_of_singleton|done].
  - cbn [saved_key_ with_sampling with_status].
    destruct (skipping && (Compare (user_key ik) (saved_key_ st) <=? 0)) eqn:Eh.
    + apply andb_true_iff in Eh as [-> Hle%Z.leb_le%Compare_le].
      apply (find_next_go _ _ _ _ _ e); try done.
      * intros st3 Hg3 Hd3 Hat3 Hk3. rewrite <- Hk3. apply IH; try done; [lia|].
        intros _ u Hu. rewrite Hk3. by apply Hskip, Hsub.
      * cbn [saved_key_ with_sampling with_status]. rewrite (view_head_hidden e ik _ (saved_key_ st)); try done.
        destruct (lt_key_total (user_key ik) (saved_key_ st)) as [Hlt|[|]]; [|done|done].
        destruct (Hskip eq_refl _ (Hhd _ eq_refl) Hlt).
    + eexists. split; [done|]. rewrite (view_head_shown e ik); [|done|done|].
      * do 3 (split; [done|]). exists (Some p). split; [done|]. split.
        { cbn [status_ with_valid SaveKey with_sampling with_status]. rewrite Hst.
          simpl. rewrite (all_parse_cons p _ e He) by lia. split; [|tauto]. intros [? ?]. split_and!; try done.
          intros j e' Hj. lia. }
        split; [done|]. by exists e, ik.
      * intros ->. apply andb_false_iff in Eh as [|Eh%Z.leb_gt]; [done|]. by apply Compare_gt.
  - apply (find_next_go _ _ _ _ _ e); try done; [|by rewrite (view_head_invisible e)].
    intros st3 Hg3 Hd3 Hat3 Hk3. rewrite <- Hk3. apply IH; try done; [lia|].
    intros Hsk u Hu. rewrite Hk3. by apply Hskip, Hsub.
Qed.
(** ** Moving backward *)

(** What the loop has found in the entries [l] it has read. *)
Definition read_back (value_type : ValueType) st (l : list entry) : Prop :=
  match value_type with
  | kTypeDeletion => view l = []
  | kTypeValue => view l = [(saved_key_ st, saved_value_ st)] /\
      forall u, u ∈ visible_keys seq l -> ~ lt_key u (saved_key_ st)
  end.

(** The entries at and before a position. *)
Definition upto (q : option nat) : list entry := take (from_option S 0%nat q) es.

Definition read_done st (l : list entry) (value_type : ValueType) st' : Prop :=
  good st' /\ direction_ st' = direction_ st /\ exists q l2, at_ (iter_ st') q /\ l = upto q ++ l2 /\
    read_back value_type st' l2 /\
    match value_type with
    | kTypeDeletion => q = None
    | kTypeValue => forall u, u ∈ visible_keys seq (upto q) -> lt_key u (saved_key_ st')
    end.

Lemma read_back_cons e ik l value_type st : sorted_entries (e :: l) -> visible e = Some ik ->
  read_back value_type st l -> (value_type <> kTypeDeletion -> ~ lt_key (user_key ik) (saved_key_ st)) ->
  view (e :: l) = if decide (type ik = kTypeValue) then [(user_key ik, e.2)] else [].
Proof using H0.
  intros Hs E Hr Hle. unfold DbIterView.view. cbn [view_from]. rewrite E, decide_False by apply not_elem_of_nil.
  rewrite view_from_view. replace (filter _ _) with (@nil entry); [by case_decide|]. symmetry. unfold read_back in Hr.
  destruct value_type; [by rewrite Hr|]. destruct Hr as [Hv _].
  assert ((saved_key_ st, saved_value_ st) ∈ view l) as [Hin _]%elem_of_view_from by (rewrite Hv; by left).
  assert (~ lt_key (saved_key_ st) (user_key ik)) as Hge.
  { apply (visible_keys_sorted seq [e] l); [done| |done]. eapply visible_key; [by apply list_elem_of_singleton|done]. }
  rewrite Hv. apply filter_drops_all. intros e' ->%list_elem_of_singleton. cbn [fst]. rewrite list_elem_of_singleton.
  intros Hne. specialize (Hle ltac:(done)).
  by destruct (lt_key_total (saved_key_ st) (user_key ik)) as [Hlt|[|Hlt]].
Qed.

Lemma visible_keys_app l1 l2 : visible_keys seq (l1 ++ l2) = visible_keys seq l1 ++ visible_keys seq l2.
Proof using. apply omap_app. Qed.

Lemma visible_keys_singleton e u : u ∈ visible_keys seq [e] <-> exists k, visible e = Some k /\ u = user_key k.
Proof using.
  rewrite elem_of_visible_keys. split; [|intros (k & ? & ?); exists e, k; by rewrite list_elem_of_singleton].
  intros (e' & k & ->%list_elem_of_singleton & ? & ?). eauto.
Qed.

(** One entry that does not end the scan. *)
Lemma find_prev_go n value_type st st2 p e l :
  (forall st3, good st3 -> at_ (iter_ st3) (Some (pred p)) -> (0 < p)%nat -> saved_key_ st3 = saved_key_ st2 ->
    saved_value_ st3 = saved_value_ st2 -> direction_ st3 = direction_ st2 ->
    exists vt st', find_prev_loop n value_type st3 = Some (vt, st') /\ read_done st3 (take p es ++ e :: l) vt st') ->
  good st2 -> direction_ st2 = direction_ st -> at_ (iter_ st2) (Some p) -> es !! p = Some e ->
  read_back value_type st2 (e :: l) ->
  exists vt st', (it ← it_Prev (iter_ st2); let st3 := with_iter it st2 in
    if it_Valid it then find_prev_loop n value_type st3 else Some (value_type, st3)) = Some (vt, st') /\
    read_done st (take (S p) es ++ l) vt st'.
Proof using Hlaws.
  intros IH Hg Hd Hat He Hr. destruct (at_Prev _ _ _ Hlaws _ _ Hat) as (it & -> & Hit).
  cbn [mbind option_bind]. rewrite (at_Valid _ _ _ Hlaws _ _ Hit).
  replace (take (S p) es ++ l) with (take p es ++ e :: l) by by rewrite (take_S_r _ _ _ He), <- app_assoc.
  destruct p as [|p].
  - rewrite bool_decide_false by by intros []. eexists _, _. split; [done|]. split; [done|]. split; [done|].
    exists None, (e :: l). do 2 (split; [done|]). split; [by destruct value_type|].
    destruct value_type; [done|]. intros u. unfold upto. simpl. by intros ?%elem_of_nil.
  - rewrite bool_decide_true by done. destruct (IH (with_iter it st2)) as (vt & st' & E & Hg' & Hd' & Hrest); try done.
    { simpl. lia. }
    exists vt, st'. split; [done|]. split; [done|]. split; [|done]. rewrite Hd'. by rewrite <- Hd.
Qed.

Lemma find_prev_ok n value_type st p l : good st -> at_ (iter_ st) (Some p) -> (p < n)%nat ->
  sorted_entries (take (S p) es ++ l) -> read_back value_type st l ->
  exists vt st', find_prev_loop n value_type st = Some (vt, st') /\ read_done st (take (S p) es ++ l) vt st'.
Proof using H0 Hentries Hlaws RandomLaws0.
  revert value_type st p l. induction n as [|n IH]; intros value_type st p l Hg Hat Hn Hs Hr; [lia|].
  assert (exists e, es !! p = Some e) as [e He] by (apply lookup_lt_is_Some, (at_range _ _ _ Hlaws _ _ Hat)).
  destruct (parse_visible_ok _ _ _ Hg Hat He) as (r & m & ss & s & E & Hm & _).
  assert (good (with_sampling r m ss (with_status s st))) as Hg1 by (destruct Hg; split; [done|apply Hm]).
  assert (take (S p) es ++ l = take p es ++ e :: l) as Etake by by rewrite (take_S_r _ _ _ He), <- app_assoc.
  assert (sorted_entries (e :: l)) as Hs' by (apply (sorted_entries_suffix (take p es)); by rewrite <- Etake).
  assert (forall value_type' st2, good st2 -> direction_ st2 = direction_ st -> iter_ st2 = iter_ st ->
    read_back value_type' st2 (e :: l) ->
    exists vt st', (it ← it_Prev (iter_ st2); let st3 := with_iter it st2 in
      if it_Valid it then find_prev_loop n value_type' st3 else Some (value_type', st3)) = Some (vt, st') /\
      read_done st (take (S p) es ++ l) vt st') as Hgo.
  { intros vt' st2 Hg2 Hd2 Hi2 Hr2. apply (find_prev_go _ _ _ _ _ e); try done; [|by rewrite Hi2].
    intros st3 Hg3 Hat3 Hp Hk Hv Hd3. destruct p as [|p]; [lia|]. apply IH; try done; [lia|by rewrite <- Etake|].
    unfold read_back in *. by rewrite Hk, Hv. }
  assert (forall u, visible e = None -> u ∈ visible_keys seq (e :: l) -> u ∈ visible_keys seq l) as Hinv.
  { intros u Hv. unfold visible_keys. cbn [omap list_omap]. by rewrite Hv. }
  cbn [find_prev_loop]. unfold find_prev_turn. rewrite E. cbn [mbind option_bind].
  destruct (visible e) as [ik|] eqn:Ev.
  2: { cbn [mbind option_bind]. apply Hgo; try done. unfold read_back in *. rewrite (view_head_invisible e) by done.
       destruct value_type; [done|]. destruct Hr as [? Hk]. split; [done|]. intros u Hu. by apply Hk, Hinv. }
  cbn [saved_key_ with_sampling with_status].
  destruct (bool_decide (value_type <> kTypeDeletion) && (Compare (user_key ik) (saved_key_ st) <? 0)) eqn:Eb.
  - apply andb_true_iff in Eb as [Hvt%bool_decide_eq_true_1 Hlt%Z.ltb_lt]. fold (lt_key (user_key ik) (saved_key_ st)) in Hlt.
    cbn [mbind option_bind]. eexists _, _. split; [done|]. split; [done|]. split; [done|].
    exists (Some p), l. split; [done|]. split; [done|]. split; [by destruct value_type|].
    destruct value_type; [done|]. unfold upto. simpl from_option. rewrite (take_S_r _ _ _ He), visible_keys_app.
    intros u [Hu|(k & Hk & ->)%visible_keys_singleton]%elem_of_app; [|rewrite Ev in Hk; by injection Hk as ->].
    eapply le_lt_key_trans; [|done]. apply (visible_keys_sorted seq (take p es) (e :: l)); [by rewrite <- Etake|done|].
    eapply visible_key; [by left|done].
  - assert (value_type <> kTypeDeletion -> ~ lt_key (user_key ik) (saved_key_ st)) as Hle.
    { intros Hvt. rewrite bool_decide_true in Eb by done. simpl in Eb. apply Z.ltb_ge in Eb. by apply Compare_ge. }
    pose proof (read_back_cons e ik l value_type st Hs' Ev Hr Hle) as Hview.
    assert (forall u, u ∈ visible_keys seq (e :: l) -> ~ lt_key u (user_key ik)) as Hmin.
    { intros u. change (e :: l) with ([e] ++ l). rewrite visible_keys_app.
      intros [(k & Hk & ->)%visible_keys_singleton|Hu]%elem_of_app.
      - rewrite Ev in Hk. injection Hk as ->. apply lt_key_irrefl.
      - apply (visible_keys_sorted seq [e] l); [done| |done]. apply visible_keys_singleton. eauto. }
    destruct e as [k v]. destruct (at_entry _ _ _ Hlaws _ _ _ _ Hat He) as [Ek Evv].
    destruct (type ik) eqn:Et.
    + by apply Hgo.
    + cbn [iter_ with_sampling with_status]. rewrite Evv, Ek. cbn [mbind option_bind].
      assert (entry_ok (k, v)) as [Hk _] by (eapply Forall_lookup_1; eauto).
      rewrite ExtractUserKey_ok by done. cbn [mbind option_bind].
      pose proof (visible_ukey _ _ _ Ev) as Hu. cbn [fst snd] in *. rewrite <- Hu.
      by apply Hgo.
Qed.

(** What a backward search over the entries [l] ends in. *)
Lemma read_done_view st l value_type st' : read_done st l value_type st' -> sorted_entries l ->
  list.last (view l) = match value_type with kTypeDeletion => None | kTypeValue => Some (saved_key_ st', saved_value_ st') end.
Proof using H0.
  intros (_ & _ & q & l2 & _ & -> & Hr & Hq) Hs. unfold read_back in Hr. destruct value_type.
  { rewrite Hq. unfold upto. cbn [from_option]. by rewrite take_0, app_nil_l, Hr. }
  destruct Hr as [Hv _]. unfold DbIterView.view. rewrite view_from_app, app_nil_r, (view_from_view _ (visible_keys seq (upto q))), Hv.
  rewrite filter_cons, decide_True; [by rewrite filter_nil, last_snoc|]. cbn [fst].
  intros Hin. by apply Hq, lt_key_irrefl in Hin.
Qed.

(** ** The positions of the database iterator *)

Context (fuel : nat) (Hfuel : (length es < fuel)%nat).

(** [dbiter_at st p]: the iterator is positioned at the entry [p] of the view.
    Moving forward, the internal iterator is at the entry shown; moving
    backward it is before the visible entries of the key that is shown. *)
Definition dbiter_at st (p : option nat) : Prop :=
  good st /\
  match p with
  | None => valid_ st = false /\ exists q, at_ (iter_ st) q
  | Some i => valid_ st = true /\ exists kv, view es !! i = Some kv /\
      match direction_ st with
      | kForward => exists q, at_ (iter_ st) (Some q) /\ shows q kv
      | kReverse => kv = (saved_key_ st, saved_value_ st) /\
          exists q l, at_ (iter_ st) q /\ es = upto q ++ l /\
            (forall u, u ∈ visible_keys seq (upto q) -> lt_key u kv.1) /\
            (forall u, u ∈ visible_keys seq l -> ~ lt_key u kv.1)
      end
  end.

Lemma view_es_sorted : sorted_keys (view es).
Proof using H0 Hsorted. by apply view_sorted. Qed.

(** A found entry is the one at the index that counts the view before it. *)
Lemma found_at st p st' i : found st p st' (view es !! i) -> dbiter_at st' (position (view es) i).
Proof using.
  intros (Hg & Hd & Hv & q & Hq & _ & Hm). unfold position, dbiter_at. split; [done|].
  destruct (view es !! i) as [kv|] eqn:E.
  - rewrite decide_True by by apply lookup_lt_Some in E. destruct q as [q|]; [|done]. destruct Hm as [_ Hs].
    split; [done|]. exists kv. split; [done|]. rewrite Hd. eauto.
  - apply lookup_ge_None in E. rewrite decide_False by by apply Nat.le_ngt. split; [done|]. eauto.
Qed.

Lemma FindNext_at skipping st p i : good st -> direction_ st = kForward -> at_ (iter_ st) (Some p) ->
  (skipping = true -> forall u, u ∈ visible_keys seq (drop p es) -> ~ lt_key u (saved_key_ st)) ->
  head (filter (past skipping (saved_key_ st)) (view (drop p es))) = view es !! i ->
  exists st', FindNextUserEntry fuel skipping st = Some st' /\ found st p st' (view es !! i).
Proof using H0 Hentries Hfuel Hlaws Hsorted RandomLaws0.
  intros Hg Hd Hat Hskip <-. unfold FindNextUserEntry. rewrite (at_Valid _ _ _ Hlaws _ _ Hat).
  rewrite !bool_decide_true by done. cbn [assert_ mbind option_bind]. apply find_next_ok; try done. lia.
Qed.

Lemma head_drop {A} (l : list A) i : head (drop i l) = l !! i.
Proof using. revert i. induction l as [|x l IH]; intros [|i]; try done. apply IH. Qed.

Lemma FindPrev_ok st q : good st -> direction_ st = kReverse -> at_ (iter_ st) q ->
  exists value_type st', FindPrevUserEntry fuel st = Some (match value_type with
    | kTypeDeletion => with_direction kForward (ClearSavedValue (SaveKey [] (with_valid false st')))
    | kTypeValue => with_valid true st' end) /\ read_done st (upto q) value_type st'.
Proof using H0 Hentries Hfuel Hlaws Hsorted RandomLaws0.
  intros Hg Hd Hat. unfold FindPrevUserEntry. rewrite bool_decide_true by done. cbn [assert_ mbind option_bind].
  rewrite (at_Valid _ _ _ Hlaws _ _ Hat). destruct q as [p|].
  - rewrite bool_decide_true by done. pose proof (at_range _ _ _ Hlaws _ _ Hat) as Hp.
    destruct (find_prev_ok fuel kTypeDeletion st p []) as (vt & st' & E & Hdone); [done|done|lia| |done|].
    { rewrite app_nil_r. apply (sorted_entries_prefix _ (drop (S p) es)). by rewrite take_drop. }
    exists vt, st'. rewrite app_nil_r in Hdone. split; [|done]. rewrite E. by destruct vt.
  - rewrite bool_decide_false by by intros []. exists kTypeDeletion, st. split; [done|].
    split; [done|]. split; [done|]. by exists None, [].
Qed.

(** Searching backward ends at the last entry of the view that comes before [l]. *)
Lemma FindPrev_at st q l i : good st -> direction_ st = kReverse -> at_ (iter_ st) q -> es = upto q ++ l ->
  view (upto q) = take i (view es) -> (i <= length (view es))%nat ->
  (forall u u', u ∈ visible_keys seq (upto q) -> u' ∈ visible_keys seq l -> lt_key u u') ->
  exists st', FindPrevUserEntry fuel st = Some st' /\ dbiter_at st' (match i with O => None | S j => Some j end).
Proof using H0 Hentries Hfuel Hlaws Hsorted RandomLaws0.
  intros Hg Hd Hat Hes Hview Hi Hl. destruct (FindPrev_ok st q Hg Hd Hat) as (vt & st' & -> & Hdone).
  eexists. split; [done|].
  assert (sorted_entries (upto q)) as Hs by (apply (sorted_entries_prefix _ l); by rewrite <- Hes).
  pose proof (read_done_view _ _ _ _ Hdone Hs) as Hlast. rewrite Hview in Hlast.
  destruct Hdone as (Hg' & Hd' & q' & l2 & Hq' & Hl2 & Hr & Hk). unfold dbiter_at.
  destruct vt.
  - destruct i as [|i]; [by eauto|]. exfalso. apply list.last_None in Hlast.
    apply (f_equal length) in Hlast. rewrite length_take in Hlast. cbn [length] in Hlast. lia.
  - destruct i as [|i]; [done|]. split; [done|]. split; [done|]. exists (saved_key_ st', saved_value_ st').
    destruct Hr as [Hv Hk2]. split.
    + rewrite list.last_lookup, length_take, Nat.min_l in Hlast by lia. cbn [pred] in Hlast.
      by rewrite lookup_take_lt in Hlast by lia.
    + cbn [direction_ with_valid]. rewrite Hd', Hd. split; [done|]. exists q', (l2 ++ l).
      split; [done|]. split; [by rewrite app_assoc, <- Hl2|]. split; [done|].
      intros u. rewrite visible_keys_app. intros [Hu|Hu]%elem_of_app; [by apply Hk2|]. apply lt_key_asym.
      apply Hl; [|done]. rewrite Hl2, visible_keys_app. apply elem_of_app. right.
      apply (elem_of_view_from seq (saved_key_ st', saved_value_ st') [] l2).
      change (view_from seq [] l2) with (view l2). rewrite Hv. by left.
Qed.

(** ** The operations *)

Lemma dbiter_at_inv st p : dbiter_at st p -> good st /\ exists q, at_ (iter_ st) q.
Proof using.
  intros [Hg Hp]. split; [done|]. destruct p as [i|]; [|by destruct Hp].
  destruct Hp as (_ & kv & _ & Hd). destruct (direction_ st); naive_solver.
Qed.

Lemma past_all skip (l : list entry) : filter (past false skip) l = l.
Proof using. by apply filter_keeps_all. Qed.

Lemma drop_sorted q : sorted_entries (drop q es).
Proof using Hsorted. apply (sorted_entries_suffix (take q es)). by rewrite take_drop. Qed.

Lemma SeekToFirst_at st p : dbiter_at st p ->
  exists st', DBIter_SeekToFirst fuel st = Some st' /\ dbiter_at st' (position (view es) 0).
Proof using H0 Hentries Hfuel Hlaws Hsorted RandomLaws0.
  intros [Hg [q Hq]]%dbiter_at_inv. unfold DBIter_SeekToFirst.
  destruct (at_SeekToFirst _ _ _ Hlaws _ _ Hq) as (it & E & Hit).
  cbn [iter_ ClearSavedValue with_saved_value with_direction]. rewrite E. cbn [mbind option_bind].
  rewrite (at_Valid _ _ _ Hlaws _ _ Hit).
  destruct (position_cases es 0) as [[Ep Hlen]|[Ep Hlen]]; rewrite Ep in *.
  - rewrite bool_decide_true by done. edestruct (FindNext_at false) as (st' & -> & Hf); try done.
    2: { eexists. split; [done|]. by eapply found_at. }
    rewrite drop_0, past_all. by destruct (view es).
  - rewrite bool_decide_false by by intros []. eexists. split; [done|]. split; [done|].
    assert (es = []) as -> by (destruct es; [done|simpl in Hlen; lia]). by split; [done|]; exists None.
Qed.

Lemma SeekToLast_at st p : dbiter_at st p ->
  exists st', DBIter_SeekToLast fuel st = Some st' /\ dbiter_at st' (position (view es) (pred (length (view es)))).
Proof using H0 Hentries Hfuel Hlaws Hsorted RandomLaws0.
  intros [Hg [q Hq]]%dbiter_at_inv. unfold DBIter_SeekToLast.
  destruct (at_SeekToLast _ _ _ Hlaws _ _ Hq) as (it & E & Hit).
  cbn [iter_ ClearSavedValue with_saved_value with_direction]. rewrite E. cbn [mbind option_bind].
  assert (upto (position es (pred (length es))) = es) as Hup.
  { unfold upto, position. case_decide; simpl; [apply take_ge; lia|]. destruct es; [done|simpl in *; lia]. }
  destruct (FindPrev_at (with_iter it (with_saved_value [] (with_direction kReverse st)))
    (position es (pred (length es))) [] (length (view es))) as (st' & E' & Hst'); try done.
  - by rewrite Hup, app_nil_r.
  - by rewrite Hup, firstn_all.
  - by intros u u' _ ?%elem_of_nil.
  - exists st'. split; [done|]. unfold position. destruct (length (view es)); simpl; [done|].
    by rewrite decide_True by lia.
Qed.

(** The entries after those that do not exceed an entry of the view. *)
Lemma view_after i kv n : view es !! i = Some kv ->
  (forall u, u ∈ visible_keys seq (take n es) -> ~ lt_key kv.1 u) ->
  head (filter (past true kv.1) (view (drop n es))) = view es !! S i.
Proof using H0 Hsorted.
  intros Hi Hn. rewrite <- head_drop. destruct kv as [k v].
  rewrite <- (sorted_filter_gt (view es) i k v view_es_sorted Hi).
  pose proof (view_app_filter seq (lt_key k) (take n es) (drop n es) Hn) as Hf. rewrite take_drop in Hf.
  rewrite Hf. f_equal. apply filter_ext. intros e _. unfold past. naive_solver.
Qed.

(** [Next] while moving forward, from the internal entry [q]. *)
Lemma Next_forward st i kv q : good st -> valid_ st = true -> direction_ st = kForward ->
  at_ (iter_ st) (Some q) -> shows q kv -> view es !! i = Some kv ->
  exists st', DBIter_Next fuel st = Some st' /\ found (SaveKey kv.1 st) q st' (view es !! S i).
Proof using H0 Hentries Hfuel Hlaws Hsorted RandomLaws0.
  intros Hg Hv Edir Hq (e & ik & He & Evis & Ht & ->) Hi. unfold DBIter_Next. rewrite Hv, Edir.
  cbn [assert_ mbind option_bind]. destruct e as [k v].
  destruct (at_entry _ _ _ Hlaws _ _ _ _ Hq He) as [-> _]. cbn [mbind option_bind fst snd] in *.
  assert (entry_ok (k, v)) as [Hk _] by (eapply Forall_lookup_1; eauto).
  rewrite ExtractUserKey_ok by done. cbn [mbind option_bind].
  pose proof (visible_ukey _ _ _ Evis) as Hu. cbn [fst] in Hu. rewrite <- Hu.
  assert (user_key ik ∈ visible_keys seq (drop q es)) as Hin.
  { rewrite (drop_S _ _ _ He). eapply visible_key; [by left|done]. }
  apply FindNext_at; try done.
  - intros _ u. rewrite (drop_S _ _ _ He). change ((k, v) :: drop (S q) es) with ([(k, v)] ++ drop (S q) es).
    rewrite visible_keys_app. intros [(ik' & Hk' & ->)%visible_keys_singleton|Hu']%elem_of_app.
    + rewrite Evis in Hk'. injection Hk' as <-. apply lt_key_irrefl.
    + apply (visible_keys_sorted seq [(k, v)] (drop (S q) es)); [|apply visible_keys_singleton; eauto|done].
      cbn [app]. rewrite <- (drop_S _ _ _ He). apply drop_sorted.
  - apply (view_after i _ q Hi). intros u Hu'.
    apply (visible_keys_sorted seq (take q es) (drop q es)); [by rewrite take_drop|done|done].
Qed.

Lemma Next_at st i : dbiter_at st (Some i) ->
  exists st', DBIter_Next fuel st = Some st' /\ dbiter_at st' (position (view es) (S i)).
Proof using H0 Hentries Hfuel Hlaws Hsorted RandomLaws0.
  intros (Hg & Hv & kv & Hi & Hd). destruct (direction_ st) eqn:Edir.
  - destruct Hd as (q & Hq & Hs). destruct (Next_forward st i kv q Hg Hv Edir Hq Hs Hi) as (st' & -> & Hf).
    eexists. split; [done|]. by eapply found_at.
  - destruct Hd as (-> & q & l & Hq & Hes & Hbefore & Hafter). cbn [fst] in *. unfold DBIter_Next.
    rewrite Hv, Edir. cbn [assert_ mbind option_bind iter_ with_direction]. rewrite (at_Valid _ _ _ Hlaws _ _ Hq).
    assert (l = drop (from_option S 0%nat q) es) as Hl.
    { rewrite Hes. unfold upto. rewrite drop_app_ge; rewrite length_take; [|lia].
      assert (from_option S 0%nat q <= length es)%nat by (destruct q; simpl; [by apply (at_range _ _ _ Hlaws _ _ Hq)|lia]).
      replace (_ - _)%nat with 0%nat by lia. by rewrite drop_0. }
    assert (exists it, (if negb (bool_decide (is_Some q)) then it_SeekToFirst (iter_ st) else it_Next (iter_ st)) = Some it /\
      at_ it (position es (from_option S 0%nat q))) as (it & -> & Hit).
    { destruct q as [q|]; [rewrite bool_decide_true by done; by apply (at_Next _ _ _ Hlaws)|].
      rewrite bool_decide_false by by intros []. by eapply (at_SeekToFirst _ _ _ Hlaws). }
    cbn [mbind option_bind]. rewrite (at_Valid _ _ _ Hlaws _ _ Hit).
    destruct (position_cases es (from_option S 0%nat q)) as [[Ep Hlen]|[Ep Hlen]]; rewrite Ep in *.
    + rewrite bool_decide_true by done. cbn [negb].
      destruct (FindNext_at true (with_iter it (with_direction kForward st)) (from_option S 0%nat q) (S i))
        as (st' & -> & Hf); try done.
      * intros _. by rewrite <- Hl.
      * apply (view_after i _ _ Hi). intros u Hu. by apply lt_key_asym, Hbefore.
      * eexists. split; [done|]. by eapply found_at.
    + exfalso. rewrite drop_ge in Hl by lia.
      assert (saved_key_ st ∈ visible_keys seq es) as Hin.
      { apply (elem_of_view_from seq (saved_key_ st, saved_value_ st) [] es). by eapply list_elem_of_lookup_2. }
      rewrite Hes, Hl, app_nil_r in Hin. by apply Hbefore, lt_key_irrefl in Hin.
Qed.

(** The scan back to an entry of a smaller key. *)
Lemma prev_scan_ok n st p : good st -> at_ (iter_ st) (Some p) -> (p < n)%nat ->
  (forall e, e ∈ drop p es -> ~ lt_key (ukey e.1) (saved_key_ st)) ->
  exists found st', prev_scan n st = Some (found, st') /\ good st' /\
    if found : bool then exists q, at_ (iter_ st') (Some q) /\
      (forall e, e ∈ take (S q) es -> lt_key (ukey e.1) (saved_key_ st)) /\
      (forall e, e ∈ drop (S q) es -> ~ lt_key (ukey e.1) (saved_key_ st))
    else valid_ st' = false /\ at_ (iter_ st') None /\ forall e, e ∈ es -> ~ lt_key (ukey e.1) (saved_key_ st).
Proof using H0 Hentries Hlaws Hsorted.
  revert st p. induction n as [|n IH]; intros st p Hg Hat Hn Hge; [by apply Nat.nlt_0_r in Hn|].
  cbn [prev_scan]. destruct (at_Prev _ _ _ Hlaws _ _ Hat) as (it & -> & Hit).
  cbn [mbind option_bind]. rewrite (at_Valid _ _ _ Hlaws _ _ Hit). destruct p as [|p].
  { rewrite bool_decide_false by by intros []. eexists _, _. split; [done|]. split; [done|]. split; [done|].
    split; [done|]. intros e He. apply Hge. by rewrite drop_0. }
  rewrite bool_decide_true by done. cbn [negb].
  assert (exists e, es !! p = Some e) as [[k v] He] by (apply lookup_lt_is_Some, (at_range _ _ _ Hlaws _ _ Hit)).
  destruct (at_entry _ _ _ Hlaws _ _ _ _ Hit He) as [-> _].
  assert (entry_ok (k, v)) as [Hk _] by (eapply Forall_lookup_1; eauto).
  cbn [mbind option_bind]. rewrite ExtractUserKey_ok by done. cbn [mbind option_bind saved_key_ with_iter].
  destruct (Z.ltb_spec (Compare (ukey k) (saved_key_ st)) 0) as [Hlt|Hle].
  - eexists _, _. split; [done|]. split; [done|]. exists p. split; [done|]. split; [|done].
    intros e. rewrite (take_S_r _ _ _ He). intros [Hin|Heq]%elem_of_app; [|apply list_elem_of_singleton in Heq as ->; done].
    eapply le_lt_key_trans; [|done]. apply internal_lt_ukey.
    apply (sorted_entries_app (take p es) (drop p es) e (k, v)); [by rewrite take_drop|done|].
    rewrite (drop_S _ _ _ He). by left.
  - apply (IH (with_iter it st) p); try done; [by apply Nat.succ_lt_mono|].
    intros e. rewrite (drop_S _ _ _ He). intros [->|Hin]%elem_of_cons; [by apply Compare_ge|by apply Hge].
Qed.

Lemma visible_keys_ukey (P : list Z -> Prop) l : (forall e, e ∈ l -> P (ukey e.1)) ->
  forall u, u ∈ visible_keys seq l -> P u.
Proof using.
  intros HP u (e & k & He & E & ->)%elem_of_visible_keys. rewrite (visible_ukey _ _ _ E). by apply HP.
Qed.

Lemma Prev_from st q l i k v : good st -> direction_ st = kReverse -> at_ (iter_ st) q -> es = upto q ++ l ->
  view es !! i = Some (k, v) -> (forall u, u ∈ visible_keys seq (upto q) -> lt_key u k) ->
  (forall u, u ∈ visible_keys seq l -> ~ lt_key u k) ->
  exists st', FindPrevUserEntry fuel st = Some st' /\ dbiter_at st' (match i with O => None | S j => Some j end).
Proof using H0 Hentries Hfuel Hlaws Hsorted RandomLaws0.
  intros Hg Hd Hq Hes Hi Hlt Hge. apply (FindPrev_at st q l i); try done.
  - rewrite <- (sorted_filter_lt (view es) i k v view_es_sorted Hi).
    pose proof (view_app_filter_l seq (fun u => lt_key u k) (upto q) l Hge) as Hf. rewrite <- Hes in Hf. rewrite Hf.
    symmetry. apply filter_keeps_all. intros e [He _]%elem_of_view_from. by apply Hlt.
  - apply lookup_lt_Some in Hi. by apply Nat.lt_le_incl.
  - intros u u' Hu Hu'. exact (lt_le_key_trans _ _ _ (Hlt _ Hu) (Hge _ Hu')).
Qed.

Lemma Prev_at st i : dbiter_at st (Some i) ->
  exists st', DBIter_Prev fuel st = Some st' /\ dbiter_at st' (match i with O => None | S j => Some j end).
Proof using H0 Hentries Hfuel Hlaws Hsorted RandomLaws0.
  intros (Hg & Hv & [k v] & Hi & Hd). unfold DBIter_Prev. rewrite Hv. cbn [assert_ mbind option_bind].
  destruct (direction_ st) eqn:Edir.
  2: { destruct Hd as ([= -> ->] & q & l & Hq & Hes & Hbefore & Hafter). by eapply Prev_from. }
  destruct Hd as (q & Hq & [k' v'] & ik & He & Evis & Ht & [= -> ->]). cbn [snd] in *.
  destruct (at_entry _ _ _ Hlaws _ _ _ _ Hq He) as [-> _]. rewrite (at_Valid _ _ _ Hlaws _ _ Hq).
  assert (entry_ok (k', v')) as [Hk _] by (eapply Forall_lookup_1; eauto).
  rewrite bool_decide_true by done. cbn [assert_ mbind option_bind].
  rewrite ExtractUserKey_ok by done. cbn [mbind option_bind].
  pose proof (visible_ukey _ _ _ Evis) as Hu. cbn [fst] in Hu. rewrite <- Hu.
  destruct (prev_scan_ok fuel (SaveKey (user_key ik) st) q) as (found & st' & -> & Hg' & Hf); try done.
  { eapply Nat.lt_trans; [by apply (at_range _ _ _ Hlaws _ _ Hq)|done]. }
  { intros e. rewrite (drop_S _ _ _ He). cbn [saved_key_ SaveKey]. rewrite Hu.
    intros [->|Hin]%elem_of_cons; [apply lt_key_irrefl|]. apply internal_lt_ukey.
    apply (sorted_entries_app [(k', v')] (drop (S q) es) (k', v') e); [|by apply list_elem_of_singleton|done].
    cbn [app]. rewrite <- (drop_S _ _ _ He). apply drop_sorted. }
  cbn [mbind option_bind saved_key_ SaveKey] in *. destruct found.
  - destruct Hf as (q' & Hq' & Hbefore & Hafter).
    apply (Prev_from _ (Some q') (drop (S q') es) i (user_key ik) v'); try done.
    + unfold upto. cbn [from_option]. by rewrite take_drop.
    + by apply (visible_keys_ukey (fun u => lt_key u (user_key ik))).
    + by apply (visible_keys_ukey (fun u => ~ lt_key u (user_key ik))).
  - destruct Hf as (Hv' & Hnone & Hge). exists st'. split; [done|]. split; [done|].
    destruct i as [|i]; [by eauto|]. exfalso.
    pose proof (sorted_filter_lt (view es) _ _ _ view_es_sorted Hi) as Hf. rewrite filter_drops_all in Hf.
    + apply (f_equal length) in Hf. apply lookup_lt_Some in Hi. rewrite length_take in Hf. cbn [length] in Hf.
      destruct (length (view es)); [by apply Nat.nlt_0_r in Hi|done].
    + intros e [He' _]%elem_of_view_from. by apply (visible_keys_ukey (fun u => ~ lt_key u (user_key ik)) es).
Qed.

Context (Hseq : 0 <= seq <= kMaxSequenceNumber).

Lemma Seek_at st p target : dbiter_at st p ->
  exists st', DBIter_Seek fuel target st = Some st' /\
    dbiter_at st' (position (view es) (seek_index user_before (view es) target)).
Proof using All.
  intros [Hg [q Hq]]%dbiter_at_inv. unfold DBIter_Seek.
  set (t := AppendInternalKey [] _).
  assert (ParseInternalKey t = Some (ParsedKey target seq kTypeValue)) as Ht.
  { unfold t. destruct Hg as [<- _]. by apply AppendInternalKey_parses. }
  apply ParseInternalKey_Some in Ht as (_ & Hut & Htag). cbn [user_key sequence type value_type_code] in Hut, Htag.
  cbn [saved_key_ iter_ SaveKey ClearSavedValue with_saved_value with_direction].
  destruct (at_Seek _ _ _ Hlaws _ _ t Hq) as (it & -> & Hit). cbn [mbind option_bind].
  rewrite (at_Valid _ _ _ Hlaws _ _ Hit).
  set (n := seek_index internal_before es t) in *. set (P := fun e : entry => internal_lt e.1 t).
  assert (es = filter P es ++ filter (fun e => ~ P e) es) as Hes.
  { apply filter_split. by apply sorted_entries_before. }
  assert (length (filter P es) = n) as Hn.
  { unfold n, seek_index. f_equal. apply filter_ext. intros e _. unfold internal_before. by rewrite bool_decide_spec. }
  assert (drop n es = filter (fun e => ~ P e) es) as Hdrop by by rewrite Hes at 1; rewrite drop_app_length'.
  assert (forall u, u ∈ visible_keys seq (filter P es) -> lt_key u target) as Hbefore.
  { intros u (e & k & [HP _]%list_elem_of_filter & E & ->)%elem_of_visible_keys.
    rewrite (visible_ukey _ _ _ E). rewrite Hut. destruct HP as [|[_ Htlt]]; [done|]. exfalso.
    unfold DbIterView.visible in E. destruct (ParseInternalKey e.1) as [k'|] eqn:E'; [|done]. cbn [mbind option_bind] in E.
    destruct (Z.leb_spec (sequence k') seq); [|done]. apply ParseInternalKey_Some in E' as (_ & _ & Htag').
    assert (value_type_code (type k') <= 1) by (by destruct (type k')). lia. }
  assert (forall u, u ∈ visible_keys seq (filter (fun e => ~ P e) es) -> ~ lt_key u target) as Hafter.
  { apply (visible_keys_ukey (fun u => ~ lt_key u target)). intros e [HP _]%list_elem_of_filter Hlt.
    apply HP. left. by rewrite <- Hut. }
  assert (view (drop n es) = drop (seek_index user_before (view es) target) (view es)) as Hview.
  { assert (seek_index user_before (view es) target = length (filter (fun e : entry => lt_key e.1 target) (view es))) as ->.
    { unfold seek_index. f_equal. apply filter_ext. intros e _. unfold user_before. by rewrite bool_decide_spec. }
    rewrite <- (sorted_filter_ge (view es) target view_es_sorted).
    pose proof (view_app_filter seq (fun u => ~ lt_key u target) (filter P es) (filter (fun e => ~ P e) es)) as Hf.
    rewrite <- Hes in Hf. rewrite Hf by (intros u Hu; specialize (Hbefore u Hu); tauto).
    rewrite Hdrop. symmetry. apply filter_keeps_all. intros e [He _]%elem_of_view_from. by apply Hafter. }
  destruct (position_cases es n) as [[Ep Hlen]|[Ep Hlen]]; rewrite Ep in *.
  - rewrite bool_decide_true by done. edestruct (FindNext_at false) as (st' & -> & Hf); try done.
    2: { eexists. split; [done|]. by eapply found_at. }
    by rewrite past_all, Hview, head_drop.
  - rewrite bool_decide_false by by intros []. eexists. split; [done|]. split; [done|].
    rewrite drop_ge in Hview by done.
    destruct (position_cases (view es) (seek_index user_before (view es) target)) as [[-> Hi]|[-> _]].
    + exfalso. apply (f_equal length) in Hview. rewrite length_drop in Hview. simpl in Hview. lia.
    + split; [done|]. eauto.
Qed.

(** The database iterator implements the view. *)
Lemma dbiter_laws : @IteratorLaws iter (DBIter_Iterator fuel) user_before (view es) dbiter_at.
Proof using All.
  split; cbn [it_Valid it_key it_value it_Next it_Prev it_Seek it_SeekToFirst it_SeekToLast DBIter_Iterator].
  - intros st p [_ Hp]. unfold DBIter_Valid. destruct p; by destruct Hp as [-> _].
  - intros st i (_ & _ & kv & Hi & _). by apply lookup_lt_Some in Hi.
  - intros st i k v (Hg & Hv & kv & Hi & Hd) E.
    pose proof (eq_trans (eq_sym Hi) E) as Heq. injection Heq as ->.
    unfold DBIter_key, DBIter_value. rewrite Hv. cbn [assert_ mbind option_bind]. destruct (direction_ st).
    + destruct Hd as (q & Hq & [k' v'] & ik & He & Evis & _ & [= -> ->]).
      destruct (at_entry _ _ _ Hlaws _ _ _ _ Hq He) as [-> ->]. cbn [mbind option_bind].
      assert (entry_ok (k', v')) as [Hk _] by (eapply Forall_lookup_1; eauto).
      rewrite ExtractUserKey_ok by done. split; [|done]. by rewrite (visible_ukey _ _ _ Evis).
    + by destruct Hd as ([= -> ->] & _).
  - apply Next_at.
  - apply Prev_at.
  - apply Seek_at.
  - apply SeekToFirst_at.
  - apply SeekToLast_at.
Qed.
Lemma SeekToFirst_found st p : dbiter_at st p -> es <> [] ->
  exists st' st1, DBIter_SeekToFirst fuel st = Some st' /\ status_ st1 = status_ st /\ found st1 0 st' (view es !! 0%nat).
Proof using H0 Hentries Hfuel Hlaws Hsorted RandomLaws0.
  intros [Hg [q Hq]]%dbiter_at_inv Hne. unfold DBIter_SeekToFirst.
  destruct (at_SeekToFirst _ _ _ Hlaws _ _ Hq) as (it & E & Hit).
  cbn [iter_ ClearSavedValue with_saved_value with_direction]. rewrite E. cbn [mbind option_bind].
  rewrite (at_Valid _ _ _ Hlaws _ _ Hit).
  destruct (position_cases es 0) as [[Ep Hlen]|[Ep Hlen]]; rewrite Ep in *; [|by destruct es; [|apply Nat.nle_succ_0 in Hlen]].
  rewrite bool_decide_true by done.
  edestruct (FindNext_at false) as (st' & -> & Hf); [..|by eexists _, _; split; [done|]; split; [|exact Hf]]; try done.
  rewrite drop_0, past_all. by destruct (view es).
Qed.

Lemma SeekToFirst_empty st p : dbiter_at st p -> es = [] ->
  exists st', DBIter_SeekToFirst fuel st = Some st' /\ valid_ st' = false /\ status_ st' = status_ st /\ at_ (iter_ st') None.
Proof using Hlaws.
  intros [Hg [q Hq]]%dbiter_at_inv Hes. unfold DBIter_SeekToFirst.
  destruct (at_SeekToFirst _ _ _ Hlaws _ _ Hq) as (it & E & Hit).
  cbn [iter_ ClearSavedValue with_saved_value with_direction]. rewrite E. cbn [mbind option_bind].
  rewrite (at_Valid _ _ _ Hlaws _ _ Hit).
  assert (position es 0 = None) as Ep by (unfold position; by rewrite Hes). rewrite Ep in *.
  rewrite bool_decide_false by by intros []. by eexists.
Qed.

(** Reading an iterator from where it is to the end. *)
Fixpoint scan (n : nat) st : option (list entry * iter) :=
  if DBIter_Valid st then
    match n with
    | O => None
    | S n =>
        k ← DBIter_key st; v ← DBIter_value st;
        st ← DBIter_Next fuel st;
        '(l, st) ← scan n st; Some ((k, v) :: l, st)
    end
  else Some ([], st).

(** [Ok] until the entry [p] means that the keys up to any later one parse. *)
Definition clean_from st (p : nat) : Prop :=
  forall m, (p < m)%nat -> status_ st = Ok /\ all_parse p m <-> all_parse 0 m.

Lemma clean_next st st' q m : (q < m)%nat -> (status_ st' = Ok <-> all_parse 0 (S q)) ->
  status_ st' = Ok /\ all_parse q m <-> all_parse 0 m.
Proof using.
  clear Hfuel Hseq. intros Hm ->. split; [|intros Hall; split; intros j e Hj; apply Hall; lia].
  intros [Ha Hb] j e Hj. destruct (decide (j < S q)%nat); [apply Ha; lia|apply Hb; lia].
Qed.

Lemma scan_ok n st0 p st i : (length (view es) <= i + n)%nat -> (p < length es)%nat -> clean_from st0 p ->
  found st0 p st (view es !! i) ->
  exists st' q, scan n st = Some (drop i (view es), st') /\ at_ (iter_ st') q /\
    (status_ st' = Ok <-> all_parse 0 (length es)).
Proof using H0 Hentries Hfuel Hlaws Hsorted RandomLaws0.
  revert st0 p st i. induction n as [|n IH]; intros st0 p st i Hn Hlen Hp (Hg & Hd & Hv & q & Hq & Hst & Hr);
    cbn [scan]; unfold DBIter_Valid; rewrite Hv;
    (destruct (view es !! i) as [kv|] eqn:Ei;
      [|rewrite bool_decide_false by (by intros []); destruct q; [done|]; eexists _, _;
        apply lookup_ge_None in Ei; rewrite drop_ge by done; split; [done|]; split; [done|]; rewrite Hst; exact (Hp _ Hlen)]).
  - apply lookup_lt_Some in Ei. rewrite Nat.add_0_r in Hn. by apply Nat.le_ngt in Hn.
  - destruct q as [q|]; [|done]. destruct Hr as [Hpq Hs]. cbn [from_option] in Hst.
    pose proof (Hp (S q) (proj2 (Nat.lt_succ_r _ _) Hpq)) as Hp'. rewrite Hp' in Hst. rewrite bool_decide_true by done. rewrite bool_decide_true in Hv by done.
    destruct (Next_forward st i kv q Hg Hv Hd Hq Hs Ei) as (st1 & E1 & Hf).
    destruct (IH (SaveKey kv.1 st) q st1 (S i)) as (st' & q' & E' & Hq' & Hst'); try done.
    { by rewrite <- Nat.add_succ_comm in Hn. }
    { by apply (at_range _ _ _ Hlaws _ _ Hq). }
    { intros m Hm. by apply (clean_next st st). }
    destruct Hs as ([k v] & ik & He & Evis & _ & ->). destruct (at_entry _ _ _ Hlaws _ _ _ _ Hq He) as [Ek Ev].
    assert (entry_ok (k, v)) as [Hk _] by (eapply Forall_lookup_1; eauto).
    unfold DBIter_key, DBIter_value. rewrite Hv, Hd, Ek, Ev. cbn [assert_ mbind option_bind].
    rewrite ExtractUserKey_ok by done. cbn [mbind option_bind]. rewrite E1. cbn [mbind option_bind]. rewrite E'.
    exists st', q'. split; [|done]. cbn [mbind option_bind]. rewrite (drop_S _ _ _ Ei).
    pose proof (visible_ukey _ _ _ Evis) as Hu. cbn [fst snd] in *. by rewrite Hu.
Qed.
Lemma DBIter_new_at it q seed : at_ it q -> dbiter_at (DBIter_new it seq seed) None.
Proof using RandomLaws0.
  intros Hq. unfold DBIter_new, RandomCompactionPeriod, kReadBytesPeriod.
  pose proof (Uniform_range (Random_seed seed : R) (2 * 1048576) eq_refl) as Hr.
  destruct (Uniform _ _) as [n r]. cbn [fst] in Hr. split; [split; [done|]|].
  - cbn [bytes_until_read_sampling_]. destruct Hr. split; [done|]. eapply Z.lt_trans; [done|]. reflexivity.
  - cbn [valid_ iter_]. eauto.
Qed.

(** C3 (refinement): over any internal iterator that implements the sorted
    internal entries, the database iterator implements the iterator interface for
    the view of its snapshot: one entry per user key, in order, with the value of
    the newest entry the snapshot can see, deleted keys left out. Every operation
    returns, in both directions and after any change of direction, and a new
    iterator satisfies the invariant. *)
Theorem db_iter_refines :
  @IteratorLaws iter (DBIter_Iterator fuel) user_before (view es) dbiter_at /\
  forall it q seed, at_ it q -> dbiter_at (DBIter_new it seq seed) None.
Proof using All. split; [apply dbiter_laws|apply DBIter_new_at]. Qed.

(** C35 (error): a scan of a new iterator from the first entry on ends and reads
    the view, the value of every user key whose newest visible entry is one;
    entries whose internal key is corrupted are skipped, and the status is a
    corruption at the end exactly when there was one, visible or not. *)
Theorem db_iter_scan (Hstatus : forall it q, at_ it q -> it_status it = Ok) it q seed : at_ it q ->
  exists st0 st, DBIter_SeekToFirst fuel (DBIter_new it seq seed) = Some st0 /\
    scan fuel st0 = Some (view es, st) /\ (DBIter_status st = Ok <-> Forall parses es) /\
    forall u v, (u, v) ∈ view es <-> newest seq u es = Some (kTypeValue, v).
Proof using All.
  intros Hq. pose proof (DBIter_new_at it q seed Hq) as Hnew.
  assert (forall u v, (u, v) ∈ view es <-> newest seq u es = Some (kTypeValue, v)) as Hnewest.
  { intros u v. unfold DbIterView.view. rewrite view_from_newest. split; [tauto|]. split; [apply not_elem_of_nil|done]. }
  assert (status_ (DBIter_new it seq seed) = Ok) as Hok by (unfold DBIter_new; by destruct (RandomCompactionPeriod _)).
  destruct (decide (es = [])) as [Hes|Hne].
  { destruct (SeekToFirst_empty _ _ Hnew Hes) as (st0 & E & Hv & Hst & Hnone). exists st0, st0. split; [done|]. split.
    { destruct fuel; [by apply Nat.nlt_0_r in Hfuel|]. cbn [scan]. unfold DBIter_Valid. by rewrite Hv, Hes. }
    split; [|done]. unfold DBIter_status. rewrite Hst, Hok, bool_decide_true, (Hstatus _ _ Hnone), Hes by done.
    split; [constructor|done]. }
  destruct (SeekToFirst_found _ _ Hnew Hne) as (st0 & st1 & E & Hst1 & Hf).
  destruct (scan_ok fuel st1 0 st0 0) as (st & q' & E' & Hq' & Hst); try done.
  - pose proof (length_view_from seq [] es). unfold DbIterView.view. lia.
  - destruct es; [done|simpl; lia].
  - intros m _. rewrite Hst1, Hok. tauto.
  - exists st0, st. split; [done|]. rewrite E', drop_0. split; [done|]. split; [|done].
    assert (DBIter_status st = Ok <-> status_ st = Ok) as ->.
    { unfold DBIter_status. case_bool_decide as Hs; [|done]. by rewrite (Hstatus _ _ Hq'). }
    rewrite Hst, Forall_lookup. unfold all_parse. split; [intros Hall j e Hj|intros Hall j e _; by apply Hall].
    apply (Hall j); [|done]. apply lookup_lt_Some in Hj. lia.
Qed.
End refinement.

(** ** A database of three keys

    The internal iterator is the one of [Cursor.v]; the generator always draws
    the largest number. *)

#[local] Instance demo_random : Random unit := {|
  Random_seed _ := (); Uniform _ n := (n - 1, ()); gap _ := 0%nat; max_gap := 0%nat |}.

Lemma demo_random_laws : RandomLaws unit.
Proof. split; intros; simpl; [lia|done|left; lia]. Qed.

#[local] Existing Instances by_bytes reference_coding reference_format.

Definition stored (u : list Z) (s : Z) (t : ValueType) (v : list Z) : entry := (AppendInternalKey [] (ParsedKey u s t), v).

Definition demo_db : list entry := [
  stored [1] 5 kTypeValue [10]; stored [1] 2 kTypeValue [11];
  stored [2] 4 kTypeDeletion []; stored [2] 3 kTypeValue [20];
  stored [3] 9 kTypeValue [30]; stored [3] 1 kTypeValue [31] ].

#[local] Instance demo_Iterator : Iterator list_iter := list_Iterator internal_before.

Definition demo_iter : @DBIter list_iter unit := DBIter_new (ListIter demo_db None) 6 0.

(** The snapshot 6 sees [1 -> 10] and [3 -> 31]; a turn in the middle shows the
    same entries again. *)
Example demo_turns :
  (st ← DBIter_SeekToFirst 9 demo_iter; a ← DBIter_key st;
   st ← DBIter_Next 9 st; b ← DBIter_key st; bv ← DBIter_value st;
   st ← DBIter_Prev 9 st; c ← DBIter_key st; cv ← DBIter_value st;
   st ← DBIter_Next 9 st; d ← DBIter_key st;
   st ← DBIter_Next 9 st; Some (a, b, bv, c, cv, d, DBIter_Valid st)) =
  Some ([1], [3], [31], [1], [10], [3], false).
Proof. vm_compute. reflexivity. Qed.

(** An internal key that is too short to parse is skipped, with a corruption, by a
    forward scan, but [Prev] extracts the user key of the entries it passes without
    parsing them: its assertion fails on the same entries. *)
Definition short_key_db : list entry := [([9], [90]); stored [1] 5 kTypeValue [10]].

Example short_key_aborts_prev :
  (st ← DBIter_SeekToFirst 9 (DBIter_new (I := list_iter) (R := unit) (ListIter short_key_db None) 6 0);
   k ← DBIter_key st; Some (k, DBIter_status st)) = Some ([1], Corruption "corrupted internal key in DBIter") /\
  (st ← DBIter_SeekToFirst 9 (DBIter_new (I := list_iter) (R := unit) (ListIter short_key_db None) 6 0);
   DBIter_Prev 9 st) = None.
Proof. split; vm_compute; reflexivity. Qed.

Lemma demo_db_sorted : sorted_entries demo_db.
Proof.
  unfold sorted_entries, demo_db. cbn [fmap list_fmap].
  repeat first [apply SSorted_nil|apply SSorted_cons|apply List.Forall_nil|apply List.Forall_cons];
    apply (bool_decide_unpack _); vm_compute; exact I.
Qed.

Lemma demo_db_ok : Forall entry_ok demo_db.
Proof. repeat constructor. Qed.

Lemma db_iter_refines_witness : IteratorLaws user_before (view 6 demo_db) (dbiter_at 6 demo_db (li_at demo_db)) (H := DBIter_Iterator 9) /\
  forall it q seed, li_at demo_db it q -> dbiter_at 6 demo_db (li_at demo_db) (@DBIter_new list_iter unit _ it 6 seed) None.
Proof.
  apply (@db_iter_refines by_bytes by_bytes_laws reference_coding reference_format reference_format_laws
    list_iter demo_Iterator unit demo_random demo_random_laws 6 demo_db (li_at demo_db)).
  - exact demo_db_sorted.
  - exact demo_db_ok.
  - apply list_iter_laws.
  - simpl. lia.
  - unfold kMaxSequenceNumber. lia.
Defined.

Lemma db_iter_scan_witness : exists st0 st, DBIter_SeekToFirst 9 demo_iter = Some st0 /\
  scan 9 9 st0 = Some ([([1], [10]); ([3], [31])], st) /\ (DBIter_status st = Ok <-> Forall parses demo_db).
Proof.
  destruct (@db_iter_scan by_bytes by_bytes_laws reference_coding reference_format reference_format_laws
    list_iter demo_Iterator unit demo_random demo_random_laws 6 demo_db (li_at demo_db) demo_db_sorted demo_db_ok
    (list_iter_laws _ _) 9 ltac:(simpl; lia) ltac:(unfold kMaxSequenceNumber; lia) (fun _ _ _ => eq_refl)
    (ListIter demo_db None) None 0 ltac:(split; [reflexivity|intros i Hi; discriminate Hi])) as (st0 & st & E0 & E & Hs & _).
  exists st0, st. split; [exact E0|]. split; [exact E|exact Hs].
Defined.
