(* ===== verification/VersionEdit.v ===== *)
(** * Version edits ([leveldb-library/db/version_edit.cc])

    A version edit is a change of the set of files of a database; its encoding is
    a record of the manifest, a sequence of tagged fields. The header with the
    class is not part of the repository: the fields are read off their uses, and
    the set of deleted files, which is iterated in increasing order, is a sorted
    list. The integer codec is the parameter of [Coding.v]. *)

From Stdlib Require Import String Sorting.Sorted.
From stdpp Require Import base list sorting strings.
From S2P Require Import Prelude Cursor Coding DbFormat.

#[local] Open Scope Z_scope.

(** ** Tags *)

Definition kComparator : Z := 1.
Definition kLogNumber : Z := 2.
Definition kNextFileNumber : Z := 3.
Definition kLastSequence : Z := 4.
Definition kCompactPointer : Z := 5.
Definition kDeletedFile : Z := 6.
Definition kNewFile : Z := 7.
Definition kPrevLogNumber : Z := 9.

(** ** Data *)

Record FileMetaData := FileMeta { number : Z; file_size : Z; smallest : list Z; largest : list Z }.

Record VersionEdit := Edit {
  comparator_ : list Z; log_number_ : Z; prev_log_number_ : Z; next_file_number_ : Z; last_sequence_ : Z;
  has_comparator_ : bool; has_log_number_ : bool; has_prev_log_number_ : bool;
  has_next_file_number_ : bool; has_last_sequence_ : bool;
  compact_pointers_ : list (Z * list Z);
  deleted_files_ : list (Z * Z);
  new_files_ : list (Z * FileMetaData) }.

Definition with_comparator c e := Edit c (log_number_ e) (prev_log_number_ e) (next_file_number_ e) (last_sequence_ e)
  true (has_log_number_ e) (has_prev_log_number_ e) (has_next_file_number_ e) (has_last_sequence_ e)
  (compact_pointers_ e) (deleted_files_ e) (new_files_ e).
Definition with_log_number n e := Edit (comparator_ e) n (prev_log_number_ e) (next_file_number_ e) (last_sequence_ e)
  (has_comparator_ e) true (has_prev_log_number_ e) (has_next_file_number_ e) (has_last_sequence_ e)
  (compact_pointers_ e) (deleted_files_ e) (new_files_ e).
Definition with_prev_log_number n e := Edit (comparator_ e) (log_number_ e) n (next_file_number_ e) (last_sequence_ e)
  (has_comparator_ e) (has_log_number_ e) true (has_next_file_number_ e) (has_last_sequence_ e)
  (compact_pointers_ e) (deleted_files_ e) (new_files_ e).
Definition with_next_file_number n e := Edit (comparator_ e) (log_number_ e) (prev_log_number_ e) n (last_sequence_ e)
  (has_comparator_ e) (has_log_number_ e) (has_prev_log_number_ e) true (has_last_sequence_ e)
  (compact_pointers_ e) (deleted_files_ e) (new_files_ e).
Definition with_last_sequence n e := Edit (comparator_ e) (log_number_ e) (prev_log_number_ e) (next_file_number_ e) n
  (has_comparator_ e) (has_log_number_ e) (has_prev_log_number_ e) (has_next_file_number_ e) true
  (compact_pointers_ e) (deleted_files_ e) (new_files_ e).
Definition with_lists cs ds fs e := Edit (comparator_ e) (log_number_ e) (prev_log_number_ e) (next_file_number_ e)
  (last_sequence_ e) (has_comparator_ e) (has_log_number_ e) (has_prev_log_number_ e) (has_next_file_number_ e)
  (has_last_sequence_ e) cs ds fs.
Definition add_compact_pointer p e := with_lists (compact_pointers_ e ++ [p]) (deleted_files_ e) (new_files_ e) e.
Definition add_new_file f e := with_lists (compact_pointers_ e) (deleted_files_ e) (new_files_ e ++ [f]) e.

(** [std::pair]'s order and the insertion in a [std::set] of pairs. *)
Definition pair_lt (p q : Z * Z) : Prop := p.1 < q.1 \/ p.1 = q.1 /\ p.2 < q.2.

#[export] Instance pair_lt_dec p q : Decision (pair_lt p q).
Proof. unfold pair_lt. apply _. Defined.

Fixpoint set_insert (p : Z * Z) (l : list (Z * Z)) : list (Z * Z) :=
  match l with
  | [] => [p]
  | q :: l => if decide (pair_lt p q) then p :: q :: l else if decide (p = q) then q :: l else q :: set_insert p l
  end.

Definition add_deleted_file p e := with_lists (compact_pointers_ e) (set_insert p (deleted_files_ e)) (new_files_ e) e.

Definition Clear (e : VersionEdit) : VersionEdit :=
  Edit [] 0 0 0 0 false false false false false (compact_pointers_ e) [] [].

(** A new edit. *)
Definition VersionEdit_new : VersionEdit := Edit [] 0 0 0 0 false false false false false [] [] [].

Section codec.
Context `{Coding}.

(** ** Encoding *)

Fixpoint encode_compact_pointers (l : list (Z * list Z)) (dst : list Z) : option (list Z) :=
  match l with
  | [] => Some dst
  | (level, key) :: l =>
      k ← InternalKey_Encode key;
      encode_compact_pointers l
        (PutLengthPrefixedSlice (PutVarint32 (PutVarint32 dst kCompactPointer) (wrap 32 level)) k)
  end.

Fixpoint encode_deleted_files (l : list (Z * Z)) (dst : list Z) : list Z :=
  match l with
  | [] => dst
  | (level, n) :: l => encode_deleted_files l (PutVarint64 (PutVarint32 (PutVarint32 dst kDeletedFile) (wrap 32 level)) n)
  end.

Fixpoint encode_new_files (l : list (Z * FileMetaData)) (dst : list Z) : option (list Z) :=
  match l with
  | [] => Some dst
  | (level, f) :: l =>
      small ← InternalKey_Encode (smallest f); large ← InternalKey_Encode (largest f);
      let dst := PutVarint32 (PutVarint32 dst kNewFile) (wrap 32 level) in
      let dst := PutVarint64 (PutVarint64 dst (number f)) (file_size f) in
      encode_new_files l (PutLengthPrefixedSlice (PutLengthPrefixedSlice dst small) large)
  end.

(** [None] when a key is empty: [Encode] asserts that it is not. *)
Definition EncodeTo (e : VersionEdit) (dst : list Z) : option (list Z) :=
  let dst := if has_comparator_ e then PutLengthPrefixedSlice (PutVarint32 dst kComparator) (comparator_ e) else dst in
  let dst := if has_log_number_ e then PutVarint64 (PutVarint32 dst kLogNumber) (log_number_ e) else dst in
  let dst := if has_prev_log_number_ e then PutVarint64 (PutVarint32 dst kPrevLogNumber) (prev_log_number_ e) else dst in
  let dst := if has_next_file_number_ e then PutVarint64 (PutVarint32 dst kNextFileNumber) (next_file_number_ e) else dst in
  let dst := if has_last_sequence_ e then PutVarint64 (PutVarint32 dst kLastSequence) (last_sequence_ e) else dst in
  dst ← encode_compact_pointers (compact_pointers_ e) dst;
  encode_new_files (new_files_ e) (encode_deleted_files (deleted_files_ e) dst).

(** ** Decoding *)

Definition GetInternalKey (input : list Z) : option (list Z * list Z) :=
  '(str, input) ← GetLengthPrefixedSlice input; Some (InternalKey_DecodeFrom str, input).

Definition GetLevel (input : list Z) : option (Z * list Z) :=
  '(v, input) ← GetVarint32 input; if v <? kNumLevels then Some (v, input) else None.

(** A field that was read, or the message when it cannot be. *)
Definition field (msg : string) (r : option (list Z * VersionEdit)) : string + (list Z * VersionEdit) :=
  match r with Some r => inr r | None => inl msg end.

(** The body of the loop: the rest of the input and the edit with the field. *)
Definition decode_field (tag : Z) (input : list Z) (e : VersionEdit) : string + (list Z * VersionEdit) :=
  if tag =? kComparator then
    field "comparator name" ('(str, input) ← GetLengthPrefixedSlice input; Some (input, with_comparator str e))
  else if tag =? kLogNumber then
    field "log number" ('(n, input) ← GetVarint64 input; Some (input, with_log_number n e))
  else if tag =? kPrevLogNumber then
    field "previous log number" ('(n, input) ← GetVarint64 input; Some (input, with_prev_log_number n e))
  else if tag =? kNextFileNumber then
    field "next file number" ('(n, input) ← GetVarint64 input; Some (input, with_next_file_number n e))
  else if tag =? kLastSequence then
    field "last sequence number" ('(n, input) ← GetVarint64 input; Some (input, with_last_sequence n e))
  else if tag =? kCompactPointer then
    field "compaction pointer"
      ('(level, input) ← GetLevel input; '(key, input) ← GetInternalKey input;
       Some (input, add_compact_pointer (level, key) e))
  else if tag =? kDeletedFile then
    field "deleted file"
      ('(level, input) ← GetLevel input; '(n, input) ← GetVarint64 input;
       Some (input, add_deleted_file (level, n) e))
  else if tag =? kNewFile then
    field "new-file entry"
      ('(level, input) ← GetLevel input; '(n, input) ← GetVarint64 input; '(size, input) ← GetVarint64 input;
       '(small, input) ← GetInternalKey input; '(large, input) ← GetInternalKey input;
       Some (input, add_new_file (level, FileMeta n size small large) e))
  else inl "unknown tag"%string.

(** The loop: the message, what is left of the input, and the edit. *)
Fixpoint decode_loop (fuel : nat) (input : list Z) (e : VersionEdit) : option (option string * list Z * VersionEdit) :=
  match GetVarint32 input with
  | None => Some (None, input, e)
  | Some (tag, rest) =>
      match fuel with
      | O => None
      | S fuel =>
          match decode_field tag rest e with
          | inl msg => Some (Some msg, rest, e)
          | inr (rest, e) => decode_loop fuel rest e
          end
      end
  end.

(** The status (without the context "VersionEdit") and the edit, which holds the
    fields read so far when the status is a corruption. *)
Definition DecodeFrom (src : list Z) (e : VersionEdit) : option (Status * VersionEdit) :=
  '(msg, input, e) ← decode_loop (length src) src (Clear e);
  let msg := match msg with None => if bool_decide (input <> []) then Some "invalid tag"%string else None | msg => msg end in
  Some (match msg with Some msg => Corruption msg | None => Ok end, e).
End codec.

(** ** Reading back a sequence of fields *)

Section proofs.
Context `{CodingLaws}.

(** [reads bs e e']: the loop reads [bs] and turns [e] into [e']. *)
Definition reads (bs : list Z) (e e' : VersionEdit) : Prop :=
  forall rest n, (length (bs ++ rest) <= n)%nat ->
  exists n', (length rest <= n')%nat /\ decode_loop n (bs ++ rest) e = decode_loop n' rest e'.

(** [f] appends fields that are read back. *)
Definition writes (f : list Z -> option (list Z)) (e e' : VersionEdit) : Prop :=
  exists bs, (forall dst, f dst = Some (dst ++ bs)) /\ reads bs e e'.

Lemma reads_nil e : reads [] e e.
Proof. intros rest n Hn. by exists n. Qed.

Lemma reads_app a b e1 e2 e3 : reads a e1 e2 -> reads b e2 e3 -> reads (a ++ b) e1 e3.
Proof.
  intros Ha Hb rest n Hn. rewrite <- app_assoc in *. destruct (Ha (b ++ rest) n Hn) as (n1 & Hn1 & ->).
  by apply Hb.
Qed.

Lemma writes_id e : writes Some e e.
Proof. exists []. split; [intros dst; by rewrite app_nil_r|apply reads_nil]. Qed.

Lemma writes_bind f g e1 e2 e3 : writes f e1 e2 -> writes g e2 e3 -> writes (fun dst => dst ← f dst; g dst) e1 e3.
Proof.
  intros (a & Ha & Hra) (b & Hb & Hrb). exists (a ++ b). split; [|by eapply reads_app].
  intros dst. rewrite Ha. cbn [mbind option_bind]. by rewrite Hb, app_assoc.
Qed.

Lemma writes_if (c : bool) f e e' : (c = true -> writes (fun dst => Some (f dst)) e e') -> (c = false -> e' = e) ->
  writes (fun dst => Some (if c then f dst else dst)) e e'.
Proof. destruct c; intros Ht Hf; [by apply Ht|]. rewrite Hf by done. apply writes_id. Qed.

(** A field: a tag and a body that the reader of that tag takes back. *)
Lemma writes_field t put body e e' : 0 <= t < 16 -> (forall dst, put dst = dst ++ body) ->
  (forall rest, decode_field t (body ++ rest) e = inr (rest, e')) ->
  writes (fun dst => Some (put (PutVarint32 dst t))) e e'.
Proof.
  intros Ht Hput Hd. exists (PutVarint32 [] t ++ body). split.
  { intros dst. by rewrite Hput, PutVarint32_appends, app_assoc. }
  intros rest n Hn. rewrite <- app_assoc in *.
  pose proof (PutVarint32_reads_back t (body ++ rest) ltac:(unfold is_u; lia)) as Hget.
  pose proof (consumes_length _ GetVarint32_consumes _ _ _ Hget) as Hlen. rewrite !length_app in *.
  destruct n as [|n]; [lia|]. exists n. split; [lia|]. cbn [decode_loop]. by rewrite Hget, Hd.
Qed.

(** ** Well-formed edits *)

Definition level_ok (level : Z) : Prop := 0 <= level < kNumLevels.
Definition slice_ok (s : list Z) : Prop := is_u 32 (Z.of_nat (length s)).
Definition key_ok (k : list Z) : Prop := k <> [] /\ slice_ok k.
Definition file_ok (f : FileMetaData) : Prop :=
  is_u 64 (number f) /\ is_u 64 (file_size f) /\ key_ok (smallest f) /\ key_ok (largest f).

(** A field that is not set has its cleared value. *)
Record edit_ok (e : VersionEdit) : Prop := {
  ok_comparator : slice_ok (comparator_ e);
  ok_numbers : Forall (is_u 64) [log_number_ e; prev_log_number_ e; next_file_number_ e; last_sequence_ e];
  ok_unset : (has_comparator_ e = false -> comparator_ e = []) /\
    (has_log_number_ e = false -> log_number_ e = 0) /\ (has_prev_log_number_ e = false -> prev_log_number_ e = 0) /\
    (has_next_file_number_ e = false -> next_file_number_ e = 0) /\ (has_last_sequence_ e = false -> last_sequence_ e = 0);
  ok_pointers : Forall (fun p => level_ok p.1 /\ key_ok p.2) (compact_pointers_ e);
  ok_deleted : StronglySorted pair_lt (deleted_files_ e) /\ Forall (fun p => level_ok p.1 /\ is_u 64 p.2) (deleted_files_ e);
  ok_new : Forall (fun p => level_ok p.1 /\ file_ok p.2) (new_files_ e) }.

Lemma level_u32 level : level_ok level -> wrap 32 level = level /\ is_u 32 level.
Proof. unfold level_ok, kNumLevels. intros Hl. split; [apply wrap_small|]; unfold is_u; lia. Qed.

Lemma GetLevel_put level rest : level_ok level -> GetLevel (PutVarint32 [] level ++ rest) = Some (level, rest).
Proof.
  intros Hl. unfold GetLevel. rewrite PutVarint32_reads_back by by apply level_u32. cbn [mbind option_bind].
  by rewrite (proj2 (Z.ltb_lt _ _)) by apply Hl.
Qed.

Lemma GetInternalKey_put k rest : slice_ok k -> GetInternalKey (PutLengthPrefixedSlice [] k ++ rest) = Some (k, rest).
Proof. intros Hk. unfold GetInternalKey. by rewrite PutLengthPrefixedSlice_reads_back. Qed.

Lemma Encode_ok k : key_ok k -> InternalKey_Encode k = Some k.
Proof. intros [Hk _]. unfold InternalKey_Encode. by rewrite bool_decide_true. Qed.

(** The reader of the tag of a field, on the encoded body. *)
Ltac read_field :=
  intros rest; unfold decode_field; simpl Z.eqb; cbn match; rewrite <- ?app_assoc;
  repeat first
    [ rewrite GetLevel_put by done | rewrite GetInternalKey_put by done | rewrite PutVarint64_reads_back by done
    | rewrite PutLengthPrefixedSlice_reads_back by done | progress cbn [mbind option_bind] ]; reflexivity.

Lemma writes_comparator c e : slice_ok c ->
  writes (fun dst => Some (PutLengthPrefixedSlice (PutVarint32 dst kComparator) c)) e (with_comparator c e).
Proof.
  intros Hc. apply (writes_field kComparator (fun d => PutLengthPrefixedSlice d c) (PutLengthPrefixedSlice [] c));
    [done|intros; apply PutLengthPrefixedSlice_appends|read_field].
Qed.

(** The four fields that are one number. *)
Lemma writes_number t n e e' : 0 <= t < 16 -> is_u 64 n ->
  (forall rest, GetVarint64 (PutVarint64 [] n ++ rest) = Some (n, rest) ->
    decode_field t (PutVarint64 [] n ++ rest) e = inr (rest, e')) ->
  writes (fun dst => Some (PutVarint64 (PutVarint32 dst t) n)) e e'.
Proof.
  intros Ht Hn Hd. apply (writes_field t (fun d => PutVarint64 d n) (PutVarint64 [] n)); [done|intros; apply PutVarint64_appends|].
  intros rest. apply Hd. by rewrite PutVarint64_reads_back.
Qed.

Lemma writes_compact_pointers l e : Forall (fun p => level_ok p.1 /\ key_ok p.2) l ->
  writes (encode_compact_pointers l) e (with_lists (compact_pointers_ e ++ l) (deleted_files_ e) (new_files_ e) e).
Proof.
  revert e. induction l as [|[level k] l IH]; intros e Hl.
  { rewrite app_nil_r. destruct e. apply writes_id. }
  apply List.Forall_cons_iff in Hl as [[Hlevel Hk] Hl]. cbn [fst snd] in *.
  destruct (IH (add_compact_pointer (level, k) e) Hl) as (b & Hb & Hrb).
  assert (writes (fun dst => Some (PutLengthPrefixedSlice (PutVarint32 (PutVarint32 dst kCompactPointer) level) k)) e
    (add_compact_pointer (level, k) e)) as (a & Ha & Hra).
  { apply (writes_field kCompactPointer (fun d => PutLengthPrefixedSlice (PutVarint32 d level) k)
      (PutVarint32 [] level ++ PutLengthPrefixedSlice [] k)); [done| |destruct Hk; read_field].
    intros dst. by rewrite PutLengthPrefixedSlice_appends, PutVarint32_appends, app_assoc. }
  exists (a ++ b). split.
  - intros dst. cbn [encode_compact_pointers]. rewrite Encode_ok by done. cbn [mbind option_bind].
    rewrite (proj1 (level_u32 _ Hlevel)). injection (Ha dst) as ->. by rewrite Hb, app_assoc.
  - eapply reads_app; [done|]. replace (with_lists _ _ _ e) with
      (with_lists (compact_pointers_ (add_compact_pointer (level, k) e) ++ l) (deleted_files_ (add_compact_pointer (level, k) e))
        (new_files_ (add_compact_pointer (level, k) e)) (add_compact_pointer (level, k) e)); [done|].
    destruct e. unfold add_compact_pointer, with_lists. simpl. by rewrite <- app_assoc.
Qed.
Lemma pair_lt_irrefl p : ~ pair_lt p p.
Proof. unfold pair_lt. lia. Qed.

Lemma pair_lt_asym p q : pair_lt p q -> ~ pair_lt q p.
Proof. unfold pair_lt. lia. Qed.

Lemma set_insert_last p l : (forall q, q ∈ l -> pair_lt q p) -> set_insert p l = l ++ [p].
Proof.
  induction l as [|q l IH]; intros Hl; [done|]. simpl. assert (pair_lt q p) as Hq by (apply Hl; by left).
  rewrite decide_False by by apply pair_lt_asym. rewrite decide_False by (intros ->; by apply pair_lt_irrefl in Hq).
  f_equal. apply IH. intros q' Hq'. apply Hl. by right.
Qed.

Lemma writes_deleted_files l e : StronglySorted pair_lt (deleted_files_ e ++ l) ->
  Forall (fun p => level_ok p.1 /\ is_u 64 p.2) l ->
  writes (fun dst => Some (encode_deleted_files l dst)) e
    (with_lists (compact_pointers_ e) (deleted_files_ e ++ l) (new_files_ e) e).
Proof.
  revert e. induction l as [|[level n] l IH]; intros e Hs Hl.
  { rewrite app_nil_r. destruct e. apply writes_id. }
  apply List.Forall_cons_iff in Hl as [[Hlevel Hn] Hl]. cbn [fst snd] in *.
  assert (deleted_files_ (add_deleted_file (level, n) e) = deleted_files_ e ++ [(level, n)]) as Hset.
  { apply set_insert_last. intros q Hq. eapply StronglySorted_app_1_elem_of; [exact Hs|done|by left]. }
  destruct (IH (add_deleted_file (level, n) e)) as (b & Hb & Hrb); [by rewrite Hset, <- app_assoc|done|].
  assert (writes (fun dst => Some (PutVarint64 (PutVarint32 (PutVarint32 dst kDeletedFile) level) n)) e
    (add_deleted_file (level, n) e)) as (a & Ha & Hra).
  { apply (writes_field kDeletedFile (fun d => PutVarint64 (PutVarint32 d level) n)
      (PutVarint32 [] level ++ PutVarint64 [] n)); [done| |read_field].
    intros dst. by rewrite PutVarint64_appends, PutVarint32_appends, app_assoc. }
  exists (a ++ b). split.
  - intros dst. cbn [encode_deleted_files]. rewrite (proj1 (level_u32 _ Hlevel)). injection (Ha dst) as ->.
    by rewrite Hb, app_assoc.
  - eapply reads_app; [done|]. rewrite Hset in Hrb. destruct e. unfold add_deleted_file, with_lists in *. cbn in *.
    by rewrite <- app_assoc in Hrb.
Qed.

Lemma writes_new_files l e : Forall (fun p => level_ok p.1 /\ file_ok p.2) l ->
  writes (encode_new_files l) e (with_lists (compact_pointers_ e) (deleted_files_ e) (new_files_ e ++ l) e).
Proof.
  revert e. induction l as [|[level [n size small large]] l IH]; intros e Hl.
  { rewrite app_nil_r. destruct e. apply writes_id. }
  apply List.Forall_cons_iff in Hl as [[Hlevel (Hn & Hsize & Hsmall & Hlarge)] Hl]. cbn [fst snd number file_size smallest largest] in *.
  destruct (IH (add_new_file (level, FileMeta n size small large) e) Hl) as (b & Hb & Hrb).
  assert (writes (fun dst => Some (PutLengthPrefixedSlice (PutLengthPrefixedSlice (PutVarint64 (PutVarint64
      (PutVarint32 (PutVarint32 dst kNewFile) level) n) size) small) large)) e
    (add_new_file (level, FileMeta n size small large) e)) as (a & Ha & Hra).
  { apply (writes_field kNewFile
      (fun d => PutLengthPrefixedSlice (PutLengthPrefixedSlice (PutVarint64 (PutVarint64 (PutVarint32 d level) n) size) small) large)
      (PutVarint32 [] level ++ PutVarint64 [] n ++ PutVarint64 [] size ++
       PutLengthPrefixedSlice [] small ++ PutLengthPrefixedSlice [] large)); [done| |destruct Hsmall, Hlarge; read_field].
    intros dst. rewrite PutLengthPrefixedSlice_appends, (PutLengthPrefixedSlice_appends _ small).
    rewrite PutVarint64_appends, (PutVarint64_appends _ n), PutVarint32_appends. by rewrite <- !app_assoc. }
  exists (a ++ b). split.
  - intros dst. cbn [encode_new_files smallest largest number file_size]. rewrite !Encode_ok by done.
    cbn [mbind option_bind]. rewrite (proj1 (level_u32 _ Hlevel)). injection (Ha dst) as ->. by rewrite Hb, app_assoc.
  - eapply reads_app; [done|]. destruct e. unfold add_new_file, with_lists in *. cbn in *. by rewrite <- app_assoc in Hrb.
Qed.

Lemma number_bodies n e rest :
  GetVarint64 (PutVarint64 [] n ++ rest) = Some (n, rest) ->
  decode_field kLogNumber (PutVarint64 [] n ++ rest) e = inr (rest, with_log_number n e) /\
  decode_field kPrevLogNumber (PutVarint64 [] n ++ rest) e = inr (rest, with_prev_log_number n e) /\
  decode_field kNextFileNumber (PutVarint64 [] n ++ rest) e = inr (rest, with_next_file_number n e) /\
  decode_field kLastSequence (PutVarint64 [] n ++ rest) e = inr (rest, with_last_sequence n e).
Proof. intros Hget. unfold decode_field. simpl Z.eqb. cbn match. by rewrite Hget. Qed.

(** What decoding the encoding of [e] into [e0] yields. *)
Definition decoded (e0 e : VersionEdit) : VersionEdit :=
  with_lists (compact_pointers_ e0 ++ compact_pointers_ e) (deleted_files_ e) (new_files_ e) e.

Lemma EncodeTo_writes e e0 : edit_ok e -> writes (EncodeTo e) (Clear e0) (decoded e0 e).
Proof.
  intros [Hc Hn (U1 & U2 & U3 & U4 & U5) Hp [Hds Hd] Hf].
  repeat apply List.Forall_cons_iff in Hn as [? Hn].
  set (e1 := if has_comparator_ e then with_comparator (comparator_ e) (Clear e0) else Clear e0).
  set (e2 := if has_log_number_ e then with_log_number (log_number_ e) e1 else e1).
  set (e3 := if has_prev_log_number_ e then with_prev_log_number (prev_log_number_ e) e2 else e2).
  set (e4 := if has_next_file_number_ e then with_next_file_number (next_file_number_ e) e3 else e3).
  set (e5 := if has_last_sequence_ e then with_last_sequence (last_sequence_ e) e4 else e4).
  assert (writes (fun dst => dst ← encode_compact_pointers (compact_pointers_ e) dst;
    dst ← Some (encode_deleted_files (deleted_files_ e) dst); encode_new_files (new_files_ e) dst) e5 (decoded e0 e)) as Wlists.
  { assert (deleted_files_ e5 = []) as Hnil.
    { unfold e5, e4, e3, e2, e1. by destruct (has_last_sequence_ e), (has_next_file_number_ e),
        (has_prev_log_number_ e), (has_log_number_ e), (has_comparator_ e). }
    set (m1 := with_lists (compact_pointers_ e5 ++ compact_pointers_ e) (deleted_files_ e5) (new_files_ e5) e5).
    set (m2 := with_lists (compact_pointers_ m1) (deleted_files_ m1 ++ deleted_files_ e) (new_files_ m1) m1).
    apply (writes_bind _ _ _ m1); [by apply writes_compact_pointers|].
    apply (writes_bind _ _ _ m2); [apply writes_deleted_files; [|done]|].
    - unfold m1. cbn [deleted_files_ with_lists]. by rewrite Hnil.
    - replace (decoded e0 e) with (with_lists (compact_pointers_ m2) (deleted_files_ m2) (new_files_ m2 ++ new_files_ e) m2);
        [by apply writes_new_files|].
      unfold decoded, m2, m1, e5, e4, e3, e2, e1. clear - U1 U2 U3 U4 U5. destruct e. cbn in *.
      repeat match goal with b : bool |- _ => destruct b end; cbn;
        rewrite ?U1, ?U2, ?U3, ?U4, ?U5 by done; reflexivity. }
  change (writes (fun dst =>
    dst ← Some (if has_comparator_ e then PutLengthPrefixedSlice (PutVarint32 dst kComparator) (comparator_ e) else dst);
    dst ← Some (if has_log_number_ e then PutVarint64 (PutVarint32 dst kLogNumber) (log_number_ e) else dst);
    dst ← Some (if has_prev_log_number_ e then PutVarint64 (PutVarint32 dst kPrevLogNumber) (prev_log_number_ e) else dst);
    dst ← Some (if has_next_file_number_ e then PutVarint64 (PutVarint32 dst kNextFileNumber) (next_file_number_ e) else dst);
    dst ← Some (if has_last_sequence_ e then PutVarint64 (PutVarint32 dst kLastSequence) (last_sequence_ e) else dst);
    dst ← encode_compact_pointers (compact_pointers_ e) dst;
    dst ← Some (encode_deleted_files (deleted_files_ e) dst); encode_new_files (new_files_ e) dst) (Clear e0) (decoded e0 e)).
  eapply (writes_bind _ _ _ e1).
  { apply writes_if; unfold e1; intros ->; [by apply writes_comparator|done]. }
  eapply (writes_bind _ _ _ e2).
  { apply writes_if; unfold e2; intros ->; [|done]. apply writes_number; [done..|]. intros. by apply number_bodies. }
  eapply (writes_bind _ _ _ e3).
  { apply writes_if; unfold e3; intros ->; [|done]. apply writes_number; [done..|]. intros. by apply number_bodies. }
  eapply (writes_bind _ _ _ e4).
  { apply writes_if; unfold e4; intros ->; [|done]. apply writes_number; [done..|]. intros. by apply number_bodies. }
  eapply (writes_bind _ _ _ e5); [|exact Wlists].
  apply writes_if; unfold e5; intros ->; [|done]. apply writes_number; [done..|]. intros. by apply number_bodies.
Qed.

Lemma decode_encoded e e0 : edit_ok e -> exists bs,
  EncodeTo e [] = Some bs /\ DecodeFrom bs e0 = Some (Ok, decoded e0 e).
Proof.
  intros He. destruct (EncodeTo_writes e e0 He) as (bs & Hbs & Hr). exists bs. split; [by rewrite Hbs|].
  destruct (Hr [] (length bs)) as (n & _ & E); [by rewrite app_nil_r|]. rewrite app_nil_r in E.
  unfold DecodeFrom. rewrite E.
  assert (GetVarint32 [] = None) as Hnil.
  { destruct (GetVarint32 []) as [[v rest]|] eqn:Eg; [|done]. by apply (consumes_nil _ GetVarint32_consumes) in Eg. }
  destruct n; cbn [decode_loop]; rewrite Hnil; reflexivity.
Qed.

(** C31 (roundtrip): a well-formed edit encodes, and decoding its encoding into any
    edit succeeds and yields the fields, the files and the keys of the edit that
    was encoded; the compaction pointers the target held before are kept in front
    of the decoded ones, because [Clear] does not clear them. *)
Theorem version_edit_roundtrip e e0 : edit_ok e -> exists bs,
  EncodeTo e [] = Some bs /\ DecodeFrom bs e0 = Some (Ok, decoded e0 e).
Proof.
  intros He. destruct (decode_encoded e e0 He) as (bs & Hbs & Hd). by exists bs.
Qed.

(** ** Decoding arbitrary bytes *)

(** What decoding guarantees: 64-bit numbers, levels in range and a sorted set of deleted files. *)
Record decoded_ok (e : VersionEdit) : Prop := {
  dk_numbers : Forall (is_u 64) [log_number_ e; prev_log_number_ e; next_file_number_ e; last_sequence_ e];
  dk_pointers : Forall (fun p => level_ok p.1) (compact_pointers_ e);
  dk_deleted : Forall (fun p => level_ok p.1 /\ is_u 64 p.2) (deleted_files_ e) /\ StronglySorted pair_lt (deleted_files_ e);
  dk_new : Forall (fun p => level_ok p.1 /\ is_u 64 (number p.2) /\ is_u 64 (file_size p.2)) (new_files_ e) }.

Lemma pair_lt_trans p q r : pair_lt p q -> pair_lt q r -> pair_lt p r.
Proof. unfold pair_lt. lia. Qed.

Lemma pair_lt_total p q : pair_lt p q \/ p = q \/ pair_lt q p.
Proof. destruct p as [a b], q as [c d]. unfold pair_lt. simpl. destruct (decide (a = c)), (decide (b = d)); subst; auto; lia. Qed.

Lemma elem_of_set_insert p q l : q ∈ set_insert p l -> q = p \/ q ∈ l.
Proof.
  induction l as [|r l IH]; simpl; [rewrite list_elem_of_singleton; auto|].
  repeat case_decide; rewrite ?elem_of_cons; naive_solver.
Qed.

Lemma set_insert_sorted p l : StronglySorted pair_lt l -> StronglySorted pair_lt (set_insert p l).
Proof.
  induction 1 as [|q l Hs IH Hq]; simpl; [repeat constructor|].
  repeat case_decide; [| by constructor |].
  - constructor; [by constructor|]. constructor; [done|]. eapply List.Forall_impl; [|exact Hq].
    intros r. by apply pair_lt_trans.
  - constructor; [done|]. apply List.Forall_forall. intros r Hr%list_elem_of_In%elem_of_set_insert.
    rewrite List.Forall_forall in Hq. destruct Hr as [->|Hr]; [|by apply Hq, list_elem_of_In].
    by destruct (pair_lt_total p q) as [|[|]].
Qed.

Lemma GetLevel_range input level rest : GetLevel input = Some (level, rest) ->
  level_ok level /\ (length rest <= length input)%nat.
Proof.
  unfold GetLevel. destruct (GetVarint32 input) as [[v r]|] eqn:E; [|done]. cbn [mbind option_bind].
  destruct (Z.ltb_spec v kNumLevels); [|done]. intros [= <- <-].
  split; [pose proof (GetVarint32_range _ _ _ E); unfold level_ok, is_u in *; lia|].
  pose proof (consumes_length _ GetVarint32_consumes _ _ _ E). lia.
Qed.

Lemma GetInternalKey_length input k rest : GetInternalKey input = Some (k, rest) -> (length rest <= length input)%nat.
Proof.
  unfold GetInternalKey. destruct (GetLengthPrefixedSlice input) as [[v r]|] eqn:E; [|done]. cbn [mbind option_bind].
  intros [= <- <-]. pose proof (consumes_length _ GetLengthPrefixedSlice_consumes _ _ _ E). lia.
Qed.

(** The readers of a body: take the outermost one apart. *)
Ltac take_reader :=
  match goal with
  | |- context [mbind _ ?r] =>
      let E := fresh "E" in destruct r as [[? ?]|] eqn:E; cbn [mbind option_bind field]; [|done];
      first [apply GetLevel_range in E as [? ?]|apply GetInternalKey_length in E
            |pose proof (GetVarint64_range _ _ _ E); apply (consumes_length _ GetVarint64_consumes) in E
            |apply (consumes_length _ GetLengthPrefixedSlice_consumes) in E]
  end.

Lemma decode_field_ok tag input e rest e' : decoded_ok e -> decode_field tag input e = inr (rest, e') ->
  decoded_ok e' /\ (length rest <= length input)%nat.
Proof.
  intros [Hu Hp [Hd Hs] Hn]. rewrite !List.Forall_cons_iff in Hu. destruct Hu as (U1 & U2 & U3 & U4 & _).
  unfold decode_field. repeat case_match; try done; repeat take_reader;
    intros [= <- <-]; (split; [|lia]); split; try done; cbn; try (rewrite !List.Forall_cons_iff; split_and!; done).
  - apply Forall_app. split; [done|]. by apply Forall_singleton.
  - split; [|by apply set_insert_sorted]. apply List.Forall_forall.
    intros q [->|Hq]%list_elem_of_In%elem_of_set_insert; [done|].
    rewrite List.Forall_forall in Hd. by apply Hd, list_elem_of_In.
  - apply Forall_app. split; [done|]. by apply Forall_singleton.
Qed.

(** C36 (type): decoding returns on any bytes, into any edit, and whatever the status
    the edit it leaves has 64-bit numbers and sizes, levels from 0 to [kNumLevels - 1] and its deleted files in a
    sorted set, if the compaction pointers that were there before have such levels. *)
Theorem version_edit_decode_type src e0 : Forall (fun p => level_ok p.1) (compact_pointers_ e0) ->
  exists st e, DecodeFrom src e0 = Some (st, e) /\ decoded_ok e.
Proof.
  intros H0'. unfold DecodeFrom.
  assert (forall n input e, (length input <= n)%nat -> decoded_ok e ->
    exists msg rest e', decode_loop n input e = Some (msg, rest, e') /\ decoded_ok e') as Hloop.
  { induction n as [|n IH]; intros input e Hlen He; cbn [decode_loop];
      (destruct (GetVarint32 input) as [[tag rest]|] eqn:Et; [|by eexists _, _, _]);
      pose proof (consumes_length _ GetVarint32_consumes _ _ _ Et) as Hrest; [lia|].
    destruct (decode_field tag rest e) as [msg|[rest' e']] eqn:Ed; [by eexists _, _, _|].
    destruct (decode_field_ok _ _ _ _ _ He Ed) as [He' Hr']. apply IH; [lia|done]. }
  destruct (Hloop (length src) src (Clear e0)) as (msg & rest & e & -> & He); [done|split; cbn; rewrite ?List.Forall_cons_iff; by repeat constructor|].
  eexists _, _. split; [done|exact He].
Qed.
End proofs.

(** ** Examples *)

#[local] Existing Instance reference_coding.

Definition demo_edit : VersionEdit :=
  Edit [98; 121] 7 0 300 5 true true false true true [(1, [1; 2])] [(0, 4); (2, 3)] [(2, FileMeta 300 5000 [1] [9])].

Lemma demo_edit_ok : edit_ok demo_edit.
Proof. split; cbn; repeat constructor; try done; intros E; discriminate E. Qed.

Lemma version_edit_roundtrip_witness : exists bs, EncodeTo demo_edit [] = Some bs /\
  DecodeFrom bs VersionEdit_new = Some (Ok, demo_edit).
Proof. exact (@version_edit_roundtrip _ reference_coding_laws demo_edit VersionEdit_new demo_edit_ok). Defined.

(** A corrupted file entry, its level out of range. *)
Lemma version_edit_decode_type_witness : exists st e, DecodeFrom [7; 9; 1; 1] VersionEdit_new = Some (st, e) /\ decoded_ok e.
Proof. apply (@version_edit_decode_type _ reference_coding_laws). constructor. Defined.

Example bad_level : DecodeFrom [7; 9; 1; 1] VersionEdit_new = Some (Corruption "new-file entry", VersionEdit_new).
Proof. vm_compute. reflexivity. Qed.

(** [Clear] leaves the compaction pointers: an edit that is used to decode two
    records holds the pointers of both. *)
Example compact_pointers_accumulate :
  ('(_, e) ← DecodeFrom [5; 1; 1; 65] VersionEdit_new; '(_, e) ← DecodeFrom [5; 2; 1; 66] e; Some (compact_pointers_ e)) =
  Some [(1, [65]); (2, [66])].
Proof. vm_compute. reflexivity. Qed.

(** An empty key is decoded without complaint, and then cannot be encoded. *)
Example empty_key_decodes :
  exists e, DecodeFrom [5; 1; 0] VersionEdit_new = Some (Ok, e) /\ EncodeTo e [] = None.
Proof. eexists. split; [vm_compute; reflexivity|vm_compute; reflexivity]. Qed.
