(* ===== verification/BlockIter.v ===== *)
(** * Table blocks and their iterator ([leveldb-library/table/block.cc])

    A block is a sequence of entries whose keys share prefixes with the keys
    before them, an array of restart points, the offsets of entries that share
    nothing, and the length of that array. [Block::Iter] walks the entries, and
    searches them by a binary search over the restart points.

    A pointer into the block is its offset; the bytes from [p] to [limit] are a
    list. The header with the class [Block] is not in the repository; its
    [restart_offset_] is 32 bits wide as the parameter it is passed for. A slice
    of the block is its offset and its length; [None] stands for the cleared
    slice, which does not point into the block. Reading past the block and a
    failed assertion are [None]. *)

From Stdlib Require Import String.
From stdpp Require Import base list.
From S2P Require Import Prelude Cursor Coding.

#[local] Open Scope Z_scope.

(** [len] bytes from the offset [off]. *)
Definition bytes_at (data : list Z) (off len : Z) : option (list Z) :=
  if (0 <=? off) && (off + len <=? Z.of_nat (length data))
  then Some (take (Z.to_nat len) (drop (Z.to_nat off) data)) else None.

Section block.
Context `{Comparator} `{Coding}.

(** ** The block *)

Record Block := mkBlock { data_ : list Z; size_ : Z; restart_offset_ : Z }.

(** The number at [data_ + size_ - 4]. *)
Definition num_restarts_at (data : list Z) (size : Z) : option Z :=
  _ ← assert_ (4 <=? size); bs ← bytes_at data (size - 4) 4; Some (DecodeFixed32 bs).

Definition NumRestarts (b : Block) : option Z := num_restarts_at (data_ b) (size_ b).

Definition Block_new (contents : list Z) : option Block :=
  let size := Z.of_nat (length contents) in
  if size <? 4 then Some (mkBlock contents 0 0)
  else
    let max_restarts_allowed := (size - 4) `div` 4 in
    num ← num_restarts_at contents size;
    if max_restarts_allowed <? num then Some (mkBlock contents 0 0)
    else Some (mkBlock contents size (wrap 32 (size - wrap 32 (1 + num) * 4))).

(** The lengths of an entry and the bytes after them; [None] for [nullptr]. *)
Definition DecodeEntry (p : list Z) : option (Z * Z * Z * list Z) :=
  match p with
  | b0 :: b1 :: b2 :: rest =>
      '(shared, non_shared, value_length, p) ←
        (if Z.lor (Z.lor b0 b1) b2 <? 128 then Some (b0, b1, b2, rest)
         else
           '(shared, p) ← GetVarint32Ptr p; '(non_shared, p) ← GetVarint32Ptr p;
           '(value_length, p) ← GetVarint32Ptr p; Some (shared, non_shared, value_length, p));
      if wrap 32 (Z.of_nat (length p)) <? wrap 32 (non_shared + value_length) then None
      else Some (shared, non_shared, value_length, p)
  | _ => None
  end.

(** ** The iterator *)

Record BlockIter := mkIter {
  bi_data : list Z; restarts_ : Z; num_restarts_ : Z;
  current_ : Z; restart_index_ : Z; key_ : list Z; value_ : option (Z * Z); status_ : Status }.

Definition with_current c it := mkIter (bi_data it) (restarts_ it) (num_restarts_ it) c (restart_index_ it)
  (key_ it) (value_ it) (status_ it).
Definition with_index i it := mkIter (bi_data it) (restarts_ it) (num_restarts_ it) (current_ it) i
  (key_ it) (value_ it) (status_ it).
Definition with_entry k v it := mkIter (bi_data it) (restarts_ it) (num_restarts_ it) (current_ it) (restart_index_ it)
  k v (status_ it).

Definition Iter_new (data : list Z) (restarts num_restarts : Z) : option BlockIter :=
  _ ← assert_ (0 <? num_restarts);
  Some (mkIter data restarts num_restarts restarts num_restarts [] None Ok).

Definition NextEntryOffset (it : BlockIter) : option Z := '(off, len) ← value_ it; Some (wrap 32 (off + len)).

Definition GetRestartPoint (it : BlockIter) (index : Z) : option Z :=
  _ ← assert_ (index <? num_restarts_ it);
  bs ← bytes_at (bi_data it) (restarts_ it + index * 4) 4; Some (DecodeFixed32 bs).

Definition SeekToRestartPoint (index : Z) (it : BlockIter) : option BlockIter :=
  offset ← GetRestartPoint it index;
  Some (with_entry [] (Some (offset, 0)) (with_index index it)).

Definition CorruptionError (it : BlockIter) : BlockIter :=
  mkIter (bi_data it) (restarts_ it) (num_restarts_ it) (restarts_ it) (num_restarts_ it)
    [] None (Corruption "bad entry in block").

Definition Block_Valid (it : BlockIter) : bool := current_ it <? restarts_ it.

Definition Block_key (it : BlockIter) : option (list Z) := _ ← assert_ (Block_Valid it); Some (key_ it).

Definition Block_value (it : BlockIter) : option (list Z) :=
  _ ← assert_ (Block_Valid it); '(off, len) ← value_ it; bytes_at (bi_data it) off len.

(** The entries from the offset [off] to the restart array. *)
Definition entries_from (it : BlockIter) (off : Z) : list Z :=
  drop (Z.to_nat off) (take (Z.to_nat (restarts_ it)) (bi_data it)).

(** ** Parsing *)

Fixpoint advance_restart (fuel : nat) (it : BlockIter) : option BlockIter :=
  if restart_index_ it + 1 <? num_restarts_ it then
    point ← GetRestartPoint it (restart_index_ it + 1);
    if point <? current_ it then
      match fuel with O => None | S fuel => advance_restart fuel (with_index (restart_index_ it + 1) it) end
    else Some it
  else Some it.

Definition ParseNextKey (it : BlockIter) : option (bool * BlockIter) :=
  current ← NextEntryOffset it;
  let it := with_current current it in
  if restarts_ it <=? current then
    Some (false, with_index (num_restarts_ it) (with_current (restarts_ it) it))
  else
    match DecodeEntry (entries_from it current) with
    | None => Some (false, CorruptionError it)
    | Some (shared, non_shared, value_length, p) =>
        if Z.of_nat (length (key_ it)) <? shared then Some (false, CorruptionError it)
        else
          let key_ptr := restarts_ it - Z.of_nat (length p) in
          delta ← bytes_at (bi_data it) key_ptr non_shared;
          let it := with_entry (take (Z.to_nat shared) (key_ it) ++ delta)
            (Some (key_ptr + non_shared, value_length)) it in
          it ← advance_restart (Z.to_nat (num_restarts_ it)) it;
          Some (true, it)
    end.

(** ** Moving *)

Definition Block_Next (it : BlockIter) : option BlockIter :=
  _ ← assert_ (Block_Valid it); '(_, it) ← ParseNextKey it; Some it.

(** The loop of [Prev] that goes back to a restart point before [original]; [false]
    when there is none. *)
Fixpoint prev_restart (fuel : nat) (original : Z) (it : BlockIter) : option (bool * BlockIter) :=
  point ← GetRestartPoint it (restart_index_ it);
  if original <=? point then
    if restart_index_ it =? 0 then
      Some (false, with_index (num_restarts_ it) (with_current (restarts_ it) it))
    else
      match fuel with O => None | S fuel => prev_restart fuel original (with_index (restart_index_ it - 1) it) end
  else Some (true, it).

(** [do {} while (ParseNextKey() && NextEntryOffset() < bound)] *)
Fixpoint parse_until (fuel : nat) (bound : Z) (it : BlockIter) : option BlockIter :=
  match fuel with
  | O => None
  | S fuel =>
      '(parsed, it) ← ParseNextKey it;
      if parsed : bool then
        next ← NextEntryOffset it;
        if next <? bound then parse_until fuel bound it else Some it
      else Some it
  end.

(** Every entry takes at least three bytes. *)
Definition parse_fuel (it : BlockIter) : nat := S (length (bi_data it)).

Definition Block_Prev (it : BlockIter) : option BlockIter :=
  _ ← assert_ (Block_Valid it);
  let original := current_ it in
  '(found, it) ← prev_restart (Z.to_nat (restart_index_ it)) original it;
  if found : bool then
    it ← SeekToRestartPoint (restart_index_ it) it;
    parse_until (parse_fuel it) original it
  else Some it.

(** The binary search; [None] inside when an entry at a restart point is bad. *)
Fixpoint search_restarts (fuel : nat) (target : list Z) (left right : Z) (it : BlockIter) : option (option Z) :=
  if left <? right then
    match fuel with
    | O => None
    | S fuel =>
        let mid := wrap 32 (left + right + 1) `div` 2 in
        region_offset ← GetRestartPoint it mid;
        match DecodeEntry (entries_from it region_offset) with
        | None => Some None
        | Some (shared, non_shared, value_length, p) =>
            if negb (shared =? 0) then Some None
            else
              mid_key ← bytes_at (bi_data it) (restarts_ it - Z.of_nat (length p)) non_shared;
              if Compare mid_key target <? 0 then search_restarts fuel target mid right it
              else search_restarts fuel target left (mid - 1) it
        end
    end
  else Some (Some left).

Fixpoint linear_search (fuel : nat) (target : list Z) (it : BlockIter) : option BlockIter :=
  match fuel with
  | O => None
  | S fuel =>
      '(parsed, it) ← ParseNextKey it;
      if negb parsed then Some it
      else if 0 <=? Compare (key_ it) target then Some it
      else linear_search fuel target it
  end.

Definition Block_Seek (target : list Z) (it : BlockIter) : option BlockIter :=
  found ← search_restarts (Z.to_nat (num_restarts_ it)) target 0 (num_restarts_ it - 1) it;
  match found with
  | None => Some (CorruptionError it)
  | Some index => it ← SeekToRestartPoint index it; linear_search (parse_fuel it) target it
  end.

Definition Block_SeekToFirst (it : BlockIter) : option BlockIter :=
  it ← SeekToRestartPoint 0 it; '(_, it) ← ParseNextKey it; Some it.

Definition Block_SeekToLast (it : BlockIter) : option BlockIter :=
  it ← SeekToRestartPoint (num_restarts_ it - 1) it; parse_until (parse_fuel it) (restarts_ it) it.

#[export] Instance Block_Iterator : Iterator BlockIter := {|
  it_Valid := Block_Valid; it_key := Block_key; it_value := Block_value; it_status := status_;
  it_Next := Block_Next; it_Prev := Block_Prev; it_Seek := Block_Seek;
  it_SeekToFirst := Block_SeekToFirst; it_SeekToLast := Block_SeekToLast |}.

(** [Block::NewIterator]: an iterator that reports an error, an empty one, or one
    over the entries. The first two are built by [table/iterator.cc], which is not
    in the repository. *)
Inductive NewIterator_result := ErrorIterator (s : Status) | EmptyIterator | BlockIterator (it : BlockIter).

Definition NewIterator (b : Block) : option NewIterator_result :=
  if size_ b <? 4 then Some (ErrorIterator (Corruption "bad block contents"))
  else
    num_restarts ← NumRestarts b;
    if num_restarts =? 0 then Some EmptyIterator
    else it ← Iter_new (data_ b) (restart_offset_ b) num_restarts; Some (BlockIterator it).
End block.
