(* ===== verification/BlockProps.v ===== *)
(** * Blocks read back what they encode ([leveldb-library/table/block.cc])

    The format of a block as a function from its entries to bytes, and the proof
    that the iterator of [BlockIter.v] over an encoded block implements the
    iterator interface of [Cursor.v] for the entries. *)

From Stdlib Require Import String Sorting.Sorted.
From stdpp Require Import base list sorting.
From S2P Require Import Prelude Cursor Coding BlockIter.

#[local] Open Scope Z_scope.

(** ** The format *)

Section format.
Context `{Coding}.

(** An entry that shares [s] bytes of its key with the key before it. *)
Definition entry_bytes (x : nat * entry) : list Z :=
  let '(s, (k, v)) := x in
  PutVarint32 [] (Z.of_nat s) ++ PutVarint32 [] (Z.of_nat (length k - s)) ++ PutVarint32 [] (Z.of_nat (length v)) ++
  drop s k ++ v.

Definition body (l : list (nat * entry)) : list Z := l ≫= entry_bytes.

(** The offset of the entry of index [i]. *)
Definition offset (l : list (nat * entry)) (i : nat) : nat := length (body (take i l)).

(** The block with the entries [l] and restart points at the entries [rp]. *)
Definition block_bytes (l : list (nat * entry)) (rp : list nat) : list Z :=
  body l ++ (rp ≫= fun i => le_bytes 4 (Z.of_nat (offset l i))) ++ le_bytes 4 (Z.of_nat (length rp)).

(** What an entry shares it has in common with the entry before it. *)
Definition shares (l : list (nat * entry)) : Prop :=
  forall i s k v, l !! i = Some (s, (k, v)) -> (s <= length k)%nat /\
    (s <> 0%nat -> exists j s' k' v', i = S j /\ l !! j = Some (s', (k', v')) /\ (s <= length k')%nat /\ take s k = take s k').

(** Restart points are in order, from the first entry on, and share nothing. *)
Definition restart_points (l : list (nat * entry)) (rp : list nat) : Prop :=
  head rp = Some 0%nat /\ StronglySorted lt rp /\
  forall i, i ∈ rp -> match l !! i with Some x => x.1 = 0%nat | None => l = [] /\ i = 0%nat end.

Record block_format (l : list (nat * entry)) (rp : list nat) : Prop := {
  bf_shares : shares l;
  bf_keys : Forall (fun x : nat * entry => Z.of_nat (length x.2.1) < 2 ^ 32) l;
  bf_restarts : restart_points l rp;
  bf_small : Z.of_nat (length (block_bytes l rp)) < 2 ^ 32 }.
End format.

(** ** Decoding an entry *)

Section decode.
Context `{Comparator} `{CodingLaws}.

Lemma lor_ge a b : 0 <= a -> 0 <= b -> 128 <= a \/ 128 <= b -> 128 <= Z.lor a b.
Proof.
  intros Ha Hb Hab. assert (0 <= Z.lor a b) by by apply Z.lor_nonneg.
  destruct (Z.lt_ge_cases (Z.lor a b) 128) as [Hlt|]; [|done]. exfalso.
  assert (forall x, 0 <= x -> 128 <= x -> 7 <= Z.log2 x) as Hlog.
  { intros x _ Hx. change 7 with (Z.log2 128). by apply Z.log2_le_mono. }
  assert (Z.log2 (Z.lor a b) < 7) as Hl.
  { destruct (decide (Z.lor a b = 0)) as [->|]; [done|]. apply Z.log2_lt_pow2; [lia|done]. }
  rewrite Z.log2_lor in Hl by done. destruct Hab as [Hx|Hx]; apply Hlog in Hx; lia.
Qed.

Lemma lor3_ge a b c : 0 <= a -> 0 <= b -> 0 <= c -> 128 <= a \/ 128 <= b \/ 128 <= c -> 128 <= Z.lor (Z.lor a b) c.
Proof.
  intros Ha Hb Hc Habc. assert (0 <= Z.lor a b) by by apply Z.lor_nonneg.
  destruct (decide (128 <= c)); [apply lor_ge; auto|]. apply lor_ge; [done|done|left; apply lor_ge; [done..|lia]].
Qed.

Lemma varint_cons v : is_u 32 v ->
  exists b bs, PutVarint32 [] v = b :: bs /\ is_byte b /\ (v < 128 -> b = v /\ bs = []) /\ (128 <= v -> 128 <= b).
Proof.
  intros Hv. pose proof (PutVarint32_bytes v Hv) as Hb. unfold is_u in Hv.
  destruct (decide (v < 128)) as [Hlt|Hge].
  - rewrite PutVarint32_short in * by lia. exists v, []. split_and!; try done. by inversion Hb.
  - destruct (PutVarint32_long v) as (b & bs & E & ?); [lia|]. rewrite E in *. exists b, bs.
    split; [done|]. split; [by inversion Hb|]. split; [lia|]. intros _. lia.
Qed.

Lemma DecodeEntry_encoded a b c rest : is_u 32 a -> is_u 32 b -> is_u 32 c ->
  b + c <= Z.of_nat (length rest) < 2 ^ 32 ->
  DecodeEntry (PutVarint32 [] a ++ PutVarint32 [] b ++ PutVarint32 [] c ++ rest) = Some (a, b, c, rest).
Proof.
  intros Ha Hb Hc Hlen.
  destruct (varint_cons a Ha) as (a0 & as_ & Ea & Ha0 & Ha1 & Ha2), (varint_cons b Hb) as (b0 & bs & Eb & Hb0 & Hb1 & Hb2),
    (varint_cons c Hc) as (c0 & cs & Ec & Hc0 & Hc1 & Hc2).
  assert (exists x0 x1 x2 tl, PutVarint32 [] a ++ PutVarint32 [] b ++ PutVarint32 [] c ++ rest = x0 :: x1 :: x2 :: tl /\
    ((Z.lor (Z.lor x0 x1) x2 < 128 /\ x0 = a /\ x1 = b /\ x2 = c /\ tl = rest) \/ 128 <= Z.lor (Z.lor x0 x1) x2))
    as (x0 & x1 & x2 & tl & E & Hx).
  { assert (bytes (PutVarint32 [] a ++ PutVarint32 [] b ++ PutVarint32 [] c)) as Hall.
    { rewrite !Forall_app. split_and!; by apply PutVarint32_bytes. }
    rewrite Ea, Eb, Ec in *. destruct (decide (a < 128 /\ b < 128 /\ c < 128)) as [(Hla & Hlb & Hlc)|Hge].
    - destruct (Ha1 Hla) as [-> ->], (Hb1 Hlb) as [-> ->], (Hc1 Hlc) as [-> ->].
      eexists _, _, _, _. split; [reflexivity|]. left. split_and!; try done.
      assert (is_u 7 (Z.lor (Z.lor a b) c)) as Hu; [|apply Hu]. unfold is_u in *. repeat apply is_u_lor; unfold is_u; lia.
    - rewrite !Forall_app, !List.Forall_cons_iff in Hall. unfold is_u in *.
      assert (as_ <> [] -> 128 <= a) as Has by (intros Hn; destruct (decide (a < 128)) as [Hl|]; [by destruct (Ha1 Hl)|lia]).
      assert (bs <> [] -> 128 <= b) as Hbs by (intros Hn; destruct (decide (b < 128)) as [Hl|]; [by destruct (Hb1 Hl)|lia]).
      destruct as_ as [|a1 [|a2 as_]]; [destruct bs as [|b1 bs]|..];
        rewrite ?List.Forall_cons_iff in Hall; cbn [app]; eexists _, _, _, _; (split; [reflexivity|]); right;
        try specialize (Has ltac:(done)); try specialize (Hbs ltac:(done)); apply lor3_ge; lia. }
  assert (wrap 32 (Z.of_nat (length rest)) = Z.of_nat (length rest)) as Hw1 by (apply wrap_small; unfold is_u; lia).
  assert (wrap 32 (b + c) = b + c) as Hw2 by (apply wrap_small; unfold is_u in *; lia).
  rewrite E. unfold DecodeEntry. destruct Hx as [(Hlt & -> & -> & -> & ->)|Hge].
  - rewrite (proj2 (Z.ltb_lt _ _) Hlt). cbn [mbind option_bind]. rewrite Hw1, Hw2, (proj2 (Z.ltb_ge _ _)) by lia. done.
  - rewrite (proj2 (Z.ltb_ge _ _) Hge), <- E. rewrite !GetVarint32Ptr_eq, PutVarint32_reads_back by done.
    cbn [mbind option_bind]. rewrite GetVarint32Ptr_eq, PutVarint32_reads_back by done. cbn [mbind option_bind].
    rewrite GetVarint32Ptr_eq, PutVarint32_reads_back by done. cbn [mbind option_bind].
    rewrite Hw1, Hw2, (proj2 (Z.ltb_ge _ _)) by lia. done.
Qed.
End decode.

(** ** The layout of a block *)

Section layout.
Context `{Comparator} `{CodingLaws} (l : list (nat * entry)) (rp : list nat) (Hf : block_format l rp).

Abbreviation data := (block_bytes l rp).
Abbreviation off := (offset l).

Lemma body_app l1 l2 : body (l1 ++ l2) = body l1 ++ body l2.
Proof using. apply bind_app. Qed.

Lemma offset_S i x : l !! i = Some x -> off (S i) = (off i + length (entry_bytes x))%nat.
Proof using.
  intros Hx. unfold offset. rewrite (take_S_r _ _ _ Hx), body_app, length_app. f_equal. unfold body. simpl.
  by rewrite app_nil_r.
Qed.

Lemma offset_end i : (length l <= i)%nat -> off i = length (body l).
Proof using. intros Hi. unfold offset. by rewrite take_ge. Qed.

Lemma offset_0 : off 0 = 0%nat.
Proof using. done. Qed.

Lemma offset_le i : (off i <= length (body l))%nat.
Proof using. unfold offset. rewrite <- (take_drop i l) at 2. rewrite body_app, length_app. lia. Qed.

Lemma drop_body i : drop (off i) (body l) = body (drop i l).
Proof using. unfold offset. rewrite <- (take_drop i l) at 2. by rewrite body_app, drop_app_length. Qed.

Lemma length_restarts ps : length (ps ≫= fun i => le_bytes 4 (Z.of_nat (off i))) = (4 * length ps)%nat.
Proof using. induction ps as [|i ps IH]; [done|]. cbn [mbind list_bind]. rewrite length_app, IH, length_le_bytes. simpl. lia. Qed.

Lemma length_data : length data = (length (body l) + 4 * length rp + 4)%nat.
Proof using. unfold block_bytes. rewrite !length_app, length_restarts, length_le_bytes. lia. Qed.

Lemma body_small : Z.of_nat (length (body l)) + 4 * Z.of_nat (length rp) + 4 < 2 ^ 32.
Proof using Hf. pose proof (bf_small _ _ Hf) as Hs. rewrite length_data in Hs. lia. Qed.

Lemma entry_sizes i s k v : l !! i = Some (s, (k, v)) ->
  (s <= length k)%nat /\ is_u 32 (Z.of_nat s) /\ is_u 32 (Z.of_nat (length k - s)) /\ is_u 32 (Z.of_nat (length v)).
Proof using Hf.
  intros Hi. destruct (bf_shares _ _ Hf _ _ _ _ Hi) as [Hs _].
  pose proof (Forall_lookup_1 _ _ _ _ (bf_keys _ _ Hf) Hi) as Hk. cbn [fst snd] in Hk.
  assert (length v <= length (body l))%nat as Hv.
  { pose proof (offset_le (S i)) as Ho. rewrite (offset_S _ _ Hi) in Ho. unfold entry_bytes in Ho.
    rewrite !length_app in Ho. lia. }
  pose proof body_small. unfold is_u. split_and!; lia.
Qed.

Lemma length_entry_bytes i x : l !! i = Some x -> (3 <= length (entry_bytes x))%nat.
Proof using Hf H1.
  destruct x as [s [k v]]. intros Hi. destruct (entry_sizes _ _ _ _ Hi) as (_ & H1' & H2' & H3').
  unfold entry_bytes. rewrite !length_app.
  destruct (varint_cons _ H1') as (? & ? & -> & _), (varint_cons _ H2') as (? & ? & -> & _),
    (varint_cons _ H3') as (? & ? & -> & _). simpl. lia.
Qed.

Lemma offset_step i : (i < length l)%nat -> (off i + 3 <= off (S i))%nat.
Proof using Hf H1.
  intros Hi. apply lookup_lt_is_Some in Hi as [x Hx]. rewrite (offset_S _ _ Hx).
  pose proof (length_entry_bytes _ _ Hx). lia.
Qed.

Lemma offset_lt i j : (i < j <= length l)%nat -> (off i < off j)%nat.
Proof using Hf H1.
  intros [Hij Hj]. revert Hj. induction Hij as [|j Hij IH]; intros Hj.
  - pose proof (offset_step i Hj). lia.
  - pose proof (offset_step j Hj). specialize (IH ltac:(lia)). lia.
Qed.

Lemma offset_lt_iff i j : (i <= length l)%nat -> (j <= length l)%nat -> (off i < off j)%nat <-> (i < j)%nat.
Proof using Hf H1.
  intros Hi Hj. split; [|intros; by apply offset_lt]. intros Ho. destruct (decide (i < j)%nat); [done|]. exfalso.
  destruct (decide (i = j)) as [->|]; [lia|]. pose proof (offset_lt j i ltac:(lia)). lia.
Qed.

Lemma length_le_body : (length l <= length (body l))%nat.
Proof using Hf H1.
  assert (forall i, (i <= length l)%nat -> (i <= off i)%nat) as Hi; [|specialize (Hi (length l)); rewrite offset_end in Hi; lia].
  induction i as [|i IH]; [lia|]. intros Hi. pose proof (offset_lt i (S i) ltac:(lia)). specialize (IH ltac:(lia)). lia.
Qed.

(** ** Reading the restart array *)

Lemma bytes_at_app a b c : bytes_at (a ++ b ++ c) (Z.of_nat (length a)) (Z.of_nat (length b)) = Some b.
Proof using.
  unfold bytes_at. rewrite !length_app. rewrite (proj2 (Z.leb_le 0 _)), (proj2 (Z.leb_le _ _)) by lia. cbn [andb].
  rewrite !Nat2Z.id. by rewrite drop_app_length, take_app_length.
Qed.

Lemma le4_decode n : Z.of_nat n < 2 ^ 32 -> DecodeFixed32 (le_bytes 4 (Z.of_nat n)) = Z.of_nat n.
Proof using H1.
  intros Hn. rewrite <- (app_nil_r (le_bytes _ _)), DecodeFixed32_le by apply length_le_bytes.
  rewrite le_val_bytes, Z.mod_small; [done|]. change (256 ^ Z.of_nat 4) with (2 ^ 32). lia.
Qed.

Lemma restart_word j i : rp !! j = Some i ->
  bytes_at data (Z.of_nat (length (body l)) + Z.of_nat j * 4) 4 = Some (le_bytes 4 (Z.of_nat (off i))).
Proof using.
  intros Hj. rewrite <- (take_drop_middle rp j i Hj) at 1. unfold block_bytes.
  rewrite bind_app, bind_cons, <- !app_assoc. rewrite (app_assoc (body l)).
  eapply eq_trans;
    [|apply (bytes_at_app (body l ++ (take j rp ≫= fun i => le_bytes 4 (Z.of_nat (off i)))) (le_bytes 4 (Z.of_nat (off i))))].
  f_equal.
  rewrite length_app, length_restarts, length_take_le by (apply lookup_lt_Some in Hj; lia). lia.
Qed.

Lemma num_restarts_word :
  bytes_at data (Z.of_nat (length data) - 4) 4 = Some (le_bytes 4 (Z.of_nat (length rp))).
Proof using.
  eapply eq_trans; [|apply (bytes_at_app (body l ++ (rp ≫= fun i => le_bytes 4 (Z.of_nat (off i))))
    (le_bytes 4 (Z.of_nat (length rp))) [])].
  f_equal; [by rewrite app_nil_r, <- app_assoc|].
  rewrite length_data, length_app, length_restarts. lia.
Qed.
(** ** The positions of the iterator *)

Definition based (it : BlockIter) : Prop :=
  bi_data it = data /\ restarts_ it = Z.of_nat (length (body l)) /\ num_restarts_ it = Z.of_nat (length rp) /\ status_ it = Ok.

(** The next entry to parse is the one of index [i]. *)
Definition ready (it : BlockIter) (i : nat) : Prop :=
  based it /\ (exists j r, restart_index_ it = Z.of_nat j /\ rp !! j = Some r /\ (r <= i)%nat) /\
  (exists o n, value_ it = Some (o, n) /\ o + n = Z.of_nat (off i)) /\
  forall s k v, l !! i = Some (s, (k, v)) -> (s <= length (key_ it))%nat /\ take s (key_ it) = take s k.

(** The restart index is the one of a restart point at or before the entry, and
    the next restart point is not before the entry. *)
Definition block_at (it : BlockIter) (p : option nat) : Prop :=
  based it /\
  match p with
  | None => current_ it = restarts_ it
  | Some i => exists s k v, l !! i = Some (s, (k, v)) /\ current_ it = Z.of_nat (off i) /\ key_ it = k /\
      value_ it = Some (Z.of_nat (off (S i)) - Z.of_nat (length v), Z.of_nat (length v)) /\
      exists j r, restart_index_ it = Z.of_nat j /\ rp !! j = Some r /\ (r <= i)%nat /\
        forall r', rp !! S j = Some r' -> (i <= r')%nat
  end.

Lemma restart_le j r : rp !! j = Some r -> (r <= length l)%nat /\ (r = length l -> l = []).
Proof using Hf.
  intros Hj. destruct (bf_restarts _ _ Hf) as (_ & _ & Hr). specialize (Hr r ltac:(by eapply list_elem_of_lookup_2)).
  destruct (l !! r) as [x|] eqn:Hx; [apply lookup_lt_Some in Hx; split; lia|]. destruct Hr as [-> ->]. by split.
Qed.

Lemma GetRestartPoint_ok it j r : based it -> rp !! j = Some r ->
  GetRestartPoint it (Z.of_nat j) = Some (Z.of_nat (off r)).
Proof using Hf H1.
  intros (Hd & Hr & Hn & _) Hj. unfold GetRestartPoint. rewrite Hn, Hr, Hd.
  pose proof (lookup_lt_Some _ _ _ Hj). rewrite (proj2 (Z.ltb_lt _ _)) by lia. cbn [assert_ mbind option_bind].
  rewrite (restart_word j r Hj). cbn [mbind option_bind]. rewrite le4_decode; [done|].
  pose proof (offset_le r). pose proof body_small. lia.
Qed.

Lemma advance_restart_ok fuel it i j r : based it -> current_ it = Z.of_nat (off i) -> (i <= length l)%nat ->
  restart_index_ it = Z.of_nat j -> rp !! j = Some r -> (r <= i)%nat -> (length rp - j <= fuel)%nat ->
  exists j' r', advance_restart fuel it = Some (with_index (Z.of_nat j') it) /\ rp !! j' = Some r' /\ (r' <= i)%nat /\
    forall r'', rp !! S j' = Some r'' -> (i <= r'')%nat.
Proof using Hf H1.
  intros Hb Hc Hi. revert it j r Hb Hc. induction fuel as [|fuel IH]; intros it j r Hb Hc Hj Hr Hri Hfuel.
  { pose proof (lookup_lt_Some _ _ _ Hr). lia. }
  pose proof Hb as (_ & _ & Hn & _). cbn [advance_restart]. rewrite Hn, Hj.
  assert (with_index (Z.of_nat j) it = it) as Hsame by (rewrite <- Hj; by destruct it).
  destruct (rp !! S j) as [r'|] eqn:Hr'.
  - pose proof (lookup_lt_Some _ _ _ Hr'). rewrite (proj2 (Z.ltb_lt _ _)) by lia.
    replace (Z.of_nat j + 1) with (Z.of_nat (S j)) by lia. rewrite (GetRestartPoint_ok _ _ _ Hb Hr').
    cbn [mbind option_bind]. rewrite Hc. destruct (restart_le _ _ Hr') as [Hle _].
    destruct (Z.ltb_spec (Z.of_nat (off r')) (Z.of_nat (off i))) as [Hlt|Hge].
    + assert (r' < i)%nat by (apply offset_lt_iff; [done|done|lia]).
      destruct (IH (with_index (Z.of_nat (S j)) it) (S j) r') as (j' & r2 & E & ?); [done|done|done|done|lia|lia|].
      exists j', r2. split; [|done]. rewrite E. by destruct it.
    + exists j, r. rewrite Hsame. split_and!; try done. intros r'' E. rewrite E in Hr'. injection Hr' as ->.
      destruct (decide (i <= r')%nat); [done|]. pose proof (offset_lt r' i ltac:(lia)). lia.
  - apply lookup_ge_None in Hr'. rewrite (proj2 (Z.ltb_ge _ _)) by lia. exists j, r. rewrite Hsame.
    split_and!; try done. intros r'' E. apply lookup_lt_Some in E. lia.
Qed.

Lemma entries_from_ok it i : based it -> entries_from it (Z.of_nat (off i)) = body (drop i l).
Proof using.
  intros (Hd & Hr & _). unfold entries_from. rewrite Hd, Hr, !Nat2Z.id. unfold block_bytes.
  rewrite take_app_length. apply drop_body.
Qed.

Lemma DecodeEntry_ok i s k v : l !! i = Some (s, (k, v)) ->
  DecodeEntry (body (drop i l)) = Some (Z.of_nat s, Z.of_nat (length k - s), Z.of_nat (length v),
    drop s k ++ v ++ body (drop (S i) l)).
Proof using Hf H1.
  intros Hi. rewrite (drop_S _ _ _ Hi). unfold body at 1. rewrite bind_cons. fold (body (drop (S i) l)).
  unfold entry_bytes. rewrite <- !app_assoc. destruct (entry_sizes _ _ _ _ Hi) as (Hs & ? & ? & ?).
  apply DecodeEntry_encoded; try done. rewrite !length_app, length_drop. split; [lia|].
  pose proof (offset_S _ _ Hi) as Ho. unfold entry_bytes in Ho. rewrite !length_app, length_drop in Ho.
  assert (length (body l) = off i + length (body (drop i l)))%nat as Hsplit.
  { rewrite <- drop_body, length_drop. pose proof (offset_le i). lia. }
  assert (length (body l) = off (S i) + length (body (drop (S i) l)))%nat as Hsplit'.
  { rewrite <- drop_body, length_drop. pose proof (offset_le (S i)). lia. }
  pose proof body_small. lia.
Qed.

(** The bytes of the key of an entry that it does not share. *)
Lemma key_slice i s k v : l !! i = Some (s, (k, v)) ->
  bytes_at data (Z.of_nat (length (body l)) - Z.of_nat (length (drop s k ++ v ++ body (drop (S i) l))))
    (Z.of_nat (length k - s)) = Some (drop s k).
Proof using.
  intros Hi. pose proof (offset_S _ _ Hi) as Ho. pose proof (offset_le (S i)) as Hle.
  assert (length (body l) = off (S i) + length (body (drop (S i) l)))%nat as Hsplit.
  { rewrite <- drop_body, length_drop. lia. }
  assert (data = (body (take i l) ++ PutVarint32 [] (Z.of_nat s) ++ PutVarint32 [] (Z.of_nat (length k - s)) ++
    PutVarint32 [] (Z.of_nat (length v))) ++ drop s k ++
    (v ++ body (drop (S i) l)) ++ (rp ≫= fun i => le_bytes 4 (Z.of_nat (off i))) ++ le_bytes 4 (Z.of_nat (length rp))) as ->.
  { unfold block_bytes. rewrite <- (take_drop i l) at 1. rewrite body_app, (drop_S _ _ _ Hi). unfold body at 2.
    rewrite bind_cons. unfold entry_bytes. by rewrite <- !app_assoc. }
  eapply eq_trans; [|apply bytes_at_app]. f_equal; [|by rewrite length_drop].
  unfold entry_bytes in Ho. rewrite !length_app, length_drop in *.
  change (length (body (take i l))) with (off i). lia.
Qed.

Lemma parse_end it : ready it (length l) -> exists it', ParseNextKey it = Some (false, it') /\ block_at it' None.
Proof using Hf H1.
  intros (Hb & _ & (o & n & Hv & Ho) & _). pose proof Hb as (Hd & Hr & Hn & Hs).
  rewrite offset_end in Ho by done. pose proof body_small.
  unfold ParseNextKey, NextEntryOffset. rewrite Hv. cbn [mbind option_bind].
  rewrite Ho, wrap_small by (unfold is_u; lia). cbn [restarts_ with_current]. rewrite Hr, Z.leb_refl.
  eexists. split; [reflexivity|]. split; [by destruct it|done].
Qed.

Lemma parse_entry it i : ready it i -> (i < length l)%nat ->
  exists it', ParseNextKey it = Some (true, it') /\ block_at it' (Some i).
Proof using Hf H1.
  intros (Hb & (j & r & Hj & Hr & Hri) & (o & n & Hv & Ho) & Hk) Hi. pose proof Hb as (Hd & Hres & Hn & Hs).
  apply lookup_lt_is_Some in Hi as [[s [k v]] Hi]. destruct (Hk _ _ _ Hi) as [Hlen Htake].
  pose proof body_small as Hsmall. pose proof (lookup_lt_Some _ _ _ Hi) as Hil.
  pose proof (offset_step i Hil) as Hstep. pose proof (offset_le (S i)) as Hle.
  destruct (entry_sizes _ _ _ _ Hi) as (Hsk & _).
  pose proof (offset_S _ _ Hi) as HoS. pose proof HoS as HoS'. unfold entry_bytes in HoS'.
  rewrite !length_app, length_drop in HoS'.
  assert (length (body l) = off (S i) + length (body (drop (S i) l)))%nat as Hsplit.
  { rewrite <- drop_body, length_drop. lia. }
  unfold ParseNextKey, NextEntryOffset. rewrite Hv. cbn [mbind option_bind].
  rewrite Ho, wrap_small by (unfold is_u; lia). cbn [restarts_ with_current key_ bi_data num_restarts_].
  rewrite Hres, (proj2 (Z.leb_gt _ _)) by lia.
  rewrite (entries_from_ok (with_current _ it)) by done. rewrite (DecodeEntry_ok _ _ _ _ Hi).
  rewrite (proj2 (Z.ltb_ge _ _)) by lia.
  rewrite Hd, (key_slice _ _ _ _ Hi).
  cbn [mbind option_bind]. rewrite Nat2Z.id, Htake, take_drop.
  assert (Z.of_nat (length (body l)) - Z.of_nat (length (drop s k ++ v ++ body (drop (S i) l))) + Z.of_nat (length k - s) =
    Z.of_nat (off (S i)) - Z.of_nat (length v)) as ->.
  { rewrite !length_app, length_drop. lia. }
  match goal with |- context [advance_restart ?n ?it1] => destruct (advance_restart_ok n it1 i j r) as (j' & r' & -> & Hr' & Hle' & Hnext) end;
    [done|done|lia|done|done|done|cbn [num_restarts_ with_entry with_current]; lia|].
  eexists. split; [reflexivity|]. split; [done|]. exists s, k, v. split_and!; try done. by exists j', r'.
Qed.
(** ** The operations *)

Lemma ready_S it i : block_at it (Some i) -> ready it (S i) /\ (i < length l)%nat.
Proof using Hf.
  intros (Hb & s & k & v & Hi & Hc & Hk & Hv & j & r & Hj & Hr & Hri & _).
  split; [|by eapply lookup_lt_Some]. split; [done|]. split; [exists j, r; split_and!; [done|done|lia]|].
  split; [eexists _, _; split; [done|lia]|]. intros s' k' v' Hi'.
  destruct (bf_shares _ _ Hf _ _ _ _ Hi') as [_ Hs']. rewrite Hk.
  destruct (decide (s' = 0%nat)) as [->|Hne]; [split; [lia|by rewrite !take_0]|].
  destruct (Hs' Hne) as (j' & s2 & k2 & v2 & [= <-] & Hj' & Hlen & Htake).
  rewrite Hi in Hj'. injection Hj' as <- <- <-. by split.
Qed.

Lemma parse_next it i : ready it i -> (i <= length l)%nat ->
  exists ok it', ParseNextKey it = Some (ok, it') /\ ok = bool_decide (i < length l)%nat /\ block_at it' (position l.*2 i).
Proof using Hf H1.
  intros Hr Hi. unfold position. rewrite length_fmap. destruct (decide (i < length l)%nat) as [Hlt|Hge].
  - destruct (parse_entry it i Hr Hlt) as (it' & E & Hat). exists true, it'. by rewrite bool_decide_true.
  - assert (i = length l) as -> by lia. destruct (parse_end it Hr) as (it' & E & Hat). exists false, it'.
    by rewrite bool_decide_false.
Qed.

Lemma seek_restart it j r : based it -> rp !! j = Some r ->
  exists it', SeekToRestartPoint (Z.of_nat j) it = Some it' /\ ready it' r /\ bi_data it' = data.
Proof using Hf H1.
  intros Hb Hr. unfold SeekToRestartPoint. rewrite (GetRestartPoint_ok _ _ _ Hb Hr). cbn [mbind option_bind].
  eexists. split; [done|]. pose proof Hb as (Hd & _). split; [|done]. split; [done|]. split; [by exists j, r|].
  split; [eexists _, _; split; [done|lia]|]. intros s k v Hl.
  destruct (bf_restarts _ _ Hf) as (_ & _ & Hall). specialize (Hall r ltac:(by eapply list_elem_of_lookup_2)).
  rewrite Hl in Hall. cbn [fst] in Hall. rewrite Hall, !take_0. split; [simpl; lia|done].
Qed.

Lemma block_Next it i : block_at it (Some i) ->
  exists it', Block_Next it = Some it' /\ block_at it' (position l.*2 (S i)).
Proof using Hf H1.
  intros Hat. destruct (ready_S _ _ Hat) as [Hr Hi]. destruct (parse_next it (S i) Hr ltac:(lia)) as (ok & it' & E & _ & Hat').
  destruct Hat as ((_ & Hres & _) & s & k & v & _ & Hc & _). pose proof (offset_lt i (length l) ltac:(lia)) as Ho.
  rewrite (offset_end (length l)) in Ho by done.
  unfold Block_Next, Block_Valid. rewrite Hc, Hres, (proj2 (Z.ltb_lt _ _)) by lia. cbn [assert_ mbind option_bind].
  rewrite E. by exists it'.
Qed.

Lemma parse_until_ok fuel it i b : ready it i -> (i < b <= length l)%nat -> (b - i <= fuel)%nat ->
  exists it', parse_until fuel (Z.of_nat (off b)) it = Some it' /\ block_at it' (Some (pred b)).
Proof using Hf H1.
  revert it i. induction fuel as [|fuel IH]; intros it i Hr Hib Hfuel; [lia|]. cbn [parse_until].
  destruct (parse_entry it i Hr ltac:(lia)) as (it1 & -> & Hat). cbn [mbind option_bind].
  destruct (ready_S _ _ Hat) as [Hr1 _]. pose proof Hr1 as (_ & _ & (o & n & Hv & Ho) & _).
  unfold NextEntryOffset. rewrite Hv. cbn [mbind option_bind].
  pose proof (offset_le (S i)). pose proof body_small. rewrite Ho, wrap_small by (unfold is_u; lia).
  destruct (Z.ltb_spec (Z.of_nat (off (S i))) (Z.of_nat (off b))) as [Hlt|Hge].
  - apply (IH it1 (S i)); [done| |lia]. assert (S i < b)%nat by (apply offset_lt_iff; [lia|lia|lia]). lia.
  - exists it1. split; [done|]. replace (pred b) with i; [done|].
    destruct (decide (S i < b)%nat); [|lia]. pose proof (offset_lt (S i) b ltac:(lia)). lia.
Qed.

Lemma first_restart : rp !! 0%nat = Some 0%nat.
Proof using Hf. destruct (bf_restarts _ _ Hf) as (Hh & _). by destruct rp. Qed.

Lemma prev_restart_ok fuel it i j r : based it -> restart_index_ it = Z.of_nat j -> rp !! j = Some r -> (j <= fuel)%nat ->
  (i <= length l)%nat ->
  exists it', prev_restart fuel (Z.of_nat (off i)) it = Some (bool_decide (0 < i)%nat, it') /\ based it' /\
    if decide (0 < i)%nat then exists j' r', restart_index_ it' = Z.of_nat j' /\ rp !! j' = Some r' /\ (r' < i)%nat
    else block_at it' None.
Proof using Hf H1.
  revert it j r. induction fuel as [|fuel IH]; intros it j r Hb Hj Hr Hfuel Hi; cbn [prev_restart];
    rewrite Hj, (GetRestartPoint_ok _ _ _ Hb Hr); cbn [mbind option_bind]; destruct (restart_le _ _ Hr) as [Hle _];
    (destruct (Z.leb_spec (Z.of_nat (off i)) (Z.of_nat (off r))) as [Hir|Hri];
      [|assert (r < i)%nat by (apply offset_lt_iff; [lia|lia|lia]);
        exists it; rewrite bool_decide_true, decide_True by lia; split_and!; [done|done|]; by exists j, r]).
  all: destruct (decide (j = 0%nat)) as [->|Hne];
    [rewrite first_restart in Hr; injection Hr as <-; cbn [Z.of_nat Z.eqb];
     assert (i = 0)%nat as -> by (destruct i; [done|]; pose proof (offset_lt 0 (S i) ltac:(lia)); lia);
     eexists; rewrite bool_decide_false, decide_False by lia; split_and!; [reflexivity|by destruct it|split; [by destruct it|done]]|].
  - lia.
  - rewrite (proj2 (Z.eqb_neq _ _)) by lia.
    assert (is_Some (rp !! pred j)) as [r' Hr'] by (apply lookup_lt_is_Some; apply lookup_lt_Some in Hr; lia).
    apply (IH (with_index (Z.of_nat j - 1) it) (pred j) r'); [by destruct it|simpl; lia|done|lia|done].
Qed.

Lemma block_Prev it i : block_at it (Some i) ->
  exists it', Block_Prev it = Some it' /\ block_at it' (match i with O => None | S j => Some j end).
Proof using Hf H1.
  intros Hat. destruct (ready_S _ _ Hat) as [_ Hi]. pose proof Hat as (Hb & s & k & v & _ & Hc & _ & _ & j & r & Hj & Hr & _).
  pose proof Hb as (Hd & Hres & _). pose proof (offset_lt i (length l) ltac:(lia)) as Ho.
  rewrite (offset_end (length l)) in Ho by done.
  unfold Block_Prev, Block_Valid. rewrite Hc, Hres, (proj2 (Z.ltb_lt _ _)) by lia. cbn [assert_ mbind option_bind].
  destruct (prev_restart_ok (Z.to_nat (restart_index_ it)) it i j r) as (it1 & -> & Hb1 & Hcase); [done|done|done|lia|lia|].
  cbn [mbind option_bind]. destruct i as [|i].
  - rewrite bool_decide_false by lia. rewrite decide_False in Hcase by lia. by exists it1.
  - rewrite bool_decide_true by lia. rewrite decide_True in Hcase by lia.
    destruct Hcase as (j' & r' & -> & Hr' & Hlt). destruct (seek_restart it1 j' r' Hb1 Hr') as (it2 & -> & Hready & Hd2).
    cbn [mbind option_bind]. apply (parse_until_ok _ it2 r' (S i)); [done|lia|].
    unfold parse_fuel. rewrite Hd2, length_data. pose proof length_le_body. lia.
Qed.

Lemma block_SeekToFirst it p : block_at it p ->
  exists it', Block_SeekToFirst it = Some it' /\ block_at it' (position l.*2 0).
Proof using Hf H1.
  intros [Hb _]. unfold Block_SeekToFirst. destruct (seek_restart it 0 0 Hb first_restart) as (it1 & E & Hr & _).
  change (SeekToRestartPoint 0 it) with (SeekToRestartPoint (Z.of_nat 0) it). rewrite E. cbn [mbind option_bind].
  destruct (parse_next it1 0 Hr ltac:(lia)) as (ok & it' & -> & _ & Hat). by exists it'.
Qed.

Lemma block_SeekToLast it p : block_at it p ->
  exists it', Block_SeekToLast it = Some it' /\ block_at it' (position l.*2 (pred (length l.*2))).
Proof using Hf H1.
  intros [Hb _]. pose proof Hb as (Hd & Hres & Hn & _). unfold Block_SeekToLast. rewrite Hn.
  pose proof (lookup_lt_Some _ _ _ first_restart) as Hlen.
  assert (is_Some (rp !! pred (length rp))) as [r Hr] by (apply lookup_lt_is_Some; lia).
  replace (Z.of_nat (length rp) - 1) with (Z.of_nat (pred (length rp))) by lia.
  destruct (seek_restart it _ r Hb Hr) as (it1 & -> & Hready & Hd1). cbn [mbind option_bind].
  destruct (restart_le _ _ Hr) as [Hle Hend]. rewrite length_fmap. destruct (decide (r = length l)) as [->|Hne].
  - unfold parse_fuel. cbn [parse_until]. destruct (parse_end it1 Hready) as (it2 & -> & Hat). cbn [mbind option_bind].
    exists it2. split; [done|]. rewrite (Hend eq_refl). done.
  - pose proof Hready as ((_ & Hres1 & _) & _). rewrite Hres1, <- (offset_end (length l)) by done.
    destruct (parse_until_ok (parse_fuel it1) it1 r (length l)) as (it2 & -> & Hat); [done|lia| |].
    { unfold parse_fuel. rewrite Hd1, length_data. pose proof length_le_body. lia. }
    exists it2. split; [done|]. unfold position. rewrite length_fmap, decide_True by lia. done.
Qed.
(** ** Searching *)

Context {Hcmp : KeyOrder} (Hsorted : sorted_keys l.*2).

Lemma search_restarts_ok fuel it target left right : based it -> (left <= right < length rp)%nat ->
  (right - left <= fuel)%nat ->
  (left = 0%nat \/ exists r s k v, rp !! left = Some r /\ l !! r = Some (s, (k, v)) /\ lt_key k target) ->
  exists j, search_restarts fuel target (Z.of_nat left) (Z.of_nat right) it = Some (Some (Z.of_nat j)) /\
    (j < length rp)%nat /\
    (j = 0%nat \/ exists r s k v, rp !! j = Some r /\ l !! r = Some (s, (k, v)) /\ lt_key k target).
Proof using Hf H1.
  intros Hb. revert left right. induction fuel as [|fuel IH]; intros left right Hlr Hfuel Hleft; cbn [search_restarts].
  { rewrite (proj2 (Z.ltb_ge _ _)) by lia. exists left. split; [done|]. split; [lia|done]. }
  destruct (Z.ltb_spec (Z.of_nat left) (Z.of_nat right)) as [Hlt|Hge].
  2: { exists left. split; [done|]. split; [lia|done]. }
  pose proof body_small as Hsmall. pose proof Hb as (Hd & Hres & _).
  set (mid := ((left + right + 1) / 2)%nat).
  assert (left < mid <= right)%nat as Hmid.
  { unfold mid. pose proof (Nat.div_mod (left + right + 1) 2). pose proof (Nat.mod_upper_bound (left + right + 1) 2). lia. }
  assert (wrap 32 (Z.of_nat left + Z.of_nat right + 1) `div` 2 = Z.of_nat mid) as ->.
  { rewrite wrap_small by (unfold is_u; lia). unfold mid. rewrite Nat2Z.inj_div. f_equal. lia. }
  assert (is_Some (rp !! mid)) as [r Hr] by (apply lookup_lt_is_Some; lia).
  rewrite (GetRestartPoint_ok _ _ _ Hb Hr). cbn [mbind option_bind]. rewrite (entries_from_ok it r Hb).
  destruct (bf_restarts _ _ Hf) as (Hhd & Hrs & Hall). specialize (Hall r ltac:(by eapply list_elem_of_lookup_2)).
  destruct (l !! r) as [[s [k v]]|] eqn:Hl.
  2: { destruct Hall as [_ ->]. exfalso. pose proof first_restart as Hr0.
       assert (0 < 0)%nat; [|lia]. eapply (StronglySorted_lookup lt rp 0 mid); [done|done|done|lia]. }
  cbn [fst] in Hall. subst s. rewrite (DecodeEntry_ok _ _ _ _ Hl). cbn [negb Z.of_nat Z.eqb].
  rewrite Hres, Hd, (key_slice _ _ _ _ Hl). cbn [mbind option_bind]. rewrite drop_0.
  destruct (Z.ltb_spec (Compare k target) 0) as [Hk|Hk].
  - apply IH; [lia|lia|]. right. by exists r, 0%nat, k, v.
  - replace (Z.of_nat mid - 1) with (Z.of_nat (pred mid)) by lia. apply IH; [lia|lia|done].
Qed.
Lemma contents_lookup i s k v : l !! i = Some (s, (k, v)) -> l.*2 !! i = Some (k, v).
Proof using. intros Hi. by rewrite list_lookup_fmap, Hi. Qed.

Lemma linear_search_ok fuel target it i : ready it i -> (i <= length l)%nat -> (length l - i < fuel)%nat ->
  (forall e, e ∈ take i l.*2 -> lt_key e.1 target) ->
  exists it', linear_search fuel target it = Some it' /\ block_at it' (position l.*2 (seek_index user_before l.*2 target)).
Proof using Hf H1 Hsorted Hcmp.
  revert it i. induction fuel as [|fuel IH]; intros it i Hr Hi Hfuel Hbefore; [lia|]. cbn [linear_search].
  destruct (parse_next it i Hr Hi) as (ok & it1 & -> & -> & Hat). cbn [mbind option_bind].
  destruct (decide (i < length l)%nat) as [Hlt|Hge].
  - rewrite bool_decide_true by done. cbn [negb].
    assert (position l.*2 i = Some i) as Ep by (unfold position; by rewrite length_fmap, decide_True).
    rewrite Ep in Hat. pose proof Hat as (_ & s & k & v & Hl & _ & Hk & _). rewrite Hk.
    destruct (Z.leb_spec 0 (Compare k target)) as [Hge|Hlt'].
    + exists it1. split; [done|]. rewrite (seek_index_eq l.*2 target i); [by rewrite Ep|done| |done|].
      * rewrite length_fmap. lia.
      * intros e He. rewrite (contents_lookup _ _ _ _ Hl) in He. injection He as <-. by apply Compare_ge.
    + destruct (ready_S _ _ Hat) as [Hr1 _]. apply (IH it1 (S i)); [done|lia|lia|].
      intros e. rewrite (take_S_r _ _ _ (contents_lookup _ _ _ _ Hl)).
      intros [He|He]%elem_of_app; [by apply Hbefore|]. apply list_elem_of_singleton in He as ->. exact Hlt'.
  - rewrite bool_decide_false by done. cbn [negb]. exists it1. split; [done|].
    rewrite (seek_index_eq l.*2 target i); [done|done|by rewrite length_fmap|done|].
    intros e He. apply lookup_lt_Some in He. rewrite length_fmap in He. lia.
Qed.

Lemma block_Seek it p target : block_at it p ->
  exists it', Block_Seek target it = Some it' /\ block_at it' (position l.*2 (seek_index user_before l.*2 target)).
Proof using Hf H1 Hsorted Hcmp.
  intros [Hb _]. pose proof Hb as (_ & _ & Hn & _). pose proof (lookup_lt_Some _ _ _ first_restart) as Hlen.
  unfold Block_Seek. rewrite Hn, Nat2Z.id. replace (Z.of_nat (length rp) - 1) with (Z.of_nat (pred (length rp))) by lia.
  destruct (search_restarts_ok (length rp) it target 0 (pred (length rp))) as (j & E & Hj & Hkey); [done|lia|lia|by left|].
  change 0 with (Z.of_nat 0). rewrite E. cbn [mbind option_bind].
  assert (is_Some (rp !! j)) as [r Hr] by by apply lookup_lt_is_Some.
  destruct (seek_restart it j r Hb Hr) as (it1 & -> & Hready & Hd1). cbn [mbind option_bind].
  destruct (restart_le _ _ Hr) as [Hle _].
  apply (linear_search_ok _ target it1 r); [done|done|unfold parse_fuel; rewrite Hd1, length_data; pose proof length_le_body; lia|].
  intros e He. destruct Hkey as [->|(r' & s & k & v & Hr' & Hl & Hlt)].
  { rewrite first_restart in Hr. injection Hr as <-. by rewrite take_0 in He; apply elem_of_nil in He. }
  rewrite Hr in Hr'. injection Hr' as <-.
  rewrite <- (sorted_filter_lt l.*2 r k v Hsorted (contents_lookup _ _ _ _ Hl)) in He.
  apply list_elem_of_filter in He as [He _]. by eapply lt_key_trans.
Qed.

Lemma block_laws : IteratorLaws user_before l.*2 block_at.
Proof using Hf H1 Hsorted Hcmp.
  split; cbn [it_Valid it_key it_value it_Next it_Prev it_Seek it_SeekToFirst it_SeekToLast Block_Iterator].
  - intros it p Hat. pose proof Hat as ((_ & Hres & _) & Hp). unfold Block_Valid. destruct p as [i|].
    + destruct (ready_S _ _ Hat) as [_ Hi]. destruct Hp as (s & k & v & _ & Hc & _). rewrite Hc, Hres.
      pose proof (offset_lt i (length l) ltac:(lia)) as Ho. rewrite (offset_end (length l)) in Ho by done.
      rewrite bool_decide_true by done. apply Z.ltb_lt. lia.
    + rewrite Hp, bool_decide_false by by intros []. apply Z.ltb_irrefl.
  - intros it i Hat. rewrite length_fmap. by apply ready_S in Hat as [_ ?].
  - intros it i k v Hat Hi. pose proof Hat as ((Hd & Hres & _) & s & k' & v' & Hl & Hc & Hk & Hv & _).
    rewrite (contents_lookup _ _ _ _ Hl) in Hi. injection Hi as -> ->.
    destruct (ready_S _ _ Hat) as [_ Hil]. pose proof (offset_lt i (length l) ltac:(lia)) as Ho.
    rewrite (offset_end (length l)) in Ho by done.
    unfold Block_key, Block_value, Block_Valid. rewrite Hc, Hres, (proj2 (Z.ltb_lt _ _)) by lia.
    cbn [assert_ mbind option_bind]. rewrite Hk, Hv. split; [done|]. cbn [mbind option_bind]. rewrite Hd.
    assert (data = (body (take i l) ++ PutVarint32 [] (Z.of_nat s) ++ PutVarint32 [] (Z.of_nat (length k - s)) ++
      PutVarint32 [] (Z.of_nat (length v)) ++ drop s k) ++ v ++
      body (drop (S i) l) ++ (rp ≫= fun i => le_bytes 4 (Z.of_nat (off i))) ++ le_bytes 4 (Z.of_nat (length rp))) as ->.
    { unfold block_bytes. rewrite <- (take_drop i l) at 1. rewrite body_app, (drop_S _ _ _ Hl). unfold body at 2.
      rewrite bind_cons. unfold entry_bytes. by rewrite <- !app_assoc. }
    eapply eq_trans; [|apply bytes_at_app]. f_equal.
    rewrite (offset_S _ _ Hl). unfold entry_bytes. rewrite !length_app.
    change (length (body (take i l))) with (off i). lia.
  - apply block_Next.
  - apply block_Prev.
  - apply block_Seek.
  - apply block_SeekToFirst.
  - apply block_SeekToLast.
Qed.

(** The block opens with an iterator that is positioned nowhere. *)
Lemma block_opens : exists b it,
  Block_new data = Some b /\ NewIterator b = Some (BlockIterator it) /\ block_at it None.
Proof using Hf H1.
  pose proof body_small as Hsmall. pose proof length_data as Hlen.
  pose proof (lookup_lt_Some _ _ _ first_restart) as Hrp.
  assert (num_restarts_at data (Z.of_nat (length data)) = Some (Z.of_nat (length rp))) as Hnum.
  { unfold num_restarts_at. rewrite (proj2 (Z.leb_le _ _)) by lia. cbn [assert_ mbind option_bind].
    rewrite num_restarts_word. cbn [mbind option_bind]. rewrite le4_decode by lia. done. }
  eexists (mkBlock data (Z.of_nat (length data)) (Z.of_nat (length (body l)))), _. split; [|split].
  - unfold Block_new. rewrite (proj2 (Z.ltb_ge _ _)), Hnum by lia. cbn [mbind option_bind].
    rewrite (proj2 (Z.ltb_ge _ _)) by (apply Z.div_le_lower_bound; lia).
    do 2 f_equal. rewrite (wrap_small 32 (1 + _)), wrap_small by (unfold is_u; lia). lia.
  - unfold NewIterator, NumRestarts. cbn [size_ data_ restart_offset_].
    rewrite (proj2 (Z.ltb_ge _ _)), Hnum by lia. cbn [mbind option_bind].
    rewrite (proj2 (Z.eqb_neq _ _)) by lia. unfold Iter_new. rewrite (proj2 (Z.ltb_lt _ _)) by lia. reflexivity.
  - done.
Qed.

(** C13 (roundtrip): a block in the format, with any choice of shared prefixes and of
    restart points, opens, and its iterator, positioned nowhere at first,
    implements the iterator interface for exactly the entries that were encoded:
    every move and every search returns and ends at the right entry. *)
Theorem block_roundtrip : exists b it,
  Block_new data = Some b /\ NewIterator b = Some (BlockIterator it) /\ block_at it None /\
  IteratorLaws user_before l.*2 block_at.
Proof using All.
  destruct block_opens as (b & it & Hb & Hit & Hat). exists b, it. split_and!; [done..|apply block_laws].
Qed.
End layout.

(** ** A block of four entries

    The second entry shares a byte with the first; the third is a restart point. *)

Section demo.
#[local] Existing Instances by_bytes reference_coding.

Definition demo_entries : list (nat * entry) :=
  [(0%nat, ([1; 1], [10])); (1%nat, ([1; 2; 7], [])); (0%nat, ([2], [20; 21])); (1%nat, ([2; 9], [30]))].

Example demo_bytes : block_bytes demo_entries [0; 2]%nat =
  [0; 2; 1; 1; 1; 10; 1; 2; 0; 2; 7; 0; 1; 2; 2; 20; 21; 1; 1; 1; 9; 30; 0; 0; 0; 0; 11; 0; 0; 0; 2; 0; 0; 0].
Proof. vm_compute. reflexivity. Qed.

(** Searching for a key between two entries, then going both ways. *)
Example demo_seek :
  (b ← Block_new (block_bytes demo_entries [0; 2]%nat); r ← NewIterator b;
   match r with
   | BlockIterator it =>
       it ← Block_Seek [1; 3] it; k ← Block_key it; v ← Block_value it;
       it ← Block_Prev it; k' ← Block_key it;
       it ← Block_SeekToLast it; k'' ← Block_key it; it ← Block_Next it; Some (k, v, k', k'', Block_Valid it)
   | _ => None
   end) = Some ([2], [20; 21], [1; 2; 7], [2; 9], false).
Proof. vm_compute. reflexivity. Qed.

Lemma demo_format : block_format demo_entries [0; 2]%nat.
Proof.
  split.
  - intros [|[|[|[|i]]]] s k v E; try discriminate E; injection E as <- <- <-; (split; [simpl; lia|]); try done; intros _;
      eexists _, _, _, _; (split; [reflexivity|]); (split; [reflexivity|]); split; simpl; (lia || done).
  - repeat constructor.
  - split; [done|]. split; [repeat constructor|]. intros i Hi.
    repeat (apply elem_of_cons in Hi as [->|Hi]; [done|]). by apply elem_of_nil in Hi.
  - vm_compute. reflexivity.
Qed.

Lemma demo_sorted : sorted_keys demo_entries.*2.
Proof.
  unfold sorted_keys, demo_entries. cbn [fmap list_fmap fst snd].
  repeat first [apply SSorted_nil|apply SSorted_cons|apply List.Forall_nil|apply List.Forall_cons]; vm_compute; reflexivity.
Qed.

Lemma block_roundtrip_witness : exists b it,
  Block_new (block_bytes demo_entries [0; 2]%nat) = Some b /\ NewIterator b = Some (BlockIterator it) /\
  block_at demo_entries [0; 2]%nat it None /\
  IteratorLaws user_before demo_entries.*2 (block_at demo_entries [0; 2]%nat).
Proof.
  exact (@block_roundtrip by_bytes reference_coding reference_coding_laws demo_entries [0; 2]%nat demo_format
    (@ComparatorLaws_order _ by_bytes_laws) demo_sorted).
Defined.
End demo.
