(* ===== verification/BlockSafe.v ===== *)
(** * Blocks of arbitrary bytes ([leveldb-library/table/block.cc])

    What the iterator does on a block that may be corrupted: every operation
    returns, stays inside the block, and leaves the iterator in a state from which
    this holds again, as long as the lengths stored in an entry do not overflow the
    32-bit sum that [DecodeEntry] compares with the bytes that are left. *)

From Stdlib Require Import String Sorting.Sorted.
From stdpp Require Import base list sorting.
From S2P Require Import Prelude Cursor Coding BlockIter BlockProps.

#[local] Open Scope Z_scope.

Section safe.
Context `{Comparator} `{CodingLaws} (data : list Z).

(** The sum of the lengths of an entry fits 32 bits, wherever the entry starts. *)
Definition lengths_fit : Prop :=
  forall a b s n v q, DecodeEntry (drop a (take b data)) = Some (s, n, v, q) -> n + v < 2 ^ 32.

Context (Hbytes : bytes data) (Hsmall : Z.of_nat (length data) < 2 ^ 32) (Hfit : lengths_fit).

Lemma DecodeEntry_inv p s n v q : bytes p -> Z.of_nat (length p) < 2 ^ 32 -> DecodeEntry p = Some (s, n, v, q) ->
  n + v < 2 ^ 32 -> (length q + 3 <= length p)%nat /\ 0 <= s /\ 0 <= n /\ 0 <= v /\ n + v <= Z.of_nat (length q).
Proof using H1.
  clear Hbytes Hsmall Hfit. intros Hb Hp. unfold DecodeEntry. destruct p as [|b0 [|b1 [|b2 rest]]]; try done.
  match goal with |- (mbind _ ?r) = _ -> _ => destruct r as [[[[s' n'] v'] q']|] eqn:Er end; [|done].
  cbn [mbind option_bind].
  destruct (wrap 32 (Z.of_nat (length q')) <? wrap 32 (n' + v')) eqn:Elt; [done|]. intros [= -> -> -> ->] Hnv.
  assert ((length q + 3 <= length (b0 :: b1 :: b2 :: rest))%nat /\ 0 <= s /\ 0 <= n /\ 0 <= v) as (Hq & Hs & Hn & Hv).
  { destruct (_ <? 128).
    - injection Er as <- <- <- <-. rewrite !List.Forall_cons_iff in Hb. unfold is_u in Hb. simpl. lia.
    - rewrite GetVarint32Ptr_eq in Er. destruct (GetVarint32 _) as [[s1 q1]|] eqn:E1; [|done]. cbn [mbind option_bind] in Er.
      rewrite GetVarint32Ptr_eq in Er. destruct (GetVarint32 q1) as [[n1 q2]|] eqn:E2; [|done]. cbn [mbind option_bind] in Er.
      rewrite GetVarint32Ptr_eq in Er. destruct (GetVarint32 q2) as [[v1 q3]|] eqn:E3; [|done]. cbn [mbind option_bind] in Er.
      injection Er as -> -> -> ->.
      pose proof (GetVarint32_range _ _ _ E1). pose proof (GetVarint32_range _ _ _ E2).
      pose proof (GetVarint32_range _ _ _ E3).
      pose proof (consumes_length _ GetVarint32_consumes _ _ _ E1).
      pose proof (consumes_length _ GetVarint32_consumes _ _ _ E2).
      pose proof (consumes_length _ GetVarint32_consumes _ _ _ E3). unfold is_u in *. simpl in *. lia. }
  apply Z.ltb_ge in Elt. rewrite !wrap_small in Elt by (unfold is_u; simpl in *; lia). split_and!; try done; lia.
Qed.

(** What holds of an iterator over the block; [entry] when it is at an entry. *)
Definition safe (it : BlockIter) : Prop :=
  bi_data it = data /\ 0 <= restarts_ it /\ 0 < num_restarts_ it /\
  restarts_ it + 4 * num_restarts_ it <= Z.of_nat (length data) /\
  (Block_Valid it = true -> 0 <= current_ it /\ 0 <= restart_index_ it < num_restarts_ it /\
    exists o n, value_ it = Some (o, n) /\ 0 <= o /\ 0 <= n /\ o + n <= restarts_ it).

(** About to parse the entry at the offset [c]. *)
Definition parsing (it : BlockIter) (c : Z) : Prop :=
  bi_data it = data /\ 0 <= restarts_ it /\ 0 < num_restarts_ it /\
  restarts_ it + 4 * num_restarts_ it <= Z.of_nat (length data) /\
  0 <= restart_index_ it < num_restarts_ it /\ 0 <= c < 2 ^ 32 /\
  exists o n, value_ it = Some (o, n) /\ o + n = c.

Lemma GetRestartPoint_safe it index : bi_data it = data -> 0 <= restarts_ it ->
  restarts_ it + 4 * num_restarts_ it <= Z.of_nat (length data) -> 0 <= index < num_restarts_ it ->
  exists c, GetRestartPoint it index = Some c /\ is_u 32 c.
Proof using H1 Hbytes.
  intros Hd Hr Hn Hi. unfold GetRestartPoint. rewrite (proj2 (Z.ltb_lt _ _)) by lia. cbn [assert_ mbind option_bind].
  unfold bytes_at. rewrite (proj2 (Z.leb_le 0 _)), (proj2 (Z.leb_le _ _)) by (rewrite ?Hd; lia). cbn [andb mbind option_bind].
  eexists. split; [done|]. set (bs := take _ _).
  assert (length bs = 4%nat) as Hlen.
  { unfold bs. rewrite length_take, length_drop, Hd. lia. }
  assert (bytes bs) as Hbs by (unfold bs; by apply Forall_take, Forall_drop; rewrite Hd).
  rewrite <- (app_nil_r bs), DecodeFixed32_le by done.
  pose proof (le_val_range bs Hbs) as Hv. rewrite Hlen in Hv. exact Hv.
Qed.

Lemma advance_restart_safe fuel it : bi_data it = data -> 0 <= restarts_ it ->
  restarts_ it + 4 * num_restarts_ it <= Z.of_nat (length data) -> 0 <= restart_index_ it < num_restarts_ it ->
  num_restarts_ it - restart_index_ it <= Z.of_nat fuel ->
  exists i, advance_restart fuel it = Some (with_index i it) /\ 0 <= i < num_restarts_ it.
Proof using H1 Hbytes.
  revert it. induction fuel as [|fuel IH]; intros it Hd Hr Hn Hi Hf; [lia|]. cbn [advance_restart].
  assert (with_index (restart_index_ it) it = it) as Hsame by by destruct it.
  destruct (Z.ltb_spec (restart_index_ it + 1) (num_restarts_ it)) as [Hlt|Hge].
  - destruct (GetRestartPoint_safe it (restart_index_ it + 1)) as (c & -> & _); [done|done|done|lia|].
    cbn [mbind option_bind]. destruct (c <? current_ it).
    + destruct (IH (with_index (restart_index_ it + 1) it)) as (i & E & Hi'); cbn; try done; [lia|lia|].
      exists i. split; [|done]. rewrite E. by destruct it.
    + exists (restart_index_ it). by rewrite Hsame.
  - exists (restart_index_ it). by rewrite Hsame.
Qed.

(** Parsing ends at an entry after [c], or the iterator is not valid. *)
Lemma ParseNextKey_safe it c : parsing it c ->
  exists ok it', ParseNextKey it = Some (ok, it') /\ restarts_ it' = restarts_ it /\ num_restarts_ it' = num_restarts_ it /\
    safe it' /\ if ok : bool then exists c', parsing it' c' /\ c + 3 <= c' <= restarts_ it' else Block_Valid it' = false.
Proof using H1 Hbytes Hsmall Hfit.
  intros (Hd & Hr & Hn & Hlen & Hi & Hc & o & n & Hv & Ho). unfold ParseNextKey, NextEntryOffset. rewrite Hv.
  cbn [mbind option_bind]. rewrite Ho, wrap_small by (unfold is_u; lia).
  cbn [restarts_ with_current key_ bi_data num_restarts_].
  destruct (Z.leb_spec (restarts_ it) c) as [Hle|Hlt].
  { eexists _, _. split; [done|]. split; [done|]. split; [done|]. unfold Block_Valid. cbn.
    split; [|apply Z.ltb_irrefl]. split_and!; try done. unfold Block_Valid. cbn. rewrite Z.ltb_irrefl. done. }
  assert (forall it0, restarts_ it0 = restarts_ it -> num_restarts_ it0 = num_restarts_ it -> bi_data it0 = data ->
    exists ok it', Some (false, CorruptionError it0) = Some (ok, it') /\ restarts_ it' = restarts_ it /\
      num_restarts_ it' = num_restarts_ it /\ safe it' /\
      if ok : bool then exists c', parsing it' c' /\ c + 3 <= c' <= restarts_ it' else Block_Valid it' = false) as Hcorrupt.
  { intros it0 H0r H0n H0d. eexists _, _. split; [done|]. unfold safe, Block_Valid. cbn.
    rewrite H0r, H0n, H0d, Z.ltb_irrefl. split_and!; done. }
  unfold entries_from. cbn [restarts_ with_current bi_data]. rewrite Hd.
  destruct (DecodeEntry _) as [[[[s m] v] p]|] eqn:E; [|by apply Hcorrupt].
  pose proof (Hfit _ _ _ _ _ _ E) as Hmv.
  destruct (DecodeEntry_inv _ _ _ _ _ ltac:(apply Forall_drop; apply Forall_take; exact Hbytes)
    ltac:(rewrite length_drop, length_take; lia) E Hmv) as (Hp & Hs & Hm & Hv' & Hsum).
  rewrite length_drop, length_take in Hp.
  destruct (Z.of_nat (length (key_ it)) <? s); [by apply Hcorrupt|].
  assert (0 <= restarts_ it - Z.of_nat (length p)) by lia.
  unfold bytes_at. rewrite (proj2 (Z.leb_le 0 _)), (proj2 (Z.leb_le _ _)) by lia. cbn [andb mbind option_bind].
  match goal with |- context [advance_restart ?f ?it1] => destruct (advance_restart_safe f it1) as (i & -> & Hi') end;
    cbn; try done; [lia|].
  cbn in Hi'. eexists _, _. split; [done|]. cbn. split; [done|]. split; [done|]. split.
  - split_and!; try done. intros _. cbn. split; [lia|]. split; [done|]. eexists _, _. split; [done|]. lia.
  - exists (restarts_ it - Z.of_nat (length p) + m + v). split; [|lia].
    split_and!; try done; cbn; try lia. eexists _, _. split; [done|]. lia.
Qed.
(** ** The operations *)

Lemma parse_until_safe fuel bound it c : parsing it c -> Z.max 0 (restarts_ it - c) < Z.of_nat fuel ->
  exists it', parse_until fuel bound it = Some it' /\ safe it'.
Proof using H1 Hbytes Hsmall Hfit.
  revert it c. induction fuel as [|fuel IH]; intros it c Hp Hf; [lia|]. cbn [parse_until].
  destruct (ParseNextKey_safe it c Hp) as (ok & it1 & -> & Hr & _ & Hsafe & Hok).
  cbn [mbind option_bind]. destruct ok; [|by eexists].
  destruct Hok as (c' & Hp' & Hc'). pose proof Hp' as (_ & _ & _ & _ & _ & Hc2 & o & n & Hv & Ho).
  unfold NextEntryOffset. rewrite Hv. cbn [mbind option_bind]. rewrite Ho, wrap_small by done.
  destruct (c' <? bound); [|by eexists]. apply (IH it1 c'); [done|lia].
Qed.

Lemma linear_search_safe fuel target it c : parsing it c -> Z.max 0 (restarts_ it - c) < Z.of_nat fuel ->
  exists it', linear_search fuel target it = Some it' /\ safe it'.
Proof using H1 Hbytes Hsmall Hfit.
  revert it c. induction fuel as [|fuel IH]; intros it c Hp Hf; [lia|]. cbn [linear_search].
  destruct (ParseNextKey_safe it c Hp) as (ok & it1 & -> & Hr & _ & Hsafe & Hok).
  cbn [mbind option_bind]. destruct ok; [|by eexists]. cbn [negb].
  destruct Hok as (c' & Hp' & Hc'). destruct (0 <=? Compare (key_ it1) target); [by eexists|].
  apply (IH it1 c'); [done|lia].
Qed.

Lemma seek_restart_safe it index : safe it -> 0 <= index < num_restarts_ it ->
  exists it' c, SeekToRestartPoint index it = Some it' /\ parsing it' c /\ restarts_ it' = restarts_ it.
Proof using H1 Hbytes.
  intros (Hd & Hr & Hn & Hlen & _) Hi. unfold SeekToRestartPoint.
  destruct (GetRestartPoint_safe it index) as (c & -> & Hc); [done..|]. cbn [mbind option_bind].
  eexists _, c. split; [done|]. split; [|done]. split_and!; try done; try apply Hi; try apply Hc.
  exists c, 0. split; [done|lia].
Qed.

Lemma parse_fuel_ok it c : parsing it c -> Z.max 0 (restarts_ it - c) < Z.of_nat (parse_fuel it).
Proof using. intros (Hd & Hr & Hn & Hlen & _ & Hc & _). unfold parse_fuel. rewrite Hd. lia. Qed.

Lemma prev_restart_safe fuel original it : bi_data it = data -> 0 <= restarts_ it -> 0 < num_restarts_ it ->
  restarts_ it + 4 * num_restarts_ it <= Z.of_nat (length data) -> 0 <= restart_index_ it < num_restarts_ it ->
  restart_index_ it <= Z.of_nat fuel ->
  exists found it', prev_restart fuel original it = Some (found, it') /\
    if found : bool then exists i, it' = with_index i it /\ 0 <= i < num_restarts_ it else safe it'.
Proof using H1 Hbytes.
  revert it. induction fuel as [|fuel IH]; intros it Hd Hr Hn Hlen Hi Hf; cbn [prev_restart];
    (destruct (GetRestartPoint_safe it (restart_index_ it)) as (c & -> & _); [done..|]); cbn [mbind option_bind];
    (destruct (original <=? c); [|eexists _, _; split; [done|]; exists (restart_index_ it); split; [by destruct it|done]]);
    (destruct (Z.eqb_spec (restart_index_ it) 0) as [Hz|Hz];
      [eexists _, _; split; [done|]; split_and!; try done; unfold Block_Valid; cbn; by rewrite Z.ltb_irrefl|]).
  - lia.
  - destruct (IH (with_index (restart_index_ it - 1) it)) as (found & it' & -> & Hcase); cbn; try done; [lia|lia|].
    exists found, it'. split; [done|]. destruct found; [|done]. destruct Hcase as (i & -> & Hi'). cbn in Hi'.
    exists i. split; [by destruct it|done].
Qed.

Lemma search_restarts_safe fuel target left right it : safe it -> 0 <= left <= right -> right < num_restarts_ it ->
  right - left <= Z.of_nat fuel ->
  exists r, search_restarts fuel target left right it = Some r /\ forall i, r = Some i -> 0 <= i < num_restarts_ it.
Proof using H1 Hbytes Hsmall Hfit.
  intros (Hd & Hr & Hn & Hlen & _). revert left right. induction fuel as [|fuel IH]; intros left right Hl Hrn Hf;
    cbn [search_restarts]; destruct (Z.ltb_spec left right) as [Hlt|Hge]; try lia;
    try (eexists; split; [done|]; intros i [= <-]; lia).
  rewrite wrap_small by (unfold is_u; lia).
  assert (left < (left + right + 1) `div` 2 <= right) as Hmid by (Z.to_euclidean_division_equations; lia).
  destruct (GetRestartPoint_safe it ((left + right + 1) `div` 2)) as (c & -> & Hc); [done|done|done|lia|].
  cbn [mbind option_bind]. unfold entries_from. rewrite Hd.
  destruct (DecodeEntry _) as [[[[s m] v] p]|] eqn:E; [|by eexists].
  pose proof (Hfit _ _ _ _ _ _ E) as Hmv.
  destruct (DecodeEntry_inv _ _ _ _ _ ltac:(apply Forall_drop; apply Forall_take; exact Hbytes)
    ltac:(rewrite length_drop, length_take; lia) E Hmv) as (Hp & Hs & Hm & Hv' & Hsum).
  rewrite length_drop, length_take in Hp.
  destruct (negb (s =? 0)); [by eexists|].
  unfold bytes_at. rewrite (proj2 (Z.leb_le 0 _)), (proj2 (Z.leb_le _ _)) by lia. cbn [andb mbind option_bind].
  destruct (_ <? 0); apply IH; lia.
Qed.

(** C32 (error): on a block of any bytes below 4 GB whose entries have lengths that
    fit the 32-bit sum, corrupted or not, opening the block and every operation of
    its iterator return and stay inside the block: from a safe iterator, the
    searches, and [Next], [Prev] and the accessors where it is valid, lead to a safe
    iterator again. *)
Theorem block_iter_safe :
  (exists b r, Block_new data = Some b /\ NewIterator b = Some r /\ forall it, r = BlockIterator it -> safe it) /\
  forall it, safe it ->
    (forall target, exists it', Block_Seek target it = Some it' /\ safe it') /\
    (exists it', Block_SeekToFirst it = Some it' /\ safe it') /\
    (exists it', Block_SeekToLast it = Some it' /\ safe it') /\
    (Block_Valid it = true ->
      (exists it', Block_Next it = Some it' /\ safe it') /\ (exists it', Block_Prev it = Some it' /\ safe it') /\
      exists k v, Block_key it = Some k /\ Block_value it = Some v).
Proof using All.
  split; [|intros it Hsafe; split; [|split; [|split]]].
  - assert (forall size, size = Z.of_nat (length data) -> 4 <= size ->
      exists n, num_restarts_at data size = Some n /\ is_u 32 n) as Hnum.
    { intros size -> Hsz. unfold num_restarts_at. rewrite (proj2 (Z.leb_le _ _)) by lia. cbn [assert_ mbind option_bind].
      unfold bytes_at. rewrite (proj2 (Z.leb_le 0 _)), (proj2 (Z.leb_le _ _)) by lia. cbn [andb mbind option_bind].
      eexists. split; [done|]. set (bs := take _ _).
      assert (length bs = 4%nat) as Hlen by (unfold bs; rewrite length_take, length_drop; lia).
      rewrite <- (app_nil_r bs), DecodeFixed32_le by done.
      pose proof (le_val_range bs ltac:(apply Forall_take; apply Forall_drop; exact Hbytes)) as Hv.
      rewrite Hlen in Hv. exact Hv. }
    unfold Block_new. destruct (Z.ltb_spec (Z.of_nat (length data)) 4) as [Hlt|Hge].
    { eexists _, _. split; [done|]. split; [done|]. by intros it. }
    destruct (Hnum _ eq_refl Hge) as (n & E & Hn). rewrite E. cbn [mbind option_bind].
    destruct (Z.ltb_spec ((Z.of_nat (length data) - 4) `div` 4) n) as [Hlt|Hle].
    { eexists _, _. split; [done|]. split; [done|]. by intros it. }
    assert (4 * n + 4 <= Z.of_nat (length data)) as Hroom by (Z.to_euclidean_division_equations; lia).
    unfold is_u in Hn. rewrite (wrap_small 32 (1 + n)), wrap_small by (unfold is_u; lia).
    eexists. unfold NewIterator, NumRestarts. cbn [size_ data_ restart_offset_].
    destruct (Z.eqb_spec n 0) as [Hz|Hz].
    + eexists. split; [done|]. cbn [size_ data_ restart_offset_]. rewrite (proj2 (Z.ltb_ge _ _)), E by lia.
      cbn [mbind option_bind]. rewrite (proj2 (Z.eqb_eq n 0) Hz). split; [done|]. by intros it.
    + eexists. split; [done|]. cbn [size_ data_ restart_offset_]. rewrite (proj2 (Z.ltb_ge _ _)), E by lia.
      cbn [mbind option_bind]. rewrite (proj2 (Z.eqb_neq n 0) Hz). unfold Iter_new.
      rewrite (proj2 (Z.ltb_lt 0 n)) by lia. split; [done|]. intros it [= <-].
      split_and!; cbn; try done; try lia. unfold Block_Valid. cbn. by rewrite Z.ltb_irrefl.
  - intros target. pose proof Hsafe as (_ & _ & Hn & _). unfold Block_Seek.
    destruct (search_restarts_safe (Z.to_nat (num_restarts_ it)) target 0 (num_restarts_ it - 1) it Hsafe)
      as (r & -> & Hr); [lia..|]. cbn [mbind option_bind]. destruct r as [i|].
    + destruct (seek_restart_safe it i Hsafe (Hr i eq_refl)) as (it1 & c & -> & Hp & _). cbn [mbind option_bind].
      by eapply linear_search_safe, parse_fuel_ok.
    + eexists. split; [done|]. destruct Hsafe as (Hd & Hr' & _ & Hlen & _). split_and!; try done.
      unfold Block_Valid. cbn. by rewrite Z.ltb_irrefl.
  - pose proof Hsafe as (_ & _ & Hn & _). unfold Block_SeekToFirst.
    destruct (seek_restart_safe it 0 Hsafe ltac:(lia)) as (it1 & c & -> & Hp & _). cbn [mbind option_bind].
    destruct (ParseNextKey_safe it1 c Hp) as (ok & it2 & -> & _ & _ & Hs & _). by eexists.
  - pose proof Hsafe as (_ & _ & Hn & _). unfold Block_SeekToLast.
    destruct (seek_restart_safe it (num_restarts_ it - 1) Hsafe ltac:(lia)) as (it1 & c & -> & Hp & _).
    cbn [mbind option_bind]. by eapply parse_until_safe, parse_fuel_ok.
  - intros Hvalid. pose proof Hsafe as (Hd & Hr & Hn & Hlen & Hv). destruct (Hv Hvalid) as (Hc & Hi & o & n & Hval & Ho & Hn' & Hon).
    split; [|split].
    + unfold Block_Next. rewrite Hvalid. cbn [assert_ mbind option_bind].
      destruct (ParseNextKey_safe it (o + n)) as (ok & it2 & -> & _ & _ & Hs & _); [|by eexists].
      split_and!; try done; try lia. eauto.
    + unfold Block_Prev. rewrite Hvalid. cbn [assert_ mbind option_bind].
      destruct (prev_restart_safe (Z.to_nat (restart_index_ it)) (current_ it) it) as (found & it1 & -> & Hcase); [done..|lia|].
      cbn [mbind option_bind]. destruct found; [|by eexists]. destruct Hcase as (i & -> & Hi').
      destruct (seek_restart_safe (with_index i it) i) as (it2 & c & E & Hp & _); [|done|].
      { split_and!; try done. intros _. cbn. split; [done|]. split; [done|]. by exists o, n. }
      cbn [restart_index_ with_index]. rewrite E. cbn [mbind option_bind]. by eapply parse_until_safe, parse_fuel_ok.
    + unfold Block_key, Block_value. rewrite Hvalid, Hval. cbn [assert_ mbind option_bind]. unfold bytes_at.
      rewrite (proj2 (Z.leb_le 0 _)), (proj2 (Z.leb_le _ _)) by (rewrite ?Hd; lia). eauto.
Qed.
End safe.

(** ** Where the lengths fit *)

Section short.
Context `{CodingLaws}.

Lemma GetVarint32_short b s : 0 <= b < 128 -> GetVarint32 (b :: s) = Some (b, s).
Proof.
  intros Hb. rewrite <- (PutVarint32_reads_back b s) by (unfold is_u; lia). by rewrite PutVarint32_short.
Qed.

(** Without a continuation byte every length is below 128. *)
Lemma short_lengths_fit data : Forall (fun b => 0 <= b < 128) data -> lengths_fit data.
Proof.
  intros Hd a b s n v q. assert (Forall (fun b => 0 <= b < 128) (drop a (take b data))) as Hp
    by (by apply Forall_drop, Forall_take).
  destruct (drop a (take b data)) as [|b0 [|b1 [|b2 rest]]]; try done. rewrite !List.Forall_cons_iff in Hp.
  unfold DecodeEntry. rewrite !GetVarint32Ptr_eq, GetVarint32_short by lia. cbn [mbind option_bind].
  rewrite !GetVarint32Ptr_eq, GetVarint32_short by lia. cbn [mbind option_bind].
  rewrite !GetVarint32Ptr_eq, GetVarint32_short by lia. cbn [mbind option_bind].
  replace (if _ <? 128 then _ else _) with (Some (b0, b1, b2, rest)) by by destruct (_ <? 128).
  cbn [mbind option_bind]. destruct (_ <? _); [done|]. intros [= <- <- <- <-]. lia.
Qed.
End short.

(** ** Corrupted blocks *)

Section corrupted.
#[local] Existing Instances by_bytes reference_coding.

(** The first entry claims to share five bytes with a key before it. *)
Definition bad_block : list Z := [5; 1; 1; 9; 9; 0; 0; 0; 0; 1; 0; 0; 0].

Example bad_block_reported :
  (b ← Block_new bad_block; r ← NewIterator b;
   match r with
   | BlockIterator it => it ← Block_SeekToFirst it; Some (Block_Valid it, status_ it) | _ => None
   end) = Some (false, Corruption "bad entry in block").
Proof. vm_compute. reflexivity. Qed.

Lemma block_iter_safe_witness : exists b it, Block_new bad_block = Some b /\
  NewIterator b = Some (BlockIterator it) /\ exists it', Block_SeekToLast it = Some it' /\ safe bad_block it'.
Proof.
  destruct (@block_iter_safe by_bytes reference_coding reference_coding_laws bad_block) as ((b & r & Hb & Hr & Hs) & Hops).
  - unfold bad_block, is_u. repeat constructor; lia.
  - vm_compute. reflexivity.
  - apply (@short_lengths_fit _ reference_coding_laws). unfold bad_block. repeat constructor; lia.
  - vm_compute in Hb. injection Hb as <-. vm_compute in Hr. injection Hr as <-.
    eexists _, _. split; [vm_compute; reflexivity|]. split; [vm_compute; reflexivity|].
    apply Hops, Hs. reflexivity.
Defined.

(** The lengths 2^32 - 1 and 1 add up to 0 in 32 bits and pass the test: the key is
    then read from past the end of the block. *)
Definition overflow_block : list Z := [0; 255; 255; 255; 255; 15; 1; 0; 0; 0; 0; 1; 0; 0; 0].

Example entry_lengths_overflow :
  (b ← Block_new overflow_block; NewIterator b) =
    Some (BlockIterator (mkIter overflow_block 7 1 7 1 [] None Ok)) /\
  Block_SeekToFirst (mkIter overflow_block 7 1 7 1 [] None Ok) = None.
Proof. split; vm_compute; reflexivity. Qed.
End corrupted.
