(* ===== verification/DbBlock.v ===== *)
(** * A database over a block ([leveldb-library/table/block.cc], [leveldb-library/db/db_iter.cc])

    The composition of the two iterators: the database iterator of [DbIter.v] reads
    the internal entries of an encoded block through the iterator of [BlockIter.v]. The
    block is searched with the internal key comparator, of which the order of
    [DbFormat.v] is known, and the database iterator shows user keys. *)

From Stdlib Require Import String Sorting.Sorted.
From stdpp Require Import base list sorting.
From S2P Require Import Prelude Cursor Coding DbFormat DbIter DbIterView DbIterProps BlockIter BlockProps.

Section composition.
Context `{ComparatorLaws} `{CodingLaws} `{!InternalKeyFormat, !InternalKeyFormatLaws}.
Context `{!InternalComparator, !InternalComparatorLaws} {R} `{!Random R, !RandomLaws R}.

Lemma sorted_entries_keys es : sorted_entries es -> @sorted_keys ICompare es.
Proof.
  apply StronglySorted_impl. intros a b. apply ICompare_lt.
Qed.

Context (seq : Z) (Hseq : 0 <= seq <= kMaxSequenceNumber) (l : list (nat * entry)) (rp : list nat).
Context (Hf : block_format l rp) (Hsorted : sorted_entries l.*2) (Hentries : Forall entry_ok l.*2).
Context (fuel : nat) (Hfuel : (length l < fuel)%nat).

#[local] Instance block_Iterator : Iterator BlockIter := @Block_Iterator ICompare _.

(** C14 (refinement): the database iterator over the iterator of an encoded block: the
    block opens, and the new database iterator implements the iterator interface
    for the snapshot's view of the entries that were encoded. A seek to a user key
    reaches it through the binary search over the restart points, a step back
    through the parsing of the block from a restart point on. *)
Theorem block_database : exists b it,
  Block_new (block_bytes l rp) = Some b /\ NewIterator b = Some (BlockIterator it) /\
  (forall seed, dbiter_at seq l.*2 (block_at l rp) (DBIter_new (R := R) it seq seed) None) /\
  @IteratorLaws (@DBIter BlockIter R) (DBIter_Iterator fuel) user_before (view seq l.*2)
    (dbiter_at seq l.*2 (block_at l rp)).
Proof.
  destruct (block_opens l rp Hf) as (b & it & Hb & Hit & Hat). exists b, it. split; [done|]. split; [done|]. split.
  - intros seed. by eapply DBIter_new_at.
  - apply dbiter_laws; try done; [|by rewrite length_fmap].
    apply (IteratorLaws_ext (@user_before ICompare)); [apply internal_before_eq|].
    apply block_laws; [done|apply internal_order|by apply sorted_entries_keys].
Qed.
End composition.

(** ** The database of [DbIterProps.v] in a block *)

Section demo.
#[local] Existing Instances by_bytes reference_coding reference_format reference_icmp demo_random.

#[local] Instance searched_block : Iterator BlockIter := @Block_Iterator ICompare _.

(** Entries of one key share the key; three restart points. *)
Definition stored_entries : list (nat * entry) := zip [0; 1; 0; 1; 0; 0]%nat demo_db.

Example stored_in_block :
  (b ← Block_new (block_bytes stored_entries [0; 2; 5]%nat); r ← NewIterator b;
   match r with
   | BlockIterator it =>
       let st := DBIter_new (I := BlockIter) (R := unit) it 6 0 in
       st ← DBIter_Seek 9 [2] st; k ← DBIter_key st;
       st ← DBIter_Prev 9 st; k' ← DBIter_key st;
       Some (k, k')
   | _ => None
   end) = Some ([3], [1]).
Proof. vm_compute. reflexivity. Qed.

Lemma stored_format : block_format stored_entries [0; 2; 5]%nat.
Proof.
  split.
  - intros i s k v E. assert (i < 6)%nat as Hi by (apply lookup_lt_Some in E; exact E).
    do 6 (destruct i as [|i]; [vm_compute in E; injection E as <- <- <-; split; [simpl; lia|];
      first [done|intros _; eexists _, _, _, _; split; [reflexivity|]; split; [vm_compute; reflexivity|];
        split; [simpl; lia|reflexivity]]|]). lia.
  - apply (bool_decide_unpack _). vm_compute. exact I.
  - split; [done|]. split; [repeat constructor|]. intros i Hi.
    repeat (apply elem_of_cons in Hi as [->|Hi]; [vm_compute; reflexivity|]). by apply elem_of_nil in Hi.
  - vm_compute. reflexivity.
Qed.

Lemma block_database_witness : exists b it,
  Block_new (block_bytes stored_entries [0; 2; 5]%nat) = Some b /\ NewIterator b = Some (BlockIterator it) /\
  @IteratorLaws (@DBIter BlockIter unit) (DBIter_Iterator 9) user_before
    [([1], [10]); ([3], [31])] (dbiter_at 6 demo_db (block_at stored_entries [0; 2; 5]%nat)).
Proof.
  destruct (@block_database by_bytes by_bytes_laws reference_coding reference_coding_laws reference_format
    reference_format_laws reference_icmp (@reference_icmp_laws _ by_bytes_laws _) unit demo_random demo_random_laws 6
    ltac:(unfold kMaxSequenceNumber; lia) stored_entries [0; 2; 5]%nat stored_format demo_db_sorted demo_db_ok 9
    ltac:(simpl; lia)) as (b & it & Hb & Hit & _ & Hlaws).
  exists b, it. split; [exact Hb|]. split; [exact Hit|]. exact Hlaws.
Defined.
End demo.
