(* ===== verification/Doubles.v ===== *)
(** * Doubles

    The scores of the compactions of leveldb are computed in [double]: binary64
    numbers with rounding to nearest, the ties to even, which [SpecFloat] of the
    standard library specifies. This file has the few operations that are used and
    what the modelled code needs of them: quotients of two integers below 2^53 are
    compared with 1 exactly, and the results are ordered. *)

From Stdlib Require Import SpecFloat.
From stdpp Require Import base numbers.
From S2P Require Import Prelude.

#[local] Open Scope Z_scope.

Definition double : Type := spec_float.

(** Integers are converted with rounding, too. *)
Definition double_of (n : Z) : double := binary_normalize 53 1024 n 0 false.
Definition double_mul : double -> double -> double := SFmul 53 1024.
Definition double_div : double -> double -> double := SFdiv 53 1024.
Definition double_lt : double -> double -> bool := SFltb.
Definition double_le : double -> double -> bool := SFleb.

Example one_tenth_rounds : double_mul (double_div (double_of 1) (double_of 10)) (double_of 3) <>
  double_div (double_of 3) (double_of 10).
Proof. by vm_compute. Qed.

(** ** Digits *)

Lemma digits_size p : digits2_pos p = Pos.size p.
Proof. induction p as [p IH|p IH|]; cbn [digits2_pos Pos.size]; [by rewrite IH..|done]. Qed.

Lemma digits_bounds p : 2 ^ (Zpos (digits2_pos p) - 1) <= Zpos p < 2 ^ Zpos (digits2_pos p).
Proof.
  rewrite digits_size. pose proof (Pos.size_gt p) as Hgt. pose proof (Pos.size_le p) as Hle. split.
  - apply Pos2Z.pos_le_pos in Hle. rewrite Pos2Z.inj_pow, (Pos2Z.inj_xO p) in Hle.
    rewrite Z.pow_sub_r by lia. assert (2 ^ Zpos (Pos.size p) = 2 * (2 ^ Zpos (Pos.size p) / 2 ^ 1)) as E.
    { destruct (Pos.size p) as [q|q|] eqn:Es; [..|reflexivity].
      - replace (Zpos q~1) with (1 + (Zpos q~1 - 1)) by lia. rewrite Z.pow_add_r by lia. rewrite (Z.mul_comm (2 ^ 1)).
        rewrite Z.div_mul by done. lia.
      - replace (Zpos q~0) with (1 + (Zpos q~0 - 1)) by lia. rewrite Z.pow_add_r by lia. rewrite (Z.mul_comm (2 ^ 1)).
        rewrite Z.div_mul by done. lia. }
    lia.
  - apply Pos2Z.pos_lt_pos in Hgt. by rewrite Pos2Z.inj_pow in Hgt.
Qed.

Lemma digits_eq p d : 0 < d -> 2 ^ (d - 1) <= Zpos p < 2 ^ d -> Zpos (digits2_pos p) = d.
Proof.
  intros Hd [Hlo Hhi]. pose proof (digits_bounds p) as [Hlo' Hhi'].
  destruct (Z.lt_trichotomy (Zpos (digits2_pos p)) d) as [Hlt|[E|Hgt]]; [exfalso|done|exfalso].
  - pose proof (Z.pow_le_mono_r 2 (Zpos (digits2_pos p)) (d - 1) ltac:(lia) ltac:(lia)). lia.
  - pose proof (Z.pow_le_mono_r 2 d (Zpos (digits2_pos p) - 1) ltac:(lia) ltac:(lia)). lia.
Qed.

(** ** Rounding *)

(** A mantissa of 53 digits, away from the bounds of the exponent. *)
Definition in_range (e : Z) : Prop := -1000 <= e <= 900.

Lemma fexp_range d e : in_range (d + e - 53) -> fexp 53 1024 (d + e) = d + e - 53.
Proof. unfold in_range, fexp, emin. lia. Qed.

Lemma record_of_loc_m m l : shr_m (shr_record_of_loc m l) = m.
Proof. by destruct l as [|[]]. Qed.

Lemma loc_of_record m l : loc_of_shr_record (shr_record_of_loc m l) = l.
Proof. by destruct l as [|[]]. Qed.

Lemma round_bounds m l : m <= round_nearest_even m l <= m + 1.
Proof. destruct l as [|[]]; cbn; [lia|destruct (Z.even m); lia|lia|lia]. Qed.

Lemma shr_fexp_53 p e l : 2 ^ 52 <= Zpos p < 2 ^ 53 -> in_range e ->
  shr_fexp 53 1024 (Zpos p) e l = (shr_record_of_loc (Zpos p) l, e).
Proof.
  intros Hp He. unfold shr_fexp. cbn [Zdigits2]. rewrite (digits_eq p 53) by (done || lia).
  rewrite fexp_range by (unfold in_range in *; lia). by replace (53 + e - 53 - e) with 0 by lia.
Qed.

(** A mantissa that has the 53 digits, and does not leave them when it is rounded. *)
Lemma round_53 p e l : 2 ^ 52 <= Zpos p < 2 ^ 53 -> in_range e -> round_nearest_even (Zpos p) l < 2 ^ 53 ->
  exists m, binary_round_aux 53 1024 false (Zpos p) e l = S754_finite false m e /\ 2 ^ 52 <= Zpos m < 2 ^ 53 /\
    Zpos m = round_nearest_even (Zpos p) l.
Proof.
  intros Hp He Hr. unfold binary_round_aux. rewrite shr_fexp_53 by done. rewrite record_of_loc_m, loc_of_record.
  pose proof (round_bounds (Zpos p) l). destruct (round_nearest_even (Zpos p) l) as [|m|m] eqn:Em; [lia| |lia].
  rewrite shr_fexp_53 by (done || lia). cbn [shr_record_of_loc shr_m]. rewrite (proj2 (Z.leb_le _ _)) by (unfold in_range in *; lia).
  exists m. split; [done|]. lia.
Qed.

(** A mantissa of 54 digits is shifted by one first. *)
Lemma round_54 p e l : 2 ^ 53 <= Zpos p <= 2 ^ 54 - 2 -> in_range e -> in_range (e + 1) ->
  exists m, binary_round_aux 53 1024 false (Zpos p) e l = S754_finite false m (e + 1) /\ 2 ^ 52 <= Zpos m < 2 ^ 53.
Proof.
  intros Hp He He'. unfold binary_round_aux, shr_fexp at 1. cbn [Zdigits2]. rewrite (digits_eq p 54) by lia.
  rewrite fexp_range by (unfold in_range in *; lia). replace (54 + e - 53 - e) with 1 by lia. cbn [shr SpecFloat.iter_pos].
  set (r := shr_1 (shr_record_of_loc (Zpos p) l)). assert (exists q, shr_m r = Zpos q /\ 2 ^ 52 <= Zpos q < 2 ^ 53 /\
    round_nearest_even (Zpos q) (loc_of_shr_record r) < 2 ^ 53) as (q & Eq & Hq & Hround).
  { pose proof (round_bounds) as Hb. unfold r. destruct p as [p|p|]; [| |lia].
    - exists p. split; [by destruct l as [|[]]|]. split; [lia|].
      match goal with |- round_nearest_even _ ?k < _ => specialize (Hb (Zpos p) k) end. lia.
    - exists p. split; [by destruct l as [|[]]|]. split; [lia|]. destruct l as [|[]]; cbn; lia. }
  rewrite Eq. pose proof (round_bounds (Zpos q) (loc_of_shr_record r)).
  destruct (round_nearest_even (Zpos q) (loc_of_shr_record r)) as [|m|m] eqn:Em; [lia| |lia].
  rewrite shr_fexp_53 by (done || lia). cbn [shr_record_of_loc shr_m]. rewrite (proj2 (Z.leb_le _ _)) by (unfold in_range in *; lia).
  exists m. split; [done|]. lia.
Qed.

(** ** Integers *)

Lemma iter_xO m k : Zpos (Pos.iter xO m k) = Zpos m * 2 ^ Zpos k.
Proof.
  induction k as [|k IH] using Pos.peano_ind; [cbn [Pos.iter]; lia|].
  rewrite Pos.iter_succ, Pos2Z.inj_xO, IH, Pos2Z.inj_succ, Z.pow_succ_r by lia. lia.
Qed.

(** What an integer is converted to: its first 53 digits, all of them. *)
Lemma double_of_small n : 0 < n < 2 ^ 53 -> exists m e, double_of n = S754_finite false m e /\
  2 ^ 52 <= Zpos m < 2 ^ 53 /\ -52 <= e <= 0 /\ Zpos m = n * 2 ^ (- e).
Proof.
  intros Hn. destruct n as [|n|n]; [lia| |lia]. unfold double_of, binary_normalize, binary_round.
  pose proof (digits_bounds n) as Hd. set (d := Zpos (digits2_pos n)) in *. assert (0 < d <= 53) as Hd53.
  { split; [unfold d; lia|]. destruct (Z.le_gt_cases d 53) as [|Hgt]; [done|].
    pose proof (Z.pow_le_mono_r 2 53 (d - 1) ltac:(lia) ltac:(lia)). lia. }
  rewrite fexp_range by (unfold in_range; lia). unfold shl_align. replace (d + 0 - 53 - 0) with (d - 53) by lia.
  assert (exists p, match d - 53 with Zneg k => (Pos.iter xO n k, d + 0 - 53) | _ => (n, 0) end = (p, d - 53) /\
    Zpos p = Zpos n * 2 ^ (53 - d)) as (p & -> & Hp).
  { destruct (d - 53) as [|k|k] eqn:Ek; [|lia|].
    - exists n. split; [done|]. replace (53 - d) with 0 by lia. lia.
    - exists (Pos.iter xO n k). split; [f_equal; lia|]. rewrite iter_xO. do 2 f_equal. lia. }
  assert (2 ^ 52 <= Zpos p < 2 ^ 53) as Hp53.
  { rewrite Hp. replace 52 with ((d - 1) + (53 - d)) by lia. replace (2 ^ 53) with (2 ^ d * 2 ^ (53 - d)) by
      (rewrite <- Z.pow_add_r by lia; f_equal; lia).
    rewrite Z.pow_add_r by lia. pose proof (Z.pow_pos_nonneg 2 (53 - d) ltac:(lia) ltac:(lia)). nia. }
  destruct (round_53 p (d - 53) loc_Exact Hp53) as (m & E & Hm & Em); [unfold in_range; lia|cbn; lia|].
  exists m, (d - 53). split; [exact E|]. split; [done|]. split; [lia|]. cbn in Em. rewrite Em, Hp. do 2 f_equal. lia.
Qed.

(** The order of two such numbers, from their mantissas and exponents. *)
Lemma double_of_order a b m1 e1 m2 e2 : 0 < a -> 0 < b -> -52 <= e1 <= 0 -> -52 <= e2 <= 0 ->
  2 ^ 52 <= Zpos m1 < 2 ^ 53 -> 2 ^ 52 <= Zpos m2 < 2 ^ 53 -> Zpos m1 = a * 2 ^ (- e1) -> Zpos m2 = b * 2 ^ (- e2) ->
  (e2 < e1 \/ e1 = e2 /\ Zpos m2 <= Zpos m1) <-> b <= a.
Proof.
  intros Ha Hb He1 He2 Hm1 Hm2 E1 E2.
  assert (forall a b m1 e1 m2 e2, 0 < a -> 0 < b -> -52 <= e1 -> e2 <= 0 -> 2 ^ 52 <= m1 -> m2 < 2 ^ 53 ->
    m1 = a * 2 ^ (- e1) -> m2 = b * 2 ^ (- e2) -> e2 < e1 <= 0 -> b < a) as Hlt.
  { clear. intros a b m1 e1 m2 e2 Ha Hb H1 H2 Hm1 Hm2 -> -> [Hlt H0].
    replace (- e2) with (1 + (- e1 + (e1 - e2 - 1))) in Hm2 by lia. rewrite !Z.pow_add_r in Hm2 by lia.
    pose proof (Z.pow_pos_nonneg 2 (e1 - e2 - 1) ltac:(lia) ltac:(lia)).
    pose proof (Z.pow_pos_nonneg 2 (- e1) ltac:(lia) ltac:(lia)).
    assert (b * 2 ^ (- e1) < a * 2 ^ (- e1)) by nia. nia. }
  destruct (Z.lt_trichotomy e1 e2) as [H|[->|H]].
  - pose proof (Hlt b a _ e2 _ e1 Hb Ha ltac:(lia) ltac:(lia) (proj1 Hm2) (proj2 Hm1) E2 E1 ltac:(lia)). lia.
  - rewrite E1, E2. pose proof (Z.pow_pos_nonneg 2 (- e2) ltac:(lia) ltac:(lia)). split; [intros [|[_ ?]]; [lia|nia]|].
    intros. right. split; [done|nia].
  - pose proof (Hlt a b _ e1 _ e2 Ha Hb ltac:(lia) ltac:(lia) (proj1 Hm1) (proj2 Hm2) E1 E2 ltac:(lia)). lia.
Qed.

(** ** Quotients *)

(** What quotients of integers are: zero, or positive and away from the bounds. *)
Definition ratio (x : double) : Prop :=
  match x with
  | S754_zero false => True
  | S754_finite false m e => 2 ^ 52 <= Zpos m < 2 ^ 53 /\ in_range e
  | _ => False
  end.

Lemma quotient_ok m1 e1 m2 e2 : 2 ^ 52 <= Zpos m1 < 2 ^ 53 -> 2 ^ 52 <= Zpos m2 < 2 ^ 53 ->
  -52 <= e1 <= 0 -> -52 <= e2 <= 0 ->
  exists m e, double_div (S754_finite false m1 e1) (S754_finite false m2 e2) = S754_finite false m e /\
    2 ^ 52 <= Zpos m < 2 ^ 53 /\ in_range e /\ (-52 <= e <-> e2 < e1 \/ e1 = e2 /\ Zpos m2 <= Zpos m1).
Proof.
  intros Hm1 Hm2 He1 He2. unfold double_div, SFdiv, SFdiv_core_binary. cbn [Zdigits2].
  rewrite (digits_eq m1 53), (digits_eq m2 53) by (done || lia).
  replace (53 + e1 - (53 + e2)) with (e1 - e2 + 0) by lia. rewrite fexp_range by (unfold in_range; lia).
  replace (Z.min (e1 - e2 + 0 - 53) (e1 - e2)) with (e1 - e2 - 53) by lia.
  replace (e1 - e2 - (e1 - e2 - 53)) with 53 by lia. rewrite Z.shiftl_mul_pow2 by lia.
  pose proof (Z_div_mod (Zpos m1 * 2 ^ 53) (Zpos m2) ltac:(lia)) as Hdiv.
  destruct (Z.div_eucl (Zpos m1 * 2 ^ 53) (Zpos m2)) as [q r]. destruct Hdiv as [Hq Hr]. cbn [xorb].
  set (l := new_location _ _). assert (2 ^ 52 <= q <= 2 ^ 54 - 2) as Hqb.
  { split; apply Z.lt_succ_r.
    - apply (Z.mul_lt_mono_pos_l (Zpos m2)); [lia|]. rewrite Z.mul_succ_r. lia.
    - apply (Z.mul_lt_mono_pos_l (Zpos m2)); [lia|]. lia. }
  destruct q as [|q|q]; [lia| |lia]. destruct (Z.lt_ge_cases (Zpos q) (2 ^ 53)) as [Hlt|Hge].
  - assert (Zpos m1 < Zpos m2) as Hm.
    { pose proof (Z.mul_le_mono_nonneg_l (Zpos q) (2 ^ 53 - 1) (Zpos m2)). lia. }
    assert (Zpos q < 2 ^ 53 - 1) as Hq1.
    { apply (Z.mul_lt_mono_pos_l (Zpos m2)); [lia|]. lia. }
    pose proof (round_bounds (Zpos q) l). destruct (round_53 q (e1 - e2 - 53) l) as (m & -> & Hmb & _); [lia|unfold in_range; lia|lia|].
    exists m, (e1 - e2 - 53). unfold in_range. split_and!; [done|lia|lia|lia|lia|lia].
  - assert (Zpos m2 <= Zpos m1) as Hm.
    { pose proof (Z.mul_le_mono_nonneg_l (2 ^ 53) (Zpos q) (Zpos m2)). lia. }
    destruct (round_54 q (e1 - e2 - 53) l) as (m & -> & Hmb); [lia|unfold in_range; lia|unfold in_range; lia|].
    exists m, (e1 - e2 - 53 + 1). unfold in_range. split_and!; [done|lia|lia|lia|lia|lia].
Qed.

Lemma double_le_one m e : 2 ^ 52 <= Zpos m -> double_le (double_of 1) (S754_finite false m e) = (-52 <=? e).
Proof.
  intros Hm. change (double_of 1) with (S754_finite false 4503599627370496 (-52)). unfold double_le, SFleb, SFcompare.
  apply eq_bool_iff. rewrite Z.leb_le. destruct (Z.compare_spec (-52) e) as [E|E|E]; [|split; [lia|done]|split; [done|lia]].
  change (Pos.compare_cont Eq 4503599627370496 m) with (4503599627370496 ?= m)%positive.
  destruct (Pos.compare_spec 4503599627370496 m) as [_|_|Hlt]; [by rewrite E..|].
  apply Pos2Z.pos_lt_pos in Hlt. change (2 ^ 52) with 4503599627370496 in Hm. by apply Z.lt_nge in Hlt.
Qed.

(** The quotient of two integers is at least 1 exactly when the dividend is at least
    the divisor: the rounding never reaches 1. *)
Lemma quotient_ge_one a b : 0 <= a < 2 ^ 53 -> 0 < b < 2 ^ 53 ->
  ratio (double_div (double_of a) (double_of b)) /\
  double_le (double_of 1) (double_div (double_of a) (double_of b)) = (b <=? a).
Proof.
  intros Ha Hb. destruct (double_of_small b Hb) as (m2 & e2 & -> & Hm2 & He2 & E2).
  destruct (decide (a = 0)) as [->|Hne].
  { split; [done|]. cbn. symmetry. apply Z.leb_gt. lia. }
  destruct (double_of_small a) as (m1 & e1 & -> & Hm1 & He1 & E1); [lia|].
  destruct (quotient_ok m1 e1 m2 e2) as (m & e & -> & Hm & He & Hone); [done..|]. split; [by split|].
  rewrite double_le_one by apply Hm. apply eq_bool_iff. rewrite !Z.leb_le, Hone.
  apply double_of_order; (done || lia).
Qed.

(** ** The order of quotients *)

(** An integer that orders them. *)
Definition rank (x : double) : Z :=
  match x with S754_finite _ m e => (e + 2000) * 2 ^ 53 + Zpos m | _ => 0 end.

Lemma double_lt_rank x y : ratio x -> ratio y -> double_lt x y = (rank x <? rank y).
Proof.
  unfold double_lt, SFltb, in_range. intros Hx Hy. apply eq_bool_iff. rewrite Z.ltb_lt.
  destruct x as [[]| | |[] m e], y as [[]| | |[] m' e']; try done; cbn [SFcompare rank ratio] in *; unfold in_range in *.
  - split; [intros _; lia|done].
  - split; [done|lia].
  - destruct (Z.compare_spec e e') as [E|E|E]; [subst|split; [intros _; nia|done]|split; [done|nia]].
    change (Pos.compare_cont Eq m m') with (m ?= m')%positive.
    destruct (Pos.compare_spec m m') as [->|?|?]; split; first [done|lia|intros; lia].
Qed.

Lemma double_le_rank x y : ratio x -> ratio y -> double_le x y = (rank x <=? rank y).
Proof.
  unfold double_le, SFleb, in_range. intros Hx Hy. apply eq_bool_iff. rewrite Z.leb_le.
  destruct x as [[]| | |[] m e], y as [[]| | |[] m' e']; try done; cbn [SFcompare rank ratio] in *; unfold in_range in *.
  - split; [intros _; lia|done].
  - split; [done|lia].
  - destruct (Z.compare_spec e e') as [E|E|E]; [subst|split; [intros _; nia|done]|split; [done|nia]].
    change (Pos.compare_cont Eq m m') with (m ?= m')%positive.
    destruct (Pos.compare_spec m m') as [->|?|?]; split; (done || lia).
Qed.

Lemma ratio_one : ratio (double_of 1).
Proof. by vm_compute. Qed.
