(* ===== verification/VersionFiles.v ===== *)
(** * The files of a level ([leveldb-library/db/version_set.cc])

    A version holds, for every level, a vector of pointers to the metadata of its
    files. A pointer is the address and the metadata, which is never changed after
    it was created but for two counters that [VersionGet.v] keeps apart. This file
    has the searches in the vector of one level: [FindFile], the test for overlap
    with a range of user keys, and the iterator over the files of a level, which
    implements the interface of [Cursor.v]. *)

From Stdlib Require Import String Sorting.Sorted.
From stdpp Require Import base list sorting.
From S2P Require Import Prelude Cursor Coding DbFormat VersionEdit.

#[local] Open Scope Z_scope.

#[export] Instance FileMetaData_eq_dec : EqDecision FileMetaData.
Proof. solve_decision. Defined.

Record file := File { address : positive; meta :> FileMetaData }.

#[export] Instance file_eq_dec : EqDecision file.
Proof. solve_decision. Defined.

(** A conversion to [int64_t]. *)
Definition int64 (x : Z) : Z := let u := wrap 64 x in if u <? 2 ^ 63 then u else u - 2 ^ 64.

(** ** Limits, from the option [max_file_size] *)

Definition TargetFileSize (max_file_size : Z) : Z := max_file_size.
Definition MaxGrandParentOverlapBytes (max_file_size : Z) : Z := int64 (10 * TargetFileSize max_file_size).
Definition ExpandedCompactionByteSizeLimit (max_file_size : Z) : Z := int64 (25 * TargetFileSize max_file_size).
Definition MaxFileSizeForLevel (max_file_size : Z) (level : nat) : Z := TargetFileSize max_file_size.

Definition TotalFileSize (files : list file) : Z := foldl (fun sum (f : file) => int64 (sum + file_size f)) 0 files.

Section files.
Context `{Comparator} `{Coding} `{!InternalKeyFormat, !InternalComparator}.

Definition InternalKey_user_key (rep_ : list Z) : option (list Z) := ExtractUserKey rep_.

(** ** Searching *)

Fixpoint find_file_loop (fuel : nat) (files : list file) (key : list Z) (left right : Z) : option Z :=
  if left <? right then
    match fuel with
    | O => None
    | S fuel =>
        let mid := wrap 32 (left + right) `div` 2 in
        f ← files !! Z.to_nat mid; k ← InternalKey_Encode (largest (meta f));
        if ICompare k key <? 0 then find_file_loop fuel files key (mid + 1) right
        else find_file_loop fuel files key left mid
    end
  else Some right.

(** The result as the callers keep it, in 32 bits. *)
Definition FindFile (files : list file) (key : list Z) : option Z :=
  find_file_loop (length files) files key 0 (wrap 32 (Z.of_nat (length files))).

(** A user key that is [None] is a null pointer: no bound. *)
Definition AfterFile (user_key : option (list Z)) (f : file) : option bool :=
  match user_key with
  | None => Some false
  | Some k => l ← InternalKey_user_key (largest f); Some (0 <? Compare k l)
  end.

Definition BeforeFile (user_key : option (list Z)) (f : file) : option bool :=
  match user_key with
  | None => Some false
  | Some k => s ← InternalKey_user_key (smallest f); Some (Compare k s <? 0)
  end.

(** The test against every file. *)
Fixpoint overlaps_any (files : list file) (lo hi : option (list Z)) : option bool :=
  match files with
  | [] => Some false
  | f :: files =>
      after ← AfterFile lo f;
      no_overlap ← (if after : bool then Some true else BeforeFile hi f);
      if no_overlap : bool then overlaps_any files lo hi else Some true
  end.

Definition SomeFileOverlapsRange (disjoint_sorted_files : bool) (files : list file)
    (smallest_user_key largest_user_key : option (list Z)) : option bool :=
  if negb disjoint_sorted_files then overlaps_any files smallest_user_key largest_user_key
  else
    index ← match smallest_user_key with
            | None => Some 0
            | Some u =>
                k ← InternalKey_Encode (AppendInternalKey [] (ParsedKey u kMaxSequenceNumber kValueTypeForSeek));
                FindFile files k
            end;
    if Z.of_nat (length files) <=? index then Some false
    else f ← files !! Z.to_nat index; before ← BeforeFile largest_user_key f; Some (negb before).

(** ** The iterator over the files of a level *)

Record LevelFileNumIterator := mkFileIter { flist_ : list file; index_ : Z }.

Definition FileIter_new (flist : list file) : LevelFileNumIterator := mkFileIter flist (wrap 32 (Z.of_nat (length flist))).
Definition FileIter_Valid (it : LevelFileNumIterator) : bool := index_ it <? Z.of_nat (length (flist_ it)).
Definition FileIter_Seek (target : list Z) (it : LevelFileNumIterator) : option LevelFileNumIterator :=
  index ← FindFile (flist_ it) target; Some (mkFileIter (flist_ it) index).
Definition FileIter_SeekToFirst (it : LevelFileNumIterator) : option LevelFileNumIterator := Some (mkFileIter (flist_ it) 0).
Definition FileIter_SeekToLast (it : LevelFileNumIterator) : option LevelFileNumIterator :=
  Some (mkFileIter (flist_ it) (if bool_decide (flist_ it = []) then 0 else wrap 32 (Z.of_nat (length (flist_ it)) - 1))).
Definition FileIter_Next (it : LevelFileNumIterator) : option LevelFileNumIterator :=
  _ ← assert_ (FileIter_Valid it); Some (mkFileIter (flist_ it) (wrap 32 (index_ it + 1))).
Definition FileIter_Prev (it : LevelFileNumIterator) : option LevelFileNumIterator :=
  _ ← assert_ (FileIter_Valid it);
  Some (mkFileIter (flist_ it) (if index_ it =? 0 then wrap 32 (Z.of_nat (length (flist_ it))) else index_ it - 1)).
Definition FileIter_key (it : LevelFileNumIterator) : option (list Z) :=
  _ ← assert_ (FileIter_Valid it); f ← flist_ it !! Z.to_nat (index_ it); InternalKey_Encode (largest (meta f)).
Definition FileIter_value (it : LevelFileNumIterator) : option (list Z) :=
  _ ← assert_ (FileIter_Valid it); f ← flist_ it !! Z.to_nat (index_ it);
  Some (EncodeFixed64 (number (meta f)) ++ EncodeFixed64 (file_size (meta f))).

#[export] Instance File_Iterator : Iterator LevelFileNumIterator := {|
  it_Valid := FileIter_Valid; it_key := FileIter_key; it_value := FileIter_value; it_status _ := Ok;
  it_Next := FileIter_Next; it_Prev := FileIter_Prev; it_Seek := FileIter_Seek;
  it_SeekToFirst := FileIter_SeekToFirst; it_SeekToLast := FileIter_SeekToLast |}.

(** What is opened for a value of the iterator: the number and the size of a table. *)
Definition GetFileIterator (file_value : list Z) : Status + (Z * Z) :=
  if negb (length file_value =? 16)%nat then inl (Corruption "FileReader invoked with unexpected value")
  else inr (DecodeFixed64 file_value, DecodeFixed64 (drop 8 file_value)).
End files.

(** ** Well-formed files *)

Section valid.
Context `{ComparatorLaws} `{CodingLaws} `{!InternalKeyFormat, !InternalKeyFormatLaws}.
Context `{!InternalComparator, !InternalComparatorLaws}.
Implicit Types f g : file.

Definition valid_key (k : list Z) : Prop := exists p, ParseInternalKey k = Some p /\ sequence p <= kMaxSequenceNumber.

Definition valid_file f : Prop := valid_key (smallest f) /\ valid_key (largest f) /\ ~ internal_lt (largest f) (smallest f).

(** Sorted files with disjoint ranges, what the levels above 0 hold. *)
Definition disjoint (files : list file) : Prop := StronglySorted (fun f g : file => internal_lt (largest f) (smallest g)) files.

(** A range of user keys and a file have a key in common. *)
Definition overlaps (lo hi : option (list Z)) f : Prop :=
  (forall a, lo = Some a -> ~ lt_key (ukey (largest f)) a) /\ (forall b, hi = Some b -> ~ lt_key b (ukey (smallest f))).

#[export] Instance overlaps_dec lo hi f : Decision (overlaps lo hi f).
Proof.
  apply and_dec.
  - destruct lo as [a|]; [|by left]. destruct (decide (lt_key (ukey (largest f)) a)); [right|left]; naive_solver.
  - destruct hi as [b|]; [|by left]. destruct (decide (lt_key b (ukey (smallest f)))); [right|left]; naive_solver.
Defined.

Lemma valid_key_length k : valid_key k -> (8 <= length k)%nat.
Proof. intros (p & Hp & _). by apply ParseInternalKey_Some in Hp as (? & _). Qed.

Lemma valid_key_user k : valid_key k -> InternalKey_user_key k = Some (ukey k).
Proof. intros Hk. by apply ExtractUserKey_ok, valid_key_length. Qed.

Lemma valid_key_encode k : valid_key k -> InternalKey_Encode k = Some k.
Proof.
  intros Hk%valid_key_length. unfold InternalKey_Encode. rewrite bool_decide_true; [done|]. intros ->. simpl in Hk. lia.
Qed.

Lemma valid_key_tag k : valid_key k -> tag k <= kMaxSequenceNumber * 256 + 1.
Proof.
  intros (p & Hp & Hs). apply ParseInternalKey_Some in Hp as (_ & _ & ->).
  assert (value_type_code (type p) <= 1) by (by destruct (type p)). lia.
Qed.

(** The first internal key of a user key. *)
Definition first_key (u : list Z) : list Z := AppendInternalKey [] (ParsedKey u kMaxSequenceNumber kValueTypeForSeek).

Lemma first_key_valid u : valid_key (first_key u) /\ ukey (first_key u) = u /\ tag (first_key u) = kMaxSequenceNumber * 256 + 1.
Proof.
  assert (ParseInternalKey (first_key u) = Some (ParsedKey u kMaxSequenceNumber kValueTypeForSeek)) as Hp.
  { apply AppendInternalKey_parses. unfold kMaxSequenceNumber. simpl. lia. }
  split; [by eexists|]. by apply ParseInternalKey_Some in Hp as (_ & Hu & Ht).
Qed.

Lemma lt_first_key k u : valid_key k -> internal_lt k (first_key u) <-> lt_key (ukey k) u.
Proof.
  intros Hk%valid_key_tag. destruct (first_key_valid u) as (_ & Hu & Ht). unfold internal_lt. rewrite Hu, Ht.
  split; [intros [|[_ ?]]; [done|lia]|by left].
Qed.

Lemma valid_file_ukeys f : valid_file f -> ~ lt_key (ukey (largest f)) (ukey (smallest f)).
Proof. intros (_ & _ & Hle) Hlt. apply Hle. by left. Qed.

Lemma disjoint_largest files : Forall valid_file files -> disjoint files ->
  StronglySorted (fun f g : file => internal_lt (largest f) (largest g)) files.
Proof.
  intros Hv Hd. induction Hd as [|f files Hd IH Hf]; [constructor|]. apply Forall_cons_1 in Hv as [_ Hv].
  constructor; [by apply IH|]. rewrite list.Forall_forall in Hf, Hv |- *. intros g Hg.
  destruct (Hv g Hg) as (_ & _ & Hle). eapply internal_lt_le_trans; [by apply Hf|done].
Qed.

(** ** The entries of the iterator *)

Definition file_entry f : entry := (largest f, EncodeFixed64 (number f) ++ EncodeFixed64 (file_size f)).

Definition file_entries (files : list file) : list entry := file_entry <$> files.

Record level_files (files : list file) : Prop := {
  lf_valid : Forall valid_file files;
  lf_disjoint : disjoint files;
  lf_small : Z.of_nat (length files) < 2 ^ 31 }.

Section level.
Context (files : list file) (Hfiles : level_files files).

Lemma level_lookup i f : files !! i = Some f -> valid_file f /\ Z.of_nat i < 2 ^ 31.
Proof using Hfiles.
  intros Hi. split; [by eapply Forall_lookup_1; [apply lf_valid|]|]. pose proof (lf_small _ Hfiles).
  apply lookup_lt_Some in Hi. lia.
Qed.

Lemma entries_sorted : @sorted_keys ICompare (file_entries files).
Proof using All.
  unfold sorted_keys, file_entries. rewrite <- list_fmap_compose.
  eapply StronglySorted_fmap; [|apply disjoint_largest; apply Hfiles]. intros f g. apply ICompare_lt.
Qed.

Lemma entries_lookup i : file_entries files !! i = file_entry <$> files !! i.
Proof using. apply list_lookup_fmap. Qed.

(** The index of the first file that does not end before [key]. *)
Abbreviation file_index key := (seek_index internal_before (file_entries files) key).

Lemma file_index_eq key i : (i <= length files)%nat ->
  (forall j f, files !! j = Some f -> (j < i)%nat -> internal_lt (largest f) key) ->
  (forall f, files !! i = Some f -> ~ internal_lt (largest f) key) -> file_index key = i.
Proof using All.
  intros Hi Hbefore Hat. rewrite <- (seek_index_ext (@user_before ICompare)) by apply internal_before_eq.
  pose proof internal_order. apply seek_index_eq; [apply entries_sorted|unfold file_entries; by rewrite length_fmap|..].
  - intros e [j Hj]%list_elem_of_lookup. assert (j < i)%nat as Hji.
    { apply lookup_lt_Some in Hj. rewrite length_take in Hj. lia. }
    rewrite lookup_take_lt, entries_lookup in Hj by done.
    destruct (files !! j) as [f|] eqn:Ef; [|done]. injection Hj as <-. apply ICompare_lt. by eapply Hbefore.
  - intros e. rewrite entries_lookup. destruct (files !! i) as [f|]; [|done]. intros [= <-] Hlt%ICompare_lt.
    by apply (Hat f).
Qed.

Lemma file_index_spec key i f : files !! i = Some f -> internal_lt (largest f) key <-> (i < file_index key)%nat.
Proof using All.
  set (P := fun f : file => internal_lt (largest f) key).
  assert (files = filter P files ++ filter (fun f => ~ P f) files) as E.
  { apply filter_split. eapply StronglySorted_impl; [|apply disjoint_largest; apply Hfiles].
    intros g g' Hlt Hk. exact (internal_lt_trans _ _ _ Hlt Hk). }
  assert (forall j g, files !! j = Some g -> P g <-> (j < length (filter P files))%nat) as Hsplit.
  { intros j g Hj. rewrite E in Hj. destruct (decide (j < length (filter P files))%nat) as [Hlt|Hge].
    - rewrite lookup_app_l in Hj by done. apply list_elem_of_lookup_2, list_elem_of_filter in Hj as [Hp _]. tauto.
    - rewrite lookup_app_r in Hj by lia. apply list_elem_of_lookup_2, list_elem_of_filter in Hj as [Hp _]. tauto. }
  intros Hi. rewrite (file_index_eq key (length (filter P files))); [by apply Hsplit|apply length_filter|..].
  - intros j g Hj Hlt. by apply (Hsplit j g Hj).
  - intros g Hg Hp. apply (Hsplit _ g Hg) in Hp. lia.
Qed.

Lemma find_file_loop_ok fuel key left right : (left <= right <= length files)%nat -> (right - left <= fuel)%nat ->
  (forall i f, files !! i = Some f -> (i < left)%nat -> internal_lt (largest f) key) ->
  (forall f, files !! right = Some f -> ~ internal_lt (largest f) key) ->
  find_file_loop fuel files key (Z.of_nat left) (Z.of_nat right) = Some (Z.of_nat (file_index key)).
Proof using All.
  pose proof (lf_small _ Hfiles) as Hsmall. pose proof (disjoint_largest _ (lf_valid _ Hfiles) (lf_disjoint _ Hfiles)) as Hs.
  revert left right. induction fuel as [|fuel IH]; intros left right Hlr Hfuel Hleft Hright; cbn [find_file_loop];
    destruct (Z.ltb_spec (Z.of_nat left) (Z.of_nat right)) as [Hlt|Hge]; try lia;
    try (assert (left = right) as -> by lia; do 2 f_equal; symmetry; by apply file_index_eq; [lia|..]).
  set (mid := ((left + right) / 2)%nat).
  assert (left <= mid < right)%nat as Hmid.
  { unfold mid. pose proof (Nat.div_mod (left + right) 2). pose proof (Nat.mod_upper_bound (left + right) 2). lia. }
  assert (wrap 32 (Z.of_nat left + Z.of_nat right) `div` 2 = Z.of_nat mid) as ->.
  { rewrite wrap_small by (unfold is_u; lia). unfold mid. rewrite Nat2Z.inj_div. f_equal. lia. }
  rewrite Nat2Z.id. destruct (files !! mid) as [f|] eqn:Ef; [|apply lookup_ge_None in Ef; lia].
  destruct (level_lookup _ _ Ef) as [(_ & Hval & _) _]. cbn [mbind option_bind].
  rewrite valid_key_encode by done. cbn [mbind option_bind].
  destruct (Z.ltb_spec (ICompare (largest f) key) 0) as [Hk|Hk].
  - apply ICompare_lt in Hk. replace (Z.of_nat mid + 1) with (Z.of_nat (S mid)) by lia. apply IH; [lia|lia| |done].
    intros i g Hg Hi. destruct (decide (i = mid)) as [->|]; [by rewrite Ef in Hg; injection Hg as <-|].
    eapply internal_lt_trans; [|exact Hk]. exact (StronglySorted_lookup _ _ i mid _ _ Hs Hg Ef ltac:(lia)).
  - apply IH; [lia|lia|done|]. intros g Hg. rewrite Ef in Hg. injection Hg as <-. intros Hlt'%ICompare_lt. lia.
Qed.

Lemma FindFile_ok key : FindFile files key = Some (Z.of_nat (file_index key)).
Proof using All.
  pose proof (lf_small _ Hfiles). unfold FindFile. rewrite wrap_small by (unfold is_u; lia).
  apply (find_file_loop_ok _ _ 0); [lia|lia|lia|]. intros f Hf. apply lookup_lt_Some in Hf. lia.
Qed.
End level.

(** ** Overlap *)

Lemma overlaps_split lo hi f : overlaps lo hi f <-> overlaps lo None f /\ overlaps None hi f.
Proof. unfold overlaps. naive_solver. Qed.

Lemma AfterFile_ok lo f : valid_file f -> AfterFile lo f = Some (negb (bool_decide (overlaps lo None f))).
Proof.
  intros (_ & Hl & _). unfold AfterFile, overlaps. destruct lo as [a|]; [|by rewrite bool_decide_true].
  rewrite valid_key_user by done. cbn [mbind option_bind]. f_equal. apply eq_bool_iff.
  rewrite negb_true_iff, bool_decide_eq_false, Z.ltb_lt, Compare_gt.
  destruct (decide (lt_key (ukey (largest f)) a)); naive_solver.
Qed.

Lemma BeforeFile_ok hi f : valid_file f -> BeforeFile hi f = Some (negb (bool_decide (overlaps None hi f))).
Proof.
  intros (Hs & _). unfold BeforeFile, overlaps. destruct hi as [b|]; [|by rewrite bool_decide_true].
  rewrite valid_key_user by done. cbn [mbind option_bind]. f_equal. apply eq_bool_iff.
  rewrite negb_true_iff, bool_decide_eq_false, Z.ltb_lt. fold (lt_key b (ukey (smallest f))).
  destruct (decide (lt_key b (ukey (smallest f)))); naive_solver.
Qed.

Lemma overlaps_any_ok files lo hi : Forall valid_file files ->
  overlaps_any files lo hi = Some (bool_decide (Exists (overlaps lo hi) files)).
Proof.
  induction 1 as [|f files Hf _ IH]; [rewrite bool_decide_false; [done|by inversion 1]|].
  cbn [overlaps_any]. rewrite AfterFile_ok by done. cbn [mbind option_bind].
  pose proof (overlaps_split lo hi f). destruct (decide (overlaps lo None f)) as [Ha|Ha].
  - rewrite (bool_decide_true _ Ha). cbn [negb]. rewrite BeforeFile_ok by done. cbn [mbind option_bind].
    destruct (decide (overlaps None hi f)) as [Hb|Hb].
    + rewrite (bool_decide_true _ Hb). cbn [negb]. rewrite bool_decide_true; [done|]. left. tauto.
    + rewrite (bool_decide_false _ Hb). cbn [negb]. rewrite IH. f_equal. apply bool_decide_ext.
      rewrite Exists_cons. tauto.
  - rewrite (bool_decide_false _ Ha). cbn [negb mbind option_bind]. rewrite IH. f_equal. apply bool_decide_ext.
    rewrite Exists_cons. tauto.
Qed.

Lemma SomeFileOverlapsRange_sorted files lo hi : level_files files ->
  SomeFileOverlapsRange true files lo hi = Some (bool_decide (Exists (overlaps lo hi) files)).
Proof.
  intros Hfiles. pose proof (lf_valid _ Hfiles) as Hv.
  unfold SomeFileOverlapsRange. cbn [negb].
  assert (exists i, match lo with
      | None => Some 0
      | Some u => k ← InternalKey_Encode (AppendInternalKey [] (ParsedKey u kMaxSequenceNumber kValueTypeForSeek)); FindFile files k
      end = Some (Z.of_nat i) /\ (forall j f, files !! j = Some f -> (j < i)%nat -> ~ overlaps lo None f) /\
      (forall f, files !! i = Some f -> overlaps lo None f)) as (i & -> & Hbefore & Hat).
  { destruct lo as [u|]; [|by exists 0%nat; split_and!; [|lia|]]. fold (first_key u).
    destruct (first_key_valid u) as (Hk & _). rewrite valid_key_encode by done. cbn [mbind option_bind].
    rewrite FindFile_ok by done. eexists. split; [done|].
    assert (forall j f, files !! j = Some f -> overlaps (Some u) None f <->
      ~ (j < seek_index internal_before (file_entries files) (first_key u))%nat) as Hov.
    { intros j f Hj. rewrite <- (file_index_spec files Hfiles _ _ _ Hj). destruct (level_lookup files Hfiles _ _ Hj) as [(_ & Hl & _) _].
      rewrite lt_first_key by done. unfold overlaps. naive_solver. }
    split; [intros j f Hj Hlt Ho; by apply (Hov j f Hj) in Ho|intros f Hf; apply (Hov _ f Hf); lia]. }
  cbn [mbind option_bind]. destruct (Z.leb_spec (Z.of_nat (length files)) (Z.of_nat i)) as [Hge|Hlt].
  - rewrite bool_decide_false; [done|]. intros (f & [j Hj]%list_elem_of_lookup & Ho)%list.Exists_exists.
    apply overlaps_split in Ho as [Ho _]. apply lookup_lt_Some in Hj as Hjl. by apply (Hbefore j f Hj ltac:(lia)).
  - rewrite Nat2Z.id. destruct (files !! i) as [f|] eqn:Ef; [|apply lookup_ge_None in Ef; lia]. cbn [mbind option_bind].
    assert (valid_file f) as Hf by by eapply Forall_lookup_1.
    rewrite BeforeFile_ok by done. cbn [mbind option_bind]. f_equal. rewrite negb_involutive. apply bool_decide_ext.
    rewrite list.Exists_exists. split.
    + intros Hb. exists f. split; [by eapply list_elem_of_lookup_2|]. apply overlaps_split. split; [by apply Hat|done].
    + intros (g & [j Hj]%list_elem_of_lookup & Ho). apply overlaps_split in Ho as [Ha Hb].
      destruct (lt_eq_lt_dec i j) as [[Hij| ->]|Hji].
      * split; [done|]. intros b -> Hlt'. destruct Hb as [_ Hb]. apply (Hb b eq_refl).
        pose proof (StronglySorted_lookup _ _ _ _ _ _ (lf_disjoint _ Hfiles) Ef Hj Hij) as Hfg.
        apply internal_lt_ukey in Hfg. eapply lt_le_key_trans; [exact Hlt'|]. intros Hgf. apply Hfg.
        eapply lt_le_key_trans; [exact Hgf|]. by apply valid_file_ukeys.
      * rewrite Ef in Hj. by injection Hj as ->.
      * by apply (Hbefore j g Hj) in Hji.
Qed.

(** The binary search over a sorted level of disjoint files gives the
    same answer as the test of every file, and both tell whether some file has a
    user key in the range; with null bounds, too. *)
Theorem overlap_search files lo hi : level_files files ->
  SomeFileOverlapsRange true files lo hi = SomeFileOverlapsRange false files lo hi /\
  SomeFileOverlapsRange true files lo hi = Some (bool_decide (Exists (overlaps lo hi) files)).
Proof.
  intros Hfiles. rewrite SomeFileOverlapsRange_sorted by done. split; [|done]. symmetry.
  apply overlaps_any_ok, (lf_valid _ Hfiles).
Qed.

(** ** The iterator *)

Definition file_iter_at (files : list file) (it : LevelFileNumIterator) (p : option nat) : Prop :=
  flist_ it = files /\ index_ it = Z.of_nat (from_option id (length files) p) /\ forall i, p = Some i -> (i < length files)%nat.

(** The iterator over a sorted level implements the iterator interface
    for the largest keys of its files, sought by the order of internal keys; the
    value of an entry opens the table of its number and size. *)
Theorem file_iterator_laws files : level_files files ->
  IteratorLaws internal_before (file_entries files) (file_iter_at files) /\
  file_iter_at files (FileIter_new files) None /\
  forall f, is_u 64 (number f) -> is_u 64 (file_size f) ->
    GetFileIterator (file_entry f).2 = inr (number f, file_size f).
Proof.
  intros Hfiles. pose proof (lf_small _ Hfiles) as Hsmall.
  assert (length (file_entries files) = length files) as Hlen by (unfold file_entries; apply length_fmap).
  assert (forall i, (i <= length files)%nat -> forall it, flist_ it = files -> index_ it = Z.of_nat i ->
    file_iter_at files it (position (file_entries files) i)) as Hat.
  { intros i Hi it Hl Hx. unfold position. rewrite Hlen. split; [done|].
    destruct (decide (i < length files)%nat); simpl; [split; [done|]; naive_solver|]. split; [|done].
    rewrite Hx. f_equal. lia. }
  split; [|split].
  - assert (forall it i, file_iter_at files it (Some i) -> FileIter_Valid it = true) as Hvalid.
    { intros it i (Hl & Hx & Hi). unfold FileIter_Valid. rewrite Hl, Hx. simpl. apply Z.ltb_lt. specialize (Hi i eq_refl). lia. }
    split; cbn [it_Valid it_key it_value it_Next it_Prev it_Seek it_SeekToFirst it_SeekToLast File_Iterator].
    + intros it [i|] Hp; [by erewrite Hvalid|]. destruct Hp as (Hl & Hx & _). unfold FileIter_Valid. rewrite Hl, Hx. apply Z.ltb_irrefl.
    + intros it i (_ & _ & Hi). rewrite Hlen. by apply Hi.
    + intros it i k v Hp. pose proof (Hvalid _ _ Hp) as Hv. destruct Hp as (Hl & Hx & _). cbn [from_option] in Hx.
      unfold FileIter_key, FileIter_value. rewrite Hv, Hl, Hx, Nat2Z.id. cbn [assert_ mbind option_bind id].
      rewrite entries_lookup. destruct (files !! i) as [f|] eqn:Ef; [|done]. intros [= <- <-]. cbn [mbind option_bind].
      destruct (level_lookup files Hfiles _ _ Ef) as [(_ & Hk & _) _]. by rewrite valid_key_encode.
    + intros it i Hp. pose proof (Hvalid _ _ Hp) as Hv. destruct Hp as (Hl & Hx & Hi). specialize (Hi i eq_refl).
      unfold FileIter_Next. rewrite Hv. eexists. split; [done|]. apply Hat; [lia|done|]. cbn [index_]. rewrite Hx.
      rewrite wrap_small by (unfold is_u; simpl; lia). simpl. lia.
    + intros it i Hp. pose proof (Hvalid _ _ Hp) as Hv. destruct Hp as (Hl & Hx & Hi). specialize (Hi i eq_refl).
      unfold FileIter_Prev. rewrite Hv. eexists. split; [done|]. rewrite Hx, Hl. split; [done|].
      cbn [from_option id index_]. destruct i as [|i].
      * split; [|done]. cbn [Z.of_nat Z.eqb]. by rewrite wrap_small by (unfold is_u; lia).
      * rewrite (proj2 (Z.eqb_neq _ _)) by lia. split; [simpl; lia|]. intros j [= <-]. lia.
    + intros it p t (Hl & _). unfold FileIter_Seek. rewrite Hl, FindFile_ok by done. eexists. split; [done|].
      apply Hat; [|done|done]. unfold seek_index. rewrite <- Hlen. apply length_filter.
    + intros it p (Hl & _). eexists. split; [done|]. apply Hat; [lia|done|done].
    + intros it p (Hl & _). eexists. split; [done|]. rewrite Hlen. apply Hat; [lia|done|]. cbn [index_]. rewrite Hl.
      case_bool_decide as He; [by rewrite He|]. assert (0 < length files)%nat by (destruct files; [done|simpl; lia]).
      rewrite wrap_small by (unfold is_u; lia). lia.
  - split; [done|]. split; [|done]. cbn. by rewrite wrap_small by (unfold is_u; lia).
  - intros f Hn Hs. unfold GetFileIterator, file_entry. cbn [snd]. rewrite !EncodeFixed64_le, length_app, !length_le_bytes.
    change (negb (8 + 8 =? 16)%nat) with false. cbv match. rewrite DecodeFixed64_le by done. rewrite drop_app_length' by done.
    rewrite <- (app_nil_r (le_bytes 8 (file_size f))), DecodeFixed64_le by done. rewrite !le_val_bytes.
    by rewrite !Z.mod_small by (change (256 ^ Z.of_nat 8) with (2 ^ 64); done).
Qed.
End valid.

(** ** A level of three files

    The second file ends and the third one starts with the user key 5. *)

Section demo.
#[local] Existing Instances by_bytes by_bytes_laws reference_coding reference_coding_laws reference_format
  reference_format_laws reference_icmp reference_icmp_laws.

Definition ikey (u s : Z) : list Z := AppendInternalKey [] (ParsedKey [u] s kTypeValue).
Definition demo_file (n : positive) (size a sa b sb : Z) : file := File n (FileMeta (Zpos n) size (ikey a sa) (ikey b sb)).

Definition demo_level : list file := [demo_file 7 100 1 10 2 11; demo_file 8 200 4 12 5 13; demo_file 9 300 5 3 8 4].

Lemma valid_ikey u s : 0 <= s <= kMaxSequenceNumber -> valid_key (ikey u s).
Proof. intros Hs. eexists. split; [by apply AppendInternalKey_parses|]. apply Hs. Qed.

Lemma demo_file_valid n size a sa b sb : 0 <= sa <= kMaxSequenceNumber -> 0 <= sb <= kMaxSequenceNumber ->
  ~ internal_lt (ikey b sb) (ikey a sa) -> valid_file (demo_file n size a sa b sb).
Proof. intros Ha Hb Hle. split_and!; [by apply valid_ikey..|done]. Qed.

Lemma demo_level_files : level_files demo_level.
Proof.
  split; [|repeat first [apply SSorted_nil|apply SSorted_cons|apply List.Forall_nil|apply List.Forall_cons]; by_compute|done].
  repeat apply List.Forall_cons; try apply List.Forall_nil; apply demo_file_valid; by_compute.
Qed.

Example demo_overlaps :
  (SomeFileOverlapsRange true demo_level (Some [3]) (Some [3]), SomeFileOverlapsRange true demo_level (Some [3]) (Some [4]),
   SomeFileOverlapsRange true demo_level (Some [9]) None, SomeFileOverlapsRange true demo_level None (Some [0])) =
  (Some false, Some true, Some false, Some false).
Proof. vm_compute. reflexivity. Qed.

Lemma overlap_search_witness :
  SomeFileOverlapsRange true demo_level (Some [3]) (Some [4]) = SomeFileOverlapsRange false demo_level (Some [3]) (Some [4]).
Proof. exact (proj1 (overlap_search demo_level (Some [3]) (Some [4]) demo_level_files)). Defined.

Lemma file_iterator_laws_witness : IteratorLaws internal_before (file_entries demo_level) (file_iter_at demo_level).
Proof. exact (proj1 (file_iterator_laws demo_level demo_level_files)). Defined.
End demo.
