(* ===== verification/VersionState.v ===== *)
(** * Versions and the version set ([leveldb-library/db/version_set.cc], [version_set.h])

    A version holds the files of the seven levels and what asks for its compaction:
    a file that used up its seeks, or a level whose score, a [double] that
    [Finalize] computes, is at least 1. The version set holds the current version
    and the numbers that are handed out. *)

From Stdlib Require Import SpecFloat Sorting.Sorted.
From stdpp Require Import base list sorting.
From S2P Require Import Prelude Doubles Cursor Coding DbFormat VersionEdit VersionFiles.

#[local] Open Scope Z_scope.

(** ** State *)

Record Version := mkVersion {
  files_ : list (list file);
  file_to_compact_ : option file; file_to_compact_level_ : Z;
  compaction_score_ : double; compaction_level_ : Z }.

Definition Version_new : Version := mkVersion (replicate (Z.to_nat kNumLevels) []) None (-1) (double_of (-1)) (-1).

(** A version of given files. *)
Definition version_of (levels : list (list file)) : Version := mkVersion levels None (-1) (double_of (-1)) (-1).

Definition with_file_to_compact (f : file) (level : Z) (v : Version) : Version :=
  mkVersion (files_ v) (Some f) level (compaction_score_ v) (compaction_level_ v).

(** [files_[level]]; [None] outside of the array. *)
Definition level_at (v : Version) (level : nat) : option (list file) := files_ v !! level.

(** The option that is used, the current version, the keys where the next
    compactions start, the numbers of the set, and whether the manifest is open. *)
Record VersionSet := mkVersionSet {
  max_file_size : Z; current_ : Version; compact_pointer_ : list (list Z);
  vs_next_file_number_ : Z; manifest_file_number_ : Z; vs_last_sequence_ : Z;
  vs_log_number_ : Z; vs_prev_log_number_ : Z; descriptor_log_ : bool }.

Definition VersionSet_new (max_file_size : Z) : VersionSet :=
  mkVersionSet max_file_size Version_new (replicate (Z.to_nat kNumLevels) []) 2 0 0 0 0 false.

Definition with_current v s := mkVersionSet (max_file_size s) v (compact_pointer_ s) (vs_next_file_number_ s)
  (manifest_file_number_ s) (vs_last_sequence_ s) (vs_log_number_ s) (vs_prev_log_number_ s) (descriptor_log_ s).
Definition with_pointers ps s := mkVersionSet (max_file_size s) (current_ s) ps (vs_next_file_number_ s)
  (manifest_file_number_ s) (vs_last_sequence_ s) (vs_log_number_ s) (vs_prev_log_number_ s) (descriptor_log_ s).
Definition with_next_file n s := mkVersionSet (max_file_size s) (current_ s) (compact_pointer_ s) n
  (manifest_file_number_ s) (vs_last_sequence_ s) (vs_log_number_ s) (vs_prev_log_number_ s) (descriptor_log_ s).
Definition with_manifest n s := mkVersionSet (max_file_size s) (current_ s) (compact_pointer_ s) (vs_next_file_number_ s)
  n (vs_last_sequence_ s) (vs_log_number_ s) (vs_prev_log_number_ s) (descriptor_log_ s).
Definition with_sequence n s := mkVersionSet (max_file_size s) (current_ s) (compact_pointer_ s) (vs_next_file_number_ s)
  (manifest_file_number_ s) n (vs_log_number_ s) (vs_prev_log_number_ s) (descriptor_log_ s).
Definition with_logs log prev s := mkVersionSet (max_file_size s) (current_ s) (compact_pointer_ s) (vs_next_file_number_ s)
  (manifest_file_number_ s) (vs_last_sequence_ s) log prev (descriptor_log_ s).
Definition with_descriptor d s := mkVersionSet (max_file_size s) (current_ s) (compact_pointer_ s) (vs_next_file_number_ s)
  (manifest_file_number_ s) (vs_last_sequence_ s) (vs_log_number_ s) (vs_prev_log_number_ s) d.

(** ** Numbers *)

Definition NewFileNumber (s : VersionSet) : Z * VersionSet :=
  (vs_next_file_number_ s, with_next_file (wrap 64 (vs_next_file_number_ s + 1)) s).

Definition ReuseFileNumber (file_number : Z) (s : VersionSet) : VersionSet :=
  if vs_next_file_number_ s =? wrap 64 (file_number + 1) then with_next_file file_number s else s.

Definition MarkFileNumberUsed (number : Z) (s : VersionSet) : VersionSet :=
  if vs_next_file_number_ s <=? number then with_next_file (wrap 64 (number + 1)) s else s.

Definition SetLastSequence (n : Z) (s : VersionSet) : option VersionSet :=
  _ ← assert_ (vs_last_sequence_ s <=? n); Some (with_sequence n s).

Definition NumLevelFiles (level : nat) (s : VersionSet) : option Z :=
  files ← level_at (current_ s) level; Some (Z.of_nat (length files)).

Definition NumLevelBytes (level : nat) (s : VersionSet) : option Z :=
  files ← level_at (current_ s) level; Some (TotalFileSize files).

(** ** Scores *)

Definition kL0_CompactionTrigger : Z := 4.

Fixpoint max_bytes_loop (level : nat) (result : double) : double :=
  match level with
  | S (S _ as level) => max_bytes_loop level (double_mul result (double_of 10))
  | _ => result
  end.

Definition MaxBytesForLevel (level : nat) : double := max_bytes_loop level (double_of (10 * 1048576)).

Definition level_score (level : nat) (files : list file) : double :=
  if (level =? 0)%nat then double_div (double_of (Z.of_nat (length files))) (double_of kL0_CompactionTrigger)
  else double_div (double_of (wrap 64 (TotalFileSize files))) (MaxBytesForLevel level).

Fixpoint finalize_loop (level : nat) (levels : list (list file)) (best_level : Z) (best_score : double) : Z * double :=
  match levels with
  | [] => (best_level, best_score)
  | files :: levels =>
      let score := level_score level files in
      if double_lt best_score score then finalize_loop (S level) levels (Z.of_nat level) score
      else finalize_loop (S level) levels best_level best_score
  end.

Definition Finalize (v : Version) : Version :=
  let '(best_level, best_score) := finalize_loop 0 (take (Z.to_nat kNumLevels - 1) (files_ v)) (-1) (double_of (-1)) in
  mkVersion (files_ v) (file_to_compact_ v) (file_to_compact_level_ v) best_score best_level.

(** The score asks for a compaction. *)
Definition size_compaction (v : Version) : bool := double_le (double_of 1) (compaction_score_ v).

Definition NeedsCompaction (s : VersionSet) : bool :=
  size_compaction (current_ s) || bool_decide (file_to_compact_ (current_ s) <> None).

(** ** What the scores mean *)

(** The sizes of the files, without a conversion. *)
Definition sum_sizes (files : list file) : Z := foldr (fun (f : file) sum => file_size f + sum) 0 files.

(** The limit of a level, in files or in bytes. *)
Definition level_limit (level : nat) : Z := if (level =? 0)%nat then 4 else 10 * 1048576 * 10 ^ (Z.of_nat level - 1).

Definition level_load (level : nat) (files : list file) : Z :=
  if (level =? 0)%nat then Z.of_nat (length files) else sum_sizes files.

(** The levels are small enough for their sizes to be exact as doubles. *)
Definition loads_ok (level : nat) (levels : list (list file)) : Prop :=
  forall i files, levels !! i = Some files ->
    level_load (level + i) files < 2 ^ 53 /\ Forall (fun f : file => 0 <= file_size f) files.

Lemma sum_sizes_nonneg files : Forall (fun f : file => 0 <= file_size f) files -> 0 <= sum_sizes files.
Proof. induction 1; simpl; lia. Qed.

Lemma int64_small x : 0 <= x < 2 ^ 63 -> int64 x = x.
Proof. intros Hx. unfold int64. rewrite wrap_small by (unfold is_u; lia). by rewrite (proj2 (Z.ltb_lt _ _)) by lia. Qed.

Lemma TotalFileSize_sum files : Forall (fun f : file => 0 <= file_size f) files -> sum_sizes files < 2 ^ 63 ->
  TotalFileSize files = sum_sizes files.
Proof.
  intros Hf Hs. unfold TotalFileSize. enough (forall sum, 0 <= sum -> sum + sum_sizes files < 2 ^ 63 ->
    foldl (fun sum (f : file) => int64 (sum + file_size f)) sum files = sum + sum_sizes files) as Hsum.
  { rewrite Hsum; lia. }
  clear Hs. induction Hf as [|f files Hf Hall IH]; intros sum Hsum Hs; simpl in *; [lia|].
  pose proof (sum_sizes_nonneg files Hall). rewrite int64_small by lia. rewrite IH; lia.
Qed.

Lemma MaxBytes_limit level : (0 < level < 6)%nat -> MaxBytesForLevel level = double_of (level_limit level).
Proof.
  intros [H1 H6]. do 6 (destruct level as [|level]; [first [lia|vm_compute; reflexivity]|]). lia.
Qed.

Lemma level_limit_range level : (level < 6)%nat -> 0 < level_limit level < 2 ^ 53.
Proof. intros Hl. do 6 (destruct level as [|level]; [by vm_compute|]). lia. Qed.

(** A score is the load over the limit, so it is at least 1 exactly when the load is
    at least the limit. *)
Lemma level_score_ok level files : (level < 6)%nat -> level_load level files < 2 ^ 53 ->
  Forall (fun f : file => 0 <= file_size f) files ->
  ratio (level_score level files) /\ double_le (double_of 1) (level_score level files) = (level_limit level <=? level_load level files).
Proof.
  intros Hl Hload Hf. pose proof (level_limit_range level Hl) as Hlim. pose proof (sum_sizes_nonneg files Hf) as Hsum.
  assert (level_score level files = double_div (double_of (level_load level files)) (double_of (level_limit level))) as ->.
  { unfold level_score, level_load in *. destruct (Nat.eqb_spec level 0) as [->|Hne]; [done|].
    rewrite MaxBytes_limit by lia. rewrite TotalFileSize_sum by (done || lia). by rewrite wrap_small by (unfold is_u; lia). }
  apply quotient_ge_one; [|done]. split; [|done]. unfold level_load. destruct (level =? 0)%nat; [lia|done].
Qed.

(** The loop ends with a level of the best score. *)
Lemma finalize_loop_ok level levels best_level best_score : (level + length levels <= 6)%nat -> loads_ok level levels ->
  ratio best_score ->
  exists l s, finalize_loop level levels best_level best_score = (l, s) /\ ratio s /\
    (double_le (double_of 1) s = true <->
      double_le (double_of 1) best_score = true \/
      exists i files, levels !! i = Some files /\ level_limit (level + i) <= level_load (level + i) files) /\
    (l = best_level /\ s = best_score \/
     exists i files, levels !! i = Some files /\ l = Z.of_nat (level + i) /\ s = level_score (level + i) files).
Proof.
  revert level best_level best_score. induction levels as [|files levels IH]; intros level best_level best_score Hlen Hok Hb.
  { exists best_level, best_score. split; [done|]. split; [done|]. split; [|by left].
    split; [by left|]. intros [?|(i & ? & Hi & _)]; done. }
  destruct (Hok 0%nat files eq_refl) as [Hload Hsizes]. rewrite Nat.add_0_r in Hload.
  destruct (level_score_ok level files) as [Hr Hone]; [simpl in Hlen; lia|done..|].
  assert (loads_ok (S level) levels) as Hok'.
  { intros i fs Hi. specialize (Hok (S i) fs Hi). by rewrite Nat.add_succ_r in Hok. }
  cbn [finalize_loop].
  assert (forall l s, (exists l' s', finalize_loop (S level) levels l s = (l', s') /\ ratio s' /\
      (double_le (double_of 1) s' = true <-> double_le (double_of 1) s = true \/
        exists i files, levels !! i = Some files /\ level_limit (S level + i) <= level_load (S level + i) files) /\
      (l' = l /\ s' = s \/ exists i files, levels !! i = Some files /\ l' = Z.of_nat (S level + i) /\ s' = level_score (S level + i) files)) ->
    (l = best_level /\ s = best_score \/ l = Z.of_nat level /\ s = level_score level files) ->
    (double_le (double_of 1) s = true <->
      double_le (double_of 1) best_score = true \/ double_le (double_of 1) (level_score level files) = true) ->
    exists l' s', finalize_loop (S level) levels l s = (l', s') /\ ratio s' /\
      (double_le (double_of 1) s' = true <-> double_le (double_of 1) best_score = true \/
        exists i fs, (files :: levels) !! i = Some fs /\ level_limit (level + i) <= level_load (level + i) fs) /\
      (l' = best_level /\ s' = best_score \/
       exists i fs, (files :: levels) !! i = Some fs /\ l' = Z.of_nat (level + i) /\ s' = level_score (level + i) fs)) as Hnext.
  { intros l s (l' & s' & E & Hr' & Hiff & Hor) Hls Hs. exists l', s'. split; [done|]. split; [done|]. split.
    - rewrite Hiff, Hs, Hone, Z.leb_le. split.
      + intros [[?|?]|(i & fs & Hi & Hle)]; [by left|right; exists 0%nat, files; by rewrite Nat.add_0_r|].
        right. exists (S i), fs. by rewrite Nat.add_succ_r.
      + intros [?|(i & fs & Hi & Hle)]; [by left; left|]. destruct i as [|i]; [|right; exists i, fs; by rewrite Nat.add_succ_r in Hle].
        injection Hi as <-. rewrite Nat.add_0_r in Hle. by left; right.
    - destruct Hor as [[-> ->]|(i & fs & Hi & -> & ->)]; [|right; exists (S i), fs; by rewrite Nat.add_succ_r].
      destruct Hls as [[-> ->]|[-> ->]]; [by left|]. right. exists 0%nat, files. by rewrite Nat.add_0_r. }
  pose proof ratio_one as H1. rewrite double_lt_rank by done.
  destruct (Z.ltb_spec (rank best_score) (rank (level_score level files))) as [Hlt|Hge].
  - apply Hnext; [apply IH; [simpl in Hlen; lia|done..]|by right|].
    rewrite !double_le_rank, !Z.leb_le by done. split; [by right|]. intros [?|?]; lia.
  - apply Hnext; [apply IH; [simpl in Hlen; lia|done..]|by left|].
    rewrite !double_le_rank, !Z.leb_le by done. split; [by left|]. intros [?|?]; lia.
Qed.

Definition overfull (v : Version) (level : nat) : Prop :=
  exists files, (level < 6)%nat /\ files_ v !! level = Some files /\ level_limit level <= level_load level files.

Lemma Finalize_best v : length (files_ v) = Z.to_nat kNumLevels -> loads_ok 0 (files_ v) ->
  exists level files, files_ v !! level = Some files /\ (level < 6)%nat /\ ratio (level_score level files) /\
    Finalize v = mkVersion (files_ v) (file_to_compact_ v) (file_to_compact_level_ v) (level_score level files) (Z.of_nat level) /\
    (size_compaction (Finalize v) = true <-> exists level, overfull v level).
Proof.
  intros Hlen Hok. unfold Finalize, size_compaction.
  destruct (files_ v) as [|files levels] eqn:Ev; [done|]. change (Z.to_nat kNumLevels - 1)%nat with 6%nat.
  rewrite firstn_cons. cbn [finalize_loop]. change (Z.of_nat 0) with 0.
  destruct (Hok 0%nat files eq_refl) as [Hload Hsizes]. destruct (level_score_ok 0 files) as [Hr Hone]; [lia|done..|].
  assert (double_lt (double_of (-1)) (level_score 0 files) = true) as ->.
  { destruct (level_score 0 files) as [[]| | |[]]; done. }
  assert (forall i fs, take 5 levels !! i = Some fs -> (S i < 6)%nat /\ (files :: levels) !! S i = Some fs) as Htake.
  { intros i fs Hi. pose proof (lookup_lt_Some _ _ _ Hi) as Hlt. rewrite length_take in Hlt. split; [lia|].
    simpl. by rewrite lookup_take_lt in Hi by lia. }
  destruct (finalize_loop_ok 1 (take 5 levels) 0 (level_score 0 files)) as (l & s & -> & Hrs & Hiff & Hl); [rewrite length_take; lia|..|done|].
  { intros i fs Hi. apply (Hok (S i) fs), Htake, Hi. }
  assert (exists level fs, (files :: levels) !! level = Some fs /\ (level < 6)%nat /\ l = Z.of_nat level /\ s = level_score level fs)
    as (best & fs & Hfs & Hbest & -> & ->).
  { destruct Hl as [[-> ->]|(i & fs & Hi & -> & ->)]; [exists 0%nat, files; split_and!; [done|lia|done..]|].
    exists (S i), fs. destruct (Htake i fs Hi). done. }
  exists best, fs. do 4 (split; [done|]). cbn [compaction_score_]. unfold overfull. rewrite Ev, Hiff, Hone, Z.leb_le. split.
  - intros [Hle|(i & fs' & Hi & Hle)]; [by exists 0%nat, files; split_and!; [lia|..]|].
    exists (S i), fs'. destruct (Htake i fs' Hi). done.
  - intros ([|i] & fs' & Hlt & Hi & Hle); [left; by injection Hi as <-|]. right. exists i, fs'. split; [|done].
    simpl in Hi. by rewrite lookup_take_lt by lia.
Qed.

(** A level that is chosen because of its score is over its limit. *)
Lemma Finalize_overfull v : length (files_ v) = Z.to_nat kNumLevels -> loads_ok 0 (files_ v) ->
  size_compaction (Finalize v) = true ->
  exists level, compaction_level_ (Finalize v) = Z.of_nat level /\ (level + 1 < Z.to_nat kNumLevels)%nat /\ overfull v level.
Proof.
  intros Hlen Hok. destruct (Finalize_best v Hlen Hok) as (best & fs & Hfs & Hlt & _ & -> & _). unfold size_compaction. cbn [compaction_score_].
  destruct (Hok best fs Hfs) as [Hload Hsizes]. destruct (level_score_ok best fs) as [_ ->]; [done..|]. intros Hle%Z.leb_le.
  exists best. split; [done|]. split; [unfold kNumLevels; lia|]. by exists fs.
Qed.

Lemma overfull_nonempty v level : overfull v level -> files_ v !! level <> Some [].
Proof.
  intros (files & Hl & -> & Hle) [= ->]. pose proof (level_limit_range level Hl). unfold level_load in Hle. simpl in Hle.
  destruct (level =? 0)%nat; lia.
Qed.

(** C30 (functional): the scores, although computed in floating point, are exact: the
    best score is at least 1 exactly when level 0 has at least four files or one of
    the levels up to 5 has at least ten times as many bytes as the one before it,
    starting with 10 MiB, and then the level that is chosen is such a level. *)
Theorem finalize_exact v : length (files_ v) = Z.to_nat kNumLevels -> loads_ok 0 (files_ v) ->
  files_ (Finalize v) = files_ v /\ 0 <= compaction_level_ (Finalize v) < kNumLevels - 1 /\
  (size_compaction (Finalize v) = true <-> exists level, overfull v level) /\
  (size_compaction (Finalize v) = true -> overfull v (Z.to_nat (compaction_level_ (Finalize v)))).
Proof.
  intros Hlen Hok. destruct (Finalize_best v Hlen Hok) as (best & fs & _ & Hlt & _ & E & Hiff).
  split; [by rewrite E|]. split; [rewrite E; cbn; unfold kNumLevels; lia|]. split; [done|]. intros Hs.
  destruct (Finalize_overfull v Hlen Hok Hs) as (level & -> & _ & Ho). by rewrite Nat2Z.id.
Qed.

(** ** A version with a level that is too large *)

Definition large_version : Version :=
  version_of ([[]; [File 4 (FileMeta 4 (8 * 1048576) [] []); File 5 (FileMeta 5 (3 * 1048576) [] [])]; [File 6 (FileMeta 6 1048576 [] [])]]
              ++ replicate 4 []).

Example large_level : (compaction_level_ (Finalize large_version), size_compaction (Finalize large_version),
  NeedsCompaction (with_current large_version (VersionSet_new 1000))) = (1, true, false).
Proof. vm_compute. reflexivity. Qed.

Lemma finalize_exact_witness : files_ (Finalize large_version) = files_ large_version /\
  0 <= compaction_level_ (Finalize large_version) < kNumLevels - 1 /\
  (size_compaction (Finalize large_version) = true <-> exists level, overfull large_version level) /\
  (size_compaction (Finalize large_version) = true -> overfull large_version (Z.to_nat (compaction_level_ (Finalize large_version)))).
Proof.
  apply (finalize_exact large_version); [reflexivity|]. intros i files Hi.
  do 7 (destruct i as [|i]; [injection Hi as <-; split; [by vm_compute|repeat apply List.Forall_cons; try apply List.Forall_nil; simpl; lia]|]).
  done.
Defined.
