(* ===== verification/VersionGet.v ===== *)
(** * Lookups in a version ([leveldb-library/db/version_set.cc])

    A version is the files of the seven levels. [Version::Get] searches a user key
    level by level, [Version::ForEachOverlapping] visits the files that may hold
    it, and the samples of the reads charge seeks to files. The tables are read
    through the table cache, a parameter: for the number and the size of a file and
    an internal key, it gives the entry it passes to the callback, if any, and a
    status. The counters of seeks live in the files, which versions share: they are
    a map from addresses. *)

From Stdlib Require Import String Sorting.Sorted.
From stdpp Require Import base list sorting gmap.
From S2P Require Import Prelude Cursor Coding DbFormat DbIterView VersionEdit VersionFiles VersionState.

#[local] Open Scope Z_scope.

Class TableCache := TableCache_Get : Z -> Z -> list Z -> option (list Z * list Z) * Status.

Section version.
Context `{Comparator} `{Coding} `{!InternalKeyFormat, !InternalComparator}.

(** ** Saving what a table finds *)

Inductive SaverState := kNotFound | kFound | kDeleted | kCorrupt.

Record Saver := mkSaver { state : SaverState; saver_user_key : list Z; value : list Z }.

Definition SaveValue (s : Saver) (ikey v : list Z) : Saver :=
  match ParseInternalKey ikey with
  | None => mkSaver kCorrupt (saver_user_key s) (value s)
  | Some parsed_key =>
      if Compare (user_key parsed_key) (saver_user_key s) =? 0 then
        match type parsed_key with
        | kTypeValue => mkSaver kFound (saver_user_key s) v
        | kTypeDeletion => mkSaver kDeleted (saver_user_key s) (value s)
        end
      else s
  end.

(** ** The files that may hold a user key *)

Definition NewestFirst (a b : file) : Prop := number b <= number a.

#[export] Instance NewestFirst_dec a b : Decision (NewestFirst a b).
Proof. unfold NewestFirst. apply _. Defined.

(** Does the range of user keys of [f] hold the key? *)
Definition covers (user_key : list Z) (f : file) : option bool :=
  s ← InternalKey_user_key (smallest (meta f));
  if 0 <=? Compare user_key s then l ← InternalKey_user_key (largest (meta f)); Some (Compare user_key l <=? 0)
  else Some false.

(** The loop that fills [tmp]. *)
Fixpoint overlapping_files (user_key : list Z) (files : list file) : option (list file) :=
  match files with
  | [] => Some []
  | f :: files =>
      c ← covers user_key f; tmp ← overlapping_files user_key files;
      Some (if c : bool then f :: tmp else tmp)
  end.

(** The file of a level above 0 that may hold the key. *)
Definition overlapping_file (user_key internal_key : list Z) (files : list file) : option (option file) :=
  index ← FindFile files internal_key;
  if index <? Z.of_nat (length files) then
    f ← files !! Z.to_nat index; s ← InternalKey_user_key (smallest (meta f));
    Some (if Compare user_key s <? 0 then None else Some f)
  else Some None.

(** [func] returns whether to go on. *)
Fixpoint visit {S} (func : S -> Z -> file -> bool * S) (level : Z) (files : list file) (s : S) : bool * S :=
  match files with
  | [] => (true, s)
  | f :: files => let '(more, s) := func s level f in if more then visit func level files s else (false, s)
  end.

Fixpoint other_levels {S} (func : S -> Z -> file -> bool * S) (user_key internal_key : list Z) (level : Z)
    (levels : list (list file)) (s : S) : option S :=
  match levels with
  | [] => Some s
  | files :: levels =>
      if bool_decide (files = []) then other_levels func user_key internal_key (level + 1) levels s
      else
        found ← overlapping_file user_key internal_key files;
        match found with
        | None => other_levels func user_key internal_key (level + 1) levels s
        | Some f =>
            let '(more, s) := func s level f in
            if more then other_levels func user_key internal_key (level + 1) levels s else Some s
        end
  end.

Definition ForEachOverlapping {S} (v : Version) (user_key internal_key : list Z)
    (func : S -> Z -> file -> bool * S) (s : S) : option S :=
  files ← level_at v 0;
  tmp ← overlapping_files user_key files;
  let '(more, s) := visit func 0 (merge_sort NewestFirst tmp) s in
  if more then other_levels func user_key internal_key 1 (drop 1 (files_ v)) s else Some s.

(** ** Get *)

Record GetStats := mkStats { seek_file : option file; seek_file_level : Z }.

(** The loop's variables: the stats, the last file read and its level, the value. *)
Record Getting := mkGetting {
  stats : GetStats; last_file_read : option file; last_file_read_level : Z; got : list Z }.

Context `{!TableCache}.

(** The files of a level to be searched. *)
Definition level_candidates (user_key ikey : list Z) (level : nat) (files : list file) : option (list file) :=
  if (level =? 0)%nat then tmp ← overlapping_files user_key files; Some (merge_sort NewestFirst tmp)
  else
    index ← FindFile files ikey;
    if Z.of_nat (length files) <=? index then Some []
    else
      tmp2 ← files !! Z.to_nat index; s ← InternalKey_user_key (smallest (meta tmp2));
      Some (if Compare user_key s <? 0 then [] else [tmp2]).

(** Search one file: go on, or return with a status. *)
Definition get_file (user_key ikey : list Z) (level : Z) (f : file) (g : Getting) : option Status * Getting :=
  let st := match last_file_read g, seek_file (stats g) with
            | Some l, None => mkStats (Some l) (last_file_read_level g)
            | _, _ => stats g
            end in
  let '(found, s) := TableCache_Get (number f) (file_size f) ikey in
  let saver := match found with
               | None => mkSaver kNotFound user_key (got g)
               | Some (k, v) => SaveValue (mkSaver kNotFound user_key (got g)) k v
               end in
  let g := mkGetting st (Some f) level (value saver) in
  if negb (bool_decide (s = Ok)) then (Some s, g)
  else
    match state saver with
    | kNotFound => (None, g)
    | kFound => (Some s, g)
    | kDeleted => (Some NotFound, g)
    | kCorrupt => (Some (Corruption "corrupted key for "), g)
    end.

Fixpoint get_files (user_key ikey : list Z) (level : Z) (files : list file) (g : Getting) : option Status * Getting :=
  match files with
  | [] => (None, g)
  | f :: files =>
      let '(res, g) := get_file user_key ikey level f g in
      match res with Some s => (Some s, g) | None => get_files user_key ikey level files g end
  end.

Fixpoint get_levels (user_key ikey : list Z) (level : nat) (levels : list (list file)) (g : Getting) : option (Status * Getting) :=
  match levels with
  | [] => Some (NotFound, g)
  | files :: levels =>
      if bool_decide (files = []) then get_levels user_key ikey (S level) levels g
      else
        candidates ← level_candidates user_key ikey level files;
        let '(res, g) := get_files user_key ikey (Z.of_nat level) candidates g in
        match res with Some s => Some (s, g) | None => get_levels user_key ikey (S level) levels g end
  end.

(** The key is a user key and a snapshot, and its internal key as [LookupKey] builds
    it; [value] is what the pointed-to string holds. *)
Definition Version_Get (v : Version) (user_key : list Z) (snapshot : Z) (value : list Z) : option (Status * Getting) :=
  get_levels user_key (AppendInternalKey [] (ParsedKey user_key snapshot kValueTypeForSeek)) 0 (files_ v)
    (mkGetting (mkStats None (-1)) None (-1) value).

(** ** Charging seeks *)

Definition UpdateStats (st : GetStats) (v : Version) (allowed_seeks : gmap positive Z) : option (bool * Version * gmap positive Z) :=
  match seek_file st with
  | None => Some (false, v, allowed_seeks)
  | Some f =>
      n ← allowed_seeks !! address f;
      let n := n - 1 in
      let allowed_seeks := <[address f := n]> allowed_seeks in
      if (n <=? 0) && bool_decide (file_to_compact_ v = None)
      then Some (true, with_file_to_compact f (seek_file_level st) v, allowed_seeks)
      else Some (false, v, allowed_seeks)
  end.

(** The state of [RecordReadSample]: the first match and the number of matches. *)
Definition Match (s : GetStats * Z) (level : Z) (f : file) : bool * (GetStats * Z) :=
  let '(st, matches) := s in
  let matches := matches + 1 in
  let st := if matches =? 1 then mkStats (Some f) level else st in
  (matches <? 2, (st, matches)).

Definition RecordReadSample (internal_key : list Z) (v : Version) (allowed_seeks : gmap positive Z) :
    option (bool * Version * gmap positive Z) :=
  match ParseInternalKey internal_key with
  | None => Some (false, v, allowed_seeks)
  | Some ikey =>
      '(st, matches) ← ForEachOverlapping v (user_key ikey) internal_key Match (mkStats None (-1), 0);
      if 2 <=? matches then UpdateStats st v allowed_seeks else Some (false, v, allowed_seeks)
  end.
End version.
