(* ===== verification/VersionGetProps.v ===== *)
(** * Lookups find the newest visible entry ([leveldb-library/db/version_set.cc])

    The contents of a version are the entries of its tables in the order in which
    they are searched. [Version::Get] finds the newest entry a snapshot can see,
    although it opens at most one table of a level above 0; it is the lookup in the
    view that the database iterator of [DbIterProps.v] shows. *)

From Stdlib Require Import String Sorting.Sorted.
From stdpp Require Import base list sorting gmap.
From S2P Require Import Prelude Cursor Coding DbFormat DbIterView VersionEdit VersionFiles VersionState VersionGet.

#[local] Open Scope Z_scope.

Section newest.
Context `{ComparatorLaws} `{CodingLaws} `{!InternalKeyFormat, !InternalKeyFormatLaws} (seq : Z) (u : list Z).
Implicit Types es l : list entry.

Lemma newest_None l : newest seq u l = None <-> forall e k, e ∈ l -> visible seq e = Some k -> user_key k <> u.
Proof.
  induction l as [|e l IH]; [split; [by intros _ e k ?%elem_of_nil|done]|]. rewrite newest_cons. split.
  - intros Hn e' k [->|He']%elem_of_cons Hk.
    + rewrite Hk in Hn. by case_decide.
    + eapply IH; [|exact He'|exact Hk]. by repeat case_match.
  - intros Hall. assert (newest seq u l = None) as Hl by (apply IH; intros e' k He'; apply Hall; by right).
    destruct (visible seq e) as [k|] eqn:Ek; [|done]. case_decide as Hu; [|done]. exfalso. apply (Hall e k); [left|done|done].
Qed.

Lemma newest_filter l : newest seq u l = newest seq u (filter (fun e : entry => ukey e.1 = u) l).
Proof.
  induction l as [|e l IH]; [done|]. rewrite newest_cons, filter_cons, IH. case_decide as Hu; [by rewrite newest_cons|].
  destruct (visible seq e) as [k|] eqn:Ek; [|done]. rewrite decide_False; [done|]. by rewrite (visible_ukey _ _ _ Ek).
Qed.

(** The lookup key separates the entries of [u] that are too new from the others. *)
Context (Hseq : 0 <= seq <= kMaxSequenceNumber).

Definition lookup_key : list Z := AppendInternalKey [] (ParsedKey u seq kValueTypeForSeek).

Lemma lookup_key_ok : valid_key lookup_key /\ ukey lookup_key = u /\ tag lookup_key = seq * 256 + 1.
Proof using All.
  assert (ParseInternalKey lookup_key = Some (ParsedKey u seq kValueTypeForSeek)) as Hp by by apply AppendInternalKey_parses.
  split; [eexists; split; [done|apply Hseq]|]. by apply ParseInternalKey_Some in Hp as (_ & Hu & Ht).
Qed.

Lemma visible_iff e : valid_key e.1 -> ukey e.1 = u ->
  (exists k, visible seq e = Some k /\ user_key k = u) <-> ~ internal_lt e.1 lookup_key.
Proof using All.
  intros (p & Hp & _) Hu. destruct lookup_key_ok as (_ & Hku & Hkt). apply ParseInternalKey_Some in Hp as Hp'.
  destruct Hp' as (_ & Hpu & Hpt). unfold visible, internal_lt. rewrite Hp, Hu, Hku, Hkt, Hpt. cbn [mbind option_bind].
  assert (0 <= value_type_code (type p) <= 1) by (by destruct (type p)).
  destruct (Z.leb_spec (sequence p) seq) as [Hle|Hlt].
  - split; [|intros _; exists p; split; congruence]. intros _ [Hl|[_ Hl]]; [by apply lt_key_irrefl in Hl|lia].
  - split; [by intros (k & [=] & _)|]. intros Hn. exfalso. apply Hn. right. split; [done|lia].
Qed.

Lemma newest_before l : (forall e, e ∈ l -> valid_key e.1 /\ internal_lt e.1 lookup_key) -> newest seq u l = None.
Proof using All.
  intros Hl. apply newest_None. intros e k He Hk Hu. destruct (Hl e He) as [Hv Hlt].
  revert Hlt. apply visible_iff; [done|by rewrite <- (visible_ukey _ _ _ Hk)|by exists k].
Qed.

Lemma newest_other l : (forall e, e ∈ l -> ukey e.1 <> u) -> newest seq u l = None.
Proof using. intros Hl. apply newest_None. intros e k He Hk <-. apply (Hl e He). by rewrite (visible_ukey _ _ _ Hk). Qed.

(** The first entry that is not before the lookup key decides. *)
Lemma newest_seek es : sorted_entries es -> Forall (fun e : entry => valid_key e.1) es ->
  match es !! seek_index internal_before es lookup_key with
  | Some e => exists k, ParseInternalKey e.1 = Some k /\
      newest seq u es = if decide (user_key k = u) then Some (type k, e.2) else None
  | None => newest seq u es = None
  end.
Proof using All.
  intros Hs Hv. set (P := fun e : entry => internal_lt e.1 lookup_key).
  assert (es = filter P es ++ filter (fun e => ~ P e) es) as Hes by by apply filter_split, sorted_entries_before.
  assert (seek_index internal_before es lookup_key = length (filter P es)) as ->.
  { unfold seek_index. f_equal. apply filter_ext. intros e _. unfold internal_before. by rewrite bool_decide_spec. }
  assert (newest seq u (filter P es) = None) as Hbefore.
  { apply newest_before. intros e [HP He]%list_elem_of_filter. rewrite list.Forall_forall in Hv. by split; [apply Hv|]. }
  assert (newest seq u es = newest seq u (filter (fun e => ~ P e) es)) as E.
  { rewrite Hes at 1. by rewrite newest_app, Hbefore. }
  rewrite E. assert (es !! length (filter P es) = filter (fun e => ~ P e) es !! 0%nat) as ->.
  { transitivity ((filter P es ++ filter (fun e => ~ P e) es) !! length (filter P es)); [by rewrite <- Hes|].
    by rewrite lookup_app_r, Nat.sub_diag. }
  assert (sorted_entries (filter (fun e => ~ P e) es)) as Hs' by (rewrite Hes in Hs; by eapply sorted_entries_suffix).
  destruct (filter (fun e => ~ P e) es) as [|e l] eqn:El; [done|]. cbn [lookup list_lookup].
  assert (e ∈ filter (fun e => ~ P e) es) as [HP He]%list_elem_of_filter by (rewrite El; left).
  rewrite list.Forall_forall in Hv. pose proof (Hv e He) as Hve. destruct (Hve) as (k & Hk & _).
  exists k. split; [done|]. apply ParseInternalKey_Some in Hk as Hk'. destruct Hk' as (_ & Hku & _).
  rewrite newest_cons. case_decide as Hu.
  - destruct (proj2 (visible_iff e Hve ltac:(congruence)) HP) as (k' & Hk' & Hu').
    rewrite Hk', decide_True by done. unfold visible in Hk'. rewrite Hk in Hk'. cbn [mbind option_bind] in Hk'.
    case_match; [|done]. by injection Hk' as <-.
  - assert (newest seq u l = None) as Hl.
    { apply newest_other. intros e' He' Hu'. destruct lookup_key_ok as (_ & Hlu & _). unfold P in HP.
      assert (internal_lt e.1 e'.1) as Hlt by (eapply (sorted_entries_app [e] l); [exact Hs'|left|done]).
      apply internal_lt_ukey in Hlt. rewrite Hu', <- Hku in Hlt.
      destruct (lt_key_total (user_key k) u) as [Hl|[Hl|Hl]]; [|done|done].
      apply HP. left. by rewrite <- Hku, Hlu. }
    destruct (visible seq e) as [k'|] eqn:Ek'; [|done]. rewrite decide_False; [done|].
    rewrite (visible_ukey _ _ _ Ek'). by rewrite <- Hku.
Qed.
End newest.

(** ** The tables of a version *)

Section get.
Context `{ComparatorLaws} `{CodingLaws} `{!InternalKeyFormat, !InternalKeyFormatLaws}.
Context `{!InternalComparator, !InternalComparatorLaws} `{!TableCache} (c : file -> list entry).

(** The table of a file holds sorted entries from [smallest] to [largest]; a lookup
    gives the first entry that is not before the key, or nothing, as a filter may
    tell, when it has no such entry of that user key. *)
Record table_ok (f : file) : Prop := {
  to_file : valid_file f;
  to_sorted : sorted_entries (c f);
  to_keys : Forall (fun e : entry => valid_key e.1) (c f);
  to_first : Forall (fun e : entry => ~ internal_lt e.1 (smallest f)) (c f);
  to_last : Forall (fun e : entry => ~ internal_lt (largest f) e.1) (c f);
  to_largest : exists e, e ∈ c f /\ e.1 = largest f;
  to_get k : exists found, TableCache_Get (number f) (file_size f) k = (found, Ok) /\
    (found = c f !! seek_index internal_before (c f) k \/
     found = None /\ forall e, e ∈ c f -> ukey e.1 = ukey k -> internal_lt e.1 k) }.

Context (seq : Z) (Hseq : 0 <= seq <= kMaxSequenceNumber) (u : list Z).

Abbreviation key := (lookup_key seq u).
Abbreviation newest_of := (newest seq u).

(** What a search does with what is found: the status to return, if any, and the value. *)
Definition outcome (r : option (ValueType * list Z)) (val : list Z) : option Status * list Z :=
  match r with
  | None => (None, val)
  | Some (kTypeValue, x) => (Some Ok, x)
  | Some (kTypeDeletion, _) => (Some NotFound, val)
  end.

(** After reading [read], the first file is charged when it was not the only one. *)
Definition charged (read : list (Z * file)) (g : Getting) : Prop :=
  last_file_read g = snd <$> list.last read /\ last_file_read_level g = from_option fst (-1) (list.last read) /\
  stats g = match read with (l, f) :: _ :: _ => mkStats (Some f) l | _ => mkStats None (-1) end.

Lemma get_file_charged read level f g : charged read g -> charged (read ++ [(level, f)]) (get_file u key level f g).2.
Proof using.
  intros (Hl & Hll & Hs). unfold get_file. destruct (TableCache_Get _ _ _) as [found s].
  assert (match last_file_read g, seek_file (stats g) with
    | Some l, None => mkStats (Some l) (last_file_read_level g) | _, _ => stats g end =
    match read ++ [(level, f)] with (l, f') :: _ :: _ => mkStats (Some f') l | _ => mkStats None (-1) end) as ->.
  { rewrite Hl, Hs, Hll. destruct read as [|[l1 f1] [|p read]]; [done|done|].
    cbn [app seek_file]. by destruct (snd <$> list.last _). }
  destruct (negb _); [|destruct (state _)]; split_and!; cbn [snd last_file_read last_file_read_level stats];
    by rewrite ?last_snoc.
Qed.

Lemma get_file_ok level f g res g' : table_ok f -> get_file u key level f g = (res, g') ->
  (res, got g') = outcome (newest_of (c f)) (got g).
Proof using All.
  intros Hf. unfold get_file. destruct (to_get f Hf key) as (found & -> & Hfound).
  pose proof (newest_seek seq u Hseq (c f) (to_sorted f Hf) (to_keys f Hf)) as Hn.
  rewrite bool_decide_true by done. cbn [negb].
  destruct Hfound as [->|[-> Hnone]].
  - destruct (c f !! _) as [[k v]|].
    + destruct Hn as (p & Hp & ->). cbn [fst] in Hp. unfold SaveValue. rewrite Hp. cbn [saver_user_key].
      pose proof (Compare_eq (user_key p) u). destruct (Z.eqb_spec (Compare (user_key p) u) 0) as [E|E].
      * rewrite decide_True by tauto. by destruct (type p); intros [= <- <-].
      * rewrite decide_False by tauto. by intros [= <- <-].
    + rewrite Hn. by intros [= <- <-].
  - intros [= <- <-]. cbn [got value]. rewrite newest_filter, newest_before; [done|done|].
    intros e [Hu He]%list_elem_of_filter. pose proof (to_keys f Hf) as Hv. rewrite list.Forall_forall in Hv.
    split; [by apply Hv|]. apply Hnone; [done|]. destruct (lookup_key_ok seq u Hseq) as (_ & Hku & _). by rewrite Hku.
Qed.

Lemma outcome_step l1 l2 val res val' : (res, val') = outcome (newest_of l1) val ->
  outcome (newest_of (l1 ++ l2)) val = match res with Some s => (Some s, val') | None => outcome (newest_of l2) val' end.
Proof using. rewrite newest_app. destruct (newest_of l1) as [[[] x]|]; intros [= -> ->]; done. Qed.

Lemma get_files_ok level files g res g' read : Forall table_ok files -> get_files u key level files g = (res, g') ->
  (res, got g') = outcome (newest_of (files ≫= c)) (got g) /\
  (charged read g -> exists n, charged (read ++ (pair level <$> take n files)) g' /\
    (res = None -> take n files = files)).
Proof using All.
  intros Hf. revert g read. induction Hf as [|f files Hf Hfs IH]; intros g read; cbn [get_files].
  { intros [= <- <-]. split; [done|]. exists 0%nat. by rewrite app_nil_r. }
  destruct (get_file u key level f g) as [res1 g1] eqn:E. pose proof (get_file_ok _ _ _ _ _ Hf E) as H1'.
  pose proof (get_file_charged read level f g) as Hc. rewrite E in Hc. cbn [snd] in Hc.
  rewrite bind_cons, (outcome_step _ _ _ _ _ H1'). destruct res1 as [s|].
  - intros [= <- <-]. split; [done|]. intros Hr. exists 1%nat. by split; [apply Hc|].
  - intros E'. destruct (IH g1 (read ++ [(level, f)]) E') as [-> Hex]. split; [done|]. intros Hr.
    destruct (Hex (Hc Hr)) as (n & Hn & Hall). exists (S n). rewrite <- app_assoc in Hn. split; [done|].
    intros Hnone. simpl. by rewrite Hall.
Qed.

(** ** The files of a level *)

Definition level_ok (level : nat) (files : list file) : Prop :=
  Forall table_ok files /\ if (level =? 0)%nat then NoDup ((fun f : file => number f) <$> files) else level_files files.

(** The order in which a level is searched. *)
Definition level_order (level : nat) (files : list file) : list file :=
  if (level =? 0)%nat then merge_sort NewestFirst files else files.

Abbreviation covering := (overlaps (Some u) (Some u)).

Lemma covers_ok f : valid_file f -> covers u f = Some (bool_decide (covering f)).
Proof using H0.
  intros (Hs & Hl & _). unfold covers. rewrite !valid_key_user by done. cbn [mbind option_bind].
  destruct (Z.leb_spec 0 (Compare u (ukey (smallest f)))) as [Hge|Hlt].
  - f_equal. apply eq_bool_iff. rewrite bool_decide_eq_true, Z.leb_le, Compare_le. apply Compare_ge in Hge. split.
    + intros Hle. by split; intros a [= <-].
    + intros [Ho _]. by apply Ho.
  - f_equal. symmetry. apply bool_decide_false. intros [_ Ho]. by apply (Ho u eq_refl).
Qed.

Lemma overlapping_files_ok files : Forall valid_file files -> overlapping_files u files = Some (filter covering files).
Proof using H0.
  induction 1 as [|f files Hf _ IH]; [done|]. cbn [overlapping_files]. rewrite covers_ok, IH, filter_cons by done.
  cbn [mbind option_bind]. by case_decide; [rewrite bool_decide_true|rewrite bool_decide_false].
Qed.

#[local] Instance NewestFirst_total : Total NewestFirst.
Proof. intros a b. unfold NewestFirst. lia. Qed.

#[local] Instance NewestFirst_trans : Transitive NewestFirst.
Proof. intros a b d. unfold NewestFirst. lia. Qed.

(** With different numbers there is one order, so sorting commutes with filtering. *)
Lemma merge_sort_filter files : NoDup ((fun f : file => number f) <$> files) ->
  merge_sort NewestFirst (filter covering files) = filter covering (merge_sort NewestFirst files).
Proof using.
  intros Hnd. apply (StronglySorted_unique_strong NewestFirst).
  - intros a b Ha Hb Hab Hba. rewrite merge_sort_Permutation in Ha.
    apply list_elem_of_filter in Ha as [_ Ha], Hb as [_ Hb]. rewrite merge_sort_Permutation in Hb.
    assert (number a = number b) as E by (unfold NewestFirst in *; lia). clear -Hnd Ha Hb E.
    apply list_elem_of_lookup in Ha as [i Hi], Hb as [j Hj].
    assert (i = j) as ->; [|by rewrite Hi in Hj; injection Hj].
    apply (NoDup_lookup _ i j (number a) Hnd); rewrite list_lookup_fmap; [by rewrite Hi|by rewrite Hj, E].
  - apply StronglySorted_merge_sort; apply _.
  - apply StronglySorted_filter, StronglySorted_merge_sort; apply _.
  - rewrite merge_sort_Permutation. apply filter_Permutation. by rewrite merge_sort_Permutation.
Qed.

(** A file that does not cover the key holds no entry of it. *)
Lemma newest_uncovered f : table_ok f -> ~ covering f -> newest_of (c f) = None.
Proof using H0 H4.
  intros Hf Hn. apply newest_other. intros e He Hu. apply Hn.
  pose proof (to_first f Hf) as Hfi. pose proof (to_last f Hf) as Hla. rewrite list.Forall_forall in Hfi, Hla.
  split; intros a [= <-] Hlt; [apply (Hla e He)|apply (Hfi e He)]; left; by rewrite Hu.
Qed.

Lemma newest_covering files : Forall table_ok files -> newest_of (files ≫= c) = newest_of (filter covering files ≫= c).
Proof using H0 H4.
  induction 1 as [|f files Hf _ IH]; [done|]. rewrite bind_cons, newest_app, filter_cons, IH.
  case_decide as Hc; [by rewrite bind_cons, newest_app|]. by rewrite (newest_uncovered f).
Qed.

(** In a sorted level the first file that does not end before the key decides. *)
Lemma newest_sorted_level files : level_files files -> Forall table_ok files ->
  newest_of (files ≫= c) =
    match files !! seek_index internal_before (file_entries files) key with
    | Some f => if decide (lt_key u (ukey (smallest (meta f)))) then None else newest_of (c f)
    | None => None
    end.
Proof using All.
  intros Hfiles Htables. set (i := seek_index _ _ _). destruct (lookup_key_ok seq u Hseq) as (_ & Hku & _).
  rewrite list.Forall_forall in Htables.
  assert (forall l, (forall f, f ∈ l -> newest_of (c f) = None) -> newest_of (l ≫= c) = None) as Hnone.
  { induction l as [|f l IH]; intros Hl; [done|]. rewrite bind_cons, newest_app, Hl by left.
    apply IH. intros g Hg. apply Hl. by right. }
  assert (forall f, f ∈ take i files -> newest_of (c f) = None) as Hbefore.
  { intros f [j Hj]%list_elem_of_lookup. assert (j < i)%nat as Hji by (apply lookup_lt_Some in Hj; rewrite length_take in Hj; lia).
    rewrite lookup_take_lt in Hj by done. pose proof (Htables f ltac:(by eapply list_elem_of_lookup_2)) as Hf.
    apply newest_before; [done|]. intros e He. pose proof (to_keys f Hf) as Hv. pose proof (to_last f Hf) as Hl.
    rewrite list.Forall_forall in Hv, Hl. split; [by apply Hv|]. eapply internal_le_lt_trans; [by apply Hl|].
    by apply (file_index_spec files Hfiles key j f Hj). }
  rewrite <- (take_drop i files) at 1. rewrite bind_app, newest_app, Hnone by done.
  destruct (files !! i) as [f|] eqn:Ef; [|by rewrite drop_ge by by apply lookup_ge_None].
  rewrite (drop_S _ _ _ Ef), bind_cons, newest_app.
  pose proof (Htables f ltac:(by eapply list_elem_of_lookup_2)) as Hf.
  destruct (to_largest f Hf) as (el & Hel & Hlargest).
  assert (newest_of (c f) = None -> newest_of (drop (S i) files ≫= c) = None) as Hlater.
  { intros Hn. apply Hnone. intros g [j Hj]%list_elem_of_lookup. rewrite lookup_drop in Hj.
    pose proof (Htables g ltac:(by eapply list_elem_of_lookup_2)) as Hg.
    apply newest_None. intros e k He Hk Hu. pose proof (visible_ukey _ _ _ Hk) as Heu.
    assert (internal_lt (largest f) e.1) as Hlt.
    { eapply internal_lt_le_trans; [exact (StronglySorted_lookup _ _ _ _ _ _ (lf_disjoint _ Hfiles) Ef Hj ltac:(lia))|].
      pose proof (to_first g Hg) as Hfi. rewrite list.Forall_forall in Hfi. by apply Hfi. }
    assert (~ internal_lt (largest f) key) as Hge.
    { intros Hl. apply (file_index_spec files Hfiles key i f Ef) in Hl. unfold i in *. lia. }
    pose proof (to_keys f Hf) as Hv. rewrite list.Forall_forall in Hv.
    assert (ukey el.1 = u) as Hul.
    { rewrite Hlargest. destruct (lt_key_total (ukey (largest f)) u) as [Hl|[|Hl]]; [|done|].
      - destruct Hge. left. by rewrite Hku.
      - destruct (internal_lt_ukey _ _ Hlt). by rewrite <- Heu, Hu. }
    rewrite <- Hlargest in Hge. destruct (proj2 (visible_iff seq u Hseq el (Hv el Hel) Hul) Hge) as (k' & Hk' & Hku').
    exact (proj1 (newest_None seq u (c f)) Hn el k' Hel Hk' Hku'). }
  destruct (decide (lt_key u (ukey (smallest f)))) as [Hlt|Hge].
  - rewrite newest_uncovered in Hlater |- *; [by apply Hlater|done| |done|]; intros [_ Ho]; by apply (Ho u eq_refl).
  - destruct (newest_of (c f)) as [r|] eqn:En; [done|by apply Hlater].
Qed.

Lemma level_candidates_ok level files : level_ok level files ->
  exists cands, level_candidates u key level files = Some cands /\ Forall table_ok cands /\
    cands `sublist_of` level_order level files /\
    newest_of (cands ≫= c) = newest_of (level_order level files ≫= c).
Proof using All.
  intros [Ht Hl]. unfold level_candidates, level_order. destruct (level =? 0)%nat.
  - rewrite overlapping_files_ok by (eapply List.Forall_impl; [apply to_file|exact Ht]). eexists. split; [done|].
    rewrite merge_sort_filter by done. assert (Forall table_ok (merge_sort NewestFirst files)) as Ht'.
    { by rewrite merge_sort_Permutation. }
    split; [rewrite list.Forall_forall in Ht' |- *; intros f [_ Hf]%list_elem_of_filter; by apply Ht'|]. split; [apply sublist_filter|]. symmetry. by apply newest_covering.
  - rewrite FindFile_ok by done. cbn [mbind option_bind]. rewrite newest_sorted_level by done.
    set (i := seek_index _ _ _). destruct (files !! i) as [f|] eqn:Ef.
    + pose proof (lookup_lt_Some _ _ _ Ef). rewrite (proj2 (Z.leb_gt _ _)), Nat2Z.id, Ef by lia. cbn [mbind option_bind].
      assert (table_ok f) as Hf by by eapply Forall_lookup_1. destruct (to_file f Hf) as (Hs & _).
      rewrite valid_key_user by done. cbn [mbind option_bind]. eexists. split; [done|].
      destruct (decide (lt_key u (ukey (smallest f)))) as [Hlt|Hge].
      * rewrite (proj2 (Z.ltb_lt _ _)) by done. split; [constructor|]. split; [apply sublist_nil_l|done].
      * rewrite (proj2 (Z.ltb_ge _ _)) by by apply Compare_ge. split; [by constructor|].
        split; [by apply singleton_sublist_l, (list_elem_of_lookup_2 _ i)|]. by rewrite bind_cons, app_nil_r.
    + apply lookup_ge_None in Ef. rewrite (proj2 (Z.leb_le _ _)) by lia. eexists. split; [done|].
      split; [constructor|]. split; [apply sublist_nil_l|done].
Qed.

(** ** The search *)

(** The files of all levels in the order of the search, with their levels. *)
Fixpoint search_order (level : nat) (levels : list (list file)) : list (Z * file) :=
  match levels with
  | [] => []
  | files :: levels => (pair (Z.of_nat level) <$> level_order level files) ++ search_order (S level) levels
  end.

Definition contents_of (order : list (Z * file)) : list entry := order ≫= fun p => c p.2.

Definition version_contents (v : Version) : list entry := contents_of (search_order 0 (files_ v)).

Definition version_ok (v : Version) : Prop := forall level files, files_ v !! level = Some files -> level_ok level files.

Definition get_result (r : option (ValueType * list Z)) (val : list Z) : Status * list Z :=
  match r with Some (kTypeValue, x) => (Ok, x) | _ => (NotFound, val) end.

Lemma contents_of_level level files : contents_of (pair level <$> files) = files ≫= c.
Proof using. induction files as [|f files IH]; [done|]. unfold contents_of in *. by rewrite fmap_cons, !bind_cons, IH. Qed.

Lemma contents_of_app l1 l2 : contents_of (l1 ++ l2) = contents_of l1 ++ contents_of l2.
Proof using. apply bind_app. Qed.

Lemma get_levels_ok level levels g read :
  (forall i files, levels !! i = Some files -> level_ok (level + i) files) -> charged read g ->
  exists s g' read', get_levels u key level levels g = Some (s, g') /\
    charged (read ++ read') g' /\ read' `sublist_of` search_order level levels /\
    (s, got g') = get_result (newest_of (contents_of (search_order level levels))) (got g).
Proof using All.
  revert level g read. induction levels as [|files levels IH]; intros level g read Hok Hread; cbn [get_levels search_order].
  { exists NotFound, g, []. rewrite app_nil_r. split_and!; [done|done|constructor|done]. }
  assert (forall i files, levels !! i = Some files -> level_ok (S level + i) files) as Hok'.
  { intros i files' Hi. rewrite Nat.add_succ_comm. by apply Hok. }
  pose proof (Hok 0%nat files eq_refl) as Hl. rewrite Nat.add_0_r in Hl.
  case_bool_decide as He.
  { subst files. replace (level_order level []) with (@nil file) by (unfold level_order; by destruct (level =? 0)%nat).
    by apply IH. }
  destruct (level_candidates_ok level files Hl) as (cands & -> & Hcands & Hsub & Hnew). cbn [mbind option_bind].
  destruct (get_files u key (Z.of_nat level) cands g) as [res g1] eqn:E.
  destruct (get_files_ok _ _ _ _ _ read Hcands E) as [Hres Hch]. destruct (Hch Hread) as (n & Hn & _).
  rewrite contents_of_app, contents_of_level, newest_app, <- Hnew.
  assert (pair (Z.of_nat level) <$> take n cands `sublist_of` pair (Z.of_nat level) <$> level_order level files) as Hsub1.
  { apply fmap_sublist. etrans; [apply sublist_take|done]. }
  destruct res as [s|].
  - exists s, g1, (pair (Z.of_nat level) <$> take n cands). split_and!; [done|done|by apply sublist_inserts_r|].
    destruct (newest_of (cands ≫= c)) as [[[] x]|]; cbn [outcome get_result] in *; congruence.
  - destruct (IH (S level) g1 _ Hok' Hn) as (s & g' & read' & -> & Hch' & Hsub' & Hr).
    eexists s, g', _. rewrite <- app_assoc in Hch'. split_and!; [done|exact Hch'|by apply sublist_app|].
    rewrite Hr. destruct (newest_of (cands ≫= c)) as [[[] x]|]; cbn [outcome get_result] in *; congruence.
Qed.

(** Entries of the same user key come newest first. *)
Definition newest_first : list entry -> Prop :=
  StronglySorted (fun e e' : entry => ukey e.1 = ukey e'.1 -> internal_lt e.1 e'.1).

(** Then the order of the search and the sorted order agree on every user key. *)
Lemma newest_sorted es es' : sorted_entries es -> newest_first es' -> es ≡ₚ es' -> newest_of es = newest_of es'.
Proof using H0.
  intros Hs Hn Hp. rewrite (newest_filter _ _ es), (newest_filter _ _ es'). f_equal.
  set (P := fun e : entry => ukey e.1 = u).
  apply (StronglySorted_unique_strong (fun e e' : entry => internal_lt e.1 e'.1)).
  - intros a b _ _ Hab Hba. by apply internal_lt_asym in Hab.
  - apply StronglySorted_filter. revert Hs. clear. unfold sorted_entries.
    induction es as [|e es IH]; [constructor|]. rewrite fmap_cons. intros [Hs Hf]%StronglySorted_inv.
    constructor; [by apply IH|]. rewrite list.Forall_forall in Hf. apply list.Forall_forall. intros e' He'. apply Hf.
    apply list_elem_of_fmap. by exists e'.
  - clear Hs Hp. induction Hn as [|e l Hl IH He]; [constructor|]. rewrite filter_cons. case_decide as Hu; [|done].
    constructor; [done|]. rewrite list.Forall_forall in He |- *. intros e' [Hu' He']%list_elem_of_filter.
    apply He; [done|]. unfold P in *. congruence.
  - by apply filter_Permutation.
Qed.

(** C24 (refinement): [Version::Get] is the lookup in the snapshot's view: when files that are
    searched earlier hold the newer entries of every user key, it returns the value
    that the database iterator shows for the key, and otherwise reports that it is
    not found and leaves the value alone, although it searches one table at most of
    each level above 0. When it read more than one table, the first of them is the
    one to be charged. *)
Theorem version_get_view v val es : version_ok v -> newest_first (version_contents v) ->
  sorted_entries es -> es ≡ₚ version_contents v ->
  exists s g read, Version_Get v u seq val = Some (s, g) /\
    ((s = Ok /\ (u, got g) ∈ view seq es) \/ (s = NotFound /\ got g = val /\ forall x, (u, x) ∉ view seq es)) /\
    read `sublist_of` search_order 0 (files_ v) /\ charged read g.
Proof using All.
  intros Hv Hn Hs Hp. unfold Version_Get. fold (lookup_key seq u).
  destruct (get_levels_ok 0 (files_ v) (mkGetting (mkStats None (-1)) None (-1) val) []) as (s & g & read & -> & Hch & Hsub & Hr);
    [by apply Hv|done|]. exists s, g, read. split; [done|]. split; [|done].
  fold (version_contents v) in Hr. rewrite <- (newest_sorted es _ Hs Hn Hp) in Hr. cbn [got] in Hr.
  assert (forall x, (u, x) ∈ view seq es <-> newest_of es = Some (kTypeValue, x)) as Hview.
  { intros x. unfold view. rewrite view_from_newest. split; [tauto|]. split; [apply not_elem_of_nil|done]. }
  destruct (newest_of es) as [[[] x]|]; injection Hr as -> ->.
  - right. split_and!; [done|done|]. by intros y Hy%Hview.
  - left. split; [done|]. by apply Hview.
  - right. split_and!; [done|done|]. by intros y Hy%Hview.
Qed.
End get.

(** ** Samples charge the files that Get searches *)

Section sample.
Context `{Comparator} `{Coding} `{!InternalKeyFormat, !InternalComparator}.

(** The files that [Version::Get] searches when it finds nothing. *)
Fixpoint candidates (user_key ikey : list Z) (level : nat) (levels : list (list file)) : option (list (Z * file)) :=
  match levels with
  | [] => Some []
  | files :: levels =>
      cands ← (if bool_decide (files = []) then Some [] else level_candidates user_key ikey level files);
      rest ← candidates user_key ikey (S level) levels;
      Some ((pair (Z.of_nat level) <$> cands) ++ rest)
  end.

Fixpoint visit_pairs {S} (func : S -> Z -> file -> bool * S) (cands : list (Z * file)) (s : S) : bool * S :=
  match cands with
  | [] => (true, s)
  | (level, f) :: cands => let '(more, s) := func s level f in if more then visit_pairs func cands s else (false, s)
  end.

Lemma visit_pairs_app {S} (func : S -> Z -> file -> bool * S) l1 l2 s :
  visit_pairs func (l1 ++ l2) s =
    (let '(more, s) := visit_pairs func l1 s in if more then visit_pairs func l2 s else (false, s)).
Proof.
  revert s. induction l1 as [|[level f] l1 IH]; intros s; [done|]. cbn [app visit_pairs].
  destruct (func s level f) as [[] s']; [apply IH|done].
Qed.

Lemma visit_level {S} (func : S -> Z -> file -> bool * S) level files s :
  visit func level files s = visit_pairs func (pair level <$> files) s.
Proof.
  revert s. induction files as [|f files IH]; intros s; [done|]. rewrite fmap_cons. cbn [visit visit_pairs].
  destruct (func s level f) as [[] s']; [apply IH|done].
Qed.

Lemma level_candidates_S user_key ikey level files :
  level_candidates user_key ikey (S level) files = option_list <$> overlapping_file user_key ikey files.
Proof.
  unfold level_candidates, overlapping_file. simpl. destruct (FindFile files ikey) as [i|]; [|done].
  cbn [mbind option_bind]. rewrite Z.leb_antisym. destruct (i <? _); [|done]. cbn [negb].
  destruct (files !! _) as [f|]; [|done]. cbn [mbind option_bind].
  destruct (InternalKey_user_key _); [|done]. cbn [mbind option_bind]. by destruct (_ <? 0).
Qed.

Lemma other_levels_candidates {S} (func : S -> Z -> file -> bool * S) user_key ikey level levels s cands :
  candidates user_key ikey (Datatypes.S level) levels = Some cands ->
  other_levels func user_key ikey (Z.of_nat (Datatypes.S level)) levels s = Some (visit_pairs func cands s).2.
Proof.
  revert level s cands. induction levels as [|files levels IH]; intros level s cands; cbn [candidates other_levels].
  { by intros [= <-]. }
  replace (Z.of_nat (Datatypes.S level) + 1) with (Z.of_nat (Datatypes.S (Datatypes.S level))) by lia.
  rewrite level_candidates_S. case_bool_decide as He.
  - cbn [mbind option_bind]. destruct (candidates _ _ _ levels) as [rest|] eqn:E; [|done].
    intros [= <-]. by apply IH.
  - destruct (overlapping_file user_key ikey files) as [[f|]|]; [| |done]; cbn [fmap option_fmap option_map mbind option_bind option_list];
      (destruct (candidates _ _ _ levels) as [rest|] eqn:E; [|done]); intros [= <-].
    + cbn [fmap list_fmap app visit_pairs]. destruct (func s _ f) as [[] s']; [|done]. by apply IH.
    + by apply IH.
Qed.

Lemma for_each_candidates {S} (func : S -> Z -> file -> bool * S) v user_key ikey s cands :
  files_ v <> [] -> candidates user_key ikey 0 (files_ v) = Some cands ->
  ForEachOverlapping v user_key ikey func s = Some (visit_pairs func cands s).2.
Proof.
  intros Hne. unfold ForEachOverlapping, level_at. destruct (files_ v) as [|files levels]; [done|].
  cbn [candidates lookup list_lookup mbind option_bind].
  assert (forall o, (if bool_decide (files = []) then Some [] else level_candidates user_key ikey 0 files) = Some o ->
    exists tmp, overlapping_files user_key files = Some tmp /\ o = merge_sort NewestFirst tmp) as Ho.
  { intros o. case_bool_decide as He; [intros [= <-]; exists []; by rewrite He|]. unfold level_candidates. simpl.
    destruct (overlapping_files user_key files) as [tmp|]; [|done]. intros [= <-]. by exists tmp. }
  destruct (if bool_decide _ then _ else _) as [o|]; [|done]. destruct (Ho o eq_refl) as (tmp & -> & ->).
  cbn [mbind option_bind]. destruct (candidates _ _ _ levels) as [rest|] eqn:E; [|done]. intros [= <-].
  rewrite visit_level, visit_pairs_app. change (Z.of_nat 0) with 0.
  destruct (visit_pairs func (pair 0 <$> _) s) as [[] s']; [|done].
  cbn [drop]. by apply (other_levels_candidates func user_key ikey 0).
Qed.

Lemma visit_match cands st matches : 0 <= matches < 2 ->
  exists more, visit_pairs Match cands (st, matches) =
    (more, (match cands with (l, f) :: _ => if matches =? 0 then mkStats (Some f) l else st | [] => st end,
      Z.min 2 (matches + Z.of_nat (length cands)))) \/ matches = 2.
Proof.
  intros Hm. assert (forall cands st, exists more, visit_pairs Match cands (st, 1) = (more, (st, Z.min 2 (1 + Z.of_nat (length cands))))) as H1'.
  { intros [|[l f] cands'] st'; [by exists true|]. exists false. cbn. by rewrite Z.min_l by lia. }
  destruct (Z.eq_dec matches 0) as [->|].
  - destruct cands as [|[l f] cands]; [by exists true; left|]. destruct (H1' cands (mkStats (Some f) l)) as [more E].
    exists more. left. change (visit_pairs Match ((l, f) :: cands) (st, 0)) with (visit_pairs Match cands (mkStats (Some f) l, 1)).
    rewrite E. cbn [Z.eqb length]. do 2 f_equal. lia.
  - assert (matches = 1) as -> by lia. destruct (H1' cands st) as [more E]. exists more. left. rewrite E.
    destruct cands as [|[l f] cands]; done.
Qed.

(** The callback search of [ForEachOverlapping] visits the very files that
    [Get] searches, in the same order and until the callback stops it; a sample of a
    read therefore charges a seek to the first of them exactly when there are two,
    and asks for a compaction when that file has none left and no other file waits. *)
Theorem sample_charges_first v ikey p cands seeks : files_ v <> [] -> ParseInternalKey ikey = Some p ->
  candidates (user_key p) ikey 0 (files_ v) = Some cands ->
  (forall S (func : S -> Z -> file -> bool * S) s,
    ForEachOverlapping v (user_key p) ikey func s = Some (visit_pairs func cands s).2) /\
  RecordReadSample ikey v seeks =
    match cands with
    | (level, f) :: _ :: _ =>
        n ← seeks !! address f;
        Some (if bool_decide (n <= 1 /\ file_to_compact_ v = None)
              then (true, with_file_to_compact f level v, <[address f := n - 1]> seeks)
              else (false, v, <[address f := n - 1]> seeks))
    | _ => Some (false, v, seeks)
    end.
Proof.
  intros Hne Hp Hc. split; [intros; by apply for_each_candidates|].
  unfold RecordReadSample. rewrite Hp, (for_each_candidates Match v (user_key p) ikey _ cands Hne Hc).
  destruct (visit_match cands (mkStats None (-1)) 0 ltac:(lia)) as (more & [->|]); [|done]. cbn [mbind option_bind snd].
  destruct cands as [|[level f] [|p2 cands]]; [done|done|]. rewrite (proj2 (Z.leb_le _ _)) by (cbn [length]; lia).
  unfold UpdateStats. cbn [seek_file seek_file_level Z.eqb]. destruct (seeks !! address f) as [n|]; [|done]. cbn [mbind option_bind].
  replace ((n - 1 <=? 0) && bool_decide (file_to_compact_ v = None)) with (bool_decide (n <= 1 /\ file_to_compact_ v = None)).
  - by case_bool_decide.
  - apply eq_bool_iff. rewrite andb_true_iff, !bool_decide_eq_true, Z.leb_le. split; intros []; split; done || lia.
Qed.
End sample.

(** ** A version of two levels

    A file of level 0 above the level of [VersionFiles.v]; it deletes the key 5. *)

Section demo.
#[local] Existing Instances by_bytes by_bytes_laws reference_coding reference_coding_laws reference_format
  reference_format_laws reference_icmp reference_icmp_laws.

Definition put (u s x : Z) : entry := (ikey u s, [x]).

Definition demo_tables (n : Z) : list entry :=
  if n =? 12 then [put 2 20 102; (AppendInternalKey [] (ParsedKey [5] 21 kTypeDeletion), []); put 6 22 106]
  else if n =? 7 then [put 1 10 1; put 2 11 2] else if n =? 8 then [put 4 12 4; put 5 13 5]
  else if n =? 9 then [put 5 3 50; put 8 4 8] else [].

#[local] Instance demo_cache : TableCache := fun n _ k => (demo_tables n !! seek_index internal_before (demo_tables n) k, Ok).

Definition demo_version : Version :=
  version_of ([demo_file 12 400 2 20 6 22] :: demo_level :: replicate 5 []).

Definition demo_entries_sorted : list entry := [
  put 1 10 1; put 2 20 102; put 2 11 2; put 4 12 4; (AppendInternalKey [] (ParsedKey [5] 21 kTypeDeletion), []);
  put 5 13 5; put 5 3 50; put 6 22 106; put 8 4 8].

(** The key 5 before, after and long before its deletion; the last search reads the
    second of the two files that end and start with it. *)
Example demo_gets :
  (fun snapshot => '(s, g) ← Version_Get demo_version [5] snapshot [0]; Some (s, got g, address <$> last_file_read g)) <$>
    [30; 20; 5; 2] =
  [Some (NotFound, [0], Some 12%positive); Some (Ok, [5], Some 8%positive);
   Some (Ok, [50], Some 9%positive); Some (NotFound, [0], Some 9%positive)].
Proof. vm_compute. reflexivity. Qed.

Lemma demo_table_ok f es : valid_file f -> demo_tables (number f) = es -> sorted_entries es ->
  Forall (fun e : entry => valid_key e.1) es -> Forall (fun e : entry => ~ internal_lt e.1 (smallest f)) es ->
  Forall (fun e : entry => ~ internal_lt (largest f) e.1) es -> (exists e, e ∈ es /\ e.1 = largest f) ->
  table_ok (fun f => demo_tables (number f)) f.
Proof. intros Hf <- ? ? ? ? ?. split; try done. intros k. eexists. split; [reflexivity|]. by left. Qed.

(** Discharges [table_ok] for a file of the demo. *)
Ltac table_by_compute e :=
  eapply demo_table_ok; [apply demo_file_valid; by_compute|reflexivity| | |by_compute|by_compute|
    exists e; split; [by_compute|reflexivity]];
  [unfold sorted_entries, put; cbn [fmap list_fmap fst];
   repeat first [apply SSorted_nil|apply SSorted_cons|apply List.Forall_nil|apply List.Forall_cons]; by_compute|
   repeat (apply List.Forall_cons; [eexists; split; [vm_compute; reflexivity|by_compute]|]); apply List.Forall_nil].

Lemma demo_version_ok : version_ok (fun f => demo_tables (number f)) demo_version.
Proof.
  intros [|[|level]] files Hl.
  - injection Hl as <-. split; [|by_compute]. apply List.Forall_cons; [|by apply List.Forall_nil]. table_by_compute (put 6 22 106).
  - injection Hl as <-. split; [|exact demo_level_files].
    repeat apply List.Forall_cons; [table_by_compute (put 2 11 2)|table_by_compute (put 5 13 5)|table_by_compute (put 8 4 8)|
      by apply List.Forall_nil].
  - assert (files = []) as -> by (apply (elem_of_replicate_inv _ 5), (list_elem_of_lookup_2 _ level); exact Hl).
    split; [by apply List.Forall_nil|]. split; [by apply List.Forall_nil|apply SSorted_nil|done].
Qed.

Lemma demo_newest_first : newest_first (version_contents (fun f => demo_tables (number f)) demo_version).
Proof.
  replace (version_contents _ _) with (demo_tables 12 ++ demo_tables 7 ++ demo_tables 8 ++ demo_tables 9) by (vm_compute; reflexivity).
  unfold newest_first, demo_tables, put. cbn [Z.eqb Pos.eqb app].
  repeat first [apply SSorted_nil|apply SSorted_cons|apply List.Forall_nil|apply List.Forall_cons]; by_compute.
Qed.

Lemma version_get_view_witness : exists s g read, Version_Get demo_version [5] 20 [0] = Some (s, g) /\
  ((s = Ok /\ ([5], got g) ∈ view 20 demo_entries_sorted) \/
   (s = NotFound /\ got g = [0] /\ forall x, ([5], x) ∉ view 20 demo_entries_sorted)) /\
  read `sublist_of` search_order 0 (files_ demo_version) /\ charged read g.
Proof.
  apply (version_get_view (fun f => demo_tables (number f)) 20 ltac:(unfold kMaxSequenceNumber; lia) [5] demo_version [0]
    demo_entries_sorted demo_version_ok demo_newest_first).
  - unfold sorted_entries, demo_entries_sorted, put. cbn [fmap list_fmap fst].
    repeat first [apply SSorted_nil|apply SSorted_cons|apply List.Forall_nil|apply List.Forall_cons]; by_compute.
  - by_compute.
Defined.

Lemma sample_charges_first_witness :
  RecordReadSample (ikey 5 20) demo_version {[ 12%positive := 1; 8%positive := 100 ]} =
    Some (true, with_file_to_compact (demo_file 12 400 2 20 6 22) 0 demo_version, {[ 12%positive := 0; 8%positive := 100 ]}).
Proof.
  pose proof (fun cands Hc => proj2 (sample_charges_first demo_version (ikey 5 20) (ParsedKey [5] 20 kTypeValue) cands
    {[ 12%positive := 1; 8%positive := 100 ]} ltac:(discriminate) ltac:(vm_compute; reflexivity) Hc)) as Hs.
  refine (eq_trans (Hs _ ltac:(vm_compute; reflexivity)) _). vm_compute. reflexivity.
Defined.
End demo.
