(* ===== verification/Compaction.v ===== *)
(** * Choosing what to compact ([leveldb-library/db/version_set.cc])

    A compaction merges files of a level with files of the next one. This file has
    the collection of the files that overlap a range ([GetOverlappingInputs]), the
    files that must come along because they continue a user key
    ([AddBoundaryInputs]), the choice of the inputs ([SetupOtherInputs],
    [PickCompaction], [CompactRange]), the placement of a new table
    ([PickLevelForMemTableOutput]) and the queries of a running compaction.

    A bound that is [None] is a null pointer. *)

From Stdlib Require Import String Sorting.Sorted.
From stdpp Require Import base list sorting gmap.
From S2P Require Import Prelude Cursor Coding DbFormat VersionEdit VersionFiles VersionState.

#[local] Open Scope Z_scope.

Definition kMaxMemCompactLevel : nat := 2.

Section compaction.
Context `{Comparator} `{Coding} `{!InternalKeyFormat, !InternalComparator}.

(** ** Overlapping inputs *)

(** [rest] are the files from the index of the loop on; a level 0 file that widens
    the range starts the search again. *)
Fixpoint overlap_loop (fuel : nat) (level0 : bool) (files rest : list file) (user_begin user_end : option (list Z))
    (inputs : list file) : option (list file) :=
  match rest with
  | [] => Some inputs
  | f :: rest =>
      match fuel with
      | O => None
      | S fuel =>
          file_start ← InternalKey_user_key (smallest (meta f));
          file_limit ← InternalKey_user_key (largest (meta f));
          if from_option (fun b => Compare file_limit b <? 0) false user_begin
          then overlap_loop fuel level0 files rest user_begin user_end inputs
          else if from_option (fun e => 0 <? Compare file_start e) false user_end
          then overlap_loop fuel level0 files rest user_begin user_end inputs
          else if level0 && from_option (fun b => Compare file_start b <? 0) false user_begin
          then overlap_loop fuel level0 files files (Some file_start) user_end []
          else if level0 && from_option (fun e => 0 <? Compare file_limit e) false user_end
          then overlap_loop fuel level0 files files user_begin (Some file_limit) []
          else overlap_loop fuel level0 files rest user_begin user_end (inputs ++ [f])
      end
  end.

(** Each of the two bounds can be moved by a file once at most. *)
Definition overlap_fuel (files : list file) : nat := (2 * length files + 1) * S (length files).

Definition GetOverlappingInputs (v : Version) (level : nat) (begin end_ : option (list Z)) : option (list file) :=
  files ← level_at v level;
  user_begin ← match begin with None => Some None | Some k => u ← InternalKey_user_key k; Some (Some u) end;
  user_end ← match end_ with None => Some None | Some k => u ← InternalKey_user_key k; Some (Some u) end;
  overlap_loop (overlap_fuel files) (level =? 0)%nat files files user_begin user_end [].

Definition OverlapInLevel (v : Version) (level : nat) (smallest_user_key largest_user_key : option (list Z)) : option bool :=
  files ← level_at v level;
  SomeFileOverlapsRange (0 <? level)%nat files smallest_user_key largest_user_key.

(** [fuel] is how far [level] is from [kMaxMemCompactLevel]. *)
Fixpoint pick_level_loop (fuel : nat) (max_file_size : Z) (v : Version) (smallest_user_key largest_user_key start limit : list Z)
    (level : nat) : option nat :=
  match fuel with
  | O => Some level
  | S fuel =>
      overlap ← OverlapInLevel v (level + 1) (Some smallest_user_key) (Some largest_user_key);
      if overlap : bool then Some level
      else if (Z.of_nat level + 2 <? kNumLevels) then
        overlaps ← GetOverlappingInputs v (level + 2) (Some start) (Some limit);
        if MaxGrandParentOverlapBytes max_file_size <? TotalFileSize overlaps then Some level
        else pick_level_loop fuel max_file_size v smallest_user_key largest_user_key start limit (S level)
      else pick_level_loop fuel max_file_size v smallest_user_key largest_user_key start limit (S level)
  end.

Definition PickLevelForMemTableOutput (max_file_size : Z) (v : Version) (smallest_user_key largest_user_key : list Z) : option nat :=
  overlap ← OverlapInLevel v 0 (Some smallest_user_key) (Some largest_user_key);
  if overlap : bool then Some 0%nat
  else
    pick_level_loop kMaxMemCompactLevel max_file_size v smallest_user_key largest_user_key
      (AppendInternalKey [] (ParsedKey smallest_user_key kMaxSequenceNumber kValueTypeForSeek))
      (AppendInternalKey [] (ParsedKey largest_user_key 0 kTypeDeletion)) 0.

(** ** Ranges and boundary files *)

Fixpoint range_loop (inputs : list file) (smallest_ largest_ : list Z) : option (list Z * list Z) :=
  match inputs with
  | [] => Some (smallest_, largest_)
  | f :: inputs =>
      s ← ICompare_keys (smallest (meta f)) smallest_;
      let smallest_ := if s <? 0 then smallest (meta f) else smallest_ in
      l ← ICompare_keys (largest (meta f)) largest_;
      let largest_ := if 0 <? l then largest (meta f) else largest_ in
      range_loop inputs smallest_ largest_
  end.

Definition GetRange (inputs : list file) : option (list Z * list Z) :=
  match inputs with [] => None | f :: inputs => range_loop inputs (smallest (meta f)) (largest (meta f)) end.

Definition GetRange2 (inputs1 inputs2 : list file) : option (list Z * list Z) := GetRange (inputs1 ++ inputs2).

Fixpoint largest_loop (files : list file) (largest_key : list Z) : option (list Z) :=
  match files with
  | [] => Some largest_key
  | f :: files =>
      l ← ICompare_keys (largest (meta f)) largest_key;
      largest_loop files (if 0 <? l then largest (meta f) else largest_key)
  end.

(** [Some None] for no files. *)
Definition FindLargestKey (files : list file) : option (option (list Z)) :=
  match files with [] => Some None | f :: files => k ← largest_loop files (largest (meta f)); Some (Some k) end.

Fixpoint boundary_loop (level_files : list file) (largest_key : list Z) (best : option file) : option (option file) :=
  match level_files with
  | [] => Some best
  | f :: level_files =>
      l ← ICompare_keys (smallest (meta f)) largest_key;
      boundary ← (if 0 <? l then
                    s ← InternalKey_user_key (smallest (meta f)); u ← InternalKey_user_key largest_key;
                    Some (Compare s u =? 0)
                  else Some false);
      if boundary : bool then
        match best with
        | None => boundary_loop level_files largest_key (Some f)
        | Some b =>
            c ← ICompare_keys (smallest (meta f)) (smallest (meta b));
            boundary_loop level_files largest_key (if c <? 0 then Some f else best)
        end
      else boundary_loop level_files largest_key best
  end.

Definition FindSmallestBoundaryFile (level_files : list file) (largest_key : list Z) : option (option file) :=
  boundary_loop level_files largest_key None.

Fixpoint add_boundary_loop (fuel : nat) (level_files : list file) (largest_key : list Z) (compaction_files : list file) :
    option (list file) :=
  match fuel with
  | O => None
  | S fuel =>
      smallest_boundary_file ← FindSmallestBoundaryFile level_files largest_key;
      match smallest_boundary_file with
      | None => Some compaction_files
      | Some f => add_boundary_loop fuel level_files (largest (meta f)) (compaction_files ++ [f])
      end
  end.

Definition AddBoundaryInputs (level_files compaction_files : list file) : option (list file) :=
  largest_key ← FindLargestKey compaction_files;
  match largest_key with
  | None => Some compaction_files
  | Some k => add_boundary_loop (S (length level_files)) level_files k compaction_files
  end.

(** ** Compactions *)

Record Compaction := mkCompaction {
  level_ : nat; max_output_file_size_ : Z; input_version_ : option Version; edit_ : VersionEdit;
  inputs_0 : list file; inputs_1 : list file;
  grandparents_ : list file; grandparent_index_ : nat; seen_key_ : bool; overlapped_bytes_ : Z;
  level_ptrs_ : list nat }.

Definition Compaction_new (vset : VersionSet) (level : nat) : Compaction :=
  mkCompaction level (MaxFileSizeForLevel (max_file_size vset) level) None VersionEdit_new [] [] [] 0 false 0
    (replicate (Z.to_nat kNumLevels) 0%nat).

Definition with_inputs (i0 i1 : list file) (c : Compaction) : Compaction :=
  mkCompaction (level_ c) (max_output_file_size_ c) (input_version_ c) (edit_ c) i0 i1 (grandparents_ c)
    (grandparent_index_ c) (seen_key_ c) (overlapped_bytes_ c) (level_ptrs_ c).
Definition with_version (v : option Version) (c : Compaction) : Compaction :=
  mkCompaction (level_ c) (max_output_file_size_ c) v (edit_ c) (inputs_0 c) (inputs_1 c) (grandparents_ c)
    (grandparent_index_ c) (seen_key_ c) (overlapped_bytes_ c) (level_ptrs_ c).
Definition with_grandparents (g : list file) (e : VersionEdit) (c : Compaction) : Compaction :=
  mkCompaction (level_ c) (max_output_file_size_ c) (input_version_ c) e (inputs_0 c) (inputs_1 c) g
    (grandparent_index_ c) (seen_key_ c) (overlapped_bytes_ c) (level_ptrs_ c).
Definition with_progress (i : nat) (seen : bool) (bytes_ : Z) (c : Compaction) : Compaction :=
  mkCompaction (level_ c) (max_output_file_size_ c) (input_version_ c) (edit_ c) (inputs_0 c) (inputs_1 c) (grandparents_ c)
    i seen bytes_ (level_ptrs_ c).
Definition with_level_ptrs (ps : list nat) (c : Compaction) : Compaction :=
  mkCompaction (level_ c) (max_output_file_size_ c) (input_version_ c) (edit_ c) (inputs_0 c) (inputs_1 c) (grandparents_ c)
    (grandparent_index_ c) (seen_key_ c) (overlapped_bytes_ c) ps.

(** The attempt to take more files of the level without more of the next one: the
    two inputs, their range, and the largest key of the first. *)
Definition expand_inputs (vset : VersionSet) (level : nat) (inputs0 inputs1 : list file) (largest_ all_start all_limit : list Z) :
    option (list file * list file * list Z * list Z * list Z) :=
  let v := current_ vset in
  if bool_decide (inputs1 = []) then Some (inputs0, inputs1, largest_, all_start, all_limit)
  else
    files ← level_at v level;
    expanded0 ← GetOverlappingInputs v level (Some all_start) (Some all_limit);
    expanded0 ← AddBoundaryInputs files expanded0;
    if (length inputs0 <? length expanded0)%nat &&
       (int64 (TotalFileSize inputs1 + TotalFileSize expanded0) <? ExpandedCompactionByteSizeLimit (max_file_size vset)) then
      '(new_start, new_limit) ← GetRange expanded0;
      expanded1 ← GetOverlappingInputs v (level + 1) (Some new_start) (Some new_limit);
      if (length expanded1 =? length inputs1)%nat then
        '(all_start, all_limit) ← GetRange2 expanded0 expanded1;
        Some (expanded0, expanded1, new_limit, all_start, all_limit)
      else Some (inputs0, inputs1, largest_, all_start, all_limit)
    else Some (inputs0, inputs1, largest_, all_start, all_limit).

Definition SetupOtherInputs (c : Compaction) (vset : VersionSet) : option (Compaction * VersionSet) :=
  let level := level_ c in
  let v := current_ vset in
  files ← level_at v level;
  inputs0 ← AddBoundaryInputs files (inputs_0 c);
  '(smallest_, largest_) ← GetRange inputs0;
  inputs1 ← GetOverlappingInputs v (level + 1) (Some smallest_) (Some largest_);
  '(all_start, all_limit) ← GetRange2 inputs0 inputs1;
  '(inputs0, inputs1, largest_, all_start, all_limit) ← expand_inputs vset level inputs0 inputs1 largest_ all_start all_limit;
  grandparents ← (if Z.of_nat level + 2 <? kNumLevels
                  then GetOverlappingInputs v (level + 2) (Some all_start) (Some all_limit) else Some []);
  pointer ← InternalKey_Encode largest_;
  let c := with_inputs inputs0 inputs1 c in
  Some (with_grandparents grandparents (add_compact_pointer (Z.of_nat level, largest_) (edit_ c)) c,
    with_pointers (<[level := pointer]> (compact_pointer_ vset)) vset).

(** The first file after the pointer. *)
Fixpoint after_pointer (pointer : list Z) (files : list file) : option (option file) :=
  match files with
  | [] => Some None
  | f :: files =>
      if bool_decide (pointer = []) then Some (Some f)
      else k ← InternalKey_Encode (largest (meta f)); if 0 <? ICompare k pointer then Some (Some f) else after_pointer pointer files
  end.

(** [Some None] when there is no compaction to be done. *)
Definition PickCompaction (vset : VersionSet) : option (option Compaction * VersionSet) :=
  let v := current_ vset in
  picked ← (if size_compaction v then
              _ ← assert_ (0 <=? compaction_level_ v);
              _ ← assert_ (compaction_level_ v + 1 <? kNumLevels);
              let level := Z.to_nat (compaction_level_ v) in
              files ← level_at v level; pointer ← compact_pointer_ vset !! level;
              found ← after_pointer pointer files;
              f ← match found with Some f => Some f | None => files !! 0%nat end;
              Some (Some (level, f))
            else
              match file_to_compact_ v with
              | Some f => Some (Some (Z.to_nat (file_to_compact_level_ v), f))
              | None => Some None
              end);
  match picked with
  | None => Some (None, vset)
  | Some (level, f) =>
      let c := with_version (Some v) (with_inputs [f] [] (Compaction_new vset level)) in
      c ← (if (level =? 0)%nat then
             '(smallest_, largest_) ← GetRange (inputs_0 c);
             inputs ← GetOverlappingInputs v 0 (Some smallest_) (Some largest_);
             _ ← assert_ (negb (bool_decide (inputs = [])));
             Some (with_inputs inputs [] c)
           else Some c);
      '(c, vset) ← SetupOtherInputs c vset;
      Some (Some c, vset)
  end.

(** The inputs up to the first one that reaches the limit. *)
Fixpoint cut_inputs (limit total : Z) (inputs : list file) : list file :=
  match inputs with
  | [] => []
  | f :: inputs =>
      let total := wrap 64 (total + file_size (meta f)) in
      if limit <=? total then [f] else f :: cut_inputs limit total inputs
  end.

Definition CompactRange (level : nat) (begin end_ : option (list Z)) (vset : VersionSet) : option (option Compaction * VersionSet) :=
  let v := current_ vset in
  inputs ← GetOverlappingInputs v level begin end_;
  if bool_decide (inputs = []) then Some (None, vset)
  else
    let inputs := if (0 <? level)%nat then cut_inputs (MaxFileSizeForLevel (max_file_size vset) level) 0 inputs else inputs in
    '(c, vset) ← SetupOtherInputs (with_version (Some v) (with_inputs inputs [] (Compaction_new vset level))) vset;
    Some (Some c, vset).

(** ** A running compaction *)

Definition IsTrivialMove (c : Compaction) (vset : VersionSet) : bool :=
  (length (inputs_0 c) =? 1)%nat && (length (inputs_1 c) =? 0)%nat &&
  (TotalFileSize (grandparents_ c) <=? MaxGrandParentOverlapBytes (max_file_size vset)).

Definition AddInputDeletions (c : Compaction) (edit : VersionEdit) : VersionEdit :=
  let delete (level : nat) e f := add_deleted_file (Z.of_nat level, number (meta f)) e in
  foldl (delete (level_ c + 1)%nat) (foldl (delete (level_ c)) edit (inputs_0 c)) (inputs_1 c).

(** The scan of one level from its pointer: the new pointer, and whether the file
    there holds the key. *)
Fixpoint base_scan (fuel : nat) (user_key : list Z) (files : list file) (ptr : nat) : option (nat * bool) :=
  match files !! ptr with
  | None => Some (ptr, false)
  | Some f =>
      l ← InternalKey_user_key (largest (meta f));
      if Compare user_key l <=? 0 then
        s ← InternalKey_user_key (smallest (meta f)); Some (ptr, 0 <=? Compare user_key s)
      else match fuel with O => None | S fuel => base_scan fuel user_key files (S ptr) end
  end.

Fixpoint base_levels (n : nat) (user_key : list Z) (v : Version) (lvl : nat) (ptrs : list nat) : option (bool * list nat) :=
  match n with
  | O => Some (true, ptrs)
  | S n =>
      files ← level_at v lvl; ptr ← ptrs !! lvl;
      '(ptr, covered) ← base_scan (length files) user_key files ptr;
      let ptrs := <[lvl := ptr]> ptrs in
      if covered : bool then Some (false, ptrs) else base_levels n user_key v (S lvl) ptrs
  end.

Definition IsBaseLevelForKey (user_key : list Z) (c : Compaction) : option (bool * Compaction) :=
  v ← input_version_ c;
  '(base, ptrs) ← base_levels (Z.to_nat kNumLevels - (level_ c + 2)) user_key v (level_ c + 2) (level_ptrs_ c);
  Some (base, with_level_ptrs ptrs c).

Fixpoint stop_scan (fuel : nat) (internal_key : list Z) (c : Compaction) : option Compaction :=
  match grandparents_ c !! grandparent_index_ c with
  | None => Some c
  | Some f =>
      k ← InternalKey_Encode (largest (meta f));
      if 0 <? ICompare internal_key k then
        match fuel with
        | O => None
        | S fuel =>
            stop_scan fuel internal_key
              (with_progress (S (grandparent_index_ c)) (seen_key_ c)
                (if seen_key_ c then int64 (overlapped_bytes_ c + file_size (meta f)) else overlapped_bytes_ c) c)
        end
      else Some c
  end.

Definition ShouldStopBefore (internal_key : list Z) (vset : VersionSet) (c : Compaction) : option (bool * Compaction) :=
  c ← stop_scan (length (grandparents_ c)) internal_key c;
  let c := with_progress (grandparent_index_ c) true (overlapped_bytes_ c) c in
  if MaxGrandParentOverlapBytes (max_file_size vset) <? overlapped_bytes_ c
  then Some (true, with_progress (grandparent_index_ c) true 0 c)
  else Some (false, c).

Definition ReleaseInputs (c : Compaction) : Compaction := with_version None c.
End compaction.
