(* ===== verification/CompactionProps.v ===== *)
(** * The inputs of compactions are closed ([leveldb-library/db/version_set.cc])

    The collection of overlapping files returns the least closed set, the boundary
    files continue it, and no compaction leaves an entry behind that is older than
    one of the same user key it takes from the level. *)

From Stdlib Require Import String Sorting.Sorted.
From stdpp Require Import base list sorting gmap.
From S2P Require Import Prelude Cursor Coding DbFormat VersionEdit VersionFiles VersionState Compaction.

#[local] Open Scope Z_scope.

Lemma filter_length_lt {A} (P Q : A -> Prop) `{!forall x, Decision (P x), !forall x, Decision (Q x)} (l : list A) x :
  (forall y, P y -> Q y) -> x ∈ l -> Q x -> ~ P x -> (length (filter P l) < length (filter Q l))%nat.
Proof.
  intros HPQ Hx HQ HP. assert (forall l, (length (filter P l) <= length (filter Q l))%nat) as Hle.
  { induction l0 as [|y l0 IH]; [done|]. rewrite !filter_cons. destruct (decide (P y)) as [Hy|Hy].
    - rewrite decide_True by auto. simpl. lia.
    - case_decide; simpl; lia. }
  apply list_elem_of_split in Hx as (l1 & l2 & ->). rewrite !list.filter_app, !filter_cons, !length_app.
  rewrite decide_False, decide_True by done. pose proof (Hle l1). pose proof (Hle l2). simpl. lia.
Qed.

Section overlap.
Context `{ComparatorLaws} `{CodingLaws} `{!InternalKeyFormat, !InternalKeyFormatLaws}.
Context `{!InternalComparator, !InternalComparatorLaws}.
Implicit Types f g : file.
Implicit Types b e : option (list Z).

(** A range is contained in another one; [None] is no bound. *)
Definition range_le b e b' e' : Prop :=
  (forall x', b' = Some x' -> exists x, b = Some x /\ ~ lt_key x x') /\
  (forall y', e' = Some y' -> exists y, e = Some y /\ ~ lt_key y' y).

(** The range of a file lies inside. *)
Definition inside b e f : Prop :=
  (forall x, b = Some x -> ~ lt_key (ukey (smallest f)) x) /\ (forall y, e = Some y -> ~ lt_key y (ukey (largest f))).

(** A range that holds every file it overlaps. *)
Definition closed (files : list file) b e : Prop := forall f, f ∈ files -> overlaps b e f -> inside b e f.

Lemma range_le_refl b e : range_le b e b e.
Proof. split; intros x ->; exists x; split; try done; apply lt_key_irrefl. Qed.

Lemma range_le_trans b1 e1 b2 e2 b3 e3 : range_le b1 e1 b2 e2 -> range_le b2 e2 b3 e3 -> range_le b1 e1 b3 e3.
Proof.
  intros [Hb12 He12] [Hb23 He23]. split.
  - intros x3 Hx3. destruct (Hb23 x3 Hx3) as (x2 & Hx2 & H23). destruct (Hb12 x2 Hx2) as (x1 & Hx1 & H12).
    exists x1. split; [done|]. by eapply le_key_trans.
  - intros y3 Hy3. destruct (He23 y3 Hy3) as (y2 & Hy2 & H23). destruct (He12 y2 Hy2) as (y1 & Hy1 & H12).
    exists y1. split; [done|]. by eapply le_key_trans.
Qed.

Lemma overlaps_le b e b' e' f : range_le b e b' e' -> overlaps b e f -> overlaps b' e' f.
Proof.
  intros [Hb He] [Hof Hol]. split.
  - intros x' Hx'. destruct (Hb x' Hx') as (x & -> & Hle). specialize (Hof x eq_refl). by eapply le_key_trans.
  - intros y' Hy'. destruct (He y' Hy') as (y & -> & Hle). specialize (Hol y eq_refl). by eapply le_key_trans.
Qed.

(** The tests of the loop. *)
Lemma before_test b f : from_option (fun x => Compare (ukey (largest f)) x <? 0) false b =
  negb (bool_decide (overlaps b None f)).
Proof.
  destruct b as [x|]; [|by rewrite bool_decide_true]. cbn [from_option]. apply eq_bool_iff.
  rewrite Z.ltb_lt, negb_true_iff, bool_decide_eq_false. fold (lt_key (ukey (largest f)) x).
  unfold overlaps. destruct (decide (lt_key (ukey (largest f)) x)); naive_solver.
Qed.

Lemma after_test e f : from_option (fun y => 0 <? Compare (ukey (smallest f)) y) false e =
  negb (bool_decide (overlaps None e f)).
Proof.
  destruct e as [y|]; [|by rewrite bool_decide_true]. cbn [from_option]. apply eq_bool_iff.
  rewrite Z.ltb_lt, Compare_gt, negb_true_iff, bool_decide_eq_false.
  unfold overlaps. destruct (decide (lt_key y (ukey (smallest f)))); naive_solver.
Qed.

(** Above level 0 the files that overlap the range are collected. *)
Lemma overlap_loop_other fuel files rest b e inputs : Forall valid_file rest -> (length rest <= fuel)%nat ->
  overlap_loop fuel false files rest b e inputs = Some (inputs ++ filter (overlaps b e) rest).
Proof.
  intros Hv. revert fuel inputs. induction Hv as [|f rest Hf _ IH]; intros fuel inputs Hfuel.
  { destruct fuel; cbn [overlap_loop]; by rewrite app_nil_r. }
  destruct fuel as [|fuel]; [simpl in Hfuel; lia|]. cbn [overlap_loop]. destruct Hf as (Hs & Hl & _).
  rewrite !valid_key_user by done. cbn [mbind option_bind]. rewrite before_test, after_test. cbn [andb].
  rewrite filter_cons. pose proof (overlaps_split b e f). simpl in Hfuel.
  destruct (decide (overlaps b None f)) as [Hb|Hb].
  - rewrite bool_decide_true by done. cbn [negb]. destruct (decide (overlaps None e f)) as [He|He].
    + rewrite bool_decide_true, decide_True by tauto. cbn [negb]. rewrite IH by lia. by rewrite <- app_assoc.
    + rewrite bool_decide_false, decide_False by tauto. cbn [negb]. apply IH. lia.
  - rewrite bool_decide_false, decide_False by tauto. cbn [negb]. apply IH. lia.
Qed.

(** ** The search that starts again *)

(** The files that can still move a bound. *)
Definition moves_begin b f : Prop := exists x, b = Some x /\ lt_key (ukey (smallest f)) x.
Definition moves_end e f : Prop := exists y, e = Some y /\ lt_key y (ukey (largest f)).

#[local] Instance moves_begin_dec b f : Decision (moves_begin b f).
Proof. unfold moves_begin. destruct b as [x|]; [|right; naive_solver]. destruct (decide (lt_key (ukey (smallest f)) x)); [left|right]; naive_solver. Defined.

#[local] Instance moves_end_dec e f : Decision (moves_end e f).
Proof. unfold moves_end. destruct e as [y|]; [|right; naive_solver]. destruct (decide (lt_key y (ukey (largest f)))); [left|right]; naive_solver. Defined.

Definition measure (files : list file) b e : nat :=
  (length (filter (moves_begin b) files) + length (filter (moves_end e) files))%nat.

Lemma begin_test b f : from_option (fun x => Compare (ukey (smallest f)) x <? 0) false b = bool_decide (moves_begin b f).
Proof.
  destruct b as [x|]; [|by rewrite bool_decide_false by by intros (? & [=] & _)]. cbn [from_option]. apply eq_bool_iff.
  rewrite Z.ltb_lt, bool_decide_eq_true. fold (lt_key (ukey (smallest f)) x). unfold moves_begin. naive_solver.
Qed.

Lemma end_test e f : from_option (fun y => 0 <? Compare (ukey (largest f)) y) false e = bool_decide (moves_end e f).
Proof.
  destruct e as [y|]; [|by rewrite bool_decide_false by by intros (? & [=] & _)]. cbn [from_option]. apply eq_bool_iff.
  rewrite Z.ltb_lt, Compare_gt, bool_decide_eq_true. unfold moves_end. naive_solver.
Qed.

Lemma inside_iff b e f : inside b e f <-> ~ moves_begin b f /\ ~ moves_end e f.
Proof. unfold inside, moves_begin, moves_end. naive_solver. Qed.

Lemma measure_begin files b e f : f ∈ files -> moves_begin b f ->
  (measure files (Some (ukey (smallest f))) e < measure files b e)%nat.
Proof.
  intros Hf (x & -> & Hlt). unfold measure.
  assert (length (filter (moves_begin (Some (ukey (smallest f)))) files) < length (filter (moves_begin (Some x)) files))%nat; [|lia].
  apply (filter_length_lt _ _ _ f); [|done|by exists x|].
  - intros g (y & [= <-] & Hg). exists x. split; [done|]. by eapply lt_key_trans.
  - intros (y & [= <-] & Hg). by apply lt_key_irrefl in Hg.
Qed.

Lemma measure_end files b e f : f ∈ files -> moves_end e f ->
  (measure files b (Some (ukey (largest f))) < measure files b e)%nat.
Proof.
  intros Hf (y & -> & Hlt). unfold measure.
  assert (length (filter (moves_end (Some (ukey (largest f)))) files) < length (filter (moves_end (Some y)) files))%nat; [|lia].
  apply (filter_length_lt _ _ _ f); [|done|by exists y|].
  - intros g (x & [= <-] & Hg). exists y. split; [done|]. by eapply lt_key_trans.
  - intros (x & [= <-] & Hg). by apply lt_key_irrefl in Hg.
Qed.

(** The least closed range around [b], [e]. *)
Definition closure files b e b' e' : Prop :=
  range_le b e b' e' /\ closed files b' e' /\
  forall b2 e2, range_le b e b2 e2 -> closed files b2 e2 -> range_le b' e' b2 e2.

(** A file that overlaps the range belongs to every closed range around it. *)
Lemma closure_begin files b e f b' e' : f ∈ files -> overlaps b e f -> moves_begin b f ->
  closure files (Some (ukey (smallest f))) e b' e' -> closure files b e b' e'.
Proof.
  intros Hf Ho (x & -> & Hlt) (Hle & Hc & Hleast). split; [|split; [done|]].
  - eapply range_le_trans; [|exact Hle]. split.
    + intros x' [= <-]. exists x. split; [done|]. intros Hx. by apply lt_key_asym in Hlt.
    + intros y' ->. exists y'. split; [done|apply lt_key_irrefl].
  - intros b2 e2 Hle2 Hc2. apply Hleast; [|done]. destruct (Hc2 f Hf (overlaps_le _ _ _ _ _ Hle2 Ho)) as [Hin _].
    destruct Hle2 as [_ He2]. split; [|done]. intros x2 ->. exists (ukey (smallest f)). split; [done|]. by apply Hin.
Qed.

Lemma closure_end files b e f b' e' : f ∈ files -> overlaps b e f -> moves_end e f ->
  closure files b (Some (ukey (largest f))) b' e' -> closure files b e b' e'.
Proof.
  intros Hf Ho (y & -> & Hlt) (Hle & Hc & Hleast). split; [|split; [done|]].
  - eapply range_le_trans; [|exact Hle]. split.
    + intros x' ->. exists x'. split; [done|apply lt_key_irrefl].
    + intros y' [= <-]. exists y. split; [done|]. intros Hy. by apply lt_key_asym in Hlt.
  - intros b2 e2 Hle2 Hc2. apply Hleast; [|done]. destruct (Hc2 f Hf (overlaps_le _ _ _ _ _ Hle2 Ho)) as [_ Hin].
    destruct Hle2 as [Hb2 _]. split; [done|]. intros y2 ->. exists (ukey (largest f)). split; [done|]. by apply Hin.
Qed.

Lemma closure_self files b e : closed files b e -> closure files b e b e.
Proof. intros Hc. split; [apply range_le_refl|by split]. Qed.

Lemma overlap_loop_zero files : Forall valid_file files -> forall fuel rest passed b e,
  files = passed ++ rest -> (forall f, f ∈ passed -> overlaps b e f -> inside b e f) ->
  (measure files b e * S (length files) + length rest <= fuel)%nat ->
  exists b' e', overlap_loop fuel true files rest b e (filter (overlaps b e) passed) = Some (filter (overlaps b' e') files) /\
    closure files b e b' e'.
Proof.
  intros Hv. induction fuel as [|fuel IH]; intros rest passed b e Hfiles Hin Hfuel.
  { destruct rest as [|f rest]; [|simpl in Hfuel; lia]. cbn [overlap_loop]. rewrite app_nil_r in Hfiles. subst passed.
    exists b, e. split; [done|]. by apply closure_self. }
  destruct rest as [|f rest]; cbn [overlap_loop].
  { rewrite app_nil_r in Hfiles. subst passed. exists b, e. split; [done|]. by apply closure_self. }
  assert (f ∈ files) as Hf by (rewrite Hfiles; apply elem_of_app; right; left).
  rewrite list.Forall_forall in Hv. destruct (Hv f Hf) as (Hs & Hl & _).
  rewrite !valid_key_user by done. cbn [mbind option_bind]. rewrite before_test, after_test, begin_test, end_test. cbn [andb].
  assert (forall g, g ∈ passed ++ [f] -> g ∈ passed \/ g = f) as Hsnoc.
  { intros g [Hg|Hg%list_elem_of_singleton]%elem_of_app; [by left|by right]. }
  assert (~ overlaps b e f -> exists b' e', overlap_loop fuel true files rest b e (filter (overlaps b e) passed) =
    Some (filter (overlaps b' e') files) /\ closure files b e b' e') as Hskip.
  { intros Hno. destruct (IH rest (passed ++ [f]) b e) as (b' & e' & E & Hc).
    - by rewrite <- app_assoc.
    - intros g Hg Ho. destruct (Hsnoc g Hg) as [| ->]; [by apply Hin|done].
    - simpl in Hfuel. lia.
    - exists b', e'. rewrite list.filter_app, filter_cons, decide_False, app_nil_r in E by done. by split. }
  pose proof (overlaps_split b e f) as Hsplit.
  destruct (decide (overlaps b None f)) as [Hob|Hob]; [|rewrite bool_decide_false by done; apply Hskip; tauto].
  rewrite bool_decide_true by done. cbn [negb].
  destruct (decide (overlaps None e f)) as [Hoe|Hoe]; [|rewrite bool_decide_false by done; apply Hskip; tauto].
  rewrite bool_decide_true by done. cbn [negb]. assert (overlaps b e f) as Ho by tauto.
  assert (length rest < length files)%nat as Hrest by (rewrite Hfiles, length_app; simpl; lia).
  destruct (decide (moves_begin b f)) as [Hmb|Hmb].
  - rewrite bool_decide_true by done. pose proof (measure_begin files b e f Hf Hmb) as Hm.
    destruct (IH files [] (Some (ukey (smallest f))) e) as (b' & e' & E & Hc); [done|by intros g ?%elem_of_nil| |].
    { simpl in Hfuel. nia. }
    exists b', e'. split; [exact E|]. by eapply closure_begin.
  - rewrite bool_decide_false by done. destruct (decide (moves_end e f)) as [Hme|Hme].
    + rewrite bool_decide_true by done. pose proof (measure_end files b e f Hf Hme) as Hm.
      destruct (IH files [] b (Some (ukey (largest f)))) as (b' & e' & E & Hc); [done|by intros g ?%elem_of_nil| |].
      { simpl in Hfuel. nia. }
      exists b', e'. split; [exact E|]. by eapply closure_end.
    + rewrite bool_decide_false by done. destruct (IH rest (passed ++ [f]) b e) as (b' & e' & E & Hc).
      * by rewrite <- app_assoc.
      * intros g Hg Hog. destruct (Hsnoc g Hg) as [| ->]; [by apply Hin|by apply inside_iff].
      * simpl in Hfuel. lia.
      * exists b', e'. rewrite list.filter_app, filter_cons, decide_True in E by done. by split.
Qed.

Lemma measure_bound files b e : (measure files b e <= 2 * length files)%nat.
Proof. unfold measure. pose proof (length_filter (moves_begin b) files). pose proof (length_filter (moves_end e) files). lia. Qed.

(** ** The operation *)

(** Valid files at every level, sorted and disjoint above level 0. *)
Definition levels_ok (v : Version) : Prop := length (files_ v) = Z.to_nat kNumLevels /\
  forall level files, files_ v !! level = Some files -> Forall valid_file files /\ ((0 < level)%nat -> level_files files).

Definition valid_bound (k : option (list Z)) : Prop := forall x, k = Some x -> valid_key x.

Lemma overlapping_inputs v level files begin end_ : levels_ok v -> files_ v !! level = Some files ->
  valid_bound begin -> valid_bound end_ ->
  exists b e, GetOverlappingInputs v level begin end_ = Some (filter (overlaps b e) files) /\
    if (level =? 0)%nat then closure files (ukey <$> begin) (ukey <$> end_) b e else b = ukey <$> begin /\ e = ukey <$> end_.
Proof.
  intros [_ Hv] Hf Hb He. destruct (Hv _ _ Hf) as [Hvalid Hsorted]. unfold GetOverlappingInputs, level_at. rewrite Hf.
  assert (forall k, valid_bound k -> match k with None => Some None | Some x => y ← InternalKey_user_key x; Some (Some y) end =
    Some (ukey <$> k)) as Hbound.
  { intros [x|] Hk; [|done]. by rewrite valid_key_user by by apply Hk. }
  cbn [mbind option_bind]. rewrite !Hbound by done. cbn [mbind option_bind]. destruct (level =? 0)%nat.
  - apply (overlap_loop_zero files Hvalid _ files []); [done|by intros f ?%elem_of_nil|].
    pose proof (measure_bound files (ukey <$> begin) (ukey <$> end_)). unfold overlap_fuel. nia.
  - eexists _, _. split; [|done]. rewrite overlap_loop_other by (done || (unfold overlap_fuel; lia)). done.
Qed.

(** C26 (termination): the collection of the files that overlap a range always ends. Above
    level 0 it gives the files that overlap the range of user keys; at level 0,
    where a file found may widen the range and start the search again, it gives the
    files that overlap the least range around the given one that no file of the
    level crosses. *)
Theorem overlapping_inputs_closure v level files begin end_ : levels_ok v -> files_ v !! level = Some files ->
  valid_bound begin -> valid_bound end_ ->
  exists b e, GetOverlappingInputs v level begin end_ = Some (filter (overlaps b e) files) /\
    if (level =? 0)%nat then closure files (ukey <$> begin) (ukey <$> end_) b e else b = ukey <$> begin /\ e = ukey <$> end_.
Proof. apply overlapping_inputs. Qed.

(** ** Placing a new table *)

Lemma levels_lookup v level : levels_ok v -> (level < Z.to_nat kNumLevels)%nat -> exists files, files_ v !! level = Some files.
Proof. intros [Hlen _] Hl. apply lookup_lt_is_Some. by rewrite Hlen. Qed.

Lemma append_valid u s t : 0 <= s <= kMaxSequenceNumber -> valid_key (AppendInternalKey [] (ParsedKey u s t)).
Proof. intros Hs. eexists. split; [by apply AppendInternalKey_parses|]. apply Hs. Qed.

Lemma OverlapInLevel_ok v level files lo hi : levels_ok v -> files_ v !! level = Some files ->
  OverlapInLevel v level lo hi = Some (bool_decide (Exists (overlaps lo hi) files)).
Proof.
  intros [_ Hv] Hf. destruct (Hv _ _ Hf) as [Hvalid Hs]. unfold OverlapInLevel, level_at. rewrite Hf. cbn [mbind option_bind].
  destruct level as [|level]; [by apply overlaps_any_ok|]. apply SomeFileOverlapsRange_sorted, Hs. lia.
Qed.

Definition free_to (v : Version) (lo hi : list Z) (level : nat) : Prop :=
  forall l files f, (l <= level)%nat -> files_ v !! l = Some files -> f ∈ files -> ~ overlaps (Some lo) (Some hi) f.

Lemma pick_level_ok fuel size v lo hi start limit level : levels_ok v -> valid_key start -> valid_key limit ->
  (level + fuel = kMaxMemCompactLevel)%nat -> free_to v lo hi level ->
  exists r, pick_level_loop fuel size v lo hi start limit level = Some r /\ (r <= kMaxMemCompactLevel)%nat /\ free_to v lo hi r.
Proof.
  intros Hv Hs Hl. revert level. induction fuel as [|fuel IH]; intros level Hf Hfree; cbn [pick_level_loop].
  { exists level. split_and!; [done|lia|done]. }
  destruct (levels_lookup v (level + 1) Hv) as [files Hfiles].
  { unfold kMaxMemCompactLevel, kNumLevels in *. lia. }
  rewrite (OverlapInLevel_ok v _ files) by done. cbn [mbind option_bind]. case_bool_decide as Ho.
  { exists level. split_and!; [done|lia|done]. }
  assert (free_to v lo hi (S level)) as Hfree'.
  { intros l files' f Hle Hl' Hf' Hov. destruct (decide (l = level + 1)%nat) as [->|].
    - rewrite Hfiles in Hl'. injection Hl' as <-. apply Ho, list.Exists_exists. by exists f.
    - by apply (Hfree l files' f ltac:(lia)). }
  destruct (IH (S level) ltac:(lia) Hfree') as (r & Hr & Hle & Hrf). destruct (_ <? kNumLevels); [|by exists r].
  destruct (levels_lookup v (level + 2) Hv) as [files2 Hfiles2].
  { unfold kMaxMemCompactLevel, kNumLevels in *. lia. }
  destruct (overlapping_inputs v (level + 2) files2 (Some start) (Some limit)) as (b & e & -> & _);
    [done|done|by intros x [= <-]..|]. cbn [mbind option_bind].
  destruct (_ <? _); [exists level; split_and!; [done|lia|done]|]. by exists r.
Qed.

(** The output of a memtable, whose entries are the newest of all, goes to a
    level of at most 2, and below level 0 only when no file of that level or of a
    level above it has a user key of its range. *)
Theorem memtable_level_safe size v lo hi : levels_ok v ->
  exists level, PickLevelForMemTableOutput size v lo hi = Some level /\ (level <= kMaxMemCompactLevel)%nat /\
    ((0 < level)%nat -> free_to v lo hi level).
Proof.
  intros Hv. unfold PickLevelForMemTableOutput. destruct (levels_lookup v 0 Hv) as [files Hfiles].
  { unfold kNumLevels. lia. }
  rewrite (OverlapInLevel_ok v _ files) by done. cbn [mbind option_bind]. case_bool_decide as Ho.
  { exists 0%nat. split_and!; [done|lia|lia]. }
  destruct (pick_level_ok kMaxMemCompactLevel size v lo hi
    (AppendInternalKey [] (ParsedKey lo kMaxSequenceNumber kValueTypeForSeek))
    (AppendInternalKey [] (ParsedKey hi 0 kTypeDeletion)) 0) as (r & -> & Hle & Hfree); try done.
  - apply append_valid. unfold kMaxSequenceNumber. lia.
  - apply append_valid. unfold kMaxSequenceNumber. lia.
  - intros l files' f Hle Hl Hf Hov. assert (l = 0)%nat as -> by lia. rewrite Hfiles in Hl. injection Hl as <-.
    apply Ho, list.Exists_exists. by exists f.
  - by exists r.
Qed.
End overlap.

(** ** Levels that overlap

    At level 0 the second file continues the first and the third the second; the
    level of [VersionFiles.v] is level 2. *)

Section demo.
#[local] Existing Instances by_bytes by_bytes_laws reference_coding reference_coding_laws reference_format
  reference_format_laws reference_icmp reference_icmp_laws.

Definition overlapping_level : list file :=
  [demo_file 31 100 2 40 3 41; demo_file 32 100 6 42 7 43; demo_file 33 100 3 44 6 45; demo_file 34 100 9 46 9 46].

Definition levels_version : Version :=
  version_of ([overlapping_level; []; demo_level] ++ replicate 4 []).

(** Only the first file overlaps the key 2; the third widens the range to 6, and then
    the second to 7. *)
Example demo_closure :
  ((i ← GetOverlappingInputs levels_version 0 (Some (ikey 2 1)) (Some (ikey 2 1)); Some (map address i)),
   (i ← GetOverlappingInputs levels_version 2 (Some (ikey 3 1)) (Some (ikey 4 1)); Some (map address i)),
   PickLevelForMemTableOutput 1000 levels_version [10] [11], PickLevelForMemTableOutput 1000 levels_version [8] [8],
   PickLevelForMemTableOutput 1000 levels_version [2] [2]) =
  (Some [31; 32; 33]%positive, Some [8]%positive, Some 2%nat, Some 1%nat, Some 0%nat).
Proof. vm_compute. reflexivity. Qed.

Lemma level_valid_demo : levels_ok levels_version.
Proof.
  split; [reflexivity|]. intros [|[|[|level]]] files Hl.
  - injection Hl as <-. split; [|lia]. repeat apply List.Forall_cons; try apply List.Forall_nil; apply demo_file_valid; by_compute.
  - injection Hl as <-. split; [by apply List.Forall_nil|]. intros _. split; [by apply List.Forall_nil|apply SSorted_nil|done].
  - injection Hl as <-. split; [apply (lf_valid _ demo_level_files)|]. intros _. exact demo_level_files.
  - assert (files = []) as -> by (apply (elem_of_replicate_inv _ 4), (list_elem_of_lookup_2 _ level); exact Hl).
    split; [by apply List.Forall_nil|]. intros _. split; [by apply List.Forall_nil|apply SSorted_nil|done].
Qed.

Lemma overlapping_inputs_closure_witness : exists b e,
  GetOverlappingInputs levels_version 0 (Some (ikey 2 1)) (Some (ikey 2 1)) = Some (filter (overlaps b e) overlapping_level) /\
  closure overlapping_level (Some [2]) (Some [2]) b e.
Proof.
  apply (overlapping_inputs_closure levels_version 0 overlapping_level (Some (ikey 2 1)) (Some (ikey 2 1))
    level_valid_demo eq_refl); intros x Hx; injection Hx as <-; apply valid_ikey; by_compute.
Defined.

Lemma memtable_level_safe_witness : exists level, PickLevelForMemTableOutput 1000 levels_version [10] [11] = Some level /\
  (level <= kMaxMemCompactLevel)%nat /\ ((0 < level)%nat -> free_to levels_version [10] [11] level).
Proof. exact (memtable_level_safe 1000 levels_version [10] [11] level_valid_demo). Defined.
End demo.
