(* ===== verification/CompactionSafe.v ===== *)
(** * What a compaction leaves behind ([leveldb-library/db/version_set.cc])

    The files of a level that a compaction leaves behind hold no entry that is older
    than an entry of the same user key among its inputs, and the files of the next
    level that it leaves share no user key with its inputs of the level. The last
    section shows where the next level is not treated with the same care. *)

From Stdlib Require Import String Sorting.Sorted.
From stdpp Require Import base list sorting gmap.
From S2P Require Import Prelude Doubles Cursor Coding DbFormat VersionEdit VersionFiles VersionState Compaction CompactionProps.

#[local] Open Scope Z_scope.

Section inputs.
Context `{ComparatorLaws} `{CodingLaws} `{!InternalKeyFormat, !InternalKeyFormatLaws}.
Context `{!InternalComparator, !InternalComparatorLaws}.
Implicit Types f g fs fl : file.

Lemma valid_keys_compare a b : valid_key a -> valid_key b -> ICompare_keys a b = Some (ICompare a b).
Proof.
  intros Ha Hb. apply ICompare_keys_ok; intros ->; [apply valid_key_length in Ha|apply valid_key_length in Hb]; simpl in *; lia.
Qed.

(** ** Ranges *)

Lemma range_loop_ok inputs fs fl : Forall valid_file inputs -> valid_file fs -> valid_file fl ->
  exists fs' fl', range_loop inputs (smallest fs) (largest fl) = Some (smallest fs', largest fl') /\
    (fs' = fs \/ fs' ∈ inputs) /\ (fl' = fl \/ fl' ∈ inputs) /\
    ~ internal_lt (smallest fs) (smallest fs') /\ ~ internal_lt (largest fl') (largest fl) /\
    forall g, g ∈ inputs -> ~ internal_lt (smallest g) (smallest fs') /\ ~ internal_lt (largest fl') (largest g).
Proof.
  intros Hv. revert fs fl. induction Hv as [|f inputs Hf _ IH]; intros fs fl Hfs Hfl; cbn [range_loop].
  { exists fs, fl. split; [done|]. split_and!; try (by left); try apply internal_lt_irrefl. by intros g ?%elem_of_nil. }
  rewrite !valid_keys_compare by (apply Hf || apply Hfs || apply Hfl). cbn [mbind option_bind].
  set (fs1 := if ICompare (smallest f) (smallest fs) <? 0 then f else fs).
  set (fl1 := if 0 <? ICompare (largest f) (largest fl) then f else fl).
  assert (valid_file fs1 /\ valid_file fl1) as [Hfs1 Hfl1] by (unfold fs1, fl1; split; by case_match).
  destruct (IH fs1 fl1 Hfs1 Hfl1) as (fs' & fl' & E & Hs & Hl & Hs1 & Hl1 & Hall).
  exists fs', fl'. split.
  { rewrite <- E. f_equal; unfold fs1, fl1; by case_match. }
  assert (~ internal_lt (smallest fs) (smallest fs1) /\ ~ internal_lt (smallest f) (smallest fs1)) as [Ha1 Ha2].
  { unfold fs1. destruct (Z.ltb_spec (ICompare (smallest f) (smallest fs)) 0) as [Hlt|Hge].
    - apply ICompare_lt in Hlt. split; [by apply internal_lt_asym|apply internal_lt_irrefl].
    - split; [apply internal_lt_irrefl|]. intros Hlt%ICompare_lt. lia. }
  assert (~ internal_lt (largest fl1) (largest fl) /\ ~ internal_lt (largest fl1) (largest f)) as [Hb1 Hb2].
  { unfold fl1. destruct (Z.ltb_spec 0 (ICompare (largest f) (largest fl))) as [Hlt|Hge].
    - apply ICompare_gt in Hlt. split; [by apply internal_lt_asym|apply internal_lt_irrefl].
    - split; [apply internal_lt_irrefl|]. intros Hlt%ICompare_gt. lia. }
  assert (forall a b d, ~ internal_lt a b -> ~ internal_lt b d -> ~ internal_lt a d) as Htrans.
  { intros a b d Hab Hbd Had. apply Hbd. eapply internal_le_lt_trans; [exact Hab|done]. }
  split_and!.
  - destruct Hs as [->|Hs]; [|right; by right]. unfold fs1. case_match; [right; left|by left].
  - destruct Hl as [->|Hl]; [|right; by right]. unfold fl1. case_match; [right; left|by left].
  - by apply Htrans with (smallest fs1).
  - by apply Htrans with (largest fl1).
  - intros g [->|Hg]%elem_of_cons; [|by apply Hall]. split; [by apply Htrans with (smallest fs1)|by apply Htrans with (largest fl1)].
Qed.

Lemma GetRange_ok inputs : Forall valid_file inputs -> inputs <> [] ->
  exists fs fl, GetRange inputs = Some (smallest fs, largest fl) /\ fs ∈ inputs /\ fl ∈ inputs /\
    forall g, g ∈ inputs -> ~ internal_lt (smallest g) (smallest fs) /\ ~ internal_lt (largest fl) (largest g).
Proof.
  intros Hv Hne. destruct inputs as [|f inputs]; [done|]. apply Forall_cons_1 in Hv as [Hf Hv].
  destruct (range_loop_ok inputs f f Hv Hf Hf) as (fs & fl & E & Hs & Hl & Hs1 & Hl1 & Hall).
  exists fs, fl. split; [exact E|]. split; [destruct Hs as [->|]; [left|by right]|].
  split; [destruct Hl as [->|]; [left|by right]|]. intros g [->|Hg]%elem_of_cons; [by split|by apply Hall].
Qed.

Lemma largest_loop_ok files f : Forall valid_file files -> valid_file f ->
  exists f', largest_loop files (largest f) = Some (largest f') /\ (f' = f \/ f' ∈ files) /\
    ~ internal_lt (largest f') (largest f) /\ forall g, g ∈ files -> ~ internal_lt (largest f') (largest g).
Proof.
  intros Hv Hf. destruct (range_loop_ok files f f Hv Hf Hf) as (fs & fl & E & _ & Hl & _ & Hl1 & Hall).
  exists fl. split; [|split; [done|split; [done|]]]; [|intros g Hg; by apply Hall].
  clear Hl Hl1 Hall. revert E. generalize (smallest f) at 1. generalize (largest f) at 1 2.
  induction files as [|g files IH]; intros l s; cbn [range_loop largest_loop]; [by intros [= _ <-]|].
  destruct (ICompare_keys (smallest g) s); [|done]. cbn [mbind option_bind].
  destruct (ICompare_keys (largest g) l); [|done]. cbn [mbind option_bind]. apply IH. by apply Forall_cons_1 in Hv as [_ ?].
Qed.

Lemma FindLargestKey_ok inputs : Forall valid_file inputs -> inputs <> [] ->
  exists f, FindLargestKey inputs = Some (Some (largest f)) /\ f ∈ inputs /\ forall g, g ∈ inputs -> ~ internal_lt (largest f) (largest g).
Proof.
  intros Hv Hne. destruct inputs as [|f inputs]; [done|]. apply Forall_cons_1 in Hv as [Hf Hv].
  destruct (largest_loop_ok inputs f Hv Hf) as (f' & E & Hin & Hle & Hall). exists f'. unfold FindLargestKey. rewrite E.
  split; [done|]. split; [destruct Hin as [->|]; [left|by right]|]. intros g [->|Hg]%elem_of_cons; [done|by apply Hall].
Qed.

(** ** Boundary files *)

Definition boundary (k : list Z) f : Prop := internal_lt k (smallest f) /\ ukey (smallest f) = ukey k.

Definition smallest_boundary (files : list file) (k : list Z) f : Prop :=
  f ∈ files /\ boundary k f /\ forall g, g ∈ files -> boundary k g -> ~ internal_lt (smallest g) (smallest f).

Lemma boundary_loop_ok passed files k best : Forall valid_file files -> valid_key k ->
  match best with None => forall g, g ∈ passed -> ~ boundary k g | Some b => valid_file b /\ smallest_boundary passed k b end ->
  exists r, boundary_loop files k best = Some r /\
    match r with
    | None => forall g, g ∈ passed ++ files -> ~ boundary k g
    | Some f => smallest_boundary (passed ++ files) k f
    end.
Proof.
  intros Hv Hk. revert passed best. induction Hv as [|f files Hf _ IH]; intros passed best Hbest; cbn [boundary_loop].
  { exists best. split; [done|]. rewrite app_nil_r. by destruct best as [b|]; [destruct Hbest|]. }
  rewrite valid_keys_compare by (done || apply Hf). rewrite !valid_key_user by (done || apply Hf). cbn [mbind option_bind].
  assert ((if 0 <? ICompare (smallest f) k then Some (Compare (ukey (smallest f)) (ukey k) =? 0) else Some false) =
    Some (bool_decide (internal_lt k (smallest f)) && bool_decide (ukey (smallest f) = ukey k))) as ->.
  { destruct (Z.ltb_spec 0 (ICompare (smallest f) k)) as [Hlt|Hge].
    - rewrite (bool_decide_true _ (proj1 (ICompare_gt _ _) Hlt)). cbn [andb]. f_equal. apply eq_bool_iff.
      by rewrite Z.eqb_eq, bool_decide_eq_true, Compare_eq.
    - rewrite bool_decide_false; [done|]. intros Hlt%ICompare_gt. lia. }
  cbn [mbind option_bind]. replace (passed ++ f :: files) with ((passed ++ [f]) ++ files) by by rewrite <- app_assoc.
  assert (forall g, g ∈ passed ++ [f] -> g ∈ passed \/ g = f) as Hsnoc.
  { intros g [Hg|Hg%list_elem_of_singleton]%elem_of_app; [by left|by right]. }
  assert (f ∈ passed ++ [f]) as Hfin by (apply elem_of_app; right; left).
  destruct (bool_decide (internal_lt k (smallest f)) && bool_decide (ukey (smallest f) = ukey k)) eqn:Eb.
  - apply andb_true_iff in Eb as [Hlt%bool_decide_eq_true Hu%bool_decide_eq_true]. destruct best as [b|].
    + destruct Hbest as [Hvb (Hb & Hbb & Hmin)]. rewrite valid_keys_compare by (apply Hf || apply Hvb). cbn [mbind option_bind].
      apply IH. destruct (Z.ltb_spec (ICompare (smallest f) (smallest b)) 0) as [Hc|Hc].
      * apply ICompare_lt in Hc. split; [done|]. split; [done|]. split; [by split|]. intros g Hg Hbg.
        destruct (Hsnoc g Hg) as [Hg'| ->]; [|apply internal_lt_irrefl]. intros Hgf.
        apply (Hmin g Hg' Hbg). by eapply internal_lt_trans.
      * split; [done|]. split; [apply elem_of_app; by left|]. split; [done|]. intros g Hg Hbg.
        destruct (Hsnoc g Hg) as [Hg'| ->]; [by apply Hmin|]. intros Hlt'%ICompare_lt. lia.
    + apply IH. split; [done|]. split; [done|]. split; [by split|]. intros g Hg Hbg.
      destruct (Hsnoc g Hg) as [Hg'| ->]; [by destruct (Hbest g Hg')|apply internal_lt_irrefl].
  - assert (~ boundary k f) as Hnb.
    { intros [Hlt Hu]. by rewrite !bool_decide_true in Eb. }
    apply IH. destruct best as [b|].
    + destruct Hbest as [Hvb (Hb & Hbb & Hmin)]. split; [done|]. split; [apply elem_of_app; by left|]. split; [done|].
      intros g Hg Hbg. destruct (Hsnoc g Hg) as [Hg'| ->]; [by apply Hmin|done].
    + intros g Hg. destruct (Hsnoc g Hg) as [Hg'| ->]; [by apply Hbest|done].
Qed.

Lemma FindSmallestBoundaryFile_ok files k : Forall valid_file files -> valid_key k ->
  exists r, FindSmallestBoundaryFile files k = Some r /\
    match r with None => forall g, g ∈ files -> ~ boundary k g | Some f => smallest_boundary files k f end.
Proof. intros Hv Hk. apply (boundary_loop_ok []); [done|done|]. by intros g ?%elem_of_nil. Qed.

(** The files that are added one after the other, until none continues the last. *)
Fixpoint boundary_chain (files : list file) (k : list Z) (added : list file) : Prop :=
  match added with
  | [] => forall g, g ∈ files -> ~ boundary k g
  | f :: added => smallest_boundary files k f /\ boundary_chain files (largest f) added
  end.

(** Every file added ends after the last key, so that fewer start after it. *)
Lemma add_boundary_loop_ok fuel files k inputs : Forall valid_file files -> valid_key k ->
  (length (filter (fun f => internal_lt k (smallest f)) files) < fuel)%nat ->
  exists added, add_boundary_loop fuel files k inputs = Some (inputs ++ added) /\ boundary_chain files k added.
Proof.
  intros Hv. revert k inputs. induction fuel as [|fuel IH]; intros k inputs Hk Hfuel; [lia|]. cbn [add_boundary_loop].
  destruct (FindSmallestBoundaryFile_ok files k Hv Hk) as (r & -> & Hr). cbn [mbind option_bind]. destruct r as [f|].
  - destruct Hr as (Hf & Hb & Hmin). pose proof Hb as [Hlt _]. assert (valid_file f) as Hvf by (rewrite list.Forall_forall in Hv; by apply Hv).
    destruct (IH (largest f) (inputs ++ [f])) as (added & E & Hc); [apply Hvf| |].
    + assert (length (filter (fun g => internal_lt (largest f) (smallest g)) files) <
        length (filter (fun g => internal_lt k (smallest g)) files))%nat; [|lia].
      apply (filter_length_lt _ _ _ f); [|done|done|apply Hvf].
      intros g Hg. eapply internal_lt_trans; [exact Hlt|]. eapply internal_le_lt_trans; [apply Hvf|done].
    + exists (f :: added). rewrite <- app_assoc in E. by split.
  - exists []. rewrite app_nil_r. by split.
Qed.

Lemma AddBoundaryInputs_ok files inputs f : Forall valid_file files -> valid_file f ->
  FindLargestKey inputs = Some (Some (largest f)) ->
  exists added, AddBoundaryInputs files inputs = Some (inputs ++ added) /\ boundary_chain files (largest f) added.
Proof.
  intros Hv Hf E. unfold AddBoundaryInputs. rewrite E. cbn [mbind option_bind].
  apply add_boundary_loop_ok; [done|apply Hf|]. pose proof (length_filter (fun g => internal_lt (largest f) (smallest g)) files). lia.
Qed.

(** ** In a sorted level the inputs are a segment *)

Lemma disjoint_before l1 l2 f g : disjoint (l1 ++ l2) -> f ∈ l1 -> g ∈ l2 -> internal_lt (largest f) (smallest g).
Proof. intros Hd Hf Hg. by apply (StronglySorted_app_1_elem_of _ _ _ _ _ Hd). Qed.

(** No user key of the inputs goes on after them. *)
Definition ends_key (inputs post : list file) : Prop :=
  forall f g, list.last inputs = Some f -> head post = Some g -> ukey (largest f) <> ukey (smallest g).

Lemma boundary_chain_segment files pre inputs post f added : level_files files ->
  files = pre ++ (inputs ++ [f]) ++ post -> boundary_chain files (largest f) added ->
  exists post', files = pre ++ ((inputs ++ [f]) ++ added) ++ post' /\ ends_key ((inputs ++ [f]) ++ added) post'.
Proof.
  intros Hl. pose proof (lf_valid _ Hl) as Hv. rewrite list.Forall_forall in Hv.
  revert inputs post f. induction added as [|g added IH]; intros inputs post f Hfiles Hc.
  - exists post. rewrite app_nil_r. split; [done|]. intros f' h Hlast Hh. rewrite last_snoc in Hlast. injection Hlast as <-.
    destruct post as [|h' post]; [done|]. injection Hh as ->. intros Hu.
    apply (Hc h); [rewrite Hfiles, !elem_of_app; right; right; left|]. split; [|done].
    pose proof (lf_disjoint _ Hl) as Hd. rewrite Hfiles, (app_assoc pre) in Hd. eapply disjoint_before; [exact Hd| |left].
    rewrite !elem_of_app. right. right. left.
  - destruct Hc as [(Hg & [Hlt Hu] & Hmin) Hc].
    pose proof (lf_disjoint _ Hl) as Hd. rewrite Hfiles, (app_assoc pre), (app_assoc pre) in Hd.
    assert (g ∈ post) as Hpost.
    { rewrite Hfiles, !elem_of_app, list_elem_of_singleton in Hg. destruct (decide (g ∈ post)); [done|]. exfalso.
      assert (g = f \/ internal_lt (largest g) (smallest f)) as [->|Hgf].
      { destruct Hg as [Hg|[[Hg|Hg]|Hg]]; [|..|done]; [right|right|by left];
          (eapply disjoint_before; [apply StronglySorted_app_1_l in Hd; exact Hd| |left]; apply elem_of_app; auto). }
      - destruct (Hv f) as (_ & _ & Hle); [rewrite Hfiles, !elem_of_app, list_elem_of_singleton; auto|done].
      - destruct (Hv g) as (_ & _ & Hle); [rewrite Hfiles, !elem_of_app, list_elem_of_singleton; tauto|].
        destruct (Hv f) as (_ & _ & Hlef); [rewrite Hfiles, !elem_of_app, list_elem_of_singleton; auto|].
        apply Hlef. eapply internal_lt_trans; [exact Hlt|]. by eapply internal_le_lt_trans. }
    destruct post as [|h post]; [by apply elem_of_nil in Hpost|].
    assert (internal_lt (largest f) (smallest h)) as Hfh.
    { eapply disjoint_before; [exact Hd| |left]. rewrite elem_of_app. right. left. }
    assert (g = h) as ->.
    { apply elem_of_cons in Hpost as [|Hpost]; [done|]. exfalso.
      assert (internal_lt (largest h) (smallest g)) as Hhg.
      { apply StronglySorted_app_1_r in Hd. apply (disjoint_before [h] post); [done|left|done]. }
      assert (h ∈ files) as Hh by (rewrite Hfiles, !elem_of_app; right; right; left).
      destruct (Hv h Hh) as (_ & _ & Hleh).
      assert (internal_lt (smallest h) (smallest g)) as Hsg by by eapply internal_le_lt_trans.
      apply (Hmin h Hh); [|done]. split; [done|].
      apply internal_lt_ukey in Hfh, Hsg. rewrite Hu in Hsg. destruct (lt_key_total (ukey (smallest h)) (ukey (largest f))) as [|[|]]; done. }
    destruct (IH (inputs ++ [f]) post h) as (post' & E & He); [by rewrite Hfiles, <- !app_assoc|done|].
    exists post'. rewrite <- !app_assoc in *. by split.
Qed.

(** ** Inputs of a level with all older entries of their keys *)

(** What an operation chooses first: at level 0, the files of a closed range; above
    it, a segment of the level. *)
Definition chosen (level : nat) (files inputs : list file) : Prop :=
  inputs <> [] /\
  if (level =? 0)%nat then exists b e, closed files b e /\ inputs = filter (overlaps b e) files
  else exists pre post, files = pre ++ inputs ++ post.

(** What it compacts in the end. *)
Definition complete (level : nat) (files inputs : list file) : Prop :=
  inputs <> [] /\
  if (level =? 0)%nat then exists b e, closed files b e /\ inputs = filter (overlaps b e) files
  else exists pre post, files = pre ++ inputs ++ post /\ ends_key inputs post.

Definition level_valid (level : nat) (files : list file) : Prop := Forall valid_file files /\ ((0 < level)%nat -> level_files files).

Lemma segment_largest files pre inputs f post : level_files files -> files = pre ++ (inputs ++ [f]) ++ post ->
  FindLargestKey (inputs ++ [f]) = Some (Some (largest f)).
Proof.
  intros Hl Hfiles. pose proof (lf_valid _ Hl) as Hv. rewrite Hfiles in Hv.
  apply Forall_app in Hv as [_ Hv]. apply Forall_app in Hv as [Hv _].
  destruct (FindLargestKey_ok (inputs ++ [f]) Hv) as (g & -> & Hg & Hmax); [by destruct inputs|].
  apply elem_of_app in Hg as [Hg|Hg%list_elem_of_singleton]; [|by rewrite Hg]. exfalso.
  pose proof (disjoint_largest _ (lf_valid _ Hl) (lf_disjoint _ Hl)) as Hs.
  rewrite Hfiles in Hs. apply StronglySorted_app_1_r, StronglySorted_app_1_l in Hs.
  apply (Hmax f); [apply elem_of_app; right; left|].
  eapply (StronglySorted_app_1_elem_of (fun f g => internal_lt (largest f) (largest g))); [exact Hs|done|left].
Qed.

(** At level 0 a boundary file would overlap the range, and be one of the inputs. *)
Lemma closed_no_boundary files b e f : Forall valid_file files -> closed files b e -> f ∈ files -> overlaps b e f ->
  (forall g, g ∈ filter (overlaps b e) files -> ~ internal_lt (largest f) (largest g)) ->
  forall g, g ∈ files -> ~ boundary (largest f) g.
Proof.
  intros Hv Hc Hf Ho Hmax g Hg [Hlt Hu]. rewrite list.Forall_forall in Hv. destruct (Hc f Hf Ho) as [Hin1 Hin2].
  pose proof (valid_file_ukeys f (Hv f Hf)) as Hff. pose proof (valid_file_ukeys g (Hv g Hg)) as Hgg. rewrite Hu in Hgg.
  assert (overlaps b e g) as Hog.
  { split.
    - intros x Hx. eapply le_key_trans; [|exact Hgg]. eapply le_key_trans; [by apply Hin1|done].
    - intros y Hy. rewrite Hu. by apply Hin2. }
  destruct (Hv g Hg) as (_ & _ & Hle). apply (Hmax g); [by apply list_elem_of_filter|].
  eapply internal_lt_le_trans; [exact Hlt|done].
Qed.

Lemma boundary_complete level files inputs : level_valid level files -> chosen level files inputs ->
  exists inputs', AddBoundaryInputs files inputs = Some inputs' /\ complete level files inputs'.
Proof.
  intros [Hv Hl] [Hne Hch]. unfold complete. destruct (Nat.eqb_spec level 0) as [Hz|Hz].
  - destruct Hch as (b & e & Hc & E). pose proof Hne as Hne'. rewrite E in Hne.
    assert (Forall valid_file inputs) as Hvi.
    { rewrite E. rewrite list.Forall_forall in Hv. apply list.Forall_forall. intros g [_ Hg]%list_elem_of_filter. by apply Hv. }
    destruct (FindLargestKey_ok inputs Hvi Hne') as (f & Ef & Hf & Hmax).
    pose proof Hf as Hf'. rewrite E in Hf'. apply list_elem_of_filter in Hf' as [Ho Hff].
    destruct (AddBoundaryInputs_ok files inputs f Hv) as (added & -> & Hadd); [by rewrite list.Forall_forall in Hvi; apply Hvi|done|].
    rewrite E in Hmax. pose proof (closed_no_boundary files b e f Hv Hc Hff Ho Hmax) as Hno.
    destruct added as [|g added]; [|destruct Hadd as [(Hg & Hb & _) _]; by destruct (Hno g Hg)].
    exists inputs. rewrite app_nil_r. split; [done|]. split; [done|]. by exists b, e.
  - destruct Hch as (pre & post & E). specialize (Hl ltac:(lia)). destruct (exists_last Hne) as (ins & f & ->).
    destruct (AddBoundaryInputs_ok files (ins ++ [f]) f Hv) as (added & -> & Hadd).
    { rewrite list.Forall_forall in Hv. apply Hv. rewrite E, !elem_of_app. right. left. right. left. }
    { by eapply segment_largest. }
    destruct (boundary_chain_segment files pre ins post f added Hl E Hadd) as (post' & E' & He).
    eexists. split; [done|]. split; [by destruct ins|]. by exists pre, post'.
Qed.

(** The entries left behind come before those of [f], newer where the user key is the
    same, or have later user keys. *)
Definition left_behind f g : Prop :=
  internal_lt (largest g) (smallest f) \/ lt_key (ukey (largest f)) (ukey (smallest g)).

Lemma complete_left level files inputs f g : level_valid level files -> complete level files inputs ->
  f ∈ inputs -> g ∈ files -> g ∉ inputs -> left_behind f g.
Proof.
  intros [Hv Hl] [Hne Hch] Hf Hg Hng. unfold left_behind. destruct (Nat.eqb_spec level 0) as [Hz|Hz].
  - destruct Hch as (b & e & Hc & ->). apply list_elem_of_filter in Hf as [Ho Hf]. rewrite list_elem_of_filter in Hng.
    destruct (Hc f Hf Ho) as [Hin1 Hin2]. destruct (decide (overlaps b None g)) as [Hb|Hb].
    + right. destruct (decide (overlaps None e g)) as [He|He]; [destruct Hng; split; [by apply overlaps_split|done]|].
      destruct e as [y|]; [|by destruct He; split]. destruct (decide (lt_key y (ukey (smallest g)))) as [Hlt|Hge].
      * eapply le_lt_key_trans; [|exact Hlt]. by apply Hin2.
      * destruct He. split; [done|]. by intros y' [= <-].
    + left. destruct b as [x|]; [|by destruct Hb; split]. destruct (decide (lt_key (ukey (largest g)) x)) as [Hlt|Hge].
      * left. eapply lt_le_key_trans; [exact Hlt|]. by apply Hin1.
      * destruct Hb. split; [|done]. by intros x' [= <-].
  - destruct Hch as (pre & post & E & He). specialize (Hl ltac:(lia)). pose proof (lf_disjoint _ Hl) as Hd.
    rewrite E, !elem_of_app in Hg. destruct Hg as [Hg|[Hg|Hg]]; [|done|].
    + left. rewrite E in Hd. eapply disjoint_before; [exact Hd|done|]. apply elem_of_app. by left.
    + right. destruct (exists_last Hne) as (ins & l & ->). destruct post as [|h post]; [by apply elem_of_nil in Hg|].
      pose proof (He l h (last_snoc _ _) eq_refl) as Hneq. rewrite list.Forall_forall in Hv.
      assert (~ lt_key (ukey (largest l)) (ukey (largest f))) as Hfl.
      { pose proof (disjoint_largest _ (lf_valid _ Hl) Hd) as Hs. rewrite E in Hs.
        apply StronglySorted_app_1_r, StronglySorted_app_1_l in Hs. apply elem_of_app in Hf as [Hf| ->%list_elem_of_singleton]; [|apply lt_key_irrefl].
        apply internal_lt_ukey. apply (StronglySorted_app_1_elem_of _ _ _ _ _ Hs Hf). left. }
      rewrite E in Hd. apply StronglySorted_app_1_r in Hd.
      assert (lt_key (ukey (largest l)) (ukey (smallest h))) as Hlh.
      { assert (internal_lt (largest l) (smallest h)) as Hlh.
        { eapply disjoint_before; [exact Hd|apply elem_of_app; right; left|left]. }
        apply internal_lt_ukey in Hlh. by destruct (lt_key_total (ukey (largest l)) (ukey (smallest h))) as [|[|]]. }
      assert (~ lt_key (ukey (smallest g)) (ukey (smallest h))) as Hhg.
      { apply elem_of_cons in Hg as [->|Hg]; [apply lt_key_irrefl|]. apply StronglySorted_app_1_r in Hd.
        apply internal_lt_ukey. assert (internal_lt (largest h) (smallest g)) as Hlt by (by apply (disjoint_before [h] post); [|left|]).
        destruct (Hv h) as (_ & _ & Hle); [rewrite E, !elem_of_app; right; right; left|]. by eapply internal_le_lt_trans. }
      eapply le_lt_key_trans; [exact Hfl|]. by eapply lt_le_key_trans.
Qed.

(** ** The choice of the inputs *)

Lemma filter_segment files b e : level_files files -> exists pre post, files = pre ++ filter (overlaps b e) files ++ post.
Proof.
  intros Hl. pose proof (disjoint_largest _ (lf_valid _ Hl) (lf_disjoint _ Hl)) as Hs. pose proof (lf_disjoint _ Hl) as Hd.
  pose proof (lf_valid _ Hl) as Hv. rewrite list.Forall_forall in Hv.
  assert (files = filter (fun f => ~ overlaps b None f) files ++ filter (fun f => ~ ~ overlaps b None f) files) as E1.
  { apply filter_split. eapply StronglySorted_impl; [|exact Hs]. intros f g Hfg Hng Hf. apply Hng. split; [|done].
    intros x Hx Hlt. destruct Hf as [Hf _]. apply (Hf x Hx). eapply le_lt_key_trans; [by apply internal_lt_ukey, Hfg|done]. }
  set (rest := filter (fun f => ~ ~ overlaps b None f) files) in *.
  assert (rest = filter (overlaps None e) rest ++ filter (fun f => ~ overlaps None e f) rest) as E2.
  { apply filter_split. apply StronglySorted_app_1_r with (filter (fun f => ~ overlaps b None f) files). rewrite <- E1.
    assert (StronglySorted (fun f g => f ∈ files /\ internal_lt (largest f) (smallest g)) files) as Hd'.
    { clear -Hd. induction Hd as [|f l Hd IH Hf]; constructor.
      - eapply StronglySorted_impl; [|exact IH]. intros g h [Hg Hlt]. split; [by right|done].
      - rewrite list.Forall_forall in Hf |- *. intros g Hg. split; [left|by apply Hf]. }
    eapply StronglySorted_impl; [|exact Hd']. intros f g [Hf Hfg] [_ Hog]. split; [done|]. intros y Hy Hlt.
    apply (Hog y Hy). apply internal_lt_ukey in Hfg. eapply lt_le_key_trans; [exact Hlt|].
    eapply le_key_trans; [apply valid_file_ukeys, Hv, Hf|done]. }
  exists (filter (fun f => ~ overlaps b None f) files), (filter (fun f => ~ overlaps None e f) rest).
  replace (filter (overlaps b e) files) with (filter (overlaps None e) rest); [by rewrite <- E2|].
  transitivity (filter (overlaps b e) (filter (fun f => ~ overlaps b None f) files ++ rest)); [|by rewrite <- E1].
  rewrite list.filter_app, (filter_drops_all (overlaps b e)), app_nil_l.
  - unfold rest. apply filter_ext. intros f [Hf _]%list_elem_of_filter. rewrite (overlaps_split b e).
    split; [|tauto]. intros Ho. split; [|done]. by destruct (decide (overlaps b None f)).
  - intros f [Hf _]%list_elem_of_filter [Ho _]%overlaps_split. done.
Qed.

Lemma levels_valid v level files : levels_ok v -> files_ v !! level = Some files -> level_valid level files.
Proof. intros [_ Hv] Hf. by apply Hv. Qed.

Lemma overlap_chosen v level files begin end_ : levels_ok v -> files_ v !! level = Some files ->
  valid_bound begin -> valid_bound end_ ->
  exists inputs, GetOverlappingInputs v level begin end_ = Some inputs /\ (inputs <> [] -> chosen level files inputs) /\
    ((0 < level)%nat -> inputs = filter (overlaps (ukey <$> begin) (ukey <$> end_)) files) /\
    forall f, f ∈ files -> overlaps (ukey <$> begin) (ukey <$> end_) f -> f ∈ inputs.
Proof.
  intros Hv Hf Hb He. destruct (overlapping_inputs v level files begin end_) as (b & e & -> & Hc); [done..|].
  eexists. split; [done|]. destruct (levels_valid _ _ _ Hv Hf) as [_ Hl].
  unfold chosen. destruct (Nat.eqb_spec level 0) as [Hz|Hz].
  - destruct Hc as (Hle & Hcl & _). split; [intros Hne; split; [done|]; by exists b, e|]. split; [lia|].
    intros f Hff Ho. apply list_elem_of_filter. split; [|done]. by eapply overlaps_le.
  - destruct Hc as [-> ->]. split; [intros Hne; split; [done|]; apply filter_segment, Hl; lia|]. split; [done|].
    intros f Hff Ho. by apply list_elem_of_filter.
Qed.

(** The inputs of the next level: every file that shares a user key with the range. *)
Definition next_inputs (inputs0 files1 inputs1 : list file) : Prop :=
  exists fs fl, GetRange inputs0 = Some (smallest fs, largest fl) /\ fs ∈ inputs0 /\ fl ∈ inputs0 /\
    inputs1 = filter (overlaps (Some (ukey (smallest fs))) (Some (ukey (largest fl)))) files1.

Lemma complete_valid level files inputs : level_valid level files -> complete level files inputs -> Forall valid_file inputs.
Proof.
  intros [Hv _] [_ Hc]. rewrite list.Forall_forall in Hv. apply list.Forall_forall. intros f Hf. apply Hv.
  destruct (level =? 0)%nat; [destruct Hc as (b & e & _ & ->); by apply list_elem_of_filter in Hf as [_ ?]|].
  destruct Hc as (pre & post & -> & _). rewrite !elem_of_app. auto.
Qed.

Lemma valid_bound_some k : valid_key k -> valid_bound (Some k).
Proof. by intros Hk x [= <-]. Qed.

Lemma expand_ok vset level files files1 inputs0 inputs1 largest_ all_start all_limit : let v := current_ vset in
  levels_ok v -> files_ v !! level = Some files -> files_ v !! (level + 1)%nat = Some files1 ->
  complete level files inputs0 -> next_inputs inputs0 files1 inputs1 -> valid_key all_start -> valid_key all_limit ->
  valid_key largest_ ->
  exists i0 i1 l s' l', expand_inputs vset level inputs0 inputs1 largest_ all_start all_limit = Some (i0, i1, l, s', l') /\
    complete level files i0 /\ next_inputs i0 files1 i1 /\ valid_key l /\ valid_key s' /\ valid_key l'.
Proof.
  intros v Hv Hf Hf1 Hc Hn Hs Hl Hlk. unfold expand_inputs. fold v.
  assert (exists i0 i1 l s' l', Some (inputs0, inputs1, largest_, all_start, all_limit) = Some (i0, i1, l, s', l') /\
    complete level files i0 /\ next_inputs i0 files1 i1 /\ valid_key l /\ valid_key s' /\ valid_key l') as Hsame.
  { eexists _, _, _, _, _. split; [done|]. by split_and!. }
  case_bool_decide; [done|]. unfold level_at. rewrite Hf. cbn [mbind option_bind].
  destruct (overlap_chosen v level files (Some all_start) (Some all_limit)) as (e0 & -> & Hch & _);
    [done|done|by apply valid_bound_some..|]. cbn [mbind option_bind].
  pose proof (levels_valid _ _ _ Hv Hf) as Hlv. pose proof (levels_valid _ _ _ Hv Hf1) as Hlv1.
  destruct (decide (e0 = [])) as [->|Hne0]; [done|].
  destruct (boundary_complete level files e0 Hlv (Hch Hne0)) as (x0 & -> & Hx0). cbn [mbind option_bind].
  destruct (_ && _); [|done]. pose proof (complete_valid _ _ _ Hlv Hx0) as Hvx0.
  destruct (GetRange_ok x0 Hvx0 ltac:(apply Hx0)) as (fs & fl & Er & Hfs & Hfl & _). rewrite Er. cbn [mbind option_bind].
  rewrite list.Forall_forall in Hvx0. pose proof (Hvx0 _ Hfs) as Hvs. pose proof (Hvx0 _ Hfl) as Hvl.
  destruct (overlap_chosen v (level + 1) files1 (Some (smallest fs)) (Some (largest fl))) as (x1 & -> & _ & Ex1 & _);
    [done|done|apply valid_bound_some, Hvs|apply valid_bound_some, Hvl|]. cbn [mbind option_bind].
  destruct (_ =? _)%nat; [|done]. unfold GetRange2. specialize (Ex1 ltac:(lia)). cbn [fmap option_fmap option_map] in Ex1.
  assert (Forall valid_file (x0 ++ x1)) as Hvall.
  { apply Forall_app. split; [by apply list.Forall_forall|]. rewrite Ex1. destruct Hlv1 as [Hlv1 _].
    rewrite list.Forall_forall in Hlv1 |- *. intros g [_ Hg]%list_elem_of_filter. by apply Hlv1. }
  destruct (GetRange_ok (x0 ++ x1) Hvall) as (gs & gl & -> & Hgs & Hgl & _).
  { intros Hnil. apply app_nil in Hnil as [-> _]. by apply elem_of_nil in Hfs. }
  cbn [mbind option_bind]. rewrite list.Forall_forall in Hvall. eexists _, _, _, _, _. split; [done|].
  split_and!; [done|by exists fs, fl|apply Hvl|apply (Hvall _ Hgs)|apply (Hvall _ Hgl)].
Qed.

Lemma setup_ok c vset files files1 : let v := current_ vset in levels_ok v ->
  files_ v !! level_ c = Some files -> files_ v !! (level_ c + 1)%nat = Some files1 -> chosen (level_ c) files (inputs_0 c) ->
  exists c' vset', SetupOtherInputs c vset = Some (c', vset') /\ level_ c' = level_ c /\ input_version_ c' = input_version_ c /\
    complete (level_ c) files (inputs_0 c') /\ next_inputs (inputs_0 c') files1 (inputs_1 c').
Proof.
  intros v Hv Hf Hf1 Hch. pose proof (levels_valid _ _ _ Hv Hf) as Hlv. pose proof (levels_valid _ _ _ Hv Hf1) as Hlv1.
  unfold SetupOtherInputs, level_at. fold v. rewrite Hf. cbn [mbind option_bind].
  destruct (boundary_complete (level_ c) files (inputs_0 c) Hlv Hch) as (i0 & -> & Hi0). cbn [mbind option_bind].
  pose proof (complete_valid _ _ _ Hlv Hi0) as Hvi0. destruct (GetRange_ok i0 Hvi0 ltac:(apply Hi0)) as (fs & fl & Er & Hfs & Hfl & _).
  rewrite Er. cbn [mbind option_bind]. pose proof Hvi0 as Hvi0'. rewrite list.Forall_forall in Hvi0'.
  pose proof (Hvi0' _ Hfs) as Hvs. pose proof (Hvi0' _ Hfl) as Hvl.
  destruct (overlap_chosen v (level_ c + 1) files1 (Some (smallest fs)) (Some (largest fl))) as (i1 & -> & _ & Ei1 & _);
    [done|done|apply valid_bound_some, Hvs|apply valid_bound_some, Hvl|]. cbn [mbind option_bind].
  specialize (Ei1 ltac:(lia)). cbn [fmap option_fmap option_map] in Ei1. unfold GetRange2.
  destruct (GetRange_ok (i0 ++ i1)) as (gs & gl & -> & Hgs & Hgl & _).
  { apply Forall_app. split; [done|]. rewrite Ei1. destruct Hlv1 as [Hlv1 _].
    rewrite list.Forall_forall in Hlv1 |- *. intros g [_ Hg]%list_elem_of_filter. by apply Hlv1. }
  { intros Hnil. apply app_nil in Hnil as [-> _]. by apply elem_of_nil in Hfs. }
  cbn [mbind option_bind].
  assert (forall g, g ∈ i0 ++ i1 -> valid_file g) as Hvall.
  { intros g [Hg|Hg]%elem_of_app; [by apply Hvi0'|]. rewrite Ei1 in Hg. apply list_elem_of_filter in Hg as [_ Hg].
    destruct Hlv1 as [Hlv1 _]. rewrite list.Forall_forall in Hlv1. by apply Hlv1. }
  destruct (expand_ok vset (level_ c) files files1 i0 i1 (largest fl) (smallest gs) (largest gl)) as
    (x0 & x1 & l & s' & l' & -> & Hx0 & Hx1 & Hvk & Hs' & Hl'); [done|done|done|done|by exists fs, fl| | |apply Hvl|].
  { apply (Hvall _ Hgs). } { apply (Hvall _ Hgl). }
  cbn [mbind option_bind].
  assert (exists gp, (if Z.of_nat (level_ c) + 2 <? kNumLevels
    then GetOverlappingInputs v (level_ c + 2) (Some s') (Some l') else Some []) = Some gp) as (gp & ->).
  { destruct (Z.ltb_spec (Z.of_nat (level_ c) + 2) kNumLevels) as [Hlt|]; [|by eexists].
    destruct (levels_lookup v (level_ c + 2) Hv) as [files2 Hf2]; [unfold kNumLevels in *; lia|].
    destruct (overlap_chosen v (level_ c + 2) files2 (Some s') (Some l')) as (gp & E & _); [done|done|by apply valid_bound_some..|].
    by exists gp. }
  cbn [mbind option_bind]. rewrite valid_key_encode by done. cbn [mbind option_bind].
  eexists _, _. split; [done|]. by split_and!.
Qed.

(** ** Compactions *)

(** Nothing older than the inputs of the level stays at that level, and nothing of their
    user keys at the next one. Nothing is said about the user keys that only inputs of the next level have. *)
Definition level_keys_whole (v : Version) (c : Compaction) : Prop := exists files files1,
  files_ v !! level_ c = Some files /\ files_ v !! (level_ c + 1)%nat = Some files1 /\
  inputs_0 c <> [] /\ inputs_0 c ⊆ files /\ inputs_1 c ⊆ files1 /\
  (forall f g, f ∈ inputs_0 c -> g ∈ files -> g ∉ inputs_0 c -> left_behind f g) /\
  (forall f g, f ∈ inputs_0 c -> g ∈ files1 -> g ∉ inputs_1 c ->
    lt_key (ukey (largest g)) (ukey (smallest f)) \/ lt_key (ukey (largest f)) (ukey (smallest g))).

Lemma next_inputs_apart inputs0 files1 inputs1 f g : Forall valid_file inputs0 -> next_inputs inputs0 files1 inputs1 ->
  f ∈ inputs0 -> g ∈ files1 -> g ∉ inputs1 ->
  lt_key (ukey (largest g)) (ukey (smallest f)) \/ lt_key (ukey (largest f)) (ukey (smallest g)).
Proof.
  intros Hv (fs & fl & E & Hfs & Hfl & ->) Hf Hg Hng. rewrite list_elem_of_filter in Hng.
  destruct (GetRange_ok inputs0 Hv) as (fs' & fl' & E' & _ & _ & Hall); [intros ->; by apply elem_of_nil in Hf|].
  rewrite E in E'. injection E' as Es El. destruct (Hall f Hf) as [Hs Hl]. rewrite <- Es in Hs. rewrite <- El in Hl.
  assert (~ lt_key (ukey (smallest f)) (ukey (smallest fs))) as Hsu by (intros Hlt; apply Hs; by left).
  assert (~ lt_key (ukey (largest fl)) (ukey (largest f))) as Hlu by (intros Hlt; apply Hl; by left).
  destruct (decide (lt_key (ukey (largest g)) (ukey (smallest fs)))) as [Hlt|Hge]; [left; by eapply lt_le_key_trans|].
  destruct (decide (lt_key (ukey (largest fl)) (ukey (smallest g)))) as [Hlt|Hge']; [right; by eapply le_lt_key_trans|].
  destruct Hng. split; [|done]. split; by intros ? [= <-].
Qed.

Lemma setup_level_keys c vset files : let v := current_ vset in levels_ok v ->
  (level_ c + 1 < Z.to_nat kNumLevels)%nat -> files_ v !! level_ c = Some files -> chosen (level_ c) files (inputs_0 c) ->
  exists c' vset', SetupOtherInputs c vset = Some (c', vset') /\ level_ c' = level_ c /\
    input_version_ c' = input_version_ c /\ level_keys_whole v c'.
Proof.
  intros v Hv Hlt Hf Hch. destruct (levels_lookup v (level_ c + 1) Hv Hlt) as [files1 Hf1].
  destruct (setup_ok c vset files files1 Hv Hf Hf1 Hch) as (c' & vset' & E & Hl & Hiv & Hc & Hn).
  pose proof (levels_valid _ _ _ Hv Hf) as Hlv. exists c', vset'. split; [done|]. split; [done|]. split; [done|].
  exists files, files1. rewrite Hl. split_and!; [done|done|apply Hc| | | |].
  - intros f Hf'. destruct Hc as [_ Hc]. destruct (level_ c =? 0)%nat.
    + destruct Hc as (b & e & _ & E'). rewrite E' in Hf'. by apply list_elem_of_filter in Hf' as [_ ?].
    + destruct Hc as (pre & post & -> & _). rewrite !elem_of_app. auto.
  - destruct Hn as (fs & fl & _ & _ & _ & ->). by intros g [_ ?]%list_elem_of_filter.
  - intros f g. by apply complete_left with (level_ c).
  - intros f g. apply next_inputs_apart; [by eapply complete_valid|done].
Qed.

Lemma cut_inputs_prefix limit total inputs : inputs <> [] -> exists n, cut_inputs limit total inputs = take (S n) inputs.
Proof.
  revert total. induction inputs as [|f inputs IH]; intros total Hne; [done|]. cbn [cut_inputs].
  destruct (limit <=? _); [by exists 0%nat|]. destruct inputs as [|g inputs]; [by exists 0%nat|].
  destruct (IH (wrap 64 (total + file_size f)) ltac:(done)) as [n ->]. by exists (S n).
Qed.

(** The version set names levels and files that exist. *)
Record vset_ok (vset : VersionSet) : Prop := {
  vs_levels : levels_ok (current_ vset);
  vs_pointers : length (compact_pointer_ vset) = Z.to_nat kNumLevels;
  vs_size : size_compaction (current_ vset) = true -> exists level,
    compaction_level_ (current_ vset) = Z.of_nat level /\ (level + 1 < Z.to_nat kNumLevels)%nat /\
    files_ (current_ vset) !! level <> Some [];
  vs_seek f : file_to_compact_ (current_ vset) = Some f -> exists level files,
    file_to_compact_level_ (current_ vset) = Z.of_nat level /\ (level + 1 < Z.to_nat kNumLevels)%nat /\
    files_ (current_ vset) !! level = Some files /\ f ∈ files }.

(** The level that [Finalize] chooses is one that exists and has files. *)
Lemma finalized_vset vset v : current_ vset = Finalize v -> levels_ok v -> loads_ok 0 (files_ v) -> file_to_compact_ v = None ->
  length (compact_pointer_ vset) = Z.to_nat kNumLevels -> vset_ok vset.
Proof.
  intros Hc Hv Hload Hseek Hp. assert (files_ (current_ vset) = files_ v /\ file_to_compact_ (current_ vset) = None) as [Ef En].
  { rewrite Hc. unfold Finalize. by destruct (finalize_loop _ _ _ _). }
  split; [unfold levels_ok in *; by rewrite Ef|done| |by rewrite En].
  rewrite Hc. intros Hs. destruct (Finalize_overfull v (proj1 Hv) Hload Hs) as (level & -> & Hlt & Ho).
  exists level. split; [done|]. split; [done|]. rewrite <- Hc, Ef. by apply overfull_nonempty.
Qed.

Lemma after_pointer_ok pointer files : Forall valid_file files ->
  exists r, after_pointer pointer files = Some r /\ forall f, r = Some f -> f ∈ files.
Proof.
  induction 1 as [|f files Hf _ IH]; cbn [after_pointer]; [by eexists|].
  case_bool_decide; [eexists; split; [done|]; intros g [= ->]; left|].
  rewrite valid_key_encode by apply Hf. cbn [mbind option_bind].
  destruct (0 <? _); [eexists; split; [done|]; intros g [= ->]; left|].
  destruct IH as (r & -> & Hr). exists r. split; [done|]. intros g Hg. right. by apply Hr.
Qed.

(** A picked file becomes a compaction. *)
Lemma picked_ok vset level files f : let v := current_ vset in vset_ok vset -> (level + 1 < Z.to_nat kNumLevels)%nat ->
  files_ v !! level = Some files -> f ∈ files ->
  let c := with_version (Some v) (with_inputs [f] [] (Compaction_new vset level)) in
  exists c', (if (level =? 0)%nat then
      '(smallest_, largest_) ← GetRange (inputs_0 c);
      inputs ← GetOverlappingInputs v 0 (Some smallest_) (Some largest_);
      _ ← assert_ (negb (bool_decide (inputs = [])));
      Some (with_inputs inputs [] c)
    else Some c) = Some c' /\ level_ c' = level /\ input_version_ c' = Some v /\ chosen level files (inputs_0 c').
Proof.
  intros v Hok Hlt Hf Hin c. pose proof (vs_levels _ Hok) as Hv. fold v in Hv.
  destruct (levels_valid _ _ _ Hv Hf) as [Hvf _]. rewrite list.Forall_forall in Hvf. pose proof (Hvf f Hin) as Hff.
  destruct (Nat.eqb_spec level 0) as [->|Hne].
  - unfold c. cbn [inputs_0 with_version with_inputs GetRange range_loop mbind option_bind].
    destruct (overlap_chosen v 0 files (Some (smallest f)) (Some (largest f))) as (i & -> & Hch & _ & Hall);
      [done|done|apply valid_bound_some, Hff|apply valid_bound_some, Hff|].
    cbn [mbind option_bind]. assert (f ∈ i) as Hfi.
    { apply Hall; [done|]. pose proof (valid_file_ukeys f Hff). split; by intros ? [= <-]. }
    rewrite bool_decide_false by (intros ->; by apply elem_of_nil in Hfi). cbn [negb assert_ mbind option_bind].
    eexists. split; [done|]. split_and!; [done|done|]. apply Hch. intros ->. by apply elem_of_nil in Hfi.
  - eexists. split; [done|]. split_and!; [done|done|]. split; [done|]. rewrite (proj2 (Nat.eqb_neq _ _)) by done.
    apply list_elem_of_split in Hin as (pre & post & ->). by exists pre, post.
Qed.

Lemma PickCompaction_ok vset : let v := current_ vset in vset_ok vset ->
  exists r vset', PickCompaction vset = Some (r, vset') /\
    match r with
    | None => NeedsCompaction vset = false
    | Some c => level_keys_whole v c /\ input_version_ c = Some v
    end.
Proof.
  intros v Hok. pose proof (vs_levels _ Hok) as Hv. fold v in Hv. unfold PickCompaction. fold v.
  assert (forall level files f, (level + 1 < Z.to_nat kNumLevels)%nat -> files_ v !! level = Some files -> f ∈ files ->
    exists c vset', (let c := with_version (Some v) (with_inputs [f] [] (Compaction_new vset level)) in
      c ← (if (level =? 0)%nat then
             '(smallest_, largest_) ← GetRange (inputs_0 c);
             inputs ← GetOverlappingInputs v 0 (Some smallest_) (Some largest_);
             _ ← assert_ (negb (bool_decide (inputs = [])));
             Some (with_inputs inputs [] c)
           else Some c);
      '(c, vset) ← SetupOtherInputs c vset;
      Some (Some c, vset)) = Some (Some c, vset') /\ level_keys_whole v c /\ input_version_ c = Some v) as Hpicked.
  { intros level files f Hlt Hf Hin. destruct (picked_ok vset level files f Hok Hlt Hf Hin) as (c & E & Hl & Hiv & Hch).
    cbn zeta in E |- *. fold v in E. rewrite E. cbn [mbind option_bind]. rewrite <- Hl in Hlt, Hf, Hch.
    destruct (setup_level_keys c vset files Hv Hlt Hf Hch) as (c' & vset' & -> & _ & Hiv' & Hw). cbn [mbind option_bind].
    exists c', vset'. split; [done|]. split; [done|by rewrite Hiv']. }
  destruct (size_compaction v) eqn:Es.
  - destruct (vs_size _ Hok Es) as (level & El & Hlt & Hne). fold v in El. destruct (levels_lookup v level Hv) as [files Hf]; [lia|].
    rewrite El, (proj2 (Z.leb_le _ _)), (proj2 (Z.ltb_lt _ _)), Nat2Z.id by (unfold kNumLevels in *; lia). unfold level_at. rewrite Hf. cbn [assert_ mbind option_bind].
    assert (is_Some (compact_pointer_ vset !! level)) as [p ->].
    { apply lookup_lt_is_Some. rewrite (vs_pointers _ Hok). lia. }
    cbn [mbind option_bind]. destruct (levels_valid _ _ _ Hv Hf) as [Hvf _].
    destruct (after_pointer_ok p files Hvf) as (r & -> & Hr). cbn [mbind option_bind].
    assert (exists f, match r with Some f => Some f | None => files !! 0%nat end = Some f /\ f ∈ files) as (f & -> & Hin).
    { destruct r as [f|]; [exists f; split; [done|by apply Hr]|]. destruct files as [|f files]; [by destruct Hne|].
      exists f. split; [done|left]. }
    cbn [mbind option_bind]. destruct (Hpicked level files f Hlt Hf Hin) as (c & vset' & E & Hw). by exists (Some c), vset'.
  - destruct (file_to_compact_ v) as [f|] eqn:Efc.
    + destruct (vs_seek _ Hok f Efc) as (level & files & El & Hlt & Hf & Hin). fold v in El, Hf. rewrite El, Nat2Z.id. cbn [mbind option_bind].
      destruct (Hpicked level files f Hlt Hf Hin) as (c & vset' & E & Hw). by exists (Some c), vset'.
    + exists None, vset. split; [done|]. unfold NeedsCompaction. fold v. by rewrite Es, Efc.
Qed.

Lemma CompactRange_ok vset level files begin end_ : let v := current_ vset in vset_ok vset ->
  (level + 1 < Z.to_nat kNumLevels)%nat -> files_ v !! level = Some files -> valid_bound begin -> valid_bound end_ ->
  exists r vset', CompactRange level begin end_ vset = Some (r, vset') /\
    match r with
    | None => forall f, f ∈ files -> ~ overlaps (ukey <$> begin) (ukey <$> end_) f
    | Some c => level_keys_whole v c /\ input_version_ c = Some v
    end.
Proof.
  intros v Hok Hlt Hf Hb He. pose proof (vs_levels _ Hok) as Hv. fold v in Hv. unfold CompactRange. fold v.
  destruct (overlap_chosen v level files begin end_ Hv Hf Hb He) as (i & -> & Hch & _ & Hall). cbn [mbind option_bind].
  case_bool_decide as Hi.
  { exists None, vset. split; [done|]. intros f Hin Ho. rewrite Hi in Hall. by apply (Hall f) in Ho as ?%elem_of_nil. }
  set (i' := if (0 <? level)%nat then _ else _).
  assert (chosen level files i') as Hch'.
  { unfold i'. destruct (Nat.ltb_spec 0 level) as [Hlt0|Hge]; [|by apply Hch].
    destruct (cut_inputs_prefix (MaxFileSizeForLevel (max_file_size vset) level) 0 i Hi) as [n ->].
    destruct (Hch Hi) as [_ Hseg]. split; [by destruct i|]. rewrite (proj2 (Nat.eqb_neq _ _)) in Hseg |- * by lia.
    destruct Hseg as (pre & post & ->). exists pre, (drop (S n) i ++ post). by rewrite (app_assoc (take _ _)), take_drop. }
  destruct (setup_level_keys (with_version (Some v) (with_inputs i' [] (Compaction_new vset level))) vset files)
    as (c & vset' & -> & _ & Hiv & Hw); [done..|]. cbn [mbind option_bind]. by exists (Some c), vset'.
Qed.

(** C25 (safety): a compaction that is picked, by size or by seeks, or asked for on a range,
    is set up without a failure, and leaves nothing older behind of what it takes from its level: a file that stays at the level
    is not older than an input of the level with the same user key, so that a search by levels
    never finds an old entry before a newer one that moved down, and every file of
    the next level with a user key of an input of the level is an input, too. Of the
    inputs of the next level this does not hold, as [next_level_splits_key] shows: their other user keys may go on in a file that stays. *)
Theorem compaction_leaves_no_older vset : vset_ok vset ->
  (exists r vset', PickCompaction vset = Some (r, vset') /\
    match r with
    | None => NeedsCompaction vset = false
    | Some c => level_keys_whole (current_ vset) c /\ input_version_ c = Some (current_ vset)
    end) /\
  forall level files begin end_, (level + 1 < Z.to_nat kNumLevels)%nat -> files_ (current_ vset) !! level = Some files ->
    valid_bound begin -> valid_bound end_ ->
    exists r vset', CompactRange level begin end_ vset = Some (r, vset') /\
      match r with
      | None => forall f, f ∈ files -> ~ overlaps (ukey <$> begin) (ukey <$> end_) f
      | Some c => level_keys_whole (current_ vset) c /\ input_version_ c = Some (current_ vset)
      end.
Proof.
  intros Hok. split; [by apply PickCompaction_ok|]. intros level files begin end_ Hlt Hf Hb He.
  by apply (CompactRange_ok vset level files).
Qed.

(** ** The base level *)

(** Every file before the pointer of a level ends before the key. *)
Definition ptrs_ok (v : Version) (u : list Z) (ptrs : list nat) : Prop := length ptrs = Z.to_nat kNumLevels /\
  forall level files p i f, files_ v !! level = Some files -> ptrs !! level = Some p -> files !! i = Some f -> (i < p)%nat ->
    lt_key (ukey (largest f)) u.

Lemma base_scan_ok fuel u files p : level_files files -> (length files - p <= fuel)%nat ->
  (forall i f, files !! i = Some f -> (i < p)%nat -> lt_key (ukey (largest f)) u) ->
  exists p' covered, base_scan fuel u files p = Some (p', covered) /\
    (forall i f, files !! i = Some f -> (i < p')%nat -> lt_key (ukey (largest f)) u) /\
    (covered = true <-> Exists (overlaps (Some u) (Some u)) files).
Proof.
  intros Hl. pose proof (lf_valid _ Hl) as Hv. revert p. induction fuel as [|fuel IH]; intros p Hfuel Hbefore; cbn [base_scan];
    (destruct (files !! p) as [f|] eqn:Ef;
     [|exists p, false; split; [done|]; split; [done|]; split; [done|];
       intros (g & [j Hj]%list_elem_of_lookup & Ho & _)%list.Exists_exists; apply lookup_ge_None in Ef;
       pose proof (lookup_lt_Some _ _ _ Hj); by destruct (Ho u eq_refl); apply (Hbefore j); [|lia]]).
  all: assert (valid_file f) as Hf by (by eapply Forall_lookup_1).
  { apply lookup_lt_Some in Ef. lia. }
  rewrite !valid_key_user by apply Hf. cbn [mbind option_bind].
  destruct (Z.leb_spec (Compare u (ukey (largest f))) 0) as [Hle|Hgt].
  - apply Compare_le in Hle. exists p, (0 <=? Compare u (ukey (smallest f))). split; [done|]. split; [done|].
    rewrite Z.leb_le, Compare_ge, list.Exists_exists. split.
    + intros Hge. exists f. split; [by eapply list_elem_of_lookup_2|]. by split; intros ? [= <-].
    + intros (g & [j Hj]%list_elem_of_lookup & Ha & Hb). destruct (lt_eq_lt_dec j p) as [[Hjp| ->]|Hpj].
      * destruct (Ha u eq_refl). by apply (Hbefore j).
      * rewrite Ef in Hj. injection Hj as <-. by apply Hb.
      * intros Hlt. apply (Hb u eq_refl).
        pose proof (StronglySorted_lookup _ _ _ _ _ _ (lf_disjoint _ Hl) Ef Hj Hpj) as Hfg. apply internal_lt_ukey in Hfg.
        eapply lt_le_key_trans; [exact Hlt|]. eapply le_key_trans; [by apply valid_file_ukeys|done].
  - apply IH; [lia|]. intros i g Hg Hi. destruct (decide (i = p)) as [->|].
    + rewrite Ef in Hg. injection Hg as <-. by apply Compare_gt.
    + apply (Hbefore i); [done|lia].
Qed.

Lemma base_levels_ok n u v lvl ptrs : levels_ok v -> (0 < lvl)%nat -> (lvl + n = Z.to_nat kNumLevels)%nat -> ptrs_ok v u ptrs ->
  exists base ptrs', base_levels n u v lvl ptrs = Some (base, ptrs') /\ ptrs_ok v u ptrs' /\
    (base = true <-> forall l files, (lvl <= l)%nat -> files_ v !! l = Some files -> ~ Exists (overlaps (Some u) (Some u)) files).
Proof.
  intros Hv. revert lvl ptrs. induction n as [|n IH]; intros lvl ptrs Hpos Hn Hp; cbn [base_levels].
  { exists true, ptrs. split; [done|]. split; [done|]. split; [|done]. intros _ l files Hl Hf.
    apply lookup_lt_Some in Hf. destruct Hv as [Hlen _]. lia. }
  destruct (levels_lookup v lvl Hv ltac:(lia)) as [files Hf]. unfold level_at. rewrite Hf. cbn [mbind option_bind].
  destruct Hp as [Hlen Hp]. assert (is_Some (ptrs !! lvl)) as [p Hpl] by (apply lookup_lt_is_Some; lia).
  rewrite Hpl. cbn [mbind option_bind]. destruct (levels_valid _ _ _ Hv Hf) as [_ Hl].
  destruct (base_scan_ok (length files) u files p (Hl Hpos)) as (p' & covered & -> & Hp' & Hcov); [lia|by intros i f; apply (Hp lvl files p)|].
  cbn [mbind option_bind]. assert (ptrs_ok v u (<[lvl:=p']> ptrs)) as Hps.
  { split; [by rewrite length_insert|]. intros l files' q i f Hfl Hq. destruct (decide (l = lvl)) as [->|Hne].
    - rewrite list_lookup_insert_eq in Hq by lia. injection Hq as <-. rewrite Hf in Hfl. injection Hfl as <-. apply Hp'.
    - rewrite list_lookup_insert_ne in Hq by done. by apply (Hp l files' q). }
  destruct covered.
  - exists false, (<[lvl:=p']> ptrs). split; [done|]. split; [done|]. split; [done|]. intros Hall.
    by destruct (Hall lvl files (le_n _) Hf); apply Hcov.
  - destruct (IH (S lvl) _ ltac:(lia) ltac:(lia) Hps) as (base & ptrs' & -> & Hok & Hb). exists base, ptrs'.
    split; [done|]. split; [done|]. rewrite Hb. split; intros Hall l files' Hle Hfl.
    + destruct (decide (l = lvl)) as [->|]; [|apply (Hall l); [lia|done]]. rewrite Hf in Hfl. injection Hfl as <-.
      intros Hex. by apply Hcov in Hex.
    + apply (Hall l); [lia|done].
Qed.

Lemma ptrs_ok_later v u u' ptrs : ~ lt_key u' u -> ptrs_ok v u ptrs -> ptrs_ok v u' ptrs.
Proof.
  intros Hle [Hlen Hp]. split; [done|]. intros level files p i f Hf Hpl Hi Hip. eapply lt_le_key_trans; [by eapply Hp|done].
Qed.

(** The answers for a sequence of user keys. *)
Fixpoint base_answers (us : list (list Z)) (c : Compaction) : option (list bool) :=
  match us with
  | [] => Some []
  | u :: us => '(base, c) ← IsBaseLevelForKey u c; rest ← base_answers us c; Some (base :: rest)
  end.

(** No file below the next level has the user key. *)
Definition base_level (v : Version) (level : nat) (u : list Z) : Prop :=
  forall l files, (level + 2 <= l)%nat -> files_ v !! l = Some files -> ~ Exists (overlaps (Some u) (Some u)) files.

(** Asked for user keys in increasing order, as a compaction meets them,
    [IsBaseLevelForKey] answers each time whether no file below the next level has
    the key in its range, although its pointers only move forward. *)
Theorem base_level_queries us c v : input_version_ c = Some v -> levels_ok v -> level_ptrs_ c = replicate (Z.to_nat kNumLevels) 0%nat ->
  (level_ c + 2 <= Z.to_nat kNumLevels)%nat -> StronglySorted (fun u u' => ~ lt_key u' u) us ->
  exists answers, base_answers us c = Some answers /\ Forall2 (fun u a => a = true <-> base_level v (level_ c) u) us answers.
Proof.
  intros Hiv Hv Hp Hl Hs.
  assert (forall u, ptrs_ok v u (level_ptrs_ c)) as Hp0.
  { intros u. rewrite Hp. split; [apply length_replicate|]. intros level files p i f _ Hq. apply lookup_replicate in Hq as [-> _]. lia. }
  assert (forall u, u ∈ us -> ptrs_ok v u (level_ptrs_ c)) as Hpu by auto. clear Hp Hp0.
  revert c Hiv Hl Hpu. induction Hs as [|u us Hs IH Hu]; intros c Hiv Hl Hpu; cbn [base_answers]; [by exists []|].
  unfold IsBaseLevelForKey. rewrite Hiv. cbn [mbind option_bind].
  destruct (base_levels_ok (Z.to_nat kNumLevels - (level_ c + 2)) u v (level_ c + 2) (level_ptrs_ c) Hv) as (base & ptrs' & -> & Hok & Hb);
    [lia|lia|apply Hpu; left|]. cbn [mbind option_bind].
  destruct (IH (with_level_ptrs ptrs' c)) as (answers & -> & Hall); [done|done| |].
  { intros u' Hu'. cbn [level_ptrs_ with_level_ptrs]. rewrite list.Forall_forall in Hu. by apply ptrs_ok_later with u; [apply Hu|]. }
  cbn [mbind option_bind]. eexists. split; [done|]. constructor; [done|exact Hall].
Qed.
End inputs.

(** ** Compactions of two levels *)

Section demo.
#[local] Existing Instances by_bytes by_bytes_laws reference_coding reference_coding_laws reference_format
  reference_format_laws reference_icmp reference_icmp_laws.

(** The level of [VersionFiles.v] is level 1, a file of the key 7 is at level 3. *)
Definition compact_version : Version :=
  version_of ([[]; demo_level; []; [demo_file 40 100 7 1 7 1]] ++ replicate 3 []).

Definition scored (level : Z) (v : Version) : Version := mkVersion (files_ v) None (-1) (double_of 2) level.

Definition compact_vset : VersionSet := with_current (scored 1 compact_version) (VersionSet_new 1000).

(** The first compaction of the level takes its first file; the second starts with
    the second file, and the third, which continues the key 5, comes along. *)
Example demo_compactions :
  ('(c, vset) ← PickCompaction compact_vset; c ← c; '(c', _) ← PickCompaction vset; c' ← c';
   Some (map address (inputs_0 c), map address (inputs_0 c'))) = Some ([7], [8; 9])%positive.
Proof. vm_compute. reflexivity. Qed.

Lemma compact_levels_ok : levels_ok compact_version.
Proof.
  split; [reflexivity|]. intros level files Hl. assert (level_files []) as Hnil.
  { split; [by apply List.Forall_nil|apply SSorted_nil|done]. }
  assert (level_files files -> Forall valid_file files /\ ((0 < level)%nat -> level_files files)) as Hw.
  { intros Hf. split; [apply (lf_valid _ Hf)|done]. }
  apply Hw. destruct level as [|[|[|[|level]]]].
  - by injection Hl as <-.
  - injection Hl as <-. exact demo_level_files.
  - by injection Hl as <-.
  - injection Hl as <-. split; [|repeat first [apply SSorted_nil|apply SSorted_cons|apply List.Forall_nil]|done].
    apply List.Forall_cons; [|by apply List.Forall_nil]. apply demo_file_valid; by_compute.
  - assert (files = []) as -> by (apply (elem_of_replicate_inv _ 3), (list_elem_of_lookup_2 _ level); exact Hl). done.
Qed.

Lemma compact_vset_ok : vset_ok compact_vset.
Proof.
  split; [exact compact_levels_ok|done| |done]. intros _. exists 1%nat. split; [done|]. split; [by_compute|done].
Qed.

Lemma compaction_leaves_no_older_witness : exists r vset', PickCompaction compact_vset = Some (r, vset') /\
  match r with
  | None => NeedsCompaction compact_vset = false
  | Some c => level_keys_whole (scored 1 compact_version) c /\ input_version_ c = Some (scored 1 compact_version)
  end.
Proof. exact (proj1 (compaction_leaves_no_older compact_vset compact_vset_ok)). Defined.

Lemma base_level_queries_witness : exists answers,
  base_answers [[6]; [7]; [8]] (with_version (Some compact_version) (Compaction_new compact_vset 1)) = Some answers /\
  Forall2 (fun u a => a = true <-> base_level compact_version 1 u) [[6]; [7]; [8]] answers.
Proof.
  apply (base_level_queries [[6]; [7]; [8]] (with_version (Some compact_version) (Compaction_new compact_vset 1)) compact_version
    eq_refl compact_levels_ok eq_refl ltac:(vm_compute; lia)).
  repeat first [apply SSorted_nil|apply SSorted_cons|apply List.Forall_nil|apply List.Forall_cons]; by_compute.
Defined.

(** The boundary files of the next level are not added. The compaction of a file of
    level 1 with the keys 3 and 4 takes the file of level 2 that ends with the
    deletion of the key 5, but not the one that starts with the older value of that
    key; as no lower level has the key, the compaction may drop the deletion, and the
    old value is found again. *)
Definition deleting_file : file :=
  File 8 (FileMeta 8 200 (ikey 4 12) (AppendInternalKey [] (ParsedKey [5] 13 kTypeDeletion))).
Definition older_file : file := demo_file 9 300 5 3 8 4.

Definition split_key_vset : VersionSet := with_current
  (scored 1 (version_of ([[]; [demo_file 50 100 3 30 4 31]; [deleting_file; older_file]] ++ replicate 4 [])))
  (VersionSet_new 1000).

Example next_level_splits_key :
  ('(c, _) ← PickCompaction split_key_vset; c ← c; '(base, _) ← IsBaseLevelForKey [5] c;
   Some (map address (inputs_0 c), map address (inputs_1 c), base)) = Some ([50]%positive, [8]%positive, true) /\
  ukey (largest (meta deleting_file)) = ukey (smallest (meta older_file)).
Proof. split; vm_compute; reflexivity. Qed.
End demo.
