(* ===== verification/Builder.v ===== *)
(** * Building versions from edits ([leveldb-library/db/version_set.cc])

    A [VersionSet::Builder] applies a sequence of edits to the files of a base
    version without building the versions in between: for every level it keeps the
    numbers that were deleted and a set of the files that were added, ordered by
    their smallest keys, and [SaveTo] merges that set with the files of the base.

    The metadata of the files are objects that versions share. The heap keeps what
    changes in them, the number of references and of seeks that are left, by
    address; an access to an object that was deleted is [None], and so is an
    assertion that fails, like the ones that the files of a level are disjoint. *)

From Stdlib Require Import Sorting.Sorted.
From stdpp Require Import base list sorting gmap.
From S2P Require Import Prelude Cursor Coding DbFormat VersionEdit VersionFiles VersionState.

#[local] Open Scope Z_scope.

(** ** The heap *)

Record FileHeap := mkHeap { next_address : positive; refs : gmap positive Z; allowed_seeks : gmap positive Z }.

(** [f->refs++] *)
Definition file_ref (f : file) (h : FileHeap) : option FileHeap :=
  r ← refs h !! address f; Some (mkHeap (next_address h) (<[address f := r + 1]> (refs h)) (allowed_seeks h)).

(** [f->refs--], and the file is deleted when none is left. *)
Definition file_unref (f : file) (h : FileHeap) : option FileHeap :=
  r ← refs h !! address f;
  if r - 1 <=? 0 then Some (mkHeap (next_address h) (delete (address f) (refs h)) (delete (address f) (allowed_seeks h)))
  else Some (mkHeap (next_address h) (<[address f := r - 1]> (refs h)) (allowed_seeks h)).

Definition file_unrefs (files : list file) (h : FileHeap) : option FileHeap :=
  foldl (fun h f => h ← h; file_unref f h) (Some h) files.

(** A conversion to [int]. *)
Definition int32 (x : Z) : Z := let u := wrap 32 x in if u <? 2 ^ 31 then u else u - 2 ^ 32.

(** The seeks that a file of this size may cost before it is compacted. *)
Definition initial_seeks (file_size : Z) : Z := let n := int32 (file_size / 16384) in if n <? 100 then 100 else n.

(** [new FileMetaData], with one reference. *)
Definition new_file (m : FileMetaData) (h : FileHeap) : file * FileHeap :=
  (File (next_address h) m,
   mkHeap (Pos.succ (next_address h)) (<[next_address h := 1]> (refs h))
     (<[next_address h := initial_seeks (file_size m)]> (allowed_seeks h))).

(** ** The builder *)

Record LevelState := mkLevel { deleted_files : gset Z; added_files : list file }.

Record Builder := mkBuilder { base_ : Version; levels_ : list LevelState }.

Definition Builder_new (base : Version) : Builder := mkBuilder base (replicate (Z.to_nat kNumLevels) (mkLevel ∅ [])).

(** An index into an array of the levels. *)
Definition level_index (level : Z) : option nat := if 0 <=? level then Some (Z.to_nat level) else None.

Definition change_level (level : Z) (g : LevelState -> option LevelState) (b : Builder) : option Builder :=
  i ← level_index level; l ← levels_ b !! i; l ← g l; Some (mkBuilder (base_ b) (<[i := l]> (levels_ b))).

Section builder.
Context `{Comparator} `{Coding} `{!InternalKeyFormat, !InternalComparator}.

Definition BySmallestKey (f1 f2 : file) : option bool :=
  r ← ICompare_keys (smallest (meta f1)) (smallest (meta f2));
  Some (if negb (r =? 0) then r <? 0 else number (meta f1) <? number (meta f2)).

(** The insertion in a [std::set]: an equivalent element is kept instead. *)
Fixpoint set_insert_file (f : file) (l : list file) : option (list file) :=
  match l with
  | [] => Some [f]
  | g :: l =>
      before ← BySmallestKey f g;
      if before : bool then Some (f :: g :: l)
      else
        after ← BySmallestKey g f;
        if after : bool then l ← set_insert_file f l; Some (g :: l) else Some (g :: l)
  end.

(** ** Apply *)

Fixpoint apply_pointers (l : list (Z * list Z)) (pointers : list (list Z)) : option (list (list Z)) :=
  match l with
  | [] => Some pointers
  | (level, key) :: l =>
      i ← level_index level; _ ← pointers !! i; k ← InternalKey_Encode key;
      apply_pointers l (<[i := k]> pointers)
  end.

Fixpoint apply_deleted (l : list (Z * Z)) (b : Builder) : option Builder :=
  match l with
  | [] => Some b
  | (level, n) :: l =>
      b ← change_level level (fun s => Some (mkLevel ({[ n ]} ∪ deleted_files s) (added_files s))) b;
      apply_deleted l b
  end.

Fixpoint apply_new (l : list (Z * FileMetaData)) (b : Builder) (h : FileHeap) : option (Builder * FileHeap) :=
  match l with
  | [] => Some (b, h)
  | (level, m) :: l =>
      let '(f, h) := new_file m h in
      b ← change_level level (fun s =>
            added ← set_insert_file f (added_files s); Some (mkLevel (deleted_files s ∖ {[ number m ]}) added)) b;
      apply_new l b h
  end.

(** The builder, the compaction pointers of the version set, and the heap. *)
Definition Apply (e : VersionEdit) (b : Builder) (pointers : list (list Z)) (h : FileHeap) :
    option (Builder * list (list Z) * FileHeap) :=
  pointers ← apply_pointers (compact_pointers_ e) pointers;
  b ← apply_deleted (deleted_files_ e) b;
  '(b, h) ← apply_new (new_files_ e) b h;
  Some (b, pointers, h).

(** ** SaveTo *)

(** The state of a level of the new version. *)
Definition MaybeAddFile (level : nat) (deleted : gset Z) (f : file) (s : list file * FileHeap) : option (list file * FileHeap) :=
  let '(files, h) := s in
  if decide (number (meta f) ∈ deleted) then Some (files, h)
  else
    _ ← (match list.last files with
         | Some g =>
             if (0 <? level)%nat then
               r ← ICompare_keys (largest (meta g)) (smallest (meta f)); assert_ (r <? 0)
             else Some tt
         | None => Some tt
         end);
    h ← file_ref f h; Some (files ++ [f], h).

Fixpoint add_files (level : nat) (deleted : gset Z) (l : list file) (s : list file * FileHeap) : option (list file * FileHeap) :=
  match l with
  | [] => Some s
  | f :: l => s ← MaybeAddFile level deleted f s; add_files level deleted l s
  end.

(** [std::upper_bound]: the elements up to the first that is after [f], and the rest. *)
Fixpoint upper_bound (f : file) (l : list file) : option (list file * list file) :=
  match l with
  | [] => Some ([], [])
  | g :: l' =>
      after ← BySmallestKey f g;
      if after : bool then Some ([], l) else '(pre, post) ← upper_bound f l'; Some (g :: pre, post)
  end.

Fixpoint merge_added (level : nat) (deleted : gset Z) (added base : list file) (s : list file * FileHeap) :
    option (list file * FileHeap) :=
  match added with
  | [] => add_files level deleted base s
  | f :: added =>
      '(pre, post) ← upper_bound f base;
      s ← add_files level deleted pre s;
      s ← MaybeAddFile level deleted f s;
      merge_added level deleted added post s
  end.

(** The check of the levels above 0 in a debug build. *)
Fixpoint check_disjoint (files : list file) : option unit :=
  match files with
  | f :: ((g :: _) as files) =>
      r ← ICompare_keys (largest (meta f)) (smallest (meta g)); _ ← assert_ (r <? 0); check_disjoint files
  | _ => Some tt
  end.

Definition save_level (level : nat) (s : LevelState) (base : list file) (h : FileHeap) : option (list file * FileHeap) :=
  '(files, h) ← merge_added level (deleted_files s) (added_files s) base ([], h);
  _ ← (if (0 <? level)%nat then check_disjoint files else Some tt);
  Some (files, h).

Fixpoint save_levels (level : nat) (ls : list LevelState) (bases : list (list file)) (h : FileHeap) :
    option (list (list file) * FileHeap) :=
  match ls with
  | [] => Some ([], h)
  | s :: ls =>
      base ← bases !! 0%nat; '(files, h) ← save_level level s base h;
      '(rest, h) ← save_levels (S level) ls (drop 1 bases) h;
      Some (files :: rest, h)
  end.

(** A new version with the files. *)
Definition SaveTo (b : Builder) (h : FileHeap) : option (Version * FileHeap) :=
  '(levels, h) ← save_levels 0 (levels_ b) (files_ (base_ b)) h; Some (version_of levels, h).

(** The destructor gives up the references of the sets. *)
Definition Builder_delete (b : Builder) (h : FileHeap) : option FileHeap :=
  file_unrefs (mjoin (added_files <$> levels_ b)) h.
End builder.

(** The destructor of a version does so for its files, each of which has to be referenced. *)
Definition file_drop (f : file) (h : FileHeap) : option FileHeap :=
  r ← refs h !! address f; _ ← assert_ (0 <? r); file_unref f h.

Definition Version_delete (v : Version) (h : FileHeap) : option FileHeap :=
  foldl (fun h f => h ← h; file_drop f h) (Some h) (mjoin (files_ v)).
