(* ===== verification/BuilderProps.v ===== *)
(** * What a builder builds

    Whatever edits are applied, the levels of the new version are the files that
    the edits leave, one edit after the other, in the order of their smallest keys;
    files are shared with the base version and counted. *)

From Stdlib Require Import Sorting.Sorted.
From stdpp Require Import base list sorting gmap.
From S2P Require Import Prelude Cursor Coding DbFormat VersionEdit VersionFiles VersionState Builder.

#[local] Open Scope Z_scope.

(** ** References

    [owners] are the addresses that hold a reference, as often as they hold one. *)

Definition occurs (a : positive) (owners : list positive) : nat := length (filter (eq a) owners).

Record heap_ok (h : FileHeap) (owners : list positive) : Prop := {
  ho_refs a : refs h !! a = if decide (a ∈ owners) then Some (Z.of_nat (occurs a owners)) else None;
  ho_seeks a : is_Some (allowed_seeks h !! a) <-> a ∈ owners;
  ho_next a : a ∈ owners -> (a < next_address h)%positive }.

Lemma occurs_cons a b owners : occurs a (b :: owners) = ((if decide (a = b) then 1 else 0) + occurs a owners)%nat.
Proof. unfold occurs. rewrite filter_cons. by destruct (decide (a = b)). Qed.

Lemma occurs_app a l1 l2 : occurs a (l1 ++ l2) = (occurs a l1 + occurs a l2)%nat.
Proof. unfold occurs. by rewrite list.filter_app, length_app. Qed.

Lemma occurs_pos a owners : (0 < occurs a owners)%nat <-> a ∈ owners.
Proof.
  unfold occurs. split.
  - destruct (filter (eq a) owners) as [|b l] eqn:E; [simpl; lia|]. intros _.
    assert (b ∈ filter (eq a) owners) as [-> ?]%list_elem_of_filter by (rewrite E; left). done.
  - intros Ha. assert (a ∈ filter (eq a) owners) as Hf by (by apply list_elem_of_filter).
    destruct (filter (eq a) owners); [by apply elem_of_nil in Hf|simpl; lia].
Qed.

Lemma heap_ok_perm h l l' : l ≡ₚ l' -> heap_ok h l -> heap_ok h l'.
Proof.
  intros Hp [Hr Hs Hn]. split; intros a.
  - rewrite Hr. unfold occurs. rewrite (Permutation_length (filter_Permutation _ _ _ Hp)).
    destruct (decide (a ∈ l)) as [Ha|Ha]; rewrite Hp in Ha; [by rewrite decide_True|by rewrite decide_False].
  - by rewrite Hs, Hp.
  - rewrite <- Hp. apply Hn.
Qed.

#[export] Instance heap_ok_proper h : Proper ((≡ₚ) ==> iff) (heap_ok h).
Proof. intros l l' Hp. split; by apply heap_ok_perm. Qed.

(** The count of another address. *)
Lemma refs_other a b owners : a <> b ->
  (if decide (a ∈ b :: owners) then Some (Z.of_nat (occurs a (b :: owners))) else None) =
  (if decide (a ∈ owners) then Some (Z.of_nat (occurs a owners)) else None).
Proof.
  intros Hne. rewrite occurs_cons, (decide_False (P := a = b)) by done. cbn [Nat.add]. destruct (decide (a ∈ owners)) as [Ha|Ha].
  - by rewrite decide_True by by right.
  - rewrite decide_False; [done|]. by intros [?|?]%elem_of_cons.
Qed.

Lemma seeks_other (x : option Z) (a b : positive) owners : a <> b -> (is_Some x <-> a ∈ owners) -> is_Some x <-> a ∈ b :: owners.
Proof. intros Hne ->. rewrite elem_of_cons. split; [by right|]. by intros [?|?]. Qed.

Lemma file_ref_ok f h owners : heap_ok h owners -> address f ∈ owners ->
  exists h', file_ref f h = Some h' /\ heap_ok h' (address f :: owners) /\ next_address h' = next_address h.
Proof.
  intros [Hr Hs Hn] Ha. unfold file_ref. rewrite Hr, decide_True by done. cbn [mbind option_bind].
  eexists. split; [done|]. split; [|done]. split; cbn [refs allowed_seeks next_address]; intros a.
  - destruct (decide (a = address f)) as [->|Hne].
    + rewrite lookup_insert_eq, occurs_cons, !decide_True by (done || left). f_equal. lia.
    + rewrite lookup_insert_ne by congruence. rewrite refs_other by congruence. apply Hr.
  - destruct (decide (a = address f)) as [->|Hne]; [|by apply seeks_other]. rewrite Hs. split; [left|done].
  - intros [->|]%elem_of_cons; by apply Hn.
Qed.

Lemma file_unref_ok f h owners : heap_ok h (address f :: owners) ->
  exists h', file_unref f h = Some h' /\ heap_ok h' owners /\ next_address h' = next_address h.
Proof.
  intros [Hr Hs Hn]. unfold file_unref. rewrite Hr, decide_True by left. cbn [mbind option_bind].
  rewrite occurs_cons, decide_True by done. pose proof (occurs_pos (address f) owners) as Hf.
  assert (forall a, a <> address f -> refs h !! a = if decide (a ∈ owners) then Some (Z.of_nat (occurs a owners)) else None) as Hr'.
  { intros a Hne. by rewrite Hr, refs_other. }
  assert (forall a, a <> address f -> is_Some (allowed_seeks h !! a) <-> a ∈ owners) as Hs'.
  { intros a Hne. rewrite Hs, elem_of_cons. split; [by intros [?|?]|by right]. }
  destruct (Z.leb_spec (Z.of_nat (1 + occurs (address f) owners) - 1) 0) as [Hle|Hgt]; eexists; (split; [done|]; split; [|done]);
    split; cbn [refs allowed_seeks next_address]; intros a; try (intros Ha; apply Hn; by right);
    destruct (decide (a = address f)) as [->|Hne].
  - rewrite lookup_delete_eq, decide_False; [done|]. rewrite <- Hf. lia.
  - rewrite lookup_delete_ne by congruence. by apply Hr'.
  - rewrite lookup_delete_eq, <- Hf. split; [by intros []|lia].
  - rewrite lookup_delete_ne by congruence. by apply Hs'.
  - rewrite lookup_insert_eq, decide_True by (apply Hf; lia). f_equal. lia.
  - rewrite lookup_insert_ne by congruence. by apply Hr'.
  - rewrite Hs. split; [intros _; apply Hf; lia|left].
  - by apply Hs'.
Qed.

Lemma file_unrefs_ok files h owners : heap_ok h ((address <$> files) ++ owners) ->
  exists h', file_unrefs files h = Some h' /\ heap_ok h' owners /\ next_address h' = next_address h.
Proof.
  unfold file_unrefs. revert h. induction files as [|f files IH]; intros h Hh; [by exists h|]. cbn [foldl mbind option_bind].
  destruct (file_unref_ok f h _ Hh) as (h1 & -> & Hh1 & Hn1). destruct (IH h1 Hh1) as (h' & E & Hh' & Hn').
  exists h'. split; [exact E|]. split; [done|congruence].
Qed.

Lemma Version_delete_ok v h owners : heap_ok h ((address <$> mjoin (files_ v)) ++ owners) ->
  exists h', Version_delete v h = Some h' /\ heap_ok h' owners /\ next_address h' = next_address h.
Proof.
  unfold Version_delete. generalize (mjoin (files_ v)) as files. intros files. revert h.
  induction files as [|f files IH]; intros h Hh; [by exists h|]. cbn [foldl mbind option_bind]. unfold file_drop at 2.
  rewrite (ho_refs _ _ Hh), decide_True by left. cbn [mbind option_bind fmap list_fmap app].
  rewrite occurs_cons, decide_True by done. rewrite (proj2 (Z.ltb_lt _ _)) by lia. cbn [assert_ mbind option_bind].
  destruct (file_unref_ok f h _ Hh) as (h1 & -> & Hh1 & Hn1). destruct (IH h1 Hh1) as (h' & E & Hh' & Hn').
  exists h'. split; [exact E|]. split; [done|congruence].
Qed.

Lemma new_file_ok m h owners : heap_ok h owners ->
  let '(f, h') := new_file m h in meta f = m /\ (forall a, a ∈ owners -> a <> address f) /\ address f = next_address h /\
    heap_ok h' (address f :: owners) /\ (next_address h < next_address h')%positive.
Proof.
  intros [Hr Hs Hn]. cbn. split; [done|]. assert (next_address h ∉ owners) as Hnew by (intros Ha%Hn; lia).
  split; [by intros a Ha ->|]. split; [done|]. split; [|lia]. split; cbn [refs allowed_seeks next_address]; intros a.
  - destruct (decide (a = next_address h)) as [->|Hne].
    + rewrite lookup_insert_eq, occurs_cons, !decide_True by (done || left). do 2 f_equal.
      pose proof (occurs_pos (next_address h) owners). destruct (occurs (next_address h) owners); [done|]. destruct Hnew. apply H. lia.
    + rewrite lookup_insert_ne by congruence. rewrite refs_other by congruence. apply Hr.
  - destruct (decide (a = next_address h)) as [->|Hne].
    + rewrite lookup_insert_eq. split; [left|done].
    + rewrite lookup_insert_ne by congruence. by apply seeks_other.
  - intros [->|Ha]%elem_of_cons; [lia|]. apply Hn in Ha. lia.
Qed.

Section builder.
Context `{ComparatorLaws} `{CodingLaws} `{!InternalKeyFormat, !InternalKeyFormatLaws}.
Context `{!InternalComparator, !InternalComparatorLaws}.
Implicit Types (f g : file) (m : FileMetaData).

(** ** The order of the files *)

Definition by_smallest m m' : Prop :=
  internal_lt (smallest m) (smallest m') \/ ~ internal_lt (smallest m') (smallest m) /\ number m < number m'.

#[export] Instance by_smallest_dec m m' : Decision (by_smallest m m').
Proof. unfold by_smallest. apply _. Defined.

Lemma by_smallest_irrefl m : ~ by_smallest m m.
Proof. intros [Hm|[_ Hm]]; [by apply internal_lt_irrefl in Hm|lia]. Qed.

Lemma by_smallest_trans m1 m2 m3 : by_smallest m1 m2 -> by_smallest m2 m3 -> by_smallest m1 m3.
Proof.
  unfold by_smallest. intros [H12|[H21 Hn]] [H23|[H32 Hn']].
  - left. by eapply internal_lt_trans.
  - left. by eapply internal_lt_le_trans.
  - left. by eapply internal_le_lt_trans.
  - right. split; [|lia]. intros H31. destruct (internal_lt_total (smallest m2) (smallest m3)) as [?|[?|[Hu Ht]]]; [|done|].
    + apply H21. by eapply internal_lt_trans.
    + apply H21. unfold internal_lt in *. by rewrite Hu, Ht.
Qed.

Lemma by_smallest_asym m m' : by_smallest m m' -> ~ by_smallest m' m.
Proof. intros Hm Hm'. exact (by_smallest_irrefl m (by_smallest_trans _ _ _ Hm Hm')). Qed.

Lemma by_smallest_total m m' : number m <> number m' -> by_smallest m m' \/ by_smallest m' m.
Proof.
  intros Hn. unfold by_smallest. destruct (decide (internal_lt (smallest m) (smallest m'))); [by left; left|].
  destruct (decide (internal_lt (smallest m') (smallest m))); [by right; left|].
  destruct (Z.lt_ge_cases (number m) (number m')); [left; right|right; right]; split; (done || lia).
Qed.

Lemma by_smallest_not m m' : number m <> number m' -> ~ by_smallest m m' <-> by_smallest m' m.
Proof.
  intros Hn. split; [|apply by_smallest_asym]. intros Hm. by destruct (by_smallest_total m m' Hn).
Qed.

Lemma valid_key_nonempty k : valid_key k -> k <> [].
Proof. intros Hk%valid_key_length ->. simpl in Hk. lia. Qed.

Lemma BySmallestKey_ok f g : valid_file f -> valid_file g -> BySmallestKey f g = Some (bool_decide (by_smallest f g)).
Proof.
  intros (Hf & _) (Hg & _). unfold BySmallestKey. rewrite ICompare_keys_ok by by apply valid_key_nonempty.
  cbn [mbind option_bind]. f_equal. apply eq_bool_iff. rewrite bool_decide_eq_true. unfold by_smallest. rewrite <- !ICompare_lt.
  pose proof (ICompare_gt (smallest f) (smallest g)) as Hgt. pose proof (ICompare_lt (smallest g) (smallest f)) as Hlt.
  rewrite Hlt, <- Hgt. destruct (Z.eqb_spec (ICompare (smallest f) (smallest g)) 0); cbn [negb]; rewrite Z.ltb_lt; lia.
Qed.

(** Sorted files, the contents of the sets and of the levels. *)
Definition sorted_files (l : list file) : Prop := StronglySorted (fun f g : file => by_smallest f g) l /\ Forall valid_file l.

Lemma sorted_files_cons f l : sorted_files (f :: l) <-> valid_file f /\ Forall (fun g : file => by_smallest f g) l /\ sorted_files l.
Proof.
  unfold sorted_files. split.
  - intros [[Hs Hf]%StronglySorted_inv Hv]. apply Forall_cons_1 in Hv as [? ?]. done.
  - intros (? & ? & ? & ?). split; constructor; done.
Qed.

Lemma set_insert_file_ok f l : sorted_files l -> valid_file f -> (forall g : file, g ∈ l -> number g <> number f) ->
  exists l', set_insert_file f l = Some l' /\ l' ≡ₚ f :: l /\ sorted_files l'.
Proof.
  intros Hl Hf Hn. induction l as [|g l IH]; cbn [set_insert_file].
  { exists [f]. split; [done|]. split; [done|]. apply sorted_files_cons. split; [done|]. split; [constructor|done]. }
  pose proof Hl as (Hg & Hgl & Hl')%sorted_files_cons. assert (number g <> number f) as Hgf by (apply Hn; left).
  rewrite (BySmallestKey_ok f g) by done. cbn [mbind option_bind]. case_bool_decide as Hb.
  { exists (f :: g :: l). split; [done|]. split; [done|]. apply sorted_files_cons. split; [done|]. split; [|done].
    constructor; [done|]. eapply List.Forall_impl; [|exact Hgl]. intros g' Hg'. by eapply by_smallest_trans. }
  rewrite (BySmallestKey_ok g f) by done. cbn [mbind option_bind]. rewrite bool_decide_true by (by apply by_smallest_not).
  destruct IH as (l' & -> & Hp & Hs); [done|intros g' Hg'; apply Hn; by right|]. cbn [mbind option_bind].
  exists (g :: l'). split; [done|]. split; [by rewrite Hp, Permutation_swap|]. apply sorted_files_cons. split; [done|].
  split; [|done]. rewrite Hp. constructor; [by apply by_smallest_not|done].
Qed.

Lemma upper_bound_ok f l : sorted_files l -> valid_file f ->
  upper_bound f l = Some (filter (fun g : file => ~ by_smallest f g) l, filter (fun g : file => by_smallest f g) l).
Proof.
  intros Hl Hf. induction l as [|g l IH]; [done|]. cbn [upper_bound]. apply sorted_files_cons in Hl as (Hg & Hgl & Hl).
  rewrite BySmallestKey_ok by done. cbn [mbind option_bind]. case_bool_decide as Hb.
  - rewrite !filter_cons, decide_False, (decide_True (P := by_smallest f g)) by tauto.
    assert (Forall (fun g : file => by_smallest f g) l) as Hall.
    { eapply List.Forall_impl; [|exact Hgl]. intros g' Hg'. by eapply by_smallest_trans. }
    assert (filter (fun g : file => by_smallest f g) l = l) as ->
      by (by apply filter_keeps_all, list.Forall_forall).
    rewrite filter_drops_all; [done|]. rewrite list.Forall_forall in Hall. intros g' Hg' Hn. by apply Hn, Hall.
  - rewrite IH by done. cbn [mbind option_bind]. by rewrite !filter_cons, (decide_False (P := by_smallest f g)), decide_True.
Qed.

(** ** Merging *)

(** The added files and those of the base, as the loop of [SaveTo] meets them. *)
Fixpoint merged (added base : list file) : list file :=
  match added with
  | [] => base
  | f :: added =>
      filter (fun g : file => ~ by_smallest f g) base ++ f :: merged added (filter (fun g : file => by_smallest f g) base)
  end.

Lemma merged_perm added base : merged added base ≡ₚ added ++ base.
Proof.
  revert base. induction added as [|f added IH]; intros base; [done|]. cbn [merged]. rewrite IH.
  rewrite <- Permutation_middle. cbn [app]. apply perm_skip. rewrite Permutation_app_swap_app. f_equiv.
  rewrite Permutation_app_comm. apply filter_app_complement.
Qed.

Lemma valid_filter (P : file -> Prop) `{!forall f, Decision (P f)} l : Forall valid_file l -> Forall valid_file (filter P l).
Proof. rewrite !list.Forall_forall. intros Hl f [_ Hf]%list_elem_of_filter. by apply Hl. Qed.

Lemma sorted_files_filter (P : file -> Prop) `{!forall f, Decision (P f)} l : sorted_files l -> sorted_files (filter P l).
Proof. intros [Hs Hv]. split; [by apply StronglySorted_filter|by apply valid_filter]. Qed.

Lemma sorted_files_app l1 l2 : sorted_files l1 -> sorted_files l2 ->
  (forall f g, f ∈ l1 -> g ∈ l2 -> by_smallest f g) -> sorted_files (l1 ++ l2).
Proof. intros [Hs1 Hv1] [Hs2 Hv2] Hlt. split; [by apply StronglySorted_app_2|by apply Forall_app]. Qed.

Lemma merged_sorted added base : sorted_files added -> sorted_files base ->
  (forall f g, f ∈ added -> g ∈ base -> number f <> number g) -> sorted_files (merged added base).
Proof.
  intros Ha. revert base. induction added as [|f added IH]; intros base Hb Hn; [done|]. cbn [merged].
  apply sorted_files_cons in Ha as (Hf & Hfa & Ha). rewrite list.Forall_forall in Hfa.
  assert (forall g, g ∈ merged added (filter (fun g : file => by_smallest f g) base) -> by_smallest f g) as Hafter.
  { intros g. rewrite merged_perm, elem_of_app, list_elem_of_filter. intros [Hg|[Hg _]]; [by apply Hfa|done]. }
  apply sorted_files_app; [by apply sorted_files_filter| |].
  - apply sorted_files_cons. split; [done|]. split; [by apply list.Forall_forall|].
    apply IH; [done|by apply sorted_files_filter|]. intros g g' Hg [_ Hg']%list_elem_of_filter. apply Hn; [by right|done].
  - intros g g' [Hg Hgb]%list_elem_of_filter [->|Hg']%elem_of_cons.
    + apply by_smallest_not; [|done]. apply Hn; [left|done].
    + eapply by_smallest_trans; [|by apply Hafter]. apply by_smallest_not; [|done]. apply Hn; [left|done].
Qed.

Lemma add_files_app level D l1 l2 s : add_files level D (l1 ++ l2) s = (s ← add_files level D l1 s; add_files level D l2 s).
Proof.
  revert s. induction l1 as [|f l1 IH]; intros s; [done|]. cbn [app add_files].
  destruct (MaybeAddFile level D f s) as [s1|]; [|done]. cbn [mbind option_bind]. apply IH.
Qed.

Lemma merge_added_eq level D added base s : sorted_files base -> Forall valid_file added ->
  merge_added level D added base s = add_files level D (merged added base) s.
Proof.
  intros Hb Ha. revert base s Hb. induction Ha as [|f added Hf Ha IH]; intros base s Hb; [done|]. cbn [merge_added merged].
  rewrite upper_bound_ok by done. cbn [mbind option_bind]. rewrite add_files_app.
  destruct (add_files level D _ s) as [s1|]; [|done]. cbn [mbind option_bind add_files].
  destruct (MaybeAddFile level D f s1) as [s2|]; [|done]. cbn [mbind option_bind].
  by rewrite IH by by apply sorted_files_filter.
Qed.

(** What is kept of a list of files. *)
Abbreviation kept D l := (filter (fun f : file => number f ∉ D) l).

Lemma last_disjoint files f l : disjoint (files ++ f :: l) -> forall g, list.last files = Some g -> internal_lt (largest g) (smallest f).
Proof.
  intros Hd g [files' ->]%last_Some. apply (StronglySorted_app_1_elem_of (fun f g : file => internal_lt (largest f) (smallest g)) (files' ++ [g]) (f :: l) g f); [exact Hd| |left].
  apply elem_of_app. right. left.
Qed.

Lemma add_files_ok level (D : gset Z) l files h owners : Forall valid_file files -> Forall valid_file l -> heap_ok h owners ->
  (forall f, f ∈ l -> address f ∈ owners) -> ((0 < level)%nat -> disjoint (files ++ kept D l)) ->
  exists h', add_files level D l (files, h) = Some (files ++ kept D l, h') /\
    heap_ok h' ((address <$> kept D l) ++ owners) /\ next_address h' = next_address h.
Proof.
  intros Hfv Hl Hh Ho Hd. revert files h owners Hfv Hh Ho Hd. induction Hl as [|f l Hf Hl IH]; intros files h owners Hfv Hh Ho Hd.
  { exists h. cbn. by rewrite app_nil_r. }
  cbn [add_files MaybeAddFile]. destruct (decide (number f ∈ D)) as [Hin|Hin].
  - rewrite filter_cons_False in * by tauto. apply IH; [done..| |done]. intros g Hg. apply Ho. by right.
  - rewrite filter_cons_True in * by done. cbn [mbind option_bind].
    assert (match list.last files with
         | Some g => if (0 <? level)%nat then r ← ICompare_keys (largest (meta g)) (smallest (meta f)); assert_ (r <? 0) else Some tt
         | None => Some tt
         end = Some tt) as ->.
    { destruct (list.last files) as [g|] eqn:Eg; [|done]. destruct (Nat.ltb_spec 0 level) as [Hlev|]; [|done].
      pose proof (last_disjoint _ _ _ (Hd Hlev) g Eg) as Hlt%ICompare_lt.
      rewrite list.Forall_forall in Hfv. destruct (Hfv g) as (_ & Hg & _); [by apply last_Some_elem_of|].
      rewrite ICompare_keys_ok by (apply valid_key_nonempty; [done|apply Hf] || apply valid_key_nonempty, Hf || by apply valid_key_nonempty).
      cbn [mbind option_bind]. by rewrite (proj2 (Z.ltb_lt _ _)). }
    cbn [mbind option_bind]. destruct (file_ref_ok f h owners Hh) as (h1 & -> & Hh1 & Hn1); [apply Ho; left|]. cbn [mbind option_bind].
    destruct (IH (files ++ [f]) h1 (address f :: owners)) as (h' & E & Hh' & Hn').
    + apply Forall_app. split; [done|]. by apply Forall_singleton.
    + done.
    + intros g Hg. right. apply Ho. by right.
    + intros Hlev. rewrite <- app_assoc. by apply Hd.
    + rewrite <- app_assoc in E. exists h'. split; [exact E|]. split; [|congruence]. cbn [fmap list_fmap app].
      eapply heap_ok_perm; [|exact Hh']. by rewrite <- Permutation_middle.
Qed.

Lemma check_disjoint_ok files : Forall valid_file files -> disjoint files -> check_disjoint files = Some tt.
Proof.
  intros Hv Hd. induction Hd as [|f files Hd IH Hf]; [done|]. apply Forall_cons_1 in Hv as [Hvf Hv].
  destruct files as [|g files]; [done|]. change (check_disjoint (f :: g :: files)) with
    (r ← ICompare_keys (largest (meta f)) (smallest (meta g)); _ ← assert_ (r <? 0); check_disjoint (g :: files)). apply Forall_cons_1 in Hf as [Hlt%ICompare_lt _].
  rewrite ICompare_keys_ok by (apply valid_key_nonempty; first [apply Hvf|apply Forall_cons_1 in Hv as [(? & _) _]; done]).
  cbn [mbind option_bind]. rewrite (proj2 (Z.ltb_lt _ _)) by done. by apply IH.
Qed.

Lemma save_level_ok level s base h owners : sorted_files (added_files s) -> sorted_files base ->
  heap_ok h owners -> (forall f, f ∈ added_files s ++ base -> address f ∈ owners) ->
  let files := kept (deleted_files s) (merged (added_files s) base) in
  ((0 < level)%nat -> disjoint files) ->
  exists h', save_level level s base h = Some (files, h') /\ heap_ok h' ((address <$> files) ++ owners) /\
    next_address h' = next_address h.
Proof.
  intros Ha Hb Hh Ho files Hd. unfold save_level. rewrite merge_added_eq by (done || apply Ha).
  assert (Forall valid_file (merged (added_files s) base)) as Hv.
  { rewrite merged_perm. apply Forall_app. split; [apply Ha|apply Hb]. }
  destruct (add_files_ok level (deleted_files s) (merged (added_files s) base) [] h owners) as (h' & -> & Hh' & Hn');
    [constructor|done|done| |done|].
  { intros f. rewrite merged_perm. apply Ho. }
  cbn [mbind option_bind app]. fold files. exists h'. split; [|done].
  destruct (Nat.ltb_spec 0 level) as [Hlev|]; [|done]. rewrite check_disjoint_ok; [done| |by apply Hd].
  unfold files. by apply valid_filter.
Qed.

(** ** Only disjoint files are saved *)

(** The files that are added do not depend on the assertions. *)
Lemma add_files_value level (D : gset Z) l : forall files h files' h', add_files level D l (files, h) = Some (files', h') ->
  files' = files ++ kept D l.
Proof.
  induction l as [|f l IH]; intros files h files' h'; cbn [add_files].
  { intros [= <- _]. cbn. by rewrite app_nil_r. }
  unfold MaybeAddFile. destruct (decide (number (meta f) ∈ D)) as [Hin|Hin].
  - cbn [mbind option_bind]. intros ->%IH. by rewrite filter_cons_False by tauto.
  - intros ([fs h1] & (u & _ & (h2 & _ & [= <- <-])%bind_Some)%bind_Some & ->%IH)%bind_Some.
    by rewrite filter_cons_True, <- app_assoc by done.
Qed.

Lemma check_disjoint_sound files : Forall valid_file files -> check_disjoint files = Some tt -> disjoint files.
Proof.
  induction 1 as [|f files Hf Hv IH]; [constructor|]. destruct files as [|g files]; [by repeat constructor|].
  change (check_disjoint (f :: g :: files)) with
    (r ← ICompare_keys (largest (meta f)) (smallest (meta g)); _ ← assert_ (r <? 0); check_disjoint (g :: files)).
  assert (valid_file g) as Hg by by apply Forall_cons_1 in Hv as [? _].
  destruct Hf as (_ & Hfl & _). pose proof Hg as (Hgs & _ & _). rewrite ICompare_keys_ok by by apply valid_key_nonempty.
  cbn [mbind option_bind]. destruct (Z.ltb_spec (ICompare (largest (meta f)) (smallest (meta g))) 0) as [Hlt|]; [|done].
  cbn [assert_ mbind option_bind]. intros Hd%IH. constructor; [done|]. apply ICompare_lt in Hlt.
  apply StronglySorted_inv in Hd as [_ Hd]. constructor; [done|]. eapply List.Forall_impl; [|exact Hd].
  intros k Hk. destruct Hg as (_ & _ & Hg). eapply internal_lt_trans; [exact Hlt|]. by eapply internal_le_lt_trans.
Qed.

Lemma save_level_sound level s base h files h' : sorted_files (added_files s) -> sorted_files base -> (0 < level)%nat ->
  save_level level s base h = Some (files, h') -> disjoint (kept (deleted_files s) (merged (added_files s) base)).
Proof.
  intros Ha Hb Hlev. unfold save_level. rewrite merge_added_eq by (done || apply Ha). rewrite (proj2 (Nat.ltb_lt _ _)) by done.
  intros ([fs h1] & ->%add_files_value & ([] & Hc & _)%bind_Some)%bind_Some. apply check_disjoint_sound; [|exact Hc].
  apply valid_filter. rewrite merged_perm. apply Forall_app. split; [apply Ha|apply Hb].
Qed.
End builder.
