(* ===== verification/BuilderApply.v ===== *)
(** * Applying edits

    A builder that applies a sequence of edits and saves the result gives the
    files that the edits leave when each is carried out on the result of the one
    before. *)

From Stdlib Require Import Sorting.Sorted.
From stdpp Require Import base list sorting gmap.
From S2P Require Import Prelude Cursor Coding DbFormat VersionEdit VersionFiles VersionState Builder BuilderProps.

#[local] Open Scope Z_scope.

(** ** What an edit means *)

(** The entries of a list of an edit that are about one level. *)
Definition of_level {A} (level : nat) (l : list (Z * A)) : list A := snd <$> filter (fun p => p.1 = Z.of_nat level) l.

Definition edit_level (level : nat) (ms : list FileMetaData) (e : VersionEdit) : list FileMetaData :=
  filter (fun m => number m ∉ of_level level (deleted_files_ e)) ms ++ of_level level (new_files_ e).

(** The metadata that is left at a level, in any order. *)
Definition edits_level (level : nat) (es : list VersionEdit) (ms : list FileMetaData) : list FileMetaData :=
  foldl (edit_level level) ms es.

Definition added_by (level : nat) (es : list VersionEdit) : list FileMetaData :=
  mjoin ((fun e => of_level level (new_files_ e)) <$> es).

(** The compaction pointers: the last one of every level counts. *)
Definition edit_pointers (pointers : list (list Z)) (e : VersionEdit) : list (list Z) :=
  foldl (fun ps (p : Z * list Z) => <[Z.to_nat p.1 := p.2]> ps) pointers (compact_pointers_ e).

Lemma of_level_cons {A} level (l : list (Z * A)) n x :
  of_level level ((n, x) :: l) = if decide (n = Z.of_nat level) then x :: of_level level l else of_level level l.
Proof. unfold of_level. rewrite filter_cons. cbn [fst]. by destruct (decide (n = Z.of_nat level)). Qed.

Lemma added_by_app level es es' : added_by level (es ++ es') = added_by level es ++ added_by level es'.
Proof. unfold added_by. by rewrite fmap_app, join_app. Qed.

Lemma added_by_snoc level es e : added_by level (es ++ [e]) = added_by level es ++ of_level level (new_files_ e).
Proof. rewrite added_by_app. f_equal. unfold added_by. cbn. by rewrite app_nil_r. Qed.

Lemma filter_fmap {A B} (f : A -> B) (P : B -> Prop) `{!forall x, Decision (P x)} (l : list A) :
  filter P (f <$> l) = f <$> filter (fun x => P (f x)) l.
Proof.
  induction l as [|x l IH]; [done|]. rewrite fmap_cons. rewrite filter_cons, (filter_cons (fun x => P (f x))).
  destruct (decide (P (f x))); [by rewrite IH|exact IH].
Qed.

Lemma NoDup_fmap_filter {A B} (f : A -> B) (P : A -> Prop) `{!forall x, Decision (P x)} (l : list A) :
  NoDup (f <$> l) -> NoDup (f <$> filter P l).
Proof.
  induction l as [|x l IH]; [done|]. rewrite fmap_cons, list.NoDup_cons. intros [Hx Hl]. rewrite filter_cons.
  destruct (decide (P x)); [|by apply IH]. rewrite fmap_cons, list.NoDup_cons. split; [|by apply IH].
  intros (y & E & [_ Hy]%list_elem_of_filter)%list_elem_of_fmap. apply Hx, list_elem_of_fmap. by exists y.
Qed.

(** One edit on what was kept so far, in terms of the numbers that were deleted. *)
Lemma kept_step (D : gset Z) (dels : list Z) (ms news : list FileMetaData) : NoDup (number <$> (ms ++ news)) ->
  filter (fun m => number m ∉ (list_to_set dels ∪ D) ∖ list_to_set (number <$> news)) (news ++ ms) ≡ₚ
  filter (fun m => number m ∉ dels) (filter (fun m => number m ∉ D) ms) ++ news.
Proof.
  rewrite fmap_app. intros (_ & Hd & _)%list.NoDup_app. rewrite list.filter_app, filter_keeps_all.
  - rewrite Permutation_app_comm. f_equiv. rewrite list_filter_filter. erewrite filter_ext; [done|].
    intros m Hm. assert (number m ∉ number <$> news) as Hn by (apply Hd, list_elem_of_fmap; by exists m). set_solver.
  - intros m Hm. assert (number m ∈ number <$> news) by (apply list_elem_of_fmap; by exists m). set_solver.
Qed.

Lemma edits_level_app level es es' ms : edits_level level (es ++ es') ms = edits_level level es' (edits_level level es ms).
Proof. apply foldl_app. Qed.

#[export] Instance edit_level_proper level : Proper ((≡ₚ) ==> eq ==> (≡ₚ)) (edit_level level).
Proof. intros ms ms' Hms e e' <-. unfold edit_level. by rewrite Hms. Qed.

#[export] Instance edits_level_proper level es : Proper ((≡ₚ) ==> (≡ₚ)) (edits_level level es).
Proof.
  unfold edits_level. induction es as [|e es IH]; intros ms ms' Hms; cbn [foldl]; [done|]. apply IH. by rewrite Hms.
Qed.

(** Joining the added files of all levels after one level got another file. *)
Lemma join_insert {A B} (g : A -> list B) (ls : list A) i s s' f : ls !! i = Some s -> g s' ≡ₚ f :: g s ->
  mjoin (g <$> <[i := s']> ls) ≡ₚ f :: mjoin (g <$> ls).
Proof.
  revert i. induction ls as [|s0 ls IH]; intros [|i] Hi Hg; try done.
  - injection Hi as ->. cbn. by rewrite Hg.
  - cbn. rewrite (IH i Hi Hg). by rewrite Permutation_middle.
Qed.

Section apply.
Context `{ComparatorLaws} `{CodingLaws} `{!InternalKeyFormat, !InternalKeyFormatLaws}.
Context `{!InternalComparator, !InternalComparatorLaws}.
Implicit Types (f g : file) (m : FileMetaData) (es : list VersionEdit).

Definition valid_meta m : Prop := valid_key (smallest m) /\ valid_key (largest m) /\ ~ internal_lt (largest m) (smallest m).

Record edit_valid (e : VersionEdit) : Prop := {
  ev_pointers : Forall (fun p => level_ok p.1 /\ p.2 <> []) (compact_pointers_ e);
  ev_deleted : Forall (fun p => level_ok p.1) (deleted_files_ e);
  ev_new : Forall (fun p => level_ok p.1 /\ valid_meta p.2) (new_files_ e) }.

(** The levels are arrays of this length. *)
Abbreviation n_levels := (Z.to_nat kNumLevels).

Lemma level_ok_index level : level_ok level -> level_index level = Some (Z.to_nat level) /\ (Z.to_nat level < n_levels)%nat.
Proof. intros [Hl Hl']. unfold level_index. rewrite (proj2 (Z.leb_le _ _)) by done. split; [done|lia]. Qed.

Lemma change_level_ok level change b s s' : level_ok level -> levels_ b !! Z.to_nat level = Some s -> change s = Some s' ->
  change_level level change b = Some (mkBuilder (base_ b) (<[Z.to_nat level := s']> (levels_ b))).
Proof.
  intros Hl Hs Hg. unfold change_level. rewrite (proj1 (level_ok_index _ Hl)). cbn [mbind option_bind].
  rewrite Hs. cbn [mbind option_bind]. by rewrite Hg.
Qed.

Lemma apply_pointers_ok l pointers : Forall (fun p => level_ok p.1 /\ p.2 <> []) l -> length pointers = n_levels ->
  apply_pointers l pointers = Some (foldl (fun ps (p : Z * list Z) => <[Z.to_nat p.1 := p.2]> ps) pointers l).
Proof.
  intros Hl. revert pointers. induction Hl as [|[level key] l [Hlev Hkey] _ IH]; intros pointers Hp; [done|].
  cbn [apply_pointers fst snd] in *. destruct (level_ok_index _ Hlev) as [-> Hlt]. cbn [mbind option_bind].
  destruct (lookup_lt_is_Some_2 pointers (Z.to_nat level)) as [x ->]; [lia|]. cbn [mbind option_bind].
  assert (InternalKey_Encode key = Some key) as -> by (unfold InternalKey_Encode; by rewrite bool_decide_true).
  cbn [mbind option_bind]. rewrite IH; [done|].
  by rewrite length_insert.
Qed.

Lemma edit_pointers_length e pointers : length (edit_pointers pointers e) = length pointers.
Proof.
  unfold edit_pointers. revert pointers. induction (compact_pointers_ e) as [|p l IH]; intros pointers; [done|].
  cbn [foldl]. by rewrite IH, length_insert.
Qed.

(** ** Deleted files *)

Lemma apply_deleted_ok l b : Forall (fun p : Z * Z => level_ok p.1) l -> length (levels_ b) = n_levels ->
  exists b', apply_deleted l b = Some b' /\ base_ b' = base_ b /\ length (levels_ b') = n_levels /\
    (added_files <$> levels_ b') = (added_files <$> levels_ b) /\
    forall i s, levels_ b !! i = Some s ->
      levels_ b' !! i = Some (mkLevel (list_to_set (of_level i l) ∪ deleted_files s) (added_files s)).
Proof.
  intros Hl. revert b. induction Hl as [|[level n] l Hlev _ IH]; intros b Hb; cbn [apply_deleted fst] in *.
  { exists b. split_and!; [done..|]. intros i s ->. f_equal. destruct s. f_equal. set_solver. }
  destruct (level_ok_index _ Hlev) as [_ Hlt]. assert (Z.to_nat level < length (levels_ b))%nat as Hlt' by lia.
  destruct (lookup_lt_is_Some_2 (levels_ b) (Z.to_nat level)) as [s Hs]; [done|].
  erewrite change_level_ok by done. cbn [mbind option_bind].
  edestruct IH as (b' & -> & Eb & Hlen & Hadd & Hb'); [|exists b'; split; [done|]].
  { cbn [levels_]. by rewrite length_insert. }
  split; [done|]. split; [done|]. split.
  - rewrite Hadd. cbn [levels_]. rewrite list_fmap_insert. apply list_insert_id. by rewrite list_lookup_fmap, Hs.
  - intros i t Ht. rewrite of_level_cons. cbn [levels_] in Hb'. destruct (decide (i = Z.to_nat level)) as [->|Hne].
    + rewrite Hs in Ht. injection Ht as <-. rewrite decide_True by (rewrite Z2Nat.id; [done|apply Hlev]).
      rewrite (Hb' _ _ (list_lookup_insert_eq (levels_ b) _ _ Hlt')). cbn [deleted_files added_files]. do 2 f_equal. set_solver.
    + rewrite decide_False by (intros E; apply Hne; rewrite E; by rewrite Nat2Z.id). rewrite (Hb' i t); [done|]. by rewrite list_lookup_insert_ne.
Qed.

(** ** New files *)

(** What a level has to have for new files with these metadata. *)
Definition level_ready (s : LevelState) (news : list FileMetaData) : Prop :=
  sorted_files (added_files s) /\ NoDup (number <$> ((meta <$> added_files s) ++ news)).

Definition level_added (s s' : LevelState) (news : list FileMetaData) : Prop :=
  deleted_files s' = deleted_files s ∖ list_to_set (number <$> news) /\ sorted_files (added_files s') /\
  meta <$> added_files s' ≡ₚ news ++ (meta <$> added_files s).

Lemma level_ready_cons s m news f : level_ready s (m :: news) -> meta f = m -> valid_meta m ->
  exists added, set_insert_file f (added_files s) = Some added /\ added ≡ₚ f :: added_files s /\
    level_ready (mkLevel (deleted_files s ∖ {[ number m ]}) added) news.
Proof.
  intros [Hs Hn] Hm Hv. rewrite fmap_app, fmap_cons in Hn.
  assert (forall g : file, g ∈ added_files s -> number g <> number f) as Hnew.
  { intros g Hg E. apply list.NoDup_app in Hn as (_ & Hd & _). apply (Hd (number m)); [|left].
    rewrite <- list_fmap_compose. apply list_elem_of_fmap. exists g. split; [|done]. cbn. by rewrite E, Hm. }
  destruct (set_insert_file_ok f (added_files s)) as (added & -> & Hp & Hsorted); [done|by rewrite <- Hm in Hv|done|].
  exists added. split; [done|]. split; [done|]. split; [done|]. cbn [added_files].
  rewrite Hp, fmap_app, fmap_cons, Hm, fmap_cons. cbn [app]. by rewrite Permutation_middle.
Qed.

Lemma apply_new_ok l b h owners : Forall (fun p => level_ok p.1 /\ valid_meta p.2) l -> length (levels_ b) = n_levels ->
  heap_ok h owners -> (forall i s, levels_ b !! i = Some s -> level_ready s (of_level i l)) ->
  exists b' h' fs, apply_new l b h = Some (b', h') /\ base_ b' = base_ b /\ length (levels_ b') = n_levels /\
    heap_ok h' ((address <$> fs) ++ owners) /\ (next_address h <= next_address h')%positive /\
    Forall (fun f => (next_address h <= address f)%positive) fs /\
    mjoin (added_files <$> levels_ b') ≡ₚ fs ++ mjoin (added_files <$> levels_ b) /\
    forall i s, levels_ b !! i = Some s -> exists s', levels_ b' !! i = Some s' /\ level_added s s' (of_level i l).
Proof.
  intros Hl. revert b h owners. induction Hl as [|[level m] l [Hlev Hm] _ IH]; intros b h owners Hb Hh Hr; cbn [apply_new fst snd] in *.
  { exists b, h, []. split_and!; [done..|constructor|done|]. intros i s Hs. exists s. split; [done|]. split_and!; [set_solver| |done].
    by apply Hr in Hs as [? _]. }
  pose proof (new_file_ok m h owners Hh) as Hnew. destruct (new_file m h) as [f h1]. destruct Hnew as (Hmeta & _ & Haddr & Hh1 & Hn1).
  destruct (level_ok_index _ Hlev) as [_ Hlt]. assert (Z.to_nat level < length (levels_ b))%nat as Hlt' by lia.
  destruct (lookup_lt_is_Some_2 (levels_ b) (Z.to_nat level)) as [s Hs]; [done|].
  assert (level = Z.of_nat (Z.to_nat level)) as Elev by (rewrite Z2Nat.id; [done|apply Hlev]).
  pose proof (Hr _ _ Hs) as Hrs. rewrite of_level_cons, decide_True in Hrs by done.
  destruct (level_ready_cons s m _ f Hrs Hmeta Hm) as (added & Hins & Hp & Hrs').
  rewrite (change_level_ok level _ b s (mkLevel (deleted_files s ∖ {[ number m ]}) added)) by (done || by rewrite Hins).
  cbn [mbind option_bind].
  edestruct (IH (mkBuilder (base_ b) (<[Z.to_nat level := mkLevel (deleted_files s ∖ {[ number m ]}) added]> (levels_ b))) h1 (address f :: owners))
    as (b' & h' & fs & -> & Eb & Hlen & Hh' & Hn' & Hfs & Hjoin & Hlevels); [|exact Hh1|..].
  { cbn [levels_]. by rewrite length_insert. }
  { cbn [levels_]. intros i t. destruct (decide (i = Z.to_nat level)) as [->|Hne].
    - rewrite list_lookup_insert_eq by lia. by intros [= <-].
    - rewrite list_lookup_insert_ne by done. intros Ht%Hr. by rewrite of_level_cons, decide_False in Ht by (intros E; apply Hne; rewrite E; by rewrite Nat2Z.id). }
  exists b', h', (fs ++ [f]). split; [done|]. split; [done|]. split; [done|].
  split; [rewrite fmap_app, <- app_assoc; exact Hh'|]. split; [lia|]. split.
  { apply Forall_app. split; [|by apply Forall_singleton; lia]. eapply List.Forall_impl; [|exact Hfs]. cbn. lia. }
  split.
  { rewrite Hjoin. cbn [levels_]. rewrite (join_insert added_files _ _ s (mkLevel (deleted_files s ∖ {[ number m ]}) added) f Hs Hp). by rewrite <- app_assoc. }
  intros i t Ht. rewrite of_level_cons. destruct (decide (i = Z.to_nat level)) as [->|Hne].
  - rewrite Hs in Ht. injection Ht as <-. rewrite decide_True by done.
    destruct (Hlevels (Z.to_nat level) _ (list_lookup_insert_eq (levels_ b) _ _ Hlt')) as (s' & Hs' & Hd & Hso & Hpm).
    exists s'. split; [done|]. split_and!; [|done|].
    + rewrite Hd. cbn [deleted_files]. rewrite fmap_cons. set_solver.
    + rewrite Hpm. cbn [added_files]. rewrite Hp, fmap_cons, Hmeta. by rewrite <- Permutation_middle.
  - rewrite decide_False by (intros E; apply Hne; rewrite E; by rewrite Nat2Z.id). apply Hlevels. cbn [levels_]. by rewrite list_lookup_insert_ne.
Qed.

(** ** A sequence of edits *)

(** File numbers are not used twice at a level. *)
Definition fresh_numbers (base : Version) es : Prop := forall i files, files_ base !! i = Some files ->
  NoDup (number <$> ((meta <$> files) ++ added_by i es)).

(** The builder after the edits; [next] was the next address when it started. *)
Record built (base : Version) es (owners : list positive) (next : positive) (b : Builder) (h : FileHeap) : Prop := {
  bt_base : base_ b = base;
  bt_length : length (levels_ b) = n_levels;
  bt_heap : heap_ok h ((address <$> mjoin (added_files <$> levels_ b)) ++ owners);
  bt_next : (next <= next_address h)%positive;
  bt_new : Forall (fun f => (next <= address f)%positive) (mjoin (added_files <$> levels_ b));
  bt_level i s files : levels_ b !! i = Some s -> files_ base !! i = Some files ->
    sorted_files (added_files s) /\ meta <$> added_files s ≡ₚ added_by i es /\
    filter (fun m => number m ∉ deleted_files s) ((meta <$> added_files s) ++ (meta <$> files)) ≡ₚ
      edits_level i es (meta <$> files) }.

Lemma Builder_new_built base owners h : heap_ok h owners -> built base [] owners (next_address h) (Builder_new base) h.
Proof.
  intros Hh. assert (mjoin (added_files <$> levels_ (Builder_new base)) = []) as E by reflexivity.
  split; [done|done|by rewrite E|done|by rewrite E|]. intros i s files Hs _. cbn [levels_ Builder_new] in Hs.
  apply list_elem_of_lookup_2, elem_of_replicate_inv in Hs as ->. split; [split; constructor|]. split; [done|].
  cbn [deleted_files added_files fmap list_fmap app]. by rewrite filter_keeps_all by set_solver.
Qed.

(** What [Apply] does to one level. *)
Lemma level_step i s s' files es e : let news := of_level i (new_files_ e) in
  meta <$> added_files s ≡ₚ added_by i es ->
  filter (fun m => number m ∉ deleted_files s) ((meta <$> added_files s) ++ (meta <$> files)) ≡ₚ edits_level i es (meta <$> files) ->
  NoDup (number <$> ((meta <$> files) ++ added_by i (es ++ [e]))) ->
  level_added (mkLevel (list_to_set (of_level i (deleted_files_ e)) ∪ deleted_files s) (added_files s)) s' news ->
  sorted_files (added_files s') /\ meta <$> added_files s' ≡ₚ added_by i (es ++ [e]) /\
  filter (fun m => number m ∉ deleted_files s') ((meta <$> added_files s') ++ (meta <$> files)) ≡ₚ
    edits_level i (es ++ [e]) (meta <$> files).
Proof.
  intros news Hadd Hkept Hn (Hd & Hs & Hp). cbn [deleted_files added_files] in *. rewrite added_by_snoc in *. fold news in Hn |- *.
  split; [done|]. split; [by rewrite Hp, Hadd, Permutation_app_comm|].
  rewrite edits_level_app. cbn [edits_level foldl]. unfold edit_level at 1. rewrite <- Hkept. rewrite Hp, <- app_assoc, Hd.
  apply kept_step. by rewrite Hadd, (Permutation_app_comm (added_by i es)), <- app_assoc.
Qed.

Lemma Apply_ok base es owners next b h e pointers : built base es owners next b h -> length (files_ base) = n_levels ->
  edit_valid e -> fresh_numbers base (es ++ [e]) -> length pointers = n_levels ->
  exists b' h', Apply e b pointers h = Some (b', edit_pointers pointers e, h') /\ built base (es ++ [e]) owners next b' h'.
Proof.
  intros [Hbase Hlen Hheap Hnext Hnew Hlevel] Hbl He Hfresh Hp. unfold Apply.
  rewrite apply_pointers_ok by (done || apply (ev_pointers _ He)). cbn [mbind option_bind].
  destruct (apply_deleted_ok (deleted_files_ e) b (ev_deleted _ He) Hlen) as (b1 & -> & Eb1 & Hlen1 & Hadd1 & Hb1). cbn [mbind option_bind].
  assert (forall i s, levels_ b1 !! i = Some s -> exists s0 files, levels_ b !! i = Some s0 /\ files_ base !! i = Some files /\
    s = mkLevel (list_to_set (of_level i (deleted_files_ e)) ∪ deleted_files s0) (added_files s0)) as Hinv.
  { intros i s Hs. pose proof (lookup_lt_Some _ _ _ Hs) as Hlt. destruct (lookup_lt_is_Some_2 (levels_ b) i) as [s0 Hs0]; [lia|].
    destruct (lookup_lt_is_Some_2 (files_ base) i) as [files Hf]; [lia|]. exists s0, files. split_and!; [done..|].
    rewrite (Hb1 i s0 Hs0) in Hs. by injection Hs as <-. }
  destruct (apply_new_ok (new_files_ e) b1 h ((address <$> mjoin (added_files <$> levels_ b)) ++ owners) (ev_new _ He) Hlen1 Hheap)
    as (b' & h' & fs & -> & Eb' & Hlen' & Hh' & Hn' & Hfs & Hjoin & Hb').
  { intros i s Hs. destruct (Hinv i s Hs) as (s0 & files & Hs0 & Hf & ->). destruct (Hlevel i s0 files Hs0 Hf) as (Hso & Hadd & _).
    split; [done|]. cbn [added_files]. rewrite Hadd, <- added_by_snoc. specialize (Hfresh i files Hf). rewrite fmap_app in Hfresh.
    by apply list.NoDup_app in Hfresh as (_ & _ & ?). }
  cbn [mbind option_bind]. exists b', h'. split; [done|]. rewrite Hadd1 in Hjoin. split; [congruence|done|..].
  - rewrite Hjoin, fmap_app, <- app_assoc. exact Hh'.
  - lia.
  - rewrite Hjoin. apply Forall_app. split; [|done]. eapply List.Forall_impl; [|exact Hfs]. cbn. lia.
  - intros i s' files Hs' Hf. pose proof (lookup_lt_Some _ _ _ Hs') as Hlt. destruct (lookup_lt_is_Some_2 (levels_ b) i) as [s0 Hs0]; [lia|].
    destruct (Hlevel i s0 files Hs0 Hf) as (_ & Hadd & Hkept).
    destruct (Hb' i _ (Hb1 i s0 Hs0)) as (s'' & Hs'' & Hlev). rewrite Hs' in Hs''. injection Hs'' as <-.
    by apply (level_step i s0 s' files es e Hadd Hkept (Hfresh i files Hf)).
Qed.

Fixpoint apply_edits es (b : Builder) (pointers : list (list Z)) (h : FileHeap) : option (Builder * list (list Z) * FileHeap) :=
  match es with
  | [] => Some (b, pointers, h)
  | e :: es => '(b, pointers, h) ← Apply e b pointers h; apply_edits es b pointers h
  end.

Lemma fresh_numbers_prefix base es es' : fresh_numbers base (es ++ es') -> fresh_numbers base es.
Proof.
  intros Hf i files Hi. specialize (Hf i files Hi). rewrite added_by_app, app_assoc, fmap_app in Hf.
  by apply list.NoDup_app in Hf as (? & _ & _).
Qed.

Lemma apply_edits_ok base done es owners next b h pointers : built base done owners next b h -> length (files_ base) = n_levels ->
  Forall edit_valid es -> fresh_numbers base (done ++ es) -> length pointers = n_levels ->
  exists b' h', apply_edits es b pointers h = Some (b', foldl edit_pointers pointers es, h') /\ built base (done ++ es) owners next b' h'.
Proof.
  intros Hb Hl He. revert done b h pointers Hb. induction He as [|e es He _ IH]; intros done b h pointers Hb Hf Hp; cbn [apply_edits].
  { exists b, h. by rewrite app_nil_r. }
  rewrite cons_middle, app_assoc in Hf.
  destruct (Apply_ok base done owners next b h e pointers Hb Hl He) as (b1 & h1 & -> & Hb1); [by eapply fresh_numbers_prefix|done|].
  cbn [mbind option_bind]. destruct (IH (done ++ [e]) b1 h1 (edit_pointers pointers e) Hb1 Hf) as (b' & h' & -> & Hb').
  { by rewrite edit_pointers_length. }
  exists b', h'. split; [done|]. by rewrite <- app_assoc in Hb'.
Qed.
End apply.
