(* ===== verification/BuilderSave.v ===== *)
(** * The version that is built

    [SaveTo] after a sequence of edits gives at every level the files that the
    edits leave, sorted by their smallest keys; the files of the base version that
    are kept are shared, and the counts of the references are exact. *)

From Stdlib Require Import String Sorting.Sorted.
From stdpp Require Import base list sorting gmap.
From S2P Require Import Prelude Cursor Coding DbFormat VersionEdit VersionFiles VersionState Builder BuilderProps BuilderApply.

#[local] Open Scope Z_scope.

Definition file_addresses (v : Version) : list positive := address <$> mjoin (files_ v).

Section save.
Context `{ComparatorLaws} `{CodingLaws} `{!InternalKeyFormat, !InternalKeyFormatLaws}.
Context `{!InternalComparator, !InternalComparatorLaws}.
Implicit Types (f g : file) (m : FileMetaData) (es : list VersionEdit).

(** ** The specification of a level *)

Definition not_after m m' : Prop := ~ by_smallest m' m.

#[export] Instance not_after_dec m m' : Decision (not_after m m').
Proof. unfold not_after. apply _. Defined.

(** The files that the edits leave, in order. *)
Definition sorted_level (level : nat) es (ms : list FileMetaData) : list FileMetaData :=
  merge_sort not_after (edits_level level es ms).

#[export] Instance not_after_total : Total not_after.
Proof.
  intros m m'. unfold not_after. destruct (decide (by_smallest m' m)) as [Hm|]; [|by left].
  right. by apply by_smallest_asym.
Qed.

#[export] Instance not_after_trans : Transitive not_after.
Proof.
  intros m1 m2 m3 H12 H23 H31. unfold not_after, by_smallest in *.
  destruct H31 as [H31|[H13 Hn]].
  - destruct (decide (internal_lt (smallest m2) (smallest m1))) as [?|H21]; [by apply H12; left|].
    apply H23. left. by eapply internal_lt_le_trans.
  - destruct (decide (internal_lt (smallest m2) (smallest m1))) as [?|H21]; [by apply H12; left|].
    destruct (decide (internal_lt (smallest m3) (smallest m2))) as [?|H32]; [by apply H23; left|].
    assert (~ internal_lt (smallest m1) (smallest m2)) as H12'.
    { intros Hlt. apply H13. by eapply internal_lt_le_trans. }
    assert (~ internal_lt (smallest m2) (smallest m3)) as H23'.
    { intros Hlt. apply H13. by eapply internal_le_lt_trans. }
    assert (number m1 <= number m2) by (apply Z.nlt_ge; intros ?; apply H12; by right).
    assert (number m2 <= number m3) by (apply Z.nlt_ge; intros ?; apply H23; by right). lia.
Qed.

#[export] Instance by_smallest_antisym : AntiSymm (=) by_smallest.
Proof. intros m m' Hm Hm'. by apply by_smallest_asym in Hm. Qed.

(** Files of different numbers that are in order are strictly so. *)
Lemma sorted_strict ms : StronglySorted not_after ms -> NoDup (number <$> ms) -> StronglySorted by_smallest ms.
Proof.
  induction 1 as [|m ms Hs IH Hm]; [constructor|]. rewrite fmap_cons, list.NoDup_cons. intros [Hn Hd].
  constructor; [by apply IH|]. rewrite list.Forall_forall in Hm |- *. intros m' Hm'.
  destruct (by_smallest_total m m') as [|Hlt]; [|done|by apply Hm in Hm'].
  intros E. apply Hn. rewrite E. apply list_elem_of_fmap. by exists m'.
Qed.

Lemma edits_level_NoDup i es ms : NoDup (number <$> (ms ++ added_by i es)) -> NoDup (number <$> edits_level i es ms).
Proof.
  revert ms. induction es as [|e es IH]; intros ms; [by rewrite app_nil_r|]. cbn [edits_level foldl]. intros Hn. apply IH.
  unfold edit_level. change (e :: es) with ([e] ++ es) in Hn. rewrite added_by_app, app_assoc in Hn.
  assert (added_by i [e] = of_level i (new_files_ e)) as E by (unfold added_by; cbn; by rewrite app_nil_r). rewrite E in Hn.
  rewrite !fmap_app, <- app_assoc in Hn |- *. apply list.NoDup_app in Hn as (Hms & Hd & Hrest). apply list.NoDup_app.
  split; [by apply NoDup_fmap_filter|]. split; [|done].
  intros n (m & -> & [_ Hm]%list_elem_of_filter)%list_elem_of_fmap. apply Hd, list_elem_of_fmap. by exists m.
Qed.

(** Files that are sorted and have the metadata that is left, have them in order. *)
Lemma sorted_level_unique i es files files' : NoDup (number <$> ((meta <$> files) ++ added_by i es)) -> sorted_files files' ->
  meta <$> files' ≡ₚ edits_level i es (meta <$> files) -> meta <$> files' = sorted_level i es (meta <$> files).
Proof.
  intros Hn [Hs _] Hp. apply (StronglySorted_unique by_smallest).
  - by eapply StronglySorted_fmap; [|exact Hs].
  - apply sorted_strict; [apply StronglySorted_merge_sort; apply _|]. unfold sorted_level. rewrite merge_sort_Permutation.
    by apply edits_level_NoDup.
  - unfold sorted_level. by rewrite merge_sort_Permutation.
Qed.

(** The ranges of the files of a level above 0. *)
Definition ranges_disjoint (ms : list FileMetaData) : Prop := StronglySorted (fun m m' => internal_lt (largest m) (smallest m')) ms.

Lemma ranges_disjoint_files files : ranges_disjoint (meta <$> files) -> disjoint files.
Proof.
  unfold ranges_disjoint, disjoint. induction files as [|f files IH]; [constructor|]. rewrite fmap_cons.
  intros [Hs Hf]%StronglySorted_inv. constructor; [by apply IH|]. rewrite list.Forall_forall in Hf. apply list.Forall_forall. intros g Hg.
  apply Hf, list_elem_of_fmap. by exists g.
Qed.

Lemma ranges_disjoint_meta files : disjoint files -> ranges_disjoint (meta <$> files).
Proof. intros Hd. by eapply StronglySorted_fmap; [|exact Hd]. Qed.

(** ** Saving all levels *)

(** The files of a level, from the state of the builder. *)
Abbreviation saved s files := (filter (fun f : file => number f ∉ deleted_files s) (merged (added_files s) files)).

Lemma save_levels_ok level ls bases h owners : length ls = length bases -> heap_ok h owners ->
  (forall i s files, ls !! i = Some s -> bases !! i = Some files ->
    sorted_files (added_files s) /\ sorted_files files /\ (forall f, f ∈ added_files s ++ files -> address f ∈ owners) /\
    ((0 < level + i)%nat -> disjoint (saved s files))) ->
  exists levels h', save_levels level ls bases h = Some (levels, h') /\ length levels = length ls /\
    heap_ok h' ((address <$> mjoin levels) ++ owners) /\ next_address h' = next_address h /\
    forall i s files, ls !! i = Some s -> bases !! i = Some files -> levels !! i = Some (saved s files).
Proof.
  revert level bases h owners. induction ls as [|s ls IH]; intros level [|base bases] h owners Hlen Hh Hok; try done; cbn [save_levels].
  { by exists [], h. }
  cbn [lookup list_lookup mbind option_bind drop].
  destruct (Hok 0%nat s base eq_refl eq_refl) as (Ha & Hb & Ho & Hd). rewrite Nat.add_0_r in Hd.
  destruct (save_level_ok level s base h owners Ha Hb Hh Ho Hd) as (h1 & -> & Hh1 & Hn1). cbn [mbind option_bind].
  destruct (IH (S level) bases h1 ((address <$> saved s base) ++ owners)) as (levels & h' & E & Hl & Hh' & Hn' & Hlev);
    [by injection Hlen|done| |].
  { intros i t files Ht Hf. destruct (Hok (S i) t files Ht Hf) as (Ha' & Hb' & Ho' & Hd'). rewrite Nat.add_succ_r in Hd'.
    split_and!; [done..| |done]. intros f Hf'. apply elem_of_app. right. by apply Ho'. }
  rewrite drop_0, E. cbn [mbind option_bind]. exists (saved s base :: levels), h'. split; [done|]. split; [by cbn; rewrite Hl|].
  split; [|split; [congruence|]].
  - eapply heap_ok_perm; [|exact Hh']. cbn [mjoin list_join]. rewrite fmap_app, <- app_assoc. apply Permutation_app_swap_app.
  - intros [|i] t files Ht Hf; [by injection Ht as <-; injection Hf as <-|]. by apply Hlev.
Qed.

(** If the levels are saved, the files of those above 0 are disjoint. *)
Lemma save_levels_sound level ls bases h levels h' : save_levels level ls bases h = Some (levels, h') ->
  forall i s files, ls !! i = Some s -> bases !! i = Some files -> sorted_files (added_files s) -> sorted_files files ->
    (0 < level + i)%nat -> disjoint (saved s files).
Proof.
  revert level bases h levels h'. induction ls as [|s ls IH]; intros level bases h levels h' E i t files Ht Hf Ha Hb Hi; [done|].
  cbn [save_levels] in E. apply bind_Some in E as (base & Hbase & ([fs h1] & E1 & ([fss h2] & E2 & _)%bind_Some)%bind_Some).
  destruct i as [|i].
  - injection Ht as <-. rewrite Hf in Hbase. injection Hbase as <-. rewrite Nat.add_0_r in Hi. by eapply save_level_sound.
  - eapply IH; [exact E2|exact Ht| |done|done|lia]. by rewrite lookup_drop.
Qed.

(** The levels have sorted files. *)
Record version_sorted (v : Version) : Prop := {
  vso_length : length (files_ v) = Z.to_nat kNumLevels;
  vso_sorted i files : files_ v !! i = Some files -> sorted_files files }.

Lemma file_address v i files f : files_ v !! i = Some files -> f ∈ files -> address f ∈ file_addresses v.
Proof.
  intros Hi Hf. apply list_elem_of_fmap. exists f. split; [done|]. apply list_elem_of_join. exists files.
  split; [done|]. by apply list_elem_of_lookup_2 in Hi.
Qed.

(** The version that a builder saves. *)
Record saves (base v : Version) es (next : positive) : Prop := {
  sv_sorted : version_sorted v;
  sv_files i files : files_ base !! i = Some files -> exists files', files_ v !! i = Some files' /\
    meta <$> files' = sorted_level i es (meta <$> files) /\
    forall f, f ∈ files' -> f ∈ files \/ (next <= address f)%positive }.

(** What a level becomes, from what the edits left in the builder. *)
Lemma built_saved base es all next b h : (forall i files, files_ base !! i = Some files -> sorted_files files) ->
  built base es all next b h -> fresh_numbers base es ->
  forall i s files, levels_ b !! i = Some s -> files_ base !! i = Some files ->
    sorted_files (saved s files) /\ meta <$> saved s files = sorted_level i es (meta <$> files).
Proof.
  intros Hbs [_ _ _ _ _ Hlevel] Hfresh.
  intros i s files Hs Hf. destruct (Hlevel i s files Hs Hf) as (Ha & Hadd & Hkept).
    assert (sorted_files (merged (added_files s) files)) as Hm.
    { apply merged_sorted; [done|by apply (Hbs i)|]. intros f g Hf' Hg E. specialize (Hfresh i files Hf).
      rewrite fmap_app in Hfresh. apply list.NoDup_app in Hfresh as (_ & Hd & _). apply (Hd (number f)).
      - rewrite E, <- list_fmap_compose. apply list_elem_of_fmap. by exists g.
      - rewrite <- Hadd, <- list_fmap_compose. apply list_elem_of_fmap. by exists f. }
    split; [by apply sorted_files_filter|]. apply sorted_level_unique; [by apply Hfresh|by apply sorted_files_filter|].
    rewrite <- fmap_app, filter_fmap in Hkept. rewrite merged_perm. exact Hkept.
Qed.

Lemma SaveTo_ok base es owners next b h : version_sorted base -> built base es (file_addresses base ++ owners) next b h ->
  fresh_numbers base es ->
  (forall i files, (0 < i)%nat -> files_ base !! i = Some files -> ranges_disjoint (sorted_level i es (meta <$> files))) ->
  exists v h1 h2, SaveTo b h = Some (v, h1) /\ Builder_delete b h1 = Some h2 /\ saves base v es next /\
    heap_ok h2 (file_addresses v ++ file_addresses base ++ owners).
Proof.
  intros [Hbl Hbs] Hb Hfresh Hdis. unfold SaveTo.
  pose proof (built_saved base es _ _ b h Hbs Hb Hfresh) as Hsaved. destruct Hb as [Hbase Hlen Hheap _ Hnew Hlevel]. rewrite Hbase.
  destruct (save_levels_ok 0 (levels_ b) (files_ base) h ((address <$> mjoin (added_files <$> levels_ b)) ++ file_addresses base ++ owners))
    as (levels & h1 & -> & Hll & Hh1 & _ & Hlev); [congruence|done| |].
  { intros i s files Hs Hf. destruct (Hlevel i s files Hs Hf) as (Ha & _ & _). destruct (Hsaved i s files Hs Hf) as [_ E].
    split; [done|]. split; [by apply (Hbs i)|]. split.
    - intros f [Hf'|Hf']%elem_of_app; apply elem_of_app; [left|right; apply elem_of_app; left; by eapply file_address].
      apply list_elem_of_fmap. exists f. split; [done|]. apply list_elem_of_join. exists (added_files s). split; [done|].
      apply list_elem_of_fmap. exists s. split; [done|]. by eapply list_elem_of_lookup_2.
    - intros Hi. apply ranges_disjoint_files. rewrite E. by apply Hdis. }
  cbn [mbind option_bind]. exists (version_of levels), h1.
  destruct (file_unrefs_ok (mjoin (added_files <$> levels_ b)) h1 (file_addresses (version_of levels) ++ file_addresses base ++ owners))
    as (h2 & Hdel & Hh2 & _).
  { eapply heap_ok_perm; [|exact Hh1]. unfold file_addresses. cbn [files_ version_of]. apply Permutation_app_swap_app. }
  exists h2. split; [done|]. split; [exact Hdel|]. split; [|done].
  assert (forall i files, levels !! i = Some files -> exists s bs, levels_ b !! i = Some s /\ files_ base !! i = Some bs /\ files = saved s bs) as Hback.
  { intros i files Hi. pose proof (lookup_lt_Some _ _ _ Hi) as Hlt. destruct (lookup_lt_is_Some_2 (levels_ b) i) as [s Hs]; [lia|].
    destruct (lookup_lt_is_Some_2 (files_ base) i) as [bs Hbs']; [lia|]. exists s, bs. split_and!; [done..|].
    rewrite (Hlev i s bs Hs Hbs') in Hi. by injection Hi as <-. }
  split.
  - split; [cbn [files_ version_of]; congruence|]. intros i files (s & bs & Hs & Hbs' & ->)%Hback. by apply (Hsaved i).
  - intros i files Hf. destruct (lookup_lt_is_Some_2 (levels_ b) i) as [s Hs]; [apply lookup_lt_Some in Hf; lia|].
    exists (saved s files). split; [by apply Hlev|]. split; [by apply Hsaved|].
    intros f [_ Hf']%list_elem_of_filter. rewrite merged_perm in Hf'. apply elem_of_app in Hf' as [Hf'|Hf']; [right|by left].
    rewrite list.Forall_forall in Hnew. apply Hnew, list_elem_of_join. exists (added_files s). split; [done|].
    apply list_elem_of_fmap. exists s. split; [done|]. by eapply list_elem_of_lookup_2.
Qed.

(** ** Building *)

(** What the edits must be like for the base: the files are well formed, numbers are
    not used twice, and the files that are left above level 0 are disjoint. *)
Record edits_fit (base : Version) es : Prop := {
  ef_valid : Forall edit_valid es;
  ef_fresh : fresh_numbers base es;
  ef_disjoint i files : (0 < i)%nat -> files_ base !! i = Some files -> ranges_disjoint (sorted_level i es (meta <$> files)) }.

(** A builder from its construction to its destruction. *)
Definition build es (base : Version) (pointers : list (list Z)) (h : FileHeap) : option (Version * list (list Z) * FileHeap) :=
  '(b, pointers, h) ← apply_edits es (Builder_new base) pointers h; '(v, h) ← SaveTo b h; h ← Builder_delete b h;
  Some (v, pointers, h).

Lemma build_ok base es owners h pointers : version_sorted base -> edits_fit base es -> length pointers = Z.to_nat kNumLevels ->
  heap_ok h (file_addresses base ++ owners) ->
  exists v h', build es base pointers h = Some (v, foldl edit_pointers pointers es, h') /\ saves base v es (next_address h) /\
    heap_ok h' (file_addresses v ++ file_addresses base ++ owners).
Proof.
  intros Hs [Hv Hf Hd] Hp Hh. unfold build.
  destruct (apply_edits_ok base [] es (file_addresses base ++ owners) (next_address h) (Builder_new base) h pointers)
    as (b & h1 & -> & Hb); [by apply Builder_new_built|apply Hs|done..|]. cbn [mbind option_bind].
  destruct (SaveTo_ok base es owners _ b h1 Hs Hb Hf Hd) as (v & h2 & h3 & -> & E & Hsv & Hh3). cbn [mbind option_bind].
  rewrite E. cbn [mbind option_bind]. by exists v, h3.
Qed.

(** What is saved is disjoint above level 0: otherwise an assertion fails. *)
Lemma build_sound base es owners h pointers r : version_sorted base -> Forall edit_valid es -> fresh_numbers base es ->
  length pointers = Z.to_nat kNumLevels -> heap_ok h (file_addresses base ++ owners) ->
  build es base pointers h = Some r -> edits_fit base es.
Proof.
  intros Hs Hv Hf Hp Hh. unfold build.
  destruct (apply_edits_ok base [] es (file_addresses base ++ owners) (next_address h) (Builder_new base) h pointers)
    as (b & h1 & -> & Hb); [by apply Builder_new_built|apply Hs|done..|]. cbn [mbind option_bind].
  intros ([v h2] & ([levels h3] & E & _)%bind_Some & _)%bind_Some. split; [done..|]. intros i files Hi Hfiles.
  pose proof (built_saved base es _ _ b h1 (vso_sorted _ Hs) Hb Hf) as Hsaved. destruct Hb as [Hbase Hlen _ _ _ Hlevel].
  rewrite Hbase in E. destruct (lookup_lt_is_Some_2 (levels_ b) i) as [s Hlv].
  { pose proof (vso_length _ Hs). apply lookup_lt_Some in Hfiles. lia. }
  destruct (Hsaved i s files Hlv Hfiles) as [_ <-]. apply ranges_disjoint_meta.
  eapply save_levels_sound; [exact E|exact Hlv|exact Hfiles|by apply (Hlevel i s files)|by apply (vso_sorted _ Hs i)|lia].
Qed.

(** Above level 0 the files that the edits leave have disjoint ranges. *)
Definition leaves_disjoint (base : Version) es : Prop :=
  forall level files, (0 < level)%nat -> files_ base !! level = Some files ->
    ranges_disjoint (merge_sort not_after (foldl (edit_level level) (meta <$> files) es)).


(** C27 (safety): when a new version has been built and the version it was built from
    is deleted, the metadata that is left is that of the files of the new version
    and of the other owners, each counted as often as it is owned: no file of a
    live version is freed, and no other is kept. *)
Theorem replaced_version_frees base es owners h pointers : version_sorted base -> edits_fit base es ->
  length pointers = Z.to_nat kNumLevels -> heap_ok h (file_addresses base ++ owners) ->
  exists v h1 h2, build es base pointers h = Some (v, foldl edit_pointers pointers es, h1) /\ Version_delete base h1 = Some h2 /\
    forall a, refs h2 !! a = if decide (a ∈ file_addresses v ++ owners) then Some (Z.of_nat (occurs a (file_addresses v ++ owners))) else None.
Proof.
  intros Hs He Hp Hh. destruct (build_ok base es owners h pointers Hs He Hp Hh) as (v & h1 & E & _ & Hh1).
  destruct (Version_delete_ok base h1 (file_addresses v ++ owners)) as (h2 & Hdel & Hh2 & _).
  { eapply heap_ok_perm; [|exact Hh1]. apply Permutation_app_swap_app. }
  exists v, h1, h2. split; [done|]. split; [exact Hdel|]. apply Hh2.
Qed.
End save.

(** ** An edit of the demo level

    The compaction of the files 8 and 9 to level 2. *)

Section demo.
#[local] Existing Instances by_bytes by_bytes_laws reference_coding reference_coding_laws reference_format
  reference_format_laws reference_icmp reference_icmp_laws.

Definition edited_version : Version := version_of ([[]; demo_level] ++ replicate 5 []).

Definition compaction_edit : VersionEdit :=
  Edit [] 0 0 0 0 false false false false false [(1, ikey 8 4)] [(1, 8); (1, 9)] [(2, FileMeta 10 500 (ikey 4 12) (ikey 8 4))].

(** The heap after the three files of the level were allocated. *)
Definition edited_heap : FileHeap := foldl (fun h f => (new_file (meta f) h).2) (mkHeap 7 ∅ ∅) demo_level.

Definition no_pointers : list (list Z) := replicate 7 [].

Example demo_build :
  ('(v, pointers, h) ← build [compaction_edit] edited_version no_pointers edited_heap;
   h ← Version_delete edited_version h;
   Some (map (map address) (files_ v), pointers !! 1%nat, map_to_list (refs h))) =
  Some ([[]; [7]; [10]; []; []; []; []]%positive, Some (ikey 8 4), [(7%positive, 1); (10%positive, 1)]).
Proof. vm_compute. reflexivity. Qed.

Lemma edited_sorted : version_sorted edited_version.
Proof.
  split; [reflexivity|]. intros level files Hl. assert (sorted_files []) as Hnil by (split; [apply SSorted_nil|by apply List.Forall_nil]).
  destruct level as [|[|level]].
  - by injection Hl as <-.
  - injection Hl as <-. split; [|apply (lf_valid _ demo_level_files)].
    repeat first [apply SSorted_nil|apply SSorted_cons|apply List.Forall_nil|apply List.Forall_cons]; by_compute.
  - assert (files = []) as -> by (apply (elem_of_replicate_inv _ 5), (list_elem_of_lookup_2 _ level); exact Hl). done.
Qed.

Lemma compaction_edit_fits : edits_fit edited_version [compaction_edit].
Proof.
  split.
  - apply List.Forall_cons; [|apply List.Forall_nil].
    assert (level_ok 1 /\ level_ok 2) as [H1 H2] by (unfold level_ok, kNumLevels; lia). split.
    + apply List.Forall_cons; [by split|apply List.Forall_nil].
    + repeat apply List.Forall_cons; try apply List.Forall_nil; done.
    + apply List.Forall_cons; [|apply List.Forall_nil]. split; [done|].
      split; [apply valid_ikey; by_compute|]. split; [apply valid_ikey; by_compute|by_compute].
  - intros level files Hl. do 7 (destruct level as [|level]; [injection Hl as <-; apply (bool_decide_unpack _); vm_compute; exact I|]). done.
  - intros level files _ Hl. do 7 (destruct level as [|level]; [injection Hl as <-; repeat first [apply SSorted_nil|apply SSorted_cons|apply List.Forall_nil|apply List.Forall_cons]; by_compute|]). done.
Qed.
Lemma edited_heap_ok : heap_ok edited_heap (file_addresses edited_version ++ []).
Proof.
  assert (heap_ok (mkHeap 7 ∅ ∅) []) as H0.
  { split; intros a; [done| |by intros ?%elem_of_nil]. split; [by intros []|by intros ?%elem_of_nil]. }
  pose proof (new_file_ok (demo_file 7 100 1 10 2 11) _ _ H0) as (_ & _ & _ & H1 & _).
  pose proof (new_file_ok (demo_file 8 200 4 12 5 13) _ _ H1) as (_ & _ & _ & H2 & _).
  pose proof (new_file_ok (demo_file 9 300 5 3 8 4) _ _ H2) as (_ & _ & _ & H3 & _).
  eapply heap_ok_perm; [|exact H3]. by_compute.
Qed.

(** An edit that leaves two overlapping files at level 1. *)
Definition overlapping_edit : VersionEdit :=
  Edit [] 0 0 0 0 false false false false false [] [] [(1, FileMeta 10 500 (ikey 2 20) (ikey 4 12))].

Lemma overlapping_edit_valid : Forall edit_valid [overlapping_edit].
Proof.
  assert (level_ok 1) as H1 by (unfold level_ok, kNumLevels; lia). apply List.Forall_cons; [|apply List.Forall_nil].
  split; [apply List.Forall_nil|apply List.Forall_nil|]. apply List.Forall_cons; [|apply List.Forall_nil]. split; [done|].
  split; [apply valid_ikey; by_compute|]. split; [apply valid_ikey; by_compute|by_compute].
Qed.

Lemma overlapping_edit_fresh : fresh_numbers edited_version [overlapping_edit].
Proof. intros level files Hl. do 7 (destruct level as [|level]; [injection Hl as <-; apply (bool_decide_unpack _); vm_compute; exact I|]). done. Qed.


Lemma replaced_version_frees_witness : exists v h1 h2,
  build [compaction_edit] edited_version no_pointers edited_heap =
    Some (v, foldl edit_pointers no_pointers [compaction_edit], h1) /\ Version_delete edited_version h1 = Some h2 /\
  forall a, refs h2 !! a = if decide (a ∈ file_addresses v ++ []) then Some (Z.of_nat (occurs a (file_addresses v ++ []))) else None.
Proof.
  exact (replaced_version_frees edited_version [compaction_edit] [] edited_heap no_pointers edited_sorted compaction_edit_fits
    eq_refl edited_heap_ok).
Defined.
End demo.
