(* ===== verification/VersionRefs.v ===== *)
(** * Live versions ([leveldb-library/db/version_set.cc])

    The version set links the live versions; iterators and compactions hold
    references to a version, and the set holds one to the current version. A version
    that loses its last reference is unlinked and gives up its files. The links are
    a map from the identities of the versions: only their members matter. *)

From Stdlib Require Import Sorting.Sorted.
From stdpp Require Import base list sorting gmap.
From S2P Require Import Prelude Cursor Coding DbFormat VersionEdit VersionFiles VersionState Builder BuilderProps BuilderApply BuilderSave.

#[local] Open Scope Z_scope.

(** ** State *)

Record Versions := mkVersions {
  heap : FileHeap; live : gmap positive (list (list file)); version_refs : gmap positive Z;
  current_id : option positive; next_id : positive }.

Definition Versions_new : Versions := mkVersions (mkHeap 1 ∅ ∅) ∅ ∅ None 1.

Definition with_heap (h : FileHeap) (vs : Versions) : Versions := mkVersions h (live vs) (version_refs vs) (current_id vs) (next_id vs).

(** ** Operations *)

Definition Version_Ref (id : positive) (vs : Versions) : option Versions :=
  r ← version_refs vs !! id;
  Some (mkVersions (heap vs) (live vs) (<[id := r + 1]> (version_refs vs)) (current_id vs) (next_id vs)).

(** The last reference runs the destructor. *)
Definition Version_Unref (id : positive) (vs : Versions) : option Versions :=
  r ← version_refs vs !! id; _ ← assert_ (1 <=? r);
  if r - 1 =? 0 then
    levels ← live vs !! id; h ← Version_delete (version_of levels) (heap vs);
    Some (mkVersions h (delete id (live vs)) (delete id (version_refs vs)) (current_id vs) (next_id vs))
  else Some (mkVersions (heap vs) (live vs) (<[id := r - 1]> (version_refs vs)) (current_id vs) (next_id vs)).

(** The new version is an object of its own. *)
Definition AppendVersion (v : Version) (vs : Versions) : option Versions :=
  vs ← match current_id vs with Some c => Version_Unref c vs | None => Some vs end;
  let id := next_id vs in
  Some (mkVersions (heap vs) (<[id := files_ v]> (live vs)) (<[id := 1]> (version_refs vs)) (Some id) (Pos.succ id)).

Definition add_live (s : gset Z) (levels : list (list file)) : gset Z :=
  foldl (fun s files => foldl (fun s (f : file) => {[ number f ]} ∪ s) s files) s levels.

Definition AddLiveFiles (vs : Versions) (live_numbers : gset Z) : gset Z := foldl add_live live_numbers (map_to_list (live vs)).*2.

(** ** Counting *)

(** The addresses of the files of all live versions, as often as they are in one. *)
Definition live_addresses (l : gmap positive (list (list file))) : list positive :=
  address <$> mjoin (mjoin <$> (map_to_list l).*2).

(** The references that are held: by the set, and by readers. *)
Definition holders (held : list positive) (vs : Versions) : list positive := option_list (current_id vs) ++ held.

(** [extra] are addresses that hold a reference to a file and are not in a live version. *)
Record versions_ok (held extra : list positive) (vs : Versions) : Prop := {
  vr_heap : heap_ok (heap vs) (live_addresses (live vs) ++ extra);
  vr_dom id : is_Some (live vs !! id) <-> id ∈ holders held vs;
  vr_refs id : version_refs vs !! id =
    if decide (id ∈ holders held vs) then Some (Z.of_nat (occurs id (holders held vs))) else None;
  vr_next id : id ∈ holders held vs -> (id < next_id vs)%positive }.

Lemma live_addresses_insert l id levels : l !! id = None ->
  live_addresses (<[id := levels]> l) ≡ₚ (address <$> mjoin levels) ++ live_addresses l.
Proof.
  intros Hid. unfold live_addresses. rewrite map_to_list_insert by done. cbn [fmap list_fmap snd mjoin list_join]. by rewrite fmap_app.
Qed.

Lemma live_addresses_delete l id levels : l !! id = Some levels ->
  live_addresses l ≡ₚ (address <$> mjoin levels) ++ live_addresses (delete id l).
Proof.
  intros Hid. rewrite <- live_addresses_insert by apply lookup_delete_eq. by rewrite insert_delete_eq, insert_id.
Qed.

(** One more holder of a live version. *)
Lemma Version_Ref_ok id held extra vs : versions_ok held extra vs -> id ∈ holders held vs ->
  exists vs', Version_Ref id vs = Some vs' /\ versions_ok (id :: held) extra vs' /\ heap vs' = heap vs /\ live vs' = live vs /\
    current_id vs' = current_id vs.
Proof.
  intros [Hh Hd Hr Hn] Hid. unfold Version_Ref. rewrite Hr, decide_True by done. cbn [mbind option_bind].
  eexists. split; [done|]. split; [|done].
  assert (forall x, x ∈ holders (id :: held) vs <-> x ∈ holders held vs) as Hx.
  { intros x. unfold holders in *. rewrite !elem_of_app, elem_of_cons in *. split; [|tauto]. intros [?|[->|?]]; tauto. }
  split; cbn [heap live version_refs current_id next_id]; unfold holders in *; cbn [current_id] in *.
  - done.
  - intros x. by rewrite Hd, Hx.
  - intros x. destruct (decide (x = id)) as [->|Hne].
    + rewrite lookup_insert_eq, decide_True by by apply Hx. f_equal. rewrite !occurs_app, occurs_cons, decide_True by done. lia.
    + rewrite lookup_insert_ne, Hr, !occurs_app, occurs_cons, (decide_False (P := x = id)) by congruence. specialize (Hx x).
      destruct (decide (x ∈ option_list (current_id vs) ++ held)); [by rewrite decide_True by by apply Hx|].
      by rewrite decide_False by by rewrite Hx.
  - intros x Hin. apply Hn. by apply Hx.
Qed.

(** A holder gives up its reference. *)
Lemma Version_Unref_ok id held extra vs rest : versions_ok held extra vs -> holders held vs ≡ₚ id :: rest ->
  exists vs', Version_Unref id vs = Some vs' /\ next_id vs' = next_id vs /\ current_id vs' = current_id vs /\
    heap_ok (heap vs') (live_addresses (live vs') ++ extra) /\
    (forall x, is_Some (live vs' !! x) <-> x ∈ rest) /\
    (forall x levels, live vs' !! x = Some levels -> live vs !! x = Some levels) /\
    forall x, version_refs vs' !! x = if decide (x ∈ rest) then Some (Z.of_nat (occurs x rest)) else None.
Proof.
  intros [Hh Hd Hr Hn] Hp. assert (forall x, x ∈ holders held vs <-> x = id \/ x ∈ rest) as Hin.
  { intros x. by rewrite Hp, elem_of_cons. }
  assert (forall x, occurs x (holders held vs) = ((if decide (x = id) then 1 else 0) + occurs x rest)%nat) as Hocc.
  { intros x. rewrite <- occurs_cons. unfold occurs. by rewrite Hp. }
  unfold Version_Unref. rewrite Hr, decide_True by (apply Hin; by left). cbn [mbind option_bind].
  rewrite Hocc, decide_True by done. rewrite (proj2 (Z.leb_le _ _)) by lia. cbn [assert_ mbind option_bind].
  pose proof (occurs_pos id rest) as Hpos. destruct (Z.eqb_spec (Z.of_nat (1 + occurs id rest) - 1) 0) as [E|E].
  - destruct (proj2 (Hd id)) as [levels Hl]; [apply Hin; by left|]. rewrite Hl. cbn [mbind option_bind].
    pose proof (live_addresses_delete _ _ _ Hl) as Ha. 
    destruct (Version_delete_ok (version_of levels) (heap vs) (live_addresses (delete id (live vs)) ++ extra)) as (h & -> & Hh' & _).
    { rewrite app_assoc, <- Ha. exact Hh. }
    cbn [mbind option_bind]. assert (id ∉ rest) as Hid by (rewrite <- Hpos; lia).
    eexists. split; [done|]. cbn [heap live version_refs current_id next_id]. do 3 (split; [done|]). split; [|split].
    + intros x. destruct (decide (x = id)) as [->|Hne].
      * rewrite lookup_delete_eq. split; [by intros []|done].
      * rewrite lookup_delete_ne, Hd, Hin by congruence. naive_solver.
    + intros x l Hx. by apply lookup_delete_Some in Hx as [_ ?].
    + intros x. destruct (decide (x = id)) as [->|Hne].
      * by rewrite lookup_delete_eq, decide_False.
      * rewrite lookup_delete_ne, Hr, Hocc, (decide_False (P := x = id)) by congruence. specialize (Hin x).
        destruct (decide (x ∈ rest)); [by rewrite decide_True by (apply Hin; by right)|]. rewrite decide_False; [done|]. rewrite Hin. tauto.
  - eexists. split; [done|]. cbn [heap live version_refs current_id next_id]. do 3 (split; [done|]). split; [|split; [done|]].
    + intros x. rewrite Hd, Hin. split; [intros [->|?]; [apply Hpos; lia|done]|by right].
    + intros x. destruct (decide (x = id)) as [->|Hne].
      * rewrite lookup_insert_eq, decide_True by (apply Hpos; lia). f_equal. lia.
      * rewrite lookup_insert_ne, Hr, Hocc, (decide_False (P := x = id)) by congruence. specialize (Hin x).
        destruct (decide (x ∈ rest)); [by rewrite decide_True by (apply Hin; by right)|]. rewrite decide_False; [done|]. rewrite Hin. tauto.
Qed.

Lemma Unref_reader id held held' extra vs : versions_ok held extra vs -> held ≡ₚ id :: held' ->
  exists vs', Version_Unref id vs = Some vs' /\ versions_ok held' extra vs' /\ current_id vs' = current_id vs /\
    (forall x levels, live vs' !! x = Some levels -> live vs !! x = Some levels).
Proof.
  intros Hok Hp. assert (holders held vs ≡ₚ id :: holders held' vs) as Hh.
  { unfold holders. by rewrite Hp, Permutation_middle. }
  destruct (Version_Unref_ok id held extra vs _ Hok Hh) as (vs' & E & En & Ec & Hheap & Hd & Hsub & Hr).
  assert (holders held' vs' = holders held' vs) as Eh by (unfold holders; by rewrite Ec).
  exists vs'. split; [done|]. split; [|done]. split; rewrite ?Eh, ?En; [done..|].
  intros x Hx. apply (vr_next _ _ _ Hok). rewrite Hh. by right.
Qed.

Lemma AppendVersion_ok v held extra vs : versions_ok held (file_addresses v ++ extra) vs ->
  exists vs', AppendVersion v vs = Some vs' /\ versions_ok held extra vs' /\ current_id vs' = Some (next_id vs) /\
    live vs' !! next_id vs = Some (files_ v) /\
    (forall x levels, live vs' !! x = Some levels -> x = next_id vs /\ levels = files_ v \/ live vs !! x = Some levels).
Proof.
  intros Hok. unfold AppendVersion.
  assert (exists vs1, (match current_id vs with Some c => Version_Unref c vs | None => Some vs end) = Some vs1 /\
    next_id vs1 = next_id vs /\ heap_ok (heap vs1) (live_addresses (live vs1) ++ file_addresses v ++ extra) /\
    (forall x, is_Some (live vs1 !! x) <-> x ∈ held) /\ (forall x levels, live vs1 !! x = Some levels -> live vs !! x = Some levels) /\
    forall x, version_refs vs1 !! x = if decide (x ∈ held) then Some (Z.of_nat (occurs x held)) else None) as
    (vs1 & -> & En & Hheap & Hd & Hsub & Hr).
  { destruct (current_id vs) as [c|] eqn:Ec.
    - destruct (Version_Unref_ok c held _ vs held Hok) as (vs1 & E & En & _ & H); [unfold holders; by rewrite Ec|]. by exists vs1.
    - exists vs. destruct Hok as [Hh Hd Hr _]. unfold holders in *. rewrite Ec in *. done. }
  cbn [mbind option_bind]. rewrite En. assert (forall x, x ∈ held -> (x < next_id vs)%positive) as Hlt.
  { intros x Hx. apply (vr_next _ _ _ Hok). unfold holders. apply elem_of_app. by right. }
  assert (next_id vs ∉ held) as Hnew by (intros Hx%Hlt; lia).
  assert (live vs1 !! next_id vs = None) as Hnone.
  { destruct (live vs1 !! next_id vs) eqn:E; [|done]. destruct Hnew. apply Hd. by rewrite E. }
  eexists. split; [done|]. cbn [heap live version_refs current_id next_id]. split; [|split; [done|split]].
  - split; unfold holders; cbn [heap live version_refs current_id next_id];
      change (option_list (Some (next_id vs)) ++ held) with (next_id vs :: held) in *.
    + eapply heap_ok_perm; [|exact Hheap]. rewrite live_addresses_insert by done. unfold file_addresses.
      rewrite <- app_assoc. apply Permutation_app_swap_app.
    + intros x. rewrite elem_of_cons. destruct (decide (x = next_id vs)) as [->|Hne].
      * rewrite lookup_insert_eq. split; [by left|done].
      * rewrite lookup_insert_ne, Hd by congruence. naive_solver.
    + intros x. rewrite occurs_cons. destruct (decide (x = next_id vs)) as [->|Hne].
      * rewrite lookup_insert_eq, decide_True by left. do 2 f_equal. destruct (occurs (next_id vs) held) eqn:E; [done|].
        destruct Hnew. apply occurs_pos. lia.
      * rewrite lookup_insert_ne, Hr by congruence. cbn [Nat.add]. destruct (decide (x ∈ held)); [by rewrite decide_True by by right|].
        rewrite decide_False; [done|]. by intros [?|?]%elem_of_cons.
    + intros x [->|Hx]%elem_of_cons; [lia|]. apply Hlt in Hx. lia.
  - by rewrite lookup_insert_eq.
  - intros x levels. destruct (decide (x = next_id vs)) as [->|Hne].
    + rewrite lookup_insert_eq. intros [= <-]. by left.
    + rewrite lookup_insert_ne by congruence. intros Hx%Hsub. by right.
Qed.

Lemma elem_of_add_live s levels n : n ∈ add_live s levels <-> n ∈ s \/ exists f : file, f ∈ mjoin levels /\ number f = n.
Proof.
  assert (forall (files : list file) (s : gset Z), n ∈ foldl (fun s (f : file) => {[ number f ]} ∪ s) s files <-> n ∈ s \/ exists f : file, f ∈ files /\ number f = n) as H1.
  { induction files as [|f files IH]; intros t; cbn [foldl].
    - split; [by left|]. intros [?|(f & []%elem_of_nil & _)]. done.
    - rewrite IH, elem_of_union, elem_of_singleton. setoid_rewrite elem_of_cons. naive_solver. }
  unfold add_live. revert s. induction levels as [|files levels IH]; intros s; cbn [foldl].
  - split; [by left|]. intros [?|(f & []%elem_of_nil & _)]. done.
  - rewrite IH, H1. cbn [mjoin list_join]. setoid_rewrite elem_of_app. naive_solver.
Qed.

Lemma elem_of_AddLiveFiles vs s n : n ∈ AddLiveFiles vs s <->
  n ∈ s \/ exists id levels (f : file), live vs !! id = Some levels /\ f ∈ mjoin levels /\ number f = n.
Proof.
  unfold AddLiveFiles. assert (forall l (s : gset Z), n ∈ foldl add_live s l <-> n ∈ s \/ exists levels (f : file), levels ∈ l /\ f ∈ mjoin levels /\ number f = n) as H1.
  { clear. induction l as [|levels l IH]; intros s; cbn [foldl].
    - split; [by left|]. intros [?|(? & ? & []%elem_of_nil & _)]. done.
    - rewrite IH, elem_of_add_live. setoid_rewrite elem_of_cons. naive_solver. }
  rewrite H1. split; (intros [?|H2]; [by left|right]).
  - destruct H2 as (levels & f & ([id l] & -> & Hl%elem_of_map_to_list)%list_elem_of_fmap & Hf & Hn). by exists id, l, f.
  - destruct H2 as (id & levels & f & Hl & Hf & Hn). exists levels, f. split; [|done].
    apply list_elem_of_fmap. exists (id, levels). split; [done|]. by apply elem_of_map_to_list.
Qed.

Lemma elem_of_live_addresses l a : a ∈ live_addresses l <-> exists id levels f, l !! id = Some levels /\ f ∈ mjoin levels /\ address f = a.
Proof.
  unfold live_addresses. rewrite list_elem_of_fmap. split.
  - intros (f & -> & (fs & Hf & (levels & -> & ([id l'] & -> & Hl%elem_of_map_to_list)%list_elem_of_fmap)%list_elem_of_fmap)%list_elem_of_join).
    by exists id, l', f.
  - intros (id & levels & f & Hl & Hf & <-). exists f. split; [done|]. apply list_elem_of_join. exists (mjoin levels). split; [done|].
    apply list_elem_of_fmap. exists levels. split; [done|]. apply list_elem_of_fmap. exists (id, levels). split; [done|].
    by apply elem_of_map_to_list.
Qed.

(** ** Every sequence of operations *)

Section steps.
Context `{ComparatorLaws} `{CodingLaws} `{!InternalKeyFormat, !InternalKeyFormatLaws}.
Context `{!InternalComparator, !InternalComparatorLaws}.

(** The references of the readers, the version that an installation has built and
    not yet linked, and the set. *)
Definition version_state : Type := list positive * option Version * Versions.

(** Readers take and give up references at any time. An installation builds a version
    from the current one, and, after it has released the mutex and taken it again,
    makes it the current one or, when the manifest could not be written, deletes it. *)
Inductive version_step : version_state -> version_state -> Prop :=
  | step_ref c held pending vs vs' : current_id vs = Some c -> Version_Ref c vs = Some vs' ->
      version_step (held, pending, vs) (c :: held, pending, vs')
  | step_unref id held held' pending vs vs' : held ≡ₚ id :: held' -> Version_Unref id vs = Some vs' ->
      version_step (held, pending, vs) (held', pending, vs')
  | step_build c levels es pointers v pointers' h held vs :
      current_id vs = Some c -> live vs !! c = Some levels -> edits_fit (version_of levels) es ->
      length pointers = Z.to_nat kNumLevels -> build es (version_of levels) pointers (heap vs) = Some (v, pointers', h) ->
      version_step (held, None, vs) (held, Some v, with_heap h vs)
  | step_append v held vs vs' : AppendVersion v vs = Some vs' -> version_step (held, Some v, vs) (held, None, vs')
  | step_give_up v h held vs : Version_delete v (heap vs) = Some h -> version_step (held, Some v, vs) (held, None, with_heap h vs).

(** The files of the version that was built. *)
Definition pending_addresses (pending : option Version) : list positive := from_option file_addresses [] pending.

Record versions_inv (s : version_state) : Prop := {
  vi_ok : versions_ok s.1.1 (pending_addresses s.1.2) s.2;
  vi_current : is_Some (current_id s.2);
  vi_sorted id levels : live s.2 !! id = Some levels -> version_sorted (version_of levels);
  vi_pending v : s.1.2 = Some v -> version_sorted v }.

Lemma versions_initial vs : AppendVersion Version_new Versions_new = Some vs -> versions_inv ([], None, vs).
Proof.
  intros E. destruct (AppendVersion_ok Version_new [] [] Versions_new) as (vs' & E' & Hok & Hc & _ & Hlive).
  { split; unfold holders; cbn; try done.
    - split; intros a; cbn; [done| |by intros ?%elem_of_nil]. split; [by intros []|by intros ?%elem_of_nil].
    - intros id. split; [by intros []|by intros ?%elem_of_nil].
    - intros id ?%elem_of_nil. done. }
  rewrite E in E'. injection E' as <-. split; cbn [fst snd]; [done|by rewrite Hc| |done]. intros id levels [[_ ->]|Hl]%Hlive; [|done].
  split; [done|]. intros i files Hi. assert (files = []) as -> by (by apply (elem_of_replicate_inv _ 7), (list_elem_of_lookup_2 _ i)).
  split; constructor.
Qed.

Lemma versions_ok_heap h held extra extra' vs : versions_ok held extra vs -> heap_ok h (live_addresses (live vs) ++ extra') ->
  versions_ok held extra' (with_heap h vs).
Proof. intros [_ Hd Hr Hn] Hh. by split. Qed.

(** The version that was built can be deleted. *)
Lemma pending_delete v held vs : versions_ok held (file_addresses v) vs ->
  exists h, Version_delete v (heap vs) = Some h /\ heap_ok h (live_addresses (live vs) ++ []).
Proof.
  intros Hok. destruct (Version_delete_ok v (heap vs) (live_addresses (live vs))) as (h & E & Hh & _).
  { eapply heap_ok_perm; [|exact (vr_heap _ _ _ Hok)]. apply Permutation_app_comm. }
  exists h. by rewrite app_nil_r.
Qed.

Lemma build_inv c levels es ps v ps' h held vs : versions_inv (held, None, vs) -> current_id vs = Some c -> live vs !! c = Some levels ->
  edits_fit (version_of levels) es -> length ps = Z.to_nat kNumLevels ->
  build es (version_of levels) ps (heap vs) = Some (v, ps', h) -> versions_inv (held, Some v, with_heap h vs).
Proof.
  intros [Hok Hcur Hsorted _] Hc Hl Hfit Hps Hb; cbn [fst snd] in *.
  destruct (build_ok (version_of levels) es (live_addresses (delete c (live vs))) (heap vs) ps (Hsorted _ _ Hl) Hfit Hps) as (v1 & h1 & Eb & Hsv & Hh1).
  { pose proof (vr_heap _ _ _ Hok) as Hh. cbn in Hh. rewrite app_nil_r in Hh. by rewrite (live_addresses_delete _ _ _ Hl) in Hh. }
  rewrite Hb in Eb. injection Eb as <- _ <-. split; cbn [fst snd pending_addresses from_option]; [|done..|].
  - eapply versions_ok_heap; [exact Hok|]. rewrite Permutation_app_comm. unfold file_addresses at 2 in Hh1. cbn [files_ version_of] in Hh1.
    by rewrite <- (live_addresses_delete _ _ _ Hl) in Hh1.
  - intros v2 [= <-]. apply (sv_sorted _ _ _ _ Hsv).
Qed.

Lemma version_step_inv s s' : version_step s s' -> versions_inv s -> versions_inv s'.
Proof.
  intros Hstep Hinv. destruct Hstep as [c held pending vs vs' Hc E|id held held' pending vs vs' Hp E|c levels es ps v ps' h held vs Hc Hl Hfit Hps Hb|
    v held vs vs' E|v h held vs E]; pose proof Hinv as [Hok Hcur Hsorted Hpend]; cbn [fst snd] in *.
  - destruct (Version_Ref_ok c held _ vs Hok) as (vs1 & E1 & Hok1 & _ & El & Ec).
    { unfold holders. rewrite Hc. left. }
    rewrite E in E1. injection E1 as <-. split; cbn [fst snd]; [done|by rewrite Ec|by rewrite El|done].
  - destruct (Unref_reader id held held' _ vs Hok Hp) as (vs1 & E1 & Hok1 & Ec & Hsub).
    rewrite E in E1. injection E1 as <-. split; cbn [fst snd]; [done|by rewrite Ec| |done]. intros x l Hx%Hsub. by eapply Hsorted.
  - by eapply build_inv.
  - destruct (AppendVersion_ok v held [] vs) as (vs1 & E1 & Hok1 & Ec & _ & Hlive); [by rewrite app_nil_r|].
    rewrite E in E1. injection E1 as <-. split; cbn [fst snd]; [done|by rewrite Ec| |done].
    intros x l [[_ ->]|Hx]%Hlive; [|by eapply Hsorted]. destruct (Hpend v eq_refl). by split.
  - destruct (pending_delete v held vs Hok) as (h1 & E1 & Hh). rewrite E in E1. injection E1 as <-.
    split; cbn [fst snd]; [by eapply versions_ok_heap|done..].
Qed.

Lemma elem_of_pending_addresses pending a : (exists v f, pending = Some v /\ f ∈ mjoin (files_ v) /\ address f = a) <->
  a ∈ pending_addresses pending.
Proof.
  destruct pending as [v|]; cbn [pending_addresses from_option].
  - unfold file_addresses. rewrite list_elem_of_fmap. split.
    + intros (v' & f & [= <-] & Hf & <-). by exists f.
    + intros (f & -> & Hf). by exists v, f.
  - split; [by intros (v & f & ? & _)|by intros ?%elem_of_nil].
Qed.

(** C21 (invariant): in every state that readers and installations of new versions
    can reach, also between the construction of a version and its installation, when
    readers run: a version is live exactly while the set or a reader holds it; the
    metadata of a file exists exactly while a live version or the version that was
    built has the file; the set of live file numbers is that of the live versions; a
    reader can always give up its reference; and the version that was built can be
    installed, and can be deleted. *)
Theorem live_versions_exact vs0 held pending vs : AppendVersion Version_new Versions_new = Some vs0 ->
  rtc version_step ([], None, vs0) (held, pending, vs) ->
  (forall id, is_Some (live vs !! id) <-> current_id vs = Some id \/ id ∈ held) /\
  (forall a, is_Some (refs (heap vs) !! a) <->
     (exists id levels f, live vs !! id = Some levels /\ f ∈ mjoin levels /\ address f = a) \/
     (exists v f, pending = Some v /\ f ∈ mjoin (files_ v) /\ address f = a)) /\
  (forall n, n ∈ AddLiveFiles vs ∅ <-> exists id levels (f : file), live vs !! id = Some levels /\ f ∈ mjoin levels /\ number f = n) /\
  (forall id, id ∈ held -> is_Some (Version_Unref id vs)) /\
  forall v, pending = Some v -> is_Some (AppendVersion v vs) /\ is_Some (Version_delete v (heap vs)).
Proof.
  intros E0 Hsteps. pose proof (versions_initial vs0 E0) as Hinv.
  assert (forall s, rtc version_step ([], None, vs0) s -> versions_inv s) as Hreach.
  { intros s Hs. refine (rtc_ind_r versions_inv ([], None, vs0) Hinv _ s Hs). intros s1 s2 _ Hstep Hi. by eapply version_step_inv. }
  destruct (Hreach _ Hsteps) as [Hok _ _ _]. cbn [fst snd] in Hok. split_and!.
  - intros id. rewrite (vr_dom _ _ _ Hok). unfold holders. rewrite elem_of_app. destruct (current_id vs) as [c|].
    + change (option_list (Some c)) with [c]. rewrite list_elem_of_singleton. naive_solver.
    + change (option_list (@None positive)) with (@nil positive). rewrite elem_of_nil. naive_solver.
  - intros a. rewrite (ho_refs _ _ (vr_heap _ _ _ Hok)), <- elem_of_live_addresses, elem_of_pending_addresses, <- elem_of_app.
    destruct (decide (a ∈ live_addresses (live vs) ++ pending_addresses pending)); split; try done.
  - intros n. rewrite elem_of_AddLiveFiles. set_solver.
  - intros id [h1 [h2 ->]]%list_elem_of_split. destruct (Unref_reader id (h1 ++ id :: h2) (h1 ++ h2) _ vs Hok) as (vs' & -> & _); [|done].
    by rewrite Permutation_middle.
  - intros v ->. destruct (pending_delete v held vs Hok) as (h & -> & _).
    destruct (AppendVersion_ok v held [] vs) as (vs' & -> & _); [by rewrite app_nil_r|done].
Qed.
End steps.

(** ** A reader of a version that is replaced *)

Section demo.
#[local] Existing Instances by_bytes by_bytes_laws reference_coding reference_coding_laws reference_format
  reference_format_laws reference_icmp reference_icmp_laws.

Definition flush_edit : VersionEdit :=
  Edit [] 0 0 0 0 false false false false false [] [] [(0, FileMeta 5 100 (ikey 1 1) (ikey 3 2))].

(** After the start, with a reader, and after the installation of a new version. *)
Definition start_versions : Versions := default Versions_new (AppendVersion Version_new Versions_new).
Definition read_versions : Versions := default Versions_new (Version_Ref 1 start_versions).
Definition flushed : option (Version * Versions) :=
  '(v, _, h) ← build [flush_edit] Version_new (replicate 7 []) (heap read_versions);
  vs ← AppendVersion v (with_heap h read_versions); Some (v, vs).
Definition flushed_versions : Versions := (default (Version_new, Versions_new) flushed).2.

Example reader_gives_up :
  (map_to_list (version_refs flushed_versions), elements (AddLiveFiles flushed_versions ∅),
   vs ← Version_Unref 1 flushed_versions; Some (map_to_list (version_refs vs))) =
  ([(2%positive, 1); (1%positive, 1)], [5], Some [(2%positive, 1)]).
Proof. vm_compute. reflexivity. Qed.

Lemma flush_edit_fits : edits_fit Version_new [flush_edit].
Proof.
  split.
  - apply List.Forall_cons; [|apply List.Forall_nil]. split; [apply List.Forall_nil..|].
    apply List.Forall_cons; [|apply List.Forall_nil]. split; [unfold level_ok, kNumLevels; simpl; lia|].
    split; [apply valid_ikey; by_compute|]. split; [apply valid_ikey; by_compute|by_compute].
  - intros level files Hl. do 7 (destruct level as [|level]; [injection Hl as <-; apply (bool_decide_unpack _); vm_compute; exact I|]). done.
  - intros level files _ Hl. do 7 (destruct level as [|level]; [injection Hl as <-; repeat first [apply SSorted_nil|apply SSorted_cons|apply List.Forall_nil|apply List.Forall_cons]; by_compute|]). done.
Qed.

(** Once the version is built and before it is installed the metadata of its file is
    there, with no live version that has the file. *)
Lemma live_versions_exact_witness : exists v vs,
  rtc version_step ([], None, start_versions) ([1%positive], Some v, vs) /\
  files_ v !! 0%nat = Some [File 1 (FileMeta 5 100 (ikey 1 1) (ikey 3 2))] /\ is_Some (refs (heap vs) !! 1%positive) /\
  (forall n, n ∈ AddLiveFiles vs ∅ <-> exists id levels (f : file), live vs !! id = Some levels /\ f ∈ mjoin levels /\ number f = n) /\
  is_Some (AppendVersion v vs).
Proof.
  assert (AppendVersion Version_new Versions_new = Some start_versions) as E0 by reflexivity.
  destruct (build [flush_edit] Version_new (replicate 7 []) (heap start_versions)) as [[[v ps] h]|] eqn:E; [|by vm_compute in E].
  assert ((fun r => files_ r.1.1 !! 0%nat) <$> build [flush_edit] Version_new (replicate 7 []) (heap start_versions) =
    Some (Some [File 1 (FileMeta 5 100 (ikey 1 1) (ikey 3 2))])) as Ev by (vm_compute; reflexivity).
  rewrite E in Ev. injection Ev as Ev.
  assert (rtc version_step ([], None, start_versions) ([1%positive], Some v, with_heap h read_versions)) as Hsteps.
  { apply rtc_l with ([1%positive], None, read_versions); [apply (step_ref 1); reflexivity|]. apply rtc_once.
    apply (step_build 1 (replicate 7 []) [flush_edit] (replicate 7 []) v ps h); [reflexivity|reflexivity|exact flush_edit_fits|reflexivity|exact E]. }
  destruct (live_versions_exact start_versions _ _ _ E0 Hsteps) as (_ & Hm & Hn & _ & Hp).
  exists v, (with_heap h read_versions). split; [exact Hsteps|]. split; [exact Ev|]. split; [|split; [exact Hn|exact (proj1 (Hp v eq_refl))]].
  apply Hm. right. exists v, (File 1 (FileMeta 5 100 (ikey 1 1) (ikey 3 2))). split; [reflexivity|]. split; [|reflexivity].
  apply list_elem_of_join. exists [File 1 (FileMeta 5 100 (ikey 1 1) (ikey 3 2))]. split; [left|].
  exact (list_elem_of_lookup_2 _ _ _ Ev).
Defined.
End demo.
