(* ===== verification/Manifest.v ===== *)
(** * The manifest ([leveldb-library/db/version_set.cc])

    [LogAndApply] installs an edit: it builds the new version, writes the edit to the
    manifest, first creating a manifest with a snapshot when none is open, and makes
    the version current when all that succeeded. [Recover] rebuilds the current
    version from the records of the manifest that [CURRENT] names.

    The file system is a parameter: its operations are those of [Env], with the file
    names that [filename.cc] composes of a number left to them, and the writer of the
    log ([log_writer.cc]) is one of them. The manifest is read by the reader of
    [LogReader.v]. [None] is a failed assertion. *)

From Stdlib Require Import String.
From stdpp Require Import base list gmap.
From S2P Require Import Prelude LogReader Doubles Cursor Coding DbFormat VersionEdit VersionFiles VersionState Builder VersionRefs.

#[local] Open Scope Z_scope.

(** ** The environment *)

Class ManifestEnv (W : Type) := {
  NewWritableFile : Z -> W -> Status * W;       (* a new manifest of this number *)
  AddRecord : list Z -> W -> Status * W;        (* to the open manifest *)
  Sync : W -> Status * W;
  SetCurrentFile : Z -> W -> Status * W;
  DeleteFile : Z -> W -> W }.

(** What recovery reads, [F] the files that can be read: the contents of [CURRENT],
    the file of a name, and what the reuse of a manifest asks for. *)
Class RecoveryEnv (W F : Type) := {
  ReadCurrent : W -> Status * list Z;
  NewSequentialFile : list Z -> W -> Status + F;
  ParseDescriptorName : list Z -> option Z;     (* the number, for the name of a manifest *)
  GetFileSize : list Z -> W -> Status * Z;
  NewAppendableFile : list Z -> W -> Status * W }.

(** [icmp_.user_comparator()->Name()] and [options_->reuse_logs]. *)
Class ManifestOptions := { comparator_name : list Z; reuse_logs : bool }.

Section manifest.
Context `{Comparator} `{Coding} `{!InternalKeyFormat, !InternalComparator} `{!ManifestOptions}.

(** ** WriteSnapshot *)

Fixpoint snapshot_pointers (level : nat) (pointers : list (list Z)) (e : VersionEdit) : VersionEdit :=
  match pointers with
  | [] => e
  | p :: pointers =>
      snapshot_pointers (S level) pointers
        (if bool_decide (p <> []) then add_compact_pointer (Z.of_nat level, InternalKey_DecodeFrom p) e else e)
  end.

Fixpoint snapshot_files (level : nat) (levels : list (list file)) (e : VersionEdit) : VersionEdit :=
  match levels with
  | [] => e
  | files :: levels =>
      snapshot_files (S level) levels (foldl (fun e (f : file) => add_new_file (Z.of_nat level, meta f) e) e files)
  end.

(** The edit of a snapshot. *)
Definition snapshot (s : VersionSet) : VersionEdit :=
  snapshot_files 0 (files_ (current_ s)) (snapshot_pointers 0 (compact_pointer_ s) (with_comparator comparator_name VersionEdit_new)).

Definition WriteSnapshot {W} `{!ManifestEnv W} (s : VersionSet) (w : W) : option (Status * W) :=
  record ← EncodeTo (snapshot s) []; Some (AddRecord record w).

(** ** LogAndApply *)

(** The fields that the version set fills in. *)
Definition complete_edit (e : VersionEdit) (s : VersionSet) : option VersionEdit :=
  e ← (if has_log_number_ e then
         _ ← assert_ (vs_log_number_ s <=? log_number_ e); _ ← assert_ (log_number_ e <? vs_next_file_number_ s); Some e
       else Some (with_log_number (vs_log_number_ s) e));
  let e := if has_prev_log_number_ e then e else with_prev_log_number (vs_prev_log_number_ s) e in
  Some (with_last_sequence (vs_last_sequence_ s) (with_next_file_number (vs_next_file_number_ s) e)).

(** The manifest, opened if it has to be: the status, the number of a new one, and
    the version set, whose descriptor is open from then on. *)
Definition open_manifest {W} `{!ManifestEnv W} (s : VersionSet) (w : W) : option (Status * option Z * VersionSet * W) :=
  if descriptor_log_ s then Some (Ok, None, s, w)
  else
    let n := manifest_file_number_ s in
    let '(st, w) := NewWritableFile n w in
    if bool_decide (st = Ok) then
      let s := with_descriptor true s in '(st, w) ← WriteSnapshot s w; Some (st, Some n, s, w)
    else Some (st, Some n, s, w).

(** The part that runs without the mutex. *)
Definition write_edit {W} `{!ManifestEnv W} (st : Status) (new_manifest : option Z) (e : VersionEdit) (w : W) : option (Status * W) :=
  '(st, w) ← (if bool_decide (st = Ok) then
                record ← EncodeTo e [];
                let '(st, w) := AddRecord record w in Some (if bool_decide (st = Ok) then Sync w else (st, w))
              else Some (st, w));
  Some (match new_manifest with
        | Some n => if bool_decide (st = Ok) then SetCurrentFile n w else (st, w)
        | None => (st, w)
        end).

(** The new version is made current, or given up. *)
Definition install {W} `{!ManifestEnv W} (st : Status) (new_manifest : option Z) (v : Version) (e : VersionEdit)
    (s : VersionSet) (vs : Versions) (w : W) : option (VersionSet * Versions * W) :=
  if bool_decide (st = Ok) then
    vs ← AppendVersion v vs;
    Some (with_logs (log_number_ e) (prev_log_number_ e) (with_current v s), vs, w)
  else
    h ← Version_delete v (heap vs);
    let vs := with_heap h vs in
    match new_manifest with
    | Some n => Some (with_descriptor false s, vs, DeleteFile n w)
    | None => Some (s, vs, w)
    end.

(** What happens before the mutex is released: the edit, the version, and the state. *)
Definition prepare {W} `{!ManifestEnv W} (e : VersionEdit) (s : VersionSet) (vs : Versions) (w : W) :
    option (VersionEdit * Version * Status * option Z * VersionSet * Versions * W) :=
  e ← complete_edit e s;
  '(b, pointers, h) ← Apply e (Builder_new (current_ s)) (compact_pointer_ s) (heap vs);
  '(v, h) ← SaveTo b h; h ← Builder_delete b h;
  '(st, new_manifest, s, w) ← open_manifest (with_pointers pointers s) w;
  Some (e, Finalize v, st, new_manifest, s, with_heap h vs, w).

(** [others] is what other threads do to the version set while the mutex is released. *)
Definition LogAndApply {W} `{!ManifestEnv W} (others : VersionSet * Versions -> VersionSet * Versions) (e : VersionEdit)
    (s : VersionSet) (vs : Versions) (w : W) : option (Status * VersionSet * Versions * W) :=
  '(e, v, st, new_manifest, s, vs, w) ← prepare e s vs w;
  '(st, w) ← write_edit st new_manifest e w;
  let '(s, vs) := others (s, vs) in
  '(s, vs, w) ← install st new_manifest v e s vs w;
  Some (st, s, vs, w).

(** ** Recover *)

(** The status that a report of the reader passes on. *)
Definition report_status (why : reason) : Status :=
  match why with
  | LogReader.Corruption msg => Corruption msg
  | UnknownType _ => Corruption "unknown record type %u"
  | Failed (LogReader.IOError code) => IOError code
  | Failed OK => Ok
  end.

(** The numbers found so far. *)
Record Recovered := mkRecovered { log_number : option Z; prev_log_number : option Z; next_file : option Z; last_sequence : option Z }.

(** The numbers of an edit replace those of earlier ones. *)
Definition note_numbers (e : VersionEdit) (r : Recovered) : Recovered :=
  mkRecovered
    (if has_log_number_ e then Some (log_number_ e) else log_number r)
    (if has_prev_log_number_ e then Some (prev_log_number_ e) else prev_log_number r)
    (if has_next_file_number_ e then Some (next_file_number_ e) else next_file r)
    (if has_last_sequence_ e then Some (last_sequence_ e) else last_sequence r).

Context `{!LogFormat} {F : Type} `{!SequentialFile F}.

(** A turn of the loop: [inl] when it ends. *)
Definition recover_record (record : list Z) (b : Builder) (pointers : list (list Z)) (h : FileHeap) (r : Recovered) :
    option (Status * Builder * list (list Z) * FileHeap * Recovered) :=
  '(st, e) ← DecodeFrom record VersionEdit_new;
  let st := if bool_decide (st = Ok) && has_comparator_ e && negb (bool_decide (comparator_ e = comparator_name))
            then InvalidArgument " does not match existing comparator " else st in
  '(b, pointers, h) ← (if bool_decide (st = Ok) then Apply e b pointers h else Some (b, pointers, h));
  Some (st, b, pointers, h, note_numbers e r).

Fixpoint recover_loop (fuel : nat) (st : Status) (rd : @reader F) (b : Builder) (pointers : list (list Z)) (h : FileHeap)
    (r : Recovered) : option (Status * Builder * list (list Z) * FileHeap * Recovered) :=
  match fuel with
  | O => None
  | S fuel =>
      '(record, rd) ← ReadRecord rd;
      let st := if bool_decide (st = Ok) then match drops rd with [] => Ok | (_, why) :: _ => report_status why end else st in
      match record with
      | Some record =>
          if bool_decide (st = Ok) then
            '(st, b, pointers, h, r) ← recover_record record b pointers h r;
            recover_loop fuel st rd b pointers h r
          else Some (st, b, pointers, h, r)
      | None => Some (st, b, pointers, h, r)
      end
  end.

(** What is missing. *)
Definition missing_number (r : Recovered) : Status :=
  match next_file r, log_number r, last_sequence r with
  | None, _, _ => Corruption "no meta-nextfile entry in descriptor"
  | _, None, _ => Corruption "no meta-lognumber entry in descriptor"
  | _, _, None => Corruption "no last-sequence-number entry in descriptor"
  | _, _, _ => Ok
  end.

Definition ReuseManifest {W} `{!RecoveryEnv W F} (dscbase : list Z) (s : VersionSet) (w : W) : option (bool * VersionSet * W) :=
  if negb reuse_logs then Some (false, s, w)
  else
    match ParseDescriptorName dscbase with
    | None => Some (false, s, w)
    | Some manifest_number =>
        let '(st, manifest_size) := GetFileSize dscbase w in
        if negb (bool_decide (st = Ok)) || (TargetFileSize (max_file_size s) <=? manifest_size) then Some (false, s, w)
        else
          _ ← assert_ (negb (descriptor_log_ s));
          let '(st, w) := NewAppendableFile dscbase w in
          if bool_decide (st = Ok) then Some (true, with_manifest manifest_number (with_descriptor true s), w)
          else Some (false, s, w)
    end.

(** The contents of [CURRENT] are a name and a newline. *)
Definition current_name (contents : list Z) : option (list Z) :=
  match list.last contents with Some 10 => Some (take (length contents - 1) contents) | _ => None end.

(** The status, whether the manifest has to be saved anew, and the state. *)
Definition Recover {W} `{!RecoveryEnv W F} (s : VersionSet) (vs : Versions) (w : W) :
    option (Status * bool * VersionSet * Versions * W) :=
  let fail st := Some (st, false, s, vs, w) in
  let '(st, contents) := ReadCurrent w in
  if negb (bool_decide (st = Ok)) then fail st
  else
    match current_name contents with
    | None => fail (Corruption "CURRENT file does not end with newline")
    | Some name =>
        match NewSequentialFile name w with
        | inl NotFound => fail (Corruption "CURRENT points to a non-existent file")
        | inl st => fail st
        | inr f =>
            '(st, b, pointers, h, r) ← recover_loop (S (remaining f)) Ok (Reader_new f true true 0) (Builder_new (current_ s))
                                         (compact_pointer_ s) (heap vs) (mkRecovered None None None None);
            let s := with_pointers pointers s in
            let prev := default 0 (prev_log_number r) in
            let '(st, s) :=
              if bool_decide (st = Ok) then
                (missing_number r, MarkFileNumberUsed (default 0 (log_number r)) (MarkFileNumberUsed prev s))
              else (st, s) in
            if bool_decide (st = Ok) then
              '(v, h) ← SaveTo b h; h ← Builder_delete b h;
              let v := Finalize v in
              vs ← AppendVersion v (with_heap h vs);
              let next := default 0 (next_file r) in
              let s := with_next_file (wrap 64 (next + 1)) (with_manifest next (with_current v s)) in
              let s := with_logs (default 0 (log_number r)) prev (with_sequence (default 0 (last_sequence r)) s) in
              '(reused, s, w) ← ReuseManifest name s w;
              Some (st, negb reused, s, vs, w)
            else
              h ← Builder_delete b h; Some (st, false, s, with_heap h vs, w)
        end
    end.
End manifest.
