(* ===== verification/ManifestProps.v ===== *)
(** * Reading the manifest back

    Recovery from a manifest in the format of the log gives the version that the
    edits of its records leave, one after the other, and the last of every number. *)

From Stdlib Require Import String Strings.Byte Sorting.Sorted.
From stdpp Require Import base list sorting gmap.
From S2P Require Import Prelude LogReader LogProps Doubles Cursor Coding DbFormat VersionEdit VersionFiles VersionState.
From S2P Require Import Builder BuilderProps BuilderApply BuilderSave VersionRefs Manifest.

#[local] Open Scope Z_scope.

(** The numbers that a sequence of edits leaves. *)
Definition no_numbers : Recovered := mkRecovered None None None None.
Definition numbers_of (es : list VersionEdit) (r : Recovered) : Recovered := foldl (fun r e => note_numbers e r) r es.

Lemma Finalize_files v : files_ (Finalize v) = files_ v.
Proof. unfold Finalize. by destruct (finalize_loop _ _ _ _). Qed.

Lemma with_heap_ok held extra vs h extra' : versions_ok held extra vs -> heap_ok h (live_addresses (live vs) ++ extra') ->
  versions_ok held extra' (with_heap h vs).
Proof. intros [_ Hd Hr Hn] Hh. by split. Qed.

Section manifest.
Context `{ComparatorLaws} `{CodingLaws} `{!InternalKeyFormat, !InternalKeyFormatLaws}.
Context `{!InternalComparator, !InternalComparatorLaws} `{!ManifestOptions} `{!LogFormat, !LogFormatLaws}.
Implicit Types (es : list VersionEdit) (e : VersionEdit).

(** ** Edits one after the other *)

Lemma sorted_level_perm i es ms : sorted_level i es ms ≡ₚ edits_level i es ms.
Proof. apply merge_sort_Permutation. Qed.

Lemma sorted_level_app i es es' ms : NoDup (number <$> (ms ++ added_by i (es ++ es'))) ->
  sorted_level i es' (sorted_level i es ms) = sorted_level i (es ++ es') ms.
Proof.
  intros Hn. assert (edits_level i es' (sorted_level i es ms) ≡ₚ edits_level i (es ++ es') ms) as Hp.
  { by rewrite edits_level_app, sorted_level_perm. }
  assert (NoDup (number <$> edits_level i (es ++ es') ms)) as Hd by by apply edits_level_NoDup.
  apply (StronglySorted_unique by_smallest).
  - apply sorted_strict; [apply StronglySorted_merge_sort; apply _|]. rewrite (sorted_level_perm i es'). by rewrite Hp.
  - apply sorted_strict; [apply StronglySorted_merge_sort; apply _|]. by rewrite (sorted_level_perm i (es ++ es')).
  - by rewrite (sorted_level_perm i es'), (sorted_level_perm i (es ++ es')).
Qed.

(** ** The loop *)

(** A record of the manifest of this database. *)
Definition record_of (e : VersionEdit) (r : list Z) : Prop :=
  EncodeTo e [] = Some r /\ edit_ok e /\ (has_comparator_ e = true -> comparator_ e = comparator_name).

Lemma recover_record_ok e r b pointers h rd : record_of e r ->
  recover_record r b pointers h rd =
    ('(b, pointers, h) ← Apply e b pointers h; Some (Ok, b, pointers, h, note_numbers e rd)).
Proof.
  intros (Hr & He & Hc). unfold recover_record. destruct (decode_encoded e VersionEdit_new He) as (bs & Hbs & Hd).
  rewrite Hr in Hbs. injection Hbs as <-. rewrite Hd. cbn [mbind option_bind].
  assert (decoded VersionEdit_new e = e) as -> by (by destruct e).
  assert (bool_decide (Ok = Ok) && has_comparator_ e && negb (bool_decide (comparator_ e = comparator_name)) = false) as ->.
  { destruct (has_comparator_ e); [|done]. by rewrite Hc, !bool_decide_true. }
  rewrite bool_decide_true by done. by destruct (Apply e b pointers h) as [[[b' ps'] h']|].
Qed.

Lemma recover_loop_ok tag_of (Htag : tag_ok tag_of) recs ps : log_records recs ps ->
  forall es base done owners next b h pointers fuel r rd, Forall2 record_of es recs ->
  delivers tag_of rd ps -> clean rd -> (unread rd < fuel)%nat ->
  built base done owners next b h -> length (files_ base) = Z.to_nat kNumLevels -> Forall edit_valid es ->
  fresh_numbers base (done ++ es) -> length pointers = Z.to_nat kNumLevels ->
  exists b' h', recover_loop fuel Ok rd b pointers h r = Some (Ok, b', foldl edit_pointers pointers es, h', numbers_of es r) /\
    built base (done ++ es) owners next b' h'.
Proof.
  induction 1 as [|rec recs qs ps Hfr _ IH]; intros es base done owners next b h pointers fuel r rd Hes Hd Hc Hf Hb Hl Hv Hn Hp;
    (destruct fuel as [|fuel]; [lia|]); cbn [recover_loop].
  - apply Forall2_nil_inv_r in Hes as ->. destruct (ReadRecord_end tag_of Htag rd Hd Hc) as (rd' & -> & _ & Hc'). cbn [mbind option_bind].
    rewrite bool_decide_true by done. rewrite (proj2 (proj2 (proj2 Hc'))). exists b, h. by rewrite app_nil_r.
  - apply Forall2_cons_inv_r in Hes as (e & es' & Hrec & Hes & ->). apply Forall_cons_1 in Hv as [He Hv].
    destruct (ReadRecord_ok rd (delivers_bytes tag_of rd _ Hd)) as (r' & rd'' & E & _ & _ & Hlt).
    destruct (ReadRecord_next tag_of Htag rd rec qs ps Hd Hc Hfr) as (rd' & E' & Hd' & Hc'). rewrite E in E'. injection E' as -> ->.
    rewrite E. cbn [mbind option_bind]. rewrite (bool_decide_true (Ok = Ok)) by done. rewrite (proj2 (proj2 (proj2 Hc'))), (bool_decide_true (Ok = Ok)) by done.
    rewrite (recover_record_ok e rec b pointers h r Hrec). rewrite cons_middle, app_assoc in Hn.
    destruct (Apply_ok base done owners next b h e pointers Hb Hl He) as (b1 & h1 & -> & Hb1); [by eapply fresh_numbers_prefix|done|].
    cbn [mbind option_bind]. specialize (Hlt ltac:(done)).
    destruct (IH es' base (done ++ [e]) owners next b1 h1 (edit_pointers pointers e) fuel (note_numbers e r) rd') as (b' & h' & -> & Hb');
      [done|done|done|lia|done|done|done|done|by rewrite edit_pointers_length|].
    exists b', h'. split; [done|]. by rewrite <- app_assoc in Hb'.
Qed.

(** ** Recovery *)

(** The file is a log in the format of the reader, and its records are the edits. *)
Definition manifest_of tag_of (es : list VersionEdit) (f : list byte) : Prop :=
  exists blocks last recs, content f = log_bytes tag_of blocks last /\ log_ok tag_of blocks last /\
    log_records recs (physicals blocks last) /\ Forall2 record_of es recs.

Lemma Version_new_sorted : version_sorted Version_new.
Proof.
  split; [done|]. intros i files Hi%list_elem_of_lookup_2%elem_of_replicate_inv. subst. split; constructor.
Qed.

Lemma Finalize_sorted v : version_sorted v -> version_sorted (Finalize v).
Proof. intros [Hl Hs]. split; rewrite Finalize_files; done. Qed.

Lemma ReuseManifest_ok {W} `{!RecoveryEnv W (list byte)} name s (w : W) : descriptor_log_ s = false ->
  exists reused s' w', ReuseManifest name s w = Some (reused, s', w') /\ descriptor_log_ s' = reused /\
    s' = with_descriptor reused (with_manifest (if reused then default 0 (ParseDescriptorName name) else manifest_file_number_ s) s).
Proof.
  intros Hd. unfold ReuseManifest.
  assert (s = with_descriptor false (with_manifest (manifest_file_number_ s) s)) as Es by (destruct s; cbn in *; by subst).
  destruct (negb reuse_logs); [by exists false, s, w|]. destruct (ParseDescriptorName name) as [n|]; [|by exists false, s, w].
  destruct (GetFileSize name w) as [st size]. destruct (_ || _); [by exists false, s, w|]. rewrite Hd. cbn [negb assert_ mbind option_bind].
  destruct (NewAppendableFile name w) as [st' w']. case_bool_decide; [|by exists false, s, w'].
  exists true, (with_manifest n (with_descriptor true s)), w'. by destruct s.
Qed.

(** The state that the edits of a manifest describe. *)
Record describes es (log prev next seq : Z) (s : VersionSet) : Prop := {
  ds_sorted : version_sorted (current_ s);
  ds_files level files : files_ (current_ s) !! level = Some files -> meta <$> files = sorted_level level es [];
  ds_pointers : compact_pointer_ s = foldl edit_pointers (replicate (Z.to_nat kNumLevels) []) es;
  ds_next : vs_next_file_number_ s = wrap 64 (next + 1);
  ds_sequence : vs_last_sequence_ s = seq;
  ds_log : vs_log_number_ s = log;
  ds_prev : vs_prev_log_number_ s = prev }.

Lemma Recover_ok {W} `{!RecoveryEnv W (list byte)} tag_of (Htag : tag_ok tag_of) es max vs (w : W) name f log prev next seq :
  ReadCurrent w = (Ok, name ++ [10]) -> NewSequentialFile name w = inr f -> manifest_of tag_of es f ->
  edits_fit Version_new es -> numbers_of es no_numbers = mkRecovered (Some log) prev (Some next) (Some seq) ->
  versions_ok [] [] vs ->
  exists save s' vs' w', Recover (VersionSet_new max) vs w = Some (Ok, save, s', vs', w') /\
    describes es log (default 0 prev) next seq s' /\ descriptor_log_ s' = negb save /\
    (save = true -> manifest_file_number_ s' = next) /\ versions_ok [] [] vs' /\
    exists c, current_id vs' = Some c /\ live vs' !! c = Some (files_ (current_ s')).
Proof.
  intros Hcur Hfile (blocks & last & recs & Hc & Hok & Hlog & Hrecs) [Hval Hfresh Hdis] Hnum Hvs.
  unfold Recover. rewrite Hcur. rewrite (bool_decide_true (Ok = Ok)) by done. cbn [negb].
  unfold current_name. rewrite last_snoc, length_app. cbn [length]. rewrite Nat.add_sub, take_app_length, Hfile.
  destruct (new_delivers tag_of f blocks last true true Hc Hok) as [Hd Hcl].
  pose proof (Builder_new_built Version_new (file_addresses Version_new ++ live_addresses (live vs)) (heap vs)) as Hb.
  destruct (recover_loop_ok tag_of Htag recs _ Hlog es Version_new [] (file_addresses Version_new ++ live_addresses (live vs)) (next_address (heap vs))
    (Builder_new (current_ (VersionSet_new max))) (heap vs) (compact_pointer_ (VersionSet_new max)) (S (remaining f)) no_numbers
    (Reader_new f true true 0)) as (b & h & E & Hbuilt); [done|done|done|cbn; lia| |done|done|done|done|].
  { apply Hb. pose proof (vr_heap _ _ _ Hvs) as Hh. by rewrite app_nil_r in Hh. }
  change (mkRecovered None None None None) with no_numbers.
  rewrite E. cbn [mbind option_bind]. rewrite (bool_decide_true (Ok = Ok)) by done. rewrite Hnum.
  cbn [missing_number next_file log_number last_sequence prev_log_number default]. rewrite (bool_decide_true (Ok = Ok)) by done.
  destruct (SaveTo_ok Version_new es _ _ b h Version_new_sorted Hbuilt Hfresh Hdis) as (v & h1 & h2 & -> & Edel & [Hsorted Hfiles] & Hh2).
  cbn [mbind option_bind]. rewrite Edel. cbn [mbind option_bind].
  destruct (AppendVersion_ok (Finalize v) [] [] (with_heap h2 vs)) as (vs' & -> & Hvs' & Hid & Hlive & _).
  { apply (with_heap_ok [] []); [done|]. unfold file_addresses in *. rewrite Finalize_files, app_nil_r.
    eapply heap_ok_perm; [|exact Hh2]. cbn. by rewrite Permutation_app_comm. }
  cbn [mbind option_bind].
  match goal with |- context [ReuseManifest name ?s w] => destruct (ReuseManifest_ok name s w) as (reused & s' & w' & -> & Hdesc & Es') end.
  { unfold MarkFileNumberUsed. by repeat case_match. }
  cbn [mbind option_bind default]. eexists _, _, _, _. split; [done|]. rewrite negb_involutive.
  split; [|split; [done|split; [|split; [done|]]]].
  - subst s'. cbn. split; cbn; [|intros level files Hl|try done..].
    + by apply Finalize_sorted.
    + rewrite Finalize_files in Hl. destruct (Hfiles level []) as (files' & Hl' & Em & _).
      { apply lookup_replicate_2. apply lookup_lt_Some in Hl. by rewrite (vso_length _ Hsorted) in Hl. }
      rewrite Hl in Hl'. by injection Hl' as <-.
    + unfold MarkFileNumberUsed. by repeat case_match.
  - subst s'. cbn. by destruct reused.
  - exists (next_id vs). split; [exact Hid|]. subst s'. exact Hlive.
Qed.

(** C20 (roundtrip): a manifest in the format of the log whose records are the
    encodings of edits is recovered: whatever the edits are that leave well-formed
    levels, the current version has at every level the files that the edits leave
    one after the other, and the numbers are the last ones that were written; the
    manifest is saved anew unless it is reused. *)
Theorem recover_replays {W} `{!RecoveryEnv W (list byte)} tag_of es max vs (w : W) name f log prev next seq :
  tag_ok tag_of -> ReadCurrent w = (Ok, name ++ [10]) -> NewSequentialFile name w = inr f -> manifest_of tag_of es f ->
  edits_fit Version_new es -> numbers_of es no_numbers = mkRecovered (Some log) prev (Some next) (Some seq) ->
  AppendVersion Version_new Versions_new = Some vs ->
  exists save s' vs' w', Recover (VersionSet_new max) vs w = Some (Ok, save, s', vs', w') /\
    (forall level files, files_ (current_ s') !! level = Some files ->
      meta <$> files = merge_sort not_after (foldl (edit_level level) [] es)) /\
    compact_pointer_ s' = foldl edit_pointers (replicate (Z.to_nat kNumLevels) []) es /\
    vs_next_file_number_ s' = wrap 64 (next + 1) /\ vs_last_sequence_ s' = seq /\ vs_log_number_ s' = log /\
    vs_prev_log_number_ s' = default 0 prev /\ descriptor_log_ s' = negb save /\ versions_ok [] [] vs'.
Proof.
  intros Htag Hcur Hfile Hman Hfit Hnum Hnew.
  destruct (Recover_ok tag_of Htag es max vs w name f log prev next seq Hcur Hfile Hman Hfit Hnum) as (save & s' & vs' & w' & E & [] & ? & _ & ? & _).
  { exact (vi_ok _ (versions_initial vs Hnew)). }
  by exists save, s', vs', w'.
Qed.
End manifest.

(** ** A small environment

    The manifest is one block of full records; a record that does not fit is refused.
    [w_sync] is the status of every [Sync]. *)

#[local] Instance manifest_format : LogFormat := {
  kBlockSize := 32768; kHeaderSize := 7;
  kZeroType := 0; kFullType := 1; kFirstType := 2; kMiddleType := 3; kLastType := 4; kEof := 5; kBadRecord := 6;
  crc_Value := demo_crc; Unmask x := wrap 32 (x - 0xa282ead8); DecodeFixed32 := le_val;
}.

#[local] Instance manifest_format_laws : LogFormatLaws.
Proof.
  split.
  - reflexivity.
  - cbn. lia.
  - by_compute.
  - intros t Ht. cbn in Ht. repeat (apply elem_of_cons in Ht as [->|Ht]; [lia|]). by apply elem_of_nil in Ht.
Defined.

Record World := mkWorld { w_records : list (list Z); w_number : Z; w_current : option Z; w_sync : Status }.

Definition records_log (rs : list (list Z)) : list Z := log_bytes demo_tag [] ((fun r => (kFullType, r)) <$> rs, []).

Definition fits_block (rs : list (list Z)) : Prop :=
  Forall (is_u 8) (records_log rs) /\ size (records_log rs) < kBlockSize /\ Forall (fun r => size r < 2 ^ 16) rs.

Definition to_byte (z : Z) : byte := default x00 (Byte.of_N (Z.to_N z)).

Lemma content_to_byte l : Forall (is_u 8) l -> content (to_byte <$> l) = l.
Proof.
  intros Hl. unfold content. rewrite <- list_fmap_compose. induction Hl as [|z l Hz _ IH]; [done|]. rewrite fmap_cons, IH. f_equal.
  unfold byte_val, to_byte, compose. destruct (Byte.of_N (Z.to_N z)) as [b|] eqn:E; cbn.
  - apply Byte.to_of_N in E. rewrite E. unfold is_u in Hz. lia.
  - apply Byte.of_N_None_iff in E. unfold is_u in Hz. lia.
Qed.

Definition world_name (n : Z) : list Z := [77; n].

#[local] Instance world_env : ManifestEnv World := {
  NewWritableFile n w := (Ok, mkWorld [] n (w_current w) (w_sync w));
  AddRecord r w :=
    if bool_decide (fits_block (w_records w ++ [r])) then (Ok, mkWorld (w_records w ++ [r]) (w_number w) (w_current w) (w_sync w))
    else (IOError 28, w);
  Sync w := (w_sync w, w);
  SetCurrentFile n w := (Ok, mkWorld (w_records w) (w_number w) (Some n) (w_sync w));
  DeleteFile n w := w }.

#[local] Instance world_recovery : RecoveryEnv World (list byte) := {
  ReadCurrent w := match w_current w with Some n => (Ok, world_name n ++ [10]) | None => (NotFound, []) end;
  NewSequentialFile name w :=
    if bool_decide (name = world_name (w_number w)) then inr (to_byte <$> records_log (w_records w)) else inl NotFound;
  ParseDescriptorName name := name !! 1%nat;
  GetFileSize name w := (Ok, size (records_log (w_records w)));
  NewAppendableFile name w := (Ok, w) }.

#[local] Instance world_options : ManifestOptions := { comparator_name := [98]; reuse_logs := true }.

Lemma records_physicals rs : log_records rs (physicals [] ((fun r => (kFullType, r)) <$> rs, [])).
Proof.
  unfold physicals. cbn [fmap list_fmap concat app fst]. induction rs as [|r rs IH]; [apply log_nil|].
  apply (log_cons r rs [(kFullType, r)] _ (frag_full r) IH).
Qed.

Lemma manifest_tag_ok : @tag_ok manifest_format demo_tag.
Proof. exact demo_tag_ok. Qed.

Lemma world_log rs : fits_block rs ->
  content (to_byte <$> records_log rs) = log_bytes demo_tag [] ((fun r => (kFullType, r)) <$> rs, []) /\
  log_ok demo_tag [] ((fun r => (kFullType, r)) <$> rs, []).
Proof.
  intros (Hb & Hs & Hr). split; [by apply content_to_byte|]. split; [constructor|].
  assert (size (block_bytes demo_tag ((fun r => (kFullType, r)) <$> rs, [])) < kBlockSize) as Hlt by exact Hs.
  split; [|exact Hlt]. split; [|done]. apply Forall_fmap. eapply List.Forall_impl; [|exact Hr].
  intros r Hr'. split; [left|done].
Qed.

(** ** Recovery of a manifest with two edits *)

Section demo.
#[local] Existing Instances by_bytes by_bytes_laws reference_coding reference_coding_laws reference_format
  reference_format_laws reference_icmp reference_icmp_laws.

(** A new database, a flush to level 0, and a compaction to level 1. *)
Definition first_edit : VersionEdit := with_last_sequence 0 (with_next_file_number 2 (with_log_number 0 (with_comparator [98] VersionEdit_new))).
Definition second_edit : VersionEdit :=
  with_last_sequence 2 (with_next_file_number 6 (with_prev_log_number 0 (with_log_number 4 flush_edit))).
Definition third_edit : VersionEdit :=
  with_last_sequence 7 (with_next_file_number 8
    (Edit [] 0 0 0 0 false false false false false [(0, ikey 3 2)] [(0, 5)] [(1, FileMeta 7 90 (ikey 1 1) (ikey 3 2))])).
Definition manifest_edits : list VersionEdit := [first_edit; second_edit; third_edit].

Definition manifest_world : World := mkWorld (omap (fun e => EncodeTo e []) manifest_edits) 1 (Some 1) Ok.

Example demo_recover :
  ('(st, save, s, vs, w) ← Recover (VersionSet_new 2097152) start_versions manifest_world;
   Some (st, save, map (map number) (map (map meta) (files_ (current_ s))),
         (vs_next_file_number_ s, manifest_file_number_ s, vs_last_sequence_ s, vs_log_number_ s), elements (AddLiveFiles vs ∅))) =
  Some (Ok, false, [[]; [7]; []; []; []; []; []], (9, 1, 7, 4), [7]).
Proof. vm_compute. reflexivity. Qed.

Lemma manifest_edits_ok : Forall edit_ok manifest_edits.
Proof.
  repeat apply List.Forall_cons; try apply List.Forall_nil;
    (split; cbn; repeat constructor; try done; intros E; discriminate E).
Qed.

Lemma manifest_records : Forall2 record_of manifest_edits (w_records manifest_world).
Proof.
  pose proof manifest_edits_ok as Hok. unfold manifest_edits in *. rewrite !List.Forall_cons_iff in Hok. destruct Hok as (H1 & H2 & H3 & _).
  repeat apply Forall2_cons_2; try apply Forall2_nil_2; (split; [vm_compute; reflexivity|split; [done|intros E; first [discriminate E|reflexivity]]]).
Qed.

Lemma manifest_edits_fit : edits_fit Version_new manifest_edits.
Proof.
  split.
  - repeat apply List.Forall_cons; try apply List.Forall_nil;
      (split; repeat apply List.Forall_cons; try apply List.Forall_nil; cbn [fst snd]); split_and?;
      try first [done|unfold level_ok, kNumLevels; lia];
      (split; [apply valid_ikey; by_compute|split; [apply valid_ikey; by_compute|by_compute]]).
  - intros level files Hl. do 7 (destruct level as [|level]; [injection Hl as <-; by_compute|]). done.
  - intros level files _ Hl. do 7 (destruct level as [|level]; [injection Hl as <-; repeat first [apply SSorted_nil|apply SSorted_cons|apply List.Forall_nil|apply List.Forall_cons]; by_compute|]). done.
Qed.

Lemma recover_replays_witness : exists save s' vs' w',
  Recover (VersionSet_new 2097152) start_versions manifest_world = Some (Ok, save, s', vs', w') /\
  (forall level files, files_ (current_ s') !! level = Some files ->
    meta <$> files = merge_sort not_after (foldl (edit_level level) [] manifest_edits)) /\
  compact_pointer_ s' = foldl edit_pointers (replicate (Z.to_nat kNumLevels) []) manifest_edits /\
  vs_next_file_number_ s' = wrap 64 (8 + 1) /\ vs_last_sequence_ s' = 7 /\ vs_log_number_ s' = 4 /\
  vs_prev_log_number_ s' = 0 /\ descriptor_log_ s' = negb save /\ versions_ok [] [] vs'.
Proof.
  assert (fits_block (w_records manifest_world)) as Hfit by by_compute.
  destruct (world_log _ Hfit) as [Hc Hlog].
  apply (recover_replays demo_tag manifest_edits 2097152 start_versions manifest_world (world_name 1) (to_byte <$> records_log (w_records manifest_world))
    4 (Some 0) 8 7 manifest_tag_ok); [reflexivity|vm_compute; reflexivity| |exact manifest_edits_fit|reflexivity|reflexivity].
  eexists _, _, _. split; [exact Hc|]. split; [exact Hlog|]. split; [apply records_physicals|exact manifest_records].
Defined.
End demo.
