(* ===== verification/ManifestSafe.v ===== *)
(** * Installing edits durably

    When [LogAndApply] succeeds, the manifest that [CURRENT] names describes the
    version that was installed, so that recovery gives it back; when it fails, the
    version set keeps its version. *)

From Stdlib Require Import String Strings.Byte Sorting.Sorted.
From stdpp Require Import base list sorting gmap.
From S2P Require Import Prelude LogReader LogProps Doubles Cursor Coding DbFormat VersionEdit VersionFiles VersionState.
From S2P Require Import Builder BuilderProps BuilderApply BuilderSave VersionRefs Manifest ManifestProps.

#[local] Open Scope Z_scope.

(** ** What the environment promises *)

(** The records of the open manifest and its number, and the number that [CURRENT]
    names. An operation that succeeds does what it says; a file that was written
    record by record is a log in the format. *)
Class ManifestEnvLaws (W : Type) `{!ManifestEnv W} `{!RecoveryEnv W (list byte)} `{!LogFormat} := {
  env_ok : W -> Prop;
  records : W -> list (list Z);
  open_number : W -> Z;
  current_number : W -> option Z;
  tag_of : list Z -> list Z;
  tag_of_ok : tag_ok tag_of;
  New_law n w w' : env_ok w -> NewWritableFile n w = (Ok, w') -> env_ok w' /\ records w' = [] /\ open_number w' = n;
  Add_law r w w' : env_ok w -> AddRecord r w = (Ok, w') ->
    env_ok w' /\ records w' = records w ++ [r] /\ open_number w' = open_number w /\ current_number w' = current_number w;
  Sync_law w w' : env_ok w -> Sync w = (Ok, w') ->
    env_ok w' /\ records w' = records w /\ open_number w' = open_number w /\ current_number w' = current_number w;
  Current_law n w w' : env_ok w -> SetCurrentFile n w = (Ok, w') ->
    env_ok w' /\ records w' = records w /\ open_number w' = open_number w /\ current_number w' = Some n;
  Read_law w : env_ok w -> current_number w = Some (open_number w) ->
    exists name f blocks last, ReadCurrent w = (Ok, name ++ [10]) /\ NewSequentialFile name w = inr f /\
      content f = log_bytes tag_of blocks last /\ log_ok tag_of blocks last /\ log_records (records w) (physicals blocks last) }.

(** ** Edits *)

(** The edit that is written. *)
Definition completed (e : VersionEdit) (s : VersionSet) : VersionEdit :=
  let e := if has_log_number_ e then e else with_log_number (vs_log_number_ s) e in
  let e := if has_prev_log_number_ e then e else with_prev_log_number (vs_prev_log_number_ s) e in
  with_last_sequence (vs_last_sequence_ s) (with_next_file_number (vs_next_file_number_ s) e).

Lemma complete_edit_ok e s :
  (has_log_number_ e = true -> vs_log_number_ s <= log_number_ e < vs_next_file_number_ s) ->
  complete_edit e s = Some (completed e s).
Proof.
  intros Hl. unfold complete_edit, completed. destruct (has_log_number_ e); [|done].
  destruct Hl as [H1 H2]; [done|]. by rewrite (proj2 (Z.leb_le _ _)), (proj2 (Z.ltb_lt _ _)).
Qed.

(** The numbers of a version set fit their types. *)
Definition numbers_fit (s : VersionSet) : Prop :=
  Forall (is_u 64) [vs_next_file_number_ s; vs_last_sequence_ s; vs_log_number_ s; vs_prev_log_number_ s].

Lemma completed_ok e s : edit_ok e -> numbers_fit s -> edit_ok (completed e s).
Proof.
  intros [Hc Hn Hu Hp Hd Hf] Hs. unfold numbers_fit in Hs. rewrite !List.Forall_cons_iff in Hn, Hs. destruct Hn as (N1 & N2 & N3 & N4 & _), Hs as (S1 & S2 & S3 & S4 & _).
  destruct Hu as (Uc & Ul & Up & _). unfold completed. destruct e as [c l p n q [] [] [] hn hq ps ds fs]; cbn in *; split; cbn; try done;
    by rewrite !List.Forall_cons_iff.
Qed.

Lemma completed_numbers e s r : exists log prev,
  log = (if has_log_number_ e then log_number_ e else vs_log_number_ s) /\
  prev = (if has_prev_log_number_ e then prev_log_number_ e else vs_prev_log_number_ s) /\
  note_numbers (completed e s) r = mkRecovered (Some log) (Some prev) (Some (vs_next_file_number_ s)) (Some (vs_last_sequence_ s)) /\
  log_number_ (completed e s) = log /\ prev_log_number_ (completed e s) = prev.
Proof. exists (log_number_ (completed e s)), (prev_log_number_ (completed e s)). by destruct e as [? ? ? ? ? ? [] [] ? ? ? ? ?]. Qed.

(** Assigning the pointers of an edit once more changes nothing. *)
Lemma edit_pointers_twice e pointers : edit_pointers (edit_pointers pointers e) e = edit_pointers pointers e.
Proof.
  unfold edit_pointers. set (assign := fun (ps : list (list Z)) (p : Z * list Z) => <[Z.to_nat p.1 := p.2]> ps).
  assert (forall l ps, length (foldl assign ps l) = length ps) as Hlen.
  { induction l as [|p l IH]; intros ps; [done|]. cbn [foldl]. rewrite IH. apply length_insert. }
  assert (forall l i, (forall ps, foldl assign ps l !! i = ps !! i) \/
    exists k, forall ps, (i < length ps)%nat -> foldl assign ps l !! i = Some k) as Hall.
  { intros l i. induction l as [|p l IH] using rev_ind; [by left|].
    destruct (decide (i = Z.to_nat p.1)) as [->|Hne].
    - right. exists p.2. intros ps Hi. rewrite foldl_app. cbn. unfold assign at 1. rewrite list_lookup_insert_eq; [done|by rewrite Hlen].
    - destruct IH as [IH|[k IH]]; [left; intros ps|right; exists k; intros ps Hi]; rewrite foldl_app; cbn; unfold assign at 1; rewrite list_lookup_insert_ne by done;
        [apply IH|by apply IH]. }
  apply list_eq. intros i. destruct (Hall (compact_pointers_ e) i) as [H|[k H]]; [by rewrite H|].
  destruct (decide (i < length pointers)%nat) as [Hi|Hi].
  - by rewrite !H by (rewrite ?Hlen; done).
  - rewrite !lookup_ge_None_2; [done|rewrite Hlen; lia|rewrite !Hlen; lia].
Qed.

(** ** Snapshots *)

Fixpoint pointer_entries (level : nat) (pointers : list (list Z)) : list (Z * list Z) :=
  match pointers with
  | [] => []
  | p :: pointers => (if bool_decide (p <> []) then [(Z.of_nat level, p)] else []) ++ pointer_entries (S level) pointers
  end.

Fixpoint file_entries (level : nat) (levels : list (list file)) : list (Z * FileMetaData) :=
  match levels with
  | [] => []
  | files :: levels => ((fun f : file => (Z.of_nat level, meta f)) <$> files) ++ file_entries (S level) levels
  end.

Lemma snapshot_pointers_lists level pointers e : snapshot_pointers level pointers e =
  with_lists (compact_pointers_ e ++ pointer_entries level pointers) (deleted_files_ e) (new_files_ e) e.
Proof.
  revert level e. induction pointers as [|p pointers IH]; intros level e; cbn [snapshot_pointers pointer_entries].
  { rewrite app_nil_r. by destruct e. }
  rewrite IH. case_bool_decide; [|done]. cbn. by rewrite <- app_assoc.
Qed.

Lemma add_files_lists level (files : list file) e : foldl (fun e (f : file) => add_new_file (Z.of_nat level, meta f) e) e files =
  with_lists (compact_pointers_ e) (deleted_files_ e) (new_files_ e ++ ((fun f : file => (Z.of_nat level, meta f)) <$> files)) e.
Proof.
  revert e. induction files as [|f files IH]; intros e; cbn [foldl]; [rewrite app_nil_r; by destruct e|].
  rewrite IH. cbn. by rewrite <- app_assoc.
Qed.

Lemma snapshot_files_lists level levels e : snapshot_files level levels e =
  with_lists (compact_pointers_ e) (deleted_files_ e) (new_files_ e ++ file_entries level levels) e.
Proof.
  revert level e. induction levels as [|files levels IH]; intros level e; cbn [snapshot_files file_entries].
  { rewrite app_nil_r. by destruct e. }
  rewrite IH, add_files_lists. cbn. by rewrite <- app_assoc.
Qed.

Lemma of_level_app {A} i (l l' : list (Z * A)) : of_level i (l ++ l') = of_level i l ++ of_level i l'.
Proof. unfold of_level. by rewrite list.filter_app, fmap_app. Qed.

Lemma of_level_entries level i (files : list file) :
  of_level i ((fun f : file => (Z.of_nat level, meta f)) <$> files) = if decide (level = i) then meta <$> files else [].
Proof.
  induction files as [|f files IH]; [by destruct (decide _)|]. rewrite fmap_cons, of_level_cons, IH.
  destruct (decide (level = i)) as [->|Hne]; [by rewrite decide_True|]. rewrite decide_False; [done|lia].
Qed.

Lemma of_level_file_entries level i levels :
  of_level i (file_entries level levels) = if decide (level <= i)%nat then meta <$> default [] (levels !! (i - level)%nat) else [].
Proof.
  revert level. induction levels as [|files levels IH]; intros level; cbn [file_entries]; [by destruct (decide _)|].
  rewrite of_level_app, of_level_entries, IH. destruct (decide (level = i)) as [->|Hne].
  - rewrite (decide_False (P := (S i <= i)%nat)), (decide_True (P := (i <= i)%nat)), Nat.sub_diag, app_nil_r by lia. done.
  - cbn [app]. destruct (decide (level <= i)%nat).
    + rewrite decide_True by lia. by replace (i - level)%nat with (S (i - S level)) by lia.
    + by rewrite decide_False by lia.
Qed.

Lemma pointer_entries_assign level pointers pre : length pre = level ->
  foldl (fun ps (p : Z * list Z) => <[Z.to_nat p.1 := p.2]> ps) (pre ++ replicate (length pointers) []) (pointer_entries level pointers) =
  pre ++ pointers.
Proof.
  revert level pre. induction pointers as [|p pointers IH]; intros level pre Hpre; [done|]. cbn [pointer_entries length replicate].
  rewrite foldl_app. specialize (IH (S level) (pre ++ [p])). rewrite <- !app_assoc in IH. cbn [app] in IH.
  rewrite length_app in IH. cbn [length] in IH. rewrite <- IH by lia. f_equal. case_bool_decide as Hp; cbn [foldl fst snd].
  - rewrite Nat2Z.id, insert_app_r_alt by lia. by rewrite Hpre, Nat.sub_diag.
  - destruct (decide (p = [])) as [->|]; [done|by destruct Hp].
Qed.

Section snapshots.
Context `{ComparatorLaws} `{CodingLaws} `{!InternalKeyFormat, !InternalKeyFormatLaws}.
Context `{!InternalComparator, !InternalComparatorLaws} `{!ManifestOptions}.

Lemma snapshot_lists s : snapshot s = with_lists (pointer_entries 0 (compact_pointer_ s)) [] (file_entries 0 (files_ (current_ s)))
  (with_comparator comparator_name VersionEdit_new).
Proof. unfold snapshot. by rewrite snapshot_files_lists, snapshot_pointers_lists. Qed.

(** What has to be storable: the name of the comparator, the files and the pointers. *)
Record storable (s : VersionSet) : Prop := {
  st_comparator : slice_ok comparator_name;
  st_length : length (files_ (current_ s)) = Z.to_nat kNumLevels;
  st_files level files : files_ (current_ s) !! level = Some files -> Forall (fun f : file => file_ok f) files;
  st_pointers : length (compact_pointer_ s) = Z.to_nat kNumLevels /\ Forall slice_ok (compact_pointer_ s) }.

Lemma pointer_entries_ok level pointers : (level + length pointers <= Z.to_nat kNumLevels)%nat -> Forall slice_ok pointers ->
  Forall (fun p => level_ok p.1 /\ key_ok p.2) (pointer_entries level pointers).
Proof.
  intros Hl Hp. revert level Hl. induction Hp as [|p pointers Hp _ IH]; intros level Hl; [constructor|]. cbn [pointer_entries length] in *.
  apply Forall_app. split; [|apply IH; lia]. case_bool_decide; [|constructor]. apply Forall_singleton. split; [|done].
  unfold level_ok, kNumLevels in *. cbn [fst]. lia.
Qed.

Lemma file_entries_ok (P : FileMetaData -> Prop) level levels : (level + length levels <= Z.to_nat kNumLevels)%nat ->
  Forall (Forall (fun f : file => P f)) levels -> Forall (fun p => level_ok p.1 /\ P p.2) (file_entries level levels).
Proof.
  intros Hl Hf. revert level Hl. induction Hf as [|files levels Hf _ IH]; intros level Hl; [constructor|]. cbn [file_entries length] in *.
  apply Forall_app. split; [|apply IH; lia]. apply Forall_fmap. eapply List.Forall_impl; [|exact Hf]. intros f Hm. split; [|done].
  unfold level_ok, kNumLevels in *. cbn [fst]. lia.
Qed.

Lemma snapshot_edit_ok s : storable s -> edit_ok (snapshot s).
Proof.
  intros [Hc Hl Hf [Hp Hps]]. rewrite snapshot_lists. split; cbn; try done.
  - repeat (apply List.Forall_cons; [split; done|]). apply List.Forall_nil.
  - apply pointer_entries_ok; [lia|done].
  - split; constructor.
  - apply file_entries_ok; [lia|]. apply list.Forall_forall. intros files [i Hi]%list_elem_of_lookup_1. by eapply Hf.
Qed.

Lemma snapshot_record s : storable s -> exists r, EncodeTo (snapshot s) [] = Some r /\ record_of (snapshot s) r.
Proof.
  intros Hs. destruct (decode_encoded _ VersionEdit_new (snapshot_edit_ok s Hs)) as (r & Hr & _). exists r. split; [done|].
  split; [done|]. split; [by apply snapshot_edit_ok|]. by rewrite snapshot_lists.
Qed.

(** ** What a sequence of edits leaves *)

(** The files and pointers of the version set are those that the edits leave. *)
Record replays (es : list VersionEdit) (s : VersionSet) : Prop := {
  rp_files level files : files_ (current_ s) !! level = Some files -> meta <$> files = sorted_level level es [];
  rp_pointers : compact_pointer_ s = foldl edit_pointers (replicate (Z.to_nat kNumLevels) []) es }.

Lemma Version_new_level i : (i < Z.to_nat kNumLevels)%nat -> files_ Version_new !! i = Some [].
Proof. intros Hi. by apply lookup_replicate_2. Qed.

Lemma snapshot_replays s : version_sorted (current_ s) -> length (compact_pointer_ s) = Z.to_nat kNumLevels ->
  fresh_numbers Version_new [snapshot s] -> replays [snapshot s] s.
Proof.
  intros [Hl Hs] Hp Hf. split.
  - intros level files Hi. assert (level < Z.to_nat kNumLevels)%nat as Hlt by (rewrite <- Hl; by eapply lookup_lt_Some).
    apply (sorted_level_unique level [snapshot s] [] files); [by apply Hf, Version_new_level|by apply (Hs level)|].
    cbn [edits_level foldl fmap list_fmap]. unfold edit_level. rewrite snapshot_lists. cbn [new_files_ with_lists filter list_filter app].
    rewrite of_level_file_entries, decide_True, Nat.sub_0_r, Hi by lia. done.
  - cbn [foldl]. unfold edit_pointers. rewrite snapshot_lists. cbn [compact_pointers_ with_lists]. rewrite <- Hp.
    symmetry. exact (pointer_entries_assign 0 (compact_pointer_ s) [] eq_refl).
Qed.

(** The numbers of the next edit are not used by the files that are left. *)
Lemma edits_level_fresh i es e ms : NoDup (number <$> (ms ++ added_by i (es ++ [e]))) ->
  NoDup (number <$> (edits_level i es ms ++ added_by i [e])).
Proof.
  intros Hn. set (e0 := with_lists [] [] (new_files_ e) e).
  assert (forall es, added_by i (es ++ [e0]) = added_by i (es ++ [e])) as E by (intros; by rewrite !added_by_snoc).
  rewrite <- E in Hn. apply edits_level_NoDup in Hn. rewrite edits_level_app in Hn. cbn [edits_level foldl] in Hn.
  unfold edit_level at 1 in Hn. cbn [deleted_files_ new_files_ e0 with_lists] in Hn.
  rewrite filter_keeps_all in Hn by (intros m _; by apply not_elem_of_nil). unfold added_by. cbn. by rewrite app_nil_r.
Qed.

Lemma replays_fit es e s : length (files_ (current_ s)) = Z.to_nat kNumLevels -> replays es s ->
  edits_fit Version_new (es ++ [e]) -> edits_fit (current_ s) [e].
Proof.
  intros Hl [Hf _] [Hv Hn Hd]. apply Forall_app in Hv as [_ Hv].
  assert (forall i files, files_ (current_ s) !! i = Some files -> files_ Version_new !! i = Some []) as Hnew.
  { intros i files Hi%lookup_lt_Some. apply Version_new_level. lia. }
  split; [done|..].
  - intros i files Hi. rewrite (Hf i files Hi), sorted_level_perm. apply edits_level_fresh. exact (Hn i [] (Hnew i files Hi)).
  - intros i files H0i Hi. rewrite (Hf i files Hi), sorted_level_app by exact (Hn i [] (Hnew i files Hi)).
    exact (Hd i [] H0i (Hnew i files Hi)).
Qed.

Lemma replays_step es e s v ps next : length (files_ (current_ s)) = Z.to_nat kNumLevels -> replays es s ->
  fresh_numbers Version_new (es ++ [e]) -> saves (current_ s) v [e] next -> ps = edit_pointers (compact_pointer_ s) e ->
  (forall level files, files_ v !! level = Some files -> meta <$> files = sorted_level level (es ++ [e]) []) /\
  ps = foldl edit_pointers (replicate (Z.to_nat kNumLevels) []) (es ++ [e]).
Proof.
  intros Hl [Hf Hp] Hn [[Hvl _] Hs] ->. split; [|by rewrite foldl_app, <- Hp].
  intros i files Hi. assert (i < Z.to_nat kNumLevels)%nat as Hlt by (rewrite <- Hvl; by eapply lookup_lt_Some).
  destruct (lookup_lt_is_Some_2 (files_ (current_ s)) i) as [base Hb]; [lia|].
  destruct (Hs i base Hb) as (files' & Hi' & E & _). rewrite Hi in Hi'. injection Hi' as <-.
  rewrite E, (Hf i base Hb), sorted_level_app; [done|]. by apply (Hn i []), Version_new_level.
Qed.
End snapshots.

(** ** LogAndApply *)

Section log_and_apply.
Context `{ComparatorLaws} `{CodingLaws} `{!InternalKeyFormat, !InternalKeyFormatLaws}.
Context `{!InternalComparator, !InternalComparatorLaws} `{!ManifestOptions} `{ManifestEnvLaws W} `{!LogFormatLaws}.
Implicit Types (s : VersionSet) (vs : Versions) (w : W) (e : VersionEdit) (v : Version).

(** What other threads may do while the mutex is released: hand out numbers, and take
    and give up references to versions; [extra] is not theirs. *)
Definition others_ok (others : VersionSet * Versions -> VersionSet * Versions) : Prop :=
  forall s vs held extra, numbers_fit s -> versions_ok held extra vs -> exists held' n q vs',
    others (s, vs) = (with_sequence q (with_next_file n s), vs') /\ is_u 64 n /\ is_u 64 q /\
    versions_ok held' extra vs' /\ current_id vs' = current_id vs /\
    forall c, current_id vs = Some c -> live vs' !! c = live vs !! c.

(** The state between calls; an open manifest describes the version set. *)
Record set_ok (held : list positive) (es : list VersionEdit) s vs w : Prop := {
  so_sorted : version_sorted (current_ s);
  so_storable : storable s;
  so_numbers : numbers_fit s;
  so_versions : versions_ok held [] vs;
  so_current : exists c, current_id vs = Some c /\ live vs !! c = Some (files_ (current_ s));
  so_env : env_ok w;
  so_open : descriptor_log_ s = true ->
    current_number w = Some (open_number w) /\ Forall2 record_of es (records w) /\ replays es s }.

(** What the manifest describes when the edit is added to it: a new one begins with a
    snapshot. *)
Definition history (es : list VersionEdit) e s : list VersionEdit :=
  if descriptor_log_ s then es else [snapshot (with_pointers (edit_pointers (compact_pointer_ s) e) s)].

(** What the edit must be like. *)
Record edit_fits (es : list VersionEdit) e s : Prop := {
  ei_ok : edit_ok e;
  ei_comparator : has_comparator_ e = true -> comparator_ e = comparator_name;
  ei_log : has_log_number_ e = true -> vs_log_number_ s <= log_number_ e < vs_next_file_number_ s;
  ei_files : edits_fit Version_new (history es (completed e s) s ++ [completed e s]) }.

Lemma history_replays held es e s vs w : set_ok held es s vs w -> fresh_numbers Version_new (history es e s ++ [e]) ->
  exists s0, replays (history es e s) s0 /\ current_ s0 = current_ s /\
    edit_pointers (compact_pointer_ s0) e = edit_pointers (compact_pointer_ s) e.
Proof.
  intros Hok Hf. unfold history in *. pose proof (so_open _ _ _ _ _ Hok) as Hopen. destruct (descriptor_log_ s).
  - exists s. split; [by apply Hopen|done].
  - exists (with_pointers (edit_pointers (compact_pointer_ s) e) s). split; [|split; [done|apply edit_pointers_twice]].
    apply snapshot_replays; [apply Hok| |by eapply fresh_numbers_prefix]. cbn. rewrite edit_pointers_length. apply Hok.
Qed.

Lemma completed_record es e s : edit_fits es e s -> numbers_fit s ->
  exists r, EncodeTo (completed e s) [] = Some r /\ record_of (completed e s) r.
Proof.
  intros [He Hc _ _] Hn. pose proof (completed_ok e s He Hn) as Hok.
  destruct (decode_encoded _ VersionEdit_new Hok) as (r & Hr & _). exists r. split; [done|]. split; [done|]. split; [done|].
  by destruct e as [? ? ? ? ? ? [] [] ? ? ? ? ?].
Qed.

Lemma prepare_build e s vs w : prepare e s vs w =
  (e ← complete_edit e s;
   '(v, pointers, h) ← build [e] (current_ s) (compact_pointer_ s) (heap vs);
   '(st, new_manifest, s, w) ← open_manifest (with_pointers pointers s) w;
   Some (e, Finalize v, st, new_manifest, s, with_heap h vs, w)).
Proof.
  unfold prepare. destruct (complete_edit e s) as [e'|]; [|done]. cbn [mbind option_bind]. unfold build. cbn [apply_edits].
  destruct (Apply _ _ _ _) as [[[b ps] h]|]; [|done]. cbn [mbind option_bind]. destruct (SaveTo b h) as [[v h']|]; [|done].
  cbn [mbind option_bind]. by destruct (Builder_delete b h').
Qed.

Lemma storable_pointers s ps : storable s -> length ps = Z.to_nat kNumLevels -> Forall slice_ok ps -> storable (with_pointers ps s).
Proof. intros [Hc Hl Hf _] Hp Hps. by split. Qed.

Lemma edit_pointers_slices e ps : edit_ok e -> Forall slice_ok ps -> Forall slice_ok (edit_pointers ps e).
Proof.
  intros He. unfold edit_pointers. pose proof (ok_pointers _ He) as Hp. revert ps.
  induction Hp as [|p l [_ [_ Hp]] _ IH]; intros ps Hps; [done|]. cbn [foldl]. apply IH. by apply Forall_insert.
Qed.

(** The manifest after it was opened. *)
Definition manifest_opened (es : list VersionEdit) (new_manifest : option Z) w : Prop :=
  env_ok w /\ Forall2 record_of es (records w) /\
  match new_manifest with Some n => open_number w = n | None => current_number w = Some (open_number w) end.

Lemma open_manifest_ok held es e s vs w : set_ok held es s vs w -> edit_ok e ->
  exists st d w', open_manifest (with_pointers (edit_pointers (compact_pointer_ s) e) s) w =
      Some (st, if descriptor_log_ s then None else Some (manifest_file_number_ s),
            with_descriptor d (with_pointers (edit_pointers (compact_pointer_ s) e) s), w') /\
    (descriptor_log_ s = true -> d = true) /\
    (st = Ok -> d = true /\
      manifest_opened (history es e s) (if descriptor_log_ s then None else Some (manifest_file_number_ s)) w').
Proof.
  intros Hok He. set (s1 := with_pointers _ s). unfold open_manifest, history. destruct (descriptor_log_ s) eqn:Ed.
  - assert (descriptor_log_ s1 = true) as -> by done. exists Ok, true, w.
    assert (with_descriptor true s1 = s1) as -> by (by unfold with_descriptor; rewrite <- Ed; destruct s).
    split; [done|]. split; [done|]. intros _. split; [done|]. destruct (so_open _ _ _ _ _ Hok Ed) as (Hcur & Hrec & _).
    split; [apply Hok|done].
  - assert (descriptor_log_ s1 = false) as -> by done. fold s1. change (manifest_file_number_ s1) with (manifest_file_number_ s).
    destruct (NewWritableFile (manifest_file_number_ s) w) as [st w1] eqn:En. case_bool_decide as Hst.
    + subst st. destruct (New_law _ _ _ (so_env _ _ _ _ _ Hok) En) as (Henv & Hrec & Hnum).
      assert (storable s1) as Hs1.
      { destruct (st_pointers _ (so_storable _ _ _ _ _ Hok)) as [Hlen Hsl]. apply storable_pointers; [apply Hok|by rewrite edit_pointers_length|].
        by apply edit_pointers_slices. }
      destruct (snapshot_record s1 Hs1) as (r & Er & Hr). unfold WriteSnapshot.
      change (snapshot (with_descriptor true s1)) with (snapshot s1). rewrite Er. cbn [mbind option_bind].
      destruct (AddRecord r w1) as [st w2] eqn:Ea. exists st, true, w2. split; [done|]. split; [done|]. intros ->. split; [done|].
      destruct (Add_law _ _ _ Henv Ea) as (Henv2 & Hrec2 & Hnum2 & _). split; [done|]. rewrite Hrec2, Hrec. split; [|congruence].
      constructor; [done|constructor].
    + exists st, false, w1. assert (with_descriptor false s1 = s1) as -> by (by unfold with_descriptor; rewrite <- Ed; destruct s).
      split; [done|]. split; [done|]. done.
Qed.

Lemma write_edit_ok es e st new_manifest w r : EncodeTo e [] = Some r -> record_of e r ->
  (st = Ok -> manifest_opened es new_manifest w) ->
  exists st' w', write_edit st new_manifest e w = Some (st', w') /\
    (st' = Ok -> st = Ok /\ env_ok w' /\ Forall2 record_of (es ++ [e]) (records w') /\ current_number w' = Some (open_number w')).
Proof.
  intros Er Hr Hopen. unfold write_edit. case_bool_decide as Hst; cbn [mbind option_bind].
  2: { exists st, w. split; [|done]. destruct new_manifest; [|done]. by rewrite bool_decide_false. }
  destruct (Hopen Hst) as (Henv & Hrec & Hnum). rewrite Er. cbn [mbind option_bind]. destruct (AddRecord r w) as [st1 w1] eqn:Ea.
  cbn [mbind option_bind]. case_bool_decide as Hst1.
  2: { exists st1, w1. split; [|done]. destruct new_manifest; [|done]. by rewrite bool_decide_false. }
  subst st1. destruct (Add_law _ _ _ Henv Ea) as (Henv1 & Hrec1 & Hnum1 & Hcur1). destruct (Sync w1) as [st2 w2] eqn:Es.
  destruct (decide (st2 = Ok)) as [->|Hst2].
  2: { exists st2, w2. split; [|done]. destruct new_manifest; [|done]. by rewrite bool_decide_false. }
  destruct (Sync_law _ _ Henv1 Es) as (Henv2 & Hrec2 & Hnum2 & Hcur2).
  assert (Forall2 record_of (es ++ [e]) (records w2)) as Hall by (rewrite Hrec2, Hrec1; apply Forall2_app; [done|]; constructor; [done|constructor]).
  destruct new_manifest as [n|].
  - rewrite bool_decide_true by done. destruct (SetCurrentFile n w2) as [st3 w3] eqn:Ec. exists st3, w3. split; [done|].
    intros ->. destruct (Current_law _ _ _ Henv2 Ec) as (Henv3 & Hrec3 & Hnum3 & Hcur3). split; [done|]. split; [done|].
    rewrite Hrec3. split; [done|congruence].
  - exists Ok, w2. split; [done|]. intros _. split; [done|]. split; [done|]. split; [done|]. congruence.
Qed.

(** The new version is made current, or given up. *)
Lemma install_ok st new_manifest v e s vs w held : versions_ok held (file_addresses v) vs ->
  exists s' vs' w', install st new_manifest v e s vs w = Some (s', vs', w') /\ versions_ok held [] vs' /\
    (st = Ok -> s' = with_logs (log_number_ e) (prev_log_number_ e) (with_current v s) /\ w' = w /\
      exists c, current_id vs' = Some c /\ live vs' !! c = Some (files_ v)) /\
    (st <> Ok -> s' = (match new_manifest with Some _ => with_descriptor false s | None => s end) /\
      current_id vs' = current_id vs /\ live vs' = live vs).
Proof.
  intros Hok. unfold install. case_bool_decide as Hst.
  - destruct (AppendVersion_ok v held [] vs) as (vs' & -> & Hok' & Hc & Hl & _); [by rewrite app_nil_r|]. cbn [mbind option_bind].
    eexists _, vs', w. split; [done|]. split; [done|]. split; [|done]. intros _. split; [done|]. split; [done|]. by eexists.
  - destruct (Version_delete_ok v (heap vs) (live_addresses (live vs))) as (h & -> & Hh & _).
    { pose proof (vr_heap _ _ _ Hok) as Hheap. by rewrite Permutation_app_comm in Hheap. }
    cbn [mbind option_bind].
    assert (versions_ok held [] (with_heap h vs)) as Hok' by (eapply with_heap_ok; [done|by rewrite app_nil_r]).
    destruct new_manifest; eexists _, _, _; (split; [done|]); (split; [done|]); by split.
Qed.

(** What an edit changes in the state. *)
Record installed (e : VersionEdit) s s' : Prop := {
  in_files level files : files_ (current_ s) !! level = Some files -> exists files', files_ (current_ s') !! level = Some files' /\
    meta <$> files' = merge_sort not_after (edit_level level (meta <$> files) e);
  in_pointers : compact_pointer_ s' = edit_pointers (compact_pointer_ s) e;
  in_log : vs_log_number_ s' = log_number_ e;
  in_prev : vs_prev_log_number_ s' = prev_log_number_ e;
  in_descriptor : descriptor_log_ s' = true }.

Lemma saved_storable s s' e next : storable s -> edit_ok e -> saves (current_ s) (current_ s') [e] next ->
  compact_pointer_ s' = edit_pointers (compact_pointer_ s) e -> storable s'.
Proof.
  intros [Hc Hl Hf [Hp Hps]] He [[Hl' _] Hs] E. split; [done|done| |].
  - intros level files' Hi. assert (level < Z.to_nat kNumLevels)%nat as Hlt by (rewrite <- Hl'; by eapply lookup_lt_Some).
    destruct (lookup_lt_is_Some_2 (files_ (current_ s)) level) as [files Hi0]; [lia|].
    destruct (Hs level files Hi0) as (files2 & Hi2 & Em & _). rewrite Hi in Hi2. injection Hi2 as <-.
    specialize (Hf level files Hi0). apply (Forall_fmap meta file_ok) in Hf. apply (Forall_fmap meta file_ok). rewrite Em, sorted_level_perm.
    cbn [edits_level foldl]. unfold edit_level. pose proof (ok_new _ He) as Hnew.
    rewrite list.Forall_forall in Hf. rewrite list.Forall_forall in Hnew. apply list.Forall_forall.
    intros m [[_ Hm]%list_elem_of_filter|(p & -> & [_ Hp']%list_elem_of_filter)%list_elem_of_fmap]%elem_of_app; [by apply Hf|by apply Hnew].
  - rewrite E, edit_pointers_length. split; [done|by apply edit_pointers_slices].
Qed.

(** A call with an edit that fits returns; the state is that after the edit, or that
    of before. *)
Lemma LogAndApply_ok others held es e s vs w : others_ok others -> set_ok held es s vs w -> edit_fits es e s ->
  exists st s' vs' w' held', LogAndApply others e s vs w = Some (st, s', vs', w') /\
    (st = Ok -> set_ok held' (history es (completed e s) s ++ [completed e s]) s' vs' w' /\ installed (completed e s) s s') /\
    (st <> Ok -> versions_ok held' [] vs' /\ current_id vs' = current_id vs /\
      (forall c, current_id vs = Some c -> live vs' !! c = live vs !! c) /\ current_ s' = current_ s /\
      vs_log_number_ s' = vs_log_number_ s /\ vs_prev_log_number_ s' = vs_prev_log_number_ s /\
      descriptor_log_ s' = descriptor_log_ s).
Proof.
  intros Hoth Hok Hfit. set (e' := completed e s). destruct (completed_record es e s Hfit (so_numbers _ _ _ _ _ Hok)) as (r & Er & Hr).
  pose proof (completed_ok e s (ei_ok _ _ _ Hfit) (so_numbers _ _ _ _ _ Hok)) as He'. fold e' in Er, Hr, He'.
  pose proof (ei_files _ _ _ Hfit) as Hf. fold e' in Hf.
  destruct (history_replays held es e' s vs w Hok) as (s0 & Hrep & Ec0 & Ep0); [apply Hf|].
  pose proof (so_sorted _ _ _ _ _ Hok) as Hsort. assert (edits_fit (current_ s) [e']) as Hfit'.
  { rewrite <- Ec0. eapply replays_fit; [|exact Hrep|exact Hf]. rewrite Ec0. apply Hsort. }
  destruct (so_current _ _ _ _ _ Hok) as (c & Hc & Hl). pose proof (so_versions _ _ _ _ _ Hok) as Hvs.
  destruct (build_ok (current_ s) [e'] (live_addresses (delete c (live vs))) (heap vs) (compact_pointer_ s) Hsort Hfit')
    as (v & h & Eb & Hsv & Hh).
  { apply (so_storable _ _ _ _ _ Hok). }
  { pose proof (vr_heap _ _ _ Hvs) as Hh. rewrite app_nil_r, (live_addresses_delete _ _ _ Hl) in Hh. exact Hh. }
  unfold LogAndApply. rewrite prepare_build, complete_edit_ok by apply Hfit. fold e'. cbn [mbind option_bind]. rewrite Eb. cbn [mbind option_bind foldl].
  destruct (open_manifest_ok held es e' s vs w Hok He') as (st1 & d & w1 & -> & Hd & Hopen1). cbn [mbind option_bind].
  destruct (write_edit_ok (history es e' s) e' st1 _ w1 r Er Hr (fun E => proj2 (Hopen1 E))) as (st2 & w2 & -> & Hw2). cbn [mbind option_bind].
  set (s1 := with_descriptor d (with_pointers (edit_pointers (compact_pointer_ s) e') s)).
  destruct (Hoth s1 (with_heap h vs) held (file_addresses (Finalize v))) as (held' & n & q & vs2 & -> & Hn & Hq & Hvs2 & Hid2 & Hlive2);
    [by apply Hok| |].
  { eapply with_heap_ok; [done|]. unfold file_addresses in *. rewrite Finalize_files. rewrite (Permutation_app_comm (live_addresses _)).
    rewrite (live_addresses_delete _ _ _ Hl). exact Hh. }
  destruct (install_ok st2 (if descriptor_log_ s then None else Some (manifest_file_number_ s)) (Finalize v) e'
    (with_sequence q (with_next_file n s1)) vs2 w2 held' Hvs2) as (s' & vs' & w' & -> & Hvs' & Hgood & Hbad).
  cbn [mbind option_bind]. exists st2, s', vs', w', held'. split; [done|]. split.
  - intros E. destruct (Hgood E) as (-> & -> & c' & Hc' & Hl'). destruct (Hw2 E) as (E1 & Henv & Hrec & Hcur).
    destruct (Hopen1 E1) as [-> _].
    assert (saves (current_ s) (Finalize v) [e'] (next_address (heap vs))) as Hsv'.
    { destruct Hsv as [Hv1 Hv2]. split; [by apply Finalize_sorted|by rewrite Finalize_files]. }
    split; [|split; try done].
    + split; cbn.
      * by apply Finalize_sorted, Hsv.
      * eapply (saved_storable s); [apply Hok|exact He'|exact Hsv'|done].
      * pose proof (so_numbers _ _ _ _ _ Hok) as Hnum. pose proof (ok_numbers _ He') as Hnum'. unfold numbers_fit in *.
        rewrite !List.Forall_cons_iff in Hnum, Hnum' |- *. cbn. tauto.
      * done.
      * by exists c'.
      * done.
      * intros _. split; [done|]. split; [done|].
        destruct (replays_step (history es e' s) e' s0 (Finalize v) (edit_pointers (compact_pointer_ s0) e') (next_address (heap vs)))
          as [Hf1 Hf2]; [rewrite Ec0; apply Hsort|exact Hrep|apply Hf|by rewrite Ec0|done|]. split; [exact Hf1|]. by rewrite Ep0 in Hf2.
    + intros level files Hi. destruct (sv_files _ _ _ _ Hsv' level files Hi) as (files' & Hi' & Em & _). by exists files'.
  - intros Hne. destruct (Hbad Hne) as (Es & Hid & Hlv). split; [done|]. split; [rewrite Hid; exact Hid2|]. split.
    { intros c0 Hc0. rewrite Hlv. exact (Hlive2 c0 Hc0). }
    rewrite Es. destruct (descriptor_log_ s) eqn:Ed; [|done]. split; [done|]. split; [done|]. split; [done|]. cbn.
    by rewrite Hd.
Qed.

(** The records of a manifest that [CURRENT] names are read back. *)
Lemma Recover_records es s w max vs0 log prev next seq : env_ok w -> current_number w = Some (open_number w) ->
  Forall2 record_of es (records w) -> replays es s -> version_sorted (current_ s) -> edits_fit Version_new es ->
  numbers_of es no_numbers = mkRecovered (Some log) (Some prev) (Some next) (Some seq) ->
  AppendVersion Version_new Versions_new = Some vs0 ->
  exists save r vs1 w1, Recover (VersionSet_new max) vs0 w = Some (Ok, save, r, vs1, w1) /\
    map (map meta) (files_ (current_ r)) = map (map meta) (files_ (current_ s)) /\ compact_pointer_ r = compact_pointer_ s /\
    vs_log_number_ r = log /\ vs_prev_log_number_ r = prev /\ vs_last_sequence_ r = seq /\
    vs_next_file_number_ r = wrap 64 (next + 1).
Proof.
  intros Henv Hcur Hrec [Hf Hp] [Hsl _] Hfit Hnum Hnew.
  destruct (Read_law w Henv Hcur) as (name & f & blocks & last & Hread & Hfile & Hc & Hlog & Hrecs).
  destruct (Recover_ok tag_of tag_of_ok es max vs0 w name f log (Some prev) next seq Hread Hfile) as
    (save & r & vs1 & w1 & E & [[Hrl _] Hrf Hrp Hrn Hrs Hrlog Hrprev] & _); [by exists blocks, last, (records w)|done|done|exact (vi_ok _ (versions_initial vs0 Hnew))|].
  exists save, r, vs1, w1. split; [done|]. split; [|by rewrite Hrp, Hp].
  apply list_eq. intros i. change (map (map meta)) with (fmap (M := list) (map meta)). rewrite !list_lookup_fmap.
  destruct (decide (i < Z.to_nat kNumLevels)%nat) as [Hi|Hi]; [|by rewrite !lookup_ge_None_2 by lia].
  destruct (lookup_lt_is_Some_2 (files_ (current_ r)) i) as [l1 E1]; [lia|].
  destruct (lookup_lt_is_Some_2 (files_ (current_ s)) i) as [l2 E2]; [lia|]. rewrite E1, E2. cbn. f_equal.
  transitivity (sorted_level i es []); [exact (Hrf i l1 E1)|]. symmetry. exact (Hf i l2 E2).
Qed.

(** C17 (refinement): a call with an edit that fits returns, whatever the environment
    does and other threads do while the mutex is released; and if it returns [Ok],
    the current version is the one before with the files of the edit deleted and
    added, the state is one for the next call, and recovery from the manifest that
    [CURRENT] names gives these levels, pointers and log numbers, with the numbers
    that were current at the call. *)
Theorem LogAndApply_durable others held es e s vs w max vs0 : others_ok others -> set_ok held es s vs w -> edit_fits es e s ->
  AppendVersion Version_new Versions_new = Some vs0 ->
  exists st s' vs' w', LogAndApply others e s vs w = Some (st, s', vs', w') /\
    (st = Ok ->
      (forall level files, files_ (current_ s) !! level = Some files -> exists files', files_ (current_ s') !! level = Some files' /\
        meta <$> files' = merge_sort not_after (edit_level level (meta <$> files) (completed e s))) /\
      (exists held', set_ok held' (history es (completed e s) s ++ [completed e s]) s' vs' w') /\
      exists save r vs1 w1, Recover (VersionSet_new max) vs0 w' = Some (Ok, save, r, vs1, w1) /\
        map (map meta) (files_ (current_ r)) = map (map meta) (files_ (current_ s')) /\ compact_pointer_ r = compact_pointer_ s' /\
        vs_log_number_ r = vs_log_number_ s' /\ vs_prev_log_number_ r = vs_prev_log_number_ s' /\
        vs_last_sequence_ r = vs_last_sequence_ s /\ vs_next_file_number_ r = wrap 64 (vs_next_file_number_ s + 1)).
Proof.
  intros Hoth Hok Hfit Hnew. destruct (LogAndApply_ok others held es e s vs w Hoth Hok Hfit) as (st & s' & vs' & w' & held' & E & Hgood & _).
  exists st, s', vs', w'. split; [done|]. intros Est. destruct (Hgood Est) as [Hok' Hin]. split; [apply Hin|]. split; [by exists held'|].
  destruct (so_open _ _ _ _ _ Hok' (in_descriptor _ _ _ Hin)) as (Hcur & Hrec & Hrep).
  destruct (completed_numbers e s (numbers_of (history es (completed e s) s) no_numbers)) as (log & prev & _ & _ & Hnum & Hlog & Hprev).
  destruct (Recover_records _ s' w' max vs0 log prev (vs_next_file_number_ s) (vs_last_sequence_ s) (so_env _ _ _ _ _ Hok') Hcur Hrec Hrep
    (so_sorted _ _ _ _ _ Hok') (ei_files _ _ _ Hfit)) as (save & r & vs1 & w1 & Er & Hf & Hp & Hl & Hpr & Hs & Hn);
    [by unfold numbers_of; rewrite foldl_app|done|].
  exists save, r, vs1, w1. rewrite (in_log _ _ _ Hin), (in_prev _ _ _ Hin), Hlog, Hprev. by split_and!.
Qed.

(** C29 (error): a call that does not return [Ok] leaves the current version, the log
    numbers and whether the manifest is open as they were, and the new version gives
    back its files: the metadata that is left is that of the live versions. *)
Theorem LogAndApply_error others held es e s vs w st s' vs' w' : others_ok others -> set_ok held es s vs w -> edit_fits es e s ->
  LogAndApply others e s vs w = Some (st, s', vs', w') -> st <> Ok ->
  current_ s' = current_ s /\ current_id vs' = current_id vs /\ vs_log_number_ s' = vs_log_number_ s /\
  vs_prev_log_number_ s' = vs_prev_log_number_ s /\ descriptor_log_ s' = descriptor_log_ s /\
  (exists c, current_id vs' = Some c /\ live vs' !! c = Some (files_ (current_ s'))) /\
  forall a, is_Some (refs (heap vs') !! a) <-> exists id levels f, live vs' !! id = Some levels /\ f ∈ mjoin levels /\ address f = a.
Proof.
  intros Hoth Hok Hfit E Hst. destruct (LogAndApply_ok others held es e s vs w Hoth Hok Hfit) as (st1 & s1 & vs1 & w1 & held' & E1 & _ & Hbad).
  rewrite E in E1. injection E1 as <- <- <- <-. destruct (Hbad Hst) as (Hvs & Hid & Hl & Hc & Hlog & Hprev & Hd).
  destruct (so_current _ _ _ _ _ Hok) as (c & Ec & Elive). do 5 (split; [done|]). split.
  - exists c. rewrite Hid, Hc, (Hl c Ec). done.
  - intros a. pose proof (vr_heap _ _ _ Hvs) as Hh. rewrite app_nil_r in Hh. rewrite (ho_refs _ _ Hh), <- elem_of_live_addresses.
    destruct (decide (a ∈ live_addresses (live vs'))); by split.
Qed.
End log_and_apply.

(** ** The small environment *)

Section demo.
#[local] Existing Instances by_bytes by_bytes_laws reference_coding reference_coding_laws reference_format
  reference_format_laws reference_icmp reference_icmp_laws manifest_format manifest_format_laws world_env world_recovery world_options.

#[local] Instance world_laws : ManifestEnvLaws World.
Proof.
  refine {| env_ok w := fits_block (w_records w); records := w_records; open_number := w_number; current_number := w_current;
    tag_of := demo_tag; tag_of_ok := manifest_tag_ok |}.
  - intros n w w' _ [= <-]. split; [|done]. by_compute.
  - intros r w w' _. cbn. case_bool_decide as Hfit; [|done]. intros [= <-]. done.
  - intros w w' Hfit [= _ <-]. done.
  - intros n w w' Hfit [= <-]. done.
  - intros w Hfit Hcur. destruct (world_log _ Hfit) as [Hc Hlog]. exists (world_name (w_number w)), (to_byte <$> records_log (w_records w)), [], ((fun r => (kFullType, r)) <$> w_records w, []).
    split; [cbn; by rewrite Hcur|]. split; [cbn; by rewrite bool_decide_true|]. split; [exact Hc|]. split; [exact Hlog|]. apply records_physicals.
Defined.

(** Another thread takes a file number. *)
Definition take_number (p : VersionSet * Versions) : VersionSet * Versions := ((NewFileNumber p.1).2, p.2).

Lemma take_number_ok : others_ok take_number.
Proof.
  intros s vs held extra Hn Hvs. exists held, (wrap 64 (vs_next_file_number_ s + 1)), (vs_last_sequence_ s), vs.
  unfold numbers_fit in Hn. rewrite !List.Forall_cons_iff in Hn. split; [by destruct s|]. split; [apply wrap_range; lia|].
  split; [apply Hn|done].
Qed.

Definition start_set : VersionSet := VersionSet_new 2097152.
Definition empty_world : World := mkWorld [] 0 None Ok.

(** Two edits in turn: the first creates the manifest, the second is added to it. *)
Definition two_edits : option (Status * VersionSet * Versions * World) :=
  '(_, s, vs, w) ← LogAndApply take_number flush_edit start_set start_versions empty_world;
  LogAndApply take_number third_edit s vs w.

Example demo_two_edits :
  ('(st, s, vs, w) ← two_edits; '(st', save, r, vs', _) ← Recover (VersionSet_new 2097152) start_versions w;
   Some (st, st', length (w_records w), map (map number) (map (map meta) (files_ (current_ r))), elements (AddLiveFiles vs ∅))) =
  Some (Ok, Ok, 3%nat, [[]; [7]; []; []; []; []; []], [7]).
Proof. vm_compute. reflexivity. Qed.

Lemma start_set_ok : set_ok [] [] start_set start_versions empty_world.
Proof.
  split.
  - apply Version_new_sorted.
  - split; [done|done| |by split; [|repeat apply List.Forall_cons; try apply List.Forall_nil]].
    intros level files Hi%list_elem_of_lookup_2%elem_of_replicate_inv. subst. constructor.
  - repeat apply List.Forall_cons; try apply List.Forall_nil; by_compute.
  - exact (vi_ok _ (versions_initial start_versions eq_refl)).
  - by exists 1%positive.
  - by_compute.
  - done.
Qed.

Lemma flush_edit_fits_manifest : edit_fits [] flush_edit start_set.
Proof.
  split; [|done|done|].
  - split; cbn; repeat constructor; try done; intros E; discriminate E.
  - split.
    + repeat apply List.Forall_cons; try apply List.Forall_nil;
        (split; repeat apply List.Forall_cons; try apply List.Forall_nil; cbn [fst snd]); split_and?;
        try first [done|unfold level_ok, kNumLevels; lia];
        (split; [apply valid_ikey; by_compute|split; [apply valid_ikey; by_compute|by_compute]]).
    + intros level files Hl. do 7 (destruct level as [|level]; [injection Hl as <-; by_compute|]). done.
    + intros level files _ Hl. do 7 (destruct level as [|level]; [injection Hl as <-; repeat first [apply SSorted_nil|apply SSorted_cons|apply List.Forall_nil|apply List.Forall_cons]; by_compute|]). done.
Qed.

Lemma LogAndApply_durable_witness : exists st s' vs' w',
  LogAndApply take_number flush_edit start_set start_versions empty_world = Some (st, s', vs', w') /\
    (st = Ok ->
      (forall level files, files_ (current_ start_set) !! level = Some files -> exists files', files_ (current_ s') !! level = Some files' /\
        meta <$> files' = merge_sort not_after (edit_level level (meta <$> files) (completed flush_edit start_set))) /\
      (exists held', set_ok held' (history [] (completed flush_edit start_set) start_set ++ [completed flush_edit start_set]) s' vs' w') /\
      exists save r vs1 w1, Recover (VersionSet_new 2097152) start_versions w' = Some (Ok, save, r, vs1, w1) /\
        map (map meta) (files_ (current_ r)) = map (map meta) (files_ (current_ s')) /\ compact_pointer_ r = compact_pointer_ s' /\
        vs_log_number_ r = vs_log_number_ s' /\ vs_prev_log_number_ r = vs_prev_log_number_ s' /\
        vs_last_sequence_ r = vs_last_sequence_ start_set /\ vs_next_file_number_ r = wrap 64 (vs_next_file_number_ start_set + 1)).
Proof.
  exact (LogAndApply_durable take_number [] [] flush_edit start_set start_versions empty_world 2097152 start_versions
    take_number_ok start_set_ok flush_edit_fits_manifest eq_refl).
Defined.

(** [Sync] fails: the new manifest is given up. *)
Definition broken_world : World := mkWorld [] 0 None (IOError 5).

Lemma start_set_broken : set_ok [] [] start_set start_versions broken_world.
Proof. by destruct start_set_ok as [H1 H2 H3 H4 H5 H6 H7]. Qed.

Lemma LogAndApply_error_witness : exists s' vs' w',
  LogAndApply take_number flush_edit start_set start_versions broken_world = Some (IOError 5, s', vs', w') /\
  current_ s' = current_ start_set /\ current_id vs' = current_id start_versions /\ vs_log_number_ s' = vs_log_number_ start_set /\
  vs_prev_log_number_ s' = vs_prev_log_number_ start_set /\ descriptor_log_ s' = descriptor_log_ start_set /\
  (exists c, current_id vs' = Some c /\ live vs' !! c = Some (files_ (current_ s'))) /\
  forall a, is_Some (refs (heap vs') !! a) <-> exists id levels f, live vs' !! id = Some levels /\ f ∈ mjoin levels /\ address f = a.
Proof.
  destruct (LogAndApply take_number flush_edit start_set start_versions broken_world) as [[[[st s'] vs'] w']|] eqn:E; [|by vm_compute in E].
  assert (st = IOError 5) as -> by (vm_compute in E; by injection E as <- _ _ _).
  exists s', vs', w'. split; [done|].
  apply (LogAndApply_error take_number [] [] flush_edit start_set start_versions broken_world (IOError 5) s' vs' w'
    take_number_ok start_set_broken flush_edit_fits_manifest E). done.
Defined.
End demo.
