(* ===== verification/DbState.v ===== *)
(** * The state of a database ([leveldb-library/db/db_impl.cc], [db_impl.h])

    What the mutex protects, the files that are no longer needed, and the compaction
    of the memtable. The functions that the mutex protects run on the state; where a
    function releases the mutex, [unlocked] stands for what the other threads do
    meanwhile. Memtables ([db/memtable.cc]) and the building of tables from them
    ([db/builder.cc]) are not part of the repository and are parameters. *)

From Stdlib Require Import String.
From stdpp Require Import base list gmap.
From S2P Require Import Prelude LogReader Doubles Cursor Coding DbFormat VersionEdit VersionFiles VersionState Builder VersionRefs.
From S2P Require Import Compaction Manifest.

#[local] Open Scope Z_scope.

(** ** State *)

(** The counts of a level; the bytes written are [None] once an indeterminate value was
    added to them. The times are left out. *)
Record CompactionStats := mkStats { bytes_read : Z; bytes_written : option Z }.

Definition CompactionStats_new : CompactionStats := mkStats 0 (Some 0).

Definition stats_Add (s c : CompactionStats) : CompactionStats :=
  mkStats (int64 (bytes_read s + bytes_read c)) (x ← bytes_written s; y ← bytes_written c; Some (int64 (x + y))).

Record ManualCompaction := mkManual { mc_level : nat; mc_done : bool; mc_begin : option (list Z); mc_end : option (list Z) }.

(** [M] are the memtables; [snapshots_] are the sequence numbers of the snapshots, the
    oldest first. The manual compactions are variables of the threads that asked for them,
    [manuals_]; [manual_compaction_] points to one of them. *)
Record Db (M : Type) := mkDb {
  mem_ : M; imm_ : option M; has_imm_ : bool; logfile_number_ : Z;
  snapshots_ : list Z; pending_outputs_ : gset Z;
  background_compaction_scheduled_ : bool; manual_compaction_ : option positive; manuals_ : gmap positive ManualCompaction;
  versions_ : VersionSet; version_list_ : Versions;
  bg_error_ : Status; shutting_down_ : bool; stats_ : list CompactionStats }.
Arguments mkDb {M}.
Arguments mem_ {M}.
Arguments imm_ {M}.
Arguments has_imm_ {M}.
Arguments logfile_number_ {M}.
Arguments snapshots_ {M}.
Arguments pending_outputs_ {M}.
Arguments background_compaction_scheduled_ {M}.
Arguments manual_compaction_ {M}.
Arguments manuals_ {M}.
Arguments versions_ {M}.
Arguments version_list_ {M}.
Arguments bg_error_ {M}.
Arguments shutting_down_ {M}.
Arguments stats_ {M}.

Section setters.
Context {M : Type}.
Implicit Types db : Db M.

Definition set_mem mem imm has_imm log (db : Db M) : Db M := mkDb mem imm has_imm log (snapshots_ db) (pending_outputs_ db)
  (background_compaction_scheduled_ db) (manual_compaction_ db) (manuals_ db) (versions_ db) (version_list_ db) (bg_error_ db) (shutting_down_ db) (stats_ db).
Definition set_pending p (db : Db M) : Db M := mkDb (mem_ db) (imm_ db) (has_imm_ db) (logfile_number_ db) (snapshots_ db) p
  (background_compaction_scheduled_ db) (manual_compaction_ db) (manuals_ db) (versions_ db) (version_list_ db) (bg_error_ db) (shutting_down_ db) (stats_ db).
Definition set_scheduled b (db : Db M) : Db M := mkDb (mem_ db) (imm_ db) (has_imm_ db) (logfile_number_ db) (snapshots_ db) (pending_outputs_ db)
  b (manual_compaction_ db) (manuals_ db) (versions_ db) (version_list_ db) (bg_error_ db) (shutting_down_ db) (stats_ db).
Definition set_manual m ms (db : Db M) : Db M := mkDb (mem_ db) (imm_ db) (has_imm_ db) (logfile_number_ db) (snapshots_ db) (pending_outputs_ db)
  (background_compaction_scheduled_ db) m ms (versions_ db) (version_list_ db) (bg_error_ db) (shutting_down_ db) (stats_ db).
Definition set_versions s vs (db : Db M) : Db M := mkDb (mem_ db) (imm_ db) (has_imm_ db) (logfile_number_ db) (snapshots_ db) (pending_outputs_ db)
  (background_compaction_scheduled_ db) (manual_compaction_ db) (manuals_ db) s vs (bg_error_ db) (shutting_down_ db) (stats_ db).
Definition set_error st (db : Db M) : Db M := mkDb (mem_ db) (imm_ db) (has_imm_ db) (logfile_number_ db) (snapshots_ db) (pending_outputs_ db)
  (background_compaction_scheduled_ db) (manual_compaction_ db) (manuals_ db) (versions_ db) (version_list_ db) st (shutting_down_ db) (stats_ db).
Definition set_stats stats (db : Db M) : Db M := mkDb (mem_ db) (imm_ db) (has_imm_ db) (logfile_number_ db) (snapshots_ db) (pending_outputs_ db)
  (background_compaction_scheduled_ db) (manual_compaction_ db) (manuals_ db) (versions_ db) (version_list_ db) (bg_error_ db) (shutting_down_ db) stats.

(** [stats_[level].Add(stats)] *)
Definition add_stats (level : nat) (c : CompactionStats) (db : Db M) : option (Db M) :=
  s ← stats_ db !! level; Some (set_stats (<[level := stats_Add s c]> (stats_ db)) db).

Definition RecordBackgroundError (s : Status) (db : Db M) : Db M := if bool_decide (bg_error_ db = Ok) then set_error s db else db.

(** A reference to a version. *)
Definition change_refs (f : Versions -> option Versions) (db : Db M) : option (Db M) :=
  vs ← f (version_list_ db); Some (set_versions (versions_ db) vs db).

Definition new_file_number (db : Db M) : Z * Db M :=
  let '(n, s) := NewFileNumber (versions_ db) in (n, set_versions s (version_list_ db) db).
End setters.

(** ** The environment *)

Inductive FileType := kLogFile | kDBLockFile | kTableFile | kDescriptorFile | kCurrentFile | kTempFile | kInfoLogFile.

#[export] Instance FileType_eq_dec : EqDecision FileType.
Proof. solve_decision. Defined.

(** The directory of the database. *)
Class DirectoryEnv (W : Type) := {
  GetChildren : W -> list (list Z);
  ParseFileName : list Z -> option (Z * FileType);
  RemoveFile : list Z -> W -> W;
  Evict : Z -> W -> W }.                        (* of the table cache *)

(** [BuildTable] of [db/builder.cc]: a table of this number from a memtable, its metadata,
    with the size 0 when there is none. *)
Class MemTableEnv (M W : Type) := BuildTable : M -> Z -> W -> Status * FileMetaData * W.

(** What other threads do while the mutex is released: to the versions, and to the rest. *)
Class Threads (M : Type) := {
  unlocked_versions : VersionSet * Versions -> VersionSet * Versions;
  unlocked_rest : Db M -> Db M }.

Definition unlocked `{Threads M} (db : Db M) : Db M :=
  let '(s, vs) := unlocked_versions (versions_ db, version_list_ db) in unlocked_rest (set_versions s vs db).

(** [Status::IOError] of an operation that a shutdown interrupts. *)
Definition deleting_db : Status := IOError (-1).

(** ** DeleteObsoleteFiles *)

Section files.
Context {M W : Type} `{!DirectoryEnv W}.
Implicit Types (db : Db M) (w : W).

Definition keep_file (live : gset Z) (number : Z) (type : FileType) db : bool :=
  match type with
  | kLogFile => (vs_log_number_ (versions_ db) <=? number) || (number =? vs_prev_log_number_ (versions_ db))
  | kDescriptorFile => manifest_file_number_ (versions_ db) <=? number
  | kTableFile | kTempFile => bool_decide (number ∈ live)
  | kCurrentFile | kDBLockFile | kInfoLogFile => true
  end.

Fixpoint delete_files (live : gset Z) (filenames : list (list Z)) db w : W :=
  match filenames with
  | [] => w
  | name :: filenames =>
      match ParseFileName name with
      | Some (number, type) =>
          if keep_file live number type db then delete_files live filenames db w
          else
            let w := if bool_decide (type = kTableFile) then Evict number w else w in
            delete_files live filenames db (RemoveFile name w)
      | None => delete_files live filenames db w
      end
  end.

Definition DeleteObsoleteFiles db w : W :=
  if bool_decide (bg_error_ db = Ok)
  then delete_files (AddLiveFiles (version_list_ db) (pending_outputs_ db)) (GetChildren w) db w
  else w.
End files.

(** ** Compaction of the memtable *)

Section memtable.
Context `{Comparator} `{Coding} `{!InternalKeyFormat, !InternalComparator} `{!ManifestOptions}.
Context {M W : Type} `{!ManifestEnv W} `{!DirectoryEnv W} `{!MemTableEnv M W} `{!Threads M}.
Implicit Types (db : Db M) (w : W) (e : VersionEdit).

(** The status, the edit, and the state. *)
Definition WriteLevel0Table (mem : M) e (base : option Version) db w : option (Status * VersionEdit * Db M * W) :=
  let '(n, db) := new_file_number db in
  let db := set_pending ({[ n ]} ∪ pending_outputs_ db) db in
  let '(s, meta, w) := BuildTable mem n w in
  let db := unlocked db in
  let db := set_pending (pending_outputs_ db ∖ {[ n ]}) db in
  '(level, e) ← (if bool_decide (s = Ok) && (0 <? file_size meta) then
                   min_user_key ← InternalKey_user_key (smallest meta); max_user_key ← InternalKey_user_key (largest meta);
                   level ← match base with
                           | Some v => PickLevelForMemTableOutput (max_file_size (versions_ db)) v min_user_key max_user_key
                           | None => Some 0%nat
                           end;
                   Some (level, add_new_file (Z.of_nat level, meta) e)
                 else Some (0%nat, e));
  db ← add_stats level (mkStats 0 (Some (file_size meta))) db;
  Some (s, e, db, w).

(** [versions_->LogAndApply(edit, &mutex_)] *)
Definition apply_to_versions e db w : option (Status * Db M * W) :=
  '(st, s, vs, w) ← LogAndApply unlocked_versions e (versions_ db) (version_list_ db) w;
  Some (st, set_versions s vs (unlocked_rest db), w).

Definition CompactMemTable db w : option (Db M * W) :=
  imm ← imm_ db;
  let base := current_ (versions_ db) in
  id ← current_id (version_list_ db);
  db ← change_refs (Version_Ref id) db;
  '(s, e, db, w) ← WriteLevel0Table imm VersionEdit_new (Some base) db w;
  db ← change_refs (Version_Unref id) db;
  let s := if bool_decide (s = Ok) && shutting_down_ db then deleting_db else s in
  '(s, db, w) ← (if bool_decide (s = Ok) then
                   apply_to_versions (with_log_number (logfile_number_ db) (with_prev_log_number 0 e)) db w
                 else Some (s, db, w));
  if bool_decide (s = Ok) then
    let db := set_mem (mem_ db) None false (logfile_number_ db) db in Some (db, DeleteObsoleteFiles db w)
  else Some (RecordBackgroundError s db, w).
End memtable.
