(* ===== verification/CompactionWork.v ===== *)
(** * Running a compaction ([leveldb-library/db/db_impl.cc])

    [DoCompactionWork] reads the entries of the input files in order, drops those that
    no snapshot needs any more, and writes the others to tables of the next level.
    The iterator over the inputs is an argument; the file that a table is written to,
    the table builder and the table cache are the parameter [TableEnv]. [None] is a
    failed assertion. *)

From Stdlib Require Import String.
From stdpp Require Import base list gmap.
From S2P Require Import Prelude LogReader Doubles Cursor Coding DbFormat VersionEdit VersionFiles VersionState Builder VersionRefs.
From S2P Require Import Compaction Manifest DbState.

#[local] Open Scope Z_scope.

(** ** State *)

(** [file_size] is not initialised before the file is finished. *)
Record Output := mkOutput { out_number : Z; out_file_size : option Z; out_smallest : list Z; out_largest : list Z }.

(** [outfile_] and [builder_] tell whether the pointers are set. *)
Record CompactionState := mkCompactionState {
  compaction : Compaction; smallest_snapshot : Z; outputs : list Output; outfile_ : bool; builder_ : bool; total_bytes : Z }.

Definition CompactionState_new (c : Compaction) : CompactionState := mkCompactionState c 0 [] false false 0.

Definition with_compaction c s := mkCompactionState c (smallest_snapshot s) (outputs s) (outfile_ s) (builder_ s) (total_bytes s).
Definition with_snapshot n s := mkCompactionState (compaction s) n (outputs s) (outfile_ s) (builder_ s) (total_bytes s).
Definition with_outputs l s := mkCompactionState (compaction s) (smallest_snapshot s) l (outfile_ s) (builder_ s) (total_bytes s).
Definition with_file f b s := mkCompactionState (compaction s) (smallest_snapshot s) (outputs s) f b (total_bytes s).
Definition with_total n s := mkCompactionState (compaction s) (smallest_snapshot s) (outputs s) (outfile_ s) (builder_ s) n.

(** [current_output()], changed by [f]. *)
Definition change_output (f : Output -> Output) (s : CompactionState) : option CompactionState :=
  o ← list.last (outputs s); Some (with_outputs (take (length (outputs s) - 1) (outputs s) ++ [f o]) s).

(** The table that is being written: its file is created with a builder, entries are
    added ([None] when they are not in order), the builder is finished or abandoned,
    the file is synced and closed, and the table cache opens the table. *)
Class TableEnv (W : Type) := {
  OpenTable : Z -> W -> Status * W;
  builder_Add : list Z -> list Z -> W -> option W;
  builder_NumEntries : W -> Z;
  builder_FileSize : W -> Z;
  builder_Finish : W -> Status * W;
  builder_Abandon : W -> W;
  outfile_Sync : W -> Status * W;
  outfile_Close : W -> Status * W;
  VerifyTable : Z -> Z -> W -> Status * W }.

(** ** Which entries are dropped *)

(** [current_user_key] with [has_current_user_key], and [last_sequence_for_key]. *)
Record KeyState := mkKeyState { current_user_key : option (list Z); last_sequence_for_key : Z }.

Definition KeyState_new : KeyState := mkKeyState None kMaxSequenceNumber.

Section work.
Context `{Comparator} `{Coding} `{!InternalKeyFormat, !InternalComparator} `{!ManifestOptions}.
Context {M W : Type} `{!ManifestEnv W} `{!DirectoryEnv W} `{!MemTableEnv M W} `{!Threads M} `{!TableEnv W}.
Context {I : Type} `{!Iterator I}.
Implicit Types (db : Db M) (w : W) (input : I) (s : CompactionState).

(** The state of a new user key, unless it is the current one. *)
Definition note_user_key (u : list Z) (ks : KeyState) : KeyState :=
  match current_user_key ks with
  | Some k => if Compare u k =? 0 then ks else mkKeyState (Some u) kMaxSequenceNumber
  | None => mkKeyState (Some u) kMaxSequenceNumber
  end.

(** Whether the entry is dropped. *)
Definition drop_entry (snapshot : Z) (key : list Z) (ks : KeyState) (c : Compaction) : option (bool * KeyState * Compaction) :=
  match ParseInternalKey key with
  | None => Some (false, KeyState_new, c)
  | Some ikey =>
      let ks := note_user_key (user_key ikey) ks in
      '(drop, c) ← (if last_sequence_for_key ks <=? snapshot then Some (true, c)
                    else if bool_decide (type ikey = kTypeDeletion) && (sequence ikey <=? snapshot)
                    then IsBaseLevelForKey (user_key ikey) c
                    else Some (false, c));
      Some (drop, mkKeyState (current_user_key ks) (sequence ikey), c)
  end.

(** ** The output files *)

Definition OpenCompactionOutputFile s db w : option (Status * CompactionState * Db M * W) :=
  _ ← assert_ (negb (builder_ s));
  let '(file_number, db) := new_file_number db in
  let db := set_pending ({[ file_number ]} ∪ pending_outputs_ db) db in
  let s := with_outputs (outputs s ++ [mkOutput file_number None [] []]) s in
  let '(st, w) := OpenTable file_number w in
  Some (st, if bool_decide (st = Ok) then with_file true true s else s, db, w).

Definition FinishCompactionOutputFile s input w : option (Status * CompactionState * W) :=
  _ ← assert_ (outfile_ s); _ ← assert_ (builder_ s);
  o ← list.last (outputs s); _ ← assert_ (negb (out_number o =? 0));
  let current_entries := builder_NumEntries w in
  let '(st, w) := if bool_decide (it_status input = Ok) then builder_Finish w else (it_status input, builder_Abandon w) in
  let current_bytes := builder_FileSize w in
  s ← change_output (fun o => mkOutput (out_number o) (Some current_bytes) (out_smallest o) (out_largest o)) s;
  let s := with_total (wrap 64 (total_bytes s + current_bytes)) s in
  let '(st, w) := if bool_decide (st = Ok) then outfile_Sync w else (st, w) in
  let '(st, w) := if bool_decide (st = Ok) then outfile_Close w else (st, w) in
  let s := with_file false false s in
  let '(st, w) := if bool_decide (st = Ok) && (0 <? current_entries) then VerifyTable (out_number o) current_bytes w else (st, w) in
  Some (st, s, w).

(** An entry that is kept goes to the current output, a new one if there is none. *)
Definition add_entry (key : list Z) s input db w : option (Status * CompactionState * Db M * W) :=
  '(st, s, db, w) ← (if builder_ s then Some (Ok, s, db, w) else OpenCompactionOutputFile s db w);
  if bool_decide (st = Ok) then
    s ← (if builder_NumEntries w =? 0
         then change_output (fun o => mkOutput (out_number o) (out_file_size o) (InternalKey_DecodeFrom key) (out_largest o)) s
         else Some s);
    s ← change_output (fun o => mkOutput (out_number o) (out_file_size o) (out_smallest o) (InternalKey_DecodeFrom key)) s;
    value ← it_value input; w ← builder_Add key value w;
    if max_output_file_size_ (compaction s) <=? builder_FileSize w then
      '(st, s, w) ← FinishCompactionOutputFile s input w; Some (st, s, db, w)
    else Some (Ok, s, db, w)
  else Some (st, s, db, w).

(** ** The loop *)

(** Memtables are compacted first. *)
Definition prioritize_memtable db w : option (Db M * W) :=
  if has_imm_ db && bool_decide (is_Some (imm_ db)) then CompactMemTable db w else Some (db, w).

(** A turn at a valid position: the status, with which the loop is left when it is not
    [Ok]. *)
Definition compaction_turn s (ks : KeyState) input db w : option (Status * CompactionState * KeyState * I * Db M * W) :=
  '(db, w) ← prioritize_memtable db w;
  key ← it_key input;
  '(stop, c) ← ShouldStopBefore key (versions_ db) (compaction s);
  let s := with_compaction c s in
  '(st, s, w) ← (if (stop : bool) && builder_ s then FinishCompactionOutputFile s input w else Some (Ok, s, w));
  if bool_decide (st = Ok) then
    '(drop, ks, c) ← drop_entry (smallest_snapshot s) key ks (compaction s);
    let s := with_compaction c s in
    '(st, s, db, w) ← (if drop : bool then Some (Ok, s, db, w) else add_entry key s input db w);
    if bool_decide (st = Ok) then input ← it_Next input; Some (Ok, s, ks, input, db, w)
    else Some (st, s, ks, input, db, w)
  else Some (st, s, ks, input, db, w).

(** The loop; other threads run between the turns. The fuel bounds the number of turns. *)
Fixpoint compaction_loop (fuel : nat) s (ks : KeyState) input db w : option (Status * CompactionState * I * Db M * W) :=
  let db := unlocked db in
  if it_Valid input && negb (shutting_down_ db) then
    match fuel with
    | O => None
    | S fuel =>
        '(st, s, ks, input, db, w) ← compaction_turn s ks input db w;
        if bool_decide (st = Ok) then compaction_loop fuel s ks input db w else Some (st, s, input, db, w)
    end
  else Some (Ok, s, input, db, w).

(** ** The whole of it *)

(** The sizes of the inputs and of the outputs. *)
Definition compaction_stats s : CompactionStats :=
  mkStats (foldl (fun n (f : file) => int64 (n + file_size f)) 0 (inputs_0 (compaction s) ++ inputs_1 (compaction s)))
    (foldl (fun n o => x ← n; y ← out_file_size o; Some (int64 (x + y))) (Some 0) (outputs s)).

Definition InstallCompactionResults s db w : option (Status * CompactionState * Db M * W) :=
  let c := compaction s in
  let e := AddInputDeletions c (edit_ c) in
  let level := Z.of_nat (level_ c) in
  e ← foldl (fun e o => e ← e; size ← out_file_size o;
               Some (add_new_file (level + 1, FileMeta (out_number o) size (out_smallest o) (out_largest o)) e)) (Some e) (outputs s);
  '(st, db, w) ← apply_to_versions e db w;
  Some (st, with_compaction (with_grandparents (grandparents_ c) e c) s, db, w).

(** The tables of the outputs, from the entries of the iterator [input] over the input
    files; a status that is not [Ok] is returned with the state at that point. *)
Definition write_outputs (fuel : nat) s input db w : option (Status * CompactionState * Db M * W) :=
  input ← it_SeekToFirst input;
  '(st, s, input, db, w) ← compaction_loop fuel s KeyState_new input db w;
  let st := if bool_decide (st = Ok) && shutting_down_ db then deleting_db else st in
  '(st, s, w) ← (if bool_decide (st = Ok) && builder_ s then FinishCompactionOutputFile s input w else Some (st, s, w));
  let st := if bool_decide (st = Ok) then it_status input else st in
  Some (st, s, db, w).

Definition DoCompactionWork (fuel : nat) s input db w : option (Status * CompactionState * Db M * W) :=
  n ← NumLevelFiles (level_ (compaction s)) (versions_ db); _ ← assert_ (0 <? n);
  _ ← assert_ (negb (builder_ s)); _ ← assert_ (negb (outfile_ s));
  let s := with_snapshot (match snapshots_ db with [] => vs_last_sequence_ (versions_ db) | n :: _ => n end) s in
  '(st, s, db, w) ← write_outputs fuel s input db w;
  let db := unlocked db in
  db ← add_stats (level_ (compaction s) + 1) (compaction_stats s) db;
  '(st, s, db, w) ← (if bool_decide (st = Ok) then InstallCompactionResults s db w else Some (st, s, db, w));
  Some (st, s, if bool_decide (st = Ok) then db else RecordBackgroundError st db, w).

(** [CleanupCompaction]; the state is deleted. *)
Definition CleanupCompaction s db w : option (Db M * W) :=
  w ← (if builder_ s then Some (builder_Abandon w) else _ ← assert_ (negb (outfile_ s)); Some w);
  Some (set_pending (foldl (fun p o => p ∖ {[ out_number o ]}) (pending_outputs_ db) (outputs s)) db, w).
End work.
