(* ===== verification/CompactionKeep.v ===== *)
(** * What a compaction keeps

    The entries that [DoCompactionWork] drops are no longer needed: no snapshot that
    can still be read shows anything else without them. *)

From Stdlib Require Import Sorting.Sorted.
From stdpp Require Import base list sorting gmap.
From S2P Require Import Prelude LogReader Doubles Cursor Coding DbFormat DbIterView VersionEdit VersionFiles VersionState Builder VersionRefs.
From S2P Require Import Compaction CompactionProps CompactionSafe Manifest DbState CompactionWork.

#[local] Open Scope Z_scope.

Section keep.
Context `{ComparatorLaws} `{CodingLaws} `{!InternalKeyFormat, !InternalKeyFormatLaws}.
Context `{!InternalComparator, !InternalComparatorLaws}.
Implicit Types (es l : list entry) (ks : KeyState) (u : list Z).

(** ** The reference *)

(** No file below the next level has the user key in its range. *)
Definition is_base_level (v : Version) (level : nat) u : bool :=
  bool_decide (Forall (fun files => ~ Exists (overlaps (Some u) (Some u)) files) (drop (level + 2) (files_ v))).

Lemma is_base_level_ok v level u : is_base_level v level u = true <-> base_level v level u.
Proof.
  unfold is_base_level, base_level. rewrite bool_decide_eq_true, list.Forall_forall. split.
  - intros Hall l files Hl Hf. apply Hall, list_elem_of_lookup. exists (l - (level + 2))%nat. rewrite lookup_drop.
    by replace (level + 2 + (l - (level + 2)))%nat with l by lia.
  - intros Hall files [i Hi]%list_elem_of_lookup. rewrite lookup_drop in Hi. apply (Hall (level + 2 + i)%nat); [lia|done].
Qed.

Section kept.
Context (snapshot : Z) (base : list Z -> bool).

(** Whether an entry is dropped, and the state after it. *)
Definition drop_spec (key : list Z) ks : bool * KeyState :=
  match ParseInternalKey key with
  | None => (false, KeyState_new)
  | Some ikey =>
      let ks := note_user_key (user_key ikey) ks in
      (if last_sequence_for_key ks <=? snapshot then true
       else bool_decide (type ikey = kTypeDeletion) && (sequence ikey <=? snapshot) && base (user_key ikey),
       mkKeyState (current_user_key ks) (sequence ikey))
  end.

Fixpoint kept ks es : list entry :=
  match es with
  | [] => []
  | e :: es => let '(drop, ks) := drop_spec e.1 ks in if drop : bool then kept ks es else e :: kept ks es
  end.

Fixpoint state_after ks es : KeyState := match es with [] => ks | e :: es => state_after (drop_spec e.1 ks).2 es end.

Lemma kept_app ks es es' : kept ks (es ++ es') = kept ks es ++ kept (state_after ks es) es'.
Proof.
  revert ks. induction es as [|e es IH]; intros ks; [done|]. cbn [app kept state_after].
  destruct (drop_spec e.1 ks) as [[] ks']; cbn [snd]; [apply IH|]. cbn [app]. by rewrite IH.
Qed.

Lemma state_after_app ks es es' : state_after ks (es ++ es') = state_after (state_after ks es) es'.
Proof. revert ks. induction es as [|e es IH]; intros ks; [done|]. apply IH. Qed.

Lemma kept_sublist ks es : kept ks es `sublist_of` es.
Proof.
  revert ks. induction es as [|e es IH]; intros ks; cbn [kept]; [done|]. destruct (drop_spec e.1 ks) as [[] ks']; by constructor.
Qed.

(** ** Views *)

Context (q : Z) (Hq : snapshot <= q) (Hmax : snapshot < kMaxSequenceNumber).

Lemma newest_parsed u e l : newest q u (e :: l) =
  match ParseInternalKey e.1 with
  | Some k => if bool_decide (user_key k = u) && (sequence k <=? q) then Some (type k, e.2) else newest q u l
  | None => newest q u l
  end.
Proof.
  unfold newest. cbn [omap list_omap]. unfold visible. destruct (ParseInternalKey e.1) as [k|]; [|done]. cbn [mbind option_bind].
  destruct (sequence k <=? q); cbn [mbind option_bind]; [|by rewrite andb_false_r]. rewrite andb_true_r.
  by destruct (decide (user_key k = u)); [rewrite bool_decide_true|rewrite bool_decide_false].
Qed.

Lemma newest_none u l : (forall e k, e ∈ l -> ParseInternalKey e.1 = Some k -> user_key k <> u) -> newest q u l = None.
Proof.
  induction l as [|e l IH]; intros Hl; [done|]. rewrite newest_parsed. rewrite IH by (intros e' k He; apply Hl; by right).
  destruct (ParseInternalKey e.1) as [k|] eqn:Ek; [|done]. by rewrite bool_decide_false by (by apply (Hl e k); [left|]).
Qed.

Definition parses (e : entry) : Prop := is_Some (ParseInternalKey e.1).

Lemma note_same u ks : current_user_key ks = Some u -> note_user_key u ks = ks.
Proof. unfold note_user_key. intros ->. by rewrite (proj2 (Compare_eq u u)). Qed.

Lemma note_other u ks : current_user_key ks <> Some u -> note_user_key u ks = mkKeyState (Some u) kMaxSequenceNumber.
Proof.
  unfold note_user_key. destruct (current_user_key ks) as [k|]; [|done]. intros Hne.
  destruct (Z.eqb_spec (Compare u k) 0) as [E|]; [|done]. apply Compare_eq in E as ->. done.
Qed.

Lemma note_current u ks : current_user_key (note_user_key u ks) = Some u.
Proof.
  unfold note_user_key. destruct (current_user_key ks) as [k|] eqn:E; [|done]. destruct (Z.eqb_spec (Compare u k) 0) as [Ec|]; [|done].
  apply Compare_eq in Ec as ->. done.
Qed.

(** Entries after [p] of one user key are older than [p]. *)
Lemma same_key_older a b k k' : internal_lt a b -> ParseInternalKey a = Some k -> ParseInternalKey b = Some k' ->
  user_key k = user_key k' -> sequence k' <= sequence k.
Proof.
  intros Hlt (_ & Eu & Et)%ParseInternalKey_Some (_ & Eu' & Et')%ParseInternalKey_Some E.
  destruct Hlt as [Hlt|[_ Hlt]]; [rewrite <- Eu, <- Eu', E in Hlt; by apply lt_key_irrefl in Hlt|].
  rewrite Et, Et' in Hlt. destruct (type k), (type k'); cbn in Hlt; lia.
Qed.

(** When an entry of the key that is not newer than the snapshot was seen, none of the
    older ones is kept. *)
Lemma kept_hidden u a k ks es : ParseInternalKey a = Some k -> user_key k = u -> sequence k <= snapshot ->
  sorted_entries es -> Forall (fun e : entry => internal_lt a e.1) es -> Forall parses es ->
  ks = mkKeyState (Some u) (sequence k) -> newest q u (kept ks es) = None.
Proof.
  intros Ha Hu Hk Hs Hlt Hp ->. revert a k Ha Hu Hk Hlt. induction es as [|e es IH]; intros a k Ha Hu Hk Hlt; [done|].
  apply Forall_cons_1 in Hp as [[k' Hk'] Hp]. apply Forall_cons_1 in Hlt as [Hae Hlt].
  unfold sorted_entries in Hs. rewrite fmap_cons in Hs. apply StronglySorted_inv in Hs as [Hs He].
  assert (Forall (fun e' : entry => internal_lt e.1 e'.1) es) as He'.
  { rewrite list.Forall_forall in He. apply list.Forall_forall. intros e' Hin. apply He. apply list_elem_of_fmap. by exists e'. }
  destruct (decide (user_key k' = u)) as [E|E].
  - cbn [kept]. unfold drop_spec. rewrite Hk'. rewrite E, (note_same u) by done. cbn [last_sequence_for_key current_user_key]. rewrite (proj2 (Z.leb_le _ _)) by done.
    apply (IH Hs Hp e.1 k'); [done|done| |done]. pose proof (same_key_older _ _ k k' Hae Ha Hk' ltac:(congruence)). lia.
  - assert (lt_key u (ukey e.1)) as Hlater.
    { pose proof Hk' as (_ & Eu' & _)%ParseInternalKey_Some. pose proof Ha as (_ & Eu & _)%ParseInternalKey_Some.
      destruct Hae as [Hae|[Hae _]]; [by rewrite <- Hu, Eu|]. destruct E. congruence. }
    apply newest_none. intros e' k2 Hin Hk2. pose proof Hk2 as (_ & Eu2 & _)%ParseInternalKey_Some. rewrite Eu2. intros Eq.
    assert (e' = e \/ e' ∈ es) as [->|Hin'].
    { apply elem_of_cons. exact (elem_of_sublist _ _ _ Hin (kept_sublist _ (e :: es))). }
    + rewrite Eq in Hlater. by apply lt_key_irrefl in Hlater.
    + rewrite list.Forall_forall in He'. destruct (He' e' Hin') as [Hl|[Hl _]]; rewrite Eq in Hl.
      * by apply lt_key_asym in Hl.
      * rewrite Hl in Hlater. by apply lt_key_irrefl in Hlater.
Qed.

(** Of every key, the newest visible entry is kept, except a deletion of a key that no
    deeper level has. *)
Lemma kept_newest u ks es : sorted_entries es -> Forall parses es ->
  (current_user_key ks = Some u -> snapshot < last_sequence_for_key ks) ->
  newest q u (kept ks es) = newest q u es \/
  (exists x, newest q u es = Some (kTypeDeletion, x)) /\ newest q u (kept ks es) = None /\ base u = true.
Proof.
  intros Hs Hp. revert ks. induction es as [|e es IH]; intros ks Hks; [by left|].
  apply Forall_cons_1 in Hp as [[k Hk] Hp]. unfold sorted_entries in Hs. rewrite fmap_cons in Hs. apply StronglySorted_inv in Hs as [Hs He].
  specialize (IH Hs Hp). cbn [kept]. unfold drop_spec. rewrite Hk. rewrite (newest_parsed u e es), Hk.
  destruct (decide (user_key k = u)) as [Hu|Hu].
  - rewrite (bool_decide_true (user_key k = u)) by done. cbn [andb]. rewrite Hu.
    assert (snapshot < last_sequence_for_key (note_user_key u ks)) as Hlast.
    { destruct (decide (current_user_key ks = Some u)) as [E|E]; [by rewrite (note_same u); auto|by rewrite (note_other u)]. }
    rewrite (proj2 (Z.leb_gt _ _)) by done. rewrite note_current.
    destruct (bool_decide (type k = kTypeDeletion) && (sequence k <=? snapshot) && base u) eqn:Ed.
    + apply andb_true_iff in Ed as [[Et Esq]%andb_true_iff Eb]. apply bool_decide_eq_true in Et. apply Z.leb_le in Esq.
      rewrite (proj2 (Z.leb_le (sequence k) q)) by lia. right. split; [rewrite Et; by eexists|]. split; [|done].
      apply (kept_hidden u e.1 k); [done|done|done|done| |done|done].
      rewrite list.Forall_forall in He. apply list.Forall_forall. intros e' Hin. apply He. apply list_elem_of_fmap. by exists e'.
    + rewrite newest_parsed, Hk, (bool_decide_true (user_key k = u)) by done. cbn [andb].
      destruct (Z.leb_spec (sequence k) q) as [Hsq|Hsq]; [by left|]. apply IH. cbn. intros _. lia.
  - rewrite (bool_decide_false (user_key k = u)) by done. cbn [andb].
    assert (newest q u (kept (mkKeyState (current_user_key (note_user_key (user_key k) ks)) (sequence k)) es) = newest q u es \/
      (exists x, newest q u es = Some (kTypeDeletion, x)) /\
      newest q u (kept (mkKeyState (current_user_key (note_user_key (user_key k) ks)) (sequence k)) es) = None /\ base u = true) as Hrest.
    { apply IH. cbn [current_user_key]. rewrite note_current. by intros [= ?]. }
    destruct (_ <=? snapshot); [exact Hrest|]. destruct (_ && _ && _); [exact Hrest|].
    by rewrite newest_parsed, Hk, (bool_decide_false (user_key k = u)) by done.
Qed.

(** What is found of a key among the entries [above], those of a compaction and those
    [below], is found after the compaction, if keys of deeper levels are not base
    level keys. *)
Lemma kept_view es above below u v : sorted_entries es -> Forall parses es ->
  (forall e k, e ∈ below -> ParseInternalKey e.1 = Some k -> base (user_key k) = false) ->
  (u, v) ∈ view q (above ++ es ++ below) <-> (u, v) ∈ view q (above ++ kept KeyState_new es ++ below).
Proof.
  intros Hs Hp Hb. unfold view. rewrite !view_from_newest, !newest_app.
  enough (match newest q u es with Some x => Some x | None => newest q u below end = Some (kTypeValue, v) <->
    match newest q u (kept KeyState_new es) with Some x => Some x | None => newest q u below end = Some (kTypeValue, v)) as Hmid.
  { destruct (newest q u above); [done|]. by rewrite Hmid. }
  destruct (kept_newest u KeyState_new es Hs Hp) as [->|((x & ->) & -> & Hbu)]; [done|done|].
  rewrite newest_none; [by split|]. intros e k He Hk <-. by rewrite (Hb e k He Hk) in Hbu.
Qed.
End kept.
End keep.
