(* ===== verification/CompactionTables.v ===== *)
(** * The tables that a compaction writes

    What the environment of a compaction promises, what the compaction of a memtable
    in between leaves alone, and the operations on the output files. *)

From Stdlib Require Import String Sorting.Sorted.
From stdpp Require Import base list gmap.
From S2P Require Import Prelude LogReader Doubles Cursor Coding DbFormat VersionEdit VersionFiles VersionState Builder VersionRefs.
From S2P Require Import Compaction CompactionProps Manifest DbState CompactionWork CompactionKeep.

#[local] Open Scope Z_scope.

(** ** What the environment promises *)

(** The finished tables by their numbers, and the entries and the number of the table
    that is being built; once [failed], the builder ignores entries and cannot be
    finished. The same disk holds the manifest and the tables of memtables. *)
Class TableEnvLaws (M W : Type) `{!TableEnv W} `{!ManifestEnv W} `{!DirectoryEnv W} `{!MemTableEnv M W} `{Comparator} `{Coding} := {
  tables : W -> Z -> option (list entry);
  building : W -> list entry;
  open_table : W -> Z;
  failed : W -> bool;
  same_tables (P : Z -> Prop) (w w' : W) : Prop := (forall m, P m -> tables w' m = tables w m) /\
    building w' = building w /\ open_table w' = open_table w /\ failed w' = failed w;
  Open_law n w w' : OpenTable n w = (Ok, w') -> building w' = [] /\ open_table w' = n /\ failed w' = false /\
    forall m, m <> n -> tables w' m = tables w m;
  builder_Add_law k v w : (failed w = false -> forall e, list.last (building w) = Some e -> internal_lt e.1 k) ->
    exists w', builder_Add k v w = Some w' /\ open_table w' = open_table w /\ (forall m, tables w' m = tables w m) /\
      (failed w' = false -> failed w = false /\ building w' = building w ++ [(k, v)]);
  NumEntries_law w : failed w = false -> builder_NumEntries w = Z.of_nat (length (building w));
  Finish_law w w' : builder_Finish w = (Ok, w') -> failed w = false /\ tables w' (open_table w) = Some (building w) /\
    forall m, m <> open_table w -> tables w' m = tables w m;
  outfile_Sync_law w w' : outfile_Sync w = (Ok, w') -> forall m, tables w' m = tables w m;
  outfile_Close_law w w' : outfile_Close w = (Ok, w') -> forall m, tables w' m = tables w m;
  Verify_law n size w w' : VerifyTable n size w = (Ok, w') -> forall m, tables w' m = tables w m;
  BuildTable_law mem n w : same_tables (fun m => m <> n) w (BuildTable mem n w).2;
  manifest_law w : (forall n, same_tables (fun _ => True) w (NewWritableFile n w).2) /\
    (forall r, same_tables (fun _ => True) w (AddRecord r w).2) /\ same_tables (fun _ => True) w (Sync w).2 /\
    (forall n, same_tables (fun _ => True) w (SetCurrentFile n w).2) /\ (forall n, same_tables (fun _ => True) w (DeleteFile n w));
  RemoveFile_law name w : same_tables (fun m => ParseFileName name <> Some (m, kTableFile)) w (RemoveFile name w);
  Evict_law n w : same_tables (fun _ => True) w (Evict n w) }.

Abbreviation next_number db := (vs_next_file_number_ (versions_ db)).

(** Other threads hand out at most [k] file numbers while the mutex is released once,
    and leave alone what belongs to the background thread. *)
Class ThreadsLaws (M : Type) `{!Threads M} (k : Z) := {
  unlocked_next s vs : 0 <= vs_next_file_number_ s -> vs_next_file_number_ s + k < 2 ^ 64 ->
    vs_next_file_number_ s <= vs_next_file_number_ (unlocked_versions (s, vs)).1 <= vs_next_file_number_ s + k;
  unlocked_rest_versions (db : Db M) : versions_ (unlocked_rest db) = versions_ db /\ version_list_ (unlocked_rest db) = version_list_ db;
  unlocked_rest_pending (db : Db M) : pending_outputs_ (unlocked_rest db) = pending_outputs_ db /\ stats_ (unlocked_rest db) = stats_ db;
  threads_nonneg : 0 <= k }.

Section tables.
Context `{ComparatorLaws} `{CodingLaws} `{!InternalKeyFormat, !InternalComparator} `{!ManifestOptions}.
Context {M W : Type} `{!TableEnv W} `{!ManifestEnv W} `{!DirectoryEnv W} `{!MemTableEnv M W} `{!Threads M}.
Context `{!TableEnvLaws M W} {k : Z} `{!ThreadsLaws M k}.
Context {I : Type} `{!Iterator I}.
Implicit Types (db : Db M) (w : W) (input : I) (s : CompactionState).

Lemma same_tables_refl P w : same_tables P w w.
Proof. by split_and!. Qed.

Lemma same_tables_trans (P Q R : Z -> Prop) w1 w2 w3 : same_tables P w1 w2 -> same_tables Q w2 w3 ->
  (forall m, R m -> P m /\ Q m) -> same_tables R w1 w3.
Proof.
  intros (A1 & A2 & A3 & A4) (B1 & B2 & B3 & B4) HR. split; [|split_and!; congruence].
  intros m [HP HQ]%HR. rewrite B1 by done. by apply A1.
Qed.

(** What the rest of the database does between two turns of a compaction. *)
Record db_kept (db db' : Db M) (w w' : W) (n : Z) : Prop := {
  kp_tables : same_tables (fun m => m ∈ pending_outputs_ db) w w';
  kp_pending : pending_outputs_ db' = pending_outputs_ db;
  kp_next : next_number db <= next_number db' <= next_number db + n;
  kp_stats : length (stats_ db') = length (stats_ db) }.

Lemma db_kept_trans db1 db2 db3 w1 w2 w3 n n' : db_kept db1 db2 w1 w2 n -> db_kept db2 db3 w2 w3 n' -> db_kept db1 db3 w1 w3 (n + n').
Proof.
  intros [A1 A2 A3 A4] [B1 B2 B3 B4]. split; [|congruence|lia|congruence].
  eapply same_tables_trans; [exact A1|exact B1|]. intros m Hm. by rewrite A2.
Qed.

Lemma unlocked_kept db w : 0 <= next_number db -> next_number db + k < 2 ^ 64 -> db_kept db (unlocked db) w w k.
Proof.
  intros Hge Hn. pose proof (unlocked_next (versions_ db) (version_list_ db) Hge Hn) as Hnext. unfold unlocked.
  destruct (unlocked_versions _) as [s vs]. cbn [fst] in Hnext.
  destruct (unlocked_rest_versions (set_versions s vs db)) as [E1 E2], (unlocked_rest_pending (set_versions s vs db)) as [E3 E4].
  split; [apply same_tables_refl|done|by rewrite E1|by rewrite E4].
Qed.

Lemma delete_files_tables live names db w :
  same_tables (fun m => m ∈ live) w (delete_files live names db w).
Proof.
  revert w. induction names as [|name names IH]; intros w; cbn [delete_files]; [apply same_tables_refl|].
  destruct (ParseFileName name) as [[n type]|] eqn:E; [|apply IH]. destruct (keep_file live n type db) eqn:Ek; [apply IH|].
  eapply same_tables_trans; [|apply IH|intros m Hm; split; [exact Hm|done]].
  eapply same_tables_trans; [|apply RemoveFile_law|].
  - instantiate (1 := fun _ => True). case_bool_decide; [apply Evict_law|apply same_tables_refl].
  - intros m Hm. split; [done|]. rewrite E. intros [= -> ->]. cbn in Ek. by apply bool_decide_eq_false in Ek.
Qed.

Lemma elem_of_AddLiveFiles_r vs (live : gset Z) n : n ∈ live -> n ∈ AddLiveFiles vs live.
Proof. intros Hn. apply elem_of_AddLiveFiles. by left. Qed.

Lemma DeleteObsoleteFiles_tables db w : same_tables (fun m => m ∈ pending_outputs_ db) w (DeleteObsoleteFiles db w).
Proof.
  unfold DeleteObsoleteFiles. case_bool_decide; [|apply same_tables_refl].
  eapply same_tables_trans; [apply delete_files_tables|apply same_tables_refl|]. intros m Hm. split; [by apply elem_of_AddLiveFiles_r|exact Hm].
Qed.

(** ** The manifest and the memtable *)

Abbreviation same_all := (same_tables (fun _ => True)).

Lemma same_all_trans w1 w2 w3 : same_all w1 w2 -> same_all w2 w3 -> same_all w1 w3.
Proof. intros H12 H23. by eapply same_tables_trans; [exact H12|exact H23|]. Qed.

Lemma same_all_weaken P w w' : same_all w w' -> same_tables P w w'.
Proof. intros (A1 & A2). split; [|done]. intros m _. by apply A1. Qed.

Lemma pair_law {A} (r : A * W) a w w' : r = (a, w') -> same_all w r.2 -> same_all w w'.
Proof. by intros ->. Qed.

Lemma open_manifest_kept (s s' : VersionSet) w st n w' : open_manifest s w = Some (st, n, s', w') ->
  same_all w w' /\ vs_next_file_number_ s' = vs_next_file_number_ s.
Proof.
  destruct (manifest_law w) as (Hnew & _). unfold open_manifest. destruct (descriptor_log_ s).
  { intros [= <- <- <- <-]. split; [apply same_tables_refl|done]. }
  destruct (NewWritableFile _ w) as [st1 w1] eqn:E1. pose proof (pair_law _ _ w _ E1 (Hnew _)) as Hw1.
  case_bool_decide; [|by intros [= <- <- <- <-]].
  unfold WriteSnapshot. intros ([st2 w2] & (r & _ & E2)%bind_Some & [= <- <- <- <-])%bind_Some. split; [|done].
  injection E2 as E2. destruct (manifest_law w1) as (_ & Hadd & _). eapply same_all_trans; [exact Hw1|]. by eapply pair_law.
Qed.

Lemma write_edit_kept st n e w st' w' : write_edit st n e w = Some (st', w') -> same_all w w'.
Proof.
  unfold write_edit. intros ([st1 w1] & E1 & E2)%bind_Some.
  assert (same_all w w1) as Hw1.
  { clear E2. case_bool_decide; [|injection E1 as _ <-; apply same_tables_refl]. apply bind_Some in E1 as (r & _ & E1).
    destruct (AddRecord r w) as [st2 w2] eqn:Ea. destruct (manifest_law w) as (_ & Hadd & _). pose proof (pair_law _ _ w _ Ea (Hadd _)) as Hw2.
    injection E1 as E1. case_bool_decide; [|by injection E1 as _ <-]. destruct (manifest_law w2) as (_ & _ & Hsync & _).
    eapply same_all_trans; [exact Hw2|]. by eapply pair_law. }
  injection E2 as E2. destruct n as [n|]; [|by injection E2 as _ <-]. case_bool_decide; [|by injection E2 as _ <-].
  destruct (manifest_law w1) as (_ & _ & _ & Hcur & _). eapply same_all_trans; [exact Hw1|]. by eapply pair_law.
Qed.

Lemma LogAndApply_kept others e (s s' : VersionSet) vs w st vs' w' : LogAndApply others e s vs w = Some (st, s', vs', w') ->
  same_all w w' /\ exists (s1 : VersionSet) vs1, vs_next_file_number_ s1 = vs_next_file_number_ s /\
    vs_next_file_number_ s' = vs_next_file_number_ (others (s1, vs1)).1.
Proof.
  unfold LogAndApply, prepare. intros ([[[[[[e1 v] st1] n] s1] vs1] w1] & E1 & ([st2 w2] & E2 & E3)%bind_Some)%bind_Some.
  apply bind_Some in E1 as (e' & _ & ([[b ps] h] & _ & ([v' h1] & _ & (h2 & _ & ([[[st3 n3] s3] w3] & Eo & E1)%bind_Some)%bind_Some)%bind_Some)%bind_Some).
  injection E1 as -> <- -> -> -> <- ->. apply open_manifest_kept in Eo as [Hw1 Hn1]. apply write_edit_kept in E2.
  destruct (others (s1, with_heap h2 vs)) as [s4 vs4] eqn:Eoth. apply bind_Some in E3 as ([[s5 vs5] w5] & E3 & E4). injection E4 as <- <- <- <-.
  assert (same_all w2 w5 /\ vs_next_file_number_ s5 = vs_next_file_number_ s4) as [Hw5 Hn5].
  { unfold install in E3. case_bool_decide.
    - apply bind_Some in E3 as (vs6 & _ & [= <- <- <-]). split; [apply same_tables_refl|done].
    - apply bind_Some in E3 as (h3 & _ & E3). destruct n as [n|]; injection E3 as <- <- <-.
      + split; [|done]. destruct (manifest_law w2) as (_ & _ & _ & _ & Hdel). apply Hdel.
      + split; [apply same_tables_refl|done]. }
  split; [eapply same_all_trans; [exact Hw1|]; by eapply same_all_trans|].
  exists s1, (with_heap h2 vs). split; [by rewrite Hn1|]. by rewrite Eoth.
Qed.

Lemma apply_to_versions_kept e db w st db' w' : apply_to_versions e db w = Some (st, db', w') -> 0 <= next_number db ->
  next_number db + k < 2 ^ 64 -> db_kept db db' w w' k.
Proof.
  intros ([[[st1 s1] vs1] w1] & E & E')%bind_Some Hge Hk. injection E' as <- <- <-.
  apply LogAndApply_kept in E as (Hw & s2 & vs2 & E2 & E3). pose proof (unlocked_next s2 vs2) as Hn. rewrite <- E3, E2 in Hn.
  destruct (unlocked_rest_pending db) as [Ep Es].
  split; cbn; [|exact Ep|by apply Hn|by rewrite Es]. by apply same_all_weaken.
Qed.

Lemma WriteLevel0Table_kept mem e base db w st e' db' w' : WriteLevel0Table mem e base db w = Some (st, e', db', w') ->
  next_number db + 1 + k < 2 ^ 64 -> 0 <= next_number db -> (forall m, m ∈ pending_outputs_ db -> m < next_number db) ->
  db_kept db db' w w' (1 + k).
Proof.
  intros E Hk Hge Hpend. unfold WriteLevel0Table in E. set (n := next_number db) in *.
  assert (exists db1, new_file_number db = (n, db1) /\ db1 = set_versions (with_next_file (n + 1) (versions_ db)) (version_list_ db) db) as (db1 & En & Edb1).
  { unfold new_file_number, NewFileNumber. eexists. split; [reflexivity|]. fold n. rewrite (wrap_small 64 (n + 1)); [done|].
    pose proof threads_nonneg. unfold is_u. lia. }
  rewrite En in E. destruct (BuildTable mem n w) as [[st1 meta] w1] eqn:Eb. pose proof (BuildTable_law mem n w) as Hb. rewrite Eb in Hb. cbn [snd] in Hb.
  apply bind_Some in E as ([level e1] & _ & (db2 & E2 & E3)%bind_Some). injection E3 as _ _ <- <-.
  set (db3 := set_pending ({[n]} ∪ pending_outputs_ db1) db1) in *.
  assert (next_number db3 = n + 1) as Hn3 by (unfold db3; by rewrite Edb1).
  pose proof (unlocked_kept db3 w1 ltac:(lia) ltac:(lia)) as [_ Hp Hn Hs]. rewrite Hn3 in Hn.
  unfold add_stats in E2. apply bind_Some in E2 as (c & _ & [= <-]).
  assert (n ∉ pending_outputs_ db) as Hfresh by (intros Hin; apply Hpend in Hin; lia).
  split; cbn.
  - destruct Hb as [Hb1 Hb2]. split; [|done]. intros m Hm. apply Hb1. by intros ->.
  - rewrite Hp. unfold db3. rewrite Edb1. cbn. set_solver.
  - lia.
  - rewrite length_insert, Hs. unfold db3. by rewrite Edb1.
Qed.

Lemma change_refs_kept f db db' w : change_refs f db = Some db' -> db_kept db db' w w 0 /\
  next_number db' = next_number db /\ pending_outputs_ db' = pending_outputs_ db.
Proof. intros (vs & _ & [= <-])%bind_Some. split; [|done]. split; [apply same_tables_refl|done|cbn; lia|done]. Qed.

Lemma CompactMemTable_kept db w db' w' : CompactMemTable db w = Some (db', w') ->
  next_number db + (1 + k + k) < 2 ^ 64 -> 0 <= next_number db -> (forall m, m ∈ pending_outputs_ db -> m < next_number db) ->
  db_kept db db' w w' (1 + k + k).
Proof.
  intros E Hk Hge Hpend. pose proof threads_nonneg as Hk0. unfold CompactMemTable in E.
  apply bind_Some in E as (imm & _ & (id & _ & (db0 & E0 & ([[[st e] db1'] w1] & E1 & (db1 & E1' & ([[st2 db2] w2] & E2 & E3)%bind_Some)%bind_Some)%bind_Some)%bind_Some)%bind_Some).
  destruct (change_refs_kept _ _ _ w E0) as [Hk00 [En0 Ep0]].
  apply WriteLevel0Table_kept in E1; [|rewrite En0; lia|by rewrite En0|intros m; rewrite En0, Ep0; apply Hpend].
  destruct (change_refs_kept _ _ _ w1 E1') as [Hk11 _].
  pose proof (db_kept_trans _ _ _ _ _ _ _ _ Hk00 (db_kept_trans _ _ _ _ _ _ _ _ E1 Hk11)) as Hk01. clear E1 Hk00 Hk11.
  replace (0 + (1 + k + 0)) with (1 + k) in Hk01 by lia.
  assert (db_kept db1 db2 w1 w2 k) as Hk2.
  { revert E2. generalize (if bool_decide (st = Ok) && shutting_down_ db1 then deleting_db else st). intros st' E2. case_bool_decide.
    - pose proof (kp_next _ _ _ _ _ Hk01). apply apply_to_versions_kept in E2; [done|lia|lia].
    - injection E2 as _ <- <-. split; [apply same_tables_refl|done|lia|done]. }
  pose proof (db_kept_trans _ _ _ _ _ _ _ _ Hk01 Hk2) as H12. case_bool_decide; injection E3 as <- <-.
  - destruct H12 as [A1 A2 A3 A4]. split; cbn; [|done|lia|done].
    eapply same_tables_trans; [exact A1|apply DeleteObsoleteFiles_tables|]. intros m Hm. split; [exact Hm|]. cbn. by rewrite A2.
  - destruct H12 as [A1 A2 A3 A4]. unfold RecordBackgroundError. destruct (bool_decide (bg_error_ db2 = Ok)); by split.
Qed.
End tables.
