(* ===== verification/MemCompact.v ===== *)
(** * Compacting the memtable returns ([leveldb-library/db/db_impl.cc], [CompactMemTable])

    The state in which the memtable can be compacted: the versions are sorted and
    counted, every level above 0 is disjoint, and the numbers are in order. From such
    a state [CompactMemTable] returns whatever the disk does and other threads do meanwhile, and
    leaves such a state, whether the table is written or not. *)

From Stdlib Require Import String Sorting.Sorted.
From stdpp Require Import base list sorting gmap.
From S2P Require Import Prelude LogReader Doubles Cursor Coding DbFormat VersionEdit VersionFiles VersionState Builder BuilderProps BuilderApply.
From S2P Require Import BuilderSave VersionRefs Compaction CompactionProps Manifest ManifestProps ManifestSafe DbState CompactionTables.

#[local] Open Scope Z_scope.

(** ** A file in a gap *)

Section gap.
Context `{ComparatorLaws} `{CodingLaws} `{!InternalKeyFormat, !InternalKeyFormatLaws}.
Context `{!InternalComparator, !InternalComparatorLaws}.
Implicit Types (f g : file) (files : list file) (m : FileMetaData) (v : Version) (e : VersionEdit).

(** Disjoint files are sorted by their smallest keys. *)
Lemma disjoint_sorted files : Forall (fun f => valid_file f) files -> disjoint files -> sorted_files files.
Proof.
  intros Hv Hd. split; [|done]. induction Hd as [|f files _ IH Hf]; constructor; apply Forall_cons_1 in Hv as [(_ & _ & Hle) Hv]; [by apply IH|].
  eapply List.Forall_impl; [|exact Hf]. intros g Hg. left. by eapply internal_le_lt_trans.
Qed.

(** A file that overlaps none of the files of a level has a place between them. *)
Lemma disjoint_gap files f : Forall (fun f => valid_file f) files -> disjoint files -> valid_file f ->
  (forall g, g ∈ files -> ~ overlaps (Some (ukey (smallest f))) (Some (ukey (largest f))) g) ->
  exists l1 l2, files = l1 ++ l2 /\ disjoint (l1 ++ f :: l2).
Proof.
  intros Hv Hd Hf. induction Hd as [|g files Hd IH Hg]; intros Ho; [exists [], []; by repeat constructor|].
  apply Forall_cons_1 in Hv as [Hvg Hv]. destruct (decide (lt_key (ukey (largest g)) (ukey (smallest f)))) as [Hlt|Hn1].
  - destruct IH as (l1 & l2 & -> & Hd'); [done|intros h Hh; apply Ho; by right|]. exists (g :: l1), l2. split; [done|]. cbn [app].
    constructor; [done|]. rewrite list.Forall_forall in Hg |- *. intros h [Hh|[->|Hh]%elem_of_cons]%elem_of_app.
    + apply Hg, elem_of_app. by left.
    + by left.
    + apply Hg, elem_of_app. by right.
  - destruct (decide (lt_key (ukey (largest f)) (ukey (smallest g)))) as [Hlt|Hn2].
    + exists [], (g :: files). split; [done|]. cbn [app]. assert (internal_lt (largest f) (smallest g)) as Hfg by by left.
      constructor; [by constructor|]. constructor; [done|]. eapply List.Forall_impl; [|exact Hg]. intros h Hh.
      eapply internal_lt_trans; [exact Hfg|]. destruct Hvg as (_ & _ & Hle). by eapply internal_le_lt_trans.
    + destruct (Ho g); [left|]. split; [intros a [= <-]; exact Hn1|intros b [= <-]; exact Hn2].
Qed.

(** An edit that only adds files. *)
Lemma adds_level i ms e : deleted_files_ e = [] -> edits_level i [e] ms = ms ++ of_level i (new_files_ e).
Proof. intros Hd. cbn. unfold edit_level. rewrite Hd, filter_keeps_all; [done|]. intros m _. apply not_elem_of_nil. Qed.

(** Such an edit fits when its file is in a gap of its level. *)
Lemma adds_fit v e level m : version_sorted v -> levels_ok v -> deleted_files_ e = [] -> compact_pointers_ e = [] ->
  new_files_ e = [(Z.of_nat level, m)] -> (level < Z.to_nat kNumLevels)%nat -> valid_meta m ->
  (forall i files, files_ v !! i = Some files -> NoDup (number <$> (meta <$> files)) /\ forall f, f ∈ files -> number f <> number m) ->
  ((0 < level)%nat -> free_to v (ukey (smallest m)) (ukey (largest m)) level) -> edits_fit v [e].
Proof.
  intros Hsort [Hlen Hlev] Ed Ep En Hlt Hm Hnum Hfree.
  assert (forall i, added_by i [e] = if decide (level = i) then [m] else []) as Eadd.
  { intros i. unfold added_by. cbn. rewrite app_nil_r, En, of_level_cons. cbn [fst snd]. destruct (decide (level = i)) as [->|Hne].
    - by rewrite decide_True.
    - rewrite decide_False; [done|lia]. }
  assert (fresh_numbers v [e]) as Hfresh.
  { intros i files Hi. destruct (Hnum i files Hi) as [Hnd Hnot]. rewrite Eadd. case_decide; [|by rewrite app_nil_r].
    rewrite fmap_app. apply list.NoDup_app. split; [done|]. split; [|apply NoDup_singleton].
    intros n (m' & -> & (f & -> & Hf)%list_elem_of_fmap)%list_elem_of_fmap. cbn. rewrite list_elem_of_singleton. by apply Hnot. }
  split; [|done|].
  - apply Forall_singleton. split; [rewrite Ep; constructor|rewrite Ed; constructor|]. rewrite En. apply Forall_singleton.
    split; [|done]. unfold level_ok, kNumLevels in *. cbn [fst]. lia.
  - intros i files Hi Hfiles. destruct (Hlev i files Hfiles) as [Hv Hl]. specialize (Hl Hi). pose proof (lf_disjoint _ Hl) as Hd.
    assert (exists files', meta <$> files' ≡ₚ edits_level i [e] (meta <$> files) /\ disjoint files' /\ Forall (fun f => valid_file f) files')
      as (files' & Hp & Hd' & Hv').
    { rewrite adds_level by done. change (of_level i (new_files_ e)) with (of_level i (new_files_ e)).
      assert (of_level i (new_files_ e) = added_by i [e]) as -> by (unfold added_by; cbn; by rewrite app_nil_r). rewrite Eadd.
      case_decide as Hli; [|exists files; by rewrite app_nil_r]. subst i.
      destruct (disjoint_gap files (File 1 m) Hv Hd Hm) as (l1 & l2 & -> & Hd').
      { intros g Hg. by apply (Hfree Hi level files g). }
      exists (l1 ++ File 1 m :: l2). split; [|split; [done|]].
      - rewrite !fmap_app, fmap_cons. cbn [meta]. rewrite <- Permutation_middle. by rewrite (Permutation_app_comm _ [m]).
      - apply Forall_app in Hv as [Hv1 Hv2]. apply Forall_app. split; [done|]. by constructor. }
    rewrite <- (sorted_level_unique i [e] files files'); [by apply ranges_disjoint_meta|by apply Hfresh|by apply disjoint_sorted|done].
Qed.

(** The edit without a file fits too. *)
Lemma nothing_fits v e : version_sorted v -> levels_ok v -> deleted_files_ e = [] -> compact_pointers_ e = [] -> new_files_ e = [] ->
  (forall i files, files_ v !! i = Some files -> NoDup (number <$> (meta <$> files))) -> edits_fit v [e].
Proof.
  intros Hsort [Hlen Hlev] Ed Ep En Hnum.
  assert (forall i, added_by i [e] = []) as Eadd by (intros i; unfold added_by; cbn; by rewrite app_nil_r, En).
  assert (fresh_numbers v [e]) as Hfresh by (intros i files Hi; rewrite Eadd, app_nil_r; by apply (Hnum i)).
  split; [|done|].
  - apply Forall_singleton. split; [rewrite Ep; constructor|rewrite Ed; constructor|rewrite En; constructor].
  - intros i files Hi Hfiles. destruct (Hlev i files Hfiles) as [Hv Hl]. pose proof (lf_disjoint _ (Hl Hi)) as Hd.
    rewrite <- (sorted_level_unique i [e] files files); [by apply ranges_disjoint_meta|by apply Hfresh|by apply disjoint_sorted|].
    by rewrite adds_level, En, app_nil_r by done.
Qed.

(** The version that is saved has valid files that are disjoint above level 0. *)
Lemma saved_levels base v es next : saves base v es next -> edits_fit base es -> length (files_ base) = Z.to_nat kNumLevels ->
  (forall i files, files_ v !! i = Some files -> Z.of_nat (length files) < 2 ^ 31) -> levels_ok v.
Proof.
  intros [[Hvl Hvs] Hf] [_ _ Hd] Hbl Hsmall. split; [done|]. intros i files Hi. destruct (Hvs i files Hi) as [Hs Hv]. split; [done|].
  intros H0i. split; [done| |by apply (Hsmall i)].
  destruct (lookup_lt_is_Some_2 (files_ base) i) as [bs Hbs]; [apply lookup_lt_Some in Hi; lia|].
  destruct (Hf i bs Hbs) as (files' & Hi' & E & _). rewrite Hi in Hi'. injection Hi' as <-.
  apply ranges_disjoint_files. rewrite E. by apply Hd.
Qed.
End gap.

(** ** LogAndApply returns *)

(** The set of versions between calls; [held] are the references of threads. *)
Record vers_ok (held : list positive) `{Comparator} `{Coding} `{!InternalKeyFormat} `{!ManifestOptions} (s : VersionSet) (vs : Versions) : Prop := {
  vk_sorted : version_sorted (current_ s);
  vk_storable : storable s;
  vk_numbers : numbers_fit s;
  vk_versions : versions_ok held [] vs;
  vk_current : exists c, current_id vs = Some c /\ live vs !! c = Some (files_ (current_ s)) }.

(** While the mutex is released other threads hand out numbers, and take and give up
    references to versions; if there is a reference to the current version they
    leave one, that of the background thread. *)
Definition readers_ok (others : VersionSet * Versions -> VersionSet * Versions) : Prop :=
  forall s vs held extra, numbers_fit s -> versions_ok held extra vs -> exists held' n q vs',
    others (s, vs) = (with_sequence q (with_next_file n s), vs') /\ is_u 64 n /\ is_u 64 q /\
    versions_ok held' extra vs' /\ current_id vs' = current_id vs /\
    forall c, current_id vs = Some c -> live vs' !! c = live vs !! c /\ (c ∈ held -> c ∈ held').

Section returns.
Context `{ComparatorLaws} `{CodingLaws} `{!InternalKeyFormat, !InternalKeyFormatLaws}.
Context `{!InternalComparator, !InternalComparatorLaws} `{!ManifestOptions} {W : Type} `{!ManifestEnv W}.
Implicit Types (s : VersionSet) (vs : Versions) (w : W) (e : VersionEdit) (v : Version).

Lemma open_manifest_returns s w : storable s -> exists st n d w', open_manifest s w = Some (st, n, with_descriptor d s, w').
Proof.
  intros Hs. assert (with_descriptor (descriptor_log_ s) s = s) as E by by destruct s.
  unfold open_manifest. destruct (descriptor_log_ s) eqn:Ed; [exists Ok, None, true, w; by rewrite E|].
  destruct (NewWritableFile _ w) as [st w1]. case_bool_decide; [|exists st, (Some (manifest_file_number_ s)), false, w1; by rewrite E].
  destruct (snapshot_record s Hs) as (r & Er & _). unfold WriteSnapshot. change (snapshot (with_descriptor true s)) with (snapshot s).
  rewrite Er. cbn [mbind option_bind]. destruct (AddRecord r w1) as [st2 w2]. by eexists _, _, _, _.
Qed.

Lemma write_edit_returns st n e w r : EncodeTo e [] = Some r -> exists st' w', write_edit st n e w = Some (st', w').
Proof.
  intros Er. unfold write_edit.
  assert (exists st1 w1, (if bool_decide (st = Ok) then record ← EncodeTo e []; let '(st, w) := AddRecord record w in
    Some (if bool_decide (st = Ok) then Sync w else (st, w)) else Some (st, w)) = Some (st1, w1)) as (st1 & w1 & ->).
  { case_bool_decide; [|by eexists _, _]. rewrite Er. cbn [mbind option_bind]. destruct (AddRecord r w) as [st2 w2].
    destruct (bool_decide (st2 = Ok)); [|by eexists _, _]. destruct (Sync w2). by eexists _, _. }
  cbn [mbind option_bind]. destruct n as [n|]; [|by eexists _, _]. case_bool_decide; [|by eexists _, _]. destruct (SetCurrentFile n w1). by eexists _, _.
Qed.

Lemma storable_same s s' : current_ s' = current_ s -> compact_pointer_ s' = compact_pointer_ s -> storable s -> storable s'.
Proof. intros E1 E2 []. split; by rewrite ?E1, ?E2. Qed.

(** What an edit did to the current version: it was installed, or not. *)
Definition applied e s s' : Prop :=
  (exists next, saves (current_ s) (current_ s') [completed e s] next /\ vs_log_number_ s' = log_number_ (completed e s)) \/
  current_ s' = current_ s /\ vs_log_number_ s' = vs_log_number_ s.

Lemma LogAndApply_returns others held e s vs w : readers_ok others -> vers_ok held s vs -> edit_ok e ->
  (has_log_number_ e = true -> vs_log_number_ s <= log_number_ e < vs_next_file_number_ s) -> edits_fit (current_ s) [completed e s] ->
  exists st s' vs' w' held', LogAndApply others e s vs w = Some (st, s', vs', w') /\ vers_ok held' s' vs' /\ applied e s s'.
Proof.
  intros Hoth [Hsort Hstor Hnum Hvs (c & Hc & Hl)] He Hlog Hfit. set (e' := completed e s) in *.
  pose proof (completed_ok e s He Hnum) as He'. fold e' in He'. destruct (decode_encoded _ VersionEdit_new He') as (r & Er & _).
  destruct (build_ok (current_ s) [e'] (live_addresses (delete c (live vs))) (heap vs) (compact_pointer_ s) Hsort Hfit)
    as (v & h & Eb & Hsv & Hh); [apply Hstor| |].
  { pose proof (vr_heap _ _ _ Hvs) as Hh. rewrite app_nil_r, (live_addresses_delete _ _ _ Hl) in Hh. exact Hh. }
  unfold LogAndApply. rewrite prepare_build, complete_edit_ok by done. fold e'. cbn [mbind option_bind]. rewrite Eb. cbn [mbind option_bind foldl].
  set (s0 := with_pointers (edit_pointers (compact_pointer_ s) e') s).
  assert (storable s0) as Hs0.
  { destruct (st_pointers _ Hstor) as [Hlen Hsl]. apply storable_pointers; [done|by rewrite edit_pointers_length|by apply edit_pointers_slices]. }
  destruct (open_manifest_returns s0 w Hs0) as (st1 & n1 & d & w1 & ->). cbn [mbind option_bind].
  destruct (write_edit_returns st1 n1 e' w1 r Er) as (st2 & w2 & ->). cbn [mbind option_bind]. set (s1 := with_descriptor d s0).
  destruct (Hoth s1 (with_heap h vs) held (file_addresses (Finalize v))) as (held' & n & q & vs2 & -> & Hn & Hq & Hvs2 & Hid2 & Hlive2); [done| |].
  { eapply with_heap_ok; [done|]. unfold file_addresses in *. rewrite Finalize_files. rewrite (Permutation_app_comm (live_addresses _)).
    rewrite (live_addresses_delete _ _ _ Hl). exact Hh. }
  set (s2 := with_sequence q (with_next_file n s1)).
  destruct (install_ok st2 n1 (Finalize v) e' s2 vs2 w2 held' Hvs2) as (s' & vs' & w' & -> & Hvs' & Hgood & Hbad).
  cbn [mbind option_bind]. exists st2, s', vs', w', held'. split; [done|].
  assert (numbers_fit s2) as Hnum2.
  { unfold numbers_fit in *. rewrite !List.Forall_cons_iff in Hnum |- *. cbn. tauto. }
  destruct (decide (st2 = Ok)) as [E|E].
  - destruct (Hgood E) as (-> & _ & c' & Hc' & Hl').
    assert (saves (current_ s) (Finalize v) [e'] (next_address (heap vs))) as Hsv'.
    { destruct Hsv as [Hv1 Hv2]. split; [by apply Finalize_sorted|by rewrite Finalize_files]. }
    split; [split; cbn|].
    + apply Hsv'.
    + by eapply (saved_storable s).
    + pose proof (ok_numbers _ He') as Hnum'. unfold numbers_fit in *. rewrite !List.Forall_cons_iff in Hnum2, Hnum' |- *. cbn in *. tauto.
    + done.
    + by exists c'.
    + left. exists (next_address (heap vs)). by split.
  - destruct (Hbad E) as (Es & Hid & Hlv).
    assert (current_ s' = current_ s /\ vs_log_number_ s' = vs_log_number_ s /\ numbers_fit s' /\ storable s') as (E1 & E2 & E3 & E4).
    { rewrite Es. destruct n1; (split; [done|]; split; [done|]; split; [exact Hnum2|]); by apply (storable_same s0). }
    split; [|by right]. split; [by rewrite E1|done|done|done|]. exists c. rewrite Hid, Hid2. split; [done|]. rewrite Hlv, E1.
    destruct (Hlive2 c Hc) as [-> _]. exact Hl.
Qed.
End returns.

(** ** CompactMemTable returns *)

(** The metadata of the table that is built: it has the number that was asked for, and
    the range of its entries. *)
Class BuildTableLaws (M W : Type) `{!MemTableEnv M W} `{Comparator} `{Coding} `{!InternalKeyFormat} := BuildTable_meta (mem : M) n (w : W) meta w' :
  is_u 64 n -> BuildTable mem n w = (Ok, meta, w') -> 0 < file_size meta -> number meta = n /\ file_ok meta /\ valid_meta meta.

(** While the mutex is released a writer may begin a new log, whose number was handed out. *)
Class ThreadsVersions (M : Type) `{!Threads M} := {
  unlocked_readers : readers_ok unlocked_versions;
  unlocked_log (db : Db M) : logfile_number_ db < next_number db ->
    logfile_number_ db <= logfile_number_ (unlocked_rest db) < next_number db }.

Section compact.
Context `{ComparatorLaws} `{CodingLaws} `{!InternalKeyFormat, !InternalKeyFormatLaws}.
Context `{!InternalComparator, !InternalComparatorLaws} `{!ManifestOptions}.
Context {M W : Type} `{!CompactionWork.TableEnv W} `{!ManifestEnv W} `{!DirectoryEnv W} `{!MemTableEnv M W} `{!Threads M}.
Context `{!TableEnvLaws M W} {k : Z} `{!ThreadsLaws M k} `{!ThreadsVersions M} `{!BuildTableLaws M W}.
Implicit Types (db : Db M) (w : W) (e : VersionEdit) (f : file) (held : list positive).

(** The current version has room for [n] more files at every level. *)
Record numbered_levels (n : nat) (next : Z) (v : Version) : Prop := {
  nl_levels : levels_ok v;
  nl_files i files : files_ v !! i = Some files -> NoDup (number <$> (meta <$> files)) /\ Z.of_nat (length files + n) < 2 ^ 31 /\
    forall f, f ∈ files -> number f < next }.

(** The state in which [n] memtables can be compacted. *)
Record ready_holding held (n : nat) db : Prop := {
  rh_set : vers_ok held (versions_ db) (version_list_ db);
  rh_levels : numbered_levels n (next_number db) (current_ (versions_ db));
  rh_log : vs_log_number_ (versions_ db) <= logfile_number_ db < next_number db;
  rh_stats : length (stats_ db) = Z.to_nat kNumLevels }.

Definition mem_ready (n : nat) db : Prop := exists held, ready_holding held n db.

Lemma numbered_levels_mono n n' next next' v : (n' <= n)%nat -> next <= next' -> numbered_levels n next v -> numbered_levels n' next' v.
Proof.
  intros Hn Hnext [Hl Hf]. split; [done|]. intros i files Hi. destruct (Hf i files Hi) as (A1 & A2 & A3). split_and!; [done|lia|].
  intros f Hin%A3. lia.
Qed.

Lemma mem_ready_mono n n' db : (n' <= n)%nat -> mem_ready n db -> mem_ready n' db.
Proof. intros Hn (held & [A1 A2 A3 A4]). exists held. split; try done. by eapply numbered_levels_mono. Qed.

(** Only the numbers of the set grow, and other threads run. *)
Lemma ready_step held held' n db db' q next : ready_holding held n db ->
  versions_ db' = with_sequence q (with_next_file next (versions_ db)) -> is_u 64 q -> is_u 64 next -> next_number db <= next ->
  versions_ok held' [] (version_list_ db') -> (exists c, current_id (version_list_ db') = Some c /\ live (version_list_ db') !! c = Some (files_ (current_ (versions_ db)))) ->
  logfile_number_ db <= logfile_number_ db' < next -> length (stats_ db') = length (stats_ db) -> ready_holding held' n db'.
Proof.
  intros [[A1 A2 A3 A4 A5] Hlev Hlog Hst] E Hq Hnext Hle Hvs Hc Hlog' Hst'. split; rewrite ?E; cbn; [|by eapply numbered_levels_mono|lia|congruence].
  split; cbn; [done|by apply (storable_same (versions_ db))| |done|done].
  unfold numbers_fit in *. rewrite !List.Forall_cons_iff in A3 |- *. cbn. tauto.
Qed.

Lemma with_numbers_id (s : VersionSet) : with_sequence (vs_last_sequence_ s) (with_next_file (vs_next_file_number_ s) s) = s.
Proof. by destruct s. Qed.

Lemma numbers_range held n db : ready_holding held n db ->
  is_u 64 (vs_last_sequence_ (versions_ db)) /\ is_u 64 (next_number db) /\ is_u 64 (vs_log_number_ (versions_ db)).
Proof. intros [[_ _ A3 _ _] _ _ _]. unfold numbers_fit in A3. rewrite !List.Forall_cons_iff in A3. tauto. Qed.

(** A file number is handed out. *)
Lemma number_ready held n db : ready_holding held n db -> next_number db + 1 < 2 ^ 64 ->
  exists db1, new_file_number db = (next_number db, db1) /\ next_number db1 = next_number db + 1 /\
    versions_ db1 = with_next_file (next_number db + 1) (versions_ db) /\ version_list_ db1 = version_list_ db /\ forall p, ready_holding held n (set_pending p db1).
Proof.
  intros Hr Hn. destruct (numbers_range _ _ _ Hr) as (R1 & R2 & R3). unfold is_u in *. unfold new_file_number, NewFileNumber. eexists. split; [reflexivity|].
  rewrite wrap_small by (unfold is_u; lia). do 3 (split; [done|]). intros p.
  apply (ready_step held held n db _ (vs_last_sequence_ (versions_ db)) (next_number db + 1)); try done; cbn.
  - unfold is_u. lia.
  - lia.
  - apply (rh_set _ _ _ Hr).
  - apply (rh_set _ _ _ Hr).
  - pose proof (rh_log _ _ _ Hr). lia.
Qed.

(** The other threads run. *)
Lemma unlocked_ready held n db : ready_holding held n db -> next_number db + k < 2 ^ 64 -> exists held',
  ready_holding held' n (unlocked db) /\ current_ (versions_ (unlocked db)) = current_ (versions_ db) /\
  next_number db <= next_number (unlocked db) <= next_number db + k /\
  current_id (version_list_ (unlocked db)) = current_id (version_list_ db) /\
  forall c, current_id (version_list_ db) = Some c -> c ∈ held -> c ∈ held'.
Proof.
  intros Hr Hn. destruct (numbers_range _ _ _ Hr) as (_ & [Hge _] & _).
  pose proof (unlocked_next _ (version_list_ db) Hge Hn) as Hnext. destruct (rh_set _ _ _ Hr) as [A1 A2 A3 A4 (c & Hc & Hl)].
  destruct (unlocked_readers (versions_ db) (version_list_ db) held [] A3 A4) as (held' & next & q & vs' & E & Hu & Hq & Hvs & Hid & Hlive).
  unfold unlocked. rewrite E in *. cbn [fst] in Hnext. cbn in Hnext. set (db1 := set_versions _ vs' db).
  destruct (unlocked_rest_versions db1) as [E1 E2], (unlocked_rest_pending db1) as [_ E3]. pose proof (rh_log _ _ _ Hr) as Hlog.
  assert (logfile_number_ db1 < next_number db1) as Hlt by (cbn; lia). pose proof (unlocked_log db1 Hlt) as Hlog1. cbn in Hlog1.
  exists held'. rewrite E1, E2. split; [|split; [done|split; [done|split; [done|]]]].
  - apply (ready_step held held' n db _ q next); [done|by rewrite E1|done|done|lia|by rewrite E2| |done|by rewrite E3].
    rewrite E2. exists c. cbn. rewrite Hid. split; [done|]. destruct (Hlive c Hc) as [-> _]. exact Hl.
  - intros c' Hc'. by apply Hlive.
Qed.

(** A reference is taken, or given up. *)
Lemma ref_ready held n db c : ready_holding held n db -> current_id (version_list_ db) = Some c -> exists db',
  change_refs (Version_Ref c) db = Some db' /\ ready_holding (c :: held) n db' /\ versions_ db' = versions_ db /\
  current_id (version_list_ db') = Some c /\ imm_ db' = imm_ db /\ logfile_number_ db' = logfile_number_ db.
Proof.
  intros Hr Hc. destruct (rh_set _ _ _ Hr) as [A1 A2 A3 A4 (c' & Hc' & Hl)]. rewrite Hc in Hc'. injection Hc' as <-.
  destruct (Version_Ref_ok c held [] (version_list_ db) A4) as (vs' & E & Hvs & _ & El & Ec).
  { unfold holders. rewrite Hc. left. }
  unfold change_refs. rewrite E. cbn [mbind option_bind]. eexists. split; [done|]. cbn. rewrite Ec. split; [|done].
  destruct Hr as [_ B2 B3 B4]. split; try done. split; try done. exists c. cbn. by rewrite Ec, El.
Qed.

Lemma unref_ready held n db c : ready_holding held n db -> current_id (version_list_ db) = Some c -> c ∈ held -> exists db' held',
  change_refs (Version_Unref c) db = Some db' /\ ready_holding held' n db' /\ versions_ db' = versions_ db /\
  logfile_number_ db' = logfile_number_ db.
Proof.
  intros Hr Hc [l1 [l2 ->]]%list_elem_of_split. destruct (rh_set _ _ _ Hr) as [A1 A2 A3 A4 (c' & Hc' & Hl)]. rewrite Hc in Hc'. injection Hc' as <-.
  destruct (Unref_reader c (l1 ++ c :: l2) (l1 ++ l2) [] (version_list_ db) A4) as (vs' & E & Hvs & Ec & Hsub); [by rewrite Permutation_middle|].
  unfold change_refs. rewrite E. cbn [mbind option_bind]. eexists _, (l1 ++ l2). split; [done|]. split; [|done].
  destruct Hr as [_ B2 B3 B4]. split; try done. split; try done. exists c. cbn. rewrite Ec. split; [done|].
  destruct (proj2 (vr_dom _ _ _ Hvs c)) as [levels Hlev]; [unfold holders; rewrite Ec, Hc; left|].
  rewrite Hlev. apply Hsub in Hlev. by rewrite Hl in Hlev.
Qed.

(** What [WriteLevel0Table] adds to the edit. *)
Definition memtable_edit (num : Z) (v : Version) e : Prop :=
  e = VersionEdit_new \/ exists level m, e = add_new_file (Z.of_nat level, m) VersionEdit_new /\ (level <= kMaxMemCompactLevel)%nat /\
    valid_meta m /\ file_ok m /\ number m = num /\ ((0 < level)%nat -> free_to v (ukey (smallest m)) (ukey (largest m)) level).

Lemma WriteLevel0Table_returns mem held n db w c : ready_holding held n db -> next_number db + 1 + k < 2 ^ 64 ->
  current_id (version_list_ db) = Some c -> c ∈ held -> exists st e db' w' held',
  WriteLevel0Table mem VersionEdit_new (Some (current_ (versions_ db))) db w = Some (st, e, db', w') /\ ready_holding held' n db' /\
  current_ (versions_ db') = current_ (versions_ db) /\ next_number db < next_number db' <= next_number db + 1 + k /\
  current_id (version_list_ db') = Some c /\ c ∈ held' /\ memtable_edit (next_number db) (current_ (versions_ db)) e.
Proof.
  intros Hr Hn Hc Hheld. pose proof threads_nonneg as Hk0. destruct (number_ready held n db Hr ltac:(lia)) as (db1 & En & En1 & Ev1 & El1 & Hr1).
  unfold WriteLevel0Table. rewrite En. destruct (BuildTable mem _ w) as [[st m] w1] eqn:Eb.
  set (db2 := set_pending ({[next_number db]} ∪ pending_outputs_ db1) db1). specialize (Hr1 ({[next_number db]} ∪ pending_outputs_ db1)). fold db2 in Hr1.
  assert (next_number db2 = next_number db + 1) as En2 by done.
  destruct (unlocked_ready held n db2 Hr1 ltac:(lia)) as (held' & Hr3 & Ec3 & Hn3 & Eid3 & Hin3).
  set (db3 := set_pending _ (unlocked db2)).
  assert (ready_holding held' n db3) as Hr3' by by destruct Hr3. pose proof (nl_levels _ _ _ (rh_levels _ _ _ Hr)) as Hlev.
  assert (exists level e, (if bool_decide (st = Ok) && (0 <? file_size m) then
      min_user_key ← InternalKey_user_key (smallest m); max_user_key ← InternalKey_user_key (largest m);
      level ← PickLevelForMemTableOutput (max_file_size (versions_ db3)) (current_ (versions_ db)) min_user_key max_user_key;
      Some (level, add_new_file (Z.of_nat level, m) VersionEdit_new) else Some (0%nat, VersionEdit_new)) = Some (level, e) /\
    (level <= kMaxMemCompactLevel)%nat /\ memtable_edit (next_number db) (current_ (versions_ db)) e) as (level & e & -> & Hle & He).
  { destruct (bool_decide (st = Ok) && _) eqn:E; [|exists 0%nat, VersionEdit_new; split; [done|]; split; [lia|by left]].
    apply andb_true_iff in E as [Est%bool_decide_eq_true Hsz%Z.ltb_lt]. subst st. destruct (numbers_range _ _ _ Hr) as (_ & Hnum & _).
    destruct (BuildTable_meta mem _ w m w1 Hnum Eb Hsz) as (Em & Hok & Hv). pose proof Hv as (Hs & Hl & _).
    unfold InternalKey_user_key. rewrite !ExtractUserKey_ok by (by apply valid_key_length). cbn [mbind option_bind].
    destruct (memtable_level_safe (max_file_size (versions_ db3)) (current_ (versions_ db)) (ukey (smallest m)) (ukey (largest m)) Hlev) as (level & -> & Hle & Hfree).
    cbn [mbind option_bind]. eexists _, _. split; [done|]. split; [done|]. right. by exists level, m. }
  cbn [mbind option_bind]. unfold add_stats. destruct (lookup_lt_is_Some_2 (stats_ db3) level) as [cs Hcs].
  { rewrite (rh_stats _ _ _ Hr3'). unfold kMaxMemCompactLevel, kNumLevels in *. lia. }
  rewrite Hcs. cbn [mbind option_bind]. eexists st, e, _, w1, held'. split; [done|]. split; [|split; [|split; [|split; [|split; [|done]]]]].
  - destruct Hr3' as [B1 B2 B3 B4]. split; try done. cbn. by rewrite length_insert.
  - cbn. rewrite Ec3. cbn. by rewrite Ev1.
  - cbn. lia.
  - cbn. rewrite Eid3. cbn. by rewrite El1.
  - apply Hin3; [cbn; by rewrite El1|done].
Qed.

(** The edit of a memtable is well formed and fits. *)
Lemma memtable_edit_ok log num v e : memtable_edit num v e -> is_u 64 log -> edit_ok (with_log_number log (with_prev_log_number 0 e)).
Proof.
  intros He Hlog. destruct He as [->|(level & m & -> & Hle & Hv & Hok & Hnum & Hfree)]; (split; cbn; try done).
  - by repeat apply List.Forall_cons.
  - repeat constructor.
  - by repeat apply List.Forall_cons.
  - repeat constructor.
  - apply Forall_singleton. split; [|done]. unfold level_ok, kMaxMemCompactLevel, kNumLevels in *. cbn [fst]. lia.
Qed.

Lemma memtable_edit_fits log n num (s : VersionSet) e : memtable_edit num (current_ s) e -> version_sorted (current_ s) ->
  numbered_levels n num (current_ s) -> edits_fit (current_ s) [completed (with_log_number log (with_prev_log_number 0 e)) s].
Proof.
  intros He Hsort [Hlev Hf]. destruct He as [->|(level & m & -> & Hle & Hv & Hok & Hnum & Hfree)].
  - apply nothing_fits; try done. intros i files Hi. by apply (Hf i).
  - apply (adds_fit _ _ level m); try done; [unfold kMaxMemCompactLevel, kNumLevels in *; lia|].
    intros i files Hi. destruct (Hf i files Hi) as (Hnd & _ & Hlt). split; [done|]. intros f Hin%Hlt. lia.
Qed.

Lemma memtable_edit_files log num v (s : VersionSet) e i ms : memtable_edit num v e ->
  let e' := completed (with_log_number log (with_prev_log_number 0 e)) s in
  exists l, sorted_level i [e'] ms ≡ₚ ms ++ l /\ (length l <= 1)%nat /\ forall m, m ∈ l -> number m = num.
Proof.
  intros He e'. destruct He as [->|(level & m & -> & Hle & Hv & Hok & Hnum & Hfree)].
  - exists []. rewrite sorted_level_perm, adds_level by done. cbn. split_and!; [done|lia|]. by intros m ?%elem_of_nil.
  - exists (of_level i (new_files_ e')). rewrite sorted_level_perm, adds_level by done. split; [done|].
    change (new_files_ e') with [(Z.of_nat level, m)]. rewrite of_level_cons. cbn [fst snd].
    destruct (decide _); (split; [cbn; lia|]); [|by intros ? ?%elem_of_nil]. by intros m' ->%list_elem_of_singleton.
Qed.

(** The levels after the edit was installed. *)
Lemma memtable_installed log n num next v s e adr : memtable_edit num (current_ s) e -> numbered_levels (S n) num (current_ s) -> version_sorted (current_ s) -> num < next ->
  saves (current_ s) v [completed (with_log_number log (with_prev_log_number 0 e)) s] adr -> numbered_levels n next v.
Proof.
  intros He Hlev Hsort Hnext Hsv. pose proof (memtable_edit_fits log _ num s e He Hsort Hlev) as Hfit.
  assert (forall i files, files_ v !! i = Some files -> exists bs l, files_ (current_ s) !! i = Some bs /\ (length l <= 1)%nat /\
    (meta <$> files) ≡ₚ (meta <$> bs) ++ l /\ (forall m, m ∈ l -> number m = num)) as Hfiles.
  { intros i files Hi. destruct Hsv as [[Hvl _] Hf].
    destruct (lookup_lt_is_Some_2 (files_ (current_ s)) i) as [bs Hbs]; [apply lookup_lt_Some in Hi; rewrite (vso_length _ Hsort); lia|].
    destruct (Hf i bs Hbs) as (files' & Hi' & E & _). rewrite Hi in Hi'. injection Hi' as <-.
    destruct (memtable_edit_files log num (current_ s) s e i (meta <$> bs) He) as (l & Hp & Hl & Hin). exists bs, l. rewrite E. by split_and!. }
  assert (forall i files, files_ v !! i = Some files -> Z.of_nat (length files + n) < 2 ^ 31) as Hsmall.
  { intros i files Hi. destruct (Hfiles i files Hi) as (bs & l & Hbs & Hl & Hp & _). destruct (nl_files _ _ _ Hlev i bs Hbs) as (_ & Hn & _).
    apply Permutation_length in Hp. rewrite length_app, !length_fmap in Hp. lia. }
  split.
  - eapply saved_levels; [exact Hsv|exact Hfit|apply Hsort|]. intros i files Hi%Hsmall. lia.
  - intros i files Hi. destruct (Hfiles i files Hi) as (bs & l & Hbs & Hl & Hp & Hin). destruct (nl_files _ _ _ Hlev i bs Hbs) as (Hnd & _ & Hlt).
    split; [|split; [by apply (Hsmall i)|]].
    + rewrite Hp, fmap_app. apply list.NoDup_app. split; [done|]. split.
      * intros x (m & -> & (f & -> & Hf)%list_elem_of_fmap)%list_elem_of_fmap (m' & E & Hm')%list_elem_of_fmap. apply Hin in Hm'.
        apply Hlt in Hf. lia.
      * destruct l as [|m [|]]; [constructor|apply NoDup_singleton|cbn in Hl; lia].
    + intros f Hf. assert (meta f ∈ (meta <$> bs) ++ l) as Hm by (rewrite <- Hp; by apply list_elem_of_fmap_2).
      apply elem_of_app in Hm as [(g & E & Hg)%list_elem_of_fmap|Hm%Hin]; [apply Hlt in Hg; rewrite E; lia|lia].
Qed.

(** The edit is applied, or given up. *)
Lemma memtable_applied held n db w e num : ready_holding held (S n) db -> memtable_edit num (current_ (versions_ db)) e ->
  numbered_levels (S n) num (current_ (versions_ db)) -> num < next_number db -> next_number db + k < 2 ^ 64 ->
  exists st db' w' held', apply_to_versions (with_log_number (logfile_number_ db) (with_prev_log_number 0 e)) db w = Some (st, db', w') /\
    ready_holding held' n db'.
Proof.
  intros Hr He Hlev Hnum Hn. destruct (numbers_range _ _ _ Hr) as (R1 & R2 & R3). pose proof (rh_log _ _ _ Hr) as Hlog. unfold is_u in *.
  pose proof (rh_set _ _ _ Hr) as Hset. set (e2 := with_log_number _ _).
  assert (readers_ok unlocked_versions) as Hreaders by apply unlocked_readers.
  destruct (LogAndApply_returns unlocked_versions held e2 (versions_ db) (version_list_ db) w Hreaders Hset) as (st & s' & vs' & w' & held' & E & Hset' & Happ).
  { eapply memtable_edit_ok; [exact He|]. unfold is_u. lia. }
  { intros _. exact Hlog. }
  { eapply memtable_edit_fits; [exact He|apply Hset|exact Hlev]. }
  unfold apply_to_versions. rewrite E. cbn [mbind option_bind]. eexists _, _, _, held'. split; [done|].
  apply LogAndApply_kept in E as (_ & s1 & vs1 & E1 & E2). pose proof (unlocked_next s1 vs1) as Hnext. rewrite E1, <- E2 in Hnext. specialize (Hnext (proj1 R2) Hn).
  destruct (unlocked_rest_pending db) as [_ Est]. pose proof (unlocked_log db (proj2 Hlog)) as Hlog'.
  split; cbn; [done| | |by rewrite Est, (rh_stats _ _ _ Hr)].
  - destruct Happ as [(adr & Hsv & _)|[-> _]].
    + eapply memtable_installed; [exact He|exact Hlev|apply Hset| |exact Hsv]. lia.
    + eapply numbered_levels_mono; [..|apply (rh_levels _ _ _ Hr)]; lia.
  - split; [|lia]. destruct Happ as [(adr & _ & ->)|[_ ->]]; cbn; lia.
Qed.

(** The memtable is compacted, whatever the disk does, and the state is one in which
    another one can be. *)
Lemma CompactMemTable_returns n db w : mem_ready (S n) db -> is_Some (imm_ db) -> next_number db + (1 + k + k) < 2 ^ 64 ->
  exists db' w', CompactMemTable db w = Some (db', w') /\ mem_ready n db'.
Proof.
  intros [held Hr] [mem Himm] Hn. pose proof threads_nonneg as Hk0. destruct (vk_current _ _ _ (rh_set _ _ _ Hr)) as (c & Hc & _).
  destruct (ref_ready held (S n) db c Hr Hc) as (db1 & E1 & Hr1 & Ev1 & Hc1 & _).
  unfold CompactMemTable. rewrite Himm. cbn [mbind option_bind]. rewrite Hc. cbn [mbind option_bind]. rewrite E1. cbn [mbind option_bind].
  destruct (WriteLevel0Table_returns mem (c :: held) (S n) db1 w c Hr1) as (st & e & db2 & w2 & held2 & E2 & Hr2 & Ec2 & Hn2 & Hid2 & Hin2 & He2);
    [rewrite Ev1; lia|done|left|].
  rewrite <- Ev1, E2. cbn [mbind option_bind]. destruct (unref_ready held2 (S n) db2 c Hr2 Hid2 Hin2) as (db3 & held3 & E3 & Hr3 & Ev3 & _).
  rewrite E3. cbn [mbind option_bind]. generalize (if bool_decide (st = Ok) && shutting_down_ db3 then deleting_db else st). intros st3.
  assert (exists st4 db4 w4 held4, (if bool_decide (st3 = Ok) then
      apply_to_versions (with_log_number (logfile_number_ db3) (with_prev_log_number 0 e)) db3 w2 else Some (st3, db3, w2)) = Some (st4, db4, w4) /\
    ready_holding held4 n db4) as (st4 & db4 & w4 & held4 & -> & Hr4).
  { case_bool_decide.
    - eapply memtable_applied; [exact Hr3|rewrite Ev3, Ec2; exact He2| | |].
      + rewrite Ev3, Ec2. apply (rh_levels _ _ _ Hr1).
      + rewrite Ev3. lia.
      + rewrite Ev3, Ev1 in *. lia.
    - eexists st3, db3, w2, held3. split; [done|]. destruct Hr3 as [B1 B2 B3 B4]. split; try done. by eapply numbered_levels_mono; [..|exact B2]; lia. }
  cbn [mbind option_bind]. case_bool_decide; eexists _, _; (split; [done|]); exists held4.
  - by destruct Hr4.
  - unfold RecordBackgroundError. case_bool_decide; by destruct Hr4.
Qed.

(** The other operations of a compaction keep such a state. *)
Lemma unlocked_mem_ready n db : mem_ready n db -> next_number db + k < 2 ^ 64 -> mem_ready n (unlocked db).
Proof. intros [held Hr] Hn. destruct (unlocked_ready held n db Hr Hn) as (held' & Hr' & _). by exists held'. Qed.

Lemma number_mem_ready n db p : mem_ready n db -> next_number db + 1 < 2 ^ 64 -> mem_ready n (set_pending p (new_file_number db).2).
Proof. intros [held Hr] Hn. destruct (number_ready held n db Hr Hn) as (db1 & -> & _ & _ & _ & Hr'). exists held. apply Hr'. Qed.
End compact.
