(* ===== verification/CompactionSpec.v ===== *)
(** * A compaction writes what no snapshot can do without

    [DoCompactionWork] writes its outputs, and compacts the memtables that fill up meanwhile,
    without a failed assertion; when it succeeds the tables that it wrote show
    every snapshot what its inputs show. *)

From Stdlib Require Import String Sorting.Sorted.
From stdpp Require Import base list sorting gmap.
From S2P Require Import Prelude LogReader Doubles Cursor Coding DbFormat DbIterView VersionEdit VersionFiles VersionState Builder VersionRefs.
From S2P Require Import Compaction CompactionProps CompactionSafe Manifest DbState CompactionWork CompactionKeep CompactionTables.
From S2P Require Import BuilderProps BuilderApply BuilderSave ManifestSafe MemCompact.

#[local] Open Scope Z_scope.

(** ** The queries of a compaction *)

Section queries.
Context `{ComparatorLaws} `{CodingLaws} `{!InternalKeyFormat, !InternalKeyFormatLaws}.
Context `{!InternalComparator, !InternalComparatorLaws}.
Implicit Types (ks : KeyState) (c : Compaction) (v : Version).

Lemma stop_scan_ok fuel key c : Forall (fun f : file => valid_file f) (grandparents_ c) ->
  (length (grandparents_ c) - grandparent_index_ c <= fuel)%nat ->
  exists i n, stop_scan fuel key c = Some (with_progress i (seen_key_ c) n c).
Proof.
  intros Hv. revert c Hv. induction fuel as [|fuel IH]; intros c Hv Hfuel; cbn [stop_scan];
    (destruct (grandparents_ c !! grandparent_index_ c) as [f|] eqn:Ef; [|by exists (grandparent_index_ c), (overlapped_bytes_ c); destruct c]).
  { apply lookup_lt_Some in Ef. lia. }
  assert (valid_file f) as (_ & Hf & _) by (eapply Forall_lookup_1 in Hv; [exact Hv|exact Ef]).
  rewrite valid_key_encode by done. cbn [mbind option_bind].
  destruct (0 <? _); [|by exists (grandparent_index_ c), (overlapped_bytes_ c); destruct c].
  set (m := if seen_key_ c then _ else _).
  destruct (IH (with_progress (S (grandparent_index_ c)) (seen_key_ c) m c) Hv) as (i & n & E); [cbn; lia|]. by exists i, n.
Qed.

Lemma ShouldStopBefore_ok key vset c : Forall (fun f : file => valid_file f) (grandparents_ c) ->
  exists stop i n, ShouldStopBefore key vset c = Some (stop, with_progress i true n c).
Proof.
  intros Hv. unfold ShouldStopBefore. destruct (stop_scan_ok (length (grandparents_ c)) key c Hv) as (i & n & ->); [lia|].
  cbn [mbind option_bind]. case_match; by eexists _, _, _.
Qed.

(** [drop_entry] decides as the reference does, and only moves the pointers of the levels. *)
Lemma drop_entry_ok snapshot v key k ks c : ParseInternalKey key = Some k ->
  input_version_ c = Some v -> levels_ok v -> (level_ c + 2 <= Z.to_nat kNumLevels)%nat -> ptrs_ok v (ukey key) (level_ptrs_ c) ->
  exists ptrs, drop_entry snapshot key ks c =
      Some ((drop_spec snapshot (is_base_level v (level_ c)) key ks).1, (drop_spec snapshot (is_base_level v (level_ c)) key ks).2,
            with_level_ptrs ptrs c) /\ ptrs_ok v (ukey key) ptrs.
Proof.
  intros Hk Hv Hok Hl Hp. pose proof Hk as (_ & Eu & _)%ParseInternalKey_Some. unfold drop_entry, drop_spec. rewrite Hk.
  set (ks1 := note_user_key _ _).
  assert (forall ps, ps = level_ptrs_ c -> with_level_ptrs ps c = c) as Hsame by (intros ? ->; by destruct c).
  destruct (last_sequence_for_key ks1 <=? snapshot).
  { exists (level_ptrs_ c). cbn [mbind option_bind]. by rewrite Hsame. }
  destruct (bool_decide _ && _); cbn [andb]; [|exists (level_ptrs_ c); cbn [mbind option_bind]; by rewrite Hsame].
  unfold IsBaseLevelForKey. rewrite Hv. cbn [mbind option_bind]. rewrite Eu.
  destruct (base_levels_ok (Z.to_nat kNumLevels - (level_ c + 2)) (ukey key) v (level_ c + 2) (level_ptrs_ c) Hok)
    as (base & ptrs & -> & Hps & Hb); [lia|lia|done|]. cbn [mbind option_bind]. exists ptrs. split; [|done]. cbn [fst snd].
  assert (base = is_base_level v (level_ c) (ukey key)) as ->; [|done].
  apply eq_bool_iff. by rewrite Hb, is_base_level_ok.
Qed.
End queries.

(** ** What was written so far *)

Section written.
Context `{ComparatorLaws} `{CodingLaws} `{!InternalKeyFormat, !InternalKeyFormatLaws}.
Context `{!InternalComparator, !InternalComparatorLaws} `{!ManifestOptions}.
Context {M W : Type} `{!TableEnv W} `{!ManifestEnv W} `{!DirectoryEnv W} `{!MemTableEnv M W} `{!Threads M}.
Context `{!TableEnvLaws M W} {k : Z} `{!ThreadsLaws M k} `{!ThreadsVersions M} `{!BuildTableLaws M W}.
Context {I : Type} `{!Iterator I}.
Implicit Types (db : Db M) (w : W) (input : I) (s : CompactionState) (o : Output) (t out : list entry).

Definition ends o t : Prop := exists a b, head t = Some a /\ list.last t = Some b /\ out_smallest o = a.1 /\ out_largest o = b.1.

(** A finished output: its table, its size and its range. *)
Record finished w o t : Prop := {
  fin_table : tables w (out_number o) = Some t;
  fin_size : is_Some (out_file_size o);
  fin_ends : ends o t }.

Record db_ready db : Prop := {
  rd_next : 0 < next_number db;
  rd_pending : forall m, m ∈ pending_outputs_ db -> m < next_number db }.

(** The entries [out] are those of the finished outputs, followed by those of the table that is
    being written; it has none when [fresh]. *)
Record written (fresh : bool) out s db w : Prop := {
  wr_numbers : Forall (fun o => 0 < out_number o /\ out_number o ∈ pending_outputs_ db) (outputs s);
  wr_nodup : NoDup (out_number <$> outputs s);
  wr_file : outfile_ s = builder_ s;
  wr_out : exists os ts cur, outputs s = os ++ cur /\ Forall2 (finished w) os ts /\
    if builder_ s then exists o, cur = [o] /\ open_table w = out_number o /\
      (failed w = false -> out = concat ts ++ building w /\ if fresh then building w = [] else ends o (building w))
    else fresh = false /\ cur = [] /\ out = concat ts }.

Definition same_run s s' : Prop := compaction s' = compaction s /\ smallest_snapshot s' = smallest_snapshot s.

Lemma finished_tables w w' os ts : Forall2 (finished w) os ts ->
  (forall o, o ∈ os -> tables w' (out_number o) = tables w (out_number o)) -> Forall2 (finished w') os ts.
Proof.
  intros Hf Hsame. induction Hf as [|o t os ts [A1 A2 A3] _ IH]; [constructor|]. constructor.
  - split; [|done|done]. by rewrite Hsame by left.
  - apply IH. intros o' Ho. apply Hsame. by right.
Qed.

Lemma db_ready_kept db db' w w' n : db_kept db db' w w' n -> db_ready db -> db_ready db'.
Proof. intros [_ Hp Hn _] [A B]. split; [lia|]. intros m. rewrite Hp. intros Hm%B. lia. Qed.

Lemma written_kept fresh out s db db' w w' n : db_kept db db' w w' n -> written fresh out s db w -> written fresh out s db' w'.
Proof.
  intros [(Ht & Eb & Eo & Ef) Hp _ _] [A1 A2 A3 (os & ts & cur & E & Hf & Hb)]. split; [|done|done|].
  - eapply List.Forall_impl; [|exact A1]. intros o. by rewrite Hp.
  - exists os, ts, cur. rewrite Eb, Eo, Ef. split_and!; [done| |done]. eapply finished_tables; [exact Hf|].
    intros o Ho. apply Ht. rewrite list.Forall_forall in A1. apply A1. rewrite E. apply elem_of_app. by left.
Qed.

Lemma change_output_snoc f s os o : outputs s = os ++ [o] -> change_output f s = Some (with_outputs (os ++ [f o]) s).
Proof.
  intros E. unfold change_output. rewrite E, list.last_snoc. cbn [mbind option_bind]. rewrite length_app. cbn [length].
  by replace (length os + 1 - 1)%nat with (length os) by lia; rewrite take_app_length.
Qed.

(** A step that is taken unless something failed before. *)
Lemma guarded_step (f : W -> Status * W) c st w st' w' : (if c : bool then f w else (st, w)) = (st', w') ->
  (c = true -> st = Ok) -> (forall w', f w = (Ok, w') -> forall m, tables w' m = tables w m) ->
  st' = Ok -> st = Ok /\ forall m, tables w' m = tables w m.
Proof. intros E Hc Hlaw ->. destruct c; [split; [by apply Hc|by apply Hlaw]|by injection E as -> <-]. Qed.

Lemma FinishCompactionOutputFile_ok out s input db w : written false out s db w -> builder_ s = true ->
  exists st s' w', FinishCompactionOutputFile s input w = Some (st, s', w') /\ same_run s s' /\
    (st = Ok -> written false out s' db w' /\ builder_ s' = false).
Proof.
  intros [A1 A2 A3 (os & ts & cur & E & Hf & Hb)] Hbuilder. rewrite Hbuilder in A3, Hb. destruct Hb as (o & -> & Hopen & Hout).
  assert (0 < out_number o) as Hpos by (rewrite list.Forall_forall in A1; apply A1; rewrite E; apply elem_of_app; right; left).
  unfold FinishCompactionOutputFile. rewrite A3, Hbuilder, E, list.last_snoc. cbn [mbind option_bind assert_].
  rewrite (proj2 (Z.eqb_neq _ _)) by lia. cbn [negb assert_ mbind option_bind].
  destruct (if bool_decide (it_status input = Ok) then builder_Finish w else (it_status input, builder_Abandon w)) as [st1 w1] eqn:E1.
  assert (st1 = Ok -> builder_Finish w = (Ok, w1)) as Hok1.
  { case_bool_decide; [by intros ->|by injection E1 as <- <-]. }
  rewrite (change_output_snoc _ _ os o) by done. cbn [mbind option_bind].
  set (size := builder_FileSize w1) in *. set (o' := mkOutput (out_number o) (Some size) (out_smallest o) (out_largest o)).
  destruct (if bool_decide (st1 = Ok) then outfile_Sync w1 else (st1, w1)) as [st2 w2] eqn:E2.
  pose proof (guarded_step _ _ _ _ _ _ E2 ltac:(by intros ?%bool_decide_eq_true) ltac:(apply outfile_Sync_law)) as Hok2.
  destruct (if bool_decide (st2 = Ok) then outfile_Close w2 else (st2, w2)) as [st3 w3] eqn:E3.
  pose proof (guarded_step _ _ _ _ _ _ E3 ltac:(by intros ?%bool_decide_eq_true) ltac:(apply outfile_Close_law)) as Hok3.
  destruct (if bool_decide (st3 = Ok) && _ then _ else (st3, w3)) as [st4 w4] eqn:E4.
  pose proof (guarded_step _ _ _ _ _ _ E4 ltac:(by intros [?%bool_decide_eq_true _]%andb_true_iff) ltac:(apply Verify_law)) as Hok4.
  eexists _, _, _. split; [done|]. split; [done|]. intros [[[Hfin%Hok1 T2]%Hok2 T3]%Hok3 T4]%Hok4.
  apply Finish_law in Hfin as (Hfailed & Ht & Hothers). destruct (Hout Hfailed) as [-> Hends]. rewrite Hopen in Ht, Hothers.
  assert (forall m, tables w4 m = tables w1 m) as Hsame by (intros m; by rewrite T4, T3, T2).
  split; [|done]. split; cbn; [..|done|].
  - rewrite E in A1. apply Forall_app in A1 as [A1 A1']. apply Forall_app. split; [done|]. by repeat constructor; apply Forall_cons_1 in A1' as [[? ?] _].
  - rewrite E, fmap_app in A2. by rewrite fmap_app.
  - exists (os ++ [o']), (ts ++ [building w]), []. split; [by rewrite app_nil_r|]. split; [|by rewrite concat_app; cbn; rewrite app_nil_r].
    apply Forall2_app.
    + eapply finished_tables; [exact Hf|]. intros p Hp. rewrite Hsame. apply Hothers. intros Eq.
      rewrite E, fmap_app in A2. apply list.NoDup_app in A2 as (_ & A2 & _). apply (A2 (out_number p)); [by apply list_elem_of_fmap_2|].
      rewrite Eq. left.
    + constructor; [|constructor]. split; cbn; [by rewrite Hsame|by eexists|done].
Qed.

Lemma new_number db : db_ready db -> next_number db + 1 < 2 ^ 64 -> exists db1, new_file_number db = (next_number db, db1) /\
  next_number db1 = next_number db + 1 /\ pending_outputs_ db1 = pending_outputs_ db.
Proof.
  intros [Hpos _] Hn. unfold new_file_number, NewFileNumber. eexists. split; [reflexivity|]. split; [|done].
  apply wrap_small. unfold is_u. lia.
Qed.

Lemma OpenCompactionOutputFile_ok j out s db w : written false out s db w -> builder_ s = false -> db_ready db ->
  next_number db + 1 < 2 ^ 64 -> mem_ready j db ->
  exists st s' db' w', OpenCompactionOutputFile s db w = Some (st, s', db', w') /\ same_run s s' /\ mem_ready j db' /\ db_ready db' /\
    next_number db' = next_number db + 1 /\ (st = Ok -> written true out s' db' w' /\ builder_ s' = true).
Proof.
  intros [A1 A2 A3 (os & ts & cur & E & Hf & Hb)] Hbuilder Hready Hn Hs. rewrite Hbuilder in Hb. destruct Hb as (_ & -> & ->).
  rewrite app_nil_r in E. destruct (new_number db Hready Hn) as (db1 & En & En1 & Ep1).
  pose proof (number_mem_ready j db ({[next_number db]} ∪ pending_outputs_ db1) Hs Hn) as Hs1. rewrite En in Hs1. cbn [snd] in Hs1.
  unfold OpenCompactionOutputFile. rewrite Hbuilder. cbn [negb assert_ mbind option_bind]. rewrite En.
  destruct (OpenTable _ w) as [st w1] eqn:Eo. eexists _, _, _, _. split; [done|]. split; [by case_bool_decide|].
  split; [done|].
  split. { split; cbn; [rewrite En1; destruct Hready; lia|]. intros m. rewrite En1, Ep1, elem_of_union, elem_of_singleton.
    intros [->|Hm%(rd_pending _ Hready)]; lia. }
  split; [done|]. intros ->. apply Open_law in Eo as (Eb & Eopen & Ef & Hothers). rewrite bool_decide_true by done. split; [|done].
  assert (forall o, o ∈ os -> out_number o <> next_number db) as Hfresh.
  { intros o Ho. rewrite list.Forall_forall in A1. destruct (A1 o) as [_ Hp]; [by rewrite E|]. apply (rd_pending _ Hready) in Hp. lia. }
  split; cbn; [..|done|].
  - apply Forall_app. split.
    + eapply List.Forall_impl; [|exact A1]. intros o [? ?]. split; [done|]. rewrite Ep1. set_solver.
    + constructor; [|constructor]. cbn. split; [apply Hready|]. set_solver.
  - rewrite E, fmap_app. apply list.NoDup_app. split; [by rewrite <- E|]. split; [|apply NoDup_singleton].
    intros m (o & -> & Ho)%list_elem_of_fmap. cbn. rewrite list_elem_of_singleton. by apply Hfresh.
  - exists os, ts, [mkOutput (next_number db) None [] []]. split; [by rewrite E|]. split.
    { eapply finished_tables; [exact Hf|]. intros o Ho. by apply Hothers, Hfresh. }
    eexists. split; [done|]. split; [done|]. intros _. rewrite Eb, app_nil_r. by split.
Qed.

(** The key and the value that are put into the open table. *)
Definition put_key key s w : option CompactionState :=
  s ← (if builder_NumEntries w =? 0
       then change_output (fun o => mkOutput (out_number o) (out_file_size o) key (out_largest o)) s else Some s);
  change_output (fun o => mkOutput (out_number o) (out_file_size o) (out_smallest o) key) s.

Lemma put_key_output key s w os o : outputs s = os ++ [o] -> exists small,
  put_key key s w = Some (with_outputs (os ++ [mkOutput (out_number o) (out_file_size o) small key]) s) /\
  small = if builder_NumEntries w =? 0 then key else out_smallest o.
Proof.
  intros E. unfold put_key. destruct (_ =? 0).
  - rewrite (change_output_snoc _ s os o) by done. cbn [mbind option_bind]. rewrite (change_output_snoc _ _ os _) by done. by eexists.
  - cbn [mbind option_bind]. rewrite (change_output_snoc _ s os o) by done. by eexists.
Qed.

Lemma ends_put t key v small o : (t = [] \/ ends o t) -> small = (if Z.of_nat (length t) =? 0 then key else out_smallest o) ->
  ends (mkOutput (out_number o) (out_file_size o) small key) (t ++ [(key, v)]).
Proof.
  intros [->|(a & b & Ha & Hb & Ea & Eb)] ->.
  - by exists (key, v), (key, v).
  - destruct t as [|e t]; [done|]. exists a, (key, v). rewrite list.last_snoc. by split_and!.
Qed.

Lemma put_ok fresh out key v s db w : written fresh out s db w -> builder_ s = true ->
  (forall e, list.last out = Some e -> internal_lt e.1 key) ->
  exists s' w', put_key key s w = Some s' /\ builder_Add key v w = Some w' /\ same_run s s' /\
    builder_ s' = true /\ written false (out ++ [(key, v)]) s' db w'.
Proof.
  intros [A1 A2 A3 (os & ts & cur & E & Hf & Hb)] Hbuilder Hlast. rewrite Hbuilder in Hb. destruct Hb as (o & -> & Hopen & Hout).
  destruct (put_key_output key s w os o E) as (small & -> & Hsmall).
  destruct (builder_Add_law key v w) as (w' & Hadd & Hopen' & Hsame & Hok).
  { intros Hfailed e He. destruct (Hout Hfailed) as [-> _]. apply Hlast. by rewrite list.last_app, He. }
  eexists _, _. split; [done|]. split; [exact Hadd|]. split; [done|].
  split; [done|]. split; cbn; [..|done|].
  - rewrite E in A1. apply Forall_app in A1 as [A1 A1']. apply Forall_app. split; [done|]. apply Forall_cons_1 in A1' as [A1' _].
    constructor; [done|constructor].
  - rewrite E, fmap_app in A2. by rewrite fmap_app.
  - rewrite Hbuilder. exists os, ts. eexists. split; [done|]. split; [by eapply finished_tables|].
    eexists. split; [done|]. split; [by rewrite Hopen'|]. intros [Hfailed ->]%Hok. destruct (Hout Hfailed) as [-> Hends].
    split; [by rewrite app_assoc|]. apply ends_put; [destruct fresh; auto|]. by rewrite Hsmall, NumEntries_law.
Qed.

Lemma add_entry_ok j out key v s input db w : written false out s db w -> db_ready db -> next_number db + 1 < 2 ^ 64 -> mem_ready j db ->
  it_value input = Some v -> (forall e, list.last out = Some e -> internal_lt e.1 key) ->
  exists st s' db' w', add_entry key s input db w = Some (st, s', db', w') /\ same_run s s' /\ mem_ready j db' /\ db_ready db' /\
    next_number db <= next_number db' <= next_number db + 1 /\ (st = Ok -> written false (out ++ [(key, v)]) s' db' w').
Proof.
  intros Hw Hready Hn Hs Hv Hlast.
  assert (exists st s1 db1 w1, (if builder_ s then Some (Ok, s, db, w) else OpenCompactionOutputFile s db w) = Some (st, s1, db1, w1) /\
    same_run s s1 /\ mem_ready j db1 /\ db_ready db1 /\ next_number db <= next_number db1 <= next_number db + 1 /\
    (st = Ok -> exists fresh, written fresh out s1 db1 w1 /\ builder_ s1 = true)) as (st & s1 & db1 & w1 & E1 & Hrun & Hs1 & Hready1 & Hn1 & Hok).
  { destruct (builder_ s) eqn:Hbuilder.
    - exists Ok, s, db, w. split_and!; try done; [lia|]. intros _. by exists false.
    - destruct (OpenCompactionOutputFile_ok j out s db w) as (st & s1 & db1 & w1 & E1 & ? & ? & ? & En & Hok); [done..|].
      exists st, s1, db1, w1. split_and!; try done; [lia|lia|]. intros Hst. exists true. by apply Hok. }
  unfold add_entry. rewrite E1. cbn [mbind option_bind].
  case_bool_decide as Hst; [|by exists st, s1, db1, w1]. destruct (Hok Hst) as (fresh & Hw1 & Hb1).
  destruct (put_ok fresh out key v s1 db1 w1) as (s2 & w2 & E2 & E3 & Hrun2 & Hb2 & Hw2); [done..|].
  unfold put_key in E2. apply bind_Some in E2 as (s3 & E2 & E2'). change (InternalKey_DecodeFrom key) with key. rewrite E2.
  cbn [mbind option_bind]. rewrite E2'. cbn [mbind option_bind]. rewrite Hv. cbn [mbind option_bind]. rewrite E3. cbn [mbind option_bind].
  assert (same_run s s2) as Hrun3 by (destruct Hrun, Hrun2; split; congruence).
  destruct (_ <=? _); [|exists Ok, s2, db1, w2; split_and!; try done; lia].
  destruct (FinishCompactionOutputFile_ok (out ++ [(key, v)]) s2 input db1 w2) as (st4 & s4 & w4 & -> & Hrun4 & Hok4); [done..|].
  cbn [mbind option_bind]. exists st4, s4, db1, w4. split_and!; try done; [destruct Hrun4, Hrun3; split; congruence|lia|lia|].
  intros Hst4. by apply Hok4.
Qed.

(** ** A turn, and the loop *)

Lemma prioritize_memtable_ok j db w : db_ready db -> mem_ready (S j) db -> next_number db + (1 + k + k) < 2 ^ 64 ->
  exists db' w', prioritize_memtable db w = Some (db', w') /\ mem_ready j db' /\ db_kept db db' w w' (1 + k + k).
Proof.
  intros [Hpos Hpend] Hs Hn. unfold prioritize_memtable. destruct (_ && _) eqn:E.
  - apply andb_true_iff in E as [_ E%bool_decide_eq_true]. destruct (CompactMemTable_returns j db w Hs E Hn) as (db' & w' & Ec & Hs').
    exists db', w'. split; [done|]. split; [done|]. eapply CompactMemTable_kept; [exact Ec|done|lia|done].
  - exists db, w. split; [done|]. split; [apply (mem_ready_mono (S j)); [lia|done]|]. pose proof threads_nonneg.
    split; [apply same_tables_refl|done|lia|done].
Qed.

Context (es : list entry) (at_ : I -> option nat -> Prop) (Hinput : IteratorLaws internal_before es at_).
Context (Hsorted : sorted_entries es) (Hparses : Forall parses es).
Context (v : Version) (level : nat) (snapshot : Z) (Hv : levels_ok v) (Hlevel : (level + 2 <= Z.to_nat kNumLevels)%nat).

Abbreviation keeps := (kept snapshot (is_base_level v level) KeyState_new).
Abbreviation state_at i := (state_after snapshot (is_base_level v level) KeyState_new (take i es)).

(** After the first [i] entries. *)
Record running (i : nat) s ks db w : Prop := {
  rn_ready : db_ready db;
  rn_mem : mem_ready (length es - i) db;
  rn_snapshot : smallest_snapshot s = snapshot;
  rn_version : input_version_ (compaction s) = Some v;
  rn_level : level_ (compaction s) = level;
  rn_grandparents : Forall (fun f : file => valid_file f) (grandparents_ (compaction s));
  rn_ptrs : forall e, e ∈ drop i es -> ptrs_ok v (ukey e.1) (level_ptrs_ (compaction s));
  rn_state : ks = state_at i;
  rn_written : written false (keeps (take i es)) s db w }.

Lemma running_kept i s ks db db' w w' n : db_kept db db' w w' n -> mem_ready (length es - i) db' -> running i s ks db w -> running i s ks db' w'.
Proof.
  intros Hk Hs [A1 A2 A3 A4 A5 A6 A7 A8 A9]. split; try done; [by eapply db_ready_kept|by eapply written_kept].
Qed.

Lemma later_key i e e' : es !! i = Some e -> e' ∈ drop (S i) es -> internal_lt e.1 e'.1.
Proof.
  intros He He'. rewrite <- (take_drop (S i) es) in Hsorted. eapply sorted_entries_app; [exact Hsorted| |exact He'].
  apply list_elem_of_lookup. exists i. by rewrite lookup_take_lt by lia.
Qed.

Lemma kept_before i e e' : es !! i = Some e -> list.last (keeps (take i es)) = Some e' -> internal_lt e'.1 e.1.
Proof.
  intros He He'. assert (e' ∈ take i es) as [j Hj]%list_elem_of_lookup.
  { eapply elem_of_sublist; [|apply kept_sublist]. apply list.last_Some in He' as [l ->]. apply elem_of_app. right. left. }
  apply lookup_take_Some in Hj as [Hj Hji]. apply (later_key j); [done|]. apply list_elem_of_lookup. exists (i - S j)%nat.
  rewrite lookup_drop. by replace (S j + (i - S j))%nat with i by lia.
Qed.

Lemma keeps_snoc i e : es !! i = Some e ->
  keeps (take (S i) es) = keeps (take i es) ++ (if (drop_spec snapshot (is_base_level v level) e.1 (state_at i)).1 then [] else [e]) /\
  state_at (S i) = (drop_spec snapshot (is_base_level v level) e.1 (state_at i)).2.
Proof.
  intros He. rewrite (take_S_r _ _ _ He), kept_app, state_after_app. cbn [kept state_after].
  by destruct (drop_spec _ _ _ _) as [[] ks].
Qed.

Lemma drop_next i e : es !! i = Some e -> drop i es = e :: drop (S i) es.
Proof. intros He. by apply drop_S. Qed.

Lemma running_next i e s c ptrs db w : es !! i = Some e -> db_ready db -> mem_ready (length es - S i) db -> smallest_snapshot s = snapshot ->
  compaction s = with_level_ptrs ptrs c -> input_version_ c = Some v -> level_ c = level ->
  Forall (fun f : file => valid_file f) (grandparents_ c) -> ptrs_ok v (ukey e.1) ptrs ->
  written false (keeps (take i es) ++ (if (drop_spec snapshot (is_base_level v level) e.1 (state_at i)).1 then [] else [e])) s db w ->
  running (S i) s (drop_spec snapshot (is_base_level v level) e.1 (state_at i)).2 db w.
Proof.
  intros He Hready Hs Hsnap Hc Hversion Hl Hg Hp Hw. destruct (keeps_snoc i e He) as [Ek Es].
  split; rewrite ?Hc; try done; [|by rewrite Ek].
  intros e' He'. cbn. apply ptrs_ok_later with (ukey e.1); [|done]. by eapply internal_lt_ukey, later_key.
Qed.

Lemma turn_ok i e s ks input db w : running i s ks db w -> es !! i = Some e -> at_ input (Some i) ->
  next_number db + (2 + k + k) < 2 ^ 64 ->
  exists st s' ks' input' db' w', compaction_turn s ks input db w = Some (st, s', ks', input', db', w') /\
    next_number db' <= next_number db + (2 + k + k) /\
    (st = Ok -> running (S i) s' ks' db' w' /\ at_ input' (position es (S i))).
Proof.
  intros Hr He Hat Hn. assert (length es - i = S (length es - S i))%nat as Hleft by (apply lookup_lt_Some in He; lia).
  destruct (prioritize_memtable_ok (length es - S i) db w) as (db1 & w1 & E1 & Hs1 & Hk1); [apply Hr|rewrite <- Hleft; apply Hr|lia|].
  pose proof (kp_next _ _ _ _ _ Hk1) as Hn1. destruct Hr as [A1 _ A3 A4 A5 A6 A7 A8 A9].
  apply (db_ready_kept _ _ _ _ _ Hk1) in A1. apply (written_kept _ _ _ _ _ _ _ _ Hk1) in A9. destruct e as [key value].
  destruct (at_entry _ _ _ Hinput input i key value Hat He) as [Hkey Hvalue].
  destruct (at_Next _ _ _ Hinput input i Hat) as (input' & Hnext & Hat').
  unfold compaction_turn. rewrite E1. cbn [mbind option_bind]. rewrite Hkey. cbn [mbind option_bind].
  destruct (ShouldStopBefore_ok key (versions_ db1) (compaction s) A6) as (stop & g & n & ->). cbn [mbind option_bind].
  set (c1 := with_progress g true n (compaction s)) in *.
  assert (exists st s2 w2, (if stop && builder_ (with_compaction c1 s) then FinishCompactionOutputFile (with_compaction c1 s) input w1
      else Some (Ok, with_compaction c1 s, w1)) = Some (st, s2, w2) /\ same_run (with_compaction c1 s) s2 /\
      (st = Ok -> written false (keeps (take i es)) s2 db1 w2)) as (st & s2 & w2 & E2 & [Ec2 Es2] & Hok2).
  { assert (written false (keeps (take i es)) (with_compaction c1 s) db1 w1) as Hw by (destruct A9; split; done).
    destruct stop, (builder_ (with_compaction c1 s)) eqn:Hb; cbn [andb]; try (eexists _, _, _; split; [done|]; by split).
    destruct (FinishCompactionOutputFile_ok _ _ input _ _ Hw Hb) as (st & s2 & w2 & E2 & Hr2 & Hok2).
    exists st, s2, w2. split; [exact E2|]. split; [done|]. intros Hst. by apply Hok2. }
  rewrite E2. cbn [mbind option_bind]. cbn in Ec2, Es2.
  case_bool_decide as Hst; [|eexists _, _, _, _, _, _; split; [done|]; split; [lia|done]]. specialize (Hok2 Hst). clear E2 Hst.
  pose proof (Forall_lookup_1 _ _ _ _ Hparses He) as [p Hp].
  destruct (drop_entry_ok snapshot v key p ks (compaction s2)) as (ptrs & Ed & Hptrs);
    [done|by rewrite Ec2|done|by rewrite Ec2; cbn; rewrite A5|rewrite Ec2; apply (A7 (key, value)); rewrite (drop_next i _ He); left|].
  rewrite Ec2 in Ed. replace (level_ c1) with level in Ed by (by cbn; rewrite A5). rewrite A8 in Ed.
  rewrite Es2, A3, Ec2, A8, Ed. cbn [mbind option_bind]. set (c3 := with_level_ptrs ptrs c1). set (s3 := with_compaction c3 s2).
  assert (exists st s4 db4 w4, (if (drop_spec snapshot (is_base_level v level) key (state_at i)).1 then Some (Ok, s3, db1, w2)
      else add_entry key s3 input db1 w2) = Some (st, s4, db4, w4) /\ same_run s3 s4 /\ mem_ready (length es - S i) db4 /\ db_ready db4 /\
      next_number db4 <= next_number db1 + 1 /\
      (st = Ok -> written false (keeps (take i es) ++
        (if (drop_spec snapshot (is_base_level v level) key (state_at i)).1 then [] else [(key, value)])) s4 db4 w4))
    as (st4 & s4 & db4 & w4 & E4 & [Ec4 Es4] & Hs4 & Hready4 & Hn4 & Hok4).
  { assert (written false (keeps (take i es)) s3 db1 w2) as Hw3 by (destruct Hok2; split; done).
    destruct (drop_spec _ _ _ _).1.
    - exists Ok, s3, db1, w2. rewrite app_nil_r. split_and!; try done. lia.
    - destruct (add_entry_ok (length es - S i) (keeps (take i es)) key value s3 input db1 w2) as (st4 & s4 & db4 & w4 & E4 & ? & ? & ? & Hn4 & ?);
        [done|done|lia|done|done|intros e' He'; exact (kept_before i _ e' He He')|].
      exists st4, s4, db4, w4. split_and!; try done. lia. }
  rewrite E4. cbn [mbind option_bind]. case_bool_decide as Hst4; [|eexists _, _, _, _, _, _; split; [done|]; split; [lia|done]].
  rewrite Hnext. cbn [mbind option_bind]. eexists _, _, _, _, _, _. split; [done|]. split; [lia|]. intros _. split; [|done].
  apply (running_next i (key, value) s4 c1 ptrs); try done; [by rewrite Es4; cbn; rewrite Es2|by apply Hok4].
Qed.

(** At the end every entry was read, unless the database is shutting down. *)
Lemma loop_ok fuel i s ks input db w : running i s ks db w -> at_ input (position es i) -> (i <= length es)%nat ->
  (length es - i <= fuel)%nat -> next_number db + (k + Z.of_nat fuel * (2 + k + k + k)) < 2 ^ 64 ->
  exists st s' input' db' w', compaction_loop fuel s ks input db w = Some (st, s', input', db', w') /\
    (st = Ok -> shutting_down_ db' = true \/ exists ks', running (length es) s' ks' db' w').
Proof.
  revert i s ks input db w. induction fuel as [|fuel IH]; intros i s ks input db w Hr Hat Hi Hfuel Hn; cbn [compaction_loop];
    pose proof threads_nonneg as Hk0; rewrite ?Nat2Z.inj_0, ?Z.mul_0_l, ?Nat2Z.inj_succ, ?Z.mul_succ_l in Hn;
    try (assert (0 <= Z.of_nat fuel * (2 + k + k + k)) as Hfk by (apply Z.mul_nonneg_nonneg; lia)); assert (next_number db + k < 2 ^ 64) as Hnk0 by lia; pose proof (unlocked_kept db w (Z.lt_le_incl _ _ (rd_next _ (rn_ready _ _ _ _ _ Hr))) Hnk0) as Hk;
    pose proof (running_kept _ _ _ _ _ _ _ _ Hk (unlocked_mem_ready _ _ (rn_mem _ _ _ _ _ Hr) Hnk0) Hr) as Hr'; pose proof (kp_next _ _ _ _ _ Hk) as Hnk;
    rewrite (at_Valid _ _ _ Hinput _ _ Hat);
    destruct (position_cases es i) as [[Hp Hlt]|[Hp Hge]]; rewrite Hp in *.
  - lia.
  - rewrite bool_decide_false by (by intros [? ?]). cbn [andb]. eexists _, _, _, _, _. split; [done|]. intros _. right.
    assert (i = length es) as -> by lia. by eexists.
  - rewrite bool_decide_true by done. cbn [andb]. destruct (shutting_down_ (unlocked db)) eqn:Hsd; cbn [negb].
    { eexists _, _, _, _, _. split; [done|]. intros _. by left. }
    destruct (lookup_lt_is_Some_2 es i Hlt) as [e He].
    destruct (turn_ok i e s ks input (unlocked db) w) as (st & s1 & ks1 & input1 & db1 & w1 & -> & Hn1 & Hok); [done..|lia|].
    cbn [mbind option_bind]. case_bool_decide as Hst; [|by eexists _, _, _, _, _]. destruct (Hok Hst) as [Hr1 Hat1].
    apply (IH (S i)); [done|done|lia|lia|lia].
  - rewrite bool_decide_false by (by intros [? ?]). cbn [andb]. eexists _, _, _, _, _. split; [done|]. intros _. right.
    assert (i = length es) as -> by lia. by eexists.
Qed.

(** The finished tables of a compaction of these entries. *)
Record compacted s db w (ts : list (list entry)) : Prop := {
  cp_builder : builder_ s = false /\ outfile_ s = false;
  cp_numbers : NoDup (out_number <$> outputs s) /\ Forall (fun o => out_number o ∈ pending_outputs_ db) (outputs s);
  cp_tables : Forall2 (finished w) (outputs s) ts;
  cp_contents : concat ts = keeps es }.

Lemma written_compacted s db w : written false (keeps es) s db w -> builder_ s = false -> exists ts, compacted s db w ts.
Proof.
  intros [A1 A2 A3 (os & ts & cur & E & Hf & Hb)] Hbuilder. rewrite Hbuilder in Hb. destruct Hb as (_ & -> & Hout).
  rewrite app_nil_r in E. exists ts. split; [by rewrite A3|split; [done|]|by rewrite E|done].
  eapply List.Forall_impl; [|exact A1]. by intros o [_ ?].
Qed.

Lemma write_outputs_ok s p input db w : running 0 s KeyState_new db w -> at_ input p ->
  next_number db + (k + Z.of_nat (length es) * (2 + k + k + k)) < 2 ^ 64 ->
  exists st s' db' w', write_outputs (length es) s input db w = Some (st, s', db', w') /\ (st = Ok -> exists ts, compacted s' db' w' ts).
Proof.
  intros Hr Hat Hn. destruct (at_SeekToFirst _ _ _ Hinput input p Hat) as (input0 & E0 & Hat0).
  destruct (loop_ok (length es) 0 s KeyState_new input0 db w) as (st1 & s1 & input1 & db1 & w1 & E1 & Hok); [done|done|lia|lia|done|].
  unfold write_outputs. rewrite E0. cbn [mbind option_bind]. rewrite E1. cbn [mbind option_bind].
  set (st2 := if bool_decide (st1 = Ok) && _ then deleting_db else st1).
  assert (st2 = Ok -> exists ks', running (length es) s1 ks' db1 w1) as Hok2.
  { unfold st2. destruct (bool_decide (st1 = Ok)) eqn:Hst1; [apply bool_decide_eq_true in Hst1|].
    - destruct (Hok Hst1) as [->|?]; cbn [andb]; done.
    - cbn [andb]. by apply bool_decide_eq_false in Hst1. }
  clearbody st2. destruct (bool_decide (st2 = Ok) && builder_ s1) eqn:Eb.
  - apply andb_true_iff in Eb as [[ks' Hr1]%bool_decide_eq_true%Hok2 Hb]. destruct Hr1 as [_ _ _ _ _ _ _ _ A9].
    destruct (FinishCompactionOutputFile_ok _ s1 input1 db1 w1 A9 Hb) as (st3 & s3 & w3 & -> & _ & Hok3).
    cbn [mbind option_bind]. eexists _, _, _, _. split; [done|]. case_bool_decide as Hst3; [|done]. intros _.
    destruct (Hok3 Hst3) as [Hw Hb3]. rewrite take_ge in Hw by lia. by apply written_compacted.
  - cbn [mbind option_bind]. eexists _, _, _, _. split; [done|]. case_bool_decide as Hst2; [|done]. intros _.
    destruct (Hok2 Hst2) as (ks' & [_ _ _ _ _ _ _ _ A9]). cbn [andb] in Eb. rewrite take_ge in A9 by lia. by apply written_compacted.
Qed.

(** C18 (refinement): from a state in which as many memtables can be compacted as the inputs
    have entries ([mem_ready]: the versions are sorted and counted, their files disjoint and their numbers in
    order), the tables of a compaction are written without a failed assertion, whichever operations of the
    disk fail. This
    includes every memtable that is compacted in between, with its edit of the versions,
    although the other threads take numbers, hold versions and fill memtables meanwhile. When the status is [Ok]
    the output tables are finished, distinct and protected from being deleted,
    their ranges are those recorded, and together they hold what the reference keeps of the
    inputs. No snapshot from the oldest one on sees a difference, whatever newer entries there
    are and whatever older ones in files of deeper levels. *)
Theorem compaction_keeps_views c input p db w : at_ input p -> input_version_ c = Some v -> level_ c = level ->
  level_ptrs_ c = replicate (Z.to_nat kNumLevels) 0%nat -> Forall (fun f : file => valid_file f) (grandparents_ c) ->
  db_ready db -> mem_ready (length es) db -> snapshot < kMaxSequenceNumber ->
  next_number db + (k + Z.of_nat (length es) * (2 + k + k + k)) < 2 ^ 64 ->
  exists st s db' w', write_outputs (length es) (with_snapshot snapshot (CompactionState_new c)) input db w = Some (st, s, db', w') /\
    (st = Ok -> exists ts, compacted s db' w' ts /\
      forall q above below u x, snapshot <= q ->
        (forall e ikey, e ∈ below -> ParseInternalKey e.1 = Some ikey -> ~ base_level v level (user_key ikey)) ->
        (u, x) ∈ view q (above ++ es ++ below) <-> (u, x) ∈ view q (above ++ concat ts ++ below)).
Proof.
  intros Hat Hversion Hl Hptrs Hg Hready Hs Hmax Hn.
  destruct (write_outputs_ok (with_snapshot snapshot (CompactionState_new c)) p input db w) as (st & s & db' & w' & E & Hok); [|done|done|].
  { split; try done.
    - by rewrite Nat.sub_0_r.
    - intros e _. cbn. rewrite Hptrs. split; [by rewrite length_replicate|]. intros l files i j f _ Hi _ Hij.
      apply lookup_replicate in Hi as [-> _]. lia.
    - split; cbn; [constructor|constructor|done|]. by exists [], [], []. }
  exists st, s, db', w'. split; [done|]. intros Hst. destruct (Hok Hst) as [ts Hc]. exists ts. split; [done|].
  intros q above below u x Hq Hbelow. rewrite (cp_contents _ _ _ _ Hc). apply kept_view; try done.
  intros e ikey He Hk. apply not_true_is_false. rewrite is_base_level_ok. by eapply Hbelow.
Qed.
End written.

(** ** A compaction on a small disk *)

Section demo.
#[local] Existing Instances by_bytes by_bytes_laws reference_coding reference_coding_laws reference_format
  reference_format_laws reference_icmp reference_icmp_laws.

(** The tables, and the one that is being built. *)
Record Disk := mkDisk { d_tables : gmap Z (list entry); d_building : list entry; d_open : Z; d_failed : bool }.

#[local] Instance disk_tables : TableEnv Disk := {
  OpenTable n w := (Ok, mkDisk (d_tables w) [] n false);
  builder_Add k v w := Some (mkDisk (d_tables w) (d_building w ++ [(k, v)]) (d_open w) (d_failed w));
  builder_NumEntries w := Z.of_nat (length (d_building w));
  builder_FileSize w := 20 * Z.of_nat (length (d_building w));
  builder_Finish w := if d_failed w then (IOError 1, w)
    else (Ok, mkDisk (<[d_open w := d_building w]> (d_tables w)) (d_building w) (d_open w) false);
  builder_Abandon w := mkDisk (d_tables w) [] (d_open w) true;
  outfile_Sync w := (Ok, w);
  outfile_Close w := (Ok, w);
  VerifyTable _ _ w := (Ok, w) }.

#[local] Instance disk_manifest : ManifestEnv Disk := {
  NewWritableFile _ w := (Ok, w); AddRecord _ w := (Ok, w); Sync w := (Ok, w); SetCurrentFile _ w := (Ok, w); DeleteFile _ w := w }.

#[local] Instance disk_directory : DirectoryEnv Disk := {
  GetChildren _ := []; ParseFileName _ := None; RemoveFile _ w := w; Evict _ w := w }.

(** A memtable holds one value of the key 3; its sequence is derived from the number of the table. *)
Definition memtable_key (n : Z) : list Z := ikey 3 (n mod 2 ^ 56).

#[local] Instance disk_memtable : MemTableEnv unit Disk := fun _ n w =>
  (Ok, FileMeta n 60 (memtable_key n) (memtable_key n),
   mkDisk (<[n := [(memtable_key n, [9])]]> (d_tables w)) (d_building w) (d_open w) (d_failed w)).

(** Whenever the mutex is released, another thread takes a file number for a new log
    and leaves a memtable to be compacted. *)
#[local] Instance disk_threads : Threads unit := {
  unlocked_versions p := ((NewFileNumber p.1).2, p.2);
  unlocked_rest db := set_mem tt (Some tt) true (Z.max (logfile_number_ db) (next_number db - 1)) db }.

#[local] Instance disk_options : ManifestOptions := { comparator_name := [98]; reuse_logs := true }.

#[local] Instance disk_laws : TableEnvLaws unit Disk.
Proof.
  unshelve econstructor; [exact (fun w n => d_tables w !! n)|exact d_building|exact d_open|exact d_failed|..].
  - by intros n w w' [= <-].
  - intros k v w _. eexists. split; [reflexivity|]. by split_and!.
  - done.
  - intros w w'. cbn. destruct (d_failed w); [done|]. intros [= <-]. split; [done|]. cbn.
    split; [by rewrite lookup_insert_eq|]. intros m Hm. by rewrite lookup_insert_ne.
  - by intros w w' [= <-].
  - by intros w w' [= <-].
  - by intros n size w w' [= <-].
  - intros mem n w. split; [|done]. intros m Hm. cbn. by rewrite lookup_insert_ne.
  - by repeat split.
  - done.
  - done.
Defined.

#[local] Instance disk_threads_laws : ThreadsLaws unit 1.
Proof.
  split; [|done|done|done]. intros s vs Hge Hs. cbn. rewrite wrap_small by (unfold is_u; lia). lia.
Defined.

#[local] Instance disk_threads_versions : ThreadsVersions unit.
Proof.
  split; [|intros db Hlog; cbn; lia]. intros s vs held extra Hn Hvs.
  exists held, (wrap 64 (vs_next_file_number_ s + 1)), (vs_last_sequence_ s), vs.
  unfold numbers_fit in Hn. rewrite !List.Forall_cons_iff in Hn. split; [by destruct s|]. split; [apply wrap_range; lia|].
  split; [apply Hn|]. by split.
Defined.

Lemma memtable_key_valid n : valid_key (memtable_key n).
Proof. apply valid_ikey. unfold kMaxSequenceNumber. pose proof (Z.mod_pos_bound n (2 ^ 56)). lia. Qed.

#[local] Instance disk_build_table : BuildTableLaws unit Disk.
Proof.
  intros mem n w meta w' Hn [= <- <-] _. pose proof (memtable_key_valid n) as Hk. split; [done|]. split.
  - split; [exact Hn|]. done.
  - split; [done|]. split; [done|]. apply internal_lt_irrefl.
Defined.

#[local] Instance demo_input : Iterator list_iter := list_Iterator internal_before.

(** The heap after the files of the version were allocated. *)
Definition compact_heap : FileHeap :=
  (new_file (FileMeta 40 100 (ikey 7 1) (ikey 7 1)) (mkHeap 40 (refs edited_heap) (allowed_seeks edited_heap))).2.

Definition disk_versions : Versions := default Versions_new (AppendVersion compact_version (with_heap compact_heap Versions_new)).

(** A compaction of level 1 with two snapshots and a memtable that has to be compacted. *)
Definition disk_db : Db unit := mkDb tt (Some tt) true 4 [10; 12] ∅ true None ∅ (with_sequence 13 (with_next_file 50 compact_vset))
  disk_versions Ok false (replicate 7 CompactionStats_new).

Definition demo_compaction : Compaction := with_version (Some compact_version) (Compaction_new compact_vset 1).

Definition deletion (u s : Z) : list Z := AppendInternalKey [] (ParsedKey [u] s kTypeDeletion).

(** The key 5 has a newer value for the second snapshot; the keys 6 and 7 were deleted,
    and the latter is also in a file of level 3. *)
Definition demo_inputs : list entry :=
  [(ikey 5 11, [1]); (ikey 5 9, [2]); (ikey 5 4, [3]); (deletion 6 3, []); (ikey 6 2, [4]); (deletion 7 2, [])].

Definition demo_run : option (Status * CompactionState * Db unit * Disk) :=
  write_outputs (length demo_inputs) (with_snapshot 10 (CompactionState_new demo_compaction)) (ListIter demo_inputs None)
    disk_db (mkDisk ∅ [] 0 false).

(** The output is the table 54. Six memtables were compacted while it was written: the first one
    into level 2, the next one into level 1 and the others, which overlap it, into level 0. *)
Definition run_result (r : Status * CompactionState * Db unit * Disk) : Status * list Z * option (list entry) * list (list Z) :=
  let '(st, s, db, w) := r in
  (st, map out_number (outputs s), d_tables w !! 54, map (map (fun f : file => number f)) (files_ (current_ (versions_ db)))).

Example demo_run_tables : run_result <$> demo_run =
  Some (Ok, [54], Some [(ikey 5 11, [1]); (ikey 5 9, [2]); (deletion 7 2, [])], [[72; 68; 64; 60]; [7; 56; 8; 9]; [51]; [40]; []; []; []]).
Proof. vm_compute. reflexivity. Qed.

Lemma demo_inputs_sorted : sorted_entries demo_inputs /\ Forall parses demo_inputs.
Proof.
  split; [repeat first [apply SSorted_nil|apply SSorted_cons|apply List.Forall_nil|apply List.Forall_cons]; by_compute|].
  repeat apply List.Forall_cons; [..|apply List.Forall_nil]; by eexists.
Qed.

Lemma compact_heap_ok : heap_ok compact_heap (file_addresses compact_version ++ []).
Proof.
  assert (heap_ok (mkHeap 40 (refs edited_heap) (allowed_seeks edited_heap)) (file_addresses edited_version ++ [])) as Hmoved.
  { destruct edited_heap_ok as [Hr Hs Hn]. split; [exact Hr|exact Hs|]. intros a Ha. pose proof (Hn a Ha) as Hlt.
    assert (next_address edited_heap = 10)%positive as E by reflexivity. rewrite E in Hlt. cbn. lia. }
  pose proof (new_file_ok (FileMeta 40 100 (ikey 7 1) (ikey 7 1)) _ _ Hmoved) as (_ & _ & _ & Hnew & _).
  eapply heap_ok_perm; [|exact Hnew]. by_compute.
Qed.

(** Six memtables can be compacted. *)
Lemma disk_ready : mem_ready 6 disk_db.
Proof.
  exists []. destruct (AppendVersion_ok compact_version [] [] (with_heap compact_heap Versions_new)) as (vs & E & Hvs & Hc & Hl & _).
  { split; unfold holders; cbn; try done.
    - exact compact_heap_ok.
    - intros id. split; [by intros []|by intros ?%elem_of_nil].
    - intros id ?%elem_of_nil. done. }
  assert (disk_versions = vs) as Evs by (unfold disk_versions; by rewrite E).
  assert (forall P : nat -> list file -> Prop, P 0%nat [] -> P 1%nat demo_level -> P 2%nat [] -> P 3%nat [demo_file 40 100 7 1 7 1] ->
    (forall i, P i []) -> forall i files, files_ compact_version !! i = Some files -> P i files) as Hlevels.
  { intros P P0 P1 P2 P3 Pnil i files Hi. do 4 (destruct i as [|i]; [by injection Hi as <-|]).
    assert (files = []) as -> by (apply (elem_of_replicate_inv _ 3), (list_elem_of_lookup_2 _ i); exact Hi). apply Pnil. }
  split; [split| | |done].
  - split; [done|]. apply Hlevels.
    + by split; [apply SSorted_nil|apply List.Forall_nil].
    + apply edited_sorted with (i := 1%nat). done.
    + by split; [apply SSorted_nil|apply List.Forall_nil].
    + split; [repeat first [apply SSorted_nil|apply SSorted_cons|apply List.Forall_nil]|].
      apply List.Forall_cons; [|by apply List.Forall_nil]. apply demo_file_valid; by_compute.
    + intros i. by split; [apply SSorted_nil|apply List.Forall_nil].
  - split; [done|done| |by split; [|repeat apply List.Forall_cons; try apply List.Forall_nil]].
    intros i files Hi. revert i files Hi. apply Hlevels; try (intros; apply List.Forall_nil).
    + repeat apply List.Forall_cons; try apply List.Forall_nil; by repeat split.
    + apply List.Forall_cons; [by repeat split|apply List.Forall_nil].
  - repeat apply List.Forall_cons; try apply List.Forall_nil; by_compute.
  - rewrite <- Evs in Hvs. exact Hvs.
  - exists 1%positive. unfold disk_db. cbn [version_list_ versions_]. rewrite Evs, Hc. split; [done|]. exact Hl.
  - split; [exact compact_levels_ok|]. apply Hlevels; try (intros; split; [by apply NoDup_nil_2|]; split; [done|by intros f ?%elem_of_nil]).
    + split; [by_compute|]. split; [done|]. apply list.Forall_forall. by_compute.
    + split; [by_compute|]. split; [done|]. apply list.Forall_forall. by_compute.
  - by_compute.
Qed.

Lemma compaction_keeps_views_witness : exists s db' w' ts,
  write_outputs (length demo_inputs) (with_snapshot 10 (CompactionState_new demo_compaction)) (ListIter demo_inputs None)
    disk_db (mkDisk ∅ [] 0 false) = Some (Ok, s, db', w') /\
  compacted demo_inputs compact_version 1 10 s db' w' ts /\
  (map (map (fun f : file => number f)) (files_ (current_ (versions_ db'))) = [[72; 68; 64; 60]; [7; 56; 8; 9]; [51]; [40]; []; []; []]) /\
  forall q above below u x, 10 <= q ->
    (forall e k, e ∈ below -> ParseInternalKey e.1 = Some k -> ~ base_level compact_version 1 (user_key k)) ->
    (u, x) ∈ view q (above ++ demo_inputs ++ below) <-> (u, x) ∈ view q (above ++ concat ts ++ below).
Proof.
  destruct (compaction_keeps_views (k := 1) demo_inputs (li_at demo_inputs) (list_iter_laws internal_before demo_inputs)
    (proj1 demo_inputs_sorted) (proj2 demo_inputs_sorted) compact_version 1 10 compact_levels_ok ltac:(vm_compute; lia)
    demo_compaction (ListIter demo_inputs None) None disk_db (mkDisk ∅ [] 0 false)) as (st & s & db & w & E & Hok);
    [by split|done|done|done|by apply List.Forall_nil|by split|exact disk_ready|by_compute|by_compute|].
  change (list_Iterator internal_before) with demo_input in E.
  pose proof demo_run_tables as Hr. unfold demo_run in Hr. rewrite E in Hr. apply (inj Some) in Hr.
  pose proof (f_equal (fun r => r.1.1.1) Hr) as Hst. pose proof (f_equal snd Hr) as Hlevels. clear Hr. cbn [run_result fst snd] in Hst, Hlevels.
  destruct (Hok Hst) as (ts & Hts & Hview). exists s, db, w, ts. rewrite <- Hst. exact (conj E (conj Hts (conj Hlevels Hview))).
Defined.
End demo.
