(* ===== verification/CompactionRace.v ===== *)
(** * A memtable that is written during a manual compaction

    [CompactRange] takes files that have gaps between them. A memtable whose keys lie in
    a gap overlaps none of them, so that [PickLevelForMemTableOutput] can put its table
    at the level that the compaction writes to, where the ranges of the outputs cover the gap. *)

From Stdlib Require Import String.
From stdpp Require Import base list gmap.
From S2P Require Import Prelude LogReader Doubles Cursor Coding DbFormat VersionEdit VersionFiles VersionState Builder BuilderSave VersionRefs.
From S2P Require Import Compaction Manifest DbState CompactionWork CompactionSpec.

#[local] Open Scope Z_scope.

Section demo.
#[local] Existing Instances by_bytes reference_coding reference_format reference_icmp disk_tables disk_directory disk_manifest disk_options demo_input.

#[local] Instance quiet_threads : Threads unit := { unlocked_versions p := p; unlocked_rest db := db }.

(** The memtables hold the key 3. *)
#[local] Instance busy_memtable : MemTableEnv unit Disk := fun _ n w => (Ok, FileMeta n 60 (ikey 3 20) (ikey 3 20), w).

(** The files 1..2, 4..5 and 5..8 are at level 1; the next file has the number 10. *)
Definition busy_db (imm : option unit) : option (Db unit) :=
  vs ← AppendVersion edited_version (with_heap edited_heap Versions_new);
  Some (mkDb tt imm (bool_decide (is_Some imm)) 4 [] ∅ true None ∅
    (with_sequence 13 (with_next_file 10 (with_current edited_version (VersionSet_new 1000)))) vs Ok false (replicate 7 CompactionStats_new)).

Definition busy_inputs : list entry :=
  [(ikey 1 10, []); (ikey 2 11, []); (ikey 4 12, []); (ikey 5 13, []); (ikey 5 3, []); (ikey 8 4, [])].

(** A manual compaction of the whole level: what it wrote, with the tables of the version
    at the end, and the same after the results were installed. *)
Definition table_numbers (db : Db unit) : list (list Z) := map (map (fun f : file => number f)) (files_ (current_ (versions_ db))).

Definition busy_start (imm : option unit) : option (Compaction * Db unit) :=
  db ← busy_db imm; '(c, s) ← CompactRange 1 None None (versions_ db); c ← c; Some (c, set_versions s (version_list_ db) db).

Definition busy_outputs (imm : option unit) : option (Status * list (Z * list Z * list Z) * list (list Z)) :=
  '(c, db) ← busy_start imm;
  '(st, s, db, _) ← write_outputs 6 (with_snapshot 13 (CompactionState_new c)) (ListIter busy_inputs None) db (mkDisk ∅ [] 0 false);
  Some (st, map (fun o => (out_number o, out_smallest o, out_largest o)) (outputs s), table_numbers db).

Definition busy_run (imm : option unit) : option (Status * list (list Z)) :=
  '(c, db) ← busy_start imm; '(st, _, db, _) ← DoCompactionWork 6 (CompactionState_new c) (ListIter busy_inputs None) db (mkDisk ∅ [] 0 false);
  Some (st, table_numbers db).

Example busy_run_alone : busy_run None = Some (Ok, [[]; []; [10]; []; []; []; []]).
Proof. vm_compute. reflexivity. Qed.

(** With a memtable to compact, its table 10 of the key 3 goes to level 2, and the edit of the
    compaction, with the keys from 1 to 8 in the table 11 of the same level, cannot be applied:
    an assertion fails. *)
Example memtable_into_gap :
  busy_outputs (Some tt) = Some (Ok, [(11, ikey 1 10, ikey 8 4)], [[]; [7; 8; 9]; [10]; []; []; []; []]) /\
  busy_run (Some tt) = None.
Proof. split; vm_compute; reflexivity. Qed.
End demo.

(** ** An output file that cannot be created *)

Section unwritable.
#[local] Existing Instances by_bytes reference_coding reference_format reference_icmp disk_directory disk_manifest disk_memtable
  disk_threads disk_options demo_input.

#[local] Instance full_disk : TableEnv Disk := {
  OpenTable n w := (IOError 28, w);
  builder_Add := @builder_Add _ disk_tables; builder_NumEntries := @builder_NumEntries _ disk_tables;
  builder_FileSize := @builder_FileSize _ disk_tables; builder_Finish := @builder_Finish _ disk_tables;
  builder_Abandon := @builder_Abandon _ disk_tables; outfile_Sync := @outfile_Sync _ disk_tables;
  outfile_Close := @outfile_Close _ disk_tables; VerifyTable := @VerifyTable _ disk_tables }.

(** The output is recorded before its file is opened, and its size, which nothing has
    set, is added to the statistics. *)
Example unset_size_in_stats :
  ('(st, s, _, _) ← write_outputs (length demo_inputs) (with_snapshot 10 (CompactionState_new demo_compaction)) (ListIter demo_inputs None)
      disk_db (mkDisk ∅ [] 0 false);
   Some (st, map out_file_size (outputs s), bytes_written (compaction_stats s))) = Some (IOError 28, [None], None).
Proof. vm_compute. reflexivity. Qed.
End unwritable.
