(* ===== verification/DbBackground.v ===== *)
(** * Background work ([leveldb-library/db/db_impl.cc])

    What the background thread does, when it is scheduled, and which files are deleted. *)

From Stdlib Require Import String.
From stdpp Require Import base list gmap.
From S2P Require Import Prelude LogReader Doubles Cursor Coding DbFormat VersionEdit VersionFiles VersionState Builder VersionRefs.
From S2P Require Import Compaction Manifest DbState CompactionWork.

#[local] Open Scope Z_scope.

(** The merged iterator over the inputs of a compaction. *)
Class InputIterators (I W : Type) := MakeInputIterator : Compaction -> W -> I.

Section background.
Context `{Comparator} `{Coding} `{!InternalKeyFormat, !InternalComparator} `{!ManifestOptions}.
Context {M W : Type} `{!ManifestEnv W} `{!DirectoryEnv W} `{!MemTableEnv M W} `{!Threads M} `{!TableEnv W}.
Context {I : Type} `{!Iterator I} `{!InputIterators I W}.
Implicit Types (db : Db M) (w : W) (m : ManualCompaction).

(** ** Scheduling *)

(** Whether there is work for the background thread. *)
Definition work_to_do db : bool :=
  bool_decide (is_Some (imm_ db)) || bool_decide (is_Some (manual_compaction_ db)) || NeedsCompaction (versions_ db).

(** The state, and whether [BGWork] was handed to the environment. *)
Definition MaybeScheduleCompaction db : Db M * bool :=
  if background_compaction_scheduled_ db then (db, false)
  else if shutting_down_ db then (db, false)
  else if negb (bool_decide (bg_error_ db = Ok)) then (db, false)
  else if negb (work_to_do db) then (db, false)
  else (set_scheduled true db, true).

(** ** Manual compactions *)

Definition with_done b m : ManualCompaction := mkManual (mc_level m) b (mc_begin m) (mc_end m).
Definition with_begin k m : ManualCompaction := mkManual (mc_level m) (mc_done m) (Some k) (mc_end m).

Definition change_manual (f : ManualCompaction -> ManualCompaction) db : option (Db M) :=
  a ← manual_compaction_ db; m ← manuals_ db !! a; Some (set_manual (Some a) (<[a := f m]> (manuals_ db)) db).

(** [TEST_CompactRange]: the variable is made at the address [a]; the loop is left when the
    compaction is done or there was an error, and otherwise a turn starts it or waits; the pointer is
    taken back and the variable is gone. *)
Definition manual_start (a : positive) (level : nat) (begin end_ : option (list Z)) db : Db M :=
  let b := (fun u => AppendInternalKey [] (ParsedKey u kMaxSequenceNumber kValueTypeForSeek)) <$> begin in
  let e := (fun u => AppendInternalKey [] (ParsedKey u 0 kTypeDeletion)) <$> end_ in
  set_manual (manual_compaction_ db) (<[a := mkManual level false b e]> (manuals_ db)) db.

Definition manual_waits (a : positive) db : option bool :=
  m ← manuals_ db !! a; Some (negb (mc_done m) && negb (shutting_down_ db) && bool_decide (bg_error_ db = Ok)).

Definition manual_turn (a : positive) db : Db M * bool :=
  match manual_compaction_ db with
  | None => MaybeScheduleCompaction (set_manual (Some a) (manuals_ db) db)
  | Some _ => (db, false)
  end.

Definition manual_finish (a : positive) db : Db M :=
  set_manual (if bool_decide (manual_compaction_ db = Some a) then None else manual_compaction_ db) (delete a (manuals_ db)) db.

(** ** The work *)

(** The compaction of the inputs that were asked for or picked, with the largest key of
    a manual one. *)
Definition choose_compaction db : option (option Compaction * list Z * Db M) :=
  match manual_compaction_ db with
  | Some a =>
      m ← manuals_ db !! a;
      '(c, s) ← CompactRange (mc_level m) (mc_begin m) (mc_end m) (versions_ db);
      db ← change_manual (with_done (bool_decide (c = None))) (set_versions s (version_list_ db) db);
      match c with
      | Some c => f ← list.last (inputs_0 c); Some (Some c, largest (meta f), db)
      | None => Some (None, [], db)
      end
  | None => '(c, s) ← PickCompaction (versions_ db); Some (c, [], set_versions s (version_list_ db) db)
  end.

(** The only input file is moved to the next level. *)
Definition move_file (c : Compaction) db w : option (Status * Db M * W) :=
  _ ← assert_ (length (inputs_0 c) =? 1)%nat; f ← meta <$> list.head (inputs_0 c);
  let level := Z.of_nat (level_ c) in
  let e := add_new_file (level + 1, FileMeta (number f) (file_size f) (smallest f) (largest f)) (add_deleted_file (level, number f) (edit_ c)) in
  '(st, db, w) ← apply_to_versions e db w;
  Some (st, if bool_decide (st = Ok) then db else RecordBackgroundError st db, w).

Definition run_compaction (fuel : nat) (c : Compaction) db w : option (Status * Db M * W) :=
  '(st, s, db, w) ← DoCompactionWork fuel (CompactionState_new c) (MakeInputIterator c w) db w;
  let db := if bool_decide (st = Ok) then db else RecordBackgroundError st db in
  '(db, w) ← CleanupCompaction s db w;
  Some (st, db, w).

(** [manual_compaction_] is read again at the end. *)
Definition BackgroundCompaction (fuel : nat) db w : option (Db M * W) :=
  if bool_decide (is_Some (imm_ db)) then CompactMemTable db w
  else
    let is_manual := bool_decide (is_Some (manual_compaction_ db)) in
    id ← current_id (version_list_ db);
    '(c, manual_end, db) ← choose_compaction db;
    '(st, db, w) ← match c with
      | None => Some (Ok, db, w)
      | Some c =>
          db ← change_refs (Version_Ref id) db;
          if negb is_manual && IsTrivialMove c (versions_ db) then
            '(st, db, w) ← move_file c db w; db ← change_refs (Version_Unref id) db; Some (st, db, w)
          else
            '(st, db, w) ← run_compaction fuel c db w; db ← change_refs (Version_Unref id) db; Some (st, db, DeleteObsoleteFiles db w)
      end;
    if is_manual then
      db ← (if bool_decide (st = Ok) then Some db else change_manual (with_done true) db);
      db ← change_manual (fun m => if mc_done m then m else with_begin manual_end m) db;
      Some (set_manual None (manuals_ db) db, w)
    else Some (db, w).

(** The end of the work, after which [background_work_finished_signal_] is signalled: more
    work may be scheduled. *)
Definition BackgroundCall_end db : Db M * bool := MaybeScheduleCompaction (set_scheduled false db).

(** The state at the end, and whether more work was scheduled. *)
Definition BackgroundCall (fuel : nat) db w : option (Db M * bool * W) :=
  _ ← assert_ (background_compaction_scheduled_ db);
  '(db, w) ← (if shutting_down_ db || negb (bool_decide (bg_error_ db = Ok)) then Some (db, w)
              else BackgroundCompaction fuel db w);
  let '(db, scheduled) := BackgroundCall_end db in
  Some (db, scheduled, w).
End background.
