(* ===== verification/DbFiles.v ===== *)
(** * Which files are deleted ([leveldb-library/db/db_impl.cc])

    [DeleteObsoleteFiles] deletes exactly the files of the directory that neither a live
    version, nor work in progress, nor recovery needs. The last section shows a manual
    compaction that loses its variable. *)

From Stdlib Require Import String.
From stdpp Require Import base list gmap.
From S2P Require Import Prelude LogReader Doubles Cursor Coding DbFormat VersionEdit VersionFiles VersionState Builder BuilderSave VersionRefs.
From S2P Require Import Compaction Manifest DbState CompactionWork CompactionSpec DbBackground CompactionRace.

#[local] Open Scope Z_scope.

(** ** The directory *)

Class DirectoryLaws (W : Type) `{!DirectoryEnv W} : Prop := {
  RemoveFile_children name w name' : name' ∈ GetChildren (RemoveFile name w) <-> name' ∈ GetChildren w /\ name' <> name;
  Evict_children n w : GetChildren (Evict n w) = GetChildren w }.

Section files.
Context {M W : Type} `{!DirectoryEnv W} `{!DirectoryLaws W}.
Implicit Types (db : Db M) (w : W) (live : gset Z).

(** Files that are needed: the tables of live versions and those that are being written,
    the current manifest and newer ones, the logs that recovery replays, and whatever has another name. *)
Definition live_table (vs : Versions) (n : Z) : Prop :=
  exists id levels (f : file), VersionRefs.live vs !! id = Some levels /\ f ∈ mjoin levels /\ number f = n.

Definition needed db (name : list Z) : Prop :=
  match ParseFileName name with
  | Some (n, kTableFile) | Some (n, kTempFile) => n ∈ pending_outputs_ db \/ live_table (version_list_ db) n
  | Some (n, kLogFile) => vs_log_number_ (versions_ db) <= n \/ n = vs_prev_log_number_ (versions_ db)
  | Some (n, kDescriptorFile) => manifest_file_number_ (versions_ db) <= n
  | Some (_, kCurrentFile) | Some (_, kDBLockFile) | Some (_, kInfoLogFile) | None => True
  end.

Lemma keep_file_needed db name n t : ParseFileName name = Some (n, t) ->
  keep_file (AddLiveFiles (version_list_ db) (pending_outputs_ db)) n t db = true <-> needed db name.
Proof.
  intros E. unfold needed. rewrite E. destruct t; cbn [keep_file]; try done.
  - by rewrite orb_true_iff, Z.leb_le, Z.eqb_eq.
  - rewrite bool_decide_eq_true. apply elem_of_AddLiveFiles.
  - by rewrite Z.leb_le.
  - rewrite bool_decide_eq_true. apply elem_of_AddLiveFiles.
Qed.

Lemma delete_files_children db names w name : let live := AddLiveFiles (version_list_ db) (pending_outputs_ db) in
  name ∈ GetChildren (delete_files live names db w) <-> name ∈ GetChildren w /\ (name ∈ names -> needed db name).
Proof.
  cbn zeta. revert w. induction names as [|x names IH]; intros w; cbn [delete_files].
  { split; [by intros ?; split; [|intros ?%elem_of_nil]|by intros [? _]]. }
  assert (forall w, needed db x -> name ∈ GetChildren w /\ (name ∈ names -> needed db name) <->
    name ∈ GetChildren w /\ (name ∈ x :: names -> needed db name)) as Hkeep.
  { intros w0 Hx. rewrite elem_of_cons. naive_solver. }
  destruct (ParseFileName x) as [[n t]|] eqn:E.
  - destruct (keep_file _ n t db) eqn:Ek; [rewrite IH; by apply Hkeep, (keep_file_needed _ _ n t E)|].
    rewrite IH, RemoveFile_children.
    assert (GetChildren (if bool_decide (t = kTableFile) then Evict n w else w) = GetChildren w) as -> by (case_bool_decide; [apply Evict_children|done]).
    assert (~ needed db x) as Hx by (intros Hx; by apply (keep_file_needed _ _ n t E) in Hx; rewrite Hx in Ek).
    rewrite elem_of_cons. destruct (decide (name = x)) as [->|]; naive_solver.
  - rewrite IH. apply Hkeep. unfold needed. by rewrite E.
Qed.

(** C28 (safety): after a background error nothing is deleted; otherwise exactly the files that
    nothing needs are: every table of a live version, every output that is being written,
    the current manifest, the logs of the current state and everything that is
    not a file of the database stays, and nothing else does. *)
Theorem obsolete_files_exact db w name : name ∈ GetChildren (DeleteObsoleteFiles db w) <->
  name ∈ GetChildren w /\ (bg_error_ db = Ok -> needed db name).
Proof.
  unfold DeleteObsoleteFiles. case_bool_decide as Hok; [|naive_solver]. rewrite delete_files_children. naive_solver.
Qed.
End files.

(** ** A directory *)

Section directory.
#[local] Existing Instances by_bytes reference_coding reference_format reference_icmp.

Definition type_of_code (t : Z) : option FileType :=
  match t with 0 => Some kLogFile | 1 => Some kTableFile | 2 => Some kDescriptorFile | 3 => Some kCurrentFile | _ => None end.

(** The names are a number and a code of the type. *)
#[local] Instance name_directory : DirectoryEnv (list (list Z)) := {
  GetChildren w := w;
  ParseFileName name := match name with [n; t] => t ← type_of_code t; Some (n, t) | _ => None end;
  RemoveFile name w := filter (fun x => x <> name) w;
  Evict _ w := w }.

#[local] Instance name_directory_laws : DirectoryLaws (list (list Z)).
Proof. split; [|done]. intros name w name'. cbn. rewrite list_elem_of_filter. tauto. Defined.

(** Table 7 is live, 8 is being written; the log is 4 and the manifest 3. *)
Definition directory_db : Db unit := mkDb tt None false 4 [] {[8]} false None ∅
  (with_logs 4 0 (with_manifest 3 (VersionSet_new 1000)))
  (mkVersions (mkHeap 1 ∅ ∅) {[1%positive := [[demo_file 7 100 1 10 2 11]]]} {[1%positive := 1]} (Some 1%positive) 2) Ok false [].

Definition directory : list (list Z) := [[7; 1]; [8; 1]; [6; 1]; [3; 0]; [4; 0]; [2; 2]; [3; 2]; [0; 3]; [9; 9]].

Example directory_left : DeleteObsoleteFiles directory_db directory = [[7; 1]; [8; 1]; [4; 0]; [3; 2]; [0; 3]; [9; 9]].
Proof. vm_compute. reflexivity. Qed.

Lemma obsolete_files_exact_witness : [7; 1] ∈ GetChildren (DeleteObsoleteFiles directory_db directory) <->
  [7; 1] ∈ directory /\ (bg_error_ directory_db = Ok -> needed directory_db [7; 1]).
Proof. exact (obsolete_files_exact directory_db directory [7; 1]). Defined.
End directory.

(** ** A manual compaction that is given up *)

Section manual.
#[local] Existing Instances by_bytes reference_coding reference_format reference_icmp disk_tables disk_directory disk_options demo_input
  disk_manifest.

(** A memtable cannot be written. *)
#[local] Instance full_memtable : MemTableEnv unit Disk := fun _ _ w => (IOError 1, FileMeta 0 0 [] [], w).

#[local] Instance manual_inputs : InputIterators list_iter Disk := fun _ _ => ListIter busy_inputs None.

(** The other threads fill a memtable, and once there is an error the thread that asked
    for the compaction gives up, if [gives_up]. *)
#[local] Instance manual_threads (gives_up : bool) : Threads unit := {
  unlocked_versions p := p;
  unlocked_rest db := if bool_decide (bg_error_ db = Ok) then set_mem tt (Some tt) true (logfile_number_ db) db
                      else if gives_up then manual_finish 1 db else db }.

Definition manual_run (gives_up : bool) : option (Status * option positive) :=
  let H := manual_threads gives_up in
  db ← busy_db None; let '(db, scheduled) := manual_turn 1 (manual_start 1 1 None None (set_scheduled false db)) in
  _ ← assert_ scheduled;
  '(db, _, _) ← BackgroundCall 6 db (mkDisk ∅ [] 0 false); Some (bg_error_ db, manual_compaction_ db).

(** The memtable cannot be written. Were the thread still waiting, the error would be recorded;
    as it is gone, the background thread follows a null pointer. *)
Example manual_given_up : manual_run false = Some (IOError 1, None) /\ manual_run true = None.
Proof. split; vm_compute; reflexivity. Qed.
End manual.
