(* ===== verification/DbWrite.v ===== *)
(** * Writing ([leveldb-library/db/db_impl.cc])

    Writers queue up; the one at the front writes its batch together with those behind it,
    and the mutex is released while it makes room and while it writes. Every section of
    [DBImpl::Write] that runs under the mutex is a step of a thread; in the unlocked
    one adding the record, the sync and every turn of the insertion into the memtable are
    steps of their own. Writers, wakeups and the rest of the database interleave in
    any order. Write batches
    ([db/write_batch.cc]), memtables and the log writer are not part of the repository and
    are parameters. *)

From Stdlib Require Import String.
From stdpp Require Import base list gmap.
From S2P Require Import Prelude Doubles Cursor Coding DbFormat VersionEdit VersionFiles VersionState Builder VersionRefs.
From S2P Require Import Compaction Manifest DbState DbBackground.

#[local] Open Scope Z_scope.

(** ** The environment *)

(** Batches and memtables. *)
Class Batches (B M : Type) := {
  batch_Clear : B;                              (* an empty batch *)
  batch_Count : B -> Z;
  batch_ByteSize : B -> Z;
  batch_Append : B -> B -> B;
  batch_SetSequence : Z -> B -> B;
  batch_Contents : B -> list Z;
  InsertInto : B -> M -> Status * M;
  InsertInto_turn : B -> nat -> M -> option Status * M;      (* the turn of its loop after so many operations; the status ends it *)
  MemTable_new : M;
  ApproximateMemoryUsage : M -> Z }.

(** The log file; a new one replaces it only if it was created. *)
Class LogFile (W : Type) := {
  log_AddRecord : list Z -> W -> Status * W;
  logfile_Sync : W -> Status * W;
  new_log_file : Z -> W -> Status * W }.

Class WriteOptions := write_buffer_size : Z.

Definition kL0_SlowdownWritesTrigger : Z := 8.
Definition kL0_StopWritesTrigger : Z := 12.

(** ** State *)

(** [DBImpl::Writer]; [awake] tells whether its thread does not wait for [cv], or was signalled. *)
Record Writer (B : Type) := mkWriter { w_batch : option B; w_sync : bool; w_done : bool; w_status : Status; awake : bool }.
Arguments mkWriter {B}.
Arguments w_batch {B}.
Arguments w_sync {B}.
Arguments w_done {B}.
Arguments w_status {B}.
Arguments awake {B}.

(** Where the thread of the front writer is. While it makes room it sleeps for a
    millisecond, or waits for [background_work_finished_signal_], which may have been
    signalled; it is about to write the record of the group up to [last], about to sync it,
    has inserted so many operations, or is done with that. *)
Inductive Leading (B : Type) :=
  | Delaying (force : bool)
  | Waiting (force allow_delay signalled : bool)
  | Logging (updates : B) (temporary : bool) (last : positive) (last_sequence : Z)
  | Syncing (updates : B) (temporary : bool) (last : positive) (last_sequence : Z)
  | Inserting (updates : B) (temporary : bool) (last : positive) (last_sequence : Z) (inserted : nat)
  | Logged (status : Status) (sync_error : bool) (updates : B) (temporary : bool) (last : positive) (last_sequence : Z).
Arguments Delaying {B}.
Arguments Waiting {B}.
Arguments Logging {B}.
Arguments Syncing {B}.
Arguments Inserting {B}.
Arguments Logged {B}.

(** A group of writers that is done, with the batch if one was to be written. *)
Record Group (B : Type) := mkGroup { g_members : list positive; g_status : Status; g_updates : option B }.
Arguments mkGroup {B}.
Arguments g_members {B}.
Arguments g_status {B}.
Arguments g_updates {B}.

(** The history, for the statements: the calls with their batches and whether they sync, in
    the order in which they were made; the groups, and the results, the oldest first. *)
Record History (B : Type) := mkHistory {
  arrivals : list positive; calls : gmap positive (option B * bool); groups : list (Group B); returned : list (positive * Status) }.
Arguments mkHistory {B}.
Arguments arrivals {B}.
Arguments calls {B}.
Arguments groups {B}.
Arguments returned {B}.

Record Writing (B M W : Type) := mkWriting {
  database : Db M; disk : W; writers_ : list positive; writer : gmap positive (Writer B); tmp_batch_ : B;
  leading : option (Leading B); history : History B }.
Arguments mkWriting {B M W}.
Arguments database {B M W}.
Arguments disk {B M W}.
Arguments writers_ {B M W}.
Arguments writer {B M W}.
Arguments tmp_batch_ {B M W}.
Arguments leading {B M W}.
Arguments history {B M W}.

(** How [MakeRoomForWrite] goes on: it returns, or the mutex is released in the loop, for the
    sleep or to wait for the background work. *)
Inductive room := Room (s : Status) | Delayed (force : bool) | Awaited (force allow_delay : bool).

Section write.
Context {B M W : Type} `{!Batches B M} `{!LogFile W} `{!WriteOptions}.
Implicit Types (db : Db M) (w : W) (s : Writing B M W) (id : positive) (x : Writer B).

Definition set_database db s := mkWriting db (disk s) (writers_ s) (writer s) (tmp_batch_ s) (leading s) (history s).
Definition set_disk w s := mkWriting (database s) w (writers_ s) (writer s) (tmp_batch_ s) (leading s) (history s).
Definition set_queue q ws s := mkWriting (database s) (disk s) q ws (tmp_batch_ s) (leading s) (history s).
Definition set_tmp b s := mkWriting (database s) (disk s) (writers_ s) (writer s) b (leading s) (history s).
Definition set_leading l s := mkWriting (database s) (disk s) (writers_ s) (writer s) (tmp_batch_ s) l (history s).

Definition set_history h s := mkWriting (database s) (disk s) (writers_ s) (writer s) (tmp_batch_ s) (leading s) h.

Definition note_call id (updates : option B) (sync : bool) s :=
  let h := history s in set_history (mkHistory (arrivals h ++ [id]) (<[id := (updates, sync)]> (calls h)) (groups h) (returned h)) s.
Definition note_group g s :=
  let h := history s in set_history (mkHistory (arrivals h) (calls h) (groups h ++ [g]) (returned h)) s.
Definition note_result id (st : Status) s :=
  let h := history s in set_history (mkHistory (arrivals h) (calls h) (groups h) (returned h ++ [(id, st)])) s.

Definition set_awake b x := mkWriter (w_batch x) (w_sync x) (w_done x) (w_status x) b.
Definition complete st x := mkWriter (w_batch x) (w_sync x) true st true.

(** The call returns, and its writer is gone. *)
Definition return_status id (st : Status) s := note_result id st (set_queue (writers_ s) (delete id (writer s)) s).

(** ** Groups *)

(** The batches behind the first one that it takes along: the batch they are appended to,
    once there is one, and the last writer. *)
Fixpoint group_loop (size max_size : Z) (first : Writer B) (batch tmp : B) (rest : list positive) (ws : gmap positive (Writer B))
    (joined : option B) (last : positive) : option (option B * positive) :=
  match rest with
  | [] => Some (joined, last)
  | id :: rest =>
      x ← ws !! id;
      if w_sync x && negb (w_sync first) then Some (joined, last)
      else
        match w_batch x with
        | None => group_loop size max_size first batch tmp rest ws joined id
        | Some b =>
            let size := wrap 64 (size + batch_ByteSize b) in
            if max_size <? size then Some (joined, last)
            else
              result ← match joined with
                       | Some result => Some result
                       | None => _ ← assert_ (batch_Count tmp =? 0); Some (batch_Append tmp batch)
                       end;
              group_loop size max_size first batch tmp rest ws (Some (batch_Append result b)) id
        end
  end.

(** The batch of the first writer, or the joined one. *)
Definition BuildBatchGroup s : option (B * option B * positive) :=
  id ← list.head (writers_ s); first ← writer s !! id; batch ← w_batch first;
  let size := batch_ByteSize batch in
  let max_size := if size <=? Z.shiftl 128 10 then wrap 64 (size + Z.shiftl 128 10) else Z.shiftl 1 20 in
  '(joined, last) ← group_loop size max_size first batch (tmp_batch_ s) (tail (writers_ s)) (writer s) None id;
  Some (batch, joined, last).

(** ** Room *)

(** Up to the next release of the mutex. *)
Fixpoint MakeRoomForWrite (fuel : nat) (force allow_delay : bool) db w : option (room * Db M * W) :=
  match fuel with
  | O => None
  | S fuel =>
      if negb (bool_decide (bg_error_ db = Ok)) then Some (Room (bg_error_ db), db, w)
      else
        files ← NumLevelFiles 0 (versions_ db);
        if allow_delay && (kL0_SlowdownWritesTrigger <=? files) then Some (Delayed force, db, w)
        else if negb force && (ApproximateMemoryUsage (mem_ db) <=? write_buffer_size) then Some (Room Ok, db, w)
        else if bool_decide (is_Some (imm_ db)) then Some (Awaited force allow_delay, db, w)
        else if kL0_StopWritesTrigger <=? files then Some (Awaited force allow_delay, db, w)
        else
          _ ← assert_ (vs_prev_log_number_ (versions_ db) =? 0);
          let '(n, db) := new_file_number db in
          let '(s, w) := new_log_file n w in
          if bool_decide (s = Ok) then
            let db := set_mem MemTable_new (Some (mem_ db)) true n db in
            let '(db, _) := MaybeScheduleCompaction db in
            MakeRoomForWrite fuel false allow_delay db w
          else Some (Room s, set_versions (ReuseFileNumber n (versions_ db)) (version_list_ db) db, w)
  end.

(** ** Write *)

(** The writers up to [last] are done with the status; [me] is the one that led. They are
    returned, with those that are left. *)
Fixpoint pop_writers (st : Status) (me last : positive) (q : list positive) (ws : gmap positive (Writer B)) :
    option (list positive * list positive * gmap positive (Writer B)) :=
  match q with
  | [] => None
  | ready :: q =>
      ws ← (if bool_decide (ready = me) then Some ws else x ← ws !! ready; Some (<[ready := complete st x]> ws));
      if bool_decide (ready = last) then Some ([ready], q, ws)
      else '(popped, q, ws) ← pop_writers st me last q ws; Some (ready :: popped, q, ws)
  end.

(** The end of [Write]: the group is done, and the new front writer is signalled. *)
Definition finish_group (st : Status) (updates : option B) (last : positive) s : option (Writing B M W) :=
  me ← list.head (writers_ s);
  '(popped, q, ws) ← pop_writers st me last (writers_ s) (writer s);
  ws ← match q with [] => Some ws | id :: _ => x ← ws !! id; Some (<[id := set_awake true x]> ws) end;
  Some (return_status me st (note_group (mkGroup popped st updates) (set_leading None (set_queue q ws s)))).

(** What follows [MakeRoomForWrite], up to the release of the mutex or the end. *)
Definition Write_room (force allow_delay : bool) s : option (Writing B M W) :=
  me ← list.head (writers_ s); x ← writer s !! me;
  '(r, db, w) ← MakeRoomForWrite 2 force allow_delay (database s) (disk s);
  let s := set_disk w (set_database db s) in
  match r with
  | Delayed force => Some (set_leading (Some (Delaying force)) s)
  | Awaited force allow_delay => Some (set_leading (Some (Waiting force allow_delay false)) s)
  | Room st =>
      if bool_decide (st = Ok) && bool_decide (is_Some (w_batch x)) then
        let last_sequence := vs_last_sequence_ (versions_ db) in
        '(batch, joined, last) ← BuildBatchGroup s;
        let temporary := bool_decide (is_Some joined) in
        let updates := batch_SetSequence (wrap 64 (last_sequence + 1)) (default batch joined) in
        let s := if temporary then set_tmp updates s else s in
        Some (set_leading (Some (Logging updates temporary last (wrap 64 (last_sequence + batch_Count updates)))) s)
      else finish_group st None me s
  end.

(** The loop at the start of [Write], when the thread runs: it returns, leads or waits. *)
Definition Write_check id s : option (Writing B M W) :=
  x ← writer s !! id;
  if w_done x then Some (return_status id (w_status x) s)
  else
    front ← list.head (writers_ s);
    if bool_decide (front = id) then Write_room (bool_decide (w_batch x = None)) (negb (bool_decide (w_batch x = None))) s
    else Some (set_queue (writers_ s) (<[id := set_awake false x]> (writer s)) s).

Definition Write_begin id (updates : option B) (sync : bool) s : option (Writing B M W) :=
  Write_check id (note_call id updates sync
    (set_queue (writers_ s ++ [id]) (<[id := mkWriter updates sync false Ok true]> (writer s)) s)).

(** The unlocked section: the record, the sync, and the insertion. *)
Definition Write_log (updates : B) (temporary : bool) (last : positive) (last_sequence : Z) s : option (Writing B M W) :=
  me ← list.head (writers_ s); x ← writer s !! me;
  let '(st, w) := log_AddRecord (batch_Contents updates) (disk s) in
  Some (set_leading (Some (if bool_decide (st = Ok)
                           then if w_sync x then Syncing updates temporary last last_sequence else Inserting updates temporary last last_sequence 0
                           else Logged st false updates temporary last last_sequence)) (set_disk w s)).

Definition Write_sync (updates : B) (temporary : bool) (last : positive) (last_sequence : Z) s : Writing B M W :=
  let '(st, w) := logfile_Sync (disk s) in
  set_leading (Some (if bool_decide (st = Ok) then Inserting updates temporary last last_sequence 0
                     else Logged st true updates temporary last last_sequence)) (set_disk w s).

Definition Write_insert (updates : B) (temporary : bool) (last : positive) (last_sequence : Z) (inserted : nat) s : Writing B M W :=
  let db := database s in let '(r, mem) := InsertInto_turn updates inserted (mem_ db) in
  set_leading (Some (match r with
                     | None => Inserting updates temporary last last_sequence (S inserted)
                     | Some st => Logged st false updates temporary last last_sequence
                     end)) (set_database (set_mem mem (imm_ db) (has_imm_ db) (logfile_number_ db) db) s).

Definition Write_end (st : Status) (sync_error : bool) (updates : B) (temporary : bool) (last : positive) (last_sequence : Z) s :
    option (Writing B M W) :=
  let db := if sync_error then RecordBackgroundError st (database s) else database s in
  let s := if temporary then set_tmp batch_Clear s else s in
  versions ← SetLastSequence last_sequence (versions_ db);
  finish_group st (Some updates) last (set_database (set_versions versions (version_list_ db) db) s).

(** ** The background thread *)

(** [background_work_finished_signal_.SignalAll()] wakes up the writer that waits for room. *)
Definition signal_finished s : Writing B M W :=
  match leading s with Some (Waiting force allow_delay _) => set_leading (Some (Waiting force allow_delay true)) s | _ => s end.

(** The first error of another thread is recorded, and signalled. *)
Definition record_error (st : Status) s : Writing B M W :=
  if bool_decide (bg_error_ (database s) = Ok) then signal_finished (set_database (RecordBackgroundError st (database s)) s) else s.

(** The end of [BackgroundCall]. *)
Definition finish_background s : Writing B M W := signal_finished (set_database (BackgroundCall_end (database s)).1 s).

(** ** Steps *)

(** A thread that is not in the middle of its call may make one; a writer that waits may be woken
    up at any time; the writer that leads goes on whenever it can take the mutex, also when its
    wait for the background work ends without a signal. Errors of other threads and the end of the
    background work are steps; [background] is what the other threads do otherwise. *)
Definition waits id s : Prop := is_Some (writer s !! id) /\ (leading s = None \/ list.head (writers_ s) <> Some id).

(** The writer that makes room. *)
Definition making (l : Leading B) : option (bool * bool) :=
  match l with Delaying force => Some (force, false) | Waiting force allow_delay _ => Some (force, allow_delay) | _ => None end.

Context (background : Db M * W -> Db M * W -> Prop).

Inductive write_step : Writing B M W -> Writing B M W -> Prop :=
  | step_begin id updates sync s s' : id ∉ arrivals (history s) -> Write_begin id updates sync s = Some s' -> write_step s s'
  | step_wake id s s' : waits id s -> Write_check id s = Some s' -> write_step s s'
  | step_room l force allow_delay s s' : leading s = Some l -> making l = Some (force, allow_delay) ->
      Write_room force allow_delay s = Some s' -> write_step s s'
  | step_log updates temporary last n s s' : leading s = Some (Logging updates temporary last n) ->
      Write_log updates temporary last n s = Some s' -> write_step s s'
  | step_sync updates temporary last n s : leading s = Some (Syncing updates temporary last n) ->
      write_step s (Write_sync updates temporary last n s)
  | step_insert updates temporary last n k s : leading s = Some (Inserting updates temporary last n k) ->
      write_step s (Write_insert updates temporary last n k s)
  | step_end st sync_error updates temporary last n s s' : leading s = Some (Logged st sync_error updates temporary last n) ->
      Write_end st sync_error updates temporary last n s = Some s' -> write_step s s'
  | step_error st s : write_step s (record_error st s)
  | step_finished s : background_compaction_scheduled_ (database s) = true -> write_step s (finish_background s)
  | step_background db w s : background (database s, disk s) (db, w) -> write_step s (set_disk w (set_database db s)).
End write.
