(* ===== verification/DbWriteProps.v ===== *)
(** * Writing: parameters and groups

    What the parameters of [DbWrite.v] promise, and what the functions of a write do
    one by one. *)

From Stdlib Require Import String.
From stdpp Require Import base list gmap.
From S2P Require Import Prelude Doubles Cursor Coding DbFormat VersionEdit VersionFiles VersionState Builder VersionRefs.
From S2P Require Import Compaction Manifest DbState DbBackground DbWrite.

#[local] Open Scope Z_scope.

(** ** Laws *)

(** [O] are the operations of a batch, put and delete. A batch that is inserted gives its
    operations consecutive sequence numbers; when that fails, only the first ones. *)
Class BatchLaws (B M O : Type) `{!Batches B M} := {
  batch_ops : B -> list O;
  batch_sequence : B -> Z;
  mem_entries : M -> list (Z * O);
  ops_Clear : batch_ops batch_Clear = [];
  ops_Append a b : batch_ops (batch_Append a b) = batch_ops a ++ batch_ops b;
  ops_SetSequence n b : batch_ops (batch_SetSequence n b) = batch_ops b /\ batch_sequence (batch_SetSequence n b) = n;
  Count_ops b : batch_Count b = Z.of_nat (length (batch_ops b));
  entries_new : mem_entries MemTable_new = [];
  InsertInto_law b m st m' : InsertInto b m = (st, m') -> exists n,
    mem_entries m' = mem_entries m ++ zip (seqZ (batch_sequence b) (Z.of_nat n)) (take n (batch_ops b)) /\
    (st = Ok -> (length (batch_ops b) <= n)%nat);
  InsertInto_turn_law b k m r m' : InsertInto_turn b k m = (r, m') ->
    match r with
    | None => exists o, batch_ops b !! k = Some o /\ mem_entries m' = mem_entries m ++ [(batch_sequence b + Z.of_nat k, o)]
    | Some st => mem_entries m' = mem_entries m /\ (st = Ok -> (length (batch_ops b) <= k)%nat)
    end }.

(** The records of all log files, where the current file begins, and which records would survive
    a crash. A record that could not be added may be there nevertheless. *)
Class LogFileLaws (W : Type) `{!LogFile W} := {
  log_records : W -> list (list Z);
  log_start : W -> nat;
  durable : W -> nat -> Prop;
  log_start_le w : (log_start w <= length (log_records w))%nat;
  AddRecord_law r w st w' : log_AddRecord r w = (st, w') -> log_start w' = log_start w /\ (forall i, durable w i -> durable w' i) /\
    (log_records w' = log_records w ++ [r] \/ st <> Ok /\ log_records w' = log_records w);
  Sync_law w st w' : logfile_Sync w = (st, w') -> log_start w' = log_start w /\ (forall i, durable w i -> durable w' i) /\
    log_records w' = log_records w /\ (st = Ok -> forall i, (log_start w <= i < length (log_records w))%nat -> durable w' i);
  new_log_law n w st w' : new_log_file n w = (st, w') -> (forall i, durable w i -> durable w' i) /\ log_records w' = log_records w }.

Section props.
Context {B M W O : Type} `{!Batches B M} `{!LogFile W} `{!WriteOptions} `{!BatchLaws B M O} `{!LogFileLaws W}.
Implicit Types (db : Db M) (w : W) (s : Writing B M W) (id : positive) (x : Writer B) (ws : gmap positive (Writer B)).

(** ** Background work is scheduled *)

(** The current version was given its scores. *)
Definition scored (v : Version) : Prop := Finalize v = v /\ length (files_ v) = Z.to_nat kNumLevels /\ loads_ok 0 (files_ v).

(** When there is work, the background thread has it, unless it gave up. *)
Definition work_scheduled db : Prop := work_to_do db = true -> bg_error_ db = Ok -> shutting_down_ db = false ->
  background_compaction_scheduled_ db = true.

Record ready db : Prop := { rd_scored : scored (current_ (versions_ db)); rd_work : work_scheduled db }.

(** Many files at level 0 are work. *)
Lemma scored_stop db n : scored (current_ (versions_ db)) -> NumLevelFiles 0 (versions_ db) = Some n -> 4 <= n -> work_to_do db = true.
Proof.
  intros (E & Hlen & Hok) (files & Hf & [= <-])%bind_Some Hn. unfold work_to_do, NeedsCompaction. rewrite !orb_true_iff. right. left.
  destruct (Finalize_best _ Hlen Hok) as (_ & _ & _ & _ & _ & _ & Hiff). rewrite <- E. apply Hiff. exists 0%nat, files.
  split; [lia|]. split; [done|]. unfold level_limit, level_load. cbn. lia.
Qed.

Lemma MaybeScheduleCompaction_ok db : exists b, (MaybeScheduleCompaction db).1 = set_scheduled b db /\
  work_scheduled (set_scheduled b db) /\ (background_compaction_scheduled_ db = true -> b = true).
Proof.
  assert (set_scheduled (background_compaction_scheduled_ db) db = db) as E by by destruct db.
  unfold MaybeScheduleCompaction, work_scheduled. change (work_to_do (set_scheduled _ db)) with (work_to_do db).
  destruct (background_compaction_scheduled_ db) eqn:Eb; [by exists true|].
  destruct (shutting_down_ db) eqn:Es; [exists false; rewrite E; by split_and!; [done|intros _ _; cbn; congruence|done]|].
  destruct (bool_decide (bg_error_ db = Ok)) eqn:Ee; cbn [negb].
  2: { apply bool_decide_eq_false in Ee. exists false. rewrite E. by split_and!. }
  destruct (work_to_do db) eqn:Ew; cbn [negb fst]; [by exists true|]. exists false. rewrite E. by split_and!.
Qed.

(** What other threads leave alone. *)
Record unmoved (p p' : Db M * W) : Prop := {
  um_sequence : vs_last_sequence_ (versions_ p'.1) = vs_last_sequence_ (versions_ p.1);
  um_prev : vs_prev_log_number_ (versions_ p.1) = 0 -> vs_prev_log_number_ (versions_ p'.1) = 0;
  um_levels : (0 < length (files_ (current_ (versions_ p.1))))%nat -> (0 < length (files_ (current_ (versions_ p'.1))))%nat;
  um_ready : ready p.1 -> ready p'.1;
  um_error : bg_error_ p'.1 = bg_error_ p.1;
  um_scheduled : background_compaction_scheduled_ p.1 = true -> background_compaction_scheduled_ p'.1 = true;
  um_shutdown : shutting_down_ p.1 = true -> shutting_down_ p'.1 = true;
  um_records : log_records p'.2 = log_records p.2;
  um_durable i : durable p.2 i -> durable p'.2 i }.

(** Between the steps that are modelled the other threads install versions, take the
    memtable that was compacted away, and ask for compactions. *)
Record others (p p' : Db M * W) : Prop := {
  ot_unmoved : unmoved p p';
  ot_start : log_start p'.2 = log_start p.2;
  ot_mem : mem_ p'.1 = mem_ p.1 }.

(** While the background thread works, what it does to the versions, the immutable memtable
    and the manual compaction is of this kind, as long as the version that it installs is scored;
    so are the turns of the threads that ask for manual compactions. *)
Lemma background_others db db' w : background_compaction_scheduled_ db = true -> background_compaction_scheduled_ db' = true ->
  vs_last_sequence_ (versions_ db') = vs_last_sequence_ (versions_ db) ->
  vs_prev_log_number_ (versions_ db') = vs_prev_log_number_ (versions_ db) \/ vs_prev_log_number_ (versions_ db') = 0 ->
  scored (current_ (versions_ db')) -> bg_error_ db' = bg_error_ db -> shutting_down_ db' = shutting_down_ db -> mem_ db' = mem_ db ->
  others (db, w) (db', w).
Proof.
  intros Hs Hs' Hseq Hprev Hsc He Hsd Hm. split; [|done..]. split; try done; cbn.
  - intros E. destruct Hprev as [->|]; done.
  - intros _. destruct Hsc as (_ & -> & _). unfold kNumLevels. lia.
  - intros _. split; [done|]. by intros _ _ _.
  - by rewrite Hsd.
Qed.

Lemma manual_turn_others a db w : others (db, w) ((manual_turn a db).1, w).
Proof.
  unfold manual_turn. destruct (manual_compaction_ db); [by split; [split|..]|].
  destruct (MaybeScheduleCompaction_ok (set_manual (Some a) (manuals_ db) db)) as (b & -> & Hw & Hb).
  split; [|done..]. split; try done. intros [H1 _]. by split.
Qed.

(** ** Making room *)

Definition room_for db : Prop := (0 < length (files_ (current_ (versions_ db))))%nat /\ vs_prev_log_number_ (versions_ db) = 0.

Lemma NumLevelFiles_ok db : room_for db -> exists n, NumLevelFiles 0 (versions_ db) = Some n.
Proof.
  intros [Hl _]. unfold NumLevelFiles, level_at. destruct (lookup_lt_is_Some_2 _ _ Hl) as [files ->]. by eexists.
Qed.

(** What is known when [MakeRoomForWrite] gives the mutex back. *)
Definition room_known (r : room) db : Prop :=
  match r with
  | Room Ok | Delayed _ => bg_error_ db = Ok
  | Room _ => True
  | Awaited _ _ => bg_error_ db = Ok /\ (shutting_down_ db = false -> background_compaction_scheduled_ db = true)
  end.

Lemma awaited_known db f a n : ready db -> bg_error_ db = Ok -> NumLevelFiles 0 (versions_ db) = Some n ->
  is_Some (imm_ db) \/ kL0_StopWritesTrigger <= n -> room_known (Awaited f a) db.
Proof.
  intros [Hs Hw] He Hn Hor. split; [done|]. intros Hsd. apply Hw; [|done..]. destruct Hor as [Hi|Hle].
  - unfold work_to_do. by rewrite bool_decide_true.
  - eapply scored_stop; [done..|]. unfold kL0_StopWritesTrigger in Hle. lia.
Qed.

(** The memtable is kept, or made the immutable one. *)
Definition switched db db' : Prop :=
  mem_ db' = mem_ db \/ imm_ db' = Some (mem_ db) /\ mem_entries (mem_ db') = [].

Lemma ReuseFileNumber_same n (v : VersionSet) : vs_last_sequence_ (ReuseFileNumber n v) = vs_last_sequence_ v /\
  vs_prev_log_number_ (ReuseFileNumber n v) = vs_prev_log_number_ v /\ current_ (ReuseFileNumber n v) = current_ v.
Proof. unfold ReuseFileNumber. by destruct (_ =? _). Qed.

Lemma unmoved_refl p : unmoved p p.
Proof. by split. Qed.

(** The versions keep what matters. *)
Lemma ready_same db db' : current_ (versions_ db') = current_ (versions_ db) -> imm_ db' = imm_ db -> manual_compaction_ db' = manual_compaction_ db ->
  bg_error_ db' = bg_error_ db -> shutting_down_ db' = shutting_down_ db ->
  (background_compaction_scheduled_ db = true -> background_compaction_scheduled_ db' = true) -> ready db -> ready db'.
Proof.
  intros E1 E2 E3 E4 E5 Hs [H1 H2]. split; [by rewrite E1|]. unfold work_scheduled, work_to_do, NeedsCompaction in *.
  rewrite E1, E2, E3, E4, E5. auto.
Qed.

(** The new memtable and its log. *)
Lemma new_memtable_ok n db w st w1 db1 : room_for db -> ready db -> new_file_number db = (n, db1) -> new_log_file n w = (st, w1) ->
  exists b, let db2 := set_mem MemTable_new (Some (mem_ db1)) true n db1 in
    (MaybeScheduleCompaction db2).1 = set_scheduled b db2 /\ unmoved (db, w) (set_scheduled b db2, w1) /\ switched db (set_scheduled b db2) /\
    ready (set_scheduled b db2).
Proof.
  intros Hdb Hready En (Hd & Hr)%new_log_law. injection En as <- <-. set (db1 := set_versions _ _ db). cbn zeta.
  set (db2 := set_mem MemTable_new _ true _ db1). destruct (MaybeScheduleCompaction_ok db2) as (b & E & Hw & Hb). exists b.
  assert (ready (set_scheduled b db2)) as Hready2 by (split; [apply (rd_scored _ Hready)|done]).
  split; [done|]. split; [|split; [right; split; [done|apply entries_new]|done]]. by split.
Qed.

Lemma MakeRoomForWrite_ok force allow_delay db w : room_for db -> ready db -> exists r db' w',
  MakeRoomForWrite 2 force allow_delay db w = Some (r, db', w') /\ unmoved (db, w) (db', w') /\ switched db db' /\ room_known r db'.
Proof.
  intros Hdb Hready. pose proof (unmoved_refl (db, w)) as Hrefl. assert (switched db db) as Hsw by by left.
  cbn [MakeRoomForWrite]. case_bool_decide as Hbg; cbn [negb].
  2: { eexists _, _, _. do 3 (split; [done|]). cbn. by destruct (bg_error_ db). }
  destruct (NumLevelFiles_ok db Hdb) as [n Hn]. rewrite Hn. cbn [mbind option_bind].
  destruct (allow_delay && _) eqn:Ea; [by eexists _, _, _|].
  destruct (negb force && _); [by eexists _, _, _|].
  case_bool_decide as Himm.
  { eexists _, _, _. do 3 (split; [done|]). eapply awaited_known; [done..|by left]. }
  destruct (Z.leb_spec kL0_StopWritesTrigger n) as [Hle|Hlt].
  { eexists _, _, _. do 3 (split; [done|]). eapply awaited_known; [done..|by right]. }
  destruct Hdb as [Hl Hprev]. rewrite Hprev. cbn [Z.eqb assert_ mbind option_bind].
  destruct (new_file_number db) as [m db1] eqn:En. destruct (new_log_file m w) as [st w1] eqn:El.
  destruct (bool_decide (st = Ok)) eqn:Est.
  2: { apply bool_decide_eq_false in Est. apply new_log_law in El as [Hd Hr]. injection En as <- <-.
       destruct (ReuseFileNumber_same (vs_next_file_number_ (versions_ db)) (with_next_file (vs_next_file_number_ (versions_ db) ⊞[64] 1)%W (versions_ db))) as (E1 & E2 & E3).
       eexists _, _, _. split; [done|]. split; [|split; [by left|by destruct st]].
       split; cbn [fst snd versions_ set_versions]; [by rewrite E1|by rewrite E2|by rewrite E3|by apply ready_same|done..]. }
  destruct (new_memtable_ok m db w st w1 db1 (conj Hl Hprev) Hready En El) as (b & E & Hun & Hsw2 & Hready2). cbn zeta in *.
  destruct (MaybeScheduleCompaction _) as [db3 sch] eqn:E3. cbn [fst] in E. subst db3. set (db3 := set_scheduled b _) in *.
  pose proof (um_error _ _ Hun) as He. cbn [fst] in He. rewrite He, bool_decide_true by done. cbn [negb].
  assert (NumLevelFiles 0 (versions_ db3) = Some n) as Hn3 by by injection En as <- <-. rewrite Hn3. cbn [mbind option_bind]. rewrite Ea.
  cbn [negb andb]. rewrite Hbg in He. destruct (_ <=? write_buffer_size); [by eexists _, _, _|].
  rewrite bool_decide_true by by eexists. eexists _, _, _. do 3 (split; [done|]). eapply awaited_known; [done..|]. left. by eexists.
Qed.

(** ** Groups *)

Definition call_ops (calls : gmap positive (option B * bool)) id : list O :=
  match calls !! id with Some (Some b, _) => batch_ops b | _ => [] end.

Definition group_ops (calls : gmap positive (option B * bool)) (ids : list positive) : list O := mjoin (call_ops calls <$> ids).

(** The writers are those of the calls. *)
Definition called (calls : gmap positive (option B * bool)) ws : Prop :=
  forall id x, ws !! id = Some x -> calls !! id = Some (w_batch x, w_sync x).

Lemma group_ops_cons calls id ids : group_ops calls (id :: ids) = call_ops calls id ++ group_ops calls ids.
Proof. done. Qed.

Lemma group_ops_app calls ids ids' : group_ops calls (ids ++ ids') = group_ops calls ids ++ group_ops calls ids'.
Proof. unfold group_ops. by rewrite fmap_app, join_app. Qed.

Lemma group_loop_ok calls size max_size first batch tmp rest ws joined last : called calls ws ->
  Forall (fun id => is_Some (ws !! id)) rest -> batch_ops tmp = [] -> exists joined' taken left_,
  group_loop size max_size first batch tmp rest ws joined last = Some (joined', default last (list.last taken)) /\
  rest = taken ++ left_ /\ (forall id b, id ∈ taken -> calls !! id = Some (b, true) -> w_sync first = true) /\
  batch_ops (default batch joined') = batch_ops (default batch joined) ++ group_ops calls taken.
Proof.
  intros Hc Hrest Htmp. revert size joined last. induction Hrest as [|id rest [x Hx] _ IH]; intros size joined last; cbn [group_loop].
  - exists joined, [], []. split_and!; try done; [by intros ?? ?%elem_of_nil|]. by rewrite app_nil_r.
  - rewrite Hx. cbn [mbind option_bind]. pose proof (Hc _ _ Hx) as Hcall.
    assert (exists joined' taken left_, Some (joined, last) = Some (joined', default last (list.last taken)) /\ id :: rest = taken ++ left_ /\
      (forall id b, id ∈ taken -> calls !! id = Some (b, true) -> w_sync first = true) /\
      batch_ops (default batch joined') = batch_ops (default batch joined) ++ group_ops calls taken) as Hstop.
    { exists joined, [], (id :: rest). split_and!; try done; [by intros ?? ?%elem_of_nil|]. by rewrite app_nil_r. }
    destruct (w_sync x && negb (w_sync first)) eqn:Esync; [exact Hstop|].
    assert (forall joined1, batch_ops (default batch joined1) = batch_ops (default batch joined) ++ call_ops calls id ->
      forall size, exists joined' taken left_, group_loop size max_size first batch tmp rest ws joined1 id = Some (joined', default last (list.last taken)) /\
      id :: rest = taken ++ left_ /\ (forall id b, id ∈ taken -> calls !! id = Some (b, true) -> w_sync first = true) /\
      batch_ops (default batch joined') = batch_ops (default batch joined) ++ group_ops calls taken) as Htake.
    { intros joined1 E1 size1. destruct (IH size1 joined1 id) as (joined' & taken & left_ & -> & -> & Hs & E).
      exists joined', (id :: taken), left_. split; [|split; [done|split]].
      - destruct taken as [|a taken]; [done|]. rewrite !last_cons_cons. by destruct (list.last (a :: taken)) eqn:El; [|by apply last_None in El].
      - intros id' b [->|Hin]%elem_of_cons Hb; [|by eapply Hs]. rewrite Hcall in Hb. injection Hb as _ Hb. rewrite Hb in Esync.
        by destruct (w_sync first).
      - by rewrite E, E1, group_ops_cons, app_assoc. }
    destruct (w_batch x) as [b|] eqn:Eb.
    + case_match; [exact Hstop|]. destruct joined as [r|]; cbn [mbind option_bind].
      * apply Htake. cbn [from_option Datatypes.id]. rewrite ops_Append. unfold call_ops. by rewrite Hcall.
      * rewrite Count_ops, Htmp. cbn [length Z.of_nat Z.eqb assert_ mbind option_bind]. apply Htake. cbn [from_option Datatypes.id].
        rewrite !ops_Append, Htmp. unfold call_ops. by rewrite Hcall.
    + apply Htake. unfold call_ops. rewrite Hcall. by rewrite app_nil_r.
Qed.

(** The front writers up to [last] are popped. *)
Lemma pop_writers_ok st me last group rest ws : NoDup (group ++ rest) -> list.last group = Some last ->
  Forall (fun id => is_Some (ws !! id)) group -> exists ws', pop_writers st me last (group ++ rest) ws = Some (group, rest, ws') /\
  forall id, ws' !! id = if decide (id ∈ group /\ id <> me) then complete st <$> ws !! id else ws !! id.
Proof.
  intros Hnd Hlast Hws. revert ws Hws. induction group as [|id group IH]; intros ws Hws; [done|]. cbn [app pop_writers].
  apply Forall_cons_1 in Hws as [[x Hx] Hws]. cbn [app] in Hnd. apply list.NoDup_cons in Hnd as [Hid Hnd].
  assert (exists ws1, (if bool_decide (id = me) then Some ws else x ← ws !! id; Some (<[id:=complete st x]> ws)) = Some ws1 /\
    forall id', ws1 !! id' = if decide (id' = id /\ id' <> me) then complete st <$> ws !! id' else ws !! id') as (ws1 & -> & Hws1).
  { case_bool_decide as Hme.
    - exists ws. split; [done|]. intros id'. by rewrite decide_False by naive_solver.
    - rewrite Hx. eexists. split; [done|]. intros id'. case_decide as Hd.
      + destruct Hd as [-> _]. by rewrite lookup_insert_eq, Hx.
      + rewrite lookup_insert_ne; [done|]. intros <-. apply Hd. by split. }
  cbn [mbind option_bind]. case_bool_decide as Hl.
  - destruct group as [|a group]; [|exfalso; subst id; rewrite last_cons_cons in Hlast; apply Hid, elem_of_app; left;
      by apply list.last_Some in Hlast as [l ->]; apply elem_of_app; right; left].
    cbn. exists ws1. split; [done|]. intros id'. rewrite Hws1. do 2 case_decide; rewrite ?list_elem_of_singleton in *; naive_solver.
  - destruct group as [|a group]; [by injection Hlast|]. rewrite last_cons_cons in Hlast.
    destruct (IH Hnd Hlast ws1) as (ws2 & -> & Hws2).
    { eapply List.Forall_impl; [|exact Hws]. intros id' [y Hy]. rewrite Hws1, Hy. case_decide; by eexists. }
    cbn [mbind option_bind]. exists ws2. split; [done|]. intros id'. rewrite Hws2, Hws1.
    assert (id ∉ a :: group) as Hnot by (intros Hin; apply Hid, elem_of_app; by left).
    repeat case_decide; try done; exfalso; set_solver.
Qed.
End props.
