(* ===== verification/DbWriteSafe.v ===== *)
(** * Writes are grouped, logged in order and acknowledged once

    In every reachable state of [DbWrite.v] the log holds what was acknowledged, in the
    order in which the calls were made, and no thread runs into a failed assertion or
    a writer that is gone. *)

From Stdlib Require Import String.
From stdpp Require Import base list gmap.
From S2P Require Import Prelude Doubles Cursor Coding DbFormat VersionEdit VersionFiles VersionState Builder VersionRefs.
From S2P Require Import Compaction Manifest DbState DbBackground DbWrite DbWriteProps.

#[local] Open Scope Z_scope.

Section safe.
Context {B M W O : Type} `{!Batches B M} `{!LogFile W} `{!WriteOptions} `{!BatchLaws B M O} `{!LogFileLaws W}.
Implicit Types (db : Db M) (w : W) (s : Writing B M W) (id : positive) (x : Writer B) (g : Group B).
Implicit Types (D : nat -> Prop) (c : gmap positive (option B * bool)).

(** The state at the start. *)
Context (base : Z) (rs0 : list (list Z)).

(** ** The log of a sequence of groups *)

Definition syncs c (ids : list positive) : Prop := exists id b, id ∈ ids /\ c !! id = Some (b, true).

(** The groups, the last sequence number after them and the records of the log. *)
Inductive log_of c D : list (Group B) -> Z -> list (list Z) -> Prop :=
  | log_nil : log_of c D [] base rs0
  | log_plain gs n rs g : log_of c D gs n rs -> g_updates g = None -> log_of c D (gs ++ [g]) n rs
  | log_batch gs n rs g b rs' : log_of c D gs n rs -> g_updates g = Some b ->
      batch_sequence b = n + 1 -> batch_ops b = group_ops c (g_members g) ->
      (rs' = rs ++ [batch_Contents b] /\ (g_status g = Ok -> syncs c (g_members g) -> D (length rs)) \/ rs' = rs /\ g_status g <> Ok) ->
      log_of c D (gs ++ [g]) (n + Z.of_nat (length (batch_ops b))) rs'.

Lemma group_ops_ext c c' ids : (forall id, id ∈ ids -> c' !! id = c !! id) -> group_ops c' ids = group_ops c ids.
Proof.
  induction ids as [|id ids IH]; intros Hc; [done|]. rewrite !group_ops_cons, IH by (intros id' Hin; apply Hc; by right).
  unfold call_ops. by rewrite Hc by left.
Qed.

Lemma log_of_mono c c' D D' gs n rs : log_of c D gs n rs -> (forall i, D i -> D' i) ->
  (forall id, id ∈ mjoin (g_members <$> gs) -> c' !! id = c !! id) -> log_of c' D' gs n rs.
Proof.
  intros Hlog HD. induction Hlog as [|gs n rs g _ IH Hu|gs n rs g b rs' _ IH Hu Hseq Hops Hrs]; intros Hc.
  - constructor.
  - constructor; [|done]. apply IH. intros id Hid. apply Hc. rewrite fmap_app, join_app. apply elem_of_app. by left.
  - assert (forall id, id ∈ g_members g -> c' !! id = c !! id) as Hg.
    { intros id Hid. apply Hc. rewrite fmap_app, join_app. apply elem_of_app. right. cbn. by rewrite app_nil_r. }
    apply (log_batch _ _ gs n rs g b); [|done|done|by rewrite (group_ops_ext c)|].
    + apply IH. intros id Hid. apply Hc. rewrite fmap_app, join_app. apply elem_of_app. by left.
    + destruct Hrs as [[-> Hd]|]; [left; split; [done|]|by right]. intros Hok (id & y & Hid & Hy). apply HD, Hd; [done|].
      exists id, y. by rewrite <- Hg.
Qed.

(** A record of a group that succeeded. *)
Lemma log_of_found c D gs n rs g b : log_of c D gs n rs -> g ∈ gs -> g_updates g = Some b -> g_status g = Ok ->
  exists i, rs !! i = Some (batch_Contents b) /\ batch_ops b = group_ops c (g_members g) /\ (syncs c (g_members g) -> D i).
Proof.
  intros Hlog. induction Hlog as [|gs n rs g' _ IH Hu|gs n rs g' b' rs' _ IH Hu Hseq Hops Hrs]; intros Hg Hb Hok.
  - by apply elem_of_nil in Hg.
  - apply elem_of_app in Hg as [Hg|Hg]; [by apply IH|]. apply list_elem_of_singleton in Hg as ->. by rewrite Hu in Hb.
  - apply elem_of_app in Hg as [Hg|Hg].
    + destruct (IH Hg Hb Hok) as (i & Hi & Ho & Hd). exists i. split; [|done]. destruct Hrs as [[-> _]|[-> _]]; [|done].
      rewrite lookup_app_l; [done|]. by eapply lookup_lt_Some.
    + apply list_elem_of_singleton in Hg as ->. rewrite Hu in Hb. injection Hb as ->. destruct Hrs as [[-> Hd]|[_ Hn]]; [|done].
      exists (length rs). split; [|split; [done|by apply Hd]]. by rewrite lookup_app_r, Nat.sub_diag by lia.
Qed.

(** ** The invariant *)

Abbreviation last_sequence s := (vs_last_sequence_ (versions_ (database s))).
Abbreviation ops_of s := (group_ops (calls (history s))).
Abbreviation log_ok s gs n := (log_of (calls (history s)) (durable (disk s)) gs n (log_records (disk s))).

Record write_core s : Prop := {
  wc_db : room_for (database s) /\ ready (database s);
  wc_order : arrivals (history s) = mjoin (g_members <$> groups (history s)) ++ writers_ s;
  wc_nodup : NoDup (arrivals (history s));
  wc_dom id : is_Some (calls (history s) !! id) <-> id ∈ arrivals (history s);
  wc_called : called (calls (history s)) (writer s);
  wc_queue id : id ∈ writers_ s -> exists x, writer s !! id = Some x /\ w_done x = false;
  wc_done id x : writer s !! id = Some x -> id ∈ writers_ s \/ w_done x = true /\ awake x = true /\
    exists g, g ∈ groups (history s) /\ id ∈ g_members g /\ g_status g = w_status x;
  wc_returned id st : (id, st) ∈ returned (history s) -> writer s !! id = None /\
    exists g, g ∈ groups (history s) /\ id ∈ g_members g /\ g_status g = st;
  wc_results : NoDup (returned (history s)).*1;
  wc_plain g id : g ∈ groups (history s) -> g_updates g = None -> g_status g = Ok -> id ∈ g_members g ->
    exists sync, calls (history s) !! id = Some (None, sync) }.

(** No operation gets a number that does not fit. *)
Definition bounded s (n : Z) (q : list positive) : Prop :=
  n + Z.of_nat (length (ops_of s q)) <= base + Z.of_nat (length (ops_of s (arrivals (history s)))).

(** Entries of the memtable that a reader may see. *)
Definition mem_upto s (n : Z) : Prop := forall e, e ∈ mem_entries (mem_ (database s)) -> e.1 <= n.

(** The first operations of a batch with their sequence numbers. *)
Definition numbered (n : Z) (k : nat) (ops : list O) : list (Z * O) := zip (seqZ n (Z.of_nat k)) (take k ops).

(** The memtable has the first operations of the batch that is being inserted, and behind what a
    reader may see. *)
Definition mem_partly s (updates : B) (k : nat) : Prop := (k <= length (batch_ops updates))%nat /\ exists old,
  mem_entries (mem_ (database s)) = old ++ numbered (last_sequence s + 1) k (batch_ops updates) /\ forall e, e ∈ old -> e.1 <= last_sequence s.

(** A group at the front of the queue, and its batch. *)
Record group_of s (updates : B) (last : positive) (n : Z) (members rest : list positive) : Prop := {
  go_queue : writers_ s = members ++ rest;
  go_last : list.last members = Some last;
  go_ops : batch_ops updates = ops_of s members;
  go_sequence : batch_sequence updates = last_sequence s + 1;
  go_next : n = last_sequence s + Z.of_nat (length (batch_ops updates)) }.

Definition idle s : Prop := batch_ops (tmp_batch_ s) = [] /\ log_ok s (groups (history s)) (last_sequence s) /\ mem_upto s (last_sequence s).

(** The leader that waits has not missed a signal: the background thread has work and will signal. *)
Definition will_signal db : Prop := bg_error_ db = Ok /\ (shutting_down_ db = false -> background_compaction_scheduled_ db = true).

(** The record of the batch was added to the log of the groups that are done. *)
Definition recorded s (updates : B) (rs : list (list Z)) : Prop :=
  log_of (calls (history s)) (durable (disk s)) (groups (history s)) (last_sequence s) rs /\
  log_records (disk s) = rs ++ [batch_Contents updates] /\ (log_start (disk s) <= length rs)%nat.

Definition leading_ok s : Prop :=
  match leading s with
  | None => idle s /\ forall id x, list.head (writers_ s) = Some id -> writer s !! id = Some x -> awake x = true
  | Some (Delaying _) => idle s /\ writers_ s <> []
  | Some (Waiting _ _ signalled) => idle s /\ writers_ s <> [] /\ (signalled = false -> will_signal (database s))
  | Some (Logging updates temporary last n) => (temporary = false -> batch_ops (tmp_batch_ s) = []) /\
      log_ok s (groups (history s)) (last_sequence s) /\ mem_upto s (last_sequence s) /\
      exists members rest me b, group_of s updates last n members rest /\ list.head members = Some me /\
        (syncs (calls (history s)) members -> calls (history s) !! me = Some (b, true))
  | Some (Syncing updates temporary last n) => (temporary = false -> batch_ops (tmp_batch_ s) = []) /\
      mem_upto s (last_sequence s) /\ exists members rest rs, group_of s updates last n members rest /\ recorded s updates rs
  | Some (Inserting updates temporary last n k) => (temporary = false -> batch_ops (tmp_batch_ s) = []) /\
      mem_partly s updates k /\ exists members rest rs, group_of s updates last n members rest /\ recorded s updates rs /\
        (syncs (calls (history s)) members -> durable (disk s) (length rs))
  | Some (Logged st _ updates temporary last n) => (temporary = false -> batch_ops (tmp_batch_ s) = []) /\
      exists members rest k, group_of s updates last n members rest /\
        log_ok s (groups (history s) ++ [mkGroup members st (Some updates)]) n /\
        mem_partly s updates k /\ (st = Ok -> (length (batch_ops updates) <= k)%nat)
  end.

Record write_inv s : Prop := {
  wi_core : write_core s;
  wi_bound : bounded s (last_sequence s) (writers_ s);
  wi_leading : leading_ok s }.

(** ** The end of a group *)

Definition ended st me (members rest : list positive) (ws : gmap positive (Writer B)) id : option (Writer B) :=
  if decide (id = me) then None
  else if decide (list.head rest = Some id) then set_awake true <$> ws !! id
  else if decide (id ∈ members) then complete st <$> ws !! id
  else ws !! id.

Lemma finish_group_state st updates last members rest me s : write_core s -> writers_ s = members ++ rest ->
  list.last members = Some last -> list.head members = Some me ->
  exists ws, finish_group st updates last s =
      Some (return_status me st (note_group (mkGroup members st updates) (set_leading None (set_queue rest ws s)))) /\
    forall id, delete me ws !! id = ended st me members rest (writer s) id.
Proof.
  intros Hc Eq Hlast Hhead. assert (NoDup (members ++ rest)) as Hnd.
  { pose proof (wc_nodup _ Hc) as Hnd. rewrite (wc_order _ Hc), Eq in Hnd. by apply list.NoDup_app in Hnd as (_ & _ & Hnd). }
  assert (forall id, id ∈ members ++ rest -> is_Some (writer s !! id)) as Hws.
  { intros id Hid. rewrite <- Eq in Hid. apply (wc_queue _ Hc) in Hid as (x & Hx & _). by eexists. }
  destruct (pop_writers_ok st me last members rest (writer s) Hnd Hlast) as (ws1 & E1 & Hws1).
  { apply list.Forall_forall. intros id Hid. apply Hws, elem_of_app. by left. }
  assert (list.head (writers_ s) = Some me) as Hme by (rewrite Eq; by destruct members).
  assert (me ∈ members) as Hmem by (destruct members; [done|]; injection Hhead as ->; left).
  unfold finish_group. rewrite Hme. cbn [mbind option_bind]. rewrite Eq, E1. cbn [mbind option_bind].
  apply list.NoDup_app in Hnd as (_ & Hdisj & _).
  destruct rest as [|next rest].
  - cbn [mbind option_bind]. exists ws1. split; [done|]. intros id. unfold ended. destruct (decide (id = me)) as [->|Hne]; [by rewrite lookup_delete_eq|].
    rewrite lookup_delete_ne, Hws1 by done. cbn [list.head]. rewrite (decide_False (P := None = Some id)) by done. repeat case_decide; naive_solver.
  - assert (next ∉ members) as Hnext by (intros Hin; apply (Hdisj _ Hin); left).
    destruct (Hws next) as [x Hx]; [apply elem_of_app; right; left|].
    assert (ws1 !! next = Some x) as Hx1 by (rewrite Hws1, decide_False by naive_solver; done). rewrite Hx1. cbn [mbind option_bind].
    eexists. split; [done|]. intros id. unfold ended. destruct (decide (id = me)) as [->|Hne]; [by rewrite lookup_delete_eq|].
    rewrite lookup_delete_ne by done. cbn [list.head]. destruct (decide (Some next = Some id)) as [[= ->]|Hid].
    + by rewrite lookup_insert_eq, Hx.
    + rewrite lookup_insert_ne, Hws1 by congruence. repeat case_decide; naive_solver.
Qed.

Lemma finish_group_ok st updates last members rest s : write_core s -> batch_ops (tmp_batch_ s) = [] -> writers_ s = members ++ rest ->
  list.last members = Some last -> log_ok s (groups (history s) ++ [mkGroup members st updates]) (last_sequence s) ->
  mem_upto s (last_sequence s) -> bounded s (last_sequence s) rest ->
  (updates = None -> st = Ok -> forall id, id ∈ members -> exists sync, calls (history s) !! id = Some (None, sync)) ->
  exists s', finish_group st updates last s = Some s' /\ write_inv s'.
Proof.
  intros Hc Htmp Eq Hlast Hlog Hmem Hbound Hplain.
  assert (exists me, list.head members = Some me) as [me Hhead] by (destruct members as [|me members]; [done|by exists me]).
  assert (me ∈ members) as Hme by (destruct members; [done|]; injection Hhead as ->; left).
  destruct (finish_group_state st updates last members rest me s Hc Eq Hlast Hhead) as (ws & -> & Hws).
  eexists. split; [done|]. set (g := mkGroup members st updates).
  assert (NoDup (members ++ rest)) as Hnd.
  { pose proof (wc_nodup _ Hc) as Hnd. rewrite (wc_order _ Hc), Eq in Hnd. by apply list.NoDup_app in Hnd as (_ & _ & Hnd). }
  apply list.NoDup_app in Hnd as (_ & Hdisj & _).
  assert (g ∈ groups (history s) ++ [g]) as Hg by (apply elem_of_app; right; left).
  assert (forall id x, delete me ws !! id = Some x -> exists y, writer s !! id = Some y /\ w_batch x = w_batch y /\ w_sync x = w_sync y) as Hold.
  { intros id x. rewrite Hws. unfold ended. case_decide; [done|]. repeat case_decide; intros Hx; try (apply fmap_Some in Hx as (y & Hy & ->); by exists y). by exists x. }
  assert (forall id, id ∈ rest -> id <> me /\ id ∉ members) as Hrest.
  { intros id Hid. assert (id ∉ members) as Hn by (intros Hin; by apply (Hdisj _ Hin)). split; [|done]. by intros ->. }
  split; [split; cbn|exact Hbound|split; [by split|]].
  - apply Hc.
  - rewrite (wc_order _ Hc), Eq, fmap_app, join_app. cbn. by rewrite app_nil_r, app_assoc.
  - apply Hc.
  - apply Hc.
  - intros id x (y & Hy & -> & ->)%Hold. by apply (wc_called _ Hc).
  - intros id Hid. destruct (Hrest id Hid) as [H1 H2]. destruct (wc_queue _ Hc id) as (x & Hx & Hd); [rewrite Eq; apply elem_of_app; by right|].
    rewrite Hws. unfold ended. rewrite decide_False by done. case_decide; [|rewrite decide_False by done]; rewrite Hx; by eexists.
  - intros id x Hx. rewrite Hws in Hx. unfold ended in Hx. case_decide; [done|]. case_decide as Hh.
    { left. destruct rest; [done|]. injection Hh as ->. left. }
    case_decide as Hin.
    + right. apply fmap_Some in Hx as (y & Hy & ->). split; [done|]. split; [done|]. by exists g.
    + destruct (wc_done _ Hc id x Hx) as [Hq|(Hd & Ha & g' & Hg' & Hin' & Hst)].
      * left. rewrite Eq in Hq. by apply elem_of_app in Hq as [|].
      * right. split; [done|]. split; [done|]. exists g'. split; [apply elem_of_app; by left|done].
  - intros id st' [Hr|Hr]%elem_of_app.
    + destruct (wc_returned _ Hc id st' Hr) as [Hn (g' & Hg' & Hin & Hst)]. split.
      * rewrite Hws. unfold ended. rewrite Hn. by repeat case_decide.
      * exists g'. split; [apply elem_of_app; by left|done].
    + apply list_elem_of_singleton in Hr. injection Hr as -> ->. split; [by rewrite lookup_delete_eq|]. by exists g.
  - rewrite fmap_app. apply list.NoDup_app. split; [apply Hc|]. split; [|apply NoDup_singleton].
    intros id ([id' st'] & -> & Hr)%list_elem_of_fmap. cbn. rewrite list_elem_of_singleton. intros ->.
    destruct (wc_returned _ Hc me st' Hr) as [Hn _]. destruct (wc_queue _ Hc me) as (x & Hx & _); [rewrite Eq; apply elem_of_app; by left|].
    by rewrite Hn in Hx.
  - intros g' id [Hg'|Hg']%elem_of_app Hu Hst Hin; [by apply (wc_plain _ Hc g')|]. apply list_elem_of_singleton in Hg' as ->.
    by apply Hplain.
  - intros id x Hh Hx. rewrite Hws in Hx. unfold ended in Hx. case_decide; [done|]. rewrite decide_True in Hx by done.
    by apply fmap_Some in Hx as (y & _ & ->).
Qed.

(** ** Steps that do not end a group *)

Lemma log_of_ge c D gs n rs : log_of c D gs n rs -> base <= n.
Proof. induction 1; lia. Qed.

(** Other threads, and the writer that makes room, leave the rest alone. *)
Lemma write_core_moved db w s : unmoved (database s, disk s) (db, w) -> write_core s -> write_core (set_disk w (set_database db s)).
Proof.
  intros Hun Hc. destruct Hc as [[[Hl Hp] Hr] A2 A3 A4 A5 A6 A7 A8 A9 A10]. split; try done.
  split; [split; [by apply (um_levels _ _ Hun)|by apply (um_prev _ _ Hun)]|by apply (um_ready _ _ Hun)].
Qed.

Lemma log_of_moved db w s gs n : unmoved (database s, disk s) (db, w) -> log_ok s gs n ->
  log_of (calls (history s)) (durable w) gs n (log_records w).
Proof.
  intros Hun Hlog. pose proof (um_records _ _ Hun) as Er. cbn [snd] in Er. rewrite Er. eapply log_of_mono; [exact Hlog|apply (um_durable _ _ Hun)|done].
Qed.

Context (Hbase : 0 <= base).

Definition fits s : Prop := base + Z.of_nat (length (ops_of s (arrivals (history s)))) + 1 < 2 ^ 64.

Lemma BuildBatchGroup_ok me rest s x batch : write_core s -> writers_ s = me :: rest -> writer s !! me = Some x -> w_batch x = Some batch ->
  batch_ops (tmp_batch_ s) = [] -> exists joined last members left_, BuildBatchGroup s = Some (batch, joined, last) /\
    writers_ s = members ++ left_ /\ list.head members = Some me /\ list.last members = Some last /\
    batch_ops (default batch joined) = ops_of s members /\
    (syncs (calls (history s)) members -> calls (history s) !! me = Some (Some batch, true)).
Proof.
  intros Hc Eq Hx Hb Htmp. unfold BuildBatchGroup. rewrite Eq. cbn [list.head mbind option_bind]. rewrite Hx. cbn [mbind option_bind].
  rewrite Hb. cbn [mbind option_bind]. set (max_size := if _ <=? _ then _ else _).
  destruct (group_loop_ok (calls (history s)) (batch_ByteSize batch) max_size x batch (tmp_batch_ s) rest (writer s) None me)
    as (joined & taken & left_ & E & Er & Hsync & Hops); [apply Hc| |done|].
  { apply list.Forall_forall. intros id Hid. destruct (wc_queue _ Hc id) as (y & Hy & _); [rewrite Eq; by right|by eexists]. }
  pose proof (wc_called _ Hc _ _ Hx) as Hcall. rewrite Hb in Hcall. cbn [tail]. rewrite E. cbn [mbind option_bind].
  exists joined, (default me (list.last taken)), (me :: taken), left_. split; [done|]. split; [by rewrite Er|]. split; [done|].
  split; [destruct taken as [|a taken]; [done|]; rewrite last_cons_cons; by destruct (list.last (a :: taken)) eqn:El; [|apply last_None in El]|].
  split; [rewrite Hops, group_ops_cons; unfold call_ops at 1; by rewrite Hcall|].
  intros (id & b & [->|Hid]%elem_of_cons & Hidb).
  - rewrite Hcall in Hidb |- *. by injection Hidb as _ ->.
  - rewrite Hcall. by rewrite (Hsync id b Hid Hidb).
Qed.

Lemma Write_room_ok force allow_delay s : write_core s -> bounded s (last_sequence s) (writers_ s) -> fits s -> writers_ s <> [] -> idle s ->
  exists s', Write_room force allow_delay s = Some s' /\ write_inv s'.
Proof.
  intros Hc Hbound Hfits Hne (Htmp & Hlog & Hmem). destruct (writers_ s) as [|me rest] eqn:Eq; [done|]. clear Hne.
  destruct (wc_queue _ Hc me) as (x & Hx & Hdone); [rewrite Eq; left|].
  unfold Write_room. rewrite Eq. cbn [list.head mbind option_bind]. rewrite Hx. cbn [mbind option_bind].
  destruct (MakeRoomForWrite_ok force allow_delay (database s) (disk s) (proj1 (wc_db _ Hc)) (proj2 (wc_db _ Hc))) as (r & db & w & -> & Hun & Hm & Hknown).
  cbn [mbind option_bind]. set (s1 := set_disk w (set_database db s)).
  assert (write_core s1) as Hc1 by (by apply write_core_moved).
  pose proof (um_sequence _ _ Hun) as Eseq. cbn [fst] in Eseq.
  assert (mem_upto s1 (last_sequence s1)) as Hmem1.
  { intros e He. cbn in He |- *. rewrite Eseq. destruct Hm as [Hm|[_ Hm]]; rewrite Hm in He; [by apply Hmem|by apply elem_of_nil in He]. }
  assert (log_ok s1 (groups (history s1)) (last_sequence s1)) as Hlog1 by (cbn; rewrite Eseq; exact (log_of_moved _ _ _ _ _ Hun Hlog)).
  assert (idle s1) as Hidle1 by done.
  assert (bounded s1 (last_sequence s1) (me :: rest)) as Hbound1 by (unfold bounded; cbn; by rewrite Eseq).
  destruct r as [st|f|f a].
  2: { eexists. split; [done|]. split; [by destruct Hc1|by rewrite <- Eq in Hbound1|]. split; [done|]. cbn. by rewrite Eq. }
  2: { eexists. split; [done|]. split; [by destruct Hc1|by rewrite <- Eq in Hbound1|]. split; [done|]. split; [cbn; by rewrite Eq|done]. }
  destruct (bool_decide (st = Ok) && bool_decide (is_Some (w_batch x))) eqn:Eb.
  - apply andb_true_iff in Eb as [_ [batch Hbatch]%bool_decide_eq_true].
    destruct (BuildBatchGroup_ok me rest s1 x batch Hc1 Eq Hx Hbatch Htmp) as (joined & last & members & left_ & -> & Eq1 & Hhead & Hlast & Hops & Hsync).
    cbn [mbind option_bind]. set (updates := batch_SetSequence _ _). set (s2 := if bool_decide (is_Some joined) then set_tmp updates s1 else s1).
    eexists. split; [done|]. destruct (ops_SetSequence (wrap 64 (vs_last_sequence_ (versions_ db) + 1)) (default batch joined)) as [Eo Es].
    pose proof (log_of_ge _ _ _ _ _ Hlog1) as Hge.
    assert (Z.of_nat (length (batch_ops updates)) <= Z.of_nat (length (ops_of s1 (me :: rest)))) as Hlen.
    { unfold updates. rewrite Eo, Hops. replace (me :: rest) with (members ++ left_) by (rewrite <- Eq1; exact Eq). rewrite group_ops_app, length_app. lia. }
    unfold bounded in Hbound1. unfold fits in Hfits. change (last_sequence s1) with (vs_last_sequence_ (versions_ db)) in *.
    change (history s1) with (history s) in *.
    assert (group_of (set_leading (Some (Logging updates (bool_decide (is_Some joined)) last (wrap 64 (vs_last_sequence_ (versions_ db) + batch_Count updates)))) s2)
      updates last (wrap 64 (vs_last_sequence_ (versions_ db) + batch_Count updates)) members left_) as Hgo.
    { unfold s2. split; [by case_bool_decide|done|by unfold updates; rewrite Eo, Hops; case_bool_decide| |].
      - unfold updates. rewrite Es. rewrite wrap_small by (unfold is_u; lia). by case_bool_decide.
      - rewrite Count_ops, wrap_small by (unfold is_u; lia). by case_bool_decide. }
    split.
    + unfold s2. case_bool_decide; by destruct Hc1.
    + unfold s2, bounded. case_bool_decide; cbn; by rewrite Eq.
    + cbn. split; [unfold s2; by case_bool_decide|]. split; [unfold s2; by case_bool_decide|]. split; [unfold s2; by case_bool_decide|].
      exists members, left_, me, (Some batch). split; [exact Hgo|]. split; [done|]. unfold s2. by case_bool_decide.
  - apply (finish_group_ok st None me [me] rest s1); try done.
    + apply log_plain; done.
    + unfold bounded in Hbound1 |- *. change (me :: rest) with ([me] ++ rest) in Hbound1. rewrite group_ops_app, length_app in Hbound1. lia.
    + intros _ -> id ->%list_elem_of_singleton. rewrite bool_decide_true in Eb by done. cbn [andb] in Eb. apply bool_decide_eq_false in Eb.
      exists (w_sync x). cbn. rewrite (wc_called _ Hc _ _ Hx). destruct (w_batch x); [by destruct Eb|done].
Qed.

Lemma write_core_writer id x s : write_core s -> writer s !! id = Some x -> id ∈ writers_ s ->
  write_core (set_queue (writers_ s) (<[id := set_awake false x]> (writer s)) s).
Proof.
  intros Hc Hx Hq. destruct (wc_queue _ Hc id Hq) as (x' & Hx' & Hdone). rewrite Hx in Hx'. injection Hx' as <-.
  destruct Hc as [A1 A2 A3 A4 A5 A6 A7 A8 A9 A10]. split; try done; cbn.
  - intros id' y. destruct (decide (id' = id)) as [->|]; [rewrite lookup_insert_eq; intros [= <-]; exact (A5 id x Hx)|].
    rewrite lookup_insert_ne by done. apply A5.
  - intros id' Hid'. destruct (decide (id' = id)) as [->|]; [rewrite lookup_insert_eq; eexists; split; [done|exact Hdone]|]. rewrite lookup_insert_ne by done. by apply A6.
  - intros id' y. destruct (decide (id' = id)) as [->|]; [by left|]. rewrite lookup_insert_ne by done. apply A7.
  - intros id' st' Hr. destruct (A8 id' st' Hr) as [Hn Hg]. split; [|done]. rewrite lookup_insert_ne; [done|]. intros ->. by rewrite Hx in Hn.
Qed.

Lemma group_of_same s s' updates last n members rest : writers_ s' = writers_ s -> calls (history s') = calls (history s) ->
  last_sequence s' = last_sequence s -> group_of s updates last n members rest -> group_of s' updates last n members rest.
Proof. intros E1 E2 E3 [B1 B2 B3 B4 B5]. split; congruence. Qed.

(** Only the writers changed. *)
Lemma leading_ok_same s s' : writers_ s' = writers_ s -> database s' = database s -> disk s' = disk s -> tmp_batch_ s' = tmp_batch_ s ->
  leading s' = leading s -> calls (history s') = calls (history s) -> groups (history s') = groups (history s) ->
  (forall id x, list.head (writers_ s) = Some id -> writer s' !! id = Some x -> writer s !! id = Some x) -> leading_ok s -> leading_ok s'.
Proof.
  intros E1 E2 E3 E4 E5 E6 E7 Hw. pose proof (fun u l n m r => group_of_same s s' u l n m r E1 E6 ltac:(by rewrite E2)) as Hg.
  unfold leading_ok, idle, mem_upto, mem_partly, recorded. rewrite E1, E2, E3, E4, E5, E6, E7.
  destruct (leading s) as [[f|f a sg|upd t last n|upd t last n|upd t last n k|st e upd t last n]|]; [done|done|..].
  - intros (T & L & U & members & rest & me & b & H1 & H2). do 3 (split; [done|]). exists members, rest, me, b. split; [by apply Hg|done].
  - intros (T & U & members & rest & rs & H1 & H2). do 2 (split; [done|]). exists members, rest, rs. split; [by apply Hg|done].
  - intros (T & U & members & rest & rs & H1 & H2). do 2 (split; [done|]). exists members, rest, rs. split; [by apply Hg|done].
  - intros (T & members & rest & k & H1 & H2). split; [done|]. exists members, rest, k. split; [by apply Hg|done].
  - intros [Hidle Hh]. split; [done|]. intros id x Hid Hx. eapply Hh; [exact Hid|by apply Hw].
Qed.

Lemma Write_check_ok id s : write_inv s -> fits s -> waits id s -> exists s', Write_check id s = Some s' /\ write_inv s'.
Proof.
  intros [Hc Hbound Hlead] Hfits [[x Hx] Hwait]. unfold Write_check. rewrite Hx. cbn [mbind option_bind].
  destruct (w_done x) eqn:Hdone.
  - eexists. split; [done|].
    assert (id ∉ writers_ s) as Hq by (intros Hq; destruct (wc_queue _ Hc id Hq) as (y & Hy & Hd); rewrite Hx in Hy; injection Hy as <-; by rewrite Hdone in Hd).
    destruct (wc_done _ Hc id x Hx) as [?|(_ & _ & g & Hg & Hin & Hst)]; [done|].
    split; [|done|].
    + destruct Hc as [A1 A2 A3 A4 A5 A6 A7 A8 A9 A10]. split; try done; cbn.
      * intros id' y Hy. apply lookup_delete_Some in Hy as [_ Hy]. by apply A5.
      * intros id' Hid'. rewrite lookup_delete_ne by (by intros ->). by apply A6.
      * intros id' y Hy. apply lookup_delete_Some in Hy as [_ Hy]. by apply A7.
      * intros id' st' [Hr|Hr]%elem_of_app.
        -- destruct (A8 id' st' Hr) as [Hn Hg']. split; [|done]. apply lookup_delete_None. by right.
        -- apply list_elem_of_singleton in Hr. injection Hr as -> ->. split; [by rewrite lookup_delete_eq|]. by exists g.
      * rewrite fmap_app. apply list.NoDup_app. split; [done|]. split; [|apply NoDup_singleton].
        intros id' ([id2 st2] & -> & Hr)%list_elem_of_fmap. cbn. rewrite list_elem_of_singleton. intros ->.
        destruct (A8 id st2 Hr) as [Hn _]. by rewrite Hx in Hn.
    + eapply leading_ok_same; [..|exact Hlead]; try done. intros id' y Hh Hy. cbn in Hy. by apply lookup_delete_Some in Hy as [_ Hy].
  - destruct (wc_done _ Hc id x Hx) as [Hq|(Hd & _)]; [|by rewrite Hdone in Hd].
    destruct (list.head (writers_ s)) as [front|] eqn:Eh; [|by destruct (writers_ s); [apply elem_of_nil in Hq|]]. cbn [mbind option_bind].
    case_bool_decide as Hf.
    + subst front. destruct Hwait as [Hnone|Hne]; [|done]. unfold leading_ok in Hlead. rewrite Hnone in Hlead. destruct Hlead as [Hidle _].
      apply Write_room_ok; try done. by destruct (writers_ s).
    + eexists. split; [done|]. split; [by apply write_core_writer|done|].
      eapply leading_ok_same; [..|exact Hlead]; try done. intros id' y Hh Hy. rewrite Eh in Hh. injection Hh as ->.
      cbn in Hy. by rewrite lookup_insert_ne in Hy by congruence.
Qed.

(** ** A new call *)

Lemma members_arrived s : write_core s -> forall id, id ∈ mjoin (g_members <$> groups (history s)) -> id ∈ arrivals (history s).
Proof. intros Hc id Hid. rewrite (wc_order _ Hc). apply elem_of_app. by left. Qed.

Lemma queue_arrived s : write_core s -> forall id, id ∈ writers_ s -> id ∈ arrivals (history s).
Proof. intros Hc id Hid. rewrite (wc_order _ Hc). apply elem_of_app. by right. Qed.

Definition called_state id updates sync s : Writing B M W :=
  note_call id updates sync (set_queue (writers_ s ++ [id]) (<[id := mkWriter updates sync false Ok true]> (writer s)) s).

Lemma member_arrived s g id : write_core s -> g ∈ groups (history s) -> id ∈ g_members g -> id ∈ arrivals (history s).
Proof.
  intros Hc Hg Hin. apply members_arrived; [done|]. apply list_elem_of_join. exists (g_members g). split; [done|]. apply list_elem_of_fmap. by exists g.
Qed.

Lemma writer_arrived s id x : write_core s -> writer s !! id = Some x -> id ∈ arrivals (history s).
Proof. intros Hc Hx%(wc_called _ Hc). apply (wc_dom _ Hc). by eexists. Qed.

Lemma called_core id updates sync s : write_core s -> id ∉ arrivals (history s) -> write_core (called_state id updates sync s).
Proof.
  intros Hc Hid. pose proof (fun id' x => writer_arrived s id' x Hc) as Hw. pose proof (fun g id' => member_arrived s g id' Hc) as Hm.
  destruct Hc as [A1 A2 A3 A4 A5 A6 A7 A8 A9 A10]. split; try done; cbn.
  - by rewrite A2, app_assoc.
  - apply list.NoDup_app. split; [done|]. split; [|apply NoDup_singleton]. intros id' Hid'. rewrite list_elem_of_singleton. by intros ->.
  - intros id'. rewrite elem_of_app, list_elem_of_singleton, <- A4. destruct (decide (id' = id)) as [->|].
    + rewrite lookup_insert_eq. split; [by right|by eexists].
    + rewrite lookup_insert_ne by done. tauto.
  - intros id' x. destruct (decide (id' = id)) as [->|]; [rewrite !lookup_insert_eq; by intros [= <-]|].
    rewrite !lookup_insert_ne by done. apply A5.
  - intros id' [Hq|Hq]%elem_of_app.
    + rewrite lookup_insert_ne; [by apply A6|]. intros <-. destruct (A6 _ Hq) as (x & Hx & _). by apply Hid, (Hw _ x).
    + apply list_elem_of_singleton in Hq as ->. rewrite lookup_insert_eq. by eexists.
  - intros id' x. rewrite elem_of_app. destruct (decide (id' = id)) as [->|]; [left; right; left|].
    rewrite lookup_insert_ne by done. intros Hx. destruct (A7 _ _ Hx); auto.
  - intros id' st' Hr. destruct (A8 id' st' Hr) as [Hn (g & Hg & Hin & Hst)]. split; [|by exists g].
    rewrite lookup_insert_ne; [done|]. intros <-. apply Hid. by apply (Hm g).
  - intros g id' Hg Hu Hst Hin. rewrite lookup_insert_ne; [by apply (A10 g)|]. intros <-. apply Hid. by apply (Hm g).
Qed.

Lemma called_ops id updates sync s ids : id ∉ ids -> ops_of (called_state id updates sync s) ids = ops_of s ids.
Proof. intros Hid. apply group_ops_ext. intros id' Hin. cbn. rewrite lookup_insert_ne; [done|]. by intros ->. Qed.

(** The thread that leads is in the queue. *)
Lemma leading_nonempty s l : leading_ok s -> leading s = Some l -> writers_ s <> [].
Proof.
  intros Hlead El Hnil. unfold leading_ok in Hlead. rewrite El in Hlead.
  assert (forall upd last n members rest, group_of s upd last n members rest -> False) as Hno.
  { intros upd last n members rest [Hq Hl _ _ _]. rewrite Hnil in Hq. by destruct members. }
  destruct l as [f|f a sg|upd t last n|upd t last n|upd t last n k|st e upd t last n].
  - by destruct Hlead.
  - by destruct Hlead as (_ & ? & _).
  - destruct Hlead as (_ & _ & _ & members & rest & me & b & Hg & _). by eapply Hno.
  - destruct Hlead as (_ & _ & members & rest & rs & Hg & _). by eapply Hno.
  - destruct Hlead as (_ & _ & members & rest & rs & Hg & _). by eapply Hno.
  - destruct Hlead as (_ & members & rest & k & Hg & _). by eapply Hno.
Qed.

Lemma called_inv id updates sync s : write_inv s -> id ∉ arrivals (history s) -> write_inv (called_state id updates sync s) /\ waits id (called_state id updates sync s).
Proof.
  intros [Hc Hbound Hlead] Hid. set (s1 := called_state id updates sync s).
  assert (id ∉ writers_ s) as Hq by (intros Hq; by apply Hid, (queue_arrived s Hc)).
  assert (forall D gs n rs, (forall id', id' ∈ mjoin (g_members <$> gs) -> id' ∈ arrivals (history s)) ->
    log_of (calls (history s)) D gs n rs -> log_of (calls (history s1)) D gs n rs) as Hmono.
  { intros D gs n rs Hgs Hlog. eapply log_of_mono; [exact Hlog|done|]. intros id' Hin%Hgs. cbn. rewrite lookup_insert_ne; [done|]. by intros <-. }
  assert (forall members rest, writers_ s = members ++ rest -> id ∉ members /\ (syncs (calls (history s1)) members -> syncs (calls (history s)) members)) as Hmem.
  { intros members rest E. assert (id ∉ members) as Hn by (intros Hin; apply Hq; rewrite E; apply elem_of_app; by left). split; [done|].
    intros (id' & b & Hin & Hb). exists id', b. split; [done|]. cbn in Hb. rewrite lookup_insert_ne in Hb; [done|]. by intros <-. }
  assert (forall upd last n members rest, group_of s upd last n members rest -> group_of s1 upd last n members (rest ++ [id])) as Hgo.
  { intros upd last n members rest [B1 B2 B3 B4 B5]. split; try done; [cbn; by rewrite B1, app_assoc|].
    rewrite B3. symmetry. apply called_ops. by apply (Hmem members rest). }
  assert (idle s -> idle s1) as Hidle.
  { intros (T & L & U). split; [done|]. split; [|done]. by apply Hmono; [exact (members_arrived s Hc)|]. }
  assert (forall upd rs, recorded s upd rs -> recorded s1 upd rs) as Hrec.
  { intros upd rs [L U]. split; [|done]. by apply Hmono; [exact (members_arrived s Hc)|]. }
  split; [split|].
  - by apply called_core.
  - unfold bounded in *. change (writers_ s1) with (writers_ s ++ [id]). change (arrivals (history s1)) with (arrivals (history s) ++ [id]).
    change (vs_last_sequence_ (versions_ (database s1))) with (last_sequence s). rewrite !group_ops_app, !length_app.
    unfold s1. rewrite (called_ops id updates sync s (writers_ s)), (called_ops id updates sync s (arrivals (history s))) by done. lia.
  - unfold leading_ok in *. change (leading s1) with (leading s).
    destruct (leading s) as [[f|f a sg|upd t last n|upd t last n|upd t last n k|st e upd t last n]|].
    + destruct Hlead as [Hi Hne]. split; [by apply Hidle|]. cbn. by destruct (writers_ s).
    + destruct Hlead as (Hi & Hne & Hsg). split; [by apply Hidle|]. split; [|done]. cbn. by destruct (writers_ s).
    + destruct Hlead as (T & L & U & members & rest & me & b & Hg & Hh & Hs). split; [done|]. split; [by apply Hmono; [exact (members_arrived s Hc)|]|]. split; [done|].
      exists members, (rest ++ [id]), me, b. split; [by apply Hgo|]. split; [done|]. destruct (Hmem members rest (go_queue _ _ _ _ _ _ Hg)) as [Hn Hsy].
      intros Hx%Hsy%Hs. cbn. rewrite lookup_insert_ne; [done|]. intros <-. apply Hn. destruct members; [done|]. injection Hh as ->. left.
    + destruct Hlead as (T & U & members & rest & rs & Hg & Hr). do 2 (split; [done|]). exists members, (rest ++ [id]), rs. split; [by apply Hgo|by apply Hrec].
    + destruct Hlead as (T & U & members & rest & rs & Hg & Hr & Hs). do 2 (split; [done|]). exists members, (rest ++ [id]), rs. split; [by apply Hgo|].
      split; [by apply Hrec|]. destruct (Hmem members rest (go_queue _ _ _ _ _ _ Hg)) as [_ Hsy]. intros Hx%Hsy. by apply Hs.
    + destruct Hlead as (T & members & rest & k & Hg & L & U & V). split; [done|]. exists members, (rest ++ [id]), k. split; [by apply Hgo|].
      split; [|done]. apply Hmono; [|done]. intros id'. rewrite fmap_app, join_app, elem_of_app. cbn. rewrite app_nil_r.
      intros [Hin|Hin]; [by apply members_arrived|]. apply (queue_arrived s Hc). rewrite (go_queue _ _ _ _ _ _ Hg). apply elem_of_app. by left.
    + destruct Hlead as [Hi Hh]. split; [by apply Hidle|]. cbn.
      intros id' x. destruct (writers_ s) as [|front q] eqn:Eq; cbn [app list.head]; intros [= <-].
      * rewrite lookup_insert_eq. by intros [= <-].
      * rewrite lookup_insert_ne; [by apply Hh|]. intros <-. apply Hq. left.
  - split; [cbn; rewrite lookup_insert_eq; by eexists|]. change (leading s1) with (leading s). cbn.
    destruct (leading s) as [l|] eqn:El; [right|by left]. assert (writers_ s <> []) as Hne by by eapply leading_nonempty.
    destruct (writers_ s) as [|front q] eqn:Eq; [done|]. cbn. intros [= ->]. apply Hq. left.
Qed.
End safe.
