(* ===== verification/DbWriteLog.v ===== *)
(** * Acknowledged writes are in the log

    The steps that write a group, and the properties of all runs of [DbWrite.v]. *)

From Stdlib Require Import String.
From stdpp Require Import base list gmap relations.
From S2P Require Import Prelude Doubles Cursor Coding DbFormat VersionEdit VersionFiles VersionState Builder VersionRefs.
From S2P Require Import Compaction Manifest DbState DbBackground DbWrite DbWriteProps DbWriteSafe.

#[local] Open Scope Z_scope.

Section runs.
Context {B M W O : Type} `{!Batches B M} `{!LogFile W} `{!WriteOptions} `{!BatchLaws B M O} `{!LogFileLaws W}.
Implicit Types (db : Db M) (w : W) (s : Writing B M W) (id : positive) (x : Writer B) (g : Group B).
Context (base : Z) (rs0 : list (list Z)) (Hbase : 0 <= base).

Abbreviation last_sequence s := (vs_last_sequence_ (versions_ (database s))).
Abbreviation ops_of s := (group_ops (calls (history s))).
Abbreviation inv := (write_inv base rs0).

(** ** Writing a group *)

Lemma elem_of_numbered (a : Z) n (l : list O) e : e ∈ numbered a n l <->
  exists i, l !! i = Some e.2 /\ e.1 = a + Z.of_nat i /\ (i < n)%nat.
Proof.
  unfold numbered. rewrite list_elem_of_lookup. split; intros [i Hi]; exists i.
  - apply lookup_zip_with_Some in Hi as (p & q & -> & Hp%lookup_seqZ & Hq). apply lookup_take_Some in Hq as [Hq Hin].
    cbn. split; [done|]. lia.
  - destruct Hi as (Hl & E & Hin). destruct e as [p q]. cbn in *. apply lookup_zip_with_Some. exists p, q. split; [done|]. split.
    + apply lookup_seqZ. lia.
    + by apply lookup_take_Some.
Qed.

Lemma numbered_S (a : Z) k (l : list O) o : l !! k = Some o -> numbered a (S k) l = numbered a k l ++ [(a + Z.of_nat k, o)].
Proof.
  intros Hk. unfold numbered. rewrite (take_S_r _ _ _ Hk). replace (Z.of_nat (S k)) with (Z.of_nat k + 1) by lia.
  rewrite seqZ_app by lia. rewrite zip_with_app; [done|]. rewrite length_seqZ, length_take. apply lookup_lt_Some in Hk. lia.
Qed.

(** Nothing of the group is there yet. *)
Lemma mem_partly_0 s updates : mem_upto s (last_sequence s) -> mem_partly s updates 0.
Proof. intros Hm. split; [lia|]. exists (mem_entries (mem_ (database s))). by rewrite app_nil_r. Qed.

Lemma mem_partly_upto s updates k n : mem_partly s updates k -> n = last_sequence s + Z.of_nat (length (batch_ops updates)) -> mem_upto s n.
Proof.
  intros (Hk & old & Em & Hold) -> e He. rewrite Em in He. apply elem_of_app in He as [He|He]; [apply Hold in He; lia|].
  apply elem_of_numbered in He as (i & Hi%lookup_lt_Some & -> & _). lia.
Qed.

(** The group that was recorded, with its status. *)
Lemma recorded_log s updates rs members st : recorded base rs0 s updates rs -> batch_sequence updates = last_sequence s + 1 ->
  batch_ops updates = ops_of s members -> (st = Ok -> syncs (calls (history s)) members -> durable (disk s) (length rs)) ->
  log_of base rs0 (calls (history s)) (durable (disk s)) (groups (history s) ++ [mkGroup members st (Some updates)])
    (last_sequence s + Z.of_nat (length (batch_ops updates))) (log_records (disk s)).
Proof. intros (L & E & _) Hseq Hops Hd. eapply log_batch; [exact L|done|done|done|]. left. by rewrite E. Qed.

Lemma Write_log_ok updates temporary last n s : inv s -> leading s = Some (Logging updates temporary last n) ->
  exists s', Write_log updates temporary last n s = Some s' /\ inv s'.
Proof.
  intros [Hc Hbound Hlead] El. unfold leading_ok in Hlead. rewrite El in Hlead.
  destruct Hlead as (Htmp & Hlog & Hmem & members & rest & me & b & Hgo & Hhead & Hsync).
  assert (list.head (writers_ s) = Some me) as Hme by (rewrite (go_queue _ _ _ _ _ _ Hgo); by destruct members).
  destruct (wc_queue _ Hc me) as (x & Hx & _); [destruct (writers_ s); [done|]; injection Hme as ->; left|].
  unfold Write_log. rewrite Hme. cbn [mbind option_bind]. rewrite Hx. cbn [mbind option_bind].
  destruct (log_AddRecord _ (disk s)) as [st w1] eqn:E1. apply AddRecord_law in E1 as (Hs1 & Hd1 & Hr1). pose proof (log_start_le (disk s)) as Hle.
  eexists. split; [done|]. set (l := if bool_decide _ then _ else _). set (s1 := set_leading _ _).
  assert (group_of s1 updates last n members rest) as Hgo1 by by destruct Hgo.
  assert (log_of base rs0 (calls (history s)) (durable w1) (groups (history s)) (last_sequence s) (log_records (disk s))) as Hlog1 by by eapply log_of_mono; [exact Hlog|exact Hd1|].
  split; [by destruct Hc|done|]. subst l. unfold leading_ok. cbn [s1 leading set_leading]. case_bool_decide as Hst.
  - subst st. destruct Hr1 as [Hr1|[? _]]; [|done]. assert (recorded base rs0 s1 updates (log_records (disk s))) as Hrec.
    { split; [exact Hlog1|]. split; [exact Hr1|]. cbn. by rewrite Hs1. }
    destruct (w_sync x) eqn:Esync.
    + split; [done|]. split; [exact Hmem|]. by exists members, rest, (log_records (disk s)).
    + split; [done|]. split; [by apply mem_partly_0|]. exists members, rest, (log_records (disk s)). do 2 (split; [done|]).
      intros Hsy%Hsync. rewrite (wc_called _ Hc _ _ Hx), Esync in Hsy. done.
  - split; [done|]. exists members, rest, 0%nat. split; [done|]. split; [|split; [by apply mem_partly_0|done]].
    destruct Hgo as [Hq Hl Hops Hseq Hn]. rewrite Hn. eapply log_batch; [exact Hlog1|done|done|done|]. cbn.
    destruct Hr1 as [Hr1|[_ Hr1]]; [left|by right]. split; [done|]. by intros ?.
Qed.

Lemma Write_sync_ok updates temporary last n s : inv s -> leading s = Some (Syncing updates temporary last n) ->
  inv (Write_sync updates temporary last n s).
Proof.
  intros [Hc Hbound Hlead] El. unfold leading_ok in Hlead. rewrite El in Hlead.
  destruct Hlead as (Htmp & Hmem & members & rest & rs & Hgo & Hrec). unfold Write_sync.
  destruct (logfile_Sync (disk s)) as [st w1] eqn:E1. apply Sync_law in E1 as (Hs1 & Hd1 & Hr1 & Hok).
  set (l := if bool_decide _ then _ else _). set (s1 := set_leading _ _).
  assert (group_of s1 updates last n members rest) as Hgo1 by by destruct Hgo. destruct Hrec as (L & E & Hle).
  assert (recorded base rs0 s1 updates rs) as Hrec1.
  { split; [by eapply log_of_mono; [exact L|exact Hd1|]|]. cbn. by rewrite Hr1, Hs1. }
  split; [by destruct Hc|done|]. subst l. unfold leading_ok. cbn [s1 leading set_leading]. case_bool_decide as Hst.
  - split; [done|]. split; [by apply mem_partly_0|]. exists members, rest, rs. do 2 (split; [done|]). intros _. apply Hok; [done|].
    rewrite E, length_app. cbn. lia.
  - split; [done|]. exists members, rest, 0%nat. split; [done|]. split; [|split; [by apply mem_partly_0|done]].
    rewrite (go_next _ _ _ _ _ _ Hgo). by apply (recorded_log s1 updates rs members st); [done|apply Hgo|apply Hgo|].
Qed.

Lemma Write_insert_ok updates temporary last n k s : inv s -> leading s = Some (Inserting updates temporary last n k) ->
  inv (Write_insert updates temporary last n k s).
Proof.
  intros [Hc Hbound Hlead] El. unfold leading_ok in Hlead. rewrite El in Hlead.
  destruct Hlead as (Htmp & (Hk & old & Em & Hold) & members & rest & rs & Hgo & Hrec & Hsy). unfold Write_insert.
  destruct (InsertInto_turn updates k _) as [r mem] eqn:E1. apply InsertInto_turn_law in E1.
  set (l := match r with None => _ | _ => _ end). set (s1 := set_leading _ _).
  assert (group_of s1 updates last n members rest) as Hgo1 by by destruct Hgo.
  split; [|done|].
  { destruct Hc as [[Hroom Hready] A2 A3 A4 A5 A6 A7 A8 A9 A10]. split; try done. split; [done|]. by eapply ready_same; [..|exact Hready]. }
  subst l. unfold leading_ok. cbn [s1 leading set_leading]. destruct r as [st|].
  - destruct E1 as [E1 Hall]. split; [done|]. exists members, rest, k. split; [done|]. split; [|split].
    + rewrite (go_next _ _ _ _ _ _ Hgo). apply (recorded_log s updates rs members st); [done|apply Hgo|apply Hgo|by intros _].
    + split; [done|]. exists old. cbn. by rewrite E1.
    + done.
  - destruct E1 as (o & Ho & E1). split; [done|]. split; [|by exists members, rest, rs].
    split; [apply lookup_lt_Some in Ho; lia|]. exists old. cbn. rewrite E1, Em, (numbered_S _ _ _ _ Ho), app_assoc.
    by rewrite (go_sequence _ _ _ _ _ _ Hgo).
Qed.

Lemma Write_end_ok st sync_error updates temporary last n s : inv s -> leading s = Some (Logged st sync_error updates temporary last n) ->
  exists s', Write_end st sync_error updates temporary last n s = Some s' /\ inv s'.
Proof.
  intros [Hc Hbound Hlead] El. unfold leading_ok in Hlead. rewrite El in Hlead.
  destruct Hlead as (Htmp & members & rest & k & Hgo & Hlog & Hmem & _). pose proof (mem_partly_upto _ _ _ n Hmem (go_next _ _ _ _ _ _ Hgo)) as Hupto.
  destruct Hgo as [Hq Hl Hops Hseq Hn].
  unfold Write_end. set (db := if sync_error then _ else _). set (s1 := if temporary then _ else _).
  assert (versions_ db = versions_ (database s) /\ mem_ db = mem_ (database s) /\ (ready (database s) -> ready db)) as (Ev & Em & Hrd).
  { unfold db, RecordBackgroundError. destruct sync_error; [|done]. case_bool_decide; [|done]. do 2 (split; [done|]).
    intros [Hs Hw]. split; [done|]. intros Hwork Herr. destruct (decide (st = Ok)) as [->|Hst]; [by apply Hw|by destruct Hst]. }
  rewrite Ev. unfold SetLastSequence. rewrite (proj2 (Z.leb_le _ _)) by lia. cbn [assert_ mbind option_bind].
  assert (batch_ops (tmp_batch_ s1) = [] /\ writers_ s1 = writers_ s /\ writer s1 = writer s /\ history s1 = history s /\ disk s1 = disk s)
    as (T & Eq & Ew & Eh & Ed) by (unfold s1; destruct temporary; split_and!; auto using ops_Clear).
  set (s2 := set_database _ s1).
  assert (write_core s2) as Hc2.
  { destruct Hc as [[[Hlv Hp] Hready] A2 A3 A4 A5 A6 A7 A8 A9 A10]. split; cbn [s2 database set_database writers_ writer history]; rewrite ?Eq, ?Ew, ?Eh; try done.
    split; [done|]. apply (ready_same db); try done; [cbn; by rewrite Ev|by apply Hrd]. }
  apply (finish_group_ok base rs0 st (Some updates) last members rest s2); try done.
  - cbn. by rewrite Eq.
  - cbn. by rewrite Eh, Ed.
  - intros e He. cbn in He |- *. rewrite Em in He. by apply Hupto.
  - unfold bounded in Hbound |- *. cbn [s2 database set_database history versions_ set_versions]. rewrite Eh.
    rewrite Hq, group_ops_app, length_app in Hbound. rewrite <- Hops in Hbound. cbn [vs_last_sequence_ with_sequence]. lia.
Qed.

(** ** The other threads *)

(** The database changed, but nothing that writing relies on. *)
Lemma moved_ok db w s : unmoved (database s, disk s) (db, w) -> log_start w = log_start (disk s) -> mem_ db = mem_ (database s) ->
  inv s -> inv (set_disk w (set_database db s)).
Proof.
  intros Hun Hst Hm [Hc Hbound Hlead]. pose proof (um_sequence _ _ Hun) as Es. cbn [fst snd] in Es.
  pose proof (fun gs n => log_of_moved base rs0 db w s gs n Hun) as Hlog. pose proof (um_records _ _ Hun) as Er. cbn [snd] in Er.
  pose proof (fun u l n m r => group_of_same s (set_disk w (set_database db s)) u l n m r eq_refl eq_refl Es) as Hgo.
  assert (idle base rs0 s -> idle base rs0 (set_disk w (set_database db s))) as Hidle.
  { intros (T & L & U). split; [done|]. split; [cbn; rewrite Es; by apply Hlog|]. unfold mem_upto. cbn. by rewrite Es, Hm. }
  assert (forall upd rs, recorded base rs0 s upd rs -> recorded base rs0 (set_disk w (set_database db s)) upd rs) as Hrec.
  { intros upd rs (L & E & Hle). split; [|split; cbn; [by rewrite Er|by rewrite Hst]]. cbn. rewrite Es.
    eapply log_of_mono; [exact L|apply (um_durable _ _ Hun)|done]. }
  split; [by apply write_core_moved|unfold bounded in *; cbn; by rewrite Es|].
  unfold leading_ok, mem_partly in *. cbn. rewrite Es, Hm.
  destruct (leading s) as [[f|f a sg|upd t last n|upd t last n|upd t last n k|st e upd t last n]|].
  - destruct Hlead. split; [by apply Hidle|done].
  - destruct Hlead as (Hi & Hne & Hsg). split; [by apply Hidle|]. split; [done|]. intros E. destruct (Hsg E) as [H1 H2]. split.
    + pose proof (um_error _ _ Hun) as Ee. cbn in Ee. by rewrite Ee.
    + intros Hsd. apply (um_scheduled _ _ Hun), H2. cbn. destruct (shutting_down_ (database s)) eqn:Eb; [|done].
      pose proof (um_shutdown _ _ Hun Eb) as Hb. cbn in Hb. congruence.
  - destruct Hlead as (T & L & U & members & rest & me & b & H1 & H2). split; [done|]. split; [by apply Hlog|].
    split; [unfold mem_upto; cbn; by rewrite Hm|]. exists members, rest, me, b. split; [by apply Hgo|done].
  - destruct Hlead as (T & U & members & rest & rs & H1 & H2). split; [done|]. split; [unfold mem_upto; cbn; by rewrite Hm|].
    exists members, rest, rs. split; [by apply Hgo|by apply Hrec].
  - destruct Hlead as (T & U & members & rest & rs & H1 & H2 & H3). do 2 (split; [done|]). exists members, rest, rs.
    split; [by apply Hgo|]. split; [by apply Hrec|]. intros Hsy. by apply (um_durable _ _ Hun), H3.
  - destruct Hlead as (T & members & rest & k & H1 & L & H2). split; [done|]. exists members, rest, k. split; [by apply Hgo|]. split; [by apply Hlog|done].
  - destruct Hlead as [Hi Hh]. split; [by apply Hidle|done].
Qed.

Lemma background_ok db w s : others (database s, disk s) (db, w) -> inv s -> inv (set_disk w (set_database db s)).
Proof. intros [Hun Hst Hm]. by apply moved_ok. Qed.

(** The flags of the background work change, with a signal. *)
Lemma signalled_ok db s : inv s -> versions_ db = versions_ (database s) -> mem_ db = mem_ (database s) -> ready db ->
  inv (signal_finished (set_database db s)).
Proof.
  intros [Hc Hbound Hlead] Ev Em Hready. set (s1 := set_database db s).
  assert (write_core s1) as Hc1.
  { destruct Hc as [[Hroom _] A2 A3 A4 A5 A6 A7 A8 A9 A10]. split; try done. split; [|done]. unfold room_for in *. cbn. by rewrite Ev. }
  assert (bounded base s1 (last_sequence s1) (writers_ s1)) as Hbound1 by (unfold bounded in *; cbn; by rewrite Ev).
  pose proof (fun u l n m r => group_of_same s s1 u l n m r eq_refl eq_refl ltac:(cbn; by rewrite Ev)) as Hgo.
  unfold signal_finished. change (leading s1) with (leading s).
  unfold leading_ok, idle, mem_upto, mem_partly, recorded in Hlead.
  destruct (leading s) as [[f|f a sg|upd t last n|upd t last n|upd t last n k|st e upd t last n]|] eqn:El; (split; [by destruct Hc1|done|]);
    unfold leading_ok, idle, mem_upto, mem_partly, recorded; cbn; rewrite ?El, Ev, ?Em.
  - done.
  - by destruct Hlead as (? & ? & _).
  - destruct Hlead as (T & L & U & members & rest & me & b & H1 & H2). do 3 (split; [done|]). exists members, rest, me, b. split; [by apply Hgo|done].
  - destruct Hlead as (T & U & members & rest & rs & H1 & H2). do 2 (split; [done|]). exists members, rest, rs. split; [by apply Hgo|done].
  - destruct Hlead as (T & U & members & rest & rs & H1 & H2). do 2 (split; [done|]). exists members, rest, rs. split; [by apply Hgo|done].
  - destruct Hlead as (T & members & rest & k & H1 & H2). split; [done|]. exists members, rest, k. split; [by apply Hgo|done].
  - done.
Qed.

Lemma record_error_ok st s : inv s -> inv (record_error st s).
Proof.
  intros Hinv. unfold record_error. case_bool_decide as Hok; [|done]. unfold RecordBackgroundError. rewrite bool_decide_true by done.
  apply signalled_ok; [done..|]. destruct (proj2 (wc_db _ (wi_core _ _ _ Hinv))) as [Hs Hw]. split; [done|].
  intros Hwork Herr. destruct (decide (st = Ok)) as [->|Hst]; [by apply Hw|by destruct Hst].
Qed.

Lemma finish_background_ok s : inv s -> inv (finish_background s).
Proof.
  intros Hinv. unfold finish_background, BackgroundCall_end.
  destruct (MaybeScheduleCompaction_ok (set_scheduled false (database s))) as (b & -> & Hw & _).
  apply signalled_ok; [done..|]. split; [apply (rd_scored _ (proj2 (wc_db _ (wi_core _ _ _ Hinv))))|exact Hw].
Qed.

(** ** Runs *)

Definition same_calls s s' : Prop := arrivals (history s') = arrivals (history s) /\ calls (history s') = calls (history s).

Lemma finish_group_calls st upd last s s' : finish_group st upd last s = Some s' -> same_calls s s'.
Proof. intros (me & _ & ([[popped q] ws] & _ & (ws' & _ & [= <-])%bind_Some)%bind_Some)%bind_Some. by split. Qed.

Lemma Write_room_calls f a s s' : Write_room f a s = Some s' -> same_calls s s'.
Proof.
  intros (me & _ & (x & _ & ([[r db] w] & _ & E)%bind_Some)%bind_Some)%bind_Some. destruct r as [st|f'|f' a']; [|by injection E as <-..].
  destruct (_ && _).
  - apply bind_Some in E as ([[b j] l] & _ & [= <-]). by destruct (bool_decide (is_Some j)).
  - by apply finish_group_calls in E.
Qed.

Lemma Write_check_calls id s s' : Write_check id s = Some s' -> same_calls s s'.
Proof.
  intros (x & _ & E)%bind_Some. destruct (w_done x); [by injection E as <-|]. apply bind_Some in E as (front & _ & E).
  case_bool_decide; [by apply Write_room_calls in E|by injection E as <-].
Qed.

Lemma Write_log_calls upd t last n s s' : Write_log upd t last n s = Some s' -> same_calls s s'.
Proof.
  unfold Write_log. intros (me & _ & (x & _ & E)%bind_Some)%bind_Some. destruct (log_AddRecord _ _) as [st1 w1]. by injection E as <-.
Qed.

Lemma Write_sync_calls upd t last n s : same_calls s (Write_sync upd t last n s).
Proof. unfold Write_sync. by destruct (logfile_Sync _). Qed.

Lemma Write_insert_calls upd t last n k s : same_calls s (Write_insert upd t last n k s).
Proof. unfold Write_insert. by destruct (InsertInto_turn _ _ _). Qed.

Lemma signal_finished_calls s : same_calls s (signal_finished s).
Proof. unfold signal_finished. by destruct (leading s) as [[]|]. Qed.

Lemma record_error_calls st s : same_calls s (record_error st s).
Proof. unfold record_error. case_bool_decide; [|done]. exact (signal_finished_calls (set_database _ s)). Qed.

Lemma Write_end_calls st e upd t last n s s' : Write_end st e upd t last n s = Some s' -> same_calls s s'.
Proof. intros (vs & _ & E)%bind_Some. apply finish_group_calls in E as [E1 E2]. split; [rewrite E1|rewrite E2]; by destruct t. Qed.

Lemma fits_same s s' : same_calls s s' -> fits base s' -> fits base s.
Proof. unfold fits. by intros [-> ->]. Qed.

Lemma fits_called id updates sync s : id ∉ arrivals (history s) -> fits base (called_state id updates sync s) -> fits base s.
Proof.
  intros Hid. unfold fits. change (arrivals (history (called_state id updates sync s))) with (arrivals (history s) ++ [id]).
  rewrite group_ops_app, length_app, called_ops by done. lia.
Qed.

(** The calls only grow. *)
Lemma write_step_fits s s' : write_step others s s' -> fits base s' -> fits base s.
Proof.
  intros [id updates sync s1 s2 Hid E|id s1 s2 Hw E|l f a s1 s2 El Em E|upd t last n s1 s2 El E|upd t last n s1 El|upd t last n k s1 El|
    st e upd t last n s1 s2 El E|st s1|s1 Hs|db w s1 Hbg].
  - intros Hf. eapply fits_called; [exact Hid|]. by eapply fits_same; [eapply Write_check_calls|].
  - by apply fits_same; eapply Write_check_calls.
  - by apply fits_same; eapply Write_room_calls.
  - by apply fits_same; eapply Write_log_calls.
  - apply fits_same, Write_sync_calls.
  - apply fits_same, Write_insert_calls.
  - by apply fits_same; eapply Write_end_calls.
  - apply fits_same, record_error_calls.
  - apply fits_same. exact (signal_finished_calls (set_database _ s1)).
  - done.
Qed.

(** A thread that makes room. *)
Lemma making_ok l f a s : inv s -> leading s = Some l -> making l = Some (f, a) -> idle base rs0 s /\ writers_ s <> [].
Proof.
  intros [_ _ Hlead] El Em. pose proof (leading_nonempty base rs0 s l Hlead El) as Hne. unfold leading_ok in Hlead. rewrite El in Hlead.
  destruct l; try done; by destruct Hlead.
Qed.

Lemma write_step_ok s s' : write_step others s s' -> inv s -> fits base s' -> inv s'.
Proof.
  intros Hstep Hinv Hfits. pose proof (write_step_fits _ _ Hstep Hfits) as Hf.
  destruct Hstep as [id updates sync s s' Hid E|id s s' Hw E|l f a s s' El Em E|upd t last n s s' El E|upd t last n s El|upd t last n k s El|
    st e upd t last n s s' El E|st s|s Hs|db w s Hbg].
  - change (Write_check id (called_state id updates sync s) = Some s') in E.
    pose proof (fits_same _ _ (Write_check_calls _ _ _ E) Hfits) as Hf1. destruct (called_inv base rs0 id updates sync s Hinv Hid) as [Hinv1 Hw].
    destruct (Write_check_ok base rs0 Hbase id _ Hinv1 Hf1 Hw) as (s2 & E2 & Hinv2). rewrite E in E2. by injection E2 as <-.
  - destruct (Write_check_ok base rs0 Hbase id s Hinv Hf Hw) as (s2 & E2 & Hinv2). rewrite E in E2. by injection E2 as <-.
  - destruct (making_ok l f a s Hinv El Em) as [Hidle Hne]. destruct Hinv as [Hc Hb Hl].
    destruct (Write_room_ok base rs0 Hbase f a s Hc Hb Hf Hne Hidle) as (s2 & E2 & Hinv2). rewrite E in E2. by injection E2 as <-.
  - destruct (Write_log_ok upd t last n s Hinv El) as (s2 & E2 & Hinv2). rewrite E in E2. by injection E2 as <-.
  - by apply Write_sync_ok.
  - by apply Write_insert_ok.
  - destruct (Write_end_ok st e upd t last n s Hinv El) as (s2 & E2 & Hinv2). rewrite E in E2. by injection E2 as <-.
  - by apply record_error_ok.
  - by apply finish_background_ok.
  - by apply background_ok.
Qed.

(** No call was made yet. *)
Definition write_start db w (tmp : B) : Writing B M W := mkWriting db w [] ∅ tmp None (mkHistory [] ∅ [] []).

Record start_ok db w (tmp : B) : Prop := {
  sk_db : room_for db;
  sk_ready : ready db;
  sk_tmp : batch_ops tmp = [];
  sk_base : vs_last_sequence_ (versions_ db) = base;
  sk_records : log_records w = rs0;
  sk_mem : forall e, e ∈ mem_entries (mem_ db) -> e.1 <= base }.

Lemma start_inv db w tmp : start_ok db w tmp -> inv (write_start db w tmp).
Proof.
  intros [H1 Hr H2 H3 H4 H5]. split.
  - split; cbn; try done; try (by intros ? ?%elem_of_nil); try (by intros ? ? ?%elem_of_nil).
    + constructor.
    + intros id. rewrite lookup_empty. split; [by intros [? ?]|by intros ?%elem_of_nil].
    + constructor.
  - unfold bounded. cbn. lia.
  - cbn. split; [|done]. split; [done|]. split; [|intros e He; cbn; rewrite H3; by apply H5]. cbn. rewrite H3, H4. constructor.
Qed.

Lemma runs_inv s0 s : inv s0 -> rtc (write_step others) s0 s -> fits base s -> inv s.
Proof.
  intros Hinv Hrun. revert Hinv. induction Hrun as [s|s0 s1 s Hstep Hrun IH]; intros Hinv Hfits; [done|].
  assert (forall s s', rtc (write_step others) s s' -> fits base s' -> fits base s) as Hback.
  { clear. induction 1 as [|s1 s2 s3 Hs _ IH]; [done|]. intros Hf%IH. by eapply write_step_fits. }
  apply IH; [|done]. eapply write_step_ok; [exact Hstep|exact Hinv|by eapply Hback].
Qed.
End runs.
