(* ===== verification/DbWriteRuns.v ===== *)
(** * All runs of concurrent writers

    What holds in every state that concurrent calls of [DBImpl::Write] can reach, and
    a run. *)

From Stdlib Require Import String.
From stdpp Require Import base list gmap relations.
From S2P Require Import Prelude Doubles Cursor Coding DbFormat VersionEdit VersionFiles VersionState Builder VersionRefs.
From S2P Require Import Compaction Manifest DbState DbBackground DbWrite DbWriteProps DbWriteSafe DbWriteLog.

#[local] Open Scope Z_scope.

Section theorems.
Context {B M W O : Type} `{!Batches B M} `{!LogFile W} `{!WriteOptions} `{!BatchLaws B M O} `{!LogFileLaws W}.
Implicit Types (db : Db M) (w : W) (s : Writing B M W) (id : positive) (x : Writer B) (g : Group B).
Context (base : Z) (rs0 : list (list Z)) (Hbase : 0 <= base) (db : Db M) (w : W) (tmp : B) (Hstart : start_ok base rs0 db w tmp).

Abbreviation last_sequence s := (vs_last_sequence_ (versions_ (database s))).
Abbreviation inv := (write_inv base rs0).

(** The write of [id] is in the log, among the writes of its group. *)
Definition in_log s id : Prop := exists g upd i, g ∈ groups (history s) /\ id ∈ g_members g /\
  log_records (disk s) !! i = Some (batch_Contents upd) /\ batch_ops upd = group_ops (calls (history s)) (g_members g) /\
  (forall b, calls (history s) !! id = Some (b, true) -> durable (disk s) i).

(** The last sequence number with the group whose record is in the log. *)
Definition sequence_logged s : Z :=
  match leading s with Some (Syncing _ _ _ n | Inserting _ _ _ n _ | Logged _ _ _ _ _ n) => n | _ => last_sequence s end.

Lemma pending_group s : leading_ok base rs0 s -> exists gs,
  log_of base rs0 (calls (history s)) (durable (disk s)) (groups (history s) ++ gs) (sequence_logged s) (log_records (disk s)) /\
  forall g, g ∈ gs -> g_members g `prefix_of` writers_ s.
Proof.
  intros Hlead.
  assert (log_of base rs0 (calls (history s)) (durable (disk s)) (groups (history s)) (last_sequence s) (log_records (disk s)) -> exists gs,
    log_of base rs0 (calls (history s)) (durable (disk s)) (groups (history s) ++ gs) (last_sequence s) (log_records (disk s)) /\
    forall g, g ∈ gs -> g_members g `prefix_of` writers_ s) as Hnone.
  { intros L. exists []. rewrite app_nil_r. split; [done|by intros ? ?%elem_of_nil]. }
  assert (forall upd last n members rest st, group_of s upd last n members rest ->
    log_of base rs0 (calls (history s)) (durable (disk s)) (groups (history s) ++ [mkGroup members st (Some upd)]) n (log_records (disk s)) -> exists gs,
    log_of base rs0 (calls (history s)) (durable (disk s)) (groups (history s) ++ gs) n (log_records (disk s)) /\
    forall g, g ∈ gs -> g_members g `prefix_of` writers_ s) as Hone.
  { intros upd last n members rest st Hgo L. eexists. split; [exact L|]. intros g ->%list_elem_of_singleton. exists rest. apply Hgo. }
  unfold leading_ok, sequence_logged in *. destruct (leading s) as [[f|f a sg|upd t last n|upd t last n|upd t last n k|st e upd t last n]|].
  - apply Hnone, Hlead.
  - apply Hnone, Hlead.
  - apply Hnone, Hlead.
  - destruct Hlead as (_ & _ & members & rest & rs & Hgo & Hrec). apply (Hone upd last n members rest (IOError 0) Hgo).
    rewrite (go_next _ _ _ _ _ _ Hgo). by apply (recorded_log base rs0 s upd rs); [done|apply Hgo..|].
  - destruct Hlead as (_ & _ & members & rest & rs & Hgo & Hrec & Hs). apply (Hone upd last n members rest Ok Hgo).
    rewrite (go_next _ _ _ _ _ _ Hgo). by apply (recorded_log base rs0 s upd rs); [done|apply Hgo..|].
  - destruct Hlead as (_ & members & rest & k & Hgo & L & _). by eapply Hone.
  - apply Hnone, Hlead.
Qed.

(** C2 (safety): in every state that writers, wakeups and the other threads can reach, in
    whatever order: the groups that are done and the queue are the calls in the order in which they were made, each once;
    a call returns at most once; when it returns [Ok] the log has a record with the operations of exactly its group,
    and that record survives a crash if the call asked for it, even if it did not lead
    the group; and the records are those of the groups in order, whose operations are numbered
    consecutively. *)
Theorem write_acknowledged s : rtc (write_step others) (write_start db w tmp) s -> fits base s ->
  arrivals (history s) = mjoin (g_members <$> groups (history s)) ++ writers_ s /\ NoDup (arrivals (history s)) /\
  NoDup (returned (history s)).*1 /\
  (forall id b sync, (id, Ok) ∈ returned (history s) -> calls (history s) !! id = Some (Some b, sync) -> in_log s id) /\
  exists gs, log_of base rs0 (calls (history s)) (durable (disk s)) (groups (history s) ++ gs) (sequence_logged s) (log_records (disk s)) /\
    forall g, g ∈ gs -> g_members g `prefix_of` writers_ s.
Proof.
  intros Hrun Hfits. destruct (runs_inv base rs0 Hbase _ s (start_inv base rs0 _ _ _ Hstart) Hrun Hfits) as [Hc _ Hlead].
  destruct (pending_group s Hlead) as (gs & Hlog & Hgs).
  split; [apply Hc|]. split; [apply Hc|]. split; [apply Hc|]. split; [|by exists gs].
  intros id b sync Hret Hcall. destruct (wc_returned _ Hc id Ok Hret) as [_ (g & Hg & Hin & Hst)].
  destruct (g_updates g) as [upd|] eqn:Hu.
  - destruct (log_of_found _ _ _ _ _ _ _ g upd Hlog) as (i & Hi & Hops & Hd); [apply elem_of_app; by left|done|done|].
    exists g, upd, i. do 4 (split; [done|]). intros b' Hb'. apply Hd. by exists id, b'.
  - destruct (wc_plain _ Hc g id Hg Hu Hst Hin) as [sync' Hp]. by rewrite Hcall in Hp.
Qed.

(** What a reader sees of the memtable whose snapshot is the last sequence number. *)
Definition visible s : list (Z * O) := filter (fun e => e.1 <= last_sequence s) (mem_entries (mem_ (database s))).

Lemma filter_all_In {A} (P : A -> Prop) `{!forall a, Decision (P a)} (l : list A) : (forall a, a ∈ l -> P a) -> filter P l = l.
Proof.
  induction l as [|a l IH]; intros Ha; [done|]. rewrite filter_cons_True by (apply Ha; left). f_equal. apply IH. intros b Hb. apply Ha. by right.
Qed.

Lemma filter_none_In {A} (P : A -> Prop) `{!forall a, Decision (P a)} (l : list A) : (forall a, a ∈ l -> ~ P a) -> filter P l = [].
Proof.
  induction l as [|a l IH]; intros Ha; [done|]. rewrite filter_cons_False by (apply Ha; left). apply IH. intros b Hb. apply Ha. by right.
Qed.

Lemma finish_group_database st updates last s s' : finish_group st updates last s = Some s' -> database s' = database s.
Proof. intros (me & _ & ([[popped q] ws] & _ & (ws' & _ & [= <-])%bind_Some)%bind_Some)%bind_Some. done. Qed.

Lemma visible_partly s upd k old : mem_entries (mem_ (database s)) = old ++ numbered (last_sequence s + 1) k (batch_ops upd) ->
  (forall e, e ∈ old -> e.1 <= last_sequence s) -> visible s = old.
Proof.
  intros E Hold. unfold visible. rewrite E, list.filter_app, filter_all_In by done.
  rewrite (filter_none_In _ (numbered _ _ _)); [by rewrite app_nil_r|]. intros e (i & _ & -> & _)%elem_of_numbered. lia.
Qed.

(** The memtable and the last sequence number after making room. *)
Lemma room_switched f a s s' : inv s -> Write_room f a s = Some s' ->
  last_sequence s' = last_sequence s /\ switched (database s) (database s').
Proof.
  intros Hinv E. pose proof (wc_db _ (wi_core _ _ _ Hinv)) as [Hroom Hready]. unfold Write_room in E.
  destruct (MakeRoomForWrite_ok f a (database s) (disk s) Hroom Hready) as (r & db1 & w1 & Er & Hun & Hsw & _). rewrite Er in E.
  apply bind_Some in E as (me & _ & (x & _ & E)%bind_Some). cbn [mbind option_bind] in E.
  pose proof (um_sequence _ _ Hun) as Es. cbn [fst] in Es.
  assert (database s' = db1) as ->; [|done].
  destruct r as [st|f'|f' a']; [|by injection E as <-..]. destruct (_ && _).
  - apply bind_Some in E as ([[b j] l] & _ & [= <-]). by destruct (bool_decide (is_Some j)).
  - by apply finish_group_database in E.
Qed.

Lemma check_switched id s s' : inv s -> Write_check id s = Some s' ->
  last_sequence s' = last_sequence s /\ switched (database s) (database s').
Proof.
  intros Hinv (x & _ & E)%bind_Some. destruct (w_done x); [injection E as <-; split; [done|by left]|].
  apply bind_Some in E as (front & _ & E). case_bool_decide; [by apply room_switched in E|injection E as <-; split; [done|by left]].
Qed.

(** The group of a leader is published. *)
Definition published s s' : Prop := exists st e upd t last n k, leading s = Some (Logged st e upd t last n) /\ last_sequence s' = n /\
  visible s' = visible s ++ numbered (last_sequence s + 1) k (batch_ops upd) /\ (k <= length (batch_ops upd))%nat /\
  (st = Ok -> k = length (batch_ops upd)).

(** A reader sees the same, or the memtable was made the immutable one. *)
Definition unpublished s s' : Prop := last_sequence s' = last_sequence s /\
  (visible s' = visible s \/ imm_ (database s') = Some (mem_ (database s)) /\ visible s' = []).

Lemma switched_unpublished s s' : last_sequence s' = last_sequence s /\ switched (database s) (database s') -> unpublished s s'.
Proof.
  intros [E [Hm|[Hi Hm]]]; (split; [done|]); unfold visible; rewrite E, Hm; [by left|by right].
Qed.

Lemma same_unpublished s s' : last_sequence s' = last_sequence s -> mem_ (database s') = mem_ (database s) -> unpublished s s'.
Proof. intros E Hm. apply switched_unpublished. split; [done|by left]. Qed.

Lemma end_published st e upd t last n s s' : inv s -> leading s = Some (Logged st e upd t last n) ->
  Write_end st e upd t last n s = Some s' -> published s s'.
Proof.
  intros [_ _ Hlead] El E. unfold leading_ok in Hlead. rewrite El in Hlead.
  destruct Hlead as (_ & members & rest & k & Hgo & _ & (Hk & old & Em & Hold) & Hall).
  exists st, e, upd, t, last, n, k. unfold Write_end in E. apply bind_Some in E as (vs & Ev & E%finish_group_database).
  assert (vs_last_sequence_ vs = n) as En by (unfold SetLastSequence in Ev; apply bind_Some in Ev as ([] & _ & [= <-]); done).
  assert (last_sequence s' = n /\ mem_ (database s') = mem_ (database s)) as [Es Ems].
  { rewrite E. cbn. split; [done|]. destruct e; [|done]. unfold RecordBackgroundError. by case_bool_decide. }
  split; [done|]. split; [done|]. split; [|split; [done|intros Hok; specialize (Hall Hok); lia]].
  rewrite (visible_partly s upd k old Em Hold). unfold visible. rewrite Es, Ems, Em. apply filter_all_In.
  intros x [Hx%Hold|(i & Hi%lookup_lt_Some & -> & _)%elem_of_numbered]%elem_of_app; rewrite (go_next _ _ _ _ _ _ Hgo); lia.
Qed.

Lemma insert_unpublished upd t last n k s : inv s -> leading s = Some (Inserting upd t last n k) ->
  unpublished s (Write_insert upd t last n k s).
Proof.
  intros [_ _ Hlead] El. unfold leading_ok in Hlead. rewrite El in Hlead.
  destruct Hlead as (_ & _ & members & rest & rs & Hgo & _). unfold Write_insert, unpublished, visible.
  destruct (InsertInto_turn upd k _) as [r mem] eqn:E. apply InsertInto_turn_law in E. cbn. split; [done|]. left.
  destruct r as [st|]; [destruct E as [-> _]; done|]. destruct E as (o & _ & ->). rewrite list.filter_app, filter_cons_False; [by rewrite app_nil_r|].
  rewrite (go_sequence _ _ _ _ _ _ Hgo). cbn. lia.
Qed.

Lemma signal_finished_database s : database (signal_finished s) = database s.
Proof. unfold signal_finished. by destruct (leading s) as [[]|]. Qed.

Lemma step_visible s s' : inv s -> write_step others s s' -> unpublished s s' \/ published s s'.
Proof.
  intros Hinv Hstep.
  destruct Hstep as [id updates sync s s' Hid E|id s s' Hw E|l f a s s' El Em E|upd t last n s s' El E|upd t last n s El|upd t last n k s El|
    st e upd t last n s s' El E|st s|s Hs|db1 w1 s Hbg].
  - left. change (Write_check id (called_state id updates sync s) = Some s') in E. destruct (called_inv base rs0 id updates sync s Hinv Hid) as [Hinv1 _].
    apply switched_unpublished. exact (check_switched id _ s' Hinv1 E).
  - left. by apply switched_unpublished, (check_switched id).
  - left. by apply switched_unpublished, (room_switched f a).
  - left. unfold Write_log in E. apply bind_Some in E as (me & _ & (x & _ & E)%bind_Some).
    destruct (log_AddRecord _ _). injection E as <-. by apply same_unpublished.
  - left. unfold Write_sync. destruct (logfile_Sync _). by apply same_unpublished.
  - left. by apply insert_unpublished.
  - right. by eapply end_published.
  - left. unfold record_error. case_bool_decide; [|by apply same_unpublished]. unfold RecordBackgroundError. rewrite bool_decide_true by done.
    apply same_unpublished; by rewrite signal_finished_database.
  - left. unfold finish_background, BackgroundCall_end. destruct (MaybeScheduleCompaction_ok (set_scheduled false (database s))) as (b & -> & _).
    apply same_unpublished; by rewrite signal_finished_database.
  - left. destruct Hbg as [Hun _ Hm]. apply same_unpublished; [apply (um_sequence _ _ Hun)|exact Hm].
Qed.

(** C22 (invariant): the operations of a group become visible at once. In every reachable
    state, also in the middle of the insertion, the memtable has what readers at the last
    sequence number see and, behind it and newer than that number, exactly the operations of
    the group that were inserted so far, numbered in order. No step changes what these
    readers see, apart from the switch to a new memtable, but the one in which the leader
    publishes its group: it adds all of its operations when they were inserted without an error,
    and those that were inserted when the insertion failed. *)
Theorem writes_visible_at_once s : rtc (write_step others) (write_start db w tmp) s -> fits base s ->
  match leading s with
  | Some (Inserting upd _ _ n k) => n = last_sequence s + Z.of_nat (length (batch_ops upd)) /\ (k <= length (batch_ops upd))%nat /\
      mem_entries (mem_ (database s)) = visible s ++ numbered (last_sequence s + 1) k (batch_ops upd)
  | Some (Logged st _ upd _ _ n) => n = last_sequence s + Z.of_nat (length (batch_ops upd)) /\ exists k, (k <= length (batch_ops upd))%nat /\
      mem_entries (mem_ (database s)) = visible s ++ numbered (last_sequence s + 1) k (batch_ops upd) /\
      (st = Ok -> k = length (batch_ops upd))
  | _ => mem_entries (mem_ (database s)) = visible s
  end /\
  forall s', write_step others s s' -> unpublished s s' \/ published s s'.
Proof.
  intros Hrun Hfits. pose proof (runs_inv base rs0 Hbase _ s (start_inv base rs0 _ _ _ Hstart) Hrun Hfits) as Hinv.
  split; [|intros s'; by apply step_visible]. destruct Hinv as [_ _ Hlead].
  assert (mem_upto s (last_sequence s) -> mem_entries (mem_ (database s)) = visible s) as Hall.
  { intros Hm. unfold visible. symmetry. by apply filter_all_In. }
  unfold leading_ok, idle in Hlead. destruct (leading s) as [[f|f a sg|upd t last n|upd t last n|upd t last n k|st e upd t last n]|].
  - apply Hall, Hlead.
  - apply Hall, Hlead.
  - apply Hall, Hlead.
  - apply Hall, Hlead.
  - destruct Hlead as (_ & (Hk & old & Em & Hold) & members & rest & rs & Hgo & _). split; [apply Hgo|]. split; [done|].
    by rewrite (visible_partly s upd k old).
  - destruct Hlead as (_ & members & rest & k & Hgo & _ & (Hk & old & Em & Hold) & Hok). split; [apply Hgo|]. exists k. split; [done|].
    split; [by rewrite (visible_partly s upd k old)|]. intros ?%Hok. lia.
  - apply Hall, Hlead.
Qed.

(** What the thread that leads, or else the front writer, does next; a leader that waits for
    [background_work_finished_signal_] needs a signal. *)
Definition write_next s : option (Writing B M W) :=
  match leading s with
  | Some (Delaying f) => Write_room f false s
  | Some (Waiting f a signalled) => _ ← assert_ signalled; Write_room f a s
  | Some (Logging upd t last n) => Write_log upd t last n s
  | Some (Syncing upd t last n) => Some (Write_sync upd t last n s)
  | Some (Inserting upd t last n k) => Some (Write_insert upd t last n k s)
  | Some (Logged st e upd t last n) => Write_end st e upd t last n s
  | None => id ← list.head (writers_ s); x ← writer s !! id; _ ← assert_ (awake x); Write_check id s
  end.

(** The leader waits for room; it has not been signalled, and the background thread has work at whose
    end it will be, in a state in which the leader can go on. *)
Definition awaits_background s : Prop := exists f a, leading s = Some (Waiting f a false) /\ bg_error_ (database s) = Ok /\
  (shutting_down_ (database s) = false -> background_compaction_scheduled_ (database s) = true /\
     write_step others s (finish_background s) /\ leading (finish_background s) = Some (Waiting f a true) /\
     is_Some (write_next (finish_background s))).

Lemma room_next l f a s : inv s -> fits base s -> leading s = Some l -> making l = Some (f, a) ->
  exists s', Write_room f a s = Some s' /\ write_step others s s'.
Proof.
  intros Hinv Hfits El Em. destruct (making_ok base rs0 l f a s Hinv El Em) as [Hidle Hne]. destruct Hinv as [Hc Hbound _].
  destruct (Write_room_ok base rs0 Hbase f a s Hc Hbound Hfits Hne Hidle) as (s' & E & _). exists s'. split; [done|by eapply step_room].
Qed.

Lemma waiting_next f a s : inv s -> fits base s -> leading s = Some (Waiting f a false) -> awaits_background s.
Proof.
  intros Hinv Hfits El. pose proof (finish_background_ok base rs0 s Hinv) as Hinv1.
  pose proof (wi_leading _ _ _ Hinv) as Hlead. unfold leading_ok in Hlead. rewrite El in Hlead. destruct Hlead as (_ & _ & Hsg).
  destruct (Hsg eq_refl) as [He Hs]. exists f, a. split; [done|]. split; [done|]. intros Hsd%Hs. split; [done|].
  split; [by apply step_finished|].
  assert (leading (finish_background s) = Some (Waiting f a true)) as El1.
  { unfold finish_background, signal_finished. cbn [leading set_database]. by rewrite El. }
  split; [done|]. unfold write_next. rewrite El1. cbn [assert_ mbind option_bind].
  assert (fits base (finish_background s)) as Hfits1.
  { eapply fits_same; [|exact Hfits]. split; symmetry; apply (signal_finished_calls (set_database _ s)). }
  destruct (room_next _ f a _ Hinv1 Hfits1 El1 eq_refl) as (s' & E & _). by exists s'.
Qed.

(** C23 (liveness): no wakeup is lost and no assertion fails: while there are writers, the one
    that leads can go on, or the front writer is awake and can go on, or the leader waits for
    room and the background thread, unless the database is being closed, has been
    scheduled and signals the leader when it is done; a writer whose group is
    done is awake and returns when it runs; and any new call can be made. *)
Theorem write_progress s : rtc (write_step others) (write_start db w tmp) s -> fits base s ->
  (writers_ s <> [] -> (exists s', write_next s = Some s' /\ write_step others s s') \/ awaits_background s) /\
  (forall id x, writer s !! id = Some x -> id ∉ writers_ s -> awake x = true /\ Write_check id s = Some (return_status id (w_status x) s)) /\
  (forall id updates sync, id ∉ arrivals (history s) -> fits base (called_state id updates sync s) -> is_Some (Write_begin id updates sync s)).
Proof.
  intros Hrun Hfits. pose proof (runs_inv base rs0 Hbase _ s (start_inv base rs0 _ _ _ Hstart) Hrun Hfits) as Hinv.
  pose proof Hinv as [Hc Hbound Hlead]. split; [|split].
  - intros Hne. unfold write_next. unfold leading_ok in Hlead.
    destruct (leading s) as [[f|f a sg|upd t last n|upd t last n|upd t last n k|st e upd t last n]|] eqn:El.
    + left. by eapply room_next.
    + destruct sg; [left; by eapply room_next|right; by eapply waiting_next].
    + left. destruct (Write_log_ok base rs0 upd t last n s Hinv El) as (s' & E & _). exists s'. split; [done|by eapply step_log].
    + left. eexists. split; [done|by apply step_sync].
    + left. eexists. split; [done|by apply step_insert].
    + left. destruct (Write_end_ok base rs0 st e upd t last n s Hinv El) as (s' & E & _). exists s'. split; [done|by eapply step_end].
    + left. destruct (list.head (writers_ s)) as [id|] eqn:Eh; [|by destruct (writers_ s)].
      destruct (wc_queue _ Hc id) as (x & Hx & _); [destruct (writers_ s); [done|]; injection Eh as ->; left|].
      cbn [mbind option_bind]. rewrite Hx. cbn [mbind option_bind]. rewrite (proj2 Hlead id x eq_refl Hx). cbn [assert_ mbind option_bind].
      assert (waits id s) as Hw by (split; [by eexists|by left]).
      destruct (Write_check_ok base rs0 Hbase id s Hinv Hfits Hw) as (s' & E & _). exists s'. split; [done|by eapply step_wake].
  - intros id x Hx Hq. destruct (wc_done _ Hc id x Hx) as [?|(Hd & Ha & _)]; [done|]. split; [done|].
    unfold Write_check. rewrite Hx. cbn [mbind option_bind]. by rewrite Hd.
  - intros id updates sync Hid Hf. destruct (called_inv base rs0 id updates sync s Hinv Hid) as [Hinv1 Hw].
    destruct (Write_check_ok base rs0 Hbase id _ Hinv1 Hf Hw) as (s' & E & _). by exists s'.
Qed.
End theorems.

(** ** Four calls *)

Section demo.
#[local] Existing Instances by_bytes reference_coding reference_format reference_icmp.

Abbreviation demo_batch := (Z * list Z)%type.
Abbreviation demo_memtable := (list (Z * Z)).

#[local] Instance demo_batches : Batches demo_batch demo_memtable := {
  batch_Clear := (0, []);
  batch_Count b := Z.of_nat (length b.2);
  batch_ByteSize b := 12 + Z.of_nat (length b.2);
  batch_Append a b := (a.1, a.2 ++ b.2);
  batch_SetSequence n b := (n, b.2);
  batch_Contents b := b.1 :: b.2;
  InsertInto b m := (Ok, m ++ zip (seqZ b.1 (Z.of_nat (length b.2))) b.2);
  InsertInto_turn b k m := match b.2 !! k with Some o => (None, m ++ [(b.1 + Z.of_nat k, o)]) | None => (Some Ok, m) end;
  MemTable_new := [];
  ApproximateMemoryUsage m := Z.of_nat (length m) }.

#[local] Instance demo_batch_laws : BatchLaws demo_batch demo_memtable Z.
Proof.
  unshelve econstructor; [exact snd|exact fst|exact (fun m => m)|..]; try done.
  - intros b m st m' [= <- <-]. exists (length b.2). by rewrite take_ge by lia.
  - intros b k m r m'. cbn. destruct (b.2 !! k) as [o|] eqn:E; intros [= <- <-]; [by exists o|]. split; [done|]. intros _. by apply lookup_ge_None.
Defined.

(** The records of earlier files and of the current one, and those that are on disk. *)
Record LogDisk := mkLogDisk { ld_old : list (list Z); ld_current : list (list Z); ld_durable : list nat }.

#[local] Instance demo_log : LogFile LogDisk := {
  log_AddRecord r w := (Ok, mkLogDisk (ld_old w) (ld_current w ++ [r]) (ld_durable w));
  logfile_Sync w := (Ok, mkLogDisk (ld_old w) (ld_current w) (ld_durable w ++ seq (length (ld_old w)) (length (ld_current w))));
  new_log_file _ w := (Ok, mkLogDisk (ld_old w ++ ld_current w) [] (ld_durable w)) }.

#[local] Instance demo_log_laws : LogFileLaws LogDisk.
Proof.
  unshelve econstructor; [exact (fun w => ld_old w ++ ld_current w)|exact (fun w => length (ld_old w))|exact (fun w i => i ∈ ld_durable w)|..]; cbn.
  - intros w. rewrite length_app. lia.
  - intros r w st w' [= <- <-]. cbn. split; [done|]. split; [done|]. left. by rewrite app_assoc.
  - intros w st w' [= <- <-]. cbn. split; [done|]. split; [intros i Hi; apply elem_of_app; by left|]. split; [done|].
    intros _ i. rewrite length_app. intros Hi. apply elem_of_app. right. apply elem_of_seq. lia.
  - intros n w st w' [= <- <-]. cbn. split; [done|]. by rewrite app_nil_r.
Defined.

#[local] Instance demo_options : WriteOptions := 100.

(** The current version is scored; [imm] is a memtable that is being compacted. *)
Definition demo_writing_with (imm : option demo_memtable) : Writing demo_batch demo_memtable LogDisk :=
  write_start (mkDb [] imm (bool_decide (is_Some imm)) 4 [] ∅ (bool_decide (is_Some imm)) None ∅
    (with_current (Finalize Version_new) (with_sequence 9 (VersionSet_new 1000))) Versions_new Ok false []) (mkLogDisk [] [] []) (0, []).

Definition demo_writing := demo_writing_with None.

Abbreviation demo_step f s := (default demo_writing (f s)).

(** The call 1 leads; meanwhile the calls 2, which syncs, 3, which asks for a compaction of
    the memtable, and 4 are made. *)
Definition four_calls := demo_step (Write_begin 4 (Some (0, [40])) false) (demo_step (Write_begin 3 None false)
  (demo_step (Write_begin 2 (Some (0, [20; 21])) true) (demo_step (Write_begin 1 (Some (0, [10])) false) demo_writing))).

(** Turns of the insertion. *)
Fixpoint insert_turns (n : nat) (s : Writing demo_batch demo_memtable LogDisk) : Writing demo_batch demo_memtable LogDisk :=
  match n with
  | O => s
  | S n => match leading s with Some (Inserting upd t last m k) => insert_turns n (Write_insert upd t last m k s) | _ => s end
  end.

Definition first_done := demo_step (Write_end Ok false (10, [10]) false 1 10) (insert_turns 2 (demo_step (Write_log (10, [10]) false 1 10) four_calls)).

Definition second_recorded := demo_step (Write_log (11, [20; 21; 40]) true 4 13) (demo_step (Write_check 2) first_done).

(** Two of the three operations of the second group are in the memtable. *)
Definition second_partly := insert_turns 2 (Write_sync (11, [20; 21; 40]) true 4 13 second_recorded).

Definition all_done := demo_step (Write_check 3) (demo_step (Write_check 4)
  (demo_step (Write_end Ok false (11, [20; 21; 40]) true 4 13) (insert_turns 2 second_partly))).

Lemma demo_writing_ok imm : start_ok 9 [] (database (demo_writing_with imm)) (disk (demo_writing_with imm)) (0, []).
Proof.
  assert (files_ (Finalize Version_new) = replicate 7 []) as Ef by (vm_compute; reflexivity).
  split; [split; [cbn; rewrite Ef; cbn; lia|done]|split|done|done|done|by intros ? ?%elem_of_nil].
  - split; [vm_compute; reflexivity|]. cbn [current_ versions_ database demo_writing_with write_start with_current]. rewrite Ef.
    split; [done|]. intros i files Hi%list_elem_of_lookup_2. apply elem_of_replicate_inv in Hi as ->.
    split; [|constructor]. unfold level_load. by destruct (_ =? _)%nat.
  - intros Hw _ _. destruct imm; [done|by vm_compute in Hw].
Qed.

Ltac demo_begin id u sy := eapply rtc_l; [eapply (step_begin _ id u sy); [by_compute|vm_compute; reflexivity]|].
Ltac demo_wake id := eapply rtc_l; [eapply (step_wake _ id); [split; [vm_compute; by eexists|by left]|vm_compute; reflexivity]|].
Ltac demo_log := eapply rtc_l; [eapply step_log; [reflexivity|vm_compute; reflexivity]|].
Ltac demo_insert := eapply rtc_l; [eapply step_insert; reflexivity|].
Ltac demo_end := eapply rtc_l; [eapply step_end; [reflexivity|vm_compute; reflexivity]|].

Lemma second_partly_reached : rtc (write_step others) demo_writing second_partly.
Proof.
  demo_begin 1%positive (Some (0, [10])) false. demo_begin 2%positive (Some (0, [20; 21])) true.
  demo_begin 3%positive (None : option demo_batch) false. demo_begin 4%positive (Some (0, [40])) false.
  demo_log. do 2 demo_insert. demo_end. demo_wake 2%positive. demo_log.
  eapply rtc_l; [eapply step_sync; reflexivity|]. do 2 demo_insert. vm_compute. apply rtc_refl.
Qed.

Lemma all_done_reached : rtc (write_step others) demo_writing all_done.
Proof.
  eapply rtc_trans; [apply second_partly_reached|]. do 2 demo_insert. demo_end.
  demo_wake 4%positive. demo_wake 3%positive. vm_compute. apply rtc_refl.
Qed.

(** The second group has its record, the calls 3 and 4 among it, and is synced as a whole; the calls return in
    another order. The call 3 returned without a new memtable being made for it. *)
Example four_calls_written :
  (returned (history all_done), ld_current (disk all_done), ld_durable (disk all_done)) =
    ([(1%positive, Ok); (2%positive, Ok); (4%positive, Ok); (3%positive, Ok)], [[10; 10]; [11; 20; 21; 40]], [0; 1]%nat) /\
  imm_ (database all_done) = None /\
  imm_ (database (demo_step (Write_begin 3 None false) demo_writing)) = Some [].
Proof. split; [|split]; vm_compute; reflexivity. Qed.

Lemma write_acknowledged_witness : in_log all_done 2 /\ in_log all_done 4.
Proof.
  pose proof (write_acknowledged 9 [] ltac:(lia) _ _ _ (demo_writing_ok None) all_done all_done_reached eq_refl) as (_ & _ & _ & Hlog & _).
  split; [apply (Hlog 2%positive (0, [20; 21]) true)|apply (Hlog 4%positive (0, [40]) false)]; first [by_compute|reflexivity].
Defined.

(** In the middle of the second group a reader sees only the first one. *)
Lemma writes_visible_at_once_witness : visible second_partly = [(10, 10)] /\
  mem_entries (mem_ (database second_partly)) = [(10, 10); (11, 20); (12, 21)] /\
  forall s', write_step others second_partly s' -> unpublished second_partly s' \/ published second_partly s'.
Proof.
  destruct (writes_visible_at_once 9 [] ltac:(lia) _ _ _ (demo_writing_ok None) second_partly second_partly_reached eq_refl) as [_ Hstep].
  split; [vm_compute; reflexivity|]. split; [vm_compute; reflexivity|exact Hstep].
Defined.

(** A call that forces a compaction waits for the one that is running. *)
Definition waiting_call := demo_step (Write_begin 1 None false) (demo_writing_with (Some [])).

Lemma waiting_call_reached : rtc (write_step others) (demo_writing_with (Some [])) waiting_call.
Proof. demo_begin 1%positive (None : option demo_batch) false. vm_compute. apply rtc_refl. Qed.

Lemma write_progress_witness : awaits_background waiting_call.
Proof.
  destruct (write_progress 9 [] ltac:(lia) _ _ _ (demo_writing_ok (Some [])) waiting_call waiting_call_reached ltac:(reflexivity)) as [Hp _].
  destruct Hp as [(s' & E & _)|Hw]; [by_compute|by vm_compute in E|exact Hw].
Defined.
End demo.
