(* ===== verification/TableBuilder.v ===== *)
(** * Writing a table ([leveldb-library/table/table_builder.cc])

    Sorted entries are written in blocks; an index block has a key and the place of every
    data block, a filter block may tell keys apart, and a footer has the places of the
    index and of the block of metadata. Block builders ([table/block_builder.cc]), filter
    blocks ([table/filter_block.cc]), the encodings of [table/format.cc], the shortening of
    keys by the comparator, Snappy and the file are not part of the repository and are parameters.
    [None] is a failed assertion. *)

From Stdlib Require Import String.
From stdpp Require Import base list.
From S2P Require Import Prelude Crc32c Cursor.

#[local] Open Scope Z_scope.

(** ** The environment *)

(** [Finish] gives the contents of the block. *)
Class BlockBuilders (BB : Type) := {
  bb_new : Z -> BB;                             (* with the restart interval *)
  bb_Add : list Z -> list Z -> BB -> option BB;
  bb_Finish : BB -> list Z * BB;
  bb_Reset : BB -> BB;
  bb_CurrentSizeEstimate : BB -> Z;
  bb_empty : BB -> bool }.

Class FilterBlocks (FB : Type) := {
  fb_new : FB;
  fb_StartBlock : Z -> FB -> FB;
  fb_AddKey : list Z -> FB -> FB;
  fb_Finish : FB -> list Z;
  KeyMayMatch : list Z -> Z -> list Z -> bool }. (* of the reader of a filter block *)

Record BlockHandle := mkHandle { h_offset : Z; h_size : Z }.

Inductive CompressionType := kNoCompression | kSnappyCompression.

Class TableFormat := {
  handle_EncodeTo : BlockHandle -> list Z;
  handle_DecodeFrom : list Z -> Status * BlockHandle;
  footer_EncodeTo : BlockHandle -> BlockHandle -> list Z;  (* of the metaindex and the index *)
  footer_DecodeFrom : list Z -> Status * (BlockHandle * BlockHandle);
  kEncodedLength : Z;
  compression_code : CompressionType -> Z;
  crc_Mask : Z -> Z;
  EncodeFixed32 : Z -> list Z;
  Snappy_Compress : list Z -> option (list Z) }.

Definition kBlockTrailerSize : Z := 5.

Class KeyShortening := {
  FindShortestSeparator : list Z -> list Z -> list Z;
  FindShortSuccessor : list Z -> list Z }.

Class TableFile (W : Type) := {
  file_Append : list Z -> W -> Status * W;
  file_Flush : W -> Status * W }.

(** [filter_policy] is the name of the policy. *)
Class TableOptions := {
  block_size : Z;
  block_restart_interval : Z;
  compression : CompressionType;
  filter_policy : option (list Z) }.

(** ** State *)

Record Rep (BB FB W : Type) := mkRep {
  r_file : W; r_offset : Z; r_status : Status; data_block : BB; index_block : BB; last_key : list Z; num_entries : Z;
  r_closed : bool; filter_block : option FB; pending_index_entry : bool; pending_handle : BlockHandle }.
Arguments mkRep {BB FB W}.
Arguments r_file {BB FB W}.
Arguments r_offset {BB FB W}.
Arguments r_status {BB FB W}.
Arguments data_block {BB FB W}.
Arguments index_block {BB FB W}.
Arguments last_key {BB FB W}.
Arguments num_entries {BB FB W}.
Arguments r_closed {BB FB W}.
Arguments filter_block {BB FB W}.
Arguments pending_index_entry {BB FB W}.
Arguments pending_handle {BB FB W}.

Section builder.
Context `{Comparator} {BB FB W : Type} `{!BlockBuilders BB} `{!FilterBlocks FB} `{!TableFormat} `{!KeyShortening} `{!TableFile W} `{!TableOptions}.
Implicit Types r : Rep BB FB W.

Definition set_file (f : W) off st r : Rep BB FB W := mkRep f off st (data_block r) (index_block r) (last_key r) (num_entries r) (r_closed r)
  (filter_block r) (pending_index_entry r) (pending_handle r).
Definition set_blocks (d i : BB) r : Rep BB FB W := mkRep (r_file r) (r_offset r) (r_status r) d i (last_key r) (num_entries r) (r_closed r)
  (filter_block r) (pending_index_entry r) (pending_handle r).
Definition set_key k n r : Rep BB FB W := mkRep (r_file r) (r_offset r) (r_status r) (data_block r) (index_block r) k n (r_closed r)
  (filter_block r) (pending_index_entry r) (pending_handle r).
Definition set_closed r : Rep BB FB W := mkRep (r_file r) (r_offset r) (r_status r) (data_block r) (index_block r) (last_key r) (num_entries r) true
  (filter_block r) (pending_index_entry r) (pending_handle r).
Definition set_filter (f : option FB) r : Rep BB FB W := mkRep (r_file r) (r_offset r) (r_status r) (data_block r) (index_block r) (last_key r)
  (num_entries r) (r_closed r) f (pending_index_entry r) (pending_handle r).
Definition set_handle p h r : Rep BB FB W := mkRep (r_file r) (r_offset r) (r_status r) (data_block r) (index_block r) (last_key r) (num_entries r)
  (r_closed r) (filter_block r) p h.

Definition ok r : bool := bool_decide (r_status r = Ok).

Definition TableBuilder_new (file : W) : Rep BB FB W :=
  mkRep file 0 Ok (bb_new block_restart_interval) (bb_new 1) [] 0 false
    (fb_StartBlock 0 <$> (if filter_policy is Some _ then Some fb_new else None)) false (mkHandle 0 0).

(** ** Writing blocks *)

(** The type, and a checksum of the contents and of it. *)
Definition trailer (contents : list Z) (type : CompressionType) : list Z :=
  let t := compression_code type in t :: EncodeFixed32 (crc_Mask (crc32c (crc32c 0 contents) [t])).

Definition WriteRawBlock (contents : list Z) (type : CompressionType) r : BlockHandle * Rep BB FB W :=
  let handle := mkHandle (r_offset r) (Z.of_nat (length contents)) in
  let '(s, file) := file_Append contents (r_file r) in
  let r := set_file file (r_offset r) s r in
  if bool_decide (s = Ok) then
    let '(s, file) := file_Append (trailer contents type) (r_file r) in
    let offset := if bool_decide (s = Ok) then wrap 64 (r_offset r + Z.of_nat (length contents) + kBlockTrailerSize) else r_offset r in
    (handle, set_file file offset s r)
  else (handle, r).

(** What is written of a block, compressed only when that saves an eighth. *)
Definition compressed (raw : list Z) : list Z * CompressionType :=
  match compression with
  | kNoCompression => (raw, kNoCompression)
  | kSnappyCompression =>
      let size := Z.of_nat (length raw) in
      match Snappy_Compress raw with
      | Some c => if Z.of_nat (length c) <? size - size `div` 8 then (c, kSnappyCompression) else (raw, kNoCompression)
      | None => (raw, kNoCompression)
      end
  end.

(** The place of the block, and the block builder afterwards. *)
Definition WriteBlock (block : BB) r : option (BlockHandle * BB * Rep BB FB W) :=
  _ ← assert_ (ok r);
  let '(raw, block) := bb_Finish block in
  let '(contents, type) := compressed raw in
  let '(handle, r) := WriteRawBlock contents type r in
  Some (handle, bb_Reset block, r).

Definition Flush r : option (Rep BB FB W) :=
  _ ← assert_ (negb (r_closed r));
  if negb (ok r) then Some r
  else if bb_empty (data_block r) then Some r
  else
    _ ← assert_ (negb (pending_index_entry r));
    '(handle, block, r) ← WriteBlock (data_block r) r;
    let r := set_handle (pending_index_entry r) handle (set_blocks block (index_block r) r) in
    let r := if ok r then
               let '(s, file) := file_Flush (r_file r) in set_handle true (pending_handle r) (set_file file (r_offset r) s r)
             else r in
    Some (set_filter (fb_StartBlock (r_offset r) <$> filter_block r) r).

(** ** Adding entries *)

(** The index entry of the last block: its key, and its place. *)
Definition add_index_entry (key : list Z) r : option (Rep BB FB W) :=
  index ← bb_Add key (handle_EncodeTo (pending_handle r)) (index_block r);
  Some (set_handle false (pending_handle r) (set_blocks (data_block r) index (set_key key (num_entries r) r))).

Definition Add (key value : list Z) r : option (Rep BB FB W) :=
  _ ← assert_ (negb (r_closed r));
  if negb (ok r) then Some r
  else
    _ ← (if 0 <? num_entries r then assert_ (0 <? Compare key (last_key r)) else Some ());
    r ← (if pending_index_entry r then
           _ ← assert_ (bb_empty (data_block r));
           add_index_entry (FindShortestSeparator (last_key r) key) r
         else Some r);
    let r := set_filter (fb_AddKey key <$> filter_block r) r in
    let r := set_key key (num_entries r + 1) r in
    block ← bb_Add key value (data_block r);
    let r := set_blocks block (index_block r) r in
    if block_size <=? bb_CurrentSizeEstimate block then Flush r else Some r.

(** ** The end of the table *)

(** "filter." *)
Definition filter_prefix : list Z := [102; 105; 108; 116; 101; 114; 46].

(** The filter block, whose place is recorded if there is one. *)
Definition write_filter r : BlockHandle * Rep BB FB W :=
  match filter_block r with
  | Some f => if ok r then WriteRawBlock (fb_Finish f) kNoCompression r else (mkHandle 0 0, r)
  | None => (mkHandle 0 0, r)
  end.

Definition write_metaindex (filter_handle : BlockHandle) r : option (BlockHandle * Rep BB FB W) :=
  if ok r then
    meta ← match filter_block r, filter_policy with
           | Some _, Some name => bb_Add (filter_prefix ++ name) (handle_EncodeTo filter_handle) (bb_new block_restart_interval)
           | Some _, None => None
           | None, _ => Some (bb_new block_restart_interval)
           end;
    '(handle, _, r) ← WriteBlock meta r; Some (handle, r)
  else Some (mkHandle 0 0, r).

Definition write_index r : option (BlockHandle * Rep BB FB W) :=
  if ok r then
    r ← (if pending_index_entry r then add_index_entry (FindShortSuccessor (last_key r)) r else Some r);
    '(handle, block, r) ← WriteBlock (index_block r) r; Some (handle, set_blocks (data_block r) block r)
  else Some (mkHandle 0 0, r).

Definition write_footer (metaindex index : BlockHandle) r : Rep BB FB W :=
  if ok r then
    let encoding := footer_EncodeTo metaindex index in
    let '(s, file) := file_Append encoding (r_file r) in
    set_file file (if bool_decide (s = Ok) then wrap 64 (r_offset r + Z.of_nat (length encoding)) else r_offset r) s r
  else r.

Definition Finish r : option (Rep BB FB W) :=
  r ← Flush r;
  _ ← assert_ (negb (r_closed r));
  let r := set_closed r in
  let '(filter_handle, r) := write_filter r in
  '(metaindex_handle, r) ← write_metaindex filter_handle r;
  '(index_handle, r) ← write_index r;
  Some (write_footer metaindex_handle index_handle r).

Definition Abandon r : option (Rep BB FB W) := _ ← assert_ (negb (r_closed r)); Some (set_closed r).

Definition NumEntries r : Z := num_entries r.
Definition FileSize r : Z := r_offset r.

(** The entries one after the other. *)
Fixpoint add_all (es : list entry) r : option (Rep BB FB W) :=
  match es with [] => Some r | (k, v) :: es => r ← Add k v r; add_all es r end.

Definition build_table (es : list entry) (file : W) : option (Rep BB FB W) := r ← add_all es (TableBuilder_new file); Finish r.
End builder.
