(* ===== verification/TableReader.v ===== *)
(** * Reading a table ([leveldb-library/table/table.cc])

    A table is opened from its footer: the index block is kept, and a filter block if the
    block of metadata has one for the policy in use. A lookup searches the index for
    the block that may have the key, and that block. Blocks are read from the file by
    [ReadBlock] of [table/format.cc], or taken from a cache that other tables share; both are
    parameters, as is the reader of filter blocks. [None] is a failed assertion. *)

From Stdlib Require Import String.
From stdpp Require Import base list.
From S2P Require Import Prelude Cursor Coding BlockIter TableBuilder.

#[local] Open Scope Z_scope.

(** ** The environment *)

(** What [ReadBlock] gives: a status, the contents, and whether they may be cached. *)
Class TableSource (F : Type) := {
  file_Read : Z -> Z -> F -> Status * list Z;              (* offset, length *)
  ReadBlock : bool -> BlockHandle -> F -> Status * (list Z * bool) }. (* verify_checksums *)

(** [Hd] is the type of handles, which keep a block in the cache. *)
Class BlockCache (Hd C : Type) := {
  cache_NewId : C -> Z * C;
  cache_Lookup : list Z -> C -> option Hd * C;
  cache_Value : Hd -> C -> Block;
  cache_Insert : list Z -> Block -> Z -> C -> Hd * C;
  cache_Release : Hd -> C -> C }.

(** Whether there is a block cache, and the comparator of bytes, in [BytewiseComparator]. *)
Class ReaderOptions := {
  paranoid_checks : bool;
  has_block_cache : bool;
  BytewiseCompare : Comparator }.

Record ReadOptions := mkReadOptions { verify_checksums : bool; fill_cache : bool }.

(** The options of the reads while a table is opened. *)
Definition open_options `{ReaderOptions} : ReadOptions := mkReadOptions paranoid_checks true.

(** ** Iterators of blocks, with the empty ones of [table/iterator.cc] *)

Section results.
Context `{Comparator} `{Coding}.

Definition result_Seek (target : list Z) (r : NewIterator_result) : option NewIterator_result :=
  match r with BlockIterator it => it ← Block_Seek target it; Some (BlockIterator it) | _ => Some r end.

Definition result_Valid (r : NewIterator_result) : bool := if r is BlockIterator it then Block_Valid it else false.

Definition result_key (r : NewIterator_result) : option (list Z) := if r is BlockIterator it then Block_key it else None.
Definition result_value (r : NewIterator_result) : option (list Z) := if r is BlockIterator it then Block_value it else None.

Definition result_status (r : NewIterator_result) : Status :=
  match r with ErrorIterator s => s | EmptyIterator => Ok | BlockIterator it => status_ it end.
End results.

(** ** The table *)

Record Table (F : Type) := mkTable {
  t_file : F; cache_id : Z; t_filter : option (list Z); metaindex_handle : BlockHandle; t_index_block : Block }.
Arguments mkTable {F}.
Arguments t_file {F}.
Arguments cache_id {F}.
Arguments t_filter {F}.
Arguments metaindex_handle {F}.
Arguments t_index_block {F}.

(** What deleting an iterator does: nothing for an error, the block is deleted, or its
    handle in the cache is released. *)
Inductive Cleanup (Hd : Type) := NoCleanup | DeleteBlock | ReleaseBlock (h : Hd).
Arguments NoCleanup {Hd}.
Arguments DeleteBlock {Hd}.
Arguments ReleaseBlock {Hd} h.

Section table.
Context `{Comparator} `{Coding} `{!TableFormat} `{!TableOptions} `{!ReaderOptions}.
Context {F Hd C : Type} `{!TableSource F} `{!BlockCache Hd C}.
Context {FB : Type} `{!FilterBlocks FB}.
Implicit Types (t : Table F) (c : C).

(** ** Opening *)

Definition set_filter_data (f : list Z) t : Table F := mkTable (t_file t) (cache_id t) (Some f) (metaindex_handle t) (t_index_block t).

Definition ReadFilter (filter_handle_value : list Z) t : Table F :=
  let '(s, filter_handle) := handle_DecodeFrom filter_handle_value in
  if bool_decide (s = Ok) then
    let '(s, (contents, _)) := ReadBlock (verify_checksums open_options) filter_handle (t_file t) in
    if bool_decide (s = Ok) then set_filter_data contents t else t
  else t.

(** [footer.metaindex_handle()] is the argument. *)
Definition ReadMeta (handle : BlockHandle) t : option (Table F) :=
  match filter_policy with
  | None => Some t
  | Some name =>
      let '(s, (contents, _)) := ReadBlock (verify_checksums open_options) handle (t_file t) in
      if bool_decide (s = Ok) then
        meta ← Block_new contents; it ← NewIterator meta;
        let key := filter_prefix ++ name in
        it ← result_Seek (H := BytewiseCompare) key it;
        if result_Valid it then
          k ← result_key it;
          if bool_decide (k = key) then value ← result_value it; Some (ReadFilter value t) else Some t
        else Some t
      else Some t
  end.

Definition Table_Open (file : F) (size : Z) c : option (Status * option (Table F) * C) :=
  if size <? kEncodedLength then Some (Corruption "file is too short to be an sstable", None, c)
  else
    let '(s, footer_input) := file_Read (size - kEncodedLength) kEncodedLength file in
    if bool_decide (s <> Ok) then Some (s, None, c)
    else
      let '(s, (metaindex, index)) := footer_DecodeFrom footer_input in
      if bool_decide (s <> Ok) then Some (s, None, c)
      else
        let '(s, (contents, _)) := ReadBlock (verify_checksums open_options) index file in
        if bool_decide (s = Ok) then
          index_block ← Block_new contents;
          let '(id, c) := if has_block_cache then cache_NewId c else (0, c) in
          t ← ReadMeta metaindex (mkTable file id None metaindex index_block);
          Some (s, Some t, c)
        else Some (s, None, c).

(** ** The iterator of a block *)

Definition cache_key t (handle : BlockHandle) : list Z := EncodeFixed64 (cache_id t) ++ EncodeFixed64 (h_offset handle).

(** A block that was just read goes to the cache if it may. *)
Definition cache_block (options : ReadOptions) (key : list Z) (block : Block) (cachable : bool) c : option Hd * C :=
  if cachable && fill_cache options then let '(h, c) := cache_Insert key block (size_ block) c in (Some h, c) else (None, c).

(** The block of a handle, from the cache or from the file; the handle in the cache, if it is there. *)
Definition get_block (options : ReadOptions) (handle : BlockHandle) t c : option (Status * option Block * option Hd * C) :=
  if has_block_cache then
    let key := cache_key t handle in
    match cache_Lookup key c with
    | (Some h, c) => Some (Ok, Some (cache_Value h c), Some h, c)
    | (None, c) =>
        let '(s, (contents, cachable)) := ReadBlock (verify_checksums options) handle (t_file t) in
        if bool_decide (s = Ok) then
          block ← Block_new contents;
          let '(h, c) := cache_block options key block cachable c in Some (s, Some block, h, c)
        else Some (s, None, None, c)
    end
  else
    let '(s, (contents, _)) := ReadBlock (verify_checksums options) handle (t_file t) in
    if bool_decide (s = Ok) then block ← Block_new contents; Some (s, Some block, None, c) else Some (s, None, None, c).

Definition BlockReader (options : ReadOptions) (index_value : list Z) t c : option (NewIterator_result * Cleanup Hd * C) :=
  let '(s, handle) := handle_DecodeFrom index_value in
  '(s, block, h, c) ← (if bool_decide (s = Ok) then get_block options handle t c else Some (s, None, None, c));
  match block with
  | Some block =>
      it ← NewIterator block;
      Some (it, match h with Some h => ReleaseBlock h | None => DeleteBlock end, c)
  | None => Some (ErrorIterator s, NoCleanup, c)
  end.

Definition run_cleanup (cl : Cleanup Hd) c : C := match cl with ReleaseBlock h => cache_Release h c | _ => c end.

(** ** Lookups *)

(** Whether the filter tells that the block of the index entry does not have the key. *)
Definition filtered_out (handle_value k : list Z) t : bool :=
  match t_filter t with
  | Some filter =>
      let '(s, handle) := handle_DecodeFrom handle_value in
      bool_decide (s = Ok) && negb (KeyMayMatch filter (h_offset handle) k)
  | None => false
  end.

(** What is passed to [handle_result], if anything, and the status. *)
Definition InternalGet (options : ReadOptions) (k : list Z) t c : option (option entry * Status * C) :=
  iiter ← NewIterator (t_index_block t);
  iiter ← result_Seek k iiter;
  '(found, s, c) ←
    (if result_Valid iiter then
       value ← result_value iiter;
       if filtered_out value k t then Some (None, Ok, c)
       else
         '(block_iter, cleanup, c) ← BlockReader options value t c;
         block_iter ← result_Seek k block_iter;
         found ← (if result_Valid block_iter then
                    key ← result_key block_iter; value ← result_value block_iter; Some (Some (key, value))
                  else Some None);
         Some (found, result_status block_iter, run_cleanup cleanup c)
     else Some (None, Ok, c));
  Some (found, if bool_decide (s = Ok) then result_status iiter else s, c).

(** The offset of the block that may have the key; of the metadata, past the last key. *)
Definition ApproximateOffsetOf (key : list Z) t : option Z :=
  index_iter ← NewIterator (t_index_block t);
  index_iter ← result_Seek key index_iter;
  if result_Valid index_iter then
    value ← result_value index_iter;
    let '(s, handle) := handle_DecodeFrom value in
    Some (if bool_decide (s = Ok) then h_offset handle else h_offset (metaindex_handle t))
  else Some (h_offset (metaindex_handle t)).
End table.
