(* ===== verification/TableProps.v ===== *)
(** * What a table builder writes ([leveldb-library/table/table_builder.cc])

    The contract of the environment of [TableBuilder.v] for the tables of a database, whose
    keys are internal keys; the contents of a table file as a predicate; and the invariant
    that leads there: the blocks that were written, the one whose index entry waits for
    the next key, and the entries of the block that is being filled. *)

From Stdlib Require Import String Sorting.Sorted.
From stdpp Require Import base list sorting.
From S2P Require Import Prelude Crc32c Cursor Coding DbFormat DbIterView VersionFiles BlockIter BlockProps TableBuilder.

#[local] Open Scope Z_scope.

(** ** What the environment promises *)

(** The most that a block takes. *)
Definition entry_room (n : Z) (e : entry) : Z := n + Z.of_nat (length e.1) + Z.of_nat (length e.2).
Definition room (n : Z) (es : list entry) : Z := foldr (fun e s => entry_room n e + s) 0 es.
Definition block_room (es : list entry) : Z := 8 + room 19 es.

Class BlockBuildersLaws (BB : Type) `{!BlockBuilders BB} `{Comparator} `{Coding} := {
  bb_entries : BB -> list entry;
  bb_open : BB -> bool;
  bb_new_law n : 1 <= n -> bb_entries (bb_new n) = [] /\ bb_open (bb_new n) = true;
  bb_Add_law k v b : bb_open b = true -> (forall e, list.last (bb_entries b) = Some e -> internal_lt e.1 k) ->
    exists b', bb_Add k v b = Some b' /\ bb_entries b' = bb_entries b ++ [(k, v)] /\ bb_open b' = true;
  bb_Finish_law b : block_room (bb_entries b) < 2 ^ 32 ->
    exists l rp, (bb_Finish b).1 = block_bytes l rp /\ block_format l rp /\ l.*2 = bb_entries b;
  bb_Finish_room b : Z.of_nat (length (bb_Finish b).1) <= block_room (bb_entries b);
  bb_Reset_law b : bb_entries (bb_Reset b) = [] /\ bb_open (bb_Reset b) = true;
  bb_empty_law b : bb_empty b = bool_decide (bb_entries b = []) }.

(** The keys that were added, with the block they are in. A policy for internal keys looks
    at user keys, and has no false negatives. *)
Class FilterBlocksLaws (FB : Type) `{!FilterBlocks FB} := {
  fb_added : FB -> list (Z * list Z);
  fb_block : FB -> Z;
  fb_new_law : fb_added fb_new = [] /\ fb_block fb_new = 0;
  fb_StartBlock_law o f : fb_block f <= o -> fb_added (fb_StartBlock o f) = fb_added f /\ fb_block (fb_StartBlock o f) = o;
  fb_AddKey_law k f : fb_added (fb_AddKey k f) = fb_added f ++ [(fb_block f, k)] /\ fb_block (fb_AddKey k f) = fb_block f;
  KeyMayMatch_law f o k a : (o, a) ∈ fb_added f -> ukey a = ukey k -> KeyMayMatch (fb_Finish f) o k = true }.

Definition handle_ok (h : BlockHandle) : Prop := is_u 64 (h_offset h) /\ is_u 64 (h_size h).

Class TableFormatLaws `{!TableFormat} := {
  handle_reads_back h : handle_ok h -> handle_DecodeFrom (handle_EncodeTo h) = (Ok, h);
  handle_length h : handle_ok h -> (length (handle_EncodeTo h) <= 20)%nat;
  footer_reads_back m i : handle_ok m -> handle_ok i -> footer_DecodeFrom (footer_EncodeTo m i) = (Ok, (m, i));
  footer_length m i : handle_ok m -> handle_ok i -> Z.of_nat (length (footer_EncodeTo m i)) = kEncodedLength;
  EncodeFixed32_length v : length (EncodeFixed32 v) = 4%nat }.

(** A separator is the first key, or has a user key strictly in between. *)
Class KeyShorteningLaws `{!KeyShortening} `{Comparator} `{Coding} := {
  separator_law a b : valid_key a -> valid_key b -> internal_lt a b ->
    (FindShortestSeparator a b = a \/
     lt_key (ukey a) (ukey (FindShortestSeparator a b)) /\ lt_key (ukey (FindShortestSeparator a b)) (ukey b)) /\
    (length (FindShortestSeparator a b) <= length a)%nat;
  successor_law a : valid_key a -> ~ internal_lt (FindShortSuccessor a) a /\ (length (FindShortSuccessor a) <= length a)%nat }.

Class TableFileLaws (W : Type) `{!TableFile W} := {
  file_contents : W -> list Z;
  file_Append_law bs w w' : file_Append bs w = (Ok, w') -> file_contents w' = file_contents w ++ bs;
  file_Flush_law w w' : file_Flush w = (Ok, w') -> file_contents w' = file_contents w }.

(** ** The contents of a table *)

Section contents.
Context `{ComparatorLaws} `{CodingLaws} `{!TableFormat} `{!TableOptions}.

Definition represents (type : CompressionType) (raw c : list Z) : Prop :=
  match type with kNoCompression => c = raw | kSnappyCompression => Snappy_Compress raw = Some c end.

(** A block with the contents [raw] is at the place [h]. *)
Definition stored (data : list Z) (h : BlockHandle) (raw : list Z) : Prop := exists pre post c type,
  data = pre ++ c ++ trailer c type ++ post /\ h = mkHandle (Z.of_nat (length pre)) (Z.of_nat (length c)) /\ represents type raw c.

(** A block with the entries [es] is at the place [h]. *)
Definition holds (data : list Z) (h : BlockHandle) (es : list entry) : Prop := exists l rp,
  stored data h (block_bytes l rp) /\ block_format l rp /\ l.*2 = es.

(** A data block with its place and its key in the index. *)
Record tblock := mkTblock { tb_entries : list entry; tb_handle : BlockHandle; tb_key : list Z }.

Abbreviation entries_of := (mbind (M := list) tb_entries).

Definition index_entry (b : tblock) : entry := (tb_key b, handle_EncodeTo (tb_handle b)).

Definition offsets (bs : list tblock) : list Z := (fun b => h_offset (tb_handle b)) <$> bs.

(** The index key is not before the keys of the block, it is before those after the block,
    and it is one of its keys or tells user keys apart. *)
Record good_key (b : tblock) (rest : list entry) : Prop := {
  gk_last : exists e, list.last (tb_entries b) = Some e /\ ~ internal_lt (tb_key b) e.1 /\ (length (tb_key b) <= length e.1)%nat;
  gk_rest : forall e, e ∈ rest -> internal_lt (tb_key b) e.1 /\
    ((exists e0, e0 ∈ tb_entries b /\ tb_key b = e0.1) \/ lt_key (ukey (tb_key b)) (ukey e.1)) }.

Fixpoint separated (bs : list tblock) (rest : list entry) : Prop :=
  match bs with [] => True | b :: bs => good_key b (entries_of bs ++ rest) /\ separated bs rest end.

Context {FB : Type} `{!FilterBlocks FB} `{!FilterBlocksLaws FB}.

(** The filter was told the keys of the block. *)
Definition filtered (f : FB) (b : tblock) : Prop := forall e, e ∈ tb_entries b -> (h_offset (tb_handle b), e.1) ∈ fb_added f.

(** The block of metadata, which has the place of the filter block. *)
Definition metadata (data : list Z) (bs : list tblock) (meta : list entry) : Prop :=
  match filter_policy with
  | Some name => exists h f, meta = [(filter_prefix ++ name, handle_EncodeTo h)] /\ handle_ok h /\ stored data h (fb_Finish f) /\ Forall (filtered f) bs
  | None => meta = []
  end.

Record data_block_ok (data : list Z) (b : tblock) : Prop := {
  db_holds : holds data (tb_handle b) (tb_entries b);
  db_handle : handle_ok (tb_handle b) }.

Record table_layout (data : list Z) (es : list entry) (bs : list tblock) (metaindex index : BlockHandle) : Prop := {
  tl_entries : es = entries_of bs;
  tl_blocks : Forall (data_block_ok data) bs;
  tl_separated : separated bs [];
  tl_offsets : StronglySorted Z.lt (offsets bs ++ [h_offset metaindex]);
  tl_index : holds data index (index_entry <$> bs);
  tl_meta : exists meta, holds data metaindex meta /\ metadata data bs meta;
  tl_handles : handle_ok metaindex /\ handle_ok index;
  tl_footer : exists pre, data = pre ++ footer_EncodeTo metaindex index }.

Definition table_file (data : list Z) (es : list entry) : Prop := exists bs metaindex index, table_layout data es bs metaindex index.

(** ** Facts about them *)

Lemma stored_app data h raw more : stored data h raw -> stored (data ++ more) h raw.
Proof using. intros (pre & post & c & type & -> & Hh & Hr). exists pre, (post ++ more), c, type. by rewrite <- !app_assoc. Qed.

Lemma stored_offset data h raw : stored data h raw -> h_offset h < Z.of_nat (length data).
Proof using.
  intros (pre & post & c & type & -> & -> & _). rewrite !length_app. unfold trailer. cbn. lia.
Qed.

Lemma holds_app data h es more : holds data h es -> holds (data ++ more) h es.
Proof using. intros (l & rp & Hs & ?). exists l, rp. split; [by apply stored_app|done]. Qed.

Lemma data_block_ok_app data b more : data_block_ok data b -> data_block_ok (data ++ more) b.
Proof using. intros [Hh ?]. split; [by apply holds_app|done]. Qed.

Lemma data_block_offset data b : data_block_ok data b -> h_offset (tb_handle b) < Z.of_nat (length data).
Proof using. intros [(l & rp & Hs & _) _]. by eapply stored_offset. Qed.

Lemma StronglySorted_snoc l o : StronglySorted Z.lt l -> (forall o', o' ∈ l -> o' < o) -> StronglySorted Z.lt (l ++ [o]).
Proof using.
  intros Hs Ho. apply StronglySorted_app_2; [|done|by repeat constructor]. intros o' o'' Ho' ->%list_elem_of_singleton. by apply Ho.
Qed.

Lemma separated_snoc bs rest e : separated bs rest -> (rest <> [] \/ bs = []) -> (forall e', e' ∈ rest -> internal_lt e'.1 e.1) ->
  separated bs (rest ++ [e]).
Proof using H0.
  intros Hs Hr He. induction bs as [|b bs IH]; [done|]. destruct Hs as [[Hl Hb] Hs]. destruct Hr as [Hr|?]; [|done].
  split; [|by apply IH; [|left]]. split; [done|]. intros e' [He'|[He'| ->%list_elem_of_singleton]%elem_of_app]%elem_of_app.
  - apply Hb, elem_of_app. by left.
  - apply Hb, elem_of_app. by right.
  - destruct rest as [|e0 rest]; [done|]. destruct (Hb e0) as [H1' H2']; [apply elem_of_app; right; left|].
    specialize (He e0 ltac:(left)). split; [by eapply internal_lt_trans|]. destruct H2' as [|H2']; [by left|right].
    eapply lt_le_key_trans; [exact H2'|]. by apply internal_lt_ukey.
Qed.

Lemma separated_app bs bs' rest : separated (bs ++ bs') rest <-> separated bs (entries_of bs' ++ rest) /\ separated bs' rest.
Proof using.
  induction bs as [|b bs IH]; [by split; [|intros [_ ?]]|]. cbn [app separated]. rewrite IH, bind_app, app_assoc. tauto.
Qed.

Lemma room_cons n e l : room n (e :: l) = entry_room n e + room n l.
Proof using. done. Qed.

Lemma room_app n l l' : room n (l ++ l') = room n l + room n l'.
Proof using. induction l as [|e l IH]; [done|]. simpl. rewrite IH. lia. Qed.

Lemma room_nonneg n l : 0 <= n -> 0 <= room n l.
Proof using. intros Hn. induction l as [|e l IH]; [done|]. simpl. unfold entry_room. lia. Qed.

Lemma room_elem n l e : 0 <= n -> e ∈ l -> entry_room n e <= room n l.
Proof using.
  intros Hn. induction 1 as [e l|e e' l _ IH]; simpl; pose proof (room_nonneg n l Hn); [lia|]. unfold entry_room in *. lia.
Qed.

Lemma room_mono n m l : n <= m -> room n l <= room m l.
Proof using. intros Hn. induction l as [|e l IH]; [done|]. simpl. unfold entry_room in *. lia. Qed.

(** The index is no larger than what is left of the room. *)
Lemma index_room `{!TableFormatLaws} bs rest : separated bs rest -> Forall (fun b => handle_ok (tb_handle b)) bs ->
  room 19 (index_entry <$> bs) <= room 39 (entries_of bs).
Proof using.
  induction bs as [|b bs IH]; [done|]. intros [[(e & He & _ & Hlen) _] Hs] [Hh Hhs]%list.Forall_cons.
  rewrite bind_cons, fmap_cons, room_cons, room_app. specialize (IH Hs Hhs).
  pose proof (room_elem 39 (tb_entries b) e ltac:(lia) ltac:(by apply last_Some_elem_of)). pose proof (handle_length _ Hh).
  unfold entry_room in *. cbn [index_entry fst snd] in *. lia.
Qed.
End contents.

(** ** Writing blocks *)

Section writing.
Context `{ComparatorLaws} `{CodingLaws} `{!InternalKeyFormat} `{!InternalComparator, !InternalComparatorLaws}.
Context `{!TableFormat} `{FL : !TableFormatLaws} `{!TableOptions} `{!KeyShortening} `{KL : !KeyShorteningLaws}.
Context {BB : Type} `{!BlockBuilders BB, !BlockBuildersLaws BB} {FB : Type} `{!FilterBlocks FB, !FilterBlocksLaws FB}.
Context {W : Type} `{!TableFile W, !TableFileLaws W}.
Implicit Types r : Rep BB FB W.

Abbreviation entries_of := (mbind (M := list) tb_entries).
Abbreviation contents r := (file_contents (r_file r)).
Abbreviation len l := (Z.of_nat (length l)).

(** The offset is the end of the file. *)
Definition at_end r : Prop := r_offset r = wrap 64 (len (contents r)).

Lemma length_trailer c type : length (trailer c type) = 5%nat.
Proof using FL. unfold trailer. cbn [length]. by rewrite EncodeFixed32_length. Qed.

Lemma compressed_ok raw c type : compressed raw = (c, type) -> represents type raw c /\ len c <= len raw.
Proof using.
  unfold compressed. destruct compression; [by intros [= <- <-]|]. destruct (Snappy_Compress raw) as [c'|] eqn:E; [|by intros [= <- <-]].
  destruct (Z.ltb_spec (len c') (len raw - len raw `div` 8)) as [Hl|]; intros [= <- <-]; [|by split].
  split; [done|]. assert (0 <= len raw `div` 8) by (apply Z.div_pos; lia). lia.
Qed.

(** What writing a block changes. *)
Record wrote (raw : list Z) (h : BlockHandle) (bound : Z) r r' : Prop := {
  wr_rest : r' = set_file (r_file r') (r_offset r') (r_status r') r;
  wr_handle : h_offset h = r_offset r;
  wr_end : r_status r' = Ok -> at_end r';
  wr_stored : r_status r' = Ok -> exists more, contents r' = contents r ++ more /\ len more <= bound + 5 /\ (is_u 64 (len (contents r')) -> stored (contents r') h raw) }.

Lemma WriteRawBlock_ok c type raw r h r' : WriteRawBlock c type r = (h, r') -> at_end r -> represents type raw c ->
  wrote raw h (len c) r r'.
Proof using FL.
  intros E He Hr. unfold WriteRawBlock in E. destruct (file_Append c (r_file r)) as [s1 f1] eqn:E1. cbn [r_file set_file r_offset] in E.
  case_bool_decide as Hs1; [subst s1|injection E as <- <-; split; [done|done|by intros|by intros]].
  destruct (file_Append (trailer c type) f1) as [s2 f2] eqn:E2. injection E as <- <-.
  split; cbn [r_file r_offset r_status set_file h_offset]; [done|done|..].
  - intros ->. unfold at_end in *. cbn [r_file r_offset]. rewrite bool_decide_true by done.
    rewrite (file_Append_law _ _ _ E2), (file_Append_law _ _ _ E1), He, !length_app, length_trailer, <- Z.add_assoc, wrap_add_l.
    cbn [r_offset set_file]. f_equal. unfold kBlockTrailerSize. lia.
  - intros ->. exists (c ++ trailer c type).
    rewrite (file_Append_law _ _ _ E2), (file_Append_law _ _ _ E1), <- app_assoc. split; [done|].
    split; [rewrite length_app, length_trailer; lia|]. intros Hu. exists (contents r), [], c, type. rewrite app_nil_r. split; [done|].
    split; [|done]. f_equal. rewrite He. apply wrap_small. unfold is_u in *. rewrite length_app in Hu. lia.
Qed.

Lemma WriteBlock_ok block r : r_status r = Ok -> at_end r -> exists h b' r',
  WriteBlock block r = Some (h, b', r') /\ bb_entries b' = [] /\ bb_open b' = true /\
  wrote (bb_Finish block).1 h (block_room (bb_entries block)) r r'.
Proof using FL.
  intros Hok He. unfold WriteBlock, ok. rewrite bool_decide_true by done. cbn [assert_ mbind option_bind].
  pose proof (bb_Finish_room block) as Hroom. destruct (bb_Finish block) as [raw b1]. cbn [fst] in *.
  destruct (compressed raw) as [c type] eqn:Ec. apply compressed_ok in Ec as [Hrep Hlen].
  destruct (WriteRawBlock c type r) as [h r'] eqn:Ew. destruct (WriteRawBlock_ok _ _ _ _ _ _ Ew He Hrep) as [A1 A2 A3 A4].
  exists h, (bb_Reset b1), r'. destruct (bb_Reset_law b1) as [B1 B2]. split_and!; [done..|]. split; [done..|].
  intros Hs. destruct (A4 Hs) as (more & E1 & E2 & E3). exists more. split_and!; [done|lia|done].
Qed.

Lemma stored_handle_ok data h raw : stored data h raw -> is_u 64 (len data) -> handle_ok h.
Proof using.
  intros (pre & post & c & type & -> & -> & _) Hu. unfold is_u in Hu. rewrite !length_app in Hu. split; cbn; unfold is_u; lia.
Qed.

(** A block whose entries have room in 32 bits holds them. *)
Lemma stored_holds data h b : stored data h (bb_Finish b).1 -> block_room (bb_entries b) < 2 ^ 32 -> holds data h (bb_entries b).
Proof using. intros Hs Hroom. destruct (bb_Finish_law b Hroom) as (l & rp & E & ? & ?). rewrite E in Hs. by exists l, rp. Qed.

(** ** The invariant *)

(** The entries of the last block while its index entry waits. *)
Definition pending_entries (pend : option (list entry * BlockHandle)) : list entry := from_option fst [] pend.

Definition pending_blocks (pend : option (list entry * BlockHandle)) : list tblock :=
  match pend with Some (l, h) => [mkTblock l h []] | None => [] end.

Definition filter_ok (bs : list tblock) (cur : list entry) (o : Z) (f : option FB) : Prop :=
  match f with
  | Some f => is_Some filter_policy /\ fb_block f = o /\ Forall (filtered f) bs /\ forall e, e ∈ cur -> (o, e.1) ∈ fb_added f
  | None => filter_policy = None
  end.

Record building (es : list entry) (bs : list tblock) (pend : option (list entry * BlockHandle)) r : Prop := {
  bd_entries : es = entries_of bs ++ pending_entries pend ++ bb_entries (data_block r);
  bd_end : r_offset r = len (contents r);
  bd_room : len (contents r) <= room 39 (entries_of bs ++ pending_entries pend);
  bd_open : bb_open (data_block r) = true /\ bb_open (index_block r) = true;
  bd_index : bb_entries (index_block r) = index_entry <$> bs;
  bd_pend : pending_index_entry r = bool_decide (is_Some pend) /\
    (forall l h, pend = Some (l, h) -> pending_handle r = h /\ l <> [] /\ bb_entries (data_block r) = []);
  bd_blocks : Forall (data_block_ok (contents r)) (bs ++ pending_blocks pend);
  bd_separated : separated bs (pending_entries pend ++ bb_entries (data_block r));
  bd_offsets : StronglySorted Z.lt (offsets (bs ++ pending_blocks pend));
  bd_next : pend = None -> bb_entries (data_block r) = [] -> bs = [];
  bd_last : forall e, list.last es = Some e -> last_key r = e.1;
  bd_count : num_entries r = len es;
  bd_filter : filter_ok (bs ++ pending_blocks pend) (bb_entries (data_block r)) (r_offset r) (filter_block r) }.

Definition builder_ok (es : list entry) r : Prop :=
  r_closed r = false /\ (r_status r = Ok -> exists bs pend, building es bs pend r).

(** All blocks have room in 32 bits. *)
Definition small (es : list entry) : Prop := 8 + room 39 es < 2 ^ 32.

Lemma builder_new_ok file : file_contents file = [] -> 1 <= block_restart_interval -> builder_ok [] (TableBuilder_new file).
Proof using.
  intros Hf Hi. split; [done|]. intros _. exists [], None. unfold TableBuilder_new.
  destruct (bb_new_law block_restart_interval Hi) as [A1 A2], (bb_new_law 1 ltac:(lia)) as [B1 B2].
  split; cbn [data_block index_block r_offset r_file pending_index_entry filter_block last_key num_entries]; rewrite ?A1, ?B1, ?Hf; try done; [constructor|].
  unfold filter_ok. destruct filter_policy as [name|]; cbn; [|done]. destruct fb_new_law as [C1 C2].
  destruct (fb_StartBlock_law 0 (fb_new (FB := FB))) as [D1 D2]; [lia|]. split_and!; [by eexists|done|done|]. by intros e ?%elem_of_nil.
Qed.

Lemma small_prefix l l' : small (l ++ l') -> small l.
Proof using. unfold small. rewrite room_app. pose proof (room_nonneg 39 l'). lia. Qed.

Lemma small_suffix l l' : small (l ++ l') -> small l'.
Proof using. unfold small. rewrite room_app. pose proof (room_nonneg 39 l). lia. Qed.

Lemma block_room_small l : small l -> block_room l < 2 ^ 32.
Proof using. unfold small, block_room. pose proof (room_mono 19 39 l). lia. Qed.

Lemma block_room_39 l : l <> [] -> block_room l + 5 <= room 39 l.
Proof using.
  destruct l as [|e l]; [done|]. intros _. unfold block_room. rewrite !room_cons. pose proof (room_mono 19 39 l). unfold entry_room. lia.
Qed.

Lemma wrote_status raw h bound r r' : wrote raw h bound r r' ->
  r_closed r' = r_closed r /\ data_block r' = data_block r /\ index_block r' = index_block r /\ last_key r' = last_key r /\
  num_entries r' = num_entries r /\ filter_block r' = filter_block r /\ pending_index_entry r' = pending_index_entry r /\
  pending_handle r' = pending_handle r.
Proof using. intros [-> _ _ _]. done. Qed.

Lemma filtered_start o f b : fb_block f <= o -> filtered f b -> filtered (fb_StartBlock o f) b.
Proof using. intros Ho Hf e He. rewrite (proj1 (fb_StartBlock_law o f Ho)). by apply Hf. Qed.

(** The block that is being filled was written. *)
Lemma written_ok es bs h r r1 r2 : building es bs None r -> small es -> bb_entries (data_block r) <> [] ->
  wrote (bb_Finish (data_block r)).1 h (block_room (bb_entries (data_block r))) r r1 -> r_status r1 = Ok ->
  contents r2 = contents r1 -> r_offset r2 = r_offset r1 -> bb_entries (data_block r2) = [] /\ bb_open (data_block r2) = true ->
  index_block r2 = index_block r /\ last_key r2 = last_key r /\ num_entries r2 = num_entries r ->
  pending_index_entry r2 = true /\ pending_handle r2 = h -> filter_block r2 = fb_StartBlock (r_offset r1) <$> filter_block r ->
  building es bs (Some (bb_entries (data_block r), h)) r2.
Proof.
  intros [Be Bend Broom [Bo1 Bo2] Bindex _ Bblocks Bsep Boff Bnext Blast Bcount Bfilter] Hsmall Hne [_ Hh Hend Hst] Hok Ec Eo [Ed1 Ed2] (Ei & El & En) [Ep1 Ep2] Ef.
  specialize (Hend Hok). destruct (Hst Hok) as (more & E1 & E2 & E3). set (cur := bb_entries (data_block r)) in *.
  unfold pending_entries, pending_blocks in *. cbn [from_option fst app] in *. rewrite ?app_nil_r in *.
  assert (room 39 (entries_of bs ++ cur) = room 39 (entries_of bs) + room 39 cur) as Happ by apply room_app.
  pose proof (block_room_39 cur Hne) as Hcur.
  assert (len (contents r1) <= room 39 (entries_of bs ++ cur)) as Hroom by (rewrite E1, length_app; lia).
  assert (is_u 64 (len (contents r1))) as Hu by (unfold small in Hsmall; rewrite Be in Hsmall; unfold is_u; lia).
  assert (r_offset r1 = len (contents r1)) as Hoff by (by rewrite Hend, wrap_small).
  split; unfold pending_entries, pending_blocks; cbn [from_option fst]; rewrite ?Ec, ?Eo, ?Ed1, ?Ei, ?El, ?En, ?app_nil_r; try done.
  - split; [by rewrite bool_decide_true by by eexists|]. by intros l h' [= <- <-].
  - apply list.Forall_app. split.
    + rewrite E1. eapply List.Forall_impl; [|exact Bblocks]. intros b. apply data_block_ok_app.
    + apply Forall_singleton. specialize (E3 Hu). split; cbn [tb_entries tb_handle].
      * apply stored_holds; [done|]. apply block_room_small. rewrite Be in Hsmall. by apply small_suffix in Hsmall.
      * by eapply stored_handle_ok.
  - unfold offsets. rewrite fmap_app. apply StronglySorted_snoc; [done|]. intros o (b & -> & Hb)%list_elem_of_fmap.
    rewrite list.Forall_forall in Bblocks. cbn. rewrite Hh, Bend. by eapply data_block_offset, Bblocks.
  - rewrite Ef. destruct (filter_block r) as [f|]; [|done]. destruct Bfilter as (F1 & F2 & F3 & F4). cbn.
    assert (fb_block f <= r_offset r1) as Hle by (rewrite F2, Bend, Hoff, E1, length_app; lia).
    split_and!; [done|by apply fb_StartBlock_law| |by intros e ?%elem_of_nil]. apply list.Forall_app. split.
    + eapply List.Forall_impl; [|exact F3]. intros b. by apply filtered_start.
    + apply Forall_singleton. intros e He. cbn. rewrite (proj1 (fb_StartBlock_law _ _ Hle)), Hh. by apply F4.
Qed.

Lemma building_at_end es bs pend r : building es bs pend r -> small es -> at_end r.
Proof using.
  intros B Hsmall. unfold at_end. rewrite (bd_end _ _ _ _ B). symmetry. apply wrap_small. pose proof (bd_room _ _ _ _ B) as Hr.
  rewrite (bd_entries _ _ _ _ B), app_assoc in Hsmall. apply small_prefix in Hsmall. unfold small in Hsmall. unfold is_u. lia.
Qed.

(** [Flush] fails no assertion and keeps the entries; unless there was an error, no block is being filled. *)
Lemma Flush_ok es r : builder_ok es r -> small es -> exists r', Flush r = Some r' /\ builder_ok es r' /\
  (r_status r' = Ok -> bb_entries (data_block r') = []).
Proof.
  intros [Hc Hb] Hsmall. unfold Flush, ok. rewrite Hc. cbn [negb assert_ mbind option_bind].
  case_bool_decide as Hok; cbn [negb]; [|exists r; by split_and!].
  destruct (Hb Hok) as (bs & pend & B). rewrite bb_empty_law. case_bool_decide as Hcur; [exists r; by split_and!|].
  pose proof (bd_pend _ _ _ _ B) as [Hp Hp'].
  destruct pend as [[l h]|]; [by destruct (Hp' _ _ eq_refl) as (_ & _ & ?)|]. rewrite Hp, bool_decide_false by by intros [].
  cbn [negb assert_ mbind option_bind].
  pose proof (building_at_end _ _ _ _ B Hsmall) as Hend.
  destruct (WriteBlock_ok (data_block r) r Hok Hend) as (h & b' & r1 & -> & Hb1 & Hb2 & Hw). cbn [mbind option_bind].
  destruct (wrote_status _ _ _ _ _ Hw) as (Ec & Ed & Ei & El & En & Efb & Ep & Eh).
  cbn [r_status set_handle set_blocks r_file r_offset pending_handle].
  destruct (decide (r_status r1 = Ok)) as [Hok1|Hok1]; [rewrite bool_decide_true by done|rewrite bool_decide_false by done].
  - destruct (file_Flush (r_file r1)) as [s f] eqn:Ef. eexists. split; [done|]. split; [|done]. split; [by transitivity (r_closed r1); [|rewrite Ec]|].
    intros Hs. cbn in Hs. subst s. exists bs, (Some (bb_entries (data_block r), h)).
    eapply (written_ok es bs h r r1); [done..| | | | | |]; cbn; try done; [by apply file_Flush_law|by rewrite Efb].
  - eexists. split; [done|]. split; [|by intros]. split; [by transitivity (r_closed r1); [|rewrite Ec]|]. by intros.
Qed.

(** ** Adding an entry *)

(** No index entry waits, and the keys of the index are separated from the next entry [e]. *)
Record ready_for (e : entry) (es : list entry) (bs : list tblock) r : Prop := {
  rd_entries : es = entries_of bs ++ bb_entries (data_block r);
  rd_end : r_offset r = len (contents r);
  rd_room : len (contents r) <= room 39 (entries_of bs);
  rd_open : bb_open (data_block r) = true /\ bb_open (index_block r) = true;
  rd_index : bb_entries (index_block r) = index_entry <$> bs;
  rd_pend : pending_index_entry r = false;
  rd_blocks : Forall (data_block_ok (contents r)) bs;
  rd_separated : separated bs (bb_entries (data_block r) ++ [e]);
  rd_offsets : StronglySorted Z.lt (offsets bs);
  rd_count : num_entries r = len es;
  rd_filter : filter_ok bs (bb_entries (data_block r)) (r_offset r) (filter_block r) }.

Lemma sorted_snoc es e e' : sorted_entries (es ++ [e]) -> e' ∈ es -> internal_lt e'.1 e.1.
Proof using. intros Hs He. eapply sorted_entries_app; [exact Hs|done|by left]. Qed.

(** The key of an index entry is after those before it. *)
Lemma index_key_last bs l sep e : separated bs l -> l <> [] -> list.last (index_entry <$> bs) = Some e ->
  (forall e', e' ∈ l -> ~ internal_lt sep e'.1) -> internal_lt e.1 sep.
Proof using H0.
  intros Hs Hl He Hsep. destruct l as [|e0 l]; [done|]. rewrite fmap_last in He. apply fmap_Some in He as (b & Hb & ->).
  apply last_Some in Hb as [bs' ->]. apply separated_app in Hs as [_ [[_ Hg] _]]. cbn in Hg. destruct (Hg e0 ltac:(left)) as [Hlt _].
  eapply internal_lt_le_trans; [exact Hlt|]. apply Hsep. left.
Qed.

Lemma offsets_key bs l h s' s : offsets (bs ++ [mkTblock l h s']) = offsets (bs ++ [mkTblock l h s]).
Proof using. unfold offsets. by rewrite !fmap_app. Qed.

(** The index entry of the last block, if it waits, is added before the next entry. *)
Lemma index_step es bs l h k v r : building es bs (Some (l, h)) r -> sorted_entries (es ++ [(k, v)]) ->
  Forall (fun e : entry => valid_key e.1) (es ++ [(k, v)]) ->
  exists bs' r', add_index_entry (FindShortestSeparator (last_key r) k) r = Some r' /\ ready_for (k, v) es bs' r' /\
    r_closed r' = r_closed r /\ r_status r' = r_status r.
Proof.
  intros [Be Bend Broom [Bo1 Bo2] Bindex [_ Bp] Bblocks Bsep Boff _ Blast Bcount Bfilter] Hs Hv.
  destruct (Bp _ _ eq_refl) as (Hh & Hl & Hcur). unfold pending_entries, pending_blocks in *. cbn [from_option fst] in *.
  rewrite Hcur, app_nil_r in *. assert (exists e, list.last l = Some e) as [e He] by (apply last_is_Some; done).
  assert (list.last es = Some e) as Hlast by (rewrite Be, last_app, He; done). rewrite (Blast e Hlast).
  assert (sorted_entries l) as Hsl by (apply sorted_entries_prefix in Hs; rewrite Be in Hs; by apply sorted_entries_suffix in Hs).
  assert (e ∈ es) as Hin by by apply last_Some_elem_of. rewrite list.Forall_app, Forall_singleton, list.Forall_forall in Hv. destruct Hv as [Hv Hvk].
  destruct (separator_law e.1 k (Hv e Hin) Hvk (sorted_snoc _ _ _ Hs Hin)) as [Hsep Hlen]. set (sep := FindShortestSeparator e.1 k) in *.
  assert (~ internal_lt sep e.1 /\ internal_lt sep k) as [Hs1 Hs2].
  { destruct Hsep as [->|[A1 A2]]; [split; [apply internal_lt_irrefl|by apply (sorted_snoc es (k, v))]|].
    split; [|by left]. intros Hn%internal_lt_ukey. done. }
  assert (forall e', e' ∈ l -> ~ internal_lt sep e'.1) as Hge.
  { intros e' He' Hn. apply last_Some in He as [l' ->]. apply Hs1. apply elem_of_app in He' as [He'| ->%list_elem_of_singleton]; [|done].
    eapply internal_lt_trans; [exact Hn|]. by apply (sorted_snoc l'). }
  destruct (bb_Add_law sep (handle_EncodeTo h) (index_block r) Bo2) as (index & Ei & Eentries & Eopen).
  { intros e' He'. rewrite Bindex in He'. by eapply index_key_last. }
  unfold add_index_entry. rewrite Hh, Ei. cbn [mbind option_bind]. exists (bs ++ [mkTblock l h sep]). eexists. split; [done|].
  split; [|done].
  assert (entries_of (bs ++ [mkTblock l h sep]) = entries_of bs ++ l) as Hbs by (rewrite bind_app; cbn; by rewrite app_nil_r).
  split; cbn [data_block index_block r_offset r_file pending_index_entry filter_block last_key num_entries set_handle set_blocks set_key];
    rewrite ?Hbs, ?Hcur, ?app_nil_r; try done.
  - by rewrite Eentries, Bindex, fmap_app.
  - rewrite list.Forall_app, Forall_singleton in Bblocks. destruct Bblocks as [B1 [B2 B3]].
    apply list.Forall_app. split; [done|]. by apply Forall_singleton.
  - apply separated_app. cbn. rewrite app_nil_r. split.
    + apply separated_snoc; [done|by left|]. intros e' He'. apply (sorted_snoc es (k, v)); [done|]. rewrite Be. apply elem_of_app. by right.
    + split; [|done]. split; [by exists e|]. intros e' ->%list_elem_of_singleton. split; [done|]. cbn.
      destruct Hsep as [->|[_ A2]]; [left|by right]. exists e. by split; [apply last_Some_elem_of|].
  - by rewrite offsets_key with (s := []).
  - destruct (filter_block r) as [f|]; [|done]. destruct Bfilter as (F1 & F2 & F3 & F4). split_and!; try done.
    rewrite list.Forall_app, Forall_singleton in F3. apply list.Forall_app. split; [apply F3|]. apply Forall_singleton, F3.
Qed.

Lemma no_index_step es bs k v r : building es bs None r -> sorted_entries (es ++ [(k, v)]) -> ready_for (k, v) es bs r.
Proof.
  intros [Be Bend Broom Bo Bindex [Bp _] Bblocks Bsep Boff Bnext Blast Bcount Bfilter] Hs.
  cbn [pending_entries pending_blocks from_option app] in *. rewrite app_nil_r in *. split; try done.
  apply separated_snoc; [done| |].
  - destruct (bb_entries (data_block r)) eqn:E; [right; by apply Bnext|by left].
  - intros e He. apply (sorted_snoc es (k, v)); [done|]. rewrite Be. apply elem_of_app. by right.
Qed.

Lemma filter_ok_add bs cur o k v f : filter_ok bs cur o f -> filter_ok bs (cur ++ [(k, v)]) o (fb_AddKey k <$> f).
Proof using.
  destruct f as [f|]; [|done]. intros (F1 & F2 & F3 & F4). cbn. destruct (fb_AddKey_law k f) as [A1 A2].
  rewrite A2, A1. split_and!; try done.
  - eapply List.Forall_impl; [|exact F3]. intros b Hb e He. rewrite A1. apply elem_of_app. left. by apply Hb.
  - intros e [He| ->%list_elem_of_singleton]%elem_of_app; apply elem_of_app; [left; by apply F4|right; rewrite F2; left].
Qed.

(** The entry goes to the block that is being filled. *)
Lemma entry_step es bs k v r : ready_for (k, v) es bs r -> sorted_entries (es ++ [(k, v)]) -> exists block,
  bb_Add k v (data_block r) = Some block /\ forall r', r' = set_blocks block (index_block r) (set_key k (num_entries r + 1)
    (set_filter (fb_AddKey k <$> filter_block r) r)) -> building (es ++ [(k, v)]) bs None r'.
Proof.
  intros [Be Bend Broom [Bo1 Bo2] Bindex Bp Bblocks Bsep Boff Bcount Bfilter] Hs.
  destruct (bb_Add_law k v (data_block r) Bo1) as (block & E & Eentries & Eopen).
  { intros e He%last_Some_elem_of. apply (sorted_snoc es (k, v)); [done|]. rewrite Be. apply elem_of_app. by right. }
  exists block. split; [done|]. intros r' ->.
  split; unfold pending_entries, pending_blocks; cbn [from_option data_block index_block r_offset r_file pending_index_entry
    filter_block last_key num_entries set_filter set_blocks set_key app]; rewrite ?Eentries, ?app_nil_r; try done.
  - by rewrite Be, <- app_assoc.
  - by intros _ [_ ?]%app_nil.
  - intros e. rewrite last_snoc. by intros [= <-].
  - rewrite length_app. cbn. lia.
  - by apply filter_ok_add.
Qed.

(** [Add] of the next entry in order fails no assertion, and the entry is there unless there was an error. *)
Lemma Add_ok es k v r : builder_ok es r -> sorted_entries (es ++ [(k, v)]) -> Forall (fun e : entry => valid_key e.1) (es ++ [(k, v)]) ->
  small (es ++ [(k, v)]) -> exists r', Add (H := ICompare) k v r = Some r' /\ builder_ok (es ++ [(k, v)]) r'.
Proof.
  intros [Hc Hb] Hs Hv Hsmall. unfold Add, ok. rewrite Hc. cbn [negb assert_ mbind option_bind].
  case_bool_decide as Hok; cbn [negb]; [|exists r; split; [done|]; by split].
  destruct (Hb Hok) as (bs & pend & B).
  assert ((if 0 <? num_entries r then assert_ (0 <? @Compare ICompare k (last_key r)) else Some ()) = Some ()) as ->.
  { rewrite (bd_count _ _ _ _ B). destruct (list.last es) as [e|] eqn:El.
    - rewrite (bd_last _ _ _ _ B e El). assert (internal_lt e.1 k) as Hlt by (apply (sorted_snoc es (k, v)); [done|by apply last_Some_elem_of]).
      apply (ICompare_gt k e.1), Z.ltb_lt in Hlt. unfold Compare. rewrite Hlt. by case_match.
    - apply last_None in El as ->. done. }
  cbn [mbind option_bind].
  assert (exists bs' r1, (if pending_index_entry r then _ ← assert_ (bb_empty (data_block r));
      add_index_entry (FindShortestSeparator (last_key r) k) r else Some r) = Some r1 /\ ready_for (k, v) es bs' r1 /\
    r_closed r1 = r_closed r /\ r_status r1 = r_status r) as (bs' & r1 & -> & Hready & Ec & Es).
  { destruct (bd_pend _ _ _ _ B) as [-> Hp]. destruct pend as [[l h]|].
    - destruct (Hp _ _ eq_refl) as (_ & _ & Hcur). rewrite bb_empty_law, (bool_decide_true (_ = [])) by done. by eapply index_step.
    - exists bs, r. split; [done|]. split; [by apply no_index_step|done]. }
  cbn [mbind option_bind]. destruct (entry_step es bs' k v r1 Hready Hs) as (block & E & Hnew).
  cbn [data_block set_key set_filter index_block]. rewrite E. cbn [mbind option_bind].
  set (r2 := set_blocks block _ _). assert (builder_ok (es ++ [(k, v)]) r2) as Hr2.
  { split; [by cbn; rewrite Ec|]. intros _. exists bs', None. by apply Hnew. }
  destruct (block_size <=? _); [|by exists r2]. destruct (Flush_ok _ _ Hr2 Hsmall) as (r' & -> & ? & _). by exists r'.
Qed.

(** ** The end of the table *)

(** The index entry of the last block is added, if there is a block. *)
Lemma successor_step es bs pend r1 : building es bs pend r1 -> bb_entries (data_block r1) = [] -> sorted_entries es ->
  Forall (fun e : entry => valid_key e.1) es ->
  exists bs', es = entries_of bs' /\ separated bs' [] /\ Forall (data_block_ok (contents r1)) bs' /\
    filter_ok bs' [] (r_offset r1) (filter_block r1) /\ StronglySorted Z.lt (offsets bs') /\
    forall r, index_block r = index_block r1 -> last_key r = last_key r1 -> pending_index_entry r = pending_index_entry r1 ->
      pending_handle r = pending_handle r1 ->
      exists r', (if pending_index_entry r then add_index_entry (FindShortSuccessor (last_key r)) r else Some r) = Some r' /\
        bb_entries (index_block r') = index_entry <$> bs' /\ r_file r' = r_file r /\ r_offset r' = r_offset r /\
        r_status r' = r_status r /\ r_closed r' = r_closed r.
Proof.
  intros [Be Bend Broom [Bo1 Bo2] Bindex [Bp1 Bp2] Bblocks Bsep Boff Bnext Blast Bcount Bfilter] Hcur Hs Hv.
  unfold pending_entries, pending_blocks in *. rewrite Hcur, ?app_nil_r in *.
  destruct pend as [[l h]|]; cbn [from_option fst] in *; rewrite ?app_nil_r in *.
  - destruct (Bp2 _ _ eq_refl) as (Hh & Hl & _). assert (exists e, list.last l = Some e) as [e He] by (apply last_is_Some; done).
    assert (list.last es = Some e) as Hlast by (rewrite Be, last_app, He; done). pose proof (Blast e Hlast) as El.
    assert (valid_key e.1) as Hve by (rewrite list.Forall_forall in Hv; by apply Hv, last_Some_elem_of).
    destruct (successor_law e.1 Hve) as [Hge Hlen]. set (succ := FindShortSuccessor e.1) in *.
    assert (forall e', e' ∈ l -> ~ internal_lt succ e'.1) as Hall.
    { intros e' He' Hn. apply last_Some in He as [l' ->]. apply elem_of_app in He' as [He'| ->%list_elem_of_singleton]; [|done].
      apply Hge. eapply internal_lt_trans; [exact Hn|]. apply (sorted_snoc l'); [|done].
      rewrite Be in Hs. by apply sorted_entries_suffix in Hs. }
    exists (bs ++ [mkTblock l h succ]). split; [by rewrite bind_app; cbn; rewrite app_nil_r|]. split; [|split; [|split; [|split]]].
    + apply separated_app. cbn. rewrite !app_nil_r. split; [done|]. split; [|done]. split; [by exists e|]. by intros e' ?%elem_of_nil.
    + rewrite list.Forall_app, Forall_singleton in *. destruct Bblocks as [B1 [B2 B3]]. done.
    + destruct (filter_block r1) as [f|]; [|done]. destruct Bfilter as (F1 & F2 & F3 & F4). split_and!; try done.
      rewrite list.Forall_app, Forall_singleton in *. done.
    + by rewrite offsets_key with (s := []).
    + intros r Ei Ek Ep Eh. rewrite Ep, Bp1, bool_decide_true by by eexists. unfold add_index_entry. rewrite Ek, El, Ei, Eh, Hh. fold succ.
      destruct (bb_Add_law succ (handle_EncodeTo h) (index_block r1) Bo2) as (index & E & Eentries & Eopen).
      { intros e' He'. rewrite Bindex in He'. by eapply index_key_last. }
      rewrite E. cbn [mbind option_bind]. eexists. split; [done|]. cbn. by rewrite Eentries, Bindex, fmap_app.
  - rewrite (Bnext eq_refl eq_refl) in *. exists []. split_and!; try done. intros r Ei Ek Ep Eh. exists r.
    rewrite Ep, Bp1, bool_decide_false by by intros []. split_and!; try done. by rewrite Ei, Bindex.
Qed.

(** Once there is an error, nothing is written any more. *)
Lemma finish_error r fh : r_status r <> Ok ->
  (write_filter r).2 = r /\ write_metaindex fh r = Some (mkHandle 0 0, r) /\ write_index r = Some (mkHandle 0 0, r) /\
  forall m i, write_footer m i r = r.
Proof using.
  intros Hr. unfold write_filter, write_metaindex, write_index, write_footer, ok. rewrite bool_decide_false by done. by destruct (filter_block r).
Qed.

(** What the end of the table adds. *)
Record extended (r r' : Rep BB FB W) : Prop := {
  ex_more : exists more, contents r' = contents r ++ more;
  ex_end : at_end r';
  ex_rest : index_block r' = index_block r /\ last_key r' = last_key r /\ pending_index_entry r' = pending_index_entry r /\
    pending_handle r' = pending_handle r /\ filter_block r' = filter_block r }.

Lemma wrote_extended raw h bound r r' : wrote raw h bound r r' -> r_status r' = Ok -> extended r r'.
Proof using.
  intros Hw Hok. destruct (wrote_status _ _ _ _ _ Hw) as (_ & _ & ? & ? & _ & ? & ? & ?). destruct Hw as [_ _ He Hs].
  destruct (Hs Hok) as (more & E & _). split; [by exists more|by apply He|done].
Qed.

Lemma extended_u r r' : extended r r' -> is_u 64 (len (contents r')) -> is_u 64 (len (contents r)).
Proof using. intros [[more E] _ _]. rewrite E, length_app. unfold is_u. lia. Qed.

Lemma write_filter_ok bs o r : at_end r -> r_status r = Ok -> filter_ok bs [] o (filter_block r) ->
  let '(h, r') := write_filter r in r_closed r' = r_closed r /\
    (r_status r' = Ok -> extended r r' /\ (is_u 64 (len (contents r')) -> match filter_block r with
      | Some f => stored (contents r') h (fb_Finish f)
      | None => True end)).
Proof using FL.
  intros He Hok Hf. unfold write_filter, ok. destruct (filter_block r) as [f|] eqn:Ef.
  - rewrite bool_decide_true by done. destruct (WriteRawBlock _ _ r) as [h r'] eqn:Ew.
    pose proof (WriteRawBlock_ok _ _ (fb_Finish f) _ _ _ Ew He eq_refl) as Hw.
    destruct (wrote_status _ _ _ _ _ Hw) as (Ec & _). split; [done|]. intros Hok'. split; [by eapply wrote_extended|].
    destruct Hw as [_ _ _ Hs]. by destruct (Hs Hok') as (? & _ & _ & ?).
  - split; [done|]. intros _. split; [|done]. split; [exists []; by rewrite app_nil_r|done|done].
Qed.

(** The name of the filter policy has room. *)
Definition short_name : Prop := match filter_policy with Some name => len name < 2 ^ 31 | None => True end.

Definition meta_entries (h : BlockHandle) : list entry :=
  match filter_policy with Some name => [(filter_prefix ++ name, handle_EncodeTo h)] | None => [] end.

Lemma write_metaindex_ok bs o fh r : at_end r -> r_status r = Ok -> filter_ok bs [] o (filter_block r) -> 1 <= block_restart_interval ->
  short_name -> exists h r', write_metaindex fh r = Some (h, r') /\ r_closed r' = r_closed r /\
    (r_status r' = Ok -> extended r r' /\ h_offset h = r_offset r /\ (is_u 64 (len (contents r')) -> handle_ok fh ->
      handle_ok h /\ holds (contents r') h (meta_entries fh))).
Proof.
  intros He Hok Hf Hi Hshort. unfold write_metaindex, ok. rewrite bool_decide_true by done.
  destruct (bb_new_law block_restart_interval Hi) as [A1 A2].
  assert (exists meta, match filter_block r, filter_policy with
    | Some _, Some name => bb_Add (filter_prefix ++ name) (handle_EncodeTo fh) (bb_new block_restart_interval)
    | Some _, None => None
    | None, _ => Some (bb_new block_restart_interval) end = Some meta /\ bb_entries meta = meta_entries fh) as (meta & -> & Em).
  { unfold meta_entries, filter_ok in *. destruct (filter_block r).
    - destruct Hf as ([name ->] & _). destruct (bb_Add_law (filter_prefix ++ name) (handle_EncodeTo fh) (bb_new block_restart_interval) A2)
        as (meta & E & Eentries & _); [by rewrite A1|]. exists meta. by rewrite Eentries, A1.
    - rewrite Hf. by eexists. }
  cbn [mbind option_bind]. destruct (WriteBlock_ok meta r Hok He) as (h & b' & r' & -> & _ & _ & Hw). cbn [mbind option_bind].
  exists h, r'. split; [done|]. destruct (wrote_status _ _ _ _ _ Hw) as (Ec & _). split; [done|]. intros Hok'.
  split; [by eapply wrote_extended|]. destruct Hw as [_ Ho _ Hst]. split; [done|]. intros Hu Hfh. destruct (Hst Hok') as (_ & _ & _ & Hs). specialize (Hs Hu).
  split; [by eapply stored_handle_ok|]. rewrite <- Em. apply stored_holds; [done|]. rewrite Em. unfold block_room, meta_entries, short_name in *.
  destruct filter_policy as [name|]; [|done]. rewrite room_cons. unfold entry_room. cbn [fst snd room foldr].
  pose proof (handle_length _ Hfh). rewrite length_app. cbn. lia.
Qed.

Lemma write_index_ok es bs r1 r r0 : bb_entries (index_block r0) = index_entry <$> bs -> es = entries_of bs -> separated bs [] ->
  Forall (data_block_ok (contents r1)) bs -> small es -> at_end r0 -> r_status r0 = Ok ->
  (if pending_index_entry r then add_index_entry (FindShortSuccessor (last_key r)) r else Some r) = Some r0 -> r_status r = Ok ->
  r_file r0 = r_file r -> r_closed r0 = r_closed r ->
  exists h r', write_index r = Some (h, r') /\ r_closed r' = r_closed r /\
    (r_status r' = Ok -> at_end r' /\ (exists more, contents r' = contents r ++ more) /\
      (is_u 64 (len (contents r')) -> handle_ok h /\ holds (contents r') h (index_entry <$> bs))).
Proof.
  intros Hi -> Hsep Hb Hsmall He Hok E Hok1 Ef Ec. unfold write_index, ok. rewrite bool_decide_true, E by done. cbn [mbind option_bind].
  destruct (WriteBlock_ok (index_block r0) r0 Hok He) as (h & b' & r' & -> & _ & _ & Hw). cbn [mbind option_bind].
  exists h. eexists. split; [done|]. destruct (wrote_status _ _ _ _ _ Hw) as (Ec' & _). split; [by transitivity (r_closed r'); [|congruence]|].
  intros Hok'. destruct Hw as [_ _ Hend Hst]. specialize (Hend Hok'). destruct (Hst Hok') as (more & E1 & _ & Hs).
  split; [done|]. split; [exists more; cbn; by rewrite E1, Ef|]. intros Hu. cbn in Hu |- *. specialize (Hs Hu).
  split; [by eapply stored_handle_ok|]. rewrite <- Hi. apply stored_holds; [done|]. rewrite Hi. unfold block_room, small in *.
  pose proof (index_room bs [] Hsep) as Hroom. assert (Forall (fun b => handle_ok (tb_handle b)) bs) as Hh; [|specialize (Hroom Hh); lia].
  eapply List.Forall_impl; [|exact Hb]. by intros b [].
Qed.

Lemma write_footer_ok m i r : at_end r -> r_closed (write_footer m i r) = r_closed r /\
  (r_status (write_footer m i r) = Ok -> r_status r = Ok /\ at_end (write_footer m i r) /\
    contents (write_footer m i r) = contents r ++ footer_EncodeTo m i).
Proof using.
  intros He. unfold write_footer, ok. case_bool_decide as Hok; [|by split].
  destruct (file_Append _ (r_file r)) as [s f] eqn:E. split; [done|]. cbn [r_status set_file]. intros ->.
  split; [done|]. unfold at_end in *. cbn [r_offset r_file set_file]. rewrite bool_decide_true by done.
  rewrite (file_Append_law _ _ _ E), He, length_app. split; [|done]. rewrite wrap_add_l. f_equal. lia.
Qed.

Lemma extended_trans r1 r2 r3 : extended r1 r2 -> extended r2 r3 -> extended r1 r3.
Proof using.
  intros [[m1 E1] _ (A1 & A2 & A3 & A4 & A5)] [[m2 E2] He (B1 & B2 & B3 & B4 & B5)]. split; [|done|split_and!; congruence].
  exists (m1 ++ m2). by rewrite E2, E1, <- app_assoc.
Qed.

(** Everything after the last data block. *)
Definition write_tail r : option (Rep BB FB W) :=
  let '(fh, r) := write_filter r in
  '(m, r) ← write_metaindex fh r; '(i, r) ← write_index r; Some (write_footer m i r).

Lemma write_tail_error r : r_status r <> Ok -> write_tail r = Some r.
Proof using.
  intros Hr. unfold write_tail. destruct (finish_error r (mkHandle 0 0) Hr) as (E & _). destruct (write_filter r) as [fh r'].
  cbn [snd] in E. subst r'. destruct (finish_error r fh Hr) as (_ & -> & Ei & Ef). cbn [mbind option_bind]. rewrite Ei. cbn [mbind option_bind].
  by rewrite Ef.
Qed.

(** The filter block and the metadata. *)
Lemma write_meta_ok bs o r : at_end r -> r_status r = Ok -> filter_ok bs [] o (filter_block r) -> 1 <= block_restart_interval ->
  short_name -> let '(fh, r2) := write_filter r in exists m r3, write_metaindex fh r2 = Some (m, r3) /\ r_closed r3 = r_closed r /\
    (r_status r3 = Ok -> extended r r3 /\ (is_u 64 (len (contents r3)) -> handle_ok m /\ len (contents r) <= h_offset m /\
      exists meta, holds (contents r3) m meta /\ metadata (contents r3) bs meta)).
Proof.
  intros He Hok Hf Hi Hshort. pose proof (write_filter_ok bs o r He Hok Hf) as Hw. destruct (write_filter r) as [fh r2] eqn:Efil.
  destruct Hw as [Hc2 Hw]. destruct (decide (r_status r2 = Ok)) as [Hok2|Hne].
  2:{ destruct (finish_error r2 fh Hne) as (_ & -> & _). by exists (mkHandle 0 0), r2. }
  destruct (Hw Hok2) as [Hx2 Hst2]. pose proof (ex_end _ _ Hx2) as He2.
  assert (filter_block r2 = filter_block r) as Efb by apply Hx2.
  destruct (write_metaindex_ok bs o fh r2 He2 Hok2) as (m & r3 & -> & Hc3 & Hm); [by rewrite Efb|done|done|].
  exists m, r3. split; [done|]. split; [congruence|]. intros Hok3. destruct (Hm Hok3) as (Hx3 & Ho & Hst3).
  split; [by eapply extended_trans|]. intros Hu. pose proof (extended_u _ _ Hx3 Hu) as Hu2. specialize (Hst2 Hu2). destruct Hx3 as [[more E3] _ _].
  assert (len (contents r) <= h_offset m) as Hge.
  { rewrite Ho, He2, wrap_small by done. destruct Hx2 as [[more2 E2] _ _]. rewrite E2, length_app. lia. }
  unfold metadata, meta_entries, filter_ok in *. destruct (filter_block r) as [f|] eqn:Ef.
  - destruct Hf as ([name En] & _ & Hfil & _). rewrite En in *. pose proof (stored_handle_ok _ _ _ Hst2 Hu2) as Hfh.
    destruct (Hst3 Hu Hfh) as [Hh Hholds]. do 2 (split; [done|]). eexists. split; [exact Hholds|]. exists fh, f. split_and!; try done.
    rewrite E3. by apply stored_app.
  - rewrite Hf in *. assert (handle_ok fh) as Hfh.
    { unfold write_filter in Efil. rewrite Ef in Efil. by injection Efil as <- _. }
    destruct (Hst3 Hu Hfh) as [Hh Hholds]. do 2 (split; [done|]). by eexists.
Qed.

Lemma write_tail_ok es bs pend r : building es bs pend r -> bb_entries (data_block r) = [] -> sorted_entries es ->
  Forall (fun e : entry => valid_key e.1) es -> small es -> 1 <= block_restart_interval -> short_name -> r_status r = Ok ->
  exists r', write_tail r = Some r' /\ r_closed r' = r_closed r /\ (r_status r' = Ok -> is_u 64 (len (contents r')) ->
    table_file (FB := FB) (contents r') es /\ FileSize r' = len (contents r')).
Proof.
  intros B Hcur Hs Hv Hsmall Hi Hshort Hok. pose proof (building_at_end _ _ _ _ B Hsmall) as Hend.
  destruct (successor_step _ _ _ _ B Hcur Hs Hv) as (bs' & Hes & Hsep & Hblocks & Hfilter & Hoffs & Hstep).
  pose proof (write_meta_ok bs' _ r Hend Hok Hfilter Hi Hshort) as Hm. unfold write_tail. destruct (write_filter r) as [fh r2].
  destruct Hm as (m & r3 & -> & Hc3 & Hm). cbn [mbind option_bind].
  destruct (decide (r_status r3 = Ok)) as [Hok3|Hne].
  2:{ destruct (finish_error r3 fh Hne) as (_ & _ & -> & Ef). cbn [mbind option_bind]. exists r3. rewrite Ef. by split_and!. }
  destruct (Hm Hok3) as [[[more3 E3] Hend3 (Ei & Ek & Ep & Eh & Ef)] Hst3].
  destruct (Hstep r3 Ei Ek Ep Eh) as (r0 & E0 & Hindex & Hf0 & Ho0 & Hs0 & Hc0).
  assert (at_end r0) as Hend0 by (unfold at_end in *; by rewrite Ho0, Hf0).
  destruct (write_index_ok es bs' r r3 r0) as (i & r4 & -> & Hc4 & Hi4); [try done; congruence..|].
  cbn [mbind option_bind]. eexists. split; [done|]. destruct (decide (r_status r4 = Ok)) as [Hok4|Hne].
  2:{ destruct (finish_error r4 fh Hne) as (_ & _ & _ & ->). split; [congruence|done]. }
  destruct (Hi4 Hok4) as (Hend4 & [more4 E4] & Hst4). destruct (write_footer_ok m i r4 Hend4) as [Hcf Hfoot].
  split; [congruence|]. intros Hok5 Hu. destruct (Hfoot Hok5) as (_ & Hend5 & E5).
  assert (is_u 64 (len (contents r4))) as Hu4 by (rewrite E5, length_app in Hu; unfold is_u in *; lia).
  assert (is_u 64 (len (contents r3))) as Hu3 by (rewrite E4, length_app in Hu4; unfold is_u in *; lia).
  destruct (Hst4 Hu4) as [Hhi Hidx], (Hst3 Hu3) as (Hhm & Hge & meta & Hmeta & Hmd). split; [|unfold FileSize; rewrite Hend5; by apply wrap_small].
  exists bs', m, i. rewrite E5. split; [done| |done| |by apply holds_app| |done|by eexists].
  - rewrite E4, E3, <- !app_assoc. eapply List.Forall_impl; [|exact Hblocks]. intros b. apply data_block_ok_app.
  - apply StronglySorted_snoc; [done|]. intros o (b & -> & Hb)%list_elem_of_fmap. rewrite list.Forall_forall in Hblocks.
    pose proof (data_block_offset _ _ (Hblocks b Hb)). lia.
  - exists meta. rewrite E4, <- app_assoc. split; [by apply holds_app|]. unfold metadata in *. destruct filter_policy; [|done].
    destruct Hmd as (h & f & A1 & A2 & A3 & A4). exists h, f. split_and!; try done. by apply stored_app.
Qed.

(** [Finish] fails no assertion; unless there was an error, the file is a table with the entries. *)
Lemma Finish_ok es r : builder_ok es r -> sorted_entries es -> Forall (fun e : entry => valid_key e.1) es -> small es ->
  1 <= block_restart_interval -> short_name ->
  exists r', Finish r = Some r' /\ r_closed r' = true /\ (r_status r' = Ok -> is_u 64 (len (contents r')) ->
    table_file (FB := FB) (contents r') es /\ FileSize r' = len (contents r')).
Proof.
  intros Hr Hs Hv Hsmall Hi Hshort. destruct (Flush_ok es r Hr Hsmall) as (r1 & E1 & [Hc1 Hb1] & Hcur).
  assert (Finish r = write_tail (set_closed r1)) as -> by (unfold Finish; rewrite E1; cbn [mbind option_bind]; by rewrite Hc1).
  destruct (decide (r_status r1 = Ok)) as [Hok|Hne].
  - destruct (Hb1 Hok) as (bs & pend & B). apply (write_tail_ok es bs pend (set_closed r1)); try done; [by destruct B|by apply Hcur].
  - exists (set_closed r1). by rewrite write_tail_error.
Qed.

(** Entries in order can be added one after the other. *)
Lemma add_all_ok es es' r : builder_ok es r -> sorted_entries (es ++ es') -> Forall (fun e : entry => valid_key e.1) (es ++ es') ->
  small (es ++ es') -> exists r', add_all (H := ICompare) es' r = Some r' /\ builder_ok (es ++ es') r'.
Proof.
  revert es r. induction es' as [|[k v] es' IH]; intros es r Hr Hs Hv Hsmall; [exists r; by rewrite app_nil_r|]. cbn [add_all].
  rewrite (cons_middle (k, v) es es'), app_assoc in *. destruct (Add_ok es k v r Hr) as (r1 & -> & Hr1);
    [by apply sorted_entries_prefix in Hs|by apply list.Forall_app in Hv as [? _]|by apply small_prefix in Hsmall|].
  cbn [mbind option_bind]. by apply IH.
Qed.

(** Building a table from sorted entries fails no assertion; unless there was an error, the
    file that was empty is a table with the entries, and [FileSize] is its size. *)
Lemma build_table_ok es file : file_contents file = [] -> sorted_entries es -> Forall (fun e : entry => valid_key e.1) es -> small es ->
  1 <= block_restart_interval -> short_name ->
  exists r, build_table (BB := BB) (FB := FB) (H := ICompare) es file = Some r /\ r_closed r = true /\
    (r_status r = Ok -> is_u 64 (len (contents r)) -> table_file (FB := FB) (contents r) es /\ FileSize r = len (contents r)).
Proof.
  intros Hf Hs Hv Hsmall Hi Hshort. unfold build_table.
  destruct (add_all_ok [] es (TableBuilder_new file) (builder_new_ok file Hf Hi)) as (r & -> & Hr); [done..|]. cbn [mbind option_bind].
  by apply Finish_ok.
Qed.
End writing.
