(* ===== verification/TableLookup.v ===== *)
(** * Lookups in the table that was written ([leveldb-library/table/table.cc])

    A table is opened and searched through [TableReader.v] on the file that [TableProps.v] is
    about: what a lookup gives is what the search in the entries of the table gives, or
    nothing when the table has no entry of the user key from there on. The
    cache holds what belongs there, before and after. *)

From Stdlib Require Import String Sorting.Sorted.
From stdpp Require Import base list sorting.
From S2P Require Import Prelude Crc32c Cursor Coding DbFormat DbIterView VersionFiles BlockIter BlockProps.
From S2P Require Import TableBuilder TableReader TableProps.

#[local] Open Scope Z_scope.

(** ** What the environment promises *)

(** The file has the bytes [data], and can be read. *)
Class TableSourceLaws (F : Type) `{!TableSource F} `{!TableFormat} := {
  readable : F -> list Z -> Prop;
  file_Read_law f data off n : readable f data -> 0 <= off -> 0 <= n -> off + n = Z.of_nat (length data) ->
    file_Read off n f = (Ok, drop (Z.to_nat off) data);
  ReadBlock_law f data verify h raw : readable f data -> stored data h raw ->
    exists cachable, ReadBlock verify h f = (Ok, (raw, cachable)) }.

(** [cached c key b] says that a lookup of the key may give the block. *)
Class BlockCacheLaws (Hd C : Type) `{!BlockCache Hd C} := {
  cached : C -> list Z -> Block -> Prop;
  cache_Lookup_law key c h c' : cache_Lookup key c = (h, c') -> (forall k b, cached c' k b -> cached c k b) /\
    forall h', h = Some h' -> cached c key (cache_Value h' c');
  cache_Insert_law key b n c h c' : cache_Insert key b n c = (h, c') -> forall k b', cached c' k b' -> cached c k b' \/ k = key /\ b' = b;
  cache_Release_law h c k b : cached (cache_Release h c) k b -> cached c k b }.

(** ** Searching a block *)

Section block.
Context `{ComparatorLaws} `{CodingLaws}.

(** The block has the entries [es]. *)
Definition good_block (b : Block) (es : list entry) : Prop := exists l rp,
  block_format l rp /\ l.*2 = es /\ Block_new (block_bytes l rp) = Some b.

(** The iterator is at the entry of the index [i], if there is one. *)
Record found_at (es : list entry) (i : nat) (it : NewIterator_result) : Prop := {
  fa_status : result_status it = Ok;
  fa_valid : result_Valid it = bool_decide (is_Some (es !! i));
  fa_entry e : es !! i = Some e -> result_key it = Some e.1 /\ result_value it = Some e.2 }.

Lemma good_seek (cmp : Comparator) b es k : @KeyOrder cmp -> @sorted_keys cmp es -> good_block b es ->
  exists it it', NewIterator b = Some it /\ result_status it = Ok /\ result_Seek (H := cmp) k it = Some it' /\
    found_at es (seek_index (@user_before cmp) es k) it'.
Proof using H2.
  intros Hord Hs (l & rp & Hf & <- & Hb). destruct (block_opens l rp Hf) as (b' & it & Hb' & Hit & Hat).
  rewrite Hb in Hb'. injection Hb' as <-. exists (BlockIterator it). destruct (@block_Seek cmp _ _ l rp Hf Hord Hs it None k Hat) as (it' & E & Hat').
  exists (BlockIterator it'). split; [done|]. split; [apply Hat|]. cbn. rewrite E. cbn. split; [done|]. clear Hit E Hat it.
  destruct (@block_laws cmp _ _ l rp Hf Hord Hs) as [Hv _ He _ _ _ _ _]. unfold position in Hat'. split; [apply Hat'|..]; cbn.
  - change (@Block_Valid) with (@it_Valid _ (@Block_Iterator cmp _)). rewrite (Hv _ _ Hat'). apply bool_decide_ext.
    rewrite lookup_lt_is_Some. case_decide; split; try done; by intros [].
  - intros [k' v'] E. apply lookup_lt_Some in E as Hlt. rewrite decide_True in Hat' by done. by apply (He _ _ _ _ Hat').
Qed.
End block.

(** ** Searching a table *)

Section search.
Context `{ComparatorLaws} `{CodingLaws} `{!TableFormat}.
Implicit Types es : list entry.

Abbreviation entries_of := (mbind (M := list) tb_entries).
Abbreviation index_of es k := (seek_index internal_before es k).

Lemma seek_unique l1 l2 k : (forall e, e ∈ l1 -> internal_lt e.1 k) -> (forall e, e ∈ l2 -> ~ internal_lt e.1 k) ->
  index_of (l1 ++ l2) k = length l1.
Proof using.
  intros H1' H2'. unfold seek_index. rewrite list.filter_app, filter_keeps_all, filter_drops_all, app_nil_r; [done|..];
    intros e He; unfold internal_before; rewrite bool_decide_spec; auto.
Qed.

Lemma seek_split es k : sorted_entries es -> (forall e, e ∈ take (index_of es k) es -> internal_lt e.1 k) /\
  (forall e, e ∈ drop (index_of es k) es -> ~ internal_lt e.1 k).
Proof using H0.
  intros Hs. set (P := fun e : entry => internal_lt e.1 k).
  assert (es = filter P es ++ filter (fun e => ~ P e) es) as Hes by by apply filter_split, sorted_entries_before.
  assert (index_of es k = length (filter P es)) as ->.
  { unfold seek_index. f_equal. apply filter_ext. intros e _. unfold internal_before. by rewrite bool_decide_spec. }
  assert (take (length (filter P es)) es = filter P es) as -> by (rewrite Hes at 2; apply take_app_length).
  assert (drop (length (filter P es)) es = filter (fun e => ~ P e) es) as -> by (rewrite Hes at 2; apply drop_app_length).
  by split; intros e [? _]%list_elem_of_filter.
Qed.

(** The entries of a block are not after its index key. *)
Lemma block_before_key b rest e : good_key b rest -> sorted_entries (tb_entries b) -> e ∈ tb_entries b -> ~ internal_lt (tb_key b) e.1.
Proof using H0.
  intros [(e0 & He0 & Hk & _) _] Hs He Hlt. apply last_Some in He0 as [l El]. rewrite El in *.
  apply elem_of_app in He as [He| ->%list_elem_of_singleton]; [|done]. apply Hk. eapply internal_lt_trans; [exact Hlt|].
  eapply sorted_entries_app; [exact Hs|done|by left].
Qed.

Lemma index_sorted bs rest : separated bs rest -> sorted_entries (index_entry <$> bs).
Proof using H0.
  revert rest. induction bs as [|b bs IH]; intros rest; [constructor|]. intros [[_ Hg] Hs]. unfold sorted_entries. rewrite fmap_cons, fmap_cons.
  constructor; [by eapply IH|]. apply list.Forall_forall. intros k (e & -> & (b' & -> & Hb')%list_elem_of_fmap)%list_elem_of_fmap.
  apply list_elem_of_split in Hb' as (b1 & b2 & ->). apply separated_app in Hs as [_ [[(e & He & Hk & _) _] _]].
  eapply internal_lt_le_trans; [|exact Hk]. apply Hg. rewrite bind_app, bind_cons, !elem_of_app. left. right. left. by apply last_Some_elem_of.
Qed.

(** The block of the index entry that a search for [k] stops at. *)
Record searched (bs : list tblock) (k : list Z) (b : tblock) (pre post : list entry) : Prop := {
  se_entries : entries_of bs = pre ++ tb_entries b ++ post;
  se_pre : forall e, e ∈ pre -> internal_lt e.1 k;
  se_key : ~ internal_lt (tb_key b) k;
  se_good : good_key b post }.

Lemma index_search bs k : separated bs [] -> sorted_entries (entries_of bs) ->
  match bs !! index_of (index_entry <$> bs) k with
  | Some b => exists pre post, searched bs k b pre post
  | None => forall e, e ∈ entries_of bs -> internal_lt e.1 k
  end.
Proof using H0.
  intros Hsep Hs. set (j := index_of _ k). destruct (seek_split (index_entry <$> bs) k (index_sorted bs [] Hsep)) as [Hbefore Hafter].
  fold j in Hbefore, Hafter. assert (forall e, e ∈ entries_of (take j bs) -> internal_lt e.1 k) as Hpre.
  { intros e (b & He & Hb)%list_elem_of_bind. pose proof Hb as Hb'. apply list_elem_of_split in Hb as (b1 & b2 & E).
    rewrite <- (take_drop j bs), E, <- app_assoc in Hsep, Hs. apply separated_app in Hsep as [_ [Hg _]].
    rewrite bind_app in Hs. apply sorted_entries_suffix in Hs. cbn in Hs. apply sorted_entries_prefix in Hs.
    eapply internal_le_lt_trans; [by eapply block_before_key|]. apply (Hbefore (index_entry b)). rewrite <- fmap_take. apply list_elem_of_fmap. by exists b. }
  destruct (bs !! j) as [b|] eqn:Ej.
  - exists (entries_of (take j bs)), (entries_of (drop (S j) bs)). pose proof (take_drop_middle _ _ _ Ej) as E. split.
    + by rewrite <- E, bind_app, bind_cons at 1.
    + done.
    + apply (Hafter (index_entry b)). rewrite <- fmap_drop, (drop_S _ _ _ Ej). left.
    + rewrite <- E in Hsep. apply separated_app in Hsep as [_ [Hg _]]. by rewrite app_nil_r in Hg.
  - apply lookup_ge_None in Ej. by rewrite take_ge in Hpre.
Qed.

(** An entry past the block that has the user key of [k] has it in common with the block. *)
Lemma after_block bs k b pre post e : searched bs k b pre post -> e ∈ post -> ukey e.1 = ukey k ->
  exists e0, e0 ∈ tb_entries b /\ ukey e0.1 = ukey k /\ ~ internal_lt e0.1 k.
Proof using H0.
  intros [_ _ Hk [_ Hg]] He Hu. destruct (Hg e He) as [Hlt [(e0 & He0 & E)|Hl]].
  - exists e0. rewrite E in *. split; [done|]. split; [|done]. apply internal_lt_ukey in Hlt. rewrite Hu in Hlt.
    destruct (lt_key_total (ukey e0.1) (ukey k)) as [Hl|[|]]; [|done|done]. destruct Hk. by left.
  - exfalso. apply Hk. left. by rewrite <- Hu.
Qed.

Lemma searched_none bs k b pre post : searched bs k b pre post -> (forall e, e ∈ tb_entries b -> ukey e.1 = ukey k -> internal_lt e.1 k) ->
  forall e, e ∈ entries_of bs -> ukey e.1 = ukey k -> internal_lt e.1 k.
Proof using H0.
  intros Hse Hb e He Hu. pose proof Hse as [E Hpre _ _]. rewrite E, !elem_of_app in He. destruct He as [He|[He|He]]; [by apply Hpre|by apply Hb|].
  destruct (after_block _ _ _ _ _ _ Hse He Hu) as (e0 & He0 & Hu0 & Hn). destruct Hn. by apply Hb.
Qed.

(** The search in the block gives what the search in all entries gives, or there is nothing to find. *)
Lemma searched_found bs k b pre post found : searched bs k b pre post -> sorted_entries (tb_entries b) ->
  found = tb_entries b !! index_of (tb_entries b) k ->
  found = entries_of bs !! index_of (entries_of bs) k \/
  found = None /\ forall e, e ∈ entries_of bs -> ukey e.1 = ukey k -> internal_lt e.1 k.
Proof using H0.
  intros Hse Hs ->. pose proof Hse as [E Hpre Hk [_ Hg]]. set (i := index_of (tb_entries b) k). destruct (seek_split (tb_entries b) k Hs) as [Hbefore Hafter].
  fold i in Hbefore, Hafter. destruct (tb_entries b !! i) as [e|] eqn:Ei; [left|right].
  - rewrite E. assert (index_of (pre ++ tb_entries b ++ post) k = length (pre ++ take i (tb_entries b))) as ->.
    { rewrite <- (take_drop i (tb_entries b)) at 1. rewrite <- app_assoc, app_assoc. apply seek_unique.
      - intros e' [He'|He']%elem_of_app; auto.
      - intros e' [He'|He']%elem_of_app; [auto|]. destruct (Hg e' He') as [Hlt _]. apply internal_lt_asym. by eapply internal_le_lt_trans. }
    assert (i <= length (tb_entries b))%nat by (apply lookup_lt_Some in Ei; lia).
    rewrite length_app, length_take_le, lookup_app_r, lookup_app_l by (apply lookup_lt_Some in Ei; lia).
    by replace (length pre + i - length pre)%nat with i by lia.
  - split; [done|]. eapply searched_none; [done|]. intros e He _. apply Hbefore. apply lookup_ge_None in Ei. by rewrite take_ge.
Qed.
End search.

(** ** Opening a table *)

Section table.
Context `{ComparatorLaws} `{CodingLaws} `{!InternalKeyFormat} `{!InternalComparator} `{IL : !InternalComparatorLaws}.
Context `{!TableFormat} `{FL : !TableFormatLaws} `{!TableOptions} `{!ReaderOptions} `{BL : !@ComparatorLaws BytewiseCompare}.
Context {F Hd C : Type} `{!TableSource F, !TableSourceLaws F} `{!BlockCache Hd C, !BlockCacheLaws Hd C}.
Context {FB : Type} `{!FilterBlocks FB} `{FBL : !FilterBlocksLaws FB}.
Implicit Types (t : Table F) (c : C) (data : list Z) (bs : list tblock).

Abbreviation entries_of := (mbind (M := list) tb_entries).
Abbreviation index_of es k := (seek_index internal_before es k).
Abbreviation len l := (Z.of_nat (length l)).

(** The table was opened on the file with the blocks [bs]. *)
Record opened data bs (metaindex : BlockHandle) t : Prop := {
  op_file : readable (t_file t) data;
  op_meta : metaindex_handle t = metaindex;
  op_index : good_block (t_index_block t) (index_entry <$> bs);
  op_filter : match t_filter t with Some flt => exists f : FB, flt = fb_Finish f /\ Forall (filtered f) bs | None => True end }.

Lemma ReadBlock_good f data verify h es : holds data h es -> readable f data -> exists raw cachable b,
  ReadBlock verify h f = (Ok, (raw, cachable)) /\ Block_new raw = Some b /\ good_block b es.
Proof using H2.
  intros (l & rp & Hst & Hf & <-) Hr. destruct (ReadBlock_law f data verify h _ Hr Hst) as [cachable E].
  destruct (block_opens l rp Hf) as (b & _ & Hb & _). exists (block_bytes l rp), cachable, b. split_and!; [done..|]. by exists l, rp.
Qed.

Lemma ReadMeta_ok data bs m meta t : opened data bs m t -> t_filter t = None -> holds data m meta -> metadata (FB := FB) data bs meta ->
  exists t', ReadMeta m t = Some t' /\ opened data bs m t' /\ t_file t' = t_file t /\ cache_id t' = cache_id t.
Proof using FL BL H2.
  intros Hop Hnone Hm Hmd. unfold ReadMeta, metadata in *. destruct filter_policy as [name|]; [|by exists t].
  destruct Hmd as (h & f & -> & Hh & Hst & Hfil). pose proof (op_file _ _ _ _ Hop) as Hr.
  destruct (ReadBlock_good _ _ (verify_checksums open_options) _ _ Hm Hr) as (raw & ca & b & -> & Hb & Hgood).
  rewrite bool_decide_true, Hb by done. cbn [mbind option_bind]. set (key := filter_prefix ++ name) in *.
  assert (@sorted_keys BytewiseCompare [(key, handle_EncodeTo h)]) as Hs by (repeat constructor).
  destruct (good_seek BytewiseCompare b _ key ltac:(apply _) Hs Hgood) as (it & it' & -> & _ & Hseek & Hfound). cbn [mbind option_bind].
  rewrite Hseek. cbn [mbind option_bind].
  assert (seek_index (@user_before BytewiseCompare) [(key, handle_EncodeTo h)] key = 0%nat) as Hi.
  { unfold seek_index. rewrite filter_cons_False; [done|]. unfold user_before. rewrite bool_decide_spec. apply lt_key_irrefl. }
  rewrite Hi in Hfound. destruct Hfound as [_ Hv He]. rewrite Hv, bool_decide_true by by eexists.
  destruct (He _ eq_refl) as [-> ->]. cbn [mbind option_bind fst snd]. rewrite bool_decide_true by done.
  eexists. split; [done|]. unfold ReadFilter. rewrite (handle_reads_back h Hh), bool_decide_true by done.
  destruct (ReadBlock_law _ _ (verify_checksums open_options) _ _ Hr Hst) as [ca' ->]. rewrite bool_decide_true by done.
  split; [|done]. destruct Hop. split; try done. by exists f.
Qed.

(** A table file opens. *)
Lemma Table_Open_ok file data es c : table_file (FB := FB) data es -> readable file data ->
  exists bs m i t c', Table_Open file (len data) c = Some (Ok, Some t, c') /\ table_layout (FB := FB) data es bs m i /\ opened data bs m t /\
    (c' = if has_block_cache then (cache_NewId c).2 else c).
Proof using FL BL H2.
  intros (bs & m & i & Hl) Hr. exists bs, m, i. destruct (tl_handles _ _ _ _ _ Hl) as [Hm Hi]. destruct (tl_footer _ _ _ _ _ Hl) as [pre Hpre].
  pose proof (footer_length m i Hm Hi) as Hlen. unfold Table_Open. rewrite (proj2 (Z.ltb_ge _ _)) by (rewrite Hpre, length_app; lia).
  rewrite (file_Read_law file data) by (try done; rewrite ?Hpre, ?length_app; lia).
  assert (drop (Z.to_nat (len data - kEncodedLength)) data = footer_EncodeTo m i) as ->.
  { rewrite Hpre at 2. rewrite drop_app_length'; [done|]. rewrite Hpre, length_app. lia. }
  rewrite bool_decide_false by tauto. rewrite (footer_reads_back m i Hm Hi), bool_decide_false by tauto.
  destruct (ReadBlock_good _ _ (verify_checksums open_options) _ _ (tl_index _ _ _ _ _ Hl) Hr) as (raw & ca & b & -> & Hb & Hgood).
  rewrite bool_decide_true, Hb by done. cbn [mbind option_bind].
  destruct (tl_meta _ _ _ _ _ Hl) as (meta & Hmeta & Hmd).
  destruct has_block_cache; [destruct (cache_NewId c) as [id c'] eqn:Ec|].
  - destruct (ReadMeta_ok data bs m meta (mkTable file id None m b)) as (t & -> & Hop & _); [done..|]. cbn [mbind option_bind].
    by exists t, c'.
  - destruct (ReadMeta_ok data bs m meta (mkTable file 0 None m b)) as (t & -> & Hop & _); [done..|]. cbn [mbind option_bind].
    by exists t, c.
Qed.

(** ** The cache *)

(** What the cache has for the blocks of the table are these blocks. *)
Definition coherent t bs c : Prop := forall b blk, b ∈ bs -> cached c (cache_key t (tb_handle b)) blk -> good_block blk (tb_entries b).

(** Nothing else was added to the cache. *)
Definition own_entries t c c' : Prop := forall key blk, cached c' key blk -> cached c key blk \/
  exists off, key = EncodeFixed64 (cache_id t) ++ EncodeFixed64 off.

Lemma cache_key_inj t h h' : handle_ok h -> handle_ok h' -> cache_key t h = cache_key t h' -> h_offset h = h_offset h'.
Proof using H2.
  unfold cache_key. intros [Hh _] [Hh' _] E%app_inv_head. rewrite !EncodeFixed64_le in E.
  apply (f_equal le_val) in E. rewrite !le_val_bytes in E. unfold is_u in *. by rewrite !Z.mod_small in E.
Qed.

Lemma layout_inj data es bs m i b b' : table_layout (FB := FB) data es bs m i -> b ∈ bs -> b' ∈ bs ->
  h_offset (tb_handle b) = h_offset (tb_handle b') -> b = b'.
Proof using.
  intros [_ _ _ Hs _ _ _ _] [j Hj]%list_elem_of_lookup [j' Hj']%list_elem_of_lookup E.
  apply StronglySorted_app_1_l in Hs. unfold offsets in Hs.
  assert (forall a b x y, bs !! a = Some x -> bs !! b = Some y -> (a < b)%nat -> h_offset (tb_handle x) < h_offset (tb_handle y)) as Hlt.
  { intros a a' x y Hx Hy Ha. eapply (StronglySorted_lookup _ _ a a'); [exact Hs|by rewrite list_lookup_fmap, Hx|by rewrite list_lookup_fmap, Hy|done]. }
  destruct (Nat.lt_trichotomy j j') as [Hjj|[->|Hjj]]; [specialize (Hlt _ _ _ _ Hj Hj' Hjj); lia|congruence|specialize (Hlt _ _ _ _ Hj' Hj Hjj); lia].
Qed.

(** ** Reading a block *)

Lemma own_refl t c c' : (forall k b, cached c' k b -> cached c k b) -> own_entries t c c'.
Proof using. intros Hc key blk Hb. left. by apply Hc. Qed.

Lemma coherent_mono t bs c c' : coherent t bs c -> (forall k b, cached c' k b -> cached c k b) -> coherent t bs c'.
Proof using. intros Hc Hm b blk Hb Hk. by eapply Hc, Hm. Qed.

(** The block that is cached is the one at its place. *)
Lemma cache_block_ok data es bs m i options b blk cachable t c h c' : table_layout (FB := FB) data es bs m i -> b ∈ bs -> coherent t bs c ->
  good_block blk (tb_entries b) -> cache_block options (cache_key t (tb_handle b)) blk cachable c = (h, c') ->
  coherent t bs c' /\ own_entries t c c'.
Proof using H2.
  intros Hl Hb Hc Hgood. unfold cache_block. destruct (cachable && fill_cache options); [|intros [= <- <-]; by split; [|apply own_refl]].
  destruct (cache_Insert _ blk _ c) as [h1 c1] eqn:E. intros [= <- <-]. pose proof (cache_Insert_law _ _ _ _ _ _ E) as Hi. split.
  - intros b' blk' Hb' [Hk|[Hk ->]]%Hi; [by apply Hc|]. pose proof (tl_blocks _ _ _ _ _ Hl) as Hbs. rewrite list.Forall_forall in Hbs.
    apply cache_key_inj in Hk; [|by apply (db_handle _ _ (Hbs _ Hb'))|by apply (db_handle _ _ (Hbs _ Hb))].
    by rewrite (layout_inj _ _ _ _ _ _ _ Hl Hb' Hb Hk).
  - intros key blk' [Hk|[-> _]]%Hi; [by left|right; by eexists].
Qed.

(** The block of an index entry is found, whether it is cached or not. *)
Lemma get_block_ok data es bs m i options b t c : table_layout (FB := FB) data es bs m i -> opened data bs m t -> b ∈ bs -> coherent t bs c ->
  exists blk h c', get_block options (tb_handle b) t c = Some (Ok, Some blk, h, c') /\ good_block blk (tb_entries b) /\
    coherent t bs c' /\ own_entries t c c'.
Proof using H2.
  intros Hl Hop Hb Hc. pose proof (tl_blocks _ _ _ _ _ Hl) as Hbs. rewrite list.Forall_forall in Hbs.
  destruct (ReadBlock_good _ _ (verify_checksums options) _ _ (db_holds _ _ (Hbs b Hb)) (op_file _ _ _ _ Hop)) as (raw & ca & blk & E & Hblk & Hgood).
  unfold get_block. destruct has_block_cache.
  - destruct (cache_Lookup _ c) as [[h|] c1] eqn:El; apply cache_Lookup_law in El as [Hm Hh].
    + exists (cache_Value h c1), (Some h), c1. split; [done|]. split; [by eapply Hc, Hh|]. split; [by eapply coherent_mono|by apply own_refl].
    + rewrite E, bool_decide_true, Hblk by done. cbn [mbind option_bind].
      destruct (cache_block options _ blk ca c1) as [h c2] eqn:Ec. exists blk, h, c2. split; [done|]. split; [done|].
      destruct (cache_block_ok _ _ _ _ _ _ _ _ _ _ _ _ _ Hl Hb (coherent_mono _ _ _ _ Hc Hm) Hgood Ec) as [? Hown]. split; [done|].
      intros key blk' [Hk|?]%Hown; [left; by apply Hm|by right].
  - rewrite E, bool_decide_true, Hblk by done. cbn [mbind option_bind]. exists blk, None, c. split_and!; [done..|by apply own_refl].
Qed.

Lemma BlockReader_ok data es bs m i options b t c : table_layout (FB := FB) data es bs m i -> opened data bs m t -> b ∈ bs -> coherent t bs c ->
  exists blk it cl c', BlockReader options (handle_EncodeTo (tb_handle b)) t c = Some (it, cl, c') /\ NewIterator blk = Some it /\
    good_block blk (tb_entries b) /\ coherent t bs c' /\ own_entries t c c'.
Proof using FL H2.
  intros Hl Hop Hb Hc. destruct (get_block_ok _ _ _ _ _ options b t c Hl Hop Hb Hc) as (blk & h & c' & E & Hgood & ? & ?).
  pose proof (tl_blocks _ _ _ _ _ Hl) as Hbs. rewrite list.Forall_forall in Hbs.
  unfold BlockReader. rewrite (handle_reads_back _ (db_handle _ _ (Hbs b Hb))), bool_decide_true, E by done. cbn [mbind option_bind].
  pose proof Hgood as (l & rp & Hf & _ & Hblk). destruct (block_opens l rp Hf) as (blk' & it & Hblk' & Hit & _).
  rewrite Hblk in Hblk'. injection Hblk' as <-. rewrite Hit. cbn [mbind option_bind]. exists blk. eexists _, _, _. by split_and!.
Qed.

(** ** Lookups *)

Lemma internal_sorted es : sorted_entries es -> @sorted_keys ICompare es.
Proof using IL. apply StronglySorted_impl. intros a b. apply ICompare_lt. Qed.

(** A search with the internal comparator. *)
Lemma internal_seek blk es k : good_block blk es -> sorted_entries es -> exists it it', NewIterator blk = Some it /\ result_status it = Ok /\
  result_Seek (H := ICompare) k it = Some it' /\ found_at es (index_of es k) it'.
Proof using H0 H2 IL.
  intros Hg Hs. destruct (good_seek ICompare blk es k (internal_order) (internal_sorted es Hs) Hg) as (it & it' & A1 & A2 & A3 & A4).
  exists it, it'. split_and!; try done. by rewrite <- (seek_index_ext (@user_before ICompare)) by apply internal_before_eq.
Qed.

(** A filter only tells that a block has no entry of the user key. *)
Lemma filtered_out_ok data bs m t b k : opened data bs m t -> b ∈ bs -> handle_ok (tb_handle b) ->
  filtered_out (handle_EncodeTo (tb_handle b)) k t = true -> forall e, e ∈ tb_entries b -> ukey e.1 <> ukey k.
Proof using FL FBL.
  intros [_ _ _ Hfil] Hb Hh. unfold filtered_out. destruct (t_filter t) as [flt|]; [|done]. destruct Hfil as (f & -> & Hfil).
  rewrite (handle_reads_back _ Hh), bool_decide_true by done. cbn [andb]. intros Hn e He Hu.
  rewrite list.Forall_forall in Hfil. specialize (Hfil b Hb e He). by rewrite (KeyMayMatch_law _ _ _ _ Hfil Hu) in Hn.
Qed.

(** A lookup in a table that holds the entries [es]. *)
Lemma InternalGet_ok data es bs m i options k t c : table_layout (FB := FB) data es bs m i -> sorted_entries es -> opened data bs m t ->
  coherent t bs c -> exists found c', InternalGet (H := ICompare) options k t c = Some (found, Ok, c') /\ coherent t bs c' /\ own_entries t c c' /\
    (found = es !! index_of es k \/ found = None /\ forall e, e ∈ es -> ukey e.1 = ukey k -> internal_lt e.1 k).
Proof using All.
  intros Hl Hs Hop Hc. pose proof (tl_separated _ _ _ _ _ Hl) as Hsep. pose proof (tl_entries _ _ _ _ _ Hl) as Hes. rewrite Hes in Hs.
  destruct (internal_seek _ _ k (op_index _ _ _ _ Hop) (index_sorted _ _ Hsep)) as (it & it' & Hit & _ & Hseek & [Hst Hval Hent]).
  unfold InternalGet. rewrite Hit. cbn [mbind option_bind]. rewrite Hseek. cbn [mbind option_bind]. rewrite Hval, Hst.
  pose proof (index_search bs k Hsep Hs) as Hse. rewrite list_lookup_fmap in *.
  destruct (bs !! _) as [b|] eqn:Ej; cbn [fmap option_fmap option_map] in *.
  2:{ rewrite bool_decide_false by by intros []. cbn [mbind option_bind]. exists None, c. split; [done|]. split; [done|]. split; [by apply own_refl|].
      right. split; [done|]. rewrite Hes. auto. }
  rewrite bool_decide_true by by eexists. destruct (Hent _ eq_refl) as [_ ->]. cbn [mbind option_bind index_entry snd].
  destruct Hse as (pre & post & Hse). assert (b ∈ bs) as Hb by by eapply list_elem_of_lookup_2.
  pose proof (tl_blocks _ _ _ _ _ Hl) as Hbs. rewrite list.Forall_forall in Hbs.
  assert (sorted_entries (tb_entries b)) as Hsb.
  { rewrite (se_entries _ _ _ _ _ Hse) in Hs. apply sorted_entries_suffix in Hs. by apply sorted_entries_prefix in Hs. }
  destruct (filtered_out _ k t) eqn:Ef.
  - cbn [mbind option_bind]. exists None, c. split; [done|]. split; [done|]. split; [by apply own_refl|]. right. split; [done|]. rewrite Hes.
    eapply searched_none; [done|]. intros e He Hu. by destruct (filtered_out_ok _ _ _ _ _ _ Hop Hb (db_handle _ _ (Hbs b Hb)) Ef e He).
  - destruct (BlockReader_ok _ _ _ _ _ options b t c Hl Hop Hb Hc) as (blk & bit & cl & c' & -> & Hbit & Hgood & Hc' & Hown).
    cbn [mbind option_bind]. destruct (internal_seek _ _ k Hgood Hsb) as (bit0 & bit' & Hbit0 & _ & Hbseek & [Hbst Hbval Hbent]).
    rewrite Hbit in Hbit0. injection Hbit0 as <-. rewrite Hbseek. cbn [mbind option_bind]. rewrite Hbval, Hbst.
    assert (forall k b, cached (run_cleanup cl c') k b -> cached c' k b) as Hclean by (destruct cl; try done; apply cache_Release_law).
    exists (tb_entries b !! index_of (tb_entries b) k), (run_cleanup cl c'). split; [|split; [by eapply coherent_mono|split]].
    + destruct (tb_entries b !! _) as [e|]; [|by rewrite bool_decide_false by by intros []].
      rewrite bool_decide_true by by eexists. destruct (Hbent _ eq_refl) as [-> ->]. by destruct e.
    + intros key blk' [Hk|?]%Hclean%Hown; [by left|by right].
    + rewrite Hes. by eapply searched_found.
Qed.
End table.
