(* ===== verification/TableReference.v ===== *)
(** * An environment for tables

    A block builder without shared prefixes, a filter of one byte per key, the encodings of
    the handles and the footer, a compression of runs of zeros, separators of user keys, and files
    and caches in memory satisfy the laws of [TableProps.v] and [TableLookup.v]. *)

From Stdlib Require Import String Sorting.Sorted.
From stdpp Require Import base list sorting.
From S2P Require Import Prelude Crc32c Cursor Coding DbFormat DbIterView VersionFiles BlockIter BlockProps.
From S2P Require Import TableBuilder TableReader TableProps TableLookup.

#[local] Open Scope Z_scope.

Section reference.
#[local] Existing Instances by_bytes by_bytes_laws reference_coding reference_coding_laws reference_format.

(** ** Blocks *)

(** The entries, and whether the block is finished. *)
Definition block_builder : Type := list entry * bool.

#[local] Definition in_order (k : list Z) (es : list entry) : bool :=
  match list.last es with Some e => bool_decide (internal_lt e.1 k) | None => true end.

#[local] Definition plain_block (es : list entry) : list Z := block_bytes (pair 0%nat <$> es) (seq 0 (Nat.max 1 (length es))).

Definition reference_blocks : BlockBuilders block_builder := {|
  bb_new _ := ([], false);
  bb_Add k v '(es, finished) := if negb finished && in_order k es then Some (es ++ [(k, v)], false) else None;
  bb_Finish '(es, _) := (plain_block es, (es, true));
  bb_Reset _ := ([], false);
  bb_CurrentSizeEstimate '(es, _) := Z.of_nat (length (plain_block es));
  bb_empty '(es, _) := bool_decide (es = []) |}.

Lemma length_varint fuel v : (length (varint fuel v) <= fuel)%nat.
Proof. revert v. induction fuel as [|fuel IH]; intros v; [done|]. cbn. case_match; cbn; [lia|]. specialize (IH (v `div` 128)). lia. Qed.

Lemma length_body_le es : Z.of_nat (length (body (pair 0%nat <$> es))) <= room 15 es.
Proof.
  induction es as [|[k v] es IH]; [done|]. rewrite fmap_cons, room_cons. unfold body. rewrite bind_cons, length_app. fold (body (pair 0%nat <$> es)).
  unfold entry_bytes, entry_room. cbn [fst snd]. rewrite !length_app, drop_0. cbn [PutVarint32 reference_coding]. rewrite !app_nil_l.
  pose proof (length_varint 5 (Z.of_nat 0)). pose proof (length_varint 5 (Z.of_nat (length k - 0))). pose proof (length_varint 5 (Z.of_nat (length v))). lia.
Qed.

Lemma room_step n d es : room (n + d) es = room n es + d * Z.of_nat (length es).
Proof. induction es as [|e es IH]; [cbn; lia|]. rewrite !room_cons, IH. unfold entry_room. cbn [length]. lia. Qed.

Lemma length_plain_block es : Z.of_nat (length (plain_block es)) <= block_room es.
Proof.
  unfold plain_block, block_room. rewrite length_data, length_seq. pose proof (length_body_le es). pose proof (room_step 15 4 es) as Hr. change (15 + 4) with 19 in Hr. pose proof (room_nonneg 15 es). lia.
Qed.

Lemma seq_sorted i n : StronglySorted lt (seq i n).
Proof.
  revert i. induction n as [|n IH]; intros i; constructor; [apply IH|]. apply List.Forall_forall. intros j Hj%in_seq. lia.
Qed.

Lemma plain_format es : block_room es < 2 ^ 32 -> block_format (pair 0%nat <$> es) (seq 0 (Nat.max 1 (length es))).
Proof.
  intros Hroom. split.
  - intros i s k v E. rewrite list_lookup_fmap in E. apply fmap_Some in E as (e & _ & [= -> _]). by split; [lia|].
  - apply list.Forall_forall. intros x (e & -> & He)%list_elem_of_fmap. cbn. pose proof (room_elem 19 es e ltac:(lia) He).
    unfold block_room, entry_room in *. lia.
  - split; [by destruct es|]. split; [apply seq_sorted|].
    intros i [_ Hi]%elem_of_seq. rewrite list_lookup_fmap. destruct (es !! i) as [e|] eqn:E; [done|]. cbn.
    apply lookup_ge_None in E. destruct es; cbn in *; [split; [done|lia]|lia].
  - pose proof (length_plain_block es). unfold plain_block in *. lia.
Qed.

#[local] Existing Instances reference_blocks.

Definition reference_blocks_laws : BlockBuildersLaws block_builder.
Proof.
  refine {| bb_entries := fst; bb_open b := negb b.2 |}; cbn.
  - done.
  - intros k v [es []] Ho Hk; [done|]. cbn in *. assert (in_order k es = true) as ->; [|by eexists].
    unfold in_order. destruct (list.last es) as [e|]; [|done]. by apply bool_decide_eq_true, Hk.
  - intros [es b] Hroom. cbn in *. eexists _, _. split; [done|]. split; [by apply plain_format|].
    rewrite <- list_fmap_compose. by rewrite list_fmap_id.
  - intros [es b]. apply length_plain_block.
  - done.
  - by intros [es b].
Defined.

(** ** Filters *)

(** The keys with their blocks, and the current block. *)
Definition key_filter : Type := list (Z * list Z) * Z.

#[local] Definition hash (o : Z) (k : list Z) : Z := (o + foldr Z.add 0 (ukey k)) `mod` 256.

Definition reference_filter : FilterBlocks key_filter := {|
  fb_new := ([], 0);
  fb_StartBlock o '(l, _) := (l, o);
  fb_AddKey k '(l, o) := (l ++ [(o, k)], o);
  fb_Finish '(l, _) := (fun x : Z * list Z => hash x.1 x.2) <$> l;
  KeyMayMatch f o k := bool_decide (hash o k ∈ f) |}.

#[local] Existing Instances reference_filter.

Definition reference_filter_laws : FilterBlocksLaws key_filter.
Proof.
  refine {| fb_added := fst; fb_block := snd |}; cbn.
  - done.
  - by intros o [l o'].
  - by intros k [l o].
  - intros [l o'] o k a Ha Hu. apply bool_decide_eq_true. cbn. apply list_elem_of_fmap. exists (o, a). split; [|done].
    unfold hash. cbn [fst snd]. by rewrite Hu.
Defined.

(** ** Encodings *)

(** A run of zeros is a zero and its length. *)
#[local] Fixpoint rle (l : list Z) : list Z :=
  match l with
  | [] => []
  | x :: l => if x =? 0 then match rle l with 0 :: n :: r => 0 :: n + 1 :: r | r => 0 :: 1 :: r end else x :: rle l
  end.

#[local] Fixpoint unrle (l : list Z) : list Z :=
  match l with
  | 0 :: n :: l => replicate (Z.to_nat n) 0 ++ unrle l
  | x :: l => x :: unrle l
  | [] => []
  end.

Lemma rle_run l n r : rle l = 0 :: n :: r -> 1 <= n.
Proof.
  revert n r. induction l as [|x l IH]; intros n r; [done|]. cbn. destruct (Z.eqb_spec x 0) as [|Hx]; [|by intros [= ? _]].
  destruct (rle l) as [|[|y|y] [|m r']]; intros [= <- <-] || intros [=]; subst; try lia. specialize (IH m r' eq_refl). lia.
Qed.

Lemma unrle_rle l : unrle (rle l) = l.
Proof.
  induction l as [|x l IH]; [done|]. cbn. destruct (Z.eqb_spec x 0) as [->|Hx].
  - destruct (rle l) as [|[|y|y] [|m r']] eqn:E; try (cbn in *; by rewrite <- IH). pose proof (rle_run l m r' E).
    cbn in *. rewrite <- IH. by replace (Z.to_nat (m + 1)) with (S (Z.to_nat m)) by lia.
  - destruct x; [done|..]; cbn; by rewrite IH.
Qed.

#[local] Definition put_handle (h : BlockHandle) : list Z := le_bytes 8 (h_offset h) ++ le_bytes 8 (h_size h).
#[local] Definition get_handle (bs : list Z) : BlockHandle := mkHandle (le_val (take 8 bs)) (le_val (take 8 (drop 8 bs))).
#[local] Definition magic : list Z := [0x57; 0xfb; 0x80; 0x8b; 0x24; 0x75; 0x47; 0xdb].

Definition reference_table_format : TableFormat := {|
  handle_EncodeTo := put_handle;
  handle_DecodeFrom bs := if decide (16 <= length bs)%nat then (Ok, get_handle bs) else (Corruption "bad block handle", mkHandle 0 0);
  footer_EncodeTo m i := put_handle m ++ put_handle i ++ magic;
  footer_DecodeFrom bs := if bool_decide (drop 32 bs = magic) then (Ok, (get_handle bs, get_handle (drop 16 bs)))
                          else (Corruption "not an sstable (bad magic number)", (mkHandle 0 0, mkHandle 0 0));
  kEncodedLength := 40;
  compression_code t := match t with kNoCompression => 0 | kSnappyCompression => 1 end;
  crc_Mask x := wrap 32 (x + 0xa282ead8);
  EncodeFixed32 := le_bytes 4;
  Snappy_Compress l := Some (rle l) |}.

Lemma get_put_handle h rest : handle_ok h -> get_handle (put_handle h ++ rest) = h.
Proof.
  intros [H1 H2]. unfold get_handle, put_handle. rewrite <- app_assoc, drop_app_length', !take_app_length' by (by rewrite length_le_bytes).
  rewrite !le_val_bytes. change (256 ^ Z.of_nat 8) with (2 ^ 64). unfold is_u in *. rewrite !Z.mod_small by done. by destruct h.
Qed.

Lemma length_put_handle h : length (put_handle h) = 16%nat.
Proof. unfold put_handle. by rewrite length_app, !length_le_bytes. Qed.

#[local] Existing Instances reference_table_format.

Definition reference_table_format_laws : TableFormatLaws.
Proof.
  assert (forall h rest, drop 16 (put_handle h ++ rest) = rest) as Hdrop by (intros; by rewrite drop_app_length' by (by rewrite length_put_handle)).
  split; cbn [handle_EncodeTo handle_DecodeFrom footer_EncodeTo footer_DecodeFrom kEncodedLength EncodeFixed32 reference_table_format].
  - intros h Hh. rewrite decide_True by (by rewrite length_put_handle). by rewrite <- (app_nil_r (put_handle h)), get_put_handle.
  - intros h _. rewrite length_put_handle. lia.
  - intros m i Hm Hi. rewrite bool_decide_true; [by rewrite Hdrop, !get_put_handle|]. change 32%nat with (16 + 16)%nat.
    by rewrite <- drop_drop, !Hdrop.
  - intros m i _ _. by rewrite !length_app, !length_put_handle.
  - done.
Defined.

(** ** Separators, options, files and the cache *)

(** A user key of one byte between the two, when their first bytes leave room. *)
Definition reference_shortening : KeyShortening := {|
  FindShortestSeparator a b :=
    match ukey a, ukey b with
    | x :: _ :: _, y :: _ => if x + 1 <? y then AppendInternalKey [] (ParsedKey [x + 1] kMaxSequenceNumber kValueTypeForSeek) else a
    | _, _ => a
    end;
  FindShortSuccessor a := a |}.

#[local] Existing Instances reference_shortening reference_format_laws.

Lemma one_byte_key x : ukey (AppendInternalKey [] (ParsedKey [x] kMaxSequenceNumber kValueTypeForSeek)) = [x] /\
  length (AppendInternalKey [] (ParsedKey [x] kMaxSequenceNumber kValueTypeForSeek)) = 9%nat.
Proof. done. Qed.

Lemma by_bytes_before x y l l' : x < y -> lt_key (x :: l) (y :: l').
Proof. intros Hxy. unfold lt_key, Compare, by_bytes. rewrite (proj2 (Z.eqb_neq x y)) by lia. lia. Qed.

Definition reference_shortening_laws : KeyShorteningLaws.
Proof.
  split; cbn [FindShortestSeparator FindShortSuccessor reference_shortening]; [|intros a _; by split; [apply internal_lt_irrefl|]].
  intros a b _ _ Hab. destruct (ukey a) as [|x [|x' ka]] eqn:Ea; [by split; [left|]..|].
  destruct (ukey b) as [|y kb] eqn:Eb; [by split; [left|]|]. destruct (Z.ltb_spec (x + 1) y) as [Hxy|]; [|by split; [left|]].
  destruct (one_byte_key (x + 1)) as [-> ->]. split; [right; split; apply by_bytes_before; lia|].
  unfold ukey in Ea. apply (f_equal length) in Ea. rewrite length_take in Ea. cbn in Ea. lia.
Defined.

(** Blocks of 50 bytes; the policy is named "f". *)
Definition reference_options : TableOptions := {|
  block_size := 50; block_restart_interval := 16; compression := kSnappyCompression; filter_policy := Some [102] |}.

Definition reference_table_file : TableFile (list Z) := {| file_Append bs w := (Ok, w ++ bs); file_Flush w := (Ok, w) |}.

Definition reference_table_file_laws : @TableFileLaws (list Z) reference_table_file.
Proof.
  refine {| file_contents := Datatypes.id |}; [by intros bs w w' [= <-]|by intros w w' [= <-]].
Defined.

Definition reference_reader : ReaderOptions := {| paranoid_checks := true; has_block_cache := true; BytewiseCompare := by_bytes |}.

Definition reference_source : TableSource (list Z) := {|
  file_Read off n f := (Ok, take (Z.to_nat n) (drop (Z.to_nat off) f));
  ReadBlock _ h f :=
    let rest := drop (Z.to_nat (h_offset h)) f in let c := take (Z.to_nat (h_size h)) rest in
    (Ok, (match drop (Z.to_nat (h_size h)) rest with 1 :: _ => unrle c | _ => c end, true)) |}.

#[local] Existing Instances reference_options reference_table_file reference_reader reference_source.

Definition reference_source_laws : TableSourceLaws (list Z).
Proof.
  refine {| readable f data := f = data |}; cbn [file_Read ReadBlock reference_source].
  - intros f data off n -> Ho Hn E. f_equal. apply take_ge. rewrite length_drop. lia.
  - intros f data _ h raw -> (pre & post & c & type & -> & -> & Hr). cbn [h_offset h_size]. exists true. rewrite !Nat2Z.id.
    rewrite drop_app_length, take_app_length, drop_app_length. unfold trailer. destruct type; cbn in *; [by subst|].
    injection Hr as <-. by rewrite unrle_rle.
Defined.

(** The cache is a list of keys and blocks; a handle is a block. *)
Definition reference_cache : BlockCache Block (list (list Z * Block)) := {|
  cache_NewId c := (7, c);
  cache_Lookup key c := (snd <$> head (filter (fun x => x.1 = key) c), c);
  cache_Value h _ := h;
  cache_Insert key b _ c := (b, (key, b) :: c);
  cache_Release _ c := c |}.

#[local] Existing Instances reference_cache.

Definition reference_cache_laws : BlockCacheLaws Block (list (list Z * Block)).
Proof.
  refine {| cached c key b := (key, b) ∈ c |}; cbn [cache_Lookup cache_Value cache_Insert cache_Release reference_cache].
  - intros key c h c' [= <- <-]. split; [done|]. intros b Hb. apply fmap_Some in Hb as ([k b'] & Hh & ->).
    apply head_Some_elem_of, list_elem_of_filter in Hh as [<- Hh]. done.
  - intros key b n c h c' [= <- <-] k b' [[= <- <-]|]%elem_of_cons; [by right|by left].
  - done.
Defined.
End reference.
