(* ===== verification/TableSpec.v ===== *)
(** * Tables read back what they were built from ([leveldb-library/table/table_builder.cc], [table.cc])

    The composition of [TableProps.v] and [TableLookup.v], which is what the lookups of
    [VersionGetProps.v] ask of a table; the offsets that sizes are computed from; and a table of six
    entries in the environment of [TableReference.v]. *)

From Stdlib Require Import String Sorting.Sorted.
From stdpp Require Import base list sorting.
From S2P Require Import Prelude Crc32c Cursor Coding DbFormat DbIterView VersionFiles BlockIter BlockProps.
From S2P Require Import TableBuilder TableReader TableProps TableLookup TableReference.

#[local] Open Scope Z_scope.

Section spec.
Context `{ComparatorLaws} `{CodingLaws} `{!InternalKeyFormat} `{!InternalComparator} `{IL : !InternalComparatorLaws}.
Context `{!TableFormat} `{FL : !TableFormatLaws} `{!TableOptions} `{!KeyShortening} `{KL : !KeyShorteningLaws}.
Context `{!ReaderOptions} `{BL : !@ComparatorLaws BytewiseCompare}.
Context {BB : Type} `{!BlockBuilders BB, !BlockBuildersLaws BB} {FB : Type} `{!FilterBlocks FB} `{FBL : !FilterBlocksLaws FB}.
Context {W : Type} `{!TableFile W, !TableFileLaws W} {F Hd C : Type} `{!TableSource F, !TableSourceLaws F} `{!BlockCache Hd C, !BlockCacheLaws Hd C}.
Implicit Types (es : list entry) (c : C) (t : Table F).

Abbreviation index_of es k := (seek_index internal_before es k).
Abbreviation len l := (Z.of_nat (length l)).

(** No other client of the cache has the id of the table. *)
Definition fresh_id t c : Prop := forall off blk, ~ cached c (EncodeFixed64 (cache_id t) ++ EncodeFixed64 off) blk.

Lemma fresh_coherent t bs c : fresh_id t c -> coherent t bs c.
Proof using. intros Hf b blk _ Hk. by apply Hf in Hk. Qed.

(** C12 (roundtrip): building a table from sorted entries fails no assertion and closes the builder, whatever
    errors the file has. When the status is OK, [FileSize] is the size of the file, and the table that is
    opened on it answers every lookup with OK and with the first entry that is not before the key, or with
    nothing when the table has no entry of that user key there; this goes through the index, the filter,
    compression and the block cache. The cache keeps what belongs to it: a table that is new to the cache
    only ever finds its own blocks, and adds nothing under the ids of others. *)
Theorem table_roundtrip (es : list entry) (file : W) : file_contents file = [] -> sorted_entries es ->
  Forall (fun e : entry => valid_key e.1) es -> small es -> 1 <= block_restart_interval -> short_name ->
  exists r, build_table (BB := BB) (FB := FB) (H := ICompare) es file = Some r /\ r_closed r = true /\
    (r_status r = Ok -> is_u 64 (len (file_contents (r_file r))) -> FileSize r = len (file_contents (r_file r)) /\
      forall f c, readable f (file_contents (r_file r)) -> exists bs t,
        Table_Open f (FileSize r) c = Some (Ok, Some t, if has_block_cache then (cache_NewId c).2 else c) /\
        (forall c, fresh_id t c -> coherent t bs c) /\
        forall options k c, coherent t bs c -> exists found c',
          InternalGet (H := ICompare) (FB := FB) options k t c = Some (found, Ok, c') /\ coherent t bs c' /\ own_entries t c c' /\
          (found = es !! index_of es k \/ found = None /\ forall e, e ∈ es -> ukey e.1 = ukey k -> internal_lt e.1 k)).
Proof using All.
  intros Hf Hs Hv Hsmall Hi Hshort. destruct (build_table_ok (BB := BB) (FB := FB) es file Hf Hs Hv Hsmall Hi Hshort) as (r & E & Hc & Hr).
  exists r. split; [done|]. split; [done|]. intros Hok Hu. destruct (Hr Hok Hu) as [Htable Hsize]. split; [done|].
  intros f c Hread. destruct (Table_Open_ok f _ es c Htable Hread) as (bs & m & i & t & c' & Eopen & Hlayout & Hopened & Ec).
  exists bs, t. split; [by rewrite Hsize, Eopen, Ec|]. split; [intros c0; apply fresh_coherent|].
  intros options k c0 Hc0. by apply (InternalGet_ok _ _ _ _ _ options k t c0 Hlayout Hs Hopened).
Qed.

(** ** Offsets *)

(** The offset of the first block whose index key is not before the key, or that of the metadata. *)
Definition offset_of (bs : list tblock) (m : BlockHandle) (k : list Z) : option Z :=
  (offsets bs ++ [h_offset m]) !! index_of (index_entry <$> bs) k.

Lemma ApproximateOffsetOf_eq data es bs m i t k : table_layout (FB := FB) data es bs m i -> opened (FB := FB) data bs m t ->
  ApproximateOffsetOf (H := ICompare) k t = offset_of bs m k.
Proof using H0 H2 IL FL.
  intros Hl Hop. destruct (internal_seek _ _ k (op_index _ _ _ _ Hop) (index_sorted _ _ (tl_separated _ _ _ _ _ Hl))) as (it & it' & Hit & _ & Hseek & [_ Hv He]).
  unfold ApproximateOffsetOf. rewrite Hit. cbn [mbind option_bind]. rewrite Hseek. cbn [mbind option_bind]. rewrite Hv.
  unfold offset_of, offsets. set (j := index_of _ k) in *. rewrite list_lookup_fmap in *.
  pose proof (tl_blocks _ _ _ _ _ Hl) as Hbs. rewrite list.Forall_forall in Hbs.
  destruct (bs !! j) as [b|] eqn:Ej; cbn [fmap option_fmap option_map] in *.
  - rewrite bool_decide_true by by eexists. destruct (He _ eq_refl) as [_ ->]. cbn [mbind option_bind index_entry snd].
    rewrite (handle_reads_back _ (db_handle _ _ (Hbs b ltac:(by eapply list_elem_of_lookup_2)))), bool_decide_true by done.
    by rewrite lookup_app_l, list_lookup_fmap, Ej by (rewrite length_fmap; by eapply lookup_lt_Some).
  - rewrite bool_decide_false by by intros []. rewrite (op_meta _ _ _ _ Hop). apply lookup_ge_None in Ej.
    assert (j <= length bs)%nat as Hle.
    { unfold j, seek_index. etransitivity; [apply length_filter|]. by rewrite length_fmap. }
    rewrite lookup_app_r by (rewrite length_fmap; lia). rewrite length_fmap. by replace (j - length bs)%nat with 0%nat by lia.
Qed.

Lemma sorted_le (l : list Z) i j o o' : StronglySorted Z.lt l -> l !! i = Some o -> l !! j = Some o' -> (i <= j)%nat -> o <= o'.
Proof using.
  intros Hs Hi Hj Hij. destruct (decide (i = j)) as [->|]; [rewrite Hi in Hj; injection Hj as ->; lia|].
  assert (o < o') by (eapply StronglySorted_lookup; [exact Hs|done..|lia]). lia.
Qed.

(** The key of an entry is searched in the block of the entry. *)
Lemma index_of_block b1 b b2 e : separated (b1 ++ b :: b2) [] -> sorted_entries ((b1 ++ b :: b2) ≫= tb_entries) -> e ∈ tb_entries b ->
  index_of (index_entry <$> b1 ++ b :: b2) e.1 = length b1.
Proof using H0.
  intros Hsep Hs He. pose proof (index_sorted _ _ Hsep) as Hsorted. rewrite fmap_app, fmap_cons in *.
  apply separated_app in Hsep as [Hsep1 [Hg Hsep2]].
  rewrite seek_unique; [by rewrite length_fmap|..].
  - intros e' (b' & -> & Hb')%list_elem_of_fmap. apply list_elem_of_split in Hb' as (b3 & b4 & ->). apply separated_app in Hsep1 as [_ [[_ Hk] _]].
    apply Hk. rewrite bind_cons, !elem_of_app. right. left. by left.
  - assert (~ internal_lt (tb_key b) e.1) as Hk.
    { eapply block_before_key; [exact Hg| |done]. rewrite bind_app in Hs. apply sorted_entries_suffix in Hs. cbn in Hs. by apply sorted_entries_prefix in Hs. }
    intros e' [->|He']%elem_of_cons; [done|]. intros Hlt. apply Hk. eapply internal_lt_trans; [|exact Hlt].
    apply sorted_entries_suffix in Hsorted. apply (sorted_entries_app [index_entry b] _ (index_entry b) e' Hsorted); [left|done].
Qed.

Lemma index_of_mono es k k' : ~ internal_lt k' k -> (index_of es k <= index_of es k')%nat.
Proof using H0.
  intros Hk. unfold seek_index. induction es as [|e es IH]; [done|]. rewrite !filter_cons. unfold internal_before in *.
  destruct (decide (bool_decide (internal_lt e.1 k))) as [Hb|Hb], (decide (bool_decide (internal_lt e.1 k'))) as [Hb'|Hb']; cbn; try lia.
  rewrite bool_decide_spec in Hb, Hb'. destruct Hb'. by eapply internal_lt_le_trans.
Qed.

(** The approximate offset of a key in a table is defined; it is that of the data block with the key
    for a key of the table, and a later key never has a smaller offset, up to the metadata past the last block. *)
Theorem offsets_in_order data es (bs : list tblock) m i t : table_layout (FB := FB) data es bs m i -> sorted_entries es ->
  opened (FB := FB) data bs m t ->
  (forall b e, b ∈ bs -> e ∈ tb_entries b -> ApproximateOffsetOf (H := ICompare) e.1 t = Some (h_offset (tb_handle b))) /\
  forall k k', ~ internal_lt k' k -> exists o o', ApproximateOffsetOf (H := ICompare) k t = Some o /\
    ApproximateOffsetOf (H := ICompare) k' t = Some o' /\ o <= o' <= h_offset m.
Proof using H0 H2 IL FL.
  intros Hl Hs Hop. split.
  - intros b e Hb He. rewrite (ApproximateOffsetOf_eq _ _ _ _ _ _ _ Hl Hop). apply list_elem_of_split in Hb as (b1 & b2 & ->). unfold offset_of.
    rewrite (index_of_block b1 b b2); [|apply Hl|by rewrite <- (tl_entries _ _ _ _ _ Hl)|done].
    unfold offsets. rewrite fmap_app, fmap_cons, <- app_assoc, lookup_app_r by by rewrite length_fmap. by rewrite length_fmap, Nat.sub_diag.
  - intros k k' Hk. rewrite !(ApproximateOffsetOf_eq _ _ _ _ _ _ _ Hl Hop). unfold offset_of. pose proof (tl_offsets _ _ _ _ _ Hl) as Hoff.
    pose proof (index_of_mono (index_entry <$> bs) k k' Hk) as Hle.
    assert (index_of (index_entry <$> bs) k' <= length bs)%nat as Hle'.
    { unfold seek_index. etransitivity; [apply length_filter|]. by rewrite length_fmap. }
    destruct (lookup_lt_is_Some_2 (offsets bs ++ [h_offset m]) (index_of (index_entry <$> bs) k)) as [o Ho];
      [rewrite length_app; unfold offsets; rewrite length_fmap; cbn; lia|].
    destruct (lookup_lt_is_Some_2 (offsets bs ++ [h_offset m]) (index_of (index_entry <$> bs) k')) as [o' Ho'];
      [rewrite length_app; unfold offsets; rewrite length_fmap; cbn; lia|].
    exists o, o'. split; [done|]. split; [done|]. split; [by eapply sorted_le; [exact Hoff|exact Ho|exact Ho'|]|].
    eapply (sorted_le _ _ (length bs)); [exact Hoff|exact Ho'| |done].
    rewrite lookup_app_r; unfold offsets; rewrite length_fmap; [by rewrite Nat.sub_diag|done].
Qed.
End spec.

(** ** A table of two blocks *)

Section demo.
#[local] Existing Instances by_bytes by_bytes_laws reference_coding reference_coding_laws reference_format reference_icmp
  reference_table_format reference_options reference_shortening reference_reader reference_blocks reference_filter
  reference_table_file reference_source reference_cache reference_blocks_laws reference_filter_laws reference_table_format_laws
  reference_shortening_laws reference_table_file_laws reference_source_laws reference_cache_laws.

#[local] Definition at_key (u : list Z) (seq : Z) (type : ValueType) (v : list Z) : entry := (AppendInternalKey [] (ParsedKey u seq type), v).

Definition table_entries : list entry := [
  at_key [1; 5] 7 kTypeValue [10; 10]; at_key [1; 5] 2 kTypeDeletion []; at_key [1; 6] 3 kTypeValue [11];
  at_key [4; 4] 5 kTypeValue [20]; at_key [4; 4] 1 kTypeValue [21]; at_key [9] 4 kTypeValue [30] ].

Definition written_table : option (Rep block_builder key_filter (list Z)) := build_table (H := ICompare) table_entries [].

Definition table_bytes : list Z := match written_table with Some r => r_file r | None => [] end.

Definition opened_table : option (Table (list Z)) :=
  '(_, t, _) ← Table_Open table_bytes (Z.of_nat (length table_bytes)) []; t.

(** A lookup after others, and the number of blocks in the cache. *)
Definition get_after (keys : list (list Z)) (k : list Z) : option (option entry * Status * nat) :=
  t ← opened_table;
  c ← foldl (fun c k => c ← c; '(_, _, c) ← InternalGet (H := ICompare) (mkReadOptions true true) k t c; Some c) (Some []) keys;
  '(found, s, c) ← InternalGet (H := ICompare) (mkReadOptions true true) k t c; Some (found, s, length c).

(** A key that is there, one that the filter knows not to be there, one that is past its block, and a cached block. *)
Example table_gets :
  get_after [] (at_key [1; 5] 5 kTypeValue []).1 = Some (Some (at_key [1; 5] 2 kTypeDeletion []), Ok, 1%nat) /\
  get_after [] (at_key [2] 5 kTypeValue []).1 = Some (None, Ok, 0%nat) /\
  get_after [] (at_key [1; 6] 2 kTypeValue []).1 = Some (None, Ok, 1%nat) /\
  get_after [(at_key [9] 5 kTypeValue []).1; (at_key [4; 4] 9 kTypeValue []).1] (at_key [4; 4] 4 kTypeValue []).1 =
    Some (Some (at_key [4; 4] 1 kTypeValue [21]), Ok, 1%nat).
Proof. split_and!; vm_compute; reflexivity. Qed.

Example table_offsets :
  (t ← opened_table; Some ((fun k => ApproximateOffsetOf (H := ICompare) k t) <$> table_entries.*1)) =
  Some [Some 0; Some 0; Some 0; Some 49; Some 49; Some 49].
Proof. vm_compute. reflexivity. Qed.

Lemma table_entries_sorted : sorted_entries table_entries.
Proof.
  unfold sorted_entries, table_entries. cbn [fmap list_fmap].
  repeat first [apply SSorted_nil|apply SSorted_cons|apply List.Forall_nil|apply List.Forall_cons];
    apply (bool_decide_unpack _); vm_compute; exact I.
Qed.

Lemma table_entries_valid : Forall (fun e : entry => valid_key e.1) table_entries.
Proof. repeat constructor; eexists; (split; [vm_compute; reflexivity|]); vm_compute; discriminate. Qed.

Lemma written_ok_status : match written_table with
  | Some r => bool_decide (r_status r = Ok /\ is_u 64 (Z.of_nat (length (file_contents (r_file r))))) | None => false end = true.
Proof. vm_compute. reflexivity. Qed.

Lemma table_roundtrip_witness : exists r t, written_table = Some r /\
  Table_Open (r_file r) (FileSize r) [] = Some (Ok, Some t, []) /\
  forall k, exists found c, InternalGet (H := ICompare) (mkReadOptions true true) k t [] = Some (found, Ok, c) /\
    (found = table_entries !! seek_index internal_before table_entries k \/
     found = None /\ forall e, e ∈ table_entries -> ukey e.1 = ukey k -> internal_lt e.1 k).
Proof.
  destruct (table_roundtrip (IL := reference_icmp_laws) (H6 := reference_options) (BB := block_builder) (FB := key_filter) (W := list Z) (TableFileLaws0 := reference_table_file_laws) (F := list Z)
    (Hd := Block) (C := list (list Z * Block)) table_entries [] (eq_refl (@nil Z)) table_entries_sorted table_entries_valid eq_refl
    ltac:(vm_compute; discriminate) eq_refl) as (r & E & _ & Hr).
  pose proof written_ok_status as Hok. unfold written_table in *. rewrite E in Hok. apply bool_decide_eq_true in Hok as [Hok Hu].
  destruct (Hr Hok Hu) as [_ Hopen]. destruct (Hopen (r_file r) [] eq_refl) as (bs & t & Et & Hfresh & Hget).
  exists r, t. split; [exact E|]. split; [exact Et|]. intros k.
  destruct (Hget (mkReadOptions true true) k [] (Hfresh [] ltac:(intros off blk Hin; by apply elem_of_nil in Hin))) as (found & c & Eg & _ & _ & Hfound).
  exists found, c. by split.
Defined.

(** The file that was written is a table. *)
Lemma written_table_file : exists r, written_table = Some r /\ table_file (FB := key_filter) (r_file r) table_entries.
Proof.
  destruct (build_table_ok (H5 := reference_icmp_laws) (H7 := reference_options) (BB := block_builder) (FB := key_filter) (W := list Z)
    (TableFileLaws0 := reference_table_file_laws) table_entries [] eq_refl table_entries_sorted table_entries_valid eq_refl
    ltac:(vm_compute; discriminate) eq_refl) as (r & E & _ & Hr).
  pose proof written_ok_status as Hok. unfold written_table in *. rewrite E in Hok. apply bool_decide_eq_true in Hok as [Hok Hu].
  exists r. split; [done|]. by apply Hr.
Qed.

Lemma offsets_in_order_witness : exists data bs m i (t : Table (list Z)),
  table_layout (FB := key_filter) data table_entries bs m i /\ opened (FB := key_filter) data bs m t /\
  (forall b e, b ∈ bs -> e ∈ tb_entries b -> ApproximateOffsetOf (H := ICompare) e.1 t = Some (h_offset (tb_handle b))) /\
  forall k k', ~ internal_lt k' k -> exists o o', ApproximateOffsetOf (H := ICompare) k t = Some o /\
    ApproximateOffsetOf (H := ICompare) k' t = Some o' /\ o <= o' <= h_offset m.
Proof.
  destruct written_table_file as (r & _ & Hfile).
  destruct (Table_Open_ok (F := list Z) (Hd := Block) (C := list (list Z * Block)) (H7 := reference_reader) (BL := by_bytes_laws)
    (TableSourceLaws0 := reference_source_laws) (r_file r) (r_file r) table_entries [] Hfile eq_refl)
    as (bs & m & i & t & c & _ & Hl & Hop & _).
  exists (r_file r), bs, m, i, t. split; [exact Hl|]. split; [exact Hop|].
  exact (offsets_in_order (IL := reference_icmp_laws) _ _ _ _ _ _ Hl table_entries_sorted Hop).
Defined.
End demo.
