(* ===== verification/DbRecover.v ===== *)
(** * Opening a database ([leveldb-library/db/db_impl.cc])

    [DB::Open] takes the lock, makes a new database if there is none, recovers the versions from
    the manifest and what is in the newer logs: the batches of a log go to a memtable, which is
    written to a table when it is full and at the end of the log, unless the last log
    is kept in use. Write batches, memtables, the file names and the file system are parameters. *)

From Stdlib Require Import String.
From stdpp Require Import base list sorting gmap.
From S2P Require Import Prelude LogReader Doubles Cursor Coding DbFormat VersionEdit VersionFiles VersionState Builder VersionRefs.
From S2P Require Import Compaction Manifest DbState DbBackground DbWrite.

#[local] Open Scope Z_scope.

(** ** The environment *)

Class OpenEnv (W : Type) := {
  CreateDir : W -> W;
  LockFile : W -> Status * W;
  CurrentExists : W -> bool;                    (* [FileExists] of the file [CURRENT] *)
  manifest_Close : W -> Status * W;
  children_status : W -> Status;                (* of [GetChildren] *)
  LogFileName : Z -> list Z }.

(** The representation of a batch: its header is 12 bytes. *)
Class BatchContents (B : Type) := {
  batch_SetContents : list Z -> B;
  batch_GetSequence : B -> Z }.

Class OpenOptions := {
  create_if_missing : bool;
  error_if_exists : bool;
  paranoid_log_checks : bool }.                 (* [options_.paranoid_checks] *)

(** ** State *)

(** The pointers to the memtable and to the log are null at first: the memtable is in [op_mem], and that
    of [op_db] is not in use before it is set; [op_log] tells whether [log_] is set. *)
Record Opening (M W : Type) := mkOpening {
  op_db : Db M; op_mem : option M; op_log : bool; op_disk : W; op_edit : VersionEdit; op_save : bool; op_max : Z }.
Arguments mkOpening {M W}.
Arguments op_db {M W}.
Arguments op_mem {M W}.
Arguments op_log {M W}.
Arguments op_disk {M W}.
Arguments op_edit {M W}.
Arguments op_save {M W}.
Arguments op_max {M W}.

Section recover.
Context `{Comparator} `{Coding} `{!InternalKeyFormat, !InternalComparator} `{!ManifestOptions} `{!OpenOptions}.
Context {B M W F : Type} `{!LogFormat} `{!SequentialFile F} `{!ManifestEnv W} `{!RecoveryEnv W F} `{!DirectoryEnv W} `{!OpenEnv W}.
Context `{!MemTableEnv M W} `{!Threads M} `{!Batches B M} `{!BatchContents B} `{!LogFile W} `{!WriteOptions}.
Implicit Types (db : Db M) (w : W) (o : Opening M W).

Definition op_set_db db o : Opening M W := mkOpening db (op_mem o) (op_log o) (op_disk o) (op_edit o) (op_save o) (op_max o).
Definition op_set_disk w o : Opening M W := mkOpening (op_db o) (op_mem o) (op_log o) w (op_edit o) (op_save o) (op_max o).
Definition op_set_max n o : Opening M W := mkOpening (op_db o) (op_mem o) (op_log o) (op_disk o) (op_edit o) (op_save o) n.

(** The log that is in use from now on, with its memtable. *)
Definition op_use_log (n : Z) (mem : M) w o : Opening M W :=
  let db := op_db o in
  mkOpening (set_mem (mem_ db) (imm_ db) (has_imm_ db) n db) (Some mem) true w (op_edit o) (op_save o) (op_max o).

(** ** NewDB *)

Definition new_db_edit : VersionEdit :=
  with_last_sequence 0 (with_next_file_number 2 (with_log_number 0 (with_comparator comparator_name VersionEdit_new))).

Definition NewDB w : option (Status * W) :=
  let '(s, w) := NewWritableFile 1 w in
  if bool_decide (s = Ok) then
    record ← EncodeTo new_db_edit [];
    let '(s, w) := AddRecord record w in
    let '(s, w) := if bool_decide (s = Ok) then manifest_Close w else (s, w) in
    Some (if bool_decide (s = Ok) then SetCurrentFile 1 w else (s, DeleteFile 1 w))
  else Some (s, w).

(** ** RecoverLogFile *)

Definition MaybeIgnoreError (s : Status) : Status := if bool_decide (s = Ok) || paranoid_log_checks then s else Ok.

(** What the reporter makes of the status. *)
Definition reported (st : Status) (s : Status) : Status := if paranoid_log_checks && bool_decide (st = Ok) then s else st.

(** The memtable is written to a table of level 0. *)
Definition write_memtable (mem : M) o : option (Status * Opening M W) :=
  '(st, e, db, w) ← WriteLevel0Table mem (op_edit o) None (op_db o) (op_disk o);
  Some (st, mkOpening db (op_mem o) (op_log o) w e true (op_max o)).

(** The batch of a record goes to the memtable, a new one if there is none. *)
Definition insert_record (record : list Z) (mem : option M) (max : Z) : Status * M * Z :=
  let batch := batch_SetContents record in
  let '(st, mem) := InsertInto batch (default MemTable_new mem) in
  let st := MaybeIgnoreError st in
  if bool_decide (st = Ok) then
    let last_seq := wrap 64 (batch_GetSequence batch + batch_Count batch - 1) in
    (st, mem, if max <? last_seq then last_seq else max)
  else (st, mem, max).

Fixpoint log_loop (fuel : nat) (st : Status) (rd : @reader F) (mem : option M) (compactions : Z) o :
    option (Status * option M * Z * Opening M W) :=
  match fuel with
  | O => None
  | S fuel =>
      '(record, rd) ← ReadRecord rd;
      let st := match drops rd with [] => st | (_, why) :: _ => reported st (report_status why) end in
      match record with
      | Some record =>
          if negb (bool_decide (st = Ok)) then Some (st, mem, compactions, o)
          else if Z.of_nat (length record) <? 12
          then log_loop fuel (reported st (Corruption "log record too small")) rd mem compactions o
          else
            let '(st, m, max) := insert_record record mem (op_max o) in
            let o := op_set_max max o in
            if negb (bool_decide (st = Ok)) then Some (st, Some m, compactions, o)
            else if write_buffer_size <? ApproximateMemoryUsage m then
              '(st, o) ← write_memtable m o;
              if bool_decide (st = Ok) then log_loop fuel st rd None (compactions + 1) o
              else Some (st, None, compactions + 1, o)
            else log_loop fuel st rd (Some m) compactions o
      | None => Some (st, mem, compactions, o)
      end
  end.

(** The last log is kept in use when nothing of it was written: its memtable stays, unless the file cannot be opened. *)
Definition reuse_log (log_number : Z) (mem : option M) o : option (option M * Opening M W) :=
  _ ← assert_ (negb (op_log o)); _ ← assert_ (bool_decide (op_mem o = None));
  let '(s, _) := GetFileSize (LogFileName log_number) (op_disk o) in
  if bool_decide (s = Ok) then
    let '(s, w) := NewAppendableFile (LogFileName log_number) (op_disk o) in
    if bool_decide (s = Ok) then Some (None, op_use_log log_number (default MemTable_new mem) w o)
    else Some (mem, op_set_disk w o)
  else Some (mem, o).

Definition RecoverLogFile (log_number : Z) (last_log : bool) o : option (Status * Opening M W) :=
  match NewSequentialFile (LogFileName log_number) (op_disk o) with
  | inl status => Some (MaybeIgnoreError status, o)
  | inr file =>
      '(status, mem, compactions, o) ← log_loop (S (remaining file)) Ok (Reader_new file true true 0) None 0 o;
      '(mem, o) ← (if bool_decide (status = Ok) && reuse_logs && last_log && (compactions =? 0)
                   then reuse_log log_number mem o else Some (mem, o));
      match mem with
      | Some m => if bool_decide (status = Ok) then write_memtable m o else Some (status, o)
      | None => Some (status, o)
      end
  end.

(** ** Recover *)

(** The files of the directory: the numbers of the tables that are expected and not there, and the logs. *)
Fixpoint scan_files (min_log prev_log : Z) (filenames : list (list Z)) (expected : gset Z) (logs : list Z) : gset Z * list Z :=
  match filenames with
  | [] => (expected, logs)
  | name :: filenames =>
      match ParseFileName name with
      | Some (number, type) =>
          scan_files min_log prev_log filenames (expected ∖ {[ number ]})
            (if bool_decide (type = kLogFile) && ((min_log <=? number) || (number =? prev_log)) then logs ++ [number] else logs)
      | None => scan_files min_log prev_log filenames expected logs
      end
  end.

(** The numbers of the logs are marked as used, one by one. *)
Fixpoint recover_logs (logs : list Z) o : option (Status * Opening M W) :=
  match logs with
  | [] => Some (Ok, o)
  | n :: logs =>
      '(s, o) ← RecoverLogFile n (bool_decide (logs = [])) o;
      if bool_decide (s = Ok) then
        let db := op_db o in
        recover_logs logs (op_set_db (set_versions (MarkFileNumberUsed n (versions_ db)) (version_list_ db) db) o)
      else Some (s, o)
  end.

(** The database is there, or is made. *)
Definition find_database w : option (Status * W) :=
  if negb (CurrentExists w) then
    if create_if_missing then NewDB w else Some (InvalidArgument "does not exist (create_if_missing is false)", w)
  else if error_if_exists then Some (InvalidArgument "exists (error_if_exists is true)", w) else Some (Ok, w).

Definition Db_Recover o : option (Status * Opening M W) :=
  let '(s, w) := LockFile (CreateDir (op_disk o)) in
  let o := op_set_disk w o in
  if negb (bool_decide (s = Ok)) then Some (s, o)
  else
    '(s, w) ← find_database w;
    let o := op_set_disk w o in
    if negb (bool_decide (s = Ok)) then Some (s, o)
    else
      let db := op_db o in
      '(s, save, vset, vs, w) ← Manifest.Recover (versions_ db) (version_list_ db) w;
      let o := mkOpening (set_versions vset vs db) (op_mem o) (op_log o) w (op_edit o) (save || op_save o) (op_max o) in
      if negb (bool_decide (s = Ok)) then Some (s, o)
      else if negb (bool_decide (children_status w = Ok)) then Some (children_status w, o)
      else
        let '(expected, logs) := scan_files (vs_log_number_ vset) (vs_prev_log_number_ vset) (GetChildren w) (AddLiveFiles vs ∅) [] in
        if negb (bool_decide (expected = ∅)) then Some (Corruption "%d missing files; e.g.", o)
        else
          '(s, o) ← recover_logs (merge_sort Z.le logs) o;
          if bool_decide (s = Ok) then
            let db := op_db o in
            vset ← (if vs_last_sequence_ (versions_ db) <? op_max o then SetLastSequence (op_max o) (versions_ db) else Some (versions_ db));
            Some (Ok, op_set_db (set_versions vset (version_list_ db) db) o)
          else Some (s, o).

(** ** Open *)

(** A new log with its memtable, unless the last one is kept in use. *)
Definition open_log o : Status * Opening M W :=
  match op_mem o with
  | Some _ => (Ok, o)
  | None =>
      let '(n, db) := new_file_number (op_db o) in
      let '(s, w) := new_log_file n (op_disk o) in
      let o := op_set_disk w (op_set_db db o) in
      if bool_decide (s = Ok) then
        let o := op_use_log n MemTable_new w o in
        (s, mkOpening (op_db o) (op_mem o) (op_log o) (op_disk o) (with_log_number n (op_edit o)) (op_save o) (op_max o))
      else (s, o)
  end.

(** The edit of the recovery is installed if the manifest has to be saved. *)
Definition save_recovered o : option (Status * Opening M W) :=
  if op_save o then
    let e := with_log_number (logfile_number_ (op_db o)) (with_prev_log_number 0 (op_edit o)) in
    '(s, db, w) ← apply_to_versions e (op_db o) (op_disk o); Some (s, op_set_disk w (op_set_db db o))
  else Some (Ok, o).

(** The database and whether work was handed to the background thread, when the status is OK. *)
Definition Db_Open (db : Db M) w : option (Status * option (Db M * bool) * W) :=
  '(s, o) ← Db_Recover (mkOpening db None false w VersionEdit_new false 0);
  let '(s, o) := if bool_decide (s = Ok) then open_log o else (s, o) in
  '(s, o) ← (if bool_decide (s = Ok) then save_recovered o else Some (s, o));
  if bool_decide (s = Ok) then
    mem ← op_mem o;
    let db := op_db o in
    let db := set_mem mem (imm_ db) (has_imm_ db) (logfile_number_ db) db in
    let w := DeleteObsoleteFiles db (op_disk o) in
    Some (s, Some (MaybeScheduleCompaction db), w)
  else Some (s, None, op_disk o).
End recover.
