(* ===== verification/DbRecoverProps.v ===== *)
(** * What is recovered from the logs ([leveldb-library/db/db_impl.cc])

    Recovery returns on any log files, and when the logs are whole, no operation of theirs
    is lost: each is in a table of the edit or in the memtable that stays in use. *)

From Stdlib Require Import String Strings.Byte Sorting.Sorted.
From stdpp Require Import base list sorting gmap.
From S2P Require Import Prelude LogReader LogProps Doubles Cursor Coding DbFormat VersionEdit VersionFiles VersionState Builder VersionRefs.
From S2P Require Import Compaction Manifest DbState DbBackground DbWrite DbWriteProps DbRecover.

#[local] Open Scope Z_scope.

(** ** What the environment promises *)

(** While a database is opened no other thread has it. *)
Class Alone (M : Type) `{!Threads M} := {
  alone_versions p : unlocked_versions p = p;
  alone_rest (db : Db M) : unlocked_rest db = db }.

(** The operations of the tables by their numbers; log files are only read. A memtable
    without operations gives no table. *)
Class RecoverLaws (B M O W : Type) `{!Batches B M} `{!BatchContents B} `{!BatchLaws B M O} `{!MemTableEnv M W} `{!RecoveryEnv W (list byte)} `{!OpenEnv W} := {
  GetSequence_law b : batch_GetSequence b = batch_sequence b;
  table_ops : W -> Z -> option (list (Z * O));
  same_logs (w w' : W) : Prop := forall n, NewSequentialFile (LogFileName n) w' = NewSequentialFile (LogFileName n) w;
  BuildTable_ops mem n w st meta w' : BuildTable mem n w = (st, meta, w') ->
    same_logs w w' /\ (forall m, m <> n -> table_ops w' m = table_ops w m) /\
    (st = Ok -> if 0 <? file_size meta then number meta = n /\ (8 <= length (smallest meta))%nat /\ (8 <= length (largest meta))%nat /\
                  exists l, table_ops w' n = Some l /\ l ≡ₚ mem_entries mem
                else mem_entries mem = []);
  NewAppendableFile_law name w st w' : NewAppendableFile name w = (st, w') -> same_logs w w' /\ forall m, table_ops w' m = table_ops w m }.

Section props.
Context `{Comparator} `{Coding} `{!InternalKeyFormat, !InternalComparator} `{!ManifestOptions} `{!OpenOptions}.
Context {B M W O : Type} `{!LogFormat, !LogFormatLaws} `{!ManifestEnv W} `{!RecoveryEnv W (list byte)} `{!DirectoryEnv W} `{!OpenEnv W}.
Context `{!MemTableEnv M W} `{!Threads M} `{AL : !Alone M} `{!Batches B M} `{!BatchContents B} `{!BatchLaws B M O} `{!WriteOptions}.
Context `{RL : !RecoverLaws B M O W}.
Implicit Types (db : Db M) (w : W) (o : Opening M W) (r : list Z).

Abbreviation next o := (vs_next_file_number_ (versions_ (op_db o))).
Abbreviation mem_ops mem := (from_option mem_entries [] mem).

(** The operations in the tables of the edit. *)
Definition edit_ops o : list (Z * O) := new_files_ (op_edit o) ≫= fun x => default [] (table_ops (op_disk o) (number x.2)).

Context (base : Z).

(** New tables have numbers from [base] on, each once. *)
Record opening_ok o : Prop := {
  oo_next : 0 <= base <= next o;
  oo_stats : (0 < length (stats_ (op_db o)))%nat;
  oo_numbers x : x ∈ new_files_ (op_edit o) -> x.1 = 0 /\ base <= number x.2 < next o;
  oo_distinct : NoDup ((fun x => number x.2) <$> new_files_ (op_edit o));
  oo_save : op_save o = false -> new_files_ (op_edit o) = [] }.

(** What recovery leaves alone. *)
Record onward (n : Z) o o' : Prop := {
  on_logs : same_logs (op_disk o) (op_disk o');
  on_next : next o <= next o' <= next o + n;
  on_versions : versions_ (op_db o') = with_next_file (next o') (versions_ (op_db o)) /\ version_list_ (op_db o') = version_list_ (op_db o);
  on_ok : opening_ok o' }.

Lemma next_same s : s = with_next_file (vs_next_file_number_ s) s.
Proof using. by destruct s. Qed.

Lemma onward_refl o : opening_ok o -> onward 0 o o.
Proof using. intros Ho. split; [done|lia|by split; [apply next_same|]|done]. Qed.

Lemma onward_trans n n' o1 o2 o3 : onward n o1 o2 -> onward n' o2 o3 -> onward (n + n') o1 o3.
Proof using.
  intros [A1 A2 [A3 A4] _] [B1 B2 [B3 B4] B5]. split; [|lia| |done]; [intros k; by rewrite B1|]. rewrite B3, A3 at 1. by rewrite B4.
Qed.

Lemma onward_more n n' o o' : n <= n' -> onward n o o' -> onward n' o o'.
Proof using. intros ? [A1 A2 A3 A4]. split; [done|lia|done..]. Qed.

(** ** A table of the memtable *)

Lemma edit_ops_other w' o : opening_ok o -> (forall k, k < next o -> table_ops w' k = table_ops (op_disk o) k) ->
  (new_files_ (op_edit o) ≫= fun x => default [] (table_ops w' (number x.2))) = edit_ops o.
Proof using. intros Ho Hw. apply Forall_bind_ext, list.Forall_forall. intros x [_ [_ Hx]]%(oo_numbers o Ho). by rewrite Hw. Qed.

Lemma unlocked_alone db : unlocked db = db.
Proof using AL. unfold unlocked. rewrite alone_versions. cbn. rewrite alone_rest. by destruct db. Qed.

(** The edit with the new table, if there is one. *)
Lemma level0_edit st meta e : (st = Ok -> 0 < file_size meta -> (8 <= length (smallest meta))%nat /\ (8 <= length (largest meta))%nat) ->
  (if bool_decide (st = Ok) && (0 <? file_size meta) then
     min_user_key ← InternalKey_user_key (smallest meta); max_user_key ← InternalKey_user_key (largest meta);
     level ← Some 0%nat; Some (level, add_new_file (Z.of_nat level, meta) e)
   else Some (0%nat, e)) =
  Some (0%nat, if bool_decide (st = Ok) && (0 <? file_size meta) then add_new_file (0, meta) e else e).
Proof using.
  intros Hk. case_bool_decide as Hst; [|done]. cbn [andb]. destruct (Z.ltb_spec 0 (file_size meta)) as [Hpos|]; [|done].
  destruct (Hk Hst Hpos). unfold InternalKey_user_key. rewrite !ExtractUserKey_ok by done. done.
Qed.


(** No table fails. *)
Definition tables_built : Prop := forall m n w, (BuildTable m n w).1.1 = Ok.

(** A memtable is written, or the error of its table is returned. *)
Lemma write_memtable_ok m o : opening_ok o -> next o + 1 < 2 ^ 64 -> exists st o', write_memtable m o = Some (st, o') /\
  onward 1 o o' /\ op_mem o' = op_mem o /\ op_log o' = op_log o /\ op_max o' = op_max o /\
  (tables_built -> st = Ok) /\ (st = Ok -> edit_ops o' ≡ₚ edit_ops o ++ mem_entries m).
Proof using AL.
  intros Ho Hlt. pose proof Ho as [Hn Hs Hx Hnd Hsv]. unfold write_memtable, WriteLevel0Table, new_file_number, NewFileNumber. cbn [versions_ set_versions].
  destruct (BuildTable m (next o) (op_disk o)) as [[st meta] w'] eqn:E.
  assert (tables_built -> st = Ok) as Hbuilt by (intros Hb; specialize (Hb m (next o) (op_disk o)); by rewrite E in Hb). apply BuildTable_ops in E as (Hlogs & Hother & Hgood).
  rewrite unlocked_alone, level0_edit.
  2:{ intros Hst Hpos. specialize (Hgood Hst). rewrite (proj2 (Z.ltb_lt _ _)) in Hgood by done. tauto. }
  cbn [mbind option_bind]. set (db2 := set_pending _ _). unfold add_stats.
  destruct (lookup_lt_is_Some_2 (stats_ db2) 0%nat Hs) as [c Hc]. rewrite Hc. cbn [mbind option_bind].
  eexists st, _. split; [done|]. set (e' := if bool_decide (st = Ok) && (0 <? file_size meta) then _ else _).
  assert ((new_files_ (op_edit o) ≫= fun x => default [] (table_ops w' (number x.2))) = edit_ops o) as Hsame.
  { apply edit_ops_other; [done|]. intros k Hk. apply Hother. lia. }
  assert (new_files_ e' = new_files_ (op_edit o) /\ (st = Ok -> mem_entries m = []) \/
    st = Ok /\ new_files_ e' = new_files_ (op_edit o) ++ [(0, meta)] /\ number meta = next o /\ exists l, table_ops w' (next o) = Some l /\ l ≡ₚ mem_entries m) as He'.
  { unfold e'. case_bool_decide as Hst; cbn [andb]; [|by left; split; [|intros ?]]. specialize (Hgood Hst).
    destruct (0 <? file_size meta); [right|by left]. destruct Hgood as (Hnum & _ & _ & Hl). by split_and!. }
  assert (vs_next_file_number_ (versions_ db2) = next o + 1) as Hnext by (cbn; apply wrap_small; unfold is_u; lia).
  split; [split; [done| |done|split]|split_and!; try done]; cbn [op_db op_disk op_edit op_save versions_ set_stats stats_]; rewrite ?Hnext; try lia.
  - by rewrite length_insert.
  - intros x Hin. assert (x ∈ new_files_ (op_edit o) ++ [(0, meta)]) as [Hold|Hnew]%elem_of_app.
    { destruct He' as [[E _]|(_ & E & _)]; rewrite E in Hin; [apply elem_of_app; by left|done]. }
    + apply Hx in Hold. lia.
    + apply list_elem_of_singleton in Hnew as ->. destruct He' as [[E _]|(_ & _ & Hnum & _)]; [|cbn; lia]. rewrite E in Hin. apply Hx in Hin. lia.
  - destruct He' as [[-> _]|(_ & -> & Hnum & _)]; [done|]. rewrite fmap_app. apply list.NoDup_app. split; [done|].
    split; [|apply NoDup_singleton]. intros k (x & -> & Hin)%list_elem_of_fmap. cbn. rewrite list_elem_of_singleton, Hnum. apply Hx in Hin. lia.
  - intros Hst. destruct He' as [[E Hm]|(_ & E & Hnum & l & Hl & Hp)].
    + rewrite Hm, app_nil_r by done. unfold edit_ops. cbn [op_edit op_disk]. by rewrite E, Hsame.
    + unfold edit_ops at 1. cbn [op_edit op_disk]. rewrite E, bind_app, Hsame. cbn [mbind list_bind snd].
      rewrite Hnum, Hl, app_nil_r. cbn [default from_option]. by rewrite Hp.
Qed.

(** ** The records of a log *)

(** The operations of a record, with their sequence numbers, and the last of these. *)
Definition record_ops r : list (Z * O) :=
  let b := batch_SetContents r in zip (seqZ (batch_sequence b) (Z.of_nat (length (batch_ops b)))) (batch_ops b).
Definition record_last r : Z := wrap 64 (batch_GetSequence (batch_SetContents r) + batch_Count (batch_SetContents r) - 1).

(** A record that a batch can be read from. *)
Definition record_ok r : Prop := 12 <= Z.of_nat (length r) /\ forall m, (InsertInto (batch_SetContents r) m).1 = Ok.

Lemma insert_record_ok r mem max : record_ok r -> exists m,
  insert_record r mem max = (Ok, m, Z.max max (record_last r)) /\ mem_entries m = mem_ops mem ++ record_ops r.
Proof using.
  intros [_ Hins]. unfold insert_record. specialize (Hins (default MemTable_new mem)).
  destruct (InsertInto _ (default MemTable_new mem)) as [st m] eqn:E. cbn [fst] in Hins. subst st.
  apply InsertInto_law in E as (n & Hm & Hlen). unfold MaybeIgnoreError. rewrite (bool_decide_true (Ok = Ok)) by done. cbn [orb].
  rewrite (bool_decide_true (Ok = Ok)) by done. exists m. split.
  - fold (record_last r). destruct (Z.ltb_spec max (record_last r)); repeat f_equal; lia.
  - rewrite Hm. f_equal; [destruct mem; cbn; [done|apply entries_new]|]. unfold record_ops. rewrite take_ge by auto.
    set (ops := batch_ops _) in *. set (q := batch_sequence _). specialize (Hlen eq_refl).
    replace (Z.of_nat n) with (Z.of_nat (length ops) + Z.of_nat (n - length ops)) by lia. rewrite seqZ_app by lia.
    rewrite zip_with_app_l, length_seqZ, Nat2Z.id, take_ge, drop_ge by done. by rewrite zip_with_nil_r, app_nil_r.
Qed.

Lemma log_loop_ok tag_of (Htag : tag_ok tag_of) recs ps : LogProps.log_records recs ps ->
  forall fuel rd mem c o, delivers tag_of rd ps -> clean rd -> (unread rd < fuel)%nat ->
  Forall record_ok recs -> opening_ok o -> next o + Z.of_nat (length recs) < 2 ^ 64 ->
  exists st mem' c' o', log_loop fuel Ok rd mem c o = Some (st, mem', c', o') /\ onward (Z.of_nat (length recs)) o o' /\
    op_mem o' = op_mem o /\ op_log o' = op_log o /\ (tables_built -> st = Ok) /\
    (st = Ok -> edit_ops o' ++ mem_ops mem' ≡ₚ edit_ops o ++ mem_ops mem ++ (recs ≫= record_ops) /\
      op_max o' = foldl Z.max (op_max o) (record_last <$> recs)).
Proof using All.
  induction 1 as [|rec recs qs ps Hfr _ IH]; intros fuel rd mem c o Hd Hc Hf Hgood Ho Hlt; (destruct fuel as [|fuel]; [lia|]); cbn [log_loop].
  - destruct (ReadRecord_end tag_of Htag rd Hd Hc) as (rd' & -> & _ & Hc'). cbn [mbind option_bind].
    rewrite (proj2 (proj2 (proj2 Hc'))). exists Ok, mem, c, o. split; [done|]. split; [by apply onward_refl|].
    split_and!; try done. cbn. by rewrite app_nil_r.
  - apply Forall_cons_1 in Hgood as [Hrec Hgood].
    destruct (ReadRecord_ok rd (delivers_bytes tag_of rd _ Hd)) as (r' & rd'' & E & _ & _ & Hun).
    destruct (ReadRecord_next tag_of Htag rd rec qs ps Hd Hc Hfr) as (rd' & E' & Hd' & Hc'). rewrite E in E'. injection E' as -> ->.
    rewrite E. cbn [mbind option_bind]. rewrite (proj2 (proj2 (proj2 Hc'))), (bool_decide_true (Ok = Ok)) by done. cbn [negb].
    specialize (Hun ltac:(done)). cbn [length] in Hlt. rewrite (proj2 (Z.ltb_ge _ _)) by apply Hrec.
    destruct (insert_record_ok rec mem (op_max o) Hrec) as (m & -> & Hm). rewrite (bool_decide_true (Ok = Ok)) by done. cbn [negb].
    set (o1 := op_set_max _ o). assert (onward 0 o o1) as A1 by (destruct Ho; by split; [|cbn; lia|split; [apply next_same|]|split]).
    assert (edit_ops o1 = edit_ops o) as E1 by done.
    destruct (write_buffer_size <? ApproximateMemoryUsage m).
    + destruct (write_memtable_ok m o1) as (st & o2 & -> & A2 & Em & El & Ex & Hb & Hops); [by destruct A1|cbn; lia|]. cbn [mbind option_bind].
      case_bool_decide as Hst; [|by eexists _, _, _, _; split; [done|]; split; [apply (onward_more (0 + 1)); [cbn; lia|]; by eapply onward_trans|rewrite Em, El]].
      subst st. destruct (IH fuel rd' None (c + 1) o2) as (st & mem' & c' & o' & -> & A3 & Em' & El' & Hb' & Hok); [done|done|lia|done|by destruct A2|destruct A2; cbn in *; lia|].
      eexists _, _, _, _. split; [done|]. split; [apply (onward_more (0 + (1 + Z.of_nat (length recs)))); [cbn; lia|]; by eapply onward_trans, onward_trans|].
      rewrite Em', El', Em, El. split_and!; [done|done|done|]. intros Hst. destruct (Hok Hst) as [Hp ->]. rewrite Ex. split; [|done].
      rewrite Hp, Hops, E1, Hm by done. cbn. by rewrite !app_assoc.
    + destruct (IH fuel rd' (Some m) c o1) as (st & mem' & c' & o' & -> & A3 & Em' & El' & Hb' & Hok); [done|done|lia|done|by destruct A1|cbn; lia|].
      eexists _, _, _, _. split; [done|]. split; [apply (onward_more (0 + Z.of_nat (length recs))); [cbn; lia|]; by eapply onward_trans|].
      rewrite Em', El'. split_and!; [done|done|done|]. intros Hst. destruct (Hok Hst) as [Hp ->]. split; [|done].
      rewrite Hp, E1. cbn. rewrite Hm. by rewrite !app_assoc.
Qed.

(** ** The logs *)

(** The log [n] is whole: it is in the format of the log, and has these records. *)
Definition log_holds tag_of w (n : Z) (recs : list (list Z)) : Prop :=
  exists f blocks last, NewSequentialFile (LogFileName n) w = inr f /\ content f = log_bytes tag_of blocks last /\
    log_ok tag_of blocks last /\ LogProps.log_records recs (physicals blocks last) /\ Forall record_ok recs.

(** The log is kept in use with its memtable, or the memtable is still to be written. *)
Lemma reuse_log_ok n mem o : opening_ok o -> op_log o = false -> op_mem o = None -> exists mem' o',
  reuse_log n mem o = Some (mem', o') /\ onward 0 o o' /\ edit_ops o' = edit_ops o /\ op_max o' = op_max o /\
  mem_ops mem' ++ mem_ops (op_mem o') = mem_ops mem.
Proof using RL BatchLaws0.
  intros Ho Hl Hm. unfold reuse_log. rewrite Hl, Hm. cbn [negb]. rewrite (bool_decide_true (None = None)) by done. cbn [assert_ mbind option_bind].
  destruct (GetFileSize _ _) as [s sz]. pose proof (onward_refl o Ho).
  destruct (bool_decide (s = Ok)); [|exists mem, o; split_and!; try done; rewrite Hm; apply app_nil_r].
  destruct (NewAppendableFile _ _) as [s' w'] eqn:E. apply NewAppendableFile_law in E as [Hlogs Htab].
  assert (forall k, k < next o -> table_ops w' k = table_ops (op_disk o) k) as Hw by auto.
  destruct (bool_decide (s' = Ok)); eexists _, _; (split; [done|]); split_and!; try done; try exact (edit_ops_other w' o Ho Hw).
  - destruct Ho. split; [done|cbn; lia|by split; [apply next_same|]|by split].
  - cbn. destruct mem; cbn; [done|apply entries_new].
  - destruct Ho. split; [done|cbn; lia|by split; [apply next_same|]|by split].
  - cbn. rewrite Hm. apply app_nil_r.
Qed.

Lemma RecoverLogFile_ok tag_of (Htag : tag_ok tag_of) n last recs o : opening_ok o -> op_mem o = None -> op_log o = false ->
  log_holds tag_of (op_disk o) n recs -> next o + Z.of_nat (length recs) + 1 < 2 ^ 64 ->
  exists st o', RecoverLogFile n last o = Some (st, o') /\ onward (Z.of_nat (length recs) + 1) o o' /\
    (last = false -> op_mem o' = None /\ op_log o' = false) /\ (tables_built -> st = Ok) /\
    (st = Ok -> edit_ops o' ++ mem_ops (op_mem o') ≡ₚ edit_ops o ++ (recs ≫= record_ops) /\ op_max o' = foldl Z.max (op_max o) (record_last <$> recs)).
Proof using All.
  intros Ho Hm Hl (f & blocks & lst & Hfile & Hc & Hok & Hlog & Hgood) Hlt. unfold RecoverLogFile. rewrite Hfile.
  destruct (new_delivers tag_of f blocks lst true true Hc Hok) as [Hd Hcl].
  destruct (log_loop_ok tag_of Htag recs _ Hlog (S (remaining f)) (Reader_new f true true 0) None 0 o) as (st & mem & c & o1 & -> & A1 & Em & El & Hb & Hops);
    [done|done|cbn; lia|done|done|lia|]. cbn [mbind option_bind]. rewrite Hm in Em. rewrite Hl in El.
  set (reuse := _ && (c =? 0)). assert (exists mem' o2, (if reuse then reuse_log n mem o1 else Some (mem, o1)) = Some (mem', o2) /\ onward 0 o1 o2 /\
    (last = false -> op_mem o2 = None /\ op_log o2 = false) /\ edit_ops o2 = edit_ops o1 /\ op_max o2 = op_max o1 /\ mem_ops mem' ++ mem_ops (op_mem o2) = mem_ops mem)
    as (mem' & o2 & -> & A2 & Hlast & Ee & Ex & Eo).
  { destruct reuse eqn:Er.
    - destruct (reuse_log_ok n mem o1) as (mem' & o2 & -> & A2 & R2); [by destruct A1|done|done|]. exists mem', o2. split_and!; try done; try apply R2.
      all: intros ->; unfold reuse in Er; by rewrite !andb_false_r in Er.
    - exists mem, o1. split_and!; try done; [apply onward_refl; by destruct A1|]. rewrite Em. apply app_nil_r. }
  cbn [mbind option_bind]. assert (onward (Z.of_nat (length recs) + 0) o o2) as A12 by by eapply onward_trans.
  assert (forall x, x = Z.of_nat (length recs) \/ x = Z.of_nat (length recs) + 1 -> Z.of_nat (length recs) + 0 <= x) as Hle by lia.
  destruct mem' as [m|].
  2:{ eexists _, _. split; [done|]. split; [by apply (onward_more (Z.of_nat (length recs) + 0)); [lia|]|]. split; [done|]. split; [done|].
      intros Hst. destruct (Hops Hst) as [Hp Hmax]. rewrite Ex, Ee. split; [|done]. cbn in Eo. rewrite Eo, Hp. done. }
  case_bool_decide as Hst.
  2:{ eexists _, _. split; [done|]. split; [by apply (onward_more (Z.of_nat (length recs) + 0)); [lia|]|]. by split_and!. }
  destruct (Hops Hst) as [Hp Hmax]. pose proof A12 as [B1 B2 _ B3].
  destruct (write_memtable_ok m o2) as (st' & o3 & -> & A3 & Em3 & El3 & Ex3 & Hb3 & Hops3); [done|lia|]. eexists _, _. split; [done|].
  split; [apply (onward_more (Z.of_nat (length recs) + 0 + 1)); [lia|]; by eapply onward_trans|]. rewrite Em3, El3. split; [done|]. split; [done|].
  intros Hst'. rewrite Ex3, Ex. split; [|done]. cbn in Eo. rewrite Hops3, Ee, <- app_assoc, Eo by done. by rewrite Hp.
Qed.

(** The numbers that recovery goes up to. *)
Lemma recover_logs_ok tag_of (Htag : tag_ok tag_of) (records : Z -> list (list Z)) (logs : list Z) : forall o bound,
  opening_ok o -> op_mem o = None -> op_log o = false -> (forall n, n ∈ logs -> log_holds tag_of (op_disk o) n (records n)) ->
  next o <= bound -> (forall n, n ∈ logs -> 0 <= n < bound) -> bound + Z.of_nat (length (logs ≫= records) + length logs) < 2 ^ 64 ->
  exists st o', recover_logs logs o = Some (st, o') /\ opening_ok o' /\ next o <= next o' /\ (tables_built -> st = Ok) /\
    (versions_ (op_db o') = with_next_file (next o') (versions_ (op_db o)) /\ version_list_ (op_db o') = version_list_ (op_db o)) /\
    (st = Ok -> edit_ops o' ++ mem_ops (op_mem o') ≡ₚ edit_ops o ++ ((logs ≫= records) ≫= record_ops) /\
      op_max o' = foldl Z.max (op_max o) (record_last <$> (logs ≫= records)) /\ forall n, n ∈ logs -> n < next o').
Proof using All.
  induction logs as [|n logs IH]; intros o bound Ho Hm Hl Hlogs Hnext Hnum Hlt; cbn [recover_logs].
  { exists Ok, o. do 4 (split; [done|]). split; [by split; [apply next_same|]|]. intros _. split; [by rewrite Hm|]. split; [done|]. by intros ? ?%elem_of_nil. }
  cbn [mbind list_bind] in Hlt. rewrite length_app in Hlt. cbn [length] in Hlt. assert (n ∈ n :: logs) as Hin by left. pose proof (Hnum n Hin) as Hn.
  destruct (RecoverLogFile_ok tag_of Htag n (bool_decide (logs = [])) (records n) o) as (st & o1 & -> & [A1 A2 [A3 A3'] A4] & Hlast & Hb & Hops);
    [done|done|done|by apply Hlogs|lia|]. cbn [mbind option_bind].
  destruct (decide (st = Ok)) as [Hst|Hst];
    [rewrite (bool_decide_true (st = Ok)) by done|rewrite (bool_decide_false (st = Ok)) by done; exists st, o1; split; [done|]; split; [done|]; split; [lia|]; by split]. destruct (Hops Hst) as [Hp Hmax].
  set (o2 := op_set_db _ o1). assert (next o2 = Z.max (next o1) (n + 1)) as Hn2.
  { cbn. unfold MarkFileNumberUsed. destruct (Z.leb_spec (next o1) n); cbn; [|lia]. rewrite wrap_small by (unfold is_u; lia). lia. }
  assert (versions_ (op_db o2) = with_next_file (next o2) (versions_ (op_db o)) /\ version_list_ (op_db o2) = version_list_ (op_db o)) as [Hv2 Hl2].
  { split; [|exact A3']. transitivity (with_next_file (next o2) (versions_ (op_db o1))); [|by rewrite A3 at 1]. cbn.
    unfold MarkFileNumberUsed. destruct (_ <=? n); [done|apply next_same]. }
  assert (opening_ok o2) as Ho2 by (destruct A4; split; [lia|done| |done|done]; intros x Hx; rewrite Hn2; apply oo_numbers0 in Hx; lia).
  destruct logs as [|n' logs].
  { exists Ok, o2. split; [done|]. split; [done|]. split; [lia|]. split; [done|]. split; [done|]. intros _. split; [|split].
    - etransitivity; [exact Hp|]. cbn. by rewrite app_nil_r.
    - cbn. rewrite app_nil_r. exact Hmax.
    - intros k ->%list_elem_of_singleton. lia. }
  destruct Hlast as [Em El]; [by rewrite bool_decide_false|].
  destruct (IH o2 (bound + Z.of_nat (length (records n)) + 1)) as (st' & o3 & -> & B1 & B2 & Hb' & [B3 B4] & Hops'); try done.
  - intros k Hk. destruct (Hlogs k) as (f & bl & la & Ef & Hf); [by right|]. exists f, bl, la. by rewrite <- A1 in Ef.
  - lia.
  - intros k Hk. specialize (Hnum k ltac:(by right)). lia.
  - lia.
  - eexists st', o3. split; [done|]. split; [done|]. split; [lia|]. split; [done|].
    split; [by rewrite B3, B4, Hv2|]. intros Hst'. destruct (Hops' Hst') as (Hp' & Hmax' & Hnum').
    split; [|split].
    + rewrite Hp'. change (edit_ops o2) with (edit_ops o1). rewrite Em, app_nil_r in Hp. rewrite Hp, (bind_cons _ n), bind_app. by rewrite app_assoc.
    + rewrite Hmax'. change (op_max o2) with (op_max o1). rewrite Hmax, (bind_cons _ n). by rewrite fmap_app, foldl_app.
    + intros k [->|Hk]%elem_of_cons; [lia|by apply Hnum'].
Qed.
End props.
