(* ===== verification/DbFolder.v ===== *)
(** * A directory with logs

    A small environment for recovery: the manifest is that of [ManifestProps.v]; a batch is its sequence number and its
    operations, a table its entries, and the logs are bytes. *)

From Stdlib Require Import String Strings.Byte.
From stdpp Require Import base list gmap.
From S2P Require Import Prelude LogReader LogProps Doubles Cursor Coding DbFormat VersionEdit VersionFiles VersionState Builder VersionRefs.
From S2P Require Import Compaction Manifest ManifestProps DbState DbBackground DbWrite DbWriteProps DbRecover DbRecoverProps.

#[local] Open Scope Z_scope.

#[local] Existing Instances by_bytes by_bytes_laws reference_coding reference_coding_laws reference_format
  reference_format_laws reference_icmp reference_icmp_laws manifest_format manifest_format_laws world_env world_recovery world_options.

Definition demo_batch : Type := Z * list Z.
Definition demo_memtable : Type := list (Z * Z).

Record Folder := mkFolder { f_manifest : World; f_logs : list (Z * list byte); f_tables : gmap Z demo_memtable }.

Definition on_manifest {A} (r : A * World) (w : Folder) : A * Folder := (r.1, mkFolder r.2 (f_logs w) (f_tables w)).

#[local] Instance folder_env : ManifestEnv Folder := {
  NewWritableFile n w := on_manifest (NewWritableFile n (f_manifest w)) w;
  AddRecord r w := on_manifest (AddRecord r (f_manifest w)) w;
  Sync w := on_manifest (Sync (f_manifest w)) w;
  SetCurrentFile n w := on_manifest (SetCurrentFile n (f_manifest w)) w;
  DeleteFile n w := w }.

(** The names: the manifest [M], logs [L], tables [T]. *)
Definition find_log (n : Z) (w : Folder) : option (list byte) := snd <$> List.find (fun x => x.1 =? n) (f_logs w).

#[local] Instance folder_recovery : RecoveryEnv Folder (list byte) := {
  ReadCurrent w := ReadCurrent (f_manifest w);
  NewSequentialFile name w :=
    match name with
    | [76; n] => match find_log n w with Some bytes => inr bytes | None => inl NotFound end
    | _ => NewSequentialFile name (f_manifest w)
    end;
  ParseDescriptorName name := ParseDescriptorName name;
  GetFileSize name w := GetFileSize name (f_manifest w);
  NewAppendableFile name w := (Ok, w) }.

#[local] Instance folder_directory : DirectoryEnv Folder := {
  GetChildren w := [[67]; world_name (w_number (f_manifest w))] ++ ((fun x => [76; x.1]) <$> f_logs w) ++ ((fun x => [84; x.1]) <$> map_to_list (f_tables w));
  ParseFileName name :=
    match name with
    | [67] => Some (0, kCurrentFile) | [76; n] => Some (n, kLogFile) | [77; n] => Some (n, kDescriptorFile) | [84; n] => Some (n, kTableFile)
    | _ => None
    end;
  RemoveFile _ w := w;
  Evict _ w := w }.

#[local] Instance folder_open : OpenEnv Folder := {
  CreateDir w := w;
  LockFile w := (Ok, w);
  CurrentExists w := bool_decide (is_Some (w_current (f_manifest w)));
  manifest_Close w := (Ok, w);
  children_status _ := Ok;
  LogFileName n := [76; n] }.

#[local] Instance recover_options : OpenOptions := { create_if_missing := false; error_if_exists := false; paranoid_log_checks := true }.
#[local] Instance recover_write_options : WriteOptions := 3.

#[local] Instance recover_batches : Batches demo_batch demo_memtable := {
  batch_Clear := (0, []);
  batch_Count b := Z.of_nat (length b.2);
  batch_ByteSize b := 12 + Z.of_nat (length b.2);
  batch_Append a b := (a.1, a.2 ++ b.2);
  batch_SetSequence n b := (n, b.2);
  batch_Contents b := b.1 :: replicate 11 0 ++ b.2;
  InsertInto b m := (Ok, m ++ zip (seqZ b.1 (Z.of_nat (length b.2))) b.2);
  InsertInto_turn b k m := match b.2 !! k with Some o => (None, m ++ [(b.1 + Z.of_nat k, o)]) | None => (Some Ok, m) end;
  MemTable_new := [];
  ApproximateMemoryUsage m := Z.of_nat (length m) }.

#[local] Instance recover_contents : BatchContents demo_batch := {
  batch_SetContents r := (default 0 (list.head r), drop 12 r);
  batch_GetSequence b := b.1 }.

#[local] Instance recover_batch_laws : BatchLaws demo_batch demo_memtable Z.
Proof.
  unshelve econstructor; [exact snd|exact fst|exact (fun m => m)|..]; try done.
  - intros b m st m' [= <- <-]. exists (length b.2). by rewrite take_ge by lia.
  - intros b k m r m'. cbn. destruct (b.2 !! k) as [o|] eqn:E; intros [= <- <-]; [by exists o|]. split; [done|]. intros _. by apply lookup_ge_None.
Defined.

#[local] Instance folder_tables : MemTableEnv demo_memtable Folder := fun m n w =>
  if bool_decide (m = []) then (Ok, FileMeta n 0 [] [], w)
  else (Ok, FileMeta n (Z.of_nat (length m)) (ikey 1 1) (ikey 1 2), mkFolder (f_manifest w) (f_logs w) (<[n := m]> (f_tables w))).

#[local] Instance no_threads : Threads demo_memtable := { unlocked_versions p := p; unlocked_rest db := db }.

#[local] Instance no_threads_alone : Alone demo_memtable.
Proof. by split. Qed.

#[local] Instance folder_laws : RecoverLaws demo_batch demo_memtable Z Folder.
Proof.
  unshelve econstructor; [exact (fun w n => f_tables w !! n)|..]; try done.
  - intros m n w st meta w'. unfold BuildTable, folder_tables. case_bool_decide as Hm; intros [= <- <- <-]; [by subst|]. split; [done|]. split.
    + intros k Hk. cbn. by rewrite lookup_insert_ne.
    + intros _. cbn [file_size number smallest largest f_tables]. rewrite (proj2 (Z.ltb_lt _ _)) by (destruct m; [done|cbn; lia]).
      split; [done|]. split; [by_compute|]. split; [by_compute|]. exists m. by rewrite lookup_insert_eq.
  - intros name w st w' [= <- <-]. by split.
Defined.

Definition demo_record (n : Z) (ops : list Z) : list Z := n :: replicate 11 0 ++ ops.

Definition closed_db : Db demo_memtable :=
  mkDb [] None false 0 [] ∅ false None ∅ (VersionSet_new 2097152) start_versions Ok false (replicate 7 CompactionStats_new).

