(* ===== verification/DbRecoverTotal.v ===== *)
(** * Recovery from damaged logs ([leveldb-library/db/db_impl.cc])

    Whatever the bytes of the log files are, recovery returns, and unless it was asked to
    be paranoid nothing in them makes it fail. *)

From Stdlib Require Import String Strings.Byte.
From stdpp Require Import base list gmap.
From S2P Require Import Prelude LogReader LogProps Doubles Cursor Coding DbFormat VersionEdit VersionFiles VersionState Builder VersionRefs.
From S2P Require Import Compaction Manifest ManifestProps DbState DbBackground DbWrite DbWriteProps DbRecover DbRecoverProps DbFolder.

#[local] Open Scope Z_scope.

Section total.
Context `{Comparator} `{Coding} `{!InternalKeyFormat, !InternalComparator} `{!ManifestOptions} `{!OpenOptions}.
Context {B M W O : Type} `{!LogFormat, !LogFormatLaws} `{!RecoveryEnv W (list byte)} `{!OpenEnv W}.
Context `{!MemTableEnv M W} `{!Threads M} `{AL : !Alone M} `{!Batches B M} `{!BatchContents B} `{!BatchLaws B M O} `{!WriteOptions}.
Context `{RL : !RecoverLaws B M O W}.
Implicit Types (o : Opening M W).

(** Only the next file number of the versions changes, and files are only added to the edit, at level 0. *)
Record steady o o' : Prop := {
  st_versions : versions_ (op_db o') = with_next_file (vs_next_file_number_ (versions_ (op_db o'))) (versions_ (op_db o));
  st_list : version_list_ (op_db o') = version_list_ (op_db o);
  st_files : exists l, new_files_ (op_edit o') = new_files_ (op_edit o) ++ l /\ Forall (fun x => x.1 = 0) l /\ (l <> [] -> op_save o' = true);
  st_save : op_save o = true -> op_save o' = true;
  st_max : op_max o <= op_max o';
  st_stats : (0 < length (stats_ (op_db o)))%nat -> (0 < length (stats_ (op_db o')))%nat }.

Lemma steady_same o o' : versions_ (op_db o') = with_next_file (vs_next_file_number_ (versions_ (op_db o'))) (versions_ (op_db o)) ->
  version_list_ (op_db o') = version_list_ (op_db o) ->
  op_edit o' = op_edit o -> op_save o' = op_save o -> op_max o <= op_max o' -> stats_ (op_db o') = stats_ (op_db o) -> steady o o'.
Proof using. intros Hv Hl He Hs Hm Ht. split; rewrite ?He, ?Hs, ?Ht; try done. exists []. by rewrite app_nil_r. Qed.

Lemma steady_refl o : steady o o.
Proof using. apply steady_same; try done. apply next_same. Qed.

Lemma steady_trans o1 o2 o3 : steady o1 o2 -> steady o2 o3 -> steady o1 o3.
Proof using.
  intros [A1 A2 (l & A3 & A4 & A5) A6 A7 A8] [B1 B2 (l' & B3 & B4 & B5) B6 B7 B8]. split.
  - by rewrite B1, A1 at 1.
  - by rewrite B2.
  - exists (l ++ l'). split; [by rewrite B3, A3, app_assoc|]. split; [by apply Forall_app|]. intros Hne.
    destruct l as [|x l]; [by apply B5|by apply B6, A5].
  - auto.
  - lia.
  - auto.
Qed.

Lemma write_memtable_returns m o : (0 < length (stats_ (op_db o)))%nat ->
  exists st o', write_memtable m o = Some (st, o') /\ steady o o' /\ op_mem o' = op_mem o /\ op_log o' = op_log o /\ (tables_built -> st = Ok).
Proof using AL RL.
  intros Hs. unfold write_memtable, WriteLevel0Table, new_file_number, NewFileNumber. cbn [versions_ set_versions].
  set (n := vs_next_file_number_ _). destruct (BuildTable m n (op_disk o)) as [[st meta] w'] eqn:E.
  assert (tables_built -> st = Ok) as Hbuilt by (intros Hb; specialize (Hb m n (op_disk o)); by rewrite E in Hb).
  apply BuildTable_ops in E as (_ & _ & Hgood). rewrite unlocked_alone, level0_edit.
  2:{ intros Hst Hpos. specialize (Hgood Hst). rewrite (proj2 (Z.ltb_lt _ _)) in Hgood by done. tauto. }
  cbn [mbind option_bind]. set (db2 := set_pending _ _). unfold add_stats.
  destruct (lookup_lt_is_Some_2 (stats_ db2) 0%nat Hs) as [c Hc]. rewrite Hc. cbn [mbind option_bind].
  eexists st, _. split; [done|]. split; [|by split]. split; try done; cbn [op_db op_edit op_save stats_ set_stats op_max].
  - destruct (bool_decide (st = Ok) && _); [exists [(0, meta)]|exists []]; split; try done; [split; [repeat constructor|done]|by rewrite app_nil_r].
  - by rewrite length_insert.
Qed.

(** Without paranoid checks the status stays. *)
Lemma reported_lax st s : paranoid_log_checks = false -> reported st s = st.
Proof using. unfold reported. by intros ->. Qed.

Lemma insert_record_lax r mem max : paranoid_log_checks = false -> (insert_record r mem max).1.1 = Ok.
Proof using.
  intros Hp. unfold insert_record, MaybeIgnoreError. destruct (InsertInto _ _) as [st m]. rewrite Hp, orb_false_r.
  destruct (decide (st = Ok)) as [->|Hne]; rewrite ?(bool_decide_true (Ok = Ok)), ?(bool_decide_false (st = Ok)) by done; rewrite ?(bool_decide_true (Ok = Ok)) by done; done.
Qed.

Lemma insert_record_max r mem max : max <= (insert_record r mem max).2.
Proof using.
  unfold insert_record. destruct (InsertInto _ _) as [st m]. destruct (bool_decide (MaybeIgnoreError st = Ok)); cbn; [|done].
  case_match eqn:E; cbn; lia.
Qed.

Lemma steady_max z o : op_max o <= z -> steady o (op_set_max z o).
Proof using. intros ?. apply steady_same; try done. apply next_same. Qed.

Lemma log_loop_returns fuel : forall st rd mem c o, (unread rd < fuel)%nat -> bytes_ok rd -> (0 < length (stats_ (op_db o)))%nat ->
  exists st' mem' c' o', log_loop fuel st rd mem c o = Some (st', mem', c', o') /\ steady o o' /\ op_mem o' = op_mem o /\ op_log o' = op_log o /\
    (paranoid_log_checks = false -> tables_built -> st = Ok -> st' = Ok).
Proof using All.
  induction fuel as [|fuel IH]; intros st rd mem c o Hf Hb Hs; [lia|]. cbn [log_loop].
  destruct (ReadRecord_ok rd Hb) as (r & rd' & -> & Hb' & Hle & Hlt). cbn [mbind option_bind].
  set (st1 := match drops rd' with [] => st | _ => _ end).
  assert (paranoid_log_checks = false -> st1 = st) as Hst1 by (intros Hp; unfold st1; destruct (drops rd') as [|[z why] l]; [done|by apply reported_lax]).
  destruct r as [rec|]; [|exists st1, mem, c, o; split; [done|]; split; [apply steady_refl|]; split; [done|]; split; [done|]; intros Hp _ ->; by apply Hst1].
  specialize (Hlt ltac:(done)). destruct (decide (st1 = Ok)) as [Hok|Hne].
  2:{ rewrite bool_decide_false by done. exists st1, mem, c, o. split; [done|]. split; [apply steady_refl|]. split; [done|]. split; [done|].
      intros Hp _ ->. by apply Hst1. }
  rewrite bool_decide_true by done. cbn [negb]. destruct (Z.of_nat (length rec) <? 12).
  { destruct (IH (reported st1 (Corruption "log record too small")) rd' mem c o) as (st' & mem' & c' & o' & -> & H' & E1 & E2 & Hlax); [lia|done..|].
    exists st', mem', c', o'. split; [done|]. split; [done|]. split; [done|]. split; [done|]. intros Hp Ht _. apply Hlax; try done. by rewrite reported_lax. }
  pose proof (insert_record_max rec mem (op_max o)) as Hmax. pose proof (insert_record_lax rec mem (op_max o)) as Hlax.
  destruct (insert_record rec mem (op_max o)) as [[st2 m] max]. cbn [fst snd] in Hmax, Hlax. pose proof (steady_max max o Hmax) as A1.
  destruct (decide (st2 = Ok)) as [->|Hst2].
  2:{ rewrite bool_decide_false by done. exists st2, (Some m), c, (op_set_max max o). split; [done|]. split; [done|]. split; [done|]. split; [done|]. auto. }
  rewrite bool_decide_true by done. cbn [negb]. destruct (write_buffer_size <? ApproximateMemoryUsage m).
  - destruct (write_memtable_returns m (op_set_max max o) Hs) as (st3 & o3 & -> & A3 & E1 & E2 & Ht3). cbn [mbind option_bind].
    destruct (decide (st3 = Ok)) as [->|Hne3].
    + rewrite bool_decide_true by done.
      destruct (IH Ok rd' None (c + 1) o3) as (st' & mem' & c' & o' & -> & A' & E3 & E4 & Hl); [lia|done|by apply A3|].
      exists st', mem', c', o'. split; [done|]. split; [by eapply steady_trans, steady_trans|]. rewrite E3, E4, E1, E2. by split_and!; [| |auto].
    + rewrite bool_decide_false by done. exists st3, None, (c + 1), o3. split; [done|]. split; [by eapply steady_trans|]. by split_and!; [| |auto].
  - destruct (IH Ok rd' (Some m) c (op_set_max max o)) as (st' & mem' & c' & o' & -> & A' & E3 & E4 & Hl); [lia|done|done|].
    exists st', mem', c', o'. split; [done|]. split; [by eapply steady_trans|]. rewrite E3, E4. by split_and!; [| |auto].
Qed.

Lemma reuse_log_returns n mem o : op_log o = false -> op_mem o = None -> exists mem' o', reuse_log n mem o = Some (mem', o') /\ steady o o'.
Proof using.
  intros Hl Hm. unfold reuse_log. rewrite Hl, Hm, bool_decide_true by done. cbn [negb assert_ mbind option_bind]. destruct (GetFileSize _ _) as [st size].
  destruct (bool_decide (st = Ok)); [|exists mem, o; split; [done|apply steady_refl]]. destruct (NewAppendableFile _ _) as [st' w'].
  destruct (bool_decide (st' = Ok)); eexists _, _; (split; [done|]); apply steady_same; try done; apply next_same.
Qed.

Lemma RecoverLogFile_returns n last o : (0 < length (stats_ (op_db o)))%nat -> op_mem o = None -> op_log o = false ->
  exists st o', RecoverLogFile n last o = Some (st, o') /\ steady o o' /\ (last = false -> op_mem o' = None /\ op_log o' = false) /\
    (paranoid_log_checks = false -> tables_built -> st = Ok).
Proof using All.
  intros Hs Hm Hl. unfold RecoverLogFile. destruct (NewSequentialFile (LogFileName n) (op_disk o)) as [st|f].
  { eexists _, o. split; [done|]. split; [apply steady_refl|]. split; [done|]. intros Hp _. unfold MaybeIgnoreError. rewrite Hp, orb_false_r. by case_bool_decide. }
  destruct (log_loop_returns (S (remaining f)) Ok (Reader_new f true true 0) None 0 o) as (st & mem & c & o1 & -> & A1 & E1 & E2 & Hlax); [cbn; lia|constructor|done|].
  cbn [mbind option_bind]. rewrite Hm in E1. rewrite Hl in E2. pose proof (st_stats _ _ A1 Hs) as Hs1. set (reuse := _ && (c =? 0)).
  assert (exists mem' o2, (if reuse then reuse_log n mem o1 else Some (mem, o1)) = Some (mem', o2) /\ steady o1 o2 /\
    (last = false -> op_mem o2 = None /\ op_log o2 = false)) as (mem' & o2 & -> & A2 & Hlast).
  { destruct reuse eqn:Er; [|by exists mem, o1; split; [|split; [apply steady_refl|]]].
    destruct (reuse_log_returns n mem o1 E2 E1) as (mem' & o2 & -> & A2). exists mem', o2. split; [done|]. split; [done|].
    intros ->. unfold reuse in Er. by rewrite !andb_false_r in Er. }
  cbn [mbind option_bind]. assert (steady o o2) as A12 by by eapply steady_trans.
  destruct mem' as [m|]; [|exists st, o2; split; [done|]; split; [done|]; split; [done|]; auto].
  destruct (decide (st = Ok)) as [->|Hne]; [rewrite bool_decide_true by done|rewrite bool_decide_false by done; exists st, o2; split; [done|]; split; [done|]; split; [done|]; auto].
  destruct (write_memtable_returns m o2 (st_stats _ _ A2 Hs1)) as (st3 & o3 & -> & A3 & E3 & E4 & Ht). exists st3, o3. split; [done|].
  split; [by eapply steady_trans|]. rewrite E3, E4. split; [done|]. auto.
Qed.

(** C16 (error): whatever the bytes of the logs are, and whichever logs cannot be opened, recovery of the logs returns: 
    assertion fails. New files go to level 0
    only, and with them the manifest is to be saved; of the versions only the next file number changes, and the largest sequence number never falls.
    Without paranoid checks nothing in the logs makes recovery fail, only a table that cannot be written. *)
Theorem recovery_returns logs : forall o, (0 < length (stats_ (op_db o)))%nat -> op_mem o = None -> op_log o = false ->
  exists st o', recover_logs logs o = Some (st, o') /\
    versions_ (op_db o') = with_next_file (vs_next_file_number_ (versions_ (op_db o'))) (versions_ (op_db o)) /\
    version_list_ (op_db o') = version_list_ (op_db o) /\ op_max o <= op_max o' /\
    (exists l, new_files_ (op_edit o') = new_files_ (op_edit o) ++ l /\ Forall (fun x => x.1 = 0) l /\ (l <> [] -> op_save o' = true)) /\
    (paranoid_log_checks = false -> tables_built -> st = Ok).
Proof using All.
  cut (forall o, (0 < length (stats_ (op_db o)))%nat -> op_mem o = None -> op_log o = false ->
    exists st o', recover_logs logs o = Some (st, o') /\ steady o o' /\ (paranoid_log_checks = false -> tables_built -> st = Ok)).
  { intros Hall o Hs Hm Hl. destruct (Hall o Hs Hm Hl) as (st & o' & E & [] & Hlax). by exists st, o'. }
  induction logs as [|n logs IH]; intros o Hs Hm Hl; cbn [recover_logs]; [by exists Ok, o; split; [|split; [apply steady_refl|]]|].
  destruct (RecoverLogFile_returns n (bool_decide (logs = [])) o Hs Hm Hl) as (st & o1 & -> & A1 & Hlast & Hlax). cbn [mbind option_bind].
  destruct (decide (st = Ok)) as [->|Hne]; [rewrite (bool_decide_true (Ok = Ok)) by done|rewrite (bool_decide_false (st = Ok)) by done; by exists st, o1].
  set (o2 := op_set_db _ o1). assert (steady o1 o2) as A2.
  { apply steady_same; try done. cbn. unfold MarkFileNumberUsed. destruct (_ <=? n); [done|apply next_same]. }
  assert (steady o o2) as A12 by by eapply steady_trans.
  destruct logs as [|n' logs]; [by exists Ok, o2|]. destruct Hlast as [Em El]; [by rewrite bool_decide_false|].
  destruct (IH o2) as (st' & o3 & -> & A3 & Hlax'); [by apply A12|done|done|]. exists st', o3. split; [done|]. split; [by eapply steady_trans|done].
Qed.
End total.

(** ** A damaged log *)

Section demo.
#[local] Existing Instances by_bytes by_bytes_laws reference_coding reference_coding_laws reference_format
  reference_format_laws reference_icmp reference_icmp_laws manifest_format manifest_format_laws world_options
  folder_env folder_recovery folder_directory folder_open recover_write_options recover_batches recover_contents
  recover_batch_laws folder_tables no_threads no_threads_alone folder_laws.

#[local] Instance lax_options : OpenOptions := { create_if_missing := false; error_if_exists := false; paranoid_log_checks := false }.

(** Three records, the second of them too small for a batch, with a bit of the last one changed; the log 5 is not there. *)
Definition damaged_log : list byte :=
  let bytes := records_log [demo_record 8 [10; 20]; [1; 2; 3]; demo_record 10 [30]] in
  to_byte <$> <[(length bytes - 1)%nat := 31]> bytes.

Definition damaged_opening : Opening demo_memtable Folder :=
  mkOpening closed_db None false (mkFolder manifest_world [(4, damaged_log)] ∅) VersionEdit_new false 0.

(** What is left of the log is recovered, or reported when that was asked for. *)
Example damaged_recovered :
  ('(st, o) ← recover_logs [4; 5] damaged_opening; Some (st, map_to_list (f_tables (op_disk o)), op_max o)) = Some (Ok, [(2, [(8, 10); (9, 20)])], 9) /\
  (fst <$> recover_logs (H4 := recover_options) [4; 5] damaged_opening) = Some (Corruption "log record too small").
Proof. split; vm_compute; reflexivity. Qed.

Lemma recovery_returns_witness : exists st o', recover_logs [4; 5] damaged_opening = Some (st, o') /\ st = Ok /\ 0 <= op_max o' /\
  current_ (versions_ (op_db o')) = current_ (versions_ closed_db).
Proof.
  destruct (recovery_returns [4; 5] damaged_opening) as (st & o' & E & Hv & _ & Hm & _ & Hst); [by_compute|done|done|].
  exists st, o'. split; [done|]. split; [|split; [exact Hm|by rewrite Hv]].
  apply Hst; [done|]. intros m n w. unfold BuildTable, folder_tables. by case_bool_decide.
Defined.
End demo.
