(* ===== verification/DbRecoverSpec.v ===== *)
(** * Recovery of a database ([leveldb-library/db/db_impl.cc])

    [DBImpl::Recover] takes up exactly the logs that the manifest does not cover, in order,
    and nothing in them is lost. *)

From Stdlib Require Import String Strings.Byte Sorting.Sorted.
From stdpp Require Import base list sorting gmap.
From S2P Require Import Prelude LogReader LogProps Doubles Cursor Coding DbFormat VersionEdit VersionFiles VersionState Builder VersionRefs.
From S2P Require Import Compaction Manifest ManifestProps DbState DbBackground DbWrite DbWriteProps DbRecover DbRecoverProps DbFolder.

#[local] Open Scope Z_scope.

Lemma foldl_max (a z : Z) l : foldl Z.max (Z.max a z) l = Z.max a (foldl Z.max z l).
Proof. revert z. induction l as [|x l IH]; intros z; [done|]. cbn. by rewrite <- Z.max_assoc, IH. Qed.

(** ** The directory *)

Section directory.
Context {W : Type} `{!DirectoryEnv W}.

(** The number of a log that the manifest does not cover. *)
Definition log_number_of (min_log prev_log : Z) (name : list Z) : option Z :=
  match ParseFileName name with
  | Some (n, kLogFile) => if (min_log <=? n) || (n =? prev_log) then Some n else None
  | _ => None
  end.

Definition dir_logs (s : VersionSet) (w : W) : list Z :=
  merge_sort Z.le (omap (log_number_of (vs_log_number_ s) (vs_prev_log_number_ s)) (GetChildren w)).

Lemma scan_files_ok min_log prev_log names : forall expected logs,
  scan_files min_log prev_log names expected logs =
    (expected ∖ list_to_set (omap (fun name => fst <$> ParseFileName name) names), logs ++ omap (log_number_of min_log prev_log) names).
Proof using.
  induction names as [|name names IH]; intros expected logs; cbn [scan_files omap list_omap].
  - rewrite app_nil_r. f_equal. set_solver.
  - unfold log_number_of at 1. destruct (ParseFileName name) as [[n type]|]; rewrite IH; cbn [fmap option_fmap option_map fst]; [|done].
    f_equal; [set_solver|]. destruct (bool_decide (type = kLogFile)) eqn:Et; [apply bool_decide_eq_true in Et as ->|apply bool_decide_eq_false in Et]; cbn [andb].
    + destruct (_ || _); [by rewrite <- app_assoc|done].
    + by destruct type.
Qed.

(** No file is missing. *)
Definition tables_there (vs : Versions) (w : W) : Prop :=
  forall n, n ∈ AddLiveFiles vs ∅ -> exists name type, name ∈ GetChildren w /\ ParseFileName name = Some (n, type).

End directory.

Section spec.
Context `{Comparator} `{Coding} `{!InternalKeyFormat, !InternalComparator} `{!ManifestOptions} `{!OpenOptions}.
Context {B M W O : Type} `{!LogFormat, !LogFormatLaws} `{!ManifestEnv W} `{!RecoveryEnv W (list byte)} `{!DirectoryEnv W} `{!OpenEnv W}.
Context `{!MemTableEnv M W} `{!Threads M} `{AL : !Alone M} `{!Batches B M} `{!BatchContents B} `{!BatchLaws B M O} `{!WriteOptions}.
Context `{RL : !RecoverLaws B M O W}.

(** C15 (refinement): recovery of a database whose manifest is read, whose tables are there and whose logs are
    whole returns, with the error of a table that could not be written or with OK; then every operation of every record of the logs that the manifest
    does not cover, and no other, is once in a table of the edit or in the memtable that
    stays in use; the new tables are at level 0 and have numbers of their own, from the next file number of the
    manifest on, and the next file number is above theirs, those of the logs, and not below that of the
    manifest; the last sequence number is the largest of the manifest and of all batches;
    otherwise the versions are as the manifest left them, and the manifest is saved if there is a new table. *)
Theorem recovered_all tag_of records bound (db : Db M) w w1 w2 save vset vs w3 :
  tag_ok tag_of -> LockFile (CreateDir w) = (Ok, w1) -> find_database w1 = Some (Ok, w2) ->
  Manifest.Recover (versions_ db) (version_list_ db) w2 = Some (Ok, save, vset, vs, w3) ->
  children_status w3 = Ok -> tables_there vs w3 -> (0 < length (stats_ db))%nat -> 0 <= vs_next_file_number_ vset <= bound ->
  (forall n, n ∈ dir_logs vset w3 -> 0 <= n < bound /\ log_holds tag_of w3 n (records n)) ->
  bound + Z.of_nat (length (dir_logs vset w3 ≫= records) + length (dir_logs vset w3)) < 2 ^ 64 ->
  exists st o', Db_Recover (mkOpening db None false w VersionEdit_new false 0) = Some (st, o') /\ (tables_built -> st = Ok) /\
    (st = Ok ->
      edit_ops o' ++ from_option mem_entries [] (op_mem o') ≡ₚ (dir_logs vset w3 ≫= records) ≫= record_ops /\
      (forall n, n ∈ dir_logs vset w3 -> n < vs_next_file_number_ (versions_ (op_db o'))) /\
      vs_next_file_number_ vset <= vs_next_file_number_ (versions_ (op_db o')) /\
      (forall x, x ∈ new_files_ (op_edit o') -> x.1 = 0 /\ vs_next_file_number_ vset <= number x.2 < vs_next_file_number_ (versions_ (op_db o'))) /\
      NoDup ((fun x => number x.2) <$> new_files_ (op_edit o')) /\
      versions_ (op_db o') = with_sequence (foldl Z.max (Z.max (vs_last_sequence_ vset) 0) (record_last <$> (dir_logs vset w3 ≫= records)))
        (with_next_file (vs_next_file_number_ (versions_ (op_db o'))) vset) /\
      version_list_ (op_db o') = vs /\ (op_save o' = false -> new_files_ (op_edit o') = [])).
Proof using All.
  intros Htag Hlock Hfind Hman Hch Htab Hst Hnext Hlogs Hlt. unfold Db_Recover. cbn [op_disk]. rewrite Hlock, (bool_decide_true (Ok = Ok)) by done. cbn [negb op_disk op_set_disk].
  rewrite Hfind. cbn [mbind option_bind]. rewrite (bool_decide_true (Ok = Ok)) by done. cbn [negb op_disk op_set_disk op_db]. rewrite Hman. cbn [mbind option_bind].
  rewrite !(bool_decide_true (Ok = Ok)), Hch, !(bool_decide_true (Ok = Ok)) by done. cbn [negb]. rewrite scan_files_ok, bool_decide_true.
  2:{ apply set_eq. intros n. split; [|set_solver]. intros [Hn Hn']%elem_of_difference. exfalso. apply Hn', elem_of_list_to_set.
      apply list_elem_of_omap. destruct (Htab n Hn) as (name & type & Hin & E). exists name. by rewrite E. }
  cbn [negb app]. fold (dir_logs vset w3).
  match goal with |- context [recover_logs _ ?x] => set (o := x) end.
  destruct (recover_logs_ok (vs_next_file_number_ vset) tag_of Htag records (dir_logs vset w3) o bound) as (st & o' & -> & Ho & Hle & Hb & [Hv Hl] & Hops); try done.
  - split; [cbn; lia|done|by intros ? ?%elem_of_nil|constructor|done].
  - intros n Hn. by apply Hlogs.
  - cbn. lia.
  - intros n Hn. by apply Hlogs.
  - cbn [mbind option_bind]. case_bool_decide as Hok; [|by exists st, o'].
    destruct (Hops Hok) as (Hp & Hmax & Hnum). cbn [op_db versions_ set_versions o] in Hv, Hl.
    set (last := foldl Z.max (Z.max (vs_last_sequence_ vset) 0) _).
    assert (last = Z.max (vs_last_sequence_ vset) (op_max o')) as Hlast.
    { rewrite Hmax. apply foldl_max. }
    set (v' := if _ <? op_max o' then _ else _).
    assert (v' = Some (with_sequence last (versions_ (op_db o')))) as ->.
    { subst v'. rewrite Hlast, Hv. cbn [vs_last_sequence_ with_next_file]. destruct (Z.ltb_spec (vs_last_sequence_ vset) (op_max o')) as [Hlt'|Hge].
      - unfold SetLastSequence. cbn [vs_last_sequence_ with_next_file]. rewrite (proj2 (Z.leb_le _ _)) by lia. cbn. by rewrite Z.max_r by lia.
      - rewrite Z.max_l by lia. by destruct vset. }
    cbn [mbind option_bind]. eexists Ok, _. split; [done|]. split; [done|]. intros _. split; [exact Hp|].
    split; [exact Hnum|]. split; [apply Ho|]. split; [exact (oo_numbers _ _ Ho)|]. split; [apply Ho|]. split; [|split; [exact Hl|apply Ho]].
    cbn. by rewrite Hv.
Qed.
End spec.

(** ** A directory with logs *)

Section demo.
#[local] Existing Instances by_bytes by_bytes_laws reference_coding reference_coding_laws reference_format
  reference_format_laws reference_icmp reference_icmp_laws manifest_format manifest_format_laws world_options
  folder_env folder_recovery folder_directory folder_open recover_options recover_write_options recover_batches recover_contents
  recover_batch_laws folder_tables no_threads no_threads_alone folder_laws.

(** The log 3 is covered by the manifest; the log 9 was made when 9 was the next number; the batches of the log 4
    fill the memtable once. *)
Definition demo_records (n : Z) : list (list Z) :=
  match n with
  | 9 => [demo_record 14 [60]]
  | 3 => [demo_record 1 [5]]
  | 4 => [demo_record 8 [10; 20]; demo_record 10 [30; 40; 50]; demo_record 13 [55]]
  | _ => []
  end.

Definition demo_folder : Folder :=
  mkFolder manifest_world
    ((fun n => (n, to_byte <$> records_log (demo_records n))) <$> [9; 3; 4])
    {[ 7 := [(7, 1)] ]}.

Example demo_recovered :
  ('(st, o) ← Db_Recover (mkOpening closed_db None false demo_folder VersionEdit_new false 0);
   Some (st, map (fun x => (x.1, number x.2)) (new_files_ (op_edit o)), map_to_list (f_tables (op_disk o)), (op_mem o, logfile_number_ (op_db o)),
         (vs_next_file_number_ (versions_ (op_db o)), vs_last_sequence_ (versions_ (op_db o))))) =
  Some (Ok, [(0, 9); (0, 10)], [(7, [(7, 1)]); (9, [(8, 10); (9, 20); (10, 30); (11, 40); (12, 50)]); (10, [(13, 55)])],
        (Some [(14, 60)], 9), (11, 14)).
Proof. vm_compute. reflexivity. Qed.

(** A table of the current version that is not there. *)
Example demo_missing :
  (fst <$> Db_Recover (mkOpening closed_db None false (mkFolder manifest_world [] ∅) VersionEdit_new false 0)) = Some (Corruption "%d missing files; e.g.").
Proof. vm_compute. reflexivity. Qed.

Lemma demo_log_holds n : n = 4 \/ n = 9 -> log_holds demo_tag demo_folder n (demo_records n).
Proof.
  intros Hn. assert (fits_block (demo_records n)) as Hfit by (destruct Hn as [->| ->]; by_compute).
  destruct (world_log _ Hfit) as [Hc Hlog]. eexists _, _, _. split; [|split; [exact Hc|split; [exact Hlog|split; [apply records_physicals|]]]].
  - destruct Hn as [->| ->]; reflexivity.
  - destruct Hn as [->| ->]; repeat apply List.Forall_cons; try apply List.Forall_nil; (split; [by_compute|done]).
Qed.

Definition manifest_read := Manifest.Recover (versions_ closed_db) (version_list_ closed_db) demo_folder.

(** The table of the same number as a log is not missed. *)
Example missing_table_masked :
  (fst <$> Db_Recover (mkOpening closed_db None false (mkFolder manifest_world [(7, [])] ∅) VersionEdit_new false 0)) = Some Ok.
Proof. vm_compute. reflexivity. Qed.

(** The records of the logs 4 and 9 are recovered, in this order. *)
Lemma recovered_all_witness : exists save vset vs w3 st o', manifest_read = Some (Ok, save, vset, vs, w3) /\ dir_logs vset w3 = [4; 9] /\
  Db_Recover (mkOpening closed_db None false demo_folder VersionEdit_new false 0) = Some (st, o') /\ st = Ok /\
  edit_ops o' ++ from_option mem_entries [] (op_mem o') ≡ₚ [(8, 10); (9, 20); (10, 30); (11, 40); (12, 50); (13, 55); (14, 60)] /\
  9 < vs_next_file_number_ (versions_ (op_db o')).
Proof.
  destruct manifest_read as [[[[[st0 save] vset] vs] w3]|] eqn:E; [|by vm_compute in E].
  pose proof E as Ev. vm_compute in Ev. injection Ev as Est Esave Evset Evs Ew. subst st0.
  assert (dir_logs vset w3 = [4; 9]) as Hlogs by (subst; vm_compute; reflexivity).
  assert (demo_folder = w3) as Hw by (subst; vm_compute; reflexivity).
  assert (tables_there vs w3) as Htab.
  { assert (AddLiveFiles vs ∅ = {[ 7 ]}) as Hlive by (subst; vm_compute; reflexivity). unfold tables_there. rewrite Hlive.
    intros n ->%elem_of_singleton. exists [84; 7], kTableFile. subst. by_compute. }
  assert (0 <= vs_next_file_number_ vset <= 10) as Hnext by (subst; by_compute).
  assert (dir_logs vset w3 ≫= demo_records = demo_records 4 ++ demo_records 9) as Hrecs by (rewrite Hlogs; vm_compute; reflexivity).
  assert (find_database demo_folder = Some (Ok, demo_folder)) as Hfind by (vm_compute; reflexivity).
  assert (LockFile (CreateDir demo_folder) = (Ok, demo_folder)) as Hlock by reflexivity.
  assert (children_status w3 = Ok) as Hch by reflexivity.
  clear Esave Evset Evs Ew.
  destruct (recovered_all demo_tag demo_records 10 closed_db demo_folder demo_folder demo_folder save vset vs w3
    manifest_tag_ok Hlock Hfind E Hch Htab) as (st & o' & Er & Hst & Hok).
  - by_compute.
  - exact Hnext.
  - rewrite Hlogs, <- Hw. intros n [-> | ->%list_elem_of_singleton]%elem_of_cons; (split; [lia|apply demo_log_holds; lia]).
  - rewrite Hlogs. vm_compute. reflexivity.
  - exists save, vset, vs, w3, st, o'. assert (st = Ok) as Hst'.
    { apply Hst. intros m n w. unfold BuildTable, folder_tables. by case_bool_decide. }
    destruct (Hok Hst') as (Hp & Hn & _). rewrite Hrecs in Hp. rewrite Hlogs in Hn. do 4 (split; [done|]). split; [exact Hp|]. apply Hn, elem_of_cons. right. by apply list_elem_of_singleton.
Defined.
(** ** A new database *)

#[local] Instance folder_log : LogFile Folder := {
  log_AddRecord _ w := (Ok, w);
  logfile_Sync w := (Ok, w);
  new_log_file n w := (Ok, mkFolder (f_manifest w) (f_logs w ++ [(n, [])]) (f_tables w)) }.

Definition creating : OpenOptions := {| create_if_missing := true; error_if_exists := true; paranoid_log_checks := true |}.
Definition empty_folder : Folder := mkFolder (mkWorld [] 0 None Ok) [] ∅.

(** It is made and has a log, which the manifest, kept in use, does not name; opening again is refused, or takes the log up. *)
Example new_database :
  ('(st, opened, w) ← Db_Open (H4 := creating) closed_db empty_folder;
   '(db, _) ← opened;
   let s := versions_ db in
   Some (st, (f_logs w, vs_next_file_number_ s, vs_log_number_ s, logfile_number_ db), (w_current (f_manifest w), length (w_records (f_manifest w))),
         fst ∘ fst <$> Db_Open (H4 := creating) closed_db w,
         ('(_, opened, _) ← Db_Open closed_db w; '(db, _) ← opened; Some (logfile_number_ db)))) =
  Some (Ok, ([(3, [])], 4, 0, 3), (Some 1, 1%nat), Some (InvalidArgument "exists (error_if_exists is true)"), Some 3).
Proof. vm_compute. reflexivity. Qed.
End demo.
